(* ===== verification/_CoqProject ===== *)
-Q . S2P
Prelude.v
Kinds.v
Text.v
LuaLexer.v
LuaLexerProofs.v
DocLexer.v
DocLexerProofs.v
Marker.v
Discipline.v
Rules.v
LuaParser.v
DocParser.v
LuaParserProofs.v
DocParserProofs.v
LuaGrammar.v
LuaGrammarRules.v
LuaExprProofs.v
LuaStatProofs.v
LuaChunkProofs.v
DocGrammar.v
DocGrammarRules.v
DocTypeProofs.v
DocTagProofs.v
DocCommentProofs.v
TreeBuilder.v
TreeReplay.v
TreeProofs.v
Literals.v
LiteralProofs.v
LiteralEdits.v
LineIndex.v
LineIndexProofs.v
Pipeline.v
FileOrder.v
FileOrderProofs.v
Dependency.v
DependencyProofs.v
DependencySpec.v
EditMap.v
EditDiffProofs.v
EditLineProofs.v
EditRunProofs.v
EditMatchProofs.v
EditMapProofs.v
EditThenProofs.v
EditMapSpec.v
EditRemap.v
CopyOnWrite.v
CopyOnWriteProofs.v
CopyOnWriteSpec.v
Readers.v
ReadersProofs.v
ReadersSpec.v
Derivation.v
KeyTable.v
FactKey.v
ReaderGraph.v
KeyTableProofs.v
KeyUseProofs.v
KeyReleaseProofs.v
ReaderGraphProofs.v
RecordProofs.v
ReplaceProofs.v
ReaderGraphSpec.v
DeclTree.v
DeclWalk.v
DeclTreeProofs.v
DeclWalkProofs.v
DeclEventsProofs.v
DeclTreeSpec.v
ModuleIndex.v
ModuleIndexProofs.v
ModuleIndexSpec.v
GlobalIndex.v
GlobalIndexProofs.v
GlobalTaskProofs.v
GlobalIndexSpec.v
