(* ===== verification/Prelude.v ===== *)
(** * gmod-glua-ls: a verification development

    gmod-glua-ls is a language server for Lua with the annotations of EmmyLua
    and the extensions of Garry's Mod, written in Rust.  Its work is a
    pipeline: [crates/glua_parser] turns the text of a file into a lossless
    syntax tree; [crates/glua_code_analysis] files what the trees say in an
    index ([db_index]), evaluates derivations over it until nothing moves any
    more, and answers questions of types from it; [crates/glua_ls] and
    [crates/glua_check] are the protocol and the command line over it.

    The development models the parts of this that carry their own logic and
    keep a state whose correctness can be stated: all of the parser, and of
    the code analysis the storage and bookkeeping that incremental analysis
    rests on.  Every definition is executable and follows the function of the
    source with the same name; a [&mut self] method takes the state and gives
    it back.

    ** How failures are modelled

    [outcome] of this file has three values: [Done], [Panic] (an index out of
    range, a slice off a character boundary, an underflow, [unreachable!] or
    [expect]) and [OutOfFuel].  A theorem that the code returns says [Done]
    and so excludes the other two.  The parsers are written in the state monad
    [M] over it.  Integers are [N] or [nat] with the wrapping or the check
    written out where the source relies on the width.

    ** The parser: crates/glua_parser/src

    - Kinds.v ([kind/], [lexer/lexer_config.rs]): token and syntax kinds with
      their discriminants, operators and priorities, the configuration.
    - Text.v ([text/text_range.rs], [text/reader.rs]): UTF-8 texts as lists of
      characters, byte ranges, the reader.
    - LuaLexer.v, LuaLexerProofs.v ([lexer/lua_lexer.rs]): the tokens lie end to
      end over the text up to its first NUL.
    - DocLexer.v, DocLexerProofs.v ([lexer/lua_doc_lexer.rs]): the fifteen
      states of the lexer inside comments; each takes a character or is done.
    - Marker.v, Discipline.v, Rules.v ([parser/marker.rs]): the flat list of
      events both parsers write, the discipline that makes it a tree (every
      start has its end, parent links go forward and are used once), and the
      rules by which the steps of a grammar keep it.
    - LuaParser.v, DocParser.v with LuaParserProofs.v, DocParserProofs.v
      ([parser/lua_parser.rs], [parser/lua_doc_parser.rs]): the token cursors.
      The doc parser borrows the Lua parser; the class [DocCommentsLaws] says
      what the Lua grammar relies on, and DocCommentProofs.v discharges it.
    - LuaGrammar.v with LuaGrammarRules.v, LuaExprProofs.v, LuaStatProofs.v,
      LuaChunkProofs.v ([grammar/lua/]) and DocGrammar.v with DocGrammarRules.v,
      DocTypeProofs.v, DocTagProofs.v, DocCommentProofs.v ([grammar/doc/]): the
      whole recursive descent with its recovery; it returns on every token
      list and eats it all.
    - TreeBuilder.v, TreeReplay.v, TreeProofs.v ([syntax/tree/]): the replay of the
      events and the attachment of trivia, down to the green builder of rowan.
    - Pipeline.v ([LuaParser::parse]): the composition, and that the text of the
      tree is the text of the file.
    - Literals.v, LiteralProofs.v ([syntax/node/token/]): values of string and
      integer tokens.  LiteralEdits.v: a load path that is rewritten in a literal
      (the analysis' [load_path_rename.rs]) is read back when the file is lexed
      anew.
    - LineIndex.v, LineIndexProofs.v ([text/line_index.rs], [vfs/document.rs] of the
      analysis): offsets, lines, columns in UTF-16 units and LSP ranges.

    ** The index: crates/glua_code_analysis/src/db_index

    - CopyOnWrite.v, CopyOnWriteProofs.v, CopyOnWriteSpec.v ([cow_shards.rs]): the
      storage that tasks fork and that is merged back: it refines a finite map,
      and an install is a three-way merge, in order or on worker threads.
    - FileOrder.v, FileOrderProofs.v
      ([dependency/file_dependency_relation.rs]): the levels in which files are
      analysed: complete, and in order up to cycles.
    - Dependency.v, DependencyProofs.v, DependencySpec.v ([dependency/mod.rs]):
      which file loads which; the reverse indexes agree with the sites under
      every sequence of operations, what a file that leaves and comes back
      resolves is exact, and every change of a fact is noted.
    - EditMap.v, EditDiffProofs.v, EditLineProofs.v, EditRunProofs.v,
      EditMatchProofs.v, EditMapProofs.v, EditThenProofs.v, EditMapSpec.v, EditRemap.v
      ([edit/position_map.rs]): the hunks between two texts, the map of offsets
      and ranges that they give, and the identities that it moves.
    - Derivation.v ([derivation/mod.rs]): stages, kinds and identities of
      derivations with the order of evaluation; fingerprints.
    - Readers.v, ReadersProofs.v, ReadersSpec.v, KeyTable.v, ReaderGraph.v
      ([derivation/graph.rs]): which derivation read which fact and what it saw
      of it; interned keys with their marks; records.
      FactKey.v holds the keys themselves, each with the key it is read out
      of and the file that owns it.  KeyTableProofs.v, KeyUseProofs.v,
      KeyReleaseProofs.v: interning and releasing keys keep the table sound,
      and no key goes while something uses it.  ReaderGraphProofs.v,
      RecordProofs.v, ReplaceProofs.v, ReaderGraphSpec.v: the invariant that ties
      records, readers, producers and keys, and that replacing a record keeps it
      and files exactly what it is given.
    - DeclTree.v ([declaration/]): declarations, scopes, the visit sets and the
      searches of a file's declaration tree.  DeclWalk.v
      ([compilation/analyzer/decl/mod.rs]): the walk that opens scopes and
      files declarations in them.  DeclTreeProofs.v: when the visit sets say what
      the children of the scopes say, a search is a scan of the children.
      DeclWalkProofs.v, DeclEventsProofs.v: the walk keeps them so.
      DeclTreeSpec.v: the theorems, and a file walked.
    - ModuleIndex.v ([module/] and [kind/lua_version.rs]): which file is which
      module, the tree of dotted paths, workspaces with their order, lookups,
      exports and legacy environments.  ModuleIndexProofs.v, ModuleIndexSpec.v:
      every module is filed where its path leads, and a lookup finds the first
      that the workspace sees, whatever was registered and removed before.
    - GlobalIndex.v ([global/]): the declarations of each global name in canonical
      order, their fingerprints, and the merge of the forks of tasks.
      GlobalIndexProofs.v, GlobalTaskProofs.v, GlobalIndexSpec.v: the lists depend
      only on what is declared, every change is noted, a workspace sees the
      nearest tier, and a step of parallel tasks is the sequential run.

    ** What the groups of theorems show

    Round trips (the tree has the text of the file, positions, values of
    literals, edits and their inverse, removal and return of files), totality
    and termination (no input makes a lexer or a parser panic or loop, the
    levels and the diff always come), invariants and refinements (the
    discipline of the events, the reverse indexes, the map behind the shards,
    the graph of readers), equivalences (parallel and sequential installs, the
    one-pass change of readers, the cut of released slots, the search for a
    name and the scan of the scopes) and error behaviour
    (what is too deep, what is unfinished).  PROJECT.json lists them in order.

    ** Bounds and fuel

    Structural recursion is used where the code recurses on data.  Elsewhere
    the fuel is a measure of the input and a theorem says that it is enough:
    the loops of the Lua parser get [loop_fuel], two more than twice the tokens;
    those of the doc parser [doc_fuel], two more than the end offset of the group;
    nesting is bounded by the stack query, which is a parameter ([Stack]) with
    the law that it refuses below [max_nesting]; the search for dependents has
    the files and the size of the table; the matching of lines one more than
    the lines of the old text; overlaps the stretches of both maps; merges and
    [diff_reads] the lengths of both lists; releasing and interning a key two,
    the key and its base; the search for a scope the scopes of the tree, the walk
    up twice as many; the way up from an emptied module one more than the nodes;
    the next free id of a workspace the workspaces and two.  Byte offsets are below [2 ^ 32] where the code
    narrows to [u32] ([text_range_from] wraps and leaves out the assertion on the
    order of the ends, which a longer text could break); the ids of the nodes of
    the module tree are not bounded, though the code counts them in a [u32]: it
    would take [2 ^ 32] nodes in memory to run out.

    Iteration over hash maps and sets is through stdpp's [elements] and
    [map_to_list]: theorems hold for that order, and where the code sorts the
    result the order does not show.  Work on worker threads is modelled as the
    result of its steps in one order, and the theorems of commutation say why
    the order does not matter.  Fresh allocations ([Arc]) are a supply of
    addresses in CopyOnWrite.v; stamps are a clock in the graph.  What the
    recorded evaluation is told is kept in the log [noted].

    ** What is not modelled

    - [f64] values of numbers ([powi] has no specified precision); the node
      cache of rowan, which only shares equal nodes; freeing memory apart.
    - The typed views of syntax nodes ([syntax/node]) are casts and child
      searches over rowan's red tree, generated by macros for the most part.
    - Inference over the whole database ([compilation], [semantic],
      [diagnostic]): mutually recursive over every index, most of its inputs
      being the indexes that are not modelled here.
    - The other indexes of [db_index] (types, members, signatures, properties,
      references, flow, operators, metatables, the [gmod_*] ones) and the
      recording of evaluations ([derivation/frames], [transport], [positions],
      [query]); of them only the identities that the modelled parts use are here.
    - The regular expressions of module patterns: matching and replacing are
      arguments.
    - [glua_ls], [glua_check], [glua_code_style], [glua_doc_cli],
      [glua_parser_desc], [schema_to_glua], the macros and the tools: protocol,
      command line, formatting and rendering; [vendor] is third-party code. *)

From Stdlib Require Export ZArith NArith String Ascii Lia.
From stdpp Require Export base list option numbers.
From stdpp Require Import sorting.

(** ** Outcomes of a computation

    A Rust function of the modelled code may return, may panic (an index out
    of range, a slice that is not on a character boundary, an arithmetic
    underflow, [unreachable!]) or, in a model with explicit fuel, may run out
    of it.  The three cases are kept apart so that a theorem that the code
    returns excludes both of the others. *)

Inductive outcome (A : Type) : Type :=
  | Done (a : A)
  | Panic
  | OutOfFuel.
Arguments Done {A} _.
Arguments Panic {A}.
Arguments OutOfFuel {A}.

#[global] Instance outcome_ret : MRet outcome := fun A a => Done a.
#[global] Instance outcome_bind : MBind outcome := fun A B f m =>
  match m with Done a => f a | Panic => Panic | OutOfFuel => OutOfFuel end.

(** A value that the code unwraps, outside the state monad. *)
Definition expect {A} (o : option A) : outcome A :=
  match o with Some a => Done a | None => Panic end.

(** Rust's [Result]. *)
Inductive Result (A E : Type) : Type :=
  | Ok (a : A)
  | Err (e : E).
Arguments Ok {A E} _.
Arguments Err {A E} _.

Definition is_err {A E} (r : Result A E) : bool :=
  match r with Ok _ => false | Err _ => true end.

(** ** The state monad of a [&mut self] method *)

Definition M (St A : Type) : Type := St -> outcome (A * St).

Definition ret {St A} (a : A) : M St A := fun s => Done (a, s).

Definition bind {St A B} (m : M St A) (k : A -> M St B) : M St B :=
  fun s => match m s with
           | Done (a, s') => k a s'
           | Panic => Panic
           | OutOfFuel => OutOfFuel
           end.

Definition panic {St A} : M St A := fun _ => Panic.
Definition out_of_fuel {St A} : M St A := fun _ => OutOfFuel.
Definition gets {St A} (f : St -> A) : M St A := fun s => Done (f s, s).
Definition modify {St} (f : St -> St) : M St unit := fun s => Done (tt, f s).

(** A value that the code unwraps: [None] is a panic. *)
Definition unwrap {St A} (o : option A) : M St A :=
  match o with Some a => ret a | None => panic end.

Declare Scope prog_scope.
Delimit Scope prog_scope with prog.
Notation "x <- m ;; k" := (bind m (fun x => k))
  (at level 100, m at next level, right associativity) : prog_scope.
Notation "m ;;; k" := (bind m (fun _ => k))
  (at level 100, k at level 200, right associativity) : prog_scope.

Notation "'let*' p := m 'in' k" := (bind m (fun x => match x with p => k end))
  (at level 100, p pattern, m at level 200, k at level 200, right associativity) : prog_scope.

(** The [?] operator: [x <~ m ;; k] goes on with the value of an [Ok] and
    returns an [Err] to the caller as it is. *)
Definition bind_result {St A B E} (m : M St (Result A E))
    (k : A -> M St (Result B E)) : M St (Result B E) :=
  bind m (fun r => match r with Ok a => k a | Err e => ret (Err e) end).
Notation "x <~ m ;; k" := (bind_result m (fun x => k))
  (at level 100, m at next level, right associativity) : prog_scope.

(** A conditional statement without an [else]. *)
Definition when {St} (b : bool) (m : M St unit) : M St unit :=
  if b then m else ret tt.

(** A [for] loop over a list whose variable is [s]. *)
Fixpoint for_each {St A S} (body : S -> A -> M St S) (l : list A) (s : S) : M St S :=
  match l with
  | [] => ret s
  | a :: l' => bind (body s a) (for_each body l')
  end.

(** A loop: the body takes the loop variables and either goes round again
    ([inl]) or leaves the loop with a value ([inr]: a [break], a [return] or a
    false condition). *)
Fixpoint loop {St A B} (fuel : nat) (body : A -> M St (A + B)) (a : A) : M St B :=
  match fuel with
  | O => out_of_fuel
  | S n => bind (body a) (fun r => match r with
                                   | inl a' => loop n body a'
                                   | inr b => ret b
                                   end)
  end.

(** A loop whose fuel is computed from the state in which it starts. *)
Definition loop_from {St A B} (fuel : St -> nat) (body : A -> M St (A + B)) (a : A)
    : M St B :=
  fun s => loop (fuel s) body a s.

(** [while cond { body }]. *)
Definition while_ {St} (fuel : St -> nat) (cond : St -> bool) (body : M St unit)
    : M St unit :=
  loop_from fuel (fun _ => bind (gets cond) (fun c =>
    if c then bind body (fun _ => ret (inl tt)) else ret (inr tt))) tt.

(** ** Weakest preconditions (total correctness)

    [wp m Q s]: started in [s], [m] returns, does not panic, does not run out
    of fuel, and its result and final state satisfy [Q]. *)

Definition wp {St A} (m : M St A) (Q : A -> St -> Prop) (s : St) : Prop :=
  match m s with
  | Done (a, s') => Q a s'
  | Panic => False
  | OutOfFuel => False
  end.

Section WpRules.
Context {St : Type}.

Lemma wp_mono {A} (m : M St A) (P Q : A -> St -> Prop) s :
  wp m P s -> (forall a s', P a s' -> Q a s') -> wp m Q s.
Proof. unfold wp. destruct (m s) as [[a s']| |]; auto. Qed.

Lemma wp_ret {A} (a : A) (Q : A -> St -> Prop) s : Q a s -> wp (ret a) Q s.
Proof. exact id. Qed.

Lemma wp_gets {A} (f : St -> A) (Q : A -> St -> Prop) s :
  Q (f s) s -> wp (gets f) Q s.
Proof. exact id. Qed.

Lemma wp_modify (f : St -> St) (Q : unit -> St -> Prop) s :
  Q tt (f s) -> wp (modify f) Q s.
Proof. exact id. Qed.

Lemma wp_unwrap {A} (o : option A) (a : A) (Q : A -> St -> Prop) s :
  o = Some a -> Q a s -> wp (unwrap o) Q s.
Proof. by intros ->. Qed.

Lemma wp_bind {A B} (m : M St A) (k : A -> M St B) (Q : B -> St -> Prop) s :
  wp m (fun a s' => wp (k a) Q s') s -> wp (bind m k) Q s.
Proof. unfold wp, bind. destruct (m s) as [[a s']| |]; auto. Qed.

Lemma wp_bind_inv {A B} (m : M St A) (k : A -> M St B) (Q : B -> St -> Prop) s :
  wp (bind m k) Q s -> wp m (fun a s' => wp (k a) Q s') s.
Proof. unfold wp, bind. destruct (m s) as [[a s']| |]; auto. Qed.

(** Sequencing through an intermediate assertion: the continuation is
    verified once, whatever branch the first statement took. *)
Lemma wp_seq {A B} (P : A -> St -> Prop) (m : M St A) (k : A -> M St B)
    (Q : B -> St -> Prop) s :
  wp m P s -> (forall a s', P a s' -> wp (k a) Q s') -> wp (bind m k) Q s.
Proof. intros Hm Hk. apply wp_bind. eapply wp_mono; eauto. Qed.

Lemma wp_bind_result {A B E} (m : M St (Result A E))
    (k : A -> M St (Result B E)) (Q : Result B E -> St -> Prop) s :
  wp m (fun r s' => match r with
                    | Ok a => wp (k a) Q s'
                    | Err e => Q (Err e) s'
                    end) s ->
  wp (bind_result m k) Q s.
Proof.
  intros H. apply wp_bind. eapply wp_mono; [exact H|].
  intros [a|e] s' H'; [exact H'|]. by apply wp_ret.
Qed.

Lemma wp_when (b : bool) (m : M St unit) (Q : unit -> St -> Prop) s :
  (b = true -> wp m Q s) -> (b = false -> Q tt s) -> wp (when b m) Q s.
Proof. destruct b; simpl; intros Ht Hf; [by apply Ht|by apply wp_ret, Hf]. Qed.

Lemma wp_for_each {A S} (I : list A -> S -> St -> Prop) (body : S -> A -> M St S)
    (Q : S -> St -> Prop) l :
  (forall done_ a rest x s, l = done_ ++ a :: rest -> I done_ x s ->
     wp (body x a) (I (done_ ++ [a])) s) ->
  (forall x s, I l x s -> Q x s) ->
  forall x s, I [] x s -> wp (for_each body l x) Q s.
Proof.
  intros Hbody HQ.
  assert (H : forall rest done_ x s, l = done_ ++ rest -> I done_ x s ->
            wp (for_each body rest x) Q s).
  { induction rest as [|a rest IH]; intros d x s Hl HI; simpl.
    - apply wp_ret, HQ. by rewrite Hl, app_nil_r.
    - apply wp_bind. eapply wp_mono; [by eapply Hbody|].
      intros x' s' HI'. apply (IH (d ++ [a])); [|done]. by rewrite <- app_assoc. }
  intros x s HI. by apply (H l []).
Qed.

(** The loop rule: an invariant and a measure that every further round
    decreases; the fuel only has to exceed the measure. *)
Lemma wp_loop {A B} (I : A -> St -> Prop) (mu : A -> St -> nat)
    (body : A -> M St (A + B)) (Q : B -> St -> Prop) :
  (forall a s, I a s ->
     wp (body a) (fun r s' => match r with
                              | inl a' => I a' s' /\ mu a' s' < mu a s
                              | inr b => Q b s'
                              end) s) ->
  forall fuel a s, I a s -> mu a s < fuel -> wp (loop fuel body a) Q s.
Proof.
  intros Hbody fuel. induction fuel as [|n IH]; intros a s HI Hmu; [lia|].
  simpl. apply wp_bind. eapply wp_mono; [by apply Hbody|].
  intros [a'|b] s'; simpl; [|done]. intros [HI' Hlt]. apply IH; [done|lia].
Qed.

Lemma wp_loop_from {A B} (I : A -> St -> Prop) (mu : A -> St -> nat)
    (fuel : St -> nat) (body : A -> M St (A + B)) (Q : B -> St -> Prop) a s :
  (forall a s, I a s ->
     wp (body a) (fun r s' => match r with
                              | inl a' => I a' s' /\ mu a' s' < mu a s
                              | inr b => Q b s'
                              end) s) ->
  I a s -> mu a s < fuel s -> wp (loop_from fuel body a) Q s.
Proof. intros. unfold wp, loop_from. eapply wp_loop; eauto. Qed.

Lemma wp_while (I : St -> Prop) (mu : St -> nat) (fuel : St -> nat)
    (cond : St -> bool) (body : M St unit) (Q : unit -> St -> Prop) s :
  (forall s, I s -> cond s = true ->
     wp body (fun _ s' => I s' /\ mu s' < mu s) s) ->
  (forall s, I s -> cond s = false -> Q tt s) ->
  I s -> mu s < fuel s -> wp (while_ fuel cond body) Q s.
Proof.
  intros Hbody Hexit HI Hmu.
  apply (wp_loop_from (fun _ => I) (fun _ => mu)); [|done|done].
  intros [] s' HI'. apply wp_bind, wp_gets.
  destruct (cond s') eqn:Hc; [|apply wp_ret; auto].
  apply wp_bind. eapply wp_mono; [by apply Hbody|]. auto.
Qed.
End WpRules.

(** ** Characters and strings

    A Rust [char] is a Unicode scalar value, a [&str] the list of its
    characters; byte offsets are sums of UTF-8 lengths. *)

Definition char : Type := N.
Bind Scope N_scope with char.
Definition rstring : Type := list char.

Fixpoint str (s : string) : rstring :=
  match s with
  | EmptyString => []
  | String a s' => N_of_ascii a :: str s'
  end.

#[global] Arguments str : simpl never.
#[global] Arguments N_of_ascii : simpl never.

Notation "c =c a" := (N.eqb c (N_of_ascii a%char)) (at level 70) : prog_scope.

#[global] Instance char_eq_dec : EqDecision char := N.eq_dec.
Definition rstring_eqb (s t : rstring) : bool := bool_decide (s = t).
Notation "s =s t" := (rstring_eqb s (str t%string)) (at level 70) : prog_scope.

(** The characters that have no printable literal. *)
Definition EOF : char := 0%N.
Definition TAB : char := 9%N.
Definition NL : char := 10%N.
Definition CR : char := 13%N.
Definition SQUOTE : char := 39%N.
Definition DQUOTE : char := 34%N.
Definition BACKSLASH : char := 92%N.

(** ** Filters *)

Lemma filter_iff_in {A} (P Q : A -> Prop) `{!forall x, Decision (P x), !forall x, Decision (Q x)} (l : list A) :
  (forall x, x ∈ l -> P x <-> Q x) -> filter P l = filter Q l.
Proof.
  induction l as [|x l IH]; [done|]. intros Heq. rewrite !filter_cons, IH
    by (intros y Hy; apply Heq; by apply list_elem_of_further).
  by rewrite (decide_ext (P x) (Q x)) by (apply Heq, list_elem_of_here).
Qed.

Lemma filter_all {A} (P : A -> Prop) `{!forall x, Decision (P x)} (l : list A) : (forall x, x ∈ l -> P x) -> filter P l = l.
Proof.
  induction l as [|x l IH]; intros Hl; [done|]. rewrite filter_cons_True by (apply Hl; by left).
  f_equal. apply IH. intros y Hy. apply Hl. by right.
Qed.

(** ** Sorting

    [slice::sort_by]: a stable sort; [le] is that the comparison does not say
    [Greater]. *)

Fixpoint insert_by {A} (le : A -> A -> bool) (x : A) (l : list A) : list A :=
  match l with
  | [] => [x]
  | y :: l' => if le x y then x :: l else y :: insert_by le x l'
  end.

Definition sort_by {A} (le : A -> A -> bool) (l : list A) : list A := foldr (insert_by le) [] l.

Lemma insert_by_perm {A} (le : A -> A -> bool) x l : insert_by le x l ≡ₚ x :: l.
Proof.
  induction l as [|y l IH]; [done|]. simpl. destruct (le x y); [done|]. rewrite IH. apply perm_swap.
Qed.

Lemma sort_by_perm {A} (le : A -> A -> bool) l : sort_by le l ≡ₚ l.
Proof.
  induction l as [|x l IH]; [done|]. unfold sort_by in *. simpl. by rewrite insert_by_perm, IH.
Qed.

Lemma insert_by_sorted {A} (le : A -> A -> bool) x l :
  (forall a b, le a b = false -> le b a = true) ->
  Sorted (fun a b => le a b = true) l -> Sorted (fun a b => le a b = true) (insert_by le x l).
Proof.
  intros Htot. induction l as [|y l IH]; intros Hl; simpl; [by repeat constructor|].
  destruct (le x y) eqn:Hxy; [constructor; [done|by constructor]|].
  apply Sorted_inv in Hl as [Hl Hy]. constructor; [by apply IH|].
  destruct l as [|z l]; simpl; [constructor; by apply Htot|].
  apply HdRel_inv in Hy. destruct (le x z); constructor; [by apply Htot|done].
Qed.

Lemma sort_by_sorted {A} (le : A -> A -> bool) l :
  (forall a b, le a b = false -> le b a = true) -> Sorted (fun a b => le a b = true) (sort_by le l).
Proof.
  intros Htot. induction l as [|x l IH]; [constructor|]. unfold sort_by in *. simpl. by apply insert_by_sorted.
Qed.

(** A transitive comparison orders every pair of the sorted list. *)
Lemma sort_by_strongly_sorted {A} (le : A -> A -> bool) l :
  (forall a b, le a b = false -> le b a = true) ->
  (forall a b c, le a b = true -> le b c = true -> le a c = true) ->
  StronglySorted (fun a b => le a b = true) (sort_by le l).
Proof.
  intros Htot Htrans. apply Sorted_StronglySorted; [intros a b c; apply Htrans|by apply sort_by_sorted].
Qed.

Lemma StronglySorted_sublist {A} (R : A -> A -> Prop) l1 l2 :
  l1 `sublist_of` l2 -> StronglySorted R l2 -> StronglySorted R l1.
Proof.
  induction 1 as [|x l1 l2 Hs IH|x l1 l2 Hs IH]; intros Hr; [done| |];
    apply StronglySorted_inv in Hr as [Hr Hx]; [|by apply IH].
  constructor; [by apply IH|]. apply Forall_forall. intros y Hy.
  eapply Forall_forall in Hx; [exact Hx|]. by eapply elem_of_sublist.
Qed.

(** ** The place of an element in a partitioned list *)

(** [slice::partition_point]: how many elements come before the first that does
    not satisfy [p]. *)
Fixpoint partition_point {A} (p : A -> bool) (l : list A) : nat :=
  match l with
  | [] => 0
  | x :: l' => if p x then S (partition_point p l') else 0
  end.

Lemma partition_point_le {A} (p : A -> bool) l : partition_point p l <= length l.
Proof. induction l as [|x l IH]; simpl; [lia|]. destruct (p x); simpl; lia. Qed.

Lemma partition_point_before {A} (p : A -> bool) l i x : i < partition_point p l -> l !! i = Some x -> p x = true.
Proof.
  revert i. induction l as [|y l IH]; intros i Hi Hx; simpl in *; [lia|].
  destruct (p y) eqn:Hy; [|lia]. destruct i as [|i]; [by injection Hx as ->|]. apply (IH i); [lia|done].
Qed.

Lemma partition_point_at {A} (p : A -> bool) l x : l !! partition_point p l = Some x -> p x = false.
Proof. induction l as [|y l IH]; simpl; [done|]. destruct (p y) eqn:Hy; simpl; [done|]. by intros [= ->]. Qed.

(** ** Tactics *)

(** Case analysis on the condition of the first [if] of the goal. *)
Ltac case_if :=
  match goal with
  | |- context [if ?b then _ else _] => destruct b eqn:?
  end.

Ltac split_and_all := repeat match goal with
  | H : _ /\ _ |- _ => destruct H
  | H : exists _, _ |- _ => destruct H
  end.
