(* ===== verification/Kinds.v ===== *)
(** * Token kinds, syntax kinds, operators and configuration

    The enumerations of [src/crates/glua_parser/src/kind/] with the tables and
    tests defined on them.  Rust's [LuaTokenKind::None] and
    [LuaSyntaxKind::None] are [TkNone] and [SkNone], since the two enumerations
    share one name space here.  [#[repr(u16)]] discriminants are [token_id] and
    [syntax_id]; decidable equality goes through them. *)

From S2P Require Import Prelude.
Local Open Scope prog_scope.

(** ** LuaTokenKind (kind/lua_token_kind.rs) *)

Inductive LuaTokenKind : Type :=
    | TkNone | TkAnd | TkBreak | TkDo | TkElse | TkElseIf | TkEnd | TkFalse | TkFor
    | TkFunction | TkGoto | TkIf | TkIn | TkLocal | TkNil | TkNot | TkOr | TkRepeat
    | TkReturn | TkThen | TkTrue | TkUntil | TkWhile | TkGlobal | TkWhitespace
    | TkEndOfLine | TkPlus | TkMinus | TkMul | TkDiv | TkIDiv | TkDot | TkConcat | TkDots
    | TkComma | TkAssign | TkEq | TkGe | TkLe | TkNe | TkShl | TkShr | TkLt | TkGt | TkMod
    | TkPow | TkLen | TkBitAnd | TkBitOr | TkBitXor | TkColon | TkDbColon | TkSemicolon
    | TkPlusAssign | TkMinusAssign | TkStarAssign | TkSlashAssign | TkPercentAssign
    | TkCaretAssign | TkDoubleSlashAssign | TkPipeAssign | TkAmpAssign | TkShiftLeftAssign
    | TkShiftRightAssign | TkLeftBracket | TkRightBracket | TkLeftParen | TkRightParen
    | TkLeftBrace | TkRightBrace | TkComplex | TkInt | TkFloat | TkName | TkString
    | TkLongString | TkShortComment | TkLongComment | TkShebang | TkEof | TkUnknown
    | TkNormalStart | TkLongCommentStart | TkDocLongStart | TkDocStart | TKDocTriviaStart
    | TkDocTrivia | TkLongCommentEnd | TKNonStdComment | TkTagClass | TkTagEnum
    | TkTagInterface | TkTagAlias | TkTagModule | TkTagField | TkTagType | TkTagParam
    | TkTagReturn | TkTagOverload | TkTagGeneric | TkTagSee | TkTagDeprecated | TkTagAsync
    | TkTagCast | TkTagOther | TkTagVisibility | TkTagReadonly | TkTagDiagnostic
    | TkTagMeta | TkTagVersion | TkTagAs | TkTagNodiscard | TkTagOperator | TkTagMapping
    | TkTagNamespace | TkTagUsing | TkTagSource | TkTagReturnCast | TkTagExport
    | TkLanguage | TKTagSchema | TkTagAttribute | TkTagRealm | TkTagFileparam
    | TkTagOutparam | TkCallGeneric | TkDocOr | TkDocAnd | TkDocKeyOf | TkDocExtends
    | TkDocNew | TkDocAs | TkDocIn | TkDocInfer | TkDocElse | TkDocContinue
    | TkDocContinueOr | TkDocDetail | TkDocQuestion | TkDocVisibility | TkDocReadonly
    | TkAt | TkDocVersionNumber | TkStringTemplateType | TkDocMatch | TKDocPath
    | TkDocRegion | TkDocEndRegion | TkDocSeeContent | TkDocAttributeUse.

(** The [u16] discriminant. *)
Definition token_id (k : LuaTokenKind) : N :=
  match k with
  | TkNone => 0
  | TkAnd => 1
  | TkBreak => 2
  | TkDo => 3
  | TkElse => 4
  | TkElseIf => 5
  | TkEnd => 6
  | TkFalse => 7
  | TkFor => 8
  | TkFunction => 9
  | TkGoto => 10
  | TkIf => 11
  | TkIn => 12
  | TkLocal => 13
  | TkNil => 14
  | TkNot => 15
  | TkOr => 16
  | TkRepeat => 17
  | TkReturn => 18
  | TkThen => 19
  | TkTrue => 20
  | TkUntil => 21
  | TkWhile => 22
  | TkGlobal => 23
  | TkWhitespace => 24
  | TkEndOfLine => 25
  | TkPlus => 26
  | TkMinus => 27
  | TkMul => 28
  | TkDiv => 29
  | TkIDiv => 30
  | TkDot => 31
  | TkConcat => 32
  | TkDots => 33
  | TkComma => 34
  | TkAssign => 35
  | TkEq => 36
  | TkGe => 37
  | TkLe => 38
  | TkNe => 39
  | TkShl => 40
  | TkShr => 41
  | TkLt => 42
  | TkGt => 43
  | TkMod => 44
  | TkPow => 45
  | TkLen => 46
  | TkBitAnd => 47
  | TkBitOr => 48
  | TkBitXor => 49
  | TkColon => 50
  | TkDbColon => 51
  | TkSemicolon => 52
  | TkPlusAssign => 53
  | TkMinusAssign => 54
  | TkStarAssign => 55
  | TkSlashAssign => 56
  | TkPercentAssign => 57
  | TkCaretAssign => 58
  | TkDoubleSlashAssign => 59
  | TkPipeAssign => 60
  | TkAmpAssign => 61
  | TkShiftLeftAssign => 62
  | TkShiftRightAssign => 63
  | TkLeftBracket => 64
  | TkRightBracket => 65
  | TkLeftParen => 66
  | TkRightParen => 67
  | TkLeftBrace => 68
  | TkRightBrace => 69
  | TkComplex => 70
  | TkInt => 71
  | TkFloat => 72
  | TkName => 73
  | TkString => 74
  | TkLongString => 75
  | TkShortComment => 76
  | TkLongComment => 77
  | TkShebang => 78
  | TkEof => 79
  | TkUnknown => 80
  | TkNormalStart => 81
  | TkLongCommentStart => 82
  | TkDocLongStart => 83
  | TkDocStart => 84
  | TKDocTriviaStart => 85
  | TkDocTrivia => 86
  | TkLongCommentEnd => 87
  | TKNonStdComment => 88
  | TkTagClass => 89
  | TkTagEnum => 90
  | TkTagInterface => 91
  | TkTagAlias => 92
  | TkTagModule => 93
  | TkTagField => 94
  | TkTagType => 95
  | TkTagParam => 96
  | TkTagReturn => 97
  | TkTagOverload => 98
  | TkTagGeneric => 99
  | TkTagSee => 100
  | TkTagDeprecated => 101
  | TkTagAsync => 102
  | TkTagCast => 103
  | TkTagOther => 104
  | TkTagVisibility => 105
  | TkTagReadonly => 106
  | TkTagDiagnostic => 107
  | TkTagMeta => 108
  | TkTagVersion => 109
  | TkTagAs => 110
  | TkTagNodiscard => 111
  | TkTagOperator => 112
  | TkTagMapping => 113
  | TkTagNamespace => 114
  | TkTagUsing => 115
  | TkTagSource => 116
  | TkTagReturnCast => 117
  | TkTagExport => 118
  | TkLanguage => 119
  | TKTagSchema => 120
  | TkTagAttribute => 121
  | TkTagRealm => 122
  | TkTagFileparam => 123
  | TkTagOutparam => 124
  | TkCallGeneric => 125
  | TkDocOr => 126
  | TkDocAnd => 127
  | TkDocKeyOf => 128
  | TkDocExtends => 129
  | TkDocNew => 130
  | TkDocAs => 131
  | TkDocIn => 132
  | TkDocInfer => 133
  | TkDocElse => 134
  | TkDocContinue => 135
  | TkDocContinueOr => 136
  | TkDocDetail => 137
  | TkDocQuestion => 138
  | TkDocVisibility => 139
  | TkDocReadonly => 140
  | TkAt => 141
  | TkDocVersionNumber => 142
  | TkStringTemplateType => 143
  | TkDocMatch => 144
  | TKDocPath => 145
  | TkDocRegion => 146
  | TkDocEndRegion => 147
  | TkDocSeeContent => 148
  | TkDocAttributeUse => 149
  end%N.

(** All the kinds, in the order of their discriminants. *)
Definition token_kinds : list LuaTokenKind :=
  [TkNone; TkAnd; TkBreak; TkDo; TkElse;
   TkElseIf; TkEnd; TkFalse; TkFor; TkFunction;
   TkGoto; TkIf; TkIn; TkLocal; TkNil;
   TkNot; TkOr; TkRepeat; TkReturn; TkThen;
   TkTrue; TkUntil; TkWhile; TkGlobal; TkWhitespace;
   TkEndOfLine; TkPlus; TkMinus; TkMul; TkDiv;
   TkIDiv; TkDot; TkConcat; TkDots; TkComma;
   TkAssign; TkEq; TkGe; TkLe; TkNe;
   TkShl; TkShr; TkLt; TkGt; TkMod;
   TkPow; TkLen; TkBitAnd; TkBitOr; TkBitXor;
   TkColon; TkDbColon; TkSemicolon; TkPlusAssign; TkMinusAssign;
   TkStarAssign; TkSlashAssign; TkPercentAssign; TkCaretAssign; TkDoubleSlashAssign;
   TkPipeAssign; TkAmpAssign; TkShiftLeftAssign; TkShiftRightAssign; TkLeftBracket;
   TkRightBracket; TkLeftParen; TkRightParen; TkLeftBrace; TkRightBrace;
   TkComplex; TkInt; TkFloat; TkName; TkString;
   TkLongString; TkShortComment; TkLongComment; TkShebang; TkEof;
   TkUnknown; TkNormalStart; TkLongCommentStart; TkDocLongStart; TkDocStart;
   TKDocTriviaStart; TkDocTrivia; TkLongCommentEnd; TKNonStdComment; TkTagClass;
   TkTagEnum; TkTagInterface; TkTagAlias; TkTagModule; TkTagField;
   TkTagType; TkTagParam; TkTagReturn; TkTagOverload; TkTagGeneric;
   TkTagSee; TkTagDeprecated; TkTagAsync; TkTagCast; TkTagOther;
   TkTagVisibility; TkTagReadonly; TkTagDiagnostic; TkTagMeta; TkTagVersion;
   TkTagAs; TkTagNodiscard; TkTagOperator; TkTagMapping; TkTagNamespace;
   TkTagUsing; TkTagSource; TkTagReturnCast; TkTagExport; TkLanguage;
   TKTagSchema; TkTagAttribute; TkTagRealm; TkTagFileparam; TkTagOutparam;
   TkCallGeneric; TkDocOr; TkDocAnd; TkDocKeyOf; TkDocExtends;
   TkDocNew; TkDocAs; TkDocIn; TkDocInfer; TkDocElse;
   TkDocContinue; TkDocContinueOr; TkDocDetail; TkDocQuestion; TkDocVisibility;
   TkDocReadonly; TkAt; TkDocVersionNumber; TkStringTemplateType; TkDocMatch;
   TKDocPath; TkDocRegion; TkDocEndRegion; TkDocSeeContent; TkDocAttributeUse].

Definition token_of_id (n : N) : option LuaTokenKind := token_kinds !! N.to_nat n.

Lemma token_of_id_of k : token_of_id (token_id k) = Some k.
Proof. by destruct k. Qed.

#[global] Instance token_kind_eq_dec : EqDecision LuaTokenKind.
Proof.
  refine (fun a b => cast_if (decide (token_id a = token_id b))).
  - abstract (apply (inj Some); by rewrite <-!token_of_id_of, e).
  - abstract (by intros ->).
Defined.

Definition token_eqb (a b : LuaTokenKind) : bool := N.eqb (token_id a) (token_id b).
Notation "a =t b" := (token_eqb a b) (at level 70) : prog_scope.

(** [matches!(k, A | B | ...)] *)
Definition token_in (k : LuaTokenKind) (ks : list LuaTokenKind) : bool :=
  existsb (token_eqb k) ks.
Notation "a 'in_t' l" := (token_in a l) (at level 70) : prog_scope.

Lemma token_eqb_eq a b : (a =t b) = true <-> a = b.
Proof.
  unfold token_eqb. rewrite N.eqb_eq. split; [|by intros ->].
  intros H. apply (inj Some). by rewrite <-!token_of_id_of, H.
Qed.

Lemma token_eqb_refl a : (a =t a) = true.
Proof. by apply token_eqb_eq. Qed.

Lemma token_in_spec k ks : (k in_t ks) = true <-> k ∈ ks.
Proof.
  unfold token_in. rewrite existsb_exists. setoid_rewrite token_eqb_eq.
  rewrite list_elem_of_In. split; [intros (? & ? & ->)|]; eauto.
Qed.

(** [impl Display for LuaTokenKind]: the derived [Debug], the variant's name. *)
Definition token_name (k : LuaTokenKind) : rstring :=
  str (match k with
  | TkNone => "None"
  | TkAnd => "TkAnd"
  | TkBreak => "TkBreak"
  | TkDo => "TkDo"
  | TkElse => "TkElse"
  | TkElseIf => "TkElseIf"
  | TkEnd => "TkEnd"
  | TkFalse => "TkFalse"
  | TkFor => "TkFor"
  | TkFunction => "TkFunction"
  | TkGoto => "TkGoto"
  | TkIf => "TkIf"
  | TkIn => "TkIn"
  | TkLocal => "TkLocal"
  | TkNil => "TkNil"
  | TkNot => "TkNot"
  | TkOr => "TkOr"
  | TkRepeat => "TkRepeat"
  | TkReturn => "TkReturn"
  | TkThen => "TkThen"
  | TkTrue => "TkTrue"
  | TkUntil => "TkUntil"
  | TkWhile => "TkWhile"
  | TkGlobal => "TkGlobal"
  | TkWhitespace => "TkWhitespace"
  | TkEndOfLine => "TkEndOfLine"
  | TkPlus => "TkPlus"
  | TkMinus => "TkMinus"
  | TkMul => "TkMul"
  | TkDiv => "TkDiv"
  | TkIDiv => "TkIDiv"
  | TkDot => "TkDot"
  | TkConcat => "TkConcat"
  | TkDots => "TkDots"
  | TkComma => "TkComma"
  | TkAssign => "TkAssign"
  | TkEq => "TkEq"
  | TkGe => "TkGe"
  | TkLe => "TkLe"
  | TkNe => "TkNe"
  | TkShl => "TkShl"
  | TkShr => "TkShr"
  | TkLt => "TkLt"
  | TkGt => "TkGt"
  | TkMod => "TkMod"
  | TkPow => "TkPow"
  | TkLen => "TkLen"
  | TkBitAnd => "TkBitAnd"
  | TkBitOr => "TkBitOr"
  | TkBitXor => "TkBitXor"
  | TkColon => "TkColon"
  | TkDbColon => "TkDbColon"
  | TkSemicolon => "TkSemicolon"
  | TkPlusAssign => "TkPlusAssign"
  | TkMinusAssign => "TkMinusAssign"
  | TkStarAssign => "TkStarAssign"
  | TkSlashAssign => "TkSlashAssign"
  | TkPercentAssign => "TkPercentAssign"
  | TkCaretAssign => "TkCaretAssign"
  | TkDoubleSlashAssign => "TkDoubleSlashAssign"
  | TkPipeAssign => "TkPipeAssign"
  | TkAmpAssign => "TkAmpAssign"
  | TkShiftLeftAssign => "TkShiftLeftAssign"
  | TkShiftRightAssign => "TkShiftRightAssign"
  | TkLeftBracket => "TkLeftBracket"
  | TkRightBracket => "TkRightBracket"
  | TkLeftParen => "TkLeftParen"
  | TkRightParen => "TkRightParen"
  | TkLeftBrace => "TkLeftBrace"
  | TkRightBrace => "TkRightBrace"
  | TkComplex => "TkComplex"
  | TkInt => "TkInt"
  | TkFloat => "TkFloat"
  | TkName => "TkName"
  | TkString => "TkString"
  | TkLongString => "TkLongString"
  | TkShortComment => "TkShortComment"
  | TkLongComment => "TkLongComment"
  | TkShebang => "TkShebang"
  | TkEof => "TkEof"
  | TkUnknown => "TkUnknown"
  | TkNormalStart => "TkNormalStart"
  | TkLongCommentStart => "TkLongCommentStart"
  | TkDocLongStart => "TkDocLongStart"
  | TkDocStart => "TkDocStart"
  | TKDocTriviaStart => "TKDocTriviaStart"
  | TkDocTrivia => "TkDocTrivia"
  | TkLongCommentEnd => "TkLongCommentEnd"
  | TKNonStdComment => "TKNonStdComment"
  | TkTagClass => "TkTagClass"
  | TkTagEnum => "TkTagEnum"
  | TkTagInterface => "TkTagInterface"
  | TkTagAlias => "TkTagAlias"
  | TkTagModule => "TkTagModule"
  | TkTagField => "TkTagField"
  | TkTagType => "TkTagType"
  | TkTagParam => "TkTagParam"
  | TkTagReturn => "TkTagReturn"
  | TkTagOverload => "TkTagOverload"
  | TkTagGeneric => "TkTagGeneric"
  | TkTagSee => "TkTagSee"
  | TkTagDeprecated => "TkTagDeprecated"
  | TkTagAsync => "TkTagAsync"
  | TkTagCast => "TkTagCast"
  | TkTagOther => "TkTagOther"
  | TkTagVisibility => "TkTagVisibility"
  | TkTagReadonly => "TkTagReadonly"
  | TkTagDiagnostic => "TkTagDiagnostic"
  | TkTagMeta => "TkTagMeta"
  | TkTagVersion => "TkTagVersion"
  | TkTagAs => "TkTagAs"
  | TkTagNodiscard => "TkTagNodiscard"
  | TkTagOperator => "TkTagOperator"
  | TkTagMapping => "TkTagMapping"
  | TkTagNamespace => "TkTagNamespace"
  | TkTagUsing => "TkTagUsing"
  | TkTagSource => "TkTagSource"
  | TkTagReturnCast => "TkTagReturnCast"
  | TkTagExport => "TkTagExport"
  | TkLanguage => "TkLanguage"
  | TKTagSchema => "TKTagSchema"
  | TkTagAttribute => "TkTagAttribute"
  | TkTagRealm => "TkTagRealm"
  | TkTagFileparam => "TkTagFileparam"
  | TkTagOutparam => "TkTagOutparam"
  | TkCallGeneric => "TkCallGeneric"
  | TkDocOr => "TkDocOr"
  | TkDocAnd => "TkDocAnd"
  | TkDocKeyOf => "TkDocKeyOf"
  | TkDocExtends => "TkDocExtends"
  | TkDocNew => "TkDocNew"
  | TkDocAs => "TkDocAs"
  | TkDocIn => "TkDocIn"
  | TkDocInfer => "TkDocInfer"
  | TkDocElse => "TkDocElse"
  | TkDocContinue => "TkDocContinue"
  | TkDocContinueOr => "TkDocContinueOr"
  | TkDocDetail => "TkDocDetail"
  | TkDocQuestion => "TkDocQuestion"
  | TkDocVisibility => "TkDocVisibility"
  | TkDocReadonly => "TkDocReadonly"
  | TkAt => "TkAt"
  | TkDocVersionNumber => "TkDocVersionNumber"
  | TkStringTemplateType => "TkStringTemplateType"
  | TkDocMatch => "TkDocMatch"
  | TKDocPath => "TKDocPath"
  | TkDocRegion => "TkDocRegion"
  | TkDocEndRegion => "TkDocEndRegion"
  | TkDocSeeContent => "TkDocSeeContent"
  | TkDocAttributeUse => "TkDocAttributeUse"
  end)%string.

Definition is_keyword (k : LuaTokenKind) : bool :=
  k in_t [TkAnd; TkBreak; TkDo; TkElse; TkElseIf;
            TkEnd; TkFalse; TkFor; TkFunction; TkGoto;
            TkIf; TkIn; TkLocal; TkNil; TkNot;
            TkOr; TkRepeat; TkReturn; TkThen; TkTrue;
            TkUntil; TkWhile].

Definition is_assign_op (k : LuaTokenKind) : bool :=
  k in_t [TkAssign; TkPlusAssign; TkMinusAssign; TkStarAssign; TkSlashAssign;
            TkPercentAssign; TkCaretAssign; TkDoubleSlashAssign; TkPipeAssign; TkAmpAssign;
            TkShiftLeftAssign; TkShiftRightAssign].

Definition is_trivia (k : LuaTokenKind) : bool :=
  k in_t [TkShortComment; TkLongComment; TkEndOfLine; TkWhitespace; TkShebang;
            TkDocContinue].

(** ** LuaSyntaxKind (kind/lua_syntax_kind.rs) *)

Inductive LuaSyntaxKind : Type :=
    | SkNone | Chunk | Block | EmptyStat | LocalStat | LocalFuncStat | IfStat
    | ElseIfClauseStat | ElseClauseStat | WhileStat | DoStat | ForStat | ForRangeStat
    | RepeatStat | FuncStat | LabelStat | BreakStat | ReturnStat | GotoStat | CallExprStat
    | AssignStat | GlobalStat | UnknownStat | ParenExpr | LiteralExpr | ClosureExpr
    | UnaryExpr | BinaryExpr | TableArrayExpr | TableObjectExpr | TableEmptyExpr
    | CallExpr | RequireCallExpr | ErrorCallExpr | AssertCallExpr | TypeCallExpr
    | SetmetatableCallExpr | IndexExpr | NameExpr | LocalName | ParamName | ParamList
    | CallArgList | TableFieldAssign | TableFieldValue | Attribute | Comment | DocTagClass
    | DocTagEnum | DocTagInterface | DocTagAlias | DocTagField | DocTagType | DocTagParam
    | DocTagReturn | DocTagGeneric | DocTagSee | DocTagDeprecated | DocTagCast
    | DocTagOverload | DocTagAsync | DocTagVisibility | DocTagMeta | DocTagOther
    | DocTagDiagnostic | DocTagVersion | DocTagAs | DocTagNodiscard | DocTagOperator
    | DocTagModule | DocTagMapping | DocTagNamespace | DocTagUsing | DocTagSource
    | DocTagReadonly | DocTagReturnCast | DocTagExport | DocTagLanguage | DocTagAttribute
    | DocTagAttributeUse | DocTagRealm | DocTagFileparam | DocTagOutparam
    | DocTagCallGeneric | DocTagSchema | TypeArray | TypeUnary | TypeBinary
    | TypeConditional | TypeFun | TypeGeneric | TypeTuple | TypeObject | TypeLiteral
    | TypeName | TypeInfer | TypeVariadic | TypeNullable | TypeStringTemplate
    | TypeMultiLineUnion | TypeAttribute | TypeMatch | TypeIndexAccess | TypeMapped
    | DocObjectField | DocContinueOrField | DocTypedParameter | DocNamedReturnType
    | DocGenericParameter | DocGenericDeclareList | DocDiagnosticNameList | DocTypeList
    | DocTypeFlag | DocAttributeUse | DocAttributeCallArgList | DocOpType
    | DocEnumFieldList | DocMappedKey | DocEnumField | DocOneLineField
    | DocDiagnosticCodeList | DocDefaultValue | DocDescription | DocVersion.

(** The [u16] discriminant. *)
Definition syntax_id (k : LuaSyntaxKind) : N :=
  match k with
  | SkNone => 0
  | Chunk => 1
  | Block => 2
  | EmptyStat => 3
  | LocalStat => 4
  | LocalFuncStat => 5
  | IfStat => 6
  | ElseIfClauseStat => 7
  | ElseClauseStat => 8
  | WhileStat => 9
  | DoStat => 10
  | ForStat => 11
  | ForRangeStat => 12
  | RepeatStat => 13
  | FuncStat => 14
  | LabelStat => 15
  | BreakStat => 16
  | ReturnStat => 17
  | GotoStat => 18
  | CallExprStat => 19
  | AssignStat => 20
  | GlobalStat => 21
  | UnknownStat => 22
  | ParenExpr => 23
  | LiteralExpr => 24
  | ClosureExpr => 25
  | UnaryExpr => 26
  | BinaryExpr => 27
  | TableArrayExpr => 28
  | TableObjectExpr => 29
  | TableEmptyExpr => 30
  | CallExpr => 31
  | RequireCallExpr => 32
  | ErrorCallExpr => 33
  | AssertCallExpr => 34
  | TypeCallExpr => 35
  | SetmetatableCallExpr => 36
  | IndexExpr => 37
  | NameExpr => 38
  | LocalName => 39
  | ParamName => 40
  | ParamList => 41
  | CallArgList => 42
  | TableFieldAssign => 43
  | TableFieldValue => 44
  | Attribute => 45
  | Comment => 46
  | DocTagClass => 47
  | DocTagEnum => 48
  | DocTagInterface => 49
  | DocTagAlias => 50
  | DocTagField => 51
  | DocTagType => 52
  | DocTagParam => 53
  | DocTagReturn => 54
  | DocTagGeneric => 55
  | DocTagSee => 56
  | DocTagDeprecated => 57
  | DocTagCast => 58
  | DocTagOverload => 59
  | DocTagAsync => 60
  | DocTagVisibility => 61
  | DocTagMeta => 62
  | DocTagOther => 63
  | DocTagDiagnostic => 64
  | DocTagVersion => 65
  | DocTagAs => 66
  | DocTagNodiscard => 67
  | DocTagOperator => 68
  | DocTagModule => 69
  | DocTagMapping => 70
  | DocTagNamespace => 71
  | DocTagUsing => 72
  | DocTagSource => 73
  | DocTagReadonly => 74
  | DocTagReturnCast => 75
  | DocTagExport => 76
  | DocTagLanguage => 77
  | DocTagAttribute => 78
  | DocTagAttributeUse => 79
  | DocTagRealm => 80
  | DocTagFileparam => 81
  | DocTagOutparam => 82
  | DocTagCallGeneric => 83
  | DocTagSchema => 84
  | TypeArray => 85
  | TypeUnary => 86
  | TypeBinary => 87
  | TypeConditional => 88
  | TypeFun => 89
  | TypeGeneric => 90
  | TypeTuple => 91
  | TypeObject => 92
  | TypeLiteral => 93
  | TypeName => 94
  | TypeInfer => 95
  | TypeVariadic => 96
  | TypeNullable => 97
  | TypeStringTemplate => 98
  | TypeMultiLineUnion => 99
  | TypeAttribute => 100
  | TypeMatch => 101
  | TypeIndexAccess => 102
  | TypeMapped => 103
  | DocObjectField => 104
  | DocContinueOrField => 105
  | DocTypedParameter => 106
  | DocNamedReturnType => 107
  | DocGenericParameter => 108
  | DocGenericDeclareList => 109
  | DocDiagnosticNameList => 110
  | DocTypeList => 111
  | DocTypeFlag => 112
  | DocAttributeUse => 113
  | DocAttributeCallArgList => 114
  | DocOpType => 115
  | DocEnumFieldList => 116
  | DocMappedKey => 117
  | DocEnumField => 118
  | DocOneLineField => 119
  | DocDiagnosticCodeList => 120
  | DocDefaultValue => 121
  | DocDescription => 122
  | DocVersion => 123
  end%N.

(** All the kinds, in the order of their discriminants. *)
Definition syntax_kinds : list LuaSyntaxKind :=
  [SkNone; Chunk; Block; EmptyStat; LocalStat;
   LocalFuncStat; IfStat; ElseIfClauseStat; ElseClauseStat; WhileStat;
   DoStat; ForStat; ForRangeStat; RepeatStat; FuncStat;
   LabelStat; BreakStat; ReturnStat; GotoStat; CallExprStat;
   AssignStat; GlobalStat; UnknownStat; ParenExpr; LiteralExpr;
   ClosureExpr; UnaryExpr; BinaryExpr; TableArrayExpr; TableObjectExpr;
   TableEmptyExpr; CallExpr; RequireCallExpr; ErrorCallExpr; AssertCallExpr;
   TypeCallExpr; SetmetatableCallExpr; IndexExpr; NameExpr; LocalName;
   ParamName; ParamList; CallArgList; TableFieldAssign; TableFieldValue;
   Attribute; Comment; DocTagClass; DocTagEnum; DocTagInterface;
   DocTagAlias; DocTagField; DocTagType; DocTagParam; DocTagReturn;
   DocTagGeneric; DocTagSee; DocTagDeprecated; DocTagCast; DocTagOverload;
   DocTagAsync; DocTagVisibility; DocTagMeta; DocTagOther; DocTagDiagnostic;
   DocTagVersion; DocTagAs; DocTagNodiscard; DocTagOperator; DocTagModule;
   DocTagMapping; DocTagNamespace; DocTagUsing; DocTagSource; DocTagReadonly;
   DocTagReturnCast; DocTagExport; DocTagLanguage; DocTagAttribute; DocTagAttributeUse;
   DocTagRealm; DocTagFileparam; DocTagOutparam; DocTagCallGeneric; DocTagSchema;
   TypeArray; TypeUnary; TypeBinary; TypeConditional; TypeFun;
   TypeGeneric; TypeTuple; TypeObject; TypeLiteral; TypeName;
   TypeInfer; TypeVariadic; TypeNullable; TypeStringTemplate; TypeMultiLineUnion;
   TypeAttribute; TypeMatch; TypeIndexAccess; TypeMapped; DocObjectField;
   DocContinueOrField; DocTypedParameter; DocNamedReturnType; DocGenericParameter; DocGenericDeclareList;
   DocDiagnosticNameList; DocTypeList; DocTypeFlag; DocAttributeUse; DocAttributeCallArgList;
   DocOpType; DocEnumFieldList; DocMappedKey; DocEnumField; DocOneLineField;
   DocDiagnosticCodeList; DocDefaultValue; DocDescription; DocVersion].

Definition syntax_of_id (n : N) : option LuaSyntaxKind := syntax_kinds !! N.to_nat n.

Lemma syntax_of_id_of k : syntax_of_id (syntax_id k) = Some k.
Proof. by destruct k. Qed.

#[global] Instance syntax_kind_eq_dec : EqDecision LuaSyntaxKind.
Proof.
  refine (fun a b => cast_if (decide (syntax_id a = syntax_id b))).
  - abstract (apply (inj Some); by rewrite <-!syntax_of_id_of, e).
  - abstract (by intros ->).
Defined.

Definition syntax_eqb (a b : LuaSyntaxKind) : bool := N.eqb (syntax_id a) (syntax_id b).
Notation "a =k b" := (syntax_eqb a b) (at level 70) : prog_scope.
Definition syntax_in (k : LuaSyntaxKind) (ks : list LuaSyntaxKind) : bool :=
  existsb (syntax_eqb k) ks.
Notation "a 'in_k' l" := (syntax_in a l) (at level 70) : prog_scope.

Lemma syntax_eqb_eq a b : (a =k b) = true <-> a = b.
Proof.
  unfold syntax_eqb. rewrite N.eqb_eq. split; [|by intros ->].
  intros H. apply (inj Some). by rewrite <-!syntax_of_id_of, H.
Qed.

Lemma syntax_in_spec k ks : (k in_k ks) = true <-> k ∈ ks.
Proof.
  unfold syntax_in. rewrite existsb_exists. setoid_rewrite syntax_eqb_eq.
  rewrite list_elem_of_In. split; [intros (? & ? & ->)|]; eauto.
Qed.

(** ** LuaKind (kind/mod.rs): both enumerations behind one [u16] *)

Inductive LuaKind : Type :=
  | Syntax (k : LuaSyntaxKind)
  | Token (k : LuaTokenKind).

Definition is_syntax (k : LuaKind) : bool :=
  match k with Syntax _ => true | Token _ => false end.

Definition is_token (k : LuaKind) : bool :=
  match k with Syntax _ => false | Token _ => true end.

Definition to_syntax (k : LuaKind) : LuaSyntaxKind :=
  match k with Syntax kind => kind | Token _ => SkNone end.

Definition to_token (k : LuaKind) : LuaTokenKind :=
  match k with Token kind => kind | Syntax _ => TkNone end.

Definition get_raw (k : LuaKind) : N :=
  match k with
  | Syntax kind => N.lor (syntax_id kind) 0x8000
  | Token kind => token_id kind
  end.

(** [transmute] of a value that is no discriminant is undefined: [None]. *)
Definition from_raw (raw : N) : option LuaKind :=
  if N.eqb (N.land raw 0x8000) 0
  then Token <$> token_of_id raw
  else Syntax <$> syntax_of_id (N.land raw 0x7FFF).

(** ** Operators (kind/lua_operator_kind.rs, kind/mod.rs) *)

Inductive UnaryOperator : Type :=
  | OpNot | OpLen | OpUnm | OpBNot | UOpNop.

Inductive BinaryOperator : Type :=
  | OpAdd | OpSub | OpMul | OpDiv | OpIDiv | OpMod | OpPow | OpBAnd | OpBOr
  | OpBXor | OpShl | OpShr | OpConcat | OpLt | OpLe | OpGt | OpGe | OpEq | OpNe
  | OpAnd | OpOr | OpNop.

Record PriorityTable : Type := mkPriority { left : Z; right : Z }.

(** [const PRIORITY: [PriorityTable; 21]] *)
Definition PRIORITY : list PriorityTable :=
  [mkPriority 10 10; mkPriority 10 10; mkPriority 11 11; mkPriority 11 11;
   mkPriority 11 11; mkPriority 11 11; mkPriority 14 13; mkPriority 6 6;
   mkPriority 4 4; mkPriority 5 5; mkPriority 7 7; mkPriority 7 7;
   mkPriority 9 8; mkPriority 3 3; mkPriority 3 3; mkPriority 3 3;
   mkPriority 3 3; mkPriority 3 3; mkPriority 3 3; mkPriority 2 2;
   mkPriority 1 1].

(** [*self as usize] *)
Definition binary_operator_id (op : BinaryOperator) : nat :=
  match op with
  | OpAdd => 0 | OpSub => 1 | OpMul => 2 | OpDiv => 3 | OpIDiv => 4 | OpMod => 5
  | OpPow => 6 | OpBAnd => 7 | OpBOr => 8 | OpBXor => 9 | OpShl => 10 | OpShr => 11
  | OpConcat => 12 | OpLt => 13 | OpLe => 14 | OpGt => 15 | OpGe => 16 | OpEq => 17
  | OpNe => 18 | OpAnd => 19 | OpOr => 20 | OpNop => 21
  end.

(** [&PRIORITY[*self as usize]]: [None] is the panic of an index out of range. *)
Definition get_priority (op : BinaryOperator) : option PriorityTable :=
  PRIORITY !! binary_operator_id op.

Definition UNARY_PRIORITY : Z := 12.

Definition to_unary_operator (kind : LuaTokenKind) : UnaryOperator :=
  match kind with
  | TkNot => OpNot
  | TkLen => OpLen
  | TkMinus => OpUnm
  | TkBitXor => OpBNot
  | _ => UOpNop
  end.

Definition to_binary_operator (kind : LuaTokenKind) : BinaryOperator :=
  match kind with
  | TkPlus => OpAdd
  | TkMinus => OpSub
  | TkMul => OpMul
  | TkMod => OpMod
  | TkPow => OpPow
  | TkDiv => OpDiv
  | TkIDiv => OpIDiv
  | TkBitAnd => OpBAnd
  | TkBitOr => OpBOr
  | TkBitXor => OpBXor
  | TkShl => OpShl
  | TkShr => OpShr
  | TkConcat => OpConcat
  | TkLt => OpLt
  | TkLe => OpLe
  | TkGt => OpGt
  | TkGe => OpGe
  | TkEq => OpEq
  | TkNe => OpNe
  | TkAnd => OpAnd
  | TkOr => OpOr
  | _ => OpNop
  end.

(** The operators of the type expressions (kind/lua_type_operator_kind.rs). *)

Inductive LuaTypeUnaryOperator : Type := TuNone | TuKeyof | TuNeg.

Inductive LuaTypeBinaryOperator : Type :=
  | TbNone | TbUnion | TbIntersection | TbIn | TbExtends | TbAdd | TbSub.

(** [pub const PRIORITY: &[PriorityTable]] *)
Definition TYPE_PRIORITY : list PriorityTable :=
  [mkPriority 0 0; mkPriority 1 1; mkPriority 2 2; mkPriority 3 3; mkPriority 4 4;
   mkPriority 6 6; mkPriority 6 6].

Definition type_operator_id (op : LuaTypeBinaryOperator) : nat :=
  match op with
  | TbNone => 0 | TbUnion => 1 | TbIntersection => 2 | TbIn => 3 | TbExtends => 4 | TbAdd => 5
  | TbSub => 6
  end.

Definition get_type_priority (op : LuaTypeBinaryOperator) : option PriorityTable :=
  TYPE_PRIORITY !! type_operator_id op.

Definition UNARY_TYPE_PRIORITY : Z := 7.

Definition to_type_unary_operator (kind : LuaTokenKind) : LuaTypeUnaryOperator :=
  match kind with
  | TkDocKeyOf => TuKeyof
  | TkMinus => TuNeg
  | _ => TuNone
  end.

Definition to_parse_binary_operator (kind : LuaTokenKind) : LuaTypeBinaryOperator :=
  match kind with
  | TkDocOr => TbUnion
  | TkDocAnd => TbIntersection
  | TkIn => TbIn
  | TkDocExtends => TbExtends
  | TkPlus => TbAdd
  | TkMinus => TbSub
  | _ => TbNone
  end.

#[global] Instance type_unary_operator_eq_dec : EqDecision LuaTypeUnaryOperator.
Proof. solve_decision. Defined.
#[global] Instance type_binary_operator_eq_dec : EqDecision LuaTypeBinaryOperator.
Proof. solve_decision. Defined.

#[global] Instance unary_operator_eq_dec : EqDecision UnaryOperator.
Proof. solve_decision. Defined.
#[global] Instance binary_operator_eq_dec : EqDecision BinaryOperator.
Proof. solve_decision. Defined.

(** ** Non-standard symbols (kind/lua_non_std_symbol.rs): a [u64] bit set *)

Inductive LuaNonStdSymbol : Type :=
  | DoubleSlash | SlashStar | Backtick | PlusAssign | MinusAssign | StarAssign
  | SlashAssign | PercentAssign | CaretAssign | DoubleSlashAssign | PipeAssign
  | AmpAssign | ShiftLeftAssign | ShiftRightAssign | DoublePipe | DoubleAmp
  | Exclamation | NotEqual | Continue.

#[global] Instance non_std_symbol_eq_dec : EqDecision LuaNonStdSymbol.
Proof. solve_decision. Defined.

(** [symbol as u64]: the discriminants start at 1. *)
Definition symbol_id (s : LuaNonStdSymbol) : N :=
  match s with
  | DoubleSlash => 1 | SlashStar => 2 | Backtick => 3 | PlusAssign => 4
  | MinusAssign => 5 | StarAssign => 6 | SlashAssign => 7 | PercentAssign => 8
  | CaretAssign => 9 | DoubleSlashAssign => 10 | PipeAssign => 11 | AmpAssign => 12
  | ShiftLeftAssign => 13 | ShiftRightAssign => 14 | DoublePipe => 15
  | DoubleAmp => 16 | Exclamation => 17 | NotEqual => 18 | Continue => 19
  end%N.

Module LuaNonStdSymbolSet.
Definition t : Type := N.

Definition new : t := 0%N.

(** [self.0 |= 1 << (symbol as u64)]; the shift of a [u64] drops the bits
    above the 64th. *)
Definition add (self : t) (symbol : LuaNonStdSymbol) : t :=
  N.lor self (N.shiftl 1 (symbol_id symbol) mod 2 ^ 64)%N.

Definition extends (self : t) (other : list LuaNonStdSymbol) : t :=
  foldl add self other.

Definition support (self : t) (symbol : LuaNonStdSymbol) : bool :=
  negb (N.eqb (N.land self (N.shiftl 1 (symbol_id symbol) mod 2 ^ 64)) 0)%N.
End LuaNonStdSymbolSet.

(** ** Language level (kind/lua_language_level.rs) *)

Inductive LuaLanguageLevel : Type :=
  | Lua51 | LuaJIT | Lua52 | Lua53 | Lua54 | Lua55.

#[global] Instance language_level_eq_dec : EqDecision LuaLanguageLevel.
Proof. solve_decision. Defined.

(** The derived [Ord] is the order of declaration. *)
Definition level_id (l : LuaLanguageLevel) : nat :=
  match l with
  | Lua51 => 0 | LuaJIT => 1 | Lua52 => 2 | Lua53 => 3 | Lua54 => 4 | Lua55 => 5
  end.

(** [impl Display for LuaLanguageLevel] *)
Definition level_name (l : LuaLanguageLevel) : rstring :=
  str (match l with
       | Lua51 => "Lua 5.1"
       | Lua52 => "Lua 5.2"
       | Lua53 => "Lua 5.3"
       | Lua54 => "Lua 5.4"
       | LuaJIT => "LuaJIT"
       | Lua55 => "Lua 5.5"
       end)%string.

(** ** LexerConfig (lexer/lexer_config.rs) *)

Record LexerConfig : Type := mkLexerConfig {
  language_level : LuaLanguageLevel;
  non_std_symbols : LuaNonStdSymbolSet.t
}.

Definition support_goto (c : LexerConfig) : bool :=
  (level_id Lua52 <=? level_id (language_level c))%nat
  || bool_decide (language_level c = LuaJIT).

Definition support_complex_number (c : LexerConfig) : bool :=
  bool_decide (language_level c = LuaJIT).

Definition support_ll_integer (c : LexerConfig) : bool :=
  bool_decide (language_level c = LuaJIT).

Definition support_binary_integer (c : LexerConfig) : bool :=
  bool_decide (language_level c = LuaJIT).

Definition support_integer_operation (c : LexerConfig) : bool := false.

Definition support_global_decl (c : LexerConfig) : bool := false.

Definition LexerConfig_default : LexerConfig :=
  mkLexerConfig LuaJIT LuaNonStdSymbolSet.new.

(** ** Properties *)

(** Every operator that is not [OpNop] has a priority: the index of
    [get_priority] is in range. *)
Lemma get_priority_some op :
  op <> OpNop -> exists p, get_priority op = Some p /\ (0 < left p)%Z /\ (0 < right p)%Z.
Proof. by destruct op; intros H; [eexists; repeat split..|]. Qed.

Lemma symbol_bit_testbit s n :
  N.testbit (N.shiftl 1 (symbol_id s) mod 2 ^ 64)%N n = N.eqb n (symbol_id s).
Proof.
  rewrite N.mod_small by by destruct s. rewrite N.shiftl_1_l.
  destruct (N.eqb_spec n (symbol_id s)) as [->|Hne].
  - apply N.pow2_bits_true.
  - apply N.pow2_bits_false. congruence.
Qed.

Lemma symbol_id_inj s s' : symbol_id s = symbol_id s' -> s = s'.
Proof. by destruct s, s'. Qed.

(** Testing one bit of the set is what [support] does. *)
Lemma support_testbit self s :
  LuaNonStdSymbolSet.support self s = N.testbit self (symbol_id s).
Proof.
  unfold LuaNonStdSymbolSet.support. destruct (N.testbit self (symbol_id s)) eqn:Hb.
  - apply negb_true_iff, N.eqb_neq. intros H0.
    assert (Ht := N.land_spec self (N.shiftl 1 (symbol_id s) mod 2 ^ 64) (symbol_id s)).
    rewrite H0, symbol_bit_testbit, N.eqb_refl, Hb, N.bits_0 in Ht. done.
  - apply negb_false_iff, N.eqb_eq, N.bits_inj_0. intros n.
    rewrite N.land_spec, symbol_bit_testbit.
    destruct (N.eqb_spec n (symbol_id s)) as [->|]; [by rewrite Hb|by rewrite andb_false_r].
Qed.

Lemma support_add self s s' :
  LuaNonStdSymbolSet.support (LuaNonStdSymbolSet.add self s) s'
  = bool_decide (s' = s) || LuaNonStdSymbolSet.support self s'.
Proof.
  rewrite !support_testbit. unfold LuaNonStdSymbolSet.add.
  rewrite N.lor_spec, symbol_bit_testbit, orb_comm. f_equal.
  destruct (N.eqb_spec (symbol_id s') (symbol_id s)) as [He|He].
  - by rewrite bool_decide_true by by apply symbol_id_inj.
  - rewrite bool_decide_false; [done|]. by intros ->.
Qed.

(** The bit set is the set of the symbols that were added. *)
Theorem support_extends self other s :
  LuaNonStdSymbolSet.support (LuaNonStdSymbolSet.extends self other) s
  = bool_decide (s ∈ other) || LuaNonStdSymbolSet.support self s.
Proof.
  revert self. induction other as [|x other IH]; intros self; simpl; [done|].
  rewrite IH, support_add. destruct (decide (s = x)) as [->|Hne].
  - rewrite (bool_decide_true (x = x)) by done.
    rewrite (bool_decide_true (x ∈ x :: other)) by (apply list_elem_of_In; by left).
    by rewrite orb_true_r.
  - rewrite (bool_decide_false (s = x)) by done. simpl. f_equal.
    apply bool_decide_ext. rewrite !list_elem_of_In. simpl.
    split; [by right|intros [Hx|Hx]; [by destruct Hne|done]].
Qed.

(** [from_raw] inverts [get_raw]. *)
Theorem from_raw_get_raw k : from_raw (get_raw k) = Some k.
Proof. destruct k as [k|k]; by destruct k. Qed.
