(* ===== verification/Text.v ===== *)
(** * Source text: characters, ranges and the reader

    [src/crates/glua_parser/src/text/]: byte slices of a UTF-8 string,
    [SourceRange] and the [Reader] with its look-ahead.  The specification of
    the reader is a cursor that splits the text into what is before the current
    buffer, the buffer and what is still to be read. *)

From S2P Require Import Prelude Kinds.
Local Open Scope prog_scope.

(** ** Characters (Rust's [char] methods) *)

(** [char::len_utf8] *)
Definition len_utf8 (c : char) : nat :=
  if (c <? 0x80)%N then 1
  else if (c <? 0x800)%N then 2
  else if (c <? 0x10000)%N then 3
  else 4.

(** [str::len]: the number of bytes. *)
Definition blen (t : rstring) : nat := sum_list_with len_utf8 t.

Definition in_range (lo hi c : char) : bool := (N.leb lo c && N.leb c hi)%N.

Definition is_ascii_digit (c : char) : bool := in_range 48 57 c.
Definition is_ascii_alphabetic (c : char) : bool := in_range 65 90 c || in_range 97 122 c.
Definition is_ascii_hexdigit (c : char) : bool :=
  is_ascii_digit c || in_range 65 70 c || in_range 97 102 c.

(** [char::is_whitespace] *)
Definition is_whitespace (c : char) : bool :=
  in_range 9 13 c || (c =c " ") || N.eqb c 0x85 || N.eqb c 0xA0 || N.eqb c 0x1680
  || in_range 0x2000 0x200A c || N.eqb c 0x2028 || N.eqb c 0x2029 || N.eqb c 0x202F
  || N.eqb c 0x205F || N.eqb c 0x3000.

(** The Unicode tables behind [char::is_alphabetic] and [char::is_alphanumeric]
    are the standard library's; only their ASCII part is fixed here, what they
    answer above U+007F is a parameter of the model. *)
Class UnicodeTables := {
  wide_alphabetic : char -> bool;
  wide_numeric : char -> bool
}.

Definition is_alphabetic `{UnicodeTables} (c : char) : bool :=
  if (c <? 0x80)%N then is_ascii_alphabetic c else wide_alphabetic c.

Definition is_alphanumeric `{UnicodeTables} (c : char) : bool :=
  is_alphabetic c || (if (c <? 0x80)%N then is_ascii_digit c else wide_numeric c).

(** The tables of a program that only reads ASCII. *)
Definition ascii_tables : UnicodeTables :=
  {| wide_alphabetic := fun _ => false; wide_numeric := fun _ => false |}.

(** ** Byte slices

    [&text[a..b]]: the characters between two byte offsets; [None] is the
    panic of an offset that is past the end or inside a character. *)

Fixpoint skip_bytes (n : nat) (t : rstring) : option rstring :=
  match n, t with
  | 0, _ => Some t
  | S _, [] => None
  | S _, c :: t' => if (len_utf8 c <=? n)%nat then skip_bytes (n - len_utf8 c) t' else None
  end.

Fixpoint take_bytes (n : nat) (t : rstring) : option rstring :=
  match n, t with
  | 0, _ => Some []
  | S _, [] => None
  | S _, c :: t' =>
      if (len_utf8 c <=? n)%nat
      then (fun r => c :: r) <$> take_bytes (n - len_utf8 c) t'
      else None
  end.

Definition str_slice (t : rstring) (a b : nat) : option rstring :=
  if (a <=? b)%nat then r ← skip_bytes a t; take_bytes (b - a) r else None.

(** ** SourceRange (text/text_range.rs) *)

Record SourceRange : Type := mkRange { start_offset : nat; range_len : nat }.

#[global] Instance source_range_eq_dec : EqDecision SourceRange.
Proof. solve_decision. Defined.

Module SourceRange.
Definition new (start_offset len : nat) : SourceRange := mkRange start_offset len.
Definition EMPTY : SourceRange := mkRange 0 0.
Definition end_offset (r : SourceRange) : nat := start_offset r + range_len r.

(** [assert!(start_offset <= end_offset)]: [None] is the panic. *)
Definition from_start_end (start_offset end_offset : nat) : option SourceRange :=
  if (start_offset <=? end_offset)%nat
  then Some (new start_offset (end_offset - start_offset)) else None.

Definition contains (r : SourceRange) (offset : nat) : bool :=
  (start_offset r <=? offset)%nat && (offset <? end_offset r)%nat.
Definition contains_inclusive (r : SourceRange) (offset : nat) : bool :=
  (start_offset r <=? offset)%nat && (offset <=? end_offset r)%nat.
Definition contain_range (r range : SourceRange) : bool :=
  (start_offset r <=? start_offset range)%nat && (end_offset range <=? end_offset r)%nat.
Definition intersect (r range : SourceRange) : bool :=
  (start_offset r <? end_offset range)%nat && (start_offset range <? end_offset r)%nat.

(** [debug_assert!(offset <= self.length)]; the [usize] subtraction panics
    when it underflows. *)
Definition moved (r : SourceRange) (offset : nat) : option SourceRange :=
  if (offset <=? range_len r)%nat
  then Some (new (start_offset r + offset) (range_len r - offset)) else None.

Definition merge (r range : SourceRange) : SourceRange :=
  let start := start_offset r `min` start_offset range in
  let end_ := end_offset r `max` end_offset range in
  mkRange start (end_ - start).

Definition is_empty (r : SourceRange) : bool := (range_len r =? 0)%nat.
End SourceRange.

(** rowan's [TextRange]: two [u32] offsets. *)
Record TextRange : Type := mkTextRange { text_start : N; text_end : N }.

Definition as_u32 (n : nat) : N := (N.of_nat n mod 2 ^ 32)%N.

(** [impl From<SourceRange> for TextRange] *)
Definition text_range_from (val : SourceRange) : TextRange :=
  mkTextRange (as_u32 (start_offset val)) (as_u32 (SourceRange.end_offset val)).

(** ** Reader (text/reader.rs) *)

Record Reader : Type := mkReader {
  text : rstring;
  valid_range : SourceRange;
  chars : list char;                 (* what [Chars] has still to yield *)
  current_buffer_byte_pos : nat;
  current_buffer_byte_len : nat;
  next : char;
  current : char;
  prev : char
}.

Module Reader.
(** [Reader::new_with_range]: [None] is the panic of
    [assert_eq!(text.len(), range.length)]. *)
Definition new_with_range (text : rstring) (range : SourceRange) : option Reader :=
  if (blen text =? range_len range)%nat then
    Some (mkReader text range (tail (tail text)) 0 0
            (default EOF (head (tail text))) (default EOF (head text)) EOF)
  else None.

Definition new (text : rstring) : option Reader :=
  new_with_range text (SourceRange.new 0 (blen text)).

Definition bump (r : Reader) : Reader :=
  if N.eqb (current r) EOF then r
  else mkReader (text r) (valid_range r) (tail (chars r))
         (current_buffer_byte_pos r)
         (current_buffer_byte_len r + len_utf8 (current r))
         (default EOF (head (chars r))) (next r) (current r).

Definition reset_buff (r : Reader) : Reader :=
  mkReader (text r) (valid_range r) (chars r)
    (current_buffer_byte_pos r + current_buffer_byte_len r) 0
    (next r) (current r) (prev r).

Definition is_eof (r : Reader) : bool := N.eqb (current r) EOF.
Definition is_start_of_line (r : Reader) : bool := (current_buffer_byte_pos r =? 0)%nat.
Definition prev_char (r : Reader) : char := prev r.
Definition current_char (r : Reader) : char := current r.
Definition next_char (r : Reader) : char := next r.

Definition current_range (r : Reader) : SourceRange :=
  SourceRange.new (start_offset (valid_range r) + current_buffer_byte_pos r)
    (current_buffer_byte_len r).

Definition tail_range (r : Reader) : option SourceRange :=
  SourceRange.moved (valid_range r)
    (current_buffer_byte_pos r + current_buffer_byte_len r).

(** The two slices; [None] is a panic. *)
Definition current_text (r : Reader) : option rstring :=
  str_slice (text r) (current_buffer_byte_pos r)
    (current_buffer_byte_pos r + current_buffer_byte_len r).

Definition tail_text (r : Reader) : option rstring :=
  skip_bytes (current_buffer_byte_pos r + current_buffer_byte_len r) (text r).

Definition get_source_text (r : Reader) : rstring := text r.
Definition get_current_end_pos (r : Reader) : nat :=
  current_buffer_byte_pos r + current_buffer_byte_len r.

Definition reset_buff_into_sub_reader (r : Reader) : option (Reader * Reader) :=
  t ← current_text r;
  reader ← new_with_range t (current_range r);
  before ← str_slice (text r) 0 (current_buffer_byte_pos r);
  let reader := match list.last before with
                | Some p => mkReader (text reader) (valid_range reader) (chars reader)
                              (current_buffer_byte_pos reader)
                              (current_buffer_byte_len reader)
                              (next reader) (current reader) p
                | None => reader
                end in
  Some (reader, reset_buff r).

(** An upper bound of the number of bumps before the reader is at its end:
    every one of them takes a character from [chars], then [next], then
    [current]. *)
Definition steps_left (r : Reader) : nat := S (S (length (chars r))).

(** [while !self.is_eof() && func(self.current_char()) && eaten < count],
    with the bound optional. *)
Fixpoint eat_loop (fuel : nat) (func : char -> bool) (bound : option nat)
    (eaten : nat) (r : Reader) : nat * Reader :=
  match fuel with
  | 0 => (eaten, r)
  | S n =>
      if negb (is_eof r) && func (current_char r)
         && match bound with Some b => (eaten <? b)%nat | None => true end
      then eat_loop n func bound (S eaten) (bump r)
      else (eaten, r)
  end.

Definition eat_while (func : char -> bool) (r : Reader) : nat * Reader :=
  eat_loop (steps_left r) func None 0 r.

Definition eat_when (ch : char) (r : Reader) : nat * Reader :=
  eat_loop (steps_left r) (N.eqb ch) None 0 r.

Definition consume_char_n_times (ch : char) (count : nat) (r : Reader) : nat * Reader :=
  eat_loop (steps_left r) (N.eqb ch) (Some count) 0 r.

Definition consume_n_times (func : char -> bool) (count : nat) (r : Reader)
    : nat * Reader :=
  eat_loop (steps_left r) func (Some count) 0 r.

Definition eat_till_end (r : Reader) : nat * Reader := eat_while (fun _ => true) r.
End Reader.

(** ** Byte lengths and slices *)

Lemma len_utf8_pos c : 1 <= len_utf8 c <= 4.
Proof. unfold len_utf8. repeat case_if; lia. Qed.

Lemma blen_app t u : blen (t ++ u) = blen t + blen u.
Proof. apply sum_list_with_app. Qed.

Lemma blen_cons c t : blen (c :: t) = len_utf8 c + blen t.
Proof. done. Qed.

Lemma blen_zero t : blen t = 0 -> t = [].
Proof. destruct t as [|c t]; [done|]. rewrite blen_cons. pose proof (len_utf8_pos c). lia. Qed.

Lemma blen_length t : length t <= blen t.
Proof.
  induction t as [|c t IH]; [done|]. rewrite blen_cons. simpl.
  pose proof (len_utf8_pos c). lia.
Qed.

Lemma skip_bytes_0 t : skip_bytes 0 t = Some t.
Proof. by destruct t. Qed.

Lemma skip_bytes_app a t : skip_bytes (blen a) (a ++ t) = Some t.
Proof.
  induction a as [|c a IH]; [apply skip_bytes_0|].
  rewrite blen_cons. pose proof (len_utf8_pos c) as Hc. simpl.
  destruct (len_utf8 c + blen a) eqn:E; [lia|]. rewrite <-E.
  destruct (Nat.leb_spec (len_utf8 c) (len_utf8 c + blen a)); [|lia].
  by replace (len_utf8 c + blen a - len_utf8 c) with (blen a) by lia.
Qed.

Lemma take_bytes_0 t : take_bytes 0 t = Some [].
Proof. by destruct t. Qed.

Lemma take_bytes_app a t : take_bytes (blen a) (a ++ t) = Some a.
Proof.
  induction a as [|c a IH]; [apply take_bytes_0|].
  rewrite blen_cons. pose proof (len_utf8_pos c) as Hc. simpl.
  destruct (len_utf8 c + blen a) eqn:E; [lia|]. rewrite <-E.
  destruct (Nat.leb_spec (len_utf8 c) (len_utf8 c + blen a)); [|lia].
  replace (len_utf8 c + blen a - len_utf8 c) with (blen a) by lia. by rewrite IH.
Qed.

(** Slicing between two character boundaries succeeds and gives what is
    between them. *)
Lemma str_slice_app a b c : str_slice (a ++ b ++ c) (blen a) (blen a + blen b) = Some b.
Proof.
  unfold str_slice. rewrite (proj2 (Nat.leb_le _ _)) by lia.
  rewrite skip_bytes_app. simpl.
  replace (blen a + blen b - blen a) with (blen b) by lia. apply take_bytes_app.
Qed.

(** Two prefixes of a text with the same number of bytes are equal. *)
Lemma blen_prefix_eq a x a' x' : a ++ x = a' ++ x' -> blen a = blen a' -> a = a' /\ x = x'.
Proof.
  revert a'. induction a as [|c a IH]; intros [|c' a'] Heq Hl; simpl in *; try done.
  - pose proof (len_utf8_pos c'). unfold blen in Hl. simpl in Hl. lia.
  - pose proof (len_utf8_pos c). unfold blen in Hl. simpl in Hl. lia.
  - injection Heq as <- Heq. destruct (IH a' Heq) as [-> ->]; [|done].
    unfold blen in *. simpl in Hl. lia.
Qed.

(** For a range below 4 GiB the conversion to [TextRange] loses nothing, so the
    assertion [start <= end] of [TextRange::new] holds. *)
Theorem text_range_from_exact r :
  (N.of_nat (SourceRange.end_offset r) < 2 ^ 32)%N ->
  text_start (text_range_from r) = N.of_nat (start_offset r)
  /\ text_end (text_range_from r) = N.of_nat (SourceRange.end_offset r)
  /\ (text_start (text_range_from r) <= text_end (text_range_from r))%N.
Proof.
  unfold text_range_from, as_u32, SourceRange.end_offset. simpl. intros H.
  rewrite !N.mod_small by lia. lia.
Qed.

(** From 4 GiB on the offsets wrap around, and the assertion fails for a range
    across the boundary. *)
Lemma text_range_from_exact_witness :
  text_range_from (mkRange 3 4) = mkTextRange 3 7.
Proof.
  destruct (text_range_from_exact (mkRange 3 4)) as (Hs & He & _); [reflexivity|].
  destruct (text_range_from (mkRange 3 4)). simpl in *. by rewrite Hs, He.
Defined.

(** ** The cursor of a reader

    [cursor r pre buf rest]: the text is [pre ++ buf ++ rest], [buf] is the
    current buffer and [rest] is what has still to be read.  A NUL character
    of the source is the end of file for the reader. *)

Record cursor (r : Reader) (pre buf rest : rstring) : Prop := mkCursor {
  cur_text : text r = pre ++ buf ++ rest;
  cur_pos : current_buffer_byte_pos r = blen pre;
  cur_len : current_buffer_byte_len r = blen buf;
  cur_current : current r = default EOF (head rest);
  cur_next : next r = default EOF (head (tail rest));
  cur_chars : chars r = tail (tail rest);
  cur_valid : range_len (valid_range r) = blen (text r)
}.

(** What the reader still yields: [rest] up to the first NUL. *)
Fixpoint until_nul (t : rstring) : rstring :=
  match t with
  | [] => []
  | c :: t' => if N.eqb c EOF then [] else c :: until_nul t'
  end.

(** The longest prefix of characters that satisfy [f], stopped by a NUL. *)
Fixpoint scan (f : char -> bool) (t : rstring) : rstring :=
  match t with
  | [] => []
  | c :: t' => if negb (N.eqb c EOF) && f c then c :: scan f t' else []
  end.

Definition no_nul (t : rstring) : Prop := Forall (fun c => c <> EOF) t.

Lemma scan_prefix f t : exists u, t = scan f t ++ u.
Proof.
  induction t as [|c t [u IH]]; [by exists []|]. simpl.
  destruct (negb (N.eqb c EOF) && f c); [|by exists (c :: t)].
  exists u. simpl. by rewrite <-IH.
Qed.

Lemma scan_no_nul f t : no_nul (scan f t).
Proof.
  unfold no_nul. induction t as [|c t IH]; simpl; [constructor|].
  destruct (N.eqb_spec c EOF); simpl; [constructor|]. destruct (f c); by constructor.
Qed.

Lemma scan_all f t : Forall (fun c => f c = true) (scan f t).
Proof.
  induction t as [|c t IH]; simpl; [constructor|].
  destruct (negb (N.eqb c EOF)); simpl; [|constructor].
  destruct (f c) eqn:?; by constructor.
Qed.

Section ReaderSpec.
Lemma cursor_new_with_range t a :
  exists r, Reader.new_with_range t (mkRange a (blen t)) = Some r
    /\ cursor r [] [] t /\ start_offset (valid_range r) = a.
Proof.
  unfold Reader.new_with_range. simpl. rewrite Nat.eqb_refl.
  eexists. split; [done|]. by split.
Qed.

Lemma cursor_is_eof r pre buf rest :
  cursor r pre buf rest -> Reader.is_eof r = true <-> until_nul rest = [].
Proof.
  intros [_ _ _ Hc _ _ _]. unfold Reader.is_eof. rewrite Hc, N.eqb_eq.
  destruct rest as [|c rest]; simpl; [done|].
  destruct (N.eqb_spec c EOF) as [->|]; naive_solver.
Qed.

Lemma cursor_not_eof r pre buf rest :
  cursor r pre buf rest -> Reader.is_eof r = false ->
  exists rest', rest = current r :: rest' /\ current r <> EOF.
Proof.
  intros [_ _ _ Hc _ _ _] He. unfold Reader.is_eof in He. apply N.eqb_neq in He.
  destruct rest as [|c rest]; simpl in Hc; [done|]. subst. by exists rest.
Qed.

Lemma cursor_bump r pre buf c rest :
  cursor r pre buf (c :: rest) -> c <> EOF ->
  cursor (Reader.bump r) pre (buf ++ [c]) rest.
Proof.
  intros [Ht Hp Hl Hc Hn Hch Hv] Hne. simpl in Hc. unfold Reader.bump.
  rewrite Hc. destruct (N.eqb_spec c EOF); [done|]. simpl in *.
  split; simpl; try done.
  - by rewrite Ht, <-app_assoc.
  - by rewrite Hl, blen_app, blen_cons, Nat.add_0_r.
  - by rewrite Hch.
  - by rewrite Hch.
Qed.

Lemma cursor_bump_eof r : Reader.is_eof r = true -> Reader.bump r = r.
Proof. unfold Reader.is_eof, Reader.bump. by intros ->. Qed.

Lemma cursor_reset_buff r pre buf rest :
  cursor r pre buf rest -> cursor (Reader.reset_buff r) (pre ++ buf) [] rest.
Proof.
  intros [Ht Hp Hl Hc Hn Hch Hv]. split; simpl; try done.
  - by rewrite Ht, <-app_assoc.
  - by rewrite blen_app, Hp, Hl.
Qed.

Lemma cursor_current_text r pre buf rest :
  cursor r pre buf rest -> Reader.current_text r = Some buf.
Proof.
  intros [Ht Hp Hl _ _ _ _]. unfold Reader.current_text.
  rewrite Ht, Hp, Hl. apply str_slice_app.
Qed.

(** A NUL in the text is not distinguished from its end. *)
Lemma cursor_steps r pre buf rest :
  cursor r pre buf rest -> length rest <= Reader.steps_left r.
Proof.
  intros [_ _ _ _ _ Hch _]. unfold Reader.steps_left. rewrite Hch.
  destruct rest as [|? [|? ?]]; simpl; lia.
Qed.

Lemma cursor_eat_loop func fuel n r pre buf rest :
  cursor r pre buf rest -> length rest <= fuel ->
  exists r' rest', Reader.eat_loop fuel func None n r = (n + length (scan func rest), r')
    /\ rest = scan func rest ++ rest'
    /\ cursor r' pre (buf ++ scan func rest) rest'.
Proof.
  revert n r buf rest. induction fuel as [|fuel IH]; intros n r buf rest Hr Hf.
  - assert (rest = []) as -> by (destruct rest; simpl in Hf; [done|lia]).
    exists r, []. simpl. by rewrite Nat.add_0_r, app_nil_r.
  - simpl. rewrite andb_true_r. unfold Reader.current_char.
    destruct (Reader.is_eof r) eqn:He; simpl.
    { assert (scan func rest = []) as ->.
      { apply (cursor_is_eof _ _ _ _ Hr) in He. destruct rest as [|c t]; [done|].
        simpl in *. by destruct (N.eqb c EOF). }
      exists r, rest. by rewrite Nat.add_0_r, app_nil_r. }
    destruct (cursor_not_eof _ _ _ _ Hr He) as (t & -> & Hne). simpl.
    rewrite (proj2 (N.eqb_neq _ _) Hne). simpl. destruct (func (current r)).
    + apply (cursor_bump _ _ _ _ _ Hr) in Hne as Hr'. simpl in Hf.
      destruct (IH (S n) _ _ _ Hr') as (r' & rest' & -> & Ht & Hc); [lia|].
      exists r', rest'. simpl. rewrite <-Ht. rewrite <-app_assoc in Hc. simpl in Hc.
      split; [f_equal; lia|done].
    + exists r, (current r :: t). by rewrite Nat.add_0_r, app_nil_r.
Qed.

(** [eat_while] consumes exactly the longest prefix of accepted characters,
    and [count] is its length: the loop's fuel is always enough. *)
Theorem eat_while_spec func r pre buf rest :
  cursor r pre buf rest ->
  exists r' rest', Reader.eat_while func r = (length (scan func rest), r')
    /\ rest = scan func rest ++ rest'
    /\ cursor r' pre (buf ++ scan func rest) rest'.
Proof.
  intros Hr. apply (cursor_eat_loop func _ 0) with (1 := Hr).
  by eapply cursor_steps.
Qed.
End ReaderSpec.

Lemma eat_while_spec_witness :
  let r := mkReader (str "ab1") (mkRange 0 3) (str "1") 0 0 98%N 97%N EOF in
  exists r', Reader.eat_while is_ascii_alphabetic r = (2, r') /\ current r' = 49%N.
Proof.
  intros r.
  destruct (eat_while_spec is_ascii_alphabetic r [] [] (str "ab1")) as (r' & rest' & He & Ht & Hc);
    [by split|].
  exists r'. split; [exact He|]. rewrite (cur_current _ _ _ _ Hc). cbv in Ht.
  injection Ht as <-. reflexivity.
Defined.

(** [merge] is the least range that contains both of its arguments. *)
Theorem merge_least r1 r2 r :
  SourceRange.contain_range (SourceRange.merge r1 r2) r1 = true
  /\ SourceRange.contain_range (SourceRange.merge r1 r2) r2 = true
  /\ (SourceRange.contain_range r r1 = true -> SourceRange.contain_range r r2 = true ->
      SourceRange.contain_range r (SourceRange.merge r1 r2) = true).
Proof.
  destruct r1 as [s1 n1], r2 as [s2 n2], r as [s n].
  unfold SourceRange.contain_range, SourceRange.merge, SourceRange.end_offset. simpl.
  rewrite !andb_true_iff, !Nat.leb_le. lia.
Qed.


(** ** Bumps left

    The number of bumps before the reader is at its end is bounded by a measure
    that every effective bump decreases. *)

Definition bit (b : bool) : nat := if b then 1 else 0.

Definition remaining (r : Reader) : nat :=
  bit (negb (N.eqb (current r) EOF)) + bit (negb (N.eqb (next r) EOF)) + length (chars r).

Lemma remaining_steps r : remaining r <= Reader.steps_left r.
Proof. unfold remaining, Reader.steps_left, bit. repeat case_if; lia. Qed.

Lemma remaining_bump r :
  remaining (Reader.bump r) + bit (negb (Reader.is_eof r)) <= remaining r.
Proof.
  unfold Reader.bump, Reader.is_eof, remaining.
  destruct (N.eqb_spec (current r) EOF) as [->|]; simpl; [lia|].
  unfold bit. destruct (chars r) as [|c cs]; simpl; repeat case_if; lia.
Qed.

Lemma remaining_eat_loop fuel func bound n r :
  remaining (snd (Reader.eat_loop fuel func bound n r)) <= remaining r.
Proof.
  revert n r. induction fuel as [|fuel IH]; intros n r; simpl; [lia|].
  case_if; simpl; [|lia]. etrans; [apply IH|].
  pose proof (remaining_bump r). lia.
Qed.

(** ** What a scanner does to its reader
    [Advanced n r0 r]: from [r0] to [r] at least [n] characters were taken, all
    of them into the current buffer. *)

Record Advanced (n : nat) (r0 r : Reader) : Prop := mkAdvanced {
  adv_remaining : remaining r + n <= remaining r0;
  adv_cursor : forall pre buf rest, cursor r0 pre buf rest ->
    exists d rest', rest = d ++ rest' /\ no_nul d /\ n <= length d
      /\ cursor r pre (buf ++ d) rest'
      /\ start_offset (valid_range r) = start_offset (valid_range r0)
}.

Lemma Advanced_refl r : Advanced 0 r r.
Proof.
  split; [lia|]. intros pre buf rest Hc. exists [], rest.
  rewrite app_nil_r. split_and!; [done|constructor|simpl; lia|done|done].
Qed.

Lemma Advanced_trans n m r0 r1 r2 :
  Advanced n r0 r1 -> Advanced m r1 r2 -> Advanced (n + m) r0 r2.
Proof.
  intros [Hr1 Hm1] [Hr2 Hm2]. split; [lia|]. intros pre buf rest Hc.
  destruct (Hm1 _ _ _ Hc) as (d1 & rest1 & -> & Hn1 & Hl1 & Hcur1 & Hs1).
  destruct (Hm2 _ _ _ Hcur1) as (d2 & rest2 & -> & Hn2 & Hl2 & Hcur2 & Hs2).
  exists (d1 ++ d2), rest2. rewrite <-!app_assoc in *.
  split_and!; [done|by apply Forall_app|rewrite length_app; lia|done|congruence].
Qed.

Lemma Advanced_weaken n m r0 r : m <= n -> Advanced n r0 r -> Advanced m r0 r.
Proof.
  intros Hle [Hr Hm]. split; [lia|]. intros pre buf rest Hcur.
  destruct (Hm _ _ _ Hcur) as (d & rest' & ? & ? & ? & ?). exists d, rest'.
  split_and!; [done|done|lia|by destruct_and?|by destruct_and?].
Qed.

Lemma Advanced_bump r : Advanced (bit (negb (Reader.is_eof r))) r (Reader.bump r).
Proof.
  split; [apply remaining_bump|].
  intros pre buf rest Hc. destruct (Reader.is_eof r) eqn:He; simpl.
  - rewrite (cursor_bump_eof _ He). exists [], rest. rewrite app_nil_r.
    split_and!; [done|constructor|simpl; lia|done|done].
  - destruct (cursor_not_eof _ _ _ _ Hc He) as (rest' & -> & Hne).
    exists [current r], rest'.
    split_and!; [done|by repeat constructor|simpl; lia|by apply cursor_bump|].
    unfold Reader.bump. by case_if.
Qed.

Lemma Advanced_eat_loop func bound fuel n r :
  Advanced (bit (negb (Reader.is_eof r) && func (Reader.current_char r)
                 && match bound with Some b => (n <? b)%nat | None => true end)) r
    (snd (Reader.eat_loop (S fuel) func bound n r)).
Proof.
  revert n r. induction fuel as [|fuel IH]; intros n r; cbn [Reader.eat_loop];
    (case_if; [|apply Advanced_refl]); simpl in Heqb; rewrite ?Heqb;
    apply andb_true_iff in Heqb as [[He Hf]%andb_true_iff Hb]; rewrite ?Hf, ?Hb, ?He;
    pose proof (Advanced_bump r) as HA; rewrite He in HA; [done|].
  eapply (Advanced_trans 1 0); [done|]. eapply Advanced_weaken; [|apply IH]. lia.
Qed.

(** ** Tilings: ranges laid end to end *)

(** [spans a rs parts]: from offset [a] on, the ranges [rs] lie end to end and
    are as long as the texts [parts]. *)
Fixpoint spans (a : nat) (rs : list SourceRange) (parts : list rstring) : Prop :=
  match rs, parts with
  | [], [] => True
  | r :: rs', p :: parts' =>
      start_offset r = a /\ range_len r = blen p /\ spans (a + blen p) rs' parts'
  | _, _ => False
  end.

(** [tiles a rs b]: the ranges [rs] lie end to end from [a] to [b]. *)
Fixpoint tiles (a : nat) (rs : list SourceRange) (b : nat) : Prop :=
  match rs with
  | [] => a = b
  | r :: rs' => start_offset r = a /\ tiles (SourceRange.end_offset r) rs' b
  end.

Lemma tiles_app a rs rs' c :
  tiles a (rs ++ rs') c <-> exists b, tiles a rs b /\ tiles b rs' c.
Proof.
  revert a. induction rs as [|r rs IH]; intros a; simpl.
  - split; [intros H; by exists a|]. by intros (b & -> & H).
  - rewrite IH. split; [intros (Hs & b & H1 & H2); by exists b|].
    intros (b & (Hs & H1) & H2). eauto.
Qed.

Lemma tiles_le a rs b : tiles a rs b -> a <= b.
Proof.
  revert a. induction rs as [|r rs IH]; intros a; simpl; [lia|].
  intros [<- H%IH]. unfold SourceRange.end_offset in H. lia.
Qed.

Lemma spans_app a rs ps rs' ps' :
  spans a rs ps -> spans (a + blen (concat ps)) rs' ps' ->
  spans a (rs ++ rs') (ps ++ ps').
Proof.
  revert a ps. induction rs as [|r rs IH]; intros a [|p ps]; simpl; try done.
  - by rewrite Nat.add_0_r.
  - intros (Hs & Hl & Hr) H'. split_and!; [done..|]. apply IH; [done|].
    by rewrite blen_app, Nat.add_assoc in H'.
Qed.

Lemma spans_tiles a rs ps : spans a rs ps -> tiles a rs (a + blen (concat ps)).
Proof.
  revert a ps. induction rs as [|r rs IH]; intros a [|p ps]; simpl; try done.
  intros (<- & Hl & Hr). split; [done|]. unfold SourceRange.end_offset.
  rewrite Hl, blen_app, Nat.add_assoc. by apply IH.
Qed.

(** A span is a slice of the text it was cut from. *)
Lemma spans_slice a rs ps i r :
  spans a rs ps -> rs !! i = Some r ->
  exists p, ps !! i = Some p /\ range_len r = blen p
    /\ start_offset r = a + blen (concat (take i ps)).
Proof.
  revert a ps i. induction rs as [|r' rs IH]; intros a [|p ps] i; simpl; try done.
  intros (Hs & Hl & Hr). destruct i as [|i]; simpl.
  - intros [= <-]. exists p. split_and!; [done..|lia].
  - intros Hi. destruct (IH _ _ _ Hr Hi) as (q & Hq & Hlq & Hsq).
    exists q. split_and!; [done..|]. rewrite blen_app. lia.
Qed.

(** ** Parse errors (parser_error/mod.rs) *)

Inductive LuaParseErrorKind : Type := SyntaxError | DocError.

Record LuaParseError : Type := mkError {
  error_kind : LuaParseErrorKind;
  message : rstring;
  range : TextRange
}.

Definition syntax_error_from (message : rstring) (range : SourceRange) : LuaParseError :=
  mkError SyntaxError message (text_range_from range).

Definition doc_error_from (message : rstring) (range : SourceRange) : LuaParseError :=
  mkError DocError message (text_range_from range).
