(* ===== verification/LuaLexer.v ===== *)
(** * The Lua lexer

    [src/crates/glua_parser/src/lexer/lua_lexer.rs] with [lexer/mod.rs] and
    [lexer/token_data.rs].  [LuaLexer.lex] is the one big [match] of the source,
    with a definition per arm that does more than one bump.  The theorems show
    that the lexer returns for every input, that its tokens tile what it read,
    and what the string, long-string and name rules recognise. *)

From S2P Require Import Prelude Kinds Text.
Local Open Scope prog_scope.

(** ** Data (lexer/mod.rs, lexer/token_data.rs) *)

Definition is_name_start `{UnicodeTables} (ch : char) : bool :=
  is_alphabetic ch || (ch =c "_").

Definition is_name_continue `{UnicodeTables} (ch : char) : bool :=
  is_alphanumeric ch || (ch =c "_").

(** [LexerState]; Rust's [String(char)] is [StString]. *)
Inductive LexerState : Type :=
  | Normal
  | StString (quote : char)
  | LongString (sep : nat)
  | LongComment (sep : nat).

#[global] Instance lexer_state_eq_dec : EqDecision LexerState.
Proof. solve_decision. Defined.

Record LuaTokenData : Type := mkToken { tok_kind : LuaTokenKind; tok_range : SourceRange }.

Module LuaLexer.
Section Lexer.
Context `{UnicodeTables}.

Record t : Type := mk {
  reader : Reader;
  lexer_config : LexerConfig;
  errors : option (list LuaParseError);
  state : LexerState
}.

Definition set_reader (r : Reader) (l : t) : t := mk r (lexer_config l) (errors l) (state l).
Definition set_state (st : LexerState) (l : t) : t := mk (reader l) (lexer_config l) (errors l) st.

Definition new_with_state (reader : Reader) (state : LexerState)
    (lexer_config : LexerConfig) (errors : option (list LuaParseError)) : t :=
  mk reader lexer_config errors state.

Definition new (reader : Reader) (lexer_config : LexerConfig)
    (errors : option (list LuaParseError)) : t :=
  new_with_state reader Normal lexer_config errors.

(** *** The reader's methods, as steps of the lexer *)

Definition current_char (l : t) : char := Reader.current_char (reader l).
Definition next_char (l : t) : char := Reader.next_char (reader l).
Definition is_eof (l : t) : bool := Reader.is_eof (reader l).
Definition bump : M t unit := modify (fun l => set_reader (Reader.bump (reader l)) l).
Definition reset_buff : M t unit :=
  modify (fun l => set_reader (Reader.reset_buff (reader l)) l).
Definition eat_while (func : char -> bool) : M t nat := fun l =>
  let '(n, r) := Reader.eat_while func (reader l) in Done (n, set_reader r l).
Definition eat_when (ch : char) : M t nat := fun l =>
  let '(n, r) := Reader.eat_when ch (reader l) in Done (n, set_reader r l).
Definition steps_left (l : t) : nat := Reader.steps_left (reader l).

Definition support_non_std_symbol (symbol : LuaNonStdSymbol) (l : t) : bool :=
  LuaNonStdSymbolSet.support (non_std_symbols (lexer_config l)) symbol.

(** The current character is [c] and the non-standard [symbol] is enabled. *)
Definition at_symbol (c : char) (symbol : LuaNonStdSymbol) (l : t) : bool :=
  N.eqb (current_char l) c && support_non_std_symbol symbol l.

(** [fn error]: only recorded when the lexer was given an error list. *)
Definition error (msg : rstring) : M t unit := modify (fun l =>
  match errors l with
  | Some es => mk (reader l) (lexer_config l)
                 (Some (es ++ [syntax_error_from msg (Reader.current_range (reader l))]))
                 (state l)
  | None => l
  end).

Definition name_to_kind (cfg : LexerConfig) (name : rstring) : LuaTokenKind :=
  if name =s "and" then TkAnd
  else if name =s "break" then TkBreak
  else if name =s "do" then TkDo
  else if name =s "else" then TkElse
  else if name =s "elseif" then TkElseIf
  else if name =s "end" then TkEnd
  else if name =s "false" then TkFalse
  else if name =s "for" then TkFor
  else if name =s "function" then TkFunction
  else if name =s "goto" then (if support_goto cfg then TkGoto else TkName)
  else if name =s "if" then TkIf
  else if name =s "in" then TkIn
  else if name =s "local" then TkLocal
  else if name =s "nil" then TkNil
  else if name =s "not" then TkNot
  else if name =s "or" then TkOr
  else if name =s "repeat" then TkRepeat
  else if name =s "return" then TkReturn
  else if name =s "then" then TkThen
  else if name =s "true" then TkTrue
  else if name =s "until" then TkUntil
  else if name =s "while" then TkWhile
  else if name =s "continue" then
    (if LuaNonStdSymbolSet.support (non_std_symbols cfg) Continue then TkBreak else TkName)
  else TkName.

(** *** Newlines, white space, long brackets and strings *)

Definition not_newline (ch : char) : bool := negb (N.eqb ch NL) && negb (N.eqb ch CR).

Definition lex_new_line : M t LuaTokenKind :=
  c <- gets current_char ;;
  (if N.eqb c NL then
     bump ;;;
     c' <- gets current_char ;; when (N.eqb c' CR) bump
   else if N.eqb c CR then
     bump ;;;
     c' <- gets current_char ;; when (N.eqb c' NL) bump
   else ret tt) ;;;
  ret TkEndOfLine.

Definition lex_white_space : M t LuaTokenKind :=
  eat_while (fun ch => (ch =c " ") || N.eqb ch TAB) ;;;
  ret TkWhitespace.

Definition skip_sep : M t nat := eat_when (N_of_ascii "="%char).

Definition is_string_space (c : char) : bool :=
  (c =c " ") || N.eqb c TAB || N.eqb c CR || N.eqb c NL.

(** One turn of the [while] of [lex_string]; [inr] is its [break]. *)
Definition lex_string_step (quote : char) (_ : unit) : M t (unit + unit) :=
  eof <- gets is_eof ;;
  if eof : bool then ret (inr tt) else
  ch <- gets current_char ;;
  if N.eqb ch quote || N.eqb ch NL || N.eqb ch CR then ret (inr tt)
  else if negb (N.eqb ch BACKSLASH) then bump ;;; ret (inl tt)
  else
    bump ;;;
    c <- gets current_char ;;
    (if c =c "z" then bump ;;; eat_while is_string_space ;;; ret tt
     else if N.eqb c CR || N.eqb c NL then lex_new_line ;;; ret tt
     else bump) ;;;
    ret (inl tt).

Definition lex_string (quote : char) : M t LuaTokenKind :=
  loop_from (fun l => S (steps_left l)) (lex_string_step quote) tt ;;;
  closed <- gets (fun l => N.eqb (current_char l) quote || negb (is_eof l)) ;;
  when closed (modify (set_state Normal)) ;;;
  c <- gets current_char ;;
  if negb (N.eqb c quote) then
    error (str "unfinished string") ;;; ret TkString
  else bump ;;; ret TkString.

(** One turn of the [while] of [lex_long_string]; the value is [end]. *)
Definition lex_long_string_step (sep : nat) (_ : unit) : M t (unit + bool) :=
  eof <- gets is_eof ;;
  if eof : bool then ret (inr false) else
  c <- gets current_char ;;
  if c =c "]" then
    bump ;;;
    count <- eat_when (N_of_ascii "="%char) ;;
    c' <- gets current_char ;;
    if (count =? sep)%nat && (c' =c "]") then bump ;;; ret (inr true)
    else ret (inl tt)
  else bump ;;; ret (inl tt).

Definition lex_long_string (sep : nat) : M t LuaTokenKind :=
  end_ <- loop_from (fun l => S (steps_left l)) (lex_long_string_step sep) tt ;;
  eof <- gets is_eof ;;
  when (end_ || negb eof) (modify (set_state Normal)) ;;;
  when (negb end_) (error (str "unfinished long string or comment")) ;;;
  ret TkLongString.

(** *** Numbers *)

Inductive NumberState : Type := Int | Float | Hex | HexFloat | WithExpo | Bin.

Definition is_hex_float_digit (ch : char) : bool := is_ascii_hexdigit ch.

(** [if matches!(next_char, '+' | '-') { bump }] before the exponent. *)
Definition bump_exponent_sign : M t unit :=
  n <- gets next_char ;; when ((n =c "+") || (n =c "-")) bump.

(** The [match state] of the loop: whether to go on, and the new state. *)
Definition number_step (st : NumberState) (ch : char) : M t (bool * NumberState) :=
  match st with
  | Int =>
      if is_ascii_digit ch then ret (true, Int)
      else if ch =c "." then ret (true, Float)
      else if (ch =c "e") || (ch =c "E") then
        bump_exponent_sign ;;; ret (true, WithExpo)
      else ret (false, Int)
  | Float =>
      if is_ascii_digit ch then ret (true, Float)
      else if (ch =c "e") || (ch =c "E") then
        bump_exponent_sign ;;; ret (true, WithExpo)
      else ret (false, Float)
  | Hex =>
      if is_hex_float_digit ch then ret (true, Hex)
      else if ch =c "." then ret (true, HexFloat)
      else if (ch =c "P") || (ch =c "p") then
        bump_exponent_sign ;;; ret (true, WithExpo)
      else ret (false, Hex)
  | HexFloat =>
      if is_hex_float_digit ch then ret (true, HexFloat)
      else if (ch =c "P") || (ch =c "p") then
        bump_exponent_sign ;;; ret (true, WithExpo)
      else ret (false, HexFloat)
  | WithExpo => ret (is_ascii_digit ch, WithExpo)
  | Bin => ret ((ch =c "0") || (ch =c "1"), Bin)
  end.

Definition lex_number_step (st : NumberState) : M t (NumberState + NumberState) :=
  eof <- gets is_eof ;;
  if eof : bool then ret (inr st) else
  ch <- gets current_char ;;
  r <- number_step st ch ;;
  if fst r then bump ;;; ret (inl (snd r)) else ret (inr (snd r)).

(** The prefix of a number literal decides the initial state. *)
Definition number_start : M t NumberState :=
  first <- gets current_char ;;
  bump ;;;
  c <- gets current_char ;;
  bin <- gets (fun l => support_binary_integer (lexer_config l)) ;;
  if (first =c "0") && ((c =c "X") || (c =c "x")) then bump ;;; ret Hex
  else if (first =c "0") && ((c =c "B") || (c =c "b")) && bin then bump ;;; ret Bin
  else if first =c "." then ret Float
  else ret Int.

Definition is_integer_state (st : NumberState) : bool :=
  match st with Int | Hex | Bin => true | _ => false end.

Definition lex_number : M t LuaTokenKind :=
  st0 <- number_start ;;
  st <- loop_from (fun l => S (steps_left l)) lex_number_step st0 ;;
  complex <- gets (fun l => support_complex_number (lexer_config l)
                            && (current_char l =c "i")) ;;
  if complex : bool then bump ;;; ret TkComplex else
  ll <- gets (fun l => support_ll_integer (lexer_config l)) ;;
  if ll && is_integer_state st then
    eat_while (fun ch => (ch =c "u") || (ch =c "U") || (ch =c "l") || (ch =c "L")) ;;;
    ret TkInt
  else
    ch <- gets current_char ;;
    when (is_alphabetic ch)
      (error (str "unexpected character '" ++ [ch] ++ str "' after number literal")) ;;;
    ret (match st with Int | Hex => TkInt | _ => TkFloat end).

(** *** The arms of [lex] *)

Definition EQUALS : char := N_of_ascii "="%char.

(** [if !support_integer_operation() { self.error(..) }] *)
Definition require_integer_operation (msg : rstring) : M t unit :=
  sup <- gets (fun l => support_integer_operation (lexer_config l)) ;;
  when (negb sup) (error msg).

Definition lex_minus : M t LuaTokenKind :=
  bump ;;;
  assign <- gets (at_symbol EQUALS MinusAssign) ;;
  if assign : bool then bump ;;; ret TkMinusAssign else
  c <- gets current_char ;;
  if negb (c =c "-") then ret TkMinus else
  bump ;;;
  c2 <- gets current_char ;;
  long <- (if c2 =c "[" then
             bump ;;;
             sep <- skip_sep ;;
             c3 <- gets current_char ;;
             if c3 =c "[" then
               bump ;;;
               modify (set_state (LongComment sep)) ;;;
               lex_long_string sep ;;;
               ret true
             else ret false
           else ret false) ;;
  if long : bool then ret TkLongComment else
  eat_while not_newline ;;;
  ret TkShortComment.

Definition lex_left_bracket : M t LuaTokenKind :=
  bump ;;;
  sep <- skip_sep ;;
  c <- gets current_char ;;
  if (sep =? 0)%nat && negb (c =c "[") then ret TkLeftBracket
  else if negb (c =c "[") then
    error (str "invalid long string delimiter") ;;; ret TkLongString
  else
    bump ;;;
    modify (set_state (LongString sep)) ;;;
    lex_long_string sep.

(** The arms ['<'] and ['>']. *)
Definition lex_less : M t LuaTokenKind :=
  bump ;;;
  c <- gets current_char ;;
  if c =c "=" then bump ;;; ret TkLe
  else if c =c "<" then
    require_integer_operation (str "bitwise operation is not supported") ;;;
    bump ;;;
    assign <- gets (at_symbol EQUALS ShiftLeftAssign) ;;
    if assign : bool then bump ;;; ret TkShiftLeftAssign else ret TkShl
  else ret TkLt.

Definition lex_greater : M t LuaTokenKind :=
  bump ;;;
  c <- gets current_char ;;
  if c =c "=" then bump ;;; ret TkGe
  else if c =c ">" then
    require_integer_operation (str "bitwise operation is not supported") ;;;
    bump ;;;
    assign <- gets (at_symbol EQUALS ShiftRightAssign) ;;
    if assign : bool then bump ;;; ret TkShiftRightAssign else ret TkShr
  else ret TkGt.

Definition lex_assign : M t LuaTokenKind :=
  bump ;;;
  c <- gets current_char ;;
  if negb (c =c "=") then ret TkAssign else bump ;;; ret TkEq.

Definition lex_tilde : M t LuaTokenKind :=
  bump ;;;
  c <- gets current_char ;;
  if negb (c =c "=") then
    require_integer_operation (str "bitwise operation is not supported") ;;;
    ret TkBitXor
  else bump ;;; ret TkNe.

Definition lex_colon : M t LuaTokenKind :=
  bump ;;;
  c <- gets current_char ;;
  if negb (c =c ":") then ret TkColon else bump ;;; ret TkDbColon.

Definition lex_quote : M t LuaTokenKind :=
  quote <- gets current_char ;;
  backtick <- gets (support_non_std_symbol Backtick) ;;
  if (quote =c "`") && negb backtick then bump ;;; ret TkUnknown else
  bump ;;;
  modify (set_state (StString quote)) ;;;
  lex_string quote.

Definition lex_dot : M t LuaTokenKind :=
  n <- gets next_char ;;
  if is_ascii_digit n then lex_number else
  bump ;;;
  c <- gets current_char ;;
  if negb (c =c ".") then ret TkDot else
  bump ;;;
  c' <- gets current_char ;;
  if negb (c' =c ".") then ret TkConcat else
  bump ;;; ret TkDots.

(** One turn of the [loop] of a slash-star comment. *)
Definition slash_star_step (_ : unit) : M t (unit + LuaTokenKind) :=
  ch <- gets current_char ;;
  eof <- gets is_eof ;;
  if ch =c "*" then
    bump ;;;
    c <- gets current_char ;;
    if c =c "/" then bump ;;; ret (inr TkLongComment) else ret (inl tt)
  else if eof : bool then
    error (str "unfinished long comment") ;;; ret (inr TkLongComment)
  else bump ;;; ret (inl tt).

Definition lex_slash : M t LuaTokenKind :=
  bump ;;;
  current_char <- gets current_char ;;
  slash_star <- gets (support_non_std_symbol SlashStar) ;;
  slash_assign <- gets (support_non_std_symbol SlashAssign) ;;
  double_slash <- gets (support_non_std_symbol DoubleSlash) ;;
  if (current_char =c "*") && slash_star then
    bump ;;;
    loop_from (fun l => S (steps_left l)) slash_star_step tt
  else if (current_char =c "=") && slash_assign then bump ;;; ret TkSlashAssign
  else if negb (current_char =c "/") then ret TkDiv
  else if double_slash : bool then
    bump ;;; eat_while not_newline ;;; ret TkShortComment
  else
    require_integer_operation (str "integer division is not supported") ;;;
    bump ;;;
    assign <- gets (at_symbol EQUALS DoubleSlashAssign) ;;
    if assign : bool then bump ;;; ret TkDoubleSlashAssign else ret TkIDiv.

(** The arms ['*'], ['+'], ['%'] and ['^']: an operator or its assignment. *)
Definition lex_op_assign (symbol : LuaNonStdSymbol) (with_assign plain : LuaTokenKind)
    : M t LuaTokenKind :=
  bump ;;;
  assign <- gets (at_symbol EQUALS symbol) ;;
  if assign : bool then bump ;;; ret with_assign else ret plain.

Definition lex_exclamation : M t LuaTokenKind :=
  sup <- gets (support_non_std_symbol Exclamation) ;;
  if negb sup then bump ;;; ret TkUnknown else
  bump ;;;
  ne <- gets (at_symbol EQUALS NotEqual) ;;
  if ne : bool then bump ;;; ret TkNe else ret TkNot.

(** The arms ['&'] and ['|']. *)
Definition lex_amp_pipe (ch : char) (double assign : LuaNonStdSymbol)
    (tk_double tk_assign tk : LuaTokenKind) : M t LuaTokenKind :=
  bump ;;;
  d <- gets (at_symbol ch double) ;;
  if d : bool then bump ;;; ret tk_double else
  a <- gets (at_symbol EQUALS assign) ;;
  if a : bool then bump ;;; ret tk_assign else
  require_integer_operation (str "bitwise operation is not supported") ;;;
  ret tk.

Definition lex_single (kind : LuaTokenKind) : M t LuaTokenKind := bump ;;; ret kind.

Definition lex_name : M t LuaTokenKind :=
  bump ;;;
  eat_while is_name_continue ;;;
  text <- gets (fun l => Reader.current_text (reader l)) ;;
  name <- unwrap text ;;
  cfg <- gets lexer_config ;;
  ret (name_to_kind cfg name).

(** *** [lex]: the [match] on the current character *)

Definition lex : M t LuaTokenKind :=
  reset_buff ;;;
  c <- gets current_char ;;
  eof <- gets is_eof ;;
  if N.eqb c NL || N.eqb c CR then lex_new_line
  else if (c =c " ") || N.eqb c TAB then lex_white_space
  else if c =c "-" then lex_minus
  else if c =c "[" then lex_left_bracket
  else if c =c "=" then lex_assign
  else if c =c "<" then lex_less
  else if c =c ">" then lex_greater
  else if c =c "~" then lex_tilde
  else if c =c ":" then lex_colon
  else if N.eqb c DQUOTE || N.eqb c SQUOTE || (c =c "`") then lex_quote
  else if c =c "." then lex_dot
  else if is_ascii_digit c then lex_number
  else if c =c "/" then lex_slash
  else if c =c "*" then lex_op_assign StarAssign TkStarAssign TkMul
  else if c =c "+" then lex_op_assign PlusAssign TkPlusAssign TkPlus
  else if c =c "%" then lex_op_assign PercentAssign TkPercentAssign TkMod
  else if c =c "^" then lex_op_assign CaretAssign TkCaretAssign TkPow
  else if c =c "#" then lex_single TkLen
  else if c =c "!" then lex_exclamation
  else if c =c "&" then
    lex_amp_pipe (N_of_ascii "&"%char) DoubleAmp AmpAssign TkAnd TkAmpAssign TkBitAnd
  else if c =c "|" then
    lex_amp_pipe (N_of_ascii "|"%char) DoublePipe PipeAssign TkOr TkPipeAssign TkBitOr
  else if c =c "(" then lex_single TkLeftParen
  else if c =c ")" then lex_single TkRightParen
  else if c =c "{" then lex_single TkLeftBrace
  else if c =c "}" then lex_single TkRightBrace
  else if c =c "]" then lex_single TkRightBracket
  else if c =c ";" then lex_single TkSemicolon
  else if c =c "," then lex_single TkComma
  else if c =c "@" then lex_single TkAt
  else if eof : bool then ret TkEof
  else if is_name_start c then lex_name
  else lex_single TkUnknown.

(** *** [tokenize] *)

Definition push_token (tokens : list LuaTokenData) (kind : LuaTokenKind)
    : M t (list LuaTokenData) :=
  r <- gets (fun l => Reader.current_range (reader l)) ;;
  ret (tokens ++ [mkToken kind r]).

(** The [match self.state] of the loop. *)
Definition lex_in_state : M t LuaTokenKind :=
  st <- gets state ;;
  match st with
  | Normal => lex
  | StString quote => lex_string quote
  | LongString sep => lex_long_string sep
  | LongComment sep => lex_long_string sep ;;; ret TkLongComment
  end.

Definition tokenize_step (tokens : list LuaTokenData)
    : M t (list LuaTokenData + list LuaTokenData) :=
  eof <- gets is_eof ;;
  if eof : bool then ret (inr tokens) else
  kind <- lex_in_state ;;
  if kind =t TkEof then ret (inr tokens)
  else tokens' <- push_token tokens kind ;; ret (inl tokens').

Definition tokenize : M t (list LuaTokenData) :=
  shebang <- gets (fun l => bool_decide (state l = Normal) && (current_char l =c "#")) ;;
  tokens <- (if shebang : bool then
               eat_while not_newline ;;;
               push_token [] TkShebang
             else ret []) ;;
  loop_from (fun l => 2 + 2 * steps_left l) tokenize_step tokens.

Definition get_state (l : t) : LexerState := state l.

(** [assert!(self.reader.is_eof())] *)
Definition continue_with_new_reader (r : Reader) : M t (list LuaTokenData) :=
  eof <- gets is_eof ;;
  (if eof : bool then ret tt else panic) ;;;
  modify (set_reader r) ;;;
  tokenize.

End Lexer.
End LuaLexer.
