(* ===== verification/LuaLexerProofs.v ===== *)
(** * Correctness of the Lua lexer

    Every arm of [LuaLexer.lex] returns, moves the reader forward over
    characters that are not NUL, and produces a token kind that is neither
    [TkNone] nor [TkEof]; from this [tokenize] is total and its tokens tile the
    text.  The relation [Moved] is what every step of the lexer promises. *)

From S2P Require Import Prelude Kinds Text LuaLexer.
Import LuaLexer.
Local Open Scope prog_scope.

Create HintDb lexer.

Section LexerSpec.
Context `{UnicodeTables}.
Implicit Types (l : LuaLexer.t).

(** [Moved n l0 l]: from [l0] to [l] the reader has taken at least [n]
    characters, all of them into the current buffer. *)
Record Moved (n : nat) (l0 l : t) : Prop := mkMoved {
  moved_config : lexer_config l = lexer_config l0;
  moved_reader : Advanced n (reader l0) (reader l)
}.

(** The same, and the lexer state has not changed. *)
Definition Same (n : nat) (l0 l : t) : Prop := Moved n l0 l /\ state l = state l0.

Lemma Moved_refl l : Moved 0 l l.
Proof. split; [done|apply Advanced_refl]. Qed.

Lemma Same_refl l : Same 0 l l.
Proof. split; [apply Moved_refl|done]. Qed.

Lemma Moved_trans n m l0 l1 l2 :
  Moved n l0 l1 -> Moved m l1 l2 -> Moved (n + m) l0 l2.
Proof. intros [Hc1 H1] [Hc2 H2]. split; [congruence|by eapply Advanced_trans]. Qed.

Lemma Moved_weaken n m l0 l : m <= n -> Moved n l0 l -> Moved m l0 l.
Proof. intros Hle [Hc Hr]. split; [done|by eapply Advanced_weaken]. Qed.

Lemma Same_Moved n l0 l : Same n l0 l -> Moved n l0 l.
Proof. by intros []. Qed.

Lemma Same_weaken n m l0 l : m <= n -> Same n l0 l -> Same m l0 l.
Proof. intros Hle [Hm Hs]. split; [by eapply Moved_weaken|done]. Qed.

Lemma Same_trans n m l0 l1 l2 : Same n l0 l1 -> Same m l1 l2 -> Same (n + m) l0 l2.
Proof. intros [Hm1 Hs1] [Hm2 Hs2]. split; [by eapply Moved_trans|congruence]. Qed.

(** A step that keeps the reader. *)
Lemma Moved_keep n l0 l l' :
  Moved n l0 l -> reader l' = reader l -> lexer_config l' = lexer_config l -> Moved n l0 l'.
Proof. intros [Hc Hr] Hr' Hc'. split; rewrite ?Hr', ?Hc'; done. Qed.

(** *** The reader's methods *)

Lemma bump_same l : Same (bit (negb (is_eof l))) l (set_reader (Reader.bump (reader l)) l).
Proof. split; [|done]. split; [done|]. apply Advanced_bump. Qed.

Lemma eat_same func n r' l :
  Reader.eat_while func (reader l) = (n, r') ->
  Same (bit (negb (is_eof l) && func (current_char l))) l (set_reader r' l).
Proof.
  intros He. unfold Reader.eat_while, Reader.steps_left in He. split; [|done]. split; [done|].
  pose proof (Advanced_eat_loop func None (S (length (chars (reader l)))) 0 (reader l)) as HS.
  by rewrite He, andb_true_r in HS.
Qed.

Lemma wp_lexer_bump n l0 l (Q : unit -> t -> Prop) :
  Same n l0 l -> (forall l', Same n l0 l' -> Q tt l') -> wp bump Q l.
Proof.
  intros HS HQ. apply wp_modify, HQ. rewrite <-(Nat.add_0_r n).
  eapply Same_trans; [done|]. eapply Same_weaken; [|apply bump_same]. lia.
Qed.

Lemma wp_bump_char n l0 l (Q : unit -> t -> Prop) :
  Same n l0 l -> is_eof l = false -> (forall l', Same (S n) l0 l' -> Q tt l') -> wp bump Q l.
Proof.
  intros HS He HQ. apply wp_modify, HQ. rewrite <-Nat.add_1_r.
  eapply Same_trans; [done|]. pose proof (bump_same l) as Hb. by rewrite He in Hb.
Qed.

Lemma wp_eat_while func n l0 l (Q : nat -> t -> Prop) :
  Same n l0 l -> (forall k l', Same n l0 l' -> Q k l') -> wp (eat_while func) Q l.
Proof.
  intros HS HQ. unfold wp, eat_while.
  destruct (Reader.eat_while func (reader l)) as [k r] eqn:He.
  apply HQ. rewrite <-(Nat.add_0_r n). eapply Same_trans; [done|].
  eapply Same_weaken; [|by eapply eat_same]. lia.
Qed.

Lemma wp_eat_while_first func l (Q : nat -> t -> Prop) :
  is_eof l = false -> func (current_char l) = true ->
  (forall k l', Same 1 l l' -> Q k l') -> wp (eat_while func) Q l.
Proof.
  intros He Hf HQ. unfold wp, eat_while.
  destruct (Reader.eat_while func (reader l)) as [k r] eqn:Hw.
  apply eat_same in Hw. rewrite He, Hf in Hw. by apply HQ.
Qed.

Lemma wp_eat_when ch n l0 l (Q : nat -> t -> Prop) :
  Same n l0 l -> (forall k l', Same n l0 l' -> Q k l') -> wp (eat_when ch) Q l.
Proof. apply (wp_eat_while (N.eqb ch)). Qed.

Lemma wp_error msg n l0 l (Q : unit -> t -> Prop) :
  Same n l0 l -> (forall l', Same n l0 l' -> is_eof l' = is_eof l -> Q tt l') ->
  wp (error msg) Q l.
Proof.
  intros [HM HS] HQ. apply wp_modify, HQ.
  - split; [eapply Moved_keep; [done|..]|]; by destruct (errors l).
  - unfold is_eof. by destruct (errors l).
Qed.

Lemma wp_require_integer_operation msg n l0 l (Q : unit -> t -> Prop) :
  Same n l0 l -> (forall l', Same n l0 l' -> Q tt l') ->
  wp (require_integer_operation msg) Q l.
Proof.
  intros HS HQ. apply wp_bind, wp_gets. simpl.
  eapply wp_error; [done|]. auto.
Qed.

Lemma current_char_not_eof l c :
  current_char l = c -> c <> EOF -> is_eof l = false.
Proof. intros <- Hne. unfold is_eof, Reader.is_eof. by apply N.eqb_neq. Qed.
End LexerSpec.

(** One step of symbolic execution of a lexer function, under a hypothesis
    [Same n l0 l] on the current state. *)
Ltac lex_step :=
  lazymatch goal with
  | |- wp (bind _ _) _ _ => apply wp_bind
  | |- wp (gets _) _ _ => apply wp_gets
  | |- wp (ret _) _ _ => apply wp_ret
  | |- wp (if ?b then _ else _) _ _ => destruct b eqn:?
  | |- wp (when _ _) _ _ => let Hw := fresh "Hw" in apply wp_when; intros Hw
  | HS : Same ?n ?l0 ?l |- wp bump _ ?l =>
      eapply wp_lexer_bump; [exact HS|clear HS; intros ? ?]
  | HS : Same ?n ?l0 ?l |- wp (eat_while _) _ ?l =>
      eapply wp_eat_while; [exact HS|clear HS; intros ? ? ?]
  | HS : Same ?n ?l0 ?l |- wp (eat_when _) _ ?l =>
      eapply wp_eat_when; [exact HS|clear HS; intros ? ? ?]
  | HS : Same ?n ?l0 ?l |- wp skip_sep _ ?l =>
      eapply wp_eat_when; [exact HS|clear HS; intros ? ? ?]
  | HS : Same ?n ?l0 ?l |- wp (error _) _ ?l =>
      eapply wp_error; [exact HS|clear HS; intros ? ? ?]
  | HS : Same ?n ?l0 ?l |- wp (require_integer_operation _) _ ?l =>
      eapply wp_require_integer_operation; [exact HS|clear HS; intros ? ?]
  end.
Ltac lex_steps := simpl; repeat (lex_step; simpl).

Section LexerArms.
Context `{UnicodeTables}.
Implicit Types (l : LuaLexer.t).

(** The kinds a token may have. *)
Definition lexed_kind (k : LuaTokenKind) : bool := negb (k in_t [TkNone; TkEof; TkDocContinue]).

(** The lexer is back in its normal state, or at the end of its input. *)
Definition settled l : Prop := state l = Normal \/ is_eof l = true.

(** What an arm of [lex] promises. *)
Definition LexOk l0 (k : LuaTokenKind) l : Prop :=
  lexed_kind k = true /\ Moved 1 l0 l /\ settled l.

Lemma LexOk_same n l0 k l :
  state l0 = Normal -> Same n l0 l -> 1 <= n -> lexed_kind k = true -> LexOk l0 k l.
Proof.
  intros H0 [HM HS] Hn Hk. split_and!; [done|by eapply Moved_weaken|]. left. congruence.
Qed.

Lemma settled_same n l0 l : Same n l0 l -> state l0 = Normal -> settled l.
Proof. intros [_ Hs] H0. left. congruence. Qed.

(** *** Strings and long brackets, started in any state *)

Lemma lex_new_line_spec n l0 l (Q : LuaTokenKind -> t -> Prop) :
  Same n l0 l -> (forall l', Same n l0 l' -> Q TkEndOfLine l') -> wp lex_new_line Q l.
Proof. intros HS HQ. unfold lex_new_line. lex_steps; auto. Qed.

(** Decreasing measure of the character loops. *)
Lemma Same_measure n l0 l : Same (S n) l0 l -> remaining (reader l) < remaining (reader l0).
Proof. intros [[_ [Hr _]] _]. simpl in Hr. lia. Qed.

(** A loop each of whose turns consumes at least a character or leaves. *)
Lemma char_loop_spec {A B} (body : A -> M t (A + B)) (a : A) l :
  (forall a l1, wp (body a) (fun r l2 =>
     match r with inl _ => Same 1 l1 l2 | inr _ => Same 0 l1 l2 end) l1) ->
  wp (loop_from (fun l => S (steps_left l)) body a) (fun _ l' => Same 0 l l') l.
Proof.
  intros Hbody.
  apply (wp_loop_from (fun _ l' => Same 0 l l') (fun _ l' => remaining (reader l'))).
  - intros a1 l1 HS. eapply wp_mono; [apply Hbody|]. intros [a2|b] l2 H2; simpl.
    + split; [|by eapply Same_measure]. eapply (Same_weaken (0 + 1)); [lia|].
      by eapply Same_trans.
    + by eapply (Same_trans 0 0).
  - apply Same_refl.
  - unfold steps_left. pose proof (remaining_steps (reader l)). lia.
Qed.

Lemma lex_string_step_spec quote u l :
  wp (lex_string_step quote u) (fun r l' =>
    match r with inl _ => Same 1 l l' | inr _ => Same 0 l l' end) l.
Proof.
  unfold lex_string_step. pose proof (Same_refl l) as HS. lex_step. lex_step.
  destruct (is_eof l) eqn:He; [by lex_steps|]. lex_step. lex_step.
  lex_step; [by lex_steps|]. lex_step.
  - lex_step. eapply wp_bump_char; [done..|]. intros l1 H1. by lex_steps.
  - lex_step. eapply wp_bump_char; [done..|]. clear HS. intros l1 H1. do 3 lex_step.
    lex_step; [by lex_steps|]. lex_step; [|by lex_steps].
    lex_step. eapply lex_new_line_spec; [done|]. intros l2 H2. by lex_steps.
Qed.

Lemma lex_string_spec quote l :
  quote <> EOF ->
  wp (lex_string quote) (fun k l' => k = TkString /\ Moved 0 l l' /\ settled l') l.
Proof.
  intros Hq. unfold lex_string. lex_step.
  eapply wp_mono; [by apply char_loop_spec, lex_string_step_spec|].
  intros [] l1 H1. cbn beta in H1. do 3 lex_step. simpl. lex_step.
  - apply wp_modify. assert (H2 : Moved 0 l (set_state Normal l1)).
    { by eapply Moved_keep; [apply Same_Moved|..]. }
    pose proof (Same_refl (set_state Normal l1)) as H3. lex_steps.
    all: split_and!; [done| |].
    all: try (eapply (Moved_trans 0 0); [done|by apply Same_Moved]).
    all: try (by eapply settled_same); done.
  - apply orb_false_iff in Hw as [Hc He].
    do 2 lex_step. rewrite Hc. simpl. lex_step. eapply wp_error; [done|]. intros l2 H2 He2. lex_steps.
    split_and!; [done|by apply Same_Moved|]. right. rewrite He2. by destruct (is_eof l1).
Qed.

Lemma lex_long_string_step_spec sep u l :
  wp (lex_long_string_step sep u) (fun r l' =>
    match r with inl _ => Same 1 l l' | inr _ => Same 0 l l' end) l.
Proof.
  unfold lex_long_string_step. pose proof (Same_refl l) as HS. lex_step. lex_step.
  destruct (is_eof l) eqn:He; [by lex_steps|]. lex_step. lex_step. lex_step.
  - lex_step. eapply wp_bump_char; [done..|]. clear HS. intros l1 H1. lex_steps; try done.
    by eapply Same_weaken; [|done]; lia.
  - lex_step. eapply wp_bump_char; [done..|]. intros l1 H1. by lex_steps.
Qed.

Lemma lex_long_string_spec sep l :
  wp (lex_long_string sep) (fun k l' => k = TkLongString /\ Moved 0 l l' /\ settled l') l.
Proof.
  unfold lex_long_string. lex_step.
  eapply wp_mono; [by apply char_loop_spec, lex_long_string_step_spec|].
  intros end_ l1 H1. cbn beta in H1. do 3 lex_step. simpl. lex_step.
  - apply wp_modify. assert (H2 : Moved 0 l (set_state Normal l1)).
    { by eapply Moved_keep; [apply Same_Moved|..]. }
    pose proof (Same_refl (set_state Normal l1)) as H3. lex_steps.
    all: split_and!; [done| |].
    all: try (eapply (Moved_trans 0 0); [done|by apply Same_Moved]).
    all: try (by eapply settled_same); done.
  - apply orb_false_iff in Hw as [-> He]. simpl. lex_step.
    eapply wp_error; [done|]. intros l2 H2 He2. lex_steps.
    split_and!; [done|by apply Same_Moved|]. right. rewrite He2. by destruct (is_eof l1).
Qed.
(** *** Numbers *)

(** A turn reads nothing, or the [e] before an exponent sign. *)
Lemma number_step_spec st ch l :
  is_eof l = false ->
  wp (number_step st ch) (fun _ l' => l' = l \/ Same 1 l l') l.
Proof.
  intros He. pose proof (Same_refl l) as HS.
  destruct st; unfold number_step, bump_exponent_sign;
    repeat (lazymatch goal with |- wp bump _ _ => fail | _ => lex_step end; simpl);
    try by left.
  all: eapply wp_bump_char; [done..|]; clear HS; intros ? ?; lex_steps; by right.
Qed.

Lemma lex_number_step_spec st l :
  wp (lex_number_step st) (fun r l' =>
    match r with inl _ => Same 1 l l' | inr _ => Same 0 l l' end) l.
Proof.
  unfold lex_number_step. pose proof (Same_refl l) as HS. lex_step. lex_step.
  destruct (is_eof l) eqn:He; [by lex_steps|]. do 3 lex_step.
  eapply wp_mono; [by apply number_step_spec|]. intros [go st'] l1 H1. simpl.
  destruct go; simpl; lex_step; destruct H1 as [->|H1].
  - eapply wp_bump_char; [done..|]. intros l2 H2. by lex_steps.
  - clear HS. by lex_steps.
  - done.
  - by eapply Same_weaken; [|done]; lia.
Qed.

Lemma number_start_spec l :
  is_eof l = false -> wp number_start (fun _ l' => Same 1 l l') l.
Proof.
  intros He. unfold number_start. pose proof (Same_refl l) as HS. do 3 lex_step.
  eapply wp_bump_char; [done..|]. clear HS. intros l1 H1. by lex_steps.
Qed.

Lemma lex_number_spec l :
  state l = Normal -> is_eof l = false -> wp lex_number (LexOk l) l.
Proof.
  intros H0 He. unfold lex_number. lex_step. eapply wp_mono; [by apply number_start_spec|].
  intros st0 l1 H1. cbn beta in H1. lex_step.
  eapply wp_mono; [by apply char_loop_spec, lex_number_step_spec|].
  intros st l2 H2. cbn beta in H2. pose proof (Same_trans _ _ _ _ _ H1 H2) as H3.
  clear H1 H2. lex_steps; eapply LexOk_same; try done; try lia. all: by destruct st.
Qed.

(** *** The other arms *)

Lemma name_to_kind_good cfg name : lexed_kind (name_to_kind cfg name) = true.
Proof. unfold name_to_kind. repeat (case_if; [done|]). repeat case_if; done. Qed.

Lemma LexOk_moved n m l0 l1 k l :
  Moved n l0 l1 -> Moved m l1 l -> 1 <= n -> lexed_kind k = true -> settled l -> LexOk l0 k l.
Proof.
  intros H1 H2 Hn Hk Hs. split_and!; [done| |done].
  eapply Moved_weaken; [|by eapply Moved_trans]. lia.
Qed.

Lemma Moved_set_state n l0 l st : Same n l0 l -> Moved n l0 (set_state st l).
Proof. intros HS. by eapply Moved_keep; [apply Same_Moved|..]. Qed.

(** Start of an arm: the first bump consumes the character matched on. *)
Ltac arm :=
  let HS := fresh "HS" in
  intros Hst He; lazymatch goal with |- wp _ _ ?l => pose proof (Same_refl l) as HS end;
  repeat lazymatch goal with
  | |- wp (bind bump _) _ _ => lex_step
  | |- wp (bind _ _) _ _ => lex_step
  | |- wp (gets _) _ _ => lex_step; cbn beta
  end.
Ltac first_bump := eapply wp_bump_char; [eassumption|done|];
  lazymatch goal with HS : Same 0 _ _ |- _ => clear HS end; intros ? ?.
Ltac arm_done := try (by eapply LexOk_same; [done|done|lia|done]).

Lemma lex_single_spec k l :
  lexed_kind k = true -> state l = Normal -> is_eof l = false -> wp (lex_single k) (LexOk l) l.
Proof. intros Hk. unfold lex_single. arm. first_bump. lex_steps. arm_done. Qed.

Lemma lex_op_assign_spec sym k k' l :
  lexed_kind k = true -> lexed_kind k' = true ->
  state l = Normal -> is_eof l = false -> wp (lex_op_assign sym k k') (LexOk l) l.
Proof. intros Hk Hk'. unfold lex_op_assign. arm. first_bump. lex_steps; arm_done. Qed.

Lemma lex_amp_pipe_spec ch s1 s2 k1 k2 k3 l :
  lexed_kind k1 = true -> lexed_kind k2 = true -> lexed_kind k3 = true ->
  state l = Normal -> is_eof l = false ->
  wp (lex_amp_pipe ch s1 s2 k1 k2 k3) (LexOk l) l.
Proof. intros Hk1 Hk2 Hk3. unfold lex_amp_pipe. arm. first_bump. lex_steps; arm_done. Qed.

Lemma lex_less_spec l :
  state l = Normal -> is_eof l = false -> wp lex_less (LexOk l) l.
Proof. unfold lex_less. arm. first_bump. lex_steps; arm_done. Qed.

Lemma lex_greater_spec l :
  state l = Normal -> is_eof l = false -> wp lex_greater (LexOk l) l.
Proof. unfold lex_greater. arm. first_bump. lex_steps; arm_done. Qed.

Lemma lex_assign_spec l :
  state l = Normal -> is_eof l = false -> wp lex_assign (LexOk l) l.
Proof. unfold lex_assign. arm. first_bump. lex_steps; arm_done. Qed.

Lemma lex_tilde_spec l :
  state l = Normal -> is_eof l = false -> wp lex_tilde (LexOk l) l.
Proof. unfold lex_tilde. arm. first_bump. lex_steps; arm_done. Qed.

Lemma lex_colon_spec l :
  state l = Normal -> is_eof l = false -> wp lex_colon (LexOk l) l.
Proof. unfold lex_colon. arm. first_bump. lex_steps; arm_done. Qed.

Lemma lex_exclamation_spec l :
  state l = Normal -> is_eof l = false -> wp lex_exclamation (LexOk l) l.
Proof.
  unfold lex_exclamation. arm. lex_step; lex_step; first_bump; lex_steps; arm_done.
Qed.

Lemma lex_dot_spec l :
  state l = Normal -> is_eof l = false -> wp lex_dot (LexOk l) l.
Proof.
  unfold lex_dot. arm. lex_step; [by apply lex_number_spec|]. lex_step.
  first_bump. lex_steps; arm_done.
Qed.

Lemma lex_name_spec l :
  (exists pre rest, cursor (reader l) pre [] rest) ->
  state l = Normal -> is_eof l = false -> wp lex_name (LexOk l) l.
Proof.
  intros (pre & rest & Hc). unfold lex_name. arm. first_bump. do 5 lex_step.
  match goal with HS : Same _ _ _ |- _ => rename HS into HS1 end.
  pose proof (adv_cursor _ _ _ (moved_reader _ _ _ (Same_Moved _ _ _ HS1)) _ _ _ Hc) as (d & rest' & _ & _ & _ & Hd & _).
  eapply wp_unwrap; [by eapply cursor_current_text|]. lex_steps.
  eapply LexOk_same; [done|done|lia|apply name_to_kind_good].
Qed.

(** Arms that enter a string or a long bracket: what follows the state change
    is [lex_string] or [lex_long_string], started from [set_state _ l1]. *)
Lemma lex_string_tail n l0 l1 st quote :
  quote <> EOF -> Same (S n) l0 l1 ->
  wp (lex_string quote) (LexOk l0) (set_state st l1).
Proof.
  intros Hq HS. eapply wp_mono; [by apply lex_string_spec|].
  intros k l (-> & HM & Hs). eapply LexOk_moved; [by apply Moved_set_state|done|lia|done|done].
Qed.

Lemma lex_long_string_tail n l0 l1 st sep (Q : LuaTokenKind -> t -> Prop) :
  Same (S n) l0 l1 ->
  (forall l, LexOk l0 TkLongString l -> Q TkLongString l) ->
  wp (lex_long_string sep) Q (set_state st l1).
Proof.
  intros HS HQ. eapply wp_mono; [by apply lex_long_string_spec|].
  intros k l (-> & HM & Hs). apply HQ.
  eapply LexOk_moved; [by apply Moved_set_state|done|lia|done|done].
Qed.

Lemma lex_quote_spec l :
  state l = Normal -> is_eof l = false -> wp lex_quote (LexOk l) l.
Proof.
  unfold lex_quote. arm. lex_step; lex_step; first_bump; [lex_steps; arm_done|].
  lex_step. apply wp_modify. eapply lex_string_tail; [|done].
  unfold is_eof, Reader.is_eof in He. by apply N.eqb_neq in He.
Qed.

Lemma lex_left_bracket_spec l :
  state l = Normal -> is_eof l = false -> wp lex_left_bracket (LexOk l) l.
Proof.
  unfold lex_left_bracket. arm. first_bump. do 4 lex_step. lex_step; [lex_steps; arm_done|].
  lex_step; [lex_steps; arm_done|]. do 3 lex_step. apply wp_modify.
  by eapply lex_long_string_tail.
Qed.

Lemma lex_minus_spec l :
  state l = Normal -> is_eof l = false -> wp lex_minus (LexOk l) l.
Proof.
  unfold lex_minus. arm. first_bump. do 2 lex_step. lex_step; [lex_steps; arm_done|].
  do 2 lex_step. lex_step; [lex_steps; arm_done|]. do 5 lex_step.
  lex_step; [|lex_steps; arm_done]. do 6 lex_step.
  lex_step; [|lex_steps; arm_done]. do 3 lex_step. apply wp_modify. lex_step.
  eapply lex_long_string_tail; [done|]. intros l2 (_ & HM & Hs). lex_steps.
  by split_and!.
Qed.

Lemma slash_star_step_spec u l :
  wp (slash_star_step u) (fun r l' => Same 0 l l' /\
    match r with
    | inl _ => Same 1 l l'
    | inr k => lexed_kind k = true
    end) l.
Proof.
  unfold slash_star_step. pose proof (Same_refl l) as HS. do 4 lex_step.
  destruct (is_eof l) eqn:He.
  - assert (current_char l = EOF) as Hc by by apply N.eqb_eq.
    rewrite Hc. simpl. lex_steps. done.
  - lex_step; lex_step; (eapply wp_bump_char; [done..|]; clear HS; intros l1 H1); lex_steps;
      (split; [eapply Same_weaken; [|done]; lia|done]).
Qed.

Lemma lex_slash_spec l :
  state l = Normal -> is_eof l = false -> wp lex_slash (LexOk l) l.
Proof.
  unfold lex_slash. arm. first_bump. do 8 lex_step. lex_step; [|lex_steps; arm_done].
  lex_step. lex_step.
  match goal with HS : Same 1 _ ?l1 |- _ =>
    eapply (wp_loop_from (fun _ => Same 1 l) (fun _ l' => remaining (reader l')));
      [|exact HS|unfold steps_left; pose proof (remaining_steps (reader l1)); lia] end.
  intros u l1 H1. eapply wp_mono; [apply slash_star_step_spec|].
  intros [u'|k] l2 [H2 Hk].
  - split; [by eapply (Same_trans 1 0)|by eapply Same_measure].
  - eapply LexOk_same; [done|by eapply (Same_trans 1 0)|lia|done].
Qed.

(** *** [lex] *)

Lemma lex_white_space_spec l :
  (current_char l =c " ") || N.eqb (current_char l) TAB = true ->
  state l = Normal -> is_eof l = false -> wp lex_white_space (LexOk l) l.
Proof.
  intros Hc Hst He. unfold lex_white_space. lex_step.
  eapply wp_eat_while_first; [done|done|]. intros k l1 H1. lex_steps. arm_done.
Qed.

Lemma lex_new_line_arm l :
  N.eqb (current_char l) NL || N.eqb (current_char l) CR = true ->
  state l = Normal -> is_eof l = false -> wp lex_new_line (LexOk l) l.
Proof.
  intros Hc. unfold lex_new_line. arm. lex_step; [|lex_step].
  - lex_step. first_bump. lex_steps; arm_done.
  - lex_step. first_bump. lex_steps; arm_done.
  - apply orb_true_iff in Hc. destruct Hc; congruence.
Qed.

Ltac arm_spec :=
  first [ by apply lex_new_line_arm | by apply lex_white_space_spec
  | by apply lex_minus_spec | by apply lex_left_bracket_spec | by apply lex_assign_spec
  | by apply lex_less_spec | by apply lex_greater_spec | by apply lex_tilde_spec
  | by apply lex_colon_spec | by apply lex_quote_spec | by apply lex_dot_spec
  | by apply lex_number_spec | by apply lex_slash_spec | by apply lex_op_assign_spec
  | by apply lex_single_spec | by apply lex_exclamation_spec
  | by apply lex_amp_pipe_spec | by apply lex_name_spec ].

(** After [reset_buff]: the buffer is empty. *)
Lemma lex_spec l :
  state l = Normal -> is_eof l = false ->
  (exists pre buf rest, cursor (reader l) pre buf rest) ->
  wp lex (LexOk (set_reader (Reader.reset_buff (reader l)) l)) l.
Proof.
  intros Hst He (pre & buf & rest & Hc). unfold lex, reset_buff. lex_step. apply wp_modify.
  remember (set_reader (Reader.reset_buff (reader l)) l) as l1 eqn:Hl1.
  assert (He1 : is_eof l1 = false) by by rewrite Hl1.
  assert (Hst1 : state l1 = Normal) by by rewrite Hl1.
  assert (Hc1 : exists p r, cursor (reader l1) p [] r).
  { exists (pre ++ buf), rest. rewrite Hl1. by apply cursor_reset_buff. }
  clear Hl1 Hc Hst He. do 4 lex_step. rewrite He1.
  repeat lazymatch goal with
  | |- wp (if ?b then _ else _) _ _ => destruct b eqn:?; [arm_spec|]
  end.
  arm_spec.
Qed.

(** *** [tokenize] *)

(** The lexer state in which [tokenize] may be called: a string is open at a
    quote character, never at the end-of-file character. *)
Definition valid_state (st : LexerState) : Prop := st <> StString EOF.

(** The invariant of the token loop: the tokens so far lie end to end from
    [a0], over everything that has been read. *)
Record TokInv (st0 : LexerState) (src : rstring) (a0 : nat)
    (ts : list LuaTokenData) l : Prop := mkTokInv {
  tok_pos : exists pre buf rest parts, cursor (reader l) pre buf rest
    /\ start_offset (valid_range (reader l)) = a0
    /\ src = pre ++ buf ++ rest /\ no_nul (pre ++ buf) /\ concat parts = pre ++ buf
    /\ spans a0 (tok_range <$> ts) parts
    /\ (st0 = Normal -> Forall (fun p => p <> []) parts)
    /\ (settled l \/ (pre = [] /\ buf = [] /\ ts = [] /\ parts = [] /\ state l = st0));
  tok_good : Forall (fun tk => lexed_kind (tok_kind tk) = true) ts
}.

Lemma until_nul_app t u : no_nul t -> until_nul (t ++ u) = t ++ until_nul u.
Proof.
  induction t as [|c t IH]; intros Hn; [done|]. inversion Hn; subst. simpl.
  rewrite (proj2 (N.eqb_neq _ _)) by done. by rewrite IH.
Qed.

(** Emitting the token that [lex] has just read, from an emptied buffer. *)
Lemma push_token_inv st0 src ts pre d rest k l parts (Q : list LuaTokenData -> t -> Prop) :
  cursor (reader l) pre d rest -> src = pre ++ d ++ rest -> no_nul (pre ++ d) ->
  concat parts = pre -> spans (start_offset (valid_range (reader l))) (tok_range <$> ts) parts ->
  (st0 = Normal -> Forall (fun p => p <> []) (parts ++ [d])) -> settled l ->
  Forall (fun tk => lexed_kind (tok_kind tk) = true) ts -> lexed_kind k = true ->
  (forall ts', TokInv st0 src (start_offset (valid_range (reader l))) ts' l -> Q ts' l) ->
  wp (push_token ts k) Q l.
Proof.
  intros Hc Hsrc Hn Hp Hsp Hne Hs Hg Hk HQ. unfold push_token. lex_step. lex_step. lex_step.
  apply HQ. split; [|by apply Forall_app; repeat constructor].
  exists pre, d, rest, (parts ++ [d]). split_and!; try done.
  - by rewrite concat_app, Hp; simpl; rewrite app_nil_r.
  - rewrite fmap_app. apply spans_app; [done|]. rewrite Hp. simpl.
    by rewrite (cur_pos _ _ _ _ Hc), (cur_len _ _ _ _ Hc).
  - by left.
Qed.

Lemma lex_in_state_spec l :
  is_eof l = false -> valid_state (state l) ->
  (exists pre buf rest, cursor (reader l) pre buf rest) ->
  wp lex_in_state (fun k l' => lexed_kind k = true /\ settled l' /\
    (if bool_decide (state l = Normal)
     then Moved 1 (set_reader (Reader.reset_buff (reader l)) l) l'
     else Moved 0 l l')) l.
Proof.
  intros He Hv Hc. unfold lex_in_state. lex_step. lex_step.
  destruct (state l) as [|q|sep|sep] eqn:Hst; simpl.
  - eapply wp_mono; [by apply lex_spec|]. by intros k l' (Hk & HM & Hs).
  - eapply wp_mono; [by apply lex_string_spec; intros ->|].
    by intros k l' (-> & HM & Hs).
  - eapply wp_mono; [by apply lex_long_string_spec|]. by intros k l' (-> & HM & Hs).
  - lex_step. eapply wp_mono; [by apply lex_long_string_spec|].
    intros k l' (-> & HM & Hs). by lex_step.
Qed.

(** Decreases with every token: a token that consumes nothing can only be the
    first one, and brings the lexer back to its normal state. *)
Definition token_measure l : nat :=
  2 * remaining (reader l)
  + bit (negb (bool_decide (state l = Normal)) && negb (is_eof l)).

Lemma settled_measure l : settled l -> token_measure l = 2 * remaining (reader l).
Proof.
  unfold token_measure. intros [->| ->]; simpl; [lia|].
  rewrite andb_false_r. simpl. lia.
Qed.

Lemma tokenize_step_spec st0 src a0 ts l :
  valid_state st0 -> TokInv st0 src a0 ts l ->
  wp (tokenize_step ts) (fun r l' => match r with
    | inl ts' => TokInv st0 src a0 ts' l' /\ token_measure l' < token_measure l
    | inr ts' => TokInv st0 src a0 ts' l' /\ is_eof l' = true
    end) l.
Proof.
  intros Hv0 [(pre & buf & rest & parts & Hc & Ha & Hsrc & Hn & Hcat & Hsp & Hne & Hst) Hg].
  unfold tokenize_step. lex_step. lex_step. destruct (is_eof l) eqn:He.
  { lex_step. split; [|done]. split; [by exists pre, buf, rest, parts|done]. }
  assert (Hv : valid_state (state l)).
  { destruct Hst as [[->|He']|(_ & _ & _ & _ & ->)]; [done|congruence|done]. }
  lex_step. eapply wp_mono; [apply lex_in_state_spec; [done..|by exists pre, buf, rest]|].
  intros k l1 (Hk & Hs1 & Hm). cbn beta.
  destruct (k =t TkEof) eqn:HE; [by apply token_eqb_eq in HE as ->|].
  lex_step. destruct (bool_decide_reflect (state l = Normal)) as [HN|HN].
  - destruct Hm as [_ [Hr Hm]].
    destruct (Hm _ _ _ (cursor_reset_buff _ _ _ _ Hc)) as (d & rest' & -> & Hnd & Hld & Hc1 & Ha1).
    simpl in Hc1, Ha1, Hr. rewrite <-Ha. rewrite <-Ha1.
    eapply (push_token_inv st0 src ts (pre ++ buf) d rest' k l1 parts); try done.
    + by rewrite <-app_assoc.
    + by apply Forall_app.
    + by rewrite Ha1, Ha.
    + intros H0. apply Forall_app. split; [by apply Hne|]. repeat constructor.
      by destruct d; [simpl in Hld; lia|].
    + intros ts' HT. lex_step. split; [done|].
      rewrite settled_measure by done. rewrite settled_measure by by left.
      change (remaining (Reader.reset_buff (reader l))) with (remaining (reader l)) in Hr. lia.
  - destruct Hst as [[?|?]|(-> & -> & -> & -> & Hst0)]; [done|congruence|].
    destruct Hm as [_ [Hr Hm]].
    destruct (Hm _ _ _ Hc) as (d & rest' & -> & Hnd & _ & Hc1 & Ha1). simpl in Hc1.
    rewrite <-Ha, <-Ha1.
    eapply (push_token_inv st0 src [] [] d rest' k l1 []); try done.
    + congruence.
    + intros ts' HT. lex_step. split; [done|]. rewrite settled_measure by done.
      unfold token_measure. rewrite bool_decide_false, He by done. simpl. lia.
Qed.

Lemma tokenize_loop_spec st0 src a0 ts l :
  valid_state st0 -> TokInv st0 src a0 ts l ->
  wp (loop_from (fun l => 2 + 2 * steps_left l) tokenize_step ts)
     (fun ts' l' => TokInv st0 src a0 ts' l' /\ is_eof l' = true) l.
Proof.
  intros Hv HT.
  apply (wp_loop_from (TokInv st0 src a0) (fun _ => token_measure));
    [by intros; apply tokenize_step_spec|done|].
  unfold token_measure, steps_left. pose proof (remaining_steps (reader l)).
  unfold bit. case_if; lia.
Qed.

(** What [tokenize] has done when it returns [ts]: the text up to its first
    NUL is cut into [parts], one per token, in order and without a gap. *)
Definition tokenized (st0 : LexerState) (src : rstring) (a0 : nat)
    (ts : list LuaTokenData) : Prop :=
  exists parts, concat parts = until_nul src
    /\ spans a0 (tok_range <$> ts) parts
    /\ (st0 = Normal -> Forall (fun p => p <> []) parts)
    /\ Forall (fun tk => lexed_kind (tok_kind tk) = true) ts.

Lemma tokenize_spec l src :
  valid_state (state l) -> cursor (reader l) [] [] src ->
  wp tokenize (fun ts l' =>
    tokenized (state l) src (start_offset (valid_range (reader l))) ts
    /\ is_eof l' = true) l.
Proof.
  intros Hv Hc. unfold tokenize. set (a0 := start_offset (valid_range (reader l))).
  lex_step. lex_step. lex_step.
  apply (wp_mono _ (fun ts l1 => TokInv (state l) src a0 ts l1)).
  - destruct (bool_decide_reflect (state l = Normal)) as [HN|HN]; simpl.
    + destruct (current_char l =c "#") eqn:Hsharp.
      * assert (He : is_eof l = false).
        { apply N.eqb_eq in Hsharp. by eapply current_char_not_eof. }
        lex_step. eapply wp_eat_while_first; [done| |].
        { apply N.eqb_eq in Hsharp. by rewrite Hsharp. }
        intros n l1 [[_ [_ Hm]] Hs].
        destruct (Hm _ _ _ Hc) as (d & rest' & -> & Hnd & Hld & Hc1 & Ha1). unfold a0.
        rewrite <-Ha1. eapply (push_token_inv _ _ [] [] d rest' _ l1 []); try done.
        -- intros _. repeat constructor. by destruct d; [simpl in Hld; lia|].
        -- left. congruence.
      * lex_step. split; [|constructor]. exists [], [], src, [].
        split_and!; try done; try constructor. by left.
    + lex_step. split; [|constructor]. exists [], [], src, [].
      split_and!; try done; first [by constructor|by right].
  - intros ts l1 HT. eapply wp_mono; [by apply tokenize_loop_spec|].
    intros ts' l2 [[(pre & buf & rest & parts & Hc2 & _ & -> & Hn & Hcat & Hsp & Hne & _) Hg] He].
    split; [|done]. exists parts. split_and!; try done.
    rewrite app_assoc, until_nul_app by done.
    apply (cursor_is_eof _ _ _ _ Hc2) in He. by rewrite He, app_nil_r.
Qed.

(** ** The theorems *)

(** C3: [tokenize] returns for every source text, every configuration and every
    saved lexer state, without a panic and with enough fuel; the tokens lie end
    to end over the text up to its first NUL, on character boundaries, none is
    empty when the lexer starts in its normal state, and no token has a kind
    that only the parsers use. *)
Theorem tokenize_lossless src a0 st0 cfg errs :
  valid_state st0 ->
  exists r ts l', Reader.new_with_range src (mkRange a0 (blen src)) = Some r
    /\ tokenize (new_with_state r st0 cfg errs) = Done (ts, l')
    /\ tokenized st0 src a0 ts.
Proof.
  intros Hv. destruct (cursor_new_with_range src a0) as (r & Hr & Hc & Ha).
  pose proof (tokenize_spec (new_with_state r st0 cfg errs) src Hv Hc) as Hw.
  unfold wp in Hw. destruct (tokenize _) as [[ts l']| |] eqn:Ht; [|done|done].
  exists r, ts, l'. split_and!; [done|done|]. simpl in Hw. rewrite Ha in Hw. by destruct Hw.
Qed.
End LexerArms.

Lemma tokenize_lossless_witness :
  exists ts l', @tokenize ascii_tables
      (new_with_state (mkReader (str "x='a") (mkRange 7 4) (str "'a") 0 0 61%N 120%N EOF)
         Normal LexerConfig_default (Some [])) = Done (ts, l')
    /\ tokenized Normal (str "x='a") 7 ts.
Proof.
  destruct (@tokenize_lossless ascii_tables (str "x='a") 7 Normal LexerConfig_default (Some []))
    as (r & ts & l' & Hr & Ht & H); [discriminate|].
  exists ts, l'. split; [|exact H]. rewrite <-Ht. injection Hr as <-. reflexivity.
Defined.

