(* ===== verification/DocLexer.v ===== *)
(** * The doc comment lexer

    [src/crates/glua_parser/src/lexer/lua_doc_lexer.rs].  The lexer reads one
    origin token (a comment of the Lua lexer) at a time, in the state that the doc
    parser chose.  The arms are functions of the reader and of the kind of the
    origin token; [DocLexer.lex] is the method of the source.  The theorems show
    that every arm takes at least one character and names a token kind. *)

From S2P Require Import Prelude Kinds Text LuaLexer.
Local Open Scope prog_scope.

(** ** Data *)

Inductive LuaDocLexerState : Type :=
  | DocInit | DocTag | DocNormal | DocFieldStart | DocDescriptionState | DocLongDescription
  | DocTrivia | DocSee | DocVersionState | DocSource | DocNormalDescription | DocCastExpr
  | DocAttributeUseState | DocMapped | DocExtends.

#[global] Instance doc_lexer_state_eq_dec : EqDecision LuaDocLexerState.
Proof. solve_decision. Defined.

Module DocLexer.
Section Lexer.
Context `{UnicodeTables}.

Record t : Type := mk {
  origin_text : rstring;
  origin_token_kind : LuaTokenKind;
  state : LuaDocLexerState;
  reader : option Reader
}.

Definition set_state (st : LuaDocLexerState) (l : t) : t :=
  mk (origin_text l) (origin_token_kind l) st (reader l).
Definition set_reader (r : Reader) (l : t) : t :=
  mk (origin_text l) (origin_token_kind l) (state l) (Some r).

Definition new (origin_text : rstring) : t := mk origin_text TkNone DocInit None.

Definition is_invalid (l : t) : bool :=
  match reader l with Some r => Reader.is_eof r | None => true end.

(** [None] is the panic of the slice or of [new_with_range]. *)
Definition reset (kind : LuaTokenKind) (range : SourceRange) : M t unit := fun l =>
  match str_slice (origin_text l) (start_offset range) (SourceRange.end_offset range) with
  | Some text =>
      match Reader.new_with_range text range with
      | Some r => Done (tt, mk (origin_text l) kind (state l) (Some r))
      | None => Panic
      end
  | None => Panic
  end.

(** [let reader = self.reader.as_mut().unwrap()] *)
Definition on_reader {A} (m : M Reader A) : M t A := fun l =>
  match reader l with
  | Some r =>
      match m r with
      | Done (a, r') => Done (a, set_reader r' l)
      | Panic => Panic
      | OutOfFuel => OutOfFuel
      end
  | None => Panic
  end.

Definition current_token_range (l : t) : option SourceRange :=
  Reader.current_range <$> reader l.

(** *** The reader's methods *)

Definition bump : M Reader unit := modify Reader.bump.
Definition current_char : M Reader char := gets Reader.current_char.
Definition next_char : M Reader char := gets Reader.next_char.
Definition eat_while (func : char -> bool) : M Reader nat := fun r => Done (Reader.eat_while func r).
Definition eat_when (ch : char) : M Reader nat := fun r => Done (Reader.eat_when ch r).
Definition consume_char_n_times (ch : char) (count : nat) : M Reader nat := fun r =>
  Done (Reader.consume_char_n_times ch count r).
Definition eat_till_end : M Reader nat := eat_while (fun _ => true).
Definition current_text : M Reader rstring :=
  text <- gets Reader.current_text ;; unwrap text.

(** [reader.bump(); kind] *)
Definition bump_to (kind : LuaTokenKind) : M Reader LuaTokenKind := bump ;;; ret kind.

(** *** Names and keywords *)

Definition is_doc_whitespace (ch : char) : bool :=
  (ch =c " ") || N.eqb ch TAB || N.eqb ch CR || N.eqb ch NL.

Definition is_source_continue (ch : char) : bool :=
  is_name_continue ch || (ch =c ".") || (ch =c "-") || (ch =c "/") || (ch =c " ")
  || (ch =c ":") || (ch =c "#") || N.eqb ch BACKSLASH.

Definition to_tag (text : rstring) : LuaTokenKind :=
  if text =s "class" then TkTagClass
  else if text =s "enum" then TkTagEnum
  else if text =s "interface" then TkTagInterface
  else if text =s "alias" then TkTagAlias
  else if text =s "module" then TkTagModule
  else if text =s "field" then TkTagField
  else if text =s "type" then TkTagType
  else if text =s "param" then TkTagParam
  else if text =s "return" then TkTagReturn
  else if text =s "return_cast" then TkTagReturnCast
  else if text =s "generic" then TkTagGeneric
  else if text =s "see" then TkTagSee
  else if text =s "overload" then TkTagOverload
  else if text =s "async" then TkTagAsync
  else if text =s "cast" then TkTagCast
  else if text =s "deprecated" then TkTagDeprecated
  else if (text =s "private") || (text =s "protected") || (text =s "public")
          || (text =s "package") || (text =s "internal") then TkTagVisibility
  else if text =s "readonly" then TkTagReadonly
  else if text =s "diagnostic" then TkTagDiagnostic
  else if text =s "meta" then TkTagMeta
  else if text =s "version" then TkTagVersion
  else if text =s "as" then TkTagAs
  else if text =s "nodiscard" then TkTagNodiscard
  else if text =s "operator" then TkTagOperator
  else if text =s "mapping" then TkTagMapping
  else if text =s "namespace" then TkTagNamespace
  else if text =s "using" then TkTagUsing
  else if text =s "source" then TkTagSource
  else if text =s "export" then TkTagExport
  else if text =s "language" then TkLanguage
  else if text =s "attribute" then TkTagAttribute
  else if text =s "schema" then TKTagSchema
  else if text =s "realm" then TkTagRealm
  else if text =s "fileparam" then TkTagFileparam
  else if text =s "outparam" then TkTagOutparam
  else TkTagOther.

Definition to_modification_or_name (text : rstring) : LuaTokenKind :=
  if (text =s "private") || (text =s "protected") || (text =s "public") || (text =s "package")
  then TkDocVisibility
  else if text =s "readonly" then TkDocReadonly
  else TkName.

Definition to_token_or_name (text : rstring) : LuaTokenKind :=
  if text =s "true" then TkTrue
  else if text =s "false" then TkFalse
  else if text =s "keyof" then TkDocKeyOf
  else if text =s "extends" then TkDocExtends
  else if text =s "as" then TkDocAs
  else if text =s "in" then TkIn
  else if text =s "and" then TkAnd
  else if text =s "or" then TkOr
  else if text =s "else" then TkDocElse
  else TkName.

(** One turn of the [while] of [read_doc_name]; the loop variable is
    [str_tpl]. *)
Definition read_doc_name_step (str_tpl : bool) : M Reader (bool + bool) :=
  eof <- gets Reader.is_eof ;;
  if eof : bool then ret (inr str_tpl) else
  ch <- current_char ;;
  if is_name_continue ch then bump ;;; ret (inl str_tpl)
  else if (ch =c ".") || (ch =c "-") || (ch =c "*") then
    next <- next_char ;;
    if (next =c ".") || (next =c "-") || (next =c "*") then ret (inr str_tpl)
    else bump ;;; ret (inl str_tpl)
  else if ch =c "`" then bump ;;; ret (inl true)
  else ret (inr str_tpl).

Definition read_doc_name : M Reader (rstring * bool) :=
  bump ;;;
  str_tpl <- loop_from (fun r => S (Reader.steps_left r)) read_doc_name_step false ;;
  text <- current_text ;;
  ret (text, str_tpl).

(** [if matches!(reader.current_char(), '+' | '-') { reader.bump() }] and the
    digits of an exponent. *)
Definition lex_exponent : M Reader unit :=
  bump ;;;
  c <- current_char ;;
  when ((c =c "+") || (c =c "-")) bump ;;;
  eat_while is_ascii_digit ;;; ret tt.

Definition lex_doc_number : M Reader LuaTokenKind :=
  c <- current_char ;;
  n <- next_char ;;
  if (c =c "0") && ((n =c "x") || (n =c "X")) then
    bump ;;; bump ;;; eat_while is_ascii_hexdigit ;;; ret TkInt
  else
    eat_while is_ascii_digit ;;;
    c <- current_char ;;
    n <- next_char ;;
    if (c =c ".") && is_ascii_digit n then
      bump ;;;
      eat_while is_ascii_digit ;;;
      e <- current_char ;;
      when ((e =c "e") || (e =c "E")) lex_exponent ;;;
      ret TkFloat
    else if (c =c "e") || (c =c "E") then lex_exponent ;;; ret TkFloat
    else ret TkInt.

(** *** The starts of comment lines *)

(** The [2 =>] arms: [--], or the opening of a long comment. *)
Definition lex_two_dashes (origin_token_kind : LuaTokenKind) : M Reader LuaTokenKind :=
  if origin_token_kind =t TkLongComment then
    bump ;;;
    eat_when LuaLexer.EQUALS ;;;
    bump ;;;
    c <- current_char ;;
    if c =c "@" then bump_to TkDocLongStart else ret TkLongCommentStart
  else ret TkNormalStart.

(** [---]: [@] starts a tag; in a description [|] continues a union. *)
Definition lex_three_dashes (in_description : bool) : M Reader LuaTokenKind :=
  eat_while is_doc_whitespace ;;;
  c <- current_char ;;
  if c =c "@" then bump_to TkDocStart
  else if in_description && (c =c "|") then
    bump ;;;
    c <- current_char ;;
    when ((c =c "+") || (c =c ">")) bump ;;;
    ret TkDocContinueOr
  else ret TkNormalStart.

(** ['-' if reader.is_start_of_line()] *)
Definition lex_dashes (in_description : bool) (origin_token_kind : LuaTokenKind)
    : M Reader LuaTokenKind :=
  count <- consume_char_n_times (N_of_ascii "-"%char) 3 ;;
  if (count =? 2)%nat then lex_two_dashes origin_token_kind
  else if (count =? 3)%nat then lex_three_dashes in_description
  else eat_till_end ;;; ret TKDocTriviaStart.

(** ['/' if reader.is_start_of_line()] *)
Definition lex_slashes : M Reader LuaTokenKind :=
  count <- consume_char_n_times (N_of_ascii "/"%char) 3 ;;
  ret (if (2 <=? count)%nat then TkNormalStart else TKNonStdComment).

Definition lex_space : M Reader LuaTokenKind :=
  eat_while is_doc_whitespace ;;; ret TkWhitespace.

Definition lex_rest (kind : LuaTokenKind) : M Reader LuaTokenKind := eat_till_end ;;; ret kind.

(** *** The states *)

Definition lex_init (origin_token_kind : LuaTokenKind) : M Reader LuaTokenKind :=
  c <- current_char ;;
  start <- gets Reader.is_start_of_line ;;
  if (c =c "-") && start then lex_dashes false origin_token_kind
  else if (c =c "/") && start then lex_slashes
  else lex_rest TkDocTrivia.

Definition lex_tag : M t LuaTokenKind :=
  c <- on_reader current_char ;;
  if is_doc_whitespace c then on_reader lex_space
  else if is_name_start c then
    on_reader (bump ;;; eat_while is_name_continue ;;; text <- current_text ;; ret (to_tag text))
  else if c =c "[" then
    on_reader bump ;;;
    modify (set_state DocAttributeUseState) ;;;
    ret TkDocAttributeUse
  else if c =c "<" then on_reader (bump_to TkCallGeneric)
  else on_reader (lex_rest TkDocTrivia).

(** The arm ['-'] of [lex_normal]. *)
Definition lex_normal_dashes : M Reader LuaTokenKind :=
  count <- eat_when (N_of_ascii "-"%char) ;;
  if (count =? 1)%nat then ret TkMinus
  else if (count =? 3)%nat then
    eat_while is_doc_whitespace ;;;
    c <- current_char ;;
    if c =c "@" then bump_to TkDocStart
    else if c =c "|" then
      bump ;;;
      c <- current_char ;;
      when ((c =c "+") || (c =c ">")) bump ;;;
      ret TkDocContinueOr
    else ret TkDocContinue
  else ret TkDocTrivia.

(** A quoted string, closed by [quote] or by the end. *)
Definition lex_doc_string (quote : char) : M Reader LuaTokenKind :=
  bump ;;;
  eat_while (fun c => negb (N.eqb c quote)) ;;;
  c <- current_char ;;
  when (N.eqb c quote) bump ;;;
  ret TkString.

Definition lex_right_bracket (origin_token_kind : LuaTokenKind) : M Reader LuaTokenKind :=
  bump ;;;
  c <- current_char ;;
  if (origin_token_kind =t TkLongComment) && (c =c "=") then
    eat_when LuaLexer.EQUALS ;;; bump_to TkLongCommentEnd
  else if (origin_token_kind =t TkLongComment) && (c =c "]") then bump_to TkLongCommentEnd
  else ret TkRightBracket.

Definition lex_normal (origin_token_kind : LuaTokenKind) : M Reader LuaTokenKind :=
  ch <- current_char ;;
  if is_doc_whitespace ch then lex_space
  else if ch =c ":" then bump_to TkColon
  else if ch =c "." then
    bump ;;;
    c <- current_char ;;
    n <- next_char ;;
    if (c =c ".") && (n =c ".") then bump ;;; bump ;;; ret TkDots else ret TkDot
  else if ch =c "," then bump_to TkComma
  else if ch =c ";" then bump_to TkSemicolon
  else if ch =c "(" then bump_to TkLeftParen
  else if ch =c ")" then bump_to TkRightParen
  else if ch =c "[" then bump_to TkLeftBracket
  else if ch =c "]" then lex_right_bracket origin_token_kind
  else if ch =c "{" then bump_to TkLeftBrace
  else if ch =c "}" then bump_to TkRightBrace
  else if ch =c "<" then bump_to TkLt
  else if ch =c ">" then bump_to TkGt
  else if ch =c "|" then bump_to TkDocOr
  else if ch =c "&" then bump_to TkDocAnd
  else if ch =c "?" then bump_to TkDocQuestion
  else if ch =c "=" then bump_to TkDocMatch
  else if ch =c "+" then bump_to TkPlus
  else if ch =c "-" then lex_normal_dashes
  else if ch =c "#" then lex_rest TkDocDetail
  else if ch =c "@" then
    bump ;;;
    c <- current_char ;;
    if c =c "[" then bump_to TkDocAttributeUse else lex_rest TkDocDetail
  else if is_ascii_digit ch then lex_doc_number
  else if N.eqb ch DQUOTE || N.eqb ch SQUOTE then lex_doc_string ch
  else if is_name_start ch || (ch =c "`") then
    name <- read_doc_name ;;
    ret (if name.2 : bool then TkStringTemplateType else to_token_or_name name.1)
  else lex_rest TkDocTrivia.

(** A name in one of the states that know fewer keywords. *)
Definition lex_name_as (to_kind : rstring -> LuaTokenKind) : M Reader LuaTokenKind :=
  name <- read_doc_name ;; ret (to_kind name.1).

Definition lex_field_start (origin_token_kind : LuaTokenKind) : M Reader LuaTokenKind :=
  c <- current_char ;;
  if is_name_start c then lex_name_as to_modification_or_name
  else lex_normal origin_token_kind.

Definition lex_description (origin_token_kind : LuaTokenKind) : M Reader LuaTokenKind :=
  c <- current_char ;;
  start <- gets Reader.is_start_of_line ;;
  if is_doc_whitespace c then lex_space
  else if (c =c "-") && start then lex_dashes true origin_token_kind
  else lex_rest TkDocDetail.

(** The number of brackets and equals signs at the end of the text, which is
    given in reverse; both are one byte long. *)
Fixpoint trivia_count (rev_text : rstring) : nat :=
  match rev_text with
  | ch :: rev_text' =>
      if negb (ch =c "]") && negb (ch =c "=") then 0 else S (trivia_count rev_text')
  | [] => 0
  end.

Definition lex_long_description : M Reader LuaTokenKind :=
  text <- gets Reader.get_source_text ;;
  let end_pos := blen text - trivia_count (reverse text) in
  here <- gets Reader.get_current_end_pos ;;
  if (here <? end_pos)%nat then
    while_ (fun r => S (Reader.steps_left r))
      (fun r => (Reader.get_current_end_pos r <? end_pos)%nat) bump ;;;
    ret TkDocDetail
  else lex_rest TkDocTrivia.

Definition lex_trivia : M Reader LuaTokenKind := lex_rest TkDocTrivia.

Definition lex_see : M Reader LuaTokenKind :=
  c <- current_char ;;
  if (c =c " ") || N.eqb c TAB then lex_space else lex_rest TkDocSeeContent.

(** [>], [<] with an optional [=]. *)
Definition lex_compare (with_equals plain : LuaTokenKind) : M Reader LuaTokenKind :=
  bump ;;;
  c <- current_char ;;
  if c =c "=" then bump_to with_equals else ret plain.

Definition lex_version (origin_token_kind : LuaTokenKind) : M Reader LuaTokenKind :=
  c <- current_char ;;
  if c =c "," then bump_to TkComma
  else if c =c ">" then lex_compare TkGe TkGt
  else if c =c "<" then lex_compare TkLe TkLt
  else if is_doc_whitespace c then lex_space
  else if is_ascii_digit c then
    eat_while (fun ch => is_ascii_digit ch || (ch =c ".")) ;;; ret TkDocVersionNumber
  else if is_name_start c then
    lex_name_as (fun text => if text =s "JIT" then TkDocVersionNumber else TkName)
  else lex_normal origin_token_kind.

Definition lex_source (origin_token_kind : LuaTokenKind) : M Reader LuaTokenKind :=
  c <- current_char ;;
  if is_doc_whitespace c then lex_space
  else if is_name_start c then bump ;;; eat_while is_source_continue ;;; ret TKDocPath
  else if N.eqb c DQUOTE || N.eqb c SQUOTE then
    bump ;;;
    eat_while (fun c => negb (N.eqb c SQUOTE) && negb (N.eqb c DQUOTE)) ;;;
    c' <- current_char ;;
    when (N.eqb c' SQUOTE || N.eqb c' DQUOTE) bump ;;;
    ret TKDocPath
  else lex_normal origin_token_kind.

(** [region], [endregion] or a description. *)
Definition lex_region : M Reader LuaTokenKind :=
  c <- current_char ;;
  when (c =c "#") bump ;;;
  eat_while is_ascii_alphabetic ;;;
  text <- current_text ;;
  if (text =s "region") || (text =s "#region") then ret TkDocRegion
  else if (text =s "endregion") || (text =s "#endregion") then ret TkDocEndRegion
  else lex_rest TkDocDetail.

Definition lex_normal_description (origin_token_kind : LuaTokenKind) : M Reader LuaTokenKind :=
  c <- current_char ;;
  start <- gets Reader.is_start_of_line ;;
  if is_doc_whitespace c then lex_space
  else if is_ascii_alphabetic c || (c =c "#") then lex_region
  else if (c =c "-") && start then lex_dashes false origin_token_kind
  else if (c =c "/") && start then lex_slashes
  else lex_rest TkDocDetail.

Definition lex_cast_expr (origin_token_kind : LuaTokenKind) : M Reader LuaTokenKind :=
  c <- current_char ;;
  if is_doc_whitespace c then lex_space
  else if c =c "." then bump_to TkDot
  else if is_name_start c then bump ;;; eat_while is_name_continue ;;; ret TkName
  else lex_normal origin_token_kind.

Definition lex_attribute_use : M Reader LuaTokenKind :=
  c <- current_char ;;
  if is_doc_whitespace c then lex_space
  else if c =c "(" then bump_to TkLeftParen
  else if c =c ")" then bump_to TkRightParen
  else if c =c "," then bump_to TkComma
  else if c =c "]" then bump_to TkRightBracket
  else if N.eqb c DQUOTE || N.eqb c SQUOTE then lex_doc_string c
  else if is_ascii_digit c then lex_doc_number
  else if is_name_start c then
    bump ;;;
    eat_while is_name_continue ;;;
    text <- current_text ;;
    ret (if text =s "nil" then TkNil
         else if text =s "true" then TkTrue
         else if text =s "false" then TkFalse
         else TkName)
  else bump_to TkDocTrivia.

Definition lex_mapped (origin_token_kind : LuaTokenKind) : M Reader LuaTokenKind :=
  c <- current_char ;;
  if is_doc_whitespace c then lex_space
  else if is_name_start c then
    lex_name_as (fun text => if text =s "readonly" then TkDocReadonly else TkName)
  else lex_normal origin_token_kind.

Definition lex_extends (origin_token_kind : LuaTokenKind) : M Reader LuaTokenKind :=
  c <- current_char ;;
  if is_doc_whitespace c then lex_space
  else if is_name_start c then
    lex_name_as (fun text =>
      if text =s "true" then TkTrue
      else if text =s "false" then TkFalse
      else if text =s "nil" then TkNil
      else if text =s "new" then TkDocNew
      else TkName)
  else lex_normal origin_token_kind.

Definition lex : M t LuaTokenKind :=
  on_reader (modify Reader.reset_buff) ;;;
  eof <- on_reader (gets Reader.is_eof) ;;
  if eof : bool then ret TkEof else
  st <- gets state ;;
  kind <- gets origin_token_kind ;;
  match st with
  | DocInit => on_reader (lex_init kind)
  | DocTag => lex_tag
  | DocNormal => on_reader (lex_normal kind)
  | DocFieldStart => on_reader (lex_field_start kind)
  | DocDescriptionState => on_reader (lex_description kind)
  | DocLongDescription => on_reader lex_long_description
  | DocTrivia => on_reader lex_trivia
  | DocSee => on_reader lex_see
  | DocVersionState => on_reader (lex_version kind)
  | DocSource => on_reader (lex_source kind)
  | DocNormalDescription => on_reader (lex_normal_description kind)
  | DocCastExpr => on_reader (lex_cast_expr kind)
  | DocAttributeUseState => on_reader lex_attribute_use
  | DocMapped => on_reader (lex_mapped kind)
  | DocExtends => on_reader (lex_extends kind)
  end.
End Lexer.
End DocLexer.
