(* ===== verification/DocLexerProofs.v ===== *)
(** * Correctness of the doc comment lexer

    Every arm of [DocLexer.lex] returns when the reader is not at its end, takes at
    least one character, and names a token kind; [lex_long_description] is the one
    arm that relies on the text having no NUL. *)

From S2P Require Import Prelude Kinds Text LuaLexer DocLexer.
Import DocLexer.
Local Open Scope prog_scope.

(** A kind a doc token may have. *)
Definition doc_kind (k : LuaTokenKind) : bool := negb (k in_t [TkNone; TkEof]).

Section ReaderSteps.
Context `{UnicodeTables}.
Implicit Types (r : Reader).

Lemma wp_doc_bump n r0 r (Q : unit -> Reader -> Prop) :
  Advanced n r0 r -> (forall r', Advanced n r0 r' -> Q tt r') -> wp bump Q r.
Proof.
  intros HA HQ. apply wp_modify, HQ. rewrite <-(Nat.add_0_r n).
  eapply Advanced_trans; [done|]. eapply Advanced_weaken; [|apply Advanced_bump]. lia.
Qed.

Lemma wp_doc_bump_char n r0 r (Q : unit -> Reader -> Prop) :
  Advanced n r0 r -> Reader.is_eof r = false ->
  (forall r', Advanced (S n) r0 r' -> Q tt r') -> wp bump Q r.
Proof.
  intros HA He HQ. apply wp_modify, HQ. rewrite <-Nat.add_1_r.
  eapply Advanced_trans; [done|]. pose proof (Advanced_bump r) as Hb. by rewrite He in Hb.
Qed.

Lemma wp_doc_eat func bound n r0 r (Q : nat -> Reader -> Prop) :
  Advanced n r0 r -> (forall k r', Advanced n r0 r' -> Q k r') ->
  wp (fun r => Done (Reader.eat_loop (Reader.steps_left r) func bound 0 r)) Q r.
Proof.
  intros HA HQ. unfold wp, Reader.steps_left.
  pose proof (Advanced_eat_loop func bound (S (length (chars r))) 0 r) as HE.
  destruct (Reader.eat_loop _ _ _ _ _) as [k r']. apply HQ. rewrite <-(Nat.add_0_r n).
  eapply Advanced_trans; [done|]. eapply Advanced_weaken; [|exact HE]. lia.
Qed.

Lemma wp_doc_eat_first func bound r (Q : nat -> Reader -> Prop) :
  Reader.is_eof r = false -> func (Reader.current_char r) = true ->
  match bound with Some b => (0 <? b)%nat | None => true end = true ->
  (forall k r', Advanced 1 r r' -> Q k r') ->
  wp (fun r => Done (Reader.eat_loop (Reader.steps_left r) func bound 0 r)) Q r.
Proof.
  intros He Hf Hb HQ. unfold wp, Reader.steps_left.
  pose proof (Advanced_eat_loop func bound (S (length (chars r))) 0 r) as HE.
  rewrite He, Hf, Hb in HE. destruct (Reader.eat_loop _ _ _ _ _) as [k r']. by apply HQ.
Qed.

Lemma wp_eat_all r (Q : nat -> Reader -> Prop) :
  Reader.is_eof r = false -> (forall k r', Advanced 1 r r' -> Q k r') -> wp eat_till_end Q r.
Proof. intros He HQ. by eapply (wp_doc_eat_first (fun _ => true) None). Qed.

(** [current_text] is a slice of the text. *)
Definition positioned r : Prop := exists pre buf rest, cursor r pre buf rest.

Lemma positioned_advanced n r0 r : positioned r0 -> Advanced n r0 r -> positioned r.
Proof.
  intros (pre & buf & rest & Hc) [_ HA]. destruct (HA _ _ _ Hc) as (d & rest' & _ & _ & _ & Hc' & _).
  by exists pre, (buf ++ d), rest'.
Qed.

Lemma wp_doc_current_text n r0 r (Q : rstring -> Reader -> Prop) :
  positioned r0 -> Advanced n r0 r -> (forall text, Q text r) -> wp current_text Q r.
Proof.
  intros Hp HA HQ. destruct (positioned_advanced _ _ _ Hp HA) as (pre & buf & rest & Hc).
  unfold current_text. apply wp_bind, wp_gets. eapply wp_unwrap; [by eapply cursor_current_text|].
  apply HQ.
Qed.

(** What an arm promises. *)
Definition LexGood r0 (k : LuaTokenKind) r : Prop := doc_kind k = true /\ Advanced 1 r0 r.

Lemma lex_good n r0 k r : Advanced n r0 r -> 1 <= n -> doc_kind k = true -> LexGood r0 k r.
Proof. intros HA Hn Hk. split; [done|by eapply Advanced_weaken]. Qed.

End ReaderSteps.

(** The specification of an arm. *)
Abbreviation ArmSpec m :=
  (forall r, positioned r -> Reader.is_eof r = false -> wp m (LexGood r) r).

(** One step of symbolic execution, under a hypothesis [Advanced n r0 r]. *)
Ltac doc_step :=
  lazymatch goal with
  | |- wp (bind _ _) _ _ => apply wp_bind
  | |- wp (gets _) _ _ => apply wp_gets
  | |- wp current_char _ _ => apply wp_gets
  | |- wp next_char _ _ => apply wp_gets
  | |- wp (ret _) _ _ => apply wp_ret
  | |- wp (bump_to _) _ _ => unfold bump_to
  | |- wp (lex_rest _) _ _ => unfold lex_rest
  | |- wp (if ?b then _ else _) _ _ => destruct b eqn:?
  | |- wp (when _ _) _ _ => let Hw := fresh "Hw" in apply wp_when; intros Hw
  | He : Reader.is_eof ?r = false, HS : Advanced 0 ?r ?r |- wp bump _ ?r =>
      eapply wp_doc_bump_char; [exact HS|exact He|clear HS; intros ? ?]
  | HS : Advanced ?n ?r0 ?r |- wp bump _ ?r =>
      eapply wp_doc_bump; [exact HS|clear HS; intros ? ?]
  | He : Reader.is_eof ?r = false, HS : Advanced 0 ?r ?r |- wp eat_till_end _ ?r =>
      eapply wp_eat_all; [exact He|clear HS; intros ? ? ?]
  | HS : Advanced ?n ?r0 ?r |- wp (eat_while _) _ ?r =>
      eapply wp_doc_eat; [exact HS|clear HS; intros ? ? ?]
  | HS : Advanced ?n ?r0 ?r |- wp eat_till_end _ ?r =>
      eapply wp_doc_eat; [exact HS|clear HS; intros ? ? ?]
  | HS : Advanced ?n ?r0 ?r |- wp (eat_when _) _ ?r =>
      eapply wp_doc_eat; [exact HS|clear HS; intros ? ? ?]
  | HS : Advanced ?n ?r0 ?r |- wp current_text _ ?r =>
      eapply wp_doc_current_text; [eassumption|exact HS|intros ?]
  end.
Ltac doc_steps := repeat (doc_step; cbn beta iota).
Ltac arm_start :=
  intros r Hp He; let HS := fresh "HS" in pose proof (Advanced_refl r) as HS.
Ltac arm_end :=
  try solve [ match goal with HS : Advanced _ _ ?r |- LexGood _ _ ?r =>
    eapply lex_good; [exact HS|lia|first [reflexivity|repeat case_if; reflexivity]] end ].
Ltac arm_steps := doc_steps; arm_end.

Section Arms.
Context `{UnicodeTables}.
Implicit Types (r : Reader).

Lemma bump_to_spec k : doc_kind k = true -> ArmSpec (bump_to k).
Proof. intros Hk. arm_start. doc_steps. by eapply lex_good. Qed.

Lemma lex_rest_spec k : doc_kind k = true -> ArmSpec (lex_rest k).
Proof. intros Hk. arm_start. doc_steps. by eapply lex_good. Qed.

(** The arms that start by skipping a character class. *)
Lemma lex_space_spec r :
  is_doc_whitespace (Reader.current_char r) = true -> positioned r ->
  Reader.is_eof r = false -> wp lex_space (LexGood r) r.
Proof.
  intros Hw Hp He. unfold lex_space. doc_step.
  eapply (wp_doc_eat_first is_doc_whitespace None); [done..|]. intros k r' HS. arm_steps.
Qed.

(** A loop each of whose turns takes a character or leaves. *)
Lemma doc_char_loop {A B} (body : A -> M Reader (A + B)) (a : A) n r0 r :
  (forall a r1, wp (body a) (fun x r2 =>
     match x with inl _ => Advanced 1 r1 r2 | inr _ => Advanced 0 r1 r2 end) r1) ->
  Advanced n r0 r ->
  wp (loop_from (fun r => S (Reader.steps_left r)) body a) (fun _ r' => Advanced n r0 r') r.
Proof.
  intros Hbody HA.
  apply (wp_loop_from (fun _ r' => Advanced n r0 r') (fun _ => remaining)).
  - intros a1 r1 H1. eapply wp_mono; [apply Hbody|]. intros [a2|b] r2 H2; cbn beta iota in *.
    + split; [|destruct H2 as [Hr _]; lia].
      eapply (Advanced_weaken (n + 1)); [lia|]. by eapply Advanced_trans.
    + rewrite <-(Nat.add_0_r n). by eapply Advanced_trans.
  - done.
  - pose proof (remaining_steps r). lia.
Qed.

Lemma read_doc_name_step_spec b r :
  wp (read_doc_name_step b) (fun x r' =>
    match x with inl _ => Advanced 1 r r' | inr _ => Advanced 0 r r' end) r.
Proof.
  unfold read_doc_name_step. pose proof (Advanced_refl r) as HS. do 2 doc_step.
  destruct (Reader.is_eof r) eqn:He; doc_steps; done.
Qed.

Lemma read_doc_name_spec r (Q : rstring * bool -> Reader -> Prop) :
  positioned r -> Reader.is_eof r = false ->
  (forall x r', Advanced 1 r r' -> Q x r') -> wp read_doc_name Q r.
Proof.
  intros Hp He HQ. unfold read_doc_name. pose proof (Advanced_refl r) as HS.
  do 3 doc_step. eapply wp_mono.
  { eapply doc_char_loop; [apply read_doc_name_step_spec|exact H0]. }
  intros b r2 H2. cbn beta in H2. doc_steps. by apply HQ.
Qed.

Lemma lex_name_as_spec f : (forall t, doc_kind (f t) = true) -> ArmSpec (lex_name_as f).
Proof.
  intros Hf r Hp He. unfold lex_name_as. doc_step. eapply read_doc_name_spec; [done..|].
  intros x r' HA. doc_step. by eapply lex_good.
Qed.

Lemma lex_doc_string_spec q : ArmSpec (lex_doc_string q).
Proof. arm_start. unfold lex_doc_string. arm_steps. Qed.

Lemma lex_doc_number_spec r :
  is_ascii_digit (Reader.current_char r) = true -> positioned r ->
  Reader.is_eof r = false -> wp lex_doc_number (LexGood r) r.
Proof.
  intros Hd Hp He. unfold lex_doc_number, lex_exponent. pose proof (Advanced_refl r) as HS.
  do 4 doc_step. doc_step; [arm_steps|]. doc_step.
  eapply (wp_doc_eat_first is_ascii_digit None); [done..|]. clear HS. intros k r' HS. arm_steps.
Qed.

Lemma lex_two_dashes_spec kind n r0 r :
  Advanced n r0 r -> 1 <= n -> wp (lex_two_dashes kind) (LexGood r0) r.
Proof. intros HS Hn. unfold lex_two_dashes. arm_steps. Qed.

Lemma lex_three_dashes_spec b n r0 r :
  Advanced n r0 r -> 1 <= n -> wp (lex_three_dashes b) (LexGood r0) r.
Proof. intros HS Hn. unfold lex_three_dashes. arm_steps. Qed.

Lemma wp_consume ch r (Q : nat -> Reader -> Prop) :
  Reader.is_eof r = false -> N.eqb (Reader.current_char r) ch = true ->
  (forall k r', Advanced 1 r r' -> Q k r') -> wp (consume_char_n_times ch 3) Q r.
Proof.
  intros He Hc HQ. unfold consume_char_n_times, Reader.consume_char_n_times.
  eapply (wp_doc_eat_first (N.eqb ch) (Some 3)); [done|by rewrite N.eqb_sym|done|done].
Qed.

Lemma lex_dashes_spec b kind r :
  (Reader.current_char r =c "-") = true -> positioned r -> Reader.is_eof r = false ->
  wp (lex_dashes b kind) (LexGood r) r.
Proof.
  intros Hc Hp He. unfold lex_dashes. doc_step. eapply wp_consume; [done..|]. intros k r' HS.
  doc_step; [by eapply lex_two_dashes_spec|]. doc_step; [by eapply lex_three_dashes_spec|].
  arm_steps.
Qed.

Lemma lex_slashes_spec r :
  (Reader.current_char r =c "/") = true -> positioned r -> Reader.is_eof r = false ->
  wp lex_slashes (LexGood r) r.
Proof.
  intros Hc Hp He. unfold lex_slashes. doc_step. eapply wp_consume; [done..|]. intros k r' HS.
  arm_steps.
Qed.

Lemma lex_normal_dashes_spec r :
  (Reader.current_char r =c "-") = true -> positioned r -> Reader.is_eof r = false ->
  wp lex_normal_dashes (LexGood r) r.
Proof.
  intros Hc Hp He. unfold lex_normal_dashes. doc_step.
  eapply (wp_doc_eat_first (N.eqb _) None); [done|by rewrite N.eqb_sym|done|].
  intros k r' HS. arm_steps.
Qed.

Lemma lex_right_bracket_spec kind : ArmSpec (lex_right_bracket kind).
Proof. arm_start. unfold lex_right_bracket. arm_steps. Qed.

Lemma lex_compare_spec k k' : doc_kind k = true -> doc_kind k' = true -> ArmSpec (lex_compare k k').
Proof. intros Hk Hk'. arm_start. unfold lex_compare. doc_steps; by eapply lex_good. Qed.

Lemma to_tag_kind t : doc_kind (to_tag t) = true.
Proof. unfold to_tag. repeat (case_if; [done|]). done. Qed.

Lemma to_token_or_name_kind t : doc_kind (to_token_or_name t) = true.
Proof. unfold to_token_or_name. repeat (case_if; [done|]). done. Qed.

Lemma to_modification_or_name_kind t : doc_kind (to_modification_or_name t) = true.
Proof. unfold to_modification_or_name. by repeat case_if. Qed.
End Arms.

(** The arms of a state, tried in order. *)
Create HintDb doc_arms.
#[export] Hint Resolve bump_to_spec lex_rest_spec lex_space_spec lex_name_as_spec
  lex_doc_string_spec lex_doc_number_spec lex_dashes_spec lex_slashes_spec
  lex_normal_dashes_spec lex_right_bracket_spec lex_compare_spec to_token_or_name_kind
  to_modification_or_name_kind : doc_arms.
#[export] Hint Extern 0 (doc_kind _ = true) => reflexivity : doc_arms.

Ltac doc_arm :=
  first [ solve [eauto with doc_arms]
        | apply lex_name_as_spec; [intros; repeat case_if; done|assumption|assumption]
        | idtac ].
(** The head of a state: read the character, choose the arm. *)
Ltac state_arms :=
  repeat lazymatch goal with
  | |- wp (bind current_char _) _ _ => doc_step; doc_step
  | |- wp (bind (gets Reader.is_start_of_line) _) _ _ => doc_step; doc_step
  | |- wp (if _ && _ then _ else _) _ _ => 
      doc_step; [try match goal with Hb : _ && _ = true |- _ => apply andb_true_iff in Hb as [? ?] end;
                 doc_arm|]
  | |- wp (if _ then _ else _) _ _ => doc_step; [doc_arm|]
  end; doc_arm.

Section States.
Context `{UnicodeTables}.
Implicit Types (r : Reader).

Lemma lex_init_spec kind : ArmSpec (lex_init kind).
Proof. arm_start. unfold lex_init. state_arms. Qed.

Lemma lex_normal_spec kind : ArmSpec (lex_normal kind).
Proof.
  arm_start. unfold lex_normal. state_arms.
  - arm_steps.
  - arm_steps.
  - doc_step. eapply read_doc_name_spec; [done..|]. clear HS. intros x r' HS. doc_step.
    eapply lex_good; [done|lia|]. case_if; [done|apply to_token_or_name_kind].
Qed.
#[local] Hint Resolve lex_normal_spec : doc_arms.

Lemma lex_field_start_spec kind : ArmSpec (lex_field_start kind).
Proof. arm_start. unfold lex_field_start. state_arms. Qed.

Lemma lex_description_spec kind : ArmSpec (lex_description kind).
Proof. arm_start. unfold lex_description. state_arms. Qed.

Lemma lex_see_spec : ArmSpec lex_see.
Proof.
  arm_start. unfold lex_see. state_arms. apply lex_space_spec; [|done..].
  unfold is_doc_whitespace. by rewrite Heqb.
Qed.

Lemma lex_version_spec kind : ArmSpec (lex_version kind).
Proof.
  arm_start. unfold lex_version. state_arms. doc_step.
  eapply (wp_doc_eat_first _ None); [done|by rewrite Heqb3|done|].
  clear HS. intros k r' HS. arm_steps.
Qed.

Lemma doc_lex_source_spec kind : ArmSpec (lex_source kind).
Proof. arm_start. unfold lex_source. state_arms; arm_steps. Qed.

Lemma lex_region_spec r :
  is_ascii_alphabetic (Reader.current_char r) || (Reader.current_char r =c "#") = true ->
  positioned r -> Reader.is_eof r = false -> wp lex_region (LexGood r) r.
Proof.
  intros Hc Hp He. unfold lex_region. pose proof (Advanced_refl r) as HS. do 4 doc_step.
  - arm_steps.
  - rewrite Hw, orb_false_r in Hc. doc_step.
    eapply (wp_doc_eat_first _ None); [done|done|done|]. clear HS. intros k r' HS. arm_steps.
Qed.

Lemma lex_normal_description_spec kind : ArmSpec (lex_normal_description kind).
Proof. arm_start. unfold lex_normal_description. state_arms. by apply lex_region_spec. Qed.

Lemma lex_cast_expr_spec kind : ArmSpec (lex_cast_expr kind).
Proof. arm_start. unfold lex_cast_expr. state_arms. arm_steps. Qed.

Lemma lex_attribute_use_spec : ArmSpec lex_attribute_use.
Proof. arm_start. unfold lex_attribute_use. state_arms. arm_steps. Qed.

Lemma lex_mapped_spec kind : ArmSpec (lex_mapped kind).
Proof. arm_start. unfold lex_mapped. state_arms. Qed.

Lemma lex_extends_spec kind : ArmSpec (lex_extends kind).
Proof. arm_start. unfold lex_extends. state_arms. Qed.
(** Before the last bracket of a text without NUL the reader is not at its
    end. *)
Lemma before_end_not_eof r pre buf rest n :
  cursor r pre buf rest -> no_nul rest -> Reader.get_current_end_pos r < n -> n <= blen (text r) ->
  Reader.is_eof r = false.
Proof.
  intros Hc Hn Hlt Hle. unfold Reader.get_current_end_pos in Hlt.
  rewrite (cur_pos _ _ _ _ Hc), (cur_len _ _ _ _ Hc) in Hlt.
  rewrite (cur_text _ _ _ _ Hc), !blen_app in Hle.
  destruct (Reader.is_eof r) eqn:He; [|done]. apply (cursor_is_eof _ _ _ _ Hc) in He.
  destruct rest as [|c rest]; simpl in *; [unfold blen in *; simpl in *; lia|].
  inversion Hn; subst. by destruct (N.eqb_spec c EOF).
Qed.

(** The cursor after some characters of a text without NUL. *)
Lemma advanced_no_nul n r0 r pre buf rest :
  cursor r0 pre buf rest -> no_nul rest -> Advanced n r0 r ->
  exists buf' rest', cursor r pre buf' rest' /\ no_nul rest' /\ text r = text r0.
Proof.
  intros Hc Hn [_ HA]. destruct (HA _ _ _ Hc) as (d & rest' & -> & _ & _ & Hc' & _).
  apply Forall_app in Hn as [_ Hn]. exists (buf ++ d), rest'. split_and!; [done|done|].
  by rewrite (cur_text _ _ _ _ Hc), (cur_text _ _ _ _ Hc'), <-app_assoc.
Qed.

Lemma lex_long_description_spec r pre buf rest :
  cursor r pre buf rest -> no_nul rest -> Reader.is_eof r = false ->
  wp lex_long_description (LexGood r) r.
Proof.
  intros Hc Hn He. unfold lex_long_description. do 2 doc_step. cbv zeta. do 2 doc_step.
  pose proof (Advanced_refl r) as HS. doc_step; [|arm_steps].
  apply Nat.ltb_lt in Heqb as Hlt. unfold Reader.get_source_text in *. doc_step.
  apply (wp_while (fun r' => r' = r \/ Advanced 1 r r') remaining).
  - intros r' HI Hb%Nat.ltb_lt.
    assert (Advanced 0 r r') as HA by (destruct HI as [->|HA]; [done|by eapply Advanced_weaken; [|done]; lia]).
    destruct (advanced_no_nul _ _ _ _ _ _ Hc Hn HA) as (buf' & rest' & Hc' & Hn' & Ht).
    assert (Reader.is_eof r' = false) as He'.
    { eapply before_end_not_eof; [done|done|exact Hb|rewrite Ht; lia]. }
    apply wp_modify. pose proof (Advanced_bump r') as Hbump. rewrite He' in Hbump. simpl in Hbump.
    split; [right; by eapply (Advanced_trans 0 1)|destruct Hbump; lia].
  - intros r' [->|HA] Hb; [congruence|]. doc_step. by eapply lex_good.
  - by left.
  - pose proof (remaining_steps r). lia.
Qed.
End States.

(** ** [lex] *)

Section Lex.
Context `{UnicodeTables}.
Implicit Types (l : DocLexer.t).

(** The lexer at the point where [m] left its reader. *)
Lemma wp_on_reader {A} (m : M Reader A) l r (Q : A -> DocLexer.t -> Prop) :
  reader l = Some r -> wp m (fun a r' => Q a (set_reader r' l)) r -> wp (on_reader m) Q l.
Proof.
  intros Hr Hw. unfold wp, on_reader in *. rewrite Hr. by destruct (m r) as [[a r']| |].
Qed.

(** What the lexer keeps. *)
Record LexKept l0 l : Prop := mkLexKept {
  lk_text : origin_text l = origin_text l0;
  lk_kind : origin_token_kind l = origin_token_kind l0
}.

Lemma lex_tag_spec l r :
  reader l = Some r -> positioned r -> Reader.is_eof r = false ->
  wp lex_tag (fun k l' => LexKept l l' /\ exists r', reader l' = Some r' /\ LexGood r k r') l.
Proof.
  intros Hr Hp He. unfold lex_tag. apply wp_bind. eapply wp_on_reader; [done|]. doc_step.
  set (l1 := DocLexer.set_reader r l).
  assert (reader l1 = Some r) as Hr1 by done.
  assert (forall m, ArmSpec m -> wp (on_reader m) (fun k l' =>
    LexKept l l' /\ exists r', reader l' = Some r' /\ LexGood r k r') l1) as Harm.
  { intros m Hm. eapply wp_on_reader; [done|]. eapply wp_mono; [by apply Hm|].
    intros k r' HG. split; [by split|]. by exists r'. }
  doc_step; [|doc_step; [|doc_step; [|doc_step]]].
  - eapply wp_on_reader; [done|]. eapply wp_mono; [by apply lex_space_spec|].
    intros k r' HG. split; [by split|]. by exists r'.
  - apply Harm. clear. arm_start. doc_steps. eapply lex_good; [done|lia|apply to_tag_kind].
  - doc_step. eapply wp_on_reader; [done|]. pose proof (Advanced_refl r) as HS. doc_step.
    doc_step. apply wp_modify. doc_step. split; [by split|]. eexists. split; [done|].
    by eapply lex_good.
  - apply Harm. by apply bump_to_spec.
  - apply Harm. by apply lex_rest_spec.
Qed.

(** At the end of the origin token: nothing but the end of file. *)
Lemma lex_eof_spec l r pre buf :
  reader l = Some r -> cursor r pre buf [] ->
  wp lex (fun k l' => k = TkEof /\ LexKept l l'
    /\ reader l' = Some (Reader.reset_buff r)) l.
Proof.
  intros Hr Hc. unfold lex. apply wp_bind. eapply wp_on_reader; [done|]. apply wp_modify.
  apply wp_bind. eapply wp_on_reader; [done|]. apply wp_gets.
  assert (Reader.is_eof (Reader.reset_buff r) = true) as ->.
  { by apply (cursor_is_eof _ _ _ _ (cursor_reset_buff _ _ _ _ Hc)). }
  doc_step. split_and!; [done|by split|done].
Qed.

(** Otherwise the next token is cut off what is left, and the reader stands
    behind it. *)
Lemma doc_lex_spec l r pre buf rest :
  reader l = Some r -> cursor r pre buf rest -> no_nul rest -> rest <> [] ->
  wp lex (fun k l' => doc_kind k = true /\ LexKept l l'
    /\ exists r' d rest', reader l' = Some r' /\ rest = d ++ rest' /\ d <> []
      /\ cursor r' (pre ++ buf) d rest'
      /\ start_offset (valid_range r') = start_offset (valid_range r)) l.
Proof.
  intros Hr Hc Hn Hne. unfold lex. apply wp_bind. eapply wp_on_reader; [done|]. apply wp_modify.
  apply wp_bind. eapply wp_on_reader; [done|]. apply wp_gets.
  apply cursor_reset_buff in Hc as Hc1.
  assert (start_offset (valid_range (Reader.reset_buff r)) = start_offset (valid_range r)) as Hs1 by done.
  remember (Reader.reset_buff r) as r1 eqn:Hr1. clear Hr1 Hc.
  set (l1 := DocLexer.set_reader _ _).
  assert (Reader.is_eof r1 = false) as He.
  { apply not_true_is_false. intros He. apply (cursor_is_eof _ _ _ _ Hc1) in He.
    destruct rest as [|c rest]; [done|]. inversion Hn; subst. simpl in He.
    by destruct (N.eqb_spec c EOF). }
  rewrite He. do 4 doc_step.
  assert (reader l1 = Some r1) as Hrl by done.
  assert (positioned r1) as Hp by by exists (pre ++ buf), [], rest.
  assert (LexKept l l1) as HK by by split.
  eapply (wp_mono _ (fun k l' => LexKept l1 l' /\ exists r', reader l' = Some r' /\ LexGood r1 k r')).
  - assert (forall m, wp m (LexGood r1) r1 -> wp (on_reader m) (fun k l' =>
      LexKept l1 l' /\ exists r', reader l' = Some r' /\ LexGood r1 k r') l1) as Harm.
    { intros m Hm. eapply wp_on_reader; [done|]. eapply wp_mono; [exact Hm|].
      intros k r' HG. split; [by split|]. by exists r'. }
    destruct (state l1).
    + by apply Harm, lex_init_spec.
    + by apply lex_tag_spec.
    + by apply Harm, lex_normal_spec.
    + by apply Harm, lex_field_start_spec.
    + by apply Harm, lex_description_spec.
    + by eapply Harm, lex_long_description_spec.
    + by apply Harm, lex_rest_spec.
    + by apply Harm, lex_see_spec.
    + by apply Harm, lex_version_spec.
    + by apply Harm, doc_lex_source_spec.
    + by apply Harm, lex_normal_description_spec.
    + by apply Harm, lex_cast_expr_spec.
    + by apply Harm, lex_attribute_use_spec.
    + by apply Harm, lex_mapped_spec.
    + by apply Harm, lex_extends_spec.
  - intros k l' ([Ht Hk] & r' & Hr' & Hkind & _ & HA). split; [done|]. split; [by split|].
    destruct (HA _ _ _ Hc1) as (d & rest' & -> & _ & Hd & Hc' & Hs').
    exists r', d, rest'. split_and!; [done|done|by destruct d; [simpl in Hd; lia|]|done|congruence].
Qed.

(** C7: on an origin token without NUL the doc lexer, in each of its fifteen states,
    returns, and cuts a token with at least one character off what is left; on an
    empty rest, and only there, it answers the end of file. *)
Theorem doc_lex_total txt kind st r pre buf rest :
  cursor r pre buf rest -> no_nul rest ->
  exists k l, lex (DocLexer.mk txt kind st (Some r)) = Done (k, l)
    /\ (k = TkEof <-> rest = [])
    /\ exists r' d rest', reader l = Some r' /\ rest = d ++ rest' /\ (rest <> [] -> d <> [])
      /\ cursor r' (pre ++ buf) d rest'.
Proof.
  intros Hc Hn. destruct rest as [|c rest].
  - pose proof (lex_eof_spec (DocLexer.mk txt kind st (Some r)) r pre buf eq_refl Hc) as Hw.
    unfold wp in Hw. destruct (lex _) as [[k l]| |]; [|done..]. destruct Hw as (-> & _ & Hr).
    exists TkEof, l. split_and!; [done|done|]. eexists _, [], []. split_and!; [exact Hr|done|done|].
    by apply cursor_reset_buff.
  - pose proof (doc_lex_spec (DocLexer.mk txt kind st (Some r)) r pre buf (c :: rest) eq_refl Hc Hn) as Hw.
    specialize (Hw ltac:(done)). unfold wp in Hw. destruct (lex _) as [[k l]| |]; [|done..].
    destruct Hw as (Hk & _ & r' & d & rest' & Hr & Heq & Hd & Hc' & _).
    exists k, l. split_and!; [done| |].
    + split; [|done]. by intros ->.
    + by exists r', d, rest'.
Qed.
End Lex.

(** The [---@] of a tag. *)
Lemma doc_lex_total_witness :
  exists l, @lex ascii_tables (DocLexer.mk (str "---@x") TkShortComment DocInit
      (Some (mkReader (str "---@x") (mkRange 0 5) (str "-@x") 0 0 45%N 45%N EOF))) = Done (TkDocStart, l).
Proof.
  destruct (@doc_lex_total ascii_tables (str "---@x") TkShortComment DocInit
    (mkReader (str "---@x") (mkRange 0 5) (str "-@x") 0 0 45%N 45%N EOF) [] [] (str "---@x"))
    as (k & l & Hl & _); [by split|by repeat constructor|].
  exists l. rewrite Hl. cbv in Hl. injection Hl as <- <-. reflexivity.
Defined.
