(* ===== verification/Marker.v ===== *)
(** * Parser events and markers

    [src/crates/glua_parser/src/parser/marker.rs].  Both parsers write a flat list
    of events, a [Marker] is the position of a [NodeStart] in it.  The trait
    [MarkerEventContainer] is a type class, and its laws say that a marker
    operation touches nothing but the events and the mark level; what the
    operations do is stated on the [View] of a parser. *)

From S2P Require Import Prelude Kinds Text.
Local Open Scope prog_scope.

(** ** Data *)

Inductive MarkEvent : Type :=
  | NodeStart (kind : LuaSyntaxKind) (parent : nat)
  | EatToken (kind : LuaTokenKind) (range : SourceRange)
  | NodeEnd
  | Trivia.

(** [MarkEvent::none()] *)
Definition MarkEvent_none : MarkEvent := NodeStart SkNone 0.

Record Marker : Type := mkMarker { position : nat }.
Record CompleteMarker : Type := mkComplete { start : nat; kind : LuaSyntaxKind }.

(** The required methods of the trait; [get_events] hands out a [&mut], so it
    is a getter and a setter here. *)
Class MarkerEventContainer (P : Type) := {
  get_mark_level : P -> nat;
  set_mark_level : nat -> P -> P;
  get_events : P -> list MarkEvent;
  set_events : list MarkEvent -> P -> P
}.

(** ** Operations *)

Section Operations.
Context {P : Type} `{MarkerEventContainer P}.

Definition incr_mark_level : M P unit :=
  modify (fun p => set_mark_level (S (get_mark_level p)) p).

(** [self.mark_level -= 1] panics when the level is zero. *)
Definition decr_mark_level : M P unit := fun p =>
  match get_mark_level p with
  | S n => Done (tt, set_mark_level n p)
  | 0 => Panic
  end.

Definition push_event (e : MarkEvent) : M P unit :=
  modify (fun p => set_events (get_events p ++ [e]) p).

Definition mark (kind : LuaSyntaxKind) : M P Marker :=
  position <- gets (fun p => length (get_events p)) ;;
  push_event (NodeStart kind 0) ;;;
  incr_mark_level ;;;
  ret (mkMarker position).

Definition push_node_end : M P unit :=
  decr_mark_level ;;;
  push_event NodeEnd.

(** [match &mut p.get_events()[pos] { NodeStart { .. } => .., _ => unreachable!() }] *)
Definition update_start (pos : nat) (f : LuaSyntaxKind -> nat -> MarkEvent) : M P unit :=
  fun p => match get_events p !! pos with
           | Some (NodeStart k parent) =>
               Done (tt, set_events (<[pos := f k parent]> (get_events p)) p)
           | _ => Panic
           end.

Definition set_kind (self : Marker) (kind : LuaSyntaxKind) : M P unit :=
  update_start (position self) (fun _ parent => NodeStart kind parent).

Definition complete (self : Marker) : M P CompleteMarker :=
  ev <- gets (fun p => get_events p !! position self) ;;
  match ev with
  | Some (NodeStart kind _) =>
      finish <- gets (fun p => length (get_events p)) ;;
      if (finish =? position self + 1)%nat then
        update_start (position self) (fun _ parent => NodeStart SkNone parent) ;;;
        ret (mkComplete 0 SkNone)
      else
        push_node_end ;;;
        ret (mkComplete (position self) kind)
  | _ => panic
  end.

Definition undo (self : Marker) : M P CompleteMarker :=
  update_start (position self) (fun _ parent => NodeStart SkNone parent) ;;;
  ret (mkComplete (position self) SkNone).

Definition precede (self : CompleteMarker) (kind : LuaSyntaxKind) : M P Marker :=
  m <- mark kind ;;
  update_start (start self) (fun k _ => NodeStart k (position m)) ;;;
  push_event Trivia ;;;
  ret m.

Definition CompleteMarker_empty : CompleteMarker := mkComplete 0 SkNone.

Definition is_invalid (self : CompleteMarker) : bool := kind self =k SkNone.

(** [for _ in 0..n { p.push_node_end() }] *)
Fixpoint push_node_ends (n : nat) : M P unit :=
  match n with
  | 0 => ret tt
  | S n' => push_node_end ;;; push_node_ends n'
  end.
End Operations.

(** ** Shapes: what the tree builder sees of an event

    The parent link of an open node does not matter for the nesting of the
    events nor for the tokens; of its kind only the class matters, by which the
    tree builder decides where trivia goes. *)

Inductive NodeClass : Type := CBlock | CComment | COther.

Definition node_class (k : LuaSyntaxKind) : NodeClass :=
  if k in_k [Block; Chunk] then CBlock
  else if k in_k [Comment; DocDescription] then CComment
  else COther.

Inductive Shape : Type :=
  | SNone
  | SOpen (c : NodeClass)
  | SEnd
  | STok (kind : LuaTokenKind) (range : SourceRange)
  | STrivia.

Definition shape (e : MarkEvent) : Shape :=
  match e with
  | NodeStart k _ => if k =k SkNone then SNone else SOpen (node_class k)
  | EatToken k r => STok k r
  | NodeEnd => SEnd
  | Trivia => STrivia
  end.

Definition shapes (es : list MarkEvent) : list Shape := shape <$> es.

(** The tokens that were eaten, in order. *)
Fixpoint eaten (sh : list Shape) : list (LuaTokenKind * SourceRange) :=
  match sh with
  | [] => []
  | STok k r :: sh' => (k, r) :: eaten sh'
  | _ :: sh' => eaten sh'
  end.

Definition eaten_ranges (sh : list Shape) : list SourceRange := snd <$> eaten sh.

Lemma eaten_app a b : eaten (a ++ b) = eaten a ++ eaten b.
Proof. induction a as [|[] a IH]; simpl; [done|..]; by rewrite ?IH. Qed.

Lemma eaten_ranges_app a b : eaten_ranges (a ++ b) = eaten_ranges a ++ eaten_ranges b.
Proof. unfold eaten_ranges. by rewrite eaten_app, fmap_app. Qed.

Lemma shapes_app a b : shapes (a ++ b) = shapes a ++ shapes b.
Proof. apply fmap_app. Qed.

Lemma length_shapes es : length (shapes es) = length es.
Proof. apply length_fmap. Qed.

Lemma shapes_lookup es i : shapes es !! i = shape <$> es !! i.
Proof. apply list_lookup_fmap. Qed.

Lemma shapes_insert es i e : shapes (<[i := e]> es) = <[i := shape e]> (shapes es).
Proof. apply list_fmap_insert. Qed.

Lemma shape_start es i c : shapes es !! i = Some (SOpen c) ->
  exists k q, es !! i = Some (NodeStart k q) /\ (k =k SkNone) = false /\ node_class k = c.
Proof.
  rewrite shapes_lookup. destruct (es !! i) as [[k q| | |]|] eqn:He; simpl; try done.
  destruct (k =k SkNone) eqn:Hk; [done|]. intros [= <-]. by exists k, q.
Qed.

(** Replacing a start by a start changes no token. *)
Lemma eaten_insert_start es i k q k' q' :
  es !! i = Some (NodeStart k q) ->
  eaten (shapes (<[i := NodeStart k' q']> es)) = eaten (shapes es).
Proof.
  revert i. induction es as [|e es IH]; intros [|i] Hi; simpl in *; try done.
  - injection Hi as ->. simpl. by destruct (k =k SkNone), (k' =k SkNone).
  - destruct (shape e); by rewrite IH.
Qed.

(** ** Well-formed parent links *)

Definition is_start (es : list MarkEvent) (p : nat) : Prop :=
  exists k q, es !! p = Some (NodeStart k q).

(** Parent links lead from a start to a later start. *)
Definition links_ok (es : list MarkEvent) : Prop :=
  forall i k p, es !! i = Some (NodeStart k p) -> p = 0 \/ (i < p /\ is_start es p).

(** What the grammar may rely on and has to keep: the links are well formed and
    the first event, to which an empty [CompleteMarker] refers, is a start. *)
Definition events_ok (es : list MarkEvent) : Prop := links_ok es /\ is_start es 0.

Lemma events_ok_block : events_ok [NodeStart Block 0].
Proof. split; [|by exists Block, 0]. intros [|i] k q; [|done]. intros [= _ <-]. by left. Qed.

Lemma is_start_lt es i : is_start es i -> i < length es.
Proof. intros (k & q & Hi). by eapply lookup_lt_Some. Qed.

Lemma is_start_app es es' j : is_start es j -> is_start (es ++ es') j.
Proof. intros (k & q & Hj). exists k, q. by apply lookup_app_l_Some. Qed.

Lemma is_start_insert es i k q j :
  is_start es i -> is_start es j -> is_start (<[i := NodeStart k q]> es) j.
Proof.
  intros Hi (k' & q' & Hj). destruct (decide (i = j)) as [->|Hne].
  - exists k, q. apply list_lookup_insert_eq. by apply is_start_lt.
  - exists k', q'. by rewrite list_lookup_insert_ne.
Qed.

Lemma is_start_shape es p c : shapes es !! p = Some (SOpen c) -> is_start es p.
Proof. intros (k & q & Hp & _)%shape_start. by exists k, q. Qed.

Lemma links_ok_snoc es e :
  links_ok es -> (forall k q, e = NodeStart k q -> q = 0) -> links_ok (es ++ [e]).
Proof.
  intros Hl He i k q Hi. apply lookup_app_Some in Hi as [Hi|[_ Hi]].
  - destruct (Hl _ _ _ Hi) as [->|[Hlt Hs]]; [by left|]. right. split; [done|].
    by apply is_start_app.
  - left. destruct (i - length es); simpl in Hi; [|done]. injection Hi as Hi. by eapply He.
Qed.

Lemma links_ok_insert es i k q :
  links_ok es -> is_start es i -> q = 0 \/ (i < q /\ is_start es q) ->
  links_ok (<[i := NodeStart k q]> es).
Proof.
  intros Hl Hi Hq j k' q' Hj. pose proof (is_start_lt _ _ Hi).
  destruct (decide (i = j)) as [<-|Hne].
  - rewrite list_lookup_insert_eq in Hj by done. injection Hj as -> ->.
    destruct Hq as [->|[Hlt Hs]]; [by left|]. right. split; [done|].
    by apply is_start_insert.
  - rewrite list_lookup_insert_ne in Hj by done.
    destruct (Hl _ _ _ Hj) as [->|[Hlt Hs]]; [by left|]. right. split; [done|].
    by apply is_start_insert.
Qed.

Lemma events_ok_snoc es e :
  events_ok es -> (forall k q, e = NodeStart k q -> q = 0) -> events_ok (es ++ [e]).
Proof. intros [Hl Hs] He. split; [by apply links_ok_snoc|by apply is_start_app]. Qed.

Lemma events_ok_insert es i k k0 q :
  events_ok es -> es !! i = Some (NodeStart k0 q) -> events_ok (<[i := NodeStart k q]> es).
Proof.
  intros [Hl Hs] Hi. assert (is_start es i) by by exists k0, q.
  split; [|by apply is_start_insert]. apply links_ok_insert; [done|done|].
  by apply (Hl _ _ _ Hi).
Qed.

(** ** Laws of the trait

    [rest] is everything of the parser that is not the events, the level and
    the errors; a marker operation keeps it. *)
Class MarkerEventContainerLaws (P R : Type) `{MarkerEventContainer P} := {
  rest : P -> R;
  errors_of : P -> list LuaParseError;
  level_set_level n p : get_mark_level (set_mark_level n p) = n;
  events_set_level n p : get_events (set_mark_level n p) = get_events p;
  rest_set_level n p : rest (set_mark_level n p) = rest p;
  errors_set_level n p : errors_of (set_mark_level n p) = errors_of p;
  level_set_events es p : get_mark_level (set_events es p) = get_mark_level p;
  events_set_events es p : get_events (set_events es p) = es;
  rest_set_events es p : rest (set_events es p) = rest p;
  errors_set_events es p : errors_of (set_events es p) = errors_of p
}.

Section OperationSpecs.
Context {P R : Type} {CP : MarkerEventContainer P} {CL : MarkerEventContainerLaws P R}.
Implicit Types (p : P).

(** [Kept p p']: only the events and the mark level may differ. *)
Definition Kept p p' : Prop := rest p' = rest p /\ errors_of p' = errors_of p.

Lemma wp_push_event e p (Q : unit -> P -> Prop) :
  (forall p', Kept p p' -> get_events p' = get_events p ++ [e] ->
     get_mark_level p' = get_mark_level p -> Q tt p') ->
  wp (push_event e) Q p.
Proof.
  intros HQ. apply wp_modify, HQ.
  - split; [apply rest_set_events|apply errors_set_events].
  - apply events_set_events.
  - apply level_set_events.
Qed.

Lemma wp_mark kind p (Q : Marker -> P -> Prop) :
  (forall p', Kept p p' -> get_events p' = get_events p ++ [NodeStart kind 0] ->
     get_mark_level p' = S (get_mark_level p) ->
     Q (mkMarker (length (get_events p))) p') ->
  wp (mark kind) Q p.
Proof.
  intros HQ. unfold mark. apply wp_bind, wp_gets, wp_bind, wp_push_event.
  intros p1 [Hr He] Hev Hl. apply wp_bind, wp_modify, wp_ret, HQ.
  - split; [by rewrite rest_set_level|by rewrite errors_set_level].
  - by rewrite events_set_level.
  - by rewrite level_set_level, Hl.
Qed.

Lemma wp_push_node_end p lvl (Q : unit -> P -> Prop) :
  get_mark_level p = S lvl ->
  (forall p', Kept p p' -> get_events p' = get_events p ++ [NodeEnd] ->
     get_mark_level p' = lvl -> Q tt p') ->
  wp push_node_end Q p.
Proof.
  intros Hlvl HQ. unfold push_node_end. apply wp_bind. unfold wp, decr_mark_level.
  rewrite Hlvl. apply wp_push_event. intros p1 [Hr He] Hev Hl. apply HQ.
  - split; [by rewrite Hr, rest_set_level|by rewrite He, errors_set_level].
  - by rewrite Hev, events_set_level.
  - by rewrite Hl, level_set_level.
Qed.

Lemma wp_update_start i f p k q (Q : unit -> P -> Prop) :
  get_events p !! i = Some (NodeStart k q) ->
  (forall p', Kept p p' -> get_events p' = <[i := f k q]> (get_events p) ->
     get_mark_level p' = get_mark_level p -> Q tt p') ->
  wp (update_start i f) Q p.
Proof.
  intros Hi HQ. unfold wp, update_start. rewrite Hi. apply HQ.
  - split; [apply rest_set_events|apply errors_set_events].
  - apply events_set_events.
  - apply level_set_events.
Qed.

(** C10: a node is a [NodeStart] and a [NodeEnd] around what was written in between,
    and it leaves the mark level as it found it; a node around nothing is not a
    node: no event closes it, its start is voided, and the mark level stays one
    too high. *)
Theorem mark_complete_node kind (body : list MarkEvent) p :
  wp (m <- mark kind ;; modify (fun p => set_events (get_events p ++ body) p) ;;; complete m)
    (fun cm p' => Kept p p'
       /\ cm = (if bool_decide (body = []) then mkComplete 0 SkNone
                else mkComplete (length (get_events p)) kind)
       /\ get_events p' = get_events p
            ++ (if bool_decide (body = []) then [NodeStart SkNone 0]
                else NodeStart kind 0 :: body ++ [NodeEnd])
       /\ get_mark_level p' = get_mark_level p + (if bool_decide (body = []) then 1 else 0)) p.
Proof.
  apply wp_bind, wp_mark. intros p1 [Hr1 He1] Hev1 Hl1. apply wp_bind, wp_modify.
  assert (get_events (set_events (get_events p1 ++ body) p1) !! length (get_events p)
          = Some (NodeStart kind 0)) as Hat.
  { rewrite events_set_events, Hev1, <-app_assoc. simpl. by rewrite list_lookup_middle. }
  unfold complete. apply wp_bind, wp_gets. cbn [position]. rewrite Hat. apply wp_bind, wp_gets.
  replace (length (get_events (set_events (get_events p1 ++ body) p1)))
    with (length (get_events p) + 1 + length body)
    by (rewrite events_set_events, Hev1, !length_app; done).
  destruct body as [|e body]; rewrite ?bool_decide_true, ?bool_decide_false by done.
  - rewrite (proj2 (Nat.eqb_eq _ _)) by (simpl; lia).
    apply wp_bind. eapply wp_update_start; [exact Hat|]. intros p2 [Hr2 He2] Hev2 Hl2. apply wp_ret.
    rewrite events_set_events, app_nil_r, Hev1 in Hev2.
    split_and!; [|done| |].
    + split; [by rewrite Hr2, rest_set_events|by rewrite He2, errors_set_events].
    + rewrite Hev2, insert_app_r_alt, Nat.sub_diag by done. done.
    + rewrite Hl2, level_set_events, Hl1. lia.
  - rewrite (proj2 (Nat.eqb_neq _ _)) by (simpl; lia).
    apply wp_bind. eapply (wp_push_node_end _ (get_mark_level p));
      [by rewrite level_set_events|]. intros p2 [Hr2 He2] Hev2 Hl2. apply wp_ret.
    split_and!; [|done| |].
    + split; [by rewrite Hr2, rest_set_events|by rewrite He2, errors_set_events].
    + by rewrite Hev2, events_set_events, Hev1, <-!app_assoc.
    + rewrite Hl2. lia.
Qed.
End OperationSpecs.
