(* ===== verification/Discipline.v ===== *)
(** * The discipline of the event list

    What a recursive descent parser owes to the tree builder.  The events of an
    error-free parse denote a sequence of builder actions (a parent link moves a
    start to the place where its child starts), and the actions are those of a
    forest of syntax trees.  [AtF] is the assertion that the proofs of both
    grammars carry from statement to statement; the rules at the end say how
    each marker operation changes it. *)

From S2P Require Import Prelude Kinds Text Marker.
Local Open Scope prog_scope.

(** ** Builder actions *)

Inductive AOp : Type :=
  | AStart (pos : nat) (c : NodeClass)
  | AEnd
  | ATok (kind : LuaTokenKind) (range : SourceRange).

(** [Skel es sk]: the events [es], written by marker operations of an error-free
    parse, make the tree builder perform the actions [sk]. *)
Inductive Skel : list MarkEvent -> list AOp -> Prop :=
  | Skel_nil : Skel [] []
  | Skel_start es sk k :
      Skel es sk -> (k =k SkNone) = false ->
      Skel (es ++ [NodeStart k 0]) (sk ++ [AStart (length es) (node_class k)])
  | Skel_tok es sk k r : Skel es sk -> Skel (es ++ [EatToken k r]) (sk ++ [ATok k r])
  | Skel_end es sk : Skel es sk -> Skel (es ++ [NodeEnd]) (sk ++ [AEnd])
  | Skel_kind es sk i k q k' :
      Skel es sk -> es !! i = Some (NodeStart k q) ->
      (k =k SkNone) = false -> (k' =k SkNone) = false -> node_class k' = node_class k ->
      Skel (<[i := NodeStart k' q]> es) sk
  | Skel_precede es A i c B k k' :
      Skel es (A ++ AStart i c :: B) -> es !! i = Some (NodeStart k 0) ->
      (k =k SkNone) = false -> (k' =k SkNone) = false -> node_class k' = COther ->
      Skel (<[i := NodeStart k (length es)]> es ++ [NodeStart k' 0; Trivia])
           (A ++ AStart (length es) (node_class k') :: AStart i c :: B)
  | Skel_none es A i c B k :
      Skel es (A ++ AStart i c :: B) -> es !! i = Some (NodeStart k 0) ->
      es !! (S i) <> Some Trivia ->
      Skel (<[i := NodeStart SkNone 0]> es) (A ++ B).

(** ** Syntax trees *)

#[warnings="-register-all"]
Inductive Tree : Type :=
  | TTok (kind : LuaTokenKind) (range : SourceRange)
  | TNode (pos : nat) (c : NodeClass) (children : list Tree).

Fixpoint flat (t : Tree) : list AOp :=
  match t with
  | TTok k r => [ATok k r]
  | TNode p c cs => AStart p c :: concat (map flat cs) ++ [AEnd]
  end.

Definition flats (f : list Tree) : list AOp := concat (map flat f).

(** A token that the tree builder does not move out of a node. *)
Definition solid_token (k : LuaTokenKind) : bool :=
  negb (k in_t [TkWhitespace; TkEndOfLine; TkDocContinue]).

Definition class_eqb (a b : NodeClass) : bool :=
  match a, b with
  | CBlock, CBlock | CComment, CComment | COther, COther => true
  | _, _ => false
  end.

Definition solid (t : Tree) : bool :=
  match t with
  | TTok k _ => solid_token k
  | TNode _ c _ => negb (class_eqb c CComment)
  end.

Fixpoint has_token (t : Tree) : bool :=
  match t with
  | TTok _ _ => true
  | TNode _ _ cs => existsb has_token cs
  end.

Definition is_block (t : Tree) : bool :=
  match t with TNode _ c _ => class_eqb c CBlock | _ => false end.

(** [goods g f]: every node of the forest has a token, and a block that is not
    the first thing of the file ([g]) stands after a solid sibling, which stops
    it from taking trivia of the node around it. *)
Fixpoint good (t : Tree) : bool :=
  match t with
  | TTok _ _ => true
  | TNode _ _ cs =>
      existsb has_token cs &&
      (fix goods (g : bool) (f : list Tree) : bool :=
         match f with
         | [] => true
         | t' :: f' => (negb (is_block t') || g) && good t' && goods (g || solid t') f'
         end) false cs
  end.

Fixpoint goods (g : bool) (f : list Tree) : bool :=
  match f with
  | [] => true
  | t :: f' => (negb (is_block t) || g) && good t && goods (g || solid t) f'
  end.

Lemma good_node p c cs : good (TNode p c cs) = existsb has_token cs && goods false cs.
Proof. done. Qed.

Lemma goods_app g f f' :
  goods g (f ++ f') = goods g f && goods (g || existsb solid f) f'.
Proof.
  revert g. induction f as [|t f IH]; intros g; simpl; [by rewrite orb_false_r|].
  by rewrite IH, !andb_assoc, orb_assoc.
Qed.

Lemma goods_mono g f : goods false f = true -> goods g f = true.
Proof.
  destruct g; [|done]. enough (forall a, goods a f = true -> goods true f = true) by eauto.
  induction f as [|t f IH]; simpl; [done|]. intros a.
  rewrite !andb_true_iff. intros [[_ Ht] Hf]. split_and!; [by rewrite orb_true_r|done|].
  by eapply IH.
Qed.

Lemma solid_has_token t : good t = true -> solid t = true -> has_token t = true.
Proof. destruct t as [|p c cs]; [done|]. rewrite good_node. by intros [? _]%andb_true_iff. Qed.

Lemma solids_has_token g f :
  goods g f = true -> existsb solid f = true -> existsb has_token f = true.
Proof.
  revert g. induction f as [|t f IH]; intros g; simpl; [done|].
  rewrite !andb_true_iff, !orb_true_iff. intros [[_ Ht] Hf] [Hs|Hs].
  - left. by apply solid_has_token.
  - right. by eapply IH.
Qed.

Lemma flats_app f f' : flats (f ++ f') = flats f ++ flats f'.
Proof. unfold flats. by rewrite map_app, concat_app. Qed.

Lemma flat_node p c cs : flat (TNode p c cs) = AStart p c :: flats cs ++ [AEnd].
Proof. done. Qed.

(** ** Forests with open nodes

    [Ext g ms sk f]: the actions [sk] open the markers [ms] (innermost first)
    one inside the other, with complete trees before each of them, and [f] is
    what the innermost one contains so far.  The outermost marker comes
    first. *)

Abbreviation OpenMark := (nat * NodeClass)%type.

Inductive Ext (g : bool) : list OpenMark -> list AOp -> list Tree -> Prop :=
  | Ext_base f : goods g f = true -> Ext g [] (flats f) f
  | Ext_first p c f :
      (c = CBlock -> g = true) -> goods false f = true ->
      Ext g [(p, c)] (AStart p c :: flats f) f
  | Ext_more m ms sk f p c f' :
      Ext g (m :: ms) sk f -> (c = CBlock -> existsb solid f = true) ->
      goods false f' = true ->
      Ext g ((p, c) :: m :: ms) (sk ++ AStart p c :: flats f') f'.

(** A complete forest continues whatever is open. *)
Lemma Ext_app g ms sk f f' :
  Ext g ms sk f ->
  goods (match ms with [] => g | _ => false end || existsb solid f) f' = true ->
  Ext g ms (sk ++ flats f') (f ++ f').
Proof.
  intros HE Hf. inversion HE; subst; simpl in Hf.
  - rewrite <-flats_app. constructor. by rewrite goods_app, andb_true_iff.
  - rewrite <-app_comm_cons, <-flats_app. constructor; [done|].
    by rewrite goods_app, andb_true_iff.
  - rewrite <-app_assoc, <-app_comm_cons, <-flats_app. econstructor; [done..|].
    by rewrite goods_app, andb_true_iff.
Qed.

(** Closing the innermost node. *)
Lemma Ext_close g p c ms sk f :
  Ext g ((p, c) :: ms) sk f -> existsb has_token f = true ->
  exists f0, Ext g ms (sk ++ [AEnd]) (f0 ++ [TNode p c f]) /\ (ms = [] -> f0 = []).
Proof.
  intros HE Ht. inversion HE; subst.
  - exists []. split; [|done]. simpl. rewrite <-(app_nil_r (_ ++ [AEnd])).
    change (Ext g [] (flats [TNode p c f]) [TNode p c f]). constructor.
    cbn [goods is_block]. rewrite good_node, Ht. rewrite !andb_true_iff. split_and!; try done.
    destruct c; simpl; auto.
  - exists f0. split; [|done].
    replace ((sk0 ++ AStart p c :: flats f) ++ [AEnd]) with (sk0 ++ flats [TNode p c f]).
    2: { unfold flats at 1. simpl. by rewrite app_nil_r, <-app_assoc. }
    apply Ext_app; [done|]. cbn [goods is_block]. rewrite good_node, Ht.
    rewrite !andb_true_iff. split_and!; try done.
    destruct c; simpl; auto.
Qed.

(** ** The assertion

    [inv] is what a parser keeps besides its events: it may speak of the tokens
    eaten so far.  [pos] measures its progress.  Once the parser has moved,
    something was eaten. *)
Section Assertion.
Context {P R : Type} {CP : MarkerEventContainer P} {CL : MarkerEventContainerLaws P R}.
Context (inv : R -> list (LuaTokenKind * SourceRange) -> Prop) (pos : R -> nat).
Implicit Types (b p s : P).

Definition eaten_of p := eaten (shapes (get_events p)).
Definition at_pos p := pos (rest p).

(** [OkState p]: what holds between any two steps of the parser. *)
Record OkState p : Prop := mkOkState {
  ok_inv : inv (rest p) (eaten_of p);
  ok_events : events_ok (get_events p)
}.

(** A marker that can still be completed: its start is in place. *)
Definition marked (n : nat) (es : list MarkEvent) (m : OpenMark) : Prop :=
  n <= m.1 /\ shapes es !! m.1 = Some (SOpen m.2).

Definition unlinked (es : list MarkEvent) (i : nat) : Prop :=
  exists k, es !! i = Some (NodeStart k 0).

(** No error was added since [b], and there was none that disturbed the events
    before. *)
Definition no_error b s : Prop :=
  errors_of s = errors_of b /\ exists sk0, Skel (get_events b) sk0.

(** As long as no error was added since [b]: nothing before [b] has changed,
    and what was done since extends the actions by a forest with the markers
    [ms] open, whose innermost children satisfy [F]. *)
Record Clean b (g : bool) (ms : list OpenMark) (F : list Tree -> Prop) s : Prop := mkClean {
  cl_prefix : get_events b `prefix_of` get_events s;
  cl_marks : Forall (fun m => unlinked (get_events s) m.1) ms;
  cl_skel : forall sk0, Skel (get_events b) sk0 ->
    exists sk f, Skel (get_events s) (sk0 ++ sk) /\ Ext g ms sk f /\ F f
}.

(** [AtF b g ms F j s]: a function that started in [b] is in [s], with the
    markers [ms] open, having moved on by at least [j]. *)
Record AtF b (g : bool) (ms : list OpenMark) (F : list Tree -> Prop) (j : nat) s : Prop := mkAt {
  at_ok : OkState s;
  at_shapes : shapes (get_events b) `prefix_of` shapes (get_events s);
  at_marks : Forall (marked (length (get_events b)) (get_events s)) ms;
  at_nodup : NoDup ms.*1;
  at_level : get_mark_level b + length ms <= get_mark_level s;
  at_errors : errors_of b `prefix_of` errors_of s;
  at_progress : at_pos b + j <= at_pos s;
  at_clean : no_error b s -> Clean b g ms F s
}.

(** What is known of the innermost open node: nothing, that it has a token,
    that it has a solid child, or that an error was reported, in which case
    nothing has to be shown about the events any more. *)
Inductive Status : Type := Any | Tokens | Solid | Dirty.

Definition holds (q : Status) (f : list Tree) : Prop :=
  match q with
  | Any => True
  | Tokens => existsb has_token f = true
  | Solid => existsb solid f = true
  | Dirty => False
  end.

Definition rank (q : Status) : nat :=
  match q with Any => 0 | Tokens => 1 | Solid => 2 | Dirty => 3 end.

Definition join (q q' : Status) : Status := if rank q <=? rank q' then q' else q.

Definition At b g ms q j s : Prop := AtF b g ms (holds q) j s.

(** The node that the result of an expression refers to comes first; in a doc
    type in parentheses the closing one stands behind it. *)
Definition headed (cm : CompleteMarker) (f : list Tree) : Prop :=
  exists cs f', f = TNode (start cm) COther cs :: f'.

Record Expr b (j : nat) (cm : CompleteMarker) s : Prop := mkExpr {
  ex_at : AtF b false [] (headed cm) j s;
  ex_start : is_start (get_events s) (start cm);
  ex_unlinked : no_error b s ->
    length (get_events b) <= start cm
    /\ exists k, get_events s !! start cm = Some (NodeStart k 0) /\ (k =k SkNone) = false
}.

Lemma OkState_kept p p' :
  OkState p -> rest p' = rest p -> eaten_of p' = eaten_of p ->
  events_ok (get_events p') -> OkState p'.
Proof. intros [Hi He] Hr Hea Hev. split; [by rewrite Hr, Hea|done]. Qed.

Lemma prefix_between {A} (l1 l2 l3 : list A) :
  l1 `prefix_of` l2 -> l2 `prefix_of` l3 -> l3 = l1 -> l2 = l1.
Proof.
  intros [a ->] [c ->] Heq. rewrite <-app_assoc in Heq.
  rewrite <-(app_nil_r l1) in Heq at 2. apply app_inv_head in Heq.
  apply app_eq_nil in Heq as [-> _]. by rewrite app_nil_r.
Qed.

Lemma AtF_refl g (F : list Tree -> Prop) s : OkState s -> F [] -> AtF s g [] F 0 s.
Proof.
  intros Hok HF. split; simpl; try done; try lia; [constructor|].
  intros _. split; [done|constructor|]. intros sk0 Hsk. exists [], [].
  rewrite app_nil_r. split_and!; [done| |done]. by apply (Ext_base g []).
Qed.

Lemma AtF_weaken b g ms (F F' : list Tree -> Prop) j j' s :
  AtF b g ms F j s -> (forall f, F f -> F' f) -> j' <= j -> AtF b g ms F' j' s.
Proof.
  intros [Hok Hsh Hm Hd Hl He Hp Hc] HF Hj. split; try done; [lia|].
  intros Heq. destruct (Hc Heq) as [Hpre Hun Hsk]. split; try done.
  intros sk0 H0. destruct (Hsk _ H0) as (sk & f & ? & ? & ?). exists sk, f. auto.
Qed.

(** Once an error was reported, markers may be left open. *)
Lemma AtF_drop b g ms (F F' : list Tree -> Prop) j s :
  AtF b g ms F j s -> ~ no_error b s -> AtF b g [] F' j s.
Proof.
  intros [Hok Hsh Hm Hd Hl He Hp Hc] Hne. split; simpl; try done; try lia. constructor.
Qed.

(** Framing: what a callee did from [s] to [s'] is a step of the caller. *)
Lemma AtF_frame b g ms (F F' : list Tree -> Prop) j n g' s s' :
  AtF b g ms F j s -> AtF s g' [] F' n s' ->
  (g' = true -> forall f, F f -> existsb solid f = true) ->
  AtF b g ms (fun f => exists f0 f1, f = f0 ++ f1 /\ F f0 /\ F' f1) (j + n) s'.
Proof.
  intros [Hok Hsh Hm Hd Hl He Hp Hc] [Hok' Hsh' _ _ Hl' He' Hp' Hc'] Hg. simpl in Hl'.
  split; try done; [by etrans| |lia|by etrans|lia|].
  - eapply Forall_impl; [|exact Hm]. intros m [Hn Hs]. split; [done|].
    by eapply prefix_lookup_Some.
  - intros [Heq Htidy]. assert (errors_of s = errors_of b) as E by by eapply prefix_between.
    destruct (Hc (conj E Htidy)) as [Hpre Hun Hsk].
    assert (no_error s s') as HE0.
    { split; [by rewrite Heq|]. destruct Htidy as [sk0 H0].
      destruct (Hsk _ H0) as (sk & _ & H1 & _). eauto. }
    destruct (Hc' HE0) as [Hpre' _ Hsk'].
    split; [by etrans| |].
    + eapply Forall_impl; [|exact Hun]. intros m [k Hk]. exists k.
      by eapply prefix_lookup_Some.
    + intros sk0 H0. destruct (Hsk _ H0) as (sk & f & H1 & HE & HF).
      destruct (Hsk' _ H1) as (sk' & f' & H2 & HE' & HF'). inversion HE'; subst.
      exists (sk ++ flats f'), (f ++ f'). rewrite app_assoc. split_and!; [done| |by eauto].
      apply Ext_app; [done|]. destruct g'; [|by apply goods_mono].
      by rewrite (Hg eq_refl _ HF), orb_true_r.
Qed.

Lemma holds_join q q' f f' : holds q f -> holds q' f' -> holds (join q q') (f ++ f').
Proof.
  unfold join. destruct q, q'; simpl; try done; rewrite existsb_app; intros H1 H2;
    rewrite ?H1, ?H2, ?orb_true_r; done.
Qed.

Lemma holds_mono q q' g ms sk f :
  rank q' <= rank q -> Ext g ms sk f -> holds q f -> holds q' f.
Proof.
  intros Hr HE. assert (exists g', goods g' f = true) as [g' Hg] by (inversion HE; eauto).
  destruct q, q'; simpl in *; try done; try lia. by eapply solids_has_token.
Qed.

Lemma At_weaken b g ms q q' j j' s :
  At b g ms q j s -> rank q' <= rank q -> j' <= j -> At b g ms q' j' s.
Proof.
  intros HA Hr Hj. pose proof (AtF_weaken _ _ _ _ _ _ _ _ HA (fun _ H => H) Hj) as HA'.
  destruct HA' as [Hok Hsh Hm Hd Hl He Hp Hc]. split; try done.
  intros Heq. destruct (Hc Heq) as [Hpre Hun Hsk]. split; try done.
  intros sk0 H0. destruct (Hsk _ H0) as (sk & f & ? & ? & ?). exists sk, f.
  split_and!; [done|done|by eapply holds_mono].
Qed.

Lemma At_frame b g ms q q' j n g' s s' :
  At b g ms q j s -> At s g' [] q' n s' -> (g' = true -> rank Solid <= rank q) ->
  At b g ms (join q q') (j + n) s'.
Proof.
  intros H1 H2 Hg. eapply AtF_weaken; [eapply AtF_frame; [exact H1|exact H2|]|..|done].
  - intros ->. specialize (Hg eq_refl). intros f. by destruct q; simpl in *; try lia.
  - intros f (f0 & f1 & -> & Hf0 & Hf1). by apply holds_join.
Qed.

Lemma At_drop b g ms q j s :
  At b g ms q j s -> ~ no_error b s -> At b g [] Dirty j s.
Proof. apply AtF_drop. Qed.

Lemma At_Dirty_error b g ms j s : At b g ms Dirty j s -> ~ no_error b s.
Proof.
  intros [_ _ _ _ _ _ _ Hc] HE. destruct (Hc HE) as [_ _ Hsk]. destruct HE as [_ [sk0 H0]].
  by destruct (Hsk _ H0) as (? & ? & _ & _ & []).
Qed.

(** An error return leaves its markers open. *)
Lemma At_abandon b g g' ms j j' s :
  At b g ms Dirty j s -> j' <= j -> At b g' [] Dirty j' s.
Proof.
  intros HA Hj. pose proof (At_Dirty_error _ _ _ _ _ HA) as Hne.
  destruct HA as [Hok Hsh Hm Hd Hl He Hp Hc]. split; simpl; try done; try lia. constructor.
Qed.

(** A status that cannot hold is an error that was reported. *)
Lemma At_dirty b g ms q j s :
  At b g ms q j s -> ~ no_error b s -> At b g ms Dirty j s.
Proof. intros [Hok Hsh Hm Hd Hl He Hp Hc] Hne. by split. Qed.

Lemma Expr_weaken b j j' cm s : Expr b j cm s -> j' <= j -> Expr b j' cm s.
Proof. intros [HA Hs Hu] Hj. split; [by eapply AtF_weaken|done|done]. Qed.

Lemma Expr_At b j cm s : Expr b j cm s -> At b false [] Solid j s.
Proof.
  intros [HA _ _]. eapply AtF_weaken; [exact HA| |done]. by intros f (cs & f' & ->).
Qed.
End Assertion.

(** The assertion does not depend on what is known of the rest. *)
Lemma At_reinv {P R} {CP : MarkerEventContainer P} {CL : MarkerEventContainerLaws P R}
    (inv inv' : R -> list (LuaTokenKind * SourceRange) -> Prop) pos pos' b g ms q j j' (s : P) :
  At inv pos b g ms q j s -> OkState inv' s -> at_pos pos' b + j' <= at_pos pos' s ->
  At inv' pos' b g ms q j' s.
Proof. intros [_ Hsh Hm Hd Hl He _ Hc] Hok Hp. by split. Qed.

(** ** Facts about the skeleton *)

Lemma insert_last_lookup {A} (l : list A) i x :
  i < length l -> list.last (<[i := x]> l) = if decide (S i = length l) then Some x else list.last l.
Proof.
  intros Hi. rewrite !last_lookup, length_insert. case_decide as Heq.
  - rewrite <-Heq. simpl. by apply list_lookup_insert_eq.
  - apply list_lookup_insert_ne. lia.
Qed.

(** A start that is the last event is the last action. *)
Lemma Skel_last es sk k q :
  Skel es sk -> list.last es = Some (NodeStart k q) -> (k =k SkNone) = false ->
  exists c, list.last sk = Some (AStart (length es - 1) c).
Proof.
  intros HS. revert k q. induction HS; intros k0 q0 Hl Hk.
  - done.
  - exists (node_class k). rewrite last_snoc, length_app. simpl. do 2 f_equal. lia.
  - by rewrite last_snoc in Hl.
  - by rewrite last_snoc in Hl.
  - rewrite insert_last_lookup in Hl by by eapply lookup_lt_Some. rewrite length_insert.
    case_decide as Heq; [|by eapply IHHS]. eapply (IHHS k q); [|done].
    rewrite last_lookup, <-Heq. done.
  - rewrite last_app in Hl. done.
  - rewrite insert_last_lookup in Hl by by eapply lookup_lt_Some. rewrite length_insert.
    case_decide as Heq; [by injection Hl as <- <-|].
    destruct (IHHS _ _ Hl Hk) as [c' Hc']. exists c'. rewrite last_app in Hc' |- *.
    destruct B as [|x B]; [|done]. simpl in Hc'.
    injection Hc' as Hi _. apply lookup_lt_Some in H. lia.
Qed.

Lemma last_flat t : exists x, list.last (flat t) = Some x /\ (forall p c, x <> AStart p c).
Proof.
  destruct t as [k r|p c cs]; [by exists (ATok k r)|]. exists AEnd. split; [|done].
  by rewrite flat_node, app_comm_cons, last_snoc.
Qed.

Lemma last_flats f p c : list.last (flats f) <> Some (AStart p c).
Proof.
  induction f as [|t f' _] using rev_ind; [done|].
  rewrite flats_app, last_app. unfold flats at 1. simpl. rewrite app_nil_r.
  destruct (last_flat t) as (x & -> & Hx). intros [= ->]. by eapply Hx.
Qed.

Lemma Ext_last g p c ms sk f :
  Ext g ((p, c) :: ms) sk f -> f <> [] -> forall p' c', list.last sk <> Some (AStart p' c').
Proof.
  intros HE Hf p' c'.
  assert (exists sk0, sk = sk0 ++ AStart p c :: flats f) as [sk0 ->].
  { inversion HE; subst; [by exists []|eauto]. }
  rewrite last_app, last_cons. destruct (list.last (flats f)) as [x|] eqn:Hl.
  - intros [= ->]. by eapply last_flats.
  - apply last_None in Hl. destruct f as [|t f]; [done|]. exfalso.
    unfold flats in Hl. simpl in Hl. apply app_eq_nil in Hl as [Hl _].
    destruct (last_flat t) as (x & Hx & _). by rewrite Hl in Hx.
Qed.

(** ** Tokens of actions and trees *)

Section TreeInd.
Variable Pt : Tree -> Prop.
Hypothesis Htok : forall k r, Pt (TTok k r).
Hypothesis Hnode : forall p c cs, Forall Pt cs -> Pt (TNode p c cs).

Fixpoint Tree_ind' (t : Tree) : Pt t :=
  match t with
  | TTok k r => Htok k r
  | TNode p c cs =>
      Hnode p c cs ((fix go (f : list Tree) : Forall Pt f :=
        match f with
        | [] => List.Forall_nil _
        | t' :: f' => List.Forall_cons _ _ _ (Tree_ind' t') (go f')
        end) cs)
  end.
End TreeInd.

(** The tokens of a forest, in order. *)
Fixpoint leaves (t : Tree) : list (LuaTokenKind * SourceRange) :=
  match t with
  | TTok k r => [(k, r)]
  | TNode _ _ cs => concat (map leaves cs)
  end.

Definition forest_leaves (f : list Tree) : list (LuaTokenKind * SourceRange) :=
  concat (map leaves f).

Fixpoint acts_eaten (sk : list AOp) : list (LuaTokenKind * SourceRange) :=
  match sk with
  | [] => []
  | ATok k r :: sk' => (k, r) :: acts_eaten sk'
  | _ :: sk' => acts_eaten sk'
  end.

Lemma acts_eaten_app a b : acts_eaten (a ++ b) = acts_eaten a ++ acts_eaten b.
Proof. induction a as [|[] a IH]; simpl; [done|..]; by rewrite ?IH. Qed.

Lemma acts_eaten_flats f : acts_eaten (flats f) = forest_leaves f.
Proof.
  assert (Ht : forall t, acts_eaten (flat t) = leaves t).
  { induction t as [k r|p c cs IH] using Tree_ind'; [done|].
    rewrite flat_node. simpl. rewrite acts_eaten_app, app_nil_r. unfold flats.
    induction IH as [|t cs Ht _ IH]; simpl; [done|]. by rewrite acts_eaten_app, Ht, IH. }
  induction f as [|t f IH]; [done|]. unfold flats, forest_leaves in *. simpl.
  by rewrite acts_eaten_app, Ht, IH.
Qed.

Lemma leaves_has_token f : forest_leaves f <> [] -> existsb has_token f = true.
Proof.
  assert (Ht : forall t, leaves t <> [] -> has_token t = true).
  { induction t as [k r|p c cs IH] using Tree_ind'; [done|]. simpl. intros Hne.
    induction IH as [|t cs Ht _ IH]; simpl in *; [done|]. apply orb_true_iff.
    destruct (leaves t) eqn:Hl; [right; by apply IH|left; by apply Ht]. }
  induction f as [|t f IH]; [done|]. unfold forest_leaves in *. simpl. intros Hne.
  apply orb_true_iff. destruct (leaves t) eqn:Hl; [right; by apply IH|].
  left. apply Ht. by rewrite Hl.
Qed.

(** The actions eat the tokens that the events eat. *)
Lemma Skel_eaten es sk : Skel es sk -> acts_eaten sk = eaten (shapes es).
Proof.
  induction 1 as [|es sk k HS IH Hk|es sk k r HS IH|es sk HS IH|es sk i k q k' HS IH Hi _ _ _
                 |es A i c B k k' HS IH Hi _ Hk' _|es A i c B k HS IH Hi _].
  - done.
  - rewrite acts_eaten_app, shapes_app, eaten_app, IH. simpl. by rewrite Hk.
  - by rewrite acts_eaten_app, shapes_app, eaten_app, IH.
  - by rewrite acts_eaten_app, shapes_app, eaten_app, IH.
  - rewrite IH. symmetry. by eapply eaten_insert_start.
  - rewrite shapes_app, eaten_app. simpl. rewrite Hk', app_nil_r.
    erewrite eaten_insert_start by exact Hi. rewrite <-IH, !acts_eaten_app. done.
  - erewrite eaten_insert_start by exact Hi. by rewrite <-IH, !acts_eaten_app.
Qed.

(** ** The rules of the marker operations *)

Section Rules.
Context {P R : Type} {CP : MarkerEventContainer P} {CL : MarkerEventContainerLaws P R}.
Context {inv : R -> list (LuaTokenKind * SourceRange) -> Prop} {pos : R -> nat}.
Implicit Types (b s : P).
Abbreviation Ok_ := (OkState inv).
Abbreviation AtF_ := (AtF inv pos).
Abbreviation At_ := (At inv pos).
Abbreviation Expr_ := (Expr inv pos).

(** What is known of a node that was just opened. *)
Definition fresh (q : Status) : Status :=
  match q with Dirty => Dirty | _ => Any end.

(** What is known of a node once a child of class [c] was closed in it. *)
Definition closed (c : NodeClass) (q : Status) : Status :=
  match q, c with Dirty, _ => Dirty | _, CComment => Tokens | _, _ => Solid end.

Lemma marked_app n es es' m : marked n es m -> marked n (es ++ es') m.
Proof.
  intros [Hn Hm]. split; [done|]. rewrite shapes_app. by apply lookup_app_l_Some.
Qed.

Lemma unlinked_app es es' i : unlinked es i -> unlinked (es ++ es') i.
Proof. intros [k Hk]. exists k. by apply lookup_app_l_Some. Qed.

(** Appending events that eat nothing, in general. *)
Lemma AtF_append b g ms ms' (F F' : list Tree -> Prop) j s s' es' :
  AtF_ b g ms F j s ->
  get_events s' = get_events s ++ es' -> Kept s s' -> eaten (shapes es') = [] ->
  events_ok (get_events s') ->
  Forall (marked (length (get_events b)) (get_events s')) ms' -> NoDup ms'.*1 ->
  get_mark_level b + length ms' <= get_mark_level s' ->
  (no_error b s ->
     Forall (fun m => unlinked (get_events s') m.1) ms' /\
     forall sk0 sk f, Skel (get_events s) (sk0 ++ sk) -> Ext g ms sk f -> F f ->
     exists sk' f', Skel (get_events s') (sk0 ++ sk') /\ Ext g ms' sk' f' /\ F' f') ->
  AtF_ b g ms' F' j s'.
Proof.
  intros [Hok Hsh Hm Hd Hl He Hp Hc] Hev [Hr Herr] Hea Hevok Hm' Hd' Hl' Hcl.
  split; try done.
  - eapply OkState_kept; [done|done| |done].
    unfold eaten_of. by rewrite Hev, shapes_app, eaten_app, Hea, app_nil_r.
  - rewrite Hev, shapes_app. by apply prefix_app_r.
  - by rewrite Herr.
  - unfold at_pos. by rewrite Hr.
  - unfold no_error. rewrite Herr. intros Heq. destruct (Hc Heq) as [Hpre Hun Hsk].
    destruct (Hcl Heq) as [Hun' Hsk']. split; [rewrite Hev; by apply prefix_app_r|done|].
    intros sk0 H0. destruct (Hsk _ H0) as (sk & f & ? & ? & ?). by eapply Hsk'.
Qed.

Lemma events_ok_start es k : events_ok es -> events_ok (es ++ [NodeStart k 0]).
Proof. intros Hes. apply events_ok_snoc; [done|]. by intros ? ? [= _ <-]. Qed.

Lemma events_ok_other es e :
  events_ok es -> (forall k q, e <> NodeStart k q) -> events_ok (es ++ [e]).
Proof. intros Hes He. apply events_ok_snoc; [done|]. intros k q Heq. by destruct (He k q). Qed.

Lemma eaten_start k q : eaten (shapes [NodeStart k q]) = [].
Proof. simpl. by destruct (k =k SkNone). Qed.

(** *** [mark] *)

Lemma marked_new n es kind :
  (kind =k SkNone) = false -> n <= length es ->
  marked n (es ++ [NodeStart kind 0]) (length es, node_class kind).
Proof.
  intros Hk Hn. split; [done|]. simpl. rewrite shapes_lookup, list_lookup_middle by done.
  simpl. by rewrite Hk.
Qed.

Lemma marked_fresh b g ms F j s m :
  AtF_ b g ms F j s -> m ∈ ms -> m.1 < length (get_events s).
Proof.
  intros [_ _ Hm _ _ _ _ _] Hin. rewrite Forall_forall in Hm.
  destruct (Hm m) as [_ Hs]; [by apply list_elem_of_In|].
  apply lookup_lt_Some in Hs. by rewrite length_shapes in Hs.
Qed.

Lemma AtF_length b g ms F j s :
  AtF_ b g ms F j s -> length (get_events b) <= length (get_events s).
Proof. intros [_ Hsh _ _ _ _ _ _]. apply prefix_length in Hsh. by rewrite !length_shapes in Hsh. Qed.

Lemma mark_open b g ms (F F' : list Tree -> Prop) j s s' kind :
  AtF_ b g ms F j s -> (kind =k SkNone) = false ->
  get_events s' = get_events s ++ [NodeStart kind 0] -> Kept s s' ->
  get_mark_level s' = S (get_mark_level s) ->
  (no_error b s -> forall sk f, Ext g ms sk f -> F f ->
     Ext g ((length (get_events s), node_class kind) :: ms)
       (sk ++ [AStart (length (get_events s)) (node_class kind)]) [] /\ F' []) ->
  AtF_ b g ((length (get_events s), node_class kind) :: ms) F' j s'.
Proof.
  intros HA Hk Hev HK Hl HE. pose proof (AtF_length _ _ _ _ _ _ HA) as Hlen.
  assert (Hnin : (length (get_events s)) ∉ ms.*1).
  { intros (m & Heq & Hin)%list_elem_of_fmap.
    pose proof (marked_fresh _ _ _ _ _ _ _ HA Hin). lia. }
  pose proof HA as [Hok Hsh Hm Hd Hlv He Hp Hc].
  eapply AtF_append; [exact HA|exact Hev|exact HK|apply eaten_start|..].
  - rewrite Hev. apply events_ok_start, Hok.
  - rewrite Hev. constructor; [by apply marked_new|].
    eapply Forall_impl; [|exact Hm]. intros m. by apply marked_app.
  - by constructor.
  - rewrite Hl. simpl. lia.
  - intros Heq. destruct (Hc Heq) as [_ Hun _]. rewrite Hev. split.
    + constructor; [exists kind; by apply list_lookup_middle|].
      eapply Forall_impl; [|exact Hun]. intros m. by apply unlinked_app.
    + intros sk0 sk f HS HX HF. destruct (HE Heq _ _ HX HF) as [HX' HF'].
      eexists _, []. split_and!; [|exact HX'|done].
      rewrite app_assoc. by constructor.
Qed.

Lemma wp_mark_first kind g s (Q : Marker -> P -> Prop) :
  Ok_ s -> (kind =k SkNone) = false -> (node_class kind = CBlock -> g = true) ->
  (forall m s', rest s' = rest s -> errors_of s' = errors_of s ->
     get_events s' = get_events s ++ [NodeStart kind 0] ->
     position m = length (get_events s) ->
     At_ s g [(position m, node_class kind)] Any 0 s' -> Q m s') ->
  wp (mark kind) Q s.
Proof.
  intros Hok Hk Hg HQ. apply wp_mark. intros s' HK Hev Hl.
  apply HQ; [apply HK|apply HK|done|done|].
  eapply (mark_open s g [] (fun f => f = [])); try done; [by apply AtF_refl|].
  intros _ sk f HX ->. split; [|done]. inversion HX; subst. by apply (Ext_first g _ _ []).
Qed.

Lemma wp_mark_more kind b g m0 ms q j s (Q : Marker -> P -> Prop) :
  At_ b g (m0 :: ms) q j s -> (kind =k SkNone) = false ->
  (node_class kind = CBlock -> rank Solid <= rank q) ->
  (forall m s', rest s' = rest s -> errors_of s' = errors_of s ->
     At_ b g ((position m, node_class kind) :: m0 :: ms) (fresh q) j s' -> Q m s') ->
  wp (mark kind) Q s.
Proof.
  intros HA Hk Hg HQ. apply wp_mark. intros s' HK Hev Hl.
  apply HQ; [apply HK|apply HK|].
  eapply mark_open; try done. intros _ sk f HX HF. split; [|by destruct q].
  eapply (Ext_more g m0 ms sk f _ _ []); [done| |done].
  intros Hc. specialize (Hg Hc). destruct q; simpl in *; try lia; done.
Qed.

(** *** [complete] *)

Lemma prefix_insert {A} (l l' : list A) i x :
  l `prefix_of` l' -> length l <= i -> l `prefix_of` <[i := x]> l'.
Proof. intros [t ->] Hi. rewrite insert_app_r_alt by done. by apply prefix_app_r. Qed.

(** The start of an open marker is disarmed: [complete] of an empty node,
    [undo].  [HE] shows what is left when no error was reported. *)
Lemma AtF_disarm b g (p : nat) c ms (F F' : list Tree -> Prop) j s s' k q :
  AtF_ b g ((p, c) :: ms) F j s ->
  get_events s !! p = Some (NodeStart k q) ->
  get_events s' = <[p := NodeStart SkNone q]> (get_events s) -> Kept s s' ->
  get_mark_level s' = get_mark_level s ->
  (no_error b s -> forall sk0 sk f, Skel (get_events s) (sk0 ++ sk) -> Ext g ((p, c) :: ms) sk f ->
     F f -> q = 0 -> exists sk' f', Skel (get_events s') (sk0 ++ sk') /\ Ext g ms sk' f' /\ F' f') ->
  AtF_ b g ms F' j s'.
Proof.
  intros [Hok Hsh Hm Hd Hl He Hp Hc] Hk Hev [Hr Herr] Hlv HE.
  inversion Hm as [|? ? [Hpb Hpo] Hms]; subst. simpl in Hpb, Hpo, Hl.
  simpl in Hd. inversion Hd as [|? ? Hnin Hd']; subst.
  assert (forall m, m ∈ ms -> p <> m.1) as Hne.
  { intros m Hin Heq. apply Hnin. rewrite Heq. by apply list_elem_of_fmap_2. }
  split; try done.
  - eapply OkState_kept; [done|done| |].
    + unfold eaten_of. rewrite Hev. by eapply eaten_insert_start.
    + rewrite Hev. eapply events_ok_insert; [apply Hok|done].
  - rewrite Hev, shapes_insert. destruct Hsh as [l Hsh]. rewrite Hsh.
    rewrite insert_app_r_alt by (by rewrite length_shapes). by apply prefix_app_r.
  - apply Forall_forall. intros m Hin. rewrite Forall_forall in Hms.
    destruct (Hms m Hin) as [Hmb Hmo]. split; [done|].
    rewrite Hev, shapes_insert, list_lookup_insert_ne; [done|]. by apply Hne, list_elem_of_In.
  - rewrite Hlv. lia.
  - by rewrite Herr.
  - unfold at_pos. by rewrite Hr.
  - unfold no_error. rewrite Herr. intros HN. destruct (Hc HN) as [Hpre Hun Hsk].
    inversion Hun as [|? ? [k' Hk'] Hun']; subst. simpl in Hk'.
    rewrite Hk in Hk'. injection Hk' as <- ->. split.
    + rewrite Hev. by apply prefix_insert.
    + apply Forall_forall. intros m Hin. rewrite Forall_forall in Hun'.
      destruct (Hun' m Hin) as [k' Hk']. exists k'. rewrite Hev, list_lookup_insert_ne; [done|].
      by apply Hne, list_elem_of_In.
    + intros sk0 H0. destruct (Hsk _ H0) as (sk & f & HS & HX & HF). by eapply HE.
Qed.

(** *** [undo] *)

(** The node is dissolved: what was eaten in it belongs to the node around. *)
Lemma wp_undo b g m c ms q j s (Q : CompleteMarker -> P -> Prop) :
  At_ b g ((position m, c) :: ms) q j s ->
  (no_error b s -> get_events s !! S (position m) <> Some Trivia) ->
  (forall cm s', rest s' = rest s -> errors_of s' = errors_of s -> At_ b g ms q j s' -> Q cm s') ->
  wp (undo m) Q s.
Proof.
  intros HA Ht HQ. pose proof HA as [_ _ Hm _ _ _ _ _].
  inversion Hm as [|? ? [Hpb Hpo] _]; subst. simpl in Hpb, Hpo.
  destruct (shape_start _ _ _ Hpo) as (k & q' & Hpk & _ & _).
  unfold undo. apply wp_bind. eapply wp_update_start; [done|]. intros s' HK Hev Hlv.
  apply wp_ret, HQ; [apply HK|apply HK|].
  eapply AtF_disarm; [exact HA|done|done|done|done|].
  intros HE sk0 sk f HS HX HF ->. inversion HX; subst.
  - exists (flats f), f. split_and!; [|by apply Ext_base, goods_mono|done].
    rewrite Hev. by eapply Skel_none; [exact HS|exact Hpk|apply Ht].
  - exists (sk1 ++ flats f), (f0 ++ f). split_and!.
    + rewrite app_assoc in HS |- *. rewrite Hev. by eapply Skel_none; [exact HS|exact Hpk|apply Ht].
    + apply Ext_app; [done|]. by apply goods_mono.
    + destruct q; simpl in *; try done; rewrite existsb_app, HF; by rewrite orb_true_r.
Qed.

Definition completed (ms : list OpenMark) (p : nat) (c : NodeClass) (f : list Tree) : Prop :=
  exists f0 cs, f = f0 ++ [TNode p c cs] /\ (ms = [] -> f0 = []).

Lemma AtF_close b g (p : nat) c ms q j s s' lvl :
  At_ b g ((p, c) :: ms) q j s -> rank Tokens <= rank q ->
  get_events s' = get_events s ++ [NodeEnd] -> Kept s s' ->
  get_mark_level s = S lvl -> get_mark_level s' = lvl ->
  AtF_ b g ms (fun f => holds (match q with Dirty => Dirty | _ => Any end) f
                        /\ completed ms p c f) j s'.
Proof.
  intros HA Hq Hev HK Hlv Hlv'. pose proof HA as [Hok Hsh Hm Hd Hl He Hp Hc].
  simpl in Hl. simpl in Hd. inversion Hd; subst. inversion Hm; subst.
  eapply AtF_append; [exact HA|exact Hev|exact HK|done|..]; try done.
  - rewrite Hev. apply events_ok_other; [apply Hok|done].
  - rewrite Hev. eapply Forall_impl; [|eassumption]. intros m. by apply marked_app.
  - lia.
  - intros Heq. destruct (Hc Heq) as [_ Hun _]. inversion Hun; subst. split.
    + rewrite Hev. eapply Forall_impl; [|eassumption]. intros m. by apply unlinked_app.
    + intros sk0 sk f HS HX HF. destruct (Ext_close _ _ _ _ _ _ HX) as (f0 & HX' & Hf0).
      { change (holds Tokens f). by eapply holds_mono. }
      exists (sk ++ [AEnd]), (f0 ++ [TNode p c f]). rewrite Hev, app_assoc.
      split_and!; [by constructor|done| |].
      * by destruct q.
      * by exists f0, f.
Qed.

(** A node with a token is not empty. *)
Lemma not_last b g (p : nat) c ms q j s :
  At_ b g ((p, c) :: ms) q j s -> rank Tokens <= rank q ->
  length (get_events s) = p + 1 -> ~ no_error b s.
Proof.
  intros [Hok Hsh Hm Hd Hl He Hp Hc] Hq Hlen HE. pose proof HE as [_ [sk0 H0]].
  destruct (Hc HE) as [_ Hun Hsk]. inversion Hm as [|? ? [_ Hpo] _]; subst.
  destruct (Hsk _ H0) as (sk & f & HS & HX & HF). simpl in Hpo.
  destruct (shape_start _ _ _ Hpo) as (k & q' & Hpk & Hk & _).
  assert (Hne : f <> []).
  { intros ->. pose proof (holds_mono q Tokens g _ sk [] Hq HX HF). done. }
  destruct (Skel_last _ _ k q' HS) as [c' Hl'].
  - rewrite last_lookup, Hlen, Nat.add_1_r. done.
  - done.
  - rewrite last_app in Hl'. destruct (list.last sk) as [x|] eqn:Hx.
    + injection Hl' as ->. by eapply (Ext_last _ _ _ _ _ _ HX Hne).
    + apply last_None in Hx as ->. inversion HX; subst.
      match goal with Ha : ?a ++ _ :: _ = [] |- _ => by destruct a end.
Qed.

Lemma wp_complete_gen b g m c ms q j s (Q : CompleteMarker -> P -> Prop) :
  At_ b g ((position m, c) :: ms) q j s ->
  (rank Tokens <= rank q \/ ~ no_error b s) ->
  (forall cm s', rest s' = rest s -> errors_of s' = errors_of s ->
     is_start (get_events s') (start cm) ->
     (no_error b s -> start cm = position m /\ get_events s' = get_events s ++ [NodeEnd]) ->
     AtF_ b g ms (fun f => holds (match q with Dirty => Dirty | _ => Any end) f
                           /\ completed ms (position m) c f) j s' -> Q cm s') ->
  wp (complete m) Q s.
Proof.
  intros HA Hq HQ. pose proof HA as [Hok _ Hm _ Hl _ _ _].
  inversion Hm as [|? ? [_ Hpo] _]; subst. simpl in Hpo, Hl.
  destruct (shape_start _ _ _ Hpo) as (k & q' & Hpk & Hk & Hc).
  unfold complete. apply wp_bind, wp_gets. rewrite Hpk. apply wp_bind, wp_gets.
  destruct (Nat.eqb_spec (length (get_events s)) (position m + 1)) as [Hlen|Hlen].
  - assert (~ no_error b s) as Hne.
    { destruct Hq as [Hq|]; [by eapply not_last|done]. }
    apply wp_bind. eapply wp_update_start; [done|]. intros s' HK Hev Hlv.
    apply wp_ret, HQ; [apply HK|apply HK| |done|].
    + simpl. rewrite Hev. apply is_start_insert; [by exists k, q'|apply Hok].
    + by eapply AtF_disarm.
  - destruct (get_mark_level s) as [|lvl] eqn:Hlv; [lia|].
    apply wp_bind. eapply wp_push_node_end; [done|]. intros s' HK Hev Hlv'.
    apply wp_ret, HQ; [apply HK|apply HK| |done|].
    + simpl. rewrite Hev. apply is_start_app. by exists k, q'.
    + destruct (decide (rank Tokens <= rank q)) as [Hr|Hr].
      * by eapply AtF_close.
      * destruct Hq as [Hq|Hq]; [done|].
        assert (At_ b g ((position m, c) :: ms) Dirty j s) as HA' by by eapply At_dirty.
        eapply (AtF_weaken inv pos _ _ _ (fun f => holds Dirty f /\ _)); [|by intros f [[] _]|done].
        eapply (AtF_close b g _ c ms Dirty); [exact HA'|simpl; lia|done..].
Qed.

Lemma completed_solid ms p c f q :
  rank Tokens <= rank q ->
  holds (match q with Dirty => Dirty | _ => Any end) f -> completed ms p c f ->
  goods true f = true -> holds (closed c q) f.
Proof.
  intros Hq HF (f0 & cs & -> & _) Hg.
  assert (existsb has_token (f0 ++ [TNode p c cs]) = true) as Ht.
  { rewrite goods_app in Hg. apply andb_true_iff in Hg as [_ Hg]. cbn [goods] in Hg.
    rewrite good_node, !andb_true_iff in Hg. destruct Hg as [[_ [Hg _]] _].
    rewrite existsb_app. apply orb_true_iff. right. simpl. by rewrite Hg. }
  destruct q, c; simpl in *; try done; try lia;
    rewrite existsb_app; simpl; by rewrite orb_true_r.
Qed.

Lemma Ext_goods g ms sk f : Ext g ms sk f -> goods true f = true.
Proof.
  assert (Hm : forall g' f', goods g' f' = true -> goods true f' = true).
  { intros [] f' Hf; [done|by apply goods_mono]. }
  intros HX. inversion HX; eauto.
Qed.

Lemma AtF_closed b g ms p c q j s :
  rank Tokens <= rank q ->
  AtF_ b g ms (fun f => holds (match q with Dirty => Dirty | _ => Any end) f
                        /\ completed ms p c f) j s ->
  At_ b g ms (closed c q) j s.
Proof.
  intros Hq [Hok Hsh Hm Hd Hl He Hp Hc]. split; try done.
  intros HE. destruct (Hc HE) as [Hpre Hun Hsk]. split; try done.
  intros sk0 H0. destruct (Hsk _ H0) as (sk & f & HS & HX & [HF Hcp]). exists sk, f.
  split_and!; [done|done|]. eapply completed_solid; [done|done|done|by eapply Ext_goods].
Qed.

(** The rule for a node that has a token, or in a parse with errors. *)
Lemma wp_complete b g m c ms q j s (Q : CompleteMarker -> P -> Prop) :
  At_ b g ((position m, c) :: ms) q j s -> rank Tokens <= rank q ->
  (forall cm s', rest s' = rest s -> errors_of s' = errors_of s ->
     At_ b g ms (closed c q) j s' -> Q cm s') ->
  wp (complete m) Q s.
Proof.
  intros HA Hq HQ. eapply wp_complete_gen; [exact HA|by left|].
  intros cm s' Hr He _ _ HA'. apply HQ; [done|done|by eapply AtF_closed].
Qed.

(** The rule for the one node of an expression. *)
Lemma wp_complete_expr b m q j s (Q : CompleteMarker -> P -> Prop) :
  At_ b false [(position m, COther)] q j s -> rank Tokens <= rank q ->
  (forall cm s', rest s' = rest s -> errors_of s' = errors_of s ->
     (q = Dirty -> ~ no_error b s') -> Expr_ b j cm s' -> Q cm s') ->
  wp (complete m) Q s.
Proof.
  intros HA Hq HQ. pose proof HA as [_ _ Hm _ _ _ _ Hc].
  eapply wp_complete_gen; [exact HA|by left|].
  intros cm s' Hr He Hst Hcl HA'.
  assert (no_error b s' -> no_error b s) as Hne.
  { unfold no_error. by rewrite He. }
  apply HQ; [done|done| |].
  { intros -> HE. destruct (Hc (Hne HE)) as [_ _ Hsk]. destruct HE as [_ [sk0 H0]].
    by destruct (Hsk _ H0) as (? & ? & _ & _ & []). }
  split; [|done|].
  - pose proof HA' as [Hok Hsh Hm' Hd Hl He' Hp Hc']. split; try done.
    intros HE. destruct (Hc' HE) as [Hpre Hun Hsk]. split; try done.
    intros sk0 H0. destruct (Hsk _ H0) as (sk & f & HS & HX & [HF (f0 & cs & -> & Hf0)]).
    rewrite (Hf0 eq_refl) in HX. exists sk, [TNode (position m) COther cs].
    split_and!; [done|done|]. exists cs, []. by destruct (Hcl (Hne HE)) as [-> _].
  - intros HE. destruct (Hcl (Hne HE)) as [-> Hev].
    inversion Hm as [|? ? [Hpb Hpo] _]; subst. simpl in Hpb, Hpo. split; [done|].
    destruct (Hc (Hne HE)) as [_ Hun _]. inversion Hun as [|? ? [k Hk] _]; subst. simpl in Hk.
    destruct (shape_start _ _ _ Hpo) as (k' & q' & Hpk & Hk' & _).
    exists k. rewrite Hev. split; [by apply lookup_app_l_Some|]. congruence.
Qed.

(** An empty node disappears. *)
Lemma wp_complete_empty b g m c q j kind s (Q : CompleteMarker -> P -> Prop) :
  At_ b g [(position m, c)] q j s ->
  get_events s = get_events b ++ [NodeStart kind 0] ->
  position m = length (get_events b) ->
  (forall cm s', rest s' = rest s -> errors_of s' = errors_of s ->
     AtF_ b g [] (fun f => f = []) j s' -> Q cm s') ->
  wp (complete m) Q s.
Proof.
  intros [Hok Hsh Hm Hd Hl He Hp Hc] Hev Hpos HQ.
  assert (get_events s !! position m = Some (NodeStart kind 0)) as Hpk.
  { rewrite Hev, Hpos. by apply list_lookup_middle. }
  unfold complete. apply wp_bind, wp_gets. rewrite Hpk. apply wp_bind, wp_gets.
  rewrite Hev at 1. rewrite length_app, Hpos, Nat.eqb_refl.
  apply wp_bind. eapply wp_update_start; [by rewrite <-Hpos|]. intros s' HK Hev' Hlv.
  assert (get_events s' = get_events b ++ [NodeStart SkNone 0]) as Hev''.
  { rewrite Hev', Hev, insert_app_r_alt, Nat.sub_diag by done. done. }
  destruct HK as [Hr Herr]. simpl in Hl.
  apply wp_ret, HQ; [done|done|]. split; simpl; try (rewrite ?Herr; done); try lia.
  - eapply OkState_kept; [done|done| |].
    + unfold eaten_of. rewrite Hev'. eapply eaten_insert_start. by rewrite <-Hpos.
    + rewrite Hev'. eapply events_ok_insert; [apply Hok|by rewrite <-Hpos].
  - rewrite Hev'', shapes_app. by apply prefix_app_r.
  - constructor.
  - unfold at_pos. by rewrite Hr.
  - intros HE. split; [rewrite Hev''; by apply prefix_app_r|constructor|].
    intros sk0 H0. exists [], []. split_and!; [|by apply (Ext_base g [])|done].
    destruct (shape_start (get_events s) (position m) c) as (k & q' & Hk & Hkn & _).
    { inversion Hm as [|? ? [_ Hpo] _]; subst. exact Hpo. }
    rewrite Hpk in Hk. injection Hk as <- <-.
    rewrite Hev', Hev. eapply (Skel_none _ sk0 _ _ []).
    + by constructor.
    + by apply list_lookup_middle.
    + rewrite lookup_ge_None_2; [done|]. rewrite length_app. simpl. lia.
Qed.

(** *** [set_kind] *)

Lemma shapes_same es i k q k' q' :
  es !! i = Some (NodeStart k q) -> shape (NodeStart k' q') = shape (NodeStart k q) ->
  shapes (<[i := NodeStart k' q']> es) = shapes es.
Proof.
  intros Hi Hs. rewrite shapes_insert, Hs. apply list_insert_id.
  by rewrite shapes_lookup, Hi.
Qed.

Lemma shape_class k q c :
  (k =k SkNone) = false -> node_class k = c -> shape (NodeStart k q) = SOpen c.
Proof. intros Hk <-. simpl. by rewrite Hk. Qed.

Lemma unlinked_insert es i k j :
  unlinked es j -> (i = j -> is_start es i) -> unlinked (<[i := NodeStart k 0]> es) j.
Proof.
  intros [k' Hj] Hi. destruct (decide (i = j)) as [->|Hne].
  - exists k. apply list_lookup_insert_eq, is_start_lt, Hi, eq_refl.
  - exists k'. by rewrite list_lookup_insert_ne.
Qed.

Lemma wp_set_kind kind b g ms m c q j s (Q : unit -> P -> Prop) :
  At_ b g ms q j s -> (position m, c) ∈ ms -> (kind =k SkNone) = false ->
  node_class kind = c ->
  (forall s', rest s' = rest s -> errors_of s' = errors_of s -> At_ b g ms q j s' -> Q tt s') ->
  wp (set_kind m kind) Q s.
Proof.
  intros [Hok Hsh Hm Hd Hl He Hp Hc] Hin Hk Hcl HQ.
  assert (marked (length (get_events b)) (get_events s) (position m, c)) as [Hpb Hpo].
  { rewrite Forall_forall in Hm. by apply Hm, list_elem_of_In. }
  simpl in Hpb, Hpo. destruct (shape_start _ _ _ Hpo) as (k & q' & Hpk & Hkn & Hcl').
  eapply wp_update_start; [done|]. intros s' [Hr Herr] Hev Hlv.
  assert (shapes (get_events s') = shapes (get_events s)) as Hss.
  { rewrite Hev. eapply shapes_same; [done|]. by rewrite !(shape_class _ _ c). }
  apply HQ; [done|done|]. split; simpl; rewrite ?Herr; try done.
  - eapply OkState_kept; [done|done|by unfold eaten_of; rewrite Hss|].
    rewrite Hev. eapply events_ok_insert; [apply Hok|done].
  - by rewrite Hss.
  - eapply Forall_impl; [|exact Hm]. intros m' [Hn' Hm']. split; [done|]. by rewrite Hss.
  - by rewrite Hlv.
  - unfold at_pos. by rewrite Hr.
  - unfold no_error. rewrite Herr. intros HE. destruct (Hc HE) as [Hpre Hun Hsk].
    assert (q' = 0) as ->.
    { rewrite Forall_forall in Hun. destruct (Hun (position m, c)) as [k' Hk'].
      - by apply list_elem_of_In.
      - simpl in Hk'. congruence. }
    split.
    + rewrite Hev. by apply prefix_insert.
    + rewrite Hev. eapply Forall_impl; [|exact Hun]. intros m' Hm'.
      apply unlinked_insert; [done|]. intros _. by exists k, 0.
    + intros sk0 H0. destruct (Hsk _ H0) as (sk & f & HS & HX & HF). exists sk, f.
      split_and!; [|done|done]. rewrite Hev. eapply Skel_kind; [done|done|done|done|].
      by rewrite Hcl, Hcl'.
Qed.

(** *** [precede] *)

Lemma wp_precede kind b j cm s (Q : Marker -> P -> Prop) :
  Expr_ b j cm s -> (kind =k SkNone) = false -> node_class kind = COther ->
  (forall m s', rest s' = rest s -> errors_of s' = errors_of s ->
     At_ b false [(position m, COther)] Solid j s' -> Q m s') ->
  wp (precede cm kind) Q s.
Proof.
  intros [HA Hst Hun] Hk Hc HQ. pose proof (AtF_length _ _ _ _ _ _ HA) as Hlen.
  destruct HA as [Hok Hsh Hm Hd Hl He Hp Hcl]. simpl in Hl.
  pose proof (is_start_lt _ _ Hst) as Hlt. pose proof Hst as (k & q & Hpk).
  unfold precede. apply wp_bind, wp_mark. intros s1 [Hr1 He1] Hev1 Hl1.
  apply wp_bind. eapply (wp_update_start _ _ _ k q).
  { rewrite Hev1. by apply lookup_app_l_Some. }
  intros s2 [Hr2 He2] Hev2 Hl2. apply wp_bind, wp_push_event. intros s3 [Hr3 He3] Hev3 Hl3.
  simpl in Hev2. set (n := length (get_events s)) in *.
  assert (get_events s3 = <[start cm := NodeStart k n]> (get_events s)
                          ++ [NodeStart kind 0; Trivia]) as Hev.
  { rewrite Hev3, Hev2, Hev1, insert_app_l by done. by rewrite <-app_assoc. }
  assert (shapes (get_events s3) = shapes (get_events s) ++ [SOpen COther; STrivia]) as Hss.
  { rewrite Hev, shapes_app. f_equal; [by eapply shapes_same|].
    unfold shapes. rewrite fmap_cons. by rewrite (shape_class _ _ COther). }
  apply wp_ret, HQ; [congruence|congruence|]. simpl.
  assert (errors_of s3 = errors_of s) as Herr by congruence.
  split; simpl; rewrite ?Herr; try done.
  - eapply OkState_kept; [done|congruence| |].
    + unfold eaten_of. by rewrite Hss, eaten_app, app_nil_r.
    + rewrite Hev3. apply events_ok_other; [|done]. rewrite Hev2, Hev1.
      pose proof (events_ok_start _ kind (ok_events _ _ Hok)) as [HL H0].
      assert (is_start (get_events s ++ [NodeStart kind 0]) (start cm)) by by apply is_start_app.
      split; [|by apply is_start_insert]. apply links_ok_insert; [done|done|].
      right. split; [done|]. exists kind, 0. by apply list_lookup_middle.
  - rewrite Hss. by apply prefix_app_r.
  - constructor; [|constructor]. split; [done|]. simpl. rewrite Hss, list_lookup_middle; [done|].
    by rewrite length_shapes.
  - repeat constructor. by apply not_elem_of_nil.
  - lia.
  - unfold at_pos in *. rewrite Hr3, Hr2, Hr1. done.
  - unfold no_error. rewrite Herr. intros HE. destruct (Hcl HE) as [Hpre _ Hsk].
    destruct (Hun HE) as (Hpb & k' & Hk' & Hkn). rewrite Hpk in Hk'. injection Hk' as <- ->.
    split.
    + rewrite Hev. by apply prefix_app_r, prefix_insert.
    + constructor; [|constructor]. exists kind. simpl. rewrite Hev.
      apply list_lookup_middle. by rewrite length_insert.
    + intros sk0 H0. destruct (Hsk _ H0) as (sk & f & HS & HX & (cs & f' & ->)).
      inversion HX; subst. unfold flats in HS. simpl in HS.
      exists (AStart n COther :: flats (TNode (start cm) COther cs :: f')), (TNode (start cm) COther cs :: f').
      split_and!; [|by apply Ext_first|done]. rewrite Hev.
      pose proof (Skel_precede _ sk0 _ COther _ k kind HS Hpk Hkn Hk Hc) as HP.
      rewrite Hc in HP. exact HP.
Qed.

(** *** Errors *)

Lemma At_error b g ms q j s s' e :
  At_ b g ms q j s -> rest s' = rest s -> get_events s' = get_events s ->
  get_mark_level s' = get_mark_level s -> errors_of s' = errors_of s ++ [e] ->
  At_ b g ms Dirty j s'.
Proof.
  intros [Hok Hsh Hm Hd Hl He Hp Hc] Hr Hev Hlv Herr. split; rewrite ?Hev, ?Hlv; try done.
  - destruct Hok as [Hi Hes]. split; unfold eaten_of; by rewrite ?Hr, ?Hev.
  - rewrite Herr. by apply prefix_app_r.
  - unfold at_pos. by rewrite Hr.
  - intros [Heq _]. rewrite Herr in Heq. destruct He as [l He]. rewrite He, <-app_assoc in Heq.
    rewrite <-(app_nil_r (errors_of b)) in Heq at 2. apply app_inv_head in Heq. by destruct l.
Qed.

(** Closing by count after a failed statement. *)
Lemma wp_push_node_ends n b g j s (Q : unit -> P -> Prop) :
  At_ b g [] Dirty j s -> get_mark_level b + n <= get_mark_level s ->
  (forall s', rest s' = rest s -> errors_of s' = errors_of s ->
     At_ b g [] Dirty j s' -> Q tt s') ->
  wp (push_node_ends n) Q s.
Proof.
  revert s. induction n as [|n IH]; intros s HA Hn HQ; simpl; [by apply wp_ret, HQ|].
  destruct (get_mark_level s) as [|lvl] eqn:Hlv; [lia|].
  apply wp_bind. eapply wp_push_node_end; [done|]. intros s1 HK Hev Hlv1.
  apply IH; [|lia|].
  - eapply AtF_append; [exact HA|exact Hev|exact HK|done|..]; try done.
    + rewrite Hev. apply events_ok_other; [apply HA|done].
    + constructor.
    + simpl. lia.
  - destruct HK as [Hr He]. intros s' Hr' He' HA'. apply HQ; [congruence|congruence|done].
Qed.

(** *** Tokens *)

Definition eat_events (ts : list (LuaTokenKind * SourceRange)) : list MarkEvent :=
  (fun t => EatToken t.1 t.2) <$> ts.
Definition eat_trees (ts : list (LuaTokenKind * SourceRange)) : list Tree :=
  (fun t => TTok t.1 t.2) <$> ts.

Lemma Skel_eat es sk ts : Skel es sk -> Skel (es ++ eat_events ts) (sk ++ flats (eat_trees ts)).
Proof.
  revert es sk. induction ts as [|t ts IH]; intros es sk HS.
  { unfold flats. simpl. by rewrite !app_nil_r. }
  pose proof (IH _ _ (Skel_tok _ _ t.1 t.2 HS)) as HI. rewrite <-!app_assoc in HI. exact HI.
Qed.

Lemma eaten_eat ts : eaten (shapes (eat_events ts)) = ts.
Proof. induction ts as [|[k r] ts IH]; simpl; [done|]. f_equal. exact IH. Qed.

Lemma goods_eat ts : goods false (eat_trees ts) = true.
Proof. apply goods_mono. induction ts as [|t ts IH]; simpl; [done|]. by apply goods_mono. Qed.

Lemma AtF_eat ts n s s' :
  get_events s' = get_events s ++ eat_events ts -> get_mark_level s' = get_mark_level s ->
  errors_of s' = errors_of s -> Ok_ s' -> at_pos pos s + n <= at_pos pos s' ->
  AtF_ s false [] (fun f => f = eat_trees ts) n s'.
Proof.
  intros Hev Hlv Herr Hok Hp. split; simpl; try done; rewrite ?Herr; try done.
  - rewrite Hev, shapes_app. by apply prefix_app_r.
  - constructor.
  - rewrite Hlv. lia.
  - intros _. split; [rewrite Hev; by apply prefix_app_r|constructor|].
    intros sk0 H0. exists (flats (eat_trees ts)), (eat_trees ts). rewrite Hev.
    split_and!; [by apply Skel_eat|apply Ext_base, goods_eat|done].
Qed.
End Rules.
