(* ===== verification/Rules.v ===== *)
(** * Rules for statements that keep the assertion

    Most statements of a grammar leave an assertion of [Discipline.v] as it is:
    whatever they add is complete.  [Keeps] says so of a statement on its own, its
    rules follow the statements' structure, and the loop rules turn progress over
    the text into enough fuel.  Both grammars use them. *)

From S2P Require Import Prelude Kinds Text Marker Discipline.
Local Open Scope prog_scope.

(** ** Knowing that the cursor is on a token *)

Lemma not_eof_true (f : LuaTokenKind -> bool) c :
  f c = true -> f TkEof = false -> (c =t TkEof) = false.
Proof. intros Hc Hf. destruct (c =t TkEof) eqn:He; [|done]. apply token_eqb_eq in He as ->. congruence. Qed.

Lemma not_eof_false (f : LuaTokenKind -> bool) c :
  f c = false -> f TkEof = true -> (c =t TkEof) = false.
Proof. intros Hc Hf. destruct (c =t TkEof) eqn:He; [|done]. apply token_eqb_eq in He as ->. congruence. Qed.

(** Proves [(c =t TkEof) = false] from a test of [c] among the hypotheses. *)
Ltac not_eof_here :=
  match goal with
  | H : (?c =t TkEof) = false |- (?c =t TkEof) = false => exact H
  | H : ?e = true |- (?c =t TkEof) = false =>
      match e with context [c] =>
        let p := eval pattern c in e in
        match p with ?f _ => exact (not_eof_true f c H eq_refl) end
      end
  | H : ?e = false |- (?c =t TkEof) = false =>
      match e with context [c] =>
        let p := eval pattern c in e in
        match p with ?f _ => exact (not_eof_false f c H eq_refl) end
      end
  end.

Lemma join_Dirty q : join q Dirty = Dirty.
Proof. by destruct q. Qed.

Lemma join_Any q : join q Any = q.
Proof. by destruct q. Qed.

Section Rules.
Context {P R : Type} {CP : MarkerEventContainer P} {CL : MarkerEventContainerLaws P R}.
Context {inv : R -> list (LuaTokenKind * SourceRange) -> Prop} {pos : R -> nat}.
Implicit Types (b s : P).

Abbreviation Ok_ := (OkState inv).
Abbreviation At_ := (At inv pos).
Abbreviation Expr_ := (Expr inv pos).

Lemma At_ok b g ms q j s : At_ b g ms q j s -> Ok_ s.
Proof. by intros []. Qed.

Lemma At_start g s : Ok_ s -> At_ s g [] Any 0 s.
Proof. intros Hok. by apply AtF_refl. Qed.

Lemma Expr_ok b j cm s : Expr_ b j cm s -> Ok_ s.
Proof. by intros [[]]. Qed.

(** [Keeps n m s]: from [s], [m] keeps every assertion and moves on by [n]. *)
Definition Keeps {A} (n : nat) (m : M P A) s : Prop :=
  forall b g ms q j, At_ b g ms q j s -> wp m (fun _ s' => At_ b g ms q (j + n) s') s.

Lemma rank_join_l q q' : rank q <= rank (join q q').
Proof. by destruct q, q'; simpl; try lia. Qed.

(** It is enough to look at the statement on its own. *)
Lemma keeps_local {A} n (m : M P A) s :
  (Ok_ s -> wp m (fun _ s' => At_ s false [] Any n s') s) -> Keeps n m s.
Proof.
  intros Hm b g ms q j HA. eapply wp_mono; [eapply Hm, At_ok, HA|].
  intros a s' HA'. eapply At_weaken; [eapply (At_frame _ _ _ _ _ _ _ _ _ false s)|..];
    [exact HA|exact HA'|done|apply rank_join_l|lia].
Qed.

Lemma wp_keep {A B} (m : M P A) (k : A -> M P B) b g ms q j s
    (Q : B -> P -> Prop) :
  At_ b g ms q j s -> Keeps 0 m s ->
  (forall a s', At_ b g ms q j s' -> wp (k a) Q s') -> wp (bind m k) Q s.
Proof.
  intros HA Hm Hk. eapply wp_seq; [by apply Hm|]. intros a s' HA'. simpl in HA'.
  rewrite Nat.add_0_r in HA'. by apply Hk.
Qed.

Lemma wp_keep_last {A} (m : M P A) b g ms q q' j j' s :
  At_ b g ms q j s -> Keeps 0 m s -> rank q' <= rank q -> j' <= j ->
  wp m (fun _ s' => At_ b g ms q' j' s') s.
Proof.
  intros HA Hm Hq Hj. eapply wp_mono; [by apply Hm|]. intros a s' HA'. simpl in HA'.
  eapply At_weaken; [exact HA'|done|lia].
Qed.

Lemma keeps_weaken {A} n n' (m : M P A) s : Keeps n m s -> n' <= n -> Keeps n' m s.
Proof.
  intros Hm Hn b g ms q j HA. eapply wp_mono; [by apply Hm|].
  intros a s' HA'. eapply At_weaken; [exact HA'|lia|lia].
Qed.

Lemma keeps_ret {A} (a : A) s : Keeps 0 (ret a) s.
Proof. intros b g ms q j HA. apply wp_ret. by rewrite Nat.add_0_r. Qed.

Lemma keeps_gets {A B} (f : P -> A) (k : A -> M P B) s n :
  Keeps n (k (f s)) s -> Keeps n (bind (gets f) k) s.
Proof. intros Hk b g ms q j HA. apply wp_bind, wp_gets. by apply Hk. Qed.

Lemma keeps_bind {A B} n n' (m : M P A) (k : A -> M P B) s :
  Keeps n m s -> (forall a s', Keeps n' (k a) s') -> Keeps (n + n') (bind m k) s.
Proof.
  intros Hm Hk b g ms q j HA. eapply wp_seq; [by apply Hm|]. intros a s' HA'. simpl in HA'.
  rewrite Nat.add_assoc. by apply Hk.
Qed.

Lemma keeps_bind0 {A B} (m : M P A) (k : A -> M P B) s :
  Keeps 0 m s -> (forall a s', Keeps 0 (k a) s') -> Keeps 0 (bind m k) s.
Proof. apply (keeps_bind 0 0). Qed.

Lemma keeps_if {A} n (c : bool) (m1 m2 : M P A) s :
  (c = true -> Keeps n m1 s) -> (c = false -> Keeps n m2 s) -> Keeps n (if c then m1 else m2) s.
Proof. destruct c; auto. Qed.

Lemma keeps_when (c : bool) (m : M P unit) s :
  (c = true -> Keeps 0 m s) -> Keeps 0 (when c m) s.
Proof. destruct c; [by intros Hm; apply Hm|intros _; apply keeps_ret]. Qed.

(** ** Loops *)

(** Each further round moves on, and the fuel covers the way to the end. *)
Lemma wp_pos_loop {A B} (body : A -> M P (A + B)) (I : A -> P -> Prop) (fuel : P -> nat) (last : nat)
    a s (Q : B -> P -> Prop) :
  (forall a s, I a s -> at_pos pos s <= last) ->
  (forall a s, I a s -> wp (body a) (fun r s' =>
     match r with
     | inl a' => I a' s' /\ at_pos pos s < at_pos pos s'
     | inr r => Q r s'
     end) s) ->
  I a s -> last - at_pos pos s < fuel s -> wp (loop_from fuel body a) Q s.
Proof.
  intros Hle Hbody HI Hf.
  apply (wp_loop_from I (fun _ s => last - at_pos pos s)); [|done|done].
  intros a' s' HI'. eapply wp_mono; [by apply Hbody|]. intros [a''|r] s'' Hr; [|done].
  destruct Hr as [HI'' Hlt]. split; [done|]. pose proof (Hle _ _ HI''). lia.
Qed.

(** The progress of an assertion may be taken as exact. *)
Lemma At_exact b g ms q j s :
  At_ b g ms q j s -> At_ b g ms q (at_pos pos s - at_pos pos b) s /\ j <= at_pos pos s - at_pos pos b.
Proof. intros [Hok Hsh Hm Hd Hl He Hp Hc]. split; [split; try done; lia|lia]. Qed.

Lemma Expr_exact b j cm s :
  Expr_ b j cm s -> Expr_ b (at_pos pos s - at_pos pos b) cm s /\ j <= at_pos pos s - at_pos pos b.
Proof.
  intros [[Hok Hsh Hm Hd Hl He Hp Hc] Hst Hun]. split; [|lia]. split; [|done|done].
  split; try done. lia.
Qed.

Lemma At_moved b g ms q j s : At_ b g ms q j s -> at_pos pos b + j <= at_pos pos s.
Proof. by intros []. Qed.

Lemma Expr_moved b j cm s : Expr_ b j cm s -> at_pos pos b + j <= at_pos pos s.
Proof. by intros [[] _ _]. Qed.

Section Loops.
Context (fuel : P -> nat) (last : P -> nat).
Hypothesis pos_le : forall s, Ok_ s -> at_pos pos s <= last s.
Hypothesis last_same : forall b s, Ok_ b -> Ok_ s -> last s = last b.
Hypothesis fuel_enough : forall s, Ok_ s -> last s < fuel s.

(** A loop whose rounds each keep the assertion. *)
Lemma keeps_loop {A B} (body : A -> M P (A + B)) a s :
  (forall a s, Ok_ s -> wp (body a) (fun r s' =>
     At_ s false [] Any (match r with inl _ => 1 | inr _ => 0 end) s') s) ->
  Keeps 0 (loop_from fuel body a) s.
Proof.
  intros Hbody. apply keeps_local. intros Hs.
  apply (wp_pos_loop body (fun _ s' => At_ s false [] Any 0 s') fuel (last s)).
  - intros _ s' HA%At_ok. rewrite <-(last_same s s') by done. by apply pos_le.
  - intros a' s' HA. eapply wp_mono; [eapply Hbody, At_ok, HA|]. intros r s'' HA'.
    pose proof (At_frame _ _ _ _ _ _ _ _ _ _ _ _ HA HA') as HF.
    assert (At_ s false [] Any 0 s'') by (eapply At_weaken; [by apply HF|done|lia]).
    destruct r; [|done]. split; [done|]. apply At_moved in HA'. lia.
  - by apply At_start.
  - pose proof (fuel_enough s Hs). lia.
Qed.

(** A loop that works on open markers. *)
Lemma wp_at_loop {A B} (body : A -> M P (A + B)) b g ms q j a s (Q : B -> P -> Prop) :
  (forall a s1 k, j <= k -> At_ b g ms q k s1 -> wp (body a) (fun r s' =>
     match r with
     | inl _ => At_ b g ms q (k + 1) s'
     | inr r => Q r s'
     end) s1) ->
  At_ b g ms q j s -> wp (loop_from fuel body a) Q s.
Proof.
  intros Hbody HA. pose proof (At_ok _ _ _ _ _ _ HA) as Hs.
  apply (wp_pos_loop body (fun _ s1 => exists k, j <= k /\ At_ b g ms q k s1) fuel (last s)).
  - intros _ s1 (k & _ & H1%At_ok). rewrite <-(last_same s s1) by done. by apply pos_le.
  - intros a1 s1 (k & Hk & H1). apply At_exact in H1 as [H1 Hk1].
    eapply wp_mono; [eapply Hbody; [|exact H1]; lia|]. intros [a2|r] s2 Hr; [|done].
    split; [eexists; split; [|exact Hr]; lia|]. apply At_moved in Hr, H1. lia.
  - by exists j.
  - pose proof (fuel_enough s Hs). lia.
Qed.

(** A loop that goes on wrapping one expression. *)
Lemma wp_expr_loop {A B} (cm_of : A -> CompleteMarker) (body : A -> M P (A + B)) b j a s
    (Q : B -> P -> Prop) :
  (forall a s1 k, j <= k -> Expr_ b k (cm_of a) s1 -> wp (body a) (fun r s' =>
     match r with
     | inl a' => Expr_ b (k + 1) (cm_of a') s'
     | inr r => Q r s'
     end) s1) ->
  Expr_ b j (cm_of a) s -> wp (loop_from fuel body a) Q s.
Proof.
  intros Hbody HE. pose proof (Expr_ok _ _ _ _ HE) as Hs.
  apply (wp_pos_loop body (fun a s1 => exists k, j <= k /\ Expr_ b k (cm_of a) s1) fuel (last s)).
  - intros a1 s1 (k & _ & H1%Expr_ok). rewrite <-(last_same s s1) by done. by apply pos_le.
  - intros a1 s1 (k & Hk & H1). apply Expr_exact in H1 as [H1 Hk1].
    eapply wp_mono; [eapply Hbody; [|exact H1]; lia|]. intros [a2|r] s2 Hr; [|done].
    split; [eexists; split; [|exact Hr]; lia|]. apply Expr_moved in Hr, H1. lia.
  - by exists j.
  - pose proof (fuel_enough s Hs). lia.
Qed.
End Loops.

(** ** Functions that return their errors
    A function that gives up with an [Err] reports nothing itself and leaves its
    markers open: what it did is of no use to the tree, [Lost], until the error
    is reported. *)

Record Lost b (j : nat) s : Prop := mkLost {
  lo_ok : Ok_ s;
  lo_shapes : shapes (get_events b) `prefix_of` shapes (get_events s);
  lo_level : get_mark_level b <= get_mark_level s;
  lo_errors : errors_of b `prefix_of` errors_of s;
  lo_progress : at_pos pos b + j <= at_pos pos s
}.

Lemma At_Lost b g ms (F : list Tree -> Prop) j s : AtF inv pos b g ms F j s -> Lost b j s.
Proof. intros [Hok Hsh Hm Hd Hl He Hp Hc]. split; try done. lia. Qed.

Lemma Lost_weaken b j j' s : Lost b j s -> j' <= j -> Lost b j' s.
Proof. intros [Hok Hsh Hl He Hp] Hj. split; try done. lia. Qed.

Lemma Lost_trans b j n s s' : Lost b j s -> Lost s n s' -> Lost b (j + n) s'.
Proof. intros [_ Hsh Hl He Hp] [Hok Hsh' Hl' He' Hp']. split; try done; first [by etrans|lia]. Qed.

Lemma Lost_frame b g ms (F : list Tree -> Prop) j n s s' :
  AtF inv pos b g ms F j s -> Lost s n s' -> Lost b (j + n) s'.
Proof. intros HA HL. eapply Lost_trans; [by eapply At_Lost|done]. Qed.

Lemma Lost_error b g (F : list Tree -> Prop) j s s' e :
  Lost b j s -> rest s' = rest s -> get_events s' = get_events s ->
  get_mark_level s' = get_mark_level s -> errors_of s' = errors_of s ++ [e] ->
  AtF inv pos b g [] F j s'.
Proof.
  intros [[Hi Hes] Hsh Hl He Hp] Hr Hev Hlv Herr.
  assert (~ no_error b s') as Hne.
  { intros [Heq _]. destruct He as [l He]. rewrite Herr, He, <-app_assoc in Heq.
    rewrite <-(app_nil_r (errors_of b)) in Heq at 2. apply app_inv_head in Heq. by destruct l. }
  constructor; simpl; rewrite ?Hev, ?Hlv; try done; try constructor; try lia.
  - unfold eaten_of. by rewrite Hr, Hev.
  - by rewrite Hev.
  - rewrite Herr. by apply prefix_app_r.
  - unfold at_pos in *. by rewrite Hr.
Qed.

(** What a function promises that adds to the open node: complete things of
    which [q] holds, or an error. *)
Definition res_post {A E} (q : Status) (n : nat) b (r : Result A E) s : Prop :=
  match r with
  | Ok _ => At_ b false [] q n s
  | Err _ => Lost b 0 s
  end.

(** The [?] operator. *)
Lemma wp_try {A B E} (m : M P (Result A E)) (k : A -> M P (Result B E)) b g ms q q' j n s
    (Q : Result B E -> P -> Prop) :
  At_ b g ms q j s -> wp m (res_post q' n s) s ->
  (forall a s', At_ b g ms (join q q') (j + n) s' -> wp (k a) Q s') ->
  (forall e s', Lost b 0 s' -> Q (Err e) s') ->
  wp (bind_result m k) Q s.
Proof.
  intros HA Hm Hk HE. apply wp_bind_result. eapply wp_mono; [exact Hm|].
  intros [a|e] s' Hr; simpl in Hr.
  - apply Hk. eapply At_frame; [exact HA|exact Hr|done].
  - eapply HE, Lost_weaken; [by eapply Lost_frame|lia].
Qed.

(** A call whose result is looked at. *)
Lemma wp_call {A B E} (m : M P (Result A E)) (k : Result A E -> M P B) b g ms q q' j n s
    (Q : B -> P -> Prop) :
  At_ b g ms q j s -> wp m (res_post q' n s) s ->
  (forall a s', At_ b g ms (join q q') (j + n) s' -> wp (k (Ok a)) Q s') ->
  (forall e s', Lost b j s' -> wp (k (Err e)) Q s') ->
  wp (bind m k) Q s.
Proof.
  intros HA Hm Hk HE. apply wp_bind. eapply wp_mono; [exact Hm|].
  intros [a|e] s' Hr; simpl in Hr.
  - apply Hk. eapply At_frame; [exact HA|exact Hr|done].
  - eapply HE, Lost_weaken; [by eapply Lost_frame|lia].
Qed.

(** ** Results that are wrapped later
    The node [cm] of a type may stand behind tokens that the function ate before
    it, an opening parenthesis, and before others. *)
Definition Typed b (j : nat) (cm : CompleteMarker) s : Prop :=
  exists b' j1 j2, At_ b false [] Any j1 b' /\ Expr_ b' j2 cm s /\ j <= j1 + j2.

Lemma Typed_At b j cm s : Typed b j cm s -> At_ b false [] Solid j s.
Proof.
  intros (b' & j1 & j2 & HA & HE%Expr_At & Hj).
  eapply At_weaken; [eapply (At_frame _ _ _ _ _ _ _ _ _ false); [exact HA|exact HE|done]|done|done].
Qed.

Lemma Expr_Typed b j cm s : Ok_ b -> Expr_ b j cm s -> Typed b j cm s.
Proof. intros Hb HE. exists b, 0, j. split_and!; [by apply At_start|done|done]. Qed.

Lemma Typed_weaken b j j' cm s : Typed b j cm s -> j' <= j -> Typed b j' cm s.
Proof. intros (b' & j1 & j2 & HA & HE & Hj) Hle. exists b', j1, j2. split_and!; [done|done|lia]. Qed.

Lemma Typed_frame b q j n cm s s' :
  At_ b false [] q j s -> Typed s n cm s' -> Typed b (j + n) cm s'.
Proof.
  intros HA (b' & j1 & j2 & HA' & HE & Hj). exists b', (j + j1), j2. split_and!; [|done|lia].
  eapply At_weaken; [eapply (At_frame _ _ _ _ _ _ _ _ _ false); [exact HA|exact HA'|done]|simpl; lia|done].
Qed.

Lemma Expr_more b j n cm g q s s' :
  Expr_ b j cm s -> At_ s g [] q n s' -> g = false -> Expr_ b (j + n) cm s'.
Proof.
  intros [HA Hst Hun] HA' ->. split.
  - eapply AtF_weaken; [eapply AtF_frame; [exact HA|exact HA'|done]| |done].
    intros f (f0 & f1 & -> & (cs & f' & ->) & _). by exists cs, (f' ++ f1).
  - destruct Hst as (k & p & Hk). pose proof (is_start_lt _ _ (ex_intro _ k (ex_intro _ p Hk))).
    destruct HA' as [_ [l Hsh] _ _ _ _ _ _].
    assert (shapes (get_events s') !! start cm = Some (shape (NodeStart k p))) as Hl.
    { rewrite Hsh. apply lookup_app_l_Some. by rewrite shapes_lookup, Hk. }
    rewrite shapes_lookup in Hl. destruct (get_events s' !! start cm) as [[k' p'| | |]|] eqn:He;
      simpl in Hl; try (by destruct (k =k SkNone)); [by exists k', p'].
  - intros [Heq Htidy]. pose proof HA as [_ _ _ _ _ He _ Hc]. pose proof HA' as [_ _ _ _ _ He' _ Hc'].
    assert (errors_of s = errors_of b) as E by by eapply prefix_between.
    destruct (Hun (conj E Htidy)) as (Hb & k & Hk & Hkn). split; [done|]. exists k. split; [|done].
    destruct (Hc (conj E Htidy)) as [_ _ Hsk]. destruct Htidy as [sk0 H0].
    destruct (Hsk _ H0) as (sk & _ & H1 & _).
    destruct Hc' as [Hpre _ _]; [split; [by rewrite Heq|by eexists]|].
    by eapply prefix_lookup_Some.
Qed.

Lemma Typed_more b j n cm q s s' :
  Typed b j cm s -> At_ s false [] q n s' -> Typed b (j + n) cm s'.
Proof.
  intros (b' & j1 & j2 & HA & HE & Hj) HA'. exists b', j1, (j2 + n).
  split_and!; [done|by eapply Expr_more|lia].
Qed.

(** What a function promises that returns a type. *)
Definition type_post {E} b (r : Result CompleteMarker E) s : Prop :=
  match r with
  | Ok cm => Typed b 0 cm s
  | Err _ => Lost b 0 s
  end.

Lemma type_res {E} b (r : Result CompleteMarker E) s : type_post b r s -> res_post Solid 0 b r s.
Proof. destruct r; simpl; [apply Typed_At|done]. Qed.

(** The end of a function, and what it began with. *)
Lemma wp_tail {A E} (m : M P (Result A E)) b q q' q'' n j s :
  At_ b false [] q j s -> wp m (res_post q' n s) s -> rank q'' <= rank (join q q') ->
  wp m (res_post q'' 0 b) s.
Proof.
  intros HA Hm Hq. eapply wp_mono; [exact Hm|]. intros [a|e] s' Hr; simpl in *.
  - eapply At_weaken; [eapply (At_frame _ _ _ _ _ _ _ _ _ false); [exact HA|exact Hr|done]|done|lia].
  - eapply Lost_weaken; [by eapply Lost_frame|lia].
Qed.

Lemma wp_type_tail {E} (m : M P (Result CompleteMarker E)) b q j s :
  At_ b false [] q j s -> wp m (type_post s) s -> wp m (type_post b) s.
Proof.
  intros HA Hm. eapply wp_mono; [exact Hm|]. intros [cm|e] s' Hr; simpl in *.
  - eapply Typed_weaken; [by eapply Typed_frame|lia].
  - eapply Lost_weaken; [by eapply Lost_frame|lia].
Qed.

Lemma wp_type_res {E} (m : M P (Result CompleteMarker E)) s :
  wp m (type_post s) s -> wp m (res_post Solid 0 s) s.
Proof. intros Hm. eapply wp_mono; [exact Hm|]. intros r s'. apply type_res. Qed.

Lemma res_weaken {A E} (m : M P (Result A E)) q q' n n' s :
  wp m (res_post q n s) s -> rank q' <= rank q -> n' <= n -> wp m (res_post q' n' s) s.
Proof.
  intros Hm Hq Hn. eapply wp_mono; [exact Hm|]. intros [a|e] s' Hr; [|done]. by eapply At_weaken.
Qed.

(** A loop that goes on wrapping a type is one on the node it wraps. *)
Lemma wp_typed {E} (m : M P (Result CompleteMarker E)) b j cm s :
  (forall b' j', Expr_ b' j' cm s ->
     wp m (fun r s' => match r with Ok cm' => Expr_ b' j' cm' s' | Err _ => Lost b' 0 s' end) s) ->
  Typed b j cm s -> wp m (type_post b) s.
Proof.
  intros Hm (b' & j1 & j2 & HA & HE & Hj). eapply wp_mono; [by apply Hm|].
  intros [cm'|e] s' Hr; simpl.
  - exists b', j1, j2. split_and!; [done|done|lia].
  - eapply Lost_weaken; [by eapply Lost_frame|lia].
Qed.
End Rules.
Arguments Keeps {P R CP CL} inv pos {A} n m s.
