(* ===== verification/LuaParser.v ===== *)
(** * The Lua parser state

    [src/crates/glua_parser/src/parser/lua_parser.rs] and [parser_config.rs]: the
    token cursor over the lexed tokens, the event list it writes, and the handling
    of the whitespace and comments between two tokens.  Doc comments are parsed by
    another component, through the interface [DocComments]. *)

From stdpp Require Import gmap.
From S2P Require Import Prelude Kinds Text LuaLexer Marker.
Local Open Scope prog_scope.

(** ** Configuration *)

Inductive SpecialFunction : Type :=
  | SpNone | SpRequire | SpError | SpAssert | SpType | SpSetmetaatable.

Record ParserConfig : Type := mkConfig {
  level : LuaLanguageLevel;
  lexer_config : LexerConfig;
  special_like : gmap rstring SpecialFunction;
  enable_emmylua_doc : bool
}.

Module ParserConfig.
Definition new (level : LuaLanguageLevel) (special_like : gmap rstring SpecialFunction)
    (non_std_symbols : LuaNonStdSymbolSet.t) (enable_emmylua_doc : bool) : ParserConfig :=
  mkConfig level (mkLexerConfig level non_std_symbols) special_like enable_emmylua_doc.

Definition support_local_attrib (c : ParserConfig) : bool := false.
Definition support_emmylua_doc (c : ParserConfig) : bool := enable_emmylua_doc c.
Definition support_named_var_args (c : ParserConfig) : bool := false.

Definition get_special_function (c : ParserConfig) (name : rstring) : SpecialFunction :=
  if name =s "require" then SpRequire
  else if name =s "error" then SpError
  else if name =s "assert" then SpAssert
  else if name =s "type" then SpType
  else if name =s "setmetatable" then SpSetmetaatable
  else default SpNone (special_like c !! name).

Definition with_level (level : LuaLanguageLevel) : ParserConfig :=
  new level ∅ LuaNonStdSymbolSet.new true.

Definition default_config : ParserConfig := with_level LuaJIT.
End ParserConfig.

(** ** Token classes *)

Definition is_trivia_kind (kind : LuaTokenKind) : bool :=
  kind in_t [TkShortComment; TkLongComment; TkEndOfLine; TkWhitespace; TkShebang].

Definition is_invalid_kind (kind : LuaTokenKind) : bool :=
  kind in_t [TkNone; TkEof; TkWhitespace; TkShebang; TkEndOfLine; TkShortComment; TkLongComment].

(** ** State *)

Record LuaParser : Type := mkParser {
  text : rstring;
  events : list MarkEvent;
  tokens : list LuaTokenData;
  token_index : nat;
  current_token : LuaTokenKind;
  mark_level : nat;
  parse_config : ParserConfig;
  errors : list LuaParseError
}.

Definition set_lua_events (es : list MarkEvent) (p : LuaParser) : LuaParser :=
  mkParser (text p) es (tokens p) (token_index p) (current_token p) (mark_level p)
    (parse_config p) (errors p).
Definition set_lua_level (n : nat) (p : LuaParser) : LuaParser :=
  mkParser (text p) (events p) (tokens p) (token_index p) (current_token p) n
    (parse_config p) (errors p).
Definition set_cursor (index : nat) (kind : LuaTokenKind) (p : LuaParser) : LuaParser :=
  mkParser (text p) (events p) (tokens p) index kind (mark_level p) (parse_config p) (errors p).
Definition add_error (err : LuaParseError) (p : LuaParser) : LuaParser :=
  mkParser (text p) (events p) (tokens p) (token_index p) (current_token p) (mark_level p)
    (parse_config p) (errors p ++ [err]).

#[export] Instance lua_parser_events : MarkerEventContainer LuaParser := {
  get_mark_level := mark_level;
  set_mark_level := set_lua_level;
  get_events := events;
  set_events := set_lua_events
}.

(** What a marker operation of the Lua parser leaves alone. *)
Record LuaRest : Type := mkLuaRest {
  r_text : rstring;
  r_tokens : list LuaTokenData;
  r_index : nat;
  r_current : LuaTokenKind;
  r_config : ParserConfig
}.

Definition lua_rest (p : LuaParser) : LuaRest :=
  mkLuaRest (text p) (tokens p) (token_index p) (current_token p) (parse_config p).

#[export] Instance lua_parser_laws : MarkerEventContainerLaws LuaParser LuaRest.
Proof. by refine {| rest := lua_rest; errors_of := errors |}. Defined.

(** The component that parses the comments between two Lua tokens. *)
Class DocComments := {
  parse_doc_comment : list LuaTokenData -> M LuaParser unit
}.

Module LuaParser.
Section Parser.
Context `{UnicodeTables} `{DocComments}.

(** *** Queries *)

Definition current_token_range (p : LuaParser) : option SourceRange :=
  if (length (tokens p) <=? token_index p)%nat then
    if bool_decide (tokens p = []) then Some SourceRange.EMPTY
    else tok_range <$> tokens p !! (length (tokens p) - 1)
  else tok_range <$> tokens p !! token_index p.

(** [while prev_index > 0 && is_trivia_kind(..) { prev_index -= 1 }] *)
Fixpoint previous_index (tokens : list LuaTokenData) (prev_index : nat) : option nat :=
  match prev_index with
  | 0 => Some 0
  | S i =>
      match tokens !! prev_index with
      | Some t => if is_trivia_kind (tok_kind t) then previous_index tokens i
                  else Some prev_index
      | None => None
      end
  end.

Definition previous_token_range (p : LuaParser) : option SourceRange :=
  if (token_index p =? 0)%nat || bool_decide (tokens p = []) then Some SourceRange.EMPTY
  else
    prev_index ← previous_index (tokens p) (token_index p - 1);
    match tokens p !! prev_index with
    | Some t =>
        if negb (is_trivia_kind (tok_kind t)) then Some (tok_range t)
        else if (prev_index =? 0)%nat then tok_range <$> tokens p !! 0
        else Some SourceRange.EMPTY
    | None => if (prev_index =? 0)%nat then None else Some SourceRange.EMPTY
    end.

Definition current_token_text (p : LuaParser) : option rstring :=
  t ← tokens p !! token_index p;
  str_slice (text p) (start_offset (tok_range t)) (SourceRange.end_offset (tok_range t)).

Fixpoint skip_trivia_from (ts : list LuaTokenData) (index : nat) : nat :=
  match ts with
  | [] => index
  | t :: ts' => if is_trivia_kind (tok_kind t) then skip_trivia_from ts' (S index) else index
  end.

Definition skip_trivia (p : LuaParser) (index : nat) : nat :=
  skip_trivia_from (drop index (tokens p)) index.

Definition peek_next_token (p : LuaParser) : LuaTokenKind :=
  let next_index := skip_trivia p (token_index p + 1) in
  match tokens p !! next_index with
  | Some t => tok_kind t
  | None => TkNone
  end.

(** *** Errors *)

Definition push_error (err : LuaParseError) : M LuaParser unit := modify (add_error err).

(** [p.push_error(LuaParseError::syntax_error_from(message, p.current_token_range()))] *)
Definition error_here (message : rstring) : M LuaParser unit :=
  range <- gets current_token_range ;;
  range <- unwrap range ;;
  push_error (syntax_error_from message range).

Definition error_at (message : rstring) (range : SourceRange) : M LuaParser unit :=
  push_error (syntax_error_from message range).

(** *** Trivia *)

Definition eat_token (token : LuaTokenData) : M LuaParser unit :=
  push_event (EatToken (tok_kind token) (tok_range token)).

Fixpoint eat_tokens (ts : list LuaTokenData) : M LuaParser unit :=
  match ts with
  | [] => ret tt
  | t :: ts' => eat_token t ;;; eat_tokens ts'
  end.

(** The start of the white space at the end of a comment group. *)
Fixpoint trivia_token_start (ts : list LuaTokenData) (i : nat) : nat :=
  match i with
  | 0 => 0
  | S j =>
      match ts !! j with
      | Some t => if tok_kind t in_t [TkWhitespace; TkEndOfLine]
                  then trivia_token_start ts j else i
      | None => i
      end
  end.

Definition parse_comments (comment_tokens : list LuaTokenData) : M LuaParser unit :=
  docs <- gets (fun p => ParserConfig.support_emmylua_doc (parse_config p)) ;;
  if negb docs then eat_tokens comment_tokens
  else
    let start := trivia_token_start comment_tokens (length comment_tokens) in
    parse_doc_comment (take start comment_tokens) ;;;
    eat_tokens (drop start comment_tokens).

(** The backward scan from the token before the comment, at [n - 1]: is there
    a token other than white space on the comment's line? *)
Fixpoint is_inline_comment (ts : list LuaTokenData) (n : nat) : option bool :=
  match n with
  | 0 => Some false
  | S temp_index =>
      t ← ts !! temp_index;
      if tok_kind t =t TkEndOfLine then Some false
      else if tok_kind t =t TkWhitespace then is_inline_comment ts temp_index
      else Some true
  end.

(** The body of the loop over the trivia; the loop variables are [line_count]
    and [doc_tokens]. *)
Definition parse_trivia_token (i : nat) (vars : nat * list LuaTokenData)
    : M LuaParser (nat * list LuaTokenData) :=
  let '(line_count, doc_tokens) := vars in
  ts <- gets tokens ;;
  token <- unwrap (ts !! i) ;;
  let kind := tok_kind token in
  if kind in_t [TkShortComment; TkLongComment] then ret (0, doc_tokens ++ [token])
  else if kind =t TkEndOfLine then
    let line_count := S line_count in
    doc_tokens <-
      (if bool_decide (doc_tokens = []) then eat_token token ;;; ret []
       else ret (doc_tokens ++ [token])) ;;
    if (1 <? line_count)%nat && negb (bool_decide (doc_tokens = [])) then
      parse_comments doc_tokens ;;; ret (line_count, [])
    else if (length doc_tokens =? 2)%nat && (2 <=? i)%nat then
      inline_comment <- unwrap (is_inline_comment ts (i - 1)) ;;
      if inline_comment : bool then parse_comments doc_tokens ;;; ret (line_count, [])
      else ret (line_count, doc_tokens)
    else ret (line_count, doc_tokens)
  else if kind in_t [TkShebang; TkWhitespace] then
    if bool_decide (doc_tokens = []) then eat_token token ;;; ret (line_count, [])
    else ret (line_count, doc_tokens ++ [token])
  else
    if bool_decide (doc_tokens = []) then ret (line_count, [])
    else parse_comments doc_tokens ;;; ret (line_count, []).

(** [for i in index..index + n] *)
Fixpoint trivia_loop (n index : nat) (vars : nat * list LuaTokenData)
    : M LuaParser (nat * list LuaTokenData) :=
  match n with
  | 0 => ret vars
  | S n' => vars <- parse_trivia_token index vars ;; trivia_loop n' (S index) vars
  end.

Definition parse_trivia_tokens (next_index : nat) : M LuaParser unit :=
  start <- gets token_index ;;
  vars <- trivia_loop (next_index - start) start (0, []) ;;
  if bool_decide (vars.2 = []) then ret tt else parse_comments vars.2.

(** *** The cursor *)

Definition bump : M LuaParser unit :=
  cur <- gets (fun p => tokens p !! token_index p) ;;
  valid <- gets (fun p => negb (is_invalid_kind (current_token p))) ;;
  match cur with
  | Some token => when valid (eat_token token)
  | None => ret tt
  end ;;;
  next_index <- gets (fun p => skip_trivia p (token_index p + 1)) ;;
  parse_trivia_tokens next_index ;;;
  ts <- gets tokens ;;
  modify (set_cursor next_index
            (match ts !! next_index with Some t => tok_kind t | None => TkEof end)).

Definition init : M LuaParser unit :=
  ts <- gets tokens ;;
  modify (fun p => set_cursor (token_index p)
            (match ts with [] => TkEof | t :: _ => tok_kind t end) p) ;;;
  trivia <- gets (fun p => is_trivia_kind (current_token p)) ;;
  when trivia bump.

Definition set_current_token_kind (kind : LuaTokenKind) : M LuaParser unit :=
  modify (fun p =>
    match tokens p !! token_index p with
    | Some t =>
        mkParser (text p) (events p)
          (<[token_index p := mkToken kind (tok_range t)]> (tokens p))
          (token_index p) kind (mark_level p) (parse_config p) (errors p)
    | None => p
    end).

Definition origin_text : LuaParser -> rstring := text.
Definition has_error (p : LuaParser) : bool := negb (bool_decide (errors p = [])).
Definition get_errors : LuaParser -> list LuaParseError := errors.
End Parser.
End LuaParser.
