(* ===== verification/DocParser.v ===== *)
(** * The doc parser state

    [src/crates/glua_parser/src/parser/lua_doc_parser.rs]: the parser of one group of
    comments.  It borrows the Lua parser, whose event list it extends, and lexes
    the origin tokens of the group one after the other, in a state that the
    grammar chooses; a change of that state may lex the current token anew. *)

From S2P Require Import Prelude Kinds Text LuaLexer DocLexer Marker LuaParser.
Local Open Scope prog_scope.

Inductive LuaDocParserState : Type := PsNormal | PsMapped | PsExtends.

#[global] Instance doc_parser_state_eq_dec : EqDecision LuaDocParserState.
Proof. solve_decision. Defined.

Module DocParser.

Record t : Type := mk {
  lua_parser : LuaParser;
  tokens : list LuaTokenData;
  lexer : DocLexer.t;
  current_token : LuaTokenKind;
  current_token_range : SourceRange;
  origin_token_index : nat;
  state : LuaDocParserState
}.

Definition set_lua_parser (lp : LuaParser) (p : t) : t :=
  mk lp (tokens p) (lexer p) (current_token p) (current_token_range p) (origin_token_index p) (state p).
Definition set_lexer (l : DocLexer.t) (p : t) : t :=
  mk (lua_parser p) (tokens p) l (current_token p) (current_token_range p) (origin_token_index p)
    (state p).
Definition put_kind (kind : LuaTokenKind) (p : t) : t :=
  mk (lua_parser p) (tokens p) (lexer p) kind (current_token_range p) (origin_token_index p) (state p).
Definition set_range (range : SourceRange) (p : t) : t :=
  mk (lua_parser p) (tokens p) (lexer p) (current_token p) range (origin_token_index p) (state p).
Definition set_index (index : nat) (p : t) : t :=
  mk (lua_parser p) (tokens p) (lexer p) (current_token p) (current_token_range p) index (state p).
Definition set_state (st : LuaDocParserState) (p : t) : t :=
  mk (lua_parser p) (tokens p) (lexer p) (current_token p) (current_token_range p)
    (origin_token_index p) st.

(** The events and the mark level are those of the Lua parser. *)
#[export] Instance doc_parser_events : MarkerEventContainer t := {
  get_mark_level := fun p => mark_level (lua_parser p);
  set_mark_level := fun n p => set_lua_parser (set_lua_level n (lua_parser p)) p;
  get_events := fun p => events (lua_parser p);
  set_events := fun es p => set_lua_parser (set_lua_events es (lua_parser p)) p
}.

(** What a marker operation leaves alone. *)
Record DocRest : Type := mkDocRest {
  d_lua : LuaRest;
  d_tokens : list LuaTokenData;
  d_lexer : DocLexer.t;
  d_current : LuaTokenKind;
  d_range : SourceRange;
  d_index : nat;
  d_state : LuaDocParserState
}.
Definition doc_rest (p : t) : DocRest :=
  mkDocRest (lua_rest (lua_parser p)) (tokens p) (lexer p) (current_token p) (current_token_range p)
    (origin_token_index p) (state p).

#[export] Instance doc_parser_laws : MarkerEventContainerLaws t DocRest.
Proof.
  refine {| rest := doc_rest; errors_of := fun p => errors (lua_parser p) |}; by intros.
Defined.

Section Parser.
Context `{UnicodeTables}.

Definition origin_text (p : t) : rstring := LuaParser.origin_text (lua_parser p).

Definition is_invalid_kind (kind : LuaTokenKind) : bool := kind in_t [TkNone; TkEof].

Definition on_lexer {A} (m : M DocLexer.t A) : M t A := fun p =>
  match m (lexer p) with
  | Done (a, l) => Done (a, set_lexer l p)
  | Panic => Panic
  | OutOfFuel => OutOfFuel
  end.

(** Where the text of the group ends: an upper bound of every byte offset that
    the parser can reach, and so of the rounds of a loop that moves on. *)
Definition doc_end (p : t) : nat :=
  match list.last (tokens p) with
  | Some token => SourceRange.end_offset (tok_range token)
  | None => 0
  end.
Definition doc_fuel (p : t) : nat := 2 + doc_end p.

(** *** Lexing *)

(** The first half of the loop of [lex_token]: at the end of an origin token go on
    to the next one.  [Some] is a [return]. *)
Definition next_origin : M t (option LuaTokenData) :=
  first <- gets (fun p => (origin_token_index p =? 0)%nat && (current_token p =t TkNone)) ;;
  index <- gets origin_token_index ;;
  let next_origin_index := if first : bool then 0 else index + 1 in
  ts <- gets tokens ;;
  if (length ts <=? next_origin_index)%nat then
    end_ <- gets (fun p => SourceRange.end_offset (current_token_range p)) ;;
    ret (Some (mkToken TkEof (SourceRange.new end_ 0)))
  else
    next_origin_token <- unwrap (ts !! next_origin_index) ;;
    modify (set_index next_origin_index) ;;;
    if tok_kind next_origin_token in_t [TkEndOfLine; TkWhitespace; TkShebang]
    then ret (Some next_origin_token)
    else
      on_lexer (DocLexer.reset (tok_kind next_origin_token) (tok_range next_origin_token)) ;;;
      ret None.

Definition lex_token_step (_ : unit) : M t (unit + LuaTokenData) :=
  invalid <- gets (fun p => DocLexer.is_invalid (lexer p)) ;;
  early <- (if invalid : bool then next_origin else ret None) ;;
  match early with
  | Some token => ret (inr token)
  | None =>
      kind <- on_lexer DocLexer.lex ;;
      if negb (kind =t TkEof) then
        range <- gets (fun p => DocLexer.current_token_range (lexer p)) ;;
        range <- unwrap range ;;
        ret (inr (mkToken kind range))
      else ret (inl tt)
  end.

Definition lex_token : M t LuaTokenData :=
  loop_from (fun p => 2 + length (tokens p)) lex_token_step tt.

Definition eat_current : M t unit :=
  kind <- gets current_token ;;
  range <- gets current_token_range ;;
  push_event (EatToken kind range).

(** [self.current_token = token.kind; if !token.range.is_empty() { .. }] *)
Definition take_token (token : LuaTokenData) : M t unit :=
  modify (put_kind (tok_kind token)) ;;;
  when (negb (SourceRange.is_empty (tok_range token))) (modify (set_range (tok_range token))).

Definition eat_current_and_lex_next : M t unit :=
  eat_current ;;;
  token <- lex_token ;;
  take_token token.

(** The tokens that [calc_next_current_token] records on its own. *)
Definition skipped_kind (st : LuaDocLexerState) (kind : LuaTokenKind) : bool :=
  match st with
  | DocNormal | DocVersionState | DocMapped | DocExtends =>
      kind in_t [TkDocContinue; TkEndOfLine; TkWhitespace]
  | DocFieldStart | DocSee | DocSource | DocAttributeUseState | DocCastExpr =>
      kind in_t [TkWhitespace]
  | DocInit => kind in_t [TkEndOfLine; TkWhitespace]
  | DocTag | DocDescriptionState | DocLongDescription | DocTrivia | DocNormalDescription => false
  end.

Definition calc_next_current_token : M t unit :=
  token <- lex_token ;;
  modify (fun p => set_range (tok_range token) (put_kind (tok_kind token) p)) ;;;
  if tok_kind token =t TkEof then ret tt
  else
    st <- gets (fun p => DocLexer.state (lexer p)) ;;
    while_ doc_fuel (fun p => skipped_kind st (current_token p)) eat_current_and_lex_next.

Definition bump : M t unit :=
  valid <- gets (fun p => negb (is_invalid_kind (current_token p))) ;;
  when valid eat_current ;;;
  calc_next_current_token.

Definition init : M t unit :=
  ts <- gets tokens ;;
  if bool_decide (ts = []) then ret tt else bump.

Definition current_token_text : M t rstring :=
  text <- gets (fun p => str_slice (origin_text p) (start_offset (current_token_range p))
                           (SourceRange.end_offset (current_token_range p))) ;;
  unwrap text.

(** *** Changes of the lexer state *)

(** The rest of the origin token from the current token on is given to the lexer
    again; the subtraction panics when it underflows. *)
Definition reset_to_current : M t unit :=
  read_range <- gets current_token_range ;;
  origin <- gets (fun p => tokens p !! origin_token_index p) ;;
  origin <- unwrap origin ;;
  let origin_end := SourceRange.end_offset (tok_range origin) in
  if (start_offset read_range <=? origin_end)%nat then
    on_lexer (DocLexer.reset (tok_kind origin)
                (mkRange (start_offset read_range) (origin_end - start_offset read_range)))
  else panic.

Definition put_lexer_state (st : LuaDocLexerState) : M t unit :=
  modify (fun p => set_lexer (DocLexer.set_state st (lexer p)) p).

Definition re_calc_detail : M t unit :=
  modify (put_kind TkDocDetail) ;;;
  invalid <- gets (fun p => DocLexer.is_invalid (lexer p)) ;;
  if invalid : bool then ret tt
  else
    modify (put_kind TkNone) ;;;
    reset_to_current ;;;
    put_lexer_state DocDescriptionState ;;;
    bump.

Definition re_calc_cast_type : M t unit :=
  invalid <- gets (fun p => DocLexer.is_invalid (lexer p)) ;;
  if invalid : bool then ret tt
  else
    reset_to_current ;;;
    put_lexer_state DocNormal ;;;
    token <- lex_token ;;
    take_token token.

Definition set_lexer_state (st : LuaDocLexerState) : M t unit :=
  current <- gets current_token ;;
  match st with
  | DocDescriptionState =>
      when (negb (current in_t [TkWhitespace; TkEndOfLine; TkEof; TkDocContinueOr; TkNormalStart;
                                TkLongCommentStart; TkDocStart; TkDocLongStart; TkLongCommentEnd]))
        re_calc_detail
  | DocTrivia =>
      when (negb (current in_t [TkWhitespace; TkEndOfLine; TkEof; TkDocContinueOr]))
        (modify (put_kind TkDocTrivia))
  | DocNormal =>
      cast <- gets (fun p => bool_decide (DocLexer.state (lexer p) = DocCastExpr)) ;;
      when cast re_calc_cast_type
  | _ => ret tt
  end ;;;
  put_lexer_state st.

Definition bump_to_end : M t unit :=
  set_lexer_state DocTrivia ;;;
  eat_current_and_lex_next ;;;
  set_lexer_state DocInit ;;;
  bump.

Definition push_error (err : LuaParseError) : M t unit :=
  modify (fun p => set_lua_parser (add_error err (lua_parser p)) p).

Definition set_parser_state (st : LuaDocParserState) : M t unit := modify (set_state st).

Definition set_current_token_kind (kind : LuaTokenKind) : M t unit := modify (put_kind kind).

(** The state in which [LuaDocParser::parse] starts. *)
Definition new (lua_parser : LuaParser) (tokens : list LuaTokenData) : t :=
  mk lua_parser tokens (DocLexer.new (LuaParser.origin_text lua_parser)) TkNone SourceRange.EMPTY 0
    PsNormal.
End Parser.
End DocParser.
