(* ===== verification/LuaParserProofs.v ===== *)
(** * The token cursor

    [bump] records the current token and everything up to the next one, keeps the
    events well formed, and never reads a token that is not there.  Stated for any
    doc comment parser that keeps its promise, [DocCommentsLaws]. *)

From S2P Require Import Prelude Kinds Text LuaLexer LuaLexerProofs Marker Discipline LuaParser.
Import LuaParser.
Local Open Scope prog_scope.

(** [covers t ts a c]: the tokens [ts] lie end to end over the bytes from [a] to
    [c] of the text [t], on character boundaries, and none is empty. *)
Definition covers (t : rstring) (ts : list LuaTokenData) (a c : nat) : Prop :=
  exists pre parts post, t = pre ++ concat parts ++ post /\ blen pre = a
    /\ spans a (tok_range <$> ts) parts /\ c = a + blen (concat parts)
    /\ Forall (fun p => p <> []) parts /\ no_nul (concat parts).

(** A group of comments: white space and comments only, a comment first. *)
Definition is_comment (t : LuaTokenData) : bool :=
  tok_kind t in_t [TkShortComment; TkLongComment].
Definition comment_group (ts : list LuaTokenData) : Prop :=
  Forall (fun t => is_trivia_kind (tok_kind t) = true) ts
  /\ exists t ts', ts = t :: ts' /\ is_comment t = true.

(** Only the events matter: no assumption on the rest of the parser. *)
Definition any_rest {R} (_ : R) (_ : list (LuaTokenKind * SourceRange)) : Prop := True.
Definition no_pos {R} (_ : R) : nat := 0.

(** [Ev b q s]: the parser has the rest it had in [b], and only complete nodes and
    tokens were added. *)
Definition Ev (b : LuaParser) (q : Status) (s : LuaParser) : Prop :=
  rest s = rest b /\ At any_rest no_pos b false [] q 0 s.

(** [eaten_text t o es]: the tokens [es] lie end to end over the first [o] bytes
    of the text, on character boundaries. *)
Definition eaten_text (t : rstring) (o : nat) (es : list (LuaTokenKind * SourceRange)) : Prop :=
  exists parts tail, t = concat parts ++ tail /\ blen (concat parts) = o /\ spans 0 (snd <$> es) parts.

Definition eaten_to (o : nat) (s : LuaParser) : Prop :=
  eaten_text (text s) o (eaten (shapes (events s))).

(** [on_text t o ts parts]: from the byte [o] of the text on stand the tokens
    [ts], whose texts are [parts]. *)
Definition on_text (t : rstring) (o : nat) (ts : list LuaTokenData) (parts : list rstring) : Prop :=
  exists pre post, t = pre ++ concat parts ++ post /\ blen pre = o /\ spans o (tok_range <$> ts) parts.

Lemma covers_on_text t ts a c :
  covers t ts a c -> exists parts, on_text t a ts parts /\ c = a + blen (concat parts).
Proof. intros (pre & parts & post & Ht & Ha & Hs & Hc & _). exists parts. split; [|done]. by exists pre, post. Qed.

Lemma on_text_cons t o tk ts p parts :
  on_text t o (tk :: ts) (p :: parts) ->
  on_text t o [tk] [p] /\ on_text t (o + blen p) ts parts.
Proof.
  intros (pre & post & -> & Ho & Hs & Hl & Hsp). split.
  - exists pre, (concat parts ++ post). simpl. rewrite app_nil_r, <-app_assoc. done.
  - exists (pre ++ p), post. simpl. rewrite <-!app_assoc, blen_app, Ho. done.
Qed.

Lemma eaten_text_snoc t o es tk p :
  eaten_text t o es -> on_text t o [tk] [p] ->
  eaten_text t (o + blen p) (es ++ [(tok_kind tk, tok_range tk)]).
Proof.
  intros (parts & tail & Ht & Ho & Hs) (pre & post & Ht' & Ho' & Hs' & Hl' & _).
  simpl in Ht'. rewrite app_nil_r in Ht'. rewrite Ht in Ht'.
  destruct (blen_prefix_eq _ _ _ _ Ht') as [<- ->]; [congruence|].
  exists (parts ++ [p]), post. rewrite concat_app. simpl. rewrite app_nil_r, blen_app, Ho, <-app_assoc.
  split_and!; [done|done|]. rewrite fmap_app. apply spans_app; [done|]. simpl. rewrite Ho. by split_and!.
Qed.

(** What the parser of the doc comments promises to the Lua parser. *)
Class DocCommentsLaws `{DocComments} := {
  parse_doc_comment_spec ts a c (p : LuaParser) :
    covers (text p) ts a c -> comment_group ts -> events_ok (events p) -> eaten_to a p ->
    wp (parse_doc_comment ts) (fun _ p' => Ev p Any p' /\ eaten_to c p') p
}.

Section Cursor.
Context `{DocCommentsLaws}.
Implicit Types (b p s : LuaParser) (t : LuaTokenData) (ts : list LuaTokenData).

(** ** Event steps *)

Lemma Ev_refl s : events_ok (events s) -> Ev s Any s.
Proof. intros Hev. split; [done|]. by apply AtF_refl. Qed.

Lemma Ev_events b q s : Ev b q s -> events_ok (events s).
Proof. intros [_ HA]. apply HA. Qed.

Lemma Ev_weaken b q q' s : Ev b q s -> rank q' <= rank q -> Ev b q' s.
Proof. intros [Hr HA] Hq. split; [done|]. by eapply At_weaken. Qed.

Lemma Ev_trans b q q' s s' : Ev b q s -> Ev s q' s' -> Ev b (join q q') s'.
Proof.
  intros [Hr HA] [Hr' HA']. split; [congruence|]. by eapply (At_frame _ _ _ _ _ _ _ 0 0 false s).
Qed.

Lemma Ev_keep b q s s' : Ev b q s -> Ev s Any s' -> Ev b q s'.
Proof.
  intros H1 H2. eapply Ev_weaken; [by eapply Ev_trans|]. destruct q; simpl; lia.
Qed.

Lemma wp_eat_token t b q s o (p : rstring) :
  Ev b q s -> eaten_to o s -> on_text (text s) o [t] [p] ->
  wp (eat_token t) (fun _ s' =>
    Ev b (join q (if solid_token (tok_kind t) then Solid else Tokens)) s'
    /\ eaten_to (o + blen p) s') s.
Proof.
  intros HE Ho Hs. unfold eat_token. apply wp_push_event. intros s' [Hr He] Hev Hl.
  simpl in Hev. split.
  - eapply Ev_trans; [exact HE|]. split; [done|].
    assert (events_ok (events s')) as Hok.
    { rewrite Hev. apply events_ok_other; [by eapply Ev_events|done]. }
    eapply (AtF_weaken any_rest no_pos _ _ _ (fun f => f = eat_trees [(tok_kind t, tok_range t)])
      _ 0); [by apply AtF_eat| |done].
    intros f ->. destruct (solid_token (tok_kind t)) eqn:Hst; simpl; [|done]. by rewrite Hst.
  - assert (text s' = text s) as Htx by by injection Hr.
    unfold eaten_to. rewrite Htx, Hev, shapes_app, eaten_app. by apply eaten_text_snoc.
Qed.

Lemma wp_eat_tokens ts b q s o parts :
  Ev b q s -> eaten_to o s -> on_text (text s) o ts parts ->
  wp (eat_tokens ts) (fun _ s' => Ev b q s' /\ eaten_to (o + blen (concat parts)) s') s.
Proof.
  revert s o parts. induction ts as [|t ts IH]; intros s o parts HE Ho Hsp; simpl.
  - apply wp_ret. destruct parts; [|by destruct Hsp as (? & ? & _ & _ & ?)].
    simpl. by rewrite Nat.add_0_r.
  - destruct parts as [|p parts]; [by destruct Hsp as (? & ? & _ & _ & ?)|].
    apply on_text_cons in Hsp as [Hs Hsp].
    assert (text s = text b) as Htx by by (destruct HE as [Hr _]; injection Hr).
    eapply wp_seq; [by eapply wp_eat_token|]. intros _ s' [HE' Ho'].
    simpl. rewrite blen_app, Nat.add_assoc. apply IH; [|done|].
    + eapply Ev_weaken; [done|]. destruct q; case_match; simpl; lia.
    + assert (text s' = text b) as -> by by (destruct HE' as [Hr _]; injection Hr). by rewrite <-Htx.
Qed.
End Cursor.

(** ** Slices of the lexed tokens *)

(** What the lexer hands over: the tokens [toks] lie over the prefix
    [concat parts] of the text, one part each. *)
Record lexed (txt : rstring) (toks : list LuaTokenData) (parts : list rstring) : Prop := mkLexed {
  lx_text : exists tail, txt = concat parts ++ tail;
  lx_spans : spans 0 (tok_range <$> toks) parts;
  lx_nonempty : Forall (fun p => p <> []) parts;
  lx_no_nul : no_nul (concat parts);
  lx_kinds : Forall (fun t => lexed_kind (tok_kind t) = true) toks
}.

Definition slice {A} (l : list A) (i n : nat) : list A := take n (drop i l).

(** The byte offset of the [i]-th token. *)
Definition offset (parts : list rstring) (i : nat) : nat := blen (concat (take i parts)).

Section Slices.
Context {A : Type}.
Implicit Types (l : list A).

Lemma slice_snoc l i n x : l !! (i + n) = Some x -> slice l i n ++ [x] = slice l i (S n).
Proof.
  intros Hx. unfold slice. symmetry. apply take_S_r. by rewrite lookup_drop.
Qed.

Lemma slice_length l i n : i + n <= length l -> length (slice l i n) = n.
Proof. intros Hn. unfold slice. rewrite length_take, length_drop. lia. Qed.

Lemma take_slice l i n k : k <= n -> take k (slice l i n) = slice l i k.
Proof. intros Hk. unfold slice. rewrite take_take. f_equal. lia. Qed.

Lemma drop_slice l i n k : k <= n -> drop k (slice l i n) = slice l (i + k) (n - k).
Proof. intros Hk. unfold slice. by rewrite skipn_firstn_comm, drop_drop. Qed.

Lemma slice_1 l i x : l !! i = Some x -> slice l i 1 = [x].
Proof. intros Hx. unfold slice. by rewrite (drop_S _ _ _ Hx). Qed.
End Slices.

Lemma spans_take a rs ps n : spans a rs ps -> spans a (take n rs) (take n ps).
Proof.
  revert a ps n. induction rs as [|r rs IH]; intros a [|p ps] [|n]; simpl; try done.
  intros (Hs & Hl & Hr). split_and!; [done..|by apply IH].
Qed.

Lemma spans_drop a rs ps i :
  spans a rs ps -> spans (a + blen (concat (take i ps))) (drop i rs) (drop i ps).
Proof.
  revert a ps i. induction rs as [|r rs IH]; intros a [|p ps] [|i]; simpl; try done.
  - by rewrite Nat.add_0_r.
  - intros (Hs & Hl & Hr). rewrite blen_app, Nat.add_assoc. by apply IH.
Qed.

Lemma offset_add parts i n : offset parts (i + n) = offset parts i + blen (concat (slice parts i n)).
Proof. unfold offset, slice. by rewrite <-take_take_drop, concat_app, blen_app. Qed.

Section Lexed.
Context {txt : rstring} {toks : list LuaTokenData} {parts : list rstring}.
Hypothesis L : lexed txt toks parts.

Lemma slice_spans i n :
  spans (offset parts i) (tok_range <$> slice toks i n) (slice parts i n).
Proof.
  unfold slice, offset. rewrite fmap_take, fmap_drop.
  apply spans_take. apply (spans_drop 0), (lx_spans _ _ _ L).
Qed.

Lemma slice_covers i n : covers txt (slice toks i n) (offset parts i) (offset parts (i + n)).
Proof.
  destruct (lx_text _ _ _ L) as [tail Ht].
  assert (Hsplit : parts = take i parts ++ slice parts i n ++ drop (i + n) parts).
  { unfold slice. rewrite <-drop_drop, take_drop. by rewrite take_drop. }
  exists (concat (take i parts)), (slice parts i n), (concat (drop (i + n) parts) ++ tail).
  split_and!; [|done|by apply slice_spans|by rewrite offset_add|..].
  - rewrite Ht. rewrite Hsplit at 1. by rewrite !concat_app, <-!app_assoc.
  - pose proof (lx_nonempty _ _ _ L) as Hne. rewrite Hsplit in Hne.
    apply Forall_app in Hne as [_ Hne]. by apply Forall_app in Hne as [Hne _].
  - pose proof (lx_no_nul _ _ _ L) as Hn. rewrite Hsplit, !concat_app in Hn.
    apply Forall_app in Hn as [_ Hn]. by apply Forall_app in Hn as [Hn _].
Qed.

Lemma slice_on_text i n : on_text txt (offset parts i) (slice toks i n) (slice parts i n).
Proof.
  destruct (lx_text _ _ _ L) as [tail Ht].
  assert (Hsplit : parts = take i parts ++ slice parts i n ++ drop (i + n) parts).
  { unfold slice. rewrite <-drop_drop, take_drop. by rewrite take_drop. }
  exists (concat (take i parts)), (concat (drop (i + n) parts) ++ tail).
  split_and!; [|done|by apply slice_spans].
  rewrite Ht. rewrite Hsplit at 1. by rewrite !concat_app, <-!app_assoc.
Qed.

Lemma token_on_text i t :
  toks !! i = Some t ->
  exists p, on_text txt (offset parts i) [t] [p] /\ offset parts (S i) = offset parts i + blen p.
Proof.
  intros Ht. pose proof (slice_on_text i 1) as Hon. rewrite (slice_1 _ _ _ Ht) in Hon.
  rewrite <-Nat.add_1_r, offset_add.
  destruct (slice parts i 1) as [|p [|p' ps]]; [|exists p; simpl; by rewrite app_nil_r|];
    destruct Hon as (? & ? & _ & _ & Hs); simpl in Hs; tauto.
Qed.

Lemma token_offsets i t :
  toks !! i = Some t ->
  start_offset (tok_range t) = offset parts i
  /\ SourceRange.end_offset (tok_range t) = offset parts (S i)
  /\ offset parts i < offset parts (S i).
Proof.
  intros Ht. pose proof (slice_spans i 1) as Hsp. rewrite (slice_1 _ _ _ Ht) in Hsp.
  rewrite <-(Nat.add_1_r i), offset_add. pose proof (lx_nonempty _ _ _ L) as Hne.
  destruct (slice parts i 1) as [|p ps] eqn:Hp; [done|]. simpl in Hsp.
  destruct Hsp as (Hs & Hl & Hsp). destruct ps; [|done]. simpl. rewrite app_nil_r.
  unfold SourceRange.end_offset. rewrite Hs, Hl. split_and!; [done..|].
  assert (p <> []) as Hpn.
  { assert (slice parts i 1 !! 0 = Some p) as Hp0 by by rewrite Hp.
    unfold slice in Hp0. rewrite lookup_take_lt, lookup_drop in Hp0 by lia.
    by eapply Forall_lookup_1 in Hp0; [|exact Hne]. }
  destruct p; [done|]. rewrite blen_cons. pose proof (len_utf8_pos c). lia.
Qed.
End Lexed.

(** ** The loop over the trivia *)

Section Trivia.
Context `{DocCommentsLaws}.
Context {txt : rstring} {toks : list LuaTokenData} {parts : list rstring}.
Hypothesis L : lexed txt toks parts.
Implicit Types (b p s : LuaParser) (t : LuaTokenData) (ts : list LuaTokenData).

Definition reads b : Prop := text b = txt /\ tokens b = toks.

Lemma reads_rest b s : reads b -> rest s = rest b -> reads s.
Proof. intros [H1 H2] Hr. injection Hr as Ht Hk _ _ _. split; congruence. Qed.

Lemma trivia_token_start_le ts i : trivia_token_start ts i <= i.
Proof.
  induction i as [|i IH]; simpl; [done|]. destruct (ts !! i) as [t|]; [|lia].
  case_if; lia.
Qed.

Lemma comment_not_space t :
  is_comment t = true -> (tok_kind t in_t [TkWhitespace; TkEndOfLine]) = false.
Proof. unfold is_comment. by destruct (tok_kind t). Qed.

Lemma trivia_token_start_pos t ts i :
  is_comment t = true -> 1 <= i -> 1 <= trivia_token_start (t :: ts) i.
Proof.
  intros Hc. induction i as [|i IH]; intros Hi; [lia|]. cbn [trivia_token_start].
  destruct i as [|i].
  - cbn [lookup list_lookup]. rewrite comment_not_space by done. lia.
  - destruct ((t :: ts) !! S i) as [t'|]; [|lia]. case_if; [apply IH|]; lia.
Qed.

Lemma comment_group_take ts k :
  comment_group ts -> 1 <= k -> comment_group (take k ts).
Proof.
  intros [Hf (t & ts' & -> & Hc)] Hk. destruct k as [|k]; [lia|].
  split; [by apply Forall_take|]. by exists t, (take k ts').
Qed.

Lemma wp_parse_comments b q s j k :
  reads b -> Ev b q s -> eaten_to (offset parts j) s -> j + k <= length toks ->
  comment_group (slice toks j k) ->
  wp (parse_comments (slice toks j k)) (fun _ s' =>
    Ev b q s' /\ eaten_to (offset parts (j + k)) s') s.
Proof.
  intros Hb HE Ho Hjk Hg. pose proof (slice_length toks j k Hjk) as Hlen.
  unfold parse_comments. apply wp_bind, wp_gets. case_if.
  - rewrite offset_add. pose proof (reads_rest _ _ Hb (proj1 HE)) as [Htx _].
    eapply wp_eat_tokens; [done|done|]. rewrite Htx. by apply (slice_on_text L).
  - rewrite Hlen. set (st := trivia_token_start (slice toks j k) k).
    assert (Hst : 1 <= st <= k).
    { split; [|apply trivia_token_start_le]. destruct Hg as [_ (t & ts' & Heq & Hc)].
      unfold st. rewrite Heq. apply trivia_token_start_pos; [done|].
      rewrite Heq in Hlen. simpl in Hlen. lia. }
    pose proof (reads_rest _ _ Hb (proj1 HE)) as [Htx Htk].
    eapply wp_seq.
    + apply (parse_doc_comment_spec _ (offset parts j) (offset parts (j + st)));
        [|apply comment_group_take; [done|lia]| |done].
      * rewrite take_slice by lia. rewrite Htx. by apply (slice_covers L).
      * by eapply Ev_events.
    + intros _ s' [HE' Ho']. rewrite drop_slice by lia.
      replace (offset parts (j + k)) with (offset parts (j + st + (k - st))) by (f_equal; lia).
      rewrite (offset_add _ (j + st)).
      eapply wp_eat_tokens; [by eapply Ev_keep|done|].
      assert (text s' = text s) as -> by by (destruct HE' as [Hr _]; injection Hr).
      rewrite Htx. by apply (slice_on_text L).
Qed.

Lemma is_inline_comment_total ts n : n <= length ts -> exists r, is_inline_comment ts n = Some r.
Proof.
  induction n as [|n IH]; intros Hn; simpl; [by eexists|].
  destruct (lookup_lt_is_Some_2 ts n) as [t ->]; [lia|]. simpl.
  destruct (tok_kind t =t TkEndOfLine); [by eexists|].
  destruct (tok_kind t =t TkWhitespace); [apply IH; lia|by eexists].
Qed.

(** [doc]: the comment group that is being collected before the token [i]. *)
Record TriviaInv b (q : Status) (i : nat) (doc : list LuaTokenData) s : Prop := mkTriviaInv {
  ti_ev : Ev b q s;
  ti_len : length doc <= i;
  ti_doc : doc = slice toks (i - length doc) (length doc);
  ti_group : doc = [] \/ comment_group doc;
  ti_eaten : eaten_to (offset parts (i - length doc)) s
}.

Lemma TriviaInv_empty b q i s :
  Ev b q s -> eaten_to (offset parts i) s -> TriviaInv b q i [] s.
Proof. intros HE Ho. split; simpl; rewrite ?Nat.sub_0_r; try done; [lia|by left]. Qed.

Lemma TriviaInv_push b q i doc t s :
  TriviaInv b q i doc s -> toks !! i = Some t -> is_trivia_kind (tok_kind t) = true ->
  (doc = [] -> is_comment t = true) -> TriviaInv b q (S i) (doc ++ [t]) s.
Proof.
  intros [HE Hl Hd Hg Ho] Ht Htr Hc.
  assert (Hlen : S i - length (doc ++ [t]) = i - length doc) by (rewrite length_app; simpl; lia).
  split; rewrite ?Hlen; try done.
  - rewrite length_app. simpl. lia.
  - rewrite length_app. simpl. rewrite Nat.add_1_r, <-(slice_snoc _ _ _ t).
    + by rewrite <-Hd.
    + by rewrite Nat.sub_add.
  - right. destruct Hg as [->|[Hf (t0 & ts' & -> & Ht0)]].
    + split; [by repeat constructor|]. exists t, []. by split; [|apply Hc].
    + split; [apply Forall_app; split; [done|by constructor]|]. by exists t0, (ts' ++ [t]).
Qed.

(** Flushing the group. *)
Lemma wp_flush b q i doc s (v : nat) :
  reads b -> TriviaInv b q i doc s -> i <= length toks -> doc <> [] ->
  wp (parse_comments doc ;;; ret (v, [])) (fun vars s' => TriviaInv b q i vars.2 s') s.
Proof.
  intros Hb [HE Hl Hd Hg Ho] Hi Hne. destruct Hg as [|Hg]; [done|].
  rewrite Hd. eapply wp_seq.
  - eapply wp_parse_comments; [done|done|done|lia|]. by rewrite <-Hd.
  - intros _ s' [HE' Ho']. apply wp_ret. apply TriviaInv_empty; [done|].
    by rewrite Nat.sub_add in Ho' by done.
Qed.

Lemma wp_eat_trivia b q i t s (v : nat) :
  reads b -> Ev b q s -> eaten_to (offset parts i) s -> toks !! i = Some t ->
  wp (eat_token t) (fun _ s' => TriviaInv b q (S i) [] s') s.
Proof.
  intros Hb HE Ho Ht. destruct (token_on_text L _ _ Ht) as (p & Hon & He).
  pose proof (reads_rest _ _ Hb (proj1 HE)) as [Htx _].
  eapply wp_mono; [eapply wp_eat_token; [done|done|by rewrite Htx]|]. intros _ s' [HE' Ho'].
  rewrite <-He in Ho'.
  apply TriviaInv_empty; [|done].
  eapply Ev_weaken; [done|]. destruct q; case_match; simpl; lia.
Qed.

Lemma wp_parse_trivia_token b q i lc doc s t :
  reads b -> TriviaInv b q i doc s -> toks !! i = Some t -> is_trivia_kind (tok_kind t) = true ->
  wp (parse_trivia_token i (lc, doc)) (fun vars s' => TriviaInv b q (S i) vars.2 s') s.
Proof.
  intros Hb HT Ht Htr. pose proof (lookup_lt_Some _ _ _ Ht) as Hi.
  destruct (reads_rest _ s Hb (proj1 (ti_ev _ _ _ _ _ HT))) as [_ Htk].
  unfold parse_trivia_token. apply wp_bind, wp_gets. rewrite Htk.
  apply wp_bind. eapply wp_unwrap; [done|]. cbv zeta.
  destruct (tok_kind t in_t [TkShortComment; TkLongComment]) eqn:Hcom.
  { apply wp_ret. by apply TriviaInv_push. }
  destruct (tok_kind t =t TkEndOfLine) eqn:Heol.
  { apply (wp_seq (fun doc' s' => TriviaInv b q (S i) doc' s')).
    - case_bool_decide as Hd.
      + subst doc. destruct HT as [HE _ _ _ Ho]. rewrite Nat.sub_0_r in Ho.
        eapply wp_seq; [by eapply (wp_eat_trivia)|]. intros [] s' HT. by apply wp_ret.
      + apply wp_ret. by apply TriviaInv_push.
    - clear HT Htk. intros doc' s' HT. case_if.
      { apply andb_true_iff in Heqb0 as [_ Hn%negb_true_iff]. apply bool_decide_eq_false in Hn.
        by apply wp_flush. }
      case_if; [|by apply wp_ret].
      apply andb_true_iff in Heqb1 as [H2%Nat.eqb_eq _].
      destruct (is_inline_comment_total toks (i - 1)) as [r Hr]; [lia|].
      apply wp_bind. eapply wp_unwrap; [done|]. destruct r; [|by apply wp_ret].
      apply wp_flush; [done|done|lia|]. by intros ->. }
  destruct (tok_kind t in_t [TkShebang; TkWhitespace]) eqn:Hws.
  - case_bool_decide as Hd.
    + subst doc. destruct HT as [HE _ _ _ Ho]. rewrite Nat.sub_0_r in Ho.
      eapply wp_seq; [by eapply (wp_eat_trivia)|]. intros [] s' HT. by apply wp_ret.
    + apply wp_ret. by apply TriviaInv_push.
  - exfalso. revert Htr Hcom Heol Hws. by destruct (tok_kind t).
Qed.

Lemma wp_trivia_loop n b q i lc doc s :
  reads b -> TriviaInv b q i doc s -> i + n <= length toks ->
  (forall j t, i <= j < i + n -> toks !! j = Some t -> is_trivia_kind (tok_kind t) = true) ->
  wp (trivia_loop n i (lc, doc)) (fun vars s' => TriviaInv b q (i + n) vars.2 s') s.
Proof.
  intros Hb. revert i lc doc s. induction n as [|n IH]; intros i lc doc s HT Hn Htr; simpl.
  - apply wp_ret. by rewrite Nat.add_0_r.
  - destruct (lookup_lt_is_Some_2 toks i) as [t Ht]; [lia|].
    eapply wp_seq; [eapply wp_parse_trivia_token; [done|done|done|]|].
    { apply (Htr i); [lia|done]. }
    intros [lc' doc'] s' HT'. simpl in HT'. rewrite <-Nat.add_succ_comm.
    apply IH; [done|lia|]. intros j t' Hj. apply Htr. lia.
Qed.
End Trivia.

(** ** The invariant of the Lua parser *)

Section LuaInvariant.
Context `{DocCommentsLaws}.
Context {txt : rstring} {toks : list LuaTokenData} {parts : list rstring} {cfg : ParserConfig}.
Hypothesis L : lexed txt toks parts.
Implicit Types (b p s : LuaParser) (t : LuaTokenData) (ts : list LuaTokenData).

Definition kind_at (ts : list LuaTokenData) (i : nat) : LuaTokenKind :=
  match ts !! i with Some t => tok_kind t | None => TkEof end.

(** The cursor is on a token that is not trivia, or at the end; what was eaten
    covers the text up to the cursor. *)
Record lua_inv (r : LuaRest) (es : list (LuaTokenKind * SourceRange)) : Prop := mkLuaInv {
  li_text : r_text r = txt;
  li_tokens : r_tokens r = toks;
  li_config : r_config r = cfg;
  li_index : r_index r <= length toks;
  li_current : r_current r = kind_at toks (r_index r);
  li_solid : forall t, toks !! r_index r = Some t -> is_trivia_kind (tok_kind t) = false;
  li_eaten : eaten_text txt (offset parts (r_index r)) es
}.

Definition lua_pos (r : LuaRest) : nat := r_index r.

Lemma skip_trivia_spec ts i n :
  skip_trivia_from ts i = n ->
  i <= n <= i + length ts
  /\ (forall j t, j < n - i -> ts !! j = Some t -> is_trivia_kind (tok_kind t) = true)
  /\ (forall t, ts !! (n - i) = Some t -> is_trivia_kind (tok_kind t) = false).
Proof.
  revert i. induction ts as [|t ts IH]; intros i; simpl.
  - intros <-. split_and!; [lia|lia| |done]. intros j t Hj. lia.
  - destruct (is_trivia_kind (tok_kind t)) eqn:Ht.
    + intros Hn. destruct (IH _ Hn) as (Hb & H1 & H2). split_and!; [lia|lia|..].
      * intros [|j] t' Hj; simpl; [by intros [= <-]|]. apply H1. lia.
      * replace (n - i) with (S (n - S i)) by lia. simpl. apply H2.
    + intros <-. split_and!; [lia|lia| |].
      * intros j t' Hj. lia.
      * rewrite Nat.sub_diag. simpl. by intros t' [= <-].
Qed.

Lemma skip_trivia_bounds s i n :
  tokens s = toks -> i <= length toks -> skip_trivia s i = n ->
  i <= n <= length toks
  /\ (forall j t, i <= j < n -> toks !! j = Some t -> is_trivia_kind (tok_kind t) = true)
  /\ (forall t, toks !! n = Some t -> is_trivia_kind (tok_kind t) = false).
Proof.
  intros Htk Hi Hn. unfold skip_trivia in Hn. rewrite Htk in Hn.
  destruct (skip_trivia_spec _ _ _ Hn) as (Hb & H1 & H2). rewrite length_drop in Hb.
  split_and!; [lia|lia|..].
  - intros j t Hj Ht. apply (H1 (j - i)); [lia|]. rewrite lookup_drop.
    by replace (i + (j - i)) with j by lia.
  - intros t Ht. apply H2. rewrite lookup_drop. by replace (i + (n - i)) with n by lia.
Qed.

Lemma lexed_kind_at i t : toks !! i = Some t -> lexed_kind (tok_kind t) = true.
Proof. intros Ht. by eapply Forall_lookup_1 in Ht; [|exact (lx_kinds _ _ _ L)]. Qed.

Lemma invalid_is_trivia k : lexed_kind k = true -> is_invalid_kind k = is_trivia_kind k.
Proof. by destruct k. Qed.

Lemma solid_is_not_trivia k :
  lexed_kind k = true -> is_trivia_kind k = false -> solid_token k = true.
Proof. by destruct k. Qed.

(** The state on which [bump] may be called: [init] calls it on trivia. *)
Record BumpPre (i : nat) (t : LuaTokenData) s : Prop := mkBumpPre {
  bp_reads : @reads txt toks s;
  bp_config : parse_config s = cfg;
  bp_index : token_index s = i;
  bp_token : toks !! i = Some t;
  bp_current : current_token s = tok_kind t;
  bp_events : events_ok (events s);
  bp_eaten : eaten_to (offset parts i) s
}.

Definition token_status (t : LuaTokenData) : Status :=
  if is_trivia_kind (tok_kind t) then Any else Solid.

Lemma wp_first_token i t s :
  BumpPre i t s ->
  wp (match tokens s !! token_index s with
      | Some token => when (negb (is_invalid_kind (current_token s))) (eat_token token)
      | None => ret tt
      end)
    (fun _ s' => if is_trivia_kind (tok_kind t)
                 then s' = s
                 else Ev s Solid s' /\ eaten_to (offset parts (S i)) s') s.
Proof.
  intros [[Htx Htk] Hcf Hix Ht Hcur Hev Hea]. rewrite Htk, Hix, Ht, Hcur.
  pose proof (lexed_kind_at _ _ Ht) as Hk. rewrite invalid_is_trivia by done.
  destruct (is_trivia_kind (tok_kind t)) eqn:Htr; simpl; [by apply wp_ret|].
  destruct (token_on_text L _ _ Ht) as (p & Hon & He). rewrite He.
  eapply wp_mono; [eapply wp_eat_token; [by apply Ev_refl|done|by rewrite Htx]|].
  intros _ s' [HE Ho]. split; [|done].
  rewrite solid_is_not_trivia in HE by done. by eapply Ev_weaken.
Qed.

Lemma wp_trivia_tokens i t n b q s :
  BumpPre i t b -> Ev b q s ->
  (if is_trivia_kind (tok_kind t) then s = b
   else eaten_to (offset parts (S i)) s) ->
  S i <= n <= length toks ->
  (forall j t', S i <= j < n -> toks !! j = Some t' -> is_trivia_kind (tok_kind t') = true) ->
  wp (parse_trivia_tokens n) (fun _ s' => Ev b q s' /\ eaten_to (offset parts n) s') s.
Proof.
  intros [Hrd Hcf Hix Ht Hcur Hev Hea] HE Hs Hn Htr.
  pose proof (reads_rest _ _ Hrd (proj1 HE)) as [Htx Htk].
  assert (token_index s = i) as Hixs by (destruct HE as [Hr _]; injection Hr; congruence).
  unfold parse_trivia_tokens. apply wp_bind, wp_gets. rewrite Hixs.
  apply (wp_seq (fun vars s' => TriviaInv (toks := toks) (parts := parts) b q n vars.2 s')).
  - replace (n - i) with (S (n - S i)) by lia. cbn [trivia_loop].
    apply (wp_seq (fun vars s' => TriviaInv (toks := toks) (parts := parts) b q (S i) vars.2 s')).
    + destruct (is_trivia_kind (tok_kind t)) eqn:Htriv.
      * subst s. eapply (wp_parse_trivia_token L); [done| |done|done].
        by apply TriviaInv_empty.
      * unfold parse_trivia_token. apply wp_bind, wp_gets. rewrite Htk.
        apply wp_bind. eapply wp_unwrap; [done|]. cbv zeta.
        replace (tok_kind t in_t [TkShortComment; TkLongComment]) with false
          by (revert Htriv; by destruct (tok_kind t)).
        replace (tok_kind t =t TkEndOfLine) with false
          by (revert Htriv; by destruct (tok_kind t)).
        replace (tok_kind t in_t [TkShebang; TkWhitespace]) with false
          by (revert Htriv; by destruct (tok_kind t)).
        rewrite bool_decide_eq_true_2 by done. apply wp_ret. by apply TriviaInv_empty.
    + intros [lc doc] s' HT. simpl in HT.
      eapply wp_mono; [eapply (wp_trivia_loop L); [done|done|lia|]|].
      * intros j t' Hj. apply Htr. lia.
      * intros vars s'' HT'. by replace (S i + (n - S i)) with n in HT' by lia.
  - intros [lc doc] s' HT. simpl in HT |- *. case_bool_decide as Hd.
    + subst doc. apply wp_ret. destruct HT as [HE' _ _ _ Ho]. by rewrite Nat.sub_0_r in Ho.
    + destruct HT as [HE' Hl Hdoc [|Hg] Ho]; [done|]. rewrite Hdoc.
      eapply wp_mono; [eapply (wp_parse_comments L); [done|done|done|lia|by rewrite <-Hdoc]|].
      intros _ s'' [HE'' Ho'']. by rewrite Nat.sub_add in Ho''.
Qed.

(** *** [bump] *)

Lemma wp_bump_core i t s :
  BumpPre i t s ->
  wp bump (fun _ s' => OkState lua_inv s' /\ i < token_index s'
                       /\ token_index s' = skip_trivia s (i + 1)
                       /\ At any_rest no_pos s false [] (token_status t) 0 s') s.
Proof.
  intros HB. pose proof HB as [Hrd Hcf Hix Ht Hcur Hev Hea].
  pose proof (lookup_lt_Some _ _ _ Ht) as Hi.
  unfold bump. apply wp_bind, wp_gets, wp_bind, wp_gets.
  eapply wp_seq; [by apply wp_first_token|]. intros [] s1 Hs1.
  assert (Ev s (token_status t) s1 /\
          (if is_trivia_kind (tok_kind t) then s1 = s else eaten_to (offset parts (S i)) s1))
    as [HE Hs1'].
  { unfold token_status. destruct (is_trivia_kind (tok_kind t)); [|done].
    subst s1. split; [by apply Ev_refl|done]. }
  clear Hs1. pose proof (reads_rest _ _ Hrd (proj1 HE)) as [_ Htk].
  assert (token_index s1 = i) as Hix1 by (destruct HE as [Hr _]; injection Hr; congruence).
  apply wp_bind, wp_gets.
  remember (skip_trivia s1 (token_index s1 + 1)) as n eqn:Hn. symmetry in Hn.
  assert (skip_trivia s (i + 1) = n) as Hnext.
  { rewrite <-Hn, Hix1. unfold skip_trivia. destruct Hrd as [_ Htks]. by rewrite Htk, Htks. }
  apply (skip_trivia_bounds _ _ _ Htk) in Hn as (Hb & Htriv & Hsol); [|lia]. rewrite Hix1 in Hb, Htriv.
  eapply wp_seq; [eapply wp_trivia_tokens; [exact HB|exact HE|exact Hs1'|lia|]|].
  { intros j t' Hj. apply Htriv. lia. }
  intros _ s2 [HE2 Ho2]. pose proof (reads_rest _ _ Hrd (proj1 HE2)) as [Htx2 Htk2].
  apply wp_bind, wp_gets, wp_modify. rewrite Htk2.
  assert (parse_config s2 = cfg) as Hcf2 by (destruct HE2 as [Hr _]; injection Hr; congruence).
  destruct HE2 as [_ HA2]. split_and!; [|simpl; lia|done|].
  - split; [|apply HA2]. split; [exact Htx2|exact Htk2|exact Hcf2|simpl; lia|done|exact Hsol|].
    unfold eaten_to in Ho2. rewrite Htx2 in Ho2. exact Ho2.
  - destruct HA2 as [[_ Hok] Hsh Hm Hd Hl He Hp Hc]. split; try done.
    intros HE2. destruct (Hc HE2) as [H1 H2 H3]. by split.
Qed.

Lemma OkState_pre s : OkState lua_inv s -> token_index s < length toks ->
  exists t, BumpPre (token_index s) t s /\ token_status t = Solid.
Proof.
  intros [[Htx Htk Hcf Hi Hcur Hsol Hea] Hev] Hlt.
  destruct (lookup_lt_is_Some_2 toks (token_index s)) as [t Ht]; [done|].
  simpl in Htx. exists t. split; [split; try done; [|unfold eaten_to; by rewrite Htx]|].
  - simpl in Hcur. rewrite Hcur. unfold kind_at. by rewrite Ht.
  - unfold token_status. by rewrite (Hsol t Ht).
Qed.

Lemma wp_bump b g ms q j s (Q : unit -> LuaParser -> Prop) :
  At lua_inv lua_pos b g ms q j s -> token_index s < length toks ->
  (forall s', token_index s' = skip_trivia s (token_index s + 1) ->
     At lua_inv lua_pos b g ms (join q Solid) (j + 1) s' -> Q tt s') ->
  wp bump Q s.
Proof.
  intros HA Hlt HQ. destruct (OkState_pre s (at_ok _ _ _ _ _ _ _ _ HA) Hlt) as (t & HB & Hst).
  eapply wp_mono; [by eapply wp_bump_core|]. intros [] s' (Hok & Hi & Hnext & HE).
  rewrite Hst in HE. apply HQ; [done|]. eapply (At_frame _ _ _ _ _ _ _ _ 1 false s); [exact HA| |done].
  destruct HE as [_ Hsh Hm Hd Hl He _ Hc].
  split; try done. unfold at_pos, lua_pos. simpl. lia.
Qed.

Lemma current_eof s : OkState lua_inv s ->
  (current_token s =t TkEof) = false -> token_index s < length toks.
Proof.
  intros [[Htx Htk Hcf Hi Hcur Hsol Hea] Hev] Hne. simpl in *.
  rewrite Hcur in Hne. unfold kind_at in Hne.
  destruct (toks !! token_index s) eqn:Ht; [by eapply lookup_lt_Some|done].
Qed.

Lemma eof_current s : OkState lua_inv s ->
  (current_token s =t TkEof) = true -> token_index s = length toks.
Proof.
  intros [[Htx Htk Hcf Hi Hcur Hsol Hea] Hev] Heq. simpl in *.
  rewrite Hcur in Heq. unfold kind_at in Heq.
  destruct (toks !! token_index s) as [t|] eqn:Ht.
  - pose proof (lexed_kind_at _ _ Ht). by destruct (tok_kind t).
  - apply lookup_ge_None in Ht. lia.
Qed.
End LuaInvariant.
