(* ===== verification/DocParserProofs.v ===== *)
(** * The cursor of the doc parser

    The invariant of the doc parser over one group of comments: what was eaten
    covers the text up to the current token, and the current token, what the
    lexer has still to read of its origin token and the origin tokens behind it
    are the rest of the group.  Every step of the parser keeps it; a change of
    the lexer state may lex the current token anew but eats nothing. *)

From S2P Require Import Prelude Kinds Text LuaLexer DocLexer DocLexerProofs Marker Discipline Rules.
From S2P Require Import LuaParser DocParser LuaParserProofs.
Import DocParser.
Local Open Scope prog_scope.

(** The comment group [ts], whose texts are [parts], stands behind [pre]. *)
Record doc_group (txt pre post : rstring) (ts : list LuaTokenData) (parts : list rstring)
    (lr : LuaRest) : Prop := mkDocGroup {
  dg_text : txt = pre ++ concat parts ++ post;
  dg_rest : r_text lr = txt;
  dg_spans : spans (blen pre) (tok_range <$> ts) parts;
  dg_nonempty : Forall (fun p => p <> []) parts;
  dg_no_nul : no_nul (concat parts);
  dg_kinds : Forall (fun t => is_trivia_kind (tok_kind t) = true) ts;
  dg_first : exists t ts', ts = t :: ts' /\ is_comment t = true
}.
Existing Class doc_group.

Section Group.
Context `{UnicodeTables}.
Context {txt pre post : rstring} {ts : list LuaTokenData} {parts : list rstring} {lr : LuaRest}.
Context {G : doc_group txt pre post ts parts lr}.
Implicit Types (s : t) (done rem after cur : rstring).

(** [Reads l n done rem after]: the group is [done ++ rem ++ after]; [rem] is what
    the lexer has still to read, [after] are the origin tokens from the [n]-th
    on. *)
Record Reads (l : DocLexer.t) (n : nat) done rem after : Prop := mkReads {
  rd_text : DocLexer.origin_text l = txt;
  rd_index : n <= length ts;
  rd_taken : concat (take n parts) = done ++ rem;
  rd_all : concat parts = done ++ rem ++ after;
  rd_reader : match DocLexer.reader l with
              | Some r => exists x buf, cursor r x buf rem /\
                  (rem <> [] -> start_offset (valid_range r) + blen (x ++ buf) = blen (pre ++ done))
              | None => rem = []
              end
}.

(** Where the current token stands. *)
Record Current (kind : LuaTokenKind) (range : SourceRange) before cur rem after : Prop := mkCurrent {
  ct_range : exists a w, a ++ w = pre ++ before ++ cur /\ range = mkRange (blen a) (blen w)
    /\ (kind <> TkEof -> a = pre ++ before);
  ct_kind : kind <> TkEof -> doc_kind kind = true /\ cur <> [];
  ct_eof : kind = TkEof -> cur = [] /\ rem = [] /\ after = []
}.

(** The invariant. *)
Record doc_inv (r : DocRest) (es : list (LuaTokenKind * SourceRange)) : Prop := mkDocInv {
  di_lua : d_lua r = lr;
  di_tokens : d_tokens r = ts;
  di_reader : DocLexer.reader (d_lexer r) <> None;
  di_at : exists before cur rem after,
    Reads (d_lexer r) (S (d_index r)) (before ++ cur) rem after
    /\ Current (d_current r) (d_range r) before cur rem after
    /\ eaten_text txt (blen (pre ++ before)) es
}.

Definition group_end : nat := blen (pre ++ concat parts).
Definition doc_pos (r : DocRest) : nat :=
  if d_current r =t TkEof then group_end else start_offset (d_range r).

Abbreviation Ok_ := (OkState doc_inv).
Abbreviation At_ := (At doc_inv doc_pos).

(** ** Facts about the group *)

Lemma group_lengths : length ts = length parts.
Proof.
  pose proof (dg_spans _ _ _ _ _ _ G) as Hs. clear G. revert parts Hs. generalize (blen pre) as a.
  induction ts as [|t0 ts0 IH]; intros a [|p ps] Hs; simpl in *; try done.
  f_equal. by eapply IH, Hs.
Qed.

Lemma origin_token n : n < length ts ->
  exists t p, ts !! n = Some t /\ parts !! n = Some p /\ p <> [] /\ no_nul p
    /\ tok_range t = mkRange (blen (pre ++ concat (take n parts))) (blen p)
    /\ concat (take (S n) parts) = concat (take n parts) ++ p
    /\ concat parts = concat (take n parts) ++ p ++ concat (drop (S n) parts).
Proof.
  intros Hn. destruct (lookup_lt_is_Some_2 ts n Hn) as [t Ht].
  destruct (spans_slice _ _ _ n (tok_range t) (dg_spans _ _ _ _ _ _ G)) as (p & Hp & Hl & Hs).
  { by rewrite list_lookup_fmap, Ht. }
  exists t, p. pose proof (take_S_r _ _ _ Hp) as Htk.
  assert (concat parts = concat (take n parts) ++ p ++ concat (drop (S n) parts)) as Hall.
  { rewrite <-(take_drop n parts) at 1. by rewrite (drop_S _ _ _ Hp), concat_app. }
  split_and!; [done|done| | | | |done].
  - by eapply (Forall_lookup_1 _ _ _ _ (dg_nonempty _ _ _ _ _ _ G)).
  - pose proof (dg_no_nul _ _ _ _ _ _ G) as Hn'. rewrite Hall in Hn'.
    by apply Forall_app in Hn' as [_ [Hn' _]%Forall_app].
  - rewrite blen_app, <-Hs, <-Hl. by destruct (tok_range t).
  - rewrite Htk, concat_app. simpl. by rewrite app_nil_r.
Qed.

Lemma group_not_empty : 0 < length ts.
Proof. destruct (dg_first _ _ _ _ _ _ G) as (? & ? & -> & _). simpl. lia. Qed.

Lemma doc_end_spec s : tokens s = ts -> doc_end s = group_end.
Proof.
  intros Ht. pose proof group_not_empty as Hne. unfold doc_end, group_end.
  destruct (origin_token (pred (length ts))) as (t & p & Hlt & _ & _ & _ & Hr & _ & Hall); [lia|].
  rewrite Ht, last_lookup, Hlt, Hr. unfold SourceRange.end_offset. simpl. rewrite Hall, !blen_app.
  rewrite drop_ge by (rewrite <-group_lengths; lia).
  change (concat []) with (@nil char). change (blen []) with 0. lia.
Qed.

Lemma origin_text_spec s : lua_rest (lua_parser s) = lr -> origin_text s = txt.
Proof. intros Hr. rewrite <-(dg_rest _ _ _ _ _ _ G), <-Hr. done. Qed.

(** A slice of the text up to a point inside the group. *)
Lemma group_slice a w done rest :
  concat parts = done ++ rest -> a ++ w = pre ++ done ->
  str_slice txt (blen a) (blen a + blen w) = Some w.
Proof.
  intros Hall Haw. rewrite (dg_text _ _ _ _ _ _ G), Hall.
  replace (pre ++ (done ++ rest) ++ post) with (a ++ w ++ (rest ++ post)).
  - apply str_slice_app.
  - by rewrite app_assoc, Haw, <-!app_assoc.
Qed.

Lemma reads_no_nul l n done rem after : Reads l n done rem after -> no_nul rem.
Proof.
  intros [_ _ _ Hall _]. pose proof (dg_no_nul _ _ _ _ _ _ G) as Hn. rewrite Hall in Hn.
  by apply Forall_app in Hn as [_ [Hn _]%Forall_app].
Qed.

Lemma no_nul_until t : no_nul t -> until_nul t = [] -> t = [].
Proof.
  destruct t as [|c t]; [done|]. intros Hn. inversion Hn; subst. simpl.
  by destruct (N.eqb_spec c EOF).
Qed.

(** The lexer is at the end of its origin token when nothing is left to read. *)
Lemma reads_invalid l n done rem after :
  Reads l n done rem after -> DocLexer.is_invalid l = bool_decide (rem = []).
Proof.
  intros HR. pose proof (reads_no_nul _ _ _ _ _ HR) as Hn. destruct HR as [_ _ _ _ Hr].
  unfold DocLexer.is_invalid. destruct (DocLexer.reader l) as [r|].
  - destruct Hr as (x & buf & Hc & _). apply cursor_is_eof in Hc.
    destruct (Reader.is_eof r) eqn:He; symmetry.
    + apply bool_decide_eq_true. by apply no_nul_until, Hc.
    + apply bool_decide_eq_false. intros ->. by apply diff_false_true, Hc.
  - subst rem. done.
Qed.

(** ** Lexing *)

(** The token that [lex_token] hands out. *)
Record Handed (l : DocLexer.t) (n : nat) (token : LuaTokenData) done cur rem after : Prop := mkHanded {
  lt_kind : doc_kind (tok_kind token) = true;
  lt_cur : cur <> [];
  lt_range : tok_range token = mkRange (blen (pre ++ done)) (blen cur);
  lt_reader : DocLexer.reader l <> None;
  lt_reads : Reads l n (done ++ cur) rem after
}.

Lemma wp_reset kind n p done l (Q : unit -> DocLexer.t -> Prop) after :
  DocLexer.origin_text l = txt -> n <= length ts -> concat (take n parts) = done ++ p ->
  concat parts = done ++ p ++ after ->
  (forall l', Reads l' n done p after -> DocLexer.reader l' <> None ->
     DocLexer.state l' = DocLexer.state l -> Q tt l') ->
  wp (DocLexer.reset kind (mkRange (blen (pre ++ done)) (blen p))) Q l.
Proof.
  intros Ht Hn Htk Hall HQ. unfold wp, DocLexer.reset, SourceRange.end_offset.
  cbn [start_offset range_len].
  rewrite Ht, (group_slice (pre ++ done) p (done ++ p) after) by (by rewrite <-?app_assoc).
  destruct (cursor_new_with_range p (blen (pre ++ done))) as (r & -> & Hc & Hs).
  apply HQ; [|done|done]. split; [done|done|done|done|]. simpl. exists [], []. split; [done|].
  intros _. by rewrite Hs, Nat.add_0_r.
Qed.

Lemma wp_lex l n done rem after (Q : LuaTokenKind -> DocLexer.t -> Prop) :
  Reads l n done rem after -> rem <> [] ->
  (forall k l' cur rem' r', doc_kind k = true -> rem = cur ++ rem' ->
     DocLexer.reader l' = Some r' -> Handed l' n (mkToken k (Reader.current_range r')) done cur rem' after ->
     Q k l') ->
  wp DocLexer.lex Q l.
Proof.
  intros HR Hne HQ. pose proof (reads_no_nul _ _ _ _ _ HR) as Hn. destruct HR as [Ht Hix Htk Hall Hr].
  destruct (DocLexer.reader l) as [r|] eqn:Hrd; [|done]. destruct Hr as (x & buf & Hc & Hs).
  specialize (Hs Hne). eapply wp_mono; [by eapply doc_lex_spec|].
  intros k l' (Hk & [Ht' _] & r' & d & rest' & Hr' & -> & Hd & Hc' & Hs').
  eapply HQ; [done|done|done|]. split; [done|done| |by rewrite Hr'|].
  - simpl. unfold Reader.current_range, SourceRange.new.
    by rewrite (cur_pos _ _ _ _ Hc'), (cur_len _ _ _ _ Hc'), Hs', Hs.
  - split; [congruence|done|by rewrite Htk, app_assoc|by rewrite Hall, <-!app_assoc|].
    rewrite Hr'. exists (x ++ buf), d. split; [done|]. intros _.
    rewrite Hs', blen_app, Nat.add_assoc, Hs, <-blen_app. by rewrite app_assoc.
Qed.

Lemma doc_kind_not_eof k : doc_kind k = true -> (k =t TkEof) = false.
Proof. by destruct k. Qed.

Lemma wp_on_lexer {A} (m : M DocLexer.t A) (Q : A -> t -> Prop) s :
  wp m (fun a l => Q a (set_lexer l s)) (lexer s) -> wp (on_lexer m) Q s.
Proof. unfold wp, on_lexer. by destruct (m (lexer s)) as [[a l]| |]. Qed.

(** The end of [lex_token_step]: the lexer has something to read. *)
Lemma wp_lex_rest n i done rem after s (Q : unit + LuaTokenData -> t -> Prop) :
  Reads (lexer s) (S n) done rem after -> rem <> [] -> origin_token_index s = i -> n = i ->
  (forall token l cur rem', rem = cur ++ rem' -> Handed l (S i) token done cur rem' after ->
     Q (inr token) (set_index i (set_lexer l s))) ->
  wp (kind <- on_lexer DocLexer.lex ;;
      if negb (kind =t TkEof) then
        range <- gets (fun p => DocLexer.current_token_range (lexer p)) ;;
        range <- unwrap range ;;
        ret (inr (mkToken kind range))
      else ret (inl tt)) Q s.
Proof.
  intros HR Hne Hi -> HQ. apply wp_bind, wp_on_lexer. eapply wp_lex; [done|done|].
  intros k l cur rem' r Hk Hrem Hr HL. rewrite doc_kind_not_eof by done. simpl.
  apply wp_bind, wp_gets. apply wp_bind. eapply wp_unwrap.
  { unfold DocLexer.current_token_range. simpl. by rewrite Hr. }
  apply wp_ret. specialize (HQ _ l cur rem' Hrem HL). rewrite <-Hi in HQ. exact HQ.
Qed.

Definition next_index s : nat :=
  if (origin_token_index s =? 0)%nat && (current_token s =t TkNone) then 0
  else origin_token_index s + 1.

Lemma wp_lex_token s n done rem after (Q : LuaTokenData -> t -> Prop) :
  tokens s = ts -> Reads (lexer s) n done rem after ->
  n = (if bool_decide (rem = []) then next_index s else S (origin_token_index s)) ->
  (DocLexer.reader (lexer s) = None -> n = 0) ->
  (rem = [] -> after = [] ->
     Q (mkToken TkEof (mkRange (SourceRange.end_offset (current_token_range s)) 0)) s) ->
  (forall token l i cur rem' after', rem ++ after = cur ++ rem' ++ after' ->
     Handed l (S i) token done cur rem' after' -> Q token (set_index i (set_lexer l s))) ->
  wp lex_token Q s.
Proof.
  intros Hts HR Hn Hnone Heof HQ. unfold lex_token, loop_from. cbn [loop Nat.add].
  unfold lex_token_step at 1. apply wp_bind, wp_bind, wp_gets.
  rewrite (reads_invalid _ _ _ _ _ HR). case_bool_decide as Hrem.
  2: { apply wp_bind, wp_ret. subst n. eapply wp_lex_rest; [done..|]. intros token l cur rem' -> HL.
    apply wp_ret. eapply HQ; [|done]. by rewrite <-app_assoc. }
  subst rem. destruct HR as [Htx Hix Htk Hall Hr]. rewrite app_nil_r in Htk.
  apply wp_bind. unfold next_origin. apply wp_bind, wp_gets, wp_bind, wp_gets, wp_bind, wp_gets.
  cbv zeta. fold (next_index s). rewrite <-Hn, Hts. destruct (Nat.leb_spec (length ts) n) as [Hle|Hlt].
  { apply wp_bind, wp_gets, wp_ret, wp_ret, wp_ret. apply Heof; [done|].
    rewrite firstn_all2 in Htk by (rewrite <-group_lengths; lia). rewrite Htk in Hall.
    rewrite <-(app_nil_r done) in Hall at 1. by apply app_inv_head in Hall. }
  destruct (origin_token n Hlt) as (token & p & Ht & Hp & Hpne & Hpn & Hrange & Htake & Hsplit).
  rewrite Htk in Hrange, Htake, Hsplit. simpl in Hall. rewrite Hall in Hsplit.
  apply app_inv_head in Hsplit as ->.
  apply wp_bind. eapply wp_unwrap; [by rewrite Ht|]. apply wp_bind, wp_modify.
  destruct (tok_kind token in_t [TkEndOfLine; TkWhitespace; TkShebang]) eqn:Hk.
  - apply wp_ret, wp_ret, wp_ret. cbn [app].
    specialize (HQ token (lexer s) n p [] (concat (drop (S n) parts)) eq_refl).
    assert (set_index n s = set_index n (set_lexer (lexer s) s)) as -> by by destruct s.
    apply HQ. split; [by destruct (tok_kind token)|done|done| |].
    + intros Hrd. rewrite (Hnone Hrd) in *.
      destruct (dg_first _ _ _ _ _ _ G) as (t0 & ? & -> & Hc). injection Ht as ->.
      unfold is_comment in Hc. by destruct (tok_kind token).
    + split; [done|lia|by rewrite Htake, app_nil_r|by rewrite Hall, <-app_assoc|].
      destruct (DocLexer.reader (lexer s)); [|done]. destruct Hr as (x & buf & Hc & _).
      by exists x, buf.
  - apply wp_bind, wp_on_lexer. rewrite Hrange.
    eapply (wp_reset _ (S n) p done _ _ (concat (drop (S n) parts))); [done|lia|done|done|].
    intros l HR Hrd Hst. apply wp_ret.
    eapply (wp_lex_rest n n); [exact HR|done|done|done|].
    intros token' l' cur rem' Heq HL. apply wp_ret.
    apply (HQ token' l' n cur rem' (concat (drop (S n) parts))); [|done].
    by rewrite Heq, <-app_assoc.
Qed.

(** ** Between two tokens *)

(** What a step adds to the events. *)
Record Stepped s s' (tl : list (LuaTokenKind * SourceRange)) : Prop := mkStepped {
  sp_events : get_events s' = get_events s ++ eat_events tl;
  sp_level : get_mark_level s' = get_mark_level s;
  sp_errors : errors_of s' = errors_of s
}.

Lemma Stepped_same s s' : get_events s' = get_events s ->
  get_mark_level s' = get_mark_level s -> errors_of s' = errors_of s -> Stepped s s' [].
Proof. intros He Hl Hr. split; [by rewrite app_nil_r|done|done]. Qed.

Lemma Stepped_trans s s1 s2 tl tl' :
  Stepped s s1 tl -> Stepped s1 s2 tl' -> Stepped s s2 (tl ++ tl').
Proof.
  intros [He Hl Hr] [He' Hl' Hr']. split; [|congruence..].
  rewrite He', He. unfold eat_events. by rewrite fmap_app, app_assoc.
Qed.

(** The current token was recorded, or there is none. *)
Record Ready s n done rem after : Prop := mkReady {
  ry_lua : lua_rest (lua_parser s) = lr;
  ry_tokens : tokens s = ts;
  ry_reads : Reads (lexer s) n done rem after;
  ry_index : n = if bool_decide (rem = []) then next_index s else S (origin_token_index s);
  ry_fresh : DocLexer.reader (lexer s) = None -> n = 0;
  ry_range : rem = [] -> after = [] ->
    exists a w, a ++ w = pre ++ done /\ current_token_range s = mkRange (blen a) (blen w);
  ry_eaten : eaten_text txt (blen (pre ++ done)) (eaten_of s);
  ry_events : events_ok (get_events s)
}.

(** The state on the next token. *)
Record Fetched s (done left : rstring) (token : LuaTokenData) s' : Prop := mkFetched {
  ft_ok : Ok_ s';
  ft_step : Stepped s s' [];
  ft_pos : at_pos doc_pos s' = blen (pre ++ done);
  ft_current : current_token s' = tok_kind token;
  ft_left : left <> [] -> (current_token s' =t TkEof) = false
}.

(** The two ways of taking a token over. *)
Definition sets (k : LuaTokenData -> M t unit) : Prop := forall token s (Q : unit -> t -> Prop),
  (forall r, r = tok_range token \/
     (range_len (tok_range token) = 0 /\ r = current_token_range s) ->
     Q tt (set_range r (put_kind (tok_kind token) s))) ->
  wp (k token) Q s.

Lemma sets_modify :
  sets (fun token => modify (fun p => set_range (tok_range token) (put_kind (tok_kind token) p))).
Proof. intros token s Q HQ. apply wp_modify, HQ. by left. Qed.

Lemma sets_take_token : sets take_token.
Proof.
  intros token s Q HQ. apply wp_bind, wp_modify, wp_when.
  - intros _. apply wp_modify, HQ. by left.
  - intros He%negb_false_iff%Nat.eqb_eq. apply (HQ (current_token_range s)). by right.
Qed.

Lemma blen_nonempty p : p <> [] -> blen p <> 0.
Proof. intros Hp Hb. by apply Hp, blen_zero. Qed.

Lemma ready_not_fresh s n done : Ready s n done [] [] -> n = S (origin_token_index s).
Proof.
  intros [_ _ HR Hn _ _ _ _]. rewrite bool_decide_eq_true_2 in Hn by done. unfold next_index in Hn.
  case_match; [|lia]. exfalso. subst n. destruct HR as [_ _ Htk Hall _].
  destruct (origin_token 0 group_not_empty) as (? & p & _ & _ & Hp & _ & _ & _ & Hsp).
  simpl in Htk, Hsp. rewrite app_nil_r in Htk. subst done. rewrite Hall in Hsp. by destruct p.
Qed.

Lemma current_pos s before cur rem after :
  Current (current_token s) (current_token_range s) before cur rem after ->
  concat parts = before ++ cur ++ rem ++ after -> at_pos doc_pos s = blen (pre ++ before).
Proof.
  intros [(a & w & Haw & Hr & Ha) Hk He] Hall. unfold at_pos, doc_pos, doc_rest. simpl. unfold doc_rest.
  simpl. destruct (current_token s =t TkEof) eqn:Hc.
  - assert (current_token s = TkEof) as Hc' by by destruct (current_token s).
    destruct (He Hc') as (-> & -> & ->). rewrite !app_nil_r in Hall. unfold group_end. by rewrite Hall.
  - rewrite Hr. simpl. f_equal. apply Ha. by intros Heq; rewrite Heq in Hc.
Qed.

Lemma wp_fetch k s n done rem after :
  sets k -> Ready s n done rem after ->
  wp lex_token (fun token s1 => wp (k token)
    (fun _ s' => Fetched s done (rem ++ after) token s') s1) s.
Proof.
  intros Hk HY. pose proof HY as [Hlr Hts HR Hn Hfresh Hrange Hea Hev].
  eapply wp_lex_token; [done|done|done|done| |].
  - intros -> ->. destruct (Hrange eq_refl eq_refl) as (a & w & Haw & Hr).
    pose proof (ready_not_fresh _ _ _ HY) as Hn'.
    apply Hk. intros r Hr'.
    assert (Current TkEof r done [] [] []) as HC.
    { split; [|done|done]. destruct Hr' as [->|[_ ->]].
      - exists (pre ++ done), []. rewrite Hr. unfold SourceRange.end_offset. simpl.
        rewrite <-Haw, blen_app, Haw, !app_nil_r. done.
      - exists a, w. by rewrite app_nil_r. }
    split; [|by apply Stepped_same| |done|done].
    + split; [|done]. split; [done|done|simpl|].
      { intros Hrd. specialize (Hfresh Hrd). lia. }
      exists done, [], [], []. rewrite app_nil_r. split_and!; [|done|done]. by rewrite Hn' in HR.
    + eapply current_pos; [exact HC|]. destruct HR as [_ _ _ Hall _]. by rewrite Hall.
  - intros token l i cur rem' after' Hleft [Hkind Hcur Hr Hrd HR']. apply Hk. intros r Hr'.
    assert (r = mkRange (blen (pre ++ done)) (blen cur)) as ->.
    { destruct Hr' as [->|[Hz _]]; [done|]. rewrite Hr in Hz. by destruct (blen_nonempty cur). }
    assert (Current (tok_kind token) (mkRange (blen (pre ++ done)) (blen cur)) done cur rem' after') as HC.
    { split; [|done|by intros He; rewrite He in Hkind].
      exists (pre ++ done), cur. by rewrite <-app_assoc. }
    split; [|by apply Stepped_same| |done|by intros _; apply doc_kind_not_eof].
    + split; [|done]. split; [done|done|done|]. by exists done, cur, rem', after'.
    + eapply current_pos; [exact HC|]. destruct HR as [_ _ _ Hall _]. by rewrite Hall, Hleft.
Qed.

(** ** Steps *)

Lemma ok_split s : Ok_ s ->
  exists before cur rem after,
    Reads (lexer s) (S (origin_token_index s)) (before ++ cur) rem after
    /\ Current (current_token s) (current_token_range s) before cur rem after
    /\ eaten_text txt (blen (pre ++ before)) (eaten_of s)
    /\ at_pos doc_pos s = blen (pre ++ before).
Proof.
  intros [[_ _ _ (before & cur & rem & after & HR & HC & He)] _]. exists before, cur, rem, after.
  split_and!; [done|done|done|]. eapply current_pos; [done|]. destruct HR as [_ _ _ Hall _].
  by rewrite Hall, <-app_assoc.
Qed.

Lemma ok_pos_le s : Ok_ s -> at_pos doc_pos s <= doc_end s.
Proof.
  intros Hok. rewrite doc_end_spec by apply Hok.
  destruct (ok_split s Hok) as (before & cur & rem & after & [_ _ _ Hall _] & _ & _ & ->).
  unfold group_end. rewrite Hall, !blen_app. lia.
Qed.

Lemma ok_fuel s : Ok_ s -> doc_end s < doc_fuel s.
Proof. unfold doc_fuel. lia. Qed.

Lemma ok_end b s : Ok_ b -> Ok_ s -> doc_end s = doc_end b.
Proof. intros Hb Hs. by rewrite !doc_end_spec by apply Hb || apply Hs. Qed.

Lemma doc_not_eof_kind (k : LuaTokenKind) : (k =t TkEof) = false -> k <> TkEof.
Proof. by intros Hk ->. Qed.

(** A marker operation leaves the cursor alone. *)
Lemma rest_parts s s' : rest s' = rest s ->
  lua_rest (lua_parser s') = lua_rest (lua_parser s) /\ tokens s' = tokens s /\ lexer s' = lexer s
  /\ current_token s' = current_token s /\ current_token_range s' = current_token_range s
  /\ origin_token_index s' = origin_token_index s /\ state s' = state s.
Proof.
  intros Hr. split_and!; [apply (f_equal d_lua Hr)|apply (f_equal d_tokens Hr)|apply (f_equal d_lexer Hr)
    |apply (f_equal d_current Hr)|apply (f_equal d_range Hr)|apply (f_equal d_index Hr)|apply (f_equal d_state Hr)].
Qed.

(** Eating the current token. *)
Lemma wp_eat_current s (Q : unit -> t -> Prop) :
  Ok_ s -> (current_token s =t TkEof) = false ->
  (forall s' done rem after, Stepped s s' [(current_token s, current_token_range s)] ->
     Ready s' (S (origin_token_index s')) done rem after -> at_pos doc_pos s < blen (pre ++ done) ->
     Q tt s') ->
  wp eat_current Q s.
Proof.
  intros Hok Hc%doc_not_eof_kind HQ. pose proof Hok as [[Hlr Hts Hrd _] Hev].
  destruct (ok_split s Hok) as (before & cur & rem & after & HR & [(a & w & Haw & Hr & Ha) Hk _] & Hea & Hp).
  rewrite (Ha Hc) in *. destruct (Hk Hc) as [Hkind Hcur]. rewrite app_assoc in Haw.
  apply app_inv_head in Haw as ->.
  apply wp_bind, wp_gets, wp_bind, wp_gets, wp_push_event. intros s' [Hr' He] Hev' Hl.
  destruct (rest_parts _ _ Hr') as (Hl1 & Ht1 & Hx1 & Hc1 & Hr1 & Hi1 & _).
  apply (HQ s' (before ++ cur) rem after); [by split| |].
  - split; [rewrite Hl1; exact Hlr|rewrite Ht1; exact Hts|by rewrite Hx1, Hi1| | |..].
    + unfold next_index. rewrite Hc1, Hi1. case_bool_decide; [|done].
      replace (current_token s =t TkNone) with false by by destruct (current_token s).
      rewrite andb_false_r. lia.
    + intros Hn. by rewrite Hx1 in Hn.
    + intros _ _. exists (pre ++ before), cur. rewrite Hr1, <-app_assoc. done.
    + unfold eaten_of. rewrite Hev', shapes_app, eaten_app, app_assoc, blen_app.
      apply (eaten_text_snoc _ _ _ (mkToken (current_token s) (current_token_range s))); [done|].
      exists (pre ++ before), (rem ++ after ++ post). destruct HR as [_ _ _ Hall _].
      simpl. rewrite app_nil_r, Hr. split_and!; [|done|done|done|done].
      by rewrite (dg_text _ _ _ _ _ _ G), Hall, <-!app_assoc.
    + rewrite Hev'. by apply events_ok_other.
  - rewrite Hp, app_assoc, (blen_app (pre ++ before)). pose proof (blen_nonempty cur Hcur). lia.
Qed.

Lemma wp_eat_and_lex s (Q : unit -> t -> Prop) :
  Ok_ s -> (current_token s =t TkEof) = false ->
  (forall s', Ok_ s' -> Stepped s s' [(current_token s, current_token_range s)] ->
     at_pos doc_pos s < at_pos doc_pos s' -> Q tt s') ->
  wp eat_current_and_lex_next Q s.
Proof.
  intros Hok Hc HQ. apply wp_bind, wp_eat_current; [done|done|]. intros s1 done rem after HS HY Hp.
  apply wp_bind. eapply wp_mono; [eapply wp_fetch; [apply sets_take_token|exact HY]|].
  intros token s2 Hw. eapply wp_mono; [exact Hw|]. intros [] s3 [Hok3 HS3 Hp3 _ _].
  apply HQ; [done| |lia]. exact (Stepped_trans _ _ _ _ _ HS HS3).
Qed.

Lemma skipped_not_eof st k : skipped_kind st k = true -> (k =t TkEof) = false.
Proof. by destruct st, k. Qed.

Lemma wp_calc_next s n done rem after (Q : unit -> t -> Prop) :
  Ready s n done rem after ->
  (forall s' tl, Ok_ s' -> Stepped s s' tl -> blen (pre ++ done) <= at_pos doc_pos s' -> Q tt s') ->
  wp calc_next_current_token Q s.
Proof.
  intros HY HQ. apply wp_bind. eapply wp_mono; [eapply wp_fetch; [apply sets_modify|exact HY]|].
  intros token s1 Hw. apply wp_bind. eapply wp_mono; [exact Hw|]. intros [] s2 [Hok2 HS2 Hp2 _ _].
  case_if; [apply wp_ret; eapply HQ; [done|exact HS2|lia]|].
  apply wp_bind, wp_gets.
  apply (wp_while (fun s' => Ok_ s' /\ exists tl, Stepped s s' tl /\ blen (pre ++ done) <= at_pos doc_pos s')
           (fun s' => doc_end s2 - at_pos doc_pos s')).
  - intros s' [Hok' (tl & HS' & Hp')] Hsk. apply wp_eat_and_lex; [done|by eapply skipped_not_eof|].
    intros s'' Hok'' HS'' Hlt. split.
    + split; [done|]. eexists. split; [exact (Stepped_trans _ _ _ _ _ HS' HS'')|lia].
    + pose proof (ok_pos_le _ Hok'') as Hle. rewrite (ok_end s2 s'') in Hle by done. lia.
  - intros s' [Hok' (tl & HS' & Hp')] _. by eapply HQ.
  - split; [done|]. eexists. split; [exact HS2|lia].
  - pose proof (ok_fuel _ Hok2). lia.
Qed.

(** A state between steps stands before the next token once the current one is
    dropped. *)
Lemma ok_ready_eof s : Ok_ s -> (current_token s =t TkEof) = true ->
  Ready s (S (origin_token_index s)) (concat parts) [] [].
Proof.
  intros Hok Hc. assert (current_token s = TkEof) as Hc' by by destruct (current_token s).
  pose proof Hok as [[Hlr Hts Hrd _] Hev].
  destruct (ok_split s Hok) as (before & cur & rem & after & HR & [Hr _ He] & Hea & _).
  destruct (He Hc') as (-> & -> & ->). rewrite app_nil_r in HR.
  pose proof (rd_all _ _ _ _ _ HR) as Hall. rewrite !app_nil_r in Hall. subst before.
  split; try done.
  - rewrite bool_decide_eq_true_2 by done. unfold next_index. rewrite Hc', andb_false_r. lia.
  - intros _ _. destruct Hr as (a & w & Haw & Hr & _). exists a, w. by rewrite app_nil_r in Haw.
Qed.

(** [bump] in general, and on a token. *)
Lemma doc_wp_bump_core s (Q : unit -> t -> Prop) :
  Ok_ s ->
  (forall s' tl, Ok_ s' -> Stepped s s' tl ->
     at_pos doc_pos s + (if current_token s =t TkEof then 0 else 1) <= at_pos doc_pos s' ->
     ((current_token s =t TkEof) = false -> tl <> []) -> Q tt s') ->
  wp bump Q s.
Proof.
  intros Hok HQ. apply wp_bind, wp_gets, wp_bind, wp_when.
  - intros Hv%negb_true_iff. destruct (current_token s =t TkEof) eqn:Hc.
    { exfalso. revert Hv Hc. unfold is_invalid_kind. by destruct (current_token s). }
    apply wp_eat_current; [done|done|]. intros s1 done rem after HS HY Hp.
    eapply wp_calc_next; [exact HY|]. intros s2 tl Hok2 HS2 Hp2.
    eapply (HQ s2); [done|exact (Stepped_trans _ _ _ _ _ HS HS2)|lia|done].
  - intros Hv%negb_false_iff.
    assert ((current_token s =t TkEof) = true) as Hc.
    { pose proof Hok as [[_ _ _ (? & ? & ? & ? & _ & [_ Hk _] & _)] _].
      destruct (current_token s =t TkEof) eqn:Hc; [done|]. exfalso.
      destruct (Hk (doc_not_eof_kind _ Hc)) as [Hk' _]. change (doc_kind (current_token s) = true) in Hk'.
      revert Hv Hk'. unfold is_invalid_kind, doc_kind. by destruct (current_token s). }
    eapply wp_calc_next; [by apply ok_ready_eof|]. intros s2 tl Hok2 HS2 Hp2.
    eapply HQ; [done|done| |by rewrite Hc]. rewrite Hc, Nat.add_0_r.
    pose proof (ok_pos_le _ Hok) as Hle. rewrite doc_end_spec in Hle by apply Hok. unfold group_end in Hle. lia.
Qed.

(** [init], in the state of [LuaDocParser::parse]. *)
Lemma doc_wp_init s (Q : unit -> t -> Prop) :
  lua_rest (lua_parser s) = lr -> tokens s = ts -> lexer s = DocLexer.new txt ->
  current_token s = TkNone -> origin_token_index s = 0 ->
  eaten_text txt (blen pre) (eaten_of s) -> events_ok (get_events s) ->
  (forall s' tl, Ok_ s' -> Stepped s s' tl -> Q tt s') ->
  wp init Q s.
Proof.
  intros Hlr Hts Hl Hc Hi Hea Hev HQ. apply wp_bind, wp_gets. rewrite Hts.
  pose proof group_not_empty as Hne. rewrite bool_decide_eq_false_2 by (intros ->; simpl in Hne; lia).
  apply wp_bind, wp_gets, wp_bind, wp_when; [by rewrite Hc|]. intros _.
  eapply (wp_calc_next _ 0 [] [] (concat parts)).
  - split; try done.
    + rewrite Hl. split; [done|lia|done|done|done].
    + unfold next_index. by rewrite Hc, Hi.
    + intros _ Hnil. destruct (origin_token 0 Hne) as (? & p & _ & _ & Hp & _ & _ & _ & Hsp).
      simpl in Hsp. rewrite Hnil in Hsp. by destruct p.
    + by rewrite app_nil_r.
  - intros s' tl Hok HS _. by eapply HQ.
Qed.

(** ** Queries *)

Lemma current_token_text_total s : Ok_ s ->
  exists w, str_slice (origin_text s) (start_offset (current_token_range s))
    (SourceRange.end_offset (current_token_range s)) = Some w.
Proof.
  intros Hok. pose proof Hok as [[Hlr _ _ _] _].
  destruct (ok_split s Hok) as (before & cur & rem & after & HR & [(a & w & Haw & Hr & _) _ _] & _).
  exists w. rewrite origin_text_spec by exact Hlr. rewrite Hr. unfold SourceRange.end_offset. simpl.
  eapply group_slice; [|exact Haw]. exact (rd_all _ _ _ _ _ HR).
Qed.

Lemma wp_current_token_text s (Q : rstring -> t -> Prop) :
  Ok_ s -> (forall w, Q w s) -> wp current_token_text Q s.
Proof.
  intros Hok HQ. destruct (current_token_text_total s Hok) as [w Hw].
  apply wp_bind, wp_gets. eapply wp_unwrap; [done|]. apply HQ.
Qed.

(** The text behind the current token starts at a character. *)
Lemma text_behind s : Ok_ s ->
  exists rest, skip_bytes (SourceRange.end_offset (current_token_range s)) (origin_text s) = Some rest.
Proof.
  intros Hok. pose proof Hok as [[Hlr _ _ _] _].
  destruct (ok_split s Hok) as (before & cur & rem & after & HR & [(a & w & Haw & Hr & _) _ _] & _).
  rewrite origin_text_spec by exact Hlr. rewrite Hr. unfold SourceRange.end_offset. simpl.
  pose proof (rd_all _ _ _ _ _ HR) as Hall. rewrite (dg_text _ _ _ _ _ _ G), Hall.
  exists ((rem ++ after) ++ post). rewrite <-blen_app, Haw.
  rewrite <-(skip_bytes_app (pre ++ before ++ cur)). f_equal. by rewrite <-!app_assoc.
Qed.

(** ** Changes of the lexer state *)

Lemma ok_put_kind s k : Ok_ s -> (current_token s =t TkEof) = false -> doc_kind k = true ->
  Ok_ (put_kind k s) /\ at_pos doc_pos (put_kind k s) = at_pos doc_pos s.
Proof.
  intros Hok Hc Hk. pose proof Hok as [[Hlr Hts Hrd (before & cur & rem & after & HR & HC & He)] Hev].
  assert (Current k (current_token_range s) before cur rem after) as HC'.
  { destruct HC as [(a & w & Haw & Hr & Ha) Hk' _]. specialize (Hk' (doc_not_eof_kind _ Hc)) as [_ Hcur].
    split; [|done|by intros ->]. exists a, w. split_and!; [done|done|].
    intros _. by apply Ha, doc_not_eof_kind. }
  pose proof (rd_all _ _ _ _ _ HR) as Hall. rewrite <-app_assoc in Hall. split.
  - split; [|done]. split; [done..|]. by exists before, cur, rem, after.
  - rewrite (current_pos (put_kind k s) _ _ _ _ HC') by done. symmetry. by eapply (current_pos s).
Qed.

Lemma reads_set_state st l n done rem after :
  Reads l n done rem after -> Reads (DocLexer.set_state st l) n done rem after.
Proof. by intros []. Qed.

Lemma ok_put_state s st : Ok_ s -> Ok_ (set_lexer (DocLexer.set_state st (lexer s)) s).
Proof.
  intros [[Hlr Hts Hrd (before & cur & rem & after & HR & HC & He)] Hev].
  split; [|done]. split; [done..|]. exists before, cur, rem, after.
  split_and!; [by apply reads_set_state|done|done].
Qed.

Lemma ready_put_state s st n done rem after :
  Ready s n done rem after -> Ready (set_lexer (DocLexer.set_state st (lexer s)) s) n done rem after.
Proof. intros []. split; try done. by apply reads_set_state. Qed.

Lemma valid_not_eof s : Ok_ s -> DocLexer.is_invalid (lexer s) = false -> (current_token s =t TkEof) = false.
Proof.
  intros Hok Hv. destruct (ok_split s Hok) as (before & cur & rem & after & HR & HC & _).
  rewrite (reads_invalid _ _ _ _ _ HR) in Hv. apply bool_decide_eq_false in Hv.
  destruct (current_token s =t TkEof) eqn:Hc; [|done]. destruct Hv.
  apply (ct_eof _ _ _ _ _ _ HC). by destruct (current_token s).
Qed.

(** The rest of the origin token from the current token on, to be lexed
    again. *)
Lemma wp_reset_to_current s kind (Q : unit -> t -> Prop) :
  Ok_ s -> DocLexer.is_invalid (lexer s) = false ->
  (forall l done rem after, rem <> [] -> at_pos doc_pos s = blen (pre ++ done) ->
     Ready (set_lexer l (put_kind kind s)) (S (origin_token_index s)) done rem after ->
     Q tt (set_lexer l (put_kind kind s))) ->
  wp reset_to_current Q (put_kind kind s).
Proof.
  intros Hok Hv HQ. pose proof (valid_not_eof _ Hok Hv) as Hc%doc_not_eof_kind.
  pose proof Hok as [[Hlr Hts Hrd _] Hev].
  destruct (ok_split s Hok) as (before & cur & rem & after & HR & [(a & w & Haw & Hr & Ha) Hk _] & Hea & Hp).
  rewrite (Ha Hc) in *. destruct (Hk Hc) as [_ Hcur]. rewrite app_assoc in Haw.
  apply app_inv_head in Haw as ->.
  pose proof HR as [Htx Hix Htk Hall _].
  destruct (origin_token (origin_token_index s) Hix) as (token & p & Ht & _ & _ & _ & Htr & Htake & _).
  unfold reset_to_current. apply wp_bind, wp_gets, wp_bind, wp_gets. apply wp_bind. eapply wp_unwrap.
  { change (tokens s = ts) in Hts. simpl. by rewrite Hts, Ht. }
  cbv zeta. cbn [current_token_range put_kind].
  assert (SourceRange.end_offset (tok_range token) = blen (pre ++ before) + blen (cur ++ rem)) as ->.
  { rewrite Htr. unfold SourceRange.end_offset. simpl.
    rewrite Htk, <-app_assoc in Htake. rewrite <-!blen_app, <-!app_assoc, Htake. done. }
  rewrite Hr. cbn [start_offset].
  destruct (Nat.leb_spec (blen (pre ++ before)) (blen (pre ++ before) + blen (cur ++ rem))); [|lia].
  replace (_ + _ - _) with (blen (cur ++ rem)) by lia.
  apply wp_on_lexer. eapply (wp_reset _ (S (origin_token_index s)) _ _ _ _ after).
  - done.
  - done.
  - by rewrite Htk, <-app_assoc.
  - by rewrite Hall, <-!app_assoc.
  - intros l HR' Hrd' _. apply (HQ l before (cur ++ rem) after); [by destruct cur|done|].
    split; try done.
    + rewrite bool_decide_eq_false_2; [done|]. by destruct cur.
    + intros Hn. by destruct cur.
Qed.

(** A new token for the current one. *)
Lemma wp_re_calc_cast_type s (Q : unit -> t -> Prop) :
  Ok_ s ->
  (forall s', Ok_ s' -> Stepped s s' [] -> at_pos doc_pos s' = at_pos doc_pos s ->
     (current_token s' =t TkEof) = (current_token s =t TkEof) -> Q tt s') ->
  wp re_calc_cast_type Q s.
Proof.
  intros Hok HQ. apply wp_bind, wp_gets. destruct (DocLexer.is_invalid (lexer s)) eqn:Hv.
  { apply wp_ret, HQ; [done|by apply Stepped_same|done|done]. }
  pose proof (valid_not_eof _ Hok Hv) as Hc.
  assert (s = put_kind (current_token s) s) as Heq by by destruct s.
  apply wp_bind. rewrite Heq at 1. apply wp_reset_to_current; [done|done|].
  intros l done rem after Hne Hp HY. apply wp_bind, wp_modify, wp_bind.
  eapply wp_mono; [eapply wp_fetch; [apply sets_take_token|by apply ready_put_state, HY]|].
  intros token s1 Hw. eapply wp_mono; [exact Hw|]. intros [] s2 [Hok2 HS2 Hp2 _ Hl].
  apply HQ; [done| |congruence|].
  - destruct HS2 as [H1 H2 H3]. by split.
  - rewrite Hc. apply Hl. by destruct rem.
Qed.

Lemma wp_re_calc_detail s (Q : unit -> t -> Prop) :
  Ok_ s -> (current_token s =t TkEof) = false ->
  (forall s' tl, Ok_ s' -> Stepped s s' tl -> at_pos doc_pos s <= at_pos doc_pos s' -> Q tt s') ->
  wp re_calc_detail Q s.
Proof.
  intros Hok Hc HQ. apply wp_bind, wp_modify, wp_bind, wp_gets. cbn [lexer put_kind].
  destruct (DocLexer.is_invalid (lexer s)) eqn:Hv.
  { destruct (ok_put_kind s TkDocDetail Hok Hc eq_refl) as [Hok' Hp'].
    apply wp_ret. apply (HQ _ []); [done|by apply Stepped_same|lia]. }
  apply wp_bind, wp_modify, wp_bind. apply (wp_reset_to_current s TkNone); [done|done|].
  intros l done rem after Hne Hp HY. apply wp_bind, wp_modify, wp_bind, wp_gets.
  apply wp_bind, wp_when; [done|]. intros _.
  eapply wp_calc_next; [by apply ready_put_state, HY|]. intros s' tl Hok' HS Hle.
  eapply HQ; [done| |by rewrite Hp]. destruct HS as [H1 H2 H3]. by split.
Qed.

Lemma wp_set_lexer_state_core st s (Q : unit -> t -> Prop) :
  Ok_ s ->
  (forall s' tl, Ok_ s' -> Stepped s s' tl -> at_pos doc_pos s <= at_pos doc_pos s' ->
     (st <> DocDescriptionState -> (current_token s' =t TkEof) = (current_token s =t TkEof)) -> Q tt s') ->
  wp (set_lexer_state st) Q s.
Proof.
  intros Hok HQ. apply wp_bind, wp_gets.
  apply (wp_seq (fun _ s' => Ok_ s' /\ exists tl, Stepped s s' tl /\ at_pos doc_pos s <= at_pos doc_pos s'
    /\ (st <> DocDescriptionState -> (current_token s' =t TkEof) = (current_token s =t TkEof)))).
  2: { intros [] s' (Hok' & tl & HS & Hp & Hc). apply wp_modify. apply (HQ _ tl); [by apply ok_put_state| |done|done].
       destruct HS as [H1 H2 H3]. by split. }
  assert (Ok_ s /\ exists tl, Stepped s s tl /\ at_pos doc_pos s <= at_pos doc_pos s
    /\ (st <> DocDescriptionState -> (current_token s =t TkEof) = (current_token s =t TkEof))) as Hsame.
  { split; [done|]. exists []. split_and!; [by apply Stepped_same|lia|done]. }
  destruct st; try by apply wp_ret.
  - apply wp_bind, wp_gets, wp_when; [|done]. intros _. apply wp_re_calc_cast_type; [done|].
    intros s' Hok' HS Hp Hc. split; [done|]. exists []. split_and!; [done|lia|done].
  - apply wp_when; [|done]. intros Hk. apply wp_re_calc_detail; [done|by destruct (current_token s)|].
    intros s' tl Hok' HS Hp. split; [done|]. exists tl. by split_and!.
  - apply wp_when; [|done]. intros Hk. apply wp_modify.
    assert ((current_token s =t TkEof) = false) as Hc by by destruct (current_token s).
    destruct (ok_put_kind s TkDocTrivia Hok Hc eq_refl) as [Hok' Hp'].
    split; [done|]. exists []. split_and!; [by apply Stepped_same|lia|by rewrite Hc].
Qed.
End Group.
