(* ===== verification/LuaGrammar.v ===== *)
(** * The Lua grammar

    [src/crates/glua_parser/src/grammar/mod.rs] and [grammar/lua/{mod,expr,stat}.rs].
    Every cycle of the recursive descent goes through [parse_sub_expr] or
    [parse_block], which ask how much stack is left; the functions between them
    take these two as parameters, and [grammar] ties the knot at the end. *)

From S2P Require Import Prelude Kinds Text Marker LuaParser.
Import LuaParser.
Local Open Scope prog_scope.

(** ** grammar/mod.rs *)

Inductive ParseFailReason : Type := Eof | UnexpectedToken.

Definition ParseResult : Type := Result CompleteMarker ParseFailReason.

(** [stacker::remaining_stack()], asked by the [d]-th nested call after the events
    [es] were written: the bytes that are left, [None] if the query failed. *)
Class Stack := {
  remaining_stack : nat -> list MarkEvent -> option N;
  max_nesting : nat
}.

Definition parser_stack_exhausted `{Stack} (d : nat) (es : list MarkEvent) : bool :=
  match remaining_stack d es with
  | Some remaining => (remaining <? 256 * 1024)%N
  | None => true
  end.

(** A stack is finite: no call is nested deeper than [max_nesting] without the
    query noticing. *)
Class FiniteStack `{Stack} : Prop :=
  finite_stack d es : max_nesting <= d -> parser_stack_exhausted d es = true.

(** ** grammar/lua/mod.rs, the helpers *)

Definition cur : M LuaParser LuaTokenKind := gets current_token.

Definition range_here : M LuaParser SourceRange :=
  range <- gets current_token_range ;; unwrap range.

(** Fuel of a loop over the tokens: no loop goes round twice without moving on,
    but for the one in [recover_to_block_end], whose depth counter may also
    fall. *)
Definition loop_fuel (p : LuaParser) : nat := 2 + 2 * length (tokens p).

Definition fail {A} (e : ParseFailReason) : M LuaParser (Result A ParseFailReason) := ret (Err e).

(** [Ok(m.complete(p))] *)
Definition ok_complete (m : Marker) : M LuaParser ParseResult :=
  cm <- complete m ;; ret (Ok cm).

Section Helpers.
Context `{DocComments}.

Definition expect_token (token : LuaTokenKind) : M LuaParser (Result unit ParseFailReason) :=
  c <- cur ;;
  if c =t token then bump ;;; ret (Ok tt)
  else if c =t TkEof then fail Eof
  else fail UnexpectedToken.

Definition if_token_bump (token : LuaTokenKind) : M LuaParser bool :=
  c <- cur ;;
  if c =t token then bump ;;; ret true else ret false.

Definition is_statement_start_token (token : LuaTokenKind) : bool :=
  token in_t [TkLocal; TkFunction; TkIf; TkFor; TkWhile; TkDo; TkName; TkReturn; TkBreak].

(** [while cond(p.current_token()) { p.bump() }] *)
Definition bump_while (cond : LuaTokenKind -> bool) : M LuaParser unit :=
  while_ loop_fuel (fun p => cond (current_token p)) bump.

(** [match expect_token(p, token) { Ok(_) => {} Err(_) => p.push_error(..) }] *)
Definition expect_or_error (token : LuaTokenKind) (message : rstring) : M LuaParser unit :=
  r <- expect_token token ;;
  when (is_err r) (error_here message).
End Helpers.

Section Grammar.
Context `{DocComments}.

(** The two functions through which the grammar recurses. *)
Variable sub_expr : Z -> M LuaParser ParseResult.
Variable block : M LuaParser ParseResult.

(** ** grammar/lua/expr.rs *)

Definition parse_expr : M LuaParser ParseResult := sub_expr 0.

Definition parse_param_name (is_vararg : bool) : M LuaParser (ParseResult * bool) :=
  m <- mark ParamName ;;
  token <- cur ;;
  if token =t TkName then
    bump ;;; cm <- complete m ;; ret (Ok cm, is_vararg)
  else if token =t TkDots then
    bump ;;;
    named <- gets (fun p => ParserConfig.support_named_var_args (parse_config p)
                            && (current_token p =t TkName)) ;;
    when named bump ;;;
    cm <- complete m ;; ret (Ok cm, true)
  else
    error_here (str "expected parameter name or '...' (vararg)") ;;;
    complete m ;;;
    ret (Err UnexpectedToken, is_vararg).

(** One round of the loop over the parameters; the loop variables are
    [is_vararg] and [reported_trailing_after_vararg]. *)
Definition param_step (vars : bool * bool) : M LuaParser (bool * bool + unit) :=
  let '(is_vararg, reported) := vars in
  r <- parse_param_name is_vararg ;;
  let is_vararg := r.2 in
  when (is_err r.1)
    (error_here (str "expected parameter name") ;;;
     bump_while (fun c => negb (c in_t [TkComma; TkRightParen; TkEof; TkEnd])
                          && negb (is_statement_start_token c))) ;;;
  c <- cur ;;
  if c =t TkComma then
    bump ;;;
    c <- cur ;;
    if c =t TkRightParen then
      error_here (str "expected parameter name after ','") ;;; ret (inr tt)
    else if is_vararg && negb reported then
      error_here (str "vararg '...' must be the last parameter") ;;;
      ret (inl (is_vararg, true))
    else ret (inl (is_vararg, reported))
  else ret (inr tt).

Definition parse_param_list : M LuaParser ParseResult :=
  m <- mark ParamList ;;
  c <- cur ;;
  (if c =t TkLeftParen then bump
   else error_here (str "expected '(' to start parameter list")) ;;;
  c <- cur ;;
  when (negb (c =t TkRightParen)) (loop_from loop_fuel param_step (false, false)) ;;;
  c <- cur ;;
  (if c =t TkRightParen then bump
   else error_here (str "expected ')' to close parameter list")) ;;;
  ok_complete m.

Definition parse_closure_expr : M LuaParser ParseResult :=
  m <- mark ClosureExpr ;;
  start_range <- range_here ;;
  if_token_bump TkFunction ;;;
  _ <~ parse_param_list ;;
  c <- cur ;;
  _ <~ (if negb (c =t TkEnd) then block else ret (Ok CompleteMarker_empty)) ;;
  c <- cur ;;
  (if c =t TkEnd then bump
   else error_at (str "expected 'end' to close function definition") start_range) ;;;
  ok_complete m.

Definition parse_field_with_recovery : M LuaParser ParseResult :=
  m <- mark TableFieldValue ;;
  c <- cur ;;
  (if c =t TkLeftBracket then
     set_kind m TableFieldAssign ;;;
     bump ;;;
     r <- parse_expr ;;
     when (is_err r)
       (error_here (str "expected expression inside table index brackets") ;;;
        bump_while (fun c => negb (c in_t [TkRightBracket; TkAssign; TkComma; TkSemicolon;
                                           TkRightBrace; TkEof]))) ;;;
     c <- cur ;;
     (if c =t TkRightBracket then bump
      else error_here (str "expected ']' to close table index")) ;;;
     c <- cur ;;
     (if c =t TkAssign then bump
      else error_here (str "expected '=' after table index")) ;;;
     r <- parse_expr ;;
     when (is_err r) (error_here (str "expected value expression after '='"))
   else if c =t TkName then
     next <- gets peek_next_token ;;
     if next =t TkAssign then
       set_kind m TableFieldAssign ;;;
       bump ;;;
       bump ;;;
       r <- parse_expr ;;
       when (is_err r) (error_here (str "expected value expression after field name"))
     else
       r <- parse_expr ;;
       when (is_err r) (error_here (str "invalid table field expression"))
   else if c in_t [TkEof; TkLocal] then
     error_here (str "unexpected end of table field")
   else
     r <- parse_expr ;;
     when (is_err r)
       (error_here (str "invalid table field, expected expression, field assignment, or table end"))) ;;;
  ok_complete m.

Definition recover_to_table_boundary : M LuaParser unit :=
  bump_while (fun c => negb (c in_t [TkComma; TkSemicolon; TkRightBrace; TkEof])).

(** One round of the loop over the remaining fields of [m]. *)
Definition field_step (m : Marker) (_ : unit) : M LuaParser (unit + unit) :=
  c <- cur ;;
  if negb (c in_t [TkComma; TkSemicolon]) then ret (inr tt)
  else
    let separator_token := c in
    bump ;;;
    c <- cur ;;
    if c =t TkRightBrace then ret (inr tt)
    else
      r <- parse_field_with_recovery ;;
      match r with
      | Ok cm =>
          when (kind cm =k TableFieldAssign) (set_kind m TableObjectExpr) ;;;
          ret (inl tt)
      | Err _ =>
          error_here (str "invalid table field after '" ++ token_name separator_token
                      ++ str "'") ;;;
          recover_to_table_boundary ;;;
          c <- cur ;;
          if c =t TkRightBrace then ret (inr tt) else ret (inl tt)
      end.

(** One round of the search for the closing brace: [brace_count] goes in,
    [found_brace] comes out. *)
Definition brace_step (brace_count : Z) : M LuaParser (Z + bool) :=
  c <- cur ;;
  if c =t TkEof then ret (inr false)
  else if c =t TkRightBrace then
    let brace_count := (brace_count - 1)%Z in
    if (brace_count =? 0)%Z then bump ;;; ret (inr true)
    else bump ;;; ret (inl brace_count)
  else if c =t TkLeftBrace then bump ;;; ret (inl (brace_count + 1)%Z)
  else if c in_t [TkEnd; TkElse; TkElseIf; TkUntil; TkThen; TkDo] then ret (inr false)
  else bump ;;; ret (inl brace_count).

Definition parse_table_expr : M LuaParser ParseResult :=
  m <- mark TableEmptyExpr ;;
  bump ;;;
  c <- cur ;;
  if c =t TkRightBrace then bump ;;; ok_complete m
  else
    r <- parse_field_with_recovery ;;
    match r with
    | Ok cm =>
        if kind cm =k TableFieldAssign then set_kind m TableObjectExpr
        else if kind cm =k TableFieldValue then set_kind m TableArrayExpr
        else ret tt
    | Err _ => recover_to_table_boundary
    end ;;;
    loop_from loop_fuel (field_step m) tt ;;;
    c <- cur ;;
    (if c =t TkRightBrace then bump
     else
       error_here (str "expected '}' to close table constructor") ;;;
       found_brace <- loop_from loop_fuel brace_step 1%Z ;;
       when (negb found_brace)
         (error_here (str "table constructor was not properly closed"))) ;;;
    ok_complete m.

(** One round of the loop over the arguments. *)
Definition arg_step (_ : unit) : M LuaParser (unit + unit) :=
  r <- parse_expr ;;
  match r with
  | Err _ =>
      error_here (str "expected argument expression") ;;;
      bump_while (fun c => negb (c in_t [TkComma; TkRightParen; TkEof])
                           && negb (is_statement_start_token c)) ;;;
      c <- cur ;;
      if c =t TkComma then bump ;;; ret (inl tt) else ret (inr tt)
  | Ok _ =>
      c <- cur ;;
      if c =t TkComma then
        bump ;;;
        c <- cur ;;
        if c =t TkRightParen then
          error_here (str "expected expression after ','") ;;; ret (inr tt)
        else ret (inl tt)
      else ret (inr tt)
  end.

Definition parse_args : M LuaParser ParseResult :=
  m <- mark CallArgList ;;
  c <- cur ;;
  if c =t TkLeftParen then
    bump ;;;
    c <- cur ;;
    when (negb (c =t TkRightParen)) (loop_from loop_fuel arg_step tt) ;;;
    c <- cur ;;
    (if c =t TkRightParen then bump
     else error_here (str "expected ')' to close argument list")) ;;;
    ok_complete m
  else if c =t TkLeftBrace then
    r <- parse_table_expr ;;
    match r with
    | Ok _ => ok_complete m
    | Err err =>
        error_here (str "invalid table constructor in function call") ;;;
        complete m ;;;
        fail err
    end
  else if c in_t [TkString; TkLongString] then
    m1 <- mark LiteralExpr ;;
    bump ;;;
    complete m1 ;;;
    ok_complete m
  else
    error_here (str "expected '(', string, or table constructor for function call") ;;;
    complete m ;;;
    fail UnexpectedToken.

Definition special_call_kind (f : SpecialFunction) : LuaSyntaxKind :=
  match f with
  | SpRequire => RequireCallExpr
  | SpAssert => AssertCallExpr
  | SpError => ErrorCallExpr
  | SpType => TypeCallExpr
  | SpSetmetaatable => SetmetatableCallExpr
  | SpNone => SkNone
  end.

Definition parse_name_or_special_function : M LuaParser ParseResult :=
  m <- mark NameExpr ;;
  text <- gets current_token_text ;;
  text <- unwrap text ;;
  special_kind <- gets (fun p =>
    special_call_kind (ParserConfig.get_special_function (parse_config p) text)) ;;
  bump ;;;
  cm <- complete m ;;
  if special_kind =k SkNone then ret (Ok cm)
  else
    c <- cur ;;
    if c in_t [TkLeftParen; TkLongString; TkString; TkLeftBrace] then
      m1 <- precede cm special_kind ;;
      r <- parse_args ;;
      match r with
      | Err err => complete m1 ;;; fail err
      | Ok _ => ok_complete m1
      end
    else ret (Ok cm).

Definition parse_index_struct : M LuaParser (Result unit ParseFailReason) :=
  index_op_range <- range_here ;;
  c <- cur ;;
  if c =t TkLeftBracket then
    bump ;;;
    r <- parse_expr ;;
    match r with
    | Err err =>
        error_at (str "expected expression inside table index brackets") index_op_range ;;;
        fail err
    | Ok _ =>
        r <- expect_token TkRightBracket ;;
        match r with
        | Err err =>
            error_at (str "expected ']' to close table index") index_op_range ;;;
            fail err
        | Ok _ => ret (Ok tt)
        end
    end
  else if c =t TkDot then
    bump ;;;
    r <- expect_token TkName ;;
    match r with
    | Err err =>
        error_at (str "expected field name after '.'") index_op_range ;;;
        fail err
    | Ok _ => ret (Ok tt)
    end
  else if c =t TkColon then
    bump ;;;
    name_token_range <- range_here ;;
    r <- expect_token TkName ;;
    match r with
    | Err err =>
        error_at (str "expected method name after ':'") index_op_range ;;;
        fail err
    | Ok _ =>
        c <- cur ;;
        if negb (c in_t [TkLeftParen; TkLeftBrace; TkString; TkLongString]) then
          error_at (str "colon accessor must be followed by a function call or table constructor or string literal")
            name_token_range ;;;
          fail UnexpectedToken
        else ret (Ok tt)
    end
  else
    error_here (str "expect index struct") ;;;
    fail UnexpectedToken.

(** One round of the loop over the suffixes. *)
Definition suffix_step (cm : CompleteMarker)
    : M LuaParser (CompleteMarker + ParseResult) :=
  c <- cur ;;
  if c in_t [TkDot; TkColon; TkLeftBracket] then
    m <- precede cm IndexExpr ;;
    r <- parse_index_struct ;;
    match r with
    | Err err => complete m ;;; ret (inr (Err err))
    | Ok _ => cm <- complete m ;; ret (inl cm)
    end
  else if c in_t [TkLeftParen; TkLongString; TkString; TkLeftBrace] then
    m <- precede cm CallExpr ;;
    r <- parse_args ;;
    match r with
    | Err err => complete m ;;; ret (inr (Err err))
    | Ok _ => cm <- complete m ;; ret (inl cm)
    end
  else ret (inr (Ok cm)).

Definition parse_paren_expr : M LuaParser ParseResult :=
  m <- mark ParenExpr ;;
  paren_range <- range_here ;;
  bump ;;;
  r <- parse_expr ;;
  match r with
  | Err err =>
      error_at (str "expected expression inside parentheses") paren_range ;;;
      complete m ;;;
      fail err
  | Ok _ =>
      c <- cur ;;
      (if c =t TkRightParen then bump
       else error_at (str "expected ')' to close parentheses") paren_range) ;;;
      ok_complete m
  end.

Definition parse_suffixed_expr : M LuaParser ParseResult :=
  c <- cur ;;
  cm <~ (if c =t TkName then parse_name_or_special_function
         else if c =t TkLeftParen then parse_paren_expr
         else
           error_here (str "expect primary expression (identifier or parenthesized expression)") ;;;
           fail UnexpectedToken) ;;
  loop_from loop_fuel suffix_step cm.

Definition simple_expr_error (c : LuaTokenKind) : rstring :=
  match c with
  | TkEof => str "unexpected end of file, expected expression"
  | TkRightParen => str "unexpected ')', expected expression"
  | TkRightBrace => str "unexpected '}', expected expression"
  | TkRightBracket => str "unexpected ']', expected expression"
  | TkComma => str "unexpected ',', expected expression"
  | TkSemicolon => str "unexpected ';', expected expression"
  | TkEnd => str "unexpected 'end', expected expression"
  | TkElse => str "unexpected 'else', expected expression"
  | TkElseIf => str "unexpected 'elseif', expected expression"
  | TkThen => str "unexpected 'then', expected expression"
  | TkDo => str "unexpected 'do', expected expression"
  | TkUntil => str "unexpected 'until', expected expression"
  | _ => str "unexpected token '" ++ token_name c ++ str "', expected expression"
  end.

Definition parse_simple_expr : M LuaParser ParseResult :=
  c <- cur ;;
  if c in_t [TkInt; TkFloat; TkComplex; TkNil; TkTrue; TkFalse; TkDots; TkString;
             TkLongString] then
    m <- mark LiteralExpr ;;
    bump ;;;
    ok_complete m
  else if c =t TkLeftBrace then parse_table_expr
  else if c =t TkFunction then parse_closure_expr
  else if c in_t [TkName; TkLeftParen] then parse_suffixed_expr
  else
    error_here (simple_expr_error c) ;;;
    fail UnexpectedToken.

(** One round of the loop over the binary operators that bind tighter than
    [limit]. *)
Definition binary_step (limit : Z) (cm : CompleteMarker)
    : M LuaParser (CompleteMarker + ParseResult) :=
  op_token <- cur ;;
  let bop := to_binary_operator op_token in
  if bool_decide (bop = OpNop) then ret (inr (Ok cm)) else
  priority <- unwrap (get_priority bop) ;;
  if negb (limit <? left priority)%Z then ret (inr (Ok cm)) else
  op_range <- range_here ;;
  m <- precede cm BinaryExpr ;;
  bump ;;;
  r <- sub_expr (right priority) ;;
  match r with
  | Ok _ => cm <- complete m ;; ret (inl cm)
  | Err err =>
      error_at (str "binary operator '" ++ token_name op_token
                ++ str "' is not followed by an expression") op_range ;;;
      complete m ;;;
      ret (inr (Err err))
  end.

Definition parse_unary_expr : M LuaParser ParseResult :=
  m <- mark UnaryExpr ;;
  op_range <- range_here ;;
  op_token <- cur ;;
  bump ;;;
  r <- sub_expr UNARY_PRIORITY ;;
  when (is_err r)
    (error_at (str "unary operator '" ++ token_name op_token
               ++ str "' is not followed by an expression") op_range) ;;;
  ok_complete m.

(** [d] is the number of guarded calls this one is nested in. *)
Definition parse_sub_expr `{Stack} (d : nat) (limit : Z) : M LuaParser ParseResult :=
  exhausted <- gets (fun p => parser_stack_exhausted d (events p)) ;;
  if exhausted : bool then
    error_here (str "expression is too deeply nested") ;;;
    fail UnexpectedToken
  else
    c <- cur ;;
    cm <~ (if negb (bool_decide (to_unary_operator c = UOpNop)) then parse_unary_expr
           else parse_simple_expr) ;;
    loop_from loop_fuel (binary_step limit) cm.
End Grammar.

Section Statements.
Context `{DocComments}.
Variable sub_expr : Z -> M LuaParser ParseResult.
Variable block : M LuaParser ParseResult.

(** ** grammar/lua/stat.rs *)

Definition push_expr_error_lazy (error_msg : rstring) : M LuaParser unit := error_here error_msg.

Definition expect_keyword_with_recovery (expected : LuaTokenKind) (error_msg : rstring)
    : M LuaParser bool :=
  c <- cur ;;
  if c =t expected then bump ;;; ret true
  else error_here error_msg ;;; ret (is_statement_start_token c).

(** One round of the search for the end of a block; [depth] is the [i32]
    counter.  [inr] leaves the loop. *)
Definition recover_step (depth : Z) : M LuaParser (Z + unit) :=
  c <- cur ;;
  if (c =t TkEof) || negb (0 <? depth)%Z then ret (inr tt)
  else if c in_t [TkIf; TkWhile; TkFor; TkDo; TkFunction] then
    bump ;;; ret (inl (depth + 1)%Z)
  else if c =t TkEnd then
    let depth := (depth - 1)%Z in
    when (depth =? 0)%Z bump ;;;
    ret (inl depth)
  else if c in_t [TkElseIf; TkElse] then
    if (depth =? 1)%Z then ret (inr tt) else bump ;;; ret (inl depth)
  else if c =t TkUntil then
    let depth := (depth - 1)%Z in
    if (depth =? 0)%Z then ret (inr tt) else bump ;;; ret (inl depth)
  else bump ;;; ret (inl depth).

Definition recover_to_block_end : M LuaParser unit := loop_from loop_fuel recover_step 1%Z.

Definition expect_end_keyword (start_range : SourceRange) (error_msg : rstring)
    : M LuaParser unit :=
  c <- cur ;;
  if c =t TkEnd then bump
  else error_at error_msg start_range ;;; recover_to_block_end.

Definition recover_to_keywords (keywords : list LuaTokenKind) : M LuaParser unit :=
  bump_while (fun c => negb (c =t TkEof) && negb (c in_t keywords)
                       && negb (is_statement_start_token c)).

(** [parse_expr(p).map_err(|_| message)] *)
Definition parse_expr_or (message : rstring) : M LuaParser (Result CompleteMarker rstring) :=
  r <- parse_expr sub_expr ;;
  ret (match r with Ok cm => Ok cm | Err _ => Err message end).

Definition expr_list_step (_ : unit) : M LuaParser (unit + Result unit rstring) :=
  c <- cur ;;
  if c =t TkComma then
    bump ;;;
    r <- parse_expr_or (str "expected expression after ','") ;;
    match r with
    | Ok _ => ret (inl tt)
    | Err e => ret (inr (Err e))
    end
  else ret (inr (Ok tt)).

Definition parse_expr_list_impl : M LuaParser (Result unit rstring) :=
  _ <~ parse_expr_or (str "expected expression") ;;
  loop_from loop_fuel expr_list_step tt.

Definition parse_attrib : M LuaParser ParseResult :=
  m <- mark Attribute ;;
  range <- range_here ;;
  bump ;;;
  expect_or_error TkName (str "expected attribute name after '<'") ;;;
  expect_or_error TkGt (str "expected '>' after attribute name") ;;;
  supported <- gets (fun p => ParserConfig.support_local_attrib (parse_config p)) ;;
  lvl <- gets (fun p => level (parse_config p)) ;;
  when (negb supported)
    (error_at (str "local attribute is not supported for current version: "
               ++ level_name lvl) range) ;;;
  ok_complete m.

Definition parse_local_name (support_attrib : bool) : M LuaParser ParseResult :=
  m <- mark LocalName ;;
  expect_or_error TkName (str "expected variable name after 'local'") ;;;
  c <- cur ;;
  _ <~ (if support_attrib && (c =t TkLt) then parse_attrib
        else ret (Ok CompleteMarker_empty)) ;;
  ok_complete m.

Definition name_list_step (support_attrib : bool) (_ : unit) : M LuaParser (unit + unit) :=
  c <- cur ;;
  if c =t TkComma then
    bump ;;;
    r <- parse_local_name support_attrib ;;
    when (is_err r) (error_here (str "expected variable name after ','")) ;;;
    ret (inl tt)
  else ret (inr tt).

Definition parse_variable_name_list (support_attrib : bool) : M LuaParser ParseResult :=
  _ <~ parse_local_name support_attrib ;;
  loop_from loop_fuel (name_list_step support_attrib) tt ;;;
  ret (Ok CompleteMarker_empty).

Definition block_follow (p : LuaParser) : bool :=
  current_token p in_t [TkElse; TkElseIf; TkEnd; TkEof; TkUntil].

(** [if block_may_start { parse_block(p)?; }] *)
Definition block_if (b : bool) : M LuaParser ParseResult :=
  if b then block else ret (Ok CompleteMarker_empty).

Definition parse_elseif_clause : M LuaParser ParseResult :=
  m <- mark ElseIfClauseStat ;;
  bump ;;;
  r <- parse_expr sub_expr ;;
  when (is_err r) (push_expr_error_lazy (str "expected condition expression after 'elseif'")) ;;;
  expect_keyword_with_recovery TkThen (str "expected 'then' after 'elseif' condition") ;;;
  _ <~ block ;;
  ok_complete m.

Definition parse_else_clause : M LuaParser ParseResult :=
  m <- mark ElseClauseStat ;;
  bump ;;;
  _ <~ block ;;
  ok_complete m.

Definition elseif_step (_ : unit) : M LuaParser (unit + ParseResult) :=
  c <- cur ;;
  if c =t TkElseIf then
    r <- parse_elseif_clause ;;
    match r with
    | Ok _ => ret (inl tt)
    | Err e => ret (inr (Err e))
    end
  else ret (inr (Ok CompleteMarker_empty)).

Definition parse_if : M LuaParser ParseResult :=
  m <- mark IfStat ;;
  if_start_range <- range_here ;;
  bump ;;;
  r <- parse_expr sub_expr ;;
  when (is_err r)
    (push_expr_error_lazy (str "expected condition expression after 'if'") ;;;
     recover_to_keywords [TkThen; TkEnd]) ;;;
  found <- expect_keyword_with_recovery TkThen (str "expected 'then' after if condition") ;;
  when (negb found) (recover_to_keywords [TkEnd; TkElseIf; TkElse]) ;;;
  c <- cur ;;
  _ <~ block_if (negb (c in_t [TkEnd; TkElseIf; TkElse; TkEof])) ;;
  _ <~ loop_from loop_fuel elseif_step tt ;;
  c <- cur ;;
  _ <~ (if c =t TkElse then parse_else_clause else ret (Ok CompleteMarker_empty)) ;;
  expect_end_keyword if_start_range (str "expected 'end' to close if statement") ;;;
  if_token_bump TkSemicolon ;;;
  ok_complete m.

Definition parse_while : M LuaParser ParseResult :=
  m <- mark WhileStat ;;
  while_start_range <- range_here ;;
  bump ;;;
  r <- parse_expr sub_expr ;;
  when (is_err r)
    (push_expr_error_lazy (str "expected condition expression after 'while'") ;;;
     recover_to_keywords [TkDo; TkEnd]) ;;;
  found <- expect_keyword_with_recovery TkDo (str "expected 'do' after while condition") ;;
  when (negb found) (recover_to_keywords [TkEnd]) ;;;
  c <- cur ;;
  _ <~ block_if (negb (c =t TkEnd) && negb (c =t TkEof)) ;;
  expect_end_keyword while_start_range (str "expected 'end' to close while statement") ;;;
  if_token_bump TkSemicolon ;;;
  ok_complete m.

Definition parse_do : M LuaParser ParseResult :=
  m <- mark DoStat ;;
  do_start_range <- range_here ;;
  bump ;;;
  _ <~ block ;;
  expect_end_keyword do_start_range (str "expected 'end' after 'do' block") ;;;
  if_token_bump TkSemicolon ;;;
  ok_complete m.

(** [while p.current_token() == TkComma { .. }] of the generic [for]. *)
Definition for_name_step (_ : unit) : M LuaParser (unit + unit) :=
  c <- cur ;;
  if c =t TkComma then
    bump ;;;
    c <- cur ;;
    (if c =t TkName then bump
     else error_here (str "expected variable name after ','")) ;;;
    ret (inl tt)
  else ret (inr tt).

Definition numeric_for : M LuaParser unit :=
  bump ;;;
  r <- parse_expr sub_expr ;;
  when (is_err r)
    (push_expr_error_lazy (str "expected start value expression in numeric for loop")) ;;;
  c <- cur ;;
  (if c =t TkComma then bump
   else error_here (str "expected ',' after start value in numeric for loop")) ;;;
  r <- parse_expr sub_expr ;;
  when (is_err r)
    (push_expr_error_lazy (str "expected end value expression in numeric for loop")) ;;;
  c <- cur ;;
  when (c =t TkComma)
    (bump ;;;
     r <- parse_expr sub_expr ;;
     when (is_err r)
       (push_expr_error_lazy (str "expected step value expression in numeric for loop"))).

Definition generic_for : M LuaParser unit :=
  loop_from loop_fuel for_name_step tt ;;;
  c <- cur ;;
  (if c =t TkIn then bump
   else error_here (str "expected 'in' after variable list in generic for loop")) ;;;
  r <- parse_expr_list_impl ;;
  when (is_err r) (push_expr_error_lazy (str "expected iterator expression after 'in'")).

Definition parse_for : M LuaParser ParseResult :=
  m <- mark ForStat ;;
  for_start_range <- range_here ;;
  bump ;;;
  c <- cur ;;
  (if c =t TkName then bump
   else
     error_here (str "expected variable name after 'for'") ;;;
     recover_to_keywords [TkAssign; TkIn; TkComma; TkDo; TkEnd]) ;;;
  c <- cur ;;
  (if c =t TkAssign then numeric_for
   else if c in_t [TkComma; TkIn] then set_kind m ForRangeStat ;;; generic_for
   else
     error_here (str "expected '=' for numeric for loop or ',' or 'in' for generic for loop")) ;;;
  found <- expect_keyword_with_recovery TkDo (str "expected 'do' in for statement") ;;
  when (negb found) (recover_to_keywords [TkEnd]) ;;;
  c <- cur ;;
  _ <~ block_if (negb (c =t TkEnd) && negb (c =t TkEof)) ;;
  expect_end_keyword for_start_range (str "expected 'end' to close for statement") ;;;
  if_token_bump TkSemicolon ;;;
  ok_complete m.

(** [while p.current_token() == TkDot { .. }] *)
Definition dot_name_step (cm : CompleteMarker) : M LuaParser (CompleteMarker + CompleteMarker) :=
  c <- cur ;;
  if c =t TkDot then
    m <- precede cm IndexExpr ;;
    bump ;;;
    expect_or_error TkName (str "expected name after '.'") ;;;
    cm <- complete m ;;
    ret (inl cm)
  else ret (inr cm).

Definition parse_func_name : M LuaParser ParseResult :=
  m <- mark NameExpr ;;
  r <- expect_token TkName ;;
  match r with
  | Err _ =>
      error_here (str "expected function name after 'function'") ;;;
      fail UnexpectedToken
  | Ok _ =>
      c <- cur ;;
      if (c =t TkDot) || (c =t TkColon) then
        cm <- complete m ;;
        cm <- loop_from loop_fuel dot_name_step cm ;;
        c <- cur ;;
        if c =t TkColon then
          m <- precede cm IndexExpr ;;
          bump ;;;
          expect_or_error TkName (str "expected name after ':'") ;;;
          ok_complete m
        else ret (Ok cm)
      else ok_complete m
  end.

Definition parse_function : M LuaParser ParseResult :=
  m <- mark FuncStat ;;
  bump ;;;
  _ <~ parse_func_name ;;
  _ <~ parse_closure_expr block ;;
  if_token_bump TkSemicolon ;;;
  ok_complete m.

(** [local function ..] after the [function]. *)
Definition local_function (m : Marker) : M LuaParser unit :=
  bump ;;;
  set_kind m LocalFuncStat ;;;
  r <- parse_local_name false ;;
  when (is_err r) (error_here (str "expected function name after 'local function'")) ;;;
  r <- parse_closure_expr block ;;
  when (is_err r) (error_here (str "invalid function definition")).

Definition parse_local : M LuaParser ParseResult :=
  m <- mark LocalStat ;;
  bump ;;;
  c <- cur ;;
  _ <~ (if c =t TkFunction then local_function m ;;; ret (Ok CompleteMarker_empty)
        else if c =t TkName then
          _ <~ parse_variable_name_list false ;;
          c <- cur ;;
          when (is_assign_op c)
            (bump ;;;
             r <- parse_expr_list_impl ;;
             when (is_err r)
               (push_expr_error_lazy (str "expected initialization expression after '='"))) ;;;
          ret (Ok CompleteMarker_empty)
        else
          error_here (str "expected 'function' or variable name after 'local'") ;;;
          fail UnexpectedToken) ;;
  if_token_bump TkSemicolon ;;;
  ok_complete m.

Definition parse_return : M LuaParser ParseResult :=
  m <- mark ReturnStat ;;
  bump ;;;
  follow <- gets block_follow ;;
  c <- cur ;;
  when (negb follow && negb (c =t TkSemicolon))
    (r <- parse_expr_list_impl ;;
     when (is_err r) (push_expr_error_lazy (str "expected expression in return statement"))) ;;;
  if_token_bump TkSemicolon ;;;
  ok_complete m.

Definition parse_break : M LuaParser ParseResult :=
  m <- mark BreakStat ;;
  bump ;;;
  if_token_bump TkSemicolon ;;;
  ok_complete m.

Definition parse_repeat : M LuaParser ParseResult :=
  m <- mark RepeatStat ;;
  bump ;;;
  _ <~ block ;;
  expect_or_error TkUntil (str "expected 'until' after repeat block") ;;;
  r <- parse_expr sub_expr ;;
  when (is_err r) (push_expr_error_lazy (str "expected condition expression after 'until'")) ;;;
  if_token_bump TkSemicolon ;;;
  ok_complete m.

Definition parse_goto : M LuaParser ParseResult :=
  m <- mark GotoStat ;;
  bump ;;;
  expect_or_error TkName (str "expected label name after 'goto'") ;;;
  if_token_bump TkSemicolon ;;;
  ok_complete m.

Definition parse_empty_stat : M LuaParser ParseResult :=
  m <- mark EmptyStat ;;
  bump ;;;
  ok_complete m.

Definition parse_label_stat : M LuaParser ParseResult :=
  m <- mark LabelStat ;;
  bump ;;;
  expect_or_error TkName (str "expected label name after 'goto'") ;;;
  expect_or_error TkDbColon (str "expected '::' after label name") ;;;
  ok_complete m.

Definition is_call_expr (k : LuaSyntaxKind) : bool :=
  k in_k [CallExpr; AssertCallExpr; ErrorCallExpr; RequireCallExpr; TypeCallExpr;
          SetmetatableCallExpr].

Definition is_assignable (k : LuaSyntaxKind) : bool := k in_k [NameExpr; IndexExpr].

Definition invalid_lhs : rstring :=
  str "invalid left-hand side in assignment (expected variable or table index)".

(** One more left-hand side after a comma. *)
Definition lhs_step (_ : unit) : M LuaParser (unit + Result unit ParseFailReason) :=
  c <- cur ;;
  if c =t TkComma then
    bump ;;;
    r <- parse_expr sub_expr ;;
    match r with
    | Ok expr_cm =>
        if negb (is_assignable (kind expr_cm)) then
          error_here invalid_lhs ;;;
          ret (inr (Err UnexpectedToken))
        else ret (inl tt)
    | Err _ =>
        error_here (str "expected variable after ',' in assignment") ;;;
        ret (inl tt)
    end
  else ret (inr (Ok tt)).

Definition parse_assign_or_expr_or_global_stat : M LuaParser ParseResult :=
  m <- mark AssignStat ;;
  range <- range_here ;;
  r <- parse_expr sub_expr ;;
  match r with
  | Err err =>
      error_at (str "expected expression in assignment or statement") range ;;;
      fail err
  | Ok cm =>
      if is_call_expr (kind cm) then
        set_kind m CallExprStat ;;;
        if_token_bump TkSemicolon ;;;
        ok_complete m
      else if negb (is_assignable (kind cm)) then
        error_at invalid_lhs range ;;;
        fail UnexpectedToken
      else
        _ <~ loop_from loop_fuel lhs_step tt ;;
        c <- cur ;;
        if is_assign_op c then
          bump ;;;
          r <- parse_expr_list_impl ;;
          when (is_err r)
            (push_expr_error_lazy (str "expected expression after '=' in assignment")) ;;;
          if_token_bump TkSemicolon ;;;
          ok_complete m
        else
          prev <- gets previous_token_range ;;
          prev <- unwrap prev ;;
          error_at (str "expected '=' for assignment or this is an incomplete statement") prev ;;;
          fail UnexpectedToken
  end.

Definition parse_stat : M LuaParser ParseResult :=
  c <- cur ;;
  match c with
  | TkIf => parse_if
  | TkWhile => parse_while
  | TkFor => parse_for
  | TkFunction => parse_function
  | TkLocal => parse_local
  | TkReturn => parse_return
  | TkBreak => parse_break
  | TkDo => parse_do
  | TkRepeat => parse_repeat
  | TkGoto => parse_goto
  | TkDbColon => parse_label_stat
  | TkSemicolon => parse_empty_stat
  | _ => parse_assign_or_expr_or_global_stat
  end.

(** The inner loop of the error recovery: [true] if it stopped at the start of
    a statement. *)
Definition recover_stat_step (_ : unit) : M LuaParser (unit + bool) :=
  c <- cur ;;
  if c =t TkEof then ret (inr false) else
  follow <- gets block_follow ;;
  if follow : bool then ret (inr false)
  else if is_statement_start_token c then ret (inr true)
  else bump ;;; ret (inl tt).

Definition stat_step (_ : unit) : M LuaParser (unit + unit) :=
  follow <- gets block_follow ;;
  if follow : bool then ret (inr tt) else
  lvl <- gets mark_level ;;
  index <- gets token_index ;;
  r <- parse_stat ;;
  match r with
  | Ok _ => ret (inl tt)
  | Err _ =>
      current_level <- gets mark_level ;;
      n <- (if (current_level <? lvl)%nat then panic else ret (current_level - lvl)) ;;
      push_node_ends n ;;;
      can_continue <- loop_from loop_fuel recover_stat_step tt ;;
      index' <- gets token_index ;;
      if can_continue && negb (index' =? index)%nat then ret (inl tt)
      else ret (inr tt)
  end.

Definition parse_stats : M LuaParser unit := loop_from loop_fuel stat_step tt.

(** ** grammar/lua/mod.rs *)

Definition parse_block `{Stack} (d : nat) : M LuaParser ParseResult :=
  exhausted <- gets (fun p => parser_stack_exhausted d (events p)) ;;
  if exhausted : bool then
    error_here (str "block is too deeply nested") ;;;
    fail UnexpectedToken
  else
    m <- mark Block ;;
    parse_stats ;;;
    ok_complete m.

Definition unexpected_error (c : LuaTokenKind) : rstring :=
  match c with
  | TkRightBrace => str "unexpected '}' - missing opening '{' or extra closing brace"
  | TkRightParen => str "unexpected ')' - missing opening '(' or extra closing parenthesis"
  | TkRightBracket => str "unexpected ']' - missing opening '[' or extra closing bracket"
  | TkElse => str "unexpected 'else' - missing corresponding 'if' statement"
  | TkElseIf => str "unexpected 'elseif' - missing corresponding 'if' statement"
  | TkEnd => str "unexpected 'end' - missing corresponding block statement"
  | TkUntil => str "unexpected 'until' - missing corresponding 'repeat' statement"
  | TkThen => str "unexpected 'then' - missing corresponding 'if' statement"
  | TkDo => str "unexpected 'do' - missing corresponding loop statement"
  | _ => str "unexpected token '" ++ token_name c ++ str "' - expected statement"
  end.

Definition chunk_step (_ : unit) : M LuaParser (unit + unit) :=
  c <- cur ;;
  if c =t TkEof then ret (inr tt) else
  consume_count <- gets token_index ;;
  parse_stats ;;;
  index <- gets token_index ;;
  when (index =? consume_count)%nat
    (error_range <- range_here ;;
     m <- mark UnknownStat ;;
     c <- cur ;;
     error_at (unexpected_error c) error_range ;;;
     bump ;;;
     complete m ;;;
     ret tt) ;;;
  ret (inl tt).

Definition parse_chunk_with : M LuaParser unit :=
  m <- mark Block ;;
  init ;;;
  loop_from loop_fuel chunk_step tt ;;;
  complete m ;;;
  ret tt.
End Statements.

(** ** The knot *)

(** [grammar n d]: the two guarded functions at nesting depth [d], for a stack
    on which at most [n] more calls can be nested. *)
Fixpoint grammar `{DocComments} `{Stack} (n d : nat)
    : (Z -> M LuaParser ParseResult) * M LuaParser ParseResult :=
  match n with
  | 0 => (fun _ => out_of_fuel, out_of_fuel)
  | S n' =>
      let rec := grammar n' (S d) in
      (parse_sub_expr rec.1 rec.2 d, parse_block rec.1 rec.2 d)
  end.

Definition parse_chunk `{DocComments} `{Stack} : M LuaParser unit :=
  let rec := grammar (S max_nesting) 0 in
  parse_chunk_with rec.1 rec.2.
