(* ===== verification/LuaGrammarRules.v ===== *)
(** * Rules for the functions of the Lua grammar

    The assertion of [Discipline.v], for the Lua parser: what each helper of
    [grammar/lua] does to it, the loops over the tokens, and the tactics that
    drive the proofs about the grammar. *)

From S2P Require Import Prelude Kinds Text LuaLexer Marker Discipline Rules LuaParser LuaParserProofs.
From S2P Require Import LuaGrammar.
Import LuaParser.
Local Open Scope prog_scope.

(** ** Knowing that the cursor is on a token *)

Lemma current_rest (s s' : LuaParser) : rest s' = rest s -> current_token s' = current_token s.
Proof. intros Hr. by injection Hr. Qed.

Lemma index_rest (s s' : LuaParser) : rest s' = rest s -> token_index s' = token_index s.
Proof. intros Hr. by injection Hr. Qed.

(** [not_eof]: proves [(current_token s =t TkEof) = false] from a test of the
    current token among the hypotheses. *)
Ltac not_eof :=
  first
    [ not_eof_here
    | repeat match goal with
      | H : rest ?s' = rest ?s |- _ =>
          progress rewrite ?(current_rest s s' H) in *
      end; not_eof_here ].

Existing Class lexed.

Section Rules.
Context `{DocCommentsLaws}.
Context {txt : rstring} {toks : list LuaTokenData} {parts : list rstring} {cfg : ParserConfig}.
Context {L : lexed txt toks parts}.
Implicit Types (b s : LuaParser).

Abbreviation inv := (@lua_inv txt toks parts cfg).
Abbreviation Ok_ := (OkState inv).
Abbreviation At_ := (At inv lua_pos).
Abbreviation Expr_ := (Expr inv lua_pos).

Lemma lua_At_start g s : Ok_ s -> At_ s g [] Any 0 s.
Proof. apply Rules.At_start. Qed.

(** ** Primitive statements *)

Lemma wp_cur (Q : LuaTokenKind -> LuaParser -> Prop) s : Q (current_token s) s -> wp cur Q s.
Proof. exact id. Qed.

Lemma current_token_range_total s : exists r, current_token_range s = Some r.
Proof.
  unfold current_token_range. destruct (Nat.leb_spec (length (tokens s)) (token_index s)).
  - case_bool_decide as Hn; [by eexists|].
    destruct (lookup_lt_is_Some_2 (tokens s) (length (tokens s) - 1)) as [t ->]; [|by eexists].
    destruct (tokens s); [done|simpl; lia].
  - destruct (lookup_lt_is_Some_2 (tokens s) (token_index s)) as [t ->]; [lia|by eexists].
Qed.

Lemma wp_range_here (Q : SourceRange -> LuaParser -> Prop) s : (forall r, Q r s) -> wp range_here Q s.
Proof.
  intros HQ. unfold range_here. apply wp_bind, wp_gets.
  destruct (current_token_range_total s) as [r ->]. by apply wp_ret.
Qed.

Lemma wp_error_at msg r b g ms q j s (Q : unit -> LuaParser -> Prop) :
  At_ b g ms q j s -> (forall s', rest s' = rest s -> At_ b g ms Dirty j s' -> Q tt s') ->
  wp (error_at msg r) Q s.
Proof. intros HA HQ. apply wp_modify, HQ; [done|]. by eapply At_error. Qed.

Lemma wp_error_here msg b g ms q j s (Q : unit -> LuaParser -> Prop) :
  At_ b g ms q j s -> (forall s', rest s' = rest s -> At_ b g ms Dirty j s' -> Q tt s') ->
  wp (error_here msg) Q s.
Proof.
  intros HA HQ. unfold error_here. apply wp_bind, wp_gets.
  destruct (current_token_range_total s) as [r ->].
  apply wp_bind. eapply wp_unwrap; [done|]. by eapply wp_error_at.
Qed.

Lemma wp_bump' b g ms q j s (Q : unit -> LuaParser -> Prop) :
  At_ b g ms q j s -> (current_token s =t TkEof) = false ->
  (forall s', token_index s' = skip_trivia s (token_index s + 1) ->
     At_ b g ms (join q Solid) (j + 1) s' -> Q tt s') ->
  wp bump Q s.
Proof. intros HA Hc HQ. eapply wp_bump; [done|done|eapply current_eof; [by eapply At_ok|done]|done]. Qed.

Lemma peek_next s b g ms q j s' :
  At_ b g ms q j s -> token_index s' = skip_trivia s (token_index s + 1) ->
  Ok_ s' -> (peek_next_token s =t TkNone) = false -> current_token s' = peek_next_token s.
Proof.
  intros [[[Htx Htk _ _ _ _ _] _] _ _ _ _ _ _ _] Hix [[Htx' Htk' _ _ Hcur _ _] _].
  unfold peek_next_token. simpl in *. rewrite Hcur, Hix, Htk. unfold kind_at.
  by destruct (toks !! _).
Qed.

Lemma current_text_total s : Ok_ s -> (current_token s =t TkEof) = false ->
  exists t, current_token_text s = Some t.
Proof.
  intros Hok Hc. pose proof (current_eof s Hok Hc) as Hlt.
  destruct Hok as [[Htx Htk _ _ _ _ _] _]. simpl in Htx, Htk.
  destruct (lookup_lt_is_Some_2 toks (token_index s)) as [t Ht]; [done|].
  unfold current_token_text. rewrite Htk, Ht, Htx. simpl.
  destruct (token_offsets L _ _ Ht) as (Hs & He & _).
  destruct (slice_covers L (token_index s) 1) as (pre & ps & post & Htxt & Hpre & _ & Hend & _).
  rewrite Nat.add_1_r in Hend. exists (concat ps).
  rewrite Hs, He, <-Hpre, Hend, <-Hpre, Htxt. apply str_slice_app.
Qed.

(** ** Statements that keep the assertion *)

Abbreviation Keeps := (Rules.Keeps inv lua_pos).

Lemma keeps_range {B} (k : SourceRange -> M LuaParser B) s n :
  (forall r, Keeps n (k r) s) -> Keeps n (bind range_here k) s.
Proof. intros Hk b g ms q j HA. apply wp_bind, wp_range_here. intros r. by apply Hk. Qed.

Lemma keeps_error_at msg r s : Keeps 0 (error_at msg r) s.
Proof.
  intros b g ms q j HA. eapply wp_error_at; [exact HA|]. intros s' _ HA'.
  eapply At_weaken; [exact HA'|by destruct q; simpl; lia|lia].
Qed.

Lemma keeps_error_here msg s : Keeps 0 (error_here msg) s.
Proof.
  intros b g ms q j HA. eapply wp_error_here; [exact HA|]. intros s' _ HA'.
  eapply At_weaken; [exact HA'|by destruct q; simpl; lia|lia].
Qed.

Lemma keeps_bump s : (current_token s =t TkEof) = false -> Keeps 1 bump s.
Proof.
  intros Hc b g ms q j HA. eapply wp_bump'; [exact HA|done|]. intros s' _ HA'.
  eapply At_weaken; [exact HA'|apply rank_join_l|lia].
Qed.

Lemma keeps_bump0 s : (current_token s =t TkEof) = false -> Keeps 0 bump s.
Proof. intros Hc. eapply keeps_weaken; [by apply keeps_bump|lia]. Qed.

(** ** Loops over the tokens *)

Lemma lua_pos_le s : Ok_ s -> at_pos lua_pos s <= length toks.
Proof. by intros [[_ _ _ Hi _ _ _] _]. Qed.

Lemma lua_fuel s : Ok_ s -> length toks < loop_fuel s.
Proof.
  intros [[_ Htk _ _ _ _ _] _]. simpl in Htk. unfold loop_fuel. rewrite Htk. lia.
Qed.

(** Each further round moves on. *)
Lemma wp_token_loop {A B} (body : A -> M LuaParser (A + B)) (I : A -> LuaParser -> Prop) a s
    (Q : B -> LuaParser -> Prop) :
  (forall a s, I a s -> Ok_ s) ->
  (forall a s, I a s -> wp (body a) (fun r s' =>
     match r with
     | inl a' => I a' s' /\ token_index s < token_index s'
     | inr r => Q r s'
     end) s) ->
  I a s -> wp (loop_from loop_fuel body a) Q s.
Proof.
  intros Hok Hbody HI. eapply (wp_pos_loop (pos := lua_pos) body I loop_fuel (length toks)); [|exact Hbody|done|].
  - intros a' s' HI'. by eapply lua_pos_le, Hok.
  - pose proof (lua_fuel s (Hok _ _ HI)). lia.
Qed.

Lemma lua_keeps_loop {A B} (body : A -> M LuaParser (A + B)) a s :
  (forall a s, Ok_ s -> wp (body a) (fun r s' =>
     At_ s false [] Any (match r with inl _ => 1 | inr _ => 0 end) s') s) ->
  Keeps 0 (loop_from loop_fuel body a) s.
Proof. apply (Rules.keeps_loop loop_fuel (fun _ => length toks)); [apply lua_pos_le|done|apply lua_fuel]. Qed.

Lemma lua_wp_at_loop {A B} (body : A -> M LuaParser (A + B)) b g ms q j a s
    (Q : B -> LuaParser -> Prop) :
  (forall a s1 k, j <= k -> At_ b g ms q k s1 -> wp (body a) (fun r s' =>
     match r with
     | inl _ => At_ b g ms q (k + 1) s'
     | inr r => Q r s'
     end) s1) ->
  At_ b g ms q j s -> wp (loop_from loop_fuel body a) Q s.
Proof.
  apply (Rules.wp_at_loop loop_fuel (fun _ => length toks)); [apply lua_pos_le|done|apply lua_fuel].
Qed.

Lemma lua_wp_expr_loop {B} (body : CompleteMarker -> M LuaParser (CompleteMarker + B)) b j cm s
    (Q : B -> LuaParser -> Prop) :
  (forall cm s1 k, j <= k -> Expr_ b k cm s1 -> wp (body cm) (fun r s' =>
     match r with
     | inl cm' => Expr_ b (k + 1) cm' s'
     | inr r => Q r s'
     end) s1) ->
  Expr_ b j cm s -> wp (loop_from loop_fuel body cm) Q s.
Proof.
  apply (Rules.wp_expr_loop loop_fuel (fun _ => length toks) lua_pos_le) with (cm_of := fun cm => cm);
    [done|apply lua_fuel].
Qed.

Lemma keeps_bump_while f s : f TkEof = false -> Keeps 0 (bump_while f) s.
Proof.
  intros Hf. unfold bump_while, while_. apply lua_keeps_loop. intros [] s' Hok.
  apply wp_bind, wp_gets. destruct (f (current_token s')) eqn:Hc.
  - eapply wp_seq; [eapply keeps_bump, lua_At_start, Hok; by eapply not_eof_true|].
    intros [] s'' HA. by apply wp_ret.
  - apply wp_ret. by apply lua_At_start.
Qed.

(** ** The helpers of grammar/lua/mod.rs *)

Lemma keeps_cur {B} (k : LuaTokenKind -> M LuaParser B) s n :
  Keeps n (k (current_token s)) s -> Keeps n (bind cur k) s.
Proof. apply keeps_gets. Qed.

Lemma not_eof_kind (token : LuaTokenKind) c :
  (c =t token) = true -> (token =t TkEof) = false -> (c =t TkEof) = false.
Proof. intros Hc. by apply token_eqb_eq in Hc as ->. Qed.

Lemma wp_if_token_bump token b g ms q j s (Q : bool -> LuaParser -> Prop) :
  At_ b g ms q j s -> (token =t TkEof) = false ->
  (forall r s', At_ b g ms q (j + bit (current_token s =t token)) s' -> Q r s') ->
  wp (if_token_bump token) Q s.
Proof.
  intros HA Ht HQ. unfold if_token_bump. apply wp_bind, wp_cur.
  destruct (current_token s =t token) eqn:Hc; simpl in HQ.
  - eapply wp_seq; [eapply keeps_bump; [by eapply not_eof_kind|exact HA]|].
    intros [] s' HA'. by apply wp_ret, HQ.
  - apply wp_ret, HQ. by rewrite Nat.add_0_r.
Qed.

Lemma keeps_if_token_bump token s : (token =t TkEof) = false -> Keeps 0 (if_token_bump token) s.
Proof.
  intros Ht b g ms q j HA. eapply wp_if_token_bump; [exact HA|done|]. intros r s' HA'.
  eapply At_weaken; [exact HA'|lia|lia].
Qed.

Lemma wp_expect_token token b g ms q j s (Q : Result unit ParseFailReason -> LuaParser -> Prop) :
  At_ b g ms q j s -> (token =t TkEof) = false ->
  (forall s', At_ b g ms (join q Solid) (j + 1) s' -> Q (Ok tt) s') ->
  (forall e, Q (Err e) s) -> wp (expect_token token) Q s.
Proof.
  intros HA Ht HQ HE. unfold expect_token. apply wp_bind, wp_cur.
  destruct (current_token s =t token) eqn:Hc.
  - apply wp_bind. eapply wp_bump'; [exact HA|by eapply not_eof_kind|]. intros s' _ HA'.
    apply wp_ret. by apply HQ.
  - destruct (current_token s =t TkEof); apply wp_ret, HE.
Qed.

(** A token or a reported error: the open node is fine either way. *)
Lemma wp_expect_or_error token msg b g ms q j s (Q : unit -> LuaParser -> Prop) :
  At_ b g ms q j s -> (token =t TkEof) = false ->
  (forall s', At_ b g ms (join q Solid) j s' -> Q tt s') ->
  wp (expect_or_error token msg) Q s.
Proof.
  intros HA Ht HQ. unfold expect_or_error. apply wp_bind.
  eapply wp_expect_token; [exact HA|done|..]; simpl.
  - intros s' HA'. apply wp_ret, HQ. eapply At_weaken; [exact HA'|lia|lia].
  - intros _. eapply wp_error_here; [exact HA|]. intros s' _ HA'. apply HQ.
    eapply At_weaken; [exact HA'|by destruct q; simpl; lia|lia].
Qed.

Lemma keeps_expect_or_error token msg s :
  (token =t TkEof) = false -> Keeps 0 (expect_or_error token msg) s.
Proof.
  intros Ht b g ms q j HA. eapply wp_expect_or_error; [exact HA|done|]. intros s' HA'.
  eapply At_weaken; [exact HA'|apply rank_join_l|lia].
Qed.

Lemma wp_bump_or_error token (m : M LuaParser unit) b g ms q j s (Q : unit -> LuaParser -> Prop) :
  At_ b g ms q j s -> (token =t TkEof) = false ->
  wp m (fun _ s' => At_ b g ms Dirty j s') s ->
  (forall s', At_ b g ms (join q Solid) j s' -> Q tt s') ->
  wp (if current_token s =t token then bump else m) Q s.
Proof.
  intros HA Ht Hm HQ. destruct (current_token s =t token) eqn:Hc.
  - eapply wp_bump'; [exact HA|by eapply not_eof_kind|]. intros s' _ HA'. apply HQ.
    eapply At_weaken; [exact HA'|lia|lia].
  - eapply wp_mono; [exact Hm|]. intros [] s' HA'. apply HQ.
    eapply At_weaken; [exact HA'|by destruct q; simpl; lia|lia].
Qed.

(** ** What the functions of the grammar promise *)

(** An expression: one complete node, or an error. *)
Definition expr_post s (r : ParseResult) s' : Prop :=
  match r with
  | Ok cm => Expr_ s 1 cm s'
  | Err _ => At_ s false [] Dirty 0 s'
  end.

(** A statement or a part of one. *)
Definition part_post {A E} (g : bool) (q : Status) (n : nat) s (r : Result A E) s' : Prop :=
  match r with
  | Ok _ => At_ s g [] q n s'
  | Err _ => At_ s g [] Dirty 0 s'
  end.

Definition ExprSpec (f : M LuaParser ParseResult) : Prop :=
  forall s, Ok_ s -> wp f (expr_post s) s.

Definition BlockSpec (f : M LuaParser ParseResult) : Prop :=
  forall s, Ok_ s -> wp f (part_post true Any 0 s) s.

Lemma expr_part r s s' : expr_post s r s' -> part_post false Solid 1 s r s'.
Proof. destruct r; [apply Expr_At|done]. Qed.

Lemma wp_use {A E} (f : M LuaParser (Result A E)) g' q' n b g ms q j s
    (Q : Result A E -> LuaParser -> Prop) :
  wp f (part_post g' q' n s) s -> At_ b g ms q j s ->
  (g' = true -> rank Solid <= rank q) ->
  (forall a s', At_ b g ms (join q q') (j + n) s' -> Q (Ok a) s') ->
  (forall e s', At_ b g ms Dirty j s' -> Q (Err e) s') ->
  wp f Q s.
Proof.
  intros Hf HA Hg HO HE. eapply wp_mono; [exact Hf|]. intros [a|e] s' HA'.
  - apply HO. by eapply At_frame.
  - apply HE. pose proof (At_frame _ _ _ _ _ _ _ _ _ _ _ _ HA HA' Hg) as HF.
    rewrite join_Dirty, Nat.add_0_r in HF. exact HF.
Qed.

Lemma wp_use_expr f b g ms q j s (Q : ParseResult -> LuaParser -> Prop) :
  ExprSpec f -> At_ b g ms q j s ->
  (forall a s', At_ b g ms (join q Solid) (j + 1) s' -> Q (Ok a) s') ->
  (forall e s', At_ b g ms Dirty j s' -> Q (Err e) s') ->
  wp f Q s.
Proof.
  intros Hf HA HO HE. eapply (wp_use _ false Solid 1); [|exact HA|done|done|done].
  eapply wp_mono; [eapply Hf, At_ok, HA|]. intros r s'. apply expr_part.
Qed.

Lemma wp_use_block f b g ms q j s (Q : ParseResult -> LuaParser -> Prop) :
  BlockSpec f -> At_ b g ms q j s -> rank Solid <= rank q ->
  (forall a s', At_ b g ms q j s' -> Q (Ok a) s') ->
  (forall e s', At_ b g ms Dirty j s' -> Q (Err e) s') ->
  wp f Q s.
Proof.
  intros Hf HA Hq HO HE. eapply (wp_use _ true Any 0); [eapply Hf, At_ok, HA|exact HA|done| |done].
  intros a s'. rewrite join_Any, Nat.add_0_r. apply HO.
Qed.

Lemma wp_opt_block (c : bool) f b g ms q j s (Q : ParseResult -> LuaParser -> Prop) :
  BlockSpec f -> At_ b g ms q j s -> rank Solid <= rank q ->
  (forall a s', At_ b g ms q j s' -> Q (Ok a) s') ->
  (forall e s', At_ b g ms Dirty j s' -> Q (Err e) s') ->
  wp (if c then f else ret (Ok CompleteMarker_empty)) Q s.
Proof.
  intros Hf HA Hq HO HE. destruct c; [by eapply wp_use_block|]. by apply wp_ret, HO.
Qed.

Lemma keeps_part {A E} (f : M LuaParser (Result A E)) q n s :
  (Ok_ s -> wp f (part_post false q n s) s) -> Keeps 0 f s.
Proof.
  intros Hf. apply keeps_local. intros Hok. eapply wp_mono; [by apply Hf|].
  intros [a|e] s' HA; (eapply At_weaken; [exact HA|simpl; lia|lia]).
Qed.

Lemma keeps_expr f s : ExprSpec f -> Keeps 0 f s.
Proof.
  intros Hf. eapply keeps_part. intros Hok. eapply wp_mono; [by apply Hf|].
  intros r s'. apply expr_part.
Qed.
End Rules.

(** ** Tactics *)

(** [keeps]: a statement keeps the assertion because its parts do. *)
Create HintDb keeps.

Ltac keeps_step :=
  match goal with
  | |- Keeps _ _ _ (bind cur _) _ => apply keeps_cur
  | |- Keeps _ _ _ (bind (gets _) _) _ => apply keeps_gets
  | |- Keeps _ _ _ (bind range_here _) _ => apply keeps_range; intros ?
  | |- Keeps _ _ _ (if _ then _ else _) _ => apply keeps_if; intros ?
  | |- Keeps _ _ _ (when _ _) _ => apply keeps_when; intros ?
  | |- Keeps _ _ _ (ret _) _ => apply keeps_ret
  | |- Keeps _ _ _ (fail _) _ => apply keeps_ret
  | |- Keeps _ _ _ bump _ => eapply keeps_bump0; not_eof
  | |- Keeps _ _ _ (error_at _ _) _ => apply keeps_error_at
  | |- Keeps _ _ _ (error_here _) _ => apply keeps_error_here
  | |- Keeps _ _ _ (bump_while _) _ => eapply keeps_bump_while; reflexivity
  | |- Keeps _ _ _ (if_token_bump _) _ => eapply keeps_if_token_bump; reflexivity
  | |- Keeps _ _ _ (expect_or_error _ _) _ => eapply keeps_expect_or_error; reflexivity
  | |- Keeps _ _ _ (match ?r with Ok _ => _ | Err _ => _ end) _ => destruct r
  | |- Keeps _ _ _ (bind _ _) _ => eapply keeps_bind0; [|intros ? ?]
  | |- Keeps _ _ _ _ _ => solve [eauto with keeps]
  end.
Ltac keeps := repeat keeps_step.

(** The steps of the main line of a function, on the assertion [HA]. *)

(** [mark] at the start of a function. *)
Ltac mark_first Hr HA :=
  apply wp_bind; eapply (wp_mark_first _ false); [eassumption|reflexivity|discriminate|];
  intros ?m ?s Hr _ _ _ HA;
  match type of HA with context [node_class ?K] =>
    let c := eval vm_compute in (node_class K) in change (node_class K) with c in HA
  end.

(** A [bump] on a token. *)
Ltac bumps HA :=
  apply wp_bind; eapply wp_bump'; [exact HA|not_eof|];
  clear HA; intros ?s _ HA; cbn [join rank Nat.leb] in HA.

(** A statement that keeps the assertion. *)
Ltac kept HA :=
  eapply wp_keep; [exact HA|solve [keeps]|]; clear HA; intros ? ?s HA.

(** The same, at the end of a function. *)
Ltac kept_last HA :=
  eapply wp_keep_last; [exact HA|solve [keeps]|simpl; lia|simpl; lia].

(** An error. *)
Ltac error HA :=
  apply wp_bind; first [eapply wp_error_here|eapply wp_error_at]; [exact HA|];
  clear HA; intros ?s _ HA.

(** [complete] of a node whose result is not used as an expression. *)
Ltac completes HA :=
  apply wp_bind; eapply wp_complete; [exact HA|simpl; lia|];
  clear HA; intros ?cm ?s _ _ HA; cbn [closed] in HA.

(** A result that is weaker than the assertion. *)
Ltac weaken HA := solve [eapply At_weaken; [exact HA|simpl; lia|simpl; lia]].

(** An error return. *)
Ltac abandon HA := solve [eapply At_abandon; [exact HA|simpl; lia]].

(** [Ok(m.complete(p))] of an expression. *)
Ltac expr_done HA :=
  apply wp_bind; eapply wp_complete_expr; [exact HA|simpl; lia|];
  clear HA; intros ?cm ?s _ _ _ HA; apply wp_ret.
