(* ===== verification/LuaExprProofs.v ===== *)
(** * Expressions

    What the functions of [grammar/lua/expr.rs] promise, for any functions [sub_expr]
    and [block] that keep the same promise. *)

From S2P Require Import Prelude Kinds Text LuaLexer Marker Discipline Rules LuaParser LuaParserProofs.
From S2P Require Import LuaGrammar LuaGrammarRules.
Import LuaParser.
Local Open Scope prog_scope.

Section Expressions.
Context `{DocCommentsLaws}.
Context {txt : rstring} {toks : list LuaTokenData} {parts : list rstring} {cfg : ParserConfig}.
Context {L : lexed txt toks parts}.
Implicit Types (b s : LuaParser).

Abbreviation inv := (@lua_inv txt toks parts cfg).
Abbreviation Ok_ := (OkState inv).
Abbreviation At_ := (At inv lua_pos).
Abbreviation Expr_ := (Expr inv lua_pos).

Abbreviation ExprSpec_ := (@ExprSpec txt toks parts cfg).
Abbreviation BlockSpec_ := (@BlockSpec txt toks parts cfg).
Abbreviation part_post_ := (@part_post txt toks parts cfg).
Abbreviation expr_post_ := (@expr_post txt toks parts cfg).
Abbreviation Keeps_ := (Keeps inv lua_pos).

Variable sub_expr : Z -> M LuaParser ParseResult.
Variable block : M LuaParser ParseResult.
Hypothesis Hsub : forall limit, ExprSpec_ (sub_expr limit).
Hypothesis Hblock : BlockSpec_ block.

Lemma parse_expr_spec : ExprSpec_ (parse_expr sub_expr).
Proof. apply Hsub. Qed.

(** *** Parameters *)

Lemma parse_param_name_spec v s :
  Ok_ s -> wp (parse_param_name v) (fun r s' =>
    part_post_ false Solid 1 s r.1 s') s.
Proof.
  intros Hok. unfold parse_param_name. mark_first Hr HA. apply wp_bind, wp_cur.
  destruct (current_token s0 =t TkName) eqn:H1; [|destruct (current_token s0 =t TkDots) eqn:H2].
  - bumps HA. completes HA. by apply wp_ret.
  - bumps HA. apply wp_bind, wp_gets. kept HA. completes HA. by apply wp_ret.
  - error HA. completes HA. by apply wp_ret.
Qed.

#[local] Hint Resolve keeps_expr parse_expr_spec : keeps.

Lemma param_step_spec v s :
  Ok_ s -> wp (param_step v) (fun r s' =>
    At_ s false [] Any (match r with inl _ => 1 | inr _ => 0 end) s') s.
Proof.
  intros Hok. destruct v as [v reported]. unfold param_step. apply wp_bind.
  eapply wp_mono; [by apply parse_param_name_spec|]. intros r s1 HA. cbv zeta.
  assert (At_ s false [] Any 0 s1) as HA1 by (destruct r as [[a|e] v']; weaken HA).
  clear HA. kept HA1. apply wp_bind, wp_cur.
  destruct (current_token s0 =t TkComma) eqn:H1; [|apply wp_ret; weaken HA1].
  bumps HA1. apply wp_bind, wp_cur.
  destruct (current_token s2 =t TkRightParen).
  - error HA1. apply wp_ret. weaken HA1.
  - case_if; [|apply wp_ret; weaken HA1]. error HA1. apply wp_ret. weaken HA1.
Qed.

Lemma keeps_param_list v s : Keeps_ 0 (loop_from loop_fuel param_step v) s.
Proof. apply lua_keeps_loop. intros. by apply param_step_spec. Qed.
#[local] Hint Resolve keeps_param_list : keeps.

Lemma parse_param_list_spec s :
  Ok_ s -> wp parse_param_list (part_post_ false Solid 0 s) s.
Proof.
  intros Hok. unfold parse_param_list. mark_first Hr HA. apply wp_bind, wp_cur.
  apply wp_bind. eapply wp_bump_or_error; [exact HA|done| |].
  { eapply wp_error_here; [exact HA|]. intros s' _ HA'. exact HA'. }
  clear HA. intros s1 HA. apply wp_bind, wp_cur. kept HA. apply wp_bind, wp_cur. kept HA.
  completes HA. by apply wp_ret.
Qed.

(** *** Closures *)

Lemma parse_closure_spec s :
  Ok_ s -> wp (parse_closure_expr block) (fun r s' =>
    match r with
    | Ok cm => Expr_ s (bit (current_token s =t TkFunction)) cm s'
    | Err _ => At_ s false [] Dirty 0 s'
    end) s.
Proof.
  intros Hok. unfold parse_closure_expr. mark_first Hr HA. apply wp_bind, wp_range_here.
  intros range. apply wp_bind. eapply wp_if_token_bump; [exact HA|done|]. clear HA.
  intros _ s1 HA. rewrite (current_rest _ _ Hr) in HA.
  apply wp_bind_result. eapply wp_use; [eapply parse_param_list_spec, At_ok, HA|exact HA|done| |].
  2: { intros e s2 HE. abandon HE. }
  clear HA. intros _ s2 HA. cbn [join rank Nat.leb] in HA. apply wp_bind, wp_cur.
  apply wp_bind_result. eapply wp_opt_block; [exact Hblock|exact HA|simpl; lia| |].
  2: { intros e s3 HE. abandon HE. }
  clear HA. intros _ s3 HA. apply wp_bind, wp_cur. apply wp_bind.
  eapply wp_bump_or_error; [exact HA|done| |].
  { eapply wp_error_at; [exact HA|]. intros s' _ HA'. exact HA'. }
  clear HA. intros s4 HA. expr_done HA. by rewrite Nat.add_0_r in HA.
Qed.

(** *** Tables *)

Lemma keeps_boundary s : Keeps_ 0 recover_to_table_boundary s.
Proof. unfold recover_to_table_boundary. keeps. Qed.
#[local] Hint Resolve keeps_boundary : keeps.

Lemma parse_field_spec s :
  Ok_ s -> wp (parse_field_with_recovery sub_expr) (part_post_ false Any 0 s) s.
Proof.
  intros Hok. unfold parse_field_with_recovery. mark_first Hr HA. apply wp_bind, wp_cur.
  apply (wp_seq (fun _ s' => At_ s false [(position m, COther)] Solid 0 s')).
  2: { clear HA. intros _ s1 HA. completes HA. apply wp_ret. weaken HA. }
  destruct (current_token s0 =t TkLeftBracket) eqn:H1.
  { apply wp_bind. eapply wp_set_kind; [exact HA|left|done|done|]. clear HA.
    intros s1 Hr1 _ HA. bumps HA. kept HA. kept HA. apply wp_bind, wp_cur. kept HA.
    apply wp_bind, wp_cur. kept HA. kept HA. kept_last HA. }
  assert (Hexpr : forall msg s', At_ s false [(position m, COther)] Any 0 s' ->
    wp (r <- parse_expr sub_expr ;; when (is_err r) (error_here msg))
      (fun _ s'' => At_ s false [(position m, COther)] Solid 0 s'') s').
  { clear HA. intros msg s' HA. apply wp_bind.
    eapply wp_use_expr; [apply parse_expr_spec|exact HA|..]; clear HA.
    - intros a s1 HA. apply wp_ret. weaken HA.
    - intros e s1 HA. eapply wp_error_here; [exact HA|]. intros s2 _ HA2. weaken HA2. }
  destruct (current_token s0 =t TkName) eqn:H2; [|destruct (current_token s0 in_t [TkEof; TkLocal])].
  - apply wp_bind, wp_gets. case_if; [|by apply Hexpr].
    apply wp_bind. eapply wp_set_kind; [exact HA|left|done|done|]. clear HA.
    intros s1 Hr1 _ HA. apply wp_bind. pose proof HA as HA0.
    eapply wp_bump'; [exact HA|not_eof|]. clear HA. intros s2 Hix HA. cbn [join rank Nat.leb] in HA.
    assert (peek_next_token s1 = peek_next_token s0) as Hp.
    { unfold peek_next_token, skip_trivia. by injection Hr1 as _ -> -> _ _. }
    assert (Hn2 : (current_token s2 =t TkEof) = false).
    { rewrite (peek_next _ _ _ _ _ _ _ HA0 Hix (At_ok _ _ _ _ _ _ HA)); rewrite Hp.
      - apply token_eqb_eq in Heqb as ->. done.
      - apply token_eqb_eq in Heqb as ->. done. }
    bumps HA. kept HA. kept_last HA.
  - eapply wp_error_here; [exact HA|]. intros s1 _ HA1. weaken HA1.
  - by apply Hexpr.
Qed.

Lemma keeps_field s : Keeps_ 0 (parse_field_with_recovery sub_expr) s.
Proof. eapply keeps_part, parse_field_spec. Qed.
#[local] Hint Resolve keeps_field : keeps.

Lemma field_step_spec m b q k u s :
  At_ b false [(position m, COther)] q k s ->
  wp (field_step sub_expr m u) (fun r s' =>
    At_ b false [(position m, COther)] q (match r with inl _ => k + 1 | inr _ => k end) s') s.
Proof.
  intros HA. unfold field_step. apply wp_bind, wp_cur.
  destruct (current_token s in_t [TkComma; TkSemicolon]) eqn:H1; simpl negb; cbv iota;
    [|by apply wp_ret].
  cbv zeta. apply wp_bind. eapply wp_bump'; [exact HA|not_eof|]. clear HA. intros s1 _ HA.
  apply (At_weaken _ _ _ _ _ _ q _ (k + 1)) in HA; [|by destruct q; simpl; lia|lia].
  apply wp_bind, wp_cur. case_if; [apply wp_ret; weaken HA|].
  kept HA. destruct a as [cm|e].
  - apply (wp_seq (fun _ s' => At_ b false [(position m, COther)] q (k + 1) s')).
    + unfold when. case_if; [|by apply wp_ret].
      eapply wp_set_kind; [exact HA|left|done|done|]. by intros s' _ _ HA'.
    + intros _ s' HA'. by apply wp_ret.
  - kept HA. kept HA. apply wp_bind, wp_cur. case_if; apply wp_ret; [weaken HA|done].
Qed.

Lemma brace_step_spec n s :
  Ok_ s -> wp (brace_step n) (fun r s' =>
    At_ s false [] Any (match r with inl _ => 1 | inr _ => 0 end) s') s.
Proof.
  intros Hok. pose proof (lua_At_start false s Hok) as HA. unfold brace_step. apply wp_bind, wp_cur.
  destruct (current_token s =t TkEof) eqn:H1; [by apply wp_ret|]. cbv zeta.
  repeat case_if; try (by apply wp_ret); bumps HA; apply wp_ret; weaken HA.
Qed.

Lemma keeps_brace n s : Keeps_ 0 (loop_from loop_fuel brace_step n) s.
Proof. apply lua_keeps_loop. intros. by apply brace_step_spec. Qed.
#[local] Hint Resolve keeps_brace : keeps.

Lemma parse_table_spec s :
  Ok_ s -> (current_token s =t TkEof) = false ->
  wp (parse_table_expr sub_expr) (expr_post_ s) s.
Proof.
  intros Hok Hc. unfold parse_table_expr. mark_first Hr HA. bumps HA. apply wp_bind, wp_cur.
  destruct (current_token s1 =t TkRightBrace) eqn:H1.
  { bumps HA. expr_done HA. eapply Expr_weaken; [exact HA|lia]. }
  kept HA. apply (wp_seq (fun _ s' => At_ s false [(position m, COther)] Solid 1 s')).
  { destruct a as [cm|e]; [|kept_last HA]. repeat case_if; try (by apply wp_ret);
      (eapply wp_set_kind; [exact HA|left|done|done|]); by intros s' _ _ HA'. }
  clear HA. intros _ s3 HA.
  apply (wp_seq (fun _ s' => At_ s false [(position m, COther)] Solid 1 s')).
  { eapply (lua_wp_at_loop _ _ _ _ Solid 1); [|exact HA]. intros u s4 k Hk HA4.
    eapply wp_mono; [by apply field_step_spec|]. intros [r|r] s5 HA5; [done|weaken HA5]. }
  clear HA. intros _ s4 HA. apply wp_bind, wp_cur. kept HA. expr_done HA. exact HA.
Qed.

(** *** Arguments and suffixes *)

Lemma arg_step_spec u s :
  Ok_ s -> wp (arg_step sub_expr u) (fun r s' =>
    At_ s false [] Any (match r with inl _ => 1 | inr _ => 0 end) s') s.
Proof.
  intros Hok. pose proof (lua_At_start false s Hok) as HA. unfold arg_step. apply wp_bind.
  eapply wp_use_expr; [apply parse_expr_spec|exact HA|..]; clear HA.
  - intros cm s1 HA. apply wp_bind, wp_cur.
    destruct (current_token s1 =t TkComma) eqn:H1; [|apply wp_ret; weaken HA].
    bumps HA. apply wp_bind, wp_cur. case_if; [|apply wp_ret; weaken HA].
    error HA. apply wp_ret. weaken HA.
  - intros e s1 HA. error HA. kept HA. apply wp_bind, wp_cur.
    destruct (current_token s2 =t TkComma) eqn:H1; [|apply wp_ret; weaken HA].
    bumps HA. apply wp_ret. weaken HA.
Qed.

Lemma keeps_args u s : Keeps_ 0 (loop_from loop_fuel (arg_step sub_expr) u) s.
Proof. apply lua_keeps_loop. intros. by apply arg_step_spec. Qed.
#[local] Hint Resolve keeps_args : keeps.

Lemma parse_args_spec s : Ok_ s -> wp (parse_args sub_expr) (part_post_ false Solid 1 s) s.
Proof.
  intros Hok. unfold parse_args. mark_first Hr HA. apply wp_bind, wp_cur.
  destruct (current_token s0 =t TkLeftParen) eqn:H1.
  { bumps HA. apply wp_bind, wp_cur. kept HA. apply wp_bind, wp_cur. kept HA.
    completes HA. by apply wp_ret. }
  destruct (current_token s0 =t TkLeftBrace) eqn:H2.
  { apply wp_bind. eapply (wp_use _ false Solid 1); [|exact HA|done|..].
    - eapply wp_mono; [apply parse_table_spec; [eapply At_ok, HA|not_eof]|].
      intros r s'. apply expr_part.
    - clear HA. intros cm s1 HA. completes HA. by apply wp_ret.
    - clear HA. intros e s1 HA. error HA. completes HA. apply wp_ret. weaken HA. }
  case_if.
  - apply wp_bind. eapply wp_mark_more; [exact HA|done|done|]. clear HA.
    intros m1 s1 Hr1 _ HA. change (node_class LiteralExpr) with COther in HA.
    bumps HA. completes HA. completes HA. by apply wp_ret.
  - error HA. completes HA. apply wp_ret. weaken HA.
Qed.

Lemma parse_name_spec s :
  Ok_ s -> (current_token s =t TkEof) = false ->
  wp (parse_name_or_special_function sub_expr) (expr_post_ s) s.
Proof.
  intros Hok Hc. unfold parse_name_or_special_function. mark_first Hr HA.
  apply wp_bind, wp_gets.
  destruct (current_text_total s0 (At_ok _ _ _ _ _ _ HA)) as [t Ht]; [not_eof|].
  apply wp_bind. eapply wp_unwrap; [exact Ht|]. apply wp_bind, wp_gets.
  set (k := special_call_kind _). assert (Hk : node_class k = COther).
  { unfold k, special_call_kind. by destruct (ParserConfig.get_special_function _ _). }
  bumps HA. apply wp_bind. eapply wp_complete_expr; [exact HA|simpl; lia|]. clear HA.
  intros cm s2 _ _ _ HE. destruct (k =k SkNone) eqn:Hkn; [by apply wp_ret|].
  apply wp_bind, wp_cur. case_if; [|by apply wp_ret].
  apply wp_bind. eapply wp_precede; [exact HE|done|done|]. clear HE. intros m1 s3 _ _ HA.
  apply wp_bind. eapply wp_use; [eapply parse_args_spec, At_ok, HA|exact HA|done|..]; clear HA.
  - intros a s4 HA. expr_done HA. eapply Expr_weaken; [exact HA|lia].
  - intros e s4 HA. completes HA. apply wp_ret. weaken HA.
Qed.

Lemma parse_index_struct_spec s :
  Ok_ s -> wp (parse_index_struct sub_expr) (part_post_ false Solid 1 s) s.
Proof.
  intros Hok. pose proof (lua_At_start false s Hok) as HA. unfold parse_index_struct.
  apply wp_bind, wp_range_here. intros range. apply wp_bind, wp_cur.
  destruct (current_token s =t TkLeftBracket) eqn:H1;
    [|destruct (current_token s =t TkDot) eqn:H2; [|destruct (current_token s =t TkColon) eqn:H3]].
  - bumps HA. apply wp_bind. eapply wp_use_expr; [apply parse_expr_spec|exact HA|..]; clear HA.
    + intros a s1 HA. apply wp_bind. eapply wp_expect_token; [exact HA|done|..].
      * intros s2 HA2. apply wp_ret. weaken HA2.
      * intros e. error HA. apply wp_ret. weaken HA.
    + intros e s1 HA. error HA. apply wp_ret. weaken HA.
  - bumps HA. apply wp_bind. eapply wp_expect_token; [exact HA|done|..].
    + intros s2 HA2. apply wp_ret. weaken HA2.
    + intros e. error HA. apply wp_ret. weaken HA.
  - bumps HA. apply wp_bind, wp_range_here. intros name_range.
    apply wp_bind. eapply wp_expect_token; [exact HA|done|..].
    + intros s2 HA2. apply wp_bind, wp_cur. case_if; [error HA2|]; apply wp_ret; weaken HA2.
    + intros e. error HA. apply wp_ret. weaken HA.
  - error HA. apply wp_ret. weaken HA.
Qed.

Lemma suffix_step_spec b k cm s :
  1 <= k -> Expr_ b k cm s ->
  wp (suffix_step sub_expr cm) (fun r s' =>
    match r with
    | inl cm' => Expr_ b (k + 1) cm' s'
    | inr r => expr_post_ b r s'
    end) s.
Proof.
  intros Hk HE. unfold suffix_step. apply wp_bind, wp_cur. repeat case_if.
  - apply wp_bind. eapply wp_precede; [exact HE|done|done|]. clear HE. intros m s1 _ _ HA.
    apply wp_bind. eapply wp_use; [eapply parse_index_struct_spec, At_ok, HA|exact HA|done|..];
      clear HA; intros a s2 HA; [expr_done HA; exact HA|]. completes HA. apply wp_ret. weaken HA.
  - apply wp_bind. eapply wp_precede; [exact HE|done|done|]. clear HE. intros m s1 _ _ HA.
    apply wp_bind. eapply wp_use; [eapply parse_args_spec, At_ok, HA|exact HA|done|..];
      clear HA; intros a s2 HA; [expr_done HA; exact HA|]. completes HA. apply wp_ret. weaken HA.
  - apply wp_ret. eapply Expr_weaken; [exact HE|lia].
Qed.

Lemma parse_paren_spec s :
  Ok_ s -> (current_token s =t TkEof) = false ->
  wp (parse_paren_expr sub_expr) (expr_post_ s) s.
Proof.
  intros Hok Hc. unfold parse_paren_expr. mark_first Hr HA. apply wp_bind, wp_range_here.
  intros range. bumps HA. apply wp_bind.
  eapply wp_use_expr; [apply parse_expr_spec|exact HA|..]; clear HA.
  - intros a s2 HA. apply wp_bind, wp_cur. kept HA. expr_done HA.
    eapply Expr_weaken; [exact HA|lia].
  - intros e s2 HA. error HA. completes HA. apply wp_ret. weaken HA.
Qed.

Lemma parse_suffixed_spec s :
  Ok_ s -> wp (parse_suffixed_expr sub_expr) (expr_post_ s) s.
Proof.
  intros Hok. unfold parse_suffixed_expr. apply wp_bind, wp_cur. apply wp_bind_result.
  apply (wp_mono _ (expr_post_ s)).
  - destruct (current_token s =t TkName) eqn:H1; [apply parse_name_spec; [done|not_eof]|].
    destruct (current_token s =t TkLeftParen) eqn:H2; [apply parse_paren_spec; [done|not_eof]|].
    pose proof (lua_At_start false s Hok) as HA. error HA. apply wp_ret. weaken HA.
  - intros [cm|e] s1 HE; [|done]. eapply lua_wp_expr_loop; [|exact HE].
    intros cm1 s2 k Hk HE2. by apply suffix_step_spec.
Qed.

(** *** Operators *)

Lemma parse_simple_spec s : Ok_ s -> wp (parse_simple_expr sub_expr block) (expr_post_ s) s.
Proof.
  intros Hok. unfold parse_simple_expr. apply wp_bind, wp_cur.
  destruct (current_token s in_t [TkInt; TkFloat; TkComplex; TkNil; TkTrue; TkFalse; TkDots;
                                  TkString; TkLongString]) eqn:H1.
  { mark_first Hr HA. bumps HA. expr_done HA. exact HA. }
  destruct (current_token s =t TkLeftBrace) eqn:H2; [apply parse_table_spec; [done|not_eof]|].
  destruct (current_token s =t TkFunction) eqn:H3.
  { eapply wp_mono; [by apply parse_closure_spec|]. intros [cm|e] s' HE; [|done].
    by rewrite H3 in HE. }
  case_if; [by apply parse_suffixed_spec|].
  pose proof (lua_At_start false s Hok) as HA. error HA. apply wp_ret. weaken HA.
Qed.

Lemma binary_step_spec b k limit cm s :
  1 <= k -> Expr_ b k cm s ->
  wp (binary_step sub_expr limit cm) (fun r s' =>
    match r with
    | inl cm' => Expr_ b (k + 1) cm' s'
    | inr r => expr_post_ b r s'
    end) s.
Proof.
  intros Hk HE. unfold binary_step. apply wp_bind, wp_cur. cbv zeta.
  destruct (bool_decide (to_binary_operator (current_token s) = OpNop)) eqn:Hop.
  { apply wp_ret. eapply Expr_weaken; [exact HE|lia]. }
  destruct (get_priority_some (to_binary_operator (current_token s))) as (pr & Hpr & _).
  { by apply bool_decide_eq_false in Hop. }
  apply wp_bind. eapply wp_unwrap; [exact Hpr|]. case_if.
  { apply wp_ret. eapply Expr_weaken; [exact HE|lia]. }
  apply wp_bind, wp_range_here. intros range.
  apply wp_bind. eapply wp_precede; [exact HE|done|done|]. clear HE. intros m s1 Hr1 _ HA.
  bumps HA. apply wp_bind. eapply wp_use_expr; [apply Hsub|exact HA|..]; clear HA.
  - intros a s2 HA. expr_done HA. eapply Expr_weaken; [exact HA|lia].
  - intros e s2 HA. error HA. completes HA. apply wp_ret. weaken HA.
Qed.

Lemma parse_unary_spec s :
  Ok_ s -> (current_token s =t TkEof) = false ->
  wp (parse_unary_expr sub_expr) (expr_post_ s) s.
Proof.
  intros Hok Hc. unfold parse_unary_expr. mark_first Hr HA. apply wp_bind, wp_range_here.
  intros range. apply wp_bind, wp_cur. bumps HA.
  eapply wp_keep; [exact HA|apply keeps_expr, Hsub|]. clear HA. intros r s2 HA. kept HA.
  expr_done HA. exact HA.
Qed.

Lemma parse_sub_expr_spec `{Stack} d limit :
  ExprSpec_ (parse_sub_expr sub_expr block d limit).
Proof.
  intros s Hok. unfold parse_sub_expr. apply wp_bind, wp_gets. case_if.
  { pose proof (lua_At_start false s Hok) as HA. error HA. apply wp_ret. weaken HA. }
  apply wp_bind, wp_cur. apply wp_bind_result. apply (wp_mono _ (expr_post_ s)).
  - destruct (bool_decide (to_unary_operator (current_token s) = UOpNop)) eqn:Hop; simpl.
    + by apply parse_simple_spec.
    + apply parse_unary_spec; [done|not_eof].
  - intros [cm|e] s1 HE; [|done]. eapply lua_wp_expr_loop; [|exact HE].
    intros cm1 s2 k Hk HE2. by apply binary_step_spec.
Qed.
End Expressions.
