(* ===== verification/LuaStatProofs.v ===== *)
(** * Statements

    What the functions of [grammar/lua/stat.rs] promise, and the recovery from a
    statement that failed. *)

From S2P Require Import Prelude Kinds Text LuaLexer Marker Discipline Rules LuaParser LuaParserProofs.
From S2P Require Import LuaGrammar LuaGrammarRules LuaExprProofs.
Import LuaParser.
Local Open Scope prog_scope.

Section Statements.
Context `{DocCommentsLaws}.
Context {txt : rstring} {toks : list LuaTokenData} {parts : list rstring} {cfg : ParserConfig}.
Context {L : lexed txt toks parts}.
Implicit Types (b s : LuaParser).

Abbreviation inv := (@lua_inv txt toks parts cfg).
Abbreviation Ok_ := (OkState inv).
Abbreviation At_ := (At inv lua_pos).
Abbreviation Expr_ := (Expr inv lua_pos).
Abbreviation ExprSpec_ := (@ExprSpec txt toks parts cfg).
Abbreviation BlockSpec_ := (@BlockSpec txt toks parts cfg).
Abbreviation part_post_ := (@part_post txt toks parts cfg).
Abbreviation expr_post_ := (@expr_post txt toks parts cfg).
Abbreviation Keeps_ := (Keeps inv lua_pos).

(** ** Error recovery *)

(** The depth counter falls without a step forward, hence the measure. *)
Lemma keeps_recover_to_block_end s : Keeps_ 0 recover_to_block_end s.
Proof.
  apply keeps_local. intros Hok.
  apply (wp_loop_from (fun _ s' => At_ s false [] Any 0 s')
           (fun depth s' => 2 * (length toks - token_index s') + Z.to_nat depth)).
  - intros depth s1 HA. unfold recover_step. apply wp_bind, wp_cur.
    destruct (current_token s1 =t TkEof) eqn:He; cbn [orb]; [by apply wp_ret|].
    destruct (0 <? depth)%Z eqn:Hd; cbn [negb]; [|by apply wp_ret]. apply Z.ltb_lt in Hd.
    pose proof (current_eof s1 (At_ok _ _ _ _ _ _ HA) He) as Hlt.
    assert (Hbump : forall d : Z, (Z.to_nat d < 2 + Z.to_nat depth) ->
      wp (bump ;;; ret (inl d)) (fun (r : Z + unit) s2 => match r with
        | inl d' => At_ s false [] Any 0 s2
            /\ 2 * (length toks - token_index s2) + Z.to_nat d'
               < 2 * (length toks - token_index s1) + Z.to_nat depth
        | inr _ => At_ s false [] Any 0 s2 end) s1).
    { intros d Hdd. eapply wp_seq; [by eapply keeps_bump, lua_At_start, At_ok, HA|].
      intros [] s2 HA2. apply wp_ret. split.
      - eapply At_weaken; [eapply (At_frame _ _ _ _ _ _ _ _ _ false s1); [exact HA|exact HA2|done]|
          simpl; lia|lia].
      - destruct HA2 as [_ _ _ _ _ _ Hp _]. unfold at_pos, lua_pos in Hp. simpl in Hp. lia. }
    cbv zeta. repeat case_if; try (apply Hbump; lia); try (by apply wp_ret).
    destruct (depth - 1 =? 0)%Z; [apply Hbump; lia|].
    apply wp_bind, wp_ret, wp_ret. split; [done|lia].
  - by apply lua_At_start.
  - unfold loop_fuel. destruct Hok as [[_ Htk _ Hi _ _ _] _]. simpl in Htk, Hi.
    rewrite Htk. lia.
Qed.
#[local] Hint Resolve keeps_recover_to_block_end : keeps.

Lemma keeps_expect_end range msg s : Keeps_ 0 (expect_end_keyword range msg) s.
Proof. unfold expect_end_keyword. keeps. Qed.
#[local] Hint Resolve keeps_expect_end : keeps.

Lemma keeps_to_keywords ks s : Keeps_ 0 (recover_to_keywords ks) s.
Proof. unfold recover_to_keywords. keeps. Qed.
#[local] Hint Resolve keeps_to_keywords : keeps.

Lemma keeps_expect_keyword token msg s :
  (token =t TkEof) = false -> Keeps_ 0 (expect_keyword_with_recovery token msg) s.
Proof.
  intros Ht. unfold expect_keyword_with_recovery. apply keeps_cur, keeps_if; intros Hc.
  - apply keeps_bind0; [|intros; keeps]. apply keeps_bump0. by eapply not_eof_kind.
  - keeps.
Qed.
#[local] Hint Extern 1 (Keeps _ _ _ (expect_keyword_with_recovery _ _) _) =>
  apply keeps_expect_keyword; reflexivity : keeps.

Lemma keeps_push_expr_error msg s : Keeps_ 0 (push_expr_error_lazy msg) s.
Proof. unfold push_expr_error_lazy. keeps. Qed.
#[local] Hint Resolve keeps_push_expr_error : keeps.

(** ** Lists *)

Variable sub_expr : Z -> M LuaParser ParseResult.
Variable block : M LuaParser ParseResult.
Hypothesis Hsub : forall limit, ExprSpec_ (sub_expr limit).
Hypothesis Hblock : BlockSpec_ block.

Lemma keeps_parse_expr s : Keeps_ 0 (parse_expr sub_expr) s.
Proof. apply keeps_expr. by apply parse_expr_spec. Qed.
#[local] Hint Resolve keeps_parse_expr : keeps.

Lemma keeps_expr_or msg s : Keeps_ 0 (parse_expr_or sub_expr msg) s.
Proof. unfold parse_expr_or. keeps. Qed.
#[local] Hint Resolve keeps_expr_or : keeps.

Lemma keeps_expr_list_loop u s : Keeps_ 0 (loop_from loop_fuel (expr_list_step sub_expr) u) s.
Proof.
  apply lua_keeps_loop. intros u' s1 Hok. pose proof (lua_At_start false s1 Hok) as HA.
  unfold expr_list_step. apply wp_bind, wp_cur.
  destruct (current_token s1 =t TkComma) eqn:H1; [|by apply wp_ret].
  bumps HA. kept HA. destruct a; apply wp_ret; weaken HA.
Qed.
#[local] Hint Resolve keeps_expr_list_loop : keeps.

Lemma keeps_expr_list s : Keeps_ 0 (parse_expr_list_impl sub_expr) s.
Proof.
  unfold parse_expr_list_impl, bind_result. apply keeps_bind0; [keeps|].
  intros [a|e] s'; keeps.
Qed.
#[local] Hint Resolve keeps_expr_list : keeps.

(** ** Names *)

Lemma parse_attrib_spec s :
  Ok_ s -> (current_token s =t TkEof) = false -> wp parse_attrib (part_post_ false Solid 1 s) s.
Proof.
  intros Hok Hc. unfold parse_attrib. mark_first Hr HA. apply wp_bind, wp_range_here.
  intros range. bumps HA. kept HA. kept HA. apply wp_bind, wp_gets, wp_bind, wp_gets.
  kept HA. completes HA. by apply wp_ret.
Qed.

Lemma parse_local_name_spec attrib s :
  Ok_ s -> wp (parse_local_name attrib) (part_post_ false Solid 0 s) s.
Proof.
  intros Hok. unfold parse_local_name. mark_first Hr HA.
  apply wp_bind. eapply wp_expect_or_error; [exact HA|done|]. clear HA. intros s1 HA.
  apply wp_bind, wp_cur, wp_bind_result. case_if.
  - apply andb_true_iff in Heqb as [_ Hlt].
    eapply wp_use; [apply parse_attrib_spec; [eapply At_ok, HA|not_eof]|exact HA|done|..]; clear HA.
    + intros a s2 HA. completes HA. apply wp_ret. weaken HA.
    + intros e s2 HA. abandon HA.
  - apply wp_ret. completes HA. apply wp_ret. weaken HA.
Qed.

Lemma keeps_local_name attrib s : Keeps_ 0 (parse_local_name attrib) s.
Proof. eapply keeps_part, parse_local_name_spec. Qed.
#[local] Hint Resolve keeps_local_name : keeps.

Lemma keeps_name_list attrib u s : Keeps_ 0 (loop_from loop_fuel (name_list_step attrib) u) s.
Proof.
  apply lua_keeps_loop. intros u' s1 Hok. pose proof (lua_At_start false s1 Hok) as HA.
  unfold name_list_step. apply wp_bind, wp_cur.
  destruct (current_token s1 =t TkComma) eqn:H1; [|by apply wp_ret].
  bumps HA. kept HA. kept HA. apply wp_ret. weaken HA.
Qed.
#[local] Hint Resolve keeps_name_list : keeps.

Lemma keeps_variable_list attrib s : Keeps_ 0 (parse_variable_name_list attrib) s.
Proof.
  unfold parse_variable_name_list, bind_result. apply keeps_bind0; [keeps|].
  intros [a|e] s'; keeps.
Qed.
#[local] Hint Resolve keeps_variable_list : keeps.

Lemma variable_list_spec attrib s :
  Ok_ s -> wp (parse_variable_name_list attrib) (part_post_ false Any 0 s) s.
Proof.
  intros Hok. unfold parse_variable_name_list. apply wp_bind_result.
  eapply wp_mono; [by apply parse_local_name_spec|]. intros [a|e] s1 HA; [|done].
  kept HA. apply wp_ret. weaken HA.
Qed.

(** ** The statements *)

(** A statement that starts on a token: a part with at least that token, or an
    error. *)
Definition StatSpec (f : M LuaParser ParseResult) : Prop :=
  forall s, Ok_ s -> (current_token s =t TkEof) = false -> wp f (part_post_ false Solid 1 s) s.

Ltac stat Hr HA :=
  let s := fresh "s" in let Hok := fresh "Hok" in let Hc := fresh "Hc" in
  intros s Hok Hc; mark_first Hr HA.

(** A nested block. *)
Ltac uses_block HA :=
  apply wp_bind_result; first [eapply wp_opt_block|eapply wp_use_block];
  [exact Hblock|exact HA|simpl; lia| |];
  [|let e := fresh in let s := fresh in let HE := fresh in
    intros e s HE; abandon HE]; clear HA; intros _ ?s HA.

Ltac stat_done HA := completes HA; apply wp_ret; weaken HA.

Lemma parse_elseif_spec : StatSpec (parse_elseif_clause sub_expr block).
Proof.
  unfold parse_elseif_clause. stat Hr HA. bumps HA. kept HA. kept HA. kept HA.
  uses_block HA. stat_done HA.
Qed.

Lemma parse_else_spec : StatSpec (parse_else_clause block).
Proof. unfold parse_else_clause. stat Hr HA. bumps HA. uses_block HA. stat_done HA. Qed.

Lemma elseif_loop b m s (Q : ParseResult -> LuaParser -> Prop) :
  At_ b false [(position m, COther)] Solid 1 s ->
  (forall a s', At_ b false [(position m, COther)] Solid 1 s' -> Q (Ok a) s') ->
  (forall e s', At_ b false [] Dirty 0 s' -> Q (Err e) s') ->
  wp (loop_from loop_fuel (elseif_step sub_expr block) tt) Q s.
Proof.
  intros HA HO HE. eapply (lua_wp_at_loop _ _ _ _ Solid 1); [|exact HA]. clear HA.
  intros u s1 k Hk HA. unfold elseif_step. apply wp_bind, wp_cur.
  destruct (current_token s1 =t TkElseIf) eqn:H1.
  - apply wp_bind. eapply wp_use;
      [apply parse_elseif_spec; [eapply At_ok, HA|not_eof]|exact HA|done|..]; clear HA.
    + intros a s2 HA. apply wp_ret. weaken HA.
    + intros e s2 HA. apply wp_ret, HE. abandon HA.
  - apply wp_ret, HO. weaken HA.
Qed.

Lemma parse_if_spec : StatSpec (parse_if sub_expr block).
Proof.
  unfold parse_if. stat Hr HA. apply wp_bind, wp_range_here. intros range. bumps HA.
  kept HA. kept HA. kept HA. kept HA. apply wp_bind, wp_cur. unfold block_if. uses_block HA.
  apply wp_bind_result. eapply elseif_loop; [exact HA| |]; [|done]. clear HA.
  intros _ t6 HA. apply wp_bind, wp_cur, wp_bind_result.
  apply (wp_mono _ (fun r s' => match r with
    | Ok _ => At_ s false [(position m, COther)] Solid 1 s'
    | Err _ => At_ s false [] Dirty 0 s' end)).
  { destruct (current_token t6 =t TkElse) eqn:H3; [|by apply wp_ret].
    eapply wp_use; [apply parse_else_spec; [eapply At_ok, HA|not_eof]|exact HA|done|..]; clear HA.
    - intros ra t7 HA. weaken HA.
    - intros re t7 HA. abandon HA. }
  clear HA. intros [ra|re] t7 HA; [|done]. kept HA. kept HA. stat_done HA.
Qed.

Lemma parse_while_spec : StatSpec (parse_while sub_expr block).
Proof.
  unfold parse_while. stat Hr HA. apply wp_bind, wp_range_here. intros range. bumps HA.
  kept HA. kept HA. kept HA. kept HA. apply wp_bind, wp_cur. unfold block_if. uses_block HA.
  kept HA. kept HA. stat_done HA.
Qed.

Lemma parse_do_spec : StatSpec (parse_do block).
Proof.
  unfold parse_do. stat Hr HA. apply wp_bind, wp_range_here. intros range. bumps HA.
  uses_block HA. kept HA. kept HA. stat_done HA.
Qed.

Lemma keeps_for_names u s : Keeps_ 0 (loop_from loop_fuel for_name_step u) s.
Proof.
  apply lua_keeps_loop. intros u' s1 Hok. pose proof (lua_At_start false s1 Hok) as HA.
  unfold for_name_step. apply wp_bind, wp_cur.
  destruct (current_token s1 =t TkComma) eqn:H1; [|by apply wp_ret].
  bumps HA. apply wp_bind, wp_cur. kept HA. apply wp_ret. weaken HA.
Qed.
#[local] Hint Resolve keeps_for_names : keeps.

Lemma keeps_numeric_for s :
  (current_token s =t TkEof) = false -> Keeps_ 0 (numeric_for sub_expr) s.
Proof. intros Hc. unfold numeric_for. keeps. Qed.

Lemma keeps_generic_for s : Keeps_ 0 (generic_for sub_expr) s.
Proof. unfold generic_for. keeps. Qed.
#[local] Hint Resolve keeps_generic_for : keeps.

Lemma parse_for_spec : StatSpec (parse_for sub_expr block).
Proof.
  unfold parse_for. stat Hr HA. apply wp_bind, wp_range_here. intros range. bumps HA.
  apply wp_bind, wp_cur. kept HA. apply wp_bind, wp_cur.
  apply (wp_seq (fun _ s' => At_ s false [(position m, COther)] Solid 1 s')).
  { destruct (current_token s2 =t TkAssign) eqn:H3.
    { eapply wp_keep_last; [exact HA|apply keeps_numeric_for; not_eof|done|done]. }
    case_if; [|kept_last HA].
    apply wp_bind. eapply wp_set_kind; [exact HA|left|done|done|]. clear HA.
    intros s3 _ _ HA. kept_last HA. }
  clear HA. intros _ s3 HA. kept HA. kept HA. apply wp_bind, wp_cur. unfold block_if.
  uses_block HA. kept HA. kept HA. stat_done HA.
Qed.

(** *** Functions *)

Lemma dot_name_loop b j cm s :
  Expr_ b j cm s -> wp (loop_from loop_fuel dot_name_step cm) (fun cm' s' => Expr_ b j cm' s') s.
Proof.
  intros HE. eapply (lua_wp_expr_loop _ _ j); [|exact HE]. clear HE. intros cm1 s1 k Hk HE.
  unfold dot_name_step. apply wp_bind, wp_cur.
  destruct (current_token s1 =t TkDot) eqn:H1.
  - apply wp_bind. eapply wp_precede; [exact HE|done|done|]. clear HE. intros m s2 Hr2 _ HA.
    bumps HA. kept HA. expr_done HA. exact HA.
  - apply wp_ret. by eapply Expr_weaken.
Qed.

Lemma parse_func_name_spec s :
  Ok_ s -> wp parse_func_name (part_post_ false Solid 1 s) s.
Proof.
  intros Hok. unfold parse_func_name. mark_first Hr HA.
  apply wp_bind. eapply wp_expect_token; [exact HA|done|..].
  2: { intros e. error HA. apply wp_ret. abandon HA. }
  clear HA. intros s1 HA. apply wp_bind, wp_cur. case_if.
  - apply wp_bind. eapply wp_complete_expr; [exact HA|simpl; lia|]. clear HA.
    intros cm s2 _ _ _ HE. eapply wp_seq; [by eapply dot_name_loop|].
    clear HE. intros cm1 s3 HE. cbn beta in HE. apply wp_bind, wp_cur.
    destruct (current_token s3 =t TkColon) eqn:H1.
    + apply wp_bind. eapply wp_precede; [exact HE|done|done|]. clear HE. intros m1 s4 Hr4 _ HA.
      bumps HA. kept HA. stat_done HA.
    + apply wp_ret. apply Expr_At in HE. weaken HE.
  - stat_done HA.
Qed.

Lemma closure_part s : Ok_ s -> wp (parse_closure_expr block) (part_post_ false Solid 0 s) s.
Proof.
  intros Hok. eapply wp_mono; [exact (parse_closure_spec block Hblock s Hok)|]. intros [cm|e] s' HE; [|done].
  apply Expr_At in HE. weaken HE.
Qed.

Lemma keeps_closure s : Keeps_ 0 (parse_closure_expr block) s.
Proof. eapply keeps_part, closure_part. Qed.
#[local] Hint Resolve keeps_closure : keeps.

Lemma parse_function_spec : StatSpec (parse_function block).
Proof.
  unfold parse_function. stat Hr HA. bumps HA. apply wp_bind_result.
  eapply wp_use; [eapply parse_func_name_spec, At_ok, HA|exact HA|done| |];
    [|intros e s2 HE; abandon HE].
  clear HA. intros _ s2 HA. apply wp_bind_result.
  eapply wp_use; [eapply closure_part, At_ok, HA|exact HA|done| |]; [|intros e s3 HE; abandon HE].
  clear HA. intros _ s3 HA. kept HA. stat_done HA.
Qed.

(** *** The other statements *)

Lemma local_function_spec b m s :
  At_ b false [(position m, COther)] Solid 1 s -> (current_token s =t TkEof) = false ->
  wp (local_function block m) (fun _ s' => At_ b false [(position m, COther)] Solid 1 s') s.
Proof.
  intros HA Hc. unfold local_function. bumps HA.
  apply wp_bind. eapply wp_set_kind; [exact HA|left|done|done|]. clear HA.
  intros s2 _ _ HA. kept HA. kept HA. kept HA. kept_last HA.
Qed.

Lemma parse_local_spec : StatSpec (parse_local sub_expr block).
Proof.
  unfold parse_local. stat Hr HA. bumps HA. apply wp_bind, wp_cur, wp_bind_result.
  apply (wp_mono _ (fun r s' => match r with
    | Ok _ => At_ s false [(position m, COther)] Solid 1 s'
    | Err _ => At_ s false [] Dirty 0 s' end)).
  2: { clear HA. intros [a|e] s2 HA; [|done]. kept HA. stat_done HA. }
  destruct (current_token s1 =t TkFunction) eqn:H1; [|destruct (current_token s1 =t TkName)].
  - eapply wp_seq; [apply local_function_spec; [exact HA|not_eof]|]. clear HA.
    intros [] s2 HA. by apply wp_ret.
  - apply wp_bind_result.
    eapply wp_use; [eapply variable_list_spec, At_ok, HA|exact HA|done| |];
      [|intros e t2 HE; abandon HE]. clear HA. intros _ t2 HA.
    apply wp_bind, wp_cur. kept HA. apply wp_ret. weaken HA.
  - error HA. apply wp_ret. abandon HA.
Qed.

Lemma parse_return_spec : StatSpec (parse_return sub_expr).
Proof.
  unfold parse_return. stat Hr HA. bumps HA. apply wp_bind, wp_gets, wp_bind, wp_cur.
  kept HA. kept HA. stat_done HA.
Qed.

Lemma parse_break_spec : StatSpec parse_break.
Proof. unfold parse_break. stat Hr HA. bumps HA. kept HA. stat_done HA. Qed.

Lemma parse_repeat_spec : StatSpec (parse_repeat sub_expr block).
Proof.
  unfold parse_repeat. stat Hr HA. bumps HA. uses_block HA. kept HA. kept HA. kept HA.
  kept HA. stat_done HA.
Qed.

Lemma parse_goto_spec : StatSpec parse_goto.
Proof. unfold parse_goto. stat Hr HA. bumps HA. kept HA. kept HA. stat_done HA. Qed.

Lemma parse_empty_spec : StatSpec parse_empty_stat.
Proof. unfold parse_empty_stat. stat Hr HA. bumps HA. stat_done HA. Qed.

Lemma parse_label_spec : StatSpec parse_label_stat.
Proof. unfold parse_label_stat. stat Hr HA. bumps HA. kept HA. kept HA. stat_done HA. Qed.

Lemma previous_index_total ts n : n < length ts -> exists i, previous_index ts n = Some i /\ i <= n.
Proof.
  induction n as [|n IH]; intros Hn; simpl; [by exists 0|].
  destruct (lookup_lt_is_Some_2 ts (S n)) as [t ->]; [done|].
  destruct (is_trivia_kind (tok_kind t)); [|by exists (S n)].
  destruct IH as (i & -> & Hi); [lia|]. exists i. split; [done|lia].
Qed.

Lemma previous_token_range_total s : Ok_ s -> exists r, previous_token_range s = Some r.
Proof.
  intros [[_ Htk _ Hi _ _ _] _]. simpl in Htk, Hi. unfold previous_token_range.
  destruct (Nat.eqb_spec (token_index s) 0) as [|Hne]; simpl; [by eexists|].
  case_bool_decide as Hnil; [by eexists|]. rewrite Htk in *.
  destruct (previous_index_total toks (token_index s - 1)) as (i & -> & Hle); [lia|]. simpl.
  destruct (lookup_lt_is_Some_2 toks i) as [t Ht]; [lia|]. rewrite Ht.
  destruct (is_trivia_kind (tok_kind t)); simpl; [|by eexists].
  destruct (Nat.eqb_spec i 0) as [->|]; [|by eexists]. rewrite Ht. by eexists.
Qed.

Lemma lhs_loop b m s (Q : Result unit ParseFailReason -> LuaParser -> Prop) :
  At_ b false [(position m, COther)] Solid 1 s ->
  (forall s', At_ b false [(position m, COther)] Solid 1 s' -> Q (Ok tt) s') ->
  (forall e s', At_ b false [] Dirty 0 s' -> Q (Err e) s') ->
  wp (loop_from loop_fuel (lhs_step sub_expr) tt) Q s.
Proof.
  intros HA HO HE. eapply (lua_wp_at_loop _ _ _ _ Solid 1); [|exact HA]. clear HA.
  intros u s1 k Hk HA. unfold lhs_step. apply wp_bind, wp_cur.
  destruct (current_token s1 =t TkComma) eqn:H1; [|apply wp_ret, HO; weaken HA].
  bumps HA. apply wp_bind.
  eapply wp_use_expr; [by apply parse_expr_spec|exact HA|..]; clear HA.
  - intros cm s2 HA. case_if; [|apply wp_ret; weaken HA].
    error HA. apply wp_ret, HE. abandon HA.
  - intros e s2 HA. error HA. apply wp_ret. weaken HA.
Qed.

Lemma parse_assign_spec s :
  Ok_ s -> wp (parse_assign_or_expr_or_global_stat sub_expr) (part_post_ false Solid 1 s) s.
Proof.
  intros Hok. unfold parse_assign_or_expr_or_global_stat. mark_first Hr HA.
  apply wp_bind, wp_range_here. intros range. apply wp_bind.
  eapply wp_use_expr; [by apply parse_expr_spec|exact HA|..]; clear HA.
  2: { intros e s1 HA. error HA. apply wp_ret. abandon HA. }
  intros cm s1 HA. case_if.
  { apply wp_bind. eapply wp_set_kind; [exact HA|left|done|done|]. clear HA. intros s2 _ _ HA.
    kept HA. stat_done HA. }
  case_if; [error HA; apply wp_ret; abandon HA|].
  apply wp_bind_result. eapply lhs_loop; [exact HA| |]; [|done]. clear HA.
  intros s2 HA. apply wp_bind, wp_cur.
  destruct (is_assign_op (current_token s2)) eqn:H1.
  - bumps HA. kept HA. kept HA. kept HA. stat_done HA.
  - apply wp_bind, wp_gets.
    destruct (previous_token_range_total s2 (At_ok _ _ _ _ _ _ HA)) as [r Hr2].
    apply wp_bind. eapply wp_unwrap; [exact Hr2|]. error HA. apply wp_ret. abandon HA.
Qed.

Lemma parse_stat_spec : StatSpec (parse_stat sub_expr block).
Proof.
  intros s Hok Hc. unfold parse_stat. apply wp_bind, wp_cur.
  pose proof (parse_if_spec s Hok Hc) as H1. pose proof (parse_while_spec s Hok Hc) as H2.
  pose proof (parse_for_spec s Hok Hc) as H3. pose proof (parse_function_spec s Hok Hc) as H4.
  pose proof (parse_local_spec s Hok Hc) as H5. pose proof (parse_return_spec s Hok Hc) as H6.
  pose proof (parse_break_spec s Hok Hc) as H7. pose proof (parse_do_spec s Hok Hc) as H8.
  pose proof (parse_repeat_spec s Hok Hc) as H9. pose proof (parse_goto_spec s Hok Hc) as H10.
  pose proof (parse_label_spec s Hok Hc) as H11. pose proof (parse_empty_spec s Hok Hc) as H12.
  pose proof (parse_assign_spec s Hok) as H13. clear Hc. by destruct (current_token s).
Qed.
End Statements.

(** C9: on an [end] the recovery of a statement takes one level off for each round
    without moving on: whatever the depth, it goes on as at depth one, and a
    single [end] closes all the blocks that were opened on the way. *)
Theorem recover_end_closes_all `{DocComments} n depth p :
  current_token p = TkEnd ->
  loop (S depth + n) recover_step (Z.of_nat (S depth)) p = loop (1 + n) recover_step 1%Z p.
Proof.
  intros Hc. induction depth as [|d IH]; [done|].
  rewrite <-IH. cbn [plus loop]. unfold bind at 1. unfold recover_step at 1.
  unfold bind at 1, cur, gets. rewrite Hc.
  replace (0 <? Z.of_nat (S (S d)))%Z with true by (symmetry; apply Z.ltb_lt; lia).
  cbn -[Z.of_nat Z.sub Z.eqb].
  replace (Z.of_nat (S (S d)) - 1)%Z with (Z.of_nat (S d)) by lia.
  by replace (Z.of_nat (S d) =? 0)%Z with false by (symmetry; apply Z.eqb_neq; lia).
Qed.

(** Two blocks open, one [end] left. *)
Lemma recover_end_closes_all_witness :
  let docs := {| parse_doc_comment := fun _ => ret tt |} in
  let p := mkParser (str "end") [] [mkToken TkEnd (mkRange 0 3)] 0 TkEnd 0
             ParserConfig.default_config [] in
  match @loop _ _ _ 4 (@recover_step docs) 3%Z p with
  | Done (_, p') => current_token p' = TkEof
  | _ => False
  end.
Proof.
  intros docs p. rewrite (@recover_end_closes_all docs 1 2 p eq_refl : loop 4 _ 3%Z p = _).
  vm_compute. reflexivity.
Defined.
