(* ===== verification/LuaChunkProofs.v ===== *)
(** * Blocks and the chunk

    The loop over the statements with its error recovery, the block, the knot of
    the recursion and the whole chunk: the parser returns on every token list and
    every stack, and what it has written. *)

From S2P Require Import Prelude Kinds Text LuaLexer LuaLexerProofs Marker Discipline Rules LuaParser.
From S2P Require Import LuaParserProofs LuaGrammar LuaGrammarRules LuaExprProofs LuaStatProofs.
Import LuaParser.
Local Open Scope prog_scope.

Section Blocks.
Context `{DocCommentsLaws}.
Context {txt : rstring} {toks : list LuaTokenData} {parts : list rstring} {cfg : ParserConfig}.
Context {L : lexed txt toks parts}.
Implicit Types (b s : LuaParser).

Abbreviation inv := (@lua_inv txt toks parts cfg).
Abbreviation Ok_ := (OkState inv).
Abbreviation At_ := (At inv lua_pos).
Abbreviation ExprSpec_ := (@ExprSpec txt toks parts cfg).
Abbreviation BlockSpec_ := (@BlockSpec txt toks parts cfg).
Abbreviation part_post_ := (@part_post txt toks parts cfg).
Abbreviation Keeps_ := (Keeps inv lua_pos).

Lemma block_follow_not_eof s : block_follow s = false -> (current_token s =t TkEof) = false.
Proof. unfold block_follow. intros Hf. not_eof. Qed.

Lemma keeps_recover_stat u s : Keeps_ 0 (loop_from loop_fuel recover_stat_step u) s.
Proof.
  apply lua_keeps_loop. intros u' s1 Hok. pose proof (lua_At_start false s1 Hok) as HA.
  unfold recover_stat_step. apply wp_bind, wp_cur.
  destruct (current_token s1 =t TkEof) eqn:H1; [by apply wp_ret|]. apply wp_bind, wp_gets.
  repeat case_if; try (by apply wp_ret). bumps HA. apply wp_ret. weaken HA.
Qed.

#[local] Hint Resolve keeps_recover_stat : keeps.

Lemma At_moved_index j' b g ms q j s :
  At_ b g ms q j s -> token_index b + j' <= token_index s -> At_ b g ms q j' s.
Proof. intros [Hok Hsh Hm Hd Hl He _ Hc] Hj. by split. Qed.

(** The index tells the token. *)
Lemma same_index b s : Ok_ b -> Ok_ s -> token_index s = token_index b ->
  current_token s = current_token b.
Proof. intros [[_ _ _ _ Hc _ _] _] [[_ _ _ _ Hc' _ _] _] Hi. simpl in *. congruence. Qed.

Section Stats.
Variable sub_expr : Z -> M LuaParser ParseResult.
Variable block : M LuaParser ParseResult.
Hypothesis Hsub : forall limit, ExprSpec_ (sub_expr limit).
Hypothesis Hblock : BlockSpec_ block.

Lemma stat_step_spec u s :
  Ok_ s -> wp (stat_step sub_expr block u) (fun r s' =>
    match r with
    | inl _ => At_ s false [] Solid 1 s'
    | inr _ => s' = s \/ At_ s false [] Solid 0 s'
    end) s.
Proof.
  intros Hok. unfold stat_step. apply wp_bind, wp_gets.
  destruct (block_follow s) eqn:Hf; [by apply wp_ret; left|].
  apply block_follow_not_eof in Hf. apply wp_bind, wp_gets, wp_bind, wp_gets, wp_bind.
  eapply wp_mono; [exact (parse_stat_spec _ _ Hsub Hblock s Hok Hf)|]. intros [cm|e] s1 HA; [by apply wp_ret|].
  apply wp_bind, wp_gets. pose proof (at_level _ _ _ _ _ _ _ _ HA) as Hl. simpl in Hl.
  destruct (Nat.ltb_spec (mark_level s1) (mark_level s)) as [|_]; [lia|].
  apply wp_bind, wp_ret. apply wp_bind. eapply wp_push_node_ends; [exact HA|simpl; lia|].
  clear HA. intros s2 _ _ HA. kept HA. apply wp_bind, wp_gets.
  case_if; apply wp_ret; [|right; weaken HA].
  apply andb_true_iff in Heqb as [_ Hi%negb_true_iff%Nat.eqb_neq].
  pose proof (at_progress _ _ _ _ _ _ _ _ HA) as Hp. unfold at_pos, lua_pos in Hp. simpl in Hp.
  apply (At_moved_index 1) in HA; [weaken HA|lia].
Qed.

Lemma parse_stats_spec s :
  Ok_ s -> wp (parse_stats sub_expr block) (fun _ s' => s' = s \/ At_ s false [] Solid 0 s') s.
Proof.
  intros Hok. unfold parse_stats.
  apply (wp_token_loop (txt := txt) (toks := toks) (parts := parts) (cfg := cfg) _
           (fun _ s1 => s1 = s \/ At_ s false [] Solid 0 s1)); [| |by left].
  - intros _ s1 [->|HA]; [done|by eapply At_ok].
  - intros u s1 HI. assert (Ok_ s1) as Hok1 by (destruct HI as [->|HA]; [done|by eapply At_ok]).
    eapply wp_mono; [by apply stat_step_spec|].
    assert (Hfr : forall n s2, At_ s1 false [] Solid n s2 -> At_ s false [] Solid 0 s2).
    { intros n s2 HA2. destruct HI as [->|HA]; [weaken HA2|].
      pose proof (At_frame _ _ _ _ _ _ _ _ _ _ _ _ HA HA2) as HF. eapply At_weaken; [by apply HF|done|lia]. }
    intros [r|r] s2 H2.
    + split; [right; by eapply Hfr|]. destruct H2 as [_ _ _ _ _ _ Hp _].
      unfold at_pos, lua_pos in Hp. simpl in Hp. lia.
    + destruct H2 as [->|HA2]; [done|]. right. by eapply Hfr.
Qed.

Lemma parse_block_spec `{Stack} d : BlockSpec_ (parse_block sub_expr block d).
Proof.
  intros s Hok. unfold parse_block. apply wp_bind, wp_gets. case_if.
  { pose proof (lua_At_start true s Hok) as HA. error HA. apply wp_ret. weaken HA. }
  apply wp_bind. eapply (wp_mark_first _ true); [exact Hok|done|done|].
  intros m s1 Hr _ Hev Hpos HA. change (node_class Block) with CBlock in HA.
  eapply wp_seq; [eapply parse_stats_spec, At_ok, HA|]. intros [] s2 [->|HA2].
  - apply wp_bind. eapply wp_complete_empty; [exact HA|exact Hev|exact Hpos|].
    intros cm s3 _ _ HA3. apply wp_ret. by eapply AtF_weaken.
  - pose proof (At_frame _ _ _ _ _ _ _ _ _ _ _ _ HA HA2) as HF.
    specialize (HF ltac:(done)). cbn [join rank Nat.leb] in HF. clear HA HA2.
    completes HF. apply wp_ret. weaken HF.
Qed.
End Stats.

(** ** The knot *)

Context `{FiniteStack}.

Lemma sub_expr_exhausted f g d limit :
  max_nesting <= d -> ExprSpec_ (parse_sub_expr f g d limit).
Proof.
  intros Hd s Hok. unfold parse_sub_expr. apply wp_bind, wp_gets.
  rewrite finite_stack by done. pose proof (lua_At_start false s Hok) as HA.
  error HA. apply wp_ret. weaken HA.
Qed.

Lemma block_exhausted f g d : max_nesting <= d -> BlockSpec_ (parse_block f g d).
Proof.
  intros Hd s Hok. unfold parse_block. apply wp_bind, wp_gets.
  rewrite finite_stack by done. pose proof (lua_At_start true s Hok) as HA.
  error HA. apply wp_ret. weaken HA.
Qed.

(** Enough fuel: the stack gives out first. *)
Lemma grammar_spec n d :
  max_nesting <= n + d ->
  (forall limit, ExprSpec_ ((grammar (S n) d).1 limit)) /\ BlockSpec_ (grammar (S n) d).2.
Proof.
  revert d. induction n as [|n IH]; intros d Hn.
  - split; [intros limit; by apply sub_expr_exhausted|by apply block_exhausted].
  - destruct (IH (S d)) as [He Hb]; [lia|]. split.
    + intros limit. by apply parse_sub_expr_spec.
    + by apply parse_block_spec.
Qed.

(** ** The chunk *)

Section Chunk.
Variable sub_expr : Z -> M LuaParser ParseResult.
Variable block : M LuaParser ParseResult.
Hypothesis Hsub : forall limit, ExprSpec_ (sub_expr limit).
Hypothesis Hblock : BlockSpec_ block.

Lemma chunk_step_spec u s :
  Ok_ s -> wp (chunk_step sub_expr block u) (fun r s' =>
    match r with
    | inl _ => At_ s false [] Solid 1 s'
    | inr _ => s' = s /\ (current_token s =t TkEof) = true
    end) s.
Proof.
  intros Hok. unfold chunk_step. apply wp_bind, wp_cur.
  destruct (current_token s =t TkEof) eqn:Hc; [by apply wp_ret|].
  apply wp_bind, wp_gets. eapply wp_seq; [exact (parse_stats_spec _ _ Hsub Hblock s Hok)|].
  intros [] s1 HS. apply wp_bind, wp_gets.
  assert (Ok_ s1) as Hok1 by (destruct HS as [->|HA]; [done|by eapply At_ok]).
  assert (token_index s <= token_index s1) as Hle.
  { destruct HS as [->|HA]; [done|]. pose proof (at_progress _ _ _ _ _ _ _ _ HA) as Hp.
    unfold at_pos, lua_pos in Hp. simpl in Hp. lia. }
  apply (wp_seq (fun _ s' => At_ s false [] Solid 1 s')); [|by intros [] s' HA; apply wp_ret].
  destruct (Nat.eqb_spec (token_index s1) (token_index s)) as [Heq|Hne]; simpl when.
  - assert ((current_token s1 =t TkEof) = false) as Hc1 by by rewrite (same_index s s1).
    apply wp_bind, wp_range_here. intros range. mark_first Hr HA. apply wp_bind, wp_cur.
    apply wp_bind. eapply wp_error_at; [exact HA|]. clear HA. intros s2 Hr2 HA.
    bumps HA. completes HA. apply wp_ret.
    destruct HS as [->|HS]; [weaken HA|].
    pose proof (At_frame _ _ _ _ _ _ _ _ _ _ _ _ HS HA) as HF.
    eapply At_weaken; [by apply HF|simpl; lia|lia].
  - apply wp_ret. destruct HS as [->|HA]; [done|]. apply (At_moved_index 1) in HA; [done|lia].
Qed.

Lemma chunk_loop_spec s :
  Ok_ s -> wp (loop_from loop_fuel (chunk_step sub_expr block) tt) (fun _ s' =>
    (s' = s \/ At_ s false [] Solid 1 s') /\ (current_token s' =t TkEof) = true) s.
Proof.
  intros Hok.
  apply (wp_token_loop (txt := txt) (toks := toks) (parts := parts) (cfg := cfg) _
           (fun _ s1 => s1 = s \/ At_ s false [] Solid 1 s1)); [| |by left].
  - intros _ s1 [->|HA]; [done|by eapply At_ok].
  - intros u s1 HI. assert (Ok_ s1) as Hok1 by (destruct HI as [->|HA]; [done|by eapply At_ok]).
    eapply wp_mono; [by apply chunk_step_spec|]. intros [r|r] s2 Hs2.
    + split.
      * right. destruct HI as [->|HA]; [weaken Hs2|].
        pose proof (At_frame _ _ _ _ _ _ _ _ _ _ _ _ HA Hs2) as HF.
        eapply At_weaken; [by apply HF|done|lia].
      * destruct Hs2 as [_ _ _ _ _ _ Hp _]. unfold at_pos, lua_pos in Hp. simpl in Hp. lia.
    + destruct Hs2 as [-> Hc]. done.
Qed.

(** *** [init] *)

(** The parser before the first token: only the block was opened. *)
Record Fresh (p : LuaParser) : Prop := mkFresh {
  fr_text : text p = txt;
  fr_tokens : tokens p = toks;
  fr_config : parse_config p = cfg;
  fr_index : token_index p = 0
}.

Lemma wp_init p :
  Fresh p -> events p = [NodeStart Block 0] ->
  wp init (fun _ s => Ok_ s /\ (events s = events p \/ 0 < token_index s)
                      /\ At any_rest no_pos p false [] Any 0 s) p.
Proof.
  intros [Htx Htk Hcf Hix] Hev. unfold init.
  apply wp_bind, wp_gets, wp_bind, wp_modify, wp_bind, wp_gets. cbv beta. rewrite Htk, Hix.
  set (p1 := set_cursor 0 _ p).
  assert (HA : At any_rest no_pos p false [] Any 0 p1).
  { assert (OkState any_rest p1) as Hok by (split; [done|]; simpl; rewrite Hev; apply events_ok_block).
    split; simpl; try done; [constructor|lia|]. intros _. split; [done|constructor|].
    intros sk0 Hsk0. exists [], []. rewrite app_nil_r. split_and!; [done| |done].
    by apply (Ext_base false []). }
  assert (Hea : eaten_to 0 p1) by (unfold eaten_to; simpl; rewrite Hev; by exists [], (text p)).
  assert (Hevok : events_ok (events p1)) by (simpl; rewrite Hev; apply events_ok_block).
  assert (Hcur : current_token p1 = kind_at toks 0) by (unfold p1, kind_at; simpl; by destruct toks).
  destruct (is_trivia_kind (current_token p1)) eqn:Htr; simpl when.
  - destruct (toks !! 0) as [t|] eqn:Ht; [|unfold kind_at in Hcur; by rewrite Hcur, Ht in Htr].
    assert (Hk : current_token p1 = tok_kind t) by (rewrite Hcur; unfold kind_at; by rewrite Ht).
    eapply wp_mono; [eapply (wp_bump_core (txt := txt) (cfg := cfg) L 0 t)|].
    { by split. }
    intros [] s (Hok & Hi & _ & HE). split_and!; [done|by right|].
    rewrite Hk in Htr. unfold token_status in HE. rewrite Htr in HE.
    apply (At_frame _ _ _ _ _ _ _ _ _ _ _ _ HA HE). done.
  - apply wp_ret. split_and!; [|by left|done]. split; [|done].
    split; try done; [simpl; lia| |].
    + simpl. intros t Ht. rewrite Hcur in Htr. unfold kind_at in Htr. by rewrite Ht in Htr.
    + unfold eaten_to in Hea. simpl in Hea. by rewrite Htx in Hea.
Qed.

(** *** The whole chunk *)

Lemma chunk_open p p1 :
  events p = [] -> Kept p p1 -> events p1 = [NodeStart Block 0] ->
  mark_level p1 = S (mark_level p) -> At any_rest no_pos p true [(0, CBlock)] Any 0 p1.
Proof.
  intros Hev [Hr He] Hev1 Hl. split; simpl; rewrite ?Hev, ?Hev1, ?Hl, ?He; try done; try lia.
  - split; [done|]. simpl. rewrite Hev1. apply events_ok_block.
  - apply prefix_nil.
  - by repeat constructor.
  - constructor; [|constructor]. by apply not_elem_of_nil.
  - by injection Hr; simpl in He; rewrite He.
  - intros _. split; simpl; rewrite ?Hev, ?Hev1; [by apply prefix_nil|constructor; [by exists Block|done]|].
    intros sk0 Hsk0. exists [AStart 0 CBlock], []. split_and!; [|by apply (Ext_first true 0 CBlock [])|done].
    by apply (Skel_start [] sk0 Block).
Qed.

(** A parse that moved has eaten something. *)
Lemma moved_eaten s : Ok_ s -> 0 < token_index s -> eaten_of s <> [].
Proof.
  intros [[_ _ _ Hi _ _ Hea] _] Hpos Hn. simpl in Hea, Hi. rewrite Hn in Hea.
  destruct Hea as (ps & tail & _ & Hea & Hsp). destruct ps; [|done]. simpl in Hea.
  destruct (lookup_lt_is_Some_2 toks 0) as [t Ht]; [lia|].
  destruct (token_offsets L _ _ Ht) as (_ & _ & Hlt).
  assert (offset parts 1 <= offset parts (token_index s)).
  { pose proof (offset_add parts 1 (token_index s - 1)) as Ho.
    replace (1 + (token_index s - 1)) with (token_index s) in Ho by lia. lia. }
  lia.
Qed.

Lemma At_tokens p s :
  At_ p true [(0, CBlock)] Any 0 s -> events p = [] -> 0 < token_index s ->
  At_ p true [(0, CBlock)] Tokens 0 s.
Proof.
  intros [Hok Hsh Hm Hd Hl He Hp Hc] Hev Hpos. split; try done.
  intros HE. destruct (Hc HE) as [Hpre Hun Hsk]. split; try done.
  intros sk0 Hsk0. destruct (Hsk _ Hsk0) as (sk & f & HS & HX & _). exists sk, f.
  split_and!; [done|done|]. apply leaves_has_token. rewrite <-acts_eaten_flats.
  pose proof (Skel_eaten _ _ HS) as Heq. rewrite acts_eaten_app in Heq.
  apply Skel_eaten in Hsk0. simpl in Hsk0. rewrite Hev in Hsk0. rewrite Hsk0 in Heq.
  inversion HX as [|? ? ? _ _|]; subst. simpl in Heq. rewrite Heq.
  by apply moved_eaten.
Qed.

(** What the whole parse leaves behind. *)
Record ChunkPost p s : Prop := mkChunkPost {
  cp_ok : Ok_ s;
  cp_end : token_index s = length toks;
  cp_errors : errors p `prefix_of` errors s;
  cp_clean : errors s = errors p -> exists f, Skel (events s) (flats f) /\ goods true f = true
    /\ (f = [] \/ exists cs, f = [TNode 0 CBlock cs])
}.

Lemma chunk_post_intro p s (F : list Tree -> Prop) :
  events p = [] -> AtF inv lua_pos p true [] F 0 s -> token_index s = length toks ->
  (forall f, F f -> f = [] \/ exists cs, f = [TNode 0 CBlock cs]) -> ChunkPost p s.
Proof.
  intros Hev [Hok _ _ _ _ He _ Hc] Hi HF. split; [done|done|done|].
  intros Heq. assert (no_error p s) as HE.
  { split; [done|]. exists []. simpl. rewrite Hev. constructor. }
  destruct (Hc HE) as [_ _ Hsk]. destruct (Hsk []) as (sk & f & HS & HX & Hf).
  { simpl. rewrite Hev. constructor. }
  inversion HX; subst. exists f. split_and!; [done|done|by apply HF].
Qed.

Lemma parse_chunk_with_spec p :
  Fresh p -> events p = [] ->
  wp (parse_chunk_with sub_expr block) (fun _ s => ChunkPost p s) p.
Proof.
  intros HF Hev. unfold parse_chunk_with. apply wp_bind, wp_mark. intros p1 HK Hev1 Hl1.
  simpl in Hev1, Hl1. rewrite Hev in Hev1. simpl in Hev1.
  pose proof (chunk_open _ _ Hev HK Hev1 Hl1) as HA.
  assert (length (get_events p) = 0) as Hlen by (simpl; by rewrite Hev). rewrite Hlen.
  assert (Fresh p1) as HF1.
  { destruct HF as [Htx Htk Hcf Hix], HK as [Hr _]. injection Hr as ? ? ? ? ?.
    split; congruence. }
  eapply wp_seq; [by apply wp_init|]. intros [] s2 (Hok2 & Hcase & HE). cbn beta in HE.
  pose proof (At_frame _ _ _ _ _ _ _ _ _ _ _ _ HA HE ltac:(done)) as HA2. clear HA HE.
  cbn [join rank Nat.leb] in HA2.
  apply (At_reinv _ inv _ lua_pos _ _ _ _ _ 0) in HA2; [|done|].
  2: { destruct HF as [_ _ _ Hix]. unfold at_pos, lua_pos. simpl. lia. }
  eapply wp_seq; [by apply chunk_loop_spec|]. intros [] s3 [Hcase3 Heof].
  assert (At_ p true [(0, CBlock)] Any 0 s3) as HA3.
  { destruct Hcase3 as [->|HA3]; [done|].
    pose proof (At_frame _ _ _ _ _ _ _ _ _ _ _ _ HA2 HA3 ltac:(done)) as HF3.
    eapply At_weaken; [exact HF3|simpl; lia|lia]. }
  pose proof (eof_current L s3 (At_ok _ _ _ _ _ _ HA3) Heof) as Hend.
  apply wp_bind. destruct (decide (0 < token_index s3)) as [Hpos|Hpos].
  - apply At_tokens in HA3; [|done|done].
    eapply (wp_complete_gen p true (mkMarker 0) CBlock []); [exact HA3|by left|].
    intros cm s4 Hr4 _ _ _ HA4. apply wp_ret. eapply chunk_post_intro; [done|exact HA4| |].
    + by rewrite (index_rest _ _ Hr4).
    + intros f [_ (f0 & cs & -> & Hf0)]. rewrite Hf0 by done. right. by exists cs.
  - destruct Hcase3 as [->|HA3'].
    2: { pose proof (at_progress _ _ _ _ _ _ _ _ HA3') as Hp.
         unfold at_pos, lua_pos in Hp. simpl in Hp. lia. }
    destruct Hcase as [Hev2|]; [|done].
    eapply (wp_complete_empty p true (mkMarker 0) CBlock); [exact HA3| |by rewrite Hlen|].
    { simpl. rewrite Hev, Hev2, Hev1. done. }
    intros cm s4 Hr4 _ HA4. apply wp_ret.
    eapply chunk_post_intro; [done|exact HA4| |by left].
    by rewrite (index_rest _ _ Hr4).
Qed.
End Chunk.
End Blocks.

(** C8: a call that finds the stack exhausted gives up at once: it eats no token,
    writes no event and leaves exactly one error at the current token. *)
Theorem too_deep_is_error `{DocComments} `{Stack} n d limit p range :
  parser_stack_exhausted d (events p) = true -> current_token_range p = Some range ->
  (exists e, (grammar (S n) d).1 limit p = Done (Err UnexpectedToken, add_error e p)
             /\ Text.range e = text_range_from range)
  /\ (exists e, (grammar (S n) d).2 p = Done (Err UnexpectedToken, add_error e p)
                /\ Text.range e = text_range_from range).
Proof.
  intros Hex Hr.
  assert (forall msg, error_here msg p = Done (tt, add_error (syntax_error_from msg range) p)) as Herr
    by (intros msg; unfold error_here, bind, gets, unwrap; by rewrite Hr).
  cbn [grammar fst snd]. unfold parse_sub_expr, parse_block.
  split; unfold bind at 1, gets at 1; cbv beta iota; rewrite Hex; cbv beta iota;
    unfold bind at 1; rewrite Herr; eexists; by split.
Qed.

Lemma too_deep_is_error_witness :
  let stack := {| remaining_stack := fun _ _ => None; max_nesting := 0 |} in
  let docs := {| parse_doc_comment := fun _ => ret tt |} in
  let p := mkParser (str "x") [] [mkToken TkName (mkRange 0 1)] 0 TkName 0
             ParserConfig.default_config [] in
  exists e, (@grammar docs stack 1 0).2 p = Done (Err UnexpectedToken, add_error e p)
    /\ Text.range e = mkTextRange 0 1.
Proof.
  intros stack docs p.
  destruct (@too_deep_is_error docs stack 0 0 0%Z p (mkRange 0 1) eq_refl eq_refl) as [_ H]. exact H.
Defined.
