(* ===== verification/DocGrammar.v ===== *)
(** * The doc comment grammar

    [src/crates/glua_parser/src/grammar/doc/{mod,types,tag}.rs].  Every cycle of
    the type grammar goes through [parse_sub_type], which asks how much stack is
    left, or through [parse_type] itself; the functions between them take these two
    as parameters and [types] ties the knot.  No function of the grammar reports its
    own error: it returns it to [parse_tag], which records it and closes what was left
    open. *)

From S2P Require Import Prelude Kinds Text LuaLexer DocLexer Marker LuaParser DocParser LuaGrammar.
Local Open Scope prog_scope.

Module DocGrammar.
Import DocParser.

(** grammar/mod.rs *)
Definition DocParseResult : Type := Result CompleteMarker LuaParseError.

Section Grammar.
Context `{UnicodeTables}.

(** ** grammar/doc/mod.rs, the helpers *)

Definition cur : M t LuaTokenKind := gets current_token.

Definition fail_with {A} (f : SourceRange -> LuaParseError) : M t (Result A LuaParseError) :=
  range <- gets current_token_range ;; ret (Err (f range)).

(** [Err(LuaParseError::doc_error_from(message, p.current_token_range()))] *)
Definition doc_fail {A} (message : rstring) : M t (Result A LuaParseError) :=
  fail_with (doc_error_from message).

Definition expect_token (token : LuaTokenKind) : M t (Result unit LuaParseError) :=
  c <- cur ;;
  if c =t token then bump ;;; ret (Ok tt)
  else
    fail_with (syntax_error_from (str "expected " ++ token_name token ++ str ", but get "
                                  ++ token_name c)).

Definition if_token_bump (token : LuaTokenKind) : M t bool :=
  c <- cur ;;
  if c =t token then bump ;;; ret true else ret false.

(** [Ok(m.complete(p))] *)
Definition ok_complete (m : Marker) : M t DocParseResult :=
  cm <- complete m ;; ret (Ok cm).

(** [while let A | B | .. = p.current_token() { p.bump() }] *)
Definition bump_while_in (kinds : list LuaTokenKind) : M t unit :=
  while_ doc_fuel (fun p => current_token p in_t kinds) bump.

(** [while p.current_token() == TkComma { p.bump(); item(p)?; }], for a list
    that goes on with [separator]. *)
Definition list_step {A} (separator : LuaTokenKind) (item : M t (Result A LuaParseError)) (_ : unit)
    : M t (unit + Result unit LuaParseError) :=
  c <- cur ;;
  if c =t separator then
    bump ;;;
    r <- item ;;
    match r with
    | Ok _ => ret (inl tt)
    | Err e => ret (inr (Err e))
    end
  else ret (inr (Ok tt)).

Definition list_rest {A} (separator : LuaTokenKind) (item : M t (Result A LuaParseError))
    : M t (Result unit LuaParseError) :=
  loop_from doc_fuel (list_step separator item) tt.

Definition parse_description : M t unit :=
  m <- mark DocDescription ;;
  bump_while_in [TkDocDetail; TkEndOfLine; TkWhitespace; TkDocContinue; TkDocMatch; TkNormalStart] ;;;
  complete m ;;;
  ret tt.

(** ** grammar/doc/types.rs *)

Section Types.
Variable sub_type : Z -> M t DocParseResult.
Variable type_ : M t DocParseResult.

(** *** Simple types *)

(** A node of one token. *)
Definition parse_one_token (kind : LuaSyntaxKind) : M t DocParseResult :=
  m <- mark kind ;;
  bump ;;;
  ok_complete m.

Definition parse_literal_type : M t DocParseResult := parse_one_token TypeLiteral.
Definition parse_name_type : M t DocParseResult := parse_one_token TypeName.
Definition parse_string_template_type : M t DocParseResult := parse_one_token TypeStringTemplate.

Definition parse_infer_type : M t DocParseResult :=
  m <- mark TypeInfer ;;
  set_current_token_kind TkDocInfer ;;;
  bump ;;;
  param <- mark DocGenericParameter ;;
  _ <~ expect_token TkName ;;
  complete param ;;;
  ok_complete m.

Definition parse_vararg_type : M t DocParseResult :=
  m <- mark TypeName ;;
  bump ;;;
  _ <~ parse_name_type ;;
  ok_complete m.

Definition parse_tuple_type : M t DocParseResult :=
  m <- mark TypeTuple ;;
  bump ;;;
  c <- cur ;;
  _ <~ (if negb (c =t TkRightBracket) then
          _ <~ type_ ;; list_rest TkComma type_
        else ret (Ok tt)) ;;
  _ <~ expect_token TkRightBracket ;;
  ok_complete m.

Definition parse_paren_type : M t DocParseResult :=
  bump ;;;
  cm <~ type_ ;;
  _ <~ expect_token TkRightParen ;;
  ret (Ok cm).

Definition parse_type_list : M t DocParseResult :=
  m <- mark DocTypeList ;;
  _ <~ type_ ;;
  _ <~ list_rest TkComma type_ ;;
  ok_complete m.

(** [: <type>], if there is a colon. *)
Definition parse_opt_colon_type : M t (Result unit LuaParseError) :=
  c <- cur ;;
  if c =t TkColon then
    bump ;;;
    _ <~ type_ ;; ret (Ok tt)
  else ret (Ok tt).

(** *** Objects and mapped types *)

(** [+] or [-] before a keyword, the keyword alone, or nothing. *)
Definition parse_mapped_modifier (keyword : LuaTokenKind) (otherwise : M t (Result unit LuaParseError))
    : M t (Result unit LuaParseError) :=
  c <- cur ;;
  if c in_t [TkPlus; TkMinus] then bump ;;; expect_token keyword
  else if c =t keyword then bump ;;; ret (Ok tt)
  else otherwise.

Definition parse_mapped_key : M t DocParseResult :=
  m <- mark DocMappedKey ;;
  _ <~ expect_token TkLeftBracket ;;
  param <- mark DocGenericParameter ;;
  _ <~ expect_token TkName ;;
  _ <~ expect_token TkIn ;;
  _ <~ type_ ;;
  complete param ;;;
  c <- cur ;;
  _ <~ (if c =t TkDocAs then bump ;;; _ <~ type_ ;; ret (Ok tt) else ret (Ok tt)) ;;
  _ <~ expect_token TkRightBracket ;;
  ok_complete m.

Definition parse_mapped_type (m : Marker) : M t DocParseResult :=
  set_parser_state PsMapped ;;;
  c <- cur ;;
  _ <~ parse_mapped_modifier TkDocReadonly
         (if c =t TkLeftBracket then ret (Ok tt) else doc_fail (str "expect mapped field")) ;;
  _ <~ parse_mapped_key ;;
  _ <~ parse_mapped_modifier TkDocQuestion (ret (Ok tt)) ;;
  _ <~ expect_token TkColon ;;
  _ <~ type_ ;;
  _ <~ expect_token TkSemicolon ;;
  _ <~ expect_token TkRightBrace ;;
  set_parser_state PsNormal ;;;
  ok_complete m.

Definition mapped_scan_step (_ : unit) : M DocLexer.t (unit + bool) :=
  kind <- DocLexer.lex ;;
  if kind =t TkIn then ret (inr true)
  else if kind in_t [TkLeftBracket; TkRightBracket; TkEof] then ret (inr false)
  else ret (inl tt).

(** The lexer is cloned: its steps are dropped. *)
Definition is_mapped_type : M t bool := fun p =>
  match loop (doc_fuel p) mapped_scan_step tt (lexer p) with
  | Done (mapped, _) => Done (mapped, p)
  | Panic => Panic
  | OutOfFuel => OutOfFuel
  end.

Definition parse_typed_field : M t DocParseResult :=
  m <- mark DocObjectField ;;
  c <- cur ;;
  _ <~ (if c =t TkName then bump ;;; if_token_bump TkDocQuestion ;;; ret (Ok tt)
        else if c =t TkLeftBracket then
          bump ;;;
          _ <~ type_ ;;
          _ <~ expect_token TkRightBracket ;;
          if_token_bump TkDocQuestion ;;;
          ret (Ok tt)
        else doc_fail (str "expect name or [<number>] or [<string>]")) ;;
  _ <~ parse_opt_colon_type ;;
  ok_complete m.

(** One more field, unless the comma was the last token. *)
Definition field_step (_ : unit) : M t (unit + Result unit LuaParseError) :=
  c <- cur ;;
  if c =t TkComma then
    bump ;;;
    c <- cur ;;
    if c =t TkRightBrace then ret (inr (Ok tt))
    else
      r <- parse_typed_field ;;
      match r with
      | Ok _ => ret (inl tt)
      | Err e => ret (inr (Err e))
      end
  else ret (inr (Ok tt)).

Definition parse_fields : M t (Result unit LuaParseError) :=
  _ <~ parse_typed_field ;; loop_from doc_fuel field_step tt.

Definition parse_object_or_mapped_type : M t DocParseResult :=
  set_lexer_state DocMapped ;;;
  m <- mark TypeObject ;;
  bump ;;;
  set_lexer_state DocNormal ;;;
  c <- cur ;;
  mapped <- (if c in_t [TkPlus; TkMinus; TkDocReadonly] then ret true
             else if c =t TkLeftBracket then is_mapped_type
             else ret false) ;;
  if mapped : bool then
    set_kind m TypeMapped ;;;
    parse_mapped_type m
  else
    _ <~ (if negb (c =t TkRightBrace) then parse_fields else ret (Ok tt)) ;;
    _ <~ expect_token TkRightBrace ;;
    ok_complete m.

(** *** Functions *)

Definition parse_generic_param : M t DocParseResult :=
  m <- mark DocGenericParameter ;;
  _ <~ expect_token TkName ;;
  if_token_bump TkDots ;;;
  c <- cur ;;
  _ <~ (if c in_t [TkColon; TkDocExtends] then bump ;;; _ <~ type_ ;; ret (Ok tt) else ret (Ok tt)) ;;
  ok_complete m.

Definition parse_generic_decl_list (allow_angle_brackets : bool) : M t DocParseResult :=
  m <- mark DocGenericDeclareList ;;
  _ <~ (if allow_angle_brackets then expect_token TkLt else ret (Ok tt)) ;;
  _ <~ parse_generic_param ;;
  _ <~ list_rest TkComma parse_generic_param ;;
  _ <~ (if allow_angle_brackets then expect_token TkGt else ret (Ok tt)) ;;
  ok_complete m.

Definition parse_typed_param : M t DocParseResult :=
  m <- mark DocTypedParameter ;;
  c <- cur ;;
  _ <~ (if c in_t [TkName; TkDots] then bump ;;; if_token_bump TkDocQuestion ;;; ret (Ok tt)
        else doc_fail (str "expect name or ...")) ;;
  _ <~ parse_opt_colon_type ;;
  ok_complete m.

(** The parameters between the parentheses, if there are any. *)
Definition parse_typed_params : M t (Result unit LuaParseError) :=
  c <- cur ;;
  if negb (c =t TkRightParen) then
    _ <~ parse_typed_param ;; list_rest TkComma parse_typed_param
  else ret (Ok tt).

Definition parse_fun_return_type : M t DocParseResult :=
  m <- mark DocNamedReturnType ;;
  cm <~ type_ ;;
  c <- cur ;;
  _ <~ (if (kind cm =k TypeName) && (c =t TkColon) then bump ;;; _ <~ type_ ;; ret (Ok tt)
        else ret (Ok tt)) ;;
  ok_complete m.

Definition parse_fun_return_list : M t DocParseResult :=
  m <- mark DocTypeList ;;
  parse_paren <- if_token_bump TkLeftParen ;;
  _ <~ parse_fun_return_type ;;
  _ <~ list_rest TkComma parse_fun_return_type ;;
  _ <~ (if parse_paren : bool then expect_token TkRightParen else ret (Ok tt)) ;;
  ok_complete m.

Definition parse_fun_type : M t DocParseResult :=
  m <- mark TypeFun ;;
  text <- current_token_text ;;
  when ((text =s "async") || (text =s "sync")) bump ;;;
  text <- current_token_text ;;
  if negb (text =s "fun") then doc_fail (str "expect fun") else
  bump ;;;
  c <- cur ;;
  _ <~ (if c =t TkLt then _ <~ parse_generic_decl_list true ;; ret (Ok tt) else ret (Ok tt)) ;;
  _ <~ expect_token TkLeftParen ;;
  _ <~ parse_typed_params ;;
  _ <~ expect_token TkRightParen ;;
  c <- cur ;;
  _ <~ (if c =t TkColon then bump ;;; _ <~ parse_fun_return_list ;; ret (Ok tt) else ret (Ok tt)) ;;
  ok_complete m.

Definition parse_name_or_func_type : M t DocParseResult :=
  text <- current_token_text ;;
  if (text =s "fun") || (text =s "async") || (text =s "sync") then parse_fun_type
  else parse_name_type.

Definition parse_constructor_type : M t DocParseResult :=
  new_range <- gets current_token_range ;;
  _ <~ expect_token TkDocNew ;;
  cm <~ sub_type 0 ;;
  if negb (kind cm =k TypeFun) then
    let err := doc_error_from (str "new keyword must be followed by function type") new_range in
    push_error err ;;;
    ret (Err err)
  else ret (Ok cm).

Definition parse_primary_type : M t DocParseResult :=
  c <- cur ;;
  if c =t TkLeftBrace then parse_object_or_mapped_type
  else if c =t TkLeftBracket then parse_tuple_type
  else if c =t TkLeftParen then parse_paren_type
  else if c in_t [TkString; TkInt; TkTrue; TkFalse] then parse_literal_type
  else if c =t TkName then
    st <- gets state ;;
    text <- current_token_text ;;
    if bool_decide (st = PsExtends) && (text =s "infer") then parse_infer_type
    else parse_name_or_func_type
  else if c =t TkStringTemplateType then parse_string_template_type
  else if c =t TkDots then parse_vararg_type
  else if c =t TkDocNew then parse_constructor_type
  else doc_fail (str "expect type").

(** *** Suffixes *)

(** [<type>\[..\]]: an array, an index, or in a mapped type an index by a type. *)
Definition parse_array_suffix (cm : CompleteMarker) : M t DocParseResult :=
  m <- precede cm TypeArray ;;
  bump ;;;
  st <- gets state ;;
  c <- cur ;;
  _ <~ (if bool_decide (st = PsMapped) then
          if negb (c =t TkRightBracket) then
            set_kind m TypeIndexAccess ;;; _ <~ type_ ;; ret (Ok tt)
          else ret (Ok tt)
        else if c in_t [TkString; TkInt; TkName] then
          set_kind m IndexExpr ;;; bump ;;; ret (Ok tt)
        else ret (Ok tt)) ;;
  _ <~ expect_token TkRightBracket ;;
  ok_complete m.

Definition parse_generic_suffix (cm : CompleteMarker) : M t DocParseResult :=
  m <- precede cm TypeGeneric ;;
  bump ;;;
  _ <~ parse_type_list ;;
  _ <~ expect_token TkGt ;;
  ok_complete m.

(** A node around [cm] that ends with the current token. *)
Definition wrap_token (cm : CompleteMarker) (kind : LuaSyntaxKind) : M t CompleteMarker :=
  m <- precede cm kind ;;
  bump ;;;
  complete m.

(** One round of the loop of [parse_suffixed_type]; the loop variables are [cm]
    and [only_continue_array]. *)
Definition suffix_step (vars : CompleteMarker * bool)
    : M t (CompleteMarker * bool + DocParseResult) :=
  let '(cm, only_continue_array) := vars in
  c <- cur ;;
  if c =t TkLeftBracket then
    r <- parse_array_suffix cm ;;
    match r with
    | Ok cm => ret (inl (cm, true))
    | Err e => ret (inr (Err e))
    end
  else if c =t TkLt then
    if only_continue_array || negb (kind cm =k TypeName) then ret (inr (Ok cm))
    else
      r <- parse_generic_suffix cm ;;
      match r with
      | Ok cm => ret (inl (cm, false))
      | Err e => ret (inr (Err e))
      end
  else if c =t TkDots then
    if only_continue_array || negb (kind cm =k TypeName) then ret (inr (Ok cm))
    else
      cm <- wrap_token cm TypeVariadic ;; ret (inr (Ok cm))
  else ret (inr (Ok cm)).

Definition parse_suffixed_type (cm : CompleteMarker) : M t DocParseResult :=
  loop_from doc_fuel suffix_step (cm, false).

Definition parse_simple_type : M t DocParseResult :=
  cm <~ parse_primary_type ;; parse_suffixed_type cm.

(** *** Operators *)

(** The bump over the operator: behind [extends] the lexer knows other
    keywords. *)
Definition bump_operator (bop : LuaTypeBinaryOperator) : M t unit :=
  if bool_decide (bop = TbExtends) then
    prev_lexer_state <- gets (fun p => DocLexer.state (lexer p)) ;;
    set_lexer_state DocExtends ;;;
    bump ;;;
    set_lexer_state prev_lexer_state
  else bump.

(** The right operand; [infer] is a keyword behind [extends] only. *)
Definition parse_operand (bop : LuaTypeBinaryOperator) (right : Z) : M t DocParseResult :=
  if bool_decide (bop = TbExtends) then
    prev_state <- gets state ;;
    set_parser_state PsExtends ;;;
    res <- sub_type right ;;
    set_parser_state prev_state ;;;
    ret res
  else sub_type right.

(** One round of the [while] of [parse_binary_operator]. *)
Definition binary_step (limit : Z) (cm : CompleteMarker)
    : M t (CompleteMarker + DocParseResult) :=
  c <- cur ;;
  let bop := to_parse_binary_operator c in
  prio <- unwrap (get_type_priority bop) ;;
  if negb (bool_decide (bop = TbNone)) && (limit <? left prio)%Z then
    range <- gets current_token_range ;;
    m <- precede cm TypeBinary ;;
    bump_operator bop ;;;
    c <- cur ;;
    r <- (if negb (c =t TkDocQuestion) then
            r <- parse_operand bop (right prio) ;;
            match r with
            | Ok _ => ret (Ok tt)
            | Err err =>
                push_error (doc_error_from (str "binary operator not followed by type") range) ;;;
                ret (Err err)
            end
          else
            m2 <- mark TypeLiteral ;;
            bump ;;;
            complete m2 ;;;
            ret (Ok tt)) ;;
    match r with
    | Ok _ => cm <- complete m ;; ret (inl cm)
    | Err err => ret (inr (Err err))
    end
  else ret (inr (Ok cm)).

Definition parse_binary_operator (cm : CompleteMarker) (limit : Z) : M t DocParseResult :=
  loop_from doc_fuel (binary_step limit) cm.

Definition parse_unary_type : M t DocParseResult :=
  range <- gets current_token_range ;;
  m <- mark TypeUnary ;;
  bump ;;;
  r <- sub_type UNARY_TYPE_PRIORITY ;;
  match r with
  | Ok _ => ok_complete m
  | Err err =>
      push_error (doc_error_from (str "unary operator not followed by type") range) ;;;
      ret (Err err)
  end.

(** [d] is the number of guarded calls this one is nested in. *)
Definition parse_sub_type `{Stack} (d : nat) (limit : Z) : M t DocParseResult :=
  exhausted <- gets (fun p => parser_stack_exhausted d (get_events p)) ;;
  if exhausted : bool then doc_fail (str "type is too deeply nested")
  else
    c <- cur ;;
    cm <~ (if negb (bool_decide (to_type_unary_operator c = TuNone)) then parse_unary_type
           else parse_simple_type) ;;
    parse_binary_operator cm limit.

(** *** Whole types *)

Definition parse_one_line_type : M t DocParseResult :=
  m <- mark DocOneLineField ;;
  _ <~ sub_type 1 ;;
  c <- cur ;;
  when (negb (c =t TkDocContinueOr))
    (set_lexer_state DocDescriptionState ;;;
     parse_description ;;;
     set_lexer_state DocNormal) ;;;
  ok_complete m.

Definition parse_multi_line_union_type : M t DocParseResult :=
  m <- mark TypeMultiLineUnion ;;
  _ <~ list_rest TkDocContinueOr parse_one_line_type ;;
  ok_complete m.

(** [<type> and <true type> or <false type>] *)
Definition parse_conditional (cm : CompleteMarker) : M t DocParseResult :=
  m <- precede cm TypeConditional ;;
  bump ;;;
  _ <~ type_ ;;
  _ <~ expect_token TkOr ;;
  _ <~ type_ ;;
  ok_complete m.

(** One round of the loop of [parse_type]. *)
Definition type_step (cm : CompleteMarker) : M t (CompleteMarker + DocParseResult) :=
  c <- cur ;;
  if c =t TkDocQuestion then cm <- wrap_token cm TypeNullable ;; ret (inl cm)
  else if c =t TkAnd then r <- parse_conditional cm ;; ret (inr r)
  else if c =t TkDots then
    if kind cm =k TypeVariadic then ret (inr (Ok cm))
    else cm <- wrap_token cm TypeVariadic ;; ret (inr (Ok cm))
  else ret (inr (Ok cm)).

Definition parse_type_with : M t DocParseResult :=
  c <- cur ;;
  if c =t TkDocContinueOr then parse_multi_line_union_type
  else
    cm <~ sub_type 0 ;;
    loop_from doc_fuel type_step cm.
End Types.

(** *** The knot *)

(** [types n d]: [parse_sub_type] and [parse_type] at nesting depth [d], for a
    stack on which at most [n] more calls can be nested. *)
Fixpoint types `{Stack} (n d : nat) : (Z -> M t DocParseResult) * M t DocParseResult :=
  match n with
  | 0 => (fun _ => out_of_fuel, out_of_fuel)
  | S n' =>
      let rec := types n' (S d) in
      let sub := parse_sub_type rec.1 rec.2 d in
      (sub, parse_type_with sub rec.2)
  end.

Definition parse_type `{Stack} : M t DocParseResult := (types (S max_nesting) 0).2.

(** ** grammar/doc/tag.rs *)

Section Tags.
Context `{Stack}.

Definition list_of {A} (item : M t (Result A LuaParseError)) : M t (Result unit LuaParseError) :=
  _ <~ item ;; list_rest TkComma item.

(** The description that ends most tags. *)
Definition finish_tag (m : Marker) : M t DocParseResult :=
  set_lexer_state DocDescriptionState ;;;
  parse_description ;;;
  ok_complete m.

(** The start of a tag: the lexer state is set before the tag name is
    consumed. *)
Definition start_tag (st : LuaDocLexerState) (kind : LuaSyntaxKind) : M t Marker :=
  set_lexer_state st ;;;
  m <- mark kind ;;
  bump ;;;
  ret m.

Fixpoint trim_start (text : rstring) : rstring :=
  match text with
  | c :: text' => if is_whitespace c then trim_start text' else text
  | [] => []
  end.

Fixpoint strip_prefix (prefix text : rstring) : option rstring :=
  match prefix, text with
  | [], _ => Some text
  | c :: prefix', d :: text' => if N.eqb c d then strip_prefix prefix' text' else None
  | _ :: _, [] => None
  end.

Definition starts_with_paren (text : rstring) : bool :=
  match text with c :: _ => c =c ")" | [] => false end.

Definition flag_keyword (text : rstring) (keyword : string) : bool :=
  match strip_prefix (str keyword) text with
  | Some stripped => starts_with_paren (trim_start stripped)
  | None => false
  end.

(** [None] is the panic of a slice that is not on a character boundary. *)
Definition is_type_modifier_flag : M t bool :=
  text <- gets origin_text ;;
  start <- gets (fun p => SourceRange.end_offset (current_token_range p)) ;;
  if (blen text <=? start)%nat then ret false
  else
    remaining <- unwrap (skip_bytes start text) ;;
    let trimmed := trim_start remaining in
    ret (flag_keyword trimmed "instance" || flag_keyword trimmed "definition").

Definition parse_tag_simple (kind : LuaSyntaxKind) : M t DocParseResult :=
  m <- mark kind ;;
  bump ;;;
  finish_tag m.

Definition parse_doc_type_flag : M t DocParseResult :=
  m <- mark DocTypeFlag ;;
  bump ;;;
  _ <~ list_of (expect_token TkName) ;;
  _ <~ expect_token TkRightParen ;;
  ok_complete m.

(** [if p.current_token() == token { item(p)?; }] *)
Definition opt {A} (token : LuaTokenKind) (item : M t (Result A LuaParseError))
    : M t (Result unit LuaParseError) :=
  c <- cur ;;
  if c =t token then _ <~ item ;; ret (Ok tt) else ret (Ok tt).

(** The same, when the token is consumed before the item. *)
Definition opt_bump {A} (token : LuaTokenKind) (item : M t (Result A LuaParseError))
    : M t (Result unit LuaParseError) := opt token (bump ;;; item).

Definition generic_decl_list (allow_angle_brackets : bool) : M t DocParseResult :=
  parse_generic_decl_list parse_type allow_angle_brackets.
Definition type_list : M t DocParseResult := parse_type_list parse_type.

Definition parse_tag_class : M t DocParseResult :=
  m <- start_tag DocNormal DocTagClass ;;
  _ <~ opt TkLeftParen parse_doc_type_flag ;;
  _ <~ expect_token TkName ;;
  _ <~ opt TkLt (generic_decl_list true) ;;
  _ <~ opt_bump TkColon type_list ;;
  finish_tag m.

Definition parse_enum_field : M t DocParseResult :=
  m <- mark DocEnumField ;;
  c <- cur ;;
  when (c in_t [TkName; TkString; TkInt]) bump ;;;
  if_token_bump TkDocDetail ;;;
  ok_complete m.

Definition parse_enum_field_list : M t DocParseResult :=
  m <- mark DocEnumFieldList ;;
  _ <~ list_rest TkDocContinueOr parse_enum_field ;;
  ok_complete m.

Definition parse_tag_enum : M t DocParseResult :=
  m <- start_tag DocNormal DocTagEnum ;;
  _ <~ opt TkLeftParen parse_doc_type_flag ;;
  _ <~ expect_token TkName ;;
  _ <~ opt_bump TkColon parse_type ;;
  _ <~ opt TkDocContinueOr parse_enum_field_list ;;
  finish_tag m.

Definition parse_tag_alias : M t DocParseResult :=
  m <- start_tag DocNormal DocTagAlias ;;
  _ <~ opt TkLeftParen parse_doc_type_flag ;;
  _ <~ expect_token TkName ;;
  _ <~ opt TkLt (generic_decl_list true) ;;
  if_token_bump TkDocDetail ;;;
  _ <~ parse_type ;;
  finish_tag m.

(** A dotted name: [while TkDot { bump; if TkName { bump } }] *)
Definition dotted_step (_ : unit) : M t (unit + unit) :=
  c <- cur ;;
  if c =t TkDot then bump ;;; if_token_bump TkName ;;; ret (inl tt) else ret (inr tt).

Definition parse_tag_module : M t DocParseResult :=
  m <- start_tag DocNormal DocTagModule ;;
  c <- cur ;;
  _ <~ (if c =t TkString then bump ;;; ret (Ok tt)
        else if c =t TkName then bump ;;; loop_from doc_fuel dotted_step tt ;;; ret (Ok tt)
        else
          fail_with (syntax_error_from (str "expected " ++ token_name TkString ++ str ", but get "
                                        ++ token_name c))) ;;
  finish_tag m.

(** *** Default values *)

(** The parentheses of a call, balanced; the loop variable is
    [paren_depth]. *)
Definition default_call_step (paren_depth : Z) : M t (Z + Result unit LuaParseError) :=
  c <- cur ;;
  if c =t TkLeftParen then bump ;;; ret (inl (paren_depth + 1)%Z)
  else if c =t TkRightParen then
    bump ;;;
    if (paren_depth - 1 =? 0)%Z then ret (inr (Ok tt)) else ret (inl (paren_depth - 1)%Z)
  else if c =t TkEof then
    r <- doc_fail (str "expect ')' to close default expression") ;; ret (inr r)
  else bump ;;; ret (inl paren_depth).

Definition parse_doc_default_call_value : M t (Result unit LuaParseError) :=
  loop_from doc_fuel default_call_step 0%Z.

Definition parse_doc_default_value : M t DocParseResult :=
  m <- mark DocDefaultValue ;;
  _ <~ expect_token TkDocMatch ;;
  c <- cur ;;
  _ <~ (if c in_t [TkNil; TkTrue; TkFalse; TkInt; TkFloat; TkString] then bump ;;; ret (Ok tt)
        else if c in_t [TkPlus; TkMinus] then
          bump ;;;
          c <- cur ;;
          if c in_t [TkInt; TkFloat] then bump ;;; ret (Ok tt)
          else doc_fail (str "expect numeric default literal value")
        else if c =t TkName then
          bump ;;;
          opt TkLeftParen parse_doc_default_call_value
        else doc_fail (str "expect default literal or expression value")) ;;
  ok_complete m.

Definition opt_default : M t (Result unit LuaParseError) := opt TkDocMatch parse_doc_default_value.

(** *** The other tags *)

(** The name of a field, or a bracketed key. *)
Definition parse_field_key : M t (Result unit LuaParseError) :=
  c <- cur ;;
  if c =t TkName then bump ;;; ret (Ok tt)
  else if c =t TkLeftBracket then
    bump ;;;
    c <- cur ;;
    _ <~ (if c in_t [TkInt; TkString] then bump ;;; ret (Ok tt)
          else _ <~ parse_type ;; ret (Ok tt)) ;;
    expect_token TkRightBracket
  else doc_fail (str "expect field name or '[', but get " ++ token_name c).

Definition parse_tag_field : M t DocParseResult :=
  m <- start_tag DocFieldStart DocTagField ;;
  _ <~ opt TkLeftParen parse_doc_type_flag ;;
  set_lexer_state DocNormal ;;;
  if_token_bump TkDocVisibility ;;;
  _ <~ parse_field_key ;;
  if_token_bump TkDocQuestion ;;;
  _ <~ opt_default ;;
  _ <~ parse_type ;;
  _ <~ opt_default ;;
  finish_tag m.

(** [(instance)] or [(definition)] before a type. *)
Definition opt_type_flag : M t (Result unit LuaParseError) :=
  c <- cur ;;
  flag <- (if c =t TkLeftParen then is_type_modifier_flag else ret false) ;;
  if flag : bool then _ <~ parse_doc_type_flag ;; ret (Ok tt) else ret (Ok tt).

Definition parse_tag_type : M t DocParseResult :=
  m <- start_tag DocNormal DocTagType ;;
  _ <~ opt_type_flag ;;
  _ <~ list_of parse_type ;;
  finish_tag m.

Definition parse_tag_param : M t DocParseResult :=
  m <- start_tag DocNormal DocTagParam ;;
  c <- cur ;;
  _ <~ (if c in_t [TkName; TkDots] then bump ;;; ret (Ok tt)
        else doc_fail (str "expect param name or '...', but get " ++ token_name c)) ;;
  if_token_bump TkDocQuestion ;;;
  _ <~ opt_default ;;
  _ <~ parse_type ;;
  _ <~ opt_default ;;
  finish_tag m.

(** One returned type with its default and its name. *)
Definition parse_return_item : M t (Result unit LuaParseError) :=
  _ <~ parse_type ;;
  _ <~ opt_default ;;
  if_token_bump TkName ;;;
  ret (Ok tt).

Definition parse_tag_return : M t DocParseResult :=
  m <- start_tag DocNormal DocTagReturn ;;
  _ <~ opt_type_flag ;;
  _ <~ list_of parse_return_item ;;
  finish_tag m.

Definition parse_op_type : M t DocParseResult :=
  set_lexer_state DocNormal ;;;
  m <- mark DocOpType ;;
  c <- cur ;;
  _ <~ (if c in_t [TkPlus; TkMinus] then
          bump ;;;
          question <- if_token_bump TkDocQuestion ;;
          if question : bool then ret (Ok tt) else _ <~ parse_type ;; ret (Ok tt)
        else _ <~ parse_type ;; ret (Ok tt)) ;;
  ok_complete m.

Definition parse_tag_return_cast : M t DocParseResult :=
  m <- start_tag DocNormal DocTagReturnCast ;;
  _ <~ expect_token TkName ;;
  _ <~ parse_op_type ;;
  _ <~ opt_bump TkDocElse parse_op_type ;;
  finish_tag m.

Definition parse_tag_generic : M t DocParseResult :=
  m <- start_tag DocNormal DocTagGeneric ;;
  _ <~ generic_decl_list false ;;
  finish_tag m.

Definition parse_tag_see : M t DocParseResult :=
  m <- start_tag DocSee DocTagSee ;;
  _ <~ expect_token TkDocSeeContent ;;
  finish_tag m.

Definition parse_tag_as : M t DocParseResult :=
  m <- start_tag DocNormal DocTagAs ;;
  _ <~ parse_type ;;
  if_token_bump TkLongCommentEnd ;;;
  finish_tag m.

Definition parse_tag_overload : M t DocParseResult :=
  m <- start_tag DocNormal DocTagOverload ;;
  _ <~ parse_fun_type parse_type ;;
  finish_tag m.

(** One round of the loop of [parse_cast_expr]. *)
Definition cast_step (cm : CompleteMarker) : M t (CompleteMarker + CompleteMarker) :=
  c <- cur ;;
  if c =t TkDot then
    index_m <- precede cm IndexExpr ;;
    bump ;;;
    if_token_bump TkName ;;;
    cm <- complete index_m ;;
    ret (inl cm)
  else ret (inr cm).

Definition parse_cast_expr : M t DocParseResult :=
  m <- mark NameExpr ;;
  bump ;;;
  cm <- complete m ;;
  cm <- loop_from doc_fuel cast_step cm ;;
  ret (Ok cm).

Definition parse_tag_cast : M t DocParseResult :=
  m <- start_tag DocCastExpr DocTagCast ;;
  _ <~ opt TkName parse_cast_expr ;;
  _ <~ list_of parse_op_type ;;
  finish_tag m.

(** A tag without a description, whose argument is one token. *)
Definition parse_tag_argument (st : LuaDocLexerState) (kind : LuaSyntaxKind) (token : LuaTokenKind)
    : M t DocParseResult :=
  m <- start_tag st kind ;;
  _ <~ expect_token token ;;
  ok_complete m.

Definition parse_tag_source : M t DocParseResult := parse_tag_argument DocSource DocTagSource TKDocPath.
Definition parse_tag_namespace : M t DocParseResult := parse_tag_argument DocNormal DocTagNamespace TkName.
Definition parse_tag_using : M t DocParseResult := parse_tag_argument DocNormal DocTagUsing TkName.
Definition parse_tag_schema : M t DocParseResult := parse_tag_argument DocSource DocTagSchema TKDocPath.

Definition parse_diagnostic_code_list : M t DocParseResult :=
  m <- mark DocDiagnosticCodeList ;;
  _ <~ list_of (expect_token TkName) ;;
  ok_complete m.

Definition parse_tag_diagnostic : M t DocParseResult :=
  m <- start_tag DocNormal DocTagDiagnostic ;;
  _ <~ expect_token TkName ;;
  _ <~ opt_bump TkColon parse_diagnostic_code_list ;;
  ok_complete m.

Definition parse_version : M t DocParseResult :=
  m <- mark DocVersion ;;
  c <- cur ;;
  when (c in_t [TkLt; TkGt]) bump ;;;
  if_token_bump TkName ;;;
  _ <~ expect_token TkDocVersionNumber ;;
  ok_complete m.

Definition parse_tag_version : M t DocParseResult :=
  m <- start_tag DocVersionState DocTagVersion ;;
  _ <~ list_of parse_version ;;
  finish_tag m.

Definition parse_tag_operator : M t DocParseResult :=
  m <- start_tag DocNormal DocTagOperator ;;
  _ <~ expect_token TkName ;;
  _ <~ opt_bump TkLeftParen (_ <~ type_list ;; expect_token TkRightParen) ;;
  _ <~ opt_bump TkColon parse_type ;;
  finish_tag m.

Definition parse_tag_mapping : M t DocParseResult :=
  m <- start_tag DocNormal DocTagMapping ;;
  _ <~ expect_token TkName ;;
  finish_tag m.

(** A tag without a description and with an optional name. *)
Definition parse_tag_opt_name (kind : LuaSyntaxKind) : M t DocParseResult :=
  m <- start_tag DocNormal kind ;;
  if_token_bump TkName ;;;
  ok_complete m.

Definition parse_tag_meta : M t DocParseResult := parse_tag_opt_name DocTagMeta.
Definition parse_tag_realm : M t DocParseResult := parse_tag_opt_name DocTagRealm.

Definition parse_tag_fileparam : M t DocParseResult :=
  m <- start_tag DocNormal DocTagFileparam ;;
  _ <~ expect_token TkName ;;
  _ <~ parse_type ;;
  finish_tag m.

Definition parse_tag_outparam : M t DocParseResult :=
  m <- start_tag DocNormal DocTagOutparam ;;
  _ <~ expect_token TkName ;;
  _ <~ list_rest TkDot (expect_token TkName) ;;
  _ <~ parse_type ;;
  finish_tag m.

Definition parse_tag_export : M t DocParseResult :=
  m <- start_tag DocNormal DocTagExport ;;
  if_token_bump TkName ;;;
  finish_tag m.

Definition parse_tag_language : M t DocParseResult :=
  m <- start_tag DocNormal DocTagLanguage ;;
  _ <~ expect_token TkName ;;
  finish_tag m.

(** *** Attributes *)

Definition parse_type_attribute : M t DocParseResult :=
  m <- mark TypeAttribute ;;
  _ <~ expect_token TkLeftParen ;;
  _ <~ parse_typed_params parse_type ;;
  _ <~ expect_token TkRightParen ;;
  ok_complete m.

Definition parse_tag_attribute : M t DocParseResult :=
  m <- start_tag DocNormal DocTagAttribute ;;
  _ <~ expect_token TkName ;;
  _ <~ parse_type_attribute ;;
  finish_tag m.

Definition parse_attribute_arg : M t DocParseResult :=
  m <- mark LiteralExpr ;;
  c <- cur ;;
  _ <~ (if c in_t [TkInt; TkFloat; TkComplex; TkNil; TkTrue; TkFalse; TkDots; TkString; TkLongString]
        then bump ;;; ret (Ok tt)
        else doc_fail (str "Expected attribute argument value")) ;;
  ok_complete m.

(** One round of the loop over the arguments; a comma before [)] ends it. *)
Definition attribute_arg_step (_ : unit) : M t (unit + Result unit LuaParseError) :=
  c <- cur ;;
  if c =t TkEof then ret (inr (Ok tt)) else
  r <- parse_attribute_arg ;;
  match r with
  | Err e => ret (inr (Err e))
  | Ok _ =>
      comma <- if_token_bump TkComma ;;
      if negb comma then ret (inr (Ok tt))
      else
        c <- cur ;;
        if c =t TkRightParen then ret (inr (Ok tt)) else ret (inl tt)
  end.

Definition parse_attribute_arg_list : M t DocParseResult :=
  m <- mark DocAttributeCallArgList ;;
  bump ;;;
  c <- cur ;;
  _ <~ (if negb (c =t TkRightParen) then loop_from doc_fuel attribute_arg_step tt else ret (Ok tt)) ;;
  _ <~ expect_token TkRightParen ;;
  ok_complete m.

Definition parse_doc_attribute_use : M t DocParseResult :=
  m <- mark DocAttributeUse ;;
  _ <~ parse_type ;;
  _ <~ opt TkLeftParen parse_attribute_arg_list ;;
  ok_complete m.

Definition attribute_use_step (_ : unit) : M t (unit + Result unit LuaParseError) :=
  c <- cur ;;
  if c =t TkName then
    r <- parse_doc_attribute_use ;;
    match r with
    | Err e => ret (inr (Err e))
    | Ok _ =>
        comma <- if_token_bump TkComma ;;
        if comma : bool then ret (inl tt) else ret (inr (Ok tt))
    end
  else ret (inr (Ok tt)).

Definition parse_tag_attribute_use (allow_description : bool) : M t DocParseResult :=
  m <- mark DocTagAttributeUse ;;
  bump ;;;
  _ <~ loop_from doc_fuel attribute_use_step tt ;;
  _ <~ expect_token TkRightBracket ;;
  if allow_description then finish_tag m
  else
    set_lexer_state DocNormal ;;;
    ok_complete m.

Definition parse_tag_call_generic : M t DocParseResult :=
  m <- start_tag DocNormal DocTagCallGeneric ;;
  _ <~ type_list ;;
  _ <~ expect_token TkGt ;;
  ok_complete m.

(** *** The dispatch *)

Definition parse_tag_detail : M t DocParseResult :=
  c <- cur ;;
  match c with
  | TkTagClass | TkTagInterface => parse_tag_class
  | TkTagEnum => parse_tag_enum
  | TkTagAlias => parse_tag_alias
  | TkTagField => parse_tag_field
  | TkTagType => parse_tag_type
  | TkTagParam => parse_tag_param
  | TkTagReturn => parse_tag_return
  | TkTagReturnCast => parse_tag_return_cast
  | TkTagModule => parse_tag_module
  | TkTagSee => parse_tag_see
  | TkTagGeneric => parse_tag_generic
  | TkTagAs => parse_tag_as
  | TkTagOverload => parse_tag_overload
  | TkTagCast => parse_tag_cast
  | TkTagSource => parse_tag_source
  | TkTagDiagnostic => parse_tag_diagnostic
  | TkTagVersion => parse_tag_version
  | TkTagOperator => parse_tag_operator
  | TkTagMapping => parse_tag_mapping
  | TkTagNamespace => parse_tag_namespace
  | TkTagUsing => parse_tag_using
  | TkTagMeta => parse_tag_meta
  | TkTagRealm => parse_tag_realm
  | TkTagFileparam => parse_tag_fileparam
  | TkTagOutparam => parse_tag_outparam
  | TkTagExport => parse_tag_export
  | TkLanguage => parse_tag_language
  | TkTagAttribute => parse_tag_attribute
  | TkDocAttributeUse => parse_tag_attribute_use true
  | TkCallGeneric => parse_tag_call_generic
  | TKTagSchema => parse_tag_schema
  | TkTagVisibility => parse_tag_simple DocTagVisibility
  | TkTagReadonly => parse_tag_simple DocTagReadonly
  | TkTagDeprecated => parse_tag_simple DocTagDeprecated
  | TkTagAsync => parse_tag_simple DocTagAsync
  | TkTagNodiscard => parse_tag_simple DocTagNodiscard
  | TkTagOther => parse_tag_simple DocTagOther
  | _ => ret (Ok CompleteMarker_empty)
  end.

Definition parse_tag : M t unit :=
  level <- gets get_mark_level ;;
  r <- parse_tag_detail ;;
  match r with
  | Ok _ => ret tt
  | Err error =>
      push_error error ;;;
      current_level <- gets get_mark_level ;;
      if (level <=? current_level)%nat then push_node_ends (current_level - level) else panic
  end.

Definition parse_long_tag : M t unit := parse_tag.

(** ** grammar/doc/mod.rs *)

(** The arm for a line that starts with [--] or [---]. *)
Definition parse_normal_start : M t unit :=
  set_lexer_state DocNormalDescription ;;;
  m <- mark DocDescription ;;
  bump ;;;
  if_token_bump TkWhitespace ;;;
  c <- cur ;;
  m <- (if c in_t [TkDocRegion; TkDocEndRegion] then
          undo m ;;;
          bump ;;;
          mark DocDescription
        else ret m) ;;
  bump_while_in [TkDocDetail; TkEndOfLine; TkWhitespace; TkDocContinue; TkNormalStart] ;;;
  complete m ;;;
  ret tt.

Definition parse_doc_line : M t unit :=
  c <- cur ;;
  if c =t TkDocStart then
    set_lexer_state DocTag ;;; bump ;;; parse_tag
  else if c =t TkDocLongStart then
    set_lexer_state DocTag ;;; bump ;;; parse_long_tag
  else if c =t TkNormalStart then parse_normal_start
  else if c =t TkLongCommentStart then
    set_lexer_state DocLongDescription ;;; bump ;;; parse_description
  else bump.

(** One round of the [while] of [parse_docs]. *)
Definition docs_step (_ : unit) : M t (unit + unit) :=
  c <- cur ;;
  if c =t TkEof then ret (inr tt) else
  parse_doc_line ;;;
  unread <- gets (fun p => negb (DocLexer.is_invalid (lexer p))
                           && negb (current_token p in_t [TkDocStart; TkDocLongStart])) ;;
  (if unread : bool then bump_to_end else set_lexer_state DocInit) ;;;
  ret (inl tt).

Definition parse_docs : M t unit := loop_from doc_fuel docs_step tt.

Definition parse_comment : M t unit :=
  m <- mark Comment ;;
  parse_docs ;;;
  complete m ;;;
  ret tt.

(** [LuaDocParser::parse]: the Lua parser is borrowed for the time of the
    parse. *)
Definition parse (tokens : list LuaTokenData) : M LuaParser unit := fun lua_parser =>
  match (init ;;; parse_comment) (new lua_parser tokens) with
  | Done (_, p) => Done (tt, DocParser.lua_parser p)
  | Panic => Panic
  | OutOfFuel => OutOfFuel
  end.

(** The parser of comment groups that the Lua parser calls. *)
#[export] Instance doc_comments : DocComments := {| parse_doc_comment := parse |}.
End Tags.
End Grammar.
End DocGrammar.
