(* ===== verification/DocGrammarRules.v ===== *)
(** * Rules for the functions of the doc grammar

    The assertion of [Discipline.v], for the doc parser: what its steps and the
    helpers of [grammar/doc] do to it, and the tactics that drive the proofs
    about the grammar.  A function that gives up returns its error with its
    markers open ([Lost]); only [parse_tag] reports it. *)

From S2P Require Import Prelude Kinds Text LuaLexer DocLexer DocLexerProofs Marker Discipline Rules.
From S2P Require Import LuaParser DocParser LuaParserProofs DocParserProofs LuaGrammar DocGrammar.
Import DocParser DocGrammar.
Local Open Scope prog_scope.

Section Rules.
Context `{UnicodeTables}.
Context {txt pre post : rstring} {ts : list LuaTokenData} {parts : list rstring} {lr : LuaRest}.
Context {G : doc_group txt pre post ts parts lr}.
Implicit Types (b s : t).

Abbreviation inv := (@doc_inv txt pre ts parts lr).
Abbreviation pos := (@doc_pos pre parts).
Abbreviation Ok_ := (OkState inv).
Abbreviation At_ := (At inv pos).
Abbreviation Lost_ := (Lost (inv := inv) (pos := pos)).
Abbreviation Keeps := (Rules.Keeps inv pos).
Abbreviation res_post := (Rules.res_post (inv := inv) (pos := pos)).
Abbreviation type_post := (Rules.type_post (inv := inv) (pos := pos)).

Lemma doc_current_rest s s' : rest s' = rest s -> current_token s' = current_token s.
Proof. intros Hr. by apply rest_parts in Hr as (_ & _ & _ & Hc & _). Qed.

Lemma doc_at_start s : Ok_ s -> At_ s false [] Any 0 s.
Proof. apply Rules.At_start. Qed.

Lemma doc_mark_first kind s (Q : Marker -> t -> Prop) :
  Ok_ s -> (kind =k SkNone) = false -> (node_class kind = CBlock -> false = true) ->
  (forall m s', rest s' = rest s -> errors_of s' = errors_of s ->
     get_events s' = get_events s ++ [NodeStart kind 0] -> position m = length (get_events s) ->
     At_ s false [(position m, node_class kind)] Any 0 s' -> Q m s') ->
  wp (mark kind) Q s.
Proof. apply wp_mark_first. Qed.

(** ** Steps of the parser *)

Definition some_tokens (tl : list (LuaTokenKind * SourceRange)) : Status :=
  match tl with [] => Any | _ => Tokens end.

Lemma At_stepped b g ms q j s s' tl n :
  At_ b g ms q j s -> Ok_ s' -> Stepped s s' tl -> at_pos pos s + n <= at_pos pos s' ->
  At_ b g ms (join q (some_tokens tl)) (j + n) s'.
Proof.
  intros HA Hok [He Hl Hr] Hp.
  eapply (At_frame _ _ _ _ _ _ _ _ _ false s); [exact HA| |done].
  eapply AtF_weaken; [by eapply AtF_eat| |done]. intros f ->. by destruct tl.
Qed.

Lemma At_same b g ms q j s s' :
  At_ b g ms q j s -> Ok_ s' -> Stepped s s' [] -> at_pos pos s' = at_pos pos s -> At_ b g ms q j s'.
Proof.
  intros HA Hok HS Hp. assert (at_pos pos s + 0 <= at_pos pos s') as Hle by lia.
  pose proof (At_stepped _ _ _ _ _ _ _ _ _ HA Hok HS Hle) as HA'.
  simpl in HA'. by rewrite join_Any, Nat.add_0_r in HA'.
Qed.

Lemma doc_wp_bump b g ms q j s (Q : unit -> t -> Prop) :
  At_ b g ms q j s -> (current_token s =t TkEof) = false ->
  (forall s' tl, Stepped s s' tl -> tl <> [] -> At_ b g ms (join q Tokens) (j + 1) s' -> Q tt s') ->
  wp bump Q s.
Proof.
  intros HA Hc HQ. apply (doc_wp_bump_core (G := G)); [by eapply At_ok|]. intros s' tl Hok HS Hp Ht.
  rewrite Hc in Hp. specialize (Ht Hc). apply (HQ s' tl HS Ht).
  pose proof (At_stepped _ _ _ _ _ _ _ _ _ HA Hok HS Hp) as HA'. by destruct tl.
Qed.

Lemma doc_keeps_bump s : Keeps 0 bump s.
Proof.
  intros b g ms q j HA. apply (doc_wp_bump_core (G := G)); [by eapply At_ok|]. intros s' tl Hok HS Hp _.
  eapply At_weaken; [eapply (At_stepped _ _ _ _ _ _ _ _ 0 HA Hok HS); lia|apply rank_join_l|lia].
Qed.

Lemma wp_set_lexer_state st b g ms q j s (Q : unit -> t -> Prop) :
  At_ b g ms q j s ->
  (forall s', (st <> DocDescriptionState -> (current_token s' =t TkEof) = (current_token s =t TkEof)) ->
     At_ b g ms q j s' -> Q tt s') ->
  wp (set_lexer_state st) Q s.
Proof.
  intros HA HQ. apply (wp_set_lexer_state_core (G := G)); [by eapply At_ok|]. intros s' tl Hok HS Hp Hc.
  apply HQ; [done|].
  eapply At_weaken; [eapply (At_stepped _ _ _ _ _ _ _ _ 0 HA Hok HS); lia|apply rank_join_l|lia].
Qed.

Lemma keeps_set_lexer_state st s : Keeps 0 (set_lexer_state st) s.
Proof.
  intros b g ms q j HA. eapply wp_set_lexer_state; [exact HA|]. intros s' _ HA'.
  eapply At_weaken; [exact HA'|lia|lia].
Qed.

Lemma wp_set_parser_state st b g ms q j s (Q : unit -> t -> Prop) :
  At_ b g ms q j s ->
  (forall s', current_token s' = current_token s -> At_ b g ms q j s' -> Q tt s') ->
  wp (set_parser_state st) Q s.
Proof.
  intros HA HQ. apply wp_modify, HQ; [done|].
  eapply At_same; [exact HA| |by apply Stepped_same|done]. by destruct (at_ok _ _ _ _ _ _ _ _ HA) as [[] ?].
Qed.

Lemma keeps_set_parser_state st s : Keeps 0 (set_parser_state st) s.
Proof.
  intros b g ms q j HA. eapply wp_set_parser_state; [exact HA|]. intros s' _ HA'.
  eapply At_weaken; [exact HA'|lia|lia].
Qed.

Lemma wp_set_kind_of_token kind b g ms q j s (Q : unit -> t -> Prop) :
  At_ b g ms q j s -> (current_token s =t TkEof) = false -> doc_kind kind = true ->
  (forall s', current_token s' = kind -> At_ b g ms q j s' -> Q tt s') ->
  wp (set_current_token_kind kind) Q s.
Proof.
  intros HA Hc Hk HQ. apply wp_modify, HQ; [done|].
  destruct (ok_put_kind s kind (at_ok _ _ _ _ _ _ _ _ HA) Hc Hk) as [Hok Hp].
  eapply At_same; [exact HA|done|by apply Stepped_same|done].
Qed.

Lemma wp_push_error e b g ms q j s (Q : unit -> t -> Prop) :
  At_ b g ms q j s -> (forall s', rest s' = rest s -> At_ b g ms Dirty j s' -> Q tt s') ->
  wp (push_error e) Q s.
Proof. intros HA HQ. apply wp_modify, HQ; [done|]. by eapply At_error. Qed.

Lemma wp_report e b g j s (Q : unit -> t -> Prop) :
  Lost_ b j s -> (forall s', At_ b g [] Dirty j s' -> Q tt s') -> wp (push_error e) Q s.
Proof. intros HL HQ. apply wp_modify, HQ. by eapply Lost_error. Qed.

Lemma wp_text {B} (k : rstring -> M t B) b g ms q j s (Q : B -> t -> Prop) :
  At_ b g ms q j s -> (forall w, wp (k w) Q s) -> wp (bind current_token_text k) Q s.
Proof.
  intros HA HQ. apply wp_bind, (wp_current_token_text (G := G)); [by eapply At_ok|]. apply HQ.
Qed.

(** ** Loops *)

Lemma pos_le s : Ok_ s -> at_pos pos s <= doc_end s.
Proof. apply (ok_pos_le (G := G)). Qed.

Lemma end_same b s : Ok_ b -> Ok_ s -> doc_end s = doc_end b.
Proof. apply (ok_end (G := G)). Qed.

Lemma fuel_enough s : Ok_ s -> doc_end s < doc_fuel s.
Proof. unfold doc_fuel. lia. Qed.

Lemma doc_keeps_loop {A B} (body : A -> M t (A + B)) a s :
  (forall a s, Ok_ s -> wp (body a) (fun r s' =>
     At_ s false [] Any (match r with inl _ => 1 | inr _ => 0 end) s') s) ->
  Keeps 0 (loop_from doc_fuel body a) s.
Proof. apply (Rules.keeps_loop doc_fuel doc_end); [apply pos_le|apply end_same|apply fuel_enough]. Qed.

Lemma doc_wp_at_loop {A B} (body : A -> M t (A + B)) b g ms q j a s (Q : B -> t -> Prop) :
  (forall a s1 k, j <= k -> At_ b g ms q k s1 -> wp (body a) (fun r s' =>
     match r with
     | inl _ => At_ b g ms q (k + 1) s'
     | inr r => Q r s'
     end) s1) ->
  At_ b g ms q j s -> wp (loop_from doc_fuel body a) Q s.
Proof. apply (Rules.wp_at_loop doc_fuel doc_end); [apply pos_le|apply end_same|apply fuel_enough]. Qed.

(** A loop whose rounds eat, and that may end at once. *)
Lemma wp_first_loop {A B} (body : A -> M t (A + B)) a s (Q : B -> t -> Prop) :
  (forall a s1, Ok_ s1 -> s1 = s \/ At_ s false [] Tokens 0 s1 -> wp (body a) (fun r s' =>
     match r with
     | inl _ => At_ s1 false [] Tokens 1 s'
     | inr r => Q r s'
     end) s1) ->
  Ok_ s -> wp (loop_from doc_fuel body a) Q s.
Proof.
  intros Hbody Hs.
  apply (wp_pos_loop (pos := pos) body (fun _ s1 => Ok_ s1 /\ (s1 = s \/ At_ s false [] Tokens 0 s1))
           doc_fuel (doc_end s)).
  - intros _ s1 [H1 _]. rewrite <-(end_same s s1) by done. by apply pos_le.
  - intros a1 s1 [H1 HI]. eapply wp_mono; [by apply Hbody|]. intros [a2|r] s2 Hr; [|done].
    pose proof (At_moved _ _ _ _ _ _ Hr). split; [|lia]. split; [by eapply At_ok|]. right.
    destruct HI as [->|HA]; [eapply At_weaken; [exact Hr|done|lia]|].
    eapply At_weaken; [exact (At_frame _ _ _ _ _ _ _ _ _ false _ _ HA Hr ltac:(done))|done|lia].
  - split; [done|by left].
  - pose proof (fuel_enough s Hs). lia.
Qed.

(** A loop of a function with a result: every round moves on, or ends it. *)
Lemma res_loop {A B E} (body : A -> M t (A + Result B E)) a s :
  (forall a s, Ok_ s -> wp (body a) (fun r s' =>
     match r with
     | inl _ => At_ s false [] Any 1 s'
     | inr r => res_post Any 0 s r s'
     end) s) ->
  Ok_ s -> wp (loop_from doc_fuel body a) (res_post Any 0 s) s.
Proof.
  intros Hbody Hs. eapply (doc_wp_at_loop _ s false [] Any 0); [|by apply doc_at_start].
  intros a1 s1 k Hk HA. eapply wp_mono; [by eapply Hbody, At_ok|].
  intros [a2|[r|e]] s2 Hr; simpl in Hr.
  - by apply (At_frame _ _ _ _ _ _ _ _ _ _ _ _ HA Hr).
  - simpl. eapply At_weaken; [by apply (At_frame _ _ _ _ _ _ _ _ _ _ _ _ HA Hr)|simpl; lia|lia].
  - simpl. eapply Lost_weaken; [by eapply Lost_frame|lia].
Qed.

Lemma doc_wp_expr_loop {A B} (cm_of : A -> CompleteMarker) (body : A -> M t (A + B)) b j a s
    (Q : B -> t -> Prop) :
  (forall a s1 k, j <= k -> Expr inv pos b k (cm_of a) s1 -> wp (body a) (fun r s' =>
     match r with
     | inl a' => Expr inv pos b (k + 1) (cm_of a') s'
     | inr r => Q r s'
     end) s1) ->
  Expr inv pos b j (cm_of a) s -> wp (loop_from doc_fuel body a) Q s.
Proof.
  apply (Rules.wp_expr_loop doc_fuel doc_end); [apply pos_le|apply end_same|apply fuel_enough].
Qed.

(** ** The helpers of grammar/doc/mod.rs *)

Lemma doc_wp_cur (Q : LuaTokenKind -> t -> Prop) s : Q (current_token s) s -> wp cur Q s.
Proof. exact id. Qed.

Lemma not_eof_token token c : (c =t token) = true -> (token =t TkEof) = false -> (c =t TkEof) = false.
Proof. intros Hc. by apply token_eqb_eq in Hc as ->. Qed.

Lemma fail_res {A} f b g ms q j s q' n :
  At_ b g ms q j s -> wp (fail_with (A := A) f) (res_post q' n b) s.
Proof. intros HA. apply wp_bind, wp_gets, wp_ret. simpl. eapply Lost_weaken; [by eapply At_Lost|lia]. Qed.

Lemma fail_type f b g ms q j s :
  At_ b g ms q j s -> wp (fail_with f) (type_post b) s.
Proof. intros HA. apply wp_bind, wp_gets, wp_ret. simpl. eapply Lost_weaken; [by eapply At_Lost|lia]. Qed.

Lemma expect_token_res token s :
  Ok_ s -> (token =t TkEof) = false -> wp (expect_token token) (res_post Tokens 1 s) s.
Proof.
  intros Hok Ht. pose proof (doc_at_start s Hok) as HA.
  apply wp_bind, doc_wp_cur. destruct (current_token s =t token) eqn:Hc.
  - apply wp_bind. eapply doc_wp_bump; [exact HA|by eapply not_eof_token|]. intros s' tl _ _ HA'. by apply wp_ret.
  - by eapply fail_res.
Qed.

Lemma doc_wp_if_token_bump token b g ms q j s (Q : bool -> t -> Prop) :
  At_ b g ms q j s -> (token =t TkEof) = false ->
  ((current_token s =t token) = true -> forall s', At_ b g ms (join q Tokens) (j + 1) s' -> Q true s') ->
  ((current_token s =t token) = false -> Q false s) ->
  wp (if_token_bump token) Q s.
Proof.
  intros HA Ht HQ HQ'. apply wp_bind, doc_wp_cur. destruct (current_token s =t token) eqn:Hc.
  - apply wp_bind. eapply doc_wp_bump; [exact HA|by eapply not_eof_token|]. intros s' tl _ _ HA'.
    apply wp_ret. by apply HQ.
  - apply wp_ret. by apply HQ'.
Qed.

Lemma doc_keeps_if_token_bump token s : Keeps 0 (if_token_bump token) s.
Proof.
  apply keeps_gets. apply keeps_if; intros _; [|apply keeps_ret].
  apply keeps_bind0; [apply doc_keeps_bump|]. intros. apply keeps_ret.
Qed.

Lemma complete_type m b q j s :
  Ok_ b -> At_ b false [(position m, COther)] q j s -> rank Tokens <= rank q ->
  wp (ok_complete m) (type_post b) s.
Proof.
  intros Hb HA Hq. apply wp_bind. eapply wp_complete_expr; [exact HA|done|].
  intros cm s' _ _ _ HE. apply wp_ret. apply Expr_Typed; [done|]. by eapply Expr_weaken; [|lia].
Qed.

Lemma complete_res m b q j s :
  Ok_ b -> At_ b false [(position m, COther)] q j s -> rank Tokens <= rank q ->
  wp (ok_complete m) (res_post Any 0 b) s.
Proof.
  intros Hb HA Hq. eapply wp_mono; [by eapply complete_type|]. intros r s' Hr%type_res.
  destruct r; [|done]. eapply At_weaken; [exact Hr|simpl; lia|lia].
Qed.

(** A node that may be empty, in which case it disappears. *)
Lemma wp_complete_any b m c q j kind s (Q : CompleteMarker -> t -> Prop) :
  At_ b false [(position m, c)] q j s -> position m = length (get_events b) ->
  rank Tokens <= rank q \/ get_events s = get_events b ++ [NodeStart kind 0] ->
  (forall cm s', rest s' = rest s -> At_ b false [] Any j s' -> Q cm s') ->
  wp (complete m) Q s.
Proof.
  intros HA Hm [Hq|He] HQ.
  - eapply wp_complete; [exact HA|done|]. intros cm s' Hr _ HA'. apply HQ; [done|].
    eapply At_weaken; [exact HA'|simpl; lia|done].
  - eapply wp_complete_empty; [exact HA|done|done|]. intros cm s' Hr _ HA'. apply HQ; [done|].
    by eapply AtF_weaken.
Qed.

(** Nothing has changed since [b], or something was eaten. *)
Definition Eats b s : Prop := s = b \/ At_ b false [] Tokens 0 s.

Lemma Eats_weaken b j s : At_ b false [] Tokens j s -> Eats b s.
Proof. intros HA. right. eapply At_weaken; [exact HA|done|lia]. Qed.

Lemma wp_eats_bump b s (Q : unit -> t -> Prop) :
  Ok_ b -> Eats b s -> (current_token s =t TkEof) = false ->
  (forall s', Eats b s' -> Q tt s') -> wp bump Q s.
Proof.
  intros Hb HE Hc HQ. assert (exists q, At_ b false [] q 0 s) as [q HA].
  { destruct HE as [->|HE]; eexists; [by apply doc_at_start|exact HE]. }
  eapply doc_wp_bump; [exact HA|done|]. intros s' tl _ _ HA'. apply HQ. right.
  eapply At_weaken; [exact HA'|by destruct q; simpl; lia|lia].
Qed.

Lemma wp_eats_if_token_bump token b s (Q : bool -> t -> Prop) :
  Ok_ b -> Eats b s -> (token =t TkEof) = false ->
  (forall r s', Eats b s' -> Q r s') -> wp (if_token_bump token) Q s.
Proof.
  intros Hb HE Ht HQ. apply wp_bind, doc_wp_cur. destruct (current_token s =t token) eqn:Hc.
  - apply wp_bind. eapply wp_eats_bump; [done|done|by eapply not_eof_token|]. intros s' HE'. by apply wp_ret, HQ.
  - by apply wp_ret, HQ.
Qed.

(** A node that was opened in [b] and may be empty. *)
Lemma wp_complete_eats b m c kind s0 s (Q : CompleteMarker -> t -> Prop) :
  At_ b false [(position m, c)] Any 0 s0 -> get_events s0 = get_events b ++ [NodeStart kind 0] ->
  position m = length (get_events b) -> Eats s0 s ->
  (forall cm s', rest s' = rest s -> At_ b false [] Any 0 s' -> Q cm s') -> wp (complete m) Q s.
Proof.
  intros HA Hev Hm HE HQ.
  assert (exists q j, At_ b false [(position m, c)] q j s /\
    (rank Tokens <= rank q \/ get_events s = get_events b ++ [NodeStart kind 0])) as (q & j & HA1 & Hq).
  { destruct HE as [->|HE]; [by eexists _, _; split; [exact HA|right]|].
    eexists _, _. split; [exact (At_frame _ _ _ _ _ _ _ _ _ false _ _ HA HE ltac:(done))|left; simpl; lia]. }
  eapply wp_complete_any; [exact HA1|done|exact Hq|]. intros cm s' Hr HA2. apply HQ; [done|].
  eapply At_weaken; [exact HA2|done|lia].
Qed.

(** A list that goes on with [separator]. *)
Lemma list_rest_res {A} separator (item : M t (Result A LuaParseError)) s :
  (forall s, Ok_ s -> wp item (res_post Any 0 s) s) -> (separator =t TkEof) = false -> Ok_ s ->
  wp (list_rest separator item)
    (res_post (if current_token s =t separator then Tokens else Any) 0 s) s.
Proof.
  intros Hitem Hsep Hs. apply wp_first_loop; [|done]. intros [] s1 Hok HI.
  pose proof (doc_at_start s1 Hok) as HA.
  assert (forall s', Lost_ s1 0 s' -> Lost_ s 0 s') as HL.
  { destruct HI as [->|HI]; [done|]. intros s' HL. exact (Lost_frame _ _ _ _ _ _ _ _ HI HL). }
  apply wp_bind, doc_wp_cur. destruct (current_token s1 =t separator) eqn:Hc.
  - apply wp_bind. eapply doc_wp_bump; [exact HA|by eapply not_eof_token|]. clear HA. intros s2 tl _ _ HA.
    simpl in HA. apply wp_bind. eapply wp_mono; [eapply Hitem, At_ok, HA|].
    intros [a|e] s3 Hr; simpl in Hr; apply wp_ret.
    + eapply At_weaken; [exact (At_frame _ _ _ _ _ _ _ _ _ false _ _ HA Hr ltac:(done))|done|lia].
    + apply HL. eapply Lost_weaken; [exact (Lost_frame _ _ _ _ _ _ _ _ HA Hr)|lia].
  - apply wp_ret. destruct HI as [->|HI]; simpl.
    + rewrite Hc. by apply doc_at_start.
    + eapply At_weaken; [exact HI|case_match; simpl; lia|lia].
Qed.

Lemma list_rest_any {A} separator (item : M t (Result A LuaParseError)) s :
  (forall s, Ok_ s -> wp item (res_post Any 0 s) s) -> (separator =t TkEof) = false -> Ok_ s ->
  wp (list_rest separator item) (res_post Any 0 s) s.
Proof.
  intros Hitem Hsep Hs. eapply res_weaken; [by apply list_rest_res|case_match; simpl; lia|done].
Qed.

Lemma type_any {E} (m : M t (Result CompleteMarker E)) s :
  wp m (type_post s) s -> wp m (res_post Any 0 s) s.
Proof. intros Hm%wp_type_res. eapply res_weaken; [exact Hm|simpl; lia|done]. Qed.

Lemma expect_any token s :
  Ok_ s -> (token =t TkEof) = false -> wp (expect_token token) (res_post Any 0 s) s.
Proof. intros Hs Ht. eapply res_weaken; [by apply expect_token_res|simpl; lia|lia]. Qed.

Lemma ret_any {A} (a : A) s : Ok_ s -> wp (ret (Ok a) : M t (Result A LuaParseError)) (res_post Any 0 s) s.
Proof. intros Hs. by apply wp_ret, doc_at_start. Qed.

(** [while current in kinds { bump }] *)
Lemma wp_bump_while kinds s (Q : unit -> t -> Prop) :
  (TkEof in_t kinds) = false -> Ok_ s ->
  (forall s', Eats s s' -> Q tt s') -> wp (bump_while_in kinds) Q s.
Proof.
  intros Hk Hs HQ. unfold bump_while_in, while_. apply wp_first_loop; [|done]. intros [] s1 Hok HI.
  pose proof (doc_at_start s1 Hok) as HA.
  apply wp_bind, wp_gets. destruct (current_token s1 in_t kinds) eqn:Hc; [|by apply wp_ret, HQ].
  apply wp_bind. eapply doc_wp_bump; [exact HA|by eapply (not_eof_true (fun c => c in_t kinds))|].
  intros s2 tl _ _ HA'. by apply wp_ret.
Qed.

(** The description of a tag; without text it disappears. *)
Lemma describe_spec kinds s :
  (TkEof in_t kinds) = false -> Ok_ s ->
  wp (m <- mark DocDescription ;; bump_while_in kinds ;;; complete m ;;; ret tt)
    (fun _ s' => At_ s false [] Any 0 s') s.
Proof.
  intros Hk Hs. apply wp_bind. eapply doc_mark_first; [done|done|done|].
  intros m s0 _ _ Hev Hm HA. apply wp_bind, wp_bump_while; [done|by eapply At_ok|]. intros s1 HE.
  apply wp_bind. eapply wp_complete_eats; [exact HA|exact Hev|done|exact HE|]. intros cm s2 _ HA2. by apply wp_ret.
Qed.

Lemma keeps_description s : Keeps 0 parse_description s.
Proof. apply keeps_local. intros Hs. by apply describe_spec. Qed.
End Rules.

(** ** Tactics *)

(** What the functions keep, and what they promise. *)
Create HintDb doc_keeps.
#[export] Hint Resolve doc_keeps_bump keeps_set_lexer_state keeps_set_parser_state doc_keeps_if_token_bump
  keeps_when keeps_ret keeps_description : doc_keeps.
Create HintDb doc.
#[export] Hint Resolve list_rest_any type_any expect_any ret_any : doc.

(** [doc_not_eof]: proves [(current_token s =t TkEof) = false]. *)
Ltac doc_not_eof :=
  first
    [ not_eof_here
    | repeat match goal with
      | H : rest ?s' = rest ?s |- _ =>
          progress rewrite ?(doc_current_rest s s' H) in *
      end; not_eof_here ].
#[export] Hint Extern 2 ((current_token _ =t TkEof) = false) => doc_not_eof : doc.
#[export] Hint Extern 2 ((_ =t TkEof) = false) => reflexivity : doc.

Ltac tidy HA := cbn [join rank Nat.leb fresh closed] in HA.

(** The state in which a function starts. *)
Ltac doc_start :=
  lazymatch goal with
  | HA : At _ _ _ _ _ _ _ ?s |- wp _ _ ?s => idtac
  | Hok : OkState _ ?s |- wp _ _ ?s =>
      let HA := fresh "HA" in pose proof (doc_at_start s Hok) as HA
  end.

(** From an assertion on, only what follows matters. *)
Ltac rebase HA :=
  first
    [ eapply wp_type_tail; [exact HA|]
    | eapply wp_tail; [exact HA| |simpl; lia] ];
  pose proof (At_ok _ _ _ _ _ _ HA); clear HA.

Ltac doc_mark :=
  apply wp_bind;
  lazymatch goal with
  | HA : At _ _ _ _ (_ :: _) _ _ ?s |- wp (mark _) _ ?s =>
      eapply wp_mark_more; [exact HA|reflexivity|discriminate|];
      clear HA; intros ?m ?s ? _ HA
  | |- wp (mark _) _ _ =>
      eapply doc_mark_first; [eassumption|reflexivity|discriminate|];
      let HA := fresh "HA" in intros ?m ?s ? _ _ _ HA
  end;
  match goal with HA : At _ _ _ _ _ _ _ ?s |- wp _ _ ?s =>
    match type of HA with context [node_class ?K] =>
      let c := eval vm_compute in (node_class K) in change (node_class K) with c in HA
    end; tidy HA
  end.

(** A call of a function with a specification. *)
Ltac doc_call :=
  lazymatch goal with
  | |- wp (expect_token _) _ _ =>
      eapply expect_token_res; [assumption|first [reflexivity|assumption]]
  | |- _ => first [apply wp_type_res; solve [eauto with doc] | solve [eauto with doc]]
  end.

(** One statement of a function; [doc_res]: a part of one. *)
Ltac doc_step :=
  lazymatch goal with
  | |- wp (bind cur _) _ _ => apply wp_bind, doc_wp_cur
  | |- wp (bind (gets _) _) _ _ => apply wp_bind, wp_gets
  | |- wp (if ?c then _ else _) _ _ => destruct c eqn:?
  | HA : At _ _ _ _ _ _ _ ?s |- wp (bind (mark _) _) _ ?s =>
      lazymatch type of HA with
      | At _ _ _ _ (_ :: _) _ _ _ => idtac
      | At _ _ ?b _ [] _ _ _ => rebase HA
      end; doc_mark
  | |- wp (bind (mark _) _) _ _ => doc_mark
  | HA : At _ _ _ _ _ _ _ ?s |- wp (bind bump _) _ ?s =>
      first
        [ apply wp_bind; eapply doc_wp_bump; [exact HA|doc_not_eof|];
          clear HA; intros ?s ? _ _ HA; tidy HA
        | eapply wp_keep; [exact HA|apply doc_keeps_bump|]; clear HA; intros [] ?s HA ]
  | HA : At _ _ _ _ _ _ _ ?s |- wp (bind (set_lexer_state _) _) _ ?s =>
      apply wp_bind; eapply wp_set_lexer_state; [exact HA|]; clear HA;
      let Hc := fresh "Hc" in
      intros ?s Hc HA;
      first [ specialize (Hc ltac:(discriminate));
              let Hn := fresh in
              match type of Hc with _ = (?c =t TkEof) =>
                assert ((c =t TkEof) = false) as Hn by doc_not_eof; rewrite Hn in Hc
              end
            | clear Hc ]
  | HA : At _ _ _ _ _ _ _ ?s |- wp (bind (set_parser_state _) _) _ ?s =>
      apply wp_bind; eapply wp_set_parser_state; [exact HA|]; clear HA; intros ?s ? HA
  | HA : At _ _ _ _ _ _ _ ?s |- wp (bind current_token_text _) _ ?s =>
      eapply wp_text; [exact HA|]; intros ?w
  | HA : At _ _ _ _ _ _ _ ?s |- wp (bind (complete _) _) _ ?s =>
      apply wp_bind; eapply wp_complete; [exact HA|simpl; lia|];
      clear HA; intros ?cm ?s ? _ HA; tidy HA
  | HA : At _ _ _ _ _ _ _ ?s |- wp (@bind _ ?T _ _ _) _ ?s =>
      lazymatch eval hnf in T with
      | Result _ _ =>
          eapply wp_call; [exact HA
            |pose proof (At_ok _ _ _ _ _ _ HA); clear HA; doc_res
            |clear HA; intros ? ?s HA; tidy HA
            |clear HA; intros ?e ?s ?HL]
      | _ =>
          eapply wp_keep; [exact HA|solve [eauto with doc_keeps]|];
          clear HA; intros ? ?s HA; cbv beta
      end
  | HA : At _ _ _ _ _ _ _ ?s |- wp (bind_result _ _) _ ?s =>
      eapply wp_try; [exact HA
        |pose proof (At_ok _ _ _ _ _ _ HA); clear HA; doc_res
        |clear HA; intros ? ?s HA; tidy HA
        |intros ?e ?s ?HL; exact HL]
  | HA : At _ _ _ _ _ _ _ ?s |- wp (fail_with _) (Rules.type_post _) ?s => eapply fail_type; exact HA
  | HA : At _ _ _ _ _ _ _ ?s |- wp (doc_fail _) (Rules.type_post _) ?s => eapply fail_type; exact HA
  | HA : At _ _ _ _ _ _ _ ?s |- wp (fail_with _) _ ?s => eapply fail_res; exact HA
  | HA : At _ _ _ _ _ _ _ ?s |- wp (doc_fail _) _ ?s => eapply fail_res; exact HA
  | HA : At _ _ _ _ _ _ _ ?s |- wp (ok_complete _) _ ?s =>
      first [eapply complete_type; [eassumption|exact HA|simpl; lia]
            |eapply complete_res; [eassumption|exact HA|simpl; lia]]
  | HL : Lost _ _ ?s |- wp (ret _) _ ?s =>
      apply wp_ret; eapply Lost_weaken; [exact HL|lia]
  | HA : At _ _ _ _ _ _ _ ?s |- wp (ret _) _ ?s =>
      apply wp_ret; eapply At_weaken; [exact HA|simpl; lia|lia]
  | HA : At _ _ _ _ [] _ _ ?s |- wp _ (Rules.type_post _) ?s =>
      eapply wp_type_tail; [exact HA|]; pose proof (At_ok _ _ _ _ _ _ HA); clear HA; solve [eauto with doc]
  | HA : At _ _ _ _ [] _ _ ?s |- wp _ _ ?s =>
      eapply wp_tail; [exact HA|pose proof (At_ok _ _ _ _ _ _ HA); clear HA; doc_call|simpl; lia]
  | |- wp _ (Rules.type_post ?s) ?s => solve [eauto with doc]
  end
with doc_res :=
  first
    [ doc_call
    | match goal with |- wp _ (Rules.res_post ?q ?n _) _ => unify q Tokens; unify n 0 end;
      solve [doc_start; repeat doc_step]
    | match goal with |- wp _ (Rules.res_post ?q ?n _) _ => unify q Any; unify n 0 end;
      solve [doc_start; repeat doc_step] ].
Ltac doc_steps := repeat doc_step.
