(* ===== verification/DocTypeProofs.v ===== *)
(** * Doc types *)

From S2P Require Import Prelude Kinds Text LuaLexer DocLexer DocLexerProofs Marker Discipline Rules.
From S2P Require Import LuaParser DocParser LuaParserProofs DocParserProofs LuaGrammar DocGrammar.
From S2P Require Import DocGrammarRules.
Import DocParser DocGrammar.
Local Open Scope prog_scope.

Section Types.
Context `{UnicodeTables}.
Context {txt pre post : rstring} {ts : list LuaTokenData} {parts : list rstring} {lr : LuaRest}.
Context {G : doc_group txt pre post ts parts lr}.
Implicit Types (b s : t).

Abbreviation inv := (@doc_inv txt pre ts parts lr).
Abbreviation pos := (@doc_pos pre parts).
Abbreviation Ok_ := (OkState inv).
Abbreviation At_ := (At inv pos).
Abbreviation res_post := (Rules.res_post (inv := inv) (pos := pos)).
Abbreviation type_post := (Rules.type_post (inv := inv) (pos := pos)).

Variable sub_type : Z -> M t DocParseResult.
Variable type_ : M t DocParseResult.
Hypothesis Hsub : forall limit s, Ok_ s -> wp (sub_type limit) (type_post s) s.
Hypothesis Htype : forall s, Ok_ s -> wp type_ (type_post s) s.
#[local] Hint Resolve Hsub Htype : doc.

Lemma parse_one_token_spec kind s :
  Ok_ s -> (current_token s =t TkEof) = false -> (kind =k SkNone) = false -> node_class kind = COther ->
  wp (parse_one_token kind) (type_post s) s.
Proof.
  intros Hok Hc Hk Hn. unfold parse_one_token. apply wp_bind.
  eapply doc_mark_first; [done|done|by rewrite Hn|]. rewrite Hn. intros m s0 Hr _ _ _ HA. doc_steps.
Qed.

Lemma parse_tuple_type_spec s :
  Ok_ s -> (current_token s =t TkEof) = false -> wp (parse_tuple_type type_) (type_post s) s.
Proof.
  intros Hok Hc. unfold parse_tuple_type. doc_steps.
Qed.

Lemma parse_infer_type_spec s :
  Ok_ s -> (current_token s =t TkEof) = false -> wp parse_infer_type (type_post s) s.
Proof.
  intros Hok Hc. unfold parse_infer_type. doc_step. apply wp_bind.
  eapply wp_set_kind_of_token; [exact HA|doc_not_eof|done|]. clear HA. intros s1 Hc1 HA.
  assert ((current_token s1 =t TkEof) = false) by by rewrite Hc1. doc_steps.
Qed.

Lemma parse_name_type_spec s :
  Ok_ s -> (current_token s =t TkEof) = false -> wp parse_name_type (type_post s) s.
Proof. intros. by apply parse_one_token_spec. Qed.
#[local] Hint Resolve parse_name_type_spec parse_tuple_type_spec parse_infer_type_spec : doc.

Lemma parse_type_list_spec s : Ok_ s -> wp (parse_type_list type_) (type_post s) s.
Proof. intros Hok. unfold parse_type_list. doc_steps. Qed.

Lemma parse_opt_colon_type_spec s : Ok_ s -> wp (parse_opt_colon_type type_) (res_post Any 0 s) s.
Proof. intros Hok. unfold parse_opt_colon_type. doc_start. doc_steps. Qed.
#[local] Hint Resolve parse_opt_colon_type_spec : doc.

Lemma parse_mapped_modifier_spec keyword otherwise s :
  (keyword =t TkEof) = false -> Ok_ s -> wp otherwise (res_post Any 0 s) s ->
  wp (parse_mapped_modifier keyword otherwise) (res_post Any 0 s) s.
Proof. intros Hk Hok Ho. unfold parse_mapped_modifier. doc_start. doc_steps. Qed.
#[local] Hint Resolve parse_mapped_modifier_spec : doc.

Lemma parse_mapped_key_spec s : Ok_ s -> wp (parse_mapped_key type_) (type_post s) s.
Proof.
  intros Hok. unfold parse_mapped_key. doc_steps.
Qed.
#[local] Hint Resolve parse_type_list_spec parse_mapped_key_spec : doc.

Lemma parse_mapped_type_spec b m j s :
  Ok_ b -> At_ b false [(position m, COther)] Tokens j s ->
  wp (parse_mapped_type type_ m) (type_post b) s.
Proof.
  intros Hok HA. unfold parse_mapped_type. doc_step. doc_step. eapply wp_try; [exact HA| | |done].
  { apply parse_mapped_modifier_spec; [done|by eapply At_ok|]. apply At_ok in HA. doc_start. doc_steps. }
  clear HA. intros _ s1 HA. doc_steps.
Qed.

(** The lookahead reads no further than the end of the origin token. *)
Lemma wp_is_mapped_type s (Q : bool -> t -> Prop) :
  Ok_ s -> (forall r, Q r s) -> wp is_mapped_type Q s.
Proof.
  intros Hok HQ. destruct (ok_split s Hok) as (before & cur & rem & after & HR & _).
  pose proof Hok as [[_ Hts Hrd _] _]. change (DocLexer.reader (lexer s) <> None) in Hrd.
  assert (length rem < doc_fuel s) as Hf.
  { unfold doc_fuel. rewrite doc_end_spec by done. unfold group_end.
    pose proof (rd_all _ _ _ _ _ HR) as Hall. rewrite Hall, !blen_app. pose proof (blen_length rem). lia. }
  enough (wp (loop (doc_fuel s) mapped_scan_step tt) (fun _ _ => True) (lexer s)) as Hw.
  { unfold wp, is_mapped_type in *. destruct (loop _ _ _ _) as [[r l]| |]; [apply HQ|done|done]. }
  pose (I l k := exists done rem, Reads (txt := txt) (pre := pre) (ts := ts) (parts := parts) l
      (S (origin_token_index s)) done rem after /\ DocLexer.reader l <> None /\ length rem <= k).
  assert (I (lexer s) (length rem)) as HI by (by exists (before ++ cur), rem).
  revert Hf HI. generalize (length rem), (lexer s). clear -I G. generalize (doc_fuel s) as fuel.
  induction fuel as [|fuel IH]; intros k l Hf (dn & rem & HR & Hrd & Hk); [lia|].
  cbn [loop]. apply wp_bind, wp_bind. destruct (decide (rem = [])) as [->|Hne].
  - destruct (DocLexer.reader l) as [r|] eqn:Hr; [|done].
    destruct HR as [_ _ _ _ Hr']. rewrite Hr in Hr'. destruct Hr' as (x & buf & Hc & _).
    eapply wp_mono; [by eapply lex_eof_spec|]. intros kd l' (-> & _). simpl. by apply wp_ret, wp_ret.
  - eapply wp_lex; [done|done|]. intros kd l' c rem' r' _ -> Hr' [_ Hc _ Hrd' HR'].
    assert (I l' (length rem')) as HI by by exists (dn ++ c), rem'.
    assert (length rem' < fuel) as Hlt.
    { rewrite length_app in Hk. destruct c; [done|]. simpl in Hk. lia. }
    case_if; [by apply wp_ret, wp_ret|]. case_if; apply wp_ret; [by apply wp_ret|]. by eapply IH.
Qed.

Lemma keeps_is_mapped_type s : Ok_ s -> Rules.Keeps inv pos 0 is_mapped_type s.
Proof.
  intros Hok b g ms q j HA. apply wp_is_mapped_type; [done|]. intros r. by rewrite Nat.add_0_r.
Qed.

Lemma parse_typed_field_spec s : Ok_ s -> wp (parse_typed_field type_) (type_post s) s.
Proof. intros Hok. unfold parse_typed_field. doc_steps. Qed.
#[local] Hint Resolve parse_typed_field_spec : doc.

Lemma parse_fields_spec s : Ok_ s -> wp (parse_fields type_) (res_post Any 0 s) s.
Proof.
  intros Hok. unfold parse_fields. doc_start. doc_step. rebase HA. apply res_loop; [|done].
  intros [] s1 Hok1. unfold field_step. doc_start. doc_steps.
Qed.
#[local] Hint Resolve parse_fields_spec : doc.

Lemma parse_object_or_mapped_type_spec s :
  Ok_ s -> (current_token s =t TkEof) = false -> wp (parse_object_or_mapped_type type_) (type_post s) s.
Proof.
  intros Hok Hc. unfold parse_object_or_mapped_type. doc_start. doc_step. doc_step. doc_step.
  doc_step. doc_step. eapply wp_keep; [exact HA| |].
  { apply keeps_if; intros _; [apply keeps_ret|]. apply keeps_if; intros _; [|apply keeps_ret].
    by eapply keeps_is_mapped_type, At_ok. }
  clear HA. intros mapped s4 HA. doc_step.
  - apply wp_bind. eapply wp_set_kind; [exact HA|left|done|done|]. intros s5 _ _ HA'.
    by eapply parse_mapped_type_spec.
  - doc_steps.
Qed.

(** *** Functions *)

Lemma parse_generic_param_spec s : Ok_ s -> wp (parse_generic_param type_) (type_post s) s.
Proof. intros Hok. unfold parse_generic_param. doc_steps. Qed.
#[local] Hint Resolve parse_generic_param_spec : doc.

Lemma parse_generic_decl_list_spec brackets s :
  Ok_ s -> wp (parse_generic_decl_list type_ brackets) (type_post s) s.
Proof. intros Hok. unfold parse_generic_decl_list. doc_steps. Qed.
#[local] Hint Resolve parse_generic_decl_list_spec : doc.

Lemma parse_typed_param_spec s : Ok_ s -> wp (parse_typed_param type_) (type_post s) s.
Proof. intros Hok. unfold parse_typed_param. doc_steps. Qed.
#[local] Hint Resolve parse_typed_param_spec : doc.

Lemma parse_typed_params_spec s : Ok_ s -> wp (parse_typed_params type_) (res_post Any 0 s) s.
Proof. intros Hok. unfold parse_typed_params. doc_start. doc_steps. Qed.
#[local] Hint Resolve parse_typed_params_spec : doc.

Lemma parse_fun_return_type_spec s : Ok_ s -> wp (parse_fun_return_type type_) (type_post s) s.
Proof. intros Hok. unfold parse_fun_return_type. doc_steps. Qed.
#[local] Hint Resolve parse_fun_return_type_spec : doc.

Lemma parse_fun_return_list_spec s : Ok_ s -> wp (parse_fun_return_list type_) (type_post s) s.
Proof. intros Hok. unfold parse_fun_return_list. doc_steps. Qed.
#[local] Hint Resolve parse_fun_return_list_spec : doc.

Lemma parse_fun_type_spec s : Ok_ s -> wp (parse_fun_type type_) (type_post s) s.
Proof.
  intros Hok. unfold parse_fun_type. doc_steps.
Qed.
#[local] Hint Resolve parse_fun_type_spec : doc.

Lemma parse_name_or_func_type_spec s :
  Ok_ s -> (current_token s =t TkEof) = false -> wp (parse_name_or_func_type type_) (type_post s) s.
Proof. intros Hok Hc. unfold parse_name_or_func_type. doc_start. doc_steps. Qed.

(** *** Primary types *)

(** At the end of the comment the node is empty. *)
Lemma parse_one_token_any kind s :
  Ok_ s -> (kind =k SkNone) = false -> node_class kind = COther ->
  wp (parse_one_token kind) (res_post Any 0 s) s.
Proof.
  intros Hok Hk Hn. apply wp_bind. eapply doc_mark_first; [done|done|by rewrite Hn|].
  intros m s0 Hr _ Hev Hm HA. apply wp_bind, doc_wp_bump_core; [by eapply At_ok|].
  intros s1 tl Hok1 HS Hp _. pose proof (At_stepped _ _ _ _ _ _ _ _ 0 HA Hok1 HS ltac:(lia)) as HA1.
  apply wp_bind. eapply (wp_complete_any _ _ _ _ _ kind); [exact HA1|done| |].
  - destruct tl; [right|left; simpl; lia]. by rewrite (sp_events _ _ _ HS), app_nil_r.
  - intros cm s2 _ HA2. apply wp_ret. eapply At_weaken; [exact HA2|done|lia].
Qed.

Lemma parse_vararg_type_spec s :
  Ok_ s -> (current_token s =t TkEof) = false -> wp parse_vararg_type (type_post s) s.
Proof.
  intros Hok Hc. unfold parse_vararg_type. doc_step. doc_step. eapply wp_try; [exact HA| | |done].
  { eapply parse_one_token_any; [by eapply At_ok|done|done]. }
  clear HA. intros _ s2 HA. doc_steps.
Qed.

Lemma parse_constructor_type_spec s :
  Ok_ s -> wp (parse_constructor_type sub_type) (type_post s) s.
Proof.
  intros Hok. unfold parse_constructor_type. doc_start. doc_step. doc_step. rebase HA.
  apply wp_bind_result. eapply wp_mono; [by apply Hsub|]. intros [cm|e] s2 Hr; [|exact Hr].
  case_if; [|by apply wp_ret]. cbv zeta. apply wp_bind.
  eapply wp_push_error; [by eapply Typed_At|]. intros s3 _ HA. apply wp_ret.
  eapply Lost_weaken; [by eapply At_Lost|lia].
Qed.

Lemma parse_paren_type_spec s : Ok_ s -> wp (parse_paren_type type_) (type_post s) s.
Proof.
  intros Hok. unfold parse_paren_type. doc_start. doc_step. rebase HA.
  apply wp_bind_result. eapply wp_mono; [by apply Htype|]. intros [cm|e] s1 Hr; [|exact Hr].
  simpl in Hr. pose proof (Typed_At _ _ _ _ Hr) as HA. apply wp_bind_result.
  eapply wp_mono; [eapply expect_token_res; [by eapply At_ok|done]|].
  intros [[]|e] s2 Hr2; simpl in Hr2.
  - apply wp_ret. simpl. eapply Typed_weaken; [by eapply Typed_more|lia].
  - eapply Lost_weaken; [by eapply Lost_frame|lia].
Qed.

#[local] Hint Resolve parse_one_token_spec parse_tuple_type_spec parse_infer_type_spec
  parse_object_or_mapped_type_spec parse_name_or_func_type_spec parse_vararg_type_spec
  parse_constructor_type_spec parse_paren_type_spec : doc.

Lemma parse_primary_type_spec s :
  Ok_ s -> wp (parse_primary_type sub_type type_) (type_post s) s.
Proof.
  intros Hok. unfold parse_primary_type, parse_literal_type, parse_string_template_type.
  doc_start. doc_steps.
Qed.

(** *** Suffixes *)

(** A function that goes on from a node: the node it returns wraps it. *)
Abbreviation Expr_ := (Expr inv pos).
Definition expr_post b (j : nat) (r : DocParseResult) s : Prop :=
  match r with
  | Ok cm => Expr_ b j cm s
  | Err _ => Lost (inv := inv) (pos := pos) b 0 s
  end.

Lemma complete_expr m b q j j' s :
  At_ b false [(position m, COther)] q j s -> rank Tokens <= rank q -> j' <= j ->
  wp (ok_complete m) (expr_post b j') s.
Proof.
  intros HA Hq Hj. apply wp_bind. eapply wp_complete_expr; [exact HA|done|].
  intros cm s' _ _ _ HE. apply wp_ret. by eapply Expr_weaken.
Qed.

Lemma wrap_token_spec cm kind b j s :
  Expr_ b j cm s -> (current_token s =t TkEof) = false -> (kind =k SkNone) = false ->
  node_class kind = COther -> wp (wrap_token cm kind) (fun cm' s' => Expr_ b (j + 1) cm' s') s.
Proof.
  intros HE Hc Hk Hn. apply wp_bind. eapply wp_precede; [exact HE|done|done|]. intros m s1 Hr _ HA.
  doc_step. eapply wp_complete_expr; [exact HA|simpl; lia|]. by intros.
Qed.

(** The steps of a function that wraps a node. *)
Ltac doc_precede HE :=
  apply wp_bind; eapply wp_precede; [exact HE|reflexivity|reflexivity|];
  clear HE; let HA := fresh "HA" in intros ?m ?s ? _ HA.

Ltac doc_wrapped := match goal with HA : At _ _ _ _ _ _ _ ?s |- wp (ok_complete _) _ ?s =>
  eapply complete_expr; [exact HA|simpl; lia|lia] end.

Lemma parse_array_suffix_spec cm b j s :
  Expr_ b j cm s -> (current_token s =t TkEof) = false ->
  wp (parse_array_suffix type_ cm) (expr_post b (j + 1)) s.
Proof.
  intros HE Hc. unfold parse_array_suffix. doc_precede HE. doc_step. doc_step. doc_step.
  apply wp_bind_result.
  eapply (wp_mono _ (fun r s' => match r with
    | Ok _ => At_ b false [(position m, COther)] Solid (j + 1) s'
    | Err _ => Lost (inv := inv) (pos := pos) b 0 s'
    end)).
  2: { clear HA. intros [a|e] s' HA; [|exact HA]. doc_steps. doc_wrapped. }
  assert (forall kind s', At_ b false [(position m, COther)] Solid (j + 1) s' ->
    (kind =k SkNone) = false -> node_class kind = COther ->
    wp (set_kind m kind) (fun _ s' => At_ b false [(position m, COther)] Solid (j + 1) s') s') as Hset.
  { intros kind s' HA' Hk Hn. eapply wp_set_kind; [exact HA'|left|done|done|]. by intros. }
  repeat doc_step.
  - apply wp_bind. eapply wp_mono; [by apply Hset|]. clear HA. intros [] s3 HA. doc_steps.
  - apply wp_bind. eapply wp_mono; [by apply Hset|]. clear HA. intros [] s3 HA. doc_steps.
Qed.

Lemma parse_generic_suffix_spec cm b j s :
  Expr_ b j cm s -> (current_token s =t TkEof) = false ->
  wp (parse_generic_suffix type_ cm) (expr_post b (j + 1)) s.
Proof.
  intros HE Hc. unfold parse_generic_suffix. doc_precede HE. doc_steps. doc_wrapped.
Qed.

Lemma type_suffix_step_spec v b j k s :
  j <= k -> Expr_ b k v.1 s ->
  wp (suffix_step type_ v) (fun r s' =>
    match r with
    | inl v' => Expr_ b (k + 1) v'.1 s'
    | inr r => expr_post b j r s'
    end) s.
Proof.
  intros Hj HE. destruct v as [cm only]. unfold suffix_step. apply wp_bind, doc_wp_cur.
  assert (expr_post b j (Ok cm) s) as Hend by (by eapply Expr_weaken).
  case_if; [|case_if; [|case_if; [|by apply wp_ret]]].
  - apply wp_bind. eapply wp_mono; [apply parse_array_suffix_spec; [exact HE|doc_not_eof]|].
    intros [cm'|e] s' Hr; by apply wp_ret.
  - case_if; [by apply wp_ret|]. apply wp_bind.
    eapply wp_mono; [apply parse_generic_suffix_spec; [exact HE|doc_not_eof]|].
    intros [cm'|e] s' Hr; by apply wp_ret.
  - case_if; [by apply wp_ret|]. apply wp_bind.
    eapply wp_mono; [apply wrap_token_spec; [exact HE|doc_not_eof|done|done]|].
    intros cm' s' Hr. apply wp_ret. simpl. eapply Expr_weaken; [exact Hr|lia].
Qed.

Lemma parse_suffixed_type_spec cm b j s :
  Expr_ b j cm s -> wp (parse_suffixed_type type_ cm) (expr_post b j) s.
Proof.
  intros HE. apply (doc_wp_expr_loop fst _ b j (cm, false)); [|done].
  intros v s1 k Hk HE1. by apply type_suffix_step_spec.
Qed.

Lemma parse_simple_type_spec s : Ok_ s -> wp (parse_simple_type sub_type type_) (type_post s) s.
Proof.
  intros Hok. apply wp_bind_result. eapply wp_mono; [by apply parse_primary_type_spec|].
  intros [cm|e] s1 Hr; [|exact Hr]. eapply wp_typed; [|exact Hr].
  intros b' j' HE. by apply parse_suffixed_type_spec.
Qed.

(** *** Operators *)

Lemma get_type_priority_total bop : exists p, get_type_priority bop = Some p.
Proof. destruct bop; by eexists. Qed.

Lemma bump_operator_spec bop b g ms q j s (Q : unit -> t -> Prop) :
  At_ b g ms q j s -> (current_token s =t TkEof) = false ->
  (forall s', At_ b g ms (join q Tokens) (j + 1) s' -> Q tt s') -> wp (bump_operator bop) Q s.
Proof.
  intros HA Hc HQ. unfold bump_operator. case_if.
  - do 2 doc_step. apply wp_bind. eapply doc_wp_bump; [exact HA|done|]. clear HA. intros s2 tl _ _ HA.
    eapply wp_set_lexer_state; [exact HA|]. intros s3 _ HA'. by apply HQ.
  - eapply doc_wp_bump; [exact HA|done|]. intros s2 tl _ _ HA'. by apply HQ.
Qed.

Lemma parse_operand_spec bop right s :
  Ok_ s -> wp (parse_operand sub_type bop right) (res_post Any 0 s) s.
Proof.
  intros Hok. unfold parse_operand. case_if; [|by eauto with doc]. doc_start. doc_step. doc_step.
  eapply (wp_tail _ _ _ Solid Any 0); [exact HA| |simpl; lia]. apply At_ok in HA.
  apply wp_bind. eapply wp_mono; [by apply Hsub|]. intros [cm|e] s2 Hr; simpl in Hr.
  - apply Typed_At in Hr. apply wp_bind. eapply wp_set_parser_state; [exact Hr|]. clear Hr.
    intros s3 _ Hr. by apply wp_ret.
  - apply wp_bind, wp_modify, wp_ret. destruct Hr as [[[] ?] ? ? ? ?]. by split.
Qed.

Lemma type_binary_step_spec limit cm b j k s :
  j <= k -> Expr_ b k cm s ->
  wp (binary_step sub_type limit cm) (fun r s' =>
    match r with
    | inl cm' => Expr_ b (k + 1) cm' s'
    | inr r => expr_post b j r s'
    end) s.
Proof.
  intros Hj HE. unfold binary_step. apply wp_bind, doc_wp_cur. cbv zeta.
  destruct (get_type_priority_total (to_parse_binary_operator (current_token s))) as [p Hp].
  apply wp_bind. eapply wp_unwrap; [exact Hp|]. case_if; [|apply wp_ret; by eapply Expr_weaken].
  assert ((current_token s =t TkEof) = false) as Hc.
  { apply andb_true_iff in Heqb0 as [Hb%negb_true_iff _]. by destruct (current_token s). }
  apply wp_bind, wp_gets. apply wp_bind. eapply wp_precede; [exact HE|done|done|]. clear HE.
  intros m s1 Hr _ HA. apply wp_bind. eapply bump_operator_spec; [exact HA|by rewrite (doc_current_rest _ _ Hr)|].
  clear HA. intros s2 HA. tidy HA. apply wp_bind, doc_wp_cur.
  apply (wp_seq (fun r s' => match r with
    | Ok _ => At_ b false [(position m, COther)] Solid (k + 1) s'
    | Err _ => Lost (inv := inv) (pos := pos) b 0 s'
    end)).
  - case_if.
    + eapply wp_call; [exact HA|by eapply parse_operand_spec, At_ok|..].
      * clear HA. intros a s3 HA. apply wp_ret. eapply At_weaken; [exact HA|done|lia].
      * clear HA. intros e s3 HL. apply wp_bind. eapply (wp_report _ _ false); [exact HL|].
        intros s4 HA. apply wp_ret. eapply Lost_weaken; [by eapply At_Lost|lia].
    + doc_step. apply negb_false_iff in Heqb1. doc_steps.
  - clear HA. intros [a|e] s3 HA; [|by apply wp_ret].
    apply wp_bind. eapply wp_complete_expr; [exact HA|simpl; lia|]. intros cm' s4 _ _ _ HE. by apply wp_ret.
Qed.

Lemma parse_binary_operator_spec cm limit b j s :
  Expr_ b j cm s -> wp (parse_binary_operator sub_type cm limit) (expr_post b j) s.
Proof.
  intros HE. apply (doc_wp_expr_loop (fun cm => cm) _ b j cm); [|done].
  intros cm1 s1 k Hk HE1. by apply type_binary_step_spec.
Qed.

Lemma parse_unary_type_spec s : Ok_ s -> (current_token s =t TkEof) = false ->
  wp (parse_unary_type sub_type) (type_post s) s.
Proof.
  intros Hok Hc. unfold parse_unary_type. doc_step. doc_step. doc_step.
  eapply wp_call; [exact HA|by eapply wp_type_res, Hsub, At_ok| |].
  - clear HA. intros a s2 HA. doc_steps.
  - clear HA. intros e s2 HL. apply wp_bind. eapply (wp_report _ _ false); [exact HL|].
    intros s3 HA. apply wp_ret. eapply Lost_weaken; [by eapply At_Lost|lia].
Qed.

(** The body of [parse_sub_type], when the stack is not exhausted. *)
Lemma parse_operators_spec limit s : Ok_ s ->
  wp (c <- cur ;;
      cm <~ (if negb (bool_decide (to_type_unary_operator c = TuNone)) then parse_unary_type sub_type
             else parse_simple_type sub_type type_) ;;
      parse_binary_operator sub_type cm limit) (type_post s) s.
Proof.
  intros Hok. apply wp_bind, doc_wp_cur. apply wp_bind_result.
  apply (wp_mono _ (type_post s)).
  - case_if; [|by apply parse_simple_type_spec]. apply parse_unary_type_spec; [done|].
    apply negb_true_iff in Heqb. by destruct (current_token s).
  - intros [cm|e] s1 Hr; [|exact Hr]. eapply wp_typed; [|exact Hr].
    intros b' j' HE. by apply parse_binary_operator_spec.
Qed.
End Types.

(** ** Whole types

    [live] says that the stack is not exhausted: only then does [parse_sub_type]
    return a type, and only then is the rest of the grammar asked for. *)

Section WholeTypes.
Context `{UnicodeTables}.
Context {txt pre post : rstring} {ts : list LuaTokenData} {parts : list rstring} {lr : LuaRest}.
Context {G : doc_group txt pre post ts parts lr}.
Implicit Types (b s : t).

Abbreviation inv := (@doc_inv txt pre ts parts lr).
Abbreviation pos := (@doc_pos pre parts).
Abbreviation Ok_ := (OkState inv).
Abbreviation At_ := (At inv pos).
Abbreviation Expr_ := (Expr inv pos).
Abbreviation res_post := (Rules.res_post (inv := inv) (pos := pos)).
Abbreviation type_post := (Rules.type_post (inv := inv) (pos := pos)).
Abbreviation expr_post := (@expr_post txt pre ts parts lr).

Variable sub_type : Z -> M t DocParseResult.
Variable type_ : M t DocParseResult.
Variable live : Prop.
Hypothesis Hsub : forall limit s, Ok_ s ->
  wp (sub_type limit) (fun r s' => type_post s r s' /\ (is_err r = false -> live)) s.
Hypothesis Htype : live -> forall s, Ok_ s -> wp type_ (type_post s) s.

Lemma sub_type_spec limit s : Ok_ s -> wp (sub_type limit) (type_post s) s.
Proof. intros Hs. eapply wp_mono; [by apply Hsub|]. by intros r s' [Hr _]. Qed.
#[local] Hint Resolve sub_type_spec : doc.

Lemma parse_one_line_type_spec s : Ok_ s -> wp (parse_one_line_type sub_type) (type_post s) s.
Proof.
  intros Hok. unfold parse_one_line_type. doc_step. doc_step. doc_step.
  eapply wp_keep; [exact HA| |].
  { apply keeps_when. intros _. apply keeps_bind0; [apply keeps_set_lexer_state|]. intros _ s2.
    apply keeps_bind0; [apply keeps_description|]. intros _ s3. apply keeps_set_lexer_state. }
  clear HA. intros _ s2 HA. doc_steps.
Qed.
#[local] Hint Resolve parse_one_line_type_spec : doc.

Lemma parse_multi_line_union_type_spec s :
  Ok_ s -> (current_token s =t TkDocContinueOr) = true ->
  wp (parse_multi_line_union_type sub_type) (type_post s) s.
Proof.
  intros Hok Hc. unfold parse_multi_line_union_type. doc_step.
  eapply wp_try; [exact HA|apply list_rest_res; [eauto with doc|done|by eapply At_ok]| |done].
  rewrite (doc_current_rest _ _ H0), Hc. clear HA. intros _ s1 HA. tidy HA. doc_steps.
Qed.

Section Live.
Hypothesis Hlive : live.
#[local] Hint Resolve Htype : doc.

Lemma parse_conditional_spec cm b j s :
  Expr_ b j cm s -> wp (parse_conditional type_ cm) (expr_post b j) s.
Proof.
  intros HE. unfold parse_conditional. apply wp_bind. eapply wp_precede; [exact HE|done|done|].
  intros m s1 _ _ HA. doc_steps. eapply complete_expr; [exact HA|simpl; lia|lia].
Qed.

Lemma type_step_spec cm b j k s :
  j <= k -> Expr_ b k cm s ->
  wp (type_step type_ cm) (fun r s' =>
    match r with
    | inl cm' => Expr_ b (k + 1) cm' s'
    | inr r => expr_post b j r s'
    end) s.
Proof.
  intros Hj HE. unfold type_step. apply wp_bind, doc_wp_cur.
  assert (expr_post b j (Ok cm) s) as Hend by (by eapply Expr_weaken).
  case_if; [|case_if; [|case_if; [|by apply wp_ret]]].
  - apply wp_bind. eapply wp_mono; [apply wrap_token_spec; [exact HE|doc_not_eof|done|done]|].
    intros cm' s' Hr. by apply wp_ret.
  - apply wp_bind. eapply wp_mono; [by apply parse_conditional_spec|]. intros r s' Hr. apply wp_ret.
    destruct r; [|done]. by eapply Expr_weaken.
  - case_if; [by apply wp_ret|]. apply wp_bind.
    eapply wp_mono; [apply wrap_token_spec; [exact HE|doc_not_eof|done|done]|].
    intros cm' s' Hr. apply wp_ret. simpl. eapply Expr_weaken; [exact Hr|lia].
Qed.

Lemma type_loop_spec cm b j s :
  Expr_ b j cm s -> wp (loop_from doc_fuel (type_step type_) cm) (expr_post b j) s.
Proof.
  intros HE. apply (doc_wp_expr_loop (fun cm => cm) _ b j cm); [|done].
  intros cm1 s1 k Hk HE1. by apply type_step_spec.
Qed.
End Live.

Lemma parse_type_with_spec s : Ok_ s -> wp (parse_type_with sub_type type_) (type_post s) s.
Proof.
  intros Hok. apply wp_bind, doc_wp_cur. case_if; [by apply parse_multi_line_union_type_spec|].
  apply wp_bind_result. eapply wp_mono; [by apply Hsub|]. intros [cm|e] s1 [Hr Hl]; [|exact Hr].
  eapply wp_typed; [|exact Hr]. intros b' j' HE. by apply type_loop_spec; [apply Hl|].
Qed.
End WholeTypes.

(** ** The knot *)

Section Knot.
Context `{UnicodeTables} `{FiniteStack}.
Context {txt pre post : rstring} {ts : list LuaTokenData} {parts : list rstring} {lr : LuaRest}.
Context {G : doc_group txt pre post ts parts lr}.
Implicit Types (b s : t).

Abbreviation inv := (@doc_inv txt pre ts parts lr).
Abbreviation pos := (@doc_pos pre parts).
Abbreviation Ok_ := (OkState inv).
Abbreviation type_post := (Rules.type_post (inv := inv) (pos := pos)).

(** A nested call returns a type only when the stack has room for it. *)
Lemma parse_sub_type_live sub_type type_ d limit s :
  (d < max_nesting -> forall limit s, Ok_ s -> wp (sub_type limit) (type_post s) s) ->
  (d < max_nesting -> forall s, Ok_ s -> wp type_ (type_post s) s) -> Ok_ s ->
  wp (parse_sub_type sub_type type_ d limit)
    (fun r s' => type_post s r s' /\ (is_err r = false -> d < max_nesting)) s.
Proof.
  intros Hsub Htype Hok. apply wp_bind, wp_gets.
  destruct (parser_stack_exhausted d (get_events s)) eqn:Hex.
  - eapply wp_mono; [eapply (wp_mono _ (fun r s' => is_err r = true /\ type_post s r s'))|].
    + apply wp_bind, wp_gets, wp_ret. split; [done|]. eapply Lost_weaken; [by eapply At_Lost, doc_at_start|lia].
    + intros r s' Hr. exact Hr.
    + intros r s' [He Hr]. split; [done|]. by rewrite He.
  - assert (d < max_nesting) as Hlive.
    { destruct (Nat.lt_ge_cases d max_nesting) as [|Hge]; [done|].
      by rewrite (finite_stack d (get_events s) Hge) in Hex. }
    eapply wp_mono; [by apply parse_operators_spec; eauto|]. by intros r s' Hr.
Qed.

(** Enough fuel: the stack gives out first. *)
Lemma types_spec n d :
  max_nesting <= n + d ->
  (forall limit s, Ok_ s -> wp ((types (S n) d).1 limit) (fun r s' => type_post s r s' /\ (is_err r = false -> d < max_nesting)) s)
  /\ (forall s, Ok_ s -> wp (types (S n) d).2 (type_post s) s).
Proof.
  revert d. induction n as [|n IH]; intros d Hn.
  - assert (forall limit s, Ok_ s -> wp ((types 1 d).1 limit)
      (fun r s' => type_post s r s' /\ (is_err r = false -> d < max_nesting)) s) as Hsub.
    { intros limit s Hs. apply parse_sub_type_live; [lia|lia|done]. }
    split; [exact Hsub|]. intros s Hs. simpl in *. by eapply parse_type_with_spec; [exact Hsub|lia|].
  - destruct (IH (S d)) as [Hs Ht]; [lia|].
    assert (forall limit s, Ok_ s -> wp ((types (S (S n)) d).1 limit)
      (fun r s' => type_post s r s' /\ (is_err r = false -> d < max_nesting)) s) as Hsub.
    { intros limit s Hok. apply parse_sub_type_live; [|done|done].
      intros _ l s' Hok'. eapply wp_mono; [by apply Hs|]. by intros ? ? []. }
    split; [exact Hsub|]. intros s Hok. by eapply parse_type_with_spec; [exact Hsub|intros _; exact Ht|].
Qed.

Lemma parse_type_spec s : Ok_ s -> wp parse_type (type_post s) s.
Proof. apply types_spec. lia. Qed.
End Knot.
