(* ===== verification/DocTagProofs.v ===== *)
(** * Doc tags

    Every tag of [grammar/doc/tag.rs] ends with a complete node or gives its
    markers up with an error; [parse_tag] reports the error and closes what was
    left open, so that a comment is always complete. *)

From S2P Require Import Prelude Kinds Text LuaLexer DocLexer DocLexerProofs Marker Discipline Rules.
From S2P Require Import LuaParser DocParser LuaParserProofs DocParserProofs LuaGrammar DocGrammar.
From S2P Require Import DocGrammarRules DocTypeProofs.
Import DocParser DocGrammar.
Local Open Scope prog_scope.

#[local] Opaque parse_type.

Section Tags.
Context `{UnicodeTables} `{FiniteStack}.
Context {txt pre post : rstring} {ts : list LuaTokenData} {parts : list rstring} {lr : LuaRest}.
Context {G : doc_group txt pre post ts parts lr}.
Implicit Types (b s : t).

Abbreviation inv := (@doc_inv txt pre ts parts lr).
Abbreviation pos := (@doc_pos pre parts).
Abbreviation Ok_ := (OkState inv).
Abbreviation At_ := (At inv pos).
Abbreviation Expr_ := (Expr inv pos).
Abbreviation Lost_ := (Lost (inv := inv) (pos := pos)).
Abbreviation res_post := (Rules.res_post (inv := inv) (pos := pos)).
Abbreviation type_post := (Rules.type_post (inv := inv) (pos := pos)).
Abbreviation Eats_ := (@Eats txt pre ts parts lr).
Abbreviation Keeps_ := (Rules.Keeps inv pos).

(** ** Helpers *)

Lemma opt_any {A} token (item : M t (Result A LuaParseError)) s :
  (forall s, Ok_ s -> (current_token s =t token) = true -> wp item (res_post Any 0 s) s) -> Ok_ s ->
  wp (opt token item) (res_post Any 0 s) s.
Proof.
  intros Hitem Hs. unfold opt. doc_start. doc_step. doc_step; [|doc_step].
  eapply wp_try; [exact HA|by apply Hitem| |done]. intros a s' HA'. doc_step.
Qed.

Lemma opt_bump_any {A} token (item : M t (Result A LuaParseError)) s :
  (forall s, Ok_ s -> wp item (res_post Any 0 s) s) -> Ok_ s ->
  wp (opt_bump token item) (res_post Any 0 s) s.
Proof.
  intros Hitem Hs. apply opt_any; [|done]. intros s' Hs' _. doc_start.
  eapply wp_keep; [exact HA|apply doc_keeps_bump|]. clear HA. intros _ s1 HA.
  eapply (wp_tail _ _ _ Any _ 0); [exact HA|by eapply Hitem, At_ok|simpl; lia].
Qed.

Lemma list_of_any {A} (item : M t (Result A LuaParseError)) s :
  (forall s, Ok_ s -> wp item (res_post Any 0 s) s) -> Ok_ s ->
  wp (list_of item) (res_post Any 0 s) s.
Proof.
  intros Hitem Hs. unfold list_of. doc_start. eapply wp_try; [exact HA|by apply Hitem| |done].
  clear HA. intros a s' HA. eapply (wp_tail _ _ _ Any _ 0); [exact HA| |simpl; lia].
  apply list_rest_any; [done|done|by eapply At_ok].
Qed.
#[local] Hint Resolve opt_any opt_bump_any list_of_any parse_type_spec : doc.

(** The lexer state is set, and the name of the tag eaten. *)
Lemma wp_tag st kind (rest : Marker -> M t DocParseResult) s :
  Ok_ s -> (current_token s =t TkEof) = false -> st <> DocDescriptionState ->
  (kind =k SkNone) = false -> node_class kind = COther ->
  (forall s0 m s', Ok_ s0 -> At_ s0 false [(position m, COther)] Tokens 1 s' ->
     wp (rest m) (type_post s0) s') ->
  wp (bind (start_tag st kind) rest) (type_post s) s.
Proof.
  intros Hok Hc Hst Hk Hn Hrest. unfold start_tag. doc_start. apply wp_bind, wp_bind.
  eapply wp_set_lexer_state; [exact HA|]. clear HA. intros s0 Hc0 HA0. specialize (Hc0 Hst). rewrite Hc in Hc0.
  pose proof (At_ok _ _ _ _ _ _ HA0) as Hok0.
  apply wp_bind. eapply doc_mark_first; [done|done|by rewrite Hn|]. rewrite Hn.
  intros m s1 Hr _ _ _ HA. doc_step. apply wp_ret.
  eapply wp_mono; [by eapply Hrest|]. intros [cm|e] s3 Hr3; simpl in *.
  - eapply Typed_weaken; [by eapply Typed_frame|lia].
  - eapply Lost_weaken; [by eapply Lost_frame|lia].
Qed.

Ltac tag :=
  intros; match goal with |- wp ?f _ _ => let g := eval red in f in change f with g end; apply wp_tag; [assumption|assumption|discriminate|reflexivity|reflexivity|];
  let HA := fresh "HA" in intros ?s ?m ?s ? HA; unfold finish_tag; doc_steps.

Lemma parse_tag_simple_spec kind s :
  Ok_ s -> (current_token s =t TkEof) = false -> (kind =k SkNone) = false -> node_class kind = COther ->
  wp (parse_tag_simple kind) (type_post s) s.
Proof.
  intros Hok Hc Hk Hn. unfold parse_tag_simple, finish_tag. apply wp_bind.
  eapply doc_mark_first; [done|done|by rewrite Hn|]. rewrite Hn. intros m s0 Hr _ _ _ HA. doc_steps.
Qed.

Lemma parse_doc_type_flag_spec s :
  Ok_ s -> (current_token s =t TkEof) = false -> wp parse_doc_type_flag (type_post s) s.
Proof. intros Hok Hc. unfold parse_doc_type_flag. doc_steps. Qed.
#[local] Hint Resolve parse_doc_type_flag_spec : doc.

Lemma generic_decl_list_spec brackets s : Ok_ s -> wp (generic_decl_list brackets) (type_post s) s.
Proof. apply parse_generic_decl_list_spec, parse_type_spec. Qed.

Lemma type_list_spec s : Ok_ s -> wp type_list (type_post s) s.
Proof. apply parse_type_list_spec, parse_type_spec. Qed.
#[local] Hint Resolve generic_decl_list_spec type_list_spec : doc.

Lemma parse_tag_class_spec s :
  Ok_ s -> (current_token s =t TkEof) = false -> wp parse_tag_class (type_post s) s.
Proof. tag. Qed.

(** ** Declarations *)

Lemma parse_enum_field_spec s : Ok_ s -> wp parse_enum_field (res_post Any 0 s) s.
Proof.
  intros Hok. apply wp_bind. eapply doc_mark_first; [done|done|done|].
  intros m s0 Hr _ Hev Hm HA. pose proof (At_ok _ _ _ _ _ _ HA) as Hok0. apply wp_bind, doc_wp_cur.
  apply (wp_seq (fun _ => Eats_ s0)).
  { apply wp_when; [|by left]. intros Hc. apply (wp_eats_bump s0); [done|by left|doc_not_eof|done]. }
  intros [] s1 H1'. apply wp_bind, (wp_eats_if_token_bump _ s0); [done|done|done|]. intros _ s2 H2'.
  apply wp_bind. eapply wp_complete_eats; [exact HA|exact Hev|done|exact H2'|]. intros cm s3 _ HA3. by apply wp_ret.
Qed.
#[local] Hint Resolve parse_enum_field_spec : doc.

Lemma parse_enum_field_list_spec s :
  Ok_ s -> (current_token s =t TkDocContinueOr) = true -> wp parse_enum_field_list (type_post s) s.
Proof.
  intros Hok Hc. unfold parse_enum_field_list. doc_step.
  eapply wp_try; [exact HA|apply list_rest_res; [eauto with doc|done|by eapply At_ok]| |done].
  rewrite (doc_current_rest _ _ H2), Hc. clear HA. intros _ s1 HA. tidy HA. doc_steps.
Qed.
#[local] Hint Resolve parse_enum_field_list_spec : doc.

Lemma parse_tag_enum_spec s :
  Ok_ s -> (current_token s =t TkEof) = false -> wp parse_tag_enum (type_post s) s.
Proof. tag. Qed.

Lemma parse_tag_alias_spec s :
  Ok_ s -> (current_token s =t TkEof) = false -> wp parse_tag_alias (type_post s) s.
Proof. tag. Qed.

Lemma keeps_dotted s : Keeps_ 0 (loop_from doc_fuel dotted_step tt) s.
Proof.
  apply doc_keeps_loop. intros [] s1 Hok. unfold dotted_step. doc_start. doc_steps.
Qed.
#[local] Hint Resolve keeps_dotted : doc_keeps.

Lemma parse_tag_module_spec s :
  Ok_ s -> (current_token s =t TkEof) = false -> wp parse_tag_module (type_post s) s.
Proof. tag. Qed.

(** ** Default values *)

Lemma parse_doc_default_call_value_spec s : Ok_ s -> wp parse_doc_default_call_value (res_post Any 0 s) s.
Proof.
  intros Hok. apply res_loop; [|done]. intros depth s1 Hok1. unfold default_call_step. doc_start. doc_steps.
Qed.
#[local] Hint Resolve parse_doc_default_call_value_spec : doc.

Lemma parse_doc_default_value_spec s : Ok_ s -> wp parse_doc_default_value (type_post s) s.
Proof. intros Hok. unfold parse_doc_default_value. doc_steps. Qed.
#[local] Hint Resolve parse_doc_default_value_spec : doc.

Lemma opt_default_spec s : Ok_ s -> wp opt_default (res_post Any 0 s) s.
Proof. intros Hok. unfold opt_default. eauto with doc. Qed.
#[local] Hint Resolve opt_default_spec : doc.

(** ** Types of things *)

Lemma parse_field_key_spec s : Ok_ s -> wp parse_field_key (res_post Any 0 s) s.
Proof. intros Hok. unfold parse_field_key. doc_start. doc_steps. Qed.
#[local] Hint Resolve parse_field_key_spec : doc.

Lemma parse_tag_field_spec s :
  Ok_ s -> (current_token s =t TkEof) = false -> wp parse_tag_field (type_post s) s.
Proof. tag. Qed.

Lemma wp_is_type_modifier_flag s (Q : bool -> t -> Prop) :
  Ok_ s -> (forall r, Q r s) -> wp is_type_modifier_flag Q s.
Proof.
  intros Hok HQ. apply wp_bind, wp_gets, wp_bind, wp_gets. case_if; [by apply wp_ret|].
  destruct (text_behind (G := G) s Hok) as [rest Hr]. apply wp_bind. eapply wp_unwrap; [exact Hr|].
  by apply wp_ret.
Qed.

Lemma opt_type_flag_spec s : Ok_ s -> wp opt_type_flag (res_post Any 0 s) s.
Proof.
  intros Hok. unfold opt_type_flag. doc_start. doc_step. destruct (current_token s =t TkLeftParen) eqn:Hc.
  - apply wp_bind, wp_is_type_modifier_flag; [done|]. intros flag. doc_steps.
  - apply wp_bind, wp_ret. doc_steps.
Qed.
#[local] Hint Resolve opt_type_flag_spec : doc.

Lemma parse_tag_type_spec s :
  Ok_ s -> (current_token s =t TkEof) = false -> wp parse_tag_type (type_post s) s.
Proof. tag. Qed.

Lemma parse_tag_param_spec s :
  Ok_ s -> (current_token s =t TkEof) = false -> wp parse_tag_param (type_post s) s.
Proof. tag. Qed.

Lemma parse_return_item_spec s : Ok_ s -> wp parse_return_item (res_post Any 0 s) s.
Proof. intros Hok. unfold parse_return_item. doc_start. doc_steps. Qed.
#[local] Hint Resolve parse_return_item_spec : doc.

Lemma parse_tag_return_spec s :
  Ok_ s -> (current_token s =t TkEof) = false -> wp parse_tag_return (type_post s) s.
Proof. tag. Qed.

Lemma parse_op_type_spec s : Ok_ s -> wp parse_op_type (type_post s) s.
Proof. intros Hok. unfold parse_op_type. doc_start. doc_steps. Qed.
#[local] Hint Resolve parse_op_type_spec : doc.

Lemma parse_tag_return_cast_spec s :
  Ok_ s -> (current_token s =t TkEof) = false -> wp parse_tag_return_cast (type_post s) s.
Proof. tag. Qed.

Lemma parse_tag_generic_spec s :
  Ok_ s -> (current_token s =t TkEof) = false -> wp parse_tag_generic (type_post s) s.
Proof. tag. Qed.

Lemma parse_tag_see_spec s :
  Ok_ s -> (current_token s =t TkEof) = false -> wp parse_tag_see (type_post s) s.
Proof. tag. Qed.

Lemma parse_tag_as_spec s :
  Ok_ s -> (current_token s =t TkEof) = false -> wp parse_tag_as (type_post s) s.
Proof. tag. Qed.

Lemma fun_type_spec s : Ok_ s -> wp (parse_fun_type parse_type) (type_post s) s.
Proof. apply parse_fun_type_spec, parse_type_spec. Qed.
#[local] Hint Resolve fun_type_spec : doc.

Lemma parse_tag_overload_spec s :
  Ok_ s -> (current_token s =t TkEof) = false -> wp parse_tag_overload (type_post s) s.
Proof. tag. Qed.

(** ** Casts *)

Lemma cast_step_spec cm b j s :
  Expr_ b j cm s -> wp (cast_step cm) (fun r s' =>
    match r with
    | inl cm' => Expr_ b (j + 1) cm' s'
    | inr cm' => Expr_ b j cm' s'
    end) s.
Proof.
  intros HE. unfold cast_step. apply wp_bind, doc_wp_cur. case_if; [|by apply wp_ret].
  apply wp_bind. eapply wp_precede; [exact HE|done|done|]. intros m s1 Hr _ HA. do 2 doc_step.
  apply wp_bind. eapply wp_complete_expr; [exact HA|simpl; lia|]. intros cm' s3 _ _ _ HE'. apply wp_ret.
  eapply Expr_weaken; [exact HE'|lia].
Qed.

Lemma parse_cast_expr_spec s :
  Ok_ s -> (current_token s =t TkEof) = false -> wp parse_cast_expr (res_post Any 0 s) s.
Proof.
  intros Hok Hc. unfold parse_cast_expr. do 2 doc_step. apply wp_bind.
  eapply wp_complete_expr; [exact HA|simpl; lia|]. clear HA. intros cm s2 _ _ _ HE. apply wp_bind.
  apply (doc_wp_expr_loop (fun cm => cm) _ s (0 + 1) cm); [|exact HE]. intros cm1 s3 k Hk HE1.
  eapply wp_mono; [by apply cast_step_spec|]. intros [cm2|cm2] s4 Hr; [done|]. apply wp_ret.
  eapply At_weaken; [eapply Expr_At, Hr|simpl; lia|lia].
Qed.
#[local] Hint Resolve parse_cast_expr_spec : doc.

Lemma parse_tag_cast_spec s :
  Ok_ s -> (current_token s =t TkEof) = false -> wp parse_tag_cast (type_post s) s.
Proof. tag. Qed.

(** ** Tags without types *)

Lemma parse_tag_argument_spec st kind token s :
  Ok_ s -> (current_token s =t TkEof) = false -> st <> DocDescriptionState ->
  (kind =k SkNone) = false -> node_class kind = COther -> (token =t TkEof) = false ->
  wp (parse_tag_argument st kind token) (type_post s) s.
Proof.
  intros Hok Hc Hst Hk Hn Ht. apply wp_tag; [done..|]. intros s0 m s1 Hok0 HA. doc_steps.
Qed.

Lemma parse_diagnostic_code_list_spec s : Ok_ s -> wp parse_diagnostic_code_list (type_post s) s.
Proof.
  intros Hok. unfold parse_diagnostic_code_list. doc_step.
  eapply (wp_try _ _ _ _ _ _ Tokens _ 0); [exact HA| | |done].
  - apply At_ok in HA. unfold list_of. doc_start. doc_steps.
  - clear HA. intros _ s1 HA. tidy HA. doc_steps.
Qed.
#[local] Hint Resolve parse_diagnostic_code_list_spec : doc.

Lemma parse_tag_diagnostic_spec s :
  Ok_ s -> (current_token s =t TkEof) = false -> wp parse_tag_diagnostic (type_post s) s.
Proof. tag. Qed.

Lemma parse_version_spec s : Ok_ s -> wp parse_version (type_post s) s.
Proof. intros Hok. unfold parse_version. doc_steps. Qed.
#[local] Hint Resolve parse_version_spec : doc.

Lemma parse_tag_version_spec s :
  Ok_ s -> (current_token s =t TkEof) = false -> wp parse_tag_version (type_post s) s.
Proof. tag. Qed.

Lemma operator_params_spec s :
  Ok_ s -> wp (_ <~ type_list ;; expect_token TkRightParen) (res_post Any 0 s) s.
Proof. intros Hok. doc_start. doc_steps. Qed.
#[local] Hint Resolve operator_params_spec : doc.

Lemma parse_tag_operator_spec s :
  Ok_ s -> (current_token s =t TkEof) = false -> wp parse_tag_operator (type_post s) s.
Proof. tag. Qed.

Lemma parse_tag_mapping_spec s :
  Ok_ s -> (current_token s =t TkEof) = false -> wp parse_tag_mapping (type_post s) s.
Proof. tag. Qed.

Lemma parse_tag_opt_name_spec kind s :
  Ok_ s -> (current_token s =t TkEof) = false -> (kind =k SkNone) = false -> node_class kind = COther ->
  wp (parse_tag_opt_name kind) (type_post s) s.
Proof.
  intros Hok Hc Hk Hn. apply wp_tag; [done..|]. intros s0 m s1 Hok0 HA. doc_steps.
Qed.

Lemma parse_tag_fileparam_spec s :
  Ok_ s -> (current_token s =t TkEof) = false -> wp parse_tag_fileparam (type_post s) s.
Proof. tag. Qed.

Lemma parse_tag_outparam_spec s :
  Ok_ s -> (current_token s =t TkEof) = false -> wp parse_tag_outparam (type_post s) s.
Proof. tag. Qed.

Lemma parse_tag_export_spec s :
  Ok_ s -> (current_token s =t TkEof) = false -> wp parse_tag_export (type_post s) s.
Proof. tag. Qed.

Lemma parse_tag_language_spec s :
  Ok_ s -> (current_token s =t TkEof) = false -> wp parse_tag_language (type_post s) s.
Proof. tag. Qed.

(** ** Attributes *)

Lemma typed_params_spec s : Ok_ s -> wp (parse_typed_params parse_type) (res_post Any 0 s) s.
Proof. apply parse_typed_params_spec, parse_type_spec. Qed.
#[local] Hint Resolve typed_params_spec : doc.

Lemma parse_type_attribute_spec s : Ok_ s -> wp parse_type_attribute (type_post s) s.
Proof. intros Hok. unfold parse_type_attribute. doc_steps. Qed.
#[local] Hint Resolve parse_type_attribute_spec : doc.

Lemma parse_tag_attribute_spec s :
  Ok_ s -> (current_token s =t TkEof) = false -> wp parse_tag_attribute (type_post s) s.
Proof. tag. Qed.

Lemma parse_attribute_arg_spec s : Ok_ s -> wp parse_attribute_arg (type_post s) s.
Proof. intros Hok. unfold parse_attribute_arg. doc_steps. Qed.
#[local] Hint Resolve parse_attribute_arg_spec : doc.

Lemma attribute_args_spec s :
  Ok_ s -> wp (loop_from doc_fuel attribute_arg_step tt) (res_post Any 0 s) s.
Proof.
  intros Hok. apply res_loop; [|done]. intros [] s1 Hok1. unfold attribute_arg_step. doc_start.
  doc_step. doc_step; [doc_step|]. doc_step; [|doc_steps].
  apply wp_bind. eapply doc_wp_if_token_bump; [exact HA|done| |].
  - clear HA. intros _ s2 HA. doc_steps.
  - intros _. doc_steps.
Qed.
#[local] Hint Resolve attribute_args_spec : doc.

Lemma parse_attribute_arg_list_spec s :
  Ok_ s -> wp parse_attribute_arg_list (type_post s) s.
Proof. intros Hok. unfold parse_attribute_arg_list. doc_steps. Qed.
#[local] Hint Resolve parse_attribute_arg_list_spec : doc.

Lemma parse_doc_attribute_use_spec s : Ok_ s -> wp parse_doc_attribute_use (type_post s) s.
Proof. intros Hok. unfold parse_doc_attribute_use. doc_steps. Qed.
#[local] Hint Resolve parse_doc_attribute_use_spec : doc.

Lemma attribute_uses_spec s :
  Ok_ s -> wp (loop_from doc_fuel attribute_use_step tt) (res_post Any 0 s) s.
Proof.
  intros Hok. apply res_loop; [|done]. intros [] s1 Hok1. unfold attribute_use_step. doc_start.
  doc_step. doc_step; [|doc_step]. doc_step; [|doc_steps].
  apply wp_bind. eapply doc_wp_if_token_bump; [exact HA|done| |].
  - clear HA. intros _ s2 HA. doc_steps.
  - intros _. doc_steps.
Qed.
#[local] Hint Resolve attribute_uses_spec : doc.

Lemma parse_tag_attribute_use_spec allow s :
  Ok_ s -> (current_token s =t TkEof) = false -> wp (parse_tag_attribute_use allow) (type_post s) s.
Proof.
  intros Hok Hc. unfold parse_tag_attribute_use. do 4 doc_step.
  destruct allow; unfold finish_tag; doc_steps.
Qed.

Lemma parse_tag_call_generic_spec s :
  Ok_ s -> (current_token s =t TkEof) = false -> wp parse_tag_call_generic (type_post s) s.
Proof. tag. Qed.

End Tags.
