(* ===== verification/DocCommentProofs.v ===== *)
(** * Doc comments

    A group of comments is parsed into one complete node, and all of it is eaten:
    the promise [DocCommentsLaws] that the Lua parser relies on. *)

From S2P Require Import Prelude Kinds Text LuaLexer DocLexer DocLexerProofs Marker Discipline Rules.
From S2P Require Import LuaParser DocParser LuaParserProofs DocParserProofs LuaGrammar DocGrammar.
From S2P Require Import DocGrammarRules DocTypeProofs DocTagProofs.
Import DocParser DocGrammar.
Local Open Scope prog_scope.

Section Comments.
Context `{UnicodeTables} `{FiniteStack}.
Context {txt pre post : rstring} {ts : list LuaTokenData} {parts : list rstring} {lr : LuaRest}.
Context {G : doc_group txt pre post ts parts lr}.
Implicit Types (b s : t).

Abbreviation inv := (@doc_inv txt pre ts parts lr).
Abbreviation pos := (@doc_pos pre parts).
Abbreviation Ok_ := (OkState inv).
Abbreviation At_ := (At inv pos).
Abbreviation Lost_ := (Lost (inv := inv) (pos := pos)).
Abbreviation Eats_ := (@Eats txt pre ts parts lr).
Abbreviation res_post := (Rules.res_post (inv := inv) (pos := pos)).
Abbreviation Keeps_ := (Rules.Keeps inv pos).

(** ** Tags *)

Create HintDb tags.
#[local] Hint Resolve parse_tag_class_spec parse_tag_enum_spec parse_tag_alias_spec parse_tag_field_spec
  parse_tag_type_spec parse_tag_param_spec parse_tag_return_spec parse_tag_return_cast_spec
  parse_tag_module_spec parse_tag_see_spec parse_tag_generic_spec parse_tag_as_spec
  parse_tag_overload_spec parse_tag_cast_spec parse_tag_diagnostic_spec parse_tag_version_spec
  parse_tag_operator_spec parse_tag_mapping_spec parse_tag_fileparam_spec parse_tag_outparam_spec
  parse_tag_export_spec parse_tag_language_spec parse_tag_attribute_spec parse_tag_attribute_use_spec
  parse_tag_call_generic_spec parse_tag_simple_spec parse_tag_argument_spec parse_tag_opt_name_spec : tags.

Lemma parse_tag_detail_spec s : Ok_ s -> wp parse_tag_detail (res_post Any 0 s) s.
Proof.
  intros Hok. apply wp_bind, doc_wp_cur. destruct (current_token s) eqn:Hc; try by apply ret_any.
  all: assert ((current_token s =t TkEof) = false) as Hne by (by rewrite Hc).
  all: apply type_any.
  all: unfold parse_tag_source, parse_tag_namespace, parse_tag_using, parse_tag_schema, parse_tag_meta,
    parse_tag_realm.
  all: lazymatch goal with
    | |- wp (parse_tag_simple _) _ _ => by apply parse_tag_simple_spec
    | |- wp (parse_tag_argument _ _ _) _ _ => by apply parse_tag_argument_spec
    | |- wp (parse_tag_opt_name _) _ _ => by apply parse_tag_opt_name_spec
    | |- _ => solve [eauto with tags]
    end.
Qed.

(** The error of a tag is reported here, and the markers that it left open are
    closed. *)
Lemma parse_tag_spec s : Ok_ s -> wp parse_tag (fun _ s' => At_ s false [] Any 0 s') s.
Proof.
  intros Hok. apply wp_bind, wp_gets, wp_bind. eapply wp_mono; [by apply parse_tag_detail_spec|].
  intros [cm|e] s1 Hr; simpl in Hr; [by apply wp_ret|].
  apply wp_bind. eapply (wp_report _ _ false); [exact Hr|]. clear Hr. intros s2 HA. apply wp_bind, wp_gets.
  pose proof (at_level _ _ _ _ _ _ _ _ HA) as Hl. cbn [length] in Hl. rewrite Nat.add_0_r in Hl.
  rewrite (proj2 (Nat.leb_le _ _) Hl). eapply wp_push_node_ends; [exact HA|lia|]. intros s3 _ _ HA3.
  eapply At_weaken; [exact HA3|simpl; lia|done].
Qed.

Lemma keeps_parse_tag s : Keeps_ 0 parse_tag s.
Proof. apply keeps_local. intros Hs. by apply parse_tag_spec. Qed.
#[local] Hint Resolve keeps_parse_tag : doc_keeps.

(** ** Lines *)

(** The first event of a node is that of a token, not a mark for the
    builder. *)
Lemma stepped_no_trivia b s s' tl :
  get_events b ++ eat_events tl = get_events s -> tl <> [] ->
  shapes (get_events s) `prefix_of` shapes (get_events s') ->
  get_events s' !! length (get_events b) <> Some Trivia.
Proof.
  intros Hev Hne Hpre Ht. destruct tl as [|[k r] tl]; [done|].
  assert (shapes (get_events s) !! length (get_events b) = Some (STok k r)) as Hl.
  { rewrite <-Hev, shapes_lookup, lookup_app_r by done. by rewrite Nat.sub_diag. }
  eapply prefix_lookup_Some in Hl; [|exact Hpre]. rewrite shapes_lookup, Ht in Hl. done.
Qed.

Lemma parse_normal_start_spec s :
  Ok_ s -> (current_token s =t TkEof) = false ->
  wp parse_normal_start (fun _ s' => At_ s false [] Tokens 1 s') s.
Proof.
  intros Hok Hc. unfold parse_normal_start. doc_start. doc_step. pose proof (At_ok _ _ _ _ _ _ HA) as Hok0.
  eapply (wp_mono _ (fun _ s' => At_ s0 false [] Tokens 1 s')).
  2: { intros [] s' HA'. eapply At_weaken; [exact (At_frame _ _ _ _ _ _ _ _ _ false _ _ HA HA' ltac:(done))|done|lia]. }
  clear HA. apply wp_bind. eapply doc_mark_first; [done|done|done|]. intros m s1 Hr _ Hev Hm HA.
  apply wp_bind. eapply doc_wp_bump; [exact HA|by rewrite (doc_current_rest _ _ Hr)|]. clear HA.
  intros s2 tl HS Hne HA. tidy HA. apply wp_bind.
  pose proof (doc_at_start s2 (At_ok _ _ _ _ _ _ HA)) as HB2.
  eapply wp_mono; [by apply (doc_keeps_if_token_bump TkWhitespace s2 _ _ _ _ _ HB2)|].
  intros r s3 HB3. cbv beta in HB3.
  pose proof (At_frame _ _ _ _ _ _ _ _ _ false _ _ HA HB3 ltac:(done)) as HA3. tidy HA3.
  apply wp_bind, doc_wp_cur, wp_bind. destruct (current_token s3 in_t [TkDocRegion; TkDocEndRegion]) eqn:Hreg.
  - apply wp_bind. eapply wp_undo; [exact HA3| |].
    { intros _. rewrite Hm.
      replace (S (length (get_events s0))) with (length (get_events s1)) by (rewrite Hev, length_app; simpl; lia).
      eapply (stepped_no_trivia s1 s2 _ tl); [symmetry; apply HS|done|apply HB3]. }
    intros _ s4 Hr4 _ HA4. clear HA HA3 HB2 HB3.
    eapply wp_keep; [exact HA4|apply doc_keeps_bump|]. clear HA4. intros _ s5 HA.
    apply wp_bind_inv. eapply wp_mono; [apply describe_spec; [done|by eapply At_ok]|]. intros [] s6 HA'.
    eapply At_weaken; [exact (At_frame _ _ _ _ _ _ _ _ _ false _ _ HA HA' ltac:(done))|simpl; lia|lia].
  - apply wp_ret. clear HA HB2 HB3. apply wp_bind, wp_bump_while; [done|by eapply At_ok|]. intros s4 HE.
    assert (exists j, 1 <= j /\ At_ s0 false [(position m, CComment)] Tokens j s4) as (j & Hj & HA4).
    { destruct HE as [->|HE]; [eexists; split; [|exact HA3]; lia|].
      eexists. split; [|exact (At_frame _ _ _ _ _ _ _ _ _ false _ _ HA3 HE ltac:(done))]. lia. }
    clear HA3. apply wp_bind. eapply wp_complete; [exact HA4|simpl; lia|]. intros cm s5 _ _ HA5. apply wp_ret.
    eapply At_weaken; [exact HA5|simpl; lia|done].
Qed.

Lemma parse_doc_line_spec s :
  Ok_ s -> (current_token s =t TkEof) = false -> wp parse_doc_line (fun _ s' => At_ s false [] Tokens 1 s') s.
Proof.
  intros Hok Hc. unfold parse_doc_line, parse_long_tag. apply wp_bind, doc_wp_cur.
  case_if; [|case_if; [|case_if; [by apply parse_normal_start_spec|case_if]]].
  - doc_start. do 2 doc_step. eapply wp_keep_last; [exact HA|apply keeps_parse_tag|simpl; lia|lia].
  - doc_start. do 2 doc_step. eapply wp_keep_last; [exact HA|apply keeps_parse_tag|simpl; lia|lia].
  - doc_start. do 2 doc_step. eapply wp_keep_last; [exact HA|apply keeps_description|simpl; lia|lia].
  - doc_start. eapply doc_wp_bump; [exact HA|done|]. intros s1 tl _ _ HA1.
    eapply At_weaken; [exact HA1|simpl; lia|lia].
Qed.

Lemma wp_bump_to_end b g ms q j s (Q : unit -> t -> Prop) :
  At_ b g ms q j s -> DocLexer.is_invalid (lexer s) = false ->
  (forall s', At_ b g ms q j s' -> Q tt s') -> wp bump_to_end Q s.
Proof.
  intros HA Hv HQ. pose proof (valid_not_eof (G := G) s (At_ok _ _ _ _ _ _ HA) Hv) as Hc.
  unfold bump_to_end. doc_step. apply wp_bind, wp_eat_and_lex; [by eapply At_ok|done|].
  intros s1 Hok1 HS Hp.
  pose proof (At_stepped _ _ _ _ _ _ _ _ 0 HA Hok1 HS ltac:(lia)) as HA1. clear HA.
  eapply wp_keep; [exact HA1|apply keeps_set_lexer_state|]. clear HA1. intros _ s2 HA.
  eapply wp_mono; [by apply doc_keeps_bump|]. intros [] s3 HA3. apply HQ.
  eapply At_weaken; [exact HA3|apply rank_join_l|lia].
Qed.

(** One round of [parse_docs]: it eats a token, and ends at the end of the
    group. *)
Lemma docs_step_spec s :
  Ok_ s -> wp (docs_step tt) (fun r s' =>
    match r with
    | inl _ => At_ s false [] Tokens 1 s'
    | inr _ => s' = s /\ (current_token s =t TkEof) = true
    end) s.
Proof.
  intros Hok. apply wp_bind, doc_wp_cur. case_if; [by apply wp_ret|].
  apply wp_bind. eapply wp_mono; [by apply parse_doc_line_spec|]. intros [] s1 HA.
  apply wp_bind, wp_gets, wp_bind.
  destruct (negb (DocLexer.is_invalid (lexer s1)) && _) eqn:Hu.
  - apply andb_true_iff in Hu as [Hv%negb_true_iff _].
    eapply wp_bump_to_end; [exact HA|done|]. intros s2 HA2. by apply wp_ret.
  - eapply wp_set_lexer_state; [exact HA|]. intros s2 _ HA2. by apply wp_ret.
Qed.

Lemma parse_docs_spec s :
  Ok_ s -> wp parse_docs (fun _ s' => Eats_ s s' /\ (current_token s' =t TkEof) = true) s.
Proof.
  intros Hok. apply wp_first_loop; [|done]. intros [] s1 Hok1 HE.
  eapply wp_mono; [by apply docs_step_spec|]. intros [[]|[]] s2 Hr; [done|].
  destruct Hr as [-> Hc]. by split.
Qed.

Lemma parse_comment_spec s :
  Ok_ s -> wp parse_comment (fun _ s' => At_ s false [] Any 0 s' /\ (current_token s' =t TkEof) = true) s.
Proof.
  intros Hok. apply wp_bind. eapply doc_mark_first; [done|done|done|]. intros m s0 _ _ Hev Hm HA.
  apply wp_bind. eapply wp_mono; [eapply parse_docs_spec, At_ok, HA|]. intros [] s1 [HE Hc].
  apply wp_bind. eapply wp_complete_eats; [exact HA|exact Hev|done|exact HE|]. intros cm s2 Hr HA2.
  apply wp_ret. split; [done|]. by rewrite (doc_current_rest _ _ Hr).
Qed.
End Comments.

(** ** A group, from the Lua parser *)

Section Group.
Context `{UnicodeTables} `{FiniteStack}.

(** Both parsers write the same events. *)
Lemma At_lua {inv pos} (b s : t) g ms q j :
  At inv pos b g ms q j s -> At any_rest no_pos (lua_parser b) g ms q 0 (lua_parser s).
Proof.
  intros [[_ Hev] Hsh Hm Hd Hl He _ Hc]. split; try done.
  intros HE. destruct (Hc HE) as [HP HM HS]. by split.
Qed.

Lemma covers_group (txt : rstring) toks a c :
  covers txt toks a c -> comment_group toks ->
  exists pre parts post, blen pre = a /\ c = blen (pre ++ concat parts)
    /\ forall lr, r_text lr = txt -> doc_group txt pre post toks parts lr.
Proof.
  intros (pre & parts & post & Ht & Ha & Hs & Hc & Hne & Hn) [Hk Hf].
  exists pre, parts, post. split_and!; [done|by rewrite blen_app, Ha|].
  intros lr Hr. by split; rewrite ?Ha.
Qed.

#[export] Instance doc_comments_laws : DocCommentsLaws.
Proof.
  split. intros toks a c p Hcov Hgroup Hev Hea.
  destruct (covers_group _ _ _ _ Hcov Hgroup) as (pre & parts & post & Ha & -> & HG).
  pose proof (HG (lua_rest p) eq_refl) as G.
  enough (wp (init ;;; parse_comment) (fun _ s' =>
    lua_rest (lua_parser s') = lua_rest p
    /\ At any_rest no_pos p false [] Any 0 (lua_parser s')
    /\ eaten_text (text p) (blen (pre ++ concat parts)) (eaten_of s')) (new p toks)) as Hw.
  { unfold wp in *. cbn [parse_doc_comment doc_comments]. unfold parse.
    destruct ((init ;;; parse_comment) (new p toks)) as [[[] s']| |]; [|done..].
    destruct Hw as (Hr & HA & He). split; [by split|].
    unfold eaten_to. replace (text (lua_parser s')) with (text p) by (by injection Hr). exact He. }
  apply wp_bind. eapply (doc_wp_init (G := G)); [done|done|done|done|done|by rewrite Ha|done|].
  intros s1 tl Hok1 HS.
  assert (At (@doc_inv (text p) pre toks parts (lua_rest p)) (@doc_pos pre parts) (new p toks) false [] Any 0 s1) as HA1.
  { eapply AtF_weaken; [eapply (AtF_eat tl 0); [apply HS|apply HS|apply HS|exact Hok1|]|done|done].
    unfold at_pos, doc_pos. simpl. lia. }
  eapply wp_mono; [by apply parse_comment_spec|]. intros [] s2 [HA2 Hc].
  pose proof (At_frame _ _ _ _ _ _ _ _ _ false _ _ HA1 HA2 ltac:(done)) as HA.
  destruct HA2 as [[[Hlr _ _ (before & cur & rem & after & HR & HC & He)] _] _ _ _ _ _ _ _].
  split_and!; [exact Hlr|by apply At_lua in HA|].
  assert (current_token s2 = TkEof) as Hc' by by destruct (current_token s2).
  destruct (ct_eof _ _ _ _ _ _ HC Hc') as (-> & -> & ->).
  pose proof (rd_all _ _ _ _ _ HR) as Hall. rewrite !app_nil_r in Hall. by rewrite Hall.
Qed.
End Group.

(** C4: a group of comments anywhere in a text, however malformed its tags and types
    are, is parsed without a panic and with enough fuel; every byte of the group
    is eaten, what was written before stays, the Lua parser's cursor is where it
    was, and the nodes that were opened are closed. *)
Theorem parse_doc_comment_total `{UnicodeTables} `{FiniteStack} toks a c (p : LuaParser) :
  covers (text p) toks a c -> comment_group toks -> events_ok (events p) -> eaten_to a p ->
  exists p', parse toks p = Done (tt, p')
    /\ eaten_to c p'
    /\ events_ok (events p')
    /\ shapes (events p) `prefix_of` shapes (events p')
    /\ errors p `prefix_of` errors p'
    /\ lua_rest p' = lua_rest p
    /\ mark_level p <= mark_level p'.
Proof.
  intros Hc Hg Hev Hea. pose proof (parse_doc_comment_spec toks a c p Hc Hg Hev Hea) as Hw.
  unfold wp in Hw. cbn [parse_doc_comment doc_comments] in Hw.
  destruct (parse toks p) as [[[] p']| |]; [|done..]. destruct Hw as [[Hr HA] He].
  exists p'. split_and!; [done|done|apply HA|apply HA|apply HA|done|].
  pose proof (at_level _ _ _ _ _ _ _ _ HA) as Hl. simpl in Hl. lia.
Qed.

(** A tag whose type is cut off: [---@type (a|]. *)
Lemma parse_doc_comment_total_witness :
  let stack := {| remaining_stack := fun d _ => if (d <? 9)%nat then Some (2 ^ 20)%N else None;
                  max_nesting := 9 |} in
  let s := str "---@type (a|" in
  let p := mkParser s [NodeStart Block 0] [] 0 TkEof 1 ParserConfig.default_config [] in
  exists p', @parse ascii_tables stack [mkToken TkShortComment (mkRange 0 12)] p = Done (tt, p')
    /\ eaten_to 12 p' /\ errors p' <> [].
Proof.
  intros stack s p.
  assert (@FiniteStack stack) as Hfin.
  { intros d es Hd. unfold parser_stack_exhausted, remaining_stack, stack, max_nesting in *.
    destruct (Nat.ltb_spec d 9); [lia|done]. }
  destruct (@parse_doc_comment_total ascii_tables stack Hfin
              [mkToken TkShortComment (mkRange 0 12)] 0 12 p) as (p' & Hp & He & _).
  - exists [], [s], []. split_and!; [done|done| |done|by repeat constructor|by repeat constructor].
    repeat constructor.
  - split; [by repeat constructor|]. eexists _, []. by split.
  - exact events_ok_block.
  - exists [], s. split_and!; [done|done|constructor].
  - exists p'. split_and!; [exact Hp|exact He|]. vm_compute in Hp. clear He. injection Hp as <-. discriminate.
Defined.
