(* ===== verification/TreeBuilder.v ===== *)
(** * From events to a syntax tree

    [src/crates/glua_parser/src/syntax/tree/] and the builder of the vendored
    rowan it drives.  [LuaTreeBuilder.build] replays the events, undoing the parent links;
    [Green] assembles nodes from them and decides which trivia a node keeps;
    [finish] hands the result to rowan's [GreenNodeBuilder]. *)

From stdpp Require Import list.
From S2P Require Import Prelude Kinds Text Marker.
Local Open Scope prog_scope.

(** ** rowan: green trees

    [src/vendor/rowan/src/green/builder.rs].  The node cache shares equal
    subtrees, which are immutable, so a tree is a value here; kinds are kept as
    [LuaKind], of which the raw number is an injective image
    ([from_raw_get_raw]). *)
Module Rowan.
#[warnings="-register-all"]
Inductive GreenNode : Type :=
  | GTok (kind : LuaKind) (text : rstring)
  | GNode (kind : LuaKind) (children : list GreenNode).

Record GreenNodeBuilder : Type := mkBuilder {
  parents : list (LuaKind * nat);  (* innermost first *)
  children : list GreenNode
}.

Definition new : GreenNodeBuilder := mkBuilder [] [].

Definition token (kind : LuaKind) (text : rstring) (b : GreenNodeBuilder) : GreenNodeBuilder :=
  mkBuilder (parents b) (children b ++ [GTok kind text]).

Definition start_node (kind : LuaKind) (b : GreenNodeBuilder) : GreenNodeBuilder :=
  mkBuilder ((kind, length (children b)) :: parents b) (children b).

(** [None] is a panic: no node is open, or the drained range is out of
    bounds. *)
Definition finish_node (b : GreenNodeBuilder) : option GreenNodeBuilder :=
  match parents b with
  | (kind, first_child) :: ps =>
      if first_child <=? length (children b) then
        Some (mkBuilder ps (take first_child (children b)
                            ++ [GNode kind (drop first_child (children b))]))
      else None
  | [] => None
  end.

Definition finish (b : GreenNodeBuilder) : option GreenNode :=
  match children b with
  | [GNode kind cs] => Some (GNode kind cs)
  | _ => None
  end.

(** The text of a tree. *)
Fixpoint text_of (n : GreenNode) : rstring :=
  match n with
  | GTok _ t => t
  | GNode _ cs => concat (map text_of cs)
  end.

(** Its tokens with their kinds, from left to right. *)
Fixpoint tokens_of (n : GreenNode) : list (LuaKind * rstring) :=
  match n with
  | GTok k t => [(k, t)]
  | GNode _ cs => concat (map tokens_of cs)
  end.

Definition kind_of (n : GreenNode) : LuaKind :=
  match n with GTok k _ => k | GNode k _ => k end.
End Rowan.

(** ** [LuaGreenNodeBuilder] *)
Module Green.
Inductive LuaGreenElement : Type :=
  | None_
  | Node (kind : LuaSyntaxKind) (children : list nat)
  | Token (kind : LuaTokenKind) (range : SourceRange).

Record t : Type := mk {
  parents : list (LuaSyntaxKind * nat);  (* innermost first *)
  children : list nat;                   (* indices of elements *)
  elements : list LuaGreenElement;
  builder : Rowan.GreenNodeBuilder
}.

Definition new : t := mk [] [] [] Rowan.new.

Definition set_children (cs : list nat) (b : t) : t := mk (parents b) cs (elements b) (builder b).
Definition set_builder (rb : Rowan.GreenNodeBuilder) (b : t) : t :=
  mk (parents b) (children b) (elements b) rb.

Definition token (kind : LuaTokenKind) (range : SourceRange) : M t unit := modify (fun b =>
  mk (parents b) (children b ++ [length (elements b)]) (elements b ++ [Token kind range]) (builder b)).

Definition start_node (kind : LuaSyntaxKind) : M t unit := modify (fun b =>
  mk ((kind, length (children b)) :: parents b) (children b) (elements b) (builder b)).

Definition is_trivia_element (e : LuaGreenElement) : bool :=
  match e with
  | Token k _ => k in_t [TkWhitespace; TkEndOfLine; TkDocContinue]
  | Node k _ => k in_k [Comment; DocDescription]
  | None_ => false
  end.

Definition is_whitespace_element (e : LuaGreenElement) : bool :=
  match e with
  | Token k _ => k in_t [TkWhitespace; TkEndOfLine]
  | _ => false
  end.

(** [self.elements.get(pos).is_some_and(..)] *)
Definition is_trivia (els : list LuaGreenElement) (pos : nat) : bool :=
  match els !! pos with Some e => is_trivia_element e | None => false end.

Definition is_trivia_whitespace (els : list LuaGreenElement) (pos : nat) : bool :=
  match els !! pos with Some e => is_whitespace_element e | None => false end.

(** [while child_start > 0 { if is_trivia(children[child_start - 1]) .. }] *)
Fixpoint pull_trivia (triv : nat -> bool) (cs : list nat) (child_start : nat) : option nat :=
  match child_start with
  | 0 => Some 0
  | S n => match cs !! n with
           | Some i => if triv i then pull_trivia triv cs n else Some (S n)
           | None => None
           end
  end.

(** [while child_start < child_count { if triv(children[child_start]) .. }]:
    how far it gets in the children from [child_start] on. *)
Fixpoint leading (triv : nat -> bool) (cs : list nat) : nat :=
  match cs with
  | i :: cs' => if triv i then S (leading triv cs') else 0
  | [] => 0
  end.

(** [while child_end > child_start { if triv(children[child_end]) .. }] *)
Fixpoint trim_end (triv : nat -> bool) (cs : list nat) (child_start child_end : nat) : nat :=
  match child_end with
  | 0 => 0
  | S n =>
      if child_start <? child_end then
        if match cs !! child_end with Some i => triv i | None => false end
        then trim_end triv cs child_start n
        else child_end
      else child_end
  end.

(** [self.children.drain(a..e)] *)
Definition drain (a e : nat) : M t (list nat) := fun b =>
  let cs := children b in
  if (a <=? e) && (e <=? length cs)
  then Done (take (e - a) (drop a cs), set_children (take a cs ++ drop e cs) b)
  else Panic.

(** [self.children.insert(i, pos)] *)
Definition insert_child (i pos : nat) : M t unit := fun b =>
  if i <=? length (children b)
  then Done (tt, set_children (take i (children b) ++ pos :: drop i (children b)) b)
  else Panic.

(** The two trimming arms of [finish_node]. *)
Definition take_trimmed (triv : list LuaGreenElement -> nat -> bool) (first_start : nat)
    : M t (list nat * nat * nat) :=
  els <- gets elements ;;
  cs <- gets children ;;
  let child_start := first_start + leading (triv els) (drop first_start cs) in
  let child_end := trim_end (triv els) cs child_start (length cs - 1) in
  taken <- drain child_start (child_end + 1) ;;
  ret (taken, child_start, child_end).

(** The arm for blocks, which reach back over the trivia before them. *)
Definition take_block (first_start : nat) : M t (list nat * nat * nat) :=
  els <- gets elements ;;
  cs <- gets children ;;
  child_start <- unwrap (pull_trivia (is_trivia els) cs first_start) ;;
  taken <- drain child_start (length cs) ;;
  ret (taken, child_start, length cs - 1).

(** The rest of [finish_node], after the parent was popped. *)
Definition finish_parent (parent_kind : LuaSyntaxKind) (first_start : nat) : M t unit :=
  child_count <- gets (fun b => length (children b)) ;;
  taken <- (if parent_kind in_k [Block; Chunk] then take_block first_start
            else if parent_kind in_k [Comment; TypeMultiLineUnion] then
              take_trimmed is_trivia_whitespace first_start
            else take_trimmed is_trivia first_start) ;;
  let '(taken, child_start, child_end) := taken in
  pos <- gets (fun b => length (elements b)) ;;
  modify (fun b => mk (parents b) (children b)
                      (elements b ++ [Node parent_kind taken]) (builder b)) ;;;
  if child_end + 1 <? child_count then insert_child child_start pos
  else modify (fun b => set_children (children b ++ [pos]) b).

Definition finish_node : M t unit := fun b =>
  match parents b, children b with
  | (parent_kind, first_start) :: ps, _ :: _ =>
      finish_parent parent_kind first_start (mk ps (children b) (elements b) (builder b))
  | _, _ => Done (tt, b)
  end.

(** *** Handing over to rowan *)

Record StackItem : Type := mkItem { index : nat; is_close : bool }.

(** [mem::replace(&mut self.elements[i], LuaGreenElement::None)] *)
Definition take_element (i : nat) : M t LuaGreenElement := fun b =>
  match elements b !! i with
  | Some e => Done (e, mk (parents b) (children b) (<[i := None_]> (elements b)) (builder b))
  | None => Panic
  end.

Definition rowan_finish_node : M t unit := fun b =>
  match Rowan.finish_node (builder b) with
  | Some rb => Done (tt, set_builder rb b)
  | None => Panic
  end.

Definition rowan (f : Rowan.GreenNodeBuilder -> Rowan.GreenNodeBuilder) : M t unit :=
  modify (fun b => set_builder (f (builder b)) b).

(** One round of [while let Some(item) = stack.pop()]; the stack's top is the
    head of the list. *)
Definition build_step (text : rstring) (stack : list StackItem)
    : M t (list StackItem + unit) :=
  match stack with
  | [] => ret (inr tt)
  | item :: stack =>
      if is_close item then
        rowan_finish_node ;;;
        ret (inl stack)
      else
        element <- take_element (index item) ;;
        match element with
        | Node kind children =>
            rowan (Rowan.start_node (Syntax kind)) ;;;
            ret (inl (map (fun child => mkItem child false) children
                      ++ mkItem (index item) true :: stack))
        | Token kind range =>
            token_text <- unwrap (str_slice text (start_offset range) (SourceRange.end_offset range)) ;;
            rowan (Rowan.token (Kinds.Token kind) token_text) ;;;
            ret (inl stack)
        | None_ => ret (inl stack)
        end
  end.

(** Every element is taken once, and a node puts one item per child and its
    closing item on the stack. *)
Definition element_cost (e : LuaGreenElement) : nat :=
  match e with Node _ cs => S (length cs) | _ => 0 end.

Definition build_rowan_green (parent : nat) (text : rstring) : M t unit :=
  loop_from (fun b => 2 + sum_list_with element_cost (elements b)) (build_step text)
    [mkItem parent false].

Definition is_chunk_root (els : list LuaGreenElement) (root_pos : nat) : option bool :=
  match els !! root_pos with
  | Some (Node k _) => Some (k =k Chunk)
  | Some _ => Some false
  | None => None
  end.

Definition rowan_finish : M t Rowan.GreenNode :=
  node <- gets (fun b => Rowan.finish (builder b)) ;;
  unwrap node.

Definition finish (text : rstring) : M t Rowan.GreenNode :=
  first <- gets (fun b => head (children b)) ;;
  match first with
  | Some root_pos =>
      is_chunk <- gets (fun b => is_chunk_root (elements b) root_pos) ;;
      is_chunk <- unwrap is_chunk ;;
      when (negb is_chunk) (rowan (Rowan.start_node (Syntax Chunk))) ;;;
      build_rowan_green root_pos text ;;;
      when (negb is_chunk) rowan_finish_node ;;;
      rowan_finish
  | None =>
      rowan (Rowan.start_node (Syntax Chunk)) ;;;
      rowan_finish_node ;;;
      rowan_finish
  end.
End Green.

(** ** [LuaTreeBuilder] *)
Module LuaTreeBuilder.
Record t : Type := mk {
  text : rstring;
  events : list MarkEvent;
  green_builder : Green.t
}.

Definition new (text : rstring) (events : list MarkEvent) : t := mk text events Green.new.

(** A call of the green builder. *)
Definition green {A} (m : M Green.t A) : M t A := fun s =>
  match m (green_builder s) with
  | Done (a, g) => Done (a, mk (text s) (events s) g)
  | Panic => Panic
  | OutOfFuel => OutOfFuel
  end.

(** [mem::replace(&mut self.events[i], MarkEvent::none())] *)
Definition take_event (i : nat) : M t MarkEvent := fun s =>
  match events s !! i with
  | Some e => Done (e, mk (text s) (<[i := MarkEvent_none]> (events s)) (green_builder s))
  | None => Panic
  end.

(** [while parent_position > 0]: the loop variables are the kinds collected so
    far and the position. *)
Definition parent_step (vars : list LuaSyntaxKind * nat)
    : M t (list LuaSyntaxKind * nat + list LuaSyntaxKind) :=
  let '(parents, parent_position) := vars in
  if 0 <? parent_position then
    ev <- take_event parent_position ;;
    match ev with
    | NodeStart kind parent => ret (inl (parents ++ [kind], parent))
    | _ => panic
    end
  else ret (inr parents).

Definition parents_fuel (s : t) : nat := S (length (events s)).

Fixpoint start_nodes (kinds : list LuaSyntaxKind) : M t unit :=
  match kinds with
  | [] => ret tt
  | k :: kinds' => green (Green.start_node k) ;;; start_nodes kinds'
  end.

Definition build_event (i : nat) : M t unit :=
  ev <- take_event i ;;
  match ev with
  | NodeStart kind parent =>
      if kind =k SkNone then ret tt
      else
        parents <- loop_from parents_fuel parent_step ([kind], parent) ;;
        start_nodes (rev parents)
  | Trivia => ret tt
  | NodeEnd => green Green.finish_node
  | EatToken kind range => green (Green.token kind range)
  end.

(** [for i in 0..self.events.len()] *)
Fixpoint build_from (n i : nat) : M t unit :=
  match n with
  | 0 => ret tt
  | S n' => build_event i ;;; build_from n' (S i)
  end.

Definition build : M t unit :=
  green (Green.start_node Chunk) ;;;
  n <- gets (fun s => length (events s)) ;;
  build_from n 0 ;;;
  green Green.finish_node.

Definition finish : M t Rowan.GreenNode := fun s =>
  match Green.finish (text s) (green_builder s) with
  | Done (node, g) => Done (node, mk (text s) (events s) g)
  | Panic => Panic
  | OutOfFuel => OutOfFuel
  end.

(** [builder.build(); builder.finish()] *)
Definition tree (text : rstring) (events : list MarkEvent) : outcome Rowan.GreenNode :=
  match (build ;;; finish) (new text events) with
  | Done (node, _) => Done node
  | Panic => Panic
  | OutOfFuel => OutOfFuel
  end.
End LuaTreeBuilder.
