(* ===== verification/TreeReplay.v ===== *)
(** * Replaying the events

    For the events of an error-free parse, [LuaTreeBuilder.build] performs
    exactly the actions that [Skel] says they denote.  Every start belongs to
    one chain of parent links; the chain is read, outermost first, at the place
    where it begins and is blanked, so that the other starts of it do nothing
    when their turn comes. *)

From S2P Require Import Prelude Kinds Text Marker Discipline TreeBuilder.
From stdpp Require Import list.
Local Open Scope prog_scope.

(** ** The calls of the green builder *)

Inductive BOp : Type :=
  | BStart (kind : LuaSyntaxKind)
  | BEnd
  | BTok (kind : LuaTokenKind) (range : SourceRange).

Definition run_op (o : BOp) : M Green.t unit :=
  match o with
  | BStart k => Green.start_node k
  | BEnd => Green.finish_node
  | BTok k r => Green.token k r
  end.

Fixpoint run_ops (ops : list BOp) : M Green.t unit :=
  match ops with
  | [] => ret tt
  | o :: ops' => run_op o ;;; run_ops ops'
  end.

Lemma wp_run_ops_app a c (Q : unit -> Green.t -> Prop) g :
  wp (run_ops (a ++ c)) Q g <-> wp (run_ops a) (fun _ => wp (run_ops c) Q) g.
Proof.
  revert g. induction a as [|o a IH]; intros g; simpl; [done|].
  unfold wp, bind in *. destruct (run_op o g) as [[[] g']| |]; [|done..]. apply IH.
Qed.

(** The kind a start has when all marker operations are done. *)
Definition start_kind (es : list MarkEvent) (p : nat) : LuaSyntaxKind :=
  match es !! p with Some (NodeStart k _) => k | _ => SkNone end.

Definition concrete (es : list MarkEvent) (a : AOp) : BOp :=
  match a with
  | AStart p _ => BStart (start_kind es p)
  | AEnd => BEnd
  | ATok k r => BTok k r
  end.

(** ** Chains of parent links *)

Inductive Chain (es : list MarkEvent) : nat -> list nat -> Prop :=
  | Chain_last i k : es !! i = Some (NodeStart k 0) -> (k =k SkNone) = false -> Chain es i [i]
  | Chain_link i k p l :
      es !! i = Some (NodeStart k p) -> (k =k SkNone) = false -> i < p ->
      es !! S p = Some Trivia -> Chain es p l -> Chain es i (i :: l).

Definition open_at (es : list MarkEvent) (p : nat) : AOp := AStart p (node_class (start_kind es p)).

Definition opens (es : list MarkEvent) (l : list nat) : list AOp := map (open_at es) (reverse l).

(** What the event at [j], at which the chain [l] begins, stands for. *)
Definition slot (es : list MarkEvent) (j : nat) (l : list nat) : list AOp :=
  match es !! j with
  | Some (EatToken k r) => [ATok k r]
  | Some NodeEnd => [AEnd]
  | Some (NodeStart _ _) => opens es l
  | _ => []
  end.

Fixpoint slots (es : list MarkEvent) (n : nat) (cs : list (list nat)) : list AOp :=
  match cs with
  | [] => []
  | l :: cs' => slot es n l ++ slots es (S n) cs'
  end.

(** [Plan es cs]: [cs] lists, for each position, the chain that begins there. *)
Record Plan (es : list MarkEvent) (cs : list (list nat)) : Prop := mkPlan {
  pl_length : length cs = length es;
  pl_chain : forall j l, cs !! j = Some l -> l = [] \/ Chain es j l;
  pl_cover : forall j k q, es !! j = Some (NodeStart k q) -> cs !! j = Some [] ->
    k = SkNone \/ j ∈ concat (take j cs);
  pl_nodup : NoDup (concat cs)
}.

Lemma Chain_in es i l j : Chain es i l -> j ∈ l ->
  exists k q, es !! j = Some (NodeStart k q) /\ (k =k SkNone) = false.
Proof.
  induction 1 as [i k Hi Hk|i k p l Hi Hk Hlt Ht Hc IH]; intros Hj.
  - apply list_elem_of_singleton in Hj as ->. eauto.
  - apply elem_of_cons in Hj as [->|Hj]; eauto.
Qed.

Lemma Chain_head es i l : Chain es i l -> exists l', l = i :: l'.
Proof. inversion 1; eauto. Qed.

(** Chains depend on the starts they contain and on what follows them. *)
Lemma Chain_agree es es' i l :
  Chain es i l ->
  (forall j k q, j ∈ l -> es !! j = Some (NodeStart k q) -> (k =k SkNone) = false ->
     exists k', es' !! j = Some (NodeStart k' q) /\ (k' =k SkNone) = false) ->
  (forall j, es !! j = Some Trivia -> es' !! j = Some Trivia) ->
  Chain es' i l.
Proof.
  intros Hc Hk Ht. induction Hc as [i k Hi Hn|i k p l Hi Hn Hlt Htr Hc IH].
  - destruct (Hk i k 0) as (k' & ? & ?); [by left|done..|]. by econstructor.
  - destruct (Hk i k p) as (k' & ? & ?); [by left|done..|]. econstructor; eauto.
    apply IH. intros j kj q Hj. apply Hk. by right.
Qed.

Lemma Chain_last_in es i l j : Chain es i l -> j ∈ l ->
  (exists k, es !! j = Some (NodeStart k 0)) -> exists l', l = l' ++ [j].
Proof.
  induction 1 as [i k Hi Hk|i k p l Hi Hk Hlt Ht Hc IH]; intros Hj Hl.
  - apply list_elem_of_singleton in Hj as ->. by exists [].
  - apply elem_of_cons in Hj as [->|Hj].
    + destruct Hl as [k' Hl]. rewrite Hi in Hl. injection Hl as -> ->. lia.
    + destruct (IH Hj Hl) as [l' ->]. by exists (i :: l').
Qed.

(** Lengthening a chain at its end. *)
Lemma Chain_extend es i l j k k' n :
  Chain es i (l ++ [j]) -> NoDup (l ++ [j]) ->
  es !! j = Some (NodeStart k 0) -> n = length es -> (k' =k SkNone) = false ->
  Chain (<[j := NodeStart k n]> es ++ [NodeStart k' 0; Trivia]) i ((l ++ [j]) ++ [n]).
Proof.
  intros Hc Hnd Hj -> Hk'. assert (j < length es) as Hjl by by eapply lookup_lt_Some.
  set (es' := <[j := NodeStart k (length es)]> es ++ [NodeStart k' 0; Trivia]).
  assert (Hj' : es' !! j = Some (NodeStart k (length es))).
  { unfold es'. rewrite lookup_app_l by by rewrite length_insert. by apply list_lookup_insert_eq. }
  assert (Hn : es' !! length es = Some (NodeStart k' 0)).
  { unfold es'. rewrite lookup_app_r; rewrite length_insert; [|done]. by rewrite Nat.sub_diag. }
  assert (HSn : es' !! S (length es) = Some Trivia).
  { unfold es'. rewrite lookup_app_r; rewrite length_insert; [|lia].
    by replace (S (length es) - length es) with 1 by lia. }
  assert (Hold : forall x, x <> j -> x < length es -> es' !! x = es !! x).
  { intros x Hx Hlt. unfold es'. rewrite lookup_app_l by by rewrite length_insert.
    by apply list_lookup_insert_ne. }
  assert (Hend : forall k0, (k0 =k SkNone) = false -> es !! j = Some (NodeStart k0 0) ->
            Chain es' j ([j] ++ [length es])).
  { intros k0 Hk0 Hjk. rewrite Hj in Hjk. injection Hjk as <-.
    eapply Chain_link; eauto. by econstructor. }
  revert i Hc. induction l as [|x l IH]; intros i Hc; simpl in *.
  - inversion Hc as [? k0 Hi Hk0|? k0 p ? Hi Hk0 ? ? Hp]; subst; [by eapply Hend|inversion Hp].
  - apply NoDup_cons in Hnd as [Hx Hnd].
    inversion Hc as [? ? Hi|? k0 p ? Hi Hk0 Hlt Htr Hp]; subst; [by destruct l|].
    assert (x <> j) as Hne. { intros ->. apply Hx. apply elem_of_app. right. by left. }
    eapply Chain_link; eauto; [by rewrite Hold; [|done|eapply lookup_lt_Some]|].
    rewrite Hold; [done| |by eapply lookup_lt_Some].
    intros <-. by rewrite Hj in Htr.
Qed.

(** ** Slots *)

Lemma slots_app es n a c : slots es n (a ++ c) = slots es n a ++ slots es (n + length a) c.
Proof.
  revert n. induction a as [|l a IH]; intros n; simpl; [by rewrite Nat.add_0_r|].
  by rewrite IH, <-app_assoc, Nat.add_succ_r.
Qed.

Lemma slots_agree es es' n cs :
  (forall j l, cs !! j = Some l -> slot es (n + j) l = slot es' (n + j) l) ->
  slots es n cs = slots es' n cs.
Proof.
  revert n. induction cs as [|l cs IH]; intros n Hs; simpl; [done|].
  rewrite (IH (S n)).
  - pose proof (Hs 0 l eq_refl) as H0. rewrite Nat.add_0_r in H0. by rewrite H0.
  - intros j l' Hl. specialize (Hs (S j) l' Hl). by rewrite Nat.add_succ_r in Hs.
Qed.

Lemma elem_of_concat {A} (x : A) ls : x ∈ concat ls <-> exists i l, ls !! i = Some l /\ x ∈ l.
Proof.
  induction ls as [|l ls IH]; simpl.
  - split; [by intros ?%elem_of_nil|by intros (i & l & ? & _)].
  - rewrite elem_of_app, IH. split.
    + intros [Hx|(i & l' & Hi & Hx)]; [by exists 0, l|by exists (S i), l'].
    + intros ([|i] & l' & Hi & Hx); [injection Hi as ->; by left|right; by exists i, l'].
Qed.

Lemma lookup_split {A} (l : list A) j x :
  l !! j = Some x -> exists l1 l2, l = l1 ++ x :: l2 /\ j = length l1.
Proof.
  intros Hj. exists (take j l), (drop (S j) l). rewrite take_drop_middle by done.
  split; [done|]. rewrite length_take. apply lookup_lt_Some in Hj. lia.
Qed.

Lemma opens_agree es es' l :
  (forall p, p ∈ l -> open_at es p = open_at es' p) -> opens es l = opens es' l.
Proof.
  intros Ho. unfold opens. apply map_ext_in. intros p Hp%list_elem_of_In.
  by apply Ho, elem_of_reverse.
Qed.

Lemma opens_snoc es l i : opens es (l ++ [i]) = open_at es i :: opens es l.
Proof. unfold opens. by rewrite reverse_snoc. Qed.

(** The positions of the starts among some actions. *)
Definition positions (sk : list AOp) : list nat :=
  omap (fun a => match a with AStart p _ => Some p | _ => None end) sk.

Lemma positions_app a c : positions (a ++ c) = positions a ++ positions c.
Proof. apply omap_app. Qed.

Lemma positions_opens es l : positions (opens es l) ≡ₚ l.
Proof.
  unfold opens. rewrite <-(reverse_Permutation l) at 2. generalize (reverse l). intros l'.
  induction l' as [|x l' IH]; simpl; [done|]. by rewrite IH.
Qed.

Lemma split_unique sk A B A' B' i c c' :
  sk = A ++ AStart i c :: B -> sk = A' ++ AStart i c' :: B' -> NoDup (positions sk) ->
  A = A' /\ c = c' /\ B = B'.
Proof.
  intros -> Heq Hnd. revert A' Heq Hnd. induction A as [|a A IH]; intros [|a' A'] Heq Hnd; simpl in *.
  - by injection Heq as -> ->.
  - injection Heq as <- ->. simpl in Hnd. apply NoDup_cons in Hnd as [Hn _].
    destruct Hn. rewrite positions_app. apply elem_of_app. right. by left.
  - injection Heq as -> <-. simpl in Hnd. apply NoDup_cons in Hnd as [Hn _].
    destruct Hn. rewrite positions_app. apply elem_of_app. right. by left.
  - injection Heq as <- Heq. destruct (IH A' Heq) as (-> & -> & ->); [|done].
    destruct a; simpl in Hnd; [by apply NoDup_cons in Hnd as [_ ?]|done..].
Qed.

(** ** Plans *)

Section PlanFacts.
Context (es : list MarkEvent) (cs : list (list nat)) (HP : Plan es cs).

Lemma plan_start j l i : cs !! j = Some l -> i ∈ l ->
  exists k q, es !! i = Some (NodeStart k q) /\ (k =k SkNone) = false.
Proof.
  intros Hl Hi. destruct (pl_chain _ _ HP j l Hl) as [->|Hc]; [by apply elem_of_nil in Hi|].
  by eapply Chain_in.
Qed.

Lemma plan_slot j l : cs !! j = Some l -> l <> [] -> slot es j l = opens es l.
Proof.
  intros Hl Hne. destruct (pl_chain _ _ HP j l Hl) as [->|Hc]; [done|].
  destruct (Chain_head _ _ _ Hc) as [l' ->].
  destruct (plan_start j _ j Hl) as (k & q & Hj & _); [by left|].
  unfold slot. by rewrite Hj.
Qed.

Lemma plan_positions : positions (slots es 0 cs) ≡ₚ concat cs.
Proof.
  assert (Hgen : forall n cs', (forall j l, cs' !! j = Some l -> cs !! (n + j) = Some l) ->
            positions (slots es n cs') ≡ₚ concat cs'); [|by apply Hgen].
  intros n cs'. revert n. induction cs' as [|l cs' IH]; intros n Hcs; simpl; [done|].
  rewrite positions_app. f_equiv.
  - pose proof (Hcs 0 l eq_refl) as Hl. rewrite Nat.add_0_r in Hl. destruct l as [|x l].
    + unfold slot. by destruct (es !! n) as [[]|].
    + by rewrite (plan_slot n _ Hl), positions_opens.
  - apply IH. intros j l' Hj. specialize (Hcs (S j) l' Hj). by rewrite Nat.add_succ_r in Hcs.
Qed.

Lemma plan_positions_nodup : NoDup (positions (slots es 0 cs)).
Proof. rewrite plan_positions. apply (pl_nodup _ _ HP). Qed.

(** Two chains have no start in common. *)
Lemma plan_disjoint j j' l l' i :
  cs !! j = Some l -> cs !! j' = Some l' -> i ∈ l -> i ∈ l' -> j = j'.
Proof.
  pose proof (pl_nodup _ _ HP) as Hnd. clear HP. revert j j' Hnd.
  induction cs as [|l0 cs' IH]; intros j j' Hnd Hj Hj' Hi Hi'; [done|].
  simpl in Hnd. apply NoDup_app in Hnd as (_ & Hdis & Hnd).
  destruct j as [|j], j' as [|j']; simpl in *; [done| | |f_equal; by eapply IH].
  - injection Hj as ->. destruct (Hdis i Hi). apply elem_of_concat. by exists j', l'.
  - injection Hj' as ->. destruct (Hdis i Hi'). apply elem_of_concat. by exists j, l.
Qed.

(** Where a start without a link stands in the plan, and so in the actions. *)
Lemma plan_find A B i c k :
  slots es 0 cs = A ++ AStart i c :: B -> es !! i = Some (NodeStart k 0) ->
  exists C1 C2 l, cs = C1 ++ (l ++ [i]) :: C2 /\ c = node_class k
    /\ A = slots es 0 C1 /\ B = opens es l ++ slots es (S (length C1)) C2.
Proof.
  intros Heq Hi. assert (i ∈ concat cs) as Hin.
  { rewrite <-plan_positions, Heq, positions_app. apply elem_of_app. right. by left. }
  apply elem_of_concat in Hin as (j & l & Hj & Hil).
  destruct (pl_chain _ _ HP j l Hj) as [->|Hc]; [by apply elem_of_nil in Hil|].
  destruct (Chain_last_in _ _ _ _ Hc Hil) as [l' ->]; [by exists k|].
  pose proof (plan_slot j _ Hj ltac:(by destruct l')) as Hslot.
  destruct (lookup_split _ _ _ Hj) as (C1 & C2 & Hcs & Hlen).
  assert (slots es 0 cs
          = slots es 0 C1 ++ AStart i (node_class k) :: opens es l' ++ slots es (S (length C1)) C2) as Hs.
  { rewrite Hcs, slots_app. simpl. rewrite <-Hlen, Hslot, opens_snoc.
    unfold open_at, start_kind at 1. by rewrite Hi. }
  destruct (split_unique _ _ _ _ _ _ _ _ Heq Hs plan_positions_nodup) as (-> & -> & ->).
  by exists C1, C2, l'.
Qed.
End PlanFacts.

(** ** Every [Skel] has a plan *)

Lemma open_at_app es es' p : p < length es -> open_at (es ++ es') p = open_at es p.
Proof. intros Hp. unfold open_at, start_kind. by rewrite lookup_app_l. Qed.

Lemma slots_extend es cs es' :
  Plan es cs -> slots (es ++ es') 0 cs = slots es 0 cs.
Proof.
  intros HP. apply slots_agree. intros j l Hl. simpl. unfold slot.
  assert (j < length es). { rewrite <-(pl_length _ _ HP). by eapply lookup_lt_Some. }
  rewrite lookup_app_l by done. destruct (es !! j) as [[]|]; try done.
  apply opens_agree. intros p Hp. apply open_at_app.
  destruct (plan_start _ _ HP j l p Hl Hp) as (k & q & Hk & _). by eapply lookup_lt_Some.
Qed.

Lemma concat_snoc {A} (ls : list (list A)) l : concat (ls ++ [l]) = concat ls ++ l.
Proof. by rewrite concat_app, concat_cons, app_nil_r. Qed.

Lemma Plan_snoc es cs e l :
  Plan es cs ->
  (l = [] /\ (forall k q, e <> NodeStart k q))
  \/ (l = [length es] /\ exists k, e = NodeStart k 0 /\ (k =k SkNone) = false) ->
  Plan (es ++ [e]) (cs ++ [l])
  /\ slots (es ++ [e]) 0 (cs ++ [l]) = slots es 0 cs ++ slot (es ++ [e]) (length es) l.
Proof.
  intros HP Hl. pose proof (pl_length _ _ HP) as Hlen.
  assert (Hnew : (es ++ [e]) !! length es = Some e) by (rewrite lookup_app_r, Nat.sub_diag; done).
  split; [split|].
  - rewrite !length_app. simpl. lia.
  - intros j l' Hj. apply lookup_app_Some in Hj as [Hj|[Hge Hj]].
    + destruct (pl_chain _ _ HP j l' Hj) as [->|Hc]; [by left|right].
      eapply Chain_agree; [exact Hc| |].
      * intros i k q _ Hi Hk. exists k. split; [|done]. by apply lookup_app_l_Some.
      * intros i Hi. by apply lookup_app_l_Some.
    + apply list_lookup_singleton_Some in Hj as [Hj <-]. assert (j = length es) as -> by lia.
      destruct Hl as [[-> _]|(-> & k & -> & Hk)]; [by left|right]. by eapply Chain_last.
  - intros j k q Hj Hj0. apply lookup_app_Some in Hj as [Hj|[Hge Hj]].
    + assert (j < length cs) as Hlt by (rewrite Hlen; by eapply lookup_lt_Some).
      rewrite lookup_app_l in Hj0 by done. rewrite take_app_le by lia.
      by eapply (pl_cover _ _ HP).
    + apply list_lookup_singleton_Some in Hj as [Hj ->]. assert (j = length es) as -> by lia.
      destruct Hl as [[-> Hne]|(-> & _)]; [by destruct (Hne k q)|].
      rewrite lookup_app_r in Hj0 by lia. by rewrite Hlen, Nat.sub_diag in Hj0.
  - rewrite concat_snoc. destruct Hl as [[-> _]|(-> & _)].
    + rewrite app_nil_r. apply (pl_nodup _ _ HP).
    + apply NoDup_app. split_and!; [apply (pl_nodup _ _ HP)| |apply NoDup_singleton].
      intros x Hx ->%list_elem_of_singleton. apply elem_of_concat in Hx as (j & l' & Hj & Hx).
      destruct (plan_start _ _ HP j l' _ Hj Hx) as (k' & q & Hk' & _).
      apply lookup_lt_Some in Hk'. lia.
  - rewrite slots_app, (slots_extend _ _ _ HP). simpl. by rewrite app_nil_r, Hlen.
Qed.

Lemma Plan_kind es cs i k q k' :
  Plan es cs -> es !! i = Some (NodeStart k q) -> (k =k SkNone) = false ->
  (k' =k SkNone) = false -> node_class k' = node_class k ->
  Plan (<[i := NodeStart k' q]> es) cs
  /\ slots (<[i := NodeStart k' q]> es) 0 cs = slots es 0 cs.
Proof.
  intros HP Hi Hk Hk' Hcl. assert (i < length es) as Hlt by by eapply lookup_lt_Some.
  assert (Hopen : forall p, open_at (<[i := NodeStart k' q]> es) p = open_at es p).
  { intros p. unfold open_at, start_kind. destruct (decide (i = p)) as [<-|Hne].
    - by rewrite list_lookup_insert_eq, Hi, Hcl.
    - by rewrite list_lookup_insert_ne. }
  split; [split|].
  - rewrite length_insert. apply (pl_length _ _ HP).
  - intros j l Hj. destruct (pl_chain _ _ HP j l Hj) as [->|Hc]; [by left|right].
    eapply Chain_agree; [exact Hc| |].
    + intros p kp qp _ Hp Hkp. destruct (decide (i = p)) as [<-|Hne].
      * rewrite Hi in Hp. injection Hp as -> ->. exists k'. by rewrite list_lookup_insert_eq.
      * exists kp. by rewrite list_lookup_insert_ne.
    + intros p Hp. rewrite list_lookup_insert_ne; [done|]. intros ->. by rewrite Hi in Hp.
  - intros j kj qj Hj Hj0. destruct (decide (i = j)) as [<-|Hne].
    + right. destruct (pl_cover _ _ HP i k q Hi Hj0) as [->|]; [|done]. done.
    + rewrite list_lookup_insert_ne in Hj by done. by eapply (pl_cover _ _ HP).
  - apply (pl_nodup _ _ HP).
  - apply slots_agree. intros j l _. simpl. unfold slot.
    assert (Hopens : opens (<[i:=NodeStart k' q]> es) l = opens es l) by (apply opens_agree; auto).
    rewrite Hopens. destruct (decide (i = j)) as [<-|Hne].
    + by rewrite list_lookup_insert_eq, Hi.
    + by rewrite list_lookup_insert_ne.
Qed.

Lemma elem_of_concat_take {A} (x : A) j ls :
  x ∈ concat (take j ls) <-> exists m l, m < j /\ ls !! m = Some l /\ x ∈ l.
Proof.
  rewrite elem_of_concat. split.
  - intros (m & l & [Hm Hlt]%lookup_take_Some & Hx). by exists m, l.
  - intros (m & l & Hlt & Hm & Hx). exists m, l. split; [|done]. by apply lookup_take_Some.
Qed.

(** Replacing one chain of a plan by a chain that has the same or more starts. *)
Lemma Plan_cover_mono es cs cs' j k q :
  Plan es cs -> es !! j = Some (NodeStart k q) -> cs !! j = Some [] ->
  (forall m l, m < j -> cs !! m = Some l -> exists l', cs' !! m = Some l' /\ l ⊆ l') ->
  k = SkNone \/ j ∈ concat (take j cs').
Proof.
  intros HP Hj Hc Hsub. destruct (pl_cover _ _ HP j k q Hj Hc) as [->|Hin]; [by left|right].
  apply elem_of_concat_take in Hin as (m & l & Hm & Hl & Hx).
  destruct (Hsub m l Hm Hl) as (l' & Hl' & Hs). apply elem_of_concat_take. exists m, l'. auto.
Qed.

Lemma insert_middle {A} (C1 C2 : list A) x y : <[length C1 := y]> (C1 ++ x :: C2) = C1 ++ y :: C2.
Proof. by rewrite insert_app_r_alt, Nat.sub_diag. Qed.

Lemma lookup_middle {A} (C1 C2 : list A) x : (C1 ++ x :: C2) !! length C1 = Some x.
Proof. by rewrite lookup_app_r, Nat.sub_diag. Qed.

Section Precede.
Context (es : list MarkEvent) (C1 C2 : list (list nat)) (l : list nat) (i : nat)
  (k k' : LuaSyntaxKind) (HP : Plan es (C1 ++ (l ++ [i]) :: C2))
  (Hi : es !! i = Some (NodeStart k 0)) (Hk : (k =k SkNone) = false)
  (Hk' : (k' =k SkNone) = false).

Let n := length es.
Let es' := <[i := NodeStart k n]> es ++ [NodeStart k' 0; Trivia].
Let cs' := (C1 ++ ((l ++ [i]) ++ [n]) :: C2) ++ [[]; []].

Lemma precede_lt : i < n.
Proof. by eapply lookup_lt_Some. Qed.

Lemma precede_old x : x <> i -> x < n -> es' !! x = es !! x.
Proof.
  intros Hx Hlt. unfold es'. rewrite lookup_app_l by by rewrite length_insert.
  by apply list_lookup_insert_ne.
Qed.

Lemma precede_at : es' !! i = Some (NodeStart k n).
Proof.
  unfold es'. rewrite lookup_app_l by (rewrite length_insert; apply precede_lt).
  apply list_lookup_insert_eq, precede_lt.
Qed.

Lemma precede_new : es' !! n = Some (NodeStart k' 0).
Proof.
  unfold es', n. rewrite lookup_app_r; rewrite length_insert; [|done]. by rewrite Nat.sub_diag.
Qed.

Lemma precede_trivia : es' !! S n = Some Trivia.
Proof.
  unfold es', n. rewrite lookup_app_r; rewrite length_insert; [|lia].
  by replace (S (length es) - length es) with 1 by lia.
Qed.

Lemma precede_cs j x : cs' !! j = Some x ->
  (x = [] /\ n <= j) \/ (j = length C1 /\ x = (l ++ [i]) ++ [n])
  \/ (j <> length C1 /\ (C1 ++ (l ++ [i]) :: C2) !! j = Some x).
Proof.
  assert (Hlen : length (C1 ++ ((l ++ [i]) ++ [n]) :: C2) = n).
  { pose proof (pl_length _ _ HP) as Hp. unfold n. rewrite <-Hp, !length_app. done. }
  unfold cs'. intros [Hj|[Hge Hj]]%lookup_app_Some.
  - right. destruct (decide (j = length C1)) as [->|Hne].
    + left. rewrite lookup_middle in Hj. by injection Hj as <-.
    + right. split; [done|]. rewrite <-(insert_middle _ _ (l ++ [i])) in Hj.
      by rewrite list_lookup_insert_ne in Hj.
  - left. rewrite Hlen in Hge. split; [|done].
    destruct (j - _) as [|[|?]]; simpl in Hj; by simplify_eq.
Qed.

Lemma precede_open p : p < n -> p <> n -> open_at es' p = open_at es p.
Proof.
  intros Hp _. unfold open_at, start_kind. destruct (decide (p = i)) as [->|Hne].
  - by rewrite precede_at, Hi.
  - by rewrite precede_old.
Qed.

Lemma precede_opens j x :
  (C1 ++ (l ++ [i]) :: C2) !! j = Some x -> opens es' x = opens es x.
Proof.
  intros Hx. apply opens_agree. intros p Hp.
  destruct (plan_start _ _ HP j x p Hx Hp) as (kp & q & Hkp & _).
  apply lookup_lt_Some in Hkp. apply precede_open; unfold n; lia.
Qed.

Lemma precede_slot j x :
  (C1 ++ (l ++ [i]) :: C2) !! j = Some x -> slot es' j x = slot es j x.
Proof.
  intros Hx. assert (j < n) as Hlt.
  { unfold n. rewrite <-(pl_length _ _ HP). by eapply lookup_lt_Some. }
  unfold slot. destruct (decide (j = i)) as [->|Hne].
  - rewrite precede_at, Hi. by eapply precede_opens.
  - rewrite precede_old by done. destruct (es !! j) as [[]|]; try done. by eapply precede_opens.
Qed.

Lemma precede_slots :
  slots es' 0 cs' = slots es 0 C1 ++ AStart n (node_class k') :: open_at es i
                    :: opens es l ++ slots es (S (length C1)) C2.
Proof.
  assert (Hlen : length C1 + S (length C2) = n).
  { pose proof (pl_length _ _ HP) as Hp. rewrite length_app in Hp. exact Hp. }
  unfold cs'. rewrite !slots_app. simpl.
  assert (H1 : slots es' 0 C1 = slots es 0 C1).
  { apply slots_agree. intros j x Hx. eapply precede_slot. by apply lookup_app_l_Some. }
  assert (H2 : slots es' (S (length C1)) C2 = slots es (S (length C1)) C2).
  { apply slots_agree. intros j x Hx. eapply precede_slot.
    rewrite lookup_app_r by lia.
    by replace (S (length C1) + j - length C1) with (S j) by lia. }
  rewrite H1, H2, length_app. simpl.
  assert (H3 : slot es' (length C1) ((l ++ [i]) ++ [n])
               = AStart n (node_class k') :: open_at es i :: opens es l).
  { pose proof (plan_slot _ _ HP _ _ (lookup_middle C1 C2 _) ltac:(by destruct l)) as Hs.
    assert (Hsl : slot es' (length C1) ((l ++ [i]) ++ [n]) = opens es' ((l ++ [i]) ++ [n])).
    { destruct (pl_chain _ _ HP _ _ (lookup_middle C1 C2 _)) as [Hnil|Hc]; [by destruct l|].
      destruct (Chain_head _ _ _ Hc) as [l' Hl'].
      destruct (plan_start _ _ HP _ _ (length C1) (lookup_middle C1 C2 _)) as (kc & q & Hkc & _).
      { rewrite Hl'. by left. }
      unfold slot. destruct (decide (length C1 = i)) as [->|Hne]; [by rewrite precede_at|].
      rewrite precede_old; [by rewrite Hkc|done|]. by eapply lookup_lt_Some. }
    rewrite Hsl, opens_snoc, (precede_opens (length C1)) by apply lookup_middle.
    rewrite opens_snoc. unfold open_at at 1, start_kind. by rewrite precede_new. }
  rewrite H3, <-app_assoc. simpl.
  assert (H4 : slot es' (length C1 + S (length C2)) [] = []).
  { rewrite Hlen. unfold slot. by rewrite precede_new. }
  assert (H5 : slot es' (S (length C1 + S (length C2))) [] = []).
  { rewrite Hlen. unfold slot. by rewrite precede_trivia. }
  by rewrite H4, H5, !app_nil_r.
Qed.

Lemma Plan_precede : Plan es' cs'.
Proof.
  assert (Hlen : length (C1 ++ (l ++ [i]) :: C2) = n) by apply (pl_length _ _ HP).
  assert (Hnew : forall j x, (C1 ++ (l ++ [i]) :: C2) !! j = Some x -> n ∉ x).
  { intros j x Hx Hn. destruct (plan_start _ _ HP j x n Hx Hn) as (kp & q & Hkp & _).
    apply lookup_lt_Some in Hkp. unfold n in Hkp. lia. }
  split.
  - rewrite length_app in Hlen. simpl in Hlen. unfold cs', es'.
    rewrite !length_app, length_insert. fold n. simpl. lia.
  - intros j x Hx. destruct (precede_cs j x Hx) as [[-> _]|[[-> ->]|[Hne Hx']]]; [by left|right|].
    + destruct (pl_chain _ _ HP _ _ (lookup_middle C1 C2 (l ++ [i]))) as [Hnil|Hc]; [by destruct l|].
      apply Chain_extend; [done| |done..]. pose proof (pl_nodup _ _ HP) as Hnd.
      rewrite concat_app in Hnd. simpl in Hnd. apply NoDup_app in Hnd as (_ & _ & Hnd).
      by apply NoDup_app in Hnd as (Hnd & _).
    + destruct (pl_chain _ _ HP j x Hx') as [->|Hc]; [by left|right].
      eapply Chain_agree; [exact Hc| |].
      * intros p kp qp Hp Hkp Hkn. exists kp. split; [|done].
        rewrite precede_old; [done| |by eapply lookup_lt_Some]. intros ->.
        destruct Hne. eapply (plan_disjoint _ _ HP); [exact Hx'|apply lookup_middle|done|].
        apply elem_of_app. right. by left.
      * intros p Hp. rewrite precede_old; [done| |by eapply lookup_lt_Some].
        intros ->. by rewrite Hi in Hp.
  - intros j kj qj Hj Hj0. destruct (decide (j < n)) as [Hlt|Hge].
    + destruct (precede_cs j [] Hj0) as [[_ ?]|[[_ Habs]|[Hne Hx']]]; [lia|by destruct l|].
      assert (exists k0 q0, es !! j = Some (NodeStart k0 q0) /\ k0 = kj) as (k0 & q0 & Hj1 & ->).
      { destruct (decide (j = i)) as [->|Hn2].
        - rewrite precede_at in Hj. injection Hj as <- _. by exists k, 0.
        - rewrite precede_old in Hj by done. by exists kj, qj. }
      eapply (Plan_cover_mono _ _ _ _ _ _ HP Hj1 Hx').
      intros m x Hm Hmx. unfold cs'. destruct (decide (m = length C1)) as [->|Hn2].
      * exists ((l ++ [i]) ++ [n]). rewrite lookup_middle in Hmx. injection Hmx as <-.
        split; [apply lookup_app_l_Some, lookup_middle|]. intros y Hy. apply elem_of_app. by left.
      * exists x. split; [|done]. apply lookup_app_l_Some.
        rewrite <-(insert_middle _ _ (l ++ [i])). by rewrite list_lookup_insert_ne.
    + right. assert (j = n) as ->.
      { pose proof (lookup_lt_Some _ _ _ Hj) as Hl. unfold es' in Hl.
        rewrite length_app, length_insert in Hl. fold n in Hl. simpl in Hl.
        destruct (decide (j = n)) as [|Hn2]; [done|]. assert (j = S n) as -> by lia.
        by rewrite precede_trivia in Hj. }
      apply elem_of_concat_take. exists (length C1), ((l ++ [i]) ++ [n]). split_and!.
      * rewrite <-Hlen, length_app. simpl. lia.
      * apply lookup_app_l_Some, lookup_middle.
      * apply elem_of_app. right. by left.
  - pose proof (pl_nodup _ _ HP) as Hnd. unfold cs'.
    assert (Hperm : concat ((C1 ++ ((l ++ [i]) ++ [n]) :: C2) ++ [[]; []])
                    ≡ₚ n :: concat (C1 ++ (l ++ [i]) :: C2)).
    { rewrite !concat_app. simpl. rewrite !app_nil_r.
      rewrite <-(app_assoc (l ++ [i]) [n]), app_assoc. simpl.
      rewrite <-Permutation_middle. by rewrite <-app_assoc. }
    rewrite Hperm. apply NoDup_cons. split; [|done].
    intros (j & x & Hx & Hin)%elem_of_concat. by destruct (Hnew j x Hx).
Qed.
End Precede.

Lemma Chain_linked es j l i : Chain es j (l ++ [i]) -> l <> [] -> es !! S i = Some Trivia.
Proof.
  revert j. induction l as [|x l IH]; intros j Hc Hne; [done|].
  inversion Hc as [? ? ? ? Heq|? ? p ? ? ? ? Ht Hp]; subst; [by destruct l|].
  destruct l as [|y l]; [|by eapply IH].
  destruct (Chain_head _ _ _ Hp) as [l' Hl']. simpl in Hl'. injection Hl' as Hl' _. by subst.
Qed.

Lemma Plan_none es C1 C2 l i k :
  Plan es (C1 ++ (l ++ [i]) :: C2) -> es !! i = Some (NodeStart k 0) -> es !! S i <> Some Trivia ->
  l = [] /\ Plan (<[i := NodeStart SkNone 0]> es) (C1 ++ [] :: C2)
  /\ slots (<[i := NodeStart SkNone 0]> es) 0 (C1 ++ [] :: C2)
     = slots es 0 C1 ++ slots es (S (length C1)) C2.
Proof.
  intros HP Hi Ht. pose proof (lookup_middle C1 C2 (l ++ [i])) as Hmid.
  destruct (pl_chain _ _ HP _ _ Hmid) as [Hnil|Hc]; [by destruct l|].
  assert (l = []) as ->.
  { destruct l as [|x l]; [done|]. by destruct Ht, (Chain_linked es (length C1) (x :: l) i). }
  destruct (Chain_head _ _ _ Hc) as [l' [= Hi1 _]].
  assert (i < length es) as Hlt by by eapply lookup_lt_Some.
  set (es' := <[i := NodeStart SkNone 0]> es).
  assert (Hat : es' !! i = Some (NodeStart SkNone 0)) by by apply list_lookup_insert_eq.
  assert (Hold : forall j, j <> i -> es' !! j = es !! j) by by intros; apply list_lookup_insert_ne.
  assert (Hsame : forall j, j <> i -> (C1 ++ [] :: C2) !! j = (C1 ++ ([] ++ [i]) :: C2) !! j).
  { intros j Hne. rewrite <-(insert_middle C1 C2 ([] ++ [i]) []).
    apply list_lookup_insert_ne. by rewrite <-Hi1. }
  assert (Hoth : forall j x, j <> i -> (C1 ++ [] :: C2) !! j = Some x ->
            (C1 ++ ([] ++ [i]) :: C2) !! j = Some x).
  { intros j x Hne Hx. by rewrite <-Hsame. }
  assert (Hni : forall j x, j <> i -> (C1 ++ ([] ++ [i]) :: C2) !! j = Some x -> i ∉ x).
  { intros j x Hne Hx Hin. destruct Hne. rewrite Hi1.
    eapply (plan_disjoint _ _ HP); [exact Hx|exact Hmid|done|]. by left. }
  split; [done|]. split; [split|].
  - unfold es'. rewrite length_insert, <-(pl_length _ _ HP), !length_app. done.
  - intros j x Hx. destruct (decide (j = i)) as [->|Hne].
    { left. rewrite Hi1, lookup_middle in Hx. by injection Hx. }
    apply Hoth in Hx; [|done].
    destruct (pl_chain _ _ HP j x Hx) as [->|Hcx]; [by left|right].
    eapply Chain_agree; [exact Hcx| |].
    + intros p kp qp Hp Hkp Hkn. exists kp. split; [|done]. rewrite Hold; [done|].
      intros ->. by apply (Hni j x).
    + intros p Hp. rewrite Hold; [done|]. intros ->. by rewrite Hi in Hp.
  - intros j kj qj Hj Hj0. destruct (decide (j = i)) as [->|Hne].
    { left. rewrite Hat in Hj. by injection Hj. }
    rewrite Hold in Hj by done. apply Hoth in Hj0; [|done].
    destruct (pl_cover _ _ HP j kj qj Hj Hj0) as [->|Hin]; [by left|right].
    apply elem_of_concat_take in Hin as (m & x & Hm & Hx & Hjx).
    assert (m <> i) as Hmi.
    { intros ->. rewrite Hi1, lookup_middle in Hx. injection Hx as <-.
      apply list_elem_of_singleton in Hjx. lia. }
    apply elem_of_concat_take. exists m, x. split_and!; [done| |done].
    by rewrite Hsame.
  - pose proof (pl_nodup _ _ HP) as Hnd. rewrite concat_app in *. simpl in *.
    apply NoDup_app in Hnd as (H1 & H2 & [_ H3]%NoDup_cons). apply NoDup_app. split_and!; [done| |done].
    intros x Hx Hx'. apply (H2 x Hx). by right.
  - assert (Hsl : forall j x, j <> i -> (C1 ++ ([] ++ [i]) :: C2) !! j = Some x -> slot es' j x = slot es j x).
    { intros j x Hne Hx. unfold slot. rewrite Hold by done.
      assert (opens es' x = opens es x) as ->; [|done].
      apply opens_agree. intros p Hp. unfold open_at, start_kind. rewrite Hold; [done|].
      intros ->. by apply (Hni j x). }
    rewrite slots_app. simpl. f_equal; [|].
    + apply slots_agree. intros j x Hx. simpl. apply Hsl; [|by apply lookup_app_l_Some].
      apply lookup_lt_Some in Hx. lia.
    + unfold slot. rewrite <-Hi1, Hat. simpl. apply slots_agree. intros j x Hx.
      apply Hsl; [lia|]. rewrite lookup_app_r by lia. rewrite <-Hi1.
      by replace (S i + j - i) with (S j) by lia.
Qed.

Lemma Skel_plan es sk : Skel es sk -> exists cs, Plan es cs /\ sk = slots es 0 cs.
Proof.
  induction 1 as [|es sk k HS IH Hk|es sk k r HS IH|es sk HS IH|es sk i k q k' HS IH Hi Hk Hk' Hcl
                  |es A i c B k k' HS IH Hi Hk Hk' Hcl|es A i c B k HS IH Hi Ht].
  - exists []. split; [|done]. split; [done|done|done|constructor].
  - destruct IH as (cs & HP & ->). exists (cs ++ [[length es]]).
    edestruct (Plan_snoc es cs (NodeStart k 0) [length es] HP) as [HP' ->]; [right; eauto|].
    split; [done|]. f_equal. unfold slot. rewrite lookup_app_r, Nat.sub_diag by done. simpl.
    unfold opens, open_at, start_kind. simpl. by rewrite lookup_app_r, Nat.sub_diag by done.
  - destruct IH as (cs & HP & ->). exists (cs ++ [[]]).
    edestruct (Plan_snoc es cs (EatToken k r) [] HP) as [HP' ->]; [by left|].
    split; [done|]. f_equal. unfold slot. by rewrite lookup_app_r, Nat.sub_diag by done.
  - destruct IH as (cs & HP & ->). exists (cs ++ [[]]).
    edestruct (Plan_snoc es cs NodeEnd [] HP) as [HP' ->]; [by left|].
    split; [done|]. f_equal. unfold slot. by rewrite lookup_app_r, Nat.sub_diag by done.
  - destruct IH as (cs & HP & ->). exists cs. edestruct Plan_kind as [HP' ->]; eauto.
  - destruct IH as (cs & HP & Hsk). symmetry in Hsk.
    destruct (plan_find _ _ HP _ _ _ _ _ Hsk Hi) as (C1 & C2 & l & -> & -> & -> & ->).
    eexists. split; [by eapply Plan_precede|]. rewrite precede_slots by done.
    unfold open_at, start_kind. by rewrite Hi.
  - destruct IH as (cs & HP & Hsk). symmetry in Hsk.
    destruct (plan_find _ _ HP _ _ _ _ _ Hsk Hi) as (C1 & C2 & l & -> & -> & -> & ->).
    destruct (Plan_none _ _ _ _ _ _ HP Hi Ht) as (-> & HP' & Hs). eexists. split; [exact HP'|].
    by rewrite Hs.
Qed.

(** ** Running the builder along a plan *)

Section Replay.
Import LuaTreeBuilder.

Lemma wp_green {A} (m : M Green.t A) (Q : A -> t -> Prop) s :
  wp m (fun a g => Q a (mk (text s) (events s) g)) (green_builder s) -> wp (green m) Q s.
Proof. unfold wp, green. by destruct (m (green_builder s)) as [[a g]| |]. Qed.

Lemma wp_start_nodes ks (Q : unit -> t -> Prop) s :
  wp (run_ops (map BStart ks)) (fun _ g => Q tt (mk (text s) (events s) g)) (green_builder s) ->
  wp (start_nodes ks) Q s.
Proof.
  revert s. induction ks as [|k ks IH]; intros s Hw; simpl.
  - apply wp_ret. by destruct s.
  - apply wp_bind, wp_green. unfold Green.start_node. apply wp_modify, IH. exact Hw.
Qed.

Lemma wp_take_event i e (Q : MarkEvent -> t -> Prop) s :
  events s !! i = Some e ->
  Q e (mk (text s) (<[i := MarkEvent_none]> (events s)) (green_builder s)) -> wp (take_event i) Q s.
Proof. intros Hi HQ. unfold wp, take_event. by rewrite Hi. Qed.

Lemma Chain_length es i l : Chain es i l -> i + length l <= length es.
Proof.
  induction 1 as [i k Hi|i k p l Hi Hk Hlt Ht Hc IH]; simpl; [|lia].
  apply lookup_lt_Some in Hi. lia.
Qed.

Lemma Chain_le es i l x : Chain es i l -> x ∈ l -> i <= x.
Proof.
  induction 1 as [i k Hi|i k p l Hi Hk Hlt Ht Hc IH]; intros Hx.
  - apply list_elem_of_singleton in Hx. lia.
  - apply elem_of_cons in Hx as [->|Hx]; [lia|]. specialize (IH Hx). lia.
Qed.

Lemma concrete_opens es l :
  map (concrete es) (opens es l) = map BStart (rev (map (start_kind es) l)).
Proof.
  unfold opens, reverse. rewrite map_map, <-rev_alt, <-map_rev, map_map. done.
Qed.

(** [blanked ls ev ev']: [ev'] is [ev] with the positions in [ls] blanked. *)
Definition blanked (ls : list nat) (ev ev' : list MarkEvent) : Prop :=
  length ev' = length ev
  /\ forall x, x < length ev -> ev' !! x = if decide (x ∈ ls) then Some MarkEvent_none else ev !! x.

Lemma blanked_insert i ev : blanked [i] ev (<[i := MarkEvent_none]> ev).
Proof.
  split; [apply length_insert|]. intros x Hx. case_decide as Hd.
  - apply list_elem_of_singleton in Hd as ->. by apply list_lookup_insert_eq.
  - apply list_lookup_insert_ne. intros ->. apply Hd. by left.
Qed.

Lemma blanked_twice j l ev ev' : blanked (j :: l) ev ev' -> blanked (j :: j :: l) ev ev'.
Proof.
  intros [Hl Hb]. split; [done|]. intros x Hx. rewrite Hb by done.
  repeat case_decide; rewrite ?elem_of_cons in *; try done; tauto.
Qed.

Lemma blanked_trans a c ev ev1 ev2 :
  blanked a ev ev1 -> blanked c ev1 ev2 -> blanked (a ++ c) ev ev2.
Proof.
  intros [Hl1 H1] [Hl2 H2]. split; [congruence|]. intros x Hx.
  rewrite H2 by (by rewrite Hl1). rewrite H1 by done.
  repeat case_decide; rewrite ?elem_of_app in *; try done; tauto.
Qed.

Definition start_link (es : list MarkEvent) (q : nat) (l : list nat) : Prop :=
  (q = 0 /\ l = []) \/ (0 < q /\ Chain es q l).

Lemma wp_parents es fuel ks q l s (Q : list LuaSyntaxKind -> t -> Prop) :
  start_link es q l -> length l < fuel -> NoDup l ->
  (forall x, x ∈ l -> events s !! x = es !! x) ->
  (forall ev, blanked l (events s) ev ->
     Q (ks ++ map (start_kind es) l) (mk (text s) ev (green_builder s))) ->
  wp (loop fuel parent_step (ks, q)) Q s.
Proof.
  revert fuel ks q s. induction l as [|i l IH]; intros [|fuel] ks q s Hl Hf Hnd Hev HQ; simpl in Hf; try lia.
  - destruct Hl as [[-> _]|[_ Hc]]; [|by apply Chain_head in Hc as [? ?]].
    simpl. apply wp_bind, wp_ret, wp_ret. destruct s as [tx ev g].
    specialize (HQ ev). rewrite app_nil_r in HQ. apply HQ. split; [done|]. intros x _.
    by case_decide as Hd; [apply elem_of_nil in Hd|].
  - destruct Hl as [[_ ?]|[Hq Hc]]; [done|]. destruct (Chain_head _ _ _ Hc) as [l' [= <- _]]. clear l'.
    assert (exists k q', es !! i = Some (NodeStart k q') /\ start_link es q' l) as (k & q' & Hi & Hl').
    { inversion Hc; subst; [|]; eexists _, _; (split; [done|]); [by left|right; split; [lia|done]]. }
    simpl. apply NoDup_cons in Hnd as [Hni Hnd].
    unfold parent_step at 1. destruct (Nat.ltb_spec 0 i); [|lia].
    apply wp_bind, wp_bind. eapply wp_take_event; [rewrite Hev; [exact Hi|by left]|].
    apply wp_ret. simpl. apply IH; [done|lia|done| |].
    + intros x Hx. simpl. rewrite list_lookup_insert_ne by (by intros ->). apply Hev. by right.
    + intros ev Hb. specialize (HQ ev). simpl in HQ.
      assert (start_kind es i = k) as Hk by (unfold start_kind; by rewrite Hi).
      rewrite Hk in HQ. rewrite <-app_assoc. apply HQ.
      by apply (blanked_trans [i] l _ _ _ (blanked_insert i (events s))).
Qed.

Record Cur es (cs : list (list nat)) (j : nat) (s : t) : Prop := mkCur {
  cur_length : length (events s) = length es;
  cur_events : forall x, j <= x -> x < length es ->
    events s !! x = if decide (x ∈ concat (take j cs)) then Some MarkEvent_none else es !! x
}.

Lemma Cur_step es cs j l s ev g :
  Plan es cs -> cs !! j = Some l -> Cur es cs j s -> blanked (j :: l) (events s) ev ->
  Cur es cs (S j) (mk (text s) ev g).
Proof.
  intros HP Hl [Hlen Hcur] [Hbl Hb]. split; simpl; [congruence|].
  intros x Hx Hlt. rewrite Hb by (rewrite Hlen; lia). rewrite Hcur by lia.
  rewrite (take_S_r cs j l) by done. rewrite concat_snoc.
  repeat case_decide; rewrite ?elem_of_app, ?elem_of_cons in *; try done; [|tauto|tauto].
  destruct H as [->|?]; [lia|tauto].
Qed.

Lemma wp_build_event es cs j l s (Q : unit -> t -> Prop) :
  Plan es cs -> cs !! j = Some l -> Cur es cs j s ->
  wp (run_ops (map (concrete es) (slot es j l)))
     (fun _ g => forall ev, Cur es cs (S j) (mk (text s) ev g) -> Q tt (mk (text s) ev g))
     (green_builder s) ->
  wp (build_event j) Q s.
Proof.
  intros HP Hl HC Hw. assert (j < length es) as Hlt.
  { rewrite <-(pl_length _ _ HP). by eapply lookup_lt_Some. }
  pose proof (cur_events _ _ _ _ HC j (le_n _) Hlt) as Hj.
  assert (HCl : forall ev g, blanked (j :: l) (events s) ev -> Cur es cs (S j) (mk (text s) ev g)).
  { intros ev g Hb. by eapply Cur_step. }
  pose proof (blanked_insert j (events s)) as Hb1.
  assert (Hquiet : l = [] -> slot es j l = [] ->
    Q tt (mk (text s) (<[j := MarkEvent_none]> (events s)) (green_builder s))).
  { intros -> Hs. rewrite Hs in Hw. simpl in Hw. by apply Hw, HCl. }
  unfold build_event. case_decide as Hd.
  - apply wp_bind. eapply wp_take_event; [exact Hj|]. apply wp_ret.
    assert (l = []) as Hnil.
    { destruct (pl_chain _ _ HP j l Hl) as [->|Hc]; [done|].
      destruct (Chain_head _ _ _ Hc) as [l' ->].
      apply elem_of_concat_take in Hd as (m & x & Hm & Hx & Hin).
      assert (m = j); [|lia]. eapply (plan_disjoint _ _ HP); [exact Hx|exact Hl|exact Hin|by left]. }
    apply Hquiet; [done|]. subst l. unfold slot. destruct (es !! j) as [[k q|k r| |]|] eqn:He; try done.
    + apply elem_of_concat_take in Hd as (m & x & _ & Hx & Hin).
      destruct (plan_start _ _ HP m x j Hx Hin) as (k' & q & Hk & _). by rewrite He in Hk.
    + apply elem_of_concat_take in Hd as (m & x & _ & Hx & Hin).
      destruct (plan_start _ _ HP m x j Hx Hin) as (k' & q & Hk & _). by rewrite He in Hk.
  - destruct (lookup_lt_is_Some_2 es j Hlt) as [e He]. rewrite He in Hj.
    apply wp_bind. eapply wp_take_event; [exact Hj|].
    assert (Hl0 : (forall k q, e <> NodeStart k q) -> l = []).
    { intros Hne. destruct (pl_chain _ _ HP j l Hl) as [->|Hc]; [done|].
      destruct (Chain_in _ _ _ j Hc) as (k & q & Hk & _).
      - destruct (Chain_head _ _ _ Hc) as [l' ->]. by left.
      - rewrite He in Hk. injection Hk as ->. by destruct (Hne k q). }
    unfold slot in Hw, Hquiet. rewrite He in Hw, Hquiet.
    destruct e as [k q|k r| |].
    + destruct (pl_chain _ _ HP j l Hl) as [Hnil|Hc].
      { subst l. destruct (pl_cover _ _ HP j k q He Hl) as [->|?]; [|done]. apply wp_ret. by apply Hquiet. }
      destruct (Chain_head _ _ _ Hc) as [l' ->].
      destruct (Chain_in _ _ _ j Hc) as (k' & q' & Hk & Hkn); [by left|].
      rewrite He in Hk. injection Hk as <- <-. rewrite Hkn.
      assert (start_link es q l') as Hlink.
      { inversion Hc as [? ? Hi|? ? p ? Hi]; subst; rewrite He in Hi; injection Hi as ? ?; subst;
          [by left|right; split; [lia|done]]. }
      assert (NoDup (j :: l')) as Hnd.
      { pose proof (pl_nodup _ _ HP) as Hnd. destruct (lookup_split _ _ _ Hl) as (C1 & C2 & Heq & _).
        rewrite Heq, concat_app in Hnd. apply NoDup_app in Hnd as (_ & _ & Hnd). simpl in Hnd.
        rewrite app_comm_cons in Hnd. by apply NoDup_app in Hnd as (Hnd & _). }
      pose proof (Chain_length _ _ _ Hc) as Hcl. simpl in Hcl.
      apply NoDup_cons in Hnd as [Hnj Hnd].
      apply wp_bind. unfold loop_from, wp at 1. apply (wp_parents es _ _ _ l'); [done| |done| |].
      * unfold parents_fuel. simpl. rewrite length_insert, (cur_length _ _ _ _ HC). lia.
      * intros x Hx. simpl. rewrite list_lookup_insert_ne by (by intros ->).
        assert (j < x /\ x < length es) as [? ?].
        { destruct (plan_start _ _ HP j _ x Hl) as (kx & qx & Hkx & _); [by right|].
          split; [|by eapply lookup_lt_Some].
          pose proof (Chain_le _ _ _ x Hc ltac:(by right)) as Hle.
          destruct (decide (x = j)) as [->|]; [done|lia]. }
        rewrite (cur_events _ _ _ _ HC) by lia. case_decide as Hd'; [|done].
        apply elem_of_concat_take in Hd' as (m & y & Hm & Hy & Hin).
        assert (m = j); [|lia].
        eapply (plan_disjoint _ _ HP); [exact Hy|exact Hl|exact Hin|by right].
      * intros ev Hb. apply wp_start_nodes. simpl.
        pose proof (blanked_trans _ _ _ _ _ Hb1 Hb) as Hb2. simpl in Hb2.
        assert (start_kind es j = k) as Hkj by (unfold start_kind; by rewrite He).
        rewrite concrete_opens in Hw. simpl in Hw. rewrite Hkj in Hw. eapply wp_mono; [exact Hw|].
        intros [] g Hg. by apply Hg, HCl, blanked_twice.
    + rewrite (Hl0 ltac:(done)) in *. apply wp_green. simpl.
      simpl in Hw. unfold wp in *. unfold bind in Hw.
      unfold Green.token, modify in *. simpl in *. by apply Hw, HCl.
    + rewrite (Hl0 ltac:(done)) in *. apply wp_green. simpl in *. unfold wp, bind in *.
      destruct (Green.finish_node (green_builder s)) as [[[] g]| |]; [|done..]. by apply Hw, HCl.
    + apply wp_ret. rewrite (Hl0 ltac:(done)) in *. by apply Hquiet.
Qed.

Lemma wp_build_from es cs n j s (Q : Green.t -> Prop) :
  Plan es cs -> n + j = length es -> Cur es cs j s ->
  wp (run_ops (map (concrete es) (slots es j (drop j cs)))) (fun _ => Q) (green_builder s) ->
  wp (build_from n j) (fun _ s' => Q (green_builder s') /\ text s' = text s) s.
Proof.
  intros HP. revert j s. induction n as [|n IH]; intros j s Hn HC Hw; simpl.
  - rewrite drop_ge in Hw by (rewrite (pl_length _ _ HP); lia). by apply wp_ret.
  - destruct (lookup_lt_is_Some_2 cs j) as [l Hl]; [rewrite (pl_length _ _ HP); lia|].
    rewrite (drop_S _ _ _ Hl) in Hw. simpl in Hw. rewrite map_app in Hw.
    apply wp_bind. eapply wp_build_event; [done..|].
    apply wp_run_ops_app in Hw.
    eapply wp_mono; [exact Hw|]. intros [] g Hg ev HC'. by apply (IH (S j) _ ltac:(lia) HC').
Qed.

(** [build] performs the actions that the events denote, between the start
    and the end of the chunk. *)
Lemma wp_build txt es sk (Q : Green.t -> Prop) :
  Skel es sk ->
  wp (run_ops (BStart Chunk :: map (concrete es) sk ++ [BEnd])) (fun _ => Q) Green.new ->
  wp build (fun _ s => Q (green_builder s) /\ text s = txt) (new txt es).
Proof.
  intros (cs & HP & ->)%Skel_plan Hw. unfold build.
  apply wp_bind, wp_green. simpl in Hw.
  unfold Green.start_node in *. apply wp_modify. unfold wp, bind at 1, modify at 1 in Hw.
  apply wp_bind, wp_gets. simpl.
  apply (wp_seq (fun _ s => wp Green.finish_node (fun _ => Q) (green_builder s) /\ text s = txt)).
  - eapply (wp_build_from es cs); [done|lia| |].
    + split; [done|]. intros x _ Hx. destruct (decide _) as [Hd|]; [by apply elem_of_nil in Hd|done].
    + rewrite drop_0. apply wp_run_ops_app in Hw. eapply wp_mono; [exact Hw|].
      intros [] g Hg. cbn [run_ops run_op] in Hg. unfold wp, bind in *.
      destruct (Green.finish_node g) as [[[] ?]| |]; done.
  - intros [] s [Hf Ht]. apply wp_green. eapply wp_mono; [exact Hf|]. done.
Qed.
End Replay.

(** ** The theorem *)

(** C5: for the events of an error-free parse the first pass of the tree builder,
    which follows and blanks parent links, ends in the very state in which the
    plain list of actions that the events denote leaves the green builder. *)
Theorem build_replays_actions txt es sk g :
  Skel es sk ->
  run_ops (BStart Chunk :: map (concrete es) sk ++ [BEnd]) Green.new = Done (tt, g) ->
  exists s, LuaTreeBuilder.build (LuaTreeBuilder.new txt es) = Done (tt, s)
    /\ LuaTreeBuilder.green_builder s = g /\ LuaTreeBuilder.text s = txt.
Proof.
  intros HS Hrun.
  pose proof (wp_build txt es sk (fun g' => g' = g) HS) as Hw. unfold wp in Hw.
  rewrite Hrun in Hw. specialize (Hw eq_refl).
  destruct (LuaTreeBuilder.build _) as [[[] s]| |]; [|done..]. exists s. by destruct Hw.
Qed.

(** A call of a name: the start of the name is linked to the call around it. *)
Lemma build_replays_actions_witness :
  let es := [NodeStart NameExpr 3; EatToken TkName (mkRange 0 1); NodeEnd;
             NodeStart CallExpr 0; Trivia; EatToken TkString (mkRange 1 3); NodeEnd] in
  exists s, LuaTreeBuilder.build (LuaTreeBuilder.new [] es) = Done (tt, s)
    /\ Green.children (LuaTreeBuilder.green_builder s) = [4]
    /\ LuaTreeBuilder.text s = [].
Proof.
  intros es.
  assert (Skel es [AStart 3 COther; AStart 0 COther; ATok TkName (mkRange 0 1); AEnd;
                   ATok TkString (mkRange 1 3); AEnd]) as HS.
  { apply (Skel_end [_; _; _; _; _; _] [_; _; _; _; _]).
    apply (Skel_tok [_; _; _; _; _] [_; _; _; _]).
    apply (Skel_precede [NodeStart NameExpr 0; EatToken TkName (mkRange 0 1); NodeEnd] [] 0 COther
             [ATok TkName (mkRange 0 1); AEnd] NameExpr CallExpr); [|done..].
    apply (Skel_end [_; _] [_; _]), (Skel_tok [_] [_]).
    by apply (Skel_start [] [] NameExpr Skel_nil). }
  match type of HS with Skel _ ?sk =>
    assert (exists g, run_ops (BStart Chunk :: map (concrete es) sk ++ [BEnd]) Green.new = Done (tt, g)
                      /\ Green.children g = [4]) as (g & Hrun & Hcs)
  end.
  { eexists. split; [vm_compute; reflexivity|reflexivity]. }
  destruct (build_replays_actions [] es _ g HS Hrun) as (s & Hb & Hg & Ht).
  exists s. split_and!; [exact Hb|by rewrite Hg|exact Ht].
Defined.
