(* ===== verification/TreeProofs.v ===== *)
(** * The tree of an error-free parse

    The green builder, driven by the actions of a forest whose nodes have
    tokens and whose blocks stand after a solid sibling, never panics, and the
    tree it hands to rowan has exactly the tokens of the forest, in order: the
    trivia it moves in and out of nodes is moved, not lost. *)

From S2P Require Import Prelude Kinds Text Marker Discipline TreeBuilder TreeReplay.
From stdpp Require Import list.
Local Open Scope prog_scope.

(** ** What an element stands for *)

Section Trees.
Context (txt : rstring).

(** [Stands els i fp t]: the element [i] is the tree [t], made of the elements
    [fp]. *)
#[warnings="-register-all"]
Inductive Stands (els : list Green.LuaGreenElement) : nat -> list nat -> Rowan.GreenNode -> Prop :=
  | Stands_token i k r t :
      els !! i = Some (Green.Token k r) ->
      str_slice txt (start_offset r) (SourceRange.end_offset r) = Some t ->
      Stands els i [i] (Rowan.GTok (Token k) t)
  | Stands_node i k cs fp ts :
      els !! i = Some (Green.Node k cs) -> StandsL els cs fp ts ->
      Stands els i (i :: fp) (Rowan.GNode (Syntax k) ts)
with StandsL (els : list Green.LuaGreenElement)
    : list nat -> list nat -> list Rowan.GreenNode -> Prop :=
  | StandsL_nil : StandsL els [] [] []
  | StandsL_cons i fp t cs fps ts :
      Stands els i fp t -> StandsL els cs fps ts -> StandsL els (i :: cs) (fp ++ fps) (t :: ts).

Scheme Stands_mut := Induction for Stands Sort Prop
  with StandsL_mut := Induction for StandsL Sort Prop.
Combined Scheme Stands_both from Stands_mut, StandsL_mut.

(** Only the elements of the footprint matter. *)
Lemma Stands_agree els els' :
  (forall i fp t, Stands els i fp t -> (forall x, x ∈ fp -> els' !! x = els !! x) -> Stands els' i fp t)
  /\ (forall cs fp ts, StandsL els cs fp ts -> (forall x, x ∈ fp -> els' !! x = els !! x) ->
        StandsL els' cs fp ts).
Proof.
  apply (Stands_both els
    (fun i fp t _ => (forall x, x ∈ fp -> els' !! x = els !! x) -> Stands els' i fp t)
    (fun cs fp ts _ => (forall x, x ∈ fp -> els' !! x = els !! x) -> StandsL els' cs fp ts)).
  - intros i k r t Hi Ht Ha. apply (Stands_token _ i k r); [|done]. rewrite Ha; [done|by left].
  - intros i k cs fp ts Hi _ IH Ha. apply (Stands_node _ i k cs).
    + rewrite Ha; [done|by left].
    + apply IH. intros x Hx. apply Ha. by right.
  - constructor.
  - intros i fp t cs fps ts _ IH1 _ IH2 Ha. constructor; [apply IH1|apply IH2];
      intros x Hx; apply Ha, elem_of_app; auto.
Qed.

Lemma Stands_lt els :
  (forall i fp t, Stands els i fp t -> forall x, x ∈ fp -> x < length els)
  /\ (forall cs fp ts, StandsL els cs fp ts -> forall x, x ∈ fp -> x < length els).
Proof.
  apply (Stands_both els
    (fun i fp t _ => forall x, x ∈ fp -> x < length els)
    (fun cs fp ts _ => forall x, x ∈ fp -> x < length els)).
  - intros i k r t Hi _ x ->%list_elem_of_singleton. by eapply lookup_lt_Some.
  - intros i k cs fp ts Hi _ IH x [->|Hx]%elem_of_cons; [by eapply lookup_lt_Some|auto].
  - by intros x ?%elem_of_nil.
  - intros i fp t cs fps ts _ IH1 _ IH2 x [Hx|Hx]%elem_of_app; auto.
Qed.

Lemma StandsL_mono els more cs fp ts : StandsL els cs fp ts -> StandsL (els ++ more) cs fp ts.
Proof.
  intros Hs. eapply (proj2 (Stands_agree _ _)); [exact Hs|]. intros x Hx.
  rewrite lookup_app_l; [done|]. by eapply (proj2 (Stands_lt els)).
Qed.

Lemma StandsL_length els cs fp ts : StandsL els cs fp ts -> length ts = length cs.
Proof. induction 1; simpl; congruence. Qed.

Lemma StandsL_app els c1 f1 t1 c2 f2 t2 :
  StandsL els c1 f1 t1 -> StandsL els c2 f2 t2 -> StandsL els (c1 ++ c2) (f1 ++ f2) (t1 ++ t2).
Proof.
  intros H1 H2. induction H1; simpl; [done|]. rewrite <-app_assoc. by constructor.
Qed.

Lemma StandsL_split els n cs fp ts :
  StandsL els cs fp ts ->
  exists f1 f2, fp = f1 ++ f2 /\ StandsL els (take n cs) f1 (take n ts)
                /\ StandsL els (drop n cs) f2 (drop n ts).
Proof.
  intros Hs. revert n. induction Hs as [|i fp t cs fps ts Hi Hs IH]; intros [|n]; simpl.
  1-2: exists [], []; split_and!; constructor.
  - exists [], (fp ++ fps). split_and!; [done|constructor|by constructor].
  - destruct (IH n) as (f1 & f2 & -> & H1 & H2). exists (fp ++ f1), f2.
    split_and!; [by rewrite app_assoc|by constructor|done].
Qed.

(** ** The builder's state *)

Definition Inv (b : Green.t) (ts : list Rowan.GreenNode) : Prop :=
  exists fp, StandsL (Green.elements b) (Green.children b) fp ts /\ NoDup fp.

(** The children from [a] to [e] become one node. *)
Definition grouped (k : LuaSyntaxKind) (ps : list (LuaSyntaxKind * nat)) (a e : nat)
    (b : Green.t) : Green.t :=
  Green.mk ps
    (take a (Green.children b) ++ length (Green.elements b) :: drop e (Green.children b))
    (Green.elements b ++ [Green.Node k (take (e - a) (drop a (Green.children b)))])
    (Green.builder b).

Definition group (k : LuaSyntaxKind) (a e : nat) (ts : list Rowan.GreenNode) : list Rowan.GreenNode :=
  take a ts ++ Rowan.GNode (Syntax k) (take (e - a) (drop a ts)) :: drop e ts.

Lemma Inv_group b ts k ps a e :
  Inv b ts -> a <= e -> Inv (grouped k ps a e b) (group k a e ts).
Proof.
  intros (fp & Hs & Hnd) Hae.
  destruct (StandsL_split _ a _ _ _ Hs) as (f1 & f2 & -> & H1 & H2).
  destruct (StandsL_split _ (e - a) _ _ _ H2) as (f3 & f4 & -> & H3 & H4).
  rewrite !drop_drop in H4. replace (a + (e - a)) with e in H4 by lia.
  exists (f1 ++ (length (Green.elements b) :: f3) ++ f4). split.
  - simpl. apply StandsL_app; [by apply StandsL_mono|]. rewrite app_comm_cons.
    constructor; [|by apply StandsL_mono]. eapply Stands_node; [|by apply StandsL_mono].
    by rewrite lookup_app_r, Nat.sub_diag.
  - simpl. rewrite <-Permutation_middle. apply NoDup_cons. split; [|done].
    intros Hin. pose proof (proj2 (Stands_lt _) _ _ _ Hs _ Hin). lia.
Qed.

Definition tokens_of (ts : list Rowan.GreenNode) := concat (map Rowan.tokens_of ts).

Lemma tokens_of_app ts ts' : tokens_of (ts ++ ts') = tokens_of ts ++ tokens_of ts'.
Proof. unfold tokens_of. by rewrite map_app, concat_app. Qed.

Lemma tokens_of_group k a e ts : a <= e -> tokens_of (group k a e ts) = tokens_of ts.
Proof.
  intros Hae. unfold group. rewrite tokens_of_app.
  rewrite <-(take_drop a ts) at 4. rewrite tokens_of_app. f_equal.
  rewrite <-(take_drop (e - a) (drop a ts)) at 2. rewrite tokens_of_app, drop_drop.
  replace (a + (e - a)) with e by lia. done.
Qed.

Lemma Inv_token b ts k r t :
  Inv b ts -> str_slice txt (start_offset r) (SourceRange.end_offset r) = Some t ->
  Inv (Green.mk (Green.parents b) (Green.children b ++ [length (Green.elements b)])
         (Green.elements b ++ [Green.Token k r]) (Green.builder b))
      (ts ++ [Rowan.GTok (Token k) t]).
Proof.
  intros (fp & Hs & Hnd) Ht. exists (fp ++ [length (Green.elements b)] ++ []). split.
  - cbn [Green.children Green.elements]. apply StandsL_app; [by apply StandsL_mono|].
    constructor; [|constructor]. eapply Stands_token; [|done]. by rewrite lookup_app_r, Nat.sub_diag.
  - rewrite app_nil_r, <-Permutation_cons_append. apply NoDup_cons. split; [|done].
    intros Hin. pose proof (proj2 (Stands_lt _) _ _ _ Hs _ Hin). lia.
Qed.
End Trees.

(** ** [finish_node] *)

Lemma pull_trivia_spec triv cs n :
  n <= length cs ->
  exists a, Green.pull_trivia triv cs n = Some a /\ a <= n
    /\ forall j i, j < n -> cs !! j = Some i -> triv i = false -> j < a.
Proof.
  induction n as [|n IH]; intros Hn; simpl; [by exists 0; split_and!; [done|done|lia]|].
  destruct (lookup_lt_is_Some_2 cs n) as [x Hx]; [lia|]. rewrite Hx.
  destruct (triv x) eqn:Ht.
  - destruct IH as (a & Ha & Hle & Hj); [lia|]. exists a. split_and!; [done|lia|].
    intros j i Hlt Hi Hf. apply (Hj j i); [|done|done].
    destruct (decide (j = n)) as [->|]; [congruence|lia].
  - exists (S n). split_and!; [done|done|]. by intros.
Qed.

Lemma leading_le triv cs : Green.leading triv cs <= length cs.
Proof. induction cs as [|i cs IH]; simpl; [done|]. destruct (triv i); lia. Qed.

Lemma trim_end_bounds triv cs lo n :
  Green.trim_end triv cs lo n <= n /\ Nat.min lo n <= Green.trim_end triv cs lo n.
Proof.
  induction n as [|n IH]; [simpl; lia|]. cbn [Green.trim_end].
  destruct (Nat.ltb_spec lo (S n)); [|lia].
  destruct (match cs !! S n with Some i => triv i | None => false end); lia.
Qed.

(** The range of children that [finish_node] takes into a node of kind [k]
    opened at [first]. *)
Record Range (b : Green.t) (k : LuaSyntaxKind) (first a e : nat) : Prop := mkRangeOf {
  rg_le : a <= e;
  rg_length : e <= length (Green.children b);
  rg_block : (k in_k [Block; Chunk]) = true -> e = length (Green.children b) /\ a <= first
    /\ forall j i, j < first -> Green.children b !! j = Some i ->
         Green.is_trivia (Green.elements b) i = false -> j < a;
  rg_other : (k in_k [Block; Chunk]) = false -> first <= a
}.

Lemma wp_insert_group k ps cs els rb a e (Q : unit -> Green.t -> Prop) :
  a <= e -> e <= length cs -> 0 < e ->
  Q tt (grouped k ps a e (Green.mk ps cs els rb)) ->
  wp (pos <- gets (fun b => length (Green.elements b)) ;;
      modify (fun b => Green.mk (Green.parents b) (Green.children b)
        (Green.elements b ++ [Green.Node k (take (e - a) (drop a cs))]) (Green.builder b)) ;;;
      if e - 1 + 1 <? length cs then Green.insert_child a pos
      else modify (fun b => Green.set_children (Green.children b ++ [pos]) b)) Q
     (Green.mk ps (take a cs ++ drop e cs) els rb).
Proof.
  intros Hae Hel He HQ. apply wp_bind, wp_gets, wp_bind, wp_modify.
  replace (e - 1 + 1) with e by lia. unfold grouped in HQ. simpl in *.
  assert (length (take a cs) = a) as Hta by (rewrite length_take; lia).
  destruct (Nat.ltb_spec e (length cs)).
  - unfold wp, Green.insert_child. simpl. rewrite length_app, Hta.
    destruct (Nat.leb_spec a (a + length (drop e cs))); [|lia].
    rewrite take_app_le, drop_app_ge by lia. rewrite Hta, Nat.sub_diag, drop_0.
    rewrite firstn_all2 by lia. exact HQ.
  - apply wp_modify. unfold Green.set_children. simpl.
    rewrite (drop_ge cs e) in * by lia. by rewrite app_nil_r.
Qed.

Section Finish.
Context (cs : list nat) (els : list Green.LuaGreenElement) (rb : Rowan.GreenNodeBuilder)
  (ps : list (LuaSyntaxKind * nat)).
Let b := Green.mk ps cs els rb.

Lemma wp_drain a e (Q : list nat -> Green.t -> Prop) :
  a <= e -> e <= length cs ->
  Q (take (e - a) (drop a cs)) (Green.mk ps (take a cs ++ drop e cs) els rb) ->
  wp (Green.drain a e) Q b.
Proof.
  intros Hae He HQ. unfold wp, Green.drain. simpl.
  destruct (Nat.leb_spec a e); [|lia]. by destruct (Nat.leb_spec e (length cs)); [|lia].
Qed.

Definition Taken k first (taken : list nat * nat * nat) (b' : Green.t) : Prop :=
  exists a e, Range b k first a e /\ 0 < e
    /\ taken = (take (e - a) (drop a cs), a, e - 1)
    /\ b' = Green.mk ps (take a cs ++ drop e cs) els rb.

Lemma take_block_spec k first :
  (k in_k [Block; Chunk]) = true -> first <= length cs -> cs <> [] ->
  wp (Green.take_block first) (Taken k first) b.
Proof.
  intros Hk Hf Hne. destruct (pull_trivia_spec (Green.is_trivia els) cs first Hf) as (a & Ha & Hle & Hj).
  assert (0 < length cs) as Hpos by (destruct cs; [done|simpl; lia]).
  apply wp_bind, wp_gets, wp_bind, wp_gets, wp_bind. simpl. rewrite Ha.
  apply wp_ret, wp_bind, wp_drain; [lia|done|]. apply wp_ret.
  exists a, (length cs). split_and!; [|done..].
  split; cbn [b Green.children Green.elements]; [lia|done| |by rewrite Hk]. by intros _.
Qed.

Lemma take_trimmed_spec triv k first :
  (k in_k [Block; Chunk]) = false -> first <= length cs -> cs <> [] ->
  wp (Green.take_trimmed triv first) (Taken k first) b.
Proof.
  intros Hk Hf Hne. assert (0 < length cs) as Hpos by (destruct cs; [done|simpl; lia]).
  apply wp_bind, wp_gets, wp_bind, wp_gets. cbn [b Green.elements Green.children].
  pose proof (leading_le (triv els) (drop first cs)) as Hl. rewrite length_drop in Hl.
  set (a := first + Green.leading (triv els) (drop first cs)) in *.
  pose proof (trim_end_bounds (triv els) cs a (length cs - 1)) as [H1 H2].
  set (c := Green.trim_end (triv els) cs a (length cs - 1)) in *.
  apply wp_bind, wp_drain; [lia|lia|]. apply wp_ret. exists a, (c + 1).
  split_and!; [|lia| |done].
  - split; cbn [b Green.children Green.elements]; [lia|lia|by rewrite Hk|lia].
  - by replace (c + 1 - 1) with c by lia.
Qed.
End Finish.

Lemma wp_finish_node b k first ps (Q : unit -> Green.t -> Prop) :
  Green.parents b = (k, first) :: ps -> Green.children b <> [] ->
  first <= length (Green.children b) ->
  (forall a e, Range b k first a e -> Q tt (grouped k ps a e b)) ->
  wp Green.finish_node Q b.
Proof.
  intros Hp Hne Hf HQ. destruct b as [pp cs els rb]. simpl in Hp, Hne, Hf. subst pp.
  change (wp (fun b => match Green.children b with
                       | _ :: _ => Green.finish_parent k first (Green.mk ps cs els rb)
                       | [] => Done (tt, b) end) Q (Green.mk ((k, first) :: ps) cs els rb)).
  unfold wp. cbn [Green.children]. destruct cs as [|c0 cs0] eqn:Hcs; [done|]. rewrite <-Hcs in *.
  change (wp (Green.finish_parent k first) Q (Green.mk ps cs els rb)).
  unfold Green.finish_parent. apply wp_bind, wp_gets.
  apply (wp_seq (Taken cs els rb ps k first)).
  - destruct (k in_k [Block; Chunk]) eqn:Hk; [by apply take_block_spec|].
    case_if; by apply take_trimmed_spec.
  - intros taken b' (a & e & HR & He & -> & ->).
    apply wp_insert_group; [apply HR|apply HR|done|]. apply HQ.
    destruct HR as [H1 H2 H3 H4]. by split.
Qed.

(** ** Running the actions of a forest *)

Section Run.
Context (txt : rstring) (es : list MarkEvent).

(** What a token of the parser becomes in the tree. *)
Definition leaf_text (tok : LuaTokenKind * SourceRange) (leaf : LuaKind * rstring) : Prop :=
  leaf.1 = Token tok.1
  /\ str_slice txt (start_offset tok.2) (SourceRange.end_offset tok.2) = Some leaf.2.

Definition kinds_ok (sk : list AOp) : Prop :=
  Forall (fun a => match a with
                   | AStart p c => node_class (start_kind es p) = c
                   | _ => True
                   end) sk.

(** Some child from [lo] on is not trivia. *)
Definition guard (b : Green.t) (lo : nat) : Prop :=
  exists j i, lo <= j /\ Green.children b !! j = Some i /\ Green.is_trivia (Green.elements b) i = false.

(** From [b] to [b'], the children below [lo] stayed and tokens were added. *)
Record Step (lo : nat) (b : Green.t) (ts : list Rowan.GreenNode) (toks : list (LuaKind * rstring))
    (b' : Green.t) (ts' : list Rowan.GreenNode) : Prop := mkStep {
  st_inv : Inv txt b' ts';
  st_parents : Green.parents b' = Green.parents b;
  st_builder : Green.builder b' = Green.builder b;
  st_elements : Green.elements b `prefix_of` Green.elements b';
  st_low : take lo (Green.children b') = take lo (Green.children b);
  st_tokens : tokens_of ts' = tokens_of ts ++ toks;
  st_length : lo <= length (Green.children b');
  st_more : lo < length (Green.children b) -> lo < length (Green.children b');
  st_guard : guard b lo -> guard b' lo
}.

Lemma Step_refl lo b ts : Inv txt b ts -> lo <= length (Green.children b) -> Step lo b ts [] b ts.
Proof. intros HI Hlo. split; try done. by rewrite app_nil_r. Qed.

Lemma Step_trans lo b ts t1 b1 ts1 t2 b2 ts2 :
  Step lo b ts t1 b1 ts1 -> Step lo b1 ts1 t2 b2 ts2 -> Step lo b ts (t1 ++ t2) b2 ts2.
Proof.
  intros [I1 P1 B1 E1 L1 T1 N1 M1 G1] [I2 P2 B2 E2 L2 T2 N2 M2 G2].
  split; try congruence; auto; [by etrans|]. by rewrite T2, T1, app_assoc.
Qed.

Lemma Inv_length b ts : Inv txt b ts -> length ts = length (Green.children b).
Proof. intros (fp & Hs & _). by eapply StandsL_length. Qed.

(** A child stands for something, so it exists. *)
Lemma Inv_child b ts j i : Inv txt b ts -> Green.children b !! j = Some i ->
  i < length (Green.elements b).
Proof.
  intros (fp & Hs & _) Hi. eapply (proj2 (Stands_lt txt _)); [exact Hs|].
  revert j Hi. induction Hs as [|i0 fp0 t cs fps ts0 H0 Hs IH]; intros [|j] Hi; simpl in Hi; try done.
  - injection Hi as ->. apply elem_of_app. left. inversion H0; subst; by left.
  - apply elem_of_app. right. by eapply IH.
Qed.

Lemma is_trivia_prefix els els' i :
  els `prefix_of` els' -> i < length els -> Green.is_trivia els' i = Green.is_trivia els i.
Proof. intros [m ->] Hi. unfold Green.is_trivia. by rewrite lookup_app_l. Qed.

Lemma Step_token lo b ts k r t :
  Inv txt b ts -> lo <= length (Green.children b) ->
  str_slice txt (start_offset r) (SourceRange.end_offset r) = Some t ->
  wp (Green.token k r) (fun _ b' =>
    Step lo b ts [(Token k, t)] b' (ts ++ [Rowan.GTok (Token k) t])
    /\ lo < length (Green.children b') /\ (solid_token k = true -> guard b' lo)) b.
Proof.
  intros HI Hlo Ht. apply wp_modify. split_and!.
  - split; simpl; try done.
    + by apply Inv_token.
    + by apply prefix_app_r.
    + by apply take_app_le.
    + by rewrite tokens_of_app.
    + rewrite length_app. lia.
    + rewrite length_app. lia.
    + intros (j & i & Hj & Hi & Htr). exists j, i. split_and!; [done|by apply lookup_app_l_Some|].
      simpl. rewrite (is_trivia_prefix (Green.elements b)); [done|by apply prefix_app_r|].
      by eapply Inv_child.
  - simpl. rewrite length_app. simpl. lia.
  - intros Hs. exists (length (Green.children b)), (length (Green.elements b)).
    split_and!; [done|simpl; by rewrite lookup_app_r, Nat.sub_diag|].
    unfold Green.is_trivia. simpl. rewrite lookup_app_r, Nat.sub_diag by done. simpl.
    by apply negb_true_iff in Hs.
Qed.

Lemma class_trivia k : node_class k <> CComment -> (k in_k [Comment; DocDescription]) = false.
Proof.
  unfold node_class. intros Hc. destruct (k in_k [Block; Chunk]) eqn:Hb.
  - by destruct k.
  - by destruct (k in_k [Comment; DocDescription]).
Qed.

(** Closing a node that was opened above [lo]. *)
Lemma Step_finish lo b ts k first ps :
  Inv txt b ts -> Green.parents b = (k, first) :: ps -> lo <= first ->
  first < length (Green.children b) ->
  ((k in_k [Block; Chunk]) = true ->
     exists j i, lo <= j /\ j < first /\ Green.children b !! j = Some i
                 /\ Green.is_trivia (Green.elements b) i = false) ->
  wp Green.finish_node (fun _ b' => exists ts',
    Inv txt b' ts' /\ Green.parents b' = ps /\ Green.builder b' = Green.builder b
    /\ Green.elements b `prefix_of` Green.elements b'
    /\ take lo (Green.children b') = take lo (Green.children b)
    /\ tokens_of ts' = tokens_of ts
    /\ lo < length (Green.children b')
    /\ (forall j i, lo <= j -> j < first -> Green.children b !! j = Some i ->
          Green.is_trivia (Green.elements b) i = false -> guard b' lo)
    /\ (node_class k <> CComment -> guard b' lo)) b.
Proof.
  intros HI Hp Hlo Hf Hg.
  apply (wp_finish_node b k first ps); [done|by intros Hn; rewrite Hn in Hf; simpl in Hf; lia|lia|].
  intros a e [Hae Hel Hblock Hother].
  assert (lo <= a) as Hloa.
  { destruct (k in_k [Block; Chunk]) eqn:Hk; [|specialize (Hother eq_refl); lia].
    destruct (Hg eq_refl) as (j & i & Hj & Hjf & Hi & Htr).
    destruct (Hblock eq_refl) as (_ & _ & Hja). specialize (Hja j i Hjf Hi Htr). lia. }
  assert (Hpre : Green.elements b `prefix_of` Green.elements (grouped k ps a e b)) by by apply prefix_app_r.
  exists (group k a e ts). split_and!.
  - by apply Inv_group.
  - done.
  - done.
  - done.
  - simpl. rewrite take_app_le by (rewrite length_take; lia). rewrite take_take. f_equal. lia.
  - by apply tokens_of_group.
  - simpl. rewrite length_app, length_take. simpl. lia.
  - intros j i Hj Hjf Hi Htr. exists j, i.
    assert (j < a) as Hja.
    { destruct (k in_k [Block; Chunk]) eqn:Hk; [|specialize (Hother eq_refl); lia].
      destruct (Hblock eq_refl) as (_ & _ & Hja). eauto. }
    split_and!; [done| |].
    + simpl. apply lookup_app_l_Some. by rewrite lookup_take_lt.
    + rewrite (is_trivia_prefix _ _ _ Hpre); [done|by eapply Inv_child].
  - intros Hc%class_trivia. exists a, (length (Green.elements b)). split_and!; [done| |].
    + simpl. assert (length (take a (Green.children b)) = a) as Hl by (rewrite length_take; lia).
      rewrite lookup_app_r by lia. by rewrite Hl, Nat.sub_diag.
    + unfold Green.is_trivia. simpl. by rewrite lookup_app_r, Nat.sub_diag by done.
Qed.

(** What running the actions of a tree does above [lo]. *)
Definition TreeRuns (t : Tree) : Prop := forall lo b ts toks,
  good t = true -> kinds_ok (flat t) -> Forall2 leaf_text (leaves t) toks ->
  Inv txt b ts -> lo <= length (Green.children b) -> (is_block t = true -> guard b lo) ->
  wp (run_ops (map (concrete es) (flat t))) (fun _ b' => exists ts',
    Step lo b ts toks b' ts' /\ lo < length (Green.children b')
    /\ (solid t = true -> guard b' lo)) b.

Lemma run_forest_of f : Forall TreeRuns f -> forall g lo b ts toks,
  goods g f = true -> kinds_ok (flats f) -> Forall2 leaf_text (forest_leaves f) toks ->
  Inv txt b ts -> lo <= length (Green.children b) -> (g = true -> guard b lo) ->
  wp (run_ops (map (concrete es) (flats f))) (fun _ b' => exists ts',
    Step lo b ts toks b' ts' /\ (f <> [] -> lo < length (Green.children b'))) b.
Proof.
  induction 1 as [|t f Ht _ IH]; intros g lo b ts toks Hg Hk Hl HI Hlo Hgd.
  - apply Forall2_nil_inv_l in Hl as ->. apply wp_ret. exists ts.
    split; [by apply Step_refl|done].
  - simpl in Hg. rewrite !andb_true_iff in Hg. destruct Hg as [[Hb Hgt] Hgf].
    unfold flats in *. simpl in *. apply Forall_app in Hk as [Hk1 Hk2].
    unfold forest_leaves in Hl. simpl in Hl. apply Forall2_app_inv_l in Hl as (t1 & t2 & Hl1 & Hl2 & ->).
    rewrite map_app. apply wp_run_ops_app. eapply wp_mono.
    { apply (Ht lo b ts t1); try done. intros Hbt. rewrite Hbt in Hb. by apply Hgd. }
    intros [] b1 (ts1 & HS1 & Hlen1 & Hsol). eapply wp_mono.
    { apply (IH _ lo b1 ts1 t2 Hgf Hk2 Hl2); [apply HS1|lia|].
      intros [Hg1|Hs]%orb_true_iff; [|by apply Hsol]. apply HS1. by apply Hgd. }
    intros [] b2 (ts2 & HS2 & Hlen2). exists ts2. split; [by eapply Step_trans|].
    intros _. by apply HS2.
Qed.

Lemma run_tree t : TreeRuns t.
Proof.
  induction t as [k r|p c cs IH] using Tree_ind'; intros lo b ts toks Hg Hk Hl HI Hlo Hgd.
  - apply Forall2_cons_inv_l in Hl as ([K x] & ? & [HK Hx] & ->%Forall2_nil_inv_l & ->).
    simpl in HK, Hx. subst K. simpl. apply wp_bind.
    eapply wp_mono; [by apply (Step_token lo b ts k r x)|].
    intros [] b' (HS & Hlen & Hsol). apply wp_ret. eexists. split_and!; [exact HS|done|done].
  - rewrite good_node in Hg. apply andb_true_iff in Hg as [Htok Hg].
    rewrite flat_node in *. apply Forall_cons in Hk as [Hc [Hk _]%Forall_app].
    set (k := start_kind es p) in *. cbn [map concrete]. rewrite map_app. fold k.
    set (first := length (Green.children b)).
    change (wp (Green.start_node k ;;; run_ops (map (concrete es) (flats cs) ++ [BEnd]))
      (fun _ b' => exists ts', Step lo b ts toks b' ts' /\ lo < length (Green.children b')
         /\ (solid (TNode p c cs) = true -> guard b' lo)) b).
    apply wp_bind. unfold Green.start_node. apply wp_modify. fold first.
    set (b0 := Green.mk _ _ _ _).
    apply wp_run_ops_app. eapply wp_mono.
    { apply (run_forest_of cs IH false first b0 ts toks Hg Hk Hl); [exact HI|done|done]. }
    intros [] b1 (ts1 & HS & Hlen). cbn [run_ops run_op]. apply wp_bind.
    assert (cs <> []) as Hne by (by intros ->). specialize (Hlen Hne).
    destruct HS as [I1 P1 B1 E1 L1 T1 _ _ _].
    assert (Hlow : forall j i, j < first -> Green.children b !! j = Some i ->
              Green.children b1 !! j = Some i).
    { intros j i Hj Hi. rewrite <-(lookup_take_lt _ first) by done. rewrite L1.
      by rewrite lookup_take_lt. }
    assert (Hguard : forall j i, lo <= j -> Green.children b !! j = Some i ->
              Green.is_trivia (Green.elements b) i = false ->
              j < first /\ Green.children b1 !! j = Some i /\ Green.is_trivia (Green.elements b1) i = false).
    { intros j i Hj Hi Htr. assert (j < first) as Hjf by by eapply lookup_lt_Some.
      split_and!; [done|by apply Hlow|].
      rewrite (is_trivia_prefix (Green.elements b)); [done|exact E1|]. by eapply Inv_child. }
    eapply wp_mono; [apply (Step_finish lo b1 ts1 k first (Green.parents b)); [done|done|done|done|]|].
    + intros Hkb. destruct Hgd as (j & i & Hj & Hi & Htr).
      { simpl. subst c. unfold node_class. by rewrite Hkb. }
      destruct (Hguard j i Hj Hi Htr) as (? & ? & ?). by exists j, i.
    + intros [] b2 (ts2 & I2 & P2 & B2 & E2 & L2 & T2 & N2 & G2 & S2). apply wp_ret. exists ts2.
      split_and!; [|done|].
      * split; try done; [by rewrite B2|by etrans| |by rewrite T2|lia|].
        -- rewrite L2. rewrite <-(Nat.min_l lo first) at 1 by done.
           rewrite <-take_take, L1, take_take, Nat.min_l by done. done.
        -- intros (j & i & Hj & Hi & Htr). destruct (Hguard j i Hj Hi Htr) as (? & ? & ?). eauto.
      * intros Hs. apply S2. rewrite Hc. intros ->. done.
Qed.

Lemma run_forest f g lo b ts toks :
  goods g f = true -> kinds_ok (flats f) -> Forall2 leaf_text (forest_leaves f) toks ->
  Inv txt b ts -> lo <= length (Green.children b) -> (g = true -> guard b lo) ->
  wp (run_ops (map (concrete es) (flats f))) (fun _ b' => exists ts',
    Step lo b ts toks b' ts' /\ (f <> [] -> lo < length (Green.children b'))) b.
Proof.
  apply run_forest_of. apply Forall_forall. intros t _. apply run_tree.
Qed.
End Run.

(** ** Handing over to rowan *)

Section Rowan.
Context (txt : rstring).

Definition push_trees (ts : list Rowan.GreenNode) (rb : Rowan.GreenNodeBuilder) : Rowan.GreenNodeBuilder :=
  Rowan.mkBuilder (Rowan.parents rb) (Rowan.children rb ++ ts).

Definition potential (b : Green.t) : nat := sum_list_with Green.element_cost (Green.elements b).

Lemma sum_list_with_insert {A} (f : A -> nat) (l : list A) i x y :
  l !! i = Some x -> sum_list_with f (<[i := y]> l) + f x = sum_list_with f l + f y.
Proof.
  revert i. induction l as [|z l IH]; intros [|i] Hi; simpl in *; try done.
  - injection Hi as ->. lia.
  - specialize (IH _ Hi). lia.
Qed.

(** Running the stack from [(fuel, stack, b)] arrives at [(fuel', stack', b')]
    without ever running out of fuel. *)
Definition arrives fuel stack b stack' (fp : list nat) (ts : list Rowan.GreenNode) : Prop :=
  exists fuel' b',
    length stack' + potential b' < fuel'
    /\ Green.builder b' = push_trees ts (Green.builder b)
    /\ (forall x, x ∉ fp -> Green.elements b' !! x = Green.elements b !! x)
    /\ loop fuel (Green.build_step txt) stack b = loop fuel' (Green.build_step txt) stack' b'.

Lemma arrives_trees els :
  (forall i fp t, Stands txt els i fp t -> NoDup fp -> forall fuel stack b,
     (forall x, x ∈ fp -> Green.elements b !! x = els !! x) ->
     S (length stack) + potential b < fuel ->
     arrives fuel (Green.mkItem i false :: stack) b stack fp [t])
  /\ (forall cs fp ts, StandsL txt els cs fp ts -> NoDup fp -> forall fuel stack b,
     (forall x, x ∈ fp -> Green.elements b !! x = els !! x) ->
     length cs + length stack + potential b < fuel ->
     arrives fuel (map (fun c => Green.mkItem c false) cs ++ stack) b stack fp ts).
Proof.
  apply (Stands_both txt els
    (fun i fp t _ => NoDup fp -> forall fuel stack b,
       (forall x, x ∈ fp -> Green.elements b !! x = els !! x) ->
       S (length stack) + potential b < fuel ->
       arrives fuel (Green.mkItem i false :: stack) b stack fp [t])
    (fun cs fp ts _ => NoDup fp -> forall fuel stack b,
       (forall x, x ∈ fp -> Green.elements b !! x = els !! x) ->
       length cs + length stack + potential b < fuel ->
       arrives fuel (map (fun c => Green.mkItem c false) cs ++ stack) b stack fp ts)).
  - intros i k r t Hi Ht _ [|fuel] stack b He Hf; [lia|].
    rewrite <-(He i) in Hi by by left. exists fuel. eexists. split_and!; cycle 3.
    + simpl. unfold bind at 1. unfold Green.build_step. cbn [Green.is_close Green.index].
      unfold bind at 1. unfold Green.take_element. rewrite Hi. unfold bind. rewrite Ht. simpl. reflexivity.
    + unfold potential in *. simpl in *.
      pose proof (sum_list_with_insert Green.element_cost _ _ _ Green.None_ Hi) as Hs. simpl in Hs. lia.
    + done.
    + intros x Hx. simpl. apply list_lookup_insert_ne. intros ->. apply Hx. by left.
  - intros i k cs fp ts Hi Hcs IH Hnd [|fuel] stack b He Hf; [lia|].
    apply NoDup_cons in Hnd as [Hni Hnd].
    assert (Hib : Green.elements b !! i = Some (Green.Node k cs)) by (by rewrite He; [|left]).
    set (b1 := Green.mk (Green.parents b) (Green.children b) (<[i := Green.None_]> (Green.elements b))
                 (Rowan.start_node (Syntax k) (Green.builder b))).
    assert (Hpot : potential b1 + S (length cs) = potential b).
    { pose proof (sum_list_with_insert Green.element_cost _ _ _ Green.None_ Hib) as Hs.
      unfold potential, b1. simpl in *. lia. }
    destruct (IH Hnd fuel (Green.mkItem i true :: stack) b1) as (fuel2 & b2 & Hf2 & Hb2 & He2 & Hl2).
    { intros x Hx. simpl. rewrite list_lookup_insert_ne by (by intros ->). apply He. by right. }
    { simpl. lia. }
    destruct fuel2 as [|fuel2]; [lia|].
    exists fuel2, (Green.set_builder (push_trees [Rowan.GNode (Syntax k) ts] (Green.builder b)) b2).
    split_and!.
    + unfold potential in *. simpl in *. lia.
    + done.
    + intros x Hx. simpl. rewrite elem_of_cons in Hx. rewrite He2 by tauto. simpl.
      apply list_lookup_insert_ne. intros ->. tauto.
    + trans (loop fuel (Green.build_step txt)
               (map (fun c => Green.mkItem c false) cs ++ Green.mkItem i true :: stack) b1).
      { simpl. unfold bind at 1. unfold Green.build_step at 1. cbn [Green.is_close Green.index].
        unfold bind at 1. unfold Green.take_element. rewrite Hib. reflexivity. }
      rewrite Hl2. simpl. unfold bind at 1. unfold Green.build_step at 1. cbn [Green.is_close].
      unfold bind at 1. unfold Green.rowan_finish_node. rewrite Hb2. unfold Rowan.finish_node. simpl.
      rewrite length_app.
      destruct (Nat.leb_spec (length (Rowan.children (Green.builder b)))
                  (length (Rowan.children (Green.builder b)) + length ts)); [|lia].
      rewrite take_app_length, drop_app_length. reflexivity.
  - intros _ fuel stack b _ Hf. exists fuel, b. split_and!; [done| |done|done].
    unfold push_trees. rewrite app_nil_r. by destruct (Green.builder b).
  - intros i fp t cs fps ts _ IH1 _ IH2 (Hn1 & Hdis & Hn2)%NoDup_app fuel stack b He Hf.
    simpl in Hf. simpl map. simpl app.
    destruct (IH1 Hn1 fuel (map (fun c => Green.mkItem c false) cs ++ stack) b)
      as (f1 & b1 & Hf1 & Hb1 & He1 & Hl1).
    { intros x Hx. apply He, elem_of_app. by left. }
    { rewrite length_app, length_map. lia. }
    rewrite length_app, length_map in Hf1.
    destruct (IH2 Hn2 f1 stack b1) as (f2 & b2 & Hf2 & Hb2 & He2 & Hl2); [|lia|].
    { intros x Hx. rewrite He1; [apply He, elem_of_app; by right|]. intros Hx'. by apply (Hdis x). }
    exists f2, b2. split_and!; [done| | |by rewrite Hl1].
    + rewrite Hb2, Hb1. unfold push_trees. simpl. by rewrite <-app_assoc.
    + intros x Hx. rewrite elem_of_app in Hx. rewrite He2 by tauto. apply He1. tauto.
Qed.

(** The whole hand-over, when the first child is the chunk. *)
Lemma wp_green_finish b i cs ts :
  Green.children b = [i] -> Inv txt b [Rowan.GNode (Syntax Chunk) ts] ->
  Green.elements b !! i = Some (Green.Node Chunk cs) -> Green.builder b = Rowan.new ->
  wp (Green.finish txt) (fun node _ => node = Rowan.GNode (Syntax Chunk) ts) b.
Proof.
  intros Hch (fp & Hs & Hnd) Hi Hrb. unfold Green.finish.
  apply wp_bind, wp_gets. rewrite Hch. simpl. apply wp_bind, wp_gets, wp_bind.
  unfold Green.is_chunk_root. rewrite Hi. apply wp_ret. simpl.
  apply wp_bind, wp_ret, wp_bind.
  rewrite Hch in Hs. inversion Hs as [|? fp1 ? ? fps ? H1 H2]; subst. inversion H2; subst.
  rewrite app_nil_r in Hnd.
  destruct (proj1 (arrives_trees (Green.elements b)) _ _ _ H1 Hnd
              (2 + potential b) [] b ltac:(done) ltac:(simpl; lia)) as (f & b' & Hf & Hb & _ & Hl).
  unfold wp, Green.build_rowan_green, loop_from.
  change (2 + sum_list_with Green.element_cost (Green.elements b)) with (2 + potential b).
  rewrite Hl. destruct f as [|f]; [lia|]. simpl.
  unfold Green.rowan_finish, bind, ret, gets. by rewrite Hb, Hrb.
Qed.
End Rowan.

(** ** The whole builder *)

Lemma slots_class es n cs p c : AStart p c ∈ slots es n cs -> node_class (start_kind es p) = c.
Proof.
  revert n. induction cs as [|l cs IH]; intros n; simpl; [by intros ?%elem_of_nil|].
  intros [Hin|Hin]%elem_of_app; [|by eapply IH]. unfold slot in Hin.
  destruct (es !! n) as [[k q|k r| |]|];
    try (by apply elem_of_nil in Hin); try (apply list_elem_of_singleton in Hin; done).
  unfold opens in Hin. apply list_elem_of_In, in_map_iff in Hin as (x & [= -> <-] & _). done.
Qed.

Lemma Skel_kinds_ok es sk : Skel es sk -> kinds_ok es sk.
Proof.
  intros (cs & _ & ->)%Skel_plan. apply List.Forall_forall. intros [p c| |] Hin%list_elem_of_In; try done.
  by eapply slots_class.
Qed.

Lemma class_block k : node_class k = CBlock -> (k in_k [Block; Chunk]) = true.
Proof. unfold node_class. destruct (k in_k [Block; Chunk]); [done|]. by destruct (k in_k [Comment; DocDescription]). Qed.

(** Closing a block that was opened before the first child takes everything. *)
Lemma wp_finish_all txt b ts k ps (Q : unit -> Green.t -> Prop) :
  Inv txt b ts -> Green.parents b = (k, 0) :: ps -> Green.children b <> [] ->
  (k in_k [Block; Chunk]) = true ->
  (forall b' cs, Inv txt b' [Rowan.GNode (Syntax k) ts] -> Green.parents b' = ps ->
     Green.builder b' = Green.builder b -> Green.children b' = [length (Green.elements b)] ->
     Green.elements b' !! length (Green.elements b) = Some (Green.Node k cs) -> Q tt b') ->
  wp Green.finish_node Q b.
Proof.
  intros HI Hp Hne Hk HQ. apply (wp_finish_node b k 0 ps); [done|done|lia|].
  intros a e [_ _ Hb _]. destruct (Hb Hk) as (-> & Ha & _). assert (a = 0) as -> by lia.
  pose proof (Inv_length _ _ _ HI) as Hlen.
  apply (HQ _ (Green.children b)).
  - pose proof (Inv_group txt b ts k ps 0 (length (Green.children b)) HI ltac:(lia)) as HG.
    unfold group in HG. rewrite <-Hlen in HG at 2 3. simpl in HG.
    by rewrite drop_0, Nat.sub_0_r, firstn_all, drop_ge in HG by done.
  - done.
  - done.
  - unfold grouped. simpl. by rewrite drop_ge by done.
  - unfold grouped. simpl. rewrite drop_0, Nat.sub_0_r, firstn_all.
    by rewrite lookup_app_r, Nat.sub_diag by done.
Qed.

Lemma wp_tree txt es (Q : Rowan.GreenNode -> Prop) :
  wp LuaTreeBuilder.build (fun _ s => wp (Green.finish txt) (fun node _ => Q node)
      (LuaTreeBuilder.green_builder s) /\ LuaTreeBuilder.text s = txt) (LuaTreeBuilder.new txt es) ->
  exists node, LuaTreeBuilder.tree txt es = Done node /\ Q node.
Proof.
  unfold wp, LuaTreeBuilder.tree, bind.
  destruct (LuaTreeBuilder.build (LuaTreeBuilder.new txt es)) as [[[] s]| |]; [|done..].
  intros [HF Ht]. unfold LuaTreeBuilder.finish. rewrite Ht.
  destruct (Green.finish txt (LuaTreeBuilder.green_builder s)) as [[node g]| |]; [|done..]. eauto.
Qed.

Lemma Inv_new txt : Inv txt Green.new [].
Proof. exists []. split; constructor. Qed.

(** The events of one block: the tree is a chunk with that block, and its
    tokens are those of the events. *)
Lemma tree_of_block txt es p cs toks :
  Skel es (flats [TNode p CBlock cs]) -> goods true [TNode p CBlock cs] = true ->
  Forall2 (leaf_text txt) (forest_leaves [TNode p CBlock cs]) toks ->
  exists k ts, LuaTreeBuilder.tree txt es
               = Done (Rowan.GNode (Syntax Chunk) [Rowan.GNode (Syntax k) ts])
             /\ node_class k = CBlock /\ tokens_of ts = toks.
Proof.
  intros HS Hg Hl. pose proof (Skel_kinds_ok _ _ HS) as Hk.
  assert (Hflat : flats [TNode p CBlock cs] = AStart p CBlock :: flats cs ++ [AEnd]).
  { unfold flats at 1. cbn [map concat]. by rewrite app_nil_r. }
  rewrite Hflat in HS, Hk. apply Forall_cons in Hk as [Hc [Hk _]%Forall_app].
  set (k := start_kind es p) in *.
  cbn [goods] in Hg. apply andb_true_iff in Hg as [[_ Hg]%andb_true_iff _].
  rewrite good_node in Hg. apply andb_true_iff in Hg as [Htok Hg].
  unfold forest_leaves in Hl. cbn [map concat leaves] in Hl. rewrite app_nil_r in Hl.
  enough (exists node, LuaTreeBuilder.tree txt es = Done node
     /\ exists ts, node = Rowan.GNode (Syntax Chunk) [Rowan.GNode (Syntax k) ts] /\ tokens_of ts = toks)
    as (node & Hn & ts & -> & Ht) by eauto.
  apply wp_tree. apply (wp_build txt es _ (fun g => wp (Green.finish txt) (fun node _ =>
    exists ts, node = Rowan.GNode (Syntax Chunk) [Rowan.GNode (Syntax k) ts] /\ tokens_of ts = toks) g) HS).
  simpl. fold k. apply wp_bind. unfold Green.start_node. apply wp_modify, wp_bind, wp_modify.
  simpl. rewrite map_app, <-app_assoc. set (b := Green.mk _ _ _ _).
  apply wp_run_ops_app. eapply wp_mono.
  { apply (run_forest txt es cs false 0 b [] toks Hg Hk Hl); [exact (Inv_new txt)|done|done]. }
  intros [] b1 (ts & [I1 P1 B1 _ _ T1 _ _ _] & Hlen). cbn [map concrete app run_ops run_op].
  assert (0 < length (Green.children b1)) as Hpos by (apply Hlen; by intros ->).
  apply wp_bind, (wp_finish_all txt b1 ts k [(Chunk, 0)] _ I1 P1);
    [by intros Hn; rewrite Hn in Hpos; simpl in Hpos; lia|by apply class_block|].
  intros b2 c2 I2 P2 B2 C2 _.
  apply wp_bind, (wp_finish_all txt b2 _ Chunk [] _ I2 P2); [by rewrite C2|done|].
  intros b3 c3 I3 P3 B3 C3 E3. apply wp_ret.
  eapply wp_mono; [eapply (wp_green_finish txt b3); [exact C3|exact I3|exact E3|]|].
  - by rewrite B3, B2, B1.
  - intros node _ ->. by exists ts.
Qed.

(** No events, no text. *)
Lemma tree_of_nothing txt es :
  Skel es [] -> LuaTreeBuilder.tree txt es = Done (Rowan.GNode (Syntax Chunk) []).
Proof.
  intros HS. enough (exists node, LuaTreeBuilder.tree txt es = Done node
    /\ node = Rowan.GNode (Syntax Chunk) []) as (node & -> & ->) by done.
  apply wp_tree. apply (wp_build txt es _ (fun g => wp (Green.finish txt) (fun node _ =>
    node = Rowan.GNode (Syntax Chunk) []) g) HS). reflexivity.
Qed.

(** ** The theorem *)

(** C6: closing a node moves children, it loses none: whatever the kind of the
    node and wherever the trivia stands, [finish_node] does not panic on an open
    node, and the tokens below the children are the same, in the same order. *)
Theorem finish_node_keeps_tokens txt b ts k first ps :
  Inv txt b ts -> Green.parents b = (k, first) :: ps -> first <= length (Green.children b) ->
  exists b' ts', Green.finish_node b = Done (tt, b') /\ Inv txt b' ts' /\ tokens_of ts' = tokens_of ts
    /\ Green.builder b' = Green.builder b
    /\ Green.parents b' = (if decide (Green.children b = []) then Green.parents b else ps).
Proof.
  intros HI Hp Hf. destruct (decide (Green.children b = [])) as [Hc|Hc].
  - exists b, ts. split_and!; [|done..]. unfold Green.finish_node. by rewrite Hp, Hc.
  - assert (wp Green.finish_node (fun _ b' => exists ts', Inv txt b' ts' /\ tokens_of ts' = tokens_of ts
      /\ Green.builder b' = Green.builder b /\ Green.parents b' = ps) b) as Hw.
    { eapply wp_finish_node; [done..|]. intros a e [Hae _ _ _].
      exists (group k a e ts). split_and!; [by apply Inv_group|by apply tokens_of_group|done|done]. }
    unfold wp in Hw. destruct (Green.finish_node b) as [[[] b']| |]; [|done..].
    destruct Hw as (ts' & ? & ? & ? & ?). by exists b', ts'.
Qed.

(** A block around a name with trivia before it. *)
Lemma finish_node_keeps_tokens_witness :
  let b := Green.mk [(Block, 0)] [0; 1]
             [Green.Token TkWhitespace (mkRange 0 1); Green.Token TkName (mkRange 1 1)] Rowan.new in
  exists b', Green.finish_node b = Done (tt, b') /\ Green.children b' = [2].
Proof.
  intros b.
  assert (Inv (str " x") b [Rowan.GTok (Token TkWhitespace) (str " "); Rowan.GTok (Token TkName) (str "x")])
    as HI.
  { apply (Inv_token _ (Green.mk [(Block, 0)] [0] [Green.Token TkWhitespace (mkRange 0 1)] Rowan.new)
             [Rowan.GTok (Token TkWhitespace) (str " ")] TkName (mkRange 1 1)); [|reflexivity].
    apply (Inv_token _ (Green.mk [(Block, 0)] [] [] Rowan.new) [] TkWhitespace (mkRange 0 1));
      [|reflexivity].
    exists []. split; constructor. }
  destruct (finish_node_keeps_tokens (str " x") b _ Block 0 [] HI eq_refl) as (b' & ts' & Hb & _);
    [simpl; lia|].
  exists b'. split; [exact Hb|]. cbv in Hb. injection Hb as <-. reflexivity.
Defined.
