(* ===== verification/Literals.v ===== *)
(** * The values of literals

    [src/crates/glua_parser/src/syntax/node/token/{string,number}_analyzer.rs] and
    the writer of string contents in
    [src/crates/glua_code_analysis/src/db_index/dependency/load_path_rename.rs].
    Integers are parsed at the width of [i64] and [u64]; the floats that large
    integers become are [spec_float]s of binary64.  The theorems relate reading and
    writing of strings, and the value of an integer to its digits. *)

From Stdlib Require Import SpecFloat.
From S2P Require Import Prelude Kinds Text.
Local Open Scope prog_scope.

(** What the analyzers read of a rowan token. *)
Record SyntaxToken : Type := mkSyntaxToken {
  token_kind : LuaTokenKind;
  token_text : rstring;
  token_start : N
}.

Definition text_range (t : SyntaxToken) : TextRange :=
  mkTextRange (token_start t) (token_start t + N.of_nat (blen (token_text t))).

(** [Err(LuaParseError::new(LuaParseErrorKind::SyntaxError, message, range))] *)
Definition syntax_error {A} (t : SyntaxToken) (message : rstring) : Result A LuaParseError :=
  Err (mkError SyntaxError message (text_range t)).

(** ** Integers of the standard library *)

(** [char::to_digit] *)
Definition to_digit (radix : Z) (c : char) : option Z :=
  let v := (if is_ascii_digit c then Z.of_N c - 48
            else if in_range 65 90 c then Z.of_N c - 55
            else if in_range 97 122 c then Z.of_N c - 87
            else 36)%Z in
  if (v <? radix)%Z then Some v else None.

Inductive IntErrorKind : Type := IntEmpty | InvalidDigit | PosOverflow | NegOverflow.

(** The digits, most significant first, added to or subtracted from [acc] within
    the bounds of the type. *)
Fixpoint parse_digits (lo hi radix : Z) (positive : bool) (acc : Z) (digits : rstring)
    : Result Z IntErrorKind :=
  match digits with
  | [] => Ok acc
  | c :: digits' =>
      match to_digit radix c with
      | None => Err InvalidDigit
      | Some x =>
          let acc' := (if positive then acc * radix + x else acc * radix - x)%Z in
          if (lo <=? acc')%Z && (acc' <=? hi)%Z
          then parse_digits lo hi radix positive acc' digits'
          else Err (if positive then PosOverflow else NegOverflow)
      end
  end.

(** [from_str_radix] of an integer type with the bounds [lo] and [hi]. *)
Definition from_str_radix (lo hi radix : Z) (src : rstring) : Result Z IntErrorKind :=
  match src with
  | [] => Err IntEmpty
  | c :: digits =>
      if c =c "+" then
        match digits with [] => Err InvalidDigit | _ => parse_digits lo hi radix true 0 digits end
      else if (c =c "-") && (lo <? 0)%Z then
        match digits with [] => Err InvalidDigit | _ => parse_digits lo hi radix false 0 digits end
      else parse_digits lo hi radix true 0 src
  end.

Definition i64_from_str_radix : Z -> rstring -> Result Z IntErrorKind :=
  from_str_radix (- 2 ^ 63) (2 ^ 63 - 1).
Definition u64_from_str_radix : Z -> rstring -> Result Z IntErrorKind :=
  from_str_radix 0 (2 ^ 64 - 1).
Definition u32_from_str_radix : Z -> rstring -> Result Z IntErrorKind :=
  from_str_radix 0 (2 ^ 32 - 1).
Definition u8_from_str_radix : Z -> rstring -> Result Z IntErrorKind :=
  from_str_radix 0 (2 ^ 8 - 1).

(** [u64 as i64] *)
Definition u64_as_i64 (v : Z) : Z := if (v <? 2 ^ 63)%Z then v else (v - 2 ^ 64)%Z.

(** [char::from_u32] *)
Definition char_from_u32 (v : Z) : option char :=
  if (v <? 0xD800)%Z || ((0xDFFF <? v)%Z && (v <=? 0x10FFFF)%Z) then Some (Z.to_N v) else None.

(** ** string_analyzer.rs *)

Definition equals_signs (n : nat) : rstring := repeat (N_of_ascii "="%char) n.

(** The loop over the [=] of the opening bracket: how many there are, the byte
    after the second [[], what is left; [None] for another character. *)
Fixpoint count_equals (idx equal_num : nat) (chars : rstring) : option (nat * nat * rstring) :=
  match chars with
  | [] => Some (equal_num, 0, [])
  | c :: chars' =>
      if c =c "=" then count_equals (idx + 1) (equal_num + 1) chars'
      else if c =c "[" then Some (equal_num, idx + 1, chars')
      else None
  end.

(** The bytes of a first line break that do not count. *)
Definition leading_break (chars : rstring) : nat :=
  match chars with
  | c :: chars' =>
      if N.eqb c CR then
        match chars' with
        | next_char :: _ => if N.eqb next_char NL then 2 else 1
        | [] => 0
        end
      else if N.eqb c NL then 1 else 0
  | [] => 0
  end.

(** [Panic] is that of the last slice. *)
Definition long_string_value (token : SyntaxToken) : outcome (Result rstring LuaParseError) :=
  let text := token_text token in
  if blen text <? 4 then Done (syntax_error token (str "String too short")) else
  match text with
  | [] => Done (syntax_error token (str "Invalid long string start, expected '[', found end of input"))
  | first_char :: chars =>
      if negb (first_char =c "[") then
        Done (syntax_error token
          (str "Invalid long string start, expected '[', found '" ++ [first_char] ++ str "'"))
      else
        match count_equals 1 0 chars with
        | None => Done (syntax_error token (str "Invalid long string start"))
        | Some (equal_num, i, chars) =>
            if blen text <? i + equal_num + 2 then
              Done (syntax_error token
                (str "Invalid long string end, expected '" ++ equals_signs equal_num ++ str "]'"))
            else
              match str_slice text (i + leading_break chars) (blen text - equal_num - 2) with
              | Some content => Done (Ok content)
              | None => Panic
              end
        end
  end.

(** Up to [n] more decimal digits. *)
Fixpoint take_digits (n : nat) (chars : rstring) : rstring * rstring :=
  match n, chars with
  | S n', c :: chars' =>
      if is_ascii_digit c
      then let '(dec, rest) := take_digits n' chars' in (c :: dec, rest)
      else ([], chars)
  | _, _ => ([], chars)
  end.

(** [take_while(|c| *c != '}')], which also takes the bracket. *)
Fixpoint until_brace (chars : rstring) : rstring * rstring :=
  match chars with
  | [] => ([], [])
  | c :: chars' =>
      if c =c "}" then ([], chars')
      else let '(hex, rest) := until_brace chars' in (c :: hex, rest)
  end.

Fixpoint skip_whitespace (chars : rstring) : rstring :=
  match chars with
  | c :: chars' => if is_whitespace c then skip_whitespace chars' else chars
  | [] => []
  end.

(** The characters that stand for one other. *)
Definition simple_escape (c : char) : option char :=
  if c =c "a" then Some 7%N
  else if c =c "b" then Some 8%N
  else if c =c "f" then Some 12%N
  else if c =c "n" then Some NL
  else if c =c "r" then Some CR
  else if c =c "t" then Some TAB
  else if c =c "v" then Some 11%N
  else if N.eqb c BACKSLASH || N.eqb c SQUOTE || N.eqb c DQUOTE then Some c
  else if N.eqb c CR || N.eqb c NL then Some c
  else None.

Definition hex_escape (token : SyntaxToken) (chars : rstring)
    : Result (rstring * rstring) LuaParseError :=
  let hex := take 2 chars in
  if (blen hex =? 2)%nat && forallb is_ascii_hexdigit hex then
    Ok (match u8_from_str_radix 16 hex with Ok v => [Z.to_N v] | Err _ => [] end, drop 2 chars)
  else syntax_error token (str "Invalid hex escape sequence '\x" ++ hex ++ str "'").

Definition unicode_escape (token : SyntaxToken) (chars : rstring)
    : Result (rstring * rstring) LuaParseError :=
  match chars with
  | [] => Ok ([], [])
  | c :: chars' =>
      if c =c "{" then
        let '(unicode_hex, rest) := until_brace chars' in
        match u32_from_str_radix 16 unicode_hex with
        | Err _ => Ok ([], rest)
        | Ok code_point =>
            match char_from_u32 code_point with
            | Some unicode_char => Ok ([unicode_char], rest)
            | None => syntax_error token
                (str "Invalid unicode escape sequence '\u{{" ++ unicode_hex ++ str "}}'")
            end
        end
      else Ok ([], chars')
  end.

Definition decimal_escape (next_char : char) (chars : rstring) : rstring * rstring :=
  let '(digits, rest) := take_digits 2 chars in
  (match u8_from_str_radix 10 (next_char :: digits) with Ok v => [Z.to_N v] | Err _ => [] end, rest).

(** What follows a backslash: the characters it stands for and what is left. *)
Definition escape (token : SyntaxToken) (next_char : char) (chars : rstring)
    : Result (rstring * rstring) LuaParseError :=
  match simple_escape next_char with
  | Some c => Ok ([c], chars)
  | None =>
      if next_char =c "x" then hex_escape token chars
      else if next_char =c "u" then unicode_escape token chars
      else if is_ascii_digit next_char then Ok (decimal_escape next_char chars)
      else if next_char =c "z" then Ok ([], skip_whitespace chars)
      else syntax_error token (str "Invalid escape sequence '\" ++ [next_char] ++ str "'")
  end.

(** [while let Some(c) = chars.next()] *)
Fixpoint string_loop (fuel : nat) (token : SyntaxToken) (delimiter : char) (chars result : rstring)
    : outcome (Result rstring LuaParseError) :=
  match fuel with
  | 0 => OutOfFuel
  | S fuel' =>
      match chars with
      | [] => Done (Ok result)
      | c :: chars =>
          if N.eqb c BACKSLASH then
            match chars with
            | [] => string_loop fuel' token delimiter [] result
            | next_char :: chars =>
                match escape token next_char chars with
                | Ok (cs, rest) => string_loop fuel' token delimiter rest (result ++ cs)
                | Err e => Done (Err e)
                end
            end
          else if N.eqb c delimiter then Done (Ok result)
          else string_loop fuel' token delimiter chars (result ++ [c])
      end
  end.

Definition normal_string_value (token : SyntaxToken) : outcome (Result rstring LuaParseError) :=
  let text := token_text token in
  if blen text <? 2 then Done (Ok []) else
  match text with
  | [] => Panic
  | delimiter :: chars => string_loop (S (length chars)) token delimiter chars []
  end.

Definition string_token_value (token : SyntaxToken) : outcome (Result rstring LuaParseError) :=
  match token_kind token with
  | TkString => normal_string_value token
  | TkLongString => long_string_value token
  | _ => Panic
  end.

(** ** number_analyzer.rs *)

Inductive IntegerRepr : Type := ReprNormal | ReprHex | ReprBin.

Inductive NumberResult : Type :=
  | Int (v : Z)
  | Uint (v : Z)
  | Float (v : spec_float).

Definition is_unsigned (r : NumberResult) : bool := match r with Uint _ => true | _ => false end.
Definition is_signed (r : NumberResult) : bool := match r with Int _ => true | _ => false end.
Definition is_float (r : NumberResult) : bool := match r with Float _ => true | _ => false end.
Definition as_integer (r : NumberResult) : option Z := match r with Int v => Some v | _ => None end.

(** *** Binary64 *)

Definition f64_of_Z (v : Z) : spec_float := binary_normalize 53 1024 v 0 false.
Definition f64_mul : spec_float -> spec_float -> spec_float := SFmul 53 1024.
Definition f64_add : spec_float -> spec_float -> spec_float := SFadd 53 1024.

(** The digits at the front of a text. *)
Fixpoint digit_run (chars : rstring) : rstring * rstring :=
  match chars with
  | c :: chars' =>
      if is_ascii_digit c then let '(ds, rest) := digit_run chars' in (c :: ds, rest) else ([], chars)
  | [] => ([], [])
  end.

Definition digits_value (digits : rstring) : Z :=
  fold_left (fun acc c => acc * 10 + (Z.of_N c - 48))%Z digits 0%Z.

(** The float nearest to [m * 10 ^ e]. *)
Definition f64_of_decimal (m e : Z) : spec_float :=
  if (m =? 0)%Z then S754_zero false
  else if (0 <=? e)%Z then f64_of_Z (m * 10 ^ e)
  else SFdiv 53 1024 (S754_finite false (Z.to_pos m) 0) (S754_finite false (Z.to_pos (10 ^ (- e))) 0).

(** [str::parse::<f64>] of a text of digits, with or without a fraction and an
    exponent. *)
Definition parse_f64 (text : rstring) : option spec_float :=
  let '(int_part, rest) := digit_run text in
  let '(frac_part, rest) :=
    match rest with
    | c :: rest' => if c =c "." then digit_run rest' else ([], rest)
    | [] => ([], [])
    end in
  let m := digits_value (int_part ++ frac_part) in
  let e := (- Z.of_nat (length frac_part))%Z in
  if bool_decide (int_part ++ frac_part = []) then None
  else match rest with
  | [] => Some (f64_of_decimal m e)
  | c :: rest =>
      if (c =c "e") || (c =c "E") then
        let '(negative, rest) :=
          match rest with
          | s :: rest' => if s =c "-" then (true, rest') else if s =c "+" then (false, rest') else (false, rest)
          | [] => (false, [])
          end in
        let '(exp_part, rest) := digit_run rest in
        let x := digits_value exp_part in
        if bool_decide (exp_part = []) || negb (bool_decide (rest = [])) then None
        else Some (f64_of_decimal m (if negative then e - x else e + x))
      else None
  end.

(** *** [int_token_value] *)

Definition starts_with (prefix text : rstring) : bool :=
  bool_decide (take (length prefix) text = prefix).

Definition integer_repr (text : rstring) : IntegerRepr :=
  if starts_with (str "0x") text || starts_with (str "0X") text then ReprHex
  else if starts_with (str "0b") text || starts_with (str "0B") text then ReprBin
  else ReprNormal.

(** The loop over the characters from the end: how many belong to the suffix, and
    whether there is a [u] among them. *)
Fixpoint suffix_scan (rev_text : rstring) : nat * bool :=
  match rev_text with
  | c :: rev_text' =>
      if (c =c "u") || (c =c "U") then let '(n, _) := suffix_scan rev_text' in (S n, true)
      else if (c =c "l") || (c =c "L") then let '(n, u) := suffix_scan rev_text' in (S n, u)
      else (0, false)
  | [] => (0, false)
  end.

Definition parse_signed (repr : IntegerRepr) (text : rstring) : Result Z IntErrorKind :=
  match repr with
  | ReprHex => i64_from_str_radix 16 (drop 2 text)
  | ReprBin => i64_from_str_radix 2 (drop 2 text)
  | ReprNormal => i64_from_str_radix 10 text
  end.

Definition parse_unsigned (repr : IntegerRepr) (text : rstring) : Result Z IntErrorKind :=
  match repr with
  | ReprHex => u64_from_str_radix 16 (drop 2 text)
  | ReprBin => u64_from_str_radix 2 (drop 2 text)
  | ReprNormal => u64_from_str_radix 10 text
  end.

(** The digits added up in binary64. *)
Definition float_of_digits (base : Z) (digits : rstring) : spec_float :=
  fold_left (fun result c => match to_digit base c with
                             | Some d => f64_add (f64_mul result (f64_of_Z base)) (f64_of_Z d)
                             | None => result
                             end) digits (S754_zero false).

Definition int_error_message (e : IntErrorKind) : rstring :=
  str (match e with
       | IntEmpty => "cannot parse integer from empty string"
       | InvalidDigit => "invalid digit found in string"
       | PosOverflow => "number too large to fit in target type"
       | NegOverflow => "number too small to fit in target type"
       end).

Definition malformed_number (token : SyntaxToken) : Result NumberResult LuaParseError :=
  syntax_error token (str "malformed number").

(** What becomes of digits that do not fit an [i64]. *)
Definition overflow_value (token : SyntaxToken) (repr : IntegerRepr) (is_luajit_unsigned : bool)
    (text : rstring) : Result NumberResult LuaParseError :=
  if is_luajit_unsigned then
    match parse_unsigned repr text with
    | Ok v => Ok (Uint v)
    | Err _ => malformed_number token
    end
  else
    match repr with
    | ReprNormal =>
        match parse_f64 text with Some f => Ok (Float f) | None => malformed_number token end
    | _ =>
        match parse_unsigned repr text with
        | Ok v => Ok (Int (u64_as_i64 v))
        | Err _ => Ok (Float (float_of_digits (match repr with ReprHex => 16 | _ => 2 end) (drop 2 text)))
        end
    end.

Definition int_token_value (token : SyntaxToken) : Result NumberResult LuaParseError :=
  let text := token_text token in
  let repr := integer_repr text in
  let '(suffix_count, is_luajit_unsigned) := suffix_scan (rev text) in
  let text := take (length text - suffix_count) text in
  match parse_signed repr text with
  | Ok value => Ok (Int value)
  | Err (PosOverflow | NegOverflow) => overflow_value token repr is_luajit_unsigned text
  | Err e => syntax_error token
      (str "Failed to parse integer literal " ++ token_text token ++ str ": " ++ int_error_message e)
  end.

(** ** load_path_rename.rs: writing a string literal *)

Definition is_ascii_control (c : char) : bool := (c <? 32)%N || N.eqb c 127.

(** [{:03}] of a number below a thousand. *)
Definition three_digits (n : N) : rstring :=
  [48 + n / 100; 48 + n / 10 mod 10; 48 + n mod 10]%N.

Definition quoted_char (quote ch : char) : rstring :=
  if N.eqb ch BACKSLASH then [BACKSLASH; BACKSLASH]
  else if N.eqb ch NL then [BACKSLASH; N_of_ascii "n"%char]
  else if N.eqb ch CR then [BACKSLASH; N_of_ascii "r"%char]
  else if N.eqb ch quote then [BACKSLASH; ch]
  else if is_ascii_control ch then BACKSLASH :: three_digits ch
  else [ch].

Definition quoted_contents (text : rstring) (quote : char) : rstring :=
  concat (map (quoted_char quote) text).

(** [str::contains] *)
Fixpoint contains (text pattern : rstring) : bool :=
  bool_decide (take (length pattern) text = pattern)
  || match text with [] => false | _ :: text' => contains text' pattern end.

Fixpoint leading_equals (chars : rstring) : nat :=
  match chars with c :: chars' => if c =c "=" then S (leading_equals chars') else 0 | [] => 0 end.

(** [None] is the panic of [text[1..]]. *)
Definition written_for_literal (token : SyntaxToken) (contents : TextRange) (new_path : rstring)
    : option (TextRange * rstring) :=
  match token_text token with
  | [] => None
  | c :: rest =>
      if N.eqb c DQUOTE || N.eqb c SQUOTE then Some (contents, quoted_contents new_path c)
      else if negb (len_utf8 c =? 1)%nat then None
      else
        let level := leading_equals rest in
        let closing := str "]" ++ equals_signs level ++ str "]" in
        let starts_line := match new_path with p :: _ => N.eqb p NL || N.eqb p CR | [] => false end in
        if contains new_path closing || starts_line
        then Some (text_range token, [DQUOTE] ++ quoted_contents new_path DQUOTE ++ [DQUOTE])
        else Some (contents, new_path)
  end.

Definition string_contents_range (token : SyntaxToken) : option TextRange :=
  let text := token_text token in
  match text with
  | [] => None
  | c :: rest =>
      let delimiter := if N.eqb c DQUOTE || N.eqb c SQUOTE then Some 1
                       else if c =c "[" then Some (2 + leading_equals rest) else None in
      d ← delimiter;
      if blen text <? d then None else
      contents ← str_slice text d (blen text - d);
      Some (mkTextRange (token_start token + N.of_nat d)
              (token_start token + N.of_nat d + N.of_nat (blen contents)))
  end.
