(* ===== verification/LiteralProofs.v ===== *)
(** * Reading and writing literals

    What a literal token stands for, on all of the well formed ones: the value of
    a quoted string that the rename writes is the text it was written for, and
    the value of an integer is that of its digits, at the width of [i64], wrapped
    or rounded beyond it. *)

From Stdlib Require Import SpecFloat.
From S2P Require Import Prelude Kinds Text Literals.
From stdpp Require Import list.
Local Open Scope prog_scope.

(** ** Quoted strings *)

(** A control character is written with three digits and read back from them. *)
Lemma decimal_escape_three n rest :
  (n < 128)%N ->
  decimal_escape (48 + n / 100)%N (@cons char (48 + n / 10 mod 10) (@cons char (48 + n mod 10) rest))%N = ([n], rest)
  /\ is_ascii_digit (48 + n / 100)%N = true
  /\ simple_escape (48 + n / 100)%N = None.
Proof.
  intros Hn.
  assert (forallb (fun n => let n := N.of_nat n in
            match u8_from_str_radix 10 [48 + n / 100; 48 + n / 10 mod 10; 48 + n mod 10]%N with
            | Ok v => N.eqb (Z.to_N v) n | Err _ => false end
            && forallb is_ascii_digit [48 + n / 100; 48 + n / 10 mod 10; 48 + n mod 10]%N
            && bool_decide (simple_escape (48 + n / 100)%N = None)) (seq 0 128) = true) as H
    by (vm_compute; reflexivity).
  rewrite forallb_forall in H. specialize (H (N.to_nat n)).
  rewrite N2Nat.id in H. cbv zeta in H.
  assert (In (N.to_nat n) (seq 0 128)) as Hin by (apply in_seq; lia).
  apply H in Hin. clear H. rewrite !andb_true_iff in Hin. destruct Hin as [[H1 H2] H3].
  apply bool_decide_eq_true in H3. cbn [forallb] in H2. rewrite !andb_true_iff in H2.
  destruct H2 as (Ha & Hb & Hc & _). split_and!; [|done|done].
  unfold decimal_escape. cbn [take_digits app]. rewrite Hb, Hc.
  destruct (u8_from_str_radix 10 _) as [v|]; [|done]. apply N.eqb_eq in H1. by subst.
Qed.

Definition is_quote (q : char) : Prop := q = DQUOTE \/ q = SQUOTE.

(** One character, however it is written. *)
Lemma string_loop_quoted_char n token q ch rest acc :
  is_quote q ->
  string_loop (S n) token q (quoted_char q ch ++ rest) acc = string_loop n token q rest (acc ++ [ch]).
Proof.
  intros Hq. unfold quoted_char.
  destruct (N.eqb_spec ch BACKSLASH) as [->|H1]; [done|].
  destruct (N.eqb_spec ch NL) as [->|H2]; [done|].
  destruct (N.eqb_spec ch CR) as [->|H3]; [done|].
  destruct (N.eqb_spec ch q) as [->|H4]; [by destruct Hq as [->| ->]|].
  destruct (is_ascii_control ch) eqn:H5.
  - assert (ch < 128)%N as Hlt.
    { unfold is_ascii_control in H5. apply orb_true_iff in H5 as [H5|H5];
        [apply N.ltb_lt in H5|apply N.eqb_eq in H5]; lia. }
    destruct (decimal_escape_three ch rest Hlt) as (Hd & Hdig & Hs).
    unfold three_digits. cbn [app string_loop]. rewrite N.eqb_refl.
    unfold escape. rewrite Hs.
    assert ((48 + ch / 100 =c "x") = false /\ (48 + ch / 100 =c "u") = false) as [-> ->].
    { assert (ch / 100 <= 1)%N by (apply N.lt_succ_r, N.Div0.div_lt_upper_bound; lia).
      split; apply N.eqb_neq; vm_compute (N_of_ascii _); lia. }
    by rewrite Hdig, Hd.
  - cbn [app string_loop]. apply N.eqb_neq in H1, H4. by rewrite H1, H4.
Qed.

Lemma string_loop_quoted n token q text rest acc :
  is_quote q ->
  string_loop (length text + n) token q (quoted_contents text q ++ rest) acc
  = string_loop n token q rest (acc ++ text).
Proof.
  intros Hq. revert acc. induction text as [|c text IH]; intros acc; [by rewrite app_nil_r|].
  unfold quoted_contents. cbn [map concat length plus].
  rewrite <-app_assoc, string_loop_quoted_char by done.
  fold (quoted_contents text q). rewrite IH. by rewrite <-app_assoc.
Qed.

(** More fuel than is needed changes nothing. *)
Lemma string_loop_more n m token q chars acc r :
  string_loop n token q chars acc = Done r -> n <= m -> string_loop m token q chars acc = Done r.
Proof.
  revert m chars acc. induction n as [|n IH]; intros m chars acc; [done|].
  destruct m as [|m]; [lia|]. intros H Hm. cbn [string_loop] in *.
  destruct chars as [|c chars]; [done|]. case_if; [|case_if; [done|apply IH; [done|lia]]].
  destruct chars as [|c' chars]; [apply IH; [done|lia]|].
  destruct (escape token c' chars) as [[cs rest]|e]; [|done]. apply IH; [done|lia].
Qed.

Lemma quoted_char_nonempty q ch : 1 <= length (quoted_char q ch).
Proof. unfold quoted_char. repeat case_if; simpl; lia. Qed.

Lemma quoted_contents_length text q : length text <= length (quoted_contents text q).
Proof.
  induction text as [|c text IH]; [done|]. unfold quoted_contents in *. cbn [map concat length].
  rewrite length_app. pose proof (quoted_char_nonempty q c). lia.
Qed.

Definition quoted (q : char) (text : rstring) : rstring := [q] ++ quoted_contents text q ++ [q].

Lemma quoted_value q text start :
  is_quote q ->
  string_token_value (mkSyntaxToken TkString (quoted q text) start) = Done (Ok text).
Proof.
  intros Hq. unfold string_token_value, normal_string_value. cbn [token_kind token_text].
  assert (2 <= blen (quoted q text)) as Hb.
  { unfold quoted. cbn [app]. rewrite blen_cons.
    pose proof (blen_length (quoted_contents text q ++ [q])) as H.
    rewrite length_app in H. simpl in H. pose proof (len_utf8_pos q). lia. }
  rewrite (proj2 (Nat.ltb_ge _ _)) by lia. unfold quoted at 1. cbn [app].
  eapply (string_loop_more (length text + 1)).
  - rewrite string_loop_quoted by done. cbn [string_loop app].
    rewrite N.eqb_refl. by destruct Hq as [->| ->].
  - rewrite length_app. pose proof (quoted_contents_length text q). simpl. lia.
Qed.

(** ** Long strings *)

(** The literal of level [n] around [body]. *)
Definition long_bracket (n : nat) (body : rstring) : rstring :=
  str "[" ++ equals_signs n ++ str "[" ++ body ++ str "]" ++ equals_signs n ++ str "]".

(** Lua drops one line break after the opening bracket. *)
Definition without_break (body : rstring) : rstring :=
  match body with
  | c :: body' =>
      if N.eqb c CR then match body' with
                         | c' :: body'' => if N.eqb c' NL then body'' else body'
                         | [] => []
                         end
      else if N.eqb c NL then body' else body
  | [] => []
  end.

Lemma blen_equals n : blen (equals_signs n) = n.
Proof. induction n as [|n IH]; [done|]. unfold equals_signs in *. cbn [repeat]. by rewrite blen_cons, IH. Qed.

Lemma count_equals_open n idx k rest :
  count_equals idx k (equals_signs n ++ str "[" ++ rest) = Some (k + n, idx + n + 1, rest).
Proof.
  revert idx k. induction n as [|n IH]; intros idx k.
  - cbn. by rewrite !Nat.add_0_r.
  - unfold equals_signs. cbn [repeat app count_equals]. rewrite N.eqb_refl.
    fold (equals_signs n). rewrite IH.
    by replace (k + 1 + n) with (k + S n) by lia; replace (idx + 1 + n) with (idx + S n) by lia.
Qed.

Lemma leading_equals_open n rest : leading_equals (equals_signs n ++ str "[" ++ rest) = n.
Proof.
  induction n as [|n IH]; [done|]. unfold equals_signs in *. cbn [repeat app leading_equals].
  by rewrite N.eqb_refl, IH.
Qed.

Lemma leading_break_split body tail :
  exists brk, body = brk ++ without_break body
    /\ blen brk = leading_break (body ++ str "]" ++ tail).
Proof.
  destruct body as [|c body]; [by exists []|]. cbn [without_break leading_break app].
  destruct (N.eqb_spec c CR) as [->|_].
  - destruct body as [|c' body]; [by exists [CR]|]. cbn [app].
    destruct (N.eqb_spec c' NL) as [->|_]; [by exists [CR; NL]|by exists [CR]].
  - destruct (N.eqb_spec c NL) as [->|_]; [by exists [NL]|by exists []].
Qed.

Lemma long_bracket_value n body start :
  string_token_value (mkSyntaxToken TkLongString (long_bracket n body) start)
  = Done (Ok (without_break body)).
Proof.
  unfold string_token_value, long_string_value. cbn [token_kind token_text].
  assert (blen (long_bracket n body) = n + 2 + blen body + n + 2) as Hb.
  { unfold long_bracket. rewrite !blen_app, blen_equals. change (blen (str "[")) with 1.
    change (blen (str "]")) with 1. lia. }
  rewrite (proj2 (Nat.ltb_ge _ _)) by lia.
  pose (rest := equals_signs n ++ str "[" ++ body ++ str "]" ++ equals_signs n ++ str "]").
  assert (Heq : long_bracket n body = N_of_ascii "["%char :: rest) by done.
  assert (Hopen : count_equals 1 0 rest = Some (n, n + 2, body ++ str "]" ++ equals_signs n ++ str "]"))
    by (unfold rest; rewrite count_equals_open; by replace (1 + n + 1) with (n + 2) by lia).
  rewrite Heq. cbv beta iota. rewrite <-Heq, N.eqb_refl, Hopen. cbv beta iota delta [negb].
  rewrite (proj2 (Nat.ltb_ge _ _)) by lia.
  destruct (leading_break_split body (equals_signs n ++ str "]")) as (brk & Hbody & Hbrk).
  rewrite <-Hbrk. set (w := without_break body) in *.
  assert (blen body = blen brk + blen w) as Hbl by (by rewrite Hbody at 1; rewrite blen_app).
  replace (blen _ - n - 2) with (n + 2 + blen brk + blen w) by lia.
  replace (n + 2 + blen brk) with (blen (str "[" ++ equals_signs n ++ str "[" ++ brk))
    by (rewrite !blen_app, blen_equals; change (blen (str "[")) with 1; lia).
  replace (long_bracket n body)
    with ((str "[" ++ equals_signs n ++ str "[" ++ brk) ++ w ++ str "]" ++ equals_signs n ++ str "]").
  - by rewrite str_slice_app.
  - unfold long_bracket. rewrite Hbody at 1. by rewrite <-!app_assoc.
Qed.

(** ** Long strings that are not closed *)

(** Reading the value of a long string that the end of the file cuts off can
    panic: when the only line of the contents is empty and the closing bracket is
    short of its last character, the bounds of the slice cross. *)
Theorem unfinished_long_string_panics n start :
  string_token_value (mkSyntaxToken TkLongString
    (str "[" ++ equals_signs n ++ str "[" ++ [NL] ++ str "]" ++ equals_signs n) start) = Panic.
Proof.
  set (rest := equals_signs n ++ str "[" ++ [NL] ++ str "]" ++ equals_signs n).
  change (str "[" ++ rest) with (N_of_ascii "["%char :: rest).
  assert (blen (N_of_ascii "["%char :: rest) = n + n + 4) as Hb.
  { change (N_of_ascii "["%char :: rest) with (str "[" ++ rest). unfold rest.
    rewrite !blen_app, !blen_equals. change (blen (str "[")) with 1. change (blen (str "]")) with 1.
    change (blen [NL]) with 1. lia. }
  unfold string_token_value, long_string_value. cbn [token_kind token_text]. rewrite Hb.
  rewrite (proj2 (Nat.ltb_ge _ _)) by lia. rewrite N.eqb_refl. cbn [negb].
  unfold rest at 1. rewrite count_equals_open.
  rewrite (proj2 (Nat.ltb_ge _ _)) by lia.
  cbn [app leading_break]. change (NL =? CR)%N with false. rewrite N.eqb_refl.
  unfold str_slice. by rewrite (proj2 (Nat.leb_gt _ _)) by lia.
Qed.

(** ** Integers *)

Lemma to_digit_bounds radix c x : to_digit radix c = Some x -> (0 <= x < radix)%Z.
Proof.
  unfold to_digit, is_ascii_digit, in_range.
  repeat case_if; try discriminate; intros [= <-];
    rewrite ?andb_true_iff, ?andb_false_iff, ?N.leb_le, ?N.leb_gt, ?Z.ltb_lt in *; lia.
Qed.

(** The number that digits denote. *)
Definition radix_value (radix acc : Z) (digits : rstring) : Z :=
  fold_left (fun acc c => acc * radix + default 0 (to_digit radix c))%Z digits acc.

Definition all_digits (radix : Z) (digits : rstring) : Prop :=
  Forall (fun c => is_Some (to_digit radix c)) digits.

Lemma radix_value_ge radix acc digits :
  (1 <= radix)%Z -> (0 <= acc)%Z -> all_digits radix digits -> (acc <= radix_value radix acc digits)%Z.
Proof.
  intros Hr. revert acc. induction digits as [|c ds IH]; intros acc Ha Hd; [unfold radix_value; simpl; lia|].
  apply Forall_cons in Hd as [[x Hx] Hd]. unfold radix_value in *. cbn [fold_left]. rewrite Hx. simpl.
  apply to_digit_bounds in Hx. specialize (IH (acc * radix + x)%Z ltac:(nia) Hd). nia.
Qed.

Lemma parse_digits_value lo hi radix acc digits :
  (lo <= 0)%Z -> (0 <= acc <= hi)%Z -> (1 <= radix)%Z -> all_digits radix digits ->
  parse_digits lo hi radix true acc digits
  = let v := radix_value radix acc digits in if (v <=? hi)%Z then Ok v else Err PosOverflow.
Proof.
  intros Hlo. revert acc. induction digits as [|c ds IH]; intros acc Ha Hr Hd.
  - simpl. by rewrite (proj2 (Z.leb_le _ _)) by lia.
  - apply Forall_cons in Hd as [[x Hx] Hd]. cbn [parse_digits]. rewrite Hx.
    pose proof (to_digit_bounds _ _ _ Hx) as Hb.
    replace (radix_value radix acc (c :: ds)) with (radix_value radix (acc * radix + x) ds)
      by (unfold radix_value; cbn [fold_left]; by rewrite Hx).
    rewrite (proj2 (Z.leb_le lo _)) by nia. cbn [andb].
    destruct (Z.leb_spec (acc * radix + x) hi) as [Hh|Hh].
    + apply IH; [nia|done|done].
    + pose proof (radix_value_ge radix (acc * radix + x) ds Hr ltac:(nia) Hd).
      cbv zeta. by rewrite (proj2 (Z.leb_gt _ _)) by lia.
Qed.

Lemma from_str_radix_value lo hi radix digits :
  (lo <= 0 <= hi)%Z -> (1 <= radix <= 36)%Z -> digits <> [] -> all_digits radix digits ->
  from_str_radix lo hi radix digits
  = let v := radix_value radix 0 digits in if (v <=? hi)%Z then Ok v else Err PosOverflow.
Proof.
  intros Hb Hr Hne Hd. destruct digits as [|c ds]; [done|]. unfold from_str_radix.
  assert (forall a, to_digit radix (N_of_ascii a) = None -> (c =c a) = false) as Hc.
  { intros a Ha. apply N.eqb_neq. intros ->. apply Forall_cons in Hd as [[x Hx] _]. congruence. }
  rewrite (Hc "+"%char), (Hc "-"%char).
  - apply parse_digits_value; [lia|lia|lia|done].
  - change (to_digit radix (N_of_ascii "-"%char)) with (if (36 <? radix)%Z then Some 36%Z else None).
    by rewrite (proj2 (Z.ltb_ge _ _)) by lia.
  - change (to_digit radix (N_of_ascii "+"%char)) with (if (36 <? radix)%Z then Some 36%Z else None).
    by rewrite (proj2 (Z.ltb_ge _ _)) by lia.
Qed.

Lemma digit_not_suffix radix c :
  (radix <= 16)%Z -> is_Some (to_digit radix c) ->
  (c =c "u") = false /\ (c =c "U") = false /\ (c =c "l") = false /\ (c =c "L") = false.
Proof.
  intros Hr [x Hx].
  assert (forall a v, to_digit radix (N_of_ascii a) = (if (v <? radix)%Z then Some v else None) ->
            (16 <= v)%Z -> (c =c a) = false) as Hc.
  { intros a v Ha Hv. apply N.eqb_neq. intros ->. rewrite (proj2 (Z.ltb_ge _ _)) in Ha by lia. congruence. }
  split_and!; [apply (Hc _ 30%Z)|apply (Hc _ 30%Z)|apply (Hc _ 21%Z)|apply (Hc _ 21%Z)]; done.
Qed.

(** Digits have no suffix. *)
Lemma suffix_scan_digits radix pre digits :
  (radix <= 16)%Z -> digits <> [] -> all_digits radix digits -> suffix_scan (rev (pre ++ digits)) = (0, false).
Proof.
  intros Hr Hne Hd. destruct (exists_last Hne) as (ds & c & ->).
  apply Forall_app in Hd as [_ Hc]. apply Forall_cons in Hc as [Hc _].
  destruct (digit_not_suffix radix c Hr Hc) as (H1 & H2 & H3 & H4).
  rewrite app_assoc, rev_unit. cbn [suffix_scan]. by rewrite H1, H2, H3, H4.
Qed.

Lemma radix_value_decimal acc digits :
  Forall (fun c => is_ascii_digit c = true) digits ->
  radix_value 10 acc digits = fold_left (fun acc c => acc * 10 + (Z.of_N c - 48))%Z digits acc
  /\ all_digits 10 digits.
Proof.
  intros Hd. revert acc. induction Hd as [|c ds Hc Hd IH]; intros acc; [by split; [|constructor]|].
  assert (to_digit 10 c = Some (Z.of_N c - 48)%Z) as Hx.
  { unfold to_digit. rewrite Hc. unfold is_ascii_digit, in_range in Hc.
    apply andb_true_iff in Hc as [? ?%N.leb_le]. by rewrite (proj2 (Z.ltb_lt _ _)) by lia. }
  destruct (IH (acc * 10 + (Z.of_N c - 48))%Z) as [Hv Ha]. split.
  - unfold radix_value in *. cbn [fold_left]. by rewrite Hx.
  - constructor; [by eexists|done].
Qed.

Lemma digit_run_all digits :
  Forall (fun c => is_ascii_digit c = true) digits -> digit_run digits = (digits, []).
Proof. induction 1 as [|c ds Hc Hd IH]; [done|]. cbn [digit_run]. by rewrite Hc, IH. Qed.

Lemma integer_repr_decimal digits :
  Forall (fun c => is_ascii_digit c = true) digits -> integer_repr digits = ReprNormal.
Proof.
  intros Hd. unfold integer_repr, starts_with.
  assert (forall p, is_ascii_digit p = false ->
    bool_decide (take 2 digits = [N_of_ascii "0"%char; p]) = false) as H.
  { intros p Hp. apply bool_decide_eq_false. intros Ht.
    assert (Forall (fun c => is_ascii_digit c = true) (take 2 digits)) as Hf by by apply Forall_take.
    rewrite Ht in Hf. apply Forall_cons in Hf as [_ [Hf _]%Forall_cons]. congruence. }
  replace (bool_decide (take (length (str "0x")) digits = str "0x")) with false by (symmetry; by apply H).
  replace (bool_decide (take (length (str "0X")) digits = str "0X")) with false by (symmetry; by apply H).
  replace (bool_decide (take (length (str "0b")) digits = str "0b")) with false by (symmetry; by apply H).
  by replace (bool_decide (take (length (str "0B")) digits = str "0B")) with false by (symmetry; by apply H).
Qed.

Lemma take_no_suffix {A} (l : list A) : take (length l - 0) l = l.
Proof. rewrite Nat.sub_0_r. apply firstn_all. Qed.

(** The value of a decimal integer literal is the number its digits denote when
    that fits an [i64], and the nearest binary64 number when it does not. *)
Theorem decimal_int_value digits start :
  digits <> [] -> Forall (fun c => is_ascii_digit c = true) digits ->
  int_token_value (mkSyntaxToken TkInt digits start)
  = Ok (if (digits_value digits <? 2 ^ 63)%Z then Int (digits_value digits)
        else Float (f64_of_decimal (digits_value digits) 0)).
Proof.
  intros Hne Hd. destruct (radix_value_decimal 0 digits Hd) as [Hv Ha].
  unfold int_token_value. cbn [token_text]. rewrite (integer_repr_decimal _ Hd).
  pose proof (suffix_scan_digits 10 [] digits ltac:(done) Hne Ha) as Hs. cbn [app] in Hs.
  rewrite Hs, take_no_suffix. unfold parse_signed, i64_from_str_radix.
  rewrite from_str_radix_value by done. rewrite Hv. fold (digits_value digits). cbv zeta.
  destruct (Z.ltb_spec (digits_value digits) (2 ^ 63)) as [Hl|Hl].
  - by rewrite (proj2 (Z.leb_le _ _)) by lia.
  - rewrite (proj2 (Z.leb_gt _ _)) by lia. unfold overflow_value, parse_f64.
    rewrite (digit_run_all _ Hd), app_nil_r. by rewrite bool_decide_false.
Qed.

Lemma decimal_int_value_witness :
  int_token_value (mkSyntaxToken TkInt (str "9223372036854775808") 0)
  = Ok (Float (S754_finite false 4503599627370496 11)).
Proof.
  rewrite (decimal_int_value (str "9223372036854775808") 0); [|discriminate|].
  - vm_compute. reflexivity.
  - by repeat constructor.
Defined.

(** A hexadecimal integer literal denotes its digits modulo 2^64 in two's
    complement as long as they fit 64 bits, and is added up in binary64 beyond
    that. *)
Theorem hex_int_value x digits start :
  x = N_of_ascii "x"%char \/ x = N_of_ascii "X"%char -> digits <> [] -> all_digits 16 digits ->
  int_token_value (mkSyntaxToken TkInt (N_of_ascii "0"%char :: x :: digits) start)
  = let v := radix_value 16 0 digits in
    Ok (if (v <? 2 ^ 63)%Z then Int v
        else if (v <? 2 ^ 64)%Z then Int (v - 2 ^ 64)
        else Float (float_of_digits 16 digits)).
Proof.
  intros Hx Hne Ha. unfold int_token_value. cbn [token_text].
  assert (integer_repr (N_of_ascii "0"%char :: x :: digits) = ReprHex) as ->
    by (unfold integer_repr, starts_with; by destruct Hx as [->| ->]).
  pose proof (suffix_scan_digits 16 [N_of_ascii "0"%char; x] digits ltac:(done) Hne Ha) as Hs.
  replace (suffix_scan _) with (0, false) by (symmetry; exact Hs). rewrite take_no_suffix.
  unfold parse_signed, i64_from_str_radix.
  change (drop 2 (N_of_ascii "0"%char :: x :: digits)) with digits.
  rewrite from_str_radix_value by done. cbv zeta. set (v := radix_value 16 0 digits).
  destruct (Z.ltb_spec v (2 ^ 63)) as [Hl|Hl].
  - by rewrite (proj2 (Z.leb_le _ _)) by lia.
  - rewrite (proj2 (Z.leb_gt _ _)) by lia. unfold overflow_value, parse_unsigned, u64_from_str_radix.
    change (drop 2 (N_of_ascii "0"%char :: x :: digits)) with digits. rewrite from_str_radix_value by done. cbv zeta. fold v.
    destruct (Z.ltb_spec v (2 ^ 64)) as [Hl'|Hl'].
    + rewrite (proj2 (Z.leb_le _ _)) by lia. unfold u64_as_i64.
      by rewrite (proj2 (Z.ltb_ge _ _)) by lia.
    + by rewrite (proj2 (Z.leb_gt _ _)) by lia.
Qed.

Lemma hex_int_value_witness :
  int_token_value (mkSyntaxToken TkInt (str "0xFFFFFFFFFFFFFFFE") 0) = Ok (Int (-2)).
Proof.
  refine (eq_trans (hex_int_value (N_of_ascii "x"%char) (str "FFFFFFFFFFFFFFFE") 0
                      (or_introl eq_refl) _ _) _).
  - discriminate.
  - repeat constructor; eexists; reflexivity.
  - vm_compute. reflexivity.
Defined.
