(* ===== verification/LiteralEdits.v ===== *)
(** * A rewritten load path, lexed anew

    The edit of [written_for_literal] of
    [src/crates/glua_code_analysis/src/db_index/dependency/load_path_rename.rs] is
    made in the source of the file, and the file is lexed again: the lexer of
    [LuaLexer.v], started where the literal starts, has to find one string token
    again, and that one has to stand for the new path. *)

From S2P Require Import Prelude Kinds Text LuaLexer LuaLexerProofs Literals LiteralProofs.
From stdpp Require Import list.
Import LuaLexer.
Local Open Scope prog_scope.

(** ** Literals and their contents *)

(** A complete string literal: its kind and its two delimiters. *)
Inductive delimiters : LuaTokenKind -> rstring -> rstring -> Prop :=
  | quotes q : is_quote q -> delimiters TkString [q] [q]
  | brackets n : delimiters TkLongString (str "[" ++ equals_signs n ++ str "[")
                   (str "]" ++ equals_signs n ++ str "]").

Lemma long_bracket_split n body :
  long_bracket n body
  = (str "[" ++ equals_signs n ++ str "[") ++ body ++ str "]" ++ equals_signs n ++ str "]".
Proof. unfold long_bracket. by rewrite <-!app_assoc. Qed.

Lemma quote_blen q : is_quote q -> blen [q] = 1.
Proof. by intros [->| ->]. Qed.

Lemma quote_test q : is_quote q -> (N.eqb q DQUOTE || N.eqb q SQUOTE) = true.
Proof. by intros [->| ->]. Qed.

Lemma literal_contents k d1 body d2 start :
  delimiters k d1 d2 ->
  string_contents_range (mkSyntaxToken k (d1 ++ body ++ d2) start)
  = Some (mkTextRange (start + N.of_nat (blen d1)) (start + N.of_nat (blen d1 + blen body))).
Proof.
  intros Hd.
  assert (exists c rest, d1 ++ body ++ d2 = c :: rest /\ blen d2 = blen d1 /\
    (if N.eqb c DQUOTE || N.eqb c SQUOTE then Some 1
     else if c =c "[" then Some (2 + leading_equals rest) else None) = Some (blen d1))
    as (c & rest & Ht & Hb & Hdel).
  { destruct Hd as [q Hq|n].
    - exists q, (body ++ [q]). by rewrite quote_test, quote_blen.
    - exists (N_of_ascii "["%char), (equals_signs n ++ str "[" ++ body ++ str "]" ++ equals_signs n ++ str "]").
      split_and!; [by rewrite <-!app_assoc|by rewrite !blen_app|].
      rewrite N.eqb_refl, leading_equals_open, !blen_app, blen_equals.
      change (N_of_ascii "["%char =? DQUOTE)%N with false.
      change (N_of_ascii "["%char =? SQUOTE)%N with false. cbn [orb].
      f_equal. change (blen (str "[")) with 1. lia. }
  unfold string_contents_range. cbn [token_text token_start]. rewrite Ht. cbv beta iota.
  rewrite Hdel, <-Ht. cbn [mbind option_bind]. rewrite !blen_app, Hb.
  rewrite (proj2 (Nat.ltb_ge _ _)) by lia.
  replace (blen d1 + (blen body + blen d1) - blen d1) with (blen d1 + blen body) by lia.
  rewrite str_slice_app. cbn [mbind option_bind]. do 2 f_equal. lia.
Qed.

Lemma starts_line_kept path :
  match path with p :: _ => N.eqb p NL || N.eqb p CR | [] => false end = false ->
  without_break path = path.
Proof.
  destruct path as [|p path]; [done|]. cbn [without_break]. intros [-> ->]%orb_false_iff. done.
Qed.

Lemma written_quoted k start body q contents path :
  is_quote q ->
  written_for_literal (mkSyntaxToken k ([q] ++ body ++ [q]) start) contents path
  = Some (contents, quoted_contents path q).
Proof. intros Hq. unfold written_for_literal. cbn [token_text app]. by rewrite quote_test. Qed.

(** A long literal keeps its brackets only around a path without the closing one
    and without a line break at its start. *)
Lemma written_long n body start path :
  let token := mkSyntaxToken TkLongString (long_bracket n body) start in
  (forall contents, written_for_literal token contents path = Some (contents, path))
    /\ without_break path = path /\ contains path (str "]" ++ equals_signs n ++ str "]") = false
  \/ forall contents, written_for_literal token contents path = Some (text_range token, quoted DQUOTE path).
Proof.
  intros token.
  assert (exists rest, token_text token = N_of_ascii "["%char :: rest /\ leading_equals rest = n)
    as (rest & Hcons & Heqs).
  { eexists. split; [reflexivity|]. apply leading_equals_open. }
  unfold written_for_literal. rewrite Hcons, Heqs. cbv beta iota.
  change (N_of_ascii "["%char =? DQUOTE)%N with false.
  change (N_of_ascii "["%char =? SQUOTE)%N with false.
  change (negb (len_utf8 (N_of_ascii "["%char) =? 1)%nat) with false. cbv beta iota delta [orb].
  cbv zeta. destruct (contains path _); [by right|].
  destruct (match path with p :: _ => _ | [] => false end) eqn:Hs; [by right|].
  left. split_and!; [done| |done]. by apply starts_line_kept.
Qed.

(** ** The edit of the source *)

(** The text once an edit is applied: [range] is replaced by [new_text]. *)
Definition applied (source : rstring) (range : TextRange) (new_text : rstring) : option rstring :=
  before ← take_bytes (N.to_nat (text_start range)) source;
  after ← skip_bytes (N.to_nat (text_end range)) source;
  Some (before ++ new_text ++ after).

Lemma applied_between before old after new_text :
  applied (before ++ old ++ after)
    (mkTextRange (N.of_nat (blen before)) (N.of_nat (blen before + blen old))) new_text
  = Some (before ++ new_text ++ after).
Proof.
  unfold applied. cbn [text_start text_end]. rewrite !Nat2N.id, take_bytes_app. cbn [mbind option_bind].
  rewrite app_assoc, <-blen_app, skip_bytes_app. done.
Qed.

(** ** Where a long literal ends *)

Lemma contains_none t p u v : contains t p = false -> t <> u ++ p ++ v.
Proof.
  revert u. induction t as [|c t IH]; intros u Hc Ht.
  - symmetry in Ht. apply app_eq_nil in Ht as [-> Ht]. apply app_eq_nil in Ht as [-> _]. done.
  - cbn [contains] in Hc. apply orb_false_iff in Hc as [H1 H2]. destruct u as [|c' u].
    + apply bool_decide_eq_false in H1. apply H1. rewrite Ht. simpl.
      by rewrite take_app_length.
    + injection Ht as _ Ht. by apply (IH u).
Qed.

(** [first_close n t]: in [t] and the closing bracket of level [n] after it, that
    bracket is the first. *)
Definition first_close (n : nat) (t : rstring) : Prop :=
  forall u v, t ++ str "]" ++ equals_signs n ++ str "]" = u ++ (str "]" ++ equals_signs n ++ str "]") ++ v -> v = [].

Lemma first_close_suffix n t t' : first_close n (t ++ t') -> first_close n t'.
Proof.
  intros Hf u v He. apply (Hf (t ++ u) v). rewrite <-!app_assoc in *. by f_equal.
Qed.

(** Only the last character of a path can be the start of a closing bracket that
    is not in it. *)
Lemma first_close_path n path :
  contains path (str "]" ++ equals_signs n ++ str "]") = false ->
  (forall front, path ++ str "]" <> front ++ str "]" ++ equals_signs n ++ str "]") ->
  first_close n path.
Proof.
  intros Hc Hend u v He. destruct v as [|z v _] using rev_ind; [done|exfalso].
  set (C := str "]" ++ equals_signs n ++ str "]") in *.
  rewrite app_assoc in He. apply app_eq_inv in He as [(k & H1 & H2)|(k & H1 & H2)].
  - apply (contains_none path C u k Hc). by rewrite H1, <-app_assoc.
  - destruct k as [|c k].
    { rewrite app_nil_r in H1. apply (contains_none path C u [] Hc). by rewrite app_nil_r. }
    unfold C in H2. cbn [app str] in H2. injection H2 as <- H2.
    rewrite app_assoc in H2. apply app_inj_tail in H2 as [H2 _].
    destruct k as [|x k _] using rev_ind; [by apply (Hend u)|].
    assert (In x (equals_signs n)) as Hx by (rewrite H2, !in_app_iff; simpl; tauto).
    apply repeat_spec in Hx. subst x.
    assert (He : (u ++ str "]" ++ equals_signs n) ++ str "]"
                 = (path ++ N_of_ascii "]"%char :: k) ++ [N_of_ascii "="%char])
      by (rewrite <-!app_assoc; exact H1).
    by apply app_inj_tail in He as [_ ?].
Qed.

(** ** Lexing a literal *)

Section Lexing.
Context `{UnicodeTables}.
Implicit Types (l : LuaLexer.t).

(** The lexer [l] has read [buf] of its token and has [rest] to read; besides the
    reader and the state it is as it was at [l0]. *)
Record at_ l0 (st : LexerState) (pre buf rest : rstring) l : Prop := mkAt {
  at_cursor : cursor (reader l) pre buf rest;
  at_config : lexer_config l = lexer_config l0;
  at_errors : errors l = errors l0;
  at_state : state l = st
}.

Lemma at_bump l0 st pre buf c rest l (Q : unit -> t -> Prop) :
  at_ l0 st pre buf (c :: rest) l -> c <> EOF ->
  (forall l', at_ l0 st pre (buf ++ [c]) rest l' -> remaining (reader l') < remaining (reader l) -> Q tt l') ->
  wp bump Q l.
Proof.
  intros [Hc Hcf He Hs] Hne HQ. apply wp_modify, HQ; [split; try done; by apply cursor_bump|].
  pose proof (remaining_bump (reader l)) as Hr. unfold Reader.is_eof in Hr.
  rewrite (cur_current _ _ _ _ Hc) in Hr. cbn [head default from_option] in Hr. simpl in *.
  rewrite (proj2 (N.eqb_neq _ _) Hne) in Hr. simpl in Hr. lia.
Qed.

Lemma at_char l0 st pre buf c rest l : at_ l0 st pre buf (c :: rest) l -> current_char l = c.
Proof. intros [Hc _ _ _]. unfold current_char, Reader.current_char. by rewrite (cur_current _ _ _ _ Hc). Qed.

Lemma at_eof l0 st pre buf c rest l : at_ l0 st pre buf (c :: rest) l -> c <> EOF -> is_eof l = false.
Proof. intros Ha Hne. eapply current_char_not_eof; [by eapply at_char|done]. Qed.

Lemma at_set_state l0 st st' pre buf rest l :
  at_ l0 st pre buf rest l -> at_ l0 st' pre buf rest (set_state st' l).
Proof. intros [Hc Hcf He Hs]. by split. Qed.

Lemma at_eat_when l0 st pre buf rest l ch (Q : nat -> t -> Prop) :
  at_ l0 st pre buf rest l ->
  (forall l' rest', rest = scan (N.eqb ch) rest ++ rest' ->
     at_ l0 st pre (buf ++ scan (N.eqb ch) rest) rest' l' -> remaining (reader l') <= remaining (reader l) ->
     Q (length (scan (N.eqb ch) rest)) l') ->
  wp (eat_when ch) Q l.
Proof.
  intros [Hc Hcf He Hs] HQ. unfold wp, eat_when.
  destruct (eat_while_spec (N.eqb ch) _ _ _ _ Hc) as (r' & rest' & Heat & Hrest & Hc').
  change (Reader.eat_when ch (reader l)) with (Reader.eat_while (N.eqb ch) (reader l)). rewrite Heat.
  apply (HQ _ rest'); [done|by split|].
  pose proof (remaining_eat_loop (Reader.steps_left (reader l)) (N.eqb ch) None 0 (reader l)) as Hr.
  unfold Reader.eat_while in Heat. by rewrite Heat in Hr.
Qed.

(** *** Quoted strings *)

(** The inside of a quoted string that [lex_string] goes over: plain characters
    and escapes of one character. *)
Inductive quotable (q : char) : rstring -> Prop :=
  | quotable_nil : quotable q []
  | quotable_plain c t :
      c <> EOF -> c <> q -> c <> NL -> c <> CR -> c <> BACKSLASH -> quotable q t -> quotable q (c :: t)
  | quotable_escape c t :
      c <> EOF -> c <> N_of_ascii "z"%char -> c <> NL -> c <> CR -> quotable q t ->
      quotable q (BACKSLASH :: c :: t).

Lemma quotable_app q t u : quotable q t -> quotable q u -> quotable q (t ++ u).
Proof. induction 1; simpl; intros; [done|apply quotable_plain; auto|apply quotable_escape; auto]. Qed.

Lemma quoted_char_quotable q ch : is_quote q -> quotable q (quoted_char q ch).
Proof.
  intros Hq. assert (q <> EOF /\ q <> N_of_ascii "z"%char /\ q <> NL /\ q <> CR) as (? & ? & ? & ?)
    by (by destruct Hq as [->| ->]).
  unfold quoted_char.
  destruct (N.eqb_spec ch BACKSLASH); [by apply quotable_escape; try constructor|].
  destruct (N.eqb_spec ch NL); [by apply quotable_escape; try constructor|].
  destruct (N.eqb_spec ch CR); [by apply quotable_escape; try constructor|].
  destruct (N.eqb_spec ch q) as [->|]; [by apply quotable_escape; try constructor|].
  destruct (is_ascii_control ch) eqn:Hctl.
  - unfold three_digits.
    assert (ch / 100 < 10 /\ ch / 10 mod 10 < 10 /\ ch mod 10 < 10)%N as (Hd1 & Hd2 & Hd3).
    { split_and!; try (apply N.mod_lt; lia). apply N.Div0.div_lt_upper_bound.
      unfold is_ascii_control in Hctl. apply orb_true_iff in Hctl as [?%N.ltb_lt|?%N.eqb_eq]; lia. }
    assert (forall d, (d < 10)%N -> (48 + d <> EOF /\ 48 + d <> q /\ 48 + d <> N_of_ascii "z"%char /\ 48 + d <> NL
              /\ 48 + d <> CR /\ 48 + d <> BACKSLASH)%N) as Hd.
    { intros d Hd. destruct Hq as [->| ->]; vm_compute (N_of_ascii _);
        unfold EOF, NL, CR, BACKSLASH, DQUOTE, SQUOTE; lia. }
    destruct (Hd _ Hd1) as (? & ? & ? & ? & ? & ?). destruct (Hd _ Hd2) as (? & ? & ? & ? & ? & ?).
    destruct (Hd _ Hd3) as (? & ? & ? & ? & ? & ?).
    apply quotable_escape; [done..|]. do 2 (apply quotable_plain; [done..|]). constructor.
  - apply quotable_plain; try done; [|by constructor].
    intros ->. discriminate.
Qed.

Lemma quoted_contents_quotable q text : is_quote q -> quotable q (quoted_contents text q).
Proof.
  intros Hq. induction text as [|c text IH]; [constructor|]. unfold quoted_contents. cbn [map concat].
  apply quotable_app; [by apply quoted_char_quotable|exact IH].
Qed.

Lemma quote_chars q : is_quote q -> q <> EOF /\ q <> NL /\ q <> CR /\ q <> BACKSLASH.
Proof. by intros [->| ->]. Qed.

(** A turn goes over a plain character or over an escape. *)
Lemma lex_string_turn l0 st pre buf q todo after l (Q : unit + unit -> t -> Prop) :
  is_quote q -> quotable q todo -> at_ l0 st pre buf (todo ++ q :: after) l ->
  (todo = [] -> Q (inr tt) l) ->
  (forall d todo' l', todo = d ++ todo' -> quotable q todo' ->
     at_ l0 st pre (buf ++ d) (todo' ++ q :: after) l' -> remaining (reader l') < remaining (reader l) ->
     Q (inl tt) l') ->
  wp (lex_string_step q tt) Q l.
Proof.
  intros Hq Hb Ha Hend Hgo. unfold lex_string_step. destruct (quote_chars q Hq) as (Hq1 & Hq2 & Hq3 & Hq4).
  apply wp_bind, wp_gets.
  destruct Hb as [|c t He Hcq Hnl Hcr Hbs Hb|c t He Hz Hnl Hcr Hb]; simpl in Ha.
  - rewrite (at_eof _ _ _ _ _ _ _ Ha Hq1). apply wp_bind, wp_gets.
    rewrite (at_char _ _ _ _ _ _ _ Ha), N.eqb_refl. by apply wp_ret, Hend.
  - rewrite (at_eof _ _ _ _ _ _ _ Ha He). apply wp_bind, wp_gets. rewrite (at_char _ _ _ _ _ _ _ Ha).
    rewrite !(proj2 (N.eqb_neq _ _)) by done. simpl. apply wp_bind.
    eapply at_bump; [exact Ha|done|]. intros l1 Ha1 Hr1. apply wp_ret. by apply (Hgo [c] t).
  - assert (BACKSLASH <> EOF) as Hbe by done.
    rewrite (at_eof _ _ _ _ _ _ _ Ha Hbe). apply wp_bind, wp_gets. rewrite (at_char _ _ _ _ _ _ _ Ha).
    rewrite (proj2 (N.eqb_neq BACKSLASH q)) by done. simpl. apply wp_bind.
    eapply at_bump; [exact Ha|done|]. intros l1 Ha1 Hr1. apply wp_bind, wp_gets.
    rewrite (at_char _ _ _ _ _ _ _ Ha1). rewrite !(proj2 (N.eqb_neq c _)) by done. simpl. apply wp_bind.
    eapply at_bump; [exact Ha1|done|]. intros l2 Ha2 Hr2. rewrite <-app_assoc in Ha2.
    apply wp_ret. apply (Hgo [BACKSLASH; c] t); [done|done|done|lia].
Qed.

Lemma lex_string_body l0 st pre buf q body after l :
  is_quote q -> quotable q body -> at_ l0 st pre buf (body ++ q :: after) l ->
  wp (lex_string q) (fun k l' => k = TkString /\ at_ l0 Normal pre (buf ++ body ++ [q]) after l') l.
Proof.
  intros Hq Hb Ha. destruct (quote_chars q Hq) as (Hq1 & _). unfold lex_string. apply wp_bind.
  apply wp_mono with (P := fun _ l' => at_ l0 st pre (buf ++ body) (q :: after) l').
  - apply (wp_loop_from (fun _ l' => exists d todo, body = d ++ todo /\ quotable q todo
                            /\ at_ l0 st pre (buf ++ d) (todo ++ q :: after) l')
             (fun _ l' => remaining (reader l'))).
    + intros [] l1 (d & todo & -> & Ht & H1).
      eapply lex_string_turn; [done|exact Ht|exact H1| |].
      * intros ->. by rewrite app_nil_r.
      * intros d' todo' l2 -> Ht' H2 Hr. split; [|done]. exists (d ++ d'), todo'.
        rewrite <-!app_assoc in *. done.
    + exists [], body. by rewrite app_nil_r.
    + unfold steps_left. pose proof (remaining_steps (reader l)). lia.
  - intros [] l1 H1. apply wp_bind, wp_gets. rewrite (at_char _ _ _ _ _ _ _ H1), N.eqb_refl. simpl.
    apply wp_bind, wp_modify. apply at_set_state with (st' := Normal) in H1. apply wp_bind, wp_gets.
    rewrite (at_char _ _ _ _ _ _ _ H1), N.eqb_refl. simpl. apply wp_bind.
    eapply at_bump; [exact H1|done|]. intros l2 H2 _. apply wp_ret. by rewrite <-app_assoc in H2.
Qed.

Lemma lex_at l pre buf rest :
  cursor (reader l) pre buf rest -> state l = Normal ->
  at_ l Normal (pre ++ buf) [] rest (set_reader (Reader.reset_buff (reader l)) l).
Proof. intros Hc Hs. split; try done. by apply cursor_reset_buff. Qed.

(** [lex], where a complete quoted string starts. *)
Lemma lex_quoted l pre buf q body after :
  is_quote q -> quotable q body -> cursor (reader l) pre buf ([q] ++ body ++ [q] ++ after) -> state l = Normal ->
  wp lex (fun k l' => k = TkString /\ at_ l Normal (pre ++ buf) ([q] ++ body ++ [q]) after l') l.
Proof.
  intros Hq Hb Hc Hs. pose proof (lex_at _ _ _ _ Hc Hs) as Ha. destruct (quote_chars q Hq) as (Hq1 & _).
  unfold lex. apply wp_bind, wp_modify. set (l1 := set_reader _ l) in *. simpl in Ha.
  apply wp_bind, wp_gets, wp_bind, wp_gets. rewrite (at_char _ _ _ _ _ _ _ Ha).
  assert (Hlq : wp lex_quote (fun k l' => k = TkString /\ at_ l Normal (pre ++ buf) ([q] ++ body ++ [q]) after l') l1).
  { unfold lex_quote. apply wp_bind, wp_gets, wp_bind, wp_gets. rewrite (at_char _ _ _ _ _ _ _ Ha).
    replace (q =c "`") with false by (by destruct Hq as [->| ->]). cbn [andb]. apply wp_bind.
    eapply at_bump; [exact Ha|done|]. intros l2 H2 _. apply wp_bind, wp_modify.
    apply at_set_state with (st' := StString q) in H2. by apply (lex_string_body l (StString q) (pre ++ buf) [q]). }
  destruct Hq as [->| ->]; exact Hlq.
Qed.

(** *** Long strings *)

Notation RB := (N_of_ascii "]"%char).
Notation EQ := (N_of_ascii "="%char).

Lemma scan_equals t x : scan (N.eqb EQ) (t ++ RB :: x) = scan (N.eqb EQ) t.
Proof. induction t as [|c t IH]; [done|]. cbn [app scan]. by rewrite IH. Qed.

Lemma scan_equals_signs n : scan (N.eqb EQ) (equals_signs n) = equals_signs n.
Proof. induction n as [|n IH]; [done|]. unfold equals_signs in *. cbn [repeat scan]. by rewrite IH. Qed.

Lemma equals_of_scan t : scan (N.eqb EQ) t = equals_signs (length (scan (N.eqb EQ) t)).
Proof.
  induction t as [|c t IH]; [done|]. cbn [scan]. destruct (negb (N.eqb c EOF) && N.eqb EQ c) eqn:Hc; [|reflexivity].
  apply andb_true_iff in Hc as [_ <-%N.eqb_eq]. unfold equals_signs in *. simpl. by f_equal.
Qed.

(** A turn goes over a character, or over a bracket and the signs after it; it
    leaves at the first closing bracket. *)
Lemma lex_long_turn l0 st pre buf n todo after l (Q : unit + bool -> t -> Prop) :
  let close := str "]" ++ equals_signs n ++ str "]" in
  first_close n todo -> no_nul todo -> at_ l0 st pre buf (todo ++ close ++ after) l ->
  (forall l', todo = [] -> at_ l0 st pre (buf ++ close) after l' -> Q (inr true) l') ->
  (forall d todo' l', todo = d ++ todo' -> first_close n todo' ->
     at_ l0 st pre (buf ++ d) (todo' ++ close ++ after) l' -> remaining (reader l') < remaining (reader l) ->
     Q (inl tt) l') ->
  wp (lex_long_string_step n tt) Q l.
Proof.
  intros close Hf Hn Ha Hend Hgo. unfold lex_long_string_step. apply wp_bind, wp_gets.
  destruct todo as [|c t].
  - simpl in Ha. rewrite (at_eof _ _ _ _ _ _ _ Ha) by done. apply wp_bind, wp_gets.
    rewrite (at_char _ _ _ _ _ _ _ Ha), N.eqb_refl. apply wp_bind.
    eapply at_bump; [exact Ha|done|]. intros l1 H1 _. apply wp_bind.
    rewrite <-app_assoc in H1. simpl in H1.
    eapply at_eat_when; [exact H1|]. rewrite scan_equals, scan_equals_signs. intros l2 rest' Hr H2 _.
    apply app_inv_head in Hr as <-. unfold equals_signs at 1. rewrite repeat_length, Nat.eqb_refl.
    apply wp_bind, wp_gets. rewrite (at_char _ _ _ _ _ _ _ H2), N.eqb_refl. simpl. apply wp_bind.
    eapply at_bump; [exact H2|done|]. intros l3 H3 _. apply wp_ret, Hend; [done|].
    unfold close. by rewrite <-!app_assoc in H3.
  - apply Forall_cons in Hn as [Hc Hn]. rewrite <-app_comm_cons in Ha. rewrite (at_eof _ _ _ _ _ _ _ Ha Hc).
    apply wp_bind, wp_gets. rewrite (at_char _ _ _ _ _ _ _ Ha). destruct (N.eqb_spec c RB) as [->|Hne].
    + apply wp_bind. eapply at_bump; [exact Ha|done|]. intros l1 H1 Hr1. apply wp_bind.
      eapply at_eat_when; [exact H1|].
      assert (Hsc : scan (N.eqb EQ) (t ++ close ++ after) = scan (N.eqb EQ) t) by apply scan_equals. rewrite Hsc.
      intros l2 rest' Hr H2 Hr2. destruct (scan_prefix (N.eqb EQ) t) as [t' Ht'].
      set (e := scan (N.eqb EQ) t) in *.
      assert (rest' = t' ++ close ++ after) as ->.
      { rewrite Ht' in Hr. rewrite <-app_assoc in Hr. by apply app_inv_head in Hr. }
      rewrite <-app_assoc in H2. apply wp_bind, wp_gets.
      assert (Hloop : Q (inl tt) l2).
      { apply (Hgo (RB :: e) t'); [by rewrite Ht'| |done|lia].
        apply (first_close_suffix n (RB :: e)). rewrite Ht' in Hf. exact Hf. }
      destruct ((length e =? n)%nat && (current_char l2 =c "]")) eqn:Hcl; [|by apply wp_ret].
      exfalso. apply andb_true_iff in Hcl as [Hlen%Nat.eqb_eq Hcur%N.eqb_eq].
      assert (He : e = equals_signs n) by (rewrite <-Hlen; apply equals_of_scan).
      unfold first_close in Hf. rewrite Ht', He in Hf. destruct t' as [|c t'].
      * specialize (Hf [] (equals_signs n ++ str "]")). rewrite app_nil_r in Hf.
        destruct (app_cons_not_nil (equals_signs n) [] RB). symmetry. apply Hf. cbn [app str].
        by rewrite <-!app_assoc.
      * simpl in H2. rewrite (at_char _ _ _ _ _ _ _ H2) in Hcur. subst c.
        specialize (Hf [] (t' ++ close)). destruct (app_cons_not_nil t' (equals_signs n ++ str "]") RB).
        symmetry. apply Hf. cbn [app str]. by rewrite <-!app_assoc.
    + apply wp_bind. eapply at_bump; [exact Ha|done|]. intros l1 H1 Hr1. apply wp_ret.
      apply (Hgo [c] t); [done| |done|done]. by apply (first_close_suffix n [c]).
Qed.

Lemma lex_long_body l0 st pre buf n body after l :
  let close := str "]" ++ equals_signs n ++ str "]" in
  first_close n body -> no_nul body -> at_ l0 st pre buf (body ++ close ++ after) l ->
  wp (lex_long_string n) (fun k l' => k = TkLongString /\ at_ l0 Normal pre (buf ++ body ++ close) after l') l.
Proof.
  intros close Hf Hn Ha. unfold lex_long_string. apply wp_bind.
  apply wp_mono with (P := fun b l' => b = true /\ at_ l0 st pre (buf ++ body ++ close) after l').
  - apply (wp_loop_from (fun _ l' => exists d todo, body = d ++ todo /\ first_close n todo
                            /\ at_ l0 st pre (buf ++ d) (todo ++ close ++ after) l')
             (fun _ l' => remaining (reader l'))).
    + intros [] l1 (d & todo & Hb & Ht & H1). rewrite Hb in Hn. apply Forall_app in Hn as [_ Hn'].
      eapply lex_long_turn; [exact Ht|done|exact H1| |].
      * intros l2 -> H2. rewrite app_nil_r in Hb. subst d. by rewrite <-app_assoc in H2.
      * intros d' todo' l2 -> Ht' H2 Hr. split; [|done]. exists (d ++ d'), todo'.
        rewrite Hb, <-!app_assoc in *. split_and!; [done|done|]. unfold close. by rewrite <-!app_assoc.
    + exists [], body. by rewrite app_nil_r.
    + unfold steps_left. pose proof (remaining_steps (reader l)). lia.
  - intros b l1 [-> H1]. apply wp_bind, wp_gets. cbn [orb]. apply wp_bind, wp_modify.
    apply at_set_state with (st' := Normal) in H1. apply wp_bind, wp_ret. by apply wp_ret.
Qed.

(** [lex], where a complete long string starts. *)
Lemma lex_bracketed l pre buf n body after :
  first_close n body -> no_nul body -> cursor (reader l) pre buf (long_bracket n body ++ after) -> state l = Normal ->
  wp lex (fun k l' => k = TkLongString /\ at_ l Normal (pre ++ buf) (long_bracket n body) after l') l.
Proof.
  intros Hf Hn Hc Hs. pose proof (lex_at _ _ _ _ Hc Hs) as Ha.
  unfold lex. apply wp_bind, wp_modify. set (l1 := set_reader _ l) in *.
  apply wp_bind, wp_gets, wp_bind, wp_gets. unfold long_bracket in Ha. rewrite <-!app_assoc in Ha.
  rewrite (at_char _ _ _ _ _ _ _ Ha). cbn -[lex_left_bracket]. unfold lex_left_bracket. apply wp_bind.
  eapply at_bump; [exact Ha|done|]. intros l2 H2 _. apply wp_bind. unfold skip_sep.
  eapply at_eat_when; [exact H2|]. intros l3 rest' Hr H3 _.
  assert (Hscan : forall x, scan (N.eqb EQ) (equals_signs n ++ str "[" ++ x) = equals_signs n).
  { intros x. clear. induction n as [|n IH]; [done|]. unfold equals_signs in *. cbn [repeat app scan].
    by rewrite IH. }
  rewrite Hscan in *. apply app_inv_head in Hr as <-. apply wp_bind, wp_gets.
  rewrite (at_char _ _ _ _ _ _ _ H3), N.eqb_refl, andb_false_r. cbn [negb]. apply wp_bind.
  eapply at_bump; [exact H3|done|]. intros l4 H4 _. apply wp_bind, wp_modify.
  unfold equals_signs at 1. unfold equals_signs at 1. rewrite repeat_length.
  apply at_set_state with (st' := LongString n) in H4.
  eapply wp_mono; [eapply (lex_long_body l (LongString n)); [exact Hf|exact Hn|]|].
  - rewrite <-!app_assoc. exact H4.
  - intros k l5 [-> H5]. split; [done|]. by rewrite <-!app_assoc in H5.
Qed.
End Lexing.

(** ** The new path is read back *)

(** The delimiter [d2] is not in the path and yet comes early: the path and the
    first character of a closing bracket end in a closing bracket. *)
Definition closes_early (d2 path : rstring) : Prop :=
  contains path d2 = false /\ exists front, path ++ str "]" = front ++ d2.

Section Edited.
Context `{UnicodeTables}.

(** What the edit of the literal [old] makes of it, and of the file. *)
Record edited (k : LuaTokenKind) (before old after path : rstring) (k' : LuaTokenKind) (literal : rstring)
    : Prop := mkEdited {
  edit_source : exists contents range new_text,
    string_contents_range (mkSyntaxToken k old (N.of_nat (blen before))) = Some contents
    /\ written_for_literal (mkSyntaxToken k old (N.of_nat (blen before))) contents path = Some (range, new_text)
    /\ applied (before ++ old ++ after) range new_text = Some (before ++ literal ++ after);
  edit_lexed : forall l pre buf,
    pre ++ buf = before -> cursor (reader l) pre buf (literal ++ after) -> state l = Normal ->
    exists l', lex l = Done (k', l') /\ cursor (reader l') before literal after
      /\ state l' = Normal /\ errors l' = errors l;
  edit_value : forall start, string_token_value (mkSyntaxToken k' literal start) = Done (Ok path)
}.

Lemma lexed_whole l before literal after k :
  wp lex (fun k' l' => k' = k /\ at_ l Normal before literal after l') l ->
  exists l', lex l = Done (k, l') /\ cursor (reader l') before literal after
    /\ state l' = Normal /\ errors l' = errors l.
Proof.
  unfold wp. destruct (lex l) as [[k' l']| |]; [|done|done]. intros [-> [Hc _ He Hs]]. by exists l'.
Qed.

Lemma edited_inside k d1 body d2 before after path new_text k' :
  delimiters k d1 d2 ->
  (forall contents, written_for_literal (mkSyntaxToken k (d1 ++ body ++ d2) (N.of_nat (blen before))) contents path
     = Some (contents, new_text)) ->
  (forall l pre buf, pre ++ buf = before -> cursor (reader l) pre buf ((d1 ++ new_text ++ d2) ++ after) ->
     state l = Normal ->
     wp lex (fun k l' => k = k' /\ at_ l Normal before (d1 ++ new_text ++ d2) after l') l) ->
  (forall start, string_token_value (mkSyntaxToken k' (d1 ++ new_text ++ d2) start) = Done (Ok path)) ->
  edited k before (d1 ++ body ++ d2) after path k' (d1 ++ new_text ++ d2).
Proof.
  intros Hd Hw Hl Hv. split; [|intros; by eapply lexed_whole, Hl|exact Hv].
  eexists _, _, _. split_and!; [by apply literal_contents|apply Hw|].
  pose proof (applied_between (before ++ d1) body (d2 ++ after) new_text) as Ha.
  rewrite <-!app_assoc, !blen_app, !Nat2N.inj_add in *. by rewrite <-!N.add_assoc, <-?Nat2N.inj_add, ?Nat.add_assoc in *.
Qed.

Lemma quoted_lexes q path before after l pre buf :
  is_quote q -> pre ++ buf = before -> cursor (reader l) pre buf (quoted q path ++ after) -> state l = Normal ->
  wp lex (fun k l' => k = TkString /\ at_ l Normal before (quoted q path) after l') l.
Proof.
  intros Hq <- Hc Hs. apply lex_quoted; [done|by apply quoted_contents_quotable| |done].
  unfold quoted in Hc. by rewrite <-!app_assoc in Hc.
Qed.

(** The whole literal is replaced by a quoted one. *)
Lemma edited_whole k before old after path :
  (forall contents, written_for_literal (mkSyntaxToken k old (N.of_nat (blen before))) contents path
     = Some (text_range (mkSyntaxToken k old (N.of_nat (blen before))), quoted DQUOTE path)) ->
  is_Some (string_contents_range (mkSyntaxToken k old (N.of_nat (blen before)))) ->
  edited k before old after path TkString (quoted DQUOTE path).
Proof.
  intros Hw [contents Hc]. split.
  - eexists _, _, _. split_and!; [exact Hc|apply Hw|]. unfold text_range. cbn [token_text token_start].
    rewrite <-Nat2N.inj_add. apply applied_between.
  - intros l pre buf Hb Hcur Hs. eapply lexed_whole, quoted_lexes; try done. by left.
  - intros start. apply quoted_value. by left.
Qed.
End Edited.

(** C39: the edit that rewrites the load path of a string literal, made in the
    source of the file and lexed anew, reads back as the new path: whatever is
    around the literal and whatever its old contents are, the lexer that reaches
    the place where the literal was takes exactly the new literal as one string
    token, without an error, and the value of that token is the path.  A long
    literal that keeps its brackets must not get a NUL, where the lexer stops, nor
    a path that ends in the start of its closing bracket. *)
Theorem rewritten_path_reads_back `{UnicodeTables} k d1 body d2 before after path :
  delimiters k d1 d2 ->
  (k = TkLongString -> no_nul path) -> ~ closes_early d2 path ->
  exists k' literal, edited k before (d1 ++ body ++ d2) after path k' literal.
Proof.
  intros Hd Hnul Hearly. pose proof Hd as Hd'. destruct Hd' as [q Hq|n].
  - exists TkString, ([q] ++ quoted_contents path q ++ [q]). apply edited_inside; [done| | |].
    + intros contents. by apply written_quoted.
    + intros. by apply quoted_lexes with (pre := pre) (buf := buf).
    + intros. by apply quoted_value.
  - destruct (written_long n body (N.of_nat (blen before)) path) as [(Hw & Hb & Hc)|Hw].
    + exists TkLongString, ((str "[" ++ equals_signs n ++ str "[") ++ path ++ str "]" ++ equals_signs n ++ str "]").
      assert (Hf : first_close n path).
      { apply first_close_path; [done|]. intros front Hfront. apply Hearly. split; [done|by exists front]. }
      apply edited_inside; [done| | |].
      * intros contents. rewrite <-long_bracket_split. apply Hw.
      * intros l pre buf <- Hcur Hs. rewrite <-long_bracket_split in *. by apply lex_bracketed; [|apply Hnul| |].
      * intros start. rewrite <-long_bracket_split, long_bracket_value. by rewrite Hb.
    + exists TkString, (quoted DQUOTE path). apply edited_whole; [|by rewrite literal_contents].
      intros contents. rewrite <-long_bracket_split. apply Hw.
Qed.

(** A path with a closing bracket in it moves into quotes. *)
Lemma rewritten_path_reads_back_witness :
  exists k' literal,
    @edited ascii_tables TkLongString (str "f") (str "[[" ++ str "a.lua" ++ str "]]") (str ";") (str "b]].lua") k' literal.
Proof.
  refine (@rewritten_path_reads_back ascii_tables TkLongString (str "[[") (str "a.lua") (str "]]") (str "f")
            (str ";") (str "b]].lua") (brackets 0) _ _).
  - intros _. repeat constructor; discriminate.
  - intros [Hc _]. vm_compute in Hc. discriminate.
Defined.

(** The text of the first token, what is left, and the value. *)
Definition first_token (source : rstring) : option (LuaTokenKind * rstring * outcome (Result rstring LuaParseError)) :=
  r ← Reader.new source;
  match @lex ascii_tables (new r (mkLexerConfig Lua51 LuaNonStdSymbolSet.new) None) with
  | Done (k, l) =>
      text ← Reader.current_text (reader l);
      Some (k, text, string_token_value (mkSyntaxToken k text 0))
  | _ => None
  end.

(** A path that ends in the start of the closing bracket is left between the
    brackets, which end too early. *)
Example early_close_cuts_path :
  let old := mkSyntaxToken TkLongString (str "[[a.lua]]") 0 in
  written_for_literal old (mkTextRange 2 7) (str "a]") = Some (mkTextRange 2 7, str "a]")
  /\ applied (token_text old) (mkTextRange 2 7) (str "a]") = Some (str "[[a]]]")
  /\ first_token (str "[[a]]]") = Some (TkLongString, str "[[a]]", Done (Ok (str "a"))).
Proof. split_and!; vm_compute; reflexivity. Qed.
