(* ===== verification/LineIndexProofs.v ===== *)
(** * Correctness of the line index

    The offsets that [parse] collects are those of the line starts; from this every
    conversion is computed on a text that is cut at the position in question. *)

From S2P Require Import Prelude Kinds Text LineIndex.
From stdpp Require Import list.
Import LineIndex.
Local Open Scope prog_scope.

#[local] Arguments blen : simpl never.

(** ** What [parse] collects *)

Fixpoint starts (i : nat) (text : rstring) : list N :=
  match text with
  | [] => []
  | c :: text => (if N.eqb c NL then [as_u32 (i + 1)] else []) ++ starts (i + len_utf8 c) text
  end.

Fixpoint ascii_lines (b : bool) (text : rstring) : list bool :=
  match text with
  | [] => [b]
  | c :: text => if N.eqb c NL then b :: ascii_lines true text
                 else ascii_lines (if negb (is_ascii c) then false else b) text
  end.

Lemma parse_loop_eq i b text offsets vec :
  parse_loop i b text offsets vec = mkLineIndex (offsets ++ starts i text) (vec ++ ascii_lines b text).
Proof.
  revert i b offsets vec. induction text as [|c t IH]; intros i b offsets vec; simpl;
    [by rewrite app_nil_r|].
  case_if; rewrite IH; simpl; by rewrite <-?app_assoc.
Qed.

Lemma parse_eq text : parse text = mkLineIndex (0%N :: starts 0 text) (ascii_lines true text).
Proof. unfold parse. by rewrite parse_loop_eq. Qed.

(** The assertion at the end of [parse]. *)
Lemma parse_lengths text :
  length (line_offsets (parse text)) = length (line_only_ascii_vec (parse text)).
Proof.
  rewrite parse_eq. simpl. generalize 0 at 1. generalize true.
  induction text as [|c t IH]; intros b i; [done|]. simpl. case_if; simpl; by rewrite <-(IH _ (i + len_utf8 c)).
Qed.

(** ** Lines of a text *)

Definition count_nl (t : rstring) : nat := sum_list_with (fun c => if N.eqb c NL then 1 else 0) t.
Definition no_nl (t : rstring) : Prop := Forall (fun c => c <> NL) t.

(** [line_at text a l b]: [l] is a line of the text, without its line feed. *)
Record line_at (text a l b : rstring) : Prop := mkLineAt {
  la_text : text = a ++ l ++ b;
  la_start : a = [] \/ exists a', a = a' ++ [NL];
  la_line : no_nl l;
  la_end : b = [] \/ exists b', b = NL :: b'
}.

Lemma count_nl_app t u : count_nl (t ++ u) = count_nl t + count_nl u.
Proof. apply sum_list_with_app. Qed.

Lemma count_nl_none t : no_nl t -> count_nl t = 0.
Proof.
  induction 1 as [|c t Hc Ht IH]; [done|]. unfold count_nl in *. simpl.
  by rewrite (proj2 (N.eqb_neq _ _)).
Qed.

Lemma line_start_split pre :
  exists a l, pre = a ++ l /\ (a = [] \/ exists a', a = a' ++ [NL]) /\ no_nl l.
Proof.
  induction pre as [|c pre IH] using rev_ind; [exists [], []; by split_and!; [|left|constructor]|].
  destruct IH as (a & l & -> & Ha & Hl). destruct (decide (c = NL)) as [->|Hc].
  - exists ((a ++ l) ++ [NL]), []. rewrite app_nil_r. split_and!; [done|by right; eexists|constructor].
  - exists a, (l ++ [c]). rewrite <-app_assoc. split_and!; [done|done|].
    apply Forall_app. split; [done|by repeat constructor].
Qed.

Lemma line_end_split post :
  exists l b, post = l ++ b /\ no_nl l /\ (b = [] \/ exists b', b = NL :: b').
Proof.
  induction post as [|c post IH]; [exists [], []; by split_and!; [|constructor|left]|].
  destruct IH as (l & b & -> & Hl & Hb). destruct (decide (c = NL)) as [->|Hc].
  - exists [], (NL :: l ++ b). split_and!; [done|constructor|by right; eexists].
  - exists (c :: l), b. split_and!; [done|by constructor|done].
Qed.

(** Every place of a text is in a line. *)
Lemma line_around pre post :
  exists a l1 l2 b, pre = a ++ l1 /\ post = l2 ++ b /\ line_at (pre ++ post) a (l1 ++ l2) b.
Proof.
  destruct (line_start_split pre) as (a & l1 & -> & Ha & H1).
  destruct (line_end_split post) as (l2 & b & -> & H2 & Hb).
  exists a, l1, l2, b. split_and!; [done|done|]. split; [by rewrite <-!app_assoc|done| |done].
  by apply Forall_app.
Qed.

(** Every line number below the number of lines is that of a line. *)
Lemma line_numbered text k :
  k <= count_nl text -> exists a l b, line_at text a l b /\ count_nl a = k.
Proof.
  intros Hk.
  assert (exists a rest, text = a ++ rest /\ (a = [] \/ exists a', a = a' ++ [NL]) /\ count_nl a = k)
    as (a & rest & -> & Ha & Hc).
  { induction k as [|k IH]; [by exists [], text; split_and!; [|left|]|].
    destruct IH as (a & rest & -> & Ha & Hc); [lia|].
    destruct (line_end_split rest) as (l & b & -> & Hl & Hb).
    rewrite !count_nl_app, (count_nl_none l Hl), Hc in Hk.
    destruct Hb as [->|[b' ->]]; [unfold count_nl in Hk; simpl in Hk; lia|].
    exists ((a ++ l) ++ [NL]), b'. split_and!; [by rewrite <-!app_assoc|by right; eexists|].
    rewrite !count_nl_app, (count_nl_none l Hl), Hc. unfold count_nl. simpl. lia. }
  destruct (line_end_split rest) as (l & b & -> & Hl & Hb). by exists a, l, b.
Qed.

(** ** Offsets *)

Lemma starts_app i t u : starts i (t ++ u) = starts i t ++ starts (i + blen t) u.
Proof.
  revert i. induction t as [|c t IH]; intros i; simpl;
    [f_equal; unfold blen; simpl; lia|].
  rewrite IH, blen_cons, <-app_assoc. by replace (i + (len_utf8 c + blen t)) with (i + len_utf8 c + blen t) by lia.
Qed.

Lemma starts_no_nl i t : no_nl t -> starts i t = [].
Proof.
  intros Ht. revert i. induction Ht as [|c t Hc Ht IH]; intros i; [done|]. simpl.
  rewrite (proj2 (N.eqb_neq _ _)) by done. apply IH.
Qed.

Lemma starts_length i t : length (starts i t) = count_nl t.
Proof.
  revert i. induction t as [|c t IH]; intros i; [done|]. simpl. rewrite length_app, IH.
  unfold count_nl. simpl. by destruct (N.eqb_spec c NL).
Qed.

Lemma as_u32_small n : (N.of_nat n < 2 ^ 32)%N -> as_u32 n = N.of_nat n.
Proof. intros Hn. unfold as_u32. by apply N.mod_small. Qed.

Lemma starts_bounds i t :
  (N.of_nat (i + blen t) < 2 ^ 32)%N ->
  Forall (fun o => N.of_nat i < o <= N.of_nat (i + blen t))%N (starts i t).
Proof.
  revert i. induction t as [|c t IH]; intros i Hi; simpl; [constructor|].
  rewrite blen_cons in *. pose proof (len_utf8_pos c). apply Forall_app. split.
  - destruct (N.eqb c NL); [|constructor]. repeat constructor; rewrite as_u32_small; lia.
  - eapply Forall_impl; [apply IH; lia|]. simpl. intros o Ho. lia.
Qed.

Lemma NL_width : blen [NL] = 1.
Proof. done. Qed.

(** The offsets around a line. *)
Lemma offsets_at text a l b :
  line_at text a l b -> (N.of_nat (blen text) < 2 ^ 32)%N ->
  exists before after,
    line_offsets (parse text) = before ++ N.of_nat (blen a) :: after
    /\ length before = count_nl a
    /\ Forall (fun o => o < N.of_nat (blen a))%N before
    /\ Forall (fun o => N.of_nat (blen (a ++ l)) < o)%N after
    /\ head after = match b with [] => None | _ => Some (N.of_nat (blen (a ++ l) + 1)) end.
Proof.
  intros [-> Ha Hl Hb] Hlen. rewrite !blen_app in Hlen. rewrite parse_eq. cbn [line_offsets].
  exists (match a with [] => [] | _ => 0%N :: starts 0 (take (length a - 1) a) end),
    (starts (blen (a ++ l)) b).
  assert (0%N :: starts 0 (a ++ l ++ b)
    = (match a with [] => [] | _ => 0%N :: starts 0 (take (length a - 1) a) end)
      ++ N.of_nat (blen a) :: starts (blen (a ++ l)) b /\
    length (match a with [] => [] | _ => 0%N :: starts 0 (take (length a - 1) a) end) = count_nl a /\
    Forall (fun o => o < N.of_nat (blen a))%N
      (match a with [] => [] | _ => 0%N :: starts 0 (take (length a - 1) a) end)) as (H1 & H2 & H3).
  { rewrite !starts_app, (starts_no_nl _ l Hl), app_nil_l, blen_app. simpl.
    destruct Ha as [->|[a' ->]]; [done|].
    replace (take (length (a' ++ [NL]) - 1) (a' ++ [NL])) with a'
      by (rewrite length_app; simpl; by rewrite Nat.add_sub, take_app_length).
    destruct (a' ++ [NL]) eqn:E; [by destruct a'|]. rewrite <-E, blen_app, NL_width in *.
    assert (starts 0 (a' ++ [NL]) = starts 0 a' ++ [N.of_nat (blen a' + 1)]) as ->
      by (rewrite starts_app; simpl; rewrite as_u32_small; [done|lia]).
    split_and!.
    - by rewrite <-!app_assoc.
    - simpl. rewrite starts_length, count_nl_app. unfold count_nl. simpl. lia.
    - constructor; [lia|]. eapply Forall_impl; [apply starts_bounds; lia|]. simpl. lia. }
  split_and!; [exact H1|exact H2|exact H3| |].
  - eapply Forall_impl; [apply starts_bounds; rewrite blen_app; lia|]. simpl. lia.
  - destruct Hb as [->|[b' ->]]; [done|]. simpl. rewrite as_u32_small; [done|].
    rewrite blen_app, blen_cons in *. change (len_utf8 NL) with 1 in *. lia.
Qed.

Lemma ascii_lines_app b t u :
  ascii_lines b (t ++ NL :: u) = ascii_lines b t ++ ascii_lines true u.
Proof.
  revert b. induction t as [|c t IH]; intros b; simpl; [done|].
  case_if; [|apply IH]. by rewrite IH.
Qed.

Lemma ascii_lines_length b t : length (ascii_lines b t) = S (count_nl t).
Proof.
  revert b. unfold count_nl. induction t as [|c t IH]; intros b; simpl; [done|].
  case_if; simpl; by rewrite IH.
Qed.

Lemma ascii_lines_first b l rest :
  no_nl l -> rest = [] \/ (exists b', rest = NL :: b') ->
  ascii_lines b (l ++ rest) !! 0 = Some (b && forallb is_ascii l).
Proof.
  intros Hl Hr. revert b. induction Hl as [|c l Hc Hl IH]; intros b; simpl.
  - rewrite andb_true_r. by destruct Hr as [->|[b' ->]].
  - rewrite (proj2 (N.eqb_neq _ _)) by done. rewrite IH. destruct (is_ascii c), b; done.
Qed.

(** The flag of a line. *)
Lemma ascii_at text a l b :
  line_at text a l b -> is_line_only_ascii (parse text) (count_nl a) = forallb is_ascii l.
Proof.
  intros [-> Ha Hl Hb]. unfold is_line_only_ascii. rewrite parse_eq. cbn [line_only_ascii_vec].
  assert (ascii_lines true (a ++ l ++ b) !! count_nl a = Some (forallb is_ascii l)) as ->; [|done].
  destruct Ha as [->|[a' ->]]; [exact (ascii_lines_first true l b Hl Hb)|].
  rewrite <-app_assoc. simpl. rewrite ascii_lines_app, lookup_app_r;
    rewrite ascii_lines_length, count_nl_app; change (count_nl [NL]) with 1; [|lia].
  replace (count_nl a' + 1 - S (count_nl a')) with 0 by lia.
  exact (ascii_lines_first true l b Hl Hb).
Qed.

(** ** Lookup *)

Lemma filter_below (l : list N) x : Forall (fun o => o < x)%N l -> filter (fun y => (y < x)%N) l = l.
Proof. induction 1 as [|o l Ho Hl IH]; [done|]. by rewrite filter_cons_True, IH. Qed.

Lemma filter_above (l : list N) x : Forall (fun o => x <= o)%N l -> filter (fun y => (y < x)%N) l = [].
Proof. induction 1 as [|o l Ho Hl IH]; [done|]. rewrite filter_cons_False by lia. done. Qed.

Lemma binary_search_split before x y after :
  Forall (fun o => o < y)%N before -> Forall (fun o => x < o)%N after -> (y <= x)%N ->
  binary_search (before ++ y :: after) x
  = if (y =? x)%N then inl (length before) else inr (S (length before)).
Proof.
  intros Hb Ha Hy. unfold binary_search.
  rewrite filter_app, filter_below by (eapply Forall_impl; [exact Hb|simpl; lia]).
  destruct (N.eqb_spec y x) as [->|Hne].
  - rewrite filter_cons_False, filter_above by first [lia|eapply Forall_impl; [exact Ha|simpl; lia]].
    rewrite app_nil_r, list_lookup_middle by done. by rewrite bool_decide_true.
  - rewrite filter_cons_True, filter_above by first [lia|eapply Forall_impl; [exact Ha|simpl; lia]].
    rewrite length_app. simpl. rewrite bool_decide_false; [f_equal; lia|].
    rewrite lookup_app_r by lia. replace (length before + 1 - length before) with 1 by lia.
    simpl. destruct after as [|o after]; [done|]. apply Forall_cons in Ha as [Ho _].
    intros [= ->]. lia.
Qed.

(** The part of a line that a column may point into. *)
Definition content (l b : rstring) : rstring := match b with [] => l | _ => strip_cr l end.

Lemma strip_cr_prefix t : exists cr, t = strip_cr t ++ cr.
Proof.
  unfold strip_cr. destruct (rev t) as [|c front] eqn:Hr; [exists []; by rewrite app_nil_r|].
  case_if; [|exists []; by rewrite app_nil_r].
  exists [c]. rewrite <-(rev_involutive t), Hr. done.
Qed.

Lemma content_prefix l b : exists cr, l = content l b ++ cr.
Proof. unfold content. destruct b; [exists []; by rewrite app_nil_r|apply strip_cr_prefix]. Qed.

Section AtLine.
Context (text a l b : rstring) (L : line_at text a l b) (Hlen : (N.of_nat (blen text) < 2 ^ 32)%N).

Lemma at_blen : blen text = blen a + blen l + blen b.
Proof. rewrite (la_text _ _ _ _ L), !blen_app. lia. Qed.

Lemma line_offset_at : line_offsets (parse text) !! count_nl a = Some (N.of_nat (blen a)).
Proof.
  destruct (offsets_at text a l b L Hlen) as (before & after & -> & <- & _).
  by rewrite list_lookup_middle.
Qed.

Lemma next_offset_at :
  line_offsets (parse text) !! (count_nl a + 1)
  = match b with [] => None | _ => Some (N.of_nat (blen (a ++ l) + 1)) end.
Proof.
  destruct (offsets_at text a l b L Hlen) as (before & after & -> & <- & _ & _ & Hh).
  rewrite lookup_app_r by lia. replace (length before + 1 - length before) with 1 by lia.
  rewrite <-Hh. by destruct after.
Qed.

Lemma get_line_at l1 l2 :
  l = l1 ++ l2 -> get_line (parse text) (N.of_nat (blen (a ++ l1))) = Some (count_nl a).
Proof.
  intros Hl. destruct (offsets_at text a l b L Hlen) as (before & after & Ho & Hk & Hb & Ha & _).
  unfold get_line. rewrite Ho, binary_search_split.
  - destruct (N.of_nat (blen a) =? N.of_nat (blen (a ++ l1)))%N; [by rewrite Hk|]. simpl.
    f_equal. lia.
  - exact Hb.
  - eapply Forall_impl; [exact Ha|]. simpl. rewrite Hl, !blen_app. lia.
  - rewrite blen_app. lia.
Qed.

Lemma utf16_ascii t : forallb is_ascii t = true -> utf16_len t = blen t.
Proof.
  unfold utf16_len, blen. induction t as [|c t IH]; [done|]. simpl. rewrite andb_true_iff.
  intros [Hc Ht]. rewrite (IH Ht). f_equal. unfold is_ascii in Hc. apply N.ltb_lt in Hc.
  unfold len_utf16, len_utf8. rewrite !(proj2 (N.ltb_lt _ _)) by lia. done.
Qed.

Lemma get_line_col_at l1 l2 :
  l = l1 ++ l2 ->
  get_line_col (parse text) (N.of_nat (blen (a ++ l1))) text = Done (Some (count_nl a, utf16_len l1)).
Proof.
  intros Hl. unfold get_line_col, get_line_with_start_offset.
  rewrite (get_line_at l1 l2 Hl), line_offset_at. cbn [expect mbind outcome_bind].
  rewrite (ascii_at text a l b L). destruct (forallb is_ascii l) eqn:Hasc.
  - rewrite Hl, forallb_app in Hasc. apply andb_true_iff in Hasc as [H1 _].
    unfold text_size_sub. rewrite blen_app, (proj2 (N.leb_le _ _)) by lia.
    cbn [mbind outcome_bind]. rewrite (utf16_ascii _ H1). do 3 f_equal. lia.
  - rewrite !Nat2N.id, blen_app, (la_text _ _ _ _ L), Hl, <-!app_assoc, (str_slice_app a l1).
    done.
Qed.

Lemma line_content_range_at :
  line_content_range (parse text) (count_nl a) text = Done (Some (blen a, blen a + blen (content l b))).
Proof.
  unfold line_content_range. rewrite line_offset_at, next_offset_at, Nat2N.id. unfold content.
  pose proof at_blen as Hb. destruct (la_end _ _ _ _ L) as [->|[b' ->]].
  - unfold blen at 4 in Hb. simpl in Hb. do 3 f_equal. lia.
  - rewrite Nat2N.id, blen_app. replace (blen a + blen l + 1 - 1) with (blen a + blen l) by lia.
    rewrite (la_text _ _ _ _ L), str_slice_app. done.
Qed.
End AtLine.

(** ** Columns *)

(** The longest prefix of a line that is at most [col] columns wide. *)
Fixpoint take_columns (width : char -> nat) (col : nat) (t : rstring) : rstring :=
  match t with
  | [] => []
  | c :: t => if (width c <=? col)%nat then c :: take_columns width (col - width c) t else []
  end.

Lemma take_columns_prefix width col t : exists rest, t = take_columns width col t ++ rest.
Proof.
  revert col. induction t as [|c t IH]; intros col; simpl; [by exists []|].
  case_if; [|by eexists]. destruct (IH (col - width c)) as [rest Hr]. exists rest. simpl. by f_equal.
Qed.

(** It cannot be longer. *)
Lemma take_columns_fits width col t :
  exists rest, t = take_columns width col t ++ rest
    /\ sum_list_with width (take_columns width col t) <= col
    /\ match rest with
       | [] => True
       | c :: _ => col < sum_list_with width (take_columns width col t) + width c
       end.
Proof.
  revert col. induction t as [|c t IH]; intros col; simpl; [exists []; simpl; split_and!; [done|lia|done]|].
  destruct (Nat.leb_spec (width c) col) as [Hc|Hc]; [|exists (c :: t); simpl; split_and!; [done|lia|lia]].
  destruct (IH (col - width c)) as (rest & Hr & Hs & Hn). exists rest. simpl.
  split_and!; [by f_equal|lia|]. destruct rest; [done|lia].
Qed.

Lemma take_columns_exact width t rest :
  (forall c, 1 <= width c) -> take_columns width (sum_list_with width t) (t ++ rest) = t.
Proof.
  intros Hw. induction t as [|c t IH]; simpl.
  - destruct rest as [|c rest]; [done|]. simpl. specialize (Hw c).
    by rewrite (proj2 (Nat.leb_gt _ _)) by lia.
  - rewrite (proj2 (Nat.leb_le _ _)) by lia.
    by replace (width c + sum_list_with width t - width c) with (sum_list_with width t) by lia; rewrite IH.
Qed.

Lemma column_offset_spec width col units i t :
  units <= col ->
  default (i + blen t) (column_offset width col units i t)
  = i + blen (take_columns width (col - units) t).
Proof.
  revert units i. induction t as [|c t IH]; intros units i Hu; [done|].
  cbn [column_offset take_columns]. destruct (Nat.ltb_spec col (units + width c)) as [Hc|Hc].
  - rewrite (proj2 (Nat.leb_gt _ _)) by lia. simpl. change (blen []) with 0. lia.
  - rewrite (proj2 (Nat.leb_le _ _)) by lia. rewrite !blen_cons.
    replace (i + (len_utf8 c + blen t)) with (i + len_utf8 c + blen t) by lia.
    rewrite IH by lia. replace (col - units - width c) with (col - (units + width c)) by lia. lia.
Qed.

(** In a line of ASCII a column is a byte. *)
Lemma take_columns_ascii width col t :
  (forall c, is_ascii c = true -> width c = 1) -> forallb is_ascii t = true ->
  blen (take_columns width col t) = col `min` blen t.
Proof.
  intros Hw. revert col. induction t as [|c t IH]; intros col; [unfold blen; simpl; lia|].
  simpl. rewrite andb_true_iff. intros [Hc Ht]. rewrite (Hw c Hc).
  assert (len_utf8 c = 1) as Hl.
  { unfold is_ascii in Hc. unfold len_utf8. by rewrite Hc. }
  rewrite blen_cons, Hl. destruct col as [|col]; [done|]. simpl.
  rewrite blen_cons, Hl, Nat.sub_0_r, (IH col Ht). lia.
Qed.

Lemma offset_at_column_at text a l b width col :
  line_at text a l b -> (N.of_nat (blen text) < 2 ^ 32)%N ->
  (forall c, is_ascii c = true -> width c = 1) ->
  offset_at_column (parse text) (count_nl a) col text width
  = Done (N.of_nat (blen (a ++ take_columns width col (content l b)))).
Proof.
  intros L Hlen Hw. unfold offset_at_column.
  rewrite (line_content_range_at text a l b L Hlen). cbn [mbind outcome_bind].
  rewrite (ascii_at text a l b L). destruct (content_prefix l b) as [cr Hcr].
  set (t := content l b) in *. destruct (take_columns_prefix width col t) as [rest Hrest].
  assert (blen a + blen (take_columns width col t) <= blen text) as Hle.
  { pose proof (at_blen text a l b L) as H1.
    assert (blen l = blen t + blen cr) as H2 by (rewrite <-blen_app; by f_equal).
    assert (blen t = blen (take_columns width col t) + blen rest) as H3
      by (rewrite <-blen_app; by f_equal). lia. }
  rewrite blen_app. destruct (forallb is_ascii l) eqn:Hasc; cbn [mbind outcome_bind].
  - rewrite Hcr, forallb_app in Hasc. apply andb_true_iff in Hasc as [Ht _].
    replace (blen a + blen t - blen a) with (blen t) by lia.
    rewrite <-(take_columns_ascii width col t Hw Ht), as_u32_small by lia. done.
  - rewrite (la_text _ _ _ _ L), Hcr, <-app_assoc, str_slice_app. cbn [expect mbind outcome_bind].
    rewrite column_offset_spec, Nat.sub_0_r by lia. rewrite as_u32_small by lia. done.
Qed.

Lemma len_utf16_ascii c : is_ascii c = true -> len_utf16 c = 1.
Proof.
  unfold is_ascii, len_utf16. rewrite N.ltb_lt. intros Hc. by rewrite (proj2 (N.ltb_lt _ _)) by lia.
Qed.

Lemma len_utf16_pos c : 1 <= len_utf16 c.
Proof. unfold len_utf16. case_if; lia. Qed.

(** A place between the two characters of a line terminator. *)
Definition inside_terminator (pre post : rstring) : Prop :=
  (exists pre', pre = pre' ++ [CR]) /\ exists post', post = NL :: post'.

Lemma content_before l1 l2 b pre :
  (b = [] \/ exists b', b = NL :: b') -> (exists a, pre = a ++ l1) -> ~ inside_terminator pre (l2 ++ b) ->
  exists rest, content (l1 ++ l2) b = l1 ++ rest.
Proof.
  intros Hb [a ->] Hin. unfold content. destruct Hb as [->|[b' ->]]; [by exists l2|].
  destruct (strip_cr_prefix (l1 ++ l2)) as [cr Hcr].
  destruct l2 as [|c l2' _] using rev_ind.
  - rewrite app_nil_r in *. exists []. rewrite app_nil_r. unfold strip_cr.
    destruct l1 as [|c l1' _] using rev_ind; [done|]. rewrite rev_unit.
    destruct (N.eqb_spec c CR) as [->|_]; [|done]. destruct Hin. split; [|by eexists].
    exists (a ++ l1'). by rewrite app_assoc.
  - unfold strip_cr. rewrite app_assoc, rev_unit. case_if.
    + exists l2'. apply rev_involutive.
    + exists (l2' ++ [c]). by rewrite app_assoc.
Qed.

(** The two conversions, at any place of a text. *)
Lemma line_col_at pre post :
  (N.of_nat (blen (pre ++ post)) < 2 ^ 32)%N ->
  exists col, col <= blen pre
    /\ get_line_col (parse (pre ++ post)) (N.of_nat (blen pre)) (pre ++ post)
       = Done (Some (count_nl pre, col))
    /\ (~ inside_terminator pre post ->
        get_offset (parse (pre ++ post)) (count_nl pre) col (pre ++ post) = Done (N.of_nat (blen pre))).
Proof.
  intros Hlen. destruct (line_around pre post) as (a & l1 & l2 & b & Hpre & Hpost & L).
  pose proof (la_line _ _ _ _ L) as Hl. apply Forall_app in Hl as [H1 _].
  assert (count_nl pre = count_nl a) as Hk by (rewrite Hpre, count_nl_app, (count_nl_none l1 H1); lia).
  assert (utf16_len l1 <= blen l1) as Hw.
  { clear. unfold utf16_len, blen. induction l1 as [|c t IH]; simpl; [lia|].
    assert (len_utf16 c <= len_utf8 c) by (unfold len_utf16, len_utf8;
      destruct (N.ltb_spec c 0x80), (N.ltb_spec c 0x800), (N.ltb_spec c 0x10000); lia). lia. }
  exists (utf16_len l1). rewrite Hk. split_and!.
  - rewrite Hpre, blen_app. lia.
  - rewrite Hpre at 2. by eapply get_line_col_at.
  - intros Hin. rewrite Hpost in Hin.
    destruct (content_before l1 l2 b pre (la_end _ _ _ _ L) ltac:(by exists a) Hin) as [rest Hc].
    unfold get_offset. rewrite (offset_at_column_at _ _ _ _ _ _ L Hlen len_utf16_ascii), Hc.
    unfold utf16_len. rewrite (take_columns_exact len_utf16 l1 rest len_utf16_pos). by rewrite Hpre.
Qed.

(** ** The theorems *)

(** For every place of a text below 4 GiB that is not inside a line terminator, the
    offset of its line and UTF-16 column is the place itself; the line is the
    number of line feeds before it. *)
Theorem line_col_roundtrip pre post :
  (N.of_nat (blen (pre ++ post)) < 2 ^ 32)%N -> ~ inside_terminator pre post ->
  exists col,
    get_line_col (parse (pre ++ post)) (N.of_nat (blen pre)) (pre ++ post)
      = Done (Some (count_nl pre, col))
    /\ get_offset (parse (pre ++ post)) (count_nl pre) col (pre ++ post) = Done (N.of_nat (blen pre)).
Proof.
  intros Hlen Hin. destruct (line_col_at pre post Hlen) as (col & _ & Hc & Ho).
  exists col. split; [exact Hc|by apply Ho].
Qed.

(** A surrogate pair before the place. *)
Lemma line_col_roundtrip_witness :
  let pre := str "a" ++ [NL] ++ [0x1F600%N] in
  exists col, get_line_col (parse (pre ++ str "b")) 6 (pre ++ str "b") = Done (Some (1, col))
    /\ get_offset (parse (pre ++ str "b")) 1 col (pre ++ str "b") = Done 6%N.
Proof.
  intros pre. destruct (line_col_roundtrip pre (str "b")) as (col & H1 & H2).
  - vm_compute. reflexivity.
  - intros [_ [post' Hp]]. discriminate.
  - exists col. split; [exact H1|exact H2].
Defined.

(** C38: whatever line and column an editor asks for, [get_offset] has an answer.
    On a line of the text the answer is the place in the content of the line, the
    line without its terminator, that is reached with the longest prefix of at
    most that many UTF-16 units: the start of the character that holds the column,
    never inside of it, and the end of the content, before the line break, for
    every column past it.  When there is no such line it is the end of the text. *)
Theorem get_offset_clamps text line col :
  (N.of_nat (blen text) < 2 ^ 32)%N ->
  if line <? line_count (parse text) then
    exists a l b before after,
      line_at text a l b /\ count_nl a = line /\ content l b = before ++ after
      /\ get_offset (parse text) line col text = Done (N.of_nat (blen (a ++ before)))
      /\ utf16_len before <= col
      /\ match after with [] => True | c :: _ => col < utf16_len before + len_utf16 c end
      /\ (utf16_len (content l b) <= col -> before = content l b)
  else get_offset (parse text) line col text = Done (N.of_nat (blen text)).
Proof.
  intros Hlen. assert (line_count (parse text) = S (count_nl text)) as ->
    by (unfold line_count; rewrite parse_eq; simpl; by rewrite starts_length).
  destruct (Nat.ltb_spec line (S (count_nl text))) as [Hl|Hl].
  - destruct (line_numbered text line) as (a & l & b & L & <-); [lia|].
    pose proof (offset_at_column_at text a l b len_utf16 col L Hlen len_utf16_ascii) as Ho.
    destruct (take_columns_fits len_utf16 col (content l b)) as (rest & Hrest & Hfit & Hnext).
    exists a, l, b, (take_columns len_utf16 col (content l b)), rest. split_and!; try done.
    intros Hall. rewrite Hrest in Hall at 1. unfold utf16_len in *. rewrite sum_list_with_app in Hall.
    destruct rest as [|c rest]; [by rewrite app_nil_r in Hrest|]. simpl in Hall. lia.
  - unfold get_offset, offset_at_column, line_content_range.
    rewrite (lookup_ge_None_2 (line_offsets (parse text))).
    + cbn [mbind outcome_bind]. by rewrite as_u32_small.
    + rewrite parse_eq. simpl. rewrite starts_length. lia.
Qed.

(** A column past the end of a line that ends in CR LF, and one inside a
    surrogate pair. *)
Lemma get_offset_clamps_witness :
  let text := str "ab" ++ [CR; NL; 0x1F600%N] ++ str "c" in
  (get_offset (parse text) 0 7 text = Done 2%N /\ get_offset (parse text) 1 1 text = Done 4%N)
  /\ exists a l b before after,
      line_at text a l b /\ count_nl a = 0 /\ content l b = before ++ after
      /\ get_offset (parse text) 0 7 text = Done (N.of_nat (blen (a ++ before)))
      /\ utf16_len before <= 7
      /\ match after with [] => True | c :: _ => 7 < utf16_len before + len_utf16 c end
      /\ (utf16_len (content l b) <= 7 -> before = content l b).
Proof.
  intros text. split; [split; vm_compute; reflexivity|].
  refine (get_offset_clamps text 0 7 _). vm_compute. reflexivity.
Defined.

(** C37: a range of a document becomes a range of the protocol and back the same
    range, when neither end is inside a line terminator. *)
Theorem lsp_range_roundtrip pre mid post :
  let text := pre ++ mid ++ post in
  let document := LuaDocument.new text (parse text) in
  let range := mkTextRange (N.of_nat (blen pre)) (N.of_nat (blen (pre ++ mid))) in
  (N.of_nat (blen text) < 2 ^ 32)%N ->
  ~ inside_terminator pre (mid ++ post) -> ~ inside_terminator (pre ++ mid) post ->
  exists lsp_range, LuaDocument.to_lsp_range document range = Done (Some lsp_range)
    /\ LuaDocument.to_rowan_range document lsp_range = Done (Some range).
Proof.
  intros text document range Hlen H1 H2.
  destruct (line_col_at pre (mid ++ post)) as (c1 & Hc1 & Hl1 & Ho1); [exact Hlen|].
  destruct (line_col_at (pre ++ mid) post) as (c2 & Hc2 & Hl2 & Ho2); [by rewrite <-app_assoc|].
  specialize (Ho1 H1). specialize (Ho2 H2). rewrite <-!app_assoc in Hl2, Ho2. fold text in Hl1, Ho1, Hl2, Ho2.
  assert (count_nl_le : forall t, count_nl t <= blen t).
  { clear. unfold count_nl, blen. induction t as [|c t IH]; simpl; [lia|].
    pose proof (len_utf8_pos c). case_if; lia. }
  pose proof (count_nl_le pre) as Hn1. pose proof (count_nl_le (pre ++ mid)) as Hn2.
  assert (blen (pre ++ mid) <= blen text /\ blen pre <= blen (pre ++ mid)) as [Hle1 Hle2]
    by (unfold text; rewrite !blen_app; lia).
  eexists. unfold LuaDocument.to_lsp_range, LuaDocument.get_line_col, document, LuaDocument.new, range.
  cbn [line_index doc_text text_start text_end]. rewrite Hl1, Hl2. cbn [mbind outcome_bind option_map].
  split; [reflexivity|].
  unfold LuaDocument.to_rowan_range, LuaDocument.to_offset, LuaDocument.get_offset, LuaDocument.position_of.
  cbn [line_index doc_text range_start range_end pos_line pos_character fst snd].
  rewrite !as_u32_small, !Nat2N.id by lia. rewrite Ho1, Ho2. cbn [mbind outcome_bind].
  unfold LuaDocument.text_range_new. by rewrite (proj2 (N.leb_le _ _)) by lia.
Qed.

Lemma lsp_range_roundtrip_witness :
  exists r, LuaDocument.to_lsp_range (LuaDocument.new (str "a = 1") (parse (str "a = 1"))) (mkTextRange 2 3)
      = Done (Some r)
    /\ LuaDocument.to_rowan_range (LuaDocument.new (str "a = 1") (parse (str "a = 1"))) r
       = Done (Some (mkTextRange 2 3)).
Proof.
  apply (lsp_range_roundtrip (str "a ") (str "=") (str " 1")).
  - vm_compute. reflexivity.
  - intros [_ [p Hp]]. discriminate.
  - intros [_ [p Hp]]. discriminate.
Defined.
