(* ===== verification/Pipeline.v ===== *)
(** * [LuaParser::parse]

    The lexer, the parser and the tree builder put together as
    [src/crates/glua_parser/src/parser/lua_parser.rs] does it, and what the
    whole promises to the rest of the server: every source text is parsed, and
    the tree of a text without parse errors holds the whole text. *)

From S2P Require Import Prelude Kinds Text LuaLexer LuaLexerProofs Marker Discipline LuaParser.
From S2P Require Import LuaParserProofs LuaGrammar LuaChunkProofs DocGrammar DocCommentProofs.
From S2P Require Import TreeBuilder TreeReplay TreeProofs Literals.
From stdpp Require Import list.
Local Open Scope prog_scope.

(** ** The program *)

(** syntax/tree/lua_syntax_tree.rs *)
Record LuaSyntaxTree : Type := mkTree {
  root : Rowan.GreenNode;
  tree_errors : list LuaParseError
}.

Definition has_syntax_errors (t : LuaSyntaxTree) : bool :=
  existsb (fun e => match error_kind e with SyntaxError => true | DocError => false end) (tree_errors t).

(** Both grammars ask how much of the stack is left; the answer depends on what
    was called so far, which the events and the depth of the call tell. *)
Class Stacks := {
  lua_stack :: Stack;
  doc_stack : Stack
}.

Class FiniteStacks `{Stacks} : Prop := {
  finite_lua_stack :: @FiniteStack lua_stack;
  finite_doc_stack : @FiniteStack doc_stack
}.

#[export] Instance comments `{UnicodeTables} `{Stacks} : DocComments :=
  @DocGrammar.doc_comments _ doc_stack.

#[export] Instance comments_laws `{UnicodeTables} `{FiniteStacks} : DocCommentsLaws :=
  @doc_comments_laws _ doc_stack finite_doc_stack.

Section Program.
Context `{UnicodeTables} `{Stacks}.

(** The first block of [LuaParser::parse]: the tokens and the lexer's
    errors. *)
Definition lex_source (text : rstring) (config : ParserConfig)
    : outcome (list LuaTokenData * list LuaParseError) :=
  match Reader.new text with
  | Some reader =>
      match LuaLexer.tokenize (LuaLexer.new reader (lexer_config config) (Some [])) with
      | Done (tokens, lexer) => Done (tokens, default [] (LuaLexer.errors lexer))
      | Panic => Panic
      | OutOfFuel => OutOfFuel
      end
  | None => Panic
  end.

Definition new_parser (text : rstring) (config : ParserConfig) (tokens : list LuaTokenData)
    (errors : list LuaParseError) : LuaParser :=
  mkParser text [] tokens 0 TkNone 0 config errors.

(** The parser when [parse_chunk] is done. *)
Definition parse_events (text : rstring) (config : ParserConfig) : outcome LuaParser :=
  match lex_source text config with
  | Done (tokens, errors) =>
      match parse_chunk (new_parser text config tokens errors) with
      | Done (_, parser) => Done parser
      | Panic => Panic
      | OutOfFuel => OutOfFuel
      end
  | Panic => Panic
  | OutOfFuel => OutOfFuel
  end.

Definition parse (text : rstring) (config : ParserConfig) : outcome LuaSyntaxTree :=
  match parse_events text config with
  | Done parser =>
      match LuaTreeBuilder.tree (LuaParser.origin_text parser) (events parser) with
      | Done root => Done (mkTree root (LuaParser.get_errors parser))
      | Panic => Panic
      | OutOfFuel => OutOfFuel
      end
  | Panic => Panic
  | OutOfFuel => OutOfFuel
  end.
End Program.

(** ** From the lexer to the parser *)

Lemma until_nul_split t : exists tail, t = until_nul t ++ tail.
Proof.
  induction t as [|c t [tail IH]]; simpl; [by exists []|].
  case_match; [by exists (c :: t)|]. exists tail. simpl. by rewrite <-IH.
Qed.

Lemma until_nul_no_nul t : no_nul (until_nul t).
Proof.
  induction t as [|c t IH]; simpl; [constructor|].
  destruct (N.eqb_spec c EOF); [constructor|by constructor].
Qed.

Lemma tokenized_lexed txt toks :
  tokenized Normal txt 0 toks ->
  exists parts, lexed txt toks parts /\ concat parts = until_nul txt.
Proof.
  intros (parts & Hc & Hs & Hne & Hk). exists parts. split; [|done].
  split; rewrite ?Hc; [apply until_nul_split|done|by apply Hne|apply until_nul_no_nul|done].
Qed.

(** What was eaten has texts. *)
Lemma spans_leaves txt pre es parts tail :
  txt = pre ++ concat parts ++ tail -> spans (blen pre) (snd <$> es) parts ->
  exists toks, Forall2 (leaf_text txt) es toks /\ concat (map snd toks) = concat parts.
Proof.
  revert pre parts. induction es as [|[k r] es IH]; intros pre [|p parts] Ht Hs; simpl in Hs; try done.
  - by exists [].
  - destruct Hs as (Ho & Hl & Hs). simpl in Ht.
    destruct (IH (pre ++ p) parts) as (toks & Hf & Hc).
    + by rewrite Ht, <-!app_assoc.
    + by rewrite blen_app.
    + exists ((Token k, p) :: toks). split; [|simpl; by rewrite Hc]. constructor; [|done].
      split; [done|]. simpl. unfold SourceRange.end_offset. rewrite Ho, Hl, Ht, <-app_assoc.
      apply str_slice_app.
Qed.

Lemma text_of_tokens n : Rowan.text_of n = concat (map snd (Rowan.tokens_of n)).
Proof.
  revert n. fix IH 1. intros [k t|k cs]; simpl; [by rewrite app_nil_r|].
  induction cs as [|c cs IHcs]; simpl; [done|]. by rewrite map_app, concat_app, <-IH, IHcs.
Qed.

(** ** What the parser leaves behind *)

Section Properties.
Context `{UnicodeTables} `{FiniteStacks}.

(** The outcome of the parser on a lexed text. *)
Record Parsed (text : rstring) (toks : list LuaTokenData) (errs : list LuaParseError)
    (p : LuaParser) : Prop := mkParsed {
  pd_end : token_index p = length toks;
  pd_text : LuaParser.origin_text p = text;
  pd_eaten : eaten_text text (blen (until_nul text)) (eaten (shapes (events p)));
  pd_links : events_ok (events p);
  pd_errors : errs `prefix_of` errors p;
  pd_clean : errors p = errs ->
    exists f, Skel (events p) (flats f) /\ goods true f = true
      /\ (f = [] \/ exists cs, f = [TNode 0 CBlock cs])
}.

Lemma parse_chunk_spec text cfg toks errs :
  tokenized Normal text 0 toks ->
  wp parse_chunk (fun _ p => Parsed text toks errs p) (new_parser text cfg toks errs).
Proof.
  intros (parts & L & Hcat)%tokenized_lexed. unfold parse_chunk.
  destruct (@grammar_spec _ _ text toks parts cfg L _ _ max_nesting 0) as [He Hb]; [lia|].
  eapply wp_mono; [eapply (@parse_chunk_with_spec _ _ text toks parts cfg L _ _ He Hb); [by split|done]|].
  intros [] p [[[Htx Htk Hcf Hi Hcur Hsol Hea] Hev] Hend Herr Hclean]. simpl in *.
  split; try done.
  rewrite Hend in Hea. unfold offset in Hea.
  pose proof (lx_spans _ _ _ L) as Hsp.
  assert (length parts = length toks) as Hlen.
  { clear -Hsp. revert Hsp. generalize 0. revert parts.
    induction toks as [|t ts IH]; intros [|x ps] n Hs; simpl in *; try done.
    f_equal. by eapply IH, Hs. }
  by rewrite <-Hlen, firstn_all, Hcat in Hea.
Qed.

Lemma lex_source_spec text cfg :
  exists toks errs, lex_source text cfg = Done (toks, errs) /\ tokenized Normal text 0 toks.
Proof.
  destruct (cursor_new_with_range text 0) as (r & Hr & Hc & Ha).
  pose proof (tokenize_spec (LuaLexer.new r (lexer_config cfg) (Some [])) text
                ltac:(discriminate) Hc) as Hw.
  unfold lex_source, Reader.new, SourceRange.new. rewrite Hr.
  unfold wp in Hw. destruct (LuaLexer.tokenize _) as [[ts l']| |]; [|done..].
  exists ts, (default [] (LuaLexer.errors l')). split; [done|]. simpl in Hw. rewrite Ha in Hw. by destruct Hw.
Qed.

Lemma parse_events_spec text cfg :
  exists toks errs p, lex_source text cfg = Done (toks, errs)
    /\ parse_events text cfg = Done p /\ Parsed text toks errs p.
Proof.
  destruct (lex_source_spec text cfg) as (toks & errs & Hl & Ht).
  pose proof (parse_chunk_spec text cfg toks errs Ht) as Hw. unfold wp in Hw.
  destruct (parse_chunk _) as [[[] p]| |] eqn:Hp; [|done..].
  exists toks, errs, p. split_and!; [done| |done]. unfold parse_events. by rewrite Hl, Hp.
Qed.

(** The tree of a parse that reported nothing. *)
Lemma tree_of_parsed text toks errs p :
  Parsed text toks errs p -> errors p = errs ->
  exists ts, LuaTreeBuilder.tree text (events p) = Done (Rowan.GNode (Syntax Chunk) ts)
    /\ Forall2 (leaf_text text) (eaten (shapes (events p))) (tokens_of ts)
    /\ concat (map snd (tokens_of ts)) = until_nul text.
Proof.
  intros [_ _ Hea _ _ Hc] He. destruct (Hc He) as (f & HS & Hg & Hf).
  destruct Hea as (parts & tail & Ht & Hlen & Hsp).
  destruct (until_nul_split text) as [tail' Htail].
  assert (concat parts = until_nul text) as Hcat.
  { rewrite Ht in Htail at 1. by destruct (blen_prefix_eq _ _ _ _ Htail Hlen). }
  destruct (spans_leaves text [] _ _ _ Ht Hsp) as (leaves & Hl & Hlt).
  pose proof (Skel_eaten _ _ HS) as Heq. rewrite acts_eaten_flats in Heq. rewrite <-Heq in *.
  rewrite <-Hcat, <-Hlt. destruct Hf as [->|(cs & ->)].
  - apply Forall2_nil_inv_l in Hl as ->. exists []. split_and!; [|constructor|done].
    by apply tree_of_nothing.
  - destruct (tree_of_block text (events p) 0 cs leaves HS Hg Hl) as (k & ts & Htree & _ & Hts).
    exists [Rowan.GNode (Syntax k) ts]. unfold tokens_of at 1 2. cbn [map concat Rowan.tokens_of].
    rewrite app_nil_r. fold (tokens_of ts). rewrite Hts. by split_and!.
Qed.
End Properties.

(** ** The promises of the whole parser *)

Section Promises.
Context `{UnicodeTables} `{FiniteStacks}.

(** C2: for every source text the lexer and the parser return, without a panic and
    with enough fuel; the parser has consumed every token, the tokens it wrote
    into its events lie end to end over the text up to its first NUL, and the
    parent links of the events lead forward to starts. *)
Theorem parse_events_total text cfg :
  exists toks errs p, lex_source text cfg = Done (toks, errs)
    /\ parse_events text cfg = Done p
    /\ token_index p = length toks
    /\ eaten_text text (blen (until_nul text)) (eaten (shapes (events p)))
    /\ events_ok (events p)
    /\ errs `prefix_of` errors p.
Proof.
  destruct (parse_events_spec text cfg) as (toks & errs & p & Hl & Hp & [? _ ? ? ? _]).
  exists toks, errs, p. by split_and!.
Qed.

(** C1: when the parser reports no error of its own, the whole program returns a
    tree rooted in a chunk whose text is the source up to its first NUL, and
    the tokens of the tree are those that the parser ate, with their kinds and in
    their order. *)
Theorem parse_lossless text cfg toks errs p :
  lex_source text cfg = Done (toks, errs) -> parse_events text cfg = Done p -> errors p = errs ->
  exists tree, parse text cfg = Done tree
    /\ tree_errors tree = errs
    /\ Rowan.kind_of (root tree) = Syntax Chunk
    /\ Rowan.text_of (root tree) = until_nul text
    /\ Forall2 (leaf_text text) (eaten (shapes (events p))) (Rowan.tokens_of (root tree)).
Proof.
  intros Hl Hp He. destruct (parse_events_spec text cfg) as (toks' & errs' & p' & Hl' & Hp' & HP).
  rewrite Hl in Hl'. injection Hl' as <- <-. rewrite Hp in Hp'. injection Hp' as <-.
  destruct (tree_of_parsed text toks errs p HP He) as (ts & Ht & Hlv & Hc).
  exists (mkTree (Rowan.GNode (Syntax Chunk) ts) (errors p)). unfold parse.
  destruct HP as [_ Htx _ _ _ _]. rewrite Hp, Htx, Ht. split_and!; [done|done|done| |done].
  by rewrite text_of_tokens.
Qed.
End Promises.

(** ** A concrete parser

    For the witnesses: the stack gives out at the 30th nested call. *)

Module Sample.
#[local] Instance tables : UnicodeTables := ascii_tables.

Definition stack : Stack := {|
  remaining_stack := fun d _ => Some (if (d <? 30)%nat then 2 ^ 20 else 2 ^ 10)%N;
  max_nesting := 30
|}.

Lemma stack_finite : @FiniteStack stack.
Proof.
  intros d es Hd. unfold parser_stack_exhausted, remaining_stack, stack, max_nesting in *.
  destruct (Nat.ltb_spec d 30); [lia|done].
Qed.

#[local] Instance stacks : Stacks := {| lua_stack := stack; doc_stack := stack |}.

#[local] Instance stacks_finite : FiniteStacks.
Proof. split; exact stack_finite. Qed.

Definition source : rstring := str "---@param x (A|B)[] one" ++ [NL] ++ str "local x = f(1 + 2) -- sum".

Definition the_parser : LuaParser :=
  match parse_events source ParserConfig.default_config with
  | Done p => p
  | _ => new_parser [] ParserConfig.default_config [] []
  end.

Definition the_tokens : list LuaTokenData :=
  match lex_source source ParserConfig.default_config with Done (ts, _) => ts | _ => [] end.

(** Unbalanced brackets and a tag without its name. *)
Definition broken : rstring := str "---@class" ++ [NL] ++ str "local t = {f(, x = 1 end".

Lemma parse_events_total_witness :
  exists p, parse_events broken ParserConfig.default_config = Done p
    /\ eaten_text broken (blen broken) (eaten (shapes (events p))) /\ errors p <> [].
Proof.
  destruct (parse_events_total broken ParserConfig.default_config)
    as (toks & errs & p & _ & Hp & _ & He & _).
  exists p. split_and!; [exact Hp| |].
  - replace (blen broken) with (blen (until_nul broken)) by (vm_compute; reflexivity). exact He.
  - vm_compute in Hp. injection Hp as <-. discriminate.
Defined.

Lemma parse_lossless_witness :
  exists tree, parse source ParserConfig.default_config = Done tree
    /\ tree_errors tree = []
    /\ Rowan.kind_of (root tree) = Syntax Chunk
    /\ Rowan.text_of (root tree) = until_nul source
    /\ Forall2 (leaf_text source) (eaten (shapes (events the_parser))) (Rowan.tokens_of (root tree)).
Proof.
  apply (parse_lossless source ParserConfig.default_config the_tokens [] the_parser);
    vm_compute; reflexivity.
Defined.
(** A long string that the end of the file cuts off is one token; its value is asked
    for and panics ([LiteralProofs.unfinished_long_string_panics]). *)
Example unfinished_long_string_token :
  let source := str "[[" ++ [NL] ++ str "]" in
  match lex_source source ParserConfig.default_config with
  | Done ([t], [_]) => tok_kind t = TkLongString /\ tok_range t = mkRange 0 4
      /\ string_token_value (mkSyntaxToken TkLongString source 0) = Panic
  | _ => False
  end.
Proof. vm_compute. done. Qed.

(** A path that ends in a bracket is put into a long string as it is, and the lexer
    then ends the string one character early. *)
Example bracket_path_splits :
  written_for_literal (mkSyntaxToken TkLongString (str "[[x]]") 0) (mkTextRange 2 3) (str "a]")
    = Some (mkTextRange 2 3, str "a]")
  /\ match lex_source (str "[[a]]]") ParserConfig.default_config with
     | Done ([t; u], []) => tok_range t = mkRange 0 5 /\ tok_kind u = TkRightBracket
     | _ => False
     end.
Proof. vm_compute. done. Qed.
End Sample.
