(* ===== verification/FileOrder.v ===== *)
(** * The order in which files are analysed

    [src/crates/glua_code_analysis/src/db_index/dependency/file_dependency_relation.rs]:
    Kahn's algorithm over the files of a batch, level by level, and the search
    for the files that depend on some files.  A hash set of dependencies is a
    [gset]; the order in which its elements are visited has no influence, which
    the specification of the adjacency lists shows. *)

From S2P Require Import Prelude.
From stdpp Require Import list gmap sorting.
Local Open Scope prog_scope.

(** [FileId] is a [u32]. *)
Definition FileId : Type := N.
#[global] Instance file_id_eq_dec : EqDecision FileId := N.eq_dec.
#[global] Instance file_id_countable : Countable FileId := _ : Countable N.

Module FileDependencyRelation.
Section Relation.
Variable dependencies : gmap FileId (gset FileId).

(** ** [get_analysis_levels] *)

Section Levels.
Variable file_ids : list FileId.
Variable metas : gset FileId.

Definition file_at (i : nat) : FileId := default 0%N (file_ids !! i).

(** The comparison does not say [Greater]: meta files first, then by file id. *)
Definition priority_le (a b : nat) : bool :=
  match bool_decide (file_at b ∈ metas), bool_decide (file_at a ∈ metas) with
  | true, false => false
  | false, true => true
  | _, _ => (file_at a <=? file_at b)%N
  end.

(** The later index wins when a file occurs twice. *)
Definition file_to_idx : gmap FileId nat :=
  foldl (fun m p => <[p.2 := p.1]> m) ∅ (imap pair file_ids).

(** An edge [dep_idx -> idx] of the graph. *)
Definition add_edge (idx : nat) (graph : list nat * list (list nat)) (dep : FileId)
    : list nat * list (list nat) :=
  match file_to_idx !! dep with
  | Some dep_idx => (alter S idx graph.1, alter (fun l => l ++ [idx]) dep_idx graph.2)
  | None => graph
  end.

Definition add_edges (graph : list nat * list (list nat)) (file : nat * FileId)
    : list nat * list (list nat) :=
  match dependencies !! file.2 with
  | Some deps => foldl (add_edge file.1) graph (elements deps)
  | None => graph
  end.

(** The in-degrees and the adjacency lists. *)
Definition build_graph : list nat * list (list nat) :=
  foldl add_edges (replicate (length file_ids) 0, replicate (length file_ids) [])
    (imap pair file_ids).

Record State : Type := mkState {
  in_degree : list nat;
  node_level : list nat;
  queue : list nat;
  levels : list (list FileId);
  popped : nat
}.

(** [in_degree[neighbor] -= 1] and, at zero, a node for the next level;
    [None] is a panic: an index out of range or an underflow. *)
Definition visit (level : nat) (acc : option (list nat * list nat * list nat)) (neighbor : nat)
    : option (list nat * list nat * list nat) :=
  '(in_degree, node_level, new_zero) ← acc;
  degree ← in_degree !! neighbor;
  match degree with
  | 0 => None
  | S d =>
      let in_degree := <[neighbor := d]> in_degree in
      if (d =? 0)%nat
      then Some (in_degree, <[neighbor := level + 1]> node_level, new_zero ++ [neighbor])
      else Some (in_degree, node_level, new_zero)
  end.

(** One round of [while let Some(idx) = queue.pop_front()]. *)
Definition pop (adjacency : list (list nat)) (idx : nat) (rest : list nat) (s : State) : option State :=
  level ← node_level s !! idx;
  let levels := if (length (levels s) =? level)%nat then levels s ++ [[]] else levels s in
  row ← levels !! level;
  neighbors ← adjacency !! idx;
  '(in_degree, node_level, new_zero) ← foldl (visit level) (Some (in_degree s, node_level s, [])) neighbors;
  let new_zero := if (1 <? length new_zero)%nat then sort_by priority_le new_zero else new_zero in
  Some (mkState in_degree node_level (rest ++ new_zero) (<[level := row ++ [file_at idx]]> levels)
          (popped s + 1)).

Fixpoint run (fuel : nat) (adjacency : list (list nat)) (s : State) : outcome State :=
  match queue s with
  | [] => Done s
  | idx :: rest =>
      match fuel with
      | 0 => OutOfFuel
      | S fuel' => s' ← expect (pop adjacency idx rest s); run fuel' adjacency s'
      end
  end.

Definition zero_in_degree (in_degree : list nat) : list nat :=
  sort_by priority_le (filter (fun i => in_degree !! i = Some 0) (seq 0 (length file_ids))).

(** The files left in a cycle, each in a level of its own. *)
Definition cycle_levels (in_degree : list nat) : list (list FileId) :=
  omap (fun p => if (0 <? p.2)%nat then Some [file_at p.1] else None) (imap pair in_degree).

Definition get_analysis_levels : outcome (list (list FileId)) :=
  let n := length file_ids in
  if (n <? 2)%nat then Done (map (fun f => [f]) file_ids) else
  let '(in_degree0, adjacency) := build_graph in
  s ← run n adjacency
        (mkState in_degree0 (replicate n 0) (zero_in_degree in_degree0) [] 0);
  Done (if (popped s <? n)%nat then levels s ++ cycle_levels (in_degree s) else levels s).

Definition get_best_analysis_order : outcome (list FileId) :=
  levels ← get_analysis_levels; Done (concat levels).
End Levels.

(** ** [collect_file_dependents] *)

Definition reverse_map : gmap FileId (list FileId) :=
  foldl (fun m p => foldl (fun m dep => <[dep := default [] (m !! dep) ++ [p.1]]> m) m (elements p.2))
    ∅ (map_to_list dependencies).

(** The dependents of one file: the new ones are added and queued. *)
Definition add_dependents (dependents : list FileId) (s : gset FileId * list FileId)
    : gset FileId * list FileId :=
  foldl (fun s d => if bool_decide (d ∈ s.1) then s else ({[d]} ∪ s.1, s.2 ++ [d])) s dependents.

Fixpoint collect_loop (fuel : nat) (s : gset FileId * list FileId) : outcome (gset FileId) :=
  match s.2 with
  | [] => Done s.1
  | file_id :: queue =>
      match fuel with
      | 0 => OutOfFuel
      | S fuel' =>
          collect_loop fuel' (match reverse_map !! file_id with
                              | Some dependents => add_dependents dependents (s.1, queue)
                              | None => (s.1, queue)
                              end)
      end
  end.

(** The result is a hash set turned into a vector of unspecified order. *)
Definition collect_file_dependents (file_ids : list FileId) : outcome (gset FileId) :=
  collect_loop (length file_ids + size dependencies) (∅, file_ids).
End Relation.
End FileDependencyRelation.
