(* ===== verification/FileOrderProofs.v ===== *)
(** * Correctness of the analysis order

    The invariant of the queue: the files that were taken and those in the queue are
    exactly the files whose dependencies were all taken, and their levels grow
    along the queue by at most one. *)

From S2P Require Import Prelude FileOrder.
From stdpp Require Import list gmap sorting relations.
Import FileDependencyRelation.
Local Open Scope prog_scope.

(** ** Lists *)

(** ** Counting *)

Definition occ (i : nat) (l : list nat) : nat :=
  sum_list_with (fun x => if decide (x = i) then 1 else 0) l.

Lemma occ_app i l k : occ i (l ++ k) = occ i l + occ i k.
Proof. apply sum_list_with_app. Qed.

Lemma occ_single i x : occ i [x] = if decide (x = i) then 1 else 0.
Proof. unfold occ. simpl. lia. Qed.

Lemma occ_zero i l : occ i l = 0 <-> i ∉ l.
Proof.
  induction l as [|x l IH]; [split; [intros _; apply not_elem_of_nil|done]|].
  unfold occ in *. simpl. rewrite not_elem_of_cons. case_decide; [split; [lia|]; intros [? _]; congruence|].
  simpl. rewrite IH. split; [by intros ?|by intros [_ ?]].
Qed.

Lemma sum_list_alter {A} (f : A -> nat) g (l : list A) j r :
  l !! j = Some r -> sum_list_with f (alter g j l) + f r = sum_list_with f l + f (g r).
Proof.
  revert j. induction l as [|x l IH]; intros [|j]; simpl; intros Hj; try done.
  - injection Hj as ->. lia.
  - specialize (IH _ Hj). unfold alter in IH. lia.
Qed.

Section Graph.
Variable dependencies : gmap FileId (gset FileId).
Variable file_ids : list FileId.
Variable metas : gset FileId.
Local Abbreviation n := (length file_ids).
Local Abbreviation file := (file_at file_ids).

Lemma file_at_lookup k f : file_ids !! k = Some f -> file k = f.
Proof. intros Hk. exact (f_equal (default 0%N) Hk). Qed.

(** [i] depends on [j]. *)
Definition edge (i j : nat) : Prop :=
  i < n /\ exists deps, dependencies !! file i = Some deps /\ file j ∈ deps
    /\ file_to_idx file_ids !! file j = Some j.

Lemma file_to_idx_sound f j : file_to_idx file_ids !! f = Some j -> file_ids !! j = Some f.
Proof.
  unfold file_to_idx.
  assert (forall l k (m : gmap FileId nat), (forall f j, m !! f = Some j -> file_ids !! j = Some f) ->
    (forall i f, l !! i = Some f -> file_ids !! (k + i) = Some f) ->
    forall f j, foldl (fun m p => <[p.2 := p.1]> m) m (imap (fun i f => (k + i, f)) l) !! f = Some j ->
    file_ids !! j = Some f) as H.
  { induction l as [|x l IH]; intros k m Hm Hl f' j'; [apply Hm|]. simpl.
    rewrite (imap_ext _ (fun i f => (S k + i, f))) by (intros; simpl; f_equal; lia). apply IH.
    - intros f1 j1. rewrite lookup_insert_Some. intros [[<- <-]|[_ H1]]; [|by apply Hm].
      rewrite Nat.add_0_r. specialize (Hl 0 x eq_refl). by rewrite Nat.add_0_r in Hl.
    - intros i f1 Hi. replace (S k + i) with (k + S i) by lia. by apply Hl. }
  apply (H file_ids 0 ∅); [|done]. intros f1 j1. by rewrite lookup_empty.
Qed.

(** Without duplicates every file has its own index. *)
Lemma file_to_idx_complete j f :
  NoDup file_ids -> file_ids !! j = Some f -> file_to_idx file_ids !! f = Some j.
Proof.
  intros Hnd Hj. destruct (file_to_idx file_ids !! f) as [j'|] eqn:Hf.
  { apply file_to_idx_sound in Hf. f_equal. by eapply NoDup_lookup. }
  exfalso. revert Hf. unfold file_to_idx.
  assert (forall l k (m : gmap FileId nat), is_Some (m !! f) \/ f ∈ l ->
    is_Some (foldl (fun m p => <[p.2 := p.1]> m) m (imap (fun i f => (k + i, f)) l) !! f)) as H.
  { induction l as [|x l IH]; intros k m Hm.
    - destruct Hm as [Hm|Hm]; [done|]. by apply not_elem_of_nil in Hm.
    - simpl. rewrite (imap_ext _ (fun i f => (S k + i, f))) by (intros; simpl; f_equal; lia). apply IH.
      destruct (decide (x = f)) as [->|Hne]; [left; by rewrite lookup_insert_eq|].
      rewrite lookup_insert_ne by done. destruct Hm as [Hm|Hm]; [by left|].
      apply elem_of_cons in Hm as [->|Hm]; [done|by right]. }
  specialize (H file_ids 0 ∅ (or_intror (list_elem_of_lookup_2 _ _ _ Hj))).
  intros Hf. unfold file_to_idx in Hf. change (imap pair file_ids) with (imap (fun i f => (0 + i, f)) file_ids) in Hf.
  rewrite Hf in H. by destruct H.
Qed.

(** What the loops over files and dependencies have built. *)
Record graph_ok (p : nat -> nat -> Prop) (g : list nat * list (list nat)) : Prop := mkGraphOk {
  gr_len1 : length g.1 = n;
  gr_len2 : length g.2 = n;
  gr_degree : forall i, i < n -> g.1 !! i = Some (sum_list_with (occ i) g.2);
  gr_edges : forall i j l, g.2 !! j = Some l -> (i ∈ l <-> p i j);
  gr_range : forall j l, g.2 !! j = Some l -> Forall (fun i => i < n) l
}.

Lemma graph_ok_ext p q g : (forall i j, p i j <-> q i j) -> graph_ok p g -> graph_ok q g.
Proof.
  intros Hpq [? ? ? He ?]. split; try done. intros i j l Hl. by rewrite <-Hpq, (He i j l Hl).
Qed.

Lemma add_edge_ok p g idx dep :
  graph_ok p g -> idx < n ->
  graph_ok (fun i j => p i j \/ (i = idx /\ file_to_idx file_ids !! dep = Some j))
    (add_edge file_ids idx g dep).
Proof.
  intros [H1 H2 Hd He Hr] Hidx. unfold add_edge. destruct (file_to_idx file_ids !! dep) as [j0|] eqn:Hj0.
  - pose proof (file_to_idx_sound _ _ Hj0) as Hlt. apply lookup_lt_Some in Hlt.
    destruct (lookup_lt_is_Some_2 g.2 j0) as [r Hrow]; [lia|].
    split; simpl.
    + by rewrite length_alter.
    + by rewrite length_alter.
    + intros i Hi. pose proof (sum_list_alter (occ i) (fun l => l ++ [idx]) g.2 j0 r Hrow) as Hs.
      cbv beta in Hs. rewrite occ_app, (occ_single i idx) in Hs.
      case_decide as Hne; [subst i|].
      * rewrite list_lookup_alter_eq, Hd by done. simpl. f_equal. lia.
      * rewrite list_lookup_alter_ne, Hd by done. f_equal. lia.
    + intros i j l. destruct (decide (j0 = j)) as [->|Hne].
      * rewrite list_lookup_alter_eq, Hrow. simpl. intros [= <-].
        rewrite elem_of_app, list_elem_of_singleton, (He i j r Hrow).
        split; [intros [?| ->]; [by left|by right]|intros [?|[-> _]]; [by left|by right]].
      * rewrite list_lookup_alter_ne by done. intros Hl. rewrite (He i j l Hl).
        split; [by left|]. intros [?|[_ ?]]; [done|congruence].
    + intros j l. destruct (decide (j0 = j)) as [->|Hne].
      * rewrite list_lookup_alter_eq, Hrow. simpl. intros [= <-]. apply Forall_app. split; [by eapply Hr|].
        by repeat constructor.
      * rewrite list_lookup_alter_ne by done. apply Hr.
  - split; try done. intros i j l Hl. rewrite (He i j l Hl). split; [by left|]. by intros [?|[_ ?]].
Qed.

Lemma fold_edges_ok deps p g idx :
  graph_ok p g -> idx < n ->
  graph_ok (fun i j => p i j \/ (i = idx /\ exists dep, dep ∈ deps /\ file_to_idx file_ids !! dep = Some j))
    (foldl (add_edge file_ids idx) g deps).
Proof.
  revert p g. induction deps as [|d deps IH]; intros p g Hg Hi; simpl.
  - eapply graph_ok_ext; [|exact Hg]. intros i j. split; [by left|].
    intros [?|(_ & dep & Hdep & _)]; [done|]. by apply not_elem_of_nil in Hdep.
  - eapply graph_ok_ext; [|apply IH; [by apply add_edge_ok|done]]. simpl. intros i j.
    split.
    + intros [[?|[-> ?]]|(-> & dep & Hin & Hj)]; [by left|right; split; [done|]|right; split; [done|]].
      * exists d. split; [apply list_elem_of_here|done].
      * exists dep. split; [by apply list_elem_of_further|done].
    + intros [?|(-> & dep & [->|Hin]%elem_of_cons & Hj)]; [by left; left|by left; right|].
      right. split; [done|]. by exists dep.
Qed.

Lemma build_graph_ok : graph_ok edge (build_graph dependencies file_ids).
Proof.
  unfold build_graph.
  assert (forall l k p g, (forall i f, l !! i = Some f -> file_ids !! (k + i) = Some f) ->
    graph_ok p g ->
    graph_ok (fun i j => p i j \/ (edge i j /\ k <= i < k + length l))
      (foldl (add_edges dependencies file_ids) g (imap (fun i f => (k + i, f)) l))) as H.
  { induction l as [|x l IH]; intros k p g Hl Hg.
    - simpl. eapply graph_ok_ext; [|exact Hg]. intros i j. split; [by left|]. intros [?|[_ ?]]; [done|lia].
    - simpl. rewrite (imap_ext _ (fun i f => (S k + i, f))) by (intros; simpl; f_equal; lia).
      assert (file_ids !! k = Some x) as Hk by (specialize (Hl 0 x eq_refl); by rewrite Nat.add_0_r in Hl).
      pose proof (lookup_lt_Some _ _ _ Hk) as Hkn.
      assert (file k = x) as Hfile by by apply file_at_lookup.
      rewrite Nat.add_0_r.
      assert (graph_ok (fun i j => p i j \/ (i = k /\ edge k j)) (add_edges dependencies file_ids g (k, x))) as Hg'.
      { unfold add_edges. simpl. destruct (dependencies !! x) as [deps|] eqn:Hdeps.
        - eapply graph_ok_ext; [|apply fold_edges_ok; [exact Hg|exact Hkn]]. simpl. intros i j.
          setoid_rewrite elem_of_elements. split.
          + intros [?|(-> & dep & Hin & Hj)]; [by left|]. right. split; [done|]. split; [done|].
            exists deps. rewrite Hfile. pose proof (file_to_idx_sound _ _ Hj) as Hs.
            assert (file j = dep) as -> by by apply file_at_lookup. done.
          + intros [?|(-> & _ & deps' & Hd & Hin & Hj)]; [by left|]. rewrite Hfile, Hdeps in Hd.
            injection Hd as <-. right. split; [done|]. by exists (file j).
        - eapply graph_ok_ext; [|exact Hg]. intros i j. split; [by left|].
          intros [?|(-> & _ & deps' & Hd & _)]; [done|]. rewrite Hfile, Hdeps in Hd. done. }
      eapply graph_ok_ext; [|apply (IH (S k) (fun i j => p i j \/ (i = k /\ edge k j)))]; [|intros i f Hi; replace (S k + i) with (k + S i) by lia; by apply Hl|exact Hg'].
      intros i j. simpl. split.
      + intros [[?|[-> ?]]|[? ?]]; [by left|right; split; [done|lia]|right; split; [done|lia]].
      + intros [?|[He Hi]]; [by left; left|]. destruct (decide (i = k)) as [->|Hne]; [left; by right|].
        right. split; [done|lia]. }
  eapply graph_ok_ext; [|apply (H file_ids 0 (fun _ _ => False)); [done|]].
  - intros i j. simpl. split; [by intros [[]|[? _]]|]. intros He. right. split; [done|]. destruct He. lia.
  - split; simpl; [by rewrite length_replicate|by rewrite length_replicate| | |].
    + intros i Hi. rewrite lookup_replicate_2 by done. f_equal. clear. induction n as [|k IH]; [done|]. simpl. done.
    + intros i j l Hl. apply lookup_replicate in Hl as [-> _]. split; [by intros ?%not_elem_of_nil|done].
    + intros j l Hl. by apply lookup_replicate in Hl as [-> _].
Qed.
End Graph.

(** ** The queue *)

Section Run.
Variable file_ids : list FileId.
Variable metas : gset FileId.
Local Abbreviation n := (length file_ids).
Local Abbreviation file := (file_at file_ids).
Variable adj : list (list nat).
Hypothesis adj_length : length adj = n.
Hypothesis adj_range : forall j l, adj !! j = Some l -> Forall (fun i => i < n) l.

Definition row (j : nat) : list nat := default [] (adj !! j).

(** The dependencies of [i] that are not yet taken. *)
Definition deg (done : list nat) (i : nat) : nat :=
  sum_list_with (fun j => if decide (j ∈ done) then 0 else occ i (row j)) (seq 0 n).

Lemma deg_zero done i : deg done i = 0 <-> (forall j, j < n -> i ∈ row j -> j ∈ done).
Proof.
  unfold deg. split.
  - intros H0 j Hj Hi. assert (j ∈ seq 0 n) as Hin by (apply elem_of_seq; lia).
    revert H0 Hin. generalize (seq 0 n). induction l as [|x l IH]; [by intros _ ?%not_elem_of_nil|].
    simpl. intros H0 [<-|Hin]%elem_of_cons; [|apply IH; [lia|done]].
    case_decide; [done|]. assert (occ i (row j) = 0) as Hz by lia. by apply occ_zero in Hz.
  - intros Hall. assert (forall l, Forall (fun j => j < n) l ->
      sum_list_with (fun j => if decide (j ∈ done) then 0 else occ i (row j)) l = 0) as H.
    { induction 1 as [|x l Hx Hl IH]; [done|]. simpl. rewrite IH. case_decide as Hd; [done|].
      rewrite Nat.add_0_r. apply occ_zero. intros Hi. by apply Hd, Hall. }
    apply H, Forall_forall. intros j Hj%elem_of_seq. lia.
Qed.

Lemma deg_pop done idx i :
  idx < n -> idx ∉ done -> deg done i = deg (done ++ [idx]) i + occ i (row idx).
Proof.
  intros Hn Hd. unfold deg. assert (idx ∈ seq 0 n) as Hin by (apply elem_of_seq; lia).
  pose proof (NoDup_seq 0 n) as Hnd. revert Hin Hnd. generalize (seq 0 n).
  assert (forall l, idx ∉ l ->
    sum_list_with (fun j => if decide (j ∈ done) then 0 else occ i (row j)) l
    = sum_list_with (fun j => if decide (j ∈ done ++ [idx]) then 0 else occ i (row j)) l) as Hsame.
  { induction l as [|x l IH]; [done|]. simpl. rewrite not_elem_of_cons. intros [Hx Hl].
    rewrite (IH Hl). f_equal. rewrite (decide_ext (x ∈ done) (x ∈ done ++ [idx])); [done|].
    rewrite elem_of_app, list_elem_of_singleton. split; [by left|]. intros [?| ->]; done. }
  induction l as [|x l IH]; [by intros ?%not_elem_of_nil|]. simpl.
  intros [<-|Hin]%elem_of_cons [Hx Hnd]%NoDup_cons.
  - rewrite (Hsame l Hx), decide_False, decide_True by (try done; apply elem_of_app; right; by apply list_elem_of_singleton).
    lia.
  - rewrite (IH Hin Hnd). rewrite (decide_ext (x ∈ done) (x ∈ done ++ [idx])); [lia|].
    rewrite elem_of_app, list_elem_of_singleton. split; [by left|]. intros [?| ->]; done.
Qed.

Lemma row_range j i : i ∈ row j -> i < n.
Proof.
  unfold row. destruct (adj !! j) as [l|] eqn:Hl; simpl; [|by intros ?%not_elem_of_nil].
  specialize (adj_range j l Hl). rewrite Forall_forall in adj_range. apply adj_range.
Qed.

(** The loop over the neighbors. *)
Lemma visit_spec level ns : forall d nl nz,
  Forall (fun i => i < n) ns -> length d = n -> length nl = n ->
  (forall i v, d !! i = Some v -> occ i ns <= v) ->
  exists d' nl' nz', foldl (visit level) (Some (d, nl, nz)) ns = Some (d', nl', nz ++ nz')
    /\ length d' = n /\ length nl' = n
    /\ (forall i v, d !! i = Some v -> d' !! i = Some (v - occ i ns))
    /\ (forall i, i ∈ nz' <-> i ∈ ns /\ d' !! i = Some 0)
    /\ NoDup nz'
    /\ (forall i, i ∈ nz' -> nl' !! i = Some (level + 1))
    /\ (forall i, i ∉ nz' -> nl' !! i = nl !! i).
Proof.
  induction ns as [|x ns IH]; intros d nl nz Hr Hd Hnl Hocc.
  - exists d, nl, []. simpl. rewrite app_nil_r. split_and!; try done.
    + intros i v Hv. by rewrite Nat.sub_0_r.
    + intros i. split; [by intros ?%not_elem_of_nil|by intros [?%not_elem_of_nil _]].
    + constructor.
    + by intros i ?%not_elem_of_nil.
  - apply Forall_cons in Hr as [Hx Hr]. cbn [foldl].
    destruct (lookup_lt_is_Some_2 d x) as [v Hv]; [lia|].
    assert (forall i, occ i (x :: ns) = (if decide (x = i) then 1 else 0) + occ i ns) as Hcons by done.
    pose proof (Hocc x v Hv) as Hge. rewrite Hcons, decide_True in Hge by done.
    destruct v as [|v]; [lia|]. unfold visit at 2. simpl. rewrite Hv. simpl.
    set (d1 := <[x:=v]> d).
    assert (forall i w, d1 !! i = Some w -> occ i ns <= w) as Hocc1.
    { intros i w. unfold d1. destruct (decide (x = i)) as [->|Hne].
      - rewrite list_lookup_insert_eq by lia. intros [= <-]. lia.
      - rewrite list_lookup_insert_ne by done. intros Hw. specialize (Hocc i w Hw).
        rewrite Hcons, decide_False in Hocc by done. lia. }
    assert (forall i w (d' : list nat), (forall i v, d1 !! i = Some v -> d' !! i = Some (v - occ i ns)) ->
      d !! i = Some w -> d' !! i = Some (w - occ i (x :: ns))) as Hsub.
    { intros i w d' H1 Hw. rewrite Hcons. case_decide as Hxi.
      - subst i. rewrite Hv in Hw. injection Hw as <-. rewrite (H1 x v); [f_equal; lia|].
        unfold d1. rewrite list_lookup_insert_eq by lia. done.
      - rewrite (H1 i w); [done|]. unfold d1. by rewrite list_lookup_insert_ne. }
    destruct (Nat.eqb_spec v 0) as [->|Hv0].
    + destruct (IH d1 (<[x:=level + 1]> nl) (nz ++ [x]) Hr) as (d' & nl' & nz' & Hf & H1 & H2 & H3 & H4 & H5 & H6 & H7);
        [unfold d1; by rewrite length_insert|by rewrite length_insert|exact Hocc1|].
      assert (x ∉ ns) as Hxns by (apply occ_zero; lia).
      assert (x ∉ nz') as Hxnz by (intros [? _]%H4; done).
      exists d', nl', (x :: nz'). rewrite Hf. split_and!; try done.
      * by rewrite <-app_assoc.
      * intros i w. by apply Hsub.
      * intros i. rewrite !elem_of_cons, H4. split.
        -- intros [->|[? ?]]; [|split; [by right|done]]. split; [by left|].
           rewrite (H3 x 0); [done|]. unfold d1. by rewrite list_lookup_insert_eq by lia.
        -- intros [[->|?] ?]; [by left|by right].
      * by apply NoDup_cons.
      * intros i [->|Hi]%elem_of_cons; [|by apply H6].
        rewrite H7 by done. by rewrite list_lookup_insert_eq by lia.
      * intros i [Hi1 Hi2]%not_elem_of_cons. rewrite H7 by done. by rewrite list_lookup_insert_ne.
    + destruct (IH d1 nl nz Hr) as (d' & nl' & nz' & Hf & H1 & H2 & H3 & H4 & H5 & H6 & H7);
        [unfold d1; by rewrite length_insert|done|exact Hocc1|].
      exists d', nl', nz'. rewrite Hf. split_and!; try done.
      * intros i w. by apply Hsub.
      * intros i. rewrite elem_of_cons, H4. split; [intros [? ?]; split; [by right|done]|].
        intros [[->|?] Hz]; [|done]. split; [|done]. apply dec_stable. intros Hni. apply occ_zero in Hni.
        rewrite (H3 x v), Hni in Hz; [injection Hz as Hz; lia|].
        unfold d1. by rewrite list_lookup_insert_eq by lia.
Qed.

(** ** The invariant *)

Definition lvl (s : State) (i : nat) : nat := default 0 (node_level s !! i).

Record Inv (done : list nat) (s : State) : Prop := mkInv {
  iv_nodup : NoDup (done ++ queue s);
  iv_mem : forall i, i ∈ done ++ queue s <-> i < n /\ deg done i = 0;
  iv_degree_len : length (in_degree s) = n;
  iv_degree : forall i, i < n -> in_degree s !! i = Some (deg done i);
  iv_level_len : length (node_level s) = n;
  iv_levels : forall k, k < length (levels s) ->
    levels s !! k = Some (map file (filter (fun i => lvl s i = k) done));
  iv_done : Forall (fun i => lvl s i < length (levels s)) done;
  iv_queue : exists q1 q2, queue s = q1 ++ q2
    /\ Forall (fun i => S (lvl s i) = length (levels s)) q1
    /\ Forall (fun i => lvl s i = length (levels s)) q2;
  iv_order : forall i j, i ∈ done ++ queue s -> j < n -> i ∈ row j -> j ∈ done /\ lvl s j < lvl s i;
  iv_popped : popped s = length done
}.

Lemma filter_lvl_eq (s s' : State) k (l : list nat) :
  (forall i, i ∈ l -> lvl s' i = lvl s i) ->
  filter (fun i => lvl s' i = k) l = filter (fun i => lvl s i = k) l.
Proof. intros H. apply filter_iff_in. intros i Hi. by rewrite H. Qed.

Lemma filter_lvl_none (s : State) k (l : list nat) :
  Forall (fun i => lvl s i < k) l -> filter (fun i => lvl s i = k) l = [].
Proof. induction 1 as [|x l Hx Hl IH]; [done|]. rewrite filter_cons_False by lia. done. Qed.

(** The level list with a place for [level]. *)
Definition opened (level : nat) (levels : list (list FileId)) : list (list FileId) :=
  if (length levels =? level)%nat then levels ++ [[]] else levels.

Lemma inv_step done s idx rest :
  Inv done s -> queue s = idx :: rest ->
  exists s', pop file_ids metas adj idx rest s = Some s' /\ Inv (done ++ [idx]) s'.
Proof.
  intros HI Hq. destruct (iv_queue _ _ HI) as (q1 & q2 & Hq12 & Hq1 & Hq2).
  assert (idx ∈ done ++ queue s) as Hidx by (rewrite Hq; apply elem_of_app; right; apply list_elem_of_here).
  pose proof (proj1 (iv_mem _ _ HI idx) Hidx) as [Hn Hdeg].
  pose proof (iv_nodup _ _ HI) as Hnd. rewrite Hq in Hnd.
  assert (idx ∉ done /\ idx ∉ rest) as [Hnidx Hnrest].
  { apply NoDup_app in Hnd as (_ & Hdis & [Hr _]%NoDup_cons). split; [|done].
    intros Hin. apply (Hdis idx Hin). apply list_elem_of_here. }
  destruct (lookup_lt_is_Some_2 (node_level s) idx) as [level Hlevel]; [rewrite (iv_level_len _ _ HI); lia|].
  assert (lvl s idx = level) as Hlvl by (unfold lvl; by rewrite Hlevel).
  (* the level of [idx] is the last one or the next one *)
  assert (level = length (levels s) \/ S level = length (levels s)) as Hcase.
  { rewrite Hq in Hq12. destruct q1 as [|x q1]; simpl in Hq12.
    - destruct q2 as [|x q2]; [done|]. injection Hq12 as <- _. apply Forall_cons in Hq2 as [? _]. left. lia.
    - injection Hq12 as <- _. apply Forall_cons in Hq1 as [? _]. right. lia. }
  assert (Hrow : opened level (levels s) !! level = Some (map file (filter (fun i => lvl s i = level) done))
    /\ length (opened level (levels s)) = S level).
  { unfold opened. destruct (Nat.eqb_spec (length (levels s)) level) as [He|He].
    - rewrite lookup_app_r by lia. replace (level - length (levels s)) with 0 by lia.
      rewrite filter_lvl_none by (rewrite <-He; apply (iv_done _ _ HI)). split; [done|].
      rewrite length_app. simpl. lia.
    - split; [apply (iv_levels _ _ HI); lia|lia]. }
  destruct Hrow as [Hrow Hlen].
  destruct (lookup_lt_is_Some_2 adj idx) as [ns Hns]; [lia|].
  assert (row idx = ns) as Hrowidx by (unfold row; by rewrite Hns).
  destruct (visit_spec level ns (in_degree s) (node_level s) []) as
    (d' & nl' & nz & Hf & Hd' & Hnl' & Hsub & Hnz & Hndz & Hlz & Hlo).
  { by eapply adj_range. }
  { apply (iv_degree_len _ _ HI). }
  { apply (iv_level_len _ _ HI). }
  { intros i v Hv. pose proof (lookup_lt_Some _ _ _ Hv) as Hi. rewrite (iv_degree_len _ _ HI) in Hi.
    rewrite (iv_degree _ _ HI i Hi) in Hv. injection Hv as <-.
    pose proof (deg_pop done idx i Hn Hnidx) as Hdp. rewrite Hrowidx in Hdp. lia. }
  simpl in Hf.
  set (nz' := if (1 <? length nz)%nat then sort_by (priority_le file_ids metas) nz else nz).
  assert (Hperm : nz' ≡ₚ nz) by (unfold nz'; case_if; [apply sort_by_perm|done]).
  set (s' := mkState d' nl' (rest ++ nz')
    (<[level := map file (filter (fun i => lvl s i = level) done) ++ [file idx]]> (opened level (levels s)))
    (popped s + 1)).
  exists s'. split.
  { unfold pop. rewrite Hlevel. simpl. fold (opened level (levels s)). rewrite Hrow. simpl.
    rewrite Hns. simpl. rewrite Hf. done. }
  (* the new in-degrees *)
  assert (Hdeg' : forall i, i < n -> d' !! i = Some (deg (done ++ [idx]) i)).
  { intros i Hi. rewrite (Hsub i _ (iv_degree _ _ HI i Hi)). f_equal.
    pose proof (deg_pop done idx i Hn Hnidx) as Hdp. rewrite Hrowidx in Hdp. lia. }
  assert (Hnzmem : forall i, i ∈ nz <-> i < n /\ deg (done ++ [idx]) i = 0 /\ deg done i <> 0).
  { intros i. rewrite Hnz. split.
    - intros [Hi Hz]. assert (i < n) as Hin by (eapply (row_range idx); by rewrite Hrowidx).
      rewrite (Hdeg' i Hin) in Hz. injection Hz as Hz. split_and!; [done|done|].
      pose proof (deg_pop done idx i Hn Hnidx) as Hdp. rewrite Hrowidx in Hdp.
      intros H0. assert (occ i ns = 0) as Ho by lia. by apply occ_zero in Ho.
    - intros (Hin & Hz & Hnzero). split; [|by rewrite (Hdeg' i Hin), Hz].
      pose proof (deg_pop done idx i Hn Hnidx) as Hdp. rewrite Hrowidx in Hdp.
      apply dec_stable. intros Hni%occ_zero. lia. }
  assert (Hold : forall i, i ∈ done ++ queue s -> i ∉ nz).
  { intros i Hi Hz. apply (iv_mem _ _ HI) in Hi as [_ H0]. apply Hnzmem in Hz as (_ & _ & ?). done. }
  assert (Hlvl_old : forall i, i ∈ done ++ queue s -> lvl s' i = lvl s i).
  { intros i Hi. unfold lvl, s'. simpl. by rewrite (Hlo i (Hold i Hi)). }
  assert (Hlvl_new : forall i, i ∈ nz -> lvl s' i = S level).
  { intros i Hi. unfold lvl, s'. simpl. rewrite (Hlz i Hi). simpl. lia. }
  assert (Hlen' : length (levels s') = S level) by (unfold s'; simpl; by rewrite length_insert).
  assert (Hin_rest : forall i, i ∈ rest -> i ∈ done ++ queue s).
  { intros i Hi. rewrite Hq. apply elem_of_app. right. by apply list_elem_of_further. }
  assert (Hin_done : forall i, i ∈ done -> i ∈ done ++ queue s).
  { intros i Hi. apply elem_of_app. by left. }
  assert (Hall : forall i, i ∈ (done ++ [idx]) ++ queue s' <-> i ∈ done ++ queue s \/ i ∈ nz).
  { intros i. unfold s'. simpl. rewrite Hq, !elem_of_app, Hperm, list_elem_of_singleton, elem_of_cons. tauto. }
  split.
  - unfold s'. simpl. replace ((done ++ [idx]) ++ rest ++ nz') with ((done ++ idx :: rest) ++ nz')
      by (by rewrite <-!app_assoc).
    apply NoDup_app. split_and!; [done| |by rewrite Hperm].
    intros i Hi. rewrite Hperm. apply Hold. by rewrite Hq.
  - intros i. rewrite Hall, Hnzmem. rewrite (iv_mem _ _ HI).
    pose proof (deg_pop done idx i Hn Hnidx) as Hdp. split; [intros [[? ?]|(? & ? & ?)]; split; lia|].
    intros [Hi Hz]. destruct (decide (deg done i = 0)); [left|right]; tauto.
  - exact Hd'.
  - exact Hdeg'.
  - exact Hnl'.
  - intros k Hk. rewrite Hlen' in Hk.
    change (levels s' !! k) with (<[level := map file (filter (fun i => lvl s i = level) done)
      ++ [file idx]]> (opened level (levels s)) !! k).
    rewrite filter_app, map_app.
    rewrite (filter_lvl_eq s s' k done) by (intros i Hi; by apply Hlvl_old, Hin_done).
    destruct (decide (level = k)) as [<-|Hne].
    + rewrite list_lookup_insert_eq by lia. rewrite filter_singleton_True; [done|exact []|].
      by rewrite (Hlvl_old idx Hidx).
    + rewrite list_lookup_insert_ne by done. rewrite filter_singleton_False; [|exact []|by rewrite (Hlvl_old idx Hidx), Hlvl].
      rewrite app_nil_r. unfold opened. case_if; [rewrite lookup_app_l by lia|]; apply (iv_levels _ _ HI); lia.
  - rewrite Hlen'. apply Forall_app. split.
    + apply Forall_forall. intros i Hi. rewrite (Hlvl_old i (Hin_done i Hi)).
      pose proof (iv_done _ _ HI) as Hd. rewrite Forall_forall in Hd. specialize (Hd i Hi). lia.
    + constructor; [|constructor]. rewrite (Hlvl_old idx Hidx), Hlvl. lia.
  - rewrite Hlen'. unfold s' at 1. cbn [queue].
    assert (Forall (fun i => lvl s' i = S level) nz') as Hnew.
    { apply Forall_forall. intros i Hi. rewrite Hperm in Hi. by apply Hlvl_new. }
    assert (forall l k, (forall i, i ∈ l -> i ∈ rest) -> Forall (fun i => lvl s i = k) l ->
              Forall (fun i => lvl s' i = k) l) as Hkeep.
    { intros l k Hl Hf'. rewrite Forall_forall in Hf' |- *. intros i Hi.
      rewrite (Hlvl_old i (Hin_rest i (Hl i Hi))). by apply Hf'. }
    rewrite Hq in Hq12. destruct q1 as [|x q1]; simpl in Hq12.
    + destruct q2 as [|x q2]; [done|]. injection Hq12 as <- ->. apply Forall_cons in Hq2 as [Hx Hq2].
      exists q2, nz'. split_and!; [done| |done].
      eapply Forall_impl; [apply (Hkeep q2 level); [done|]|simpl; lia].
      eapply Forall_impl; [exact Hq2|simpl; lia].
    + injection Hq12 as <- ->. apply Forall_cons in Hq1 as [Hx Hq1].
      exists q1, (q2 ++ nz'). split_and!; [by rewrite app_assoc| |].
      * eapply Forall_impl; [apply (Hkeep q1 level); [intros i Hi; apply elem_of_app; by left|]|simpl; lia].
        eapply Forall_impl; [exact Hq1|simpl; lia].
      * apply Forall_app. split; [|done].
        eapply Forall_impl; [apply (Hkeep q2 (S level)); [intros i Hi; apply elem_of_app; by right|]|simpl; lia].
        eapply Forall_impl; [exact Hq2|simpl; lia].
  - intros i j Hi Hj Hr. apply Hall in Hi as [Hi|Hi].
    + destruct (iv_order _ _ HI i j Hi Hj Hr) as [Hjd Hlt]. split; [apply elem_of_app; by left|].
      by rewrite (Hlvl_old i Hi), (Hlvl_old j (Hin_done j Hjd)).
    + apply Hnzmem in Hi as Hi'. destruct Hi' as (Hin & Hz & _).
      pose proof (proj1 (deg_zero _ _) Hz j Hj Hr) as Hjd. split; [done|].
      rewrite (Hlvl_new i Hi). apply elem_of_app in Hjd as [Hjd|Hjd].
      * rewrite (Hlvl_old j (Hin_done j Hjd)). pose proof (iv_done _ _ HI) as Hd.
        rewrite Forall_forall in Hd. specialize (Hd j Hjd). lia.
      * apply list_elem_of_singleton in Hjd as ->. rewrite (Hlvl_old idx Hidx). lia.
  - unfold s'. simpl. rewrite length_app, (iv_popped _ _ HI). done.
Qed.

Lemma inv_length done s : Inv done s -> length done + length (queue s) <= n.
Proof.
  intros HI. rewrite <-length_app.
  transitivity (length (seq 0 n)); [|by rewrite length_seq]. apply submseteq_length, NoDup_submseteq.
  - apply (iv_nodup _ _ HI).
  - intros i Hi. apply (iv_mem _ _ HI) in Hi as [Hi _]. apply elem_of_seq. lia.
Qed.

Lemma run_spec fuel : forall done s,
  Inv done s -> n <= fuel + length done ->
  exists s' done', run file_ids metas fuel adj s = Done s' /\ Inv done' s' /\ queue s' = [].
Proof.
  induction fuel as [|fuel IH]; intros done s HI Hf.
  - pose proof (inv_length _ _ HI) as Hl. exists s, done. simpl. destruct (queue s); [done|].
    simpl in Hl. lia.
  - simpl. destruct (queue s) as [|idx rest] eqn:Hq; [by exists s, done|].
    destruct (inv_step done s idx rest HI Hq) as (s' & Hp & HI'). rewrite Hp. simpl.
    apply (IH (done ++ [idx])); [done|]. rewrite length_app. simpl. lia.
Qed.

Lemma inv_start in_degree0 :
  length in_degree0 = n -> (forall i, i < n -> in_degree0 !! i = Some (deg [] i)) ->
  Inv [] (mkState in_degree0 (replicate n 0) (zero_in_degree file_ids metas in_degree0) [] 0).
Proof.
  intros Hl Hd.
  assert (Hperm : zero_in_degree file_ids metas in_degree0
                  ≡ₚ filter (fun i => in_degree0 !! i = Some 0) (seq 0 n)) by apply sort_by_perm.
  assert (Hmem : forall i, i ∈ zero_in_degree file_ids metas in_degree0 <-> i < n /\ deg [] i = 0).
  { intros i. rewrite Hperm, list_elem_of_filter, elem_of_seq. split.
    - intros [Hz Hi]. split; [lia|]. rewrite Hd in Hz by lia. congruence.
    - intros [Hi Hz]. split; [|lia]. by rewrite Hd, Hz by lia. }
  split; simpl.
  - rewrite Hperm. apply NoDup_filter, NoDup_seq.
  - exact Hmem.
  - exact Hl.
  - exact Hd.
  - apply length_replicate.
  - intros k Hk. lia.
  - constructor.
  - exists [], (zero_in_degree file_ids metas in_degree0). split_and!; [done|constructor|].
    apply Forall_forall. intros i Hi. apply Hmem in Hi as [Hi _]. unfold lvl. simpl.
    by rewrite lookup_replicate_2.
  - intros i j Hi Hj Hr. apply Hmem in Hi as [_ Hz].
    pose proof (proj1 (deg_zero _ _) Hz j Hj Hr) as Hin. by apply not_elem_of_nil in Hin.
  - done.
Qed.

(** The levels partition the files taken. *)
Lemma concat_filter_perm (f : nat -> nat) (ks l : list nat) :
  NoDup ks -> Forall (fun x => f x ∈ ks) l ->
  concat (map (fun k => filter (fun x => f x = k) l) ks) ≡ₚ l.
Proof.
  intros Hks Hl. induction Hl as [|x l Hx Hl IH].
  - clear. induction ks as [|k ks IH]; [done|]. exact IH.
  - transitivity (x :: concat (map (fun k => filter (fun x => f x = k) l) ks)); [|by rewrite IH].
    clear IH Hl. revert Hx. induction Hks as [|k ks Hk Hks IH]; [by intros ?%not_elem_of_nil|].
    simpl. rewrite filter_cons. intros Hx. case_decide as Hfx.
    + simpl. f_equiv. assert (map (fun k => filter (fun x => f x = k) (x :: l)) ks
        = map (fun k => filter (fun x => f x = k) l) ks) as ->; [|done].
      apply map_ext_in. intros k' Hk'. rewrite filter_cons_False; [done|].
      intros He. apply Hk. rewrite <-Hfx, He. by apply list_elem_of_In.
    + apply elem_of_cons in Hx as [?|Hx]; [congruence|]. rewrite IH by done. by rewrite Permutation_middle.
Qed.
End Run.

(** ** The result *)

Section Result.
Variable dependencies : gmap FileId (gset FileId).
Variable file_ids : list FileId.
Variable metas : gset FileId.
Local Abbreviation n := (length file_ids).
Local Abbreviation file := (file_at file_ids).
Local Abbreviation edge_ := (edge dependencies file_ids).

(** What the result consists of: the files that were taken, by their level, and
    the files that wait for each other. *)
Record result (done : list nat) (level : nat -> nat) (top : nat) : Prop := mkResult {
  rs_nodup : NoDup done;
  rs_range : forall i, i ∈ done -> i < n /\ level i < top;
  rs_order : forall i j, i ∈ done -> edge_ i j -> j ∈ done /\ level j < level i;
  rs_cycle : forall i, i < n -> i ∉ done -> exists j, edge_ i j /\ j ∉ done
}.

Definition result_levels (done : list nat) (level : nat -> nat) (top : nat) : list (list FileId) :=
  map (fun k => map file (filter (fun i => level i = k) done)) (seq 0 top)
  ++ map (fun i => [file i]) (filter (fun i => i ∉ done) (seq 0 n)).

Lemma edge_range i j : edge_ i j -> i < n /\ j < n.
Proof.
  intros [Hi (deps & _ & _ & Hj)]. split; [done|]. apply file_to_idx_sound in Hj.
  by eapply lookup_lt_Some.
Qed.

Lemma cycle_levels_eq (d : list nat) (g : nat -> nat) :
  length d = n -> (forall i, i < n -> d !! i = Some (g i)) ->
  cycle_levels file_ids d = map (fun i => [file i]) (filter (fun i => g i <> 0) (seq 0 n)).
Proof.
  intros Hl Hd. assert (d = map g (seq 0 n)) as ->.
  { apply list_eq. intros i. destruct (decide (i < n)) as [Hi|Hi].
    - rewrite Hd by done. rewrite list_lookup_fmap, lookup_seq_lt by done. done.
    - rewrite !lookup_ge_None_2; [done|rewrite length_map, length_seq; lia|lia]. }
  unfold cycle_levels.
  assert (forall m a, omap (fun p : nat * nat => if (0 <? p.2)%nat then Some [file p.1] else None)
            (imap (fun i x => (a + i, x)) (map g (seq a m)))
          = map (fun i => [file i]) (filter (fun i => g i <> 0) (seq a m))) as H.
  { induction m as [|m IH]; intros a; [done|]. cbn [seq map imap].
    rewrite (imap_ext _ (fun i x => (S a + i, x))) by (intros; simpl; f_equal; lia).
    specialize (IH (S a)). rewrite Nat.add_0_r, filter_cons.
    change (omap ?f (?p :: ?l)) with (match f p with Some y => y :: omap f l | None => omap f l end).
    rewrite IH. simpl. by destruct (g a) as [|v]. }
  exact (H n 0).
Qed.

Lemma levels_result :
  2 <= n ->
  exists done level top, result done level top
    /\ get_analysis_levels dependencies file_ids metas = Done (result_levels done level top).
Proof.
  intros Hn. unfold get_analysis_levels. rewrite (proj2 (Nat.ltb_ge _ _)) by done.
  pose proof (build_graph_ok dependencies file_ids) as HG.
  destruct (build_graph dependencies file_ids) as [d0 adj] eqn:Hg. destruct HG as [H1 H2 Hd He Hr]. simpl in *.
  assert (Hrow : forall i j, j < n -> i ∈ row adj j <-> edge_ i j).
  { intros i j Hj. unfold row. destruct (lookup_lt_is_Some_2 adj j) as [l Hl]; [lia|].
    rewrite Hl. simpl. by apply He. }
  assert (Hd0 : forall i, i < n -> d0 !! i = Some (deg file_ids adj [] i)).
  { intros i Hi. rewrite Hd by done. f_equal. unfold deg.
    assert (adj = map (row adj) (seq 0 n)) as Hadj.
    { apply list_eq. intros j. destruct (decide (j < n)) as [Hj|Hj].
      - rewrite list_lookup_fmap, lookup_seq_lt by done. simpl. unfold row.
        destruct (lookup_lt_is_Some_2 adj j) as [l ->]; [lia|done].
      - rewrite !lookup_ge_None_2; [done|rewrite length_map, length_seq; lia|lia]. }
    rewrite Hadj at 1. generalize (seq 0 n). induction l as [|x l IH]; [done|]. simpl. by rewrite IH. }
  destruct (run_spec file_ids metas adj H2 Hr n [] _ (inv_start file_ids metas adj H2 d0 H1 Hd0))
    as (s & done & Hrun & HI & Hq); [simpl; lia|].
  rewrite Hrun. cbn [mbind outcome_bind]. exists done, (lvl s), (length (levels s)).
  assert (Hmem : forall i, i ∈ done <-> i < n /\ deg file_ids adj done i = 0).
  { intros i. rewrite <-(iv_mem _ _ _ _ HI), Hq, app_nil_r. done. }
  split; [split|].
  - pose proof (iv_nodup _ _ _ _ HI) as Hnd. by rewrite Hq, app_nil_r in Hnd.
  - intros i Hi. split; [by apply Hmem|]. pose proof (iv_done _ _ _ _ HI) as Hdn.
    rewrite Forall_forall in Hdn. by apply Hdn.
  - intros i j Hi Hij. destruct (edge_range _ _ Hij) as [_ Hj].
    apply (iv_order _ _ _ _ HI); [rewrite Hq, app_nil_r; done|done|by apply Hrow].
  - intros i Hi Hni. destruct (decide (deg file_ids adj done i = 0)) as [Hz|Hz]; [by destruct Hni; apply Hmem|].
    rewrite deg_zero in Hz by exact H2.
    assert (Exists (fun j => i ∈ row adj j /\ j ∉ done) (seq 0 n)) as Hex.
    { apply dec_stable. intros Hno. apply Hz. intros j Hj Hin. apply dec_stable. intros Hjd. apply Hno.
      apply Exists_exists. exists j. split; [apply elem_of_seq; lia|done]. }
    apply Exists_exists in Hex as (j & Hj%elem_of_seq & Hin & Hjd). exists j. split; [|done].
    apply Hrow; [lia|done].
  - f_equal. unfold result_levels.
    assert (Hcyc : cycle_levels file_ids (in_degree s)
                   = map (fun i => [file i]) (filter (fun i => i ∉ done) (seq 0 n))).
    { rewrite (cycle_levels_eq _ (deg file_ids adj done)).
      - f_equal. apply filter_iff_in. intros i Hi%elem_of_seq. rewrite Hmem. split; [by intros ? [_ ?]|].
        intros Hno Hz. apply Hno. split; [lia|done].
      - apply (iv_degree_len _ _ _ _ HI).
      - apply (iv_degree _ _ _ _ HI). }
    assert (Hlev : levels s = map (fun k => map file (filter (fun i => lvl s i = k) done)) (seq 0 (length (levels s)))).
    { apply list_eq. intros k. destruct (decide (k < length (levels s))) as [Hk|Hk].
      - rewrite list_lookup_fmap, lookup_seq_lt by done. by apply (iv_levels _ _ _ _ HI).
      - rewrite !lookup_ge_None_2; [done|rewrite length_map, length_seq; lia|lia]. }
    rewrite <-Hlev, <-Hcyc. case_if; [done|].
    rewrite Hcyc. assert (filter (fun i => i ∉ done) (seq 0 n) = []) as ->; [|by rewrite app_nil_r].
    assert (done ≡ₚ seq 0 n) as Hperm.
    { apply submseteq_length_Permutation.
      - apply NoDup_submseteq.
        + pose proof (iv_nodup _ _ _ _ HI) as Hnd. by rewrite Hq, app_nil_r in Hnd.
        + intros i Hi. apply Hmem in Hi as [Hi _]. apply elem_of_seq. lia.
      - rewrite length_seq. rewrite (iv_popped _ _ _ _ HI) in Heqb. apply Nat.ltb_ge in Heqb. lia. }
    destruct (filter (fun i => i ∉ done) (seq 0 n)) as [|x l] eqn:Hfl; [done|].
    assert (x ∈ x :: l) as Hx by apply list_elem_of_here. rewrite <-Hfl in Hx.
    apply list_elem_of_filter in Hx as [Hx Hxs]. rewrite <-Hperm in Hxs. done.
Qed.

Lemma files_eq : map file (seq 0 n) = file_ids.
Proof.
  apply list_eq. intros i. rewrite list_lookup_fmap. destruct (decide (i < n)) as [Hi|Hi].
  - rewrite lookup_seq_lt by done. simpl. destruct (lookup_lt_is_Some_2 file_ids i Hi) as [f Hf].
    rewrite Hf. f_equal. by apply file_at_lookup.
  - rewrite !lookup_ge_None_2; [done|lia|rewrite length_seq; lia].
Qed.

Lemma result_complete done level top :
  result done level top -> concat (result_levels done level top) ≡ₚ file_ids.
Proof.
  intros [Hnd Hr _ _]. unfold result_levels. rewrite concat_app.
  replace (concat (map (fun k => map file (filter (fun i => level i = k) done)) (seq 0 top)))
    with (map file (concat (map (fun k => filter (fun i => level i = k) done) (seq 0 top))))
    by (rewrite concat_map, map_map; done).
  rewrite (concat_filter_perm level (seq 0 top) done); [|apply NoDup_seq|].
  2: { apply Forall_forall. intros i Hi. apply elem_of_seq. destruct (Hr i Hi). lia. }
  replace (concat (map (fun i => [file i]) (filter (fun i => i ∉ done) (seq 0 n))))
    with (map file (filter (fun i => i ∉ done) (seq 0 n))).
  2: { generalize (filter (fun i => i ∉ done) (seq 0 n)). induction l as [|x l IH]; [done|]. simpl. by f_equal. }
  rewrite <-map_app. transitivity (map file (seq 0 n)); [|by rewrite files_eq].
  apply Permutation_map, NoDup_Permutation.
  - apply NoDup_app. split_and!; [done| |apply NoDup_filter, NoDup_seq].
    intros i Hi [Hni _]%list_elem_of_filter. done.
  - apply NoDup_seq.
  - intros i. rewrite elem_of_app, list_elem_of_filter, elem_of_seq. split.
    + intros [Hi|[_ Hi]]; [destruct (Hr i Hi); lia|lia].
    + intros Hi. destruct (decide (i ∈ done)); [by left|]. right. split; [done|lia].
Qed.

(** The place of a file in the levels. *)
Lemma result_levels_lookup done level top k l a :
  result_levels done level top !! k = Some l -> a ∈ l ->
  exists i, file i = a /\ ((i ∈ done /\ level i = k /\ k < top)
                         \/ (i < n /\ i ∉ done /\ l = [a] /\ top <= k)).
Proof.
  unfold result_levels. intros Hk Ha. destruct (decide (k < top)) as [Ht|Ht].
  - rewrite lookup_app_l in Hk by (by rewrite length_map, length_seq).
    rewrite list_lookup_fmap, lookup_seq_lt in Hk by done. injection Hk as <-.
    apply list_elem_of_fmap in Ha as (i & -> & [Hl Hi]%list_elem_of_filter).
    exists i. split; [done|]. left. by simpl in Hl.
  - rewrite lookup_app_r in Hk by (rewrite length_map, length_seq; lia).
    apply list_lookup_fmap_Some in Hk as (i & -> & Hi). apply list_elem_of_singleton in Ha as ->.
    apply list_elem_of_lookup_2, list_elem_of_filter in Hi as [Hni Hi%elem_of_seq].
    exists i. split; [done|]. right. split_and!; [lia|done|done|lia].
Qed.

Lemma edge_of_files i j a b :
  NoDup file_ids -> file_ids !! i = Some a -> file_ids !! j = Some b ->
  (exists deps, dependencies !! a = Some deps /\ b ∈ deps) -> edge_ i j.
Proof.
  intros Hnd Hi Hj (deps & Hd & Hb). split; [by eapply lookup_lt_Some|]. exists deps.
  rewrite (file_at_lookup _ _ _ Hi), (file_at_lookup _ _ _ Hj). split_and!; [done|done|].
  by apply file_to_idx_complete.
Qed.

Lemma edge_files i j : edge_ i j ->
  file i ∈ file_ids /\ file j ∈ file_ids
  /\ exists deps, dependencies !! file i = Some deps /\ file j ∈ deps.
Proof.
  intros He. pose proof (edge_range _ _ He) as [Hi Hj]. destruct He as [_ (deps & Hd & Hin & _)].
  assert (forall k, k < n -> file k ∈ file_ids) as Hf.
  { intros k Hk. destruct (lookup_lt_is_Some_2 file_ids k Hk) as [f Hkf].
    rewrite (file_at_lookup _ _ _ Hkf). by eapply list_elem_of_lookup_2. }
  split_and!; [by apply Hf|by apply Hf|by exists deps].
Qed.
End Result.

(** ** The theorems *)

(** [a] depends on [b]. *)
Definition depends_on (dependencies : gmap FileId (gset FileId)) (a b : FileId) : Prop :=
  exists deps, dependencies !! a = Some deps /\ b ∈ deps.

Lemma short_levels dependencies file_ids metas :
  length file_ids < 2 ->
  get_analysis_levels dependencies file_ids metas = Done (map (fun f => [f]) file_ids).
Proof. intros Hn. unfold get_analysis_levels. by rewrite (proj2 (Nat.ltb_lt _ _)). Qed.

(** C26: the levels are computed without a panic and with enough fuel for every set of
    dependencies, cyclic or not, and they hold every file of the batch exactly as
    often as the batch does. *)
Theorem analysis_levels_complete dependencies file_ids metas :
  exists levels, get_analysis_levels dependencies file_ids metas = Done levels
    /\ get_best_analysis_order dependencies file_ids metas = Done (concat levels)
    /\ concat levels ≡ₚ file_ids.
Proof.
  unfold get_best_analysis_order. destruct (decide (length file_ids < 2)) as [Hn|Hn].
  - eexists. rewrite short_levels by done. split_and!; [done|done|].
    clear. induction file_ids as [|x l IH]; [done|]. simpl. by rewrite IH.
  - destruct (levels_result dependencies file_ids metas ltac:(lia)) as (done & level & top & HR & ->).
    eexists. split_and!; [done|done|]. by eapply result_complete.
Qed.

(** A file is never in one level with another file it depends on, so that the
    files of a level may be analysed at the same time. *)
Theorem analysis_levels_independent dependencies file_ids metas levels k l a b :
  NoDup file_ids -> get_analysis_levels dependencies file_ids metas = Done levels ->
  levels !! k = Some l -> a ∈ l -> b ∈ l -> depends_on dependencies a b -> a = b.
Proof.
  intros Hnd Hlev Hk Ha Hb Hdep. destruct (decide (length file_ids < 2)) as [Hn|Hn].
  - rewrite short_levels in Hlev by done. injection Hlev as <-.
    apply list_lookup_fmap_Some in Hk as (x & -> & _).
    apply list_elem_of_singleton in Ha as ->. by apply list_elem_of_singleton in Hb as ->.
  - destruct (levels_result dependencies file_ids metas ltac:(lia)) as (done & level & top & HR & Heq).
    rewrite Hlev in Heq. injection Heq as ->.
    destruct (result_levels_lookup _ _ _ _ _ _ _ Hk Ha) as (i & Hi & [(Hid & Hli & Hkt)|(_ & _ & -> & _)]);
      [|by apply list_elem_of_singleton in Hb as ->].
    destruct (result_levels_lookup _ _ _ _ _ _ _ Hk Hb) as (j & Hj & [(Hjd & Hlj & _)|(_ & _ & _ & ?)]); [|lia].
    exfalso. destruct (rs_range _ _ _ _ _ HR i Hid) as [Hin _]. destruct (rs_range _ _ _ _ _ HR j Hjd) as [Hjn _].
    destruct (lookup_lt_is_Some_2 file_ids i Hin) as [fa Hfa], (lookup_lt_is_Some_2 file_ids j Hjn) as [fb Hfb].
    rewrite (file_at_lookup _ _ _ Hfa) in Hi. rewrite (file_at_lookup _ _ _ Hfb) in Hj. subst fa fb.
    destruct (rs_order _ _ _ _ _ HR i j Hid) as [_ Hlt]; [|lia].
    by eapply edge_of_files.
Qed.

(** ** Cycles *)

(** [a] depends on [b], and both are files of the batch. *)
Definition batch_dep (dependencies : gmap FileId (gset FileId)) (file_ids : list FileId) (a b : FileId) : Prop :=
  a ∈ file_ids /\ b ∈ file_ids /\ depends_on dependencies a b.

(** [a] is on a cycle of the batch, or depends, step by step, on a file that is. *)
Definition waits_on_cycle (dependencies : gmap FileId (gset FileId)) (file_ids : list FileId) (a : FileId) : Prop :=
  exists c, rtc (batch_dep dependencies file_ids) a c /\ tc (batch_dep dependencies file_ids) c c.

(** Where every element of a finite set that satisfies [P] has a successor that does,
    each of them reaches a cycle. *)
Lemma successors_cycle {A} `{EqDecision A} (R : A -> A -> Prop) (P : A -> Prop) (all : list A) :
  (forall a, P a -> a ∈ all /\ exists b, R a b /\ P b) ->
  forall a, P a -> exists c, rtc R a c /\ tc R c c.
Proof.
  intros Hnext. assert (H : forall m seen a, length all < m + length seen -> NoDup seen -> (forall b, b ∈ seen -> b ∈ all /\ tc R b a) ->
    P a -> exists c, rtc R a c /\ tc R c c).
  { induction m as [|m IH]; intros seen a Hm Hnd Hseen Ha.
    - exfalso. assert (Hle : length seen <= length all) by (apply submseteq_length, NoDup_submseteq; [done|]; intros b Hb; by apply Hseen). lia.
    - destruct (decide (a ∈ seen)) as [Hin|Hin]; [exists a; split; [done|by apply Hseen]|].
      destruct (Hnext a Ha) as (Hall & b & Hab & Hb). destruct (IH (a :: seen) b) as (c & H1 & H2).
      + cbn. lia.
      + by constructor.
      + intros x [->|Hx]%elem_of_cons; [split; [done|by apply tc_once]|]. destruct (Hseen x Hx) as [H1 H2]. split; [done|]. by eapply tc_r.
      + done.
      + exists c. split; [by eapply rtc_l|done]. }
  intros a Ha. apply (H (S (length all)) [] a); [cbn; lia|constructor| |done]. by intros b ?%elem_of_nil.
Qed.

Section Cycles.
Context (dependencies : gmap FileId (gset FileId)) (file_ids : list FileId) (done : list nat) (level : nat -> nat) (top : nat).
Hypotheses (Hnd : NoDup file_ids) (HR : result dependencies file_ids done level top).
Local Abbreviation waits := (waits_on_cycle dependencies file_ids).

Lemma batch_dep_edge a b : batch_dep dependencies file_ids a b ->
  exists i j, file_ids !! i = Some a /\ file_ids !! j = Some b /\ edge dependencies file_ids i j.
Proof.
  intros (Ha & Hb & Hd). apply list_elem_of_lookup in Ha as [i Hi], Hb as [j Hj]. exists i, j. split_and!; [done..|]. by eapply edge_of_files.
Qed.

(** What depends on a file that was taken is at a lower level and was taken. *)
Lemma taken_below i a b : file_ids !! i = Some a -> i ∈ done -> tc (batch_dep dependencies file_ids) a b ->
  exists j, file_ids !! j = Some b /\ j ∈ done /\ level j < level i.
Proof.
  intros Hi Hid Hab. revert i Hi Hid. induction Hab as [a b Hab|a c b Hac Hcb IH]; intros i Hi Hid.
  - apply batch_dep_edge in Hab as (i' & j & Hi' & Hj & He). assert (i' = i) as -> by (by eapply NoDup_lookup). exists j.
    split; [done|]. by apply (rs_order _ _ _ _ _ HR).
  - apply batch_dep_edge in Hac as (i' & k & Hi' & Hk & He). assert (i' = i) as -> by (by eapply NoDup_lookup).
    destruct (rs_order _ _ _ _ _ HR i k Hid He) as [Hkd Hlt]. destruct (IH k Hk Hkd) as (j & H1 & H2 & H3). exists j. split_and!; [done|done|lia].
Qed.

Lemma taken_waits_not i a : file_ids !! i = Some a -> i ∈ done -> ~ waits a.
Proof.
  intros Hi Hid (c & Hac & Hcc).
  assert (Hc : exists k, file_ids !! k = Some c /\ k ∈ done).
  { apply rtc_tc in Hac as [->|Hac]; [by exists i|]. destruct (taken_below i a c Hi Hid Hac) as (k & H1 & H2 & _). by exists k. }
  destruct Hc as (k & Hk & Hkd). destruct (taken_below k c c Hk Hkd Hcc) as (k' & Hk' & _ & Hlt).
  assert (k' = k) as -> by (by eapply NoDup_lookup). lia.
Qed.

Lemma left_waits i a : file_ids !! i = Some a -> i ∉ done -> waits a.
Proof.
  intros Hi Hni. apply (successors_cycle _ (fun a => exists i, file_ids !! i = Some a /\ i ∉ done) file_ids); [|by exists i].
  intros b (j & Hj & Hnj). split; [by eapply list_elem_of_lookup_2|].
  destruct (rs_cycle _ _ _ _ _ HR j) as (k & He & Hnk); [by eapply lookup_lt_Some|done|].
  assert (Hkn := proj2 (edge_range _ _ _ _ He)). destruct (lookup_lt_is_Some_2 file_ids k Hkn) as [c Hc].
  exists c. split; [|by exists k]. destruct (edge_files _ _ _ _ He) as (H1 & H2 & H3).
  rewrite (file_at_lookup _ _ _ Hj) in H1, H3. rewrite (file_at_lookup _ _ _ Hc) in H2, H3. by split_and!.
Qed.
End Cycles.

Lemma singles_lookup (file_ids : list FileId) k l a : map (fun f => [f]) file_ids !! k = Some l -> a ∈ l -> l = [a] /\ file_ids !! k = Some a.
Proof. intros Hk Ha. apply list_lookup_fmap_Some in Hk as (x & -> & Hx). by apply list_elem_of_singleton in Ha as ->. Qed.

(** C27: for any dependencies, also with cycles, a file that is on no cycle of the
    batch and depends on none, not even through others, comes in a later level than
    every file of the batch that it depends on; and a file that does is in a level of
    its own, after every file that does not. *)
Theorem analysis_levels_ordered dependencies file_ids metas levels k l a :
  NoDup file_ids -> get_analysis_levels dependencies file_ids metas = Done levels -> levels !! k = Some l -> a ∈ l ->
  (~ waits_on_cycle dependencies file_ids a ->
     forall b, b ∈ file_ids -> depends_on dependencies a b -> exists k' l', k' < k /\ levels !! k' = Some l' /\ b ∈ l')
  /\ (waits_on_cycle dependencies file_ids a ->
     l = [a] /\ forall k' l' b, levels !! k' = Some l' -> b ∈ l' -> ~ waits_on_cycle dependencies file_ids b -> k' < k).
Proof.
  intros Hnd Hlev Hk Ha. destruct (decide (length file_ids < 2)) as [Hn|Hn].
  - rewrite short_levels in Hlev by done. injection Hlev as <-. destruct (singles_lookup _ _ _ _ Hk Ha) as [-> Hka].
    assert (Hone : forall k' b, file_ids !! k' = Some b -> k' = k /\ b = a).
    { intros k' b Hb. assert (H1 := lookup_lt_Some _ _ _ Hka). assert (H2 := lookup_lt_Some _ _ _ Hb). assert (k' = k) as -> by lia. split; [done|congruence]. }
    split.
    + intros Hno b Hb Hdep. exfalso. apply Hno. exists a. split; [done|]. apply tc_once.
      apply list_elem_of_lookup in Hb as [j Hj]. destruct (Hone j b Hj) as [-> ->]. assert (Hin := list_elem_of_lookup_2 _ _ _ Hka). by split_and!.
    + intros Hw. split; [done|]. intros k' l' b Hk' Hb Hno. destruct (singles_lookup _ _ _ _ Hk' Hb) as [_ Hkb].
      destruct (Hone k' b Hkb) as [-> ->]. done.
  - destruct (levels_result dependencies file_ids metas ltac:(lia)) as (done & level & top & HR & Heq).
    rewrite Hlev in Heq. injection Heq as ->.
    assert (Hfile : forall i, i < length file_ids -> file_ids !! i = Some (file_at file_ids i)).
    { intros i Hi. destruct (lookup_lt_is_Some_2 file_ids i Hi) as [f Hf]. by rewrite (file_at_lookup _ _ _ Hf). }
    destruct (result_levels_lookup _ _ _ _ _ _ _ Hk Ha) as (i & <- & [(Hid & Hli & Hkt)|(Hin & Hni & -> & Htop)]).
    + destruct (rs_range _ _ _ _ _ HR i Hid) as [Hin Hlt]. assert (Hi := Hfile i Hin). split.
      * intros _ b Hb Hdep. apply list_elem_of_lookup in Hb as [j Hj].
        destruct (rs_order _ _ _ _ _ HR i j Hid) as [Hjd Hlj]; [by eapply edge_of_files|].
        exists (level j). eexists. split_and!; [lia| |].
        -- unfold result_levels. rewrite lookup_app_l by (rewrite length_map, length_seq; lia).
           rewrite list_lookup_fmap, lookup_seq_lt by lia. done.
        -- apply list_elem_of_fmap. exists j. split; [by rewrite (file_at_lookup _ _ _ Hj)|].
           apply list_elem_of_filter. split; [simpl; lia|done].
      * intros Hw. by destruct (taken_waits_not dependencies file_ids done level top Hnd HR i _ Hi Hid).
    + assert (Hw := left_waits dependencies file_ids done level top HR i _ (Hfile i Hin) Hni). split; [done|]. intros _. split; [done|].
      intros k' l' b Hk' Hb Hno. destruct (result_levels_lookup _ _ _ _ _ _ _ Hk' Hb) as (j & <- & [(_ & _ & Hkt)|(Hjn & Hnj & _)]); [lia|].
      destruct Hno. by apply (left_waits dependencies file_ids done level top HR j _ (Hfile j Hjn) Hnj).
Qed.

(** One file that loads another, which comes later in the batch. *)
Definition sample_dependencies : gmap FileId (gset FileId) := {[ 1%N := {[ 2%N ]} ]}.

Lemma sample_depends a b : depends_on sample_dependencies a b -> a = 1%N /\ b = 2%N.
Proof.
  intros (deps & Hd & Hb). unfold sample_dependencies in Hd.
  apply lookup_singleton_Some in Hd as [<- <-]. split; [done|].
  by apply elem_of_singleton in Hb.
Qed.

Lemma sample_nodup : NoDup ([1; 2; 3] : list FileId)%N.
Proof. repeat constructor; set_solver. Qed.

Lemma analysis_levels_independent_witness :
  get_analysis_levels sample_dependencies [1; 2; 3]%N ∅ = Done [[2; 3]; [1]]%N
  /\ (depends_on sample_dependencies 2%N 3%N -> 2%N = 3%N :> FileId).
Proof.
  assert (get_analysis_levels sample_dependencies [1; 2; 3]%N ∅ = Done [[2; 3]; [1]]%N) as H
    by (vm_compute; reflexivity).
  split; [exact H|].
  apply (analysis_levels_independent sample_dependencies [1; 2; 3]%N ∅ [[2; 3]; [1]]%N 0 [2; 3]%N);
    [exact sample_nodup|exact H|reflexivity|set_solver|set_solver].
Defined.

(** A cycle of 4 and 5, on which 6 waits, beside 1, which loads 2. *)
Definition cyclic_dependencies : gmap FileId (gset FileId) :=
  {[ 1%N := {[ 2%N ]}; 4%N := {[ 5%N ]}; 5%N := {[ 4%N; 2%N ]}; 6%N := {[ 5%N ]} ]}.

Lemma cyclic_first a b : batch_dep cyclic_dependencies [1; 2; 4; 5; 6]%N a b -> a <> 2%N /\ (a = 1%N -> b = 2%N).
Proof.
  intros (_ & _ & deps & Hd & Hb). unfold cyclic_dependencies in Hd. split.
  - intros ->. vm_compute in Hd. discriminate.
  - intros ->. vm_compute in Hd. injection Hd as <-. revert Hb. change (b ∈ ({[2%N]} : gset FileId) -> b = 2%N). set_solver.
Qed.

Lemma analysis_levels_ordered_witness :
  get_analysis_levels cyclic_dependencies [1; 2; 4; 5; 6]%N ∅ = Done [[2]; [1]; [4]; [5]; [6]]%N
  /\ (exists k' l', k' < 1 /\ [[2]; [1]; [4]; [5]; [6]]%N !! k' = Some l' /\ (2%N : FileId) ∈ l')
  /\ waits_on_cycle cyclic_dependencies [1; 2; 4; 5; 6]%N 6%N.
Proof.
  assert (Hlev : get_analysis_levels cyclic_dependencies [1; 2; 4; 5; 6]%N ∅ = Done [[2]; [1]; [4]; [5]; [6]]%N) by (vm_compute; reflexivity).
  split; [exact Hlev|]. split.
  - assert (Hnd : NoDup ([1; 2; 4; 5; 6] : list FileId)%N) by (repeat constructor; set_solver).
    apply (proj1 (analysis_levels_ordered cyclic_dependencies [1; 2; 4; 5; 6]%N ∅ [[2]; [1]; [4]; [5]; [6]]%N 1 [1%N] 1%N Hnd Hlev eq_refl ltac:(set_solver))).
    + assert (H2 : forall c, ~ tc (batch_dep cyclic_dependencies [1; 2; 4; 5; 6]%N) 2%N c).
      { intros c Hc. inversion Hc as [? ? H|? ? ? H]; subst; by apply cyclic_first in H as [[] _]. }
      assert (H1 : forall c, tc (batch_dep cyclic_dependencies [1; 2; 4; 5; 6]%N) 1%N c -> c = 2%N).
      { intros c Hc. inversion Hc as [? ? H|? x ? H Hx]; subst; apply cyclic_first in H as [_ H]; [by apply H|]. rewrite (H eq_refl) in Hx. by apply H2 in Hx. }
      intros (c & Hac & Hcc). apply rtc_tc in Hac as [<-|Hac]; [assert (Hx := H1 _ Hcc); discriminate|]. apply H1 in Hac as ->. by apply H2 in Hcc.
    + set_solver.
    + exists {[ 2%N ]}. split; [reflexivity|set_solver].
  - assert (Hd : forall a b deps, a ∈ ([1; 2; 4; 5; 6] : list FileId)%N -> b ∈ ([1; 2; 4; 5; 6] : list FileId)%N ->
      cyclic_dependencies !! a = Some deps -> b ∈ deps -> batch_dep cyclic_dependencies [1; 2; 4; 5; 6]%N a b).
    { intros a b deps Ha Hb Hl Hin. split; [exact Ha|]. split; [exact Hb|]. by exists deps. }
    exists 5%N. split.
    + apply rtc_once. apply (Hd _ _ {[5%N]}); [set_solver|set_solver|reflexivity|set_solver].
    + eapply tc_l; [apply (Hd _ 4%N {[4%N; 2%N]}); [set_solver|set_solver|reflexivity|set_solver]|].
      apply tc_once. apply (Hd _ _ {[5%N]}); [set_solver|set_solver|reflexivity|set_solver].
Defined.

(** ** The dependents *)

Section Dependents.
Variable dependencies : gmap FileId (gset FileId).
Local Abbreviation depends := (depends_on dependencies).

Definition dependents_of (m : gmap FileId (list FileId)) (f : FileId) : list FileId := default [] (m !! f).

Lemma reverse_map_spec d f : d ∈ dependents_of (reverse_map dependencies) f <-> depends d f.
Proof.
  unfold reverse_map.
  assert (Hinner : forall fid l m d f,
    d ∈ dependents_of (foldl (fun m dep => <[dep := default [] (m !! dep) ++ [fid]]> m) m l) f
    <-> d ∈ dependents_of m f \/ (d = fid /\ f ∈ l)).
  { intros fid. induction l as [|x l IH]; intros m d' f'; simpl.
    - split; [by left|]. intros [?|[_ ?%not_elem_of_nil]]; done.
    - rewrite IH. unfold dependents_of at 1. rewrite elem_of_cons.
      destruct (decide (x = f')) as [->|Hne].
      + rewrite lookup_insert_eq. simpl. rewrite elem_of_app, list_elem_of_singleton. unfold dependents_of.
        split; [intros [[?| ->]|[-> ?]]; [by left|right; split; [done|by left]|right; split; [done|by right]]|].
        intros [?|[-> _]]; [by left; left|by left; right].
      + rewrite lookup_insert_ne by done. fold (dependents_of m f').
        split; [intros [?|[-> ?]]; [by left|right; split; [done|by right]]|].
        intros [?|[-> [->|?]]]; [by left|done|by right]. }
  assert (Houter : forall l m d f,
    d ∈ dependents_of (foldl (fun m (p : FileId * gset FileId) =>
          foldl (fun m dep => <[dep := default [] (m !! dep) ++ [p.1]]> m) m (elements p.2)) m l) f
    <-> d ∈ dependents_of m f \/ exists deps, (d, deps) ∈ l /\ f ∈ deps).
  { induction l as [|[x deps] l IH]; intros m d' f'; simpl.
    - split; [by left|]. intros [?|(deps & ?%not_elem_of_nil & _)]; done.
    - rewrite IH, Hinner, elem_of_elements. split.
      + intros [[?|[-> ?]]|(deps' & ? & ?)]; [by left|right; exists deps; split; [by apply list_elem_of_here|done]|].
        right. exists deps'. split; [by apply list_elem_of_further|done].
      + intros [?|(deps' & [[= -> ->]|?]%elem_of_cons & ?)]; [by left; left|by left; right|].
        right. by exists deps'. }
  rewrite Houter. unfold dependents_of. rewrite lookup_empty. simpl. split.
  - intros [?%not_elem_of_nil|(deps & Hin & Hf)]; [done|]. exists deps.
    by rewrite elem_of_map_to_list in Hin.
  - intros (deps & Hd & Hf). right. exists deps. by rewrite elem_of_map_to_list.
Qed.

Lemma add_dependents_spec ds S q :
  (add_dependents ds (S, q)).1 = list_to_set ds ∪ S
  /\ exists new, (add_dependents ds (S, q)).2 = q ++ new /\ NoDup new
     /\ forall d, d ∈ new <-> d ∈ ds /\ d ∉ S.
Proof.
  unfold add_dependents. revert S q. induction ds as [|d ds IH]; intros S q; simpl.
  - split; [set_solver|]. exists []. split_and!; [by rewrite app_nil_r|constructor|set_solver].
  - case_bool_decide as Hd.
    + destruct (IH S q) as [H1 (new & H2 & H3 & H4)]. split; [rewrite H1; set_solver|].
      exists new. split_and!; [done|done|]. intros d'. rewrite H4, elem_of_cons. split; [tauto|].
      intros [[->|?] ?]; [done|tauto].
    + destruct (IH ({[d]} ∪ S) (q ++ [d])) as [H1 (new & H2 & H3 & H4)]. split; [rewrite H1; set_solver|].
      exists (d :: new). split_and!; [by rewrite H2, <-app_assoc| |].
      * apply NoDup_cons. split; [|done]. rewrite H4. set_solver.
      * intros d'. rewrite !elem_of_cons, H4. destruct (decide (d' = d)) as [->|Hne]; [tauto|set_solver].
Qed.

Lemma collect_loop_spec (files : list FileId) fuel : forall S q,
  length q + size (dom dependencies ∖ S) <= fuel ->
  (forall d, d ∈ S -> exists f, f ∈ files /\ tc depends d f) ->
  (forall f, f ∈ q -> f ∈ files \/ f ∈ S) ->
  (forall f, f ∈ files \/ f ∈ S -> f ∈ q \/ forall d, depends d f -> d ∈ S) ->
  exists R, collect_loop dependencies fuel (S, q) = Done R
    /\ forall d, d ∈ R <-> exists f, f ∈ files /\ tc depends d f.
Proof.
  induction fuel as [|fuel IH]; intros S [|f q] Hfuel HS Hq Hcl; simpl in *; try lia.
  1, 2: exists S; split; [done|]; intros d; split; [apply HS|];
    intros (f & Hf & Hp); induction Hp as [d f Hd|d y f Hd Hp IHp];
    [destruct (Hcl f (or_introl Hf)) as [?%not_elem_of_nil|H]; [done|by apply H]
    |destruct (Hcl y (or_intror (IHp Hf))) as [?%not_elem_of_nil|H]; [done|by apply H]].
  assert (exists ds, (match reverse_map dependencies !! f with
                      | Some dependents => add_dependents dependents (S, q)
                      | None => (S, q)
                      end) = add_dependents ds (S, q)
                     /\ forall d, d ∈ ds <-> depends d f) as (ds & -> & Hds).
  { exists (dependents_of (reverse_map dependencies) f). split; [|intros d; apply reverse_map_spec].
    unfold dependents_of. by destruct (reverse_map dependencies !! f). }
  destruct (add_dependents_spec ds S q) as [H1 (new & H2 & Hnd & Hnew)].
  destruct (add_dependents ds (S, q)) as [S' q']. simpl in H1, H2. subst S' q'.
  assert (Hdom : forall d, d ∈ ds -> d ∈ dom dependencies).
  { intros d Hd%Hds. destruct Hd as (deps & Hd & _). by apply elem_of_dom_2 in Hd. }
  apply IH.
  - rewrite length_app.
    assert (size (dom dependencies ∖ S) = length new + size (dom dependencies ∖ (list_to_set ds ∪ S))) as Hs; [|lia].
    replace (dom dependencies ∖ S) with (list_to_set new ∪ (dom dependencies ∖ (list_to_set ds ∪ S)) : gset FileId).
    + rewrite size_union by set_solver. rewrite size_list_to_set by done. done.
    + apply set_eq. intros d. rewrite elem_of_union, elem_of_list_to_set, !elem_of_difference, elem_of_union, elem_of_list_to_set, Hnew.
      specialize (Hdom d). destruct (decide (d ∈ ds)); tauto.
  - intros d. rewrite elem_of_union, elem_of_list_to_set. intros [Hd%Hds|Hd]; [|by apply HS].
    destruct (Hq f) as [Hf|Hf]; [apply list_elem_of_here|exists f; split; [done|by apply tc_once]|].
    destruct (HS f Hf) as (g & Hg & Hp). exists g. split; [done|]. by eapply tc_l.
  - intros g. rewrite elem_of_app, Hnew, elem_of_union, elem_of_list_to_set. intros [Hg|[Hg _]]; [|tauto].
    destruct (Hq g) as [?|?]; [by apply list_elem_of_further|tauto|tauto].
  - intros g. rewrite elem_of_app, Hnew. setoid_rewrite elem_of_union. setoid_rewrite elem_of_list_to_set. intros Hg.
    destruct (decide (g ∈ S \/ g ∈ files)) as [Hold|Hnold].
    + destruct (Hcl g) as [[->|Hin]%elem_of_cons|H]; [tauto| | |].
      * right. intros d Hd. left. by apply Hds.
      * by left; left.
      * right. intros d Hd. right. by apply H.
    + left. right. tauto.
Qed.
End Dependents.

(** C28: the search for dependents returns, and finds exactly the files that reach one
    of the given files over one or more dependencies. *)
Theorem collect_file_dependents_spec dependencies file_ids :
  exists R, collect_file_dependents dependencies file_ids = Done R
    /\ forall d, d ∈ R <-> exists f, f ∈ file_ids /\ tc (depends_on dependencies) d f.
Proof.
  apply collect_loop_spec.
  - rewrite <-size_dom. replace (dom dependencies ∖ ∅) with (dom dependencies) by set_solver. lia.
  - set_solver.
  - intros f Hf. by left.
  - intros f [Hf|Hf]; [by left|set_solver].
Qed.
