(* ===== verification/Dependency.v ===== *)
(** * The index of file dependencies

    [src/crates/glua_code_analysis/src/db_index/dependency/mod.rs]: which file
    loads which, by which call, and the reverse indexes that make the removal
    and the return of a file cheap.

    A [CowShards] is the map that it refines ([CopyOnWriteSpec]), a hash set a
    [gset].  [derivation::note_write] tells the evaluation that is recorded
    which facts were written: what it is told is kept in [noted].  The recorded
    reads ([note_read]) do not change the index and are left out. *)

From S2P Require Import Prelude Text FileOrder.
From stdpp Require Import list gmap sorting.
Local Open Scope prog_scope.

(** ** Maps of collections *)

(** [map.entry(k).or_default()] and a change of the value. *)
Definition entry_or_default {K V} `{Countable K} (k : K) (d : V) (f : V -> V) (m : gmap K V) : gmap K V :=
  partial_alter (fun o => Some (f (from_option id d o))) k m.

(** [map.get_mut(k)] with a change of the value, which is removed when it is
    empty then. *)
Definition change_or_remove {K V} `{Countable K} (k : K) (is_empty : V -> bool) (f : V -> V) (m : gmap K V)
    : gmap K V :=
  match m !! k with
  | Some v => if is_empty (f v) then delete k m else <[k := f v]> m
  | None => m
  end.

Definition set_empty {A} `{Countable A} (s : gset A) : bool := bool_decide (s = ∅).
Definition list_empty {A} (l : list A) : bool := match l with [] => true | _ => false end.

(** [Vec::swap_remove]. *)
Definition swap_remove {A} (at_ : nat) (l : list A) : list A :=
  match last l with
  | Some x => take (length l - 1) (<[at_ := x]> l)
  | None => l
  end.

(** [Iterator::position]. *)
Fixpoint position {A} (p : A -> bool) (l : list A) : option nat :=
  match l with
  | [] => None
  | x :: l' => if p x then Some 0 else S <$> position p l'
  end.

#[global] Instance rstring_countable : Countable rstring := _ : Countable (list N).

(** ** Load sites *)

Inductive LuaDependencyKind : Type :=
  | Require
  | Include
  | CompileFile
  | AddCSLuaFile
  | IncludeCS.

#[global] Instance kind_eq_dec : EqDecision LuaDependencyKind.
Proof. solve_decision. Defined.

(** The discriminant, [*kind as u8]. *)
Definition kind_u8 (kind : LuaDependencyKind) : N :=
  match kind with Require => 0 | Include => 1 | CompileFile => 2 | AddCSLuaFile => 3 | IncludeCS => 4 end.

#[global] Instance kind_countable : Countable LuaDependencyKind.
Proof.
  refine (inj_countable' kind_u8 (fun n => match n with
    | 0%N => Require | 1%N => Include | 2%N => CompileFile | 3%N => AddCSLuaFile | _ => IncludeCS end) _).
  by intros [].
Defined.

#[global] Instance text_range_eq_dec : EqDecision TextRange.
Proof. solve_decision. Defined.

Record LuaDependencySite : Type := mkSite {
  source_file_id : FileId;
  target_file_id : option FileId;
  kind : LuaDependencyKind;
  path : option rstring;
  path_keys : list rstring;
  original_expr : rstring;
  call_range : TextRange;
  range : TextRange
}.

#[global] Instance site_eq_dec : EqDecision LuaDependencySite.
Proof. solve_decision. Defined.

Definition set_target (target : option FileId) (s : LuaDependencySite) : LuaDependencySite :=
  mkSite (source_file_id s) target (kind s) (path s) (path_keys s) (original_expr s) (call_range s) (range s).

Definition is_same_site (s other : LuaDependencySite) : bool :=
  bool_decide (source_file_id s = source_file_id other)
  && bool_decide (kind s = kind other)
  && bool_decide (path s = path other)
  && bool_decide (path_keys s = path_keys other)
  && bool_decide (original_expr s = original_expr other)
  && bool_decide (call_range s = call_range other)
  && bool_decide (range s = range other).

(** A location: the source file and the index of the site in its list. *)
Definition DependencySiteLocation : Type := FileId * nat.

Definition location_le (a b : DependencySiteLocation) : bool :=
  (a.1 <? b.1)%N || ((a.1 =? b.1)%N && (a.2 <=? b.2)%nat).

(** The facts that the index writes. *)
Inductive FactKey : Type :=
  | Dependency (file_id : FileId)
  | LoadSites (file_id : FileId).

#[global] Instance fact_key_eq_dec : EqDecision FactKey.
Proof. solve_decision. Defined.

(** ** The index *)

Record LuaDependencyIndex : Type := mkIndex {
  dependencies : gmap FileId (gset FileId);
  dependency_kinds : gmap FileId (gmap FileId (gset LuaDependencyKind));
  dependency_callers_by_target : gmap FileId (gset FileId);
  dependency_sites : gmap FileId (list LuaDependencySite);
  resolved_sites_by_target : gmap FileId (list DependencySiteLocation);
  unresolved_dependents_by_path_key : gmap rstring (gset FileId);
  unresolved_by_removal : gmap FileId (list (FileId * option rstring));
  derived_sites : gmap FileId (list LuaDependencySite);
  noted : list FactKey
}.

Module LuaDependencyIndex.
Implicit Types self : LuaDependencyIndex.

Definition new : LuaDependencyIndex := mkIndex ∅ ∅ ∅ ∅ ∅ ∅ ∅ ∅ [].

(** *** Assignments to the fields *)

Definition note_write (key : FactKey) self : LuaDependencyIndex :=
  mkIndex (dependencies self) (dependency_kinds self) (dependency_callers_by_target self)
    (dependency_sites self) (resolved_sites_by_target self) (unresolved_dependents_by_path_key self)
    (unresolved_by_removal self) (derived_sites self) (noted self ++ [key]).

Definition with_dependencies f self : LuaDependencyIndex :=
  mkIndex (f (dependencies self)) (dependency_kinds self) (dependency_callers_by_target self)
    (dependency_sites self) (resolved_sites_by_target self) (unresolved_dependents_by_path_key self)
    (unresolved_by_removal self) (derived_sites self) (noted self).

Definition with_kinds f self : LuaDependencyIndex :=
  mkIndex (dependencies self) (f (dependency_kinds self)) (dependency_callers_by_target self)
    (dependency_sites self) (resolved_sites_by_target self) (unresolved_dependents_by_path_key self)
    (unresolved_by_removal self) (derived_sites self) (noted self).

Definition with_callers f self : LuaDependencyIndex :=
  mkIndex (dependencies self) (dependency_kinds self) (f (dependency_callers_by_target self))
    (dependency_sites self) (resolved_sites_by_target self) (unresolved_dependents_by_path_key self)
    (unresolved_by_removal self) (derived_sites self) (noted self).

Definition with_sites f self : LuaDependencyIndex :=
  mkIndex (dependencies self) (dependency_kinds self) (dependency_callers_by_target self)
    (f (dependency_sites self)) (resolved_sites_by_target self) (unresolved_dependents_by_path_key self)
    (unresolved_by_removal self) (derived_sites self) (noted self).

Definition with_resolved f self : LuaDependencyIndex :=
  mkIndex (dependencies self) (dependency_kinds self) (dependency_callers_by_target self)
    (dependency_sites self) (f (resolved_sites_by_target self)) (unresolved_dependents_by_path_key self)
    (unresolved_by_removal self) (derived_sites self) (noted self).

Definition with_unresolved f self : LuaDependencyIndex :=
  mkIndex (dependencies self) (dependency_kinds self) (dependency_callers_by_target self)
    (dependency_sites self) (resolved_sites_by_target self) (f (unresolved_dependents_by_path_key self))
    (unresolved_by_removal self) (derived_sites self) (noted self).

Definition with_removed f self : LuaDependencyIndex :=
  mkIndex (dependencies self) (dependency_kinds self) (dependency_callers_by_target self)
    (dependency_sites self) (resolved_sites_by_target self) (unresolved_dependents_by_path_key self)
    (f (unresolved_by_removal self)) (derived_sites self) (noted self).

Definition with_derived f self : LuaDependencyIndex :=
  mkIndex (dependencies self) (dependency_kinds self) (dependency_callers_by_target self)
    (dependency_sites self) (resolved_sites_by_target self) (unresolved_dependents_by_path_key self)
    (unresolved_by_removal self) (f (derived_sites self)) (noted self).

(** *** Adding *)

Definition add_dependency_file (file_id dependency_id : FileId) (k : LuaDependencyKind) self
    : LuaDependencyIndex :=
  let self := note_write (Dependency file_id) self in
  let inserted := negb (bool_decide (dependency_id ∈ from_option id ∅ (dependencies self !! file_id))) in
  let self := with_dependencies (entry_or_default file_id ∅ (union {[dependency_id]})) self in
  let self := if inserted
              then with_callers (entry_or_default dependency_id ∅ (union {[file_id]})) self
              else self in
  with_kinds (entry_or_default file_id ∅ (entry_or_default dependency_id ∅ (union {[k]}))) self.

Definition add_required_file (file_id dependency_id : FileId) self : LuaDependencyIndex :=
  add_dependency_file file_id dependency_id Require self.

Definition index_unresolved_site (site : LuaDependencySite) (reverse_index : gmap rstring (gset FileId))
    : gmap rstring (gset FileId) :=
  foldl (fun m key => entry_or_default key ∅ (union {[source_file_id site]}) m) reverse_index (path_keys site).

Definition add_dependency_site (writes_source : bool) (site : LuaDependencySite) self : LuaDependencyIndex :=
  let source := source_file_id site in
  if existsb (fun existing => bool_decide (existing = site))
       (from_option id [] (dependency_sites self !! source))
  then self else
  let self := if writes_source then self
              else with_derived (entry_or_default source [] (fun l => l ++ [site]))
                     (note_write (LoadSites source) self) in
  let self := note_write (Dependency source) self in
  let site_index := from_option length 0 (dependency_sites self !! source) in
  let self :=
    match target_file_id site with
    | Some target =>
        with_resolved (entry_or_default target [] (fun l => l ++ [(source, site_index)]))
          (add_dependency_file source target (kind site) self)
    | None => with_unresolved (index_unresolved_site site) self
    end in
  with_sites (entry_or_default source [] (fun l => l ++ [site])) self.

(** *** Taking out *)

Definition unindex_unresolved_site (m : gmap rstring (gset FileId)) (site : LuaDependencySite)
    : gmap rstring (gset FileId) :=
  match target_file_id site with
  | Some _ => m
  | None =>
      foldl (fun m key => change_or_remove key set_empty (fun s => s ∖ {[source_file_id site]}) m)
        m (path_keys site)
  end.

Definition unindex_unresolved_sites (sites : list LuaDependencySite) self : LuaDependencyIndex :=
  with_unresolved (fun m => foldl unindex_unresolved_site m sites) self.

Definition unindex_source_sites (source : FileId) (sites : list LuaDependencySite) self : LuaDependencyIndex :=
  let self := unindex_unresolved_sites sites self in
  let targets : gset FileId := list_to_set (omap target_file_id sites) in
  with_resolved (fun m =>
    foldl (fun m target => change_or_remove target list_empty (filter (fun l => l.1 <> source)) m)
      m (elements targets)) self.

Definition remove_source_dependency_edges (source : FileId) self : LuaDependencyIndex :=
  match dependencies self !! source with
  | None => with_kinds (delete source) self
  | Some targets =>
      let self := with_kinds (delete source) (with_dependencies (delete source) self) in
      with_callers (fun m =>
        foldl (fun m target => change_or_remove target set_empty (fun s => s ∖ {[source]}) m)
          m (elements targets)) self
  end.

Definition remove_edge (target : FileId) self (source : FileId) : LuaDependencyIndex :=
  let self := note_write (Dependency source) self in
  let self := with_dependencies (change_or_remove source set_empty (fun s => s ∖ {[target]})) self in
  with_kinds (change_or_remove source (fun m => bool_decide (m = ∅)) (delete target)) self.

Definition remove_incoming_dependency_edges (target : FileId) self : LuaDependencyIndex :=
  match dependency_callers_by_target self !! target with
  | None => self
  | Some callers => foldl (remove_edge target) (with_callers (delete target) self) (elements callers)
  end.

(** The sites of [file_id] that derivations added are left out; a derived site
    is forgotten when it is met. *)
Definition readd_site (writes_source : bool) (acc : list LuaDependencySite * LuaDependencyIndex)
    (site : LuaDependencySite) : list LuaDependencySite * LuaDependencyIndex :=
  match position (fun existing => is_same_site existing site) acc.1 with
  | Some at_ => (swap_remove at_ acc.1, acc.2)
  | None => (acc.1, add_dependency_site writes_source site acc.2)
  end.

Definition reset_derived_sites (writes_source : bool) (file_id : FileId) self : LuaDependencyIndex :=
  match derived_sites self !! file_id with
  | None => self
  | Some derived =>
      let self := note_write (Dependency file_id) (with_derived (delete file_id) self) in
      let sites := from_option id [] (dependency_sites self !! file_id) in
      let self := with_sites (delete file_id) self in
      let self := unindex_source_sites file_id sites self in
      let self := remove_source_dependency_edges file_id self in
      (foldl (readd_site writes_source) (derived, self) sites).2
  end.

(** *** A target that goes and comes back *)

Definition forget_unresolved_target (target : FileId) self : LuaDependencyIndex :=
  with_removed (delete target) self.

(** The sites of one entry: those that are unresolved and name the path are
    resolved. *)
Fixpoint restore_sites (source target : FileId) (p : option rstring) (site_index : nat)
    (sites : list LuaDependencySite) : list LuaDependencySite * list (FileId * nat * LuaDependencySite) :=
  match sites with
  | [] => ([], [])
  | site :: sites =>
      let '(sites', restored) := restore_sites source target p (S site_index) sites in
      if bool_decide (is_Some (target_file_id site)) || negb (bool_decide (path site = p))
      then (site :: sites', restored)
      else (set_target (Some target) site :: sites', (source, site_index, site) :: restored)
  end.

Definition restore_entry (target : FileId)
    (acc : LuaDependencyIndex * list (FileId * nat * LuaDependencySite)) (e : FileId * option rstring)
    : LuaDependencyIndex * list (FileId * nat * LuaDependencySite) :=
  let '(self, restored) := acc in
  match dependency_sites self !! e.1 with
  | None => acc
  | Some sites =>
      let '(sites, more) := restore_sites e.1 target e.2 0 sites in
      (foldl (fun self _ => note_write (Dependency e.1) self) (with_sites (insert e.1 sites) self) more,
       restored ++ more)
  end.

Definition relink_site (target : FileId) self (r : FileId * nat * LuaDependencySite) : LuaDependencyIndex :=
  let '(source, site_index, site) := r in
  with_resolved (entry_or_default target [] (fun l => l ++ [(source, site_index)]))
    (add_dependency_file source target (kind site) self).

Definition relink_unresolved_target (target : FileId) self : LuaDependencyIndex :=
  match unresolved_by_removal self !! target with
  | None => self
  | Some entries =>
      let self := with_removed (delete target) self in
      let '(self, restored) := foldl (restore_entry target) (self, []) entries in
      if list_empty restored then self else
      let self := unindex_unresolved_sites (map snd restored) self in
      foldl (relink_site target) self restored
  end.

Definition flip_site (target : FileId) (acc : LuaDependencyIndex * list (FileId * option rstring))
    (location : DependencySiteLocation) : LuaDependencyIndex * list (FileId * option rstring) :=
  let '(self, flipped) := acc in
  match dependency_sites self !! location.1 with
  | None => acc
  | Some sites =>
      match sites !! location.2 with
      | Some site =>
          if bool_decide (target_file_id site = Some target) then
            let self := with_sites (insert location.1 (<[location.2 := set_target None site]> sites)) self in
            let self := note_write (Dependency location.1) self in
            (with_unresolved (index_unresolved_site (set_target None site)) self,
             flipped ++ [(location.1, path site)])
          else acc
      | None => acc
      end
  end.

Definition transition_target_sites_to_unresolved (target : FileId) self : LuaDependencyIndex :=
  match resolved_sites_by_target self !! target with
  | None => self
  | Some locations =>
      let self := with_resolved (delete target) self in
      let '(self, flipped) := foldl (flip_site target) (self, []) (sort_by location_le locations) in
      if list_empty flipped then self else with_removed (insert target flipped) self
  end.

(** *** [impl LuaIndex] *)

Definition remove (file_id : FileId) self : LuaDependencyIndex :=
  let self := with_derived (delete file_id) (note_write (Dependency file_id) self) in
  let self := match dependency_sites self !! file_id with
              | Some sites => unindex_source_sites file_id sites (with_sites (delete file_id) self)
              | None => self
              end in
  let self := remove_source_dependency_edges file_id self in
  let self := transition_target_sites_to_unresolved file_id self in
  remove_incoming_dependency_edges file_id self.

(** [Vec::dedup] of file ids. *)
Fixpoint dedup_ids (l : list FileId) : list FileId :=
  match l with
  | x :: l' =>
      match dedup_ids l' with
      | y :: l'' => if (x =? y)%N then y :: l'' else x :: y :: l''
      | [] => [x]
      end
  | [] => []
  end.

Definition sort_ids (l : list FileId) : list FileId := sort_by N.leb l.

Definition remove_files (file_ids : list FileId) self : LuaDependencyIndex :=
  foldl (fun self file_id => remove file_id self) self (dedup_ids (sort_ids file_ids)).

Definition clear (recording : bool) self : LuaDependencyIndex :=
  let keys := map fst (map_to_list (dependencies self)) ++ map fst (map_to_list (dependency_kinds self))
              ++ map fst (map_to_list (dependency_sites self)) in
  mkIndex ∅ ∅ ∅ ∅ ∅ ∅ ∅ ∅ (noted self ++ if recording then map Dependency keys else []).

(** *** Readers *)

Definition get_required_files self (file_id : FileId) : option (gset FileId) := dependencies self !! file_id.

Definition get_dependency_kinds self (file_id dependency_id : FileId) : option (gset LuaDependencyKind) :=
  ds ← dependency_kinds self !! file_id; ds !! dependency_id.

Definition loads_by_path self (file_id : FileId) : bool :=
  from_option (existsb (fun site => bool_decide (is_Some (path site)))) false (dependency_sites self !! file_id).

Definition get_dependency_sites self (file_id : FileId) : option (list LuaDependencySite) :=
  dependency_sites self !! file_id.

Definition site_at self (location : DependencySiteLocation) : option LuaDependencySite :=
  sites ← dependency_sites self !! location.1; sites !! location.2.

Definition get_sites_loading self (target : FileId) : list LuaDependencySite :=
  omap (fun location =>
      site ← site_at self location;
      if bool_decide (target_file_id site = Some target) then Some site else None)
    (from_option id [] (resolved_sites_by_target self !! target)).

Definition collect_unresolved_path_dependents self (keys : list rstring) : list FileId :=
  sort_ids (elements (foldl (fun dependents key =>
    match unresolved_dependents_by_path_key self !! key with
    | Some path_dependents => path_dependents ∪ dependents
    | None => dependents
    end) (∅ : gset FileId) keys)).

(** What [fact_fingerprint] takes the fingerprint of: [None] is the fingerprint
    of an absent fact. *)
Definition fact_of (dependencies : option (gset FileId)) (kinds : option (gmap FileId (gset LuaDependencyKind)))
    (sites : option (list LuaDependencySite))
    : option (option (list FileId) * option (list (FileId * list N)) * option (list LuaDependencySite)) :=
  let dependencies := (fun s => sort_ids (elements s)) <$> dependencies in
  let kinds := (fun m => sort_by (fun a b => (a.1 <=? b.1)%N)
                  (map (fun e => (e.1, sort_by N.leb (map kind_u8 (elements e.2)))) (map_to_list m))) <$> kinds in
  match dependencies, kinds, sites with
  | None, None, None => None
  | _, _, sites => Some (dependencies, kinds, sites)
  end.

Definition dependency_fact self (file_id : FileId) :=
  fact_of (dependencies self !! file_id) (dependency_kinds self !! file_id) (dependency_sites self !! file_id).
End LuaDependencyIndex.
