(* ===== verification/DependencyProofs.v ===== *)
(** * The index of dependencies keeps its reverse indexes in step *)

From S2P Require Import Prelude Text FileOrder Dependency.
From stdpp Require Import list gmap sorting.
Import LuaDependencyIndex.

(** ** Maps of collections *)

Definition at_ {K V} `{Countable K} (d : V) (m : gmap K V) (k : K) : V := from_option id d (m !! k).

Section Collections.
Context {K V : Type} `{Countable K}.
Implicit Types (d : V) (m : gmap K V) (f : V -> V).

Lemma at_empty d k : at_ d (∅ : gmap K V) k = d.
Proof. unfold at_. by rewrite lookup_empty. Qed.

Lemma at_delete d m k k' : at_ d (delete k m) k' = if decide (k = k') then d else at_ d m k'.
Proof. unfold at_. case_decide as Hk; [subst; by rewrite lookup_delete_eq|by rewrite lookup_delete_ne]. Qed.

Lemma at_insert d m k v k' : at_ d (<[k := v]> m) k' = if decide (k = k') then v else at_ d m k'.
Proof. unfold at_. case_decide as Hk; [subst; by rewrite lookup_insert_eq|by rewrite lookup_insert_ne]. Qed.

Lemma at_entry k d f m k' :
  at_ d (entry_or_default k d f m) k' = if decide (k = k') then f (at_ d m k) else at_ d m k'.
Proof.
  unfold at_, entry_or_default. case_decide as Hk.
  - subst. by rewrite lookup_partial_alter_eq.
  - by rewrite lookup_partial_alter_ne.
Qed.

Lemma at_change k e d f m k' :
  f d = d -> (forall v, e v = true -> v = d) ->
  at_ d (change_or_remove k e f m) k' = if decide (k = k') then f (at_ d m k) else at_ d m k'.
Proof.
  intros Hd He. unfold change_or_remove, at_. destruct (m !! k) as [v|] eqn:Hk; simpl.
  - destruct (e (f v)) eqn:Hev.
    + apply He in Hev. case_decide as Hkk; [subst k'; by rewrite lookup_delete_eq|by rewrite lookup_delete_ne].
    + case_decide as Hkk; [subst k'; by rewrite lookup_insert_eq|by rewrite lookup_insert_ne].
  - case_decide as Hkk; [subst k'; by rewrite Hk|done].
Qed.

(** The same change under several keys. *)
Lemma at_change_all e d f ks m k' :
  f d = d -> (forall v, e v = true -> v = d) -> (forall v, f (f v) = f v) ->
  at_ d (foldl (fun m k => change_or_remove k e f m) m ks) k'
  = if decide (k' ∈ ks) then f (at_ d m k') else at_ d m k'.
Proof.
  intros Hd He Hf. revert m. induction ks as [|k ks IH]; intros m; cbn [foldl].
  - rewrite decide_False; [done|]. apply not_elem_of_nil.
  - rewrite IH, at_change by done. destruct (decide (k = k')) as [->|Hne].
    + rewrite (decide_True (P := k' ∈ k' :: ks)) by set_solver. by case_decide.
    + destruct (decide (k' ∈ ks)); [rewrite decide_True by set_solver|rewrite decide_False by set_solver]; done.
Qed.

Lemma at_entry_all d f ks m k' :
  (forall v, f (f v) = f v) ->
  at_ d (foldl (fun m k => entry_or_default k d f m) m ks) k'
  = if decide (k' ∈ ks) then f (at_ d m k') else at_ d m k'.
Proof.
  intros Hf. revert m. induction ks as [|k ks IH]; intros m; cbn [foldl].
  - rewrite decide_False; [done|]. apply not_elem_of_nil.
  - rewrite IH, at_entry. destruct (decide (k = k')) as [->|Hne].
    + rewrite (decide_True (P := k' ∈ k' :: ks)) by set_solver. by case_decide.
    + destruct (decide (k' ∈ ks)); [rewrite decide_True by set_solver|rewrite decide_False by set_solver]; done.
Qed.
End Collections.

Lemma set_empty_spec {A} `{Countable A} (s : gset A) : set_empty s = true -> s = ∅.
Proof. apply bool_decide_eq_true. Qed.

Lemma list_empty_spec {A} (l : list A) : list_empty l = true -> l = [].
Proof. by destruct l. Qed.

(** ** What the fields say *)

Definition deps self (s : FileId) : gset FileId := at_ ∅ (dependencies self) s.
Definition kinds self (s : FileId) : gmap FileId (gset LuaDependencyKind) := at_ ∅ (dependency_kinds self) s.
Definition callers self (t : FileId) : gset FileId := at_ ∅ (dependency_callers_by_target self) t.
Definition sites self (s : FileId) : list LuaDependencySite := at_ [] (dependency_sites self) s.
Definition resolved self (t : FileId) : list DependencySiteLocation := at_ [] (resolved_sites_by_target self) t.
Definition unresolved self (k : rstring) : gset FileId := at_ ∅ (unresolved_dependents_by_path_key self) k.

(** The edges: the callers are the dependencies turned round, and each has its
    kinds. *)
Record edges self : Prop := {
  ed_callers s t : s ∈ callers self t <-> t ∈ deps self s;
  ed_kinds s t : is_Some (kinds self s !! t) <-> t ∈ deps self s
}.

(** The reverse indexes of the sites. *)
Record reversed self : Prop := {
  rv_source s site : site ∈ sites self s -> source_file_id site = s;
  rv_resolved t s i : (s, i) ∈ resolved self t
                      <-> exists site, sites self s !! i = Some site /\ target_file_id site = Some t;
  rv_nodup t : NoDup (resolved self t);
  rv_unresolved k s : s ∈ unresolved self k ->
    exists site, site ∈ sites self s /\ target_file_id site = None /\ k ∈ path_keys site
}.

(** A site that is resolved has its edge. *)
Definition covered self : Prop := forall s site t,
  site ∈ sites self s -> target_file_id site = Some t ->
  exists ks, kinds self s !! t = Some ks /\ kind site ∈ ks.

(** The sites that wait for a path are found under its keys. *)
Definition complete self : Prop := forall s site k,
  site ∈ sites self s -> target_file_id site = None -> k ∈ path_keys site -> s ∈ unresolved self k.

Record consistent self : Prop := {
  co_edges : edges self;
  co_reversed : reversed self;
  co_covered : covered self
}.

(** ** [add_dependency_file] *)

Section AddFile.
Variables (file dep : FileId) (k : LuaDependencyKind) (self : LuaDependencyIndex).
Let self' := add_dependency_file file dep k self.

Lemma add_file_deps s : deps self' s = if decide (file = s) then {[dep]} ∪ deps self s else deps self s.
Proof.
  unfold self', add_dependency_file, deps. simpl.
  destruct (negb _); simpl; rewrite at_entry; case_decide; by subst.
Qed.

Lemma add_file_kinds s t :
  kinds self' s !! t
  = if decide (file = s /\ dep = t) then Some ({[k]} ∪ from_option id ∅ (kinds self s !! t))
    else kinds self s !! t.
Proof.
  assert (Hk : kinds self' s = at_ ∅ (entry_or_default file ∅ (entry_or_default dep ∅ (union {[k]}))
                                       (dependency_kinds self)) s).
  { unfold self', add_dependency_file, kinds. simpl. by destruct (negb _). }
  rewrite Hk, at_entry. destruct (decide (file = s)) as [->|Hs].
  - unfold entry_or_default. destruct (decide (dep = t)) as [->|Ht].
    + rewrite lookup_partial_alter_eq, decide_True by done. done.
    + rewrite lookup_partial_alter_ne, decide_False by naive_solver. done.
  - rewrite decide_False by naive_solver. done.
Qed.

Lemma add_file_callers t :
  edges self -> callers self' t = if decide (dep = t) then {[file]} ∪ callers self t else callers self t.
Proof.
  intros He. unfold self', add_dependency_file, callers. simpl. destruct (negb _) eqn:Hin; simpl.
  - rewrite at_entry. clear Hin. case_decide; by subst.
  - destruct (decide (dep = t)) as [Ht|]; [|done]. subst t.
    apply negb_false_iff, bool_decide_eq_true in Hin.
    assert (file ∈ callers self dep) by (by apply (ed_callers _ He)).
    unfold callers in *. set_solver.
Qed.

Lemma add_file_rest :
  dependency_sites self' = dependency_sites self
  /\ resolved_sites_by_target self' = resolved_sites_by_target self
  /\ unresolved_dependents_by_path_key self' = unresolved_dependents_by_path_key self
  /\ unresolved_by_removal self' = unresolved_by_removal self
  /\ derived_sites self' = derived_sites self
  /\ noted self' = noted self ++ [Dependency file].
Proof. unfold self', add_dependency_file. simpl. by destruct (negb _). Qed.

Lemma add_file_edges : edges self -> edges self'.
Proof.
  intros He. split; intros s t.
  - rewrite add_file_callers, add_file_deps by done. pose proof (ed_callers _ He s t).
    repeat case_decide; subst; set_solver.
  - rewrite add_file_kinds, add_file_deps. pose proof (ed_kinds _ He s t) as Hk.
    destruct (decide (file = s)) as [->|], (decide (dep = t)) as [->|];
      rewrite ?decide_False, ?decide_True by naive_solver; set_solver.
Qed.

(** No kind is lost. *)
Lemma add_file_kinds_keep s t ks :
  kinds self s !! t = Some ks -> exists ks', kinds self' s !! t = Some ks' /\ ks ⊆ ks'.
Proof.
  intros Hk. rewrite add_file_kinds. case_decide.
  - rewrite Hk. simpl. eexists. split; [done|set_solver].
  - by exists ks.
Qed.
End AddFile.

(** ** States that agree on some fields *)

Lemma edges_ext self self' :
  edges self -> dependencies self' = dependencies self -> dependency_kinds self' = dependency_kinds self ->
  dependency_callers_by_target self' = dependency_callers_by_target self -> edges self'.
Proof.
  intros [Hc Hk] Hd Hkk Hcc. split; intros s t; unfold callers, deps, kinds in *; rewrite Hd, ?Hkk, ?Hcc; auto.
Qed.

Lemma kinds_ext self self' s : dependency_kinds self' = dependency_kinds self -> kinds self' s = kinds self s.
Proof. unfold kinds. by intros ->. Qed.

Lemma elem_of_snoc {A} (l : list A) x y : y ∈ l ++ [x] <-> y ∈ l \/ y = x.
Proof. by rewrite elem_of_app, list_elem_of_singleton. Qed.

(** ** [add_dependency_site] *)

Lemma index_unresolved_at (site : LuaDependencySite) m k :
  at_ ∅ (index_unresolved_site site m) k
  = if decide (k ∈ path_keys site) then {[source_file_id site]} ∪ at_ ∅ m k else at_ ∅ m k.
Proof. unfold index_unresolved_site. apply at_entry_all. set_solver. Qed.

(** The index while one site is added: everything but the lists of sites. *)
Definition pre_site (w : bool) (site : LuaDependencySite) self : LuaDependencyIndex :=
  note_write (Dependency (source_file_id site))
    (if w then self
     else with_derived (entry_or_default (source_file_id site) [] (fun l => l ++ [site]))
            (note_write (LoadSites (source_file_id site)) self)).

Section AddSite.
Variables (w : bool) (site : LuaDependencySite) (self : LuaDependencyIndex).
Let src := source_file_id site.
Let self' := add_dependency_site w site self.

(** A site that is there already changes nothing. *)
Lemma add_site_cases :
  self' = self /\ site ∈ sites self src
  \/ site ∉ sites self src
     /\ self' = with_sites (entry_or_default src [] (fun l => l ++ [site]))
          (match target_file_id site with
           | Some target =>
               with_resolved (entry_or_default target [] (fun l => l ++ [(src, length (sites self src))]))
                 (add_dependency_file src target (kind site) (pre_site w site self))
           | None => with_unresolved (index_unresolved_site site) (pre_site w site self)
           end).
Proof.
  unfold self', add_dependency_site. fold src. destruct (existsb _ _) eqn:He.
  - left. split; [done|]. apply existsb_exists in He as (x & Hx & Heq%bool_decide_eq_true). subst x.
    apply list_elem_of_In. exact Hx.
  - right. split.
    + intros Hin. assert (Ht : existsb (fun existing => bool_decide (existing = site))
        (from_option id [] (dependency_sites self !! src)) = true); [|congruence].
      apply existsb_exists. exists site. split; [by apply list_elem_of_In|]. by apply bool_decide_eq_true.
    + assert (Hl : from_option length 0 (dependency_sites self !! src) = length (sites self src))
        by (unfold sites, at_; by destruct (dependency_sites self !! src)).
      unfold pre_site. fold src. destruct w; simpl; by rewrite Hl.
Qed.

Lemma add_site_sites s :
  site ∉ sites self src ->
  sites self' s = if decide (src = s) then sites self s ++ [site] else sites self s.
Proof.
  intros Hnew. destruct add_site_cases as [[_ ?]|[_ ->]]; [done|].
  unfold sites, with_sites. cbn [dependency_sites]. rewrite at_entry.
  match goal with |- context [dependency_sites ?m] =>
    assert (Hs : dependency_sites m = dependency_sites self) end.
  { pose proof (proj1 (add_file_rest src (default src (target_file_id site)) (kind site) (pre_site w site self))) as Hr.
    replace (dependency_sites (pre_site w site self)) with (dependency_sites self) in Hr
      by (unfold pre_site; by destruct w).
    destruct (target_file_id site) as [t|]; [exact Hr|]. unfold pre_site. by destruct w. }
  rewrite Hs. case_decide; by subst.
Qed.

Lemma pre_site_edges : edges self -> edges (pre_site w site self).
Proof. intros He. unfold pre_site. apply (edges_ext self); [done|by destruct w..]. Qed.

Lemma pre_site_kinds s : kinds (pre_site w site self) s = kinds self s.
Proof. apply kinds_ext. unfold pre_site. by destruct w. Qed.

Lemma add_site_resolved t :
  site ∉ sites self src ->
  resolved self' t = if decide (target_file_id site = Some t)
                     then resolved self t ++ [(src, length (sites self src))] else resolved self t.
Proof.
  intros Hnew. destruct add_site_cases as [[_ ?]|[_ ->]]; [done|]. unfold resolved, with_sites. cbn [resolved_sites_by_target].
  destruct (target_file_id site) as [t'|].
  - unfold with_resolved. cbn [resolved_sites_by_target]. rewrite at_entry. destruct (add_file_rest src t' (kind site) (pre_site w site self)) as (_ & -> & _).
    replace (resolved_sites_by_target (pre_site w site self)) with (resolved_sites_by_target self)
      by (unfold pre_site; by destruct w).
    destruct (decide (t' = t)) as [->|]; [by rewrite decide_True|].
    rewrite decide_False; [done|]. by intros [= ->].
  - rewrite decide_False by done. unfold pre_site. by destruct w.
Qed.

Lemma add_site_unresolved k :
  site ∉ sites self src ->
  unresolved self' k = if decide (target_file_id site = None /\ k ∈ path_keys site)
                       then {[src]} ∪ unresolved self k else unresolved self k.
Proof.
  intros Hnew. destruct add_site_cases as [[_ ?]|[_ ->]]; [done|]. unfold unresolved, with_sites. cbn [unresolved_dependents_by_path_key].
  destruct (target_file_id site) as [t'|]; unfold with_resolved, with_unresolved;
    cbn [unresolved_dependents_by_path_key].
  - rewrite decide_False by naive_solver.
    destruct (add_file_rest src t' (kind site) (pre_site w site self)) as (_ & _ & -> & _).
    unfold pre_site. by destruct w.
  - rewrite index_unresolved_at.
    replace (unresolved_dependents_by_path_key (pre_site w site self))
      with (unresolved_dependents_by_path_key self) by (unfold pre_site; by destruct w).
    fold src. destruct (decide (k ∈ path_keys site)); [rewrite decide_True|rewrite decide_False]; naive_solver.
Qed.

Lemma add_site_edges : edges self -> edges self'.
Proof.
  intros He. destruct add_site_cases as [[-> _]|[_ ->]]; [done|].
  eapply (edges_ext (match target_file_id site with
    | Some target => add_dependency_file src target (kind site) (pre_site w site self)
    | None => pre_site w site self end)); [|by destruct (target_file_id site)..].
  destruct (target_file_id site); [apply add_file_edges|]; by apply pre_site_edges.
Qed.

Lemma add_site_kinds s :
  site ∉ sites self src ->
  kinds self' s = kinds (match target_file_id site with
    | Some target => add_dependency_file src target (kind site) (pre_site w site self)
    | None => self end) s.
Proof.
  intros Hnew. destruct add_site_cases as [[_ ?]|[_ ->]]; [done|].
  destruct (target_file_id site); [done|]. apply pre_site_kinds.
Qed.

Lemma add_site_reversed : reversed self -> reversed self'.
Proof.
  intros [Hsrc Hres Hnd Hun].
  destruct (decide (site ∈ sites self src)) as [Hin|Hnew].
  { destruct add_site_cases as [[-> _]|[? _]]; [by split|done]. }
  assert (Hlook : forall s i x, sites self' s !! i = Some x <->
            sites self s !! i = Some x \/ s = src /\ i = length (sites self src) /\ x = site).
  { intros s i x. rewrite add_site_sites by done. destruct (decide (src = s)) as [<-|Hne].
    - rewrite lookup_app_Some, list_lookup_singleton_Some. split; [|naive_solver lia].
      intros [|(Hle & Hi & ->)]; [by left|right]. split_and!; [done|lia|done].
    - naive_solver. }
  assert (Hmem : forall s x, x ∈ sites self' s <-> x ∈ sites self s \/ s = src /\ x = site).
  { intros s x. rewrite add_site_sites by done. case_decide; [rewrite elem_of_snoc|]; naive_solver. }
  split.
  - intros s x [Hx|[-> ->]]%Hmem; [by apply Hsrc|done].
  - intros t s i. rewrite add_site_resolved by done. setoid_rewrite Hlook.
    destruct (decide (target_file_id site = Some t)) as [Ht|Ht].
    + rewrite elem_of_snoc, Hres. split.
      * intros [(x & Hx & Hxt)|[= -> ->]]; [exists x; auto|exists site; auto].
      * intros (x & [Hx|(-> & -> & ->)] & Hxt); [left; by exists x|by right].
    + rewrite Hres. split.
      * intros (x & Hx & Hxt). exists x; auto.
      * intros (x & [Hx|(-> & -> & ->)] & Hxt); [by exists x|done].
  - intros t. rewrite add_site_resolved by done. case_decide as Ht; [|done].
    apply NoDup_app. split_and!; [done| |apply NoDup_singleton].
    intros [s i] Hsi Heq%list_elem_of_singleton. injection Heq as -> ->.
    apply Hres in Hsi as (x & Hx & _). apply lookup_lt_Some in Hx. lia.
  - intros k s. rewrite add_site_unresolved by done. setoid_rewrite Hmem. case_decide as Hk.
    + rewrite elem_of_union, elem_of_singleton. intros [->|Hs]; [exists site; naive_solver|].
      destruct (Hun k s Hs) as (x & ? & ?). exists x. auto.
    + intros Hs. destruct (Hun k s Hs) as (x & ? & ?). exists x. auto.
Qed.

Lemma add_site_covered : covered self -> covered self'.
Proof.
  intros Hc. destruct (decide (site ∈ sites self src)) as [Hin|Hnew].
  { destruct add_site_cases as [[-> _]|[? _]]; [done|done]. }
  intros s x t Hx Ht. rewrite add_site_kinds by done.
  rewrite add_site_sites in Hx by done.
  assert (Hold : x ∈ sites self s -> exists ks, kinds (match target_file_id site with
    | Some target => add_dependency_file src target (kind site) (pre_site w site self)
    | None => self end) s !! t = Some ks /\ kind x ∈ ks).
  { intros Hx'. destruct (Hc s x t Hx' Ht) as (ks & Hks & Hin).
    destruct (target_file_id site) as [t'|]; [|by exists ks].
    destruct (add_file_kinds_keep src t' (kind site) (pre_site w site self) s t ks) as (ks' & ? & ?);
      [by rewrite pre_site_kinds|]. exists ks'. split; [done|set_solver]. }
  destruct (decide (src = s)) as [<-|]; [|by apply Hold].
  apply elem_of_snoc in Hx as [Hx|Hx]; [by apply Hold|subst x].
  rewrite Ht. rewrite add_file_kinds, decide_True by done. eexists. split; [done|set_solver].
Qed.

Lemma add_site_complete : complete self -> complete self'.
Proof.
  intros Hc. destruct (decide (site ∈ sites self src)) as [Hin|Hnew].
  { destruct add_site_cases as [[-> _]|[? _]]; [done|done]. }
  intros s x k Hx Ht Hk. rewrite add_site_unresolved by done. rewrite add_site_sites in Hx by done.
  destruct (decide (src = s)) as [Heq|]; [apply elem_of_snoc in Hx as [Hx|Hx]|].
  - pose proof (Hc s x k Hx Ht Hk). case_decide; set_solver.
  - subst x. rewrite decide_True by done. set_solver.
  - pose proof (Hc s x k Hx Ht Hk). case_decide; set_solver.
Qed.
End AddSite.

(** ** Taking the sites of a file out *)

Lemma unindex_site_in m (site : LuaDependencySite) k s :
  s ∈ at_ ∅ (unindex_unresolved_site m site) k
  <-> s ∈ at_ ∅ m k /\ ~ (target_file_id site = None /\ k ∈ path_keys site /\ s = source_file_id site).
Proof.
  unfold unindex_unresolved_site. destruct (target_file_id site); [naive_solver|].
  rewrite at_change_all by (set_solver || apply set_empty_spec).
  case_decide; [rewrite elem_of_difference, elem_of_singleton|]; naive_solver.
Qed.

Lemma unindex_unresolved_in (l : list LuaDependencySite) self k s :
  s ∈ unresolved (unindex_unresolved_sites l self) k
  <-> s ∈ unresolved self k
      /\ forall site, site ∈ l -> ~ (target_file_id site = None /\ k ∈ path_keys site /\ s = source_file_id site).
Proof.
  unfold unindex_unresolved_sites, with_unresolved, unresolved. cbn [unresolved_dependents_by_path_key].
  generalize (unresolved_dependents_by_path_key self) as m.
  induction l as [|x l IH]; intros m; cbn [foldl].
  - split; [intros Hs; split; [done|]; intros y Hy; by apply elem_of_nil in Hy|by intros []].
  - rewrite IH, unindex_site_in. setoid_rewrite elem_of_cons. naive_solver.
Qed.

(** [self'] is [self] without the sites of [s]. *)
Record dropped (s : FileId) self self' : Prop := {
  dr_sites s' : sites self' s' = if decide (s = s') then [] else sites self s';
  dr_resolved t : resolved self' t = filter (fun l => l.1 <> s) (resolved self t);
  dr_unresolved k s' : s' ∈ unresolved self' k <-> s' ∈ unresolved self k /\ s' <> s
}.

Lemma unindex_source_dropped s self self0 :
  reversed self ->
  dependency_sites self0 = delete s (dependency_sites self) ->
  resolved_sites_by_target self0 = resolved_sites_by_target self ->
  unresolved_dependents_by_path_key self0 = unresolved_dependents_by_path_key self ->
  dropped s self (unindex_source_sites s (sites self s) self0).
Proof.
  intros [Hsrc Hres Hnd Hun] Hs0 Hr0 Hu0. unfold unindex_source_sites. split.
  - intros s'. unfold sites, with_resolved, unindex_unresolved_sites, with_unresolved. cbn [dependency_sites].
    rewrite Hs0. apply at_delete.
  - intros t. unfold resolved, with_resolved, unindex_unresolved_sites, with_unresolved.
    cbn [resolved_sites_by_target]. rewrite Hr0.
    rewrite (at_change_all list_empty []); [|done|apply list_empty_spec|].
    + case_decide as Ht; [done|]. symmetry. apply filter_all.
      intros [s' i] Hl. simpl. intros ->. apply Hres in Hl as (x & Hx & Hxt). apply Ht.
      rewrite elem_of_elements, elem_of_list_to_set. apply list_elem_of_omap.
      exists x. split; [by eapply list_elem_of_lookup_2|done].
    + intros l. apply filter_all. intros x Hx. by apply list_elem_of_filter in Hx as [? _].
  - intros k s'. change (unresolved (with_resolved _ ?a) k) with (unresolved a k).
    rewrite unindex_unresolved_in.
    assert (Hu : unresolved self0 k = unresolved self k) by (unfold unresolved; by rewrite Hu0).
    rewrite Hu. split.
    + intros [Hs' Hn]. split; [done|]. intros ->. destruct (Hun k s Hs') as (x & Hx & Hxt & Hxk).
      apply (Hn x Hx). split_and!; [done|done|]. symmetry. by apply Hsrc.
    + intros [Hs' Hne]. split; [done|]. intros x Hx (_ & _ & Heq). apply Hne. rewrite Heq. by apply Hsrc.
Qed.

Lemma dropped_reversed s self self' : reversed self -> dropped s self self' -> reversed self'.
Proof.
  intros [Hsrc Hres Hnd Hun] [Hs Hr Hu].
  assert (Hmem : forall s' x, x ∈ sites self' s' <-> x ∈ sites self s' /\ s' <> s).
  { intros s' x. rewrite Hs. case_decide; [rewrite elem_of_nil|]; naive_solver. }
  split.
  - intros s' x [Hx _]%Hmem. by apply Hsrc.
  - intros t s' i. rewrite Hr, list_elem_of_filter, Hres, Hs. simpl. case_decide.
    + subst. split; [naive_solver|]. intros (x & Hx & _). by rewrite lookup_nil in Hx.
    + naive_solver.
  - intros t. rewrite Hr. by apply NoDup_filter.
  - intros k s' [Hk Hne]%Hu. destruct (Hun k s' Hk) as (x & Hx & ?). exists x.
    split; [|done]. by apply Hmem.
Qed.

Lemma dropped_complete s self self' : complete self -> dropped s self self' -> complete self'.
Proof.
  intros Hc [Hs _ Hu] s' x k Hx Ht Hk. rewrite Hs in Hx. case_decide; [by apply elem_of_nil in Hx|].
  apply Hu. split; [by eapply Hc|done].
Qed.

(** *** Edges *)

Lemma remove_source_edges s self :
  edges self ->
  let self' := remove_source_dependency_edges s self in
  edges self' /\ forall s', kinds self' s' = if decide (s = s') then ∅ else kinds self s'.
Proof.
  intros [Hc Hk]. unfold remove_source_dependency_edges.
  destruct (dependencies self !! s) as [targets|] eqn:Hd; cbv zeta.
  - assert (Hds : deps self s = targets) by (unfold deps, at_; by rewrite Hd).
    split; [split|].
    + intros s' t. unfold callers, with_callers, with_kinds, with_dependencies, deps.
      cbn [dependencies dependency_callers_by_target]. rewrite at_delete.
      rewrite (at_change_all set_empty ∅) by (set_solver || apply set_empty_spec).
      change (at_ ∅ (dependency_callers_by_target self) t) with (callers self t).
      change (at_ ∅ (dependencies self) s') with (deps self s').
      pose proof (Hc s' t) as H1. pose proof (Hc s t) as H2. rewrite Hds in H2.
      destruct (decide (t ∈ elements targets)) as [Ht|Ht]; rewrite elem_of_elements in Ht;
        destruct (decide (s = s')) as [<-|]; set_solver.
    + intros s' t. unfold kinds, deps, with_callers, with_kinds, with_dependencies.
      cbn [dependencies dependency_kinds]. rewrite !at_delete.
      case_decide; [rewrite lookup_empty|by apply Hk]. split; [by intros []|set_solver].
    + intros s'. unfold kinds, with_callers, with_kinds, with_dependencies.
      cbn [dependency_kinds]. apply at_delete.
  - assert (Hds : deps self s = ∅) by (unfold deps, at_; by rewrite Hd).
    split; [split|].
    + intros s' t. apply Hc.
    + intros s' t. change (deps (with_kinds _ self) s') with (deps self s').
      unfold kinds, with_kinds. cbn [dependency_kinds]. rewrite at_delete.
      case_decide; [subst; rewrite lookup_empty, Hds|by apply Hk]. split; [by intros []|set_solver].
    + intros s'. unfold kinds, with_kinds. cbn [dependency_kinds]. apply at_delete.
Qed.

Lemma remove_source_rest s self :
  let self' := remove_source_dependency_edges s self in
  dependency_sites self' = dependency_sites self
  /\ resolved_sites_by_target self' = resolved_sites_by_target self
  /\ unresolved_dependents_by_path_key self' = unresolved_dependents_by_path_key self
  /\ unresolved_by_removal self' = unresolved_by_removal self
  /\ noted self' = noted self.
Proof. unfold remove_source_dependency_edges. by destruct (dependencies self !! s). Qed.

Lemma unindex_source_rest s l self :
  let self' := unindex_source_sites s l self in
  dependencies self' = dependencies self /\ dependency_kinds self' = dependency_kinds self
  /\ dependency_callers_by_target self' = dependency_callers_by_target self
  /\ dependency_sites self' = dependency_sites self
  /\ unresolved_by_removal self' = unresolved_by_removal self /\ noted self' = noted self.
Proof. done. Qed.

(** One edge to [target] less. *)
Lemma remove_edge_fields target self s :
  let self' := remove_edge target self s in
  (forall s', deps self' s' = if decide (s = s') then deps self s' ∖ {[target]} else deps self s')
  /\ (forall s', kinds self' s' = if decide (s = s') then delete target (kinds self s') else kinds self s').
Proof.
  unfold remove_edge, deps, kinds, with_dependencies, with_kinds, note_write.
  cbn [dependencies dependency_kinds]. split; intros s'.
  - rewrite at_change by (set_solver || apply set_empty_spec). case_decide; by subst.
  - rewrite at_change; [case_decide; by subst|by rewrite delete_empty|].
    intros v Hv. by apply bool_decide_eq_true in Hv.
Qed.

Lemma remove_edges_fields target l self :
  let self' := foldl (remove_edge target) self l in
  (forall s, deps self' s = if decide (s ∈ l) then deps self s ∖ {[target]} else deps self s)
  /\ (forall s, kinds self' s = if decide (s ∈ l) then delete target (kinds self s) else kinds self s)
  /\ dependency_callers_by_target self' = dependency_callers_by_target self.
Proof.
  cbv zeta. revert self. induction l as [|x l IH]; intros self; cbn [foldl].
  { split_and!; [| |done]; intros s; by rewrite decide_False by apply not_elem_of_nil. }
  destruct (IH (remove_edge target self x)) as (Hd & Hk & Hc).
  destruct (remove_edge_fields target self x) as [Hd1 Hk1].
  split_and!; [| |by rewrite Hc]; intros s.
  - rewrite Hd, Hd1. destruct (decide (x = s)) as [->|];
      [rewrite (decide_True (P := s ∈ s :: l)) by set_solver; case_decide; set_solver|].
    destruct (decide (s ∈ l)); [rewrite decide_True|rewrite decide_False]; set_solver.
  - rewrite Hk, Hk1. destruct (decide (x = s)) as [->|].
    + rewrite (decide_True (P := s ∈ s :: l)) by set_solver. case_decide; [|done].
      apply delete_delete_eq.
    + destruct (decide (s ∈ l)); [rewrite decide_True|rewrite decide_False]; set_solver.
Qed.

Lemma remove_incoming_edges target self :
  edges self ->
  let self' := remove_incoming_dependency_edges target self in
  edges self' /\ (forall s, kinds self' s = delete target (kinds self s))
  /\ (forall s, deps self' s = deps self s ∖ {[target]}).
Proof.
  intros He. pose proof He as [Hc Hk]. unfold remove_incoming_dependency_edges. cbv zeta.
  assert (Hnone : forall s, s ∉ callers self target -> delete target (kinds self s) = kinds self s
                              /\ deps self s ∖ {[target]} = deps self s).
  { intros s Hs. assert (target ∉ deps self s) by (by rewrite <- Hc). split; [|set_solver].
    apply delete_id. destruct (kinds self s !! target) eqn:Hks; [|done].
    exfalso. apply Hs, Hc, Hk. by rewrite Hks. }
  destruct (dependency_callers_by_target self !! target) as [cs|] eqn:Hcs.
  - assert (Hcst : callers self target = cs) by (unfold callers, at_; by rewrite Hcs).
    destruct (remove_edges_fields target (elements cs) (with_callers (delete target) self)) as (Hd & Hk' & Hc').
    cbv zeta in Hd, Hk', Hc'.
    assert (Hdeps : forall s, deps (foldl (remove_edge target) (with_callers (delete target) self) (elements cs)) s
                              = deps self s ∖ {[target]}).
    { intros s. rewrite Hd. change (deps (with_callers _ self) s) with (deps self s).
      case_decide as Hs; [done|]. symmetry. apply Hnone. by rewrite Hcst, <- elem_of_elements. }
    assert (Hkinds : forall s, kinds (foldl (remove_edge target) (with_callers (delete target) self) (elements cs)) s
                              = delete target (kinds self s)).
    { intros s. rewrite Hk'. change (kinds (with_callers _ self) s) with (kinds self s).
      case_decide as Hs; [done|]. symmetry. apply Hnone. by rewrite Hcst, <- elem_of_elements. }
    split_and!; [split|done|done].
    + intros s t. unfold callers. rewrite Hc', Hdeps. cbn [with_callers dependency_callers_by_target].
      rewrite at_delete. change (at_ ∅ (dependency_callers_by_target self) t) with (callers self t).
      pose proof (Hc s t). case_decide; set_solver.
    + intros s t. rewrite Hkinds, Hdeps. pose proof (Hk s t) as Hkst.
      rewrite elem_of_difference, elem_of_singleton, <- Hkst.
      destruct (decide (t = target)) as [->|]; [rewrite lookup_delete_eq|rewrite lookup_delete_ne by done].
      * split; [by intros []|naive_solver].
      * naive_solver.
  - assert (Hcst : callers self target = ∅) by (unfold callers, at_; by rewrite Hcs).
    split_and!; [done| |]; intros s; symmetry; apply Hnone; set_solver.
Qed.

(** ** A target that goes *)

Definition flip (target : FileId) (x : LuaDependencySite) : LuaDependencySite :=
  if decide (target_file_id x = Some target) then set_target None x else x.

Lemma flip_target target x t :
  target_file_id (flip target x) = Some t <-> target_file_id x = Some t /\ t <> target.
Proof. unfold flip. case_decide as Ht; simpl; naive_solver. Qed.

Lemma flip_none target x :
  target_file_id (flip target x) = None <-> target_file_id x = None \/ target_file_id x = Some target.
Proof. unfold flip. case_decide as Ht; simpl; naive_solver. Qed.

Lemma flip_same target x :
  source_file_id (flip target x) = source_file_id x /\ kind (flip target x) = kind x
  /\ path (flip target x) = path x /\ path_keys (flip target x) = path_keys x.
Proof. unfold flip. by case_decide. Qed.

Lemma flip_idemp target x : flip target (flip target x) = flip target x.
Proof.
  destruct (decide (target_file_id x = Some target)) as [Hx|Hx].
  - assert (Hf : flip target x = set_target None x) by (unfold flip; by rewrite decide_True).
    rewrite Hf. unfold flip. by rewrite decide_False.
  - assert (Hf : flip target x = x) by (unfold flip; by rewrite decide_False).
    by rewrite Hf.
Qed.

(** The sites that a list of locations points to and that have the target. *)
Definition points_to target self (l : list DependencySiteLocation) (s : FileId) (x : LuaDependencySite) : Prop :=
  exists i, (s, i) ∈ l /\ sites self s !! i = Some x /\ target_file_id x = Some target.

(** [self'] and [self] agree but on the sites, what is unresolved and the notes. *)
Definition same_edges self self' : Prop :=
  dependencies self' = dependencies self /\ dependency_kinds self' = dependency_kinds self
  /\ dependency_callers_by_target self' = dependency_callers_by_target self
  /\ resolved_sites_by_target self' = resolved_sites_by_target self
  /\ unresolved_by_removal self' = unresolved_by_removal self
  /\ derived_sites self' = derived_sites self.

Record flipping target self (l : list DependencySiteLocation) (flipped : list (FileId * option rstring))
    (r : LuaDependencyIndex * list (FileId * option rstring)) : Prop := {
  fl_same : same_edges self r.1;
  fl_sites s i : sites r.1 s !! i = (if decide ((s, i) ∈ l) then flip target else id) <$> sites self s !! i;
  fl_unresolved k s : s ∈ unresolved r.1 k
    <-> s ∈ unresolved self k \/ exists s' x, points_to target self l s' x /\ k ∈ path_keys x /\ s = source_file_id x;
  fl_flipped e : e ∈ r.2 <-> e ∈ flipped \/ exists x, points_to target self l e.1 x /\ e.2 = path x
}.

Lemma flip_site_spec target self flipped s i :
  flipping target self [(s, i)] flipped (flip_site target (self, flipped) (s, i)).
Proof.
  assert (Hnone : (forall x, sites self s !! i = Some x -> target_file_id x <> Some target) ->
            flipping target self [(s, i)] flipped (self, flipped)).
  { intros Hn. assert (Hp : forall s' x, ~ points_to target self [(s, i)] s' x).
    { intros s' x (j & [= -> ->]%list_elem_of_singleton & Hx & Ht). by eapply Hn. }
    split; simpl; [done| | |].
    - intros s' j. case_decide as Hj; [|by rewrite option_fmap_id].
      apply list_elem_of_singleton in Hj as [= -> ->]. destruct (sites self s !! i) as [x|] eqn:Hx; [|done].
      simpl. unfold flip. rewrite decide_False; [done|]. by apply Hn.
    - intros k s'. split; [by left|]. intros [|(s2 & x & Hx & _)]; [done|]. by apply Hp in Hx.
    - intros e. split; [by left|]. intros [|(x & Hx & _)]; [done|]. by apply Hp in Hx. }
  unfold flip_site. cbn [fst snd].
  assert (Hsites : forall l, dependency_sites self !! s = Some l -> sites self s = l)
    by (unfold sites, at_; by intros l ->).
  destruct (dependency_sites self !! s) as [l|] eqn:Hl.
  2:{ apply Hnone. unfold sites, at_. rewrite Hl. simpl. intros x Hx. by rewrite lookup_nil in Hx. }
  specialize (Hsites l eq_refl). destruct (l !! i) as [x|] eqn:Hx.
  2:{ apply Hnone. rewrite Hsites. congruence. }
  case_bool_decide as Ht.
  2:{ apply Hnone. rewrite Hsites. intros y Hy. congruence. }
  assert (Hp : forall s' y, points_to target self [(s, i)] s' y <-> s' = s /\ y = x).
  { intros s' y. unfold points_to. setoid_rewrite list_elem_of_singleton. split.
    - intros (j & [= -> ->] & Hy & _). rewrite Hsites in Hy. split; congruence.
    - intros [-> ->]. exists i. by rewrite Hsites. }
  split; simpl; [done| | |].
  - intros s' j. unfold sites, note_write, with_sites, with_unresolved. cbn [dependency_sites].
    rewrite at_insert. change (at_ [] (dependency_sites self) s') with (sites self s').
    destruct (decide (s = s')) as [<-|Hs].
    + rewrite Hsites. destruct (decide (i = j)) as [<-|Hj].
      * rewrite list_lookup_insert_eq by (by eapply lookup_lt_Some).
        rewrite decide_True by (by apply list_elem_of_singleton). rewrite Hx. simpl.
        unfold flip. by rewrite decide_True.
      * rewrite list_lookup_insert_ne by done. rewrite decide_False; [by rewrite option_fmap_id|].
        by intros [= ->]%list_elem_of_singleton.
    + rewrite decide_False; [by rewrite option_fmap_id|]. by intros [= -> ->]%list_elem_of_singleton.
  - intros k s'. unfold unresolved, with_unresolved. cbn [unresolved_dependents_by_path_key].
    rewrite index_unresolved_at. simpl.
    change (at_ ∅ (unresolved_dependents_by_path_key self) k) with (unresolved self k).
    setoid_rewrite Hp. case_decide as Hk; [rewrite elem_of_union, elem_of_singleton|]; naive_solver.
  - intros e. setoid_rewrite Hp. rewrite elem_of_snoc. destruct e. simpl. naive_solver.
Qed.

Lemma flip_sites_spec target l self flipped :
  flipping target self l flipped (foldl (flip_site target) (self, flipped) l).
Proof.
  revert self flipped. induction l as [|[s i] l IH]; intros self flipped; cbn [foldl].
  { assert (Hp : forall s x, ~ points_to target self [] s x) by (intros s x (i & Hi & _); by apply elem_of_nil in Hi).
    split; simpl; [done| | |].
    - intros s i. by rewrite option_fmap_id.
    - intros k s. split; [by left|]. intros [|(s2 & x & Hx & _)]; [done|]. by apply Hp in Hx.
    - intros e. split; [by left|]. intros [|(x & Hx & _)]; [done|]. by apply Hp in Hx. }
  pose proof (flip_site_spec target self flipped s i) as [Hsame1 Hs1 Hu1 Hf1].
  destruct (flip_site target (self, flipped) (s, i)) as [self1 flipped1]. simpl in *.
  destruct (IH self1 flipped1) as [Hsame2 Hs2 Hu2 Hf2].
  assert (Hp : forall s' x, points_to target self ((s, i) :: l) s' x
                            <-> points_to target self [(s, i)] s' x \/ points_to target self1 l s' x).
  { intros s' x. unfold points_to. split.
    - intros (j & Hj & Hx & Ht). destruct (decide ((s', j) = (s, i))) as [[= -> ->]|Hne].
      + left. exists i. by rewrite list_elem_of_singleton.
      + right. exists j. apply elem_of_cons in Hj as [|Hj]; [done|]. rewrite Hs1, decide_False, Hx; [done|].
        by rewrite list_elem_of_singleton.
    - intros [(j & Hj & Hx & Ht)|(j & Hj & Hx & Ht)]; exists j; [set_solver|].
      rewrite Hs1 in Hx. destruct (sites self s' !! j) as [y|] eqn:Hy; [|by case_decide].
      case_decide; simpl in Hx; injection Hx as <-; [by apply flip_target in Ht as [_ ?]|].
      split_and!; [set_solver|done|done]. }
  split.
  - unfold same_edges in *. destruct Hsame1 as (-> & -> & -> & -> & -> & ->) in Hsame2. done.
  - intros s' j. rewrite Hs2, Hs1, <- option_fmap_compose.
    destruct (sites self s' !! j) as [x|]; [|done]. unfold fmap, option_fmap, option_map, compose. f_equal.
    assert (Hmem : (s', j) ∈ (s, i) :: l <-> (s', j) ∈ [(s, i)] \/ (s', j) ∈ l)
      by (by rewrite elem_of_cons, list_elem_of_singleton).
    repeat case_decide; solve [exfalso; tauto | apply flip_idemp | done].
  - intros k s'. rewrite Hu2, Hu1. setoid_rewrite Hp. naive_solver.
  - intros e. rewrite Hf2, Hf1. setoid_rewrite Hp. naive_solver.
Qed.

Lemma flip_all_id target self s :
  (forall x, x ∈ sites self s -> target_file_id x <> Some target) -> map (flip target) (sites self s) = sites self s.
Proof.
  intros Hn. rewrite <- (list_fmap_id (sites self s)) at 2. apply list_fmap_ext.
  intros i x Hx. unfold flip. rewrite decide_False; [done|]. apply Hn. by eapply list_elem_of_lookup_2.
Qed.

(** The removal of a target turns exactly the sites that load it. *)
Record transitioned target self self' : Prop := {
  tr_dependencies : dependencies self' = dependencies self;
  tr_kinds : dependency_kinds self' = dependency_kinds self;
  tr_callers : dependency_callers_by_target self' = dependency_callers_by_target self;
  tr_sites s : sites self' s = map (flip target) (sites self s);
  tr_resolved t : resolved self' t = if decide (target = t) then [] else resolved self t;
  tr_unresolved k s : s ∈ unresolved self' k
    <-> s ∈ unresolved self k
        \/ exists x, x ∈ sites self s /\ target_file_id x = Some target /\ k ∈ path_keys x;
  tr_removed e : e ∈ at_ [] (unresolved_by_removal self') target
    <-> (exists x, x ∈ sites self e.1 /\ target_file_id x = Some target /\ e.2 = path x)
        \/ (forall s x, x ∈ sites self s -> target_file_id x <> Some target)
           /\ e ∈ at_ [] (unresolved_by_removal self) target
}.

(** The entries of a removal that turns no site are those of an earlier one. *)
Lemma flipped_or_kept target self (flipped : list (FileId * option rstring)) e :
  (forall e, e ∈ flipped <-> exists x, x ∈ sites self e.1 /\ target_file_id x = Some target /\ e.2 = path x) ->
  e ∈ (if list_empty flipped then at_ [] (unresolved_by_removal self) target else flipped)
  <-> (exists x, x ∈ sites self e.1 /\ target_file_id x = Some target /\ e.2 = path x)
      \/ (forall s x, x ∈ sites self s -> target_file_id x <> Some target)
         /\ e ∈ at_ [] (unresolved_by_removal self) target.
Proof.
  intros Hff. destruct (list_empty flipped) eqn:He.
  - apply list_empty_spec in He. subst flipped.
    assert (Hno : forall s x, x ∈ sites self s -> target_file_id x <> Some target).
    { intros s x Hx Ht. apply (elem_of_nil (s, path x)), Hff. by exists x. }
    split; [by right|]. intros [(x & Hx & Ht & _)|[_ H]]; [by apply Hno in Hx|done].
  - rewrite Hff. split; [by left|]. intros [|[Hno _]]; [done|].
    destruct flipped as [|e' flipped]; [done|].
    destruct (proj1 (Hff e')) as (x & Hx & Ht & _); [by left|]. by apply Hno in Hx.
Qed.

Lemma transition_spec target self :
  reversed self -> transitioned target self (transition_target_sites_to_unresolved target self).
Proof.
  intros [Hsrc Hres Hnd Hun]. unfold transition_target_sites_to_unresolved.
  destruct (resolved_sites_by_target self !! target) as [locs|] eqn:Hl.
  - assert (Hlocs : resolved self target = locs) by (unfold resolved, at_; by rewrite Hl).
    set (self0 := with_resolved (delete target) self).
    pose proof (flip_sites_spec target (sort_by location_le locs) self0 []) as [Hsame Hs Hu Hf].
    destruct (foldl (flip_site target) (self0, []) (sort_by location_le locs)) as [self1 flipped]. simpl in *.
    destruct Hsame as (Hd & Hk & Hc & Hr & Hrm & _).
    assert (Hin : forall s i, (s, i) ∈ sort_by location_le locs
              <-> exists x, sites self s !! i = Some x /\ target_file_id x = Some target).
    { intros s i. rewrite (sort_by_perm location_le locs), <- Hlocs. apply Hres. }
    assert (Hp : forall s x, points_to target self0 (sort_by location_le locs) s x
              <-> x ∈ sites self s /\ target_file_id x = Some target).
    { intros s x. unfold points_to. setoid_rewrite Hin. split.
      - intros (i & _ & Hx & Ht). split; [by eapply list_elem_of_lookup_2|done].
      - intros [[i Hx]%list_elem_of_lookup Ht]. exists i. split; [by exists x|done]. }
    assert (Hff : forall e, e ∈ flipped <-> exists x, x ∈ sites self e.1 /\ target_file_id x = Some target
                                                  /\ e.2 = path x).
    { intros e. rewrite Hf. setoid_rewrite Hp. rewrite elem_of_nil. naive_solver. }
    assert (Hself1 : forall self', same_edges self1 (with_removed (fun _ => unresolved_by_removal self1) self') ->
              dependency_sites self' = dependency_sites self1 ->
              unresolved_dependents_by_path_key self' = unresolved_dependents_by_path_key self1 ->
              at_ [] (unresolved_by_removal self') target
              = (if list_empty flipped then at_ [] (unresolved_by_removal self) target else flipped) ->
              transitioned target self self').
    { intros self' (Hd' & Hk' & Hc' & Hr' & _ & _) Hs' Hu' Hrm'. simpl in *. split.
      - by rewrite Hd', Hd.
      - by rewrite Hk', Hk.
      - by rewrite Hc', Hc.
      - intros s. unfold sites at 1. rewrite Hs'. apply list_eq. intros i.
        change (at_ [] (dependency_sites self1) s) with (sites self1 s). rewrite Hs, list_lookup_fmap.
        change (sites self0 s) with (sites self s). destruct (sites self s !! i) as [x|] eqn:Hx; [|done].
        unfold fmap, option_fmap, option_map. f_equal. case_decide as Hi; [done|].
        unfold id, flip. rewrite decide_False; [done|]. intros Ht. apply Hi, Hin. by exists x.
      - intros t. unfold resolved at 1. rewrite Hr', Hr. apply at_delete.
      - intros k s. unfold unresolved at 1. rewrite Hu'.
        change (at_ ∅ (unresolved_dependents_by_path_key self1) k) with (unresolved self1 k).
        rewrite Hu. setoid_rewrite Hp. change (unresolved self0 k) with (unresolved self k). split.
        + intros [?|(s' & x & [Hx ?] & ? & ->)]; [by left|right; exists x; by rewrite (Hsrc _ _ Hx)].
        + intros [?|(x & Hx & ? & ?)]; [by left|right; exists s, x; by rewrite (Hsrc _ _ Hx)].
      - intros e. rewrite Hrm'. by apply flipped_or_kept. }
    destruct (list_empty flipped) eqn:He; apply Hself1; try done.
    + unfold at_. by rewrite Hrm.
    + unfold at_. simpl. by rewrite lookup_insert_eq.
  - assert (Hlocs : resolved self target = []) by (unfold resolved, at_; by rewrite Hl).
    assert (Hno : forall s x, x ∈ sites self s -> target_file_id x <> Some target).
    { intros s x [i Hx]%list_elem_of_lookup Ht.
      assert (Hin : (s, i) ∈ resolved self target) by (apply Hres; by exists x).
      rewrite Hlocs in Hin. by apply elem_of_nil in Hin. }
    split; try done.
    + intros s. symmetry. apply flip_all_id, Hno.
    + intros t. case_decide; [by subst t|done].
    + intros k s. split; [by left|]. intros [|(x & Hx & Ht & _)]; [done|]. by apply Hno in Hx.
    + intros e. split; [by right|]. intros [(x & Hx & Ht & _)|[_ He]]; [by apply Hno in Hx|done].
Qed.

Lemma transitioned_reversed target self self' : reversed self -> transitioned target self self' -> reversed self'.
Proof.
  intros [Hsrc Hres Hnd Hun] [_ _ _ Hs Hr Hu _].
  assert (Hmem : forall s y, y ∈ sites self' s <-> exists x, y = flip target x /\ x ∈ sites self s)
    by (intros s y; rewrite Hs; apply list_elem_of_fmap).
  split.
  - intros s y (x & -> & Hx)%Hmem. destruct (flip_same target x) as [-> _]. by apply Hsrc.
  - intros t s i. rewrite Hr, Hs. setoid_rewrite list_lookup_fmap. case_decide as Ht.
    + subst t. rewrite elem_of_nil. split; [done|]. intros (y & Hy & Hyt).
      destruct (sites self s !! i); [|done]. injection Hy as <-. by apply flip_target in Hyt as [_ ?].
    + rewrite Hres. split.
      * intros (x & Hx & Hxt). exists (flip target x). rewrite Hx. split; [done|]. by apply flip_target.
      * intros (y & Hy & Hyt). destruct (sites self s !! i) as [x|]; [|done]. injection Hy as <-.
        exists x. split; [done|]. by apply flip_target in Hyt as [? _].
  - intros t. rewrite Hr. case_decide; [constructor|done].
  - intros k s. rewrite Hu. setoid_rewrite Hmem. intros [Hk|(x & Hx & Ht & Hk)].
    + destruct (Hun k s Hk) as (x & Hx & Ht & Hkx). exists (flip target x).
      destruct (flip_same target x) as (_ & _ & _ & ->). split_and!; [by exists x| |done].
      apply flip_none. by left.
    + exists (flip target x). destruct (flip_same target x) as (_ & _ & _ & ->).
      split_and!; [by exists x| |done]. apply flip_none. by right.
Qed.

Lemma transitioned_complete target self self' : complete self -> transitioned target self self' -> complete self'.
Proof.
  intros Hc [_ _ _ Hs _ Hu _] s y k Hy Ht Hk. rewrite Hs in Hy.
  apply list_elem_of_fmap in Hy as (x & -> & Hx). destruct (flip_same target x) as (_ & _ & _ & Hkeys).
  rewrite Hkeys in Hk. apply Hu. apply flip_none in Ht as [Ht|Ht]; [left; by eapply Hc|right; eauto].
Qed.

(** ** [remove] *)

(** The sites, and what is made of them. *)
Definition same_sites self self' : Prop :=
  dependency_sites self' = dependency_sites self
  /\ resolved_sites_by_target self' = resolved_sites_by_target self
  /\ unresolved_dependents_by_path_key self' = unresolved_dependents_by_path_key self
  /\ unresolved_by_removal self' = unresolved_by_removal self.

Lemma same_sites_reversed self self' : same_sites self self' -> reversed self -> reversed self'.
Proof.
  intros (Hs & Hr & Hu & _) [? ? ? ?]. split; unfold sites, resolved, unresolved in *; by rewrite ?Hs, ?Hr, ?Hu.
Qed.

Lemma same_sites_complete self self' : same_sites self self' -> complete self -> complete self'.
Proof. intros (Hs & Hr & Hu & _) Hc. unfold complete, sites, unresolved in *. by rewrite Hs, Hu. Qed.

Lemma remove_source_same_sites f self : same_sites self (remove_source_dependency_edges f self).
Proof.
  pose proof (remove_source_rest f self) as (H1 & H2 & H3 & H4 & _). unfold same_sites. by rewrite H1, H2, H3, H4.
Qed.

Lemma remove_incoming_same_sites target self : same_sites self (remove_incoming_dependency_edges target self).
Proof.
  unfold remove_incoming_dependency_edges. destruct (dependency_callers_by_target self !! target) as [cs|]; [|done].
  assert (H : forall l self0, same_sites self self0 -> same_sites self (foldl (remove_edge target) self0 l)).
  { induction l as [|x l IH]; intros self0 H0; [done|]. by apply IH. }
  by apply H.
Qed.

(** The index without the sites and the edges of a file. *)
Lemma drop_file_consistent f self self0 :
  consistent self -> edges self0 -> (forall s, kinds self0 s = kinds self s) ->
  dropped f self self0 ->
  consistent (remove_source_dependency_edges f self0).
Proof.
  intros [He Hr Hc] He0 Hk0 Hdr. destruct (remove_source_edges f self0 He0) as [He1 Hk1].
  pose proof (remove_source_same_sites f self0) as Hsame. split; [done| |].
  - apply (same_sites_reversed self0); [done|by eapply dropped_reversed].
  - intros s x t Hx Ht. rewrite Hk1, Hk0. unfold sites in Hx. rewrite (proj1 Hsame) in Hx.
    change (at_ [] (dependency_sites self0) s) with (sites self0 s) in Hx. rewrite (dr_sites _ _ _ Hdr) in Hx.
    case_decide; [by apply elem_of_nil in Hx|]. by eapply Hc.
Qed.

(** The index of [remove] before the sites of the callers are turned. *)
Definition without_file (f : FileId) self : LuaDependencyIndex :=
  let self := with_derived (delete f) (note_write (Dependency f) self) in
  remove_source_dependency_edges f
    (match dependency_sites self !! f with
     | Some l => unindex_source_sites f l (with_sites (delete f) self)
     | None => self
     end).

Lemma without_file_dropped f self :
  reversed self ->
  dropped f self (match dependency_sites self !! f with
     | Some l => unindex_source_sites f l (with_sites (delete f) (with_derived (delete f) (note_write (Dependency f) self)))
     | None => with_derived (delete f) (note_write (Dependency f) self)
     end).
Proof.
  intros Hr. destruct (dependency_sites self !! f) as [l|] eqn:Hl.
  - assert (Hsl : sites self f = l) by (unfold sites, at_; by rewrite Hl).
    rewrite <- Hsl. by apply unindex_source_dropped.
  - assert (Hsl : sites self f = []) by (unfold sites, at_; by rewrite Hl). split.
    + intros s. change (sites (with_derived _ _) s) with (sites self s). case_decide; [by subst s|done].
    + intros t. change (resolved (with_derived _ _) t) with (resolved self t). symmetry.
      apply filter_all. intros [s i] Hi. simpl. intros ->.
      apply (rv_resolved _ Hr) in Hi as (x & Hx & _). rewrite Hsl, lookup_nil in Hx. done.
    + intros k s. change (unresolved (with_derived _ _) k) with (unresolved self k).
      split; [|by intros []]. intros Hk. split; [done|]. intros ->.
      apply (rv_unresolved _ Hr) in Hk as (x & Hx & _). rewrite Hsl in Hx. by apply elem_of_nil in Hx.
Qed.

Lemma without_file_consistent f self : consistent self -> consistent (without_file f self).
Proof.
  intros Hc. unfold without_file. apply (drop_file_consistent f self).
  - done.
  - apply (edges_ext self); [apply Hc|by destruct (dependency_sites _ !! f)..].
  - intros s. apply kinds_ext. by destruct (dependency_sites _ !! f).
  - apply (without_file_dropped f self), Hc.
Qed.

Lemma without_file_complete f self : reversed self -> complete self -> complete (without_file f self).
Proof.
  intros Hr Hc. unfold without_file. eapply same_sites_complete; [apply remove_source_same_sites|].
  eapply dropped_complete; [done|]. by apply (without_file_dropped f self).
Qed.

Lemma without_file_reversed f self : reversed self -> reversed (without_file f self).
Proof.
  intros Hr. unfold without_file. eapply same_sites_reversed; [apply remove_source_same_sites|].
  eapply dropped_reversed; [done|]. by apply (without_file_dropped f self).
Qed.

Lemma remove_unfold f self :
  remove f self = remove_incoming_dependency_edges f (transition_target_sites_to_unresolved f (without_file f self)).
Proof. done. Qed.

Lemma remove_consistent f self : consistent self -> consistent (remove f self).
Proof.
  intros Hc. rewrite remove_unfold. pose proof (without_file_consistent f self Hc) as [He Hr Hcov].
  revert He Hr Hcov. generalize (without_file f self) as self0. intros self0 He Hr Hcov.
  pose proof (transition_spec f self0 Hr) as Ht.
  revert Ht. generalize (transition_target_sites_to_unresolved f self0) as self1. intros self1 Ht.
  assert (He1 : edges self1).
  { apply (edges_ext self0); [done|apply Ht|apply Ht|apply Ht]. }
  destruct (remove_incoming_edges f self1 He1) as (He2 & Hk2 & _).
  pose proof (remove_incoming_same_sites f self1) as Hsame. split; [done| |].
  - eapply same_sites_reversed; [done|]. by eapply transitioned_reversed.
  - intros s y t Hy Hyt. destruct Hsame as (Hs & _). unfold sites in Hy. rewrite Hs in Hy.
    change (at_ [] (dependency_sites self1) s) with (sites self1 s) in Hy.
    rewrite (tr_sites _ _ _ Ht) in Hy. apply list_elem_of_fmap in Hy as (x & -> & Hx).
    apply flip_target in Hyt as [Hxt Hne]. rewrite Hk2, lookup_delete_ne by done.
    destruct (flip_same f x) as (_ & -> & _).
    replace (kinds self1 s) with (kinds self0 s) by (symmetry; apply kinds_ext, Ht).
    by eapply Hcov.
Qed.

Lemma remove_complete f self : reversed self -> complete self -> complete (remove f self).
Proof.
  intros Hr Hc. rewrite remove_unfold. eapply same_sites_complete; [apply remove_incoming_same_sites|].
  eapply transitioned_complete; [by apply without_file_complete|]. apply transition_spec.
  by apply without_file_reversed.
Qed.

Lemma remove_files_ind (P : LuaDependencyIndex -> Prop) fs self :
  (forall f self, P self -> P (remove f self)) -> P self -> P (remove_files fs self).
Proof.
  intros Hstep. unfold remove_files. generalize (dedup_ids (sort_ids fs)). intros l.
  revert self. induction l as [|f l IH]; intros self HP; [done|]. apply IH. by apply Hstep.
Qed.

(** ** [reset_derived_sites] *)

Lemma readd_sites_ind (P : LuaDependencyIndex -> Prop) w l derived self :
  (forall site self, P self -> P (add_dependency_site w site self)) ->
  P self -> P (foldl (readd_site w) (derived, self) l).2.
Proof.
  intros Hstep. revert derived self. induction l as [|x l IH]; intros derived self HP; [done|].
  cbn [foldl]. unfold readd_site at 2. cbn [fst snd]. destruct (position _ _); apply IH; auto.
Qed.

Lemma add_site_consistent w site self : consistent self -> consistent (add_dependency_site w site self).
Proof.
  intros [He Hr Hc]. split; [by apply add_site_edges|by apply add_site_reversed|by apply add_site_covered].
Qed.

Lemma reset_ind (P : LuaDependencyIndex -> Prop) w f self :
  (forall site self, P self -> P (add_dependency_site w site self)) ->
  (forall self0, dependency_sites self0 = delete f (dependency_sites self) ->
     resolved_sites_by_target self0 = resolved_sites_by_target self ->
     unresolved_dependents_by_path_key self0 = unresolved_dependents_by_path_key self ->
     dependencies self0 = dependencies self -> dependency_kinds self0 = dependency_kinds self ->
     dependency_callers_by_target self0 = dependency_callers_by_target self ->
     P (remove_source_dependency_edges f (unindex_source_sites f (sites self f) self0))) ->
  P self -> P (reset_derived_sites w f self).
Proof.
  intros Hstep Hdrop HP. unfold reset_derived_sites.
  destruct (derived_sites self !! f) as [derived|]; [|done].
  apply readd_sites_ind; [done|]. by apply Hdrop.
Qed.

Lemma reset_consistent w f self : consistent self -> consistent (reset_derived_sites w f self).
Proof.
  intros Hc. apply (reset_ind consistent); [intros; by apply add_site_consistent| |done].
  intros self0 Hs Hr Hu Hd Hk Hcc. apply (drop_file_consistent f self); [done| | |].
  - by apply (edges_ext self); [apply Hc|..].
  - intros s. by apply kinds_ext.
  - by apply unindex_source_dropped; [apply Hc|..].
Qed.

Lemma reset_complete w f self : consistent self -> complete self -> complete (reset_derived_sites w f self).
Proof.
  intros Hc Hcm. apply (reset_ind complete); [intros; by apply add_site_complete| |done].
  intros self0 Hs Hr Hu Hd Hk Hcc.
  eapply same_sites_complete; [apply remove_source_same_sites|].
  eapply dropped_complete; [done|]. by apply unindex_source_dropped; [apply Hc|..].
Qed.

(** ** A target that comes back *)

Section Relink.
Variable target : FileId.

(** The site as the entries [es] leave it in the file [s]. *)
Definition restore (es : list (FileId * option rstring)) (s : FileId) (x : LuaDependencySite) : LuaDependencySite :=
  if decide (target_file_id x = None /\ (s, path x) ∈ es) then set_target (Some target) x else x.

Lemma restore_same es s x :
  source_file_id (restore es s x) = source_file_id x /\ kind (restore es s x) = kind x
  /\ path (restore es s x) = path x /\ path_keys (restore es s x) = path_keys x.
Proof. unfold restore. by case_decide. Qed.

Lemma restore_some es s x t :
  target_file_id (restore es s x) = Some t
  <-> target_file_id x = Some t \/ t = target /\ target_file_id x = None /\ (s, path x) ∈ es.
Proof. unfold restore. case_decide as Hx; simpl; [|naive_solver]. destruct Hx as [-> ?]. naive_solver. Qed.

Lemma restore_none es s x :
  target_file_id (restore es s x) = None <-> target_file_id x = None /\ (s, path x) ∉ es.
Proof. unfold restore. case_decide; simpl; naive_solver. Qed.

Lemma restore_snoc es e s x :
  restore (es ++ [e]) s x = restore [e] s (restore es s x).
Proof.
  assert (Hin : (s, path x) ∈ es ++ [e] <-> (s, path x) ∈ es \/ (s, path x) ∈ [e])
    by (rewrite elem_of_snoc, list_elem_of_singleton; done).
  unfold restore. destruct (decide (target_file_id x = None /\ (s, path x) ∈ es)) as [H1|H1].
  - rewrite decide_True by tauto. rewrite decide_False; [done|]. by intros [? _].
  - repeat case_decide; solve [done | exfalso; tauto].
Qed.

(** A location that the entries restore, with the site that was there. *)
Definition restores self (es : list (FileId * option rstring)) (r : FileId * nat * LuaDependencySite) : Prop :=
  sites self r.1.1 !! r.1.2 = Some r.2 /\ target_file_id r.2 = None /\ (r.1.1, path r.2) ∈ es.

Lemma restore_sites_spec s p i0 l :
  let r := restore_sites s target p i0 l in
  r.1 = map (restore [(s, p)] s) l
  /\ NoDup (map fst r.2)
  /\ forall loc x, (loc, x) ∈ r.2 <-> loc.1 = s /\ i0 <= loc.2 /\ l !! (loc.2 - i0) = Some x
                                    /\ target_file_id x = None /\ path x = p.
Proof.
  cbv zeta. revert i0. induction l as [|y l IH]; intros i0; cbn [restore_sites].
  { split_and!; [done|constructor|]. intros loc x. rewrite elem_of_nil. split; [done|].
    intros (_ & _ & Hx & _). by rewrite lookup_nil in Hx. }
  destruct (restore_sites s target p (S i0) l) as [l' r] eqn:Hr.
  specialize (IH (S i0)). rewrite Hr in IH. simpl in IH. destruct IH as (-> & Hnd & Hin).
  assert (Hcond : (bool_decide (is_Some (target_file_id y)) || negb (bool_decide (path y = p))) = false
                  <-> target_file_id y = None /\ path y = p).
  { rewrite orb_false_iff, negb_false_iff, bool_decide_eq_false, bool_decide_eq_true, eq_None_not_Some. done. }
  assert (Hshift : forall loc x, (loc.1 = s /\ i0 <= loc.2 /\ (y :: l) !! (loc.2 - i0) = Some x
                 /\ target_file_id x = None /\ path x = p)
              <-> (loc = (s, i0) /\ x = y /\ target_file_id y = None /\ path y = p) \/ (loc, x) ∈ r).
  { intros [s' i] x. rewrite Hin. simpl. split.
    - intros (-> & Hi & Hx & Ht & Hp). destruct (decide (i = i0)) as [->|Hne].
      + rewrite Nat.sub_diag in Hx. injection Hx as ->. by left.
      + right. replace (i - i0) with (S (i - S i0)) in Hx by lia. split_and!; [done|lia|done|done|done].
    - intros [([= -> ->] & -> & ? & ?)|(-> & Hi & Hx & ? & ?)].
      + rewrite Nat.sub_diag. split_and!; [done|lia|done|done|done].
      + replace (i - i0) with (S (i - S i0)) by lia. split_and!; [done|lia|done|done|done]. }
  destruct (_ || _) eqn:Hc.
  - assert (Hno : ~ (target_file_id y = None /\ path y = p)) by (rewrite <- Hcond; congruence). simpl.
    split_and!; [|done|intros loc x; rewrite Hshift; naive_solver].
    f_equal. unfold restore. rewrite decide_False; [done|]. rewrite list_elem_of_singleton. naive_solver.
  - destruct (proj1 Hcond eq_refl) as [Hn Hp]. simpl. split_and!.
    + f_equal. unfold restore. rewrite decide_True; [done|]. rewrite list_elem_of_singleton. naive_solver.
    + constructor; [|done]. intros ([loc x] & Heq & Hx)%list_elem_of_fmap. simpl in Heq. subst loc.
      apply Hin in Hx as (_ & Hi & _). simpl in Hi. lia.
    + intros loc x. rewrite Hshift, elem_of_cons. naive_solver.
Qed.

Record restoring self (es : list (FileId * option rstring))
    (r : LuaDependencyIndex * list (FileId * nat * LuaDependencySite)) : Prop := {
  rs_same : same_edges self r.1;
  rs_unresolved : unresolved_dependents_by_path_key r.1 = unresolved_dependents_by_path_key self;
  rs_sites s : sites r.1 s = map (restore es s) (sites self s);
  rs_nodup : NoDup (map fst r.2);
  rs_in e : e ∈ r.2 <-> restores self es e
}.

Lemma restore_entry_spec self es r e :
  restoring self es r -> restoring self (es ++ [e]) (restore_entry target r e).
Proof.
  intros [Hsame Hu Hs Hnd Hin]. destruct r as [self1 restored], e as [s p]. simpl in *.
  assert (Hs1 : forall s', sites self1 s' = from_option id [] (dependency_sites self1 !! s')) by done.
  assert (Hmap : forall s', s' <> s -> map (restore (es ++ [(s, p)]) s') (sites self s') = map (restore es s') (sites self s')).
  { intros s' Hne. apply list_fmap_ext. intros i x _. rewrite restore_snoc.
    unfold restore at 1. rewrite decide_False; [done|]. rewrite list_elem_of_singleton. naive_solver. }
  assert (Hrs : forall loc x, restores self (es ++ [(s, p)]) (loc, x)
            <-> restores self es (loc, x)
                \/ loc.1 = s /\ sites self1 s !! loc.2 = Some x /\ target_file_id x = None /\ path x = p).
  { intros [s' i] x. unfold restores. simpl. rewrite elem_of_snoc. split.
    - intros (Hx & Hn & [He|[= -> Hp]]); [by left|].
      destruct (decide ((s, path x) ∈ es)); [by left|]. right. split_and!; [done| |done|done].
      rewrite Hs, list_lookup_fmap, Hx. simpl. unfold restore. rewrite decide_False; [done|]. naive_solver.
    - intros [(Hx & Hn & He)|(-> & Hx & Hn & Hp)]; [by auto|].
      rewrite Hs, list_lookup_fmap in Hx. destruct (sites self s !! i) as [y|] eqn:Hy; [|done].
      injection Hx as <-. apply restore_none in Hn as [Hn Hne].
      assert (Hry : restore es s y = y) by (unfold restore; rewrite decide_False; naive_solver).
      rewrite Hry in *. subst p. auto. }
  assert (Hdisj : forall loc x, (loc, x) ∈ restored -> loc.1 = s -> sites self1 s !! loc.2 = Some x -> False).
  { intros [s' i] x Hx Heq Hl. simpl in *. subst s'. apply Hin in Hx as (Hy & Hn & He). simpl in *.
    rewrite Hs, list_lookup_fmap, Hy in Hl. injection Hl as Hl.
    assert (Hsome : target_file_id (restore es s x) = Some target) by (apply restore_some; auto).
    rewrite Hl in Hsome. congruence. }
  unfold restore_entry. cbn [fst snd]. destruct (dependency_sites self1 !! s) as [l|] eqn:Hl.
  - specialize (Hs1 s). rewrite Hl in Hs1. simpl in Hs1.
    destruct (restore_sites_spec s p 0 l) as (H1 & H2 & H3).
    destruct (restore_sites s target p 0 l) as [l' more]. simpl in *. subst l'.
    assert (Hnotes : forall (ns : list (FileId * nat * LuaDependencySite)) self2,
        let self3 := foldl (fun self _ => note_write (Dependency s) self) self2 ns in
        same_edges self2 self3 /\ dependency_sites self3 = dependency_sites self2
        /\ unresolved_dependents_by_path_key self3 = unresolved_dependents_by_path_key self2).
    { induction ns as [|n ns IH]; intros self2; [done|]. exact (IH (note_write (Dependency s) self2)). }
    destruct (Hnotes more (with_sites (insert s (map (restore [(s, p)] s) l)) self1)) as (N1 & N2 & N3).
    split; simpl.
    + unfold same_edges in *. destruct Hsame as (<- & <- & <- & <- & <- & <-). exact N1.
    + by rewrite N3.
    + intros s'. unfold sites at 1. rewrite N2. unfold with_sites. cbn [dependency_sites]. rewrite at_insert.
      destruct (decide (s = s')) as [<-|Hne].
      * rewrite <- Hs1, Hs, map_map. apply map_ext. intros x. by rewrite restore_snoc.
      * change (at_ [] (dependency_sites self1) s') with (sites self1 s'). rewrite Hs. symmetry. by apply Hmap.
    + rewrite map_app. apply NoDup_app. split_and!; [done| |done].
      intros loc ([loc1 x] & -> & Hx)%list_elem_of_fmap ([loc2 y] & Heq & Hy)%list_elem_of_fmap.
      simpl in Heq. subst loc2. apply H3 in Hy as (Hls & _ & Hly & Hyn & _). rewrite Nat.sub_0_r in Hly.
      apply (Hdisj loc1 x Hx Hls). rewrite Hs1, Hly. f_equal.
      apply Hin in Hx as (Hxl & Hxn & Hxe). simpl in *. destruct loc1 as [s1 i]. simpl in *. subst s1.
      rewrite <- Hs1, Hs, list_lookup_fmap, Hxl in Hly. injection Hly as <-.
      apply restore_none in Hyn as [_ Hyn]. done.
    + intros [loc x]. rewrite elem_of_app, Hin, H3, Hrs, Hs1, Nat.sub_0_r. naive_solver lia.
  - specialize (Hs1 s). rewrite Hl in Hs1. simpl in Hs1. split; simpl; [done|done| |done|].
    + intros s'. rewrite Hs. destruct (decide (s' = s)) as [->|Hne]; [|symmetry; by apply Hmap].
      rewrite Hs in Hs1. by destruct (sites self s).
    + intros [loc x]. rewrite Hin, Hrs, Hs1. split; [by left|]. intros [|(_ & Hx & _)]; [done|].
      by rewrite lookup_nil in Hx.
Qed.

Lemma restore_entries_spec self es : restoring self es (foldl (restore_entry target) (self, []) es).
Proof.
  assert (H : forall es' es0 r, restoring self es0 r -> restoring self (es0 ++ es') (foldl (restore_entry target) r es')).
  { induction es' as [|e es' IH]; intros es0 r Hr; [by rewrite app_nil_r|].
    cbn [foldl]. replace (es0 ++ e :: es') with ((es0 ++ [e]) ++ es') by (by rewrite <- app_assoc).
    by apply IH, restore_entry_spec. }
  apply (H es []). split; simpl; [done|done| |constructor|].
  - intros s. symmetry. rewrite <- (list_fmap_id (sites self s)) at 2. apply list_fmap_ext. intros i x _.
    unfold restore. rewrite decide_False; [done|]. intros [_ Hx]. by apply elem_of_nil in Hx.
  - intros e. rewrite elem_of_nil. split; [done|]. intros (_ & _ & He). by apply elem_of_nil in He.
Qed.

(** The edges and locations that are put back. *)
Record relinked self (rs : list (FileId * nat * LuaDependencySite)) self' : Prop := {
  rl_sites : dependency_sites self' = dependency_sites self;
  rl_unresolved : unresolved_dependents_by_path_key self' = unresolved_dependents_by_path_key self;
  rl_edges : edges self -> edges self';
  rl_resolved t : resolved self' t = if decide (target = t) then resolved self t ++ map fst rs else resolved self t;
  rl_keep s t ks : kinds self s !! t = Some ks -> exists ks', kinds self' s !! t = Some ks' /\ ks ⊆ ks';
  rl_kinds r : r ∈ rs -> exists ks, kinds self' r.1.1 !! target = Some ks /\ kind r.2 ∈ ks;
  rl_deps s t : t ∈ deps self' s <-> t ∈ deps self s \/ t = target /\ exists r, r ∈ rs /\ r.1.1 = s
}.

Lemma relink_sites_spec rs self : relinked self rs (foldl (relink_site target) self rs).
Proof.
  revert self. induction rs as [|[[s i] x] rs IH]; intros self; cbn [foldl].
  { split; try done.
    - intros t. case_decide; [by rewrite app_nil_r|done].
    - intros s t ks Hk. by exists ks.
    - intros r Hr. by apply elem_of_nil in Hr.
    - intros s t. split; [by left|]. intros [|(_ & r & Hr & _)]; [done|]. by apply elem_of_nil in Hr. }
  set (self1 := relink_site target self (s, i, x)).
  destruct (add_file_rest s target (kind x) self) as (F1 & F2 & F3 & _).
  assert (Hk1 : forall s' t, kinds self1 s' !! t = kinds (add_dependency_file s target (kind x) self) s' !! t) by done.
  destruct (IH self1) as [R1 R2 R3 R4 R5 R6 R7]. split.
  - rewrite R1. exact F1.
  - rewrite R2. exact F3.
  - intros He. apply R3. apply (edges_ext (add_dependency_file s target (kind x) self)); [by apply add_file_edges|done..].
  - intros t. rewrite R4.
    assert (Hr1 : resolved self1 t = if decide (target = t) then resolved self t ++ [(s, i)] else resolved self t).
    { unfold resolved, self1, relink_site, with_resolved. cbn [resolved_sites_by_target].
      rewrite at_entry, F2. case_decide; by subst. }
    rewrite Hr1. case_decide; [by rewrite <- app_assoc|done].
  - intros s' t ks Hk. destruct (add_file_kinds_keep s target (kind x) self s' t ks Hk) as (ks1 & Hks1 & Hsub).
    rewrite <- Hk1 in Hks1. destruct (R5 s' t ks1 Hks1) as (ks2 & ? & ?). exists ks2. split; [done|set_solver].
  - intros r [->|Hr]%elem_of_cons; [|by apply R6]. simpl.
    assert (Hks1 : kinds self1 s !! target = Some ({[kind x]} ∪ from_option id ∅ (kinds self s !! target)))
      by (rewrite Hk1, add_file_kinds, decide_True; done).
    destruct (R5 s target _ Hks1) as (ks2 & ? & ?). exists ks2. split; [done|set_solver].
  - intros s' t. rewrite R7. change (deps self1 s') with (deps (add_dependency_file s target (kind x) self) s').
    rewrite add_file_deps. setoid_rewrite elem_of_cons. case_decide; [rewrite elem_of_union, elem_of_singleton|];
      naive_solver.
Qed.

(** What [relink_unresolved_target] leaves. *)
Record came_back self self' : Prop := {
  cb_sites s : sites self' s
    = map (restore (at_ [] (unresolved_by_removal self) target) s) (sites self s);
  cb_consistent : consistent self -> consistent self';
  cb_deps s t : t ∈ deps self' s
    <-> t ∈ deps self s
        \/ t = target /\ exists x, x ∈ sites self s /\ target_file_id x = None
                               /\ (s, path x) ∈ at_ [] (unresolved_by_removal self) target
}.

Lemma relink_came_back self : came_back self (relink_unresolved_target target self).
Proof.
  unfold relink_unresolved_target.
  destruct (unresolved_by_removal self !! target) as [es|] eqn:Hes.
  2:{ assert (Hat : at_ [] (unresolved_by_removal self) target = []) by (unfold at_; by rewrite Hes).
      split; rewrite ?Hat; [|done|].
      - intros s. symmetry. rewrite <- (list_fmap_id (sites self s)) at 2. apply list_fmap_ext. intros i x _.
        unfold restore. rewrite decide_False; [done|]. intros [_ Hx]. by apply elem_of_nil in Hx.
      - intros s t. split; [by left|]. intros [|(_ & x & _ & _ & Hx)]; [done|]. by apply elem_of_nil in Hx. }
  assert (Hat : at_ [] (unresolved_by_removal self) target = es) by (unfold at_; by rewrite Hes).
  set (self0 := with_removed (delete target) self).
  destruct (restore_entries_spec self0 es) as [Hsame Hu Hs Hnd Hin].
  destruct (foldl (restore_entry target) (self0, []) es) as [self1 restored]. simpl in *.
  destruct Hsame as (Ed & Ek & Ec & Er & _ & _).
  set (self2 := unindex_unresolved_sites (map snd restored) self1).
  replace (if list_empty restored then self1 else foldl (relink_site target) self2 restored)
    with (foldl (relink_site target) self2 restored)
    by (destruct restored; [by destruct self1|done]).
  destruct (relink_sites_spec restored self2) as [R1 R2 R3 R4 R5 R6 R7].
  revert R1 R2 R3 R4 R5 R6 R7. generalize (foldl (relink_site target) self2 restored) as self3.
  intros self3 R1 R2 R3 R4 R5 R6 R7.
  assert (Hsites : forall s, sites self3 s = map (restore es s) (sites self s)).
  { intros s. unfold sites at 1. rewrite R1. apply Hs. }
  assert (Hloc : forall loc x, (loc, x) ∈ restored
            <-> sites self loc.1 !! loc.2 = Some x /\ target_file_id x = None /\ (loc.1, path x) ∈ es)
    by (intros loc x; apply (Hin (loc, x))).
  assert (Hfst : forall s i, (s, i) ∈ map fst restored
            <-> exists x, sites self s !! i = Some x /\ target_file_id x = None /\ (s, path x) ∈ es).
  { intros s i. rewrite list_elem_of_fmap. split.
    - intros ([loc x] & Heq & Hx). simpl in Heq. subst loc. exists x. by apply (Hloc (s, i)).
    - intros (x & Hx). exists ((s, i), x). split; [done|]. by apply Hloc. }
  split; rewrite ?Hat; [done| |].
  - intros [He [Hsrc Hres Hndr Hun] Hc].
    assert (Hmem : forall s y, y ∈ sites self3 s <-> exists x, y = restore es s x /\ x ∈ sites self s)
      by (intros s y; rewrite Hsites; apply list_elem_of_fmap).
    split.
    + apply R3. apply (edges_ext self); [done|done..].
    + split.
      * intros s y (x & -> & Hx)%Hmem. destruct (restore_same es s x) as [-> _]. by apply Hsrc.
      * intros t s i. rewrite R4. change (resolved self2 t) with (at_ [] (resolved_sites_by_target self1) t).
        rewrite Er. change (at_ [] (resolved_sites_by_target self0) t) with (resolved self t).
        rewrite Hsites. setoid_rewrite list_lookup_fmap.
        assert (Hl : (s, i) ∈ resolved self t \/ target = t /\ (s, i) ∈ map fst restored
                     <-> exists y, restore es s <$> sites self s !! i = Some y /\ target_file_id y = Some t).
        { rewrite Hres, Hfst. split.
          - intros [(x & -> & Ht)|(<- & x & -> & Ht & He')]; exists (restore es s x); (split; [done|]);
              apply restore_some; auto.
          - intros (y & Hy & Ht). destruct (sites self s !! i) as [x|]; [|done]. injection Hy as <-.
            apply restore_some in Ht as [Ht|(-> & Ht & He')]; [left; by exists x|right; split; [done|by exists x]]. }
        rewrite <- Hl. case_decide; [rewrite elem_of_app|]; naive_solver.
      * intros t. rewrite R4. change (resolved self2 t) with (at_ [] (resolved_sites_by_target self1) t).
        rewrite Er. change (at_ [] (resolved_sites_by_target self0) t) with (resolved self t).
        case_decide; [|done]. apply NoDup_app. split_and!; [done| |done].
        intros [s i] Hsi (x & Hx & Hn & _)%Hfst. apply Hres in Hsi as (x' & Hx' & Ht). congruence.
      * intros k s Hk. unfold unresolved in Hk. rewrite R2 in Hk.
        change (s ∈ unresolved self2 k) in Hk. apply unindex_unresolved_in in Hk as [Hk Hno].
        assert (Hk0 : s ∈ unresolved self k) by (unfold unresolved in *; by rewrite Hu in Hk).
        destruct (Hun k s Hk0) as (x & Hx & Ht & Hkx). exists (restore es s x).
        destruct (restore_same es s x) as (_ & _ & _ & ->). split_and!; [apply Hmem; by exists x| |done].
        apply restore_none. split; [done|]. intros He'.
        apply list_elem_of_lookup in Hx as [i Hi]. apply (Hno x).
        -- apply list_elem_of_fmap. exists ((s, i), x). split; [done|]. by apply Hloc.
        -- split_and!; [done|done|]. symmetry. apply Hsrc. by eapply list_elem_of_lookup_2.
    + intros s y t (x & -> & Hx)%Hmem Ht. destruct (restore_same es s x) as (_ & -> & _).
      apply restore_some in Ht as [Ht|(-> & Ht & He')].
      * destruct (Hc s x t Hx Ht) as (ks & Hks & Hkx).
        assert (Hks2 : kinds self2 s !! t = Some ks) by (unfold kinds in *; simpl; by rewrite Ek).
        destruct (R5 s t ks Hks2) as (ks' & ? & ?). exists ks'. split; [done|set_solver].
      * apply list_elem_of_lookup in Hx as [i Hi]. apply (R6 ((s, i), x)). by apply Hloc.
  - intros s t. rewrite R7. change (deps self2 s) with (at_ ∅ (dependencies self1) s). rewrite Ed.
    change (at_ ∅ (dependencies self0) s) with (deps self s). split.
    + intros [|(-> & [[s' i] x] & Hx & <-)]; [by left|]. right. split; [done|].
      apply Hloc in Hx as (Hx & ? & ?). exists x. split; [by eapply list_elem_of_lookup_2|done].
    + intros [|(-> & x & [i Hx]%list_elem_of_lookup & Ht & He')]; [by left|]. right. split; [done|].
      exists ((s, i), x). split; [|done]. by apply Hloc.
Qed.
End Relink.
