(* ===== verification/DependencySpec.v ===== *)
(** * What the index of dependencies promises

    The invariant of its reverse indexes under every sequence of operations,
    what its readers return, which facts it tells of, and that a file that
    comes back finds its callers again. *)

From S2P Require Import Prelude Text FileOrder Dependency DependencyProofs.
From stdpp Require Import list gmap sorting.
Import LuaDependencyIndex.

(** ** Sequences of operations *)

Inductive op : Type :=
  | AddFile (file_id dependency_id : FileId) (k : LuaDependencyKind)
  | AddSite (writes_source : bool) (site : LuaDependencySite)
  | ResetDerived (writes_source : bool) (file_id : FileId)
  | Forget (target : FileId)
  | Relink (target : FileId)
  | Remove (file_id : FileId)
  | RemoveFiles (file_ids : list FileId)
  | Clear (recording : bool).

Definition step self (o : op) : LuaDependencyIndex :=
  match o with
  | AddFile file dep k => add_dependency_file file dep k self
  | AddSite w site => add_dependency_site w site self
  | ResetDerived w file => reset_derived_sites w file self
  | Forget target => forget_unresolved_target target self
  | Relink target => relink_unresolved_target target self
  | Remove file => remove file self
  | RemoveFiles files => remove_files files self
  | Clear recording => clear recording self
  end.

Definition run (ops : list op) : LuaDependencyIndex := foldl step new ops.

(** ** The invariant *)

Lemma empty_consistent self :
  dependencies self = ∅ -> dependency_kinds self = ∅ -> dependency_callers_by_target self = ∅ ->
  dependency_sites self = ∅ -> resolved_sites_by_target self = ∅ -> unresolved_dependents_by_path_key self = ∅ ->
  consistent self /\ complete self.
Proof.
  intros Hd Hk Hc Hs Hr Hu.
  assert (Hsites : forall s, sites self s = []) by (intros s; unfold sites; by rewrite Hs, at_empty).
  repeat split; unfold callers, deps, kinds, resolved, unresolved, covered, complete in *;
    rewrite ?Hd, ?Hk, ?Hc, ?Hr, ?Hu; intros *; rewrite ?at_empty, ?Hsites; try set_solver.
  - intros Hs'. rewrite lookup_empty in Hs'. by destruct Hs'.
  - constructor.
Qed.

Lemma add_file_same_sites file dep k self : same_sites self (add_dependency_file file dep k self).
Proof.
  destruct (add_file_rest file dep k self) as (Es & Er & Eu & Em & _). unfold same_sites. by rewrite Es, Er, Eu, Em.
Qed.

Lemma add_file_consistent file dep k self : consistent self -> consistent (add_dependency_file file dep k self).
Proof.
  intros [He Hr Hc]. destruct (add_file_rest file dep k self) as (Es & Er & Eu & _).
  split; [by apply add_file_edges| |].
  - apply (same_sites_reversed self); [apply add_file_same_sites|done].
  - intros s site t Hsite Ht. unfold sites in Hsite. rewrite Es in Hsite.
    destruct (Hc s site t Hsite Ht) as (ks & Hks & Hin).
    destruct (add_file_kinds_keep file dep k self s t ks Hks) as (ks' & ? & ?). exists ks'. split; [done|set_solver].
Qed.

Lemma remove_files_consistent fs self : consistent self -> consistent (remove_files fs self).
Proof. apply remove_files_ind. intros f self'. apply remove_consistent. Qed.

Lemma step_consistent self o : consistent self -> consistent (step self o).
Proof.
  destruct o; simpl; intros Hc.
  - by apply add_file_consistent.
  - by apply add_site_consistent.
  - by apply reset_consistent.
  - destruct Hc as [He Hr Hk]. split; [by eapply edges_ext|destruct Hr as [A B C D]; exact (Build_reversed (forget_unresolved_target target self) A B C D)|done].
  - by apply (cb_consistent _ _ _ (relink_came_back _ self)).
  - by apply remove_consistent.
  - by apply remove_files_consistent.
  - by apply empty_consistent.
Qed.

Lemma run_app ops ops' : run (ops ++ ops') = foldl step (run ops) ops'.
Proof. apply foldl_app. Qed.

Lemma steps_consistent ops self : consistent self -> consistent (foldl step self ops).
Proof. revert self. induction ops as [|o ops IH]; intros self Hc; [done|]. by apply IH, step_consistent. Qed.

Lemma run_consistent ops : consistent (run ops).
Proof. apply steps_consistent. by apply empty_consistent. Qed.

(** Without a target that comes back, the unresolved sites are also complete. *)
Definition relinks (o : op) : bool := match o with Relink _ => true | _ => false end.

Lemma step_complete self o : relinks o = false -> consistent self -> complete self -> complete (step self o).
Proof.
  destruct o as [file dep k|w site| | | | |fs|]; simpl; intros Ho Hc Hcomp; try discriminate Ho.
  - apply (same_sites_complete self); [apply add_file_same_sites|done].
  - by apply add_site_complete.
  - by apply reset_complete.
  - done.
  - apply remove_complete; [apply Hc|done].
  - apply (remove_files_ind (fun self => consistent self /\ complete self)); [|done].
    intros f self' [Hc' Hcomp']. split; [by apply remove_consistent|]. apply remove_complete; [apply Hc'|done].
  - by apply empty_consistent.
Qed.

Lemma run_complete ops : forallb (fun o => negb (relinks o)) ops = true -> complete (run ops).
Proof.
  intros Hops. assert (H : forall self, consistent self -> complete self -> complete (foldl step self ops)).
  { induction ops as [|o ops IH]; intros self Hc Hcomp; [done|]. simpl in *.
    apply andb_true_iff in Hops as [Ho%negb_true_iff Hops].
    apply IH; [done|by apply step_consistent|by apply step_complete]. }
  apply H; by apply empty_consistent.
Qed.

(** C29: whatever is done to the index, the edges, their kinds and their callers
    agree, a location is listed under a target exactly when the site there
    loads it and only once, what waits for a path is an unresolved site, and
    each resolved site has an edge of its kind. *)
Theorem run_well_formed (ops : list op) :
  let self := run ops in
  (forall s t, s ∈ callers self t <-> t ∈ deps self s)
  /\ (forall s t, is_Some (kinds self s !! t) <-> t ∈ deps self s)
  /\ (forall t s i, (s, i) ∈ resolved self t
       <-> exists site, sites self s !! i = Some site /\ target_file_id site = Some t)
  /\ (forall t, NoDup (resolved self t))
  /\ (forall k s, s ∈ unresolved self k ->
       exists site, site ∈ sites self s /\ target_file_id site = None /\ k ∈ path_keys site)
  /\ (forall s site, site ∈ sites self s -> source_file_id site = s)
  /\ (forall s site t, site ∈ sites self s -> target_file_id site = Some t ->
       exists ks, kinds self s !! t = Some ks /\ kind site ∈ ks).
Proof. intros self. destruct (run_consistent ops) as [[] [] Hc]. by split_and!. Qed.

(** ** The readers *)

Lemma collected_elem self keys f :
  f ∈ collect_unresolved_path_dependents self keys <-> exists k, k ∈ keys /\ f ∈ unresolved self k.
Proof.
  unfold collect_unresolved_path_dependents, sort_ids. rewrite (sort_by_perm N.leb), elem_of_elements.
  enough (H : forall acc, f ∈ foldl (fun dependents key =>
      match unresolved_dependents_by_path_key self !! key with
      | Some path_dependents => path_dependents ∪ dependents | None => dependents end) acc keys
    <-> f ∈ acc \/ exists k, k ∈ keys /\ f ∈ unresolved self k) by (rewrite H; split; [intros [Hf%elem_of_empty|]; [done|done]|auto]).
  induction keys as [|k keys IH]; intros acc; cbn [foldl]; [set_solver|].
  rewrite IH. setoid_rewrite elem_of_cons.
  assert (Hacc : forall g, g ∈ match unresolved_dependents_by_path_key self !! k with
                               | Some path_dependents => path_dependents ∪ acc | None => acc end
                 <-> g ∈ acc \/ g ∈ unresolved self k).
  { intros g. unfold unresolved, at_. destruct (_ !! k); simpl; set_solver. }
  rewrite Hacc. naive_solver.
Qed.

(** C31: the files that wait for one of the given paths come in order and once
    each; they have an unresolved site under one of the keys, and, as long as
    no target was linked again, every file that has one is there. *)
Theorem waiting_files_found (ops : list op) (keys : list rstring) :
  let self := run ops in
  let found := collect_unresolved_path_dependents self keys in
  Sorted (fun a b => (a <=? b)%N = true) found /\ NoDup found
  /\ (forall f, f ∈ found -> exists site k, site ∈ sites self f /\ target_file_id site = None
                                         /\ k ∈ path_keys site /\ k ∈ keys)
  /\ (forallb (fun o => negb (relinks o)) ops = true -> forall f site k,
       site ∈ sites self f -> target_file_id site = None -> k ∈ path_keys site -> k ∈ keys -> f ∈ found).
Proof.
  intros self found. split_and!.
  - apply sort_by_sorted. intros a b. rewrite N.leb_gt, N.leb_le. lia.
  - unfold found, collect_unresolved_path_dependents, sort_ids. rewrite (sort_by_perm N.leb). apply NoDup_elements.
  - intros f (k & Hk & Hf)%collected_elem. destruct (run_consistent ops) as [_ [] _].
    destruct (rv_unresolved k f Hf) as (site & ? & ? & ?). eauto 6.
  - intros Hops f site k Hs Ht Hkey Hk. apply collected_elem. exists k. split; [done|].
    by apply (run_complete ops Hops f site).
Qed.

Lemma waiting_files_found_witness :
  let site := mkSite 3%N None Include None [[120%N]] [] (mkTextRange 0 1) (mkTextRange 0 1) in
  3%N ∈ collect_unresolved_path_dependents (run [AddSite true site; Remove 4%N]) [[120%N]].
Proof.
  intros site.
  refine (proj2 (proj2 (proj2 (waiting_files_found [AddSite true site; Remove 4%N] [[120%N]]))) _ 3%N site [120%N] _ _ _ _);
    solve [reflexivity | vm_compute; repeat constructor].
Defined.

Lemma site_at_sites self l : site_at self l = sites self l.1 !! l.2.
Proof. unfold site_at, sites, at_. by destruct (dependency_sites self !! l.1). Qed.

(** The sites that load a file are the sites, of all files, whose target it
    is: as many times as they are there. *)
Theorem sites_loading_exact (ops : list op) (target : FileId) :
  let self := run ops in
  exists locations : list DependencySiteLocation,
    NoDup locations
    /\ (forall s i, (s, i) ∈ locations
          <-> exists site, sites self s !! i = Some site /\ target_file_id site = Some target)
    /\ map (site_at self) locations = map Some (get_sites_loading self target).
Proof.
  intros self. destruct (run_consistent ops) as [_ [_ Hres Hnd _] _]. fold self in Hres, Hnd.
  exists (resolved self target). split_and!; [done|intros s i; apply Hres|].
  unfold get_sites_loading. change (from_option id [] _) with (resolved self target).
  assert (Hall : forall l, l ∈ resolved self target ->
            exists site, site_at self l = Some site /\ target_file_id site = Some target).
  { intros [s i] Hin. rewrite site_at_sites. by apply Hres. }
  revert Hall. generalize (resolved self target) as ls. induction ls as [|l ls IH]; intros Hall; [done|].
  destruct (Hall l) as (site & Hl & Ht); [by left|]. cbn [map omap list_omap]. rewrite Hl. simpl.
  rewrite bool_decide_true by done. simpl. f_equal. apply IH. intros l' Hl'. apply Hall. by right.
Qed.

(** ** What the evaluation is told of *)

(** What [dependency_fact] reads of a file. *)
Definition untouched (f : FileId) self self' : Prop :=
  dependencies self' !! f = dependencies self !! f
  /\ dependency_kinds self' !! f = dependency_kinds self !! f
  /\ dependency_sites self' !! f = dependency_sites self !! f.

(** Either the file is noted or it is left alone. *)
Definition told (f : FileId) self self' : Prop :=
  exists log, noted self' = noted self ++ log /\ (Dependency f ∈ log \/ untouched f self self').

Lemma untouched_fact f self self' : untouched f self self' -> dependency_fact self' f = dependency_fact self f.
Proof. intros (Hd & Hk & Hs). unfold dependency_fact. by rewrite Hd, Hk, Hs. Qed.

Lemma untouched_trans f self self1 self2 : untouched f self self1 -> untouched f self1 self2 -> untouched f self self2.
Proof. intros (? & ? & ?) (? & ? & ?). split_and!; congruence. Qed.

Lemma told_trans f self self1 self2 : told f self self1 -> told f self1 self2 -> told f self self2.
Proof.
  intros (l1 & E1 & H1) (l2 & E2 & H2). exists (l1 ++ l2). rewrite E2, E1, app_assoc. split; [done|].
  rewrite elem_of_app. destruct H1, H2; eauto using untouched_trans.
Qed.

Lemma told_untouched f self self' : noted self' = noted self -> untouched f self self' -> told f self self'.
Proof. intros Hn Hu. exists []. rewrite app_nil_r. auto. Qed.

Lemma told_refl f self : told f self self.
Proof. by apply told_untouched. Qed.

(** A step that notes its file and leaves the others alone. *)
Lemma told_noted f source self self' log :
  noted self' = noted self ++ log -> Dependency source ∈ log -> (f <> source -> untouched f self self') ->
  told f self self'.
Proof. intros Hn Hin Hu. exists log. split; [done|]. destruct (decide (f = source)) as [->|]; auto. Qed.

Lemma told_foldl {A} f (g : LuaDependencyIndex -> A -> LuaDependencyIndex) l self :
  (forall self x, told f self (g self x)) -> told f self (foldl g self l).
Proof.
  intros Hg. revert self. induction l as [|x l IH]; intros self; [apply told_refl|].
  cbn [foldl]. eapply told_trans; [apply Hg|apply IH].
Qed.

Lemma entry_other {K V} `{Countable K} (k k' : K) (d : V) g m : k' <> k -> entry_or_default k d g m !! k' = m !! k'.
Proof. intros Hk. unfold entry_or_default. by rewrite lookup_partial_alter_ne. Qed.

Lemma change_other {K V} `{Countable K} (k k' : K) e (g : V -> V) m :
  k' <> k -> change_or_remove k e g m !! k' = m !! k'.
Proof.
  intros Hk. unfold change_or_remove. destruct (m !! k) as [v|]; [|done].
  destruct (e (g v)); [by rewrite lookup_delete_ne|by rewrite lookup_insert_ne].
Qed.

Lemma add_file_told f file dep k self : told f self (add_dependency_file file dep k self).
Proof.
  eapply (told_noted f file); [apply add_file_rest|by left|]. intros Hf.
  unfold add_dependency_file. simpl.
  destruct (negb _); split_and!; simpl; by rewrite ?entry_other.
Qed.

Lemma add_site_told f w site self : told f self (add_dependency_site w site self).
Proof.
  destruct (add_site_cases w site self) as [[-> _]|[_ ->]]; [apply told_refl|].
  set (pre := pre_site w site self).
  assert (Hpre : exists log, noted pre = noted self ++ log /\ Dependency (source_file_id site) ∈ log).
  { unfold pre, pre_site. destruct w; simpl; [eexists; split; [done|by left]|].
    rewrite <- app_assoc. eexists; split; [done|by right; left]. }
  assert (Hrest : untouched f self pre) by (unfold pre, pre_site; by destruct w).
  destruct Hpre as (log & Hn & Hin).
  set (mid := match target_file_id site with Some _ => _ | None => _ end).
  assert (Hmid : exists log', noted mid = noted pre ++ log' /\ (f <> source_file_id site -> untouched f pre mid)).
  { unfold mid. destruct (target_file_id site) as [t|].
    - destruct (add_file_told f (source_file_id site) t (kind site) pre) as (log' & Hn' & Hor).
      exists log'. split; [done|]. intros Hf.
      unfold add_dependency_file. simpl. destruct (negb _); split_and!; simpl; by rewrite ?entry_other.
    - exists []. by rewrite app_nil_r. }
  destruct Hmid as (log' & Hn' & Hu).
  eapply (told_noted f (source_file_id site) self _ (log ++ log')).
  - simpl. by rewrite Hn', Hn, app_assoc.
  - apply elem_of_app. by left.
  - intros Hf. eapply untouched_trans; [exact Hrest|]. eapply untouched_trans; [by apply Hu|].
    split_and!; simpl; [done|done|by rewrite entry_other].
Qed.

Lemma remove_source_told f source self :
  f <> source -> told f self (remove_source_dependency_edges source self).
Proof.
  intros Hf. apply told_untouched; [by unfold remove_source_dependency_edges; destruct (dependencies self !! source)|].
  unfold remove_source_dependency_edges. destruct (dependencies self !! source); split_and!; simpl;
    by rewrite ?lookup_delete_ne.
Qed.

Lemma remove_edge_told f target self source : told f self (remove_edge target self source).
Proof.
  apply (told_noted f source self _ [Dependency source]); [done|by left|].
  intros Hf. split_and!; simpl; by rewrite ?change_other.
Qed.

Lemma remove_incoming_told f target self : told f self (remove_incoming_dependency_edges target self).
Proof.
  unfold remove_incoming_dependency_edges. destruct (_ !! target) as [cs|]; [|apply told_refl].
  apply (told_trans f self (with_callers (delete target) self)); [by apply told_untouched|].
  apply told_foldl. intros. apply remove_edge_told.
Qed.

Lemma flip_site_told f target acc location : told f acc.1 (flip_site target acc location).1.
Proof.
  destruct acc as [self flipped]. unfold flip_site. simpl.
  destruct (dependency_sites self !! location.1) as [l|]; [|apply told_refl].
  destruct (l !! location.2) as [site|]; [|apply told_refl].
  destruct (bool_decide _); [|apply told_refl].
  apply (told_noted f location.1 self _ [Dependency location.1]); [done|by left|].
  intros Hf. split_and!; simpl; by rewrite ?lookup_insert_ne.
Qed.

Lemma told_foldl_fst {A B} f (g : LuaDependencyIndex * B -> A -> LuaDependencyIndex * B) l acc :
  (forall acc x, told f acc.1 (g acc x).1) -> told f acc.1 (foldl g acc l).1.
Proof.
  intros Hg. revert acc. induction l as [|x l IH]; intros acc; [apply told_refl|].
  cbn [foldl]. eapply told_trans; [apply Hg|apply IH].
Qed.

Lemma transition_told f target self : told f self (transition_target_sites_to_unresolved target self).
Proof.
  unfold transition_target_sites_to_unresolved. destruct (_ !! target) as [ls|]; [|apply told_refl].
  apply (told_trans f self (with_resolved (delete target) self)); [by apply told_untouched|].
  pose proof (told_foldl_fst f (flip_site target) (sort_by location_le ls) (with_resolved (delete target) self, [])
    (flip_site_told f target)) as Ht.
  destruct (foldl _ _ _) as [self1 flipped]. simpl in Ht. destruct (list_empty flipped); [done|].
  eapply told_trans; [exact Ht|]. by apply told_untouched.
Qed.

(** A file that was noted just before may be changed. *)
Lemma told_after f source self log self1 self2 :
  noted self1 = noted self ++ log -> Dependency source ∈ log ->
  (f <> source -> untouched f self self1 /\ told f self1 self2) ->
  (exists log', noted self2 = noted self1 ++ log') -> told f self self2.
Proof.
  intros Hn Hin Hu (log' & Hn'). destruct (decide (f = source)) as [->|Hf].
  - exists (log ++ log'). rewrite Hn', Hn, app_assoc. split; [done|]. left. apply elem_of_app. by left.
  - destruct (Hu Hf) as [Hu1 Ht]. eapply told_trans; [|exact Ht].
    exists log. split; [done|by right].
Qed.

Lemma told_extends f self self' : told f self self' -> exists log, noted self' = noted self ++ log.
Proof. intros (log & ? & _). by exists log. Qed.

Lemma remove_source_noted source self : noted (remove_source_dependency_edges source self) = noted self.
Proof. unfold remove_source_dependency_edges. by destruct (dependencies self !! source). Qed.

Lemma remove_told f file self : told f self (remove file self).
Proof.
  rewrite remove_unfold. unfold without_file.
  set (self0 := with_derived (delete file) (note_write (Dependency file) self)).
  set (self1 := match dependency_sites self !! file with
                | Some l => unindex_source_sites file l (with_sites (delete file) self0) | None => self0 end).
  assert (H1 : noted self1 = noted self ++ [Dependency file] /\ (f <> file -> untouched f self self1)).
  { unfold self1, self0. destruct (dependency_sites self !! file); split; [done| |done|done].
    intros Hf. split_and!; simpl; [done|done|by rewrite lookup_delete_ne]. }
  destruct H1 as [Hn Hu].
  assert (Hrest : forall self2, told f self2 (remove_incoming_dependency_edges file
                                  (transition_target_sites_to_unresolved file self2)))
    by (intros self2; eapply told_trans; [apply transition_told|apply remove_incoming_told]).
  eapply (told_after f file self [Dependency file] self1); [done|by left| |].
  - intros Hf. split; [by apply Hu|]. eapply told_trans; [by apply remove_source_told|apply Hrest].
  - destruct (told_extends _ _ _ (Hrest (remove_source_dependency_edges file self1))) as [log Hl].
    exists log. etransitivity; [exact Hl|]. by rewrite remove_source_noted.
Qed.

(** *** [reset_derived_sites] and [relink_unresolved_target] *)

Lemma readd_sites_told f w l derived self : told f self (foldl (readd_site w) (derived, self) l).2.
Proof.
  apply (readd_sites_ind (told f self)); [|apply told_refl].
  intros site self' Ht. eapply told_trans; [exact Ht|apply add_site_told].
Qed.

Lemma reset_told f w file self : told f self (reset_derived_sites w file self).
Proof.
  unfold reset_derived_sites. destruct (derived_sites self !! file) as [derived|]; [|apply told_refl].
  set (self0 := note_write (Dependency file) (with_derived (delete file) self)).
  set (l := from_option id [] (dependency_sites self0 !! file)).
  set (self1 := unindex_source_sites file l (with_sites (delete file) self0)).
  eapply (told_after f file self [Dependency file] self1); [done|by left| |].
  - intros Hf. split; [split_and!; simpl; [done|done|by rewrite lookup_delete_ne]|].
    eapply told_trans; [by apply remove_source_told|apply readd_sites_told].
  - destruct (told_extends _ _ _ (readd_sites_told f w l derived (remove_source_dependency_edges file self1)))
      as [log Hl].
    exists log. etransitivity; [exact Hl|]. by rewrite remove_source_noted.
Qed.

Lemma restore_sites_none source target p i l :
  (restore_sites source target p i l).2 = [] -> (restore_sites source target p i l).1 = l.
Proof.
  revert i. induction l as [|x l IH]; intros i; [done|]. simpl.
  specialize (IH (S i)). destruct (restore_sites source target p (S i) l) as [l' r].
  destruct (_ || _); simpl in *; [|done]. intros Hr. by rewrite IH.
Qed.

Lemma note_all_noted {A} key (l : list A) self :
  noted (foldl (fun self _ => note_write key self) self l) = noted self ++ replicate (length l) key
  /\ forall f, untouched f self (foldl (fun self _ => note_write key self) self l).
Proof.
  revert self. induction l as [|x l IH]; intros self; cbn [foldl length replicate]; [by rewrite app_nil_r|].
  destruct (IH (note_write key self)) as [-> Hu]. split; [simpl; by rewrite <- app_assoc|].
  intros f. eapply untouched_trans; [|apply Hu]. done.
Qed.

Lemma restore_entry_told f target acc e : told f acc.1 (restore_entry target acc e).1.
Proof.
  destruct acc as [self restored]. unfold restore_entry. simpl.
  destruct (dependency_sites self !! e.1) as [l|] eqn:Hl; [|apply told_refl].
  pose proof (restore_sites_none e.1 target e.2 0 l) as Hnone.
  destruct (restore_sites e.1 target e.2 0 l) as [l' more]. simpl in *.
  destruct (note_all_noted (Dependency e.1) more (with_sites (insert e.1 l') self)) as [Hn Hu].
  exists (replicate (length more) (Dependency e.1)). split; [done|].
  destruct (decide (f = e.1)) as [->|Hf].
  - destruct more as [|x more]; [right|left; by left].
    eapply untouched_trans; [|apply Hu]. rewrite Hnone by done.
    split_and!; simpl; [done|done|]. by rewrite lookup_insert_eq.
  - right. eapply untouched_trans; [|apply Hu]. split_and!; simpl; by rewrite ?lookup_insert_ne.
Qed.

Lemma relink_told f target self : told f self (relink_unresolved_target target self).
Proof.
  unfold relink_unresolved_target. destruct (_ !! target) as [es|]; [|apply told_refl].
  apply (told_trans f self (with_removed (delete target) self)); [by apply told_untouched|].
  pose proof (told_foldl_fst f (restore_entry target) es (with_removed (delete target) self, [])
    (restore_entry_told f target)) as Ht.
  destruct (foldl _ _ _) as [self1 restored]. simpl in Ht. destruct (list_empty restored); [done|].
  eapply told_trans; [exact Ht|].
  apply (told_trans f self1 (unindex_unresolved_sites (map snd restored) self1)); [by apply told_untouched|].
  apply told_foldl. intros self2 [[s i] x]. unfold relink_site.
  eapply told_trans; [apply (add_file_told f s target (kind x))|]. by apply told_untouched.
Qed.

Lemma clear_told f self : told f self (clear true self).
Proof.
  eexists. split; [done|].
  set (log := map Dependency _).
  destruct (decide (Dependency f ∈ log)) as [|Hno]; [by left|]. right.
  assert (Hkeys : forall V (m : gmap FileId V), (forall x, x ∈ map Dependency (map fst (map_to_list m)) -> x ∈ log) ->
            m !! f = None).
  { intros V m Hm. destruct (m !! f) as [v|] eqn:Hv; [|done]. destruct Hno. apply Hm.
    apply list_elem_of_fmap. exists f. split; [done|]. apply list_elem_of_fmap. exists (f, v).
    split; [done|]. by apply elem_of_map_to_list. }
  unfold log in *. split_and!; simpl; rewrite lookup_empty; symmetry; apply Hkeys; intros x;
    rewrite !map_app, !elem_of_app; tauto.
Qed.

Lemma step_told f self o : o <> Clear false -> told f self (step self o).
Proof.
  intros Ho. destruct o as [| | | | | |fs|[]]; simpl; [..|done].
  - apply add_file_told.
  - apply add_site_told.
  - apply reset_told.
  - by apply told_untouched.
  - apply relink_told.
  - apply remove_told.
  - apply (remove_files_ind (told f self)); [|apply told_refl].
    intros g self' Ht. eapply told_trans; [exact Ht|apply remove_told].
  - apply clear_told.
Qed.

(** An operation that changes what the fact of a file says tells the
    evaluation that is recorded that it wrote it (a [clear] that nothing
    records tells nothing). *)
Theorem changes_are_noted (self : LuaDependencyIndex) (o : op) (f : FileId) :
  o <> Clear false -> dependency_fact (step self o) f <> dependency_fact self f ->
  Dependency f ∈ drop (length (noted self)) (noted (step self o)).
Proof.
  intros Ho Hne. destruct (step_told f self o Ho) as (log & -> & Hor). rewrite drop_app_length.
  destruct Hor as [|Hu]; [done|]. destruct Hne. by apply untouched_fact.
Qed.

Lemma changes_are_noted_witness :
  let site := mkSite 3%N (Some 4%N) Include None [] [] (mkTextRange 0 1) (mkTextRange 0 1) in
  Dependency 3%N ∈ drop 2 (noted (step (run [AddSite true site]) (Remove 4%N))).
Proof.
  intros site. refine (changes_are_noted (run [AddSite true site]) (Remove 4%N) 3%N _ _); by vm_compute.
Defined.

(** ** A file that goes and comes back *)

Lemma without_file_fields f self :
  (forall s, sites (without_file f self) s = if decide (f = s) then [] else sites self s)
  /\ unresolved_by_removal (without_file f self) = unresolved_by_removal self.
Proof.
  unfold without_file. cbv zeta.
  match goal with |- context [remove_source_dependency_edges f ?x] =>
    destruct (remove_source_same_sites f x) as (Hs & _ & _ & Hm) end.
  split; [intros s; unfold sites at 1; rewrite Hs|rewrite Hm];
    cbn [with_derived note_write dependency_sites]; destruct (dependency_sites self !! f) eqn:Hf; simpl; try done.
  - by rewrite at_delete.
  - case_decide; [subst|done]. unfold at_. by rewrite Hf.
Qed.

Lemma remove_sites f self s :
  reversed self ->
  sites (remove f self) s = map (DependencyProofs.flip f) (if decide (f = s) then [] else sites self s).
Proof.
  intros Hr. rewrite remove_unfold.
  destruct (remove_incoming_same_sites f (transition_target_sites_to_unresolved f (without_file f self)))
    as (Hs & _). unfold sites at 1. rewrite Hs. change (at_ [] _ s) with
    (sites (transition_target_sites_to_unresolved f (without_file f self)) s).
  rewrite (tr_sites _ _ _ (transition_spec f (without_file f self) (without_file_reversed f self Hr))).
  by rewrite (proj1 (without_file_fields f self)).
Qed.

Lemma remove_flipped f self e :
  reversed self ->
  e ∈ at_ [] (unresolved_by_removal (remove f self)) f
  <-> (exists x, x ∈ sites (without_file f self) e.1 /\ target_file_id x = Some f /\ e.2 = path x)
      \/ (forall s x, x ∈ sites (without_file f self) s -> target_file_id x <> Some f)
         /\ e ∈ at_ [] (unresolved_by_removal self) f.
Proof.
  intros Hr. rewrite remove_unfold.
  destruct (remove_incoming_same_sites f (transition_target_sites_to_unresolved f (without_file f self)))
    as (_ & _ & _ & ->).
  rewrite (tr_removed _ _ _ (transition_spec f (without_file f self) (without_file_reversed f self Hr))).
  by rewrite (proj2 (without_file_fields f self)).
Qed.

(** The sites of [s] with the path [p] come back with [target]: one of them loads
    it, or no other file loads it and an earlier removal has left the path. *)
Definition comes_with self (target s : FileId) (p : option rstring) : Prop :=
  (exists x, x ∈ sites self s /\ target_file_id x = Some target /\ path x = p)
  \/ (forall s' x, s' <> target -> x ∈ sites self s' -> target_file_id x <> Some target)
     /\ (s, p) ∈ at_ [] (unresolved_by_removal self) target.

Lemma remove_comes_with target self s p :
  reversed self -> s <> target ->
  (s, p) ∈ at_ [] (unresolved_by_removal (remove target self)) target <-> comes_with self target s p.
Proof.
  intros Hr Hs. rewrite remove_flipped by done. unfold comes_with. cbn [fst snd].
  assert (Hw : forall s', sites (without_file target self) s' = if decide (target = s') then [] else sites self s')
    by apply without_file_fields.
  rewrite Hw, decide_False by done.
  assert ((forall s' x, x ∈ sites (without_file target self) s' -> target_file_id x <> Some target)
          <-> forall s' x, s' <> target -> x ∈ sites self s' -> target_file_id x <> Some target) as ->.
  { split; intros Hno s' x.
    - intros Hs' Hx. apply (Hno s'). by rewrite Hw, decide_False.
    - rewrite Hw. case_decide; [by intros ?%elem_of_nil|]. intros Hx. by apply (Hno s'). }
  naive_solver.
Qed.

(** The site [x] of [s] is unresolved and comes back with [target]. *)
Definition waits self (target s : FileId) (x : LuaDependencySite) : Prop :=
  target_file_id x = None /\ comes_with self target s (path x).

Lemma restore_flipped self target s x :
  reversed self -> s <> target -> x ∈ sites self s ->
  let y := restore target (at_ [] (unresolved_by_removal (remove target self)) target) s
             (DependencyProofs.flip target x) in
  (waits self target s x -> y = set_target (Some target) x) /\ (~ waits self target s x -> y = x).
Proof.
  intros Hr Hs Hx. cbv zeta. unfold restore, waits. rewrite <-(remove_comes_with target self s (path x) Hr Hs).
  destruct (flip_same target x) as (_ & _ & -> & _). pose proof (flip_none target x) as Hnone.
  destruct (decide (target_file_id x = Some target)) as [Ht|Ht].
  - rewrite decide_True.
    + split; [by intros [? _]; rewrite Ht in *|]. intros _. unfold DependencyProofs.flip.
      rewrite decide_True by done. unfold set_target. destruct x; simpl in *. by subst.
    + split; [by apply Hnone; right|]. rewrite remove_comes_with by done. left. by exists x.
  - assert (DependencyProofs.flip target x = x) as -> by (unfold DependencyProofs.flip; by rewrite decide_False).
    case_decide; tauto.
Qed.

(** C30: a file that is removed and comes back, [relink_unresolved_target], finds
    every site of another file as it was, but for those that were unresolved and
    wait for it.  These are, exactly, the unresolved sites that name the path of a
    site of the same file that loaded the target, and, when no other file loaded
    the target at all, those whose path an earlier removal has left.  They are
    resolved to the target: the way back is the inverse of the removal if and only
    if there is no such site. *)
Theorem comes_back (ops : list op) (target s : FileId) :
  s <> target ->
  let before := run ops in
  let after := run (ops ++ [Remove target; Relink target]) in
  Forall2 (fun x y => (waits before target s x -> y = set_target (Some target) x)
                      /\ (~ waits before target s x -> y = x)) (sites before s) (sites after s)
  /\ (sites after s = sites before s <-> forall x, x ∈ sites before s -> ~ waits before target s x).
Proof.
  intros Hs before after. destruct (run_consistent ops) as [_ Hr _]. fold before in Hr.
  assert (Hafter : sites after s = map (fun x => restore target
            (at_ [] (unresolved_by_removal (remove target before)) target) s (DependencyProofs.flip target x))
            (sites before s)).
  { unfold after. rewrite run_app. cbn [foldl step]. fold before.
    rewrite (cb_sites _ _ _ (relink_came_back target (remove target before))).
    by rewrite remove_sites, decide_False, map_map by auto. }
  assert (Hall : Forall (fun x => let y := restore target
            (at_ [] (unresolved_by_removal (remove target before)) target) s (DependencyProofs.flip target x) in
            (waits before target s x -> y = set_target (Some target) x) /\ (~ waits before target s x -> y = x))
            (sites before s)) by (apply Forall_forall; intros x Hx; by apply restore_flipped).
  rewrite Hafter. clear Hafter. split; [by apply Forall2_fmap_r, Forall_Forall2_diag|]. split.
  - intros Heq x Hx Hw. apply list_elem_of_lookup in Hx as [i Hx].
    assert (Hi := Heq). apply (f_equal (fun l => l !! i)) in Hi.
    rewrite list_lookup_fmap, Hx in Hi. simpl in Hi. injection Hi as Hi.
    pose proof (proj1 (Forall_lookup_1 _ _ _ _ Hall Hx) Hw) as Hy. simpl in Hy. rewrite Hi in Hy.
    destruct Hw as [Hn _]. rewrite Hy in Hn. discriminate.
  - intros Hno. rewrite <- (list_fmap_id (sites before s)) at 2. apply map_ext_in.
    intros x Hx%list_elem_of_In. by apply (proj1 (Forall_forall _ _) Hall x Hx), Hno.
Qed.

(** A site that loads the target, and one that waits with it. *)
Lemma comes_back_witness :
  let site kind target := mkSite 3%N target kind (Some [97%N]) [] [] (mkTextRange 0 1) (mkTextRange 0 1) in
  let ops := [AddSite true (site Include (Some 4%N)); AddSite true (site Require None)] in
  sites (run (ops ++ [Remove 4%N; Relink 4%N])) 3%N <> sites (run ops) 3%N.
Proof.
  intros site ops Heq.
  refine (proj1 (proj2 (comes_back ops 4%N 3%N _)) Heq (site Require None) _ _).
  - discriminate.
  - vm_compute. right. left.
  - split; [reflexivity|]. left. exists (site Include (Some 4%N)). split_and!; [vm_compute; left|done|done].
Defined.

(** A site that waited for the path of a target is resolved with it when the
    target comes back, also one that did not load it. *)
Example relink_resolves_others :
  let site kind target := mkSite 3%N target kind (Some [97%N]) [] [] (mkTextRange 0 1) (mkTextRange 0 1) in
  map target_file_id (sites (run [AddSite true (site Include (Some 4%N)); AddSite true (site Require None);
    Remove 4%N; Relink 4%N]) 3%N) = [Some 4%N; Some 4%N].
Proof. by vm_compute. Qed.

(** A site that waits under a key that it shares with a restored one is lost
    from the reverse index. *)
Example relink_loses_waiting :
  let site path target := mkSite 3%N target Include (Some path) [[97%N]] [] (mkTextRange 0 1) (mkTextRange 0 1) in
  collect_unresolved_path_dependents (run [AddSite true (site [97%N] (Some 4%N)); AddSite true (site [98%N] None);
    Remove 4%N; Relink 4%N]) [[97%N]] = [].
Proof. by vm_compute. Qed.
