(* ===== verification/EditMap.v ===== *)
(** * Where an edit moves things

    [src/crates/glua_code_analysis/src/db_index/edit/position_map.rs]: the
    hunks between two versions of a text ([Diff]), the map of offsets and
    ranges that they make ([PositionMap]), its composition and its inverse.

    A text is the list of its bytes, as the code indexes [as_bytes()].  Offsets
    into it are [usize] ([nat]); the offsets of a hunk are [u32] ([N]).  An index
    or a slice out of range, and a subtraction below zero, is a panic. *)

From S2P Require Import Prelude Text.
From stdpp Require Import list gmap sorting.
Local Open Scope prog_scope.

(** ** Arithmetic on [u32] *)

Definition u32_max : N := 4294967295.
(** [a + b] in a release build. *)
Definition u32_add (a b : N) : N := ((a + b) mod 2 ^ 32)%N.
Definition saturating_add (a b : N) : N := N.min (a + b) u32_max.

(** ** Bytes of a string *)

Notation bytes := (list N).

(** [str::as_bytes]: the UTF-8 encoding of the characters. *)
Definition utf8_char (c : char) : bytes :=
  (if c <? 0x80 then [c]
   else if c <? 0x800 then [192 + c / 64; 128 + c mod 64]
   else if c <? 0x10000 then [224 + c / 4096; 128 + c / 64 mod 64; 128 + c mod 64]
   else [240 + c / 262144; 128 + c / 4096 mod 64; 128 + c / 64 mod 64; 128 + c mod 64])%N.

Definition as_bytes (text : rstring) : bytes := flat_map utf8_char text.

(** [u8::is_utf8_char_boundary], turned round. *)
Definition is_continuation (b : N) : bool := ((128 <=? b) && (b <? 192))%N.

(** [str::is_char_boundary] *)
Definition is_char_boundary (t : bytes) (index : nat) : bool :=
  match index with
  | 0 => true
  | _ => match t !! index with
         | Some b => negb (is_continuation b)
         | None => (index =? length t)%nat
         end
  end.

(** [&t[start..end]] *)
Definition byte_slice (t : bytes) (start end_ : nat) : option bytes :=
  if ((start <=? end_) && (end_ <=? length t))%nat then Some (take (end_ - start) (drop start t)) else None.

(** [u8::is_ascii_whitespace] *)
Definition is_ascii_whitespace (b : N) : bool :=
  (N.eqb b 32 || N.eqb b 9 || N.eqb b 10 || N.eqb b 12 || N.eqb b 13)%N.

(** [iter().take_while(p).count()] *)
Definition count_while {A} (p : A -> bool) (l : list A) : nat := partition_point p l.

(** [zip(..).take_while(|(a, b)| a == b).count()] *)
Definition count_same (a b : bytes) : nat := count_while (fun x => N.eqb x.1 x.2) (zip a b).

(** ** Hunks *)

Record Hunk : Type := mkHunk { old_start : N; old_end : N; new_start : N; new_end : N }.

#[global] Instance hunk_eq_dec : EqDecision Hunk.
Proof. solve_decision. Defined.

Module Diff.

(** A line: its byte range. *)
Notation line := (nat * nat)%type.

Fixpoint lines_loop (at_ start : nat) (text : bytes) : list line * nat :=
  match text with
  | [] => ([], start)
  | byte :: text =>
      if N.eqb byte 10
      then let '(lines, last) := lines_loop (S at_) (S at_) text in ((start, S at_) :: lines, last)
      else lines_loop (S at_) start text
  end.

Definition lines (text : bytes) : list line :=
  let '(lines, start) := lines_loop 0 0 text in
  if (start <? length text)%nat then lines ++ [(start, length text)] else lines.

Definition content (text : bytes) (l : line) : option line :=
  line ← byte_slice text l.1 l.2;
  let leading := count_while is_ascii_whitespace line in
  rest ← byte_slice line leading (length line);
  let trailing := count_while is_ascii_whitespace (reverse rest) in
  Some (l.1 + leading, l.2 - trailing).

Definition key (text : bytes) (l : line) : option bytes :=
  '(start, end_) ← content text l;
  byte_slice text start end_.

Definition similar (old new : bytes) : bool :=
  if ((length old =? 0) || (length new =? 0))%nat then false else
  let shorter := length old `min` length new in
  let prefix := count_same old new in
  let suffix := count_while (fun x => N.eqb x.1 x.2)
                  (take (shorter - prefix) (zip (reverse (drop prefix old)) (reverse (drop prefix new)))) in
  (length old `max` length new <=? 2 * (prefix + suffix))%nat.

Definition same_line (old new : bytes) (old_line new_line : line) : option bool :=
  old_key ← key old old_line;
  new_key ← key new new_line;
  if negb (bool_decide (old_key = new_key)) then Some false else
  if negb (length old_key =? 0)%nat then Some true else
  a ← byte_slice old old_line.1 old_line.2;
  b ← byte_slice new new_line.1 new_line.2;
  Some (bool_decide (a = b)).

Definition span (lines : list line) (from to len : nat) : option line :=
  let start := from_option fst len (lines !! from) in
  if (from <? to)%nat then l ← lines !! (to - 1); Some (start, l.2) else Some (start, start).

(** *** [narrowed] *)

(** A checked index: [while .. && old[i] == new[j]]. *)
Definition same_byte (old new : bytes) (i j : nat) : option bool :=
  a ← old !! i; b ← new !! j; Some (N.eqb a b).

Definition both_boundaries (old new : bytes) (i j : nat) : bool :=
  is_char_boundary old i && is_char_boundary new j.

Definition narrowed (old new : bytes) (old_span new_span : line) : M (list Hunk) unit :=
  let '(old_start, old_end) := old_span in
  let '(new_start, new_end) := new_span in
  let* (old_start, new_start) := loop (S (old_end - old_start)) (fun '(os, ns) =>
      if ((os <? old_end) && (ns <? new_end))%nat then
        same <- unwrap (same_byte old new os ns);;
        ret (if same then inl (S os, S ns) else inr (os, ns))
      else ret (inr (os, ns))) (old_start, new_start) in
  let* (old_start, new_start) := loop (S old_start) (fun '(os, ns) =>
      if (0 <? os)%nat && negb (both_boundaries old new os ns) then
        match ns with 0 => panic | S ns' => ret (inl (os - 1, ns')) end
      else ret (inr (os, ns))) (old_start, new_start) in
  let* (old_end, new_end) := loop (S (old_end - old_start)) (fun '(oe, ne) =>
      if ((old_start <? oe) && (new_start <? ne))%nat then
        same <- unwrap (same_byte old new (oe - 1) (ne - 1));;
        ret (if same then inl (oe - 1, ne - 1) else inr (oe, ne))
      else ret (inr (oe, ne))) (old_end, new_end) in
  let* (old_end, new_end) := loop (S (length old - old_end)) (fun '(oe, ne) =>
      if (oe <? length old)%nat && negb (both_boundaries old new oe ne)
      then ret (inl (S oe, S ne))
      else ret (inr (oe, ne))) (old_end, new_end) in
  if ((old_start =? old_end) && (new_start =? new_end))%nat then ret tt
  else modify (fun hunks => hunks ++ [mkHunk (as_u32 old_start) (as_u32 old_end) (as_u32 new_start) (as_u32 new_end)]).

(** *** [edited_lines] *)

Section Lines.
Variables (old new : bytes) (old_lines new_lines : list line).

Definition similar_at (old_at new_at : nat) : option bool :=
  old_line ← old_lines !! old_at;
  new_line ← new_lines !! new_at;
  old_key ← key old old_line;
  new_key ← key new new_line;
  Some (similar old_key new_key).

Definition edited_lines (old_range new_range : nat * nat) : M (list Hunk) unit :=
  let '(old_from, old_to) := old_range in
  let '(new_from, new_to) := new_range in
  let* (old_from, new_from) := loop (S (old_to - old_from)) (fun '(old_from, new_from) =>
      if ((old_from <? old_to) && (new_from <? new_to))%nat then
        same <- unwrap (similar_at old_from new_from);;
        if (same : bool) then
          old_line <- unwrap (old_lines !! old_from);;
          new_line <- unwrap (new_lines !! new_from);;
          narrowed old new old_line new_line;;;
          ret (inl (S old_from, S new_from))
        else ret (inr (old_from, new_from))
      else ret (inr (old_from, new_from))) (old_from, new_from) in
  let* (old_to, new_to, tail) := loop (S (old_to - old_from)) (fun '(old_to, new_to, tail) =>
      if ((old_from <? old_to) && (new_from <? new_to))%nat then
        same <- unwrap (similar_at (old_to - 1) (new_to - 1));;
        if (same : bool) then
          old_line <- unwrap (old_lines !! (old_to - 1));;
          new_line <- unwrap (new_lines !! (new_to - 1));;
          ret (inl (old_to - 1, new_to - 1, tail ++ [(old_line, new_line)]))
        else ret (inr (old_to, new_to, tail))
      else ret (inr (old_to, new_to, tail))) (old_to, new_to, []) in
  old_span <- unwrap (span old_lines old_from old_to (length old));;
  new_span <- unwrap (span new_lines new_from new_to (length new));;
  narrowed old new old_span new_span;;;
  for_each (fun _ spans => narrowed old new spans.1 spans.2) (reverse tail) tt.

(** *** [match_lines] *)

Definition same_line_at (old_at new_at : nat) : option bool :=
  old_line ← old_lines !! old_at;
  new_line ← new_lines !! new_at;
  same_line old new old_line new_line.

Definition pair_le (a b : nat * nat) : bool := ((a.1 <? b.1) || ((a.1 =? b.1) && (a.2 <=? b.2)))%nat.

(** The lines of one side are counted: [enumerate().take(to).skip(from)]. *)
Definition seen_lines (text : bytes) (lines : list line) (from to : nat)
    (count : nat -> nat * nat * nat * nat -> nat * nat * nat * nat)
    (seen : gmap bytes (nat * nat * nat * nat)) : option (gmap bytes (nat * nat * nat * nat)) :=
  foldl (fun seen at_ =>
      seen ← seen; line ← lines !! at_; k ← key text line;
      Some (<[k := count at_ (from_option id (0, 0, 0, 0) (seen !! k))]> seen))
    (Some seen) (seq from ((to `min` length lines) - from)).

Fixpoint anchored_prev (previous : list (option nat)) (pairs : list (nat * nat)) (fuel : nat) (at_ : option nat)
    (run : list (nat * nat)) : outcome (list (nat * nat)) :=
  match at_ with
  | None => Done run
  | Some i =>
      match fuel with
      | 0 => OutOfFuel
      | S fuel =>
          match pairs !! i, previous !! i with
          | Some entry, Some before => anchored_prev previous pairs fuel before (run ++ [entry])
          | _, _ => Panic
          end
      end
  end.

(** One pair of [longest_increasing]; [None] is [usize::MAX]. *)
Definition extend_run (pairs : list (nat * nat)) (acc : list nat * list (option nat)) (x : nat * (nat * nat))
    : list nat * list (option nat) :=
  let '(tails, previous) := acc in
  let '(at_, (_, new_at)) := x in
  let place := partition_point (fun tail => from_option (fun entry => entry.2 <? new_at)%nat false (pairs !! tail)) tails in
  let previous := if (0 <? place)%nat then <[at_ := tails !! (place - 1)]> previous else previous in
  (if (place =? length tails)%nat then tails ++ [at_] else <[place := at_]> tails, previous).

Definition longest_increasing (pairs : list (nat * nat)) : outcome (list (nat * nat)) :=
  let '(tails, previous) :=
    foldl (extend_run pairs) ([], replicate (length pairs) None) (imap (fun at_ entry => (at_, entry)) pairs) in
  run ← anchored_prev previous pairs (S (length pairs)) (last tails) [];
  Done (reverse run).

Definition unique_anchors (old_range new_range : nat * nat) : outcome (list (nat * nat)) :=
  let seen := seen_lines old old_lines old_range.1 old_range.2 (fun at_ e => (e.1.1.1 + 1, at_, e.1.2, e.2)) ∅ in
  let seen := seen ← seen;
    seen_lines new new_lines new_range.1 new_range.2 (fun at_ e => (e.1.1.1, e.1.1.2, e.1.2 + 1, at_)) seen in
  seen ← expect seen;
  let pairs := omap (fun e : bytes * (nat * nat * nat * nat) =>
    let '(key, (in_old, old_at, in_new, new_at)) := e in
    if negb (length key =? 0)%nat && (in_old =? 1)%nat && (in_new =? 1)%nat then Some (old_at, new_at) else None)
    (map_to_list seen) in
  longest_increasing (sort_by pair_le pairs).

Definition lift {St A} (o : outcome A) : M St A :=
  fun s => match o with Done a => Done (a, s) | Panic => Panic | OutOfFuel => OutOfFuel end.

Definition push {A} (x : A) : M (list A) unit := modify (fun l => l ++ [x]).

Fixpoint match_lines (fuel : nat) (old_range new_range : nat * nat) : M (list (nat * nat)) unit :=
  match fuel with
  | 0 => out_of_fuel
  | S fuel =>
  let '(old_from, old_to) := old_range in
  let '(new_from, new_to) := new_range in
  let* (old_from, new_from) := loop (S (old_to - old_from)) (fun '(old_from, new_from) =>
      if ((old_from <? old_to) && (new_from <? new_to))%nat then
        same <- unwrap (same_line_at old_from new_from);;
        if (same : bool) then push (old_from, new_from);;; ret (inl (S old_from, S new_from))
        else ret (inr (old_from, new_from))
      else ret (inr (old_from, new_from))) (old_from, new_from) in
  let* (old_to, new_to, tail) := loop (S (old_to - old_from)) (fun '(old_to, new_to, tail) =>
      if ((old_from <? old_to) && (new_from <? new_to))%nat then
        same <- unwrap (same_line_at (old_to - 1) (new_to - 1));;
        ret (if (same : bool) then inl (old_to - 1, new_to - 1, tail ++ [(old_to - 1, new_to - 1)])
             else inr (old_to, new_to, tail))
      else ret (inr (old_to, new_to, tail))) (old_to, new_to, []) in
  when ((old_from <? old_to) && (new_from <? new_to))%nat (
    anchors <- lift (unique_anchors (old_from, old_to) (new_from, new_to));;
    when (negb (length anchors =? 0)%nat) (
      let* (old_at, new_at) := for_each (fun '(old_at, new_at) '(old_anchor, new_anchor) =>
          match_lines fuel (old_at, old_anchor) (new_at, new_anchor);;;
          push (old_anchor, new_anchor);;;
          ret (S old_anchor, S new_anchor)) anchors (old_from, new_from) in
      match_lines fuel (old_at, old_to) (new_at, new_to)));;;
  modify (fun matched => matched ++ reverse tail)
  end.

(** *** [hunks] *)

Definition matched_pair (at_ : nat * nat) (lines_at : nat * nat) : M (list Hunk) (nat * nat) :=
  let '(old_line, new_line) := at_ in
  let '(old_at, new_at) := lines_at in
  edited_lines (old_line, old_at) (new_line, new_at);;;
  (if (old_at <? length old_lines)%nat then
     old_line_range <- unwrap (old_lines !! old_at);;
     new_line_range <- unwrap (new_lines !! new_at);;
     old_content <- unwrap (content old old_line_range);;
     new_content <- unwrap (content new new_line_range);;
     narrowed old new (old_line_range.1, old_content.1) (new_line_range.1, new_content.1);;;
     narrowed old new (old_content.2, old_line_range.2) (new_content.2, new_line_range.2)
   else ret tt);;;
  ret (S old_at, S new_at).
End Lines.

Definition hunks (old new : bytes) : outcome (list Hunk) :=
  if bool_decide (old = new) then Done [] else
  let old_lines := lines old in
  let new_lines := lines new in
  '(_, matched) ← match_lines old new old_lines new_lines (S (length old_lines))
                    (0, length old_lines) (0, length new_lines) [];
  '(_, hunks) ← for_each (matched_pair old new old_lines new_lines)
                  (matched ++ [(length old_lines, length new_lines)]) (0, 0) [];
  Done hunks.
End Diff.

(** ** The map *)

(** The length a map's last kept stretch runs for: to the end of either text. *)
Definition OPEN : N := u32_max.

Module PositionMap.

(** The struct [PositionMap] has the hunks as its only field. *)
Notation t := (list Hunk).
Implicit Types self : t.

Definition identity : t := [].

Definition is_empty_hunk (hunk : Hunk) : bool :=
  ((old_start hunk =? old_end hunk) && (new_start hunk =? new_end hunk))%N.

Definition merge_hunk (merged : list Hunk) (hunk : Hunk) : list Hunk :=
  if is_empty_hunk hunk then merged else
  match last merged with
  | Some l =>
      if ((old_start hunk <=? old_end l) || (new_start hunk <=? new_end l))%N
      then take (length merged - 1) merged
             ++ [mkHunk (old_start l) (old_end hunk) (new_start l) (new_end hunk)]
      else merged ++ [hunk]
  | None => merged ++ [hunk]
  end.

Definition from_hunks (hunks : list Hunk) : t := foldl merge_hunk [] hunks.

Definition new (old_text new_text : bytes) : outcome t := 
  hunks ← Diff.hunks old_text new_text; Done (from_hunks hunks).

Definition whole_file (old_len new_len : nat) : t :=
  from_hunks [mkHunk 0 (as_u32 old_len) 0 (as_u32 new_len)].

(** A kept stretch: its old start, its new start and its length. *)
Notation stretch := (N * N * N)%type.

Definition kept_step (acc : list stretch * (N * N)) (hunk : Hunk) : list stretch * (N * N) :=
  let '(kept, (old, new)) := acc in
  (if (old <? old_start hunk)%N then kept ++ [(old, new, (old_start hunk - old)%N)] else kept,
   (old_end hunk, new_end hunk)).

Definition kept self : list stretch :=
  let '(kept, (old, new)) := foldl kept_step ([], (0%N, 0%N)) self in
  kept ++ [(old, new, OPEN)].

Definition gap_step (acc : list Hunk * (N * N)) (s : stretch) : list Hunk * (N * N) :=
  let '(hunks, (old, new)) := acc in
  let '(old_start, new_start, len) := s in
  (hunks ++ [mkHunk old old_start new new_start], (saturating_add old_start len, saturating_add new_start len)).

Definition from_kept (kept : list stretch) : t := from_hunks (foldl gap_step ([], (0%N, 0%N)) kept).1.

(** The stretches of two maps that overlap in the text between; the fuel is
    how many there are to go. *)
Fixpoint overlaps (fuel : nat) (first second : list stretch) : list stretch :=
  match fuel, first, second with
  | S fuel, (old, middle, first_len) :: first', (middle_start, new, second_len) :: second' =>
      let first_end := saturating_add middle first_len in
      let second_end := saturating_add middle_start second_len in
      let start := N.max middle middle_start in
      let end_ := N.min first_end second_end in
      (if (start <? end_)%N
       then [(u32_add old (start - middle), u32_add new (start - middle_start), (end_ - start)%N)] else [])
      ++ (if (first_end <=? second_end)%N then overlaps fuel first' second else overlaps fuel first second')
  | _, _, _ => []
  end.

Definition is_identity self : bool := match self with [] => true | _ => false end.

Definition then_ self (later : t) : t :=
  if is_identity self then later else
  if is_identity later then self else
  let first := kept self in
  let second := kept later in
  from_kept (overlaps (length first + length second) first second).

Definition inverse self : t :=
  map (fun hunk => mkHunk (new_start hunk) (new_end hunk) (old_start hunk) (old_end hunk)) self.

Definition first_change self : N :=
  match self with [] => u32_max | hunk :: _ => old_start hunk end.

Definition hunks self : list (N * N * N * N) :=
  map (fun hunk => (old_start hunk, old_end hunk, new_start hunk, new_end hunk)) self.

(** [self.hunks[at - 1]], which is there. *)
Definition before self (at_ : nat) : option Hunk :=
  match at_ with 0 => None | S at_ => self !! at_ end.

Definition shift (hunk : Hunk) (p : N) : option N :=
  if (old_end hunk <=? p)%N then Some (u32_add (p - old_end hunk) (new_end hunk)) else None.

Definition map self (p : N) : option N :=
  match before self (partition_point (fun hunk => old_start hunk <=? p)%N self) with
  | None => Some p
  | Some hunk => shift hunk p
  end.

Definition start_image self (p : N) : option N :=
  match before self (partition_point (fun hunk => old_start hunk <=? p)%N self) with
  | None => Some p
  | Some hunk =>
      if (old_start hunk =? p)%N
      then Some (if (old_start hunk =? old_end hunk)%N then new_end hunk else new_start hunk)
      else shift hunk p
  end.

Definition end_image self (p : N) : option N :=
  match before self (partition_point (fun hunk => old_start hunk <? p)%N self) with
  | None => Some p
  | Some hunk => shift hunk p
  end.

Definition map_range self (range : TextRange) : option TextRange :=
  let start := text_start range in
  let end_ := text_end range in
  if (start =? end_)%N then (fun at_ => mkTextRange at_ at_) <$> end_image self end_
  else
    start ← start_image self start;
    end_ ← end_image self end_;
    if (start <=? end_)%N then Some (mkTextRange start end_) else None.
End PositionMap.
