(* ===== verification/EditDiffProofs.v ===== *)
(** * The hunks between two texts turn one into the other

    For every two texts the search for matching lines returns, without a panic,
    and what lies between two hunks is the same on both sides. *)

From S2P Require Import Prelude Text EditMap.
From stdpp Require Import list gmap sorting.
Local Open Scope prog_scope.
Import Diff.

(** ** Characters and their bytes *)

(** What the search relies on: an ASCII byte is a character of its own. *)
Definition good (t : bytes) : Prop :=
  (forall b, t !! 0 = Some b -> is_continuation b = false)
  /\ forall i a b, t !! i = Some a -> (a < 128)%N -> t !! S i = Some b -> is_continuation b = false.

Lemma boundary_0 t : is_char_boundary t 0 = true.
Proof. done. Qed.

Lemma boundary_end t : is_char_boundary t (length t) = true.
Proof.
  unfold is_char_boundary. destruct (length t) as [|n] eqn:Hl; [done|].
  rewrite lookup_ge_None_2 by lia. apply Nat.eqb_refl.
Qed.

Lemma boundary_byte t i b : t !! i = Some b -> is_continuation b = false -> is_char_boundary t i = true.
Proof. intros Hi Hb. unfold is_char_boundary. destruct i; [done|]. by rewrite Hi, Hb. Qed.

Lemma boundary_ascii t i b : t !! i = Some b -> (b < 128)%N -> is_char_boundary t i = true.
Proof.
  intros Hi Hb. eapply boundary_byte; [done|]. unfold is_continuation.
  rewrite andb_false_iff. left. apply N.leb_gt. lia.
Qed.

Lemma boundary_after t i b : good t -> t !! i = Some b -> (b < 128)%N -> is_char_boundary t (S i) = true.
Proof.
  intros [_ Hg] Hi Hb. destruct (t !! S i) as [c|] eqn:Hc.
  - eapply boundary_byte; [done|]. by apply (Hg i b).
  - replace (S i) with (length t); [apply boundary_end|].
    apply lookup_lt_Some in Hi. apply lookup_ge_None_1 in Hc. lia.
Qed.

(** ** Texts that agree on a stretch *)

Section Texts.
Variables (old new : bytes).

Record same (o n k : nat) : Prop := {
  sm_old : o + k <= length old;
  sm_new : n + k <= length new;
  sm_bytes i : i < k -> old !! (o + i) = new !! (n + i)
}.

Lemma same_0 o n : o <= length old -> n <= length new -> same o n 0.
Proof. intros. split; intros; lia. Qed.

Lemma same_app o n k j : same o n k -> same (o + k) (n + k) j -> same o n (k + j).
Proof.
  intros [Ho Hn Hb] [Ho' Hn' Hb']. split; [lia|lia|]. intros i Hi.
  destruct (decide (i < k)) as [|Hk]; [by apply Hb|].
  specialize (Hb' (i - k)). replace (o + k + (i - k)) with (o + i) in Hb' by lia.
  replace (n + k + (i - k)) with (n + i) in Hb' by lia. apply Hb'. lia.
Qed.

Lemma same_take o n k j : same o n k -> j <= k -> same o n j.
Proof. intros [Ho Hn Hb] Hj. split; [lia|lia|]. intros i Hi. apply Hb. lia. Qed.

Lemma same_drop o n k j : same o n k -> j <= k -> same (o + j) (n + j) (k - j).
Proof.
  intros [Ho Hn Hb] Hj. split; [lia|lia|]. intros i Hi. rewrite <- !Nat.add_assoc. apply Hb. lia.
Qed.

(** Both offsets are between characters. *)
Definition bounds (o n : nat) : Prop :=
  o <= length old /\ n <= length new /\ is_char_boundary old o = true /\ is_char_boundary new n = true.

Lemma bounds_both o n : bounds o n -> both_boundaries old new o n = true.
Proof. intros (_ & _ & Ho & Hn). unfold both_boundaries. by rewrite Ho, Hn. Qed.

Lemma both_bounds o n : o <= length old -> n <= length new -> both_boundaries old new o n = true -> bounds o n.
Proof. intros ? ? [? ?]%andb_true_iff. by split_and!. Qed.

(** ** Hunks that turn one text into the other

    From [o] and [n] up to [o'] and [n']: the stretches between the hunks are
    the same, and no hunk splits a character. *)
Fixpoint turns (o n : nat) (hs : list Hunk) (o' n' : nat) : Prop :=
  match hs with
  | [] => exists k, o' = o + k /\ n' = n + k /\ same o n k
  | h :: hs =>
      (exists k, N.to_nat (old_start h) = o + k /\ N.to_nat (new_start h) = n + k /\ same o n k)
      /\ (old_start h <= old_end h)%N /\ (new_start h <= new_end h)%N
      /\ bounds (N.to_nat (old_start h)) (N.to_nat (new_start h))
      /\ bounds (N.to_nat (old_end h)) (N.to_nat (new_end h))
      /\ turns (N.to_nat (old_end h)) (N.to_nat (new_end h)) hs o' n'
  end.

Lemma turns_start o n : o <= length old -> n <= length new -> turns o n [] o n.
Proof. intros. exists 0. split_and!; [lia|lia|by apply same_0]. Qed.

Lemma turns_keep o n hs o' n' k : turns o n hs o' n' -> same o' n' k -> turns o n hs (o' + k) (n' + k).
Proof.
  revert o n. induction hs as [|h hs IH]; simpl; intros o n.
  - intros (j & -> & -> & Hj) Hk. exists (j + k). split_and!; [lia|lia|by apply same_app].
  - intros (? & ? & ? & ? & ? & ?) Hk. split_and!; auto.
Qed.

Lemma turns_hunk o n hs o' n' oe ne :
  turns o n hs o' n' -> bounds o' n' -> bounds oe ne -> o' <= oe -> n' <= ne ->
  turns o n (hs ++ [mkHunk (N.of_nat o') (N.of_nat oe) (N.of_nat n') (N.of_nat ne)]) oe ne.
Proof.
  intros Ht Hb Hb' Ho Hn. revert o n Ht. induction hs as [|h hs IH]; simpl; intros o n.
  - intros (k & -> & -> & Hk). rewrite !Nat2N.id. split_and!; [by exists k|lia|lia|done|done|].
    destruct Hb' as (? & ? & _). by apply turns_start.
  - intros (? & ? & ? & ? & ? & ?). split_and!; auto.
Qed.

(** ** [narrowed] *)

Hypothesis old_fits : (N.of_nat (length old) < 2 ^ 32)%N.
Hypothesis new_fits : (N.of_nat (length new) < 2 ^ 32)%N.

Lemma as_u32_exact i : i <= length old \/ i <= length new -> as_u32 i = N.of_nat i.
Proof. intros Hi. unfold as_u32. apply N.mod_small. lia. Qed.

Lemma same_byte_spec i j : i < length old -> j < length new ->
  exists b, same_byte old new i j = Some b /\ (b = true -> old !! i = new !! j).
Proof.
  intros Hi Hj. unfold same_byte.
  destruct (lookup_lt_is_Some_2 old i Hi) as [a Ha], (lookup_lt_is_Some_2 new j Hj) as [b Hb].
  rewrite Ha, Hb. simpl. eexists. split; [done|]. by intros ->%N.eqb_eq.
Qed.

Lemma same_snoc o n k : same o n k -> old !! (o + k) = new !! (n + k) -> o + k < length old -> n + k < length new ->
  same o n (S k).
Proof.
  intros [Ho Hn Hb] Heq ? ?. split; [lia|lia|]. intros i Hi.
  destruct (decide (i = k)) as [->|]; [done|]. apply Hb. lia.
Qed.

Lemma same_cons o n k : same (S o) (S n) k -> old !! o = new !! n -> same o n (S k).
Proof.
  intros [Ho Hn Hb] Heq. split; [lia|lia|]. intros [|i] Hi; [by rewrite !Nat.add_0_r|].
  rewrite !Nat.add_succ_r. apply Hb. lia.
Qed.

(** The stretch in the middle that is left of a span. *)
Record middle (o oe n ne os oe' ns ne' : nat) : Prop := {
  mid_front : exists k, os = o + k /\ ns = n + k /\ same o n k;
  mid_back : exists j, oe = oe' + j /\ ne = ne' + j /\ same oe' ne' j;
  mid_old : os <= oe';
  mid_new : ns <= ne'
}.

Lemma narrowed_push (o oe n ne os oe' ns ne' : nat) hs (Q : unit -> list Hunk -> Prop) :
  bounds os ns -> bounds oe' ne' -> turns 0 0 hs o n -> middle o oe n ne os oe' ns ne' ->
  (forall hs', turns 0 0 hs' oe ne -> Q tt hs') ->
  wp (if ((os =? oe') && (ns =? ne'))%nat then ret tt
      else modify (fun hunks => hunks ++ [mkHunk (as_u32 os) (as_u32 oe') (as_u32 ns) (as_u32 ne')])) Q hs.
Proof.
  intros Hb Hb' Ht [(k & -> & -> & Hk) (j & -> & -> & Hj) Ho Hn] HQ.
  destruct (_ && _) eqn:Hempty.
  - apply andb_true_iff in Hempty as [<-%Nat.eqb_eq <-%Nat.eqb_eq]. apply wp_ret, HQ.
    apply turns_keep; [by apply turns_keep|done].
  - apply wp_modify, HQ. destruct Hb as (? & ? & ?), Hb' as (? & ? & ?). rewrite !as_u32_exact by lia.
    apply turns_keep; [|done]. by apply turns_hunk; [apply turns_keep|..].
Qed.

(** The four loops of [narrowed], one lemma each. *)
Section Loops.
Variables (o oe n ne : nat).
Hypothesis (Hb : bounds o n) (Hb' : bounds oe ne).

Lemma front_loop hs (Q : nat * nat -> list Hunk -> Prop) :
  o <= oe -> n <= ne ->
  (forall os ns, middle o oe n ne os oe ns ne -> Q (os, ns) hs) ->
  wp (loop (S (oe - o)) (fun '(os, ns) =>
      if ((os <? oe) && (ns <? ne))%nat then
        bind (unwrap (same_byte old new os ns)) (fun same => ret (if same then inl (S os, S ns) else inr (os, ns)))
      else ret (inr (os, ns))) (o, n)) Q hs.
Proof.
  intros Ho Hn HQ. destruct Hb as (? & ? & _), Hb' as (? & ? & _).
  apply (wp_loop (fun x s => s = hs /\ middle o oe n ne x.1 oe x.2 ne) (fun x _ => oe - x.1)).
  2:{ split; [done|]. split; [exists 0|exists 0|done|done];
        (split_and!; [simpl; lia|simpl; lia|by apply same_0]). }
  2:{ simpl. lia. }
  intros [os ns] s [-> Hm]. simpl in *. destruct (_ && _) eqn:Hc; [|by apply wp_ret, HQ].
  apply andb_true_iff in Hc as [Hlt1%Nat.ltb_lt Hlt2%Nat.ltb_lt].
  destruct (same_byte_spec os ns) as (b & Hs & Heq); [lia|lia|].
  apply wp_bind, (wp_unwrap _ b); [done|]. apply wp_ret. destruct b; [|by apply HQ].
  split; [|simpl; lia]. split; [done|]. destruct Hm as [(k & -> & -> & Hk) Hback _ _]. split; simpl; [|done|lia|lia].
  exists (S k). split_and!; [lia|lia|]. apply same_snoc; [done|by apply Heq|lia|lia].
Qed.

Lemma front_back_loop os ns hs (Q : nat * nat -> list Hunk -> Prop) :
  middle o oe n ne os oe ns ne ->
  (forall os ns, middle o oe n ne os oe ns ne -> bounds os ns -> Q (os, ns) hs) ->
  wp (loop (S os) (fun '(os, ns) =>
      if (0 <? os)%nat && negb (both_boundaries old new os ns) then
        match ns with 0 => panic | S ns' => ret (inl (os - 1, ns')) end
      else ret (inr (os, ns))) (os, ns)) Q hs.
Proof.
  intros Hm HQ. pose proof Hb as (? & ? & ? & ?).
  apply (wp_loop (fun x s => s = hs /\ middle o oe n ne x.1 oe x.2 ne) (fun x _ => x.1)); [|done|simpl; lia].
  clear os ns Hm. intros [os ns] s [-> Hm]. simpl in *.
  pose proof Hm as [(k & -> & -> & Hk) Hback Hlo Hln].
  destruct k as [|k].
  { rewrite !Nat.add_0_r in *. rewrite bounds_both by done. rewrite andb_false_r. apply wp_ret. by apply HQ. }
  replace (0 <? o + S k)%nat with true by (symmetry; apply Nat.ltb_lt; lia). simpl.
  destruct (both_boundaries old new (o + S k) (n + S k)) eqn:Hbb; simpl.
  - apply wp_ret, HQ; [done|]. destruct Hk. by apply both_bounds.
  - rewrite Nat.add_succ_r. simpl. apply wp_ret. split; [|simpl; lia]. split; [done|].
    split; simpl; [|done|lia|lia]. exists k. split_and!; [lia|done|]. apply (same_take _ _ (S k)); [done|lia].
Qed.

Lemma tail_loop os ns hs (Q : nat * nat -> list Hunk -> Prop) :
  middle o oe n ne os oe ns ne ->
  (forall oe' ne', middle o oe n ne os oe' ns ne' -> Q (oe', ne') hs) ->
  wp (loop (S (oe - os)) (fun '(oe, ne) =>
      if ((os <? oe) && (ns <? ne))%nat then
        bind (unwrap (same_byte old new (oe - 1) (ne - 1)))
          (fun same => ret (if same then inl (oe - 1, ne - 1) else inr (oe, ne)))
      else ret (inr (oe, ne))) (oe, ne)) Q hs.
Proof.
  intros Hm HQ. destruct Hb' as (? & ? & _).
  apply (wp_loop (fun x s => s = hs /\ middle o oe n ne os x.1 ns x.2) (fun x _ => x.1 - os)); [|done|simpl; lia].
  clear Hm. intros [oe' ne'] s [-> Hm]. simpl in *. destruct (_ && _) eqn:Hc; [|by apply wp_ret, HQ].
  apply andb_true_iff in Hc as [Hlt1%Nat.ltb_lt Hlt2%Nat.ltb_lt].
  pose proof Hm as [Hfront (j & Hj1 & Hj2 & Hj) _ _].
  destruct (same_byte_spec (oe' - 1) (ne' - 1)) as (b & Hs & Heq); [lia|lia|].
  apply wp_bind, (wp_unwrap _ b); [done|]. apply wp_ret. destruct b; [|by apply HQ].
  split; [|simpl; lia]. split; [done|]. split; simpl; [done| |lia|lia].
  exists (S j). split_and!; [lia|lia|]. apply same_cons; [|by apply Heq].
  replace (S (oe' - 1)) with oe' by lia. by replace (S (ne' - 1)) with ne' by lia.
Qed.

Lemma tail_forward_loop os ns oe' ne' hs (Q : nat * nat -> list Hunk -> Prop) :
  middle o oe n ne os oe' ns ne' ->
  (forall oe' ne', middle o oe n ne os oe' ns ne' -> bounds oe' ne' -> Q (oe', ne') hs) ->
  wp (loop (S (length old - oe')) (fun '(oe, ne) =>
      if (oe <? length old)%nat && negb (both_boundaries old new oe ne)
      then ret (inl (S oe, S ne))
      else ret (inr (oe, ne))) (oe', ne')) Q hs.
Proof.
  intros Hm HQ. pose proof Hb' as (? & ? & ? & ?).
  apply (wp_loop (fun x s => s = hs /\ middle o oe n ne os x.1 ns x.2) (fun x _ => length old - x.1));
    [|done|simpl; lia].
  clear oe' ne' Hm. intros [oe' ne'] s [-> Hm]. simpl in *.
  pose proof Hm as [Hfront (j & Hj1 & Hj2 & Hj) Hlo Hln].
  assert (Hdone : j = 0 -> oe' = oe /\ ne' = ne) by lia.
  destruct (both_boundaries old new oe' ne') eqn:Hbb; simpl.
  { rewrite andb_false_r. apply wp_ret, HQ; [done|]. destruct Hj. apply both_bounds; [lia|lia|done]. }
  destruct (decide (j = 0)) as [Hz|Hz].
  { destruct (Hdone Hz) as [-> ->]. rewrite (bounds_both oe ne) in Hbb by done. done. }
  destruct Hj as [? ? Hbytes] eqn:Hjeq.
  replace (oe' <? length old)%nat with true by (symmetry; apply Nat.ltb_lt; lia). simpl.
  apply wp_ret. split; [|simpl; lia]. split; [done|]. split; simpl; [done| |lia|lia].
  exists (j - 1). split_and!; [lia|lia|].
  replace (S oe') with (oe' + 1) by lia. replace (S ne') with (ne' + 1) by lia.
  apply same_drop; [done|lia].
Qed.
End Loops.

Lemma narrowed_spec o oe n ne hs (Q : unit -> list Hunk -> Prop) :
  bounds o n -> bounds oe ne -> o <= oe -> n <= ne -> turns 0 0 hs o n ->
  (forall hs', turns 0 0 hs' oe ne -> Q tt hs') ->
  wp (narrowed old new (o, oe) (n, ne)) Q hs.
Proof.
  intros Hb Hb' Ho Hn Ht HQ. unfold narrowed.
  apply wp_bind, front_loop; [done..|]. intros os ns Hm.
  apply wp_bind, (front_back_loop o oe n ne); [done..|]. clear os ns Hm. intros os ns Hm Hbs.
  apply wp_bind, (tail_loop o oe n ne); [done..|]. intros oe' ne' Hm'.
  apply wp_bind, (tail_forward_loop o oe n ne Hb' os ns); [done..|]. clear oe' ne' Hm'. intros oe' ne' Hm' Hbe.
  by eapply narrowed_push.
Qed.
End Texts.
