(* ===== verification/EditLineProofs.v ===== *)
(** * Lines and the search for those that match *)

From S2P Require Import Prelude Text EditMap EditDiffProofs.
From stdpp Require Import list gmap sorting.
Local Open Scope prog_scope.
Import Diff.

(** ** Slices and counts *)


Lemma byte_slice_some t a b : a <= b -> b <= length t -> exists r, byte_slice t a b = Some r.
Proof. intros Ha Hb. unfold byte_slice. rewrite !(proj2 (Nat.leb_le _ _)) by done. by eexists. Qed.

Lemma byte_slice_spec t a b r :
  byte_slice t a b = Some r -> a <= b /\ b <= length t /\ length r = b - a /\ forall i, i < b - a -> r !! i = t !! (a + i).
Proof.
  unfold byte_slice. destruct (_ && _) eqn:Hc; [|done]. intros [= <-].
  apply andb_true_iff in Hc as [Ha%Nat.leb_le Hb%Nat.leb_le]. split_and!; [done|done| |].
  - rewrite length_take, length_drop. lia.
  - intros i Hi. by rewrite lookup_take_lt, lookup_drop by lia.
Qed.

Lemma white_space_ascii b : is_ascii_whitespace b = true -> (b < 128)%N.
Proof. unfold is_ascii_whitespace. rewrite !orb_true_iff, !N.eqb_eq. lia. Qed.

(** ** Lines *)

(** The lines lie end to end from [s] to [e], between characters. *)
Fixpoint laid (t : bytes) (s : nat) (ls : list line) (e : nat) : Prop :=
  match ls with
  | [] => s = e
  | l :: ls => l.1 = s /\ l.1 < l.2 /\ l.2 <= length t /\ is_char_boundary t l.2 = true /\ laid t l.2 ls e
  end.

Lemma lines_loop_spec t pre text at_ start :
  good t -> t = pre ++ text -> length pre = at_ -> start <= at_ ->
  laid t start (lines_loop at_ start text).1 (lines_loop at_ start text).2
  /\ (lines_loop at_ start text).2 <= length t.
Proof.
  intros Hg. revert pre at_ start. induction text as [|byte text IH]; intros pre at_ start Ht Hat Hs; simpl.
  { rewrite Ht, app_nil_r. split; [done|lia]. }
  assert (Ht' : t = (pre ++ [byte]) ++ text) by (by rewrite <- app_assoc).
  assert (Hat' : length (pre ++ [byte]) = S at_) by (rewrite length_app; simpl; lia).
  destruct (N.eqb byte 10) eqn:Hb; [|by apply (IH (pre ++ [byte])); [..|lia]].
  apply N.eqb_eq in Hb. subst byte.
  destruct (IH (pre ++ [10%N]) (S at_) (S at_)) as [Hl Hle]; [done..|].
  destruct (lines_loop (S at_) (S at_) text) as [ls last]. simpl in *. split; [|done].
  assert (Hnl : t !! at_ = Some 10%N) by (rewrite Ht, lookup_app_r, Hat, Nat.sub_diag by lia; done).
  split_and!; [done|lia| |by eapply boundary_after|done].
  apply lookup_lt_Some in Hnl. lia.
Qed.

Lemma laid_snoc t s ls e l :
  laid t s ls e -> l.1 = e -> l.1 < l.2 -> l.2 <= length t -> is_char_boundary t l.2 = true ->
  laid t s (ls ++ [l]) l.2.
Proof.
  revert s. induction ls as [|x ls IH]; intros s; simpl; [intros -> **; by split_and!|].
  intros (? & ? & ? & ? & ?) **. split_and!; auto.
Qed.

Lemma lines_laid t : good t -> laid t 0 (lines t) (length t).
Proof.
  intros Hg. destruct (lines_loop_spec t [] t 0 0) as [Hl Hle]; [done..|].
  unfold lines. destruct (lines_loop 0 0 t) as [ls last]. simpl in *.
  destruct (Nat.ltb_spec last (length t)).
  - apply (laid_snoc t 0 ls last (last, length t)); [done|done|done|done|]. apply boundary_end.
  - by replace (length t) with last by lia.
Qed.

(** Where the line [i] starts; the text's end for the one after the last. *)
Definition line_start (t : bytes) (ls : list line) (i : nat) : nat := from_option fst (length t) (ls !! i).

Section Laid.
Variables (t : bytes) (ls : list line).
Hypothesis (Hgood : good t) (Hlaid : laid t 0 ls (length t)).

Lemma laid_lookup s ls' i l :
  laid t s ls' (length t) -> ls' !! i = Some l ->
  l.1 < l.2 /\ l.2 <= length t /\ is_char_boundary t l.2 = true /\ l.2 = from_option fst (length t) (ls' !! S i).
Proof.
  revert s i. induction ls' as [|x ls' IH]; intros s i; [done|]. simpl. intros (Hx & ? & ? & ? & Hl) Hi.
  destruct i as [|i]; [|by eapply IH]. injection Hi as ->. split_and!; [done|done|done|].
  destruct ls' as [|y ls']; simpl in *; [done|]. by destruct Hl as [-> _].
Qed.

Lemma line_lookup i l :
  ls !! i = Some l -> l.1 = line_start t ls i /\ l.1 < l.2 /\ l.2 <= length t
                      /\ is_char_boundary t l.2 = true /\ l.2 = line_start t ls (S i).
Proof.
  intros Hi. destruct (laid_lookup 0 ls i l Hlaid Hi) as (? & ? & ? & ?).
  split_and!; [|done..]. unfold line_start. by rewrite Hi.
Qed.

Lemma line_start_0 : line_start t ls 0 = 0.
Proof. unfold line_start. destruct ls as [|l ls']; simpl in *; [done|]. by destruct Hlaid. Qed.

Lemma line_start_end i : length ls <= i -> line_start t ls i = length t.
Proof. intros Hi. unfold line_start. by rewrite lookup_ge_None_2. Qed.

Lemma line_start_bound i : line_start t ls i <= length t /\ is_char_boundary t (line_start t ls i) = true.
Proof.
  induction i as [|i IH]; [rewrite line_start_0; split; [lia|done]|].
  destruct (ls !! i) as [l|] eqn:Hi.
  - destruct (line_lookup i l Hi) as (_ & _ & ? & ? & <-). done.
  - rewrite line_start_end; [split; [lia|apply boundary_end]|]. apply lookup_ge_None_1 in Hi. lia.
Qed.

Lemma line_start_mono i j : i <= j -> line_start t ls i <= line_start t ls j.
Proof.
  induction 1 as [|j Hij IH]; [done|]. etransitivity; [exact IH|].
  destruct (ls !! j) as [l|] eqn:Hj.
  - destruct (line_lookup j l Hj) as (Hs & ? & _ & _ & He). rewrite <- Hs, <- He. lia.
  - apply lookup_ge_None_1 in Hj. rewrite !line_start_end by lia. done.
Qed.

Lemma line_at i : i < length ls -> exists l, ls !! i = Some l.
Proof. apply lookup_lt_is_Some_2. Qed.

Lemma span_spec from to :
  from <= to -> to <= length ls -> span ls from to (length t) = Some (line_start t ls from, line_start t ls to).
Proof.
  intros Hf Ht. unfold span. fold (line_start t ls from). destruct (Nat.ltb_spec from to).
  - destruct (line_at (to - 1)) as [l Hl]; [lia|]. rewrite Hl. simpl.
    destruct (line_lookup _ l Hl) as (_ & _ & _ & _ & ->). by replace (S (to - 1)) with to by lia.
  - by replace to with from by lia.
Qed.

(** *** The content of a line *)

Lemma content_spec l :
  l.1 <= l.2 -> l.2 <= length t -> is_char_boundary t l.1 = true -> is_char_boundary t l.2 = true ->
  exists c, content t l = Some c /\ l.1 <= c.1 /\ c.1 <= c.2 /\ c.2 <= l.2
    /\ is_char_boundary t c.1 = true /\ is_char_boundary t c.2 = true.
Proof.
  intros H12 H2 Hb1 Hb2. unfold content.
  destruct (byte_slice_some t l.1 l.2) as [x Hx]; [done|done|]. rewrite Hx. simpl.
  apply byte_slice_spec in Hx as (_ & _ & Hlen & Hlook).
  pose proof (partition_point_le is_ascii_whitespace x) as Hle.
  pose proof (partition_point_before is_ascii_whitespace x) as Hws. unfold count_while at 1 2 3.
  revert Hle Hws. generalize (partition_point is_ascii_whitespace x) as leading. intros leading Hle Hws.
  destruct (byte_slice_some x leading (length x)) as [rest Hr]; [done|done|]. rewrite Hr. simpl.
  apply byte_slice_spec in Hr as (_ & _ & Hlr & Hlookr).
  pose proof (partition_point_le is_ascii_whitespace (reverse rest)) as Hle'.
  pose proof (partition_point_before is_ascii_whitespace (reverse rest)) as Hws'. unfold count_while.
  revert Hle' Hws'. generalize (partition_point is_ascii_whitespace (reverse rest)) as trailing.
  intros trailing Hle' Hws'. rewrite length_reverse in Hle'.
  eexists. split; [done|]. simpl. split_and!; [lia|lia|lia| |].
  - destruct leading as [|k]; [by rewrite Nat.add_0_r|].
    rewrite Nat.add_succ_r. destruct (lookup_lt_is_Some_2 x k) as [b Hb]; [lia|].
    eapply boundary_after; [done| |].
    + rewrite <- Hlook by lia. exact Hb.
    + apply white_space_ascii, (Hws k); [lia|done].
  - destruct trailing as [|k]; [by rewrite Nat.sub_0_r|].
    destruct (lookup_lt_is_Some_2 (reverse rest) k) as [b Hb]; [rewrite length_reverse; lia|].
    assert (Hbw : is_ascii_whitespace b = true) by (apply (Hws' k); [lia|done]).
    rewrite reverse_lookup in Hb by lia. rewrite Hlookr in Hb by lia.
    rewrite Hlook in Hb by lia. eapply boundary_ascii; [|by apply white_space_ascii].
    rewrite <- Hb. f_equal. lia.
Qed.

Lemma key_of l c : content t l = Some c -> c.1 <= c.2 -> c.2 <= length t -> exists k, key t l = Some k.
Proof. intros Hc H1 H2. unfold key. rewrite Hc. destruct c as [a b]. simpl in *. by apply byte_slice_some. Qed.

Lemma line_content i l :
  ls !! i = Some l ->
  exists c k, content t l = Some c /\ key t l = Some k /\ l.1 <= c.1 /\ c.1 <= c.2 /\ c.2 <= l.2
    /\ is_char_boundary t c.1 = true /\ is_char_boundary t c.2 = true.
Proof.
  intros Hi. destruct (line_lookup i l Hi) as (Hs & ? & ? & ? & _).
  destruct (content_spec l) as (c & Hc & ? & ? & ? & ? & ?); [lia|done| |done|].
  { rewrite Hs. apply line_start_bound. }
  destruct (key_of l c Hc) as [k Hk]; [lia|lia|]. by exists c, k.
Qed.
End Laid.

(** ** [edited_lines] *)

Section Edited.
Variables (old new : bytes).
Hypothesis (old_fits : (N.of_nat (length old) < 2 ^ 32)%N) (new_fits : (N.of_nat (length new) < 2 ^ 32)%N).
Hypothesis (Hold : good old) (Hnew : good new).
Variables (old_lines new_lines : list line).
Hypothesis (Hol : laid old 0 old_lines (length old)) (Hnl : laid new 0 new_lines (length new)).
Let turns := turns old new 0 0.
Let ostart := line_start old old_lines.
Let nstart := line_start new new_lines.

Lemma line_starts_bounds i j : bounds old new (ostart i) (nstart j).
Proof.
  destruct (line_start_bound old old_lines Hol i), (line_start_bound new new_lines Hnl j). by split_and!.
Qed.

Lemma key_at_old i : i < length old_lines -> exists l k, old_lines !! i = Some l /\ key old l = Some k
  /\ l = (ostart i, ostart (S i)).
Proof.
  intros Hi. destruct (line_at _ _ Hi) as [l Hl]. destruct (line_content old old_lines Hold Hol i l Hl) as (c & k & ? & ? & _).
  destruct (line_lookup old old_lines Hol i l Hl) as (? & _ & _ & _ & ?). exists l, k. split_and!; [done|done|].
  destruct l; simpl in *; by subst.
Qed.

Lemma key_at_new j : j < length new_lines -> exists l k, new_lines !! j = Some l /\ key new l = Some k
  /\ l = (nstart j, nstart (S j)).
Proof.
  intros Hj. destruct (line_at _ _ Hj) as [l Hl]. destruct (line_content new new_lines Hnew Hnl j l Hl) as (c & k & ? & ? & _).
  destruct (line_lookup new new_lines Hnl j l Hl) as (? & _ & _ & _ & ?). exists l, k. split_and!; [done|done|].
  destruct l; simpl in *; by subst.
Qed.

Lemma similar_at_some i j : i < length old_lines -> j < length new_lines ->
  exists b, similar_at old new old_lines new_lines i j = Some b.
Proof.
  intros Hi Hj. destruct (key_at_old i Hi) as (l & k & Hl & Hk & _), (key_at_new j Hj) as (l' & k' & Hl' & Hk' & _).
  unfold similar_at. rewrite Hl, Hl'. simpl. rewrite Hk, Hk'. simpl. by eexists.
Qed.

(** Between two lines on either side: the next hunk may be made of them. *)
Lemma narrowed_lines i i' j j' hs (Q : unit -> list Hunk -> Prop) :
  i <= i' -> j <= j' -> turns hs (ostart i) (nstart j) ->
  (forall hs', turns hs' (ostart i') (nstart j') -> Q tt hs') ->
  wp (narrowed old new (ostart i, ostart i') (nstart j, nstart j')) Q hs.
Proof.
  intros Hi Hj Ht HQ. apply narrowed_spec; [done|done|apply line_starts_bounds|apply line_starts_bounds| | |done|done].
  - by apply line_start_mono.
  - by apply line_start_mono.
Qed.

Lemma front_lines i i' j j' hs (Q : nat * nat -> list Hunk -> Prop) :
  i <= i' -> j <= j' -> i' <= length old_lines -> j' <= length new_lines -> turns hs (ostart i) (nstart j) ->
  (forall i j hs', i <= i' -> j <= j' -> turns hs' (ostart i) (nstart j) -> Q (i, j) hs') ->
  wp (loop (S (i' - i)) (fun '(old_from, new_from) =>
      if ((old_from <? i') && (new_from <? j'))%nat then
        bind (unwrap (similar_at old new old_lines new_lines old_from new_from)) (fun same =>
        if (same : bool) then
          bind (unwrap (old_lines !! old_from)) (fun old_line =>
          bind (unwrap (new_lines !! new_from)) (fun new_line =>
          bind (narrowed old new old_line new_line) (fun _ =>
          ret (inl (S old_from, S new_from)))))
        else ret (inr (old_from, new_from)))
      else ret (inr (old_from, new_from))) (i, j)) Q hs.
Proof.
  intros Hi Hj Hi' Hj' Ht HQ.
  apply (wp_loop (fun x hs => x.1 <= i' /\ x.2 <= j' /\ turns hs (ostart x.1) (nstart x.2)) (fun x _ => i' - x.1));
    [|done|simpl; lia].
  clear i j Hi Hj Ht hs. intros [i j] hs (Hi & Hj & Ht). simpl in *.
  destruct (_ && _) eqn:Hc; [|apply wp_ret; by apply HQ].
  apply andb_true_iff in Hc as [Hlt1%Nat.ltb_lt Hlt2%Nat.ltb_lt].
  destruct (similar_at_some i j) as [b Hb]; [lia|lia|].
  apply wp_bind, (wp_unwrap _ b); [done|]. destruct b; [|apply wp_ret; by apply HQ].
  destruct (key_at_old i) as (l & _ & Hl & _ & ->); [lia|]. destruct (key_at_new j) as (l' & _ & Hl' & _ & ->); [lia|].
  apply wp_bind, (wp_unwrap _ _ _ _ Hl), wp_bind, (wp_unwrap _ _ _ _ Hl'), wp_bind.
  apply narrowed_lines; [lia|lia|done|]. intros hs' Ht'. apply wp_ret. simpl. split_and!; [lia|lia|done|lia].
Qed.

(** The lines of a tail that was passed over backwards: from [i] to [i + k]. *)
Definition tail_of (i j k : nat) : list (line * line) :=
  map (fun d => ((ostart (i + d), ostart (S (i + d))), (nstart (j + d), nstart (S (j + d))))) (seq 0 k).

Lemma tail_of_cons i j k : tail_of i j (S k)
  = ((ostart i, ostart (S i)), (nstart j, nstart (S j))) :: tail_of (S i) (S j) k.
Proof.
  unfold tail_of. cbn [seq map]. rewrite !Nat.add_0_r. f_equal. rewrite <- seq_shift, map_map.
  apply map_ext. intros d. by rewrite !Nat.add_succ_r.
Qed.

Lemma tail_lines i i' j j' hs (Q : nat * nat * list (line * line) -> list Hunk -> Prop) :
  i <= i' -> j <= j' -> i' <= length old_lines -> j' <= length new_lines ->
  (forall k, i + k <= i' -> j + k <= j' -> Q (i' - k, j' - k, reverse (tail_of (i' - k) (j' - k) k)) hs) ->
  wp (loop (S (i' - i)) (fun '(old_to, new_to, tail) =>
      if ((i <? old_to) && (j <? new_to))%nat then
        bind (unwrap (similar_at old new old_lines new_lines (old_to - 1) (new_to - 1))) (fun same =>
        if (same : bool) then
          bind (unwrap (old_lines !! (old_to - 1))) (fun old_line =>
          bind (unwrap (new_lines !! (new_to - 1))) (fun new_line =>
          ret (inl (old_to - 1, new_to - 1, tail ++ [(old_line, new_line)]))))
        else ret (inr (old_to, new_to, tail)))
      else ret (inr (old_to, new_to, tail))) (i', j', [])) Q hs.
Proof.
  intros Hi Hj Hi' Hj' HQ.
  apply (wp_loop (fun x s => s = hs /\ exists k, i + k <= i' /\ j + k <= j'
                             /\ x = (i' - k, j' - k, reverse (tail_of (i' - k) (j' - k) k)))
                 (fun x _ => x.1.1 - i)).
  2:{ split; [done|]. exists 0. rewrite !Nat.sub_0_r. split_and!; [lia|lia|done]. }
  2:{ simpl. lia. }
  intros x s (-> & k & Hk1 & Hk2 & ->). simpl in *.
  destruct (_ && _) eqn:Hc; [|apply wp_ret; by apply HQ].
  apply andb_true_iff in Hc as [Hlt1%Nat.ltb_lt Hlt2%Nat.ltb_lt].
  destruct (similar_at_some (i' - k - 1) (j' - k - 1)) as [b Hb]; [lia|lia|].
  apply wp_bind, (wp_unwrap _ b); [done|]. destruct b; [|apply wp_ret; by apply HQ].
  destruct (key_at_old (i' - k - 1)) as (l & _ & Hl & _ & ->); [lia|].
  destruct (key_at_new (j' - k - 1)) as (l' & _ & Hl' & _ & ->); [lia|].
  apply wp_bind, (wp_unwrap _ _ _ _ Hl), wp_bind, (wp_unwrap _ _ _ _ Hl'), wp_ret. simpl. split; [|lia].
  split; [done|]. exists (S k). split_and!; [lia|lia|].
  replace (i' - S k) with (i' - k - 1) by lia. replace (j' - S k) with (j' - k - 1) by lia.
  f_equal. rewrite tail_of_cons, reverse_cons.
  replace (S (i' - k - 1)) with (i' - k) by lia. by replace (S (j' - k - 1)) with (j' - k) by lia.
Qed.

Lemma narrowed_tail i j k hs (Q : unit -> list Hunk -> Prop) :
  turns hs (ostart i) (nstart j) ->
  (forall hs', turns hs' (ostart (i + k)) (nstart (j + k)) -> Q tt hs') ->
  wp (for_each (fun _ spans => narrowed old new spans.1 spans.2) (tail_of i j k) tt) Q hs.
Proof.
  revert i j hs. induction k as [|k IH]; intros i j hs Ht HQ.
  { apply wp_ret, HQ. by rewrite !Nat.add_0_r. }
  rewrite tail_of_cons. apply wp_bind. cbn [fst snd]. apply narrowed_lines; [lia|lia|done|].
  intros hs' Ht'. apply IH; [done|]. by rewrite !Nat.add_succ_comm.
Qed.

Lemma edited_lines_spec i i' j j' hs (Q : unit -> list Hunk -> Prop) :
  i <= i' -> j <= j' -> i' <= length old_lines -> j' <= length new_lines -> turns hs (ostart i) (nstart j) ->
  (forall hs', turns hs' (ostart i') (nstart j') -> Q tt hs') ->
  wp (edited_lines old new old_lines new_lines (i, i') (j, j')) Q hs.
Proof.
  intros Hi Hj Hi' Hj' Ht HQ. unfold edited_lines.
  apply wp_bind, front_lines; [done..|]. clear i j Hi Hj Ht. intros i j hs1 Hi Hj Ht.
  apply wp_bind, tail_lines; [done..|]. intros k Hk1 Hk2.
  apply wp_bind, (wp_unwrap _ (ostart i, ostart (i' - k))); [apply span_spec; [done|lia|lia]|].
  apply wp_bind, (wp_unwrap _ (nstart j, nstart (j' - k))); [apply span_spec; [done|lia|lia]|].
  apply wp_bind, narrowed_lines; [lia|lia|done|]. intros hs2 Ht2.
  rewrite reverse_involutive. apply narrowed_tail; [done|]. intros hs3 Ht3.
  apply HQ. replace (i' - k + k) with i' in Ht3 by lia. by replace (j' - k + k) with j' in Ht3 by lia.
Qed.
End Edited.
