(* ===== verification/EditRunProofs.v ===== *)
(** * The longest run of anchors

    [Diff.longest_increasing] is patience sorting: it keeps, for each length,
    the run of that length with the least last element.  It returns a run of
    its argument that increases, and no run that increases is longer. *)

From S2P Require Import Prelude Text EditMap EditLineProofs.
From stdpp Require Import list gmap sorting.
Import Diff.

Section Runs.
Variable pairs : list (nat * nat).
Let n := length pairs.

(** The value of the pair at an index. *)
Definition value (i : nat) : nat := from_option snd 0 (pairs !! i).

(** An increasing run of indices, the last one first. *)
Fixpoint down (l : list nat) : Prop :=
  match l with
  | [] => True
  | a :: l' => a < n /\ match l' with [] => True | b :: _ => b < a /\ value b < value a end /\ down l'
  end.

(** The run that [previous] holds. *)
Fixpoint links (previous : list (option nat)) (l : list nat) : Prop :=
  match l with
  | [] => True
  | a :: l' => previous !! a = Some (head l') /\ links previous l'
  end.

Lemma down_tail a l : down (a :: l) -> down l.
Proof. by intros (_ & _ & ?). Qed.

Lemma down_below a l b : down (a :: l) -> b ∈ l -> b < a.
Proof.
  revert a. induction l as [|c l IH]; intros a; [intros _ Hb; by apply elem_of_nil in Hb|].
  intros (_ & [Hc _] & Hd) [->|Hb]%elem_of_cons; [done|]. specialize (IH c Hd Hb). lia.
Qed.

Lemma down_length a l : down (a :: l) -> length l <= a.
Proof.
  revert a. induction l as [|b l IH]; intros a; simpl; [lia|].
  intros (_ & [Hb _] & Hd). specialize (IH b Hd). lia.
Qed.

Lemma links_insert previous l i o :
  links previous l -> i ∉ l -> links (<[i := o]> previous) l.
Proof.
  induction l as [|a l IH]; [done|]. simpl. intros [Ha Hl] Hi. apply not_elem_of_cons in Hi as [Hia Hi].
  split; [by rewrite list_lookup_insert_ne|by apply IH].
Qed.

(** ** The invariant of the scan *)

Record scanned (i : nat) (tails : list nat) (previous : list (option nat)) : Prop := {
  sc_length : length previous = n;
  sc_fresh k : i <= k -> k < n -> previous !! k = Some None;
  sc_chain j a : tails !! j = Some a -> a < i /\ exists l, length l = j /\ down (a :: l) /\ links previous (a :: l);
  sc_order j k a b : j < k -> tails !! j = Some a -> tails !! k = Some b -> value a < value b;
  sc_best a l : a < i -> down (a :: l) -> exists b, tails !! length l = Some b /\ value b <= value a
}.

Lemma scanned_start : scanned 0 [] (replicate n None).
Proof.
  split; intros *; try (rewrite lookup_nil; discriminate); try lia.
  - apply length_replicate.
  - intros _ Hk. by apply lookup_replicate_2.
Qed.

Lemma tail_value (tails : list nat) (x : nat) tail :
  from_option (fun entry => entry.2 <? x)%nat false (pairs !! tail) = true -> value tail < x.
Proof. unfold value. destruct (pairs !! tail); simpl; [|done]. apply Nat.ltb_lt. Qed.

Lemma tail_value_false (tails : list nat) (x : nat) tail :
  tail < n -> from_option (fun entry => entry.2 <? x)%nat false (pairs !! tail) = false -> x <= value tail.
Proof.
  intros Ht. unfold value. destruct (lookup_lt_is_Some_2 pairs tail Ht) as [e He]. rewrite He. simpl.
  apply Nat.ltb_ge.
Qed.

Section Step.
Variables (i : nat) (p : nat * nat) (tails : list nat) (previous : list (option nat)).
Hypothesis (Hp : pairs !! i = Some p) (Hsc : scanned i tails previous).
Let place := partition_point (fun tail => from_option (fun entry => entry.2 <? p.2)%nat false (pairs !! tail)) tails.

Lemma value_i : value i = p.2.
Proof. unfold value. by rewrite Hp. Qed.

Lemma i_lt : i < n.
Proof. by eapply lookup_lt_Some. Qed.

Lemma before_place j a : j < place -> tails !! j = Some a -> value a < value i.
Proof.
  intros Hj Ha. rewrite value_i. apply (tail_value tails).
  by apply (partition_point_before (fun tail => from_option (fun entry => entry.2 <? p.2)%nat false (pairs !! tail)) tails j).
Qed.

Lemma from_place j a : place <= j -> tails !! j = Some a -> value i <= value a.
Proof.
  intros Hj Ha. rewrite value_i.
  assert (Hpl : exists b, tails !! place = Some b).
  { apply lookup_lt_is_Some_2. apply lookup_lt_Some in Ha. lia. }
  destruct Hpl as [b Hb]. pose proof (partition_point_at _ _ _ Hb) as Hfalse.
  apply (tail_value_false tails) in Hfalse; [|destruct (sc_chain _ _ _ Hsc place b Hb) as [? _]; pose proof i_lt; lia].
  destruct (decide (place = j)) as [<-|]; [by assert (a = b) as -> by congruence|].
  pose proof (sc_order _ _ _ Hsc place j b a). etransitivity; [exact Hfalse|]. apply Nat.lt_le_incl. auto with lia.
Qed.

Let previous' := if (0 <? place)%nat then <[i := tails !! (place - 1)]> previous else previous.
Let tails' := if (place =? length tails)%nat then tails ++ [i] else <[place := i]> tails.

Lemma place_le : place <= length tails.
Proof. apply partition_point_le. Qed.

Lemma tails'_lookup j : tails' !! j = if decide (j = place) then Some i else tails !! j.
Proof.
  pose proof place_le. unfold tails'. destruct (Nat.eqb_spec place (length tails)) as [He|He].
  - case_decide as Hj.
    + subst j. rewrite He. by rewrite list_lookup_middle.
    + destruct (decide (j < length tails)); [by rewrite lookup_app_l|].
      rewrite !lookup_ge_None_2; [done|lia|rewrite length_app; simpl; lia].
  - case_decide as Hj; [subst j; rewrite list_lookup_insert_eq; [done|lia]|by rewrite list_lookup_insert_ne].
Qed.

Lemma previous'_keeps l : links previous l -> (forall b, b ∈ l -> b < i) -> links previous' l.
Proof.
  intros Hl Hb. unfold previous'. destruct (0 <? place)%nat; [|done]. apply links_insert; [done|].
  intros Hi. specialize (Hb i Hi). lia.
Qed.

Lemma chain_below a l b : a < i -> down (a :: l) -> b ∈ a :: l -> b < i.
Proof. intros Ha Hd [->|Hb]%elem_of_cons; [done|]. pose proof (down_below a l b Hd Hb). lia. Qed.

Lemma new_chain : exists l, length l = place /\ down (i :: l) /\ links previous' (i :: l).
Proof.
  pose proof i_lt. destruct (decide (place = 0)) as [Hz|Hz].
  - exists []. split_and!; [done|simpl; done|]. simpl. split; [|done].
    unfold previous'. rewrite Hz. simpl. by apply (sc_fresh _ _ _ Hsc).
  - destruct (lookup_lt_is_Some_2 tails (place - 1)) as [a Ha]; [pose proof place_le; lia|].
    destruct (sc_chain _ _ _ Hsc _ a Ha) as (Hai & l & Hl & Hd & Hlk).
    exists (a :: l). split_and!; [simpl; lia| |].
    + split; [done|]. split; [|done]. split; [done|]. apply (before_place (place - 1)); [lia|done].
    + split; [|apply previous'_keeps; [done|]; intros b; by apply chain_below].
      unfold previous'. rewrite (proj2 (Nat.ltb_lt 0 place)) by lia. rewrite Ha. simpl.
      rewrite list_lookup_insert_eq; [done|]. rewrite (sc_length _ _ _ Hsc). done.
Qed.

Lemma scanned_step : scanned (S i) tails' previous'.
Proof.
  split.
  - unfold previous'. destruct (0 <? place)%nat; rewrite ?length_insert; apply (sc_length _ _ _ Hsc).
  - intros k Hk Hkn. unfold previous'. destruct (0 <? place)%nat; rewrite ?list_lookup_insert_ne by lia;
      apply (sc_fresh _ _ _ Hsc); lia.
  - intros j a. rewrite tails'_lookup. case_decide as Hj.
    + intros [= <-]. split; [lia|]. rewrite Hj. apply new_chain.
    + intros Ha. destruct (sc_chain _ _ _ Hsc j a Ha) as (Hai & l & Hl & Hd & Hlk). split; [lia|].
      exists l. split_and!; [done|done|]. apply previous'_keeps; [done|]. intros b. by apply chain_below.
  - intros j k a b Hjk. rewrite !tails'_lookup. destruct (decide (j = place)) as [Hj|Hj], (decide (k = place)) as [Hk|Hk].
    + lia.
    + intros [= <-] Hb. destruct (lookup_lt_is_Some_2 tails place) as [c Hc]; [apply lookup_lt_Some in Hb; lia|].
      pose proof (from_place place c (le_n _) Hc).
      assert (value c < value b) by (apply (sc_order _ _ _ Hsc place k); [lia|done|done]). lia.
    + intros Ha [= <-]. apply (before_place j); [lia|done].
    + by apply (sc_order _ _ _ Hsc j k).
  - intros a l Ha Hd. setoid_rewrite tails'_lookup. destruct (decide (a = i)) as [->|Hai].
    + assert (Hlen : length l <= place).
      { destruct l as [|b l]; simpl; [lia|]. destruct Hd as (_ & [Hb Hv] & Hd).
        destruct (sc_best _ _ _ Hsc b l Hb Hd) as (c & Hc & Hcv).
        destruct (decide (place <= length l)) as [Hle|]; [|lia]. pose proof (from_place _ c Hle Hc). lia. }
      destruct (decide (length l = place)) as [|Hne]; [by exists i|].
      destruct (lookup_lt_is_Some_2 tails (length l)) as [c Hc]; [pose proof place_le; lia|].
      exists c. split; [done|]. apply Nat.lt_le_incl. apply (before_place (length l)); [lia|done].
    + destruct (sc_best _ _ _ Hsc a l) as (b & Hb & Hbv); [lia|done|].
      destruct (decide (length l = place)) as [He|]; [|by exists b].
      exists i. split; [done|]. etransitivity; [|exact Hbv]. by apply (from_place (length l)); [lia|].
Qed.

Lemma extend_run_step : extend_run pairs (tails, previous) (i, p) = (tails', previous').
Proof. unfold extend_run, tails', previous', place. by destruct p. Qed.
End Step.

Lemma scanned_all done_ rest tails previous :
  pairs = done_ ++ rest -> scanned (length done_) tails previous ->
  scanned n (foldl (extend_run pairs) (tails, previous) (imap (fun d p => (length done_ + d, p)) rest)).1
    (foldl (extend_run pairs) (tails, previous) (imap (fun d p => (length done_ + d, p)) rest)).2.
Proof.
  revert done_ tails previous. induction rest as [|p rest IH]; intros done_ tails previous Hp Hsc.
  { rewrite app_nil_r in Hp. simpl. unfold n. by rewrite Hp at 1. }
  assert (Hi : pairs !! length done_ = Some p) by (rewrite Hp; by rewrite list_lookup_middle).
  pose proof (scanned_step (length done_) p tails previous Hi Hsc) as Hstep.
  cbn [imap foldl]. rewrite Nat.add_0_r, (extend_run_step _ _ _ _ Hi).
  specialize (IH (done_ ++ [p])). rewrite length_app in IH. simpl in IH.
  rewrite Nat.add_1_r in IH. erewrite (imap_ext _ (fun d q => (S (length done_) + d, q))).
  - apply IH; [by rewrite <- app_assoc|done].
  - intros d q _. simpl. f_equal. lia.
Qed.

(** ** The run that is read back *)

Definition entries (l : list nat) : list (nat * nat) := omap (fun i => pairs !! i) l.

Lemma entries_cons a p l : pairs !! a = Some p -> entries (a :: l) = p :: entries l.
Proof. intros Hp. unfold entries. simpl. by rewrite Hp. Qed.

Lemma anchored_prev_spec previous a l fuel run :
  down (a :: l) -> links previous (a :: l) -> length l < fuel ->
  anchored_prev previous pairs fuel (Some a) run = Done (run ++ entries (a :: l)).
Proof.
  revert a fuel run. induction l as [|b l IH]; intros a fuel run Hd Hl Hf; (destruct fuel as [|fuel]; [simpl in *; lia|]);
    destruct Hd as (Ha & Hd & Hd'); destruct Hl as [Hl Hl'];
    destruct (lookup_lt_is_Some_2 pairs a Ha) as [p Hp]; unfold entries; simpl; rewrite Hp, Hl; simpl.
  - by destruct fuel.
  - rewrite IH; [|done|done|simpl in *; lia]. by rewrite <- app_assoc.
Qed.

(** ** Runs of indices are runs of pairs *)

Definition rising (l : list (nat * nat)) : Prop := StronglySorted (fun a b => a.2 < b.2) l.

Lemma rising_snoc l x : rising l -> (forall y, y ∈ l -> y.2 < x.2) -> rising (l ++ [x]).
Proof.
  intros Hl Hx. induction Hl as [|y l Hl IH Hy]; simpl; [repeat constructor|].
  constructor; [apply IH; intros z Hz; apply Hx; by right|].
  apply Forall_app. split; [done|]. constructor; [apply Hx; by left|done].
Qed.

Lemma entries_down a l : down (a :: l) ->
  rising (reverse (entries (a :: l))) /\ reverse (entries (a :: l)) `sublist_of` take (S a) pairs
  /\ length (entries (a :: l)) = S (length l) /\ forall y, y ∈ entries (a :: l) -> y.2 <= value a.
Proof.
  revert a. induction l as [|b l IH]; intros a (Ha & Hd & Hd');
    destruct (lookup_lt_is_Some_2 pairs a Ha) as [p Hp]; rewrite (entries_cons a p) by done;
    assert (Hv : value a = p.2) by (unfold value; by rewrite Hp).
  - split_and!; [repeat constructor| |done|].
    + rewrite (take_S_r pairs a p Hp). by apply sublist_inserts_l.
    + intros y ->%list_elem_of_singleton. lia.
  - destruct (IH b Hd') as (Hr & Hs & Hl & Hle). revert Hr Hs Hl Hle. generalize (entries (b :: l)) as es.
    intros es Hr Hs Hl Hle. destruct Hd as [Hb Hbv]. rewrite reverse_cons. split_and!.
    + apply rising_snoc; [done|]. intros y Hy. rewrite elem_of_reverse in Hy. specialize (Hle y Hy). lia.
    + rewrite (take_S_r pairs a p Hp). apply sublist_app; [|done].
      etransitivity; [exact Hs|]. replace (take (S b) pairs) with (take (S b) (take a pairs)); [apply sublist_take|].
      rewrite take_take. by replace (S b `min` a) with (S b) by lia.
    + simpl. by rewrite Hl.
    + intros y [->|Hy]%elem_of_cons; [lia|]. specialize (Hle y Hy). lia.
Qed.

Lemma rising_indices l k :
  l `sublist_of` take k pairs -> k <= n -> rising l -> l <> [] ->
  exists a js, down (a :: js) /\ length l = S (length js) /\ a < k /\ last l = pairs !! a.
Proof.
  revert l. induction k as [|k IH]; intros l Hs Hk Hr Hne.
  { simpl in Hs. by apply sublist_nil_r in Hs. }
  destruct (lookup_lt_is_Some_2 pairs k) as [p Hp]; [done|].
  rewrite (take_S_r pairs k p Hp) in Hs. apply sublist_app_r in Hs as (l1 & l2 & -> & H1 & H2).
  assert (Hl2 : l2 = [] \/ l2 = [p]).
  { inversion H2 as [|x m1 m2 Hm|x m1 m2 Hm]; subst; apply sublist_nil_r in Hm; subst; auto. }
  destruct Hl2 as [->| ->].
  { rewrite app_nil_r in *. destruct (IH l1 H1) as (a & js & ? & ? & ? & ?); [lia|done|done|].
    exists a, js. split_and!; [done|done|lia|done]. }
  rewrite last_snoc, length_app. simpl. destruct (decide (l1 = [])) as [->|Hl1].
  { exists k, []. split; [by split|]. by split_and!; [|lia|]. }
  assert (Hr1 : rising l1 /\ forall y, y ∈ l1 -> y.2 < p.2).
  { clear -Hr. induction l1 as [|x l1 IH]; [split; [constructor|intros y Hy; by apply elem_of_nil in Hy]|].
    apply StronglySorted_inv in Hr as [Hr Hx]. apply Forall_app in Hx as [Hx1 Hx2].
    destruct (IH Hr) as [? Hy]. split; [by constructor|]. intros y [->|Hin]%elem_of_cons; [by inversion Hx2|by apply Hy]. }
  destruct Hr1 as [Hr1 Hlt]. destruct (IH l1 H1) as (a & js & Hd & Hlen & Hak & Hlast); [lia|done|done|].
  exists k, (a :: js). split; [|split_and!; [simpl; lia|lia|done]].
  split; [done|]. split; [|done]. split; [done|]. unfold value. rewrite Hp, <- Hlast. simpl.
  destruct (last l1) as [y|] eqn:Hy; [|by apply last_None in Hy]. simpl. apply Hlt.
  apply last_Some in Hy as [l' ->]. apply elem_of_app. right. by left.
Qed.
End Runs.

Lemma longest_increasing_spec (pairs : list (nat * nat)) :
  exists run, longest_increasing pairs = Done run
    /\ run `sublist_of` pairs /\ StronglySorted (fun a b => a.2 < b.2) run
    /\ forall l, l `sublist_of` pairs -> StronglySorted (fun a b => a.2 < b.2) l -> length l <= length run.
Proof.
  pose proof (scanned_all pairs [] pairs [] (replicate (length pairs) None) eq_refl (scanned_start pairs)) as Hsc.
  unfold longest_increasing. change (fun d p => (length [] + d, p)) with (fun (d : nat) (p : nat * nat) => (d, p)) in Hsc.
  destruct (foldl (extend_run pairs) _ _) as [tails previous]. simpl in Hsc.
  destruct (last tails) as [a|] eqn:Hlast.
  - assert (Ha : tails !! (length tails - 1) = Some a) by (rewrite last_lookup in Hlast; rewrite <- Hlast; f_equal; lia).
    destruct (sc_chain _ _ _ _ Hsc _ a Ha) as (Han & l & Hl & Hd & Hlk).
    destruct (entries_down pairs a l Hd) as (Hr & Hs & Hlen & _).
    rewrite (anchored_prev_spec pairs previous a l); [|done|done|pose proof (down_length pairs a l Hd); lia].
    exists (reverse (entries pairs (a :: l))). split_and!; [done| |done|].
    + etransitivity; [exact Hs|]. apply sublist_take.
    + intros l' Hs' Hr'. rewrite length_reverse, Hlen. destruct (decide (l' = [])) as [->|Hne]; [simpl; lia|].
      rewrite <- (firstn_all pairs) in Hs'.
      destruct (rising_indices pairs l' (length pairs)) as (b & js & Hdb & Hlb & Hb & _); [done|lia|done|done|].
      destruct (sc_best _ _ _ _ Hsc b js Hb Hdb) as (c & Hc%lookup_lt_Some & _). lia.
  - apply last_None in Hlast. subst tails. exists []. split_and!; [done|apply sublist_nil_l|constructor|].
    intros l' Hs' Hr'. destruct (decide (l' = [])) as [->|Hne]; [done|].
    rewrite <- (firstn_all pairs) in Hs'.
    destruct (rising_indices pairs l' (length pairs)) as (b & js & Hdb & Hlb & Hb & _); [done|lia|done|done|].
    destruct (sc_best _ _ _ _ Hsc b js Hb Hdb) as (c & Hc%lookup_lt_Some & _). simpl in Hc. lia.
Qed.

(** The longest run of anchors: [longest_increasing] returns, without a
    panic, pairs of its argument in their order whose second elements
    increase, and no other such choice is longer. *)
Theorem longest_increasing_longest (pairs : list (nat * nat)) :
  exists run, longest_increasing pairs = Done run
    /\ run `sublist_of` pairs /\ StronglySorted (fun a b => a.2 < b.2) run
    /\ forall l, l `sublist_of` pairs -> StronglySorted (fun a b => a.2 < b.2) l -> length l <= length run.
Proof. apply longest_increasing_spec. Qed.
