(* ===== verification/EditMatchProofs.v ===== *)
(** * The lines that match

    [match_lines] returns, pairs lines with the same content, and never
    crosses two pairs; so the hunks between two texts turn one into the
    other. *)

From S2P Require Import Prelude Text EditMap EditDiffProofs EditLineProofs EditRunProofs.
From stdpp Require Import list gmap sorting.
Local Open Scope prog_scope.
Import Diff.

Lemma NoDup_omap_fst {A K B} (f : K * A -> option (B * B)) (key_of : B -> option K) (l : list (K * A)) :
  NoDup l.*1 -> (forall e p, e ∈ l -> f e = Some p -> key_of p.1 = Some e.1) -> NoDup (omap f l).*1.
Proof.
  induction l as [|e l IH]; [constructor|]. simpl. intros Hnd%NoDup_cons Hkey. destruct Hnd as [Hne Hnd].
  assert (IHl : NoDup (omap f l).*1) by (apply IH; [done|intros; apply Hkey; [by right|done]]).
  destruct (f e) as [p|] eqn:Hp; [|done]. simpl. constructor; [|done].
  intros (q & Hq & Hin)%list_elem_of_fmap. apply list_elem_of_omap in Hin as (e' & He' & Hfe').
  apply Hne, list_elem_of_fmap. exists e'. split; [|done].
  pose proof (Hkey e p (list_elem_of_here _ _) Hp) as H1. pose proof (Hkey e' q (list_elem_of_further _ _ _ He') Hfe') as H2.
  rewrite Hq in H1. congruence.
Qed.

Section Match.
Variables (old new : bytes).
Hypothesis (Hold : good old) (Hnew : good new).
Variables (old_lines new_lines : list line).
Hypothesis (Hol : laid old 0 old_lines (length old)) (Hnl : laid new 0 new_lines (length new)).

Definition old_key (i : nat) : option bytes := l ← old_lines !! i; key old l.
Definition new_key (j : nat) : option bytes := l ← new_lines !! j; key new l.

(** Lines with the same content. *)
Definition matching (i j : nat) : Prop := exists k, old_key i = Some k /\ new_key j = Some k.

Lemma matching_lt i j : matching i j -> i < length old_lines /\ j < length new_lines.
Proof.
  intros (k & Hi & Hj). unfold old_key, new_key in *.
  destruct (old_lines !! i) as [l|] eqn:Hl; [|done]. destruct (new_lines !! j) as [l'|] eqn:Hl'; [|done].
  split; by eapply lookup_lt_Some.
Qed.

Lemma old_key_some i : i < length old_lines -> exists l k, old_lines !! i = Some l /\ key old l = Some k.
Proof.
  intros Hi. destruct (line_at _ _ Hi) as [l Hl].
  destruct (line_content old old_lines Hold Hol i l Hl) as (c & k & ? & ? & _). by exists l, k.
Qed.

Lemma new_key_some j : j < length new_lines -> exists l k, new_lines !! j = Some l /\ key new l = Some k.
Proof.
  intros Hj. destruct (line_at _ _ Hj) as [l Hl].
  destruct (line_content new new_lines Hnew Hnl j l Hl) as (c & k & ? & ? & _). by exists l, k.
Qed.

Lemma same_line_at_spec i j :
  i < length old_lines -> j < length new_lines ->
  exists b, same_line_at old new old_lines new_lines i j = Some b /\ (b = true -> matching i j).
Proof.
  intros Hi Hj. destruct (old_key_some i Hi) as (l & k & Hl & Hk), (new_key_some j Hj) as (l' & k' & Hl' & Hk').
  assert (Hm : k = k' -> matching i j).
  { intros <-. exists k. unfold old_key, new_key. by rewrite Hl, Hl'. }
  unfold same_line_at. rewrite Hl, Hl'. simpl. unfold same_line. rewrite Hk, Hk'. simpl.
  case_bool_decide as Heq; simpl; [|by exists false]. destruct (length k =? 0)%nat; simpl; [|by exists true; auto].
  destruct (line_lookup old old_lines Hol i l Hl) as (_ & ? & ? & _), (line_lookup new new_lines Hnl j l' Hl') as (_ & ? & ? & _).
  destruct (byte_slice_some old l.1 l.2) as [a ->]; [lia|done|].
  destruct (byte_slice_some new l'.1 l'.2) as [b ->]; [lia|done|]. simpl. eexists. split; [done|]. auto.
Qed.

(** Pairs of matching lines between [i], [j] and [i'], [j'], none crossing
    another. *)
Fixpoint paired (i j : nat) (l : list (nat * nat)) (i' j' : nat) : Prop :=
  match l with
  | [] => i <= i' /\ j <= j'
  | p :: l => i <= p.1 /\ j <= p.2 /\ matching p.1 p.2 /\ paired (S p.1) (S p.2) l i' j'
  end.

Lemma paired_app i j l a b l' i' j' : paired i j l a b -> paired a b l' i' j' -> paired i j (l ++ l') i' j'.
Proof.
  revert i j. induction l as [|p l IH]; intros i j; simpl.
  - intros [Hi Hj]. destruct l' as [|q l']; simpl; [lia|]. intros (? & ? & ? & ?). split_and!; [lia|lia|done|done].
  - intros (? & ? & ? & ?) Hl'. split_and!; auto.
Qed.

Lemma paired_snoc i j l a b : paired i j l a b -> matching a b -> paired i j (l ++ [(a, b)]) (S a) (S b).
Proof. intros Hl Hm. eapply paired_app; [exact Hl|]. by split_and!. Qed.

Lemma paired_le i j l i' j' : paired i j l i' j' -> i <= i' /\ j <= j'.
Proof.
  revert i j. induction l as [|p l IH]; intros i j; simpl; [done|]. intros (? & ? & _ & Hl).
  specialize (IH _ _ Hl). lia.
Qed.

(** ** The anchors *)

(** What the table of the lines seen says. *)
Definition sound (i i' j j' : nat) (seen : gmap bytes (nat * nat * nat * nat)) : Prop :=
  forall k in_old old_at in_new new_at, seen !! k = Some (in_old, old_at, in_new, new_at) ->
    (in_old <> 0 -> i <= old_at < i' /\ old_key old_at = Some k)
    /\ (in_new <> 0 -> j <= new_at < j' /\ new_key new_at = Some k).

Lemma seen_lines_ind (text : bytes) (lines : list line) (from to : nat)
    (count : nat -> nat * nat * nat * nat -> nat * nat * nat * nat) (P : gmap bytes (nat * nat * nat * nat) -> Prop) seen :
  (forall a, a < length lines -> exists l k, lines !! a = Some l /\ key text l = Some k) ->
  (forall a l k seen, from <= a < to -> lines !! a = Some l -> key text l = Some k -> P seen ->
     P (<[k := count a (from_option id (0, 0, 0, 0) (seen !! k))]> seen)) ->
  P seen -> exists seen', seen_lines text lines from to count seen = Some seen' /\ P seen'.
Proof.
  intros Hkey Hstep. unfold seen_lines. set (n := (to `min` length lines) - from).
  assert (Hn : from + n <= to `max` from /\ (n <> 0 -> from + n <= length lines)) by lia.
  revert Hn. clearbody n. revert seen.
  assert (H : forall m a seen, from <= a -> (m <> 0 -> a + m <= to /\ a + m <= length lines) -> P seen ->
    exists seen', foldl (fun seen a => seen ← seen; line ← lines !! a; k ← key text line;
        Some (<[k := count a (from_option id (0, 0, 0, 0) (seen !! k))]> seen)) (Some seen) (seq a m) = Some seen' /\ P seen').
  { induction m as [|m IH]; intros a seen Ha Hm HP; [by exists seen|]. cbn [seq foldl].
    destruct (Hkey a) as (l & k & Hl & Hk); [lia|]. cbn [mbind option_bind]. rewrite Hl. cbn [mbind option_bind].
    rewrite Hk. cbn [mbind option_bind]. apply IH; [lia|lia|]. apply (Hstep a l); [lia|done|done|done]. }
  intros seen Hn. apply H; lia.
Qed.

Lemma run_paired (run : list (nat * nat)) i j i' j' :
  StronglySorted (fun a b => a.1 < b.1) run -> StronglySorted (fun a b => a.2 < b.2) run ->
  (forall p, p ∈ run -> i <= p.1 < i' /\ j <= p.2 < j' /\ matching p.1 p.2) ->
  i <= i' -> j <= j' -> paired i j run i' j'.
Proof.
  revert i j. induction run as [|p run IH]; intros i j H1 H2 Hin Hi Hj; simpl; [done|].
  apply StronglySorted_inv in H1 as [H1 Hf1], H2 as [H2 Hf2].
  destruct (Hin p) as (? & ? & ?); [by left|]. split_and!; [lia|lia|done|].
  apply IH; [done|done| |lia|lia]. intros q Hq. destruct (Hin q) as (? & ? & ?); [by right|].
  rewrite Forall_forall in Hf1, Hf2. specialize (Hf1 q Hq). specialize (Hf2 q Hq). simpl in *. split_and!; try lia. done.
Qed.

Lemma pair_le_spec a b : pair_le a b = true <-> a.1 < b.1 \/ a.1 = b.1 /\ a.2 <= b.2.
Proof. unfold pair_le. rewrite orb_true_iff, andb_true_iff, !Nat.ltb_lt, Nat.eqb_eq, Nat.leb_le. lia. Qed.

Lemma sorted_pairs (l : list (nat * nat)) :
  NoDup l.*1 -> StronglySorted (fun a b => a.1 < b.1) (sort_by pair_le l).
Proof.
  intros Hnd. assert (Hnd' : NoDup (sort_by pair_le l).*1) by (by rewrite (sort_by_perm pair_le l)).
  assert (Hs : StronglySorted (fun a b => pair_le a b = true) (sort_by pair_le l)).
  { apply sort_by_strongly_sorted; intros a b.
    - intros Hab%not_true_iff_false. rewrite pair_le_spec in *. lia.
    - intros c. rewrite !pair_le_spec. lia. }
  induction Hs as [|p m Hs IH Hp]; [constructor|]. simpl in Hnd'. apply NoDup_cons in Hnd' as [Hne Hnd'].
  constructor; [by apply IH|]. rewrite Forall_forall in *. intros q Hq. specialize (Hp q Hq).
  apply pair_le_spec in Hp as [|[Heq _]]; [done|]. destruct Hne. apply list_elem_of_fmap. by exists q.
Qed.

Lemma unique_anchors_spec i i' j j' :
  i <= i' -> j <= j' ->
  exists run, unique_anchors old new old_lines new_lines (i, i') (j, j') = Done run /\ paired i j run i' j'.
Proof.
  intros Hi Hj. unfold unique_anchors. cbn [fst snd].
  destruct (seen_lines_ind old old_lines i i' (fun a e => (e.1.1.1 + 1, a, e.1.2, e.2)) (sound i i' j j') ∅
              old_key_some) as (seen1 & -> & H1).
  { intros a l k seen Ha Hl Hk Hs k' in_old old_at in_new new_at. rewrite lookup_insert. case_decide as Hkk; [subst k'|apply Hs].
    intros [= <- <- <- <-]. split.
    - intros _. split; [done|]. unfold old_key. by rewrite Hl.
    - destruct (seen !! k) as [[[[a1 a2] a3] a4]|] eqn:Hseen; simpl; [|done]. apply (Hs k a1 a2 a3 a4 Hseen). }
  { intros k. by rewrite lookup_empty. }
  cbn [mbind option_bind].
  destruct (seen_lines_ind new new_lines j j' (fun a e => (e.1.1.1, e.1.1.2, e.1.2 + 1, a)) (sound i i' j j') seen1
              new_key_some) as (seen2 & -> & H2); [|done|].
  { intros a l k seen Ha Hl Hk Hs k' in_old old_at in_new new_at. rewrite lookup_insert. case_decide as Hkk; [subst k'|apply Hs].
    intros [= <- <- <- <-]. split.
    - destruct (seen !! k) as [[[[a1 a2] a3] a4]|] eqn:Hseen; simpl; [|done]. apply (Hs k a1 a2 a3 a4 Hseen).
    - intros _. split; [done|]. unfold new_key. by rewrite Hl. }
  cbn [mbind outcome_bind expect]. set (pairs := omap _ (map_to_list seen2)).
  assert (Hpairs : forall e p, e ∈ map_to_list seen2 -> (let '(key, (in_old, old_at, in_new, new_at)) := e in
      if negb (length key =? 0)%nat && (in_old =? 1)%nat && (in_new =? 1)%nat then Some (old_at, new_at) else None) = Some p ->
      i <= p.1 < i' /\ j <= p.2 < j' /\ old_key p.1 = Some e.1 /\ new_key p.2 = Some e.1).
  { intros [k [[[a1 a2] a3] a4]] p He%elem_of_map_to_list. destruct (_ && _) eqn:Hc; [|done]. intros [= <-].
    apply andb_true_iff in Hc as [[_ Ho%Nat.eqb_eq]%andb_true_iff Hn%Nat.eqb_eq].
    destruct (H2 k a1 a2 a3 a4 He) as [Hso Hsn]. destruct Hso as [? ?]; [lia|]. destruct Hsn as [? ?]; [lia|]. split; [done|]. split; [done|]. by split. }
  destruct (longest_increasing_spec (sort_by pair_le pairs)) as (run & Hrun & Hsub & Hinc & _).
  exists run. split; [exact Hrun|]. apply run_paired; [|done| |done|done].
  - eapply StronglySorted_sublist; [exact Hsub|]. apply sorted_pairs.
    apply (NoDup_omap_fst _ old_key); [apply NoDup_fst_map_to_list|]. intros e p He Hp. by apply (Hpairs e p).
  - intros p Hp. eapply elem_of_sublist in Hp; [|exact Hsub]. rewrite (sort_by_perm pair_le pairs) in Hp.
    apply list_elem_of_omap in Hp as (e & He & Hep). destruct (Hpairs e p He Hep) as (? & ? & ? & ?).
    split_and!; [lia|lia|lia|lia|]. by exists e.1.
Qed.

(** ** [match_lines] *)

Lemma front_match i i' j j' m (Q : nat * nat -> list (nat * nat) -> Prop) :
  i <= i' -> j <= j' -> i' <= length old_lines -> j' <= length new_lines ->
  (forall a b l, paired i j l a b -> a <= i' -> b <= j' -> Q (a, b) (m ++ l)) ->
  wp (loop (S (i' - i)) (fun '(old_from, new_from) =>
      if ((old_from <? i') && (new_from <? j'))%nat then
        bind (unwrap (same_line_at old new old_lines new_lines old_from new_from)) (fun same =>
        if (same : bool) then bind (push (old_from, new_from)) (fun _ => ret (inl (S old_from, S new_from)))
        else ret (inr (old_from, new_from)))
      else ret (inr (old_from, new_from))) (i, j)) Q m.
Proof.
  intros Hi Hj Hi' Hj' HQ.
  apply (wp_loop (fun x s => x.1 <= i' /\ x.2 <= j' /\ exists l, s = m ++ l /\ paired i j l x.1 x.2) (fun x _ => i' - x.1)).
  2:{ split_and!; [done|done|]. exists []. by rewrite app_nil_r. }
  2:{ simpl. lia. }
  intros [a b] s (Ha & Hb & l & -> & Hl). simpl in *.
  destruct (_ && _) eqn:Hc; [|apply wp_ret; by apply HQ].
  apply andb_true_iff in Hc as [Hlt1%Nat.ltb_lt Hlt2%Nat.ltb_lt].
  destruct (same_line_at_spec a b) as (same & Hs & Hm); [lia|lia|].
  apply wp_bind, (wp_unwrap _ same); [done|]. destruct same; [|apply wp_ret; by apply HQ].
  apply wp_bind, wp_modify, wp_ret. simpl. split; [|lia]. split_and!; [lia|lia|].
  exists (l ++ [(a, b)]). split; [by rewrite app_assoc|]. apply paired_snoc; auto.
Qed.

Lemma tail_match i i' j j' m (Q : nat * nat * list (nat * nat) -> list (nat * nat) -> Prop) :
  i <= i' -> j <= j' -> i' <= length old_lines -> j' <= length new_lines ->
  (forall a b tail, i <= a -> j <= b -> a <= i' -> b <= j' -> paired a b (reverse tail) i' j' -> Q (a, b, tail) m) ->
  wp (loop (S (i' - i)) (fun '(old_to, new_to, tail) =>
      if ((i <? old_to) && (j <? new_to))%nat then
        bind (unwrap (same_line_at old new old_lines new_lines (old_to - 1) (new_to - 1))) (fun same =>
        ret (if (same : bool) then inl (old_to - 1, new_to - 1, tail ++ [(old_to - 1, new_to - 1)])
             else inr (old_to, new_to, tail)))
      else ret (inr (old_to, new_to, tail))) (i', j', [])) Q m.
Proof.
  intros Hi Hj Hi' Hj' HQ.
  apply (wp_loop (fun x s => s = m /\ i <= x.1.1 <= i' /\ j <= x.1.2 <= j' /\ paired x.1.1 x.1.2 (reverse x.2) i' j')
                 (fun x _ => x.1.1 - i)).
  2:{ simpl. split_and!; lia || done. }
  2:{ simpl. lia. }
  intros [[a b] tail] s (-> & Ha & Hb & Hp). simpl in *.
  destruct (_ && _) eqn:Hc; [|apply wp_ret; apply HQ; (lia || done)].
  apply andb_true_iff in Hc as [Hlt1%Nat.ltb_lt Hlt2%Nat.ltb_lt].
  destruct (same_line_at_spec (a - 1) (b - 1)) as (same & Hs & Hm); [lia|lia|].
  apply wp_bind, (wp_unwrap _ same); [done|]. apply wp_ret. destruct same; [|apply HQ; (lia || done)].
  simpl. split; [|lia]. split_and!; [done|lia|lia|lia|lia|].
  rewrite reverse_snoc. simpl. split_and!; [lia|lia|by apply Hm|].
  replace (S (a - 1)) with a by lia. by replace (S (b - 1)) with b by lia.
Qed.

Lemma anchored_match (rec : nat * nat -> nat * nat -> M (list (nat * nat)) unit) n anchors i i' j j' m
    (Q : nat * nat -> list (nat * nat) -> Prop) :
  (forall i i' j j' m (Q : unit -> list (nat * nat) -> Prop), i <= i' -> j <= j' -> i' <= length old_lines -> j' <= length new_lines -> i' - i < n ->
     (forall l, paired i j l i' j' -> Q tt (m ++ l)) -> wp (rec (i, i') (j, j')) Q m) ->
  paired i j anchors i' j' -> i' - i <= n ->
  (forall a b l, paired i j l a b -> a <= i' -> b <= j' -> (anchors <> [] -> i < a) -> Q (a, b) (m ++ l)) ->
  wp (for_each (fun '(old_at, new_at) '(old_anchor, new_anchor) =>
        bind (rec (old_at, old_anchor) (new_at, new_anchor)) (fun _ =>
        bind (push (old_anchor, new_anchor)) (fun _ => ret (S old_anchor, S new_anchor)))) anchors (i, j)) Q m.
Proof.
  intros Hrec. revert i j m. induction anchors as [|[a b] anchors IH]; intros i j m Hp Hn HQ; simpl in Hp.
  { apply wp_ret. rewrite <- (app_nil_r m). apply HQ; [done|lia|lia|done]. }
  destruct Hp as (Ha & Hb & Hm & Hp). destruct (matching_lt a b Hm). pose proof (paired_le _ _ _ _ _ Hp).
  cbn [for_each]. apply wp_bind, wp_bind, Hrec; [done|done|lia|lia|lia|]. intros l Hl.
  apply wp_bind, wp_modify, wp_ret. apply IH; [done|lia|].
  intros a' b' l' Hl' Ha' Hb' _. rewrite <- !app_assoc. apply HQ; [|done|done|].
  - eapply paired_app; [exact Hl|]. simpl. split_and!; done || exact Hl'.
  - intros _. apply paired_le in Hl'. lia.
Qed.

Lemma wp_lift {St A} (o : outcome A) a (Q : A -> St -> Prop) s : o = Done a -> Q a s -> wp (lift o) Q s.
Proof. by intros ->. Qed.

Lemma match_lines_spec fuel i i' j j' m (Q : unit -> list (nat * nat) -> Prop) :
  i <= i' -> j <= j' -> i' <= length old_lines -> j' <= length new_lines -> i' - i < fuel ->
  (forall l, paired i j l i' j' -> Q tt (m ++ l)) ->
  wp (match_lines old new old_lines new_lines fuel (i, i') (j, j')) Q m.
Proof.
  revert i i' j j' m Q. induction fuel as [|fuel IH]; intros i i' j j' m Q Hi Hj Hi' Hj' Hf HQ; [lia|].
  cbn [match_lines]. apply wp_bind, front_match; [done..|]. intros a b l1 Hl1 Ha Hb.
  pose proof (paired_le _ _ _ _ _ Hl1).
  apply wp_bind, tail_match; [done..|]. intros a' b' tail Haa Hbb Ha' Hb' Htail.
  apply (wp_seq (fun _ m' => exists l2, m' = (m ++ l1) ++ l2 /\ paired a b l2 a' b')).
  - apply wp_when; [|intros _; exists []; by rewrite app_nil_r].
    intros [Hlt1%Nat.ltb_lt Hlt2%Nat.ltb_lt]%andb_true_iff.
    destruct (unique_anchors_spec a a' b b') as (run & Hrun & Hpr); [lia|lia|].
    apply wp_bind, (wp_lift _ run); [done|].
    apply wp_when; [|intros _; exists []; by rewrite app_nil_r].
    intros Hne. assert (Hrne : run <> []) by (by destruct run).
    apply wp_bind, (anchored_match _ fuel run a a' b b'); [|done|lia|].
    + intros. by apply IH.
    + intros c d l2 Hl2 Hc Hd Hac. specialize (Hac Hrne). apply IH; [lia|lia|lia|lia|lia|].
      intros l3 Hl3. exists (l2 ++ l3). split; [by rewrite app_assoc|]. by eapply paired_app.
  - intros [] m' (l2 & -> & Hl2). apply wp_modify. rewrite <- !app_assoc. apply HQ.
    eapply paired_app; [exact Hl1|]. eapply paired_app; [exact Hl2|exact Htail].
Qed.
End Match.

(** ** [hunks] *)

Section Hunks.
Variables (old new : bytes).
Hypothesis (old_fits : (N.of_nat (length old) < 2 ^ 32)%N) (new_fits : (N.of_nat (length new) < 2 ^ 32)%N).
Hypothesis (Hold : good old) (Hnew : good new).
Let old_lines := lines old.
Let new_lines := lines new.
Let Hol : laid old 0 old_lines (length old) := lines_laid old Hold.
Let Hnl : laid new 0 new_lines (length new) := lines_laid new Hnew.
Let turns := turns old new 0 0.
Let ostart := line_start old old_lines.
Let nstart := line_start new new_lines.

(** The contents of two matching lines are the same bytes. *)
Lemma matching_content i j :
  matching old new old_lines new_lines i j ->
  exists l l' c c', old_lines !! i = Some l /\ new_lines !! j = Some l' /\ content old l = Some c /\ content new l' = Some c'
    /\ l = (ostart i, ostart (S i)) /\ l' = (nstart j, nstart (S j))
    /\ l.1 <= c.1 /\ c.2 <= l.2 /\ l'.1 <= c'.1 /\ c'.2 <= l'.2
    /\ bounds old new c.1 c'.1 /\ bounds old new c.2 c'.2
    /\ exists k, c.2 = c.1 + k /\ c'.2 = c'.1 + k /\ same old new c.1 c'.1 k.
Proof.
  intros Hm. destruct (matching_lt _ _ _ _ _ _ Hm) as [Hi Hj]. destruct Hm as (k & Hk & Hk').
  destruct (key_at_old old Hold old_lines Hol i Hi) as (l & k1 & Hl & Hk1 & Hls).
  destruct (key_at_new new Hnew new_lines Hnl j Hj) as (l' & k1' & Hl' & Hk1' & Hls').
  unfold old_key, new_key in *. rewrite Hl in Hk. rewrite Hl' in Hk'. cbn [mbind option_bind] in *.
  destruct (line_content old old_lines Hold Hol i l Hl) as (c & ? & Hc & ? & ? & ? & ? & ? & ?).
  destruct (line_content new new_lines Hnew Hnl j l' Hl') as (c' & ? & Hc' & ? & ? & ? & ? & ? & ?).
  destruct (line_lookup old old_lines Hol i l Hl) as (_ & _ & ? & _).
  destruct (line_lookup new new_lines Hnl j l' Hl') as (_ & _ & ? & _).
  exists l, l', c, c'. unfold key in Hk, Hk'. rewrite Hc in Hk. rewrite Hc' in Hk'. destruct c as [cs ce], c' as [cs' ce'].
  cbn [mbind option_bind fst snd] in *.
  apply byte_slice_spec in Hk as (_ & _ & Hlen & Hb), Hk' as (_ & _ & Hlen' & Hb').
  split_and!; try done; try (split_and!; done || lia). exists (ce - cs). split_and!; [lia|lia|].
  split; [lia|lia|]. intros d Hd. rewrite <- Hb, <- Hb' by lia. done.
Qed.

Lemma narrowed_between o o' n n' hs (Q : unit -> list Hunk -> Prop) :
  bounds old new o n -> bounds old new o' n' -> o <= o' -> n <= n' -> turns hs o n ->
  (forall hs', turns hs' o' n' -> Q tt hs') -> wp (narrowed old new (o, o') (n, n')) Q hs.
Proof. intros. by apply narrowed_spec. Qed.

(** One pair of lines that match. *)
Lemma matched_pair_spec i j a b hs (Q : nat * nat -> list Hunk -> Prop) :
  i <= a -> j <= b -> matching old new old_lines new_lines a b -> turns hs (ostart i) (nstart j) ->
  (forall hs', turns hs' (ostart (S a)) (nstart (S b)) -> Q (S a, S b) hs') ->
  wp (matched_pair old new old_lines new_lines (i, j) (a, b)) Q hs.
Proof.
  intros Hi Hj Hm Ht HQ. destruct (matching_lt _ _ _ _ _ _ Hm) as [Ha Hb]. unfold matched_pair.
  apply wp_bind, edited_lines_spec; [done..|lia|lia|done|]. intros hs1 Ht1.
  destruct (matching_content a b Hm) as (l & l' & c & c' & Hl & Hl' & Hc & Hc' & -> & -> & H1 & H2 & H3 & H4 & Hb1 & Hb2 & k & Hk & Hk' & Hs).
  apply wp_bind. rewrite (proj2 (Nat.ltb_lt _ _)) by done.
  apply wp_bind, (wp_unwrap _ _ _ _ Hl), wp_bind, (wp_unwrap _ _ _ _ Hl'), wp_bind, (wp_unwrap _ _ _ _ Hc),
    wp_bind, (wp_unwrap _ _ _ _ Hc').
  cbn [fst snd] in *.
  apply wp_bind, narrowed_between; [apply line_starts_bounds; done|done|done|done|done|]. intros hs2 Ht2.
  apply narrowed_between; [done|apply line_starts_bounds; done|done|done| |].
  - rewrite Hk, Hk'. by apply turns_keep.
  - intros hs3 Ht3. apply wp_ret. by apply HQ.
Qed.

(** The stretch after the last pair. *)
Lemma matched_end_spec i j hs (Q : nat * nat -> list Hunk -> Prop) :
  i <= length old_lines -> j <= length new_lines -> turns hs (ostart i) (nstart j) ->
  (forall x hs', turns hs' (length old) (length new) -> Q x hs') ->
  wp (matched_pair old new old_lines new_lines (i, j) (length old_lines, length new_lines)) Q hs.
Proof.
  intros Hi Hj Ht HQ. unfold matched_pair. apply wp_bind, edited_lines_spec; [done..|]. intros hs1 Ht1.
  rewrite !line_start_end in Ht1 by done. rewrite (proj2 (Nat.ltb_ge _ _)) by done.
  apply wp_bind, wp_ret, wp_ret. by apply HQ.
Qed.

Lemma matched_pairs_spec matched i j hs :
  paired old new old_lines new_lines i j matched (length old_lines) (length new_lines) ->
  turns hs (ostart i) (nstart j) ->
  wp (for_each (matched_pair old new old_lines new_lines) (matched ++ [(length old_lines, length new_lines)]) (i, j))
    (fun _ hs' => turns hs' (length old) (length new)) hs.
Proof.
  revert i j hs. induction matched as [|[a b] matched IH]; intros i j hs Hp Ht; simpl in Hp.
  - destruct Hp. cbn [app for_each]. apply wp_bind, matched_end_spec; [done|done|done|]. intros x hs' Ht'. by apply wp_ret.
  - destruct Hp as (Ha & Hb & Hm & Hp). cbn [app for_each].
    apply wp_bind, matched_pair_spec; [done|done|done|done|]. intros hs' Ht'. by apply IH.
Qed.

Lemma hunks_spec : exists hs, hunks old new = Done hs /\ turns hs (length old) (length new).
Proof.
  unfold hunks. case_bool_decide as Heq.
  { exists []. split; [done|]. exists (length old). split_and!; [done|by rewrite Heq|].
    split; [lia|by rewrite Heq|]. intros i _. by rewrite Heq. }
  fold old_lines new_lines.
  pose proof (match_lines_spec old new Hold Hnew old_lines new_lines Hol Hnl (S (length old_lines))
    0 (length old_lines) 0 (length new_lines) []
    (fun _ m => paired old new old_lines new_lines 0 0 m (length old_lines) (length new_lines))) as Hm.
  unfold wp in Hm. destruct (match_lines _ _ _ _ _ _ _ _) as [[[] matched]| |]; [|exfalso; apply Hm; (lia || done)..].
  specialize (Hm ltac:(lia) ltac:(lia) ltac:(lia) ltac:(lia) ltac:(lia) ltac:(done)).
  cbn [mbind outcome_bind].
  pose proof (matched_pairs_spec matched 0 0 [] Hm) as Hp. unfold wp in Hp.
  assert (Ht0 : turns [] (ostart 0) (nstart 0)).
  { unfold ostart, nstart. rewrite (line_start_0 old), (line_start_0 new) by done. apply turns_start; lia. }
  specialize (Hp Ht0).
  destruct (for_each _ _ _ _) as [[x hs]| |]; [|done|done]. exists hs. split; [done|exact Hp].
Qed.
End Hunks.
