(* ===== verification/EditMapProofs.v ===== *)
(** * The map of an edit

    A map between texts of given lengths tiles both of them; the offsets that
    it keeps are a relation, its graph, on which inverse and composition are
    the inverse and the composition of relations. *)

From S2P Require Import Prelude Text EditMap EditDiffProofs EditLineProofs EditMatchProofs.
From stdpp Require Import list gmap sorting.
Import PositionMap.
Local Open Scope N_scope.

Lemma lead_byte b : b < 128 \/ 192 <= b -> is_continuation b = false.
Proof. intros Hb. unfold is_continuation. destruct (N.leb_spec 128 b), (N.ltb_spec b 192); done || lia. Qed.

Lemma as_bytes_good (text : rstring) : good (as_bytes text).
Proof.
  assert (Hlead : forall c, exists a u, utf8_char c = a :: u /\ is_continuation a = false
            /\ (a < 128 -> u = []) /\ Forall (fun b => 128 <= b) u).
  { intros c. unfold utf8_char.
    assert (Hmulti : forall lead x u, 192 <= lead -> Forall (fun b => 128 <= b) u ->
      exists a u', lead + x :: u = a :: u' /\ is_continuation a = false /\ (a < 128 -> u' = [])
                   /\ Forall (fun b => 128 <= b) u').
    { intros lead x u Hlead Hu. eexists _, _. split; [done|]. split; [apply lead_byte; lia|].
      split; [intros; exfalso; lia|done]. }
    destruct (N.ltb_spec c 128); [|destruct (N.ltb_spec c 2048); [|destruct (N.ltb_spec c 65536)]];
      [|apply Hmulti; [done|]; repeat (constructor; [apply N.le_add_r|]); constructor..].
    eexists _, _. split; [done|]. split; [by apply lead_byte; left|]. split; [done|constructor]. }
  unfold as_bytes. induction text as [|c text [IH0 IH]]; [by split|]. simpl.
  destruct (Hlead c) as (a & u & -> & Ha & Hu & Hall). simpl. split.
  - intros b [= <-]. done.
  - intros [|i] x y; simpl.
    + intros [= <-] Hx. rewrite (Hu Hx). simpl. intros Hy. by apply IH0.
    + intros Hx Hlt Hy. destruct (decide (i < length u)%nat) as [Hi|Hi].
      * rewrite lookup_app_l in Hx by done. eapply Forall_lookup_1 in Hall; [|exact Hx]. simpl in Hall. lia.
      * rewrite lookup_app_r in Hx, Hy by lia. replace (S i - length u)%nat with (S (i - length u)) in Hy by lia.
        by apply (IH (i - length u)%nat x).
Qed.

(** ** Tiles *)

(** The hunks and the stretches between them cover both sides. *)
Fixpoint tiles (o n : N) (hs : list Hunk) (o' n' : N) : Prop :=
  match hs with
  | [] => exists k, o' = o + k /\ n' = n + k
  | h :: hs => (exists k, old_start h = o + k /\ new_start h = n + k)
               /\ old_start h <= old_end h /\ new_start h <= new_end h /\ tiles (old_end h) (new_end h) hs o' n'
  end.

(** An offset and its image. *)
Fixpoint graph (o n : N) (hs : list Hunk) (p q : N) : Prop :=
  match hs with
  | [] => exists d, p = o + d /\ q = n + d
  | h :: hs => (exists d, p = o + d /\ q = n + d /\ p < old_start h) \/ graph (old_end h) (new_end h) hs p q
  end.

Lemma hunk_tiles_le o n hs o' n' : tiles o n hs o' n' -> o <= o' /\ n <= n'.
Proof.
  revert o n. induction hs as [|h hs IH]; simpl; intros o n.
  - intros (k & -> & ->). lia.
  - intros ((k & ? & ?) & ? & ? & Ht%IH). lia.
Qed.

Lemma tiles_keep o n hs o' n' k : tiles o n hs o' n' -> tiles o n hs (o' + k) (n' + k).
Proof.
  revert o n. induction hs as [|h hs IH]; simpl; intros o n.
  - intros (j & -> & ->). exists (j + k). lia.
  - intros (? & ? & ? & ?). auto.
Qed.

Lemma tiles_snoc o n hs h o' n' :
  tiles o n (hs ++ [h]) o' n'
  <-> tiles o n hs (old_start h) (new_start h) /\ old_start h <= old_end h /\ new_start h <= new_end h
      /\ exists k, o' = old_end h + k /\ n' = new_end h + k.
Proof.
  revert o n. induction hs as [|x hs IH]; intros o n; simpl.
  - split; [intros ((k & ? & ?) & ? & ? & ?)|intros ((k & ? & ?) & ? & ? & ?)]; split_and!; eauto.
  - rewrite IH. tauto.
Qed.

Lemma graph_le o n hs o' n' p q : tiles o n hs o' n' -> graph o n hs p q -> o <= p /\ n <= q.
Proof.
  revert o n. induction hs as [|h hs IH]; simpl; intros o n.
  - intros _ (d & -> & ->). lia.
  - intros ((k & ? & ?) & ? & ? & Ht) [(d & -> & -> & ?)|Hg]; [lia|]. specialize (IH _ _ Ht Hg). lia.
Qed.

Lemma graph_snoc o n hs h p q :
  tiles o n hs (old_start h) (new_start h) -> old_start h <= old_end h ->
  graph o n (hs ++ [h]) p q
  <-> graph o n hs p q /\ p < old_start h \/ exists d, p = old_end h + d /\ q = new_end h + d.
Proof.
  revert o n. induction hs as [|x hs IH]; intros o n; simpl.
  - intros (k & ? & ?) Hh. naive_solver.
  - intros ((k & ? & ?) & ? & ? & Ht) Hh. rewrite (IH _ _ Ht Hh). split.
    + intros [(d & -> & -> & Hd)|[[Hg Hp]|?]]; [left|left|by right].
      * split; [left; by exists d|]. apply hunk_tiles_le in Ht. lia.
      * split; [by right|done].
    + intros [[[(d & -> & -> & Hd)|Hg] Hp]|?]; [left; by exists d|right; left; done|by right; right].
Qed.

Lemma graph_fun o n hs o' n' p q q' :
  tiles o n hs o' n' -> graph o n hs p q -> graph o n hs p q' -> q = q'.
Proof.
  revert o n. induction hs as [|h hs IH]; simpl; intros o n.
  - intros _ (d & -> & ->) (d' & ? & ->). lia.
  - intros ((k & ? & ?) & ? & ? & Ht) [(d & -> & -> & ?)|Hg] [(d' & ? & -> & ?)|Hg']; [lia| | |by eapply IH].
    + apply (graph_le _ _ _ _ _ _ _ Ht) in Hg'. lia.
    + apply (graph_le _ _ _ _ _ _ _ Ht) in Hg. lia.
Qed.

Lemma graph_bound o n hs o' n' p q : tiles o n hs o' n' -> graph o n hs p q -> p <= o' -> q <= n' /\ (p = o' -> q = n').
Proof.
  revert o n. induction hs as [|h hs IH]; simpl; intros o n.
  - intros (k & -> & ->) (d & -> & ->). lia.
  - intros ((k & ? & ?) & ? & ? & Ht) [(d & -> & -> & ?)|Hg] Hp; [|by eapply IH].
    apply hunk_tiles_le in Ht. lia.
Qed.

(** ** [map] *)

Definition shift_from (prev : option Hunk) (p : N) : option N :=
  match prev with None => Some p | Some h => shift h p end.

Fixpoint scan (prev : option Hunk) (hs : list Hunk) (p : N) : option N :=
  match hs with
  | [] => shift_from prev p
  | h :: hs => if old_start h <=? p then scan (Some h) hs p else shift_from prev p
  end.

Lemma before_scan hs prev p :
  match before hs (partition_point (fun h => old_start h <=? p) hs) with
  | None => shift_from prev p
  | Some h => shift h p
  end = scan prev hs p.
Proof.
  revert prev. induction hs as [|h hs IH]; intros prev; simpl; [done|].
  destruct (old_start h <=? p); [|done]. simpl.
  rewrite <- IH. unfold before. destruct (partition_point _ hs) as [|k] eqn:Hk; [done|].
  pose proof (partition_point_le (fun h => old_start h <=? p) hs).
  destruct (lookup_lt_is_Some_2 hs k) as [h' Hh]; [lia|].
  assert (Hh' : (h :: hs) !! S k = Some h') by exact Hh. by rewrite Hh, Hh'.
Qed.

Lemma scan_none h hs o' n' p :
  tiles (old_end h) (new_end h) hs o' n' -> p < old_end h -> scan (Some h) hs p = None.
Proof.
  intros Ht Hp. assert (Hs : shift_from (Some h) p = None) by (simpl; unfold shift; by rewrite (proj2 (N.leb_gt _ _))).
  destruct hs as [|h' hs]; [done|]. destruct Ht as ((k & Hk & _) & _). cbn [scan].
  by rewrite (proj2 (N.leb_gt _ _)) by lia.
Qed.

Lemma scan_graph prev o n hs o' n' p q :
  (forall x, o <= x -> x - o + n < 2 ^ 32 -> shift_from prev x = Some (x - o + n)) ->
  tiles o n hs o' n' -> n' < 2 ^ 32 -> o <= p -> p <= o' ->
  scan prev hs p = Some q <-> graph o n hs p q.
Proof.
  revert prev o n. induction hs as [|h hs IH]; simpl; intros prev o n Hprev Ht Hn' Hop Hpo.
  - destruct Ht as (k & -> & ->). rewrite Hprev by lia.
    split; [intros [= <-]; exists (p - o); lia|intros (d & -> & ->); f_equal; lia].
  - destruct Ht as ((k & Hk1 & Hk2) & Ho & Hn & Ht). pose proof (hunk_tiles_le _ _ _ _ _ Ht) as [].
    destruct (N.leb_spec (old_start h) p) as [Hs|Hs].
    + destruct (N.le_gt_cases (old_end h) p) as [He|He].
      * rewrite (IH (Some h) (old_end h) (new_end h)); [|..|done|done|done|done].
        -- split; [by right|]. intros [(d & ? & ? & ?)|]; [lia|done].
        -- intros x Hx Hxo. simpl. unfold shift. rewrite (proj2 (N.leb_le _ _)) by done. f_equal.
           by apply N.mod_small.
      * rewrite (scan_none h hs o' n') by done. split; [done|]. intros [(d & ? & ? & ?)|Hg]; [lia|].
        apply (graph_le _ _ _ _ _ _ _ Ht) in Hg. lia.
    + rewrite Hprev by lia. split; [intros [= <-]; left; exists (p - o); lia|].
      intros [(d & -> & -> & ?)|Hg]; [f_equal; lia|]. apply (graph_le _ _ _ _ _ _ _ Ht) in Hg. lia.
Qed.

(** A map between texts of these lengths. *)
Record maps (m : t) (old_len new_len : N) : Prop := {
  mp_tiles : tiles 0 0 m old_len new_len;
  mp_old : old_len < OPEN;
  mp_new : new_len < OPEN
}.

Lemma map_graph m Lo Ln p q : maps m Lo Ln -> p <= Lo -> PositionMap.map m p = Some q <-> graph 0 0 m p q.
Proof.
  intros [Ht Ho Hn] Hp. unfold OPEN, u32_max in *. unfold PositionMap.map. rewrite (before_scan m None).
  apply (scan_graph None 0 0 m Lo Ln); [|done|lia|lia|done]. intros x _ _. simpl. f_equal. lia.
Qed.

(** ** Where a range starts and ends *)

Fixpoint last_passing (f : Hunk -> bool) (prev : option Hunk) (hs : list Hunk) : option Hunk :=
  match hs with
  | [] => prev
  | h :: hs => if f h then last_passing f (Some h) hs else prev
  end.

Lemma before_last f hs prev :
  match before hs (partition_point f hs) with None => prev | Some h => Some h end = last_passing f prev hs.
Proof.
  revert prev. induction hs as [|h hs IH]; intros prev; simpl; [done|]. destruct (f h); [|done]. simpl.
  rewrite <- IH. unfold before. destruct (partition_point f hs) as [|k] eqn:Hk; [done|].
  pose proof (partition_point_le f hs). destruct (lookup_lt_is_Some_2 hs k) as [h' Hh]; [lia|].
  assert (Hh' : (h :: hs) !! S k = Some h') by exact Hh. by rewrite Hh, Hh'.
Qed.

Definition start_from (prev : option Hunk) (s : N) : option N :=
  match prev with
  | None => Some s
  | Some hunk =>
      if old_start hunk =? s then Some (if old_start hunk =? old_end hunk then new_end hunk else new_start hunk)
      else shift hunk s
  end.

Lemma start_image_last m s : start_image m s = start_from (last_passing (fun h => old_start h <=? s) None m) s.
Proof. rewrite <- before_last. unfold start_image. by destruct (before m _). Qed.

Lemma end_image_last m e : end_image m e = shift_from (last_passing (fun h => old_start h <? e) None m) e.
Proof. rewrite <- before_last. unfold end_image. by destruct (before m _). Qed.

Lemma shift_exact h p : old_end h <= p -> p - old_end h + new_end h < 2 ^ 32 -> shift h p = Some (p - old_end h + new_end h).
Proof. intros Hp Hlt. unfold shift, u32_add. rewrite (proj2 (N.leb_le _ _)) by done. by rewrite N.mod_small. Qed.

Lemma end_after prev o n hs o' n' e e' :
  (forall x, o <= x -> x - o + n < 2 ^ 32 -> shift_from prev x = Some (x - o + n)) ->
  tiles o n hs o' n' -> n' < 2 ^ 32 -> o <= e -> e <= o' ->
  shift_from (last_passing (fun h => old_start h <? e) prev hs) e = Some e' ->
  n <= e' /\ forall p q, graph o n hs p q -> p < e -> q < e'.
Proof.
  revert prev o n. induction hs as [|h hs IH]; cbn [last_passing graph]; intros prev o n Hprev Ht Hn' Hoe Heo.
  - destruct Ht as (k & -> & ->). rewrite Hprev by lia. intros [= <-]. split; [lia|]. intros p q (d & -> & ->) Hd. lia.
  - destruct Ht as ((k & Hk1 & Hk2) & Ho & Hn & Ht). pose proof (hunk_tiles_le _ _ _ _ _ Ht) as [].
    destruct (N.ltb_spec (old_start h) e) as [Hs|Hs].
    + destruct (N.le_gt_cases (old_end h) e) as [He|He].
      * intros Hres. destruct (IH (Some h) (old_end h) (new_end h)) as [Hle Hin]; [|done|done|done|done|done|].
        { intros x Hx Hlt. by apply shift_exact. }
        split; [lia|]. intros p q [(d & -> & -> & ?)|Hg] Hp; [lia|by eapply Hin].
      * intros Hres. exfalso.
        assert (Hnone : last_passing (fun h => old_start h <? e) (Some h) hs = Some h).
        { destruct hs as [|h' hs]; [done|]. destruct Ht as ((k' & ? & _) & _). cbn [last_passing].
          by rewrite (proj2 (N.ltb_ge _ _)) by lia. }
        rewrite Hnone in Hres. simpl in Hres. unfold shift in Hres. by rewrite (proj2 (N.leb_gt _ _)) in Hres.
    + rewrite Hprev by lia. intros [= <-]. split; [lia|]. intros p q [(d & -> & -> & ?)|Hg] Hp; [lia|].
      apply (graph_le _ _ _ _ _ _ _ Ht) in Hg. lia.
Qed.

Lemma start_before prev o n hs o' n' s s' :
  (forall s', start_from prev s = Some s' -> forall x, o <= x -> s <= x -> x <= o' -> s' <= x - o + n) ->
  tiles o n hs o' n' -> n' < 2 ^ 32 -> s <= o' ->
  start_from (last_passing (fun h => old_start h <=? s) prev hs) s = Some s' ->
  forall p q, graph o n hs p q -> p <= o' -> s <= p -> s' <= q.
Proof.
  revert prev o n. induction hs as [|h hs IH]; cbn [last_passing graph]; intros prev o n Hprev Ht Hn' Hso.
  - intros Hres p q (d & -> & ->) Hp Hs. specialize (Hprev s' Hres (o + d)). lia.
  - destruct Ht as ((k & Hk1 & Hk2) & Ho & Hn & Ht). pose proof (hunk_tiles_le _ _ _ _ _ Ht) as [].
    destruct (N.leb_spec (old_start h) s) as [Hs|Hs].
    + intros Hres p q [(d & -> & -> & ?)|Hg] Hp Hsp; [lia|].
      eapply (IH (Some h) (old_end h) (new_end h)); [|exact Ht|exact Hn'|exact Hso|exact Hres|exact Hg|done|done].
      intros s1 Hs1 x Hx Hsx Hxo. simpl in Hs1. destruct (N.eqb_spec (old_start h) s).
      * injection Hs1 as <-. destruct (N.eqb_spec (old_start h) (old_end h)); lia.
      * unfold shift in Hs1. destruct (N.leb_spec (old_end h) s); [|done]. injection Hs1 as <-. unfold u32_add.
        etransitivity; [apply N.Div0.mod_le|]. lia.
    + intros Hres p q [(d & -> & -> & ?)|Hg] Hp Hsp; [specialize (Hprev s' Hres (o + d)); lia|].
      apply (graph_le _ _ _ _ _ _ _ Ht) in Hg. specialize (Hprev s' Hres (old_start h)). lia.
Qed.

(** ** The inverse *)

Lemma tiles_inverse o n m o' n' : tiles o n m o' n' -> tiles n o (inverse m) n' o'.
Proof.
  revert o n. induction m as [|h m IH]; simpl; intros o n.
  - intros (k & ? & ?). by exists k.
  - intros ((k & ? & ?) & ? & ? & ?). split_and!; [by exists k|done|done|auto].
Qed.

Lemma graph_inverse o n m o' n' p q : tiles o n m o' n' -> graph o n m p q <-> graph n o (inverse m) q p.
Proof.
  revert o n. induction m as [|h m IH]; simpl; intros o n.
  - intros _. split; intros (d & ? & ?); by exists d.
  - intros ((k & ? & ?) & ? & ? & Ht). rewrite (IH _ _ Ht).
    split; (intros [(d & ? & ? & ?)|]; [left; exists d; lia|by right]).
Qed.

(** ** Hunks that touch are merged *)

(** Hunks that are in order and apart, none of them empty. *)
Definition separate (h h' : Hunk) : Prop := old_end h < old_start h' /\ new_end h < new_start h'.
Definition apart (m : t) : Prop := Sorted separate m /\ Forall (fun h => is_empty_hunk h = false) m.

Lemma Sorted_snoc {A} (R : A -> A -> Prop) l x :
  Sorted R (l ++ [x]) <-> Sorted R l /\ forall y, last l = Some y -> R y x.
Proof.
  induction l as [|a l IH]; simpl.
  - split; [intros _; split; [constructor|done]|intros _; by repeat constructor].
  - destruct l as [|b l].
    + simpl. split.
      * intros [_ Hx]%Sorted_inv. split; [by repeat constructor|]. intros y [= <-]. by apply HdRel_inv in Hx.
      * intros [_ Hx]. constructor; [by repeat constructor|]. constructor. by apply Hx.
    + split.
      * intros [Hs Hh]%Sorted_inv. apply IH in Hs as [Hs Hx]. split; [|exact Hx].
        constructor; [done|]. constructor. by apply HdRel_inv in Hh.
      * intros [[Hs Hh]%Sorted_inv Hx]. constructor; [by apply IH|]. constructor. by apply HdRel_inv in Hh.
Qed.

Lemma graph_past o n m o' n' p q :
  tiles o n m o' n' -> o' <= p -> graph o n m p q <-> exists d, p = o' + d /\ q = n' + d.
Proof.
  revert o n. induction m as [|h m IH]; simpl; intros o n.
  - intros (k & -> & ->) Hp. split; intros (d & Hd & ->); [exists (d - k)|exists (k + d)]; lia.
  - intros ((k & ? & ?) & ? & ? & Ht) Hp. rewrite <- (IH _ _ Ht Hp). pose proof (hunk_tiles_le _ _ _ _ _ Ht) as [? ?].
    split; [|by right]. intros [(d & ? & ? & ?)|]; [lia|done].
Qed.

(** One more hunk: the graph up to it, and past it. *)
Record merged_with (m : t) (h : Hunk) (m' : t) : Prop := {
  mw_tiles : tiles 0 0 m' (old_end h) (new_end h);
  mw_apart : apart m';
  mw_graph p q : graph 0 0 m' p q <-> graph 0 0 m p q /\ p < old_start h \/ exists d, p = old_end h + d /\ q = new_end h + d;
  mw_starts x : x ∈ m' -> exists y, y ∈ m ++ [h] /\ old_start x = old_start y /\ new_start x = new_start y;
  mw_ends x : x ∈ m' -> exists y, y ∈ m ++ [h] /\ old_end x = old_end y /\ new_end x = new_end y
}.

Lemma merge_hunk_spec m h :
  tiles 0 0 m (old_start h) (new_start h) -> old_start h <= old_end h -> new_start h <= new_end h -> apart m ->
  merged_with m h (merge_hunk m h).
Proof.
  intros Ht Ho Hn [Hs Hne]. unfold merge_hunk. destruct (is_empty_hunk h) eqn:Hempty.
  { unfold is_empty_hunk in Hempty. apply andb_true_iff in Hempty as [Ho'%N.eqb_eq Hn'%N.eqb_eq]. split.
    - by rewrite <- Ho', <- Hn'.
    - done.
    - intros p q. rewrite <- Ho', <- Hn'. split.
      + intros Hg. destruct (N.lt_ge_cases p (old_start h)) as [|Hp]; [by left|right]. by apply (graph_past _ _ _ _ _ p q Ht).
      + intros [[Hg _]|Hd]; [done|]. apply (graph_past _ _ _ _ _ p q Ht); [|done]. destruct Hd as (d & -> & _). lia.
    - intros x Hx. exists x. split; [set_solver|done].
    - intros x Hx. exists x. split; [set_solver|done]. }
  assert (Happend : (forall l, last m = Some l -> separate l h) -> merged_with m h (m ++ [h])).
  { intros Hl. split.
    - apply tiles_snoc. split_and!; [done|done|done|]. exists 0. lia.
    - split; [by apply Sorted_snoc|]. apply Forall_app. split; [done|by constructor].
    - intros p q. by apply graph_snoc.
    - intros x Hx. by exists x.
    - intros x Hx. by exists x. }
  destruct (last m) as [l|] eqn:Hl; [|by apply Happend].
  apply last_Some in Hl as [init ->].
  apply tiles_snoc in Ht as (Hti & Hlo & Hln & k & Hk1 & Hk2).
  destruct ((old_start h <=? old_end l) || (new_start h <=? new_end l)) eqn:Htouch.
  2:{ apply Happend. intros l' Hl'. injection Hl' as <-. apply orb_false_iff in Htouch as [H1%N.leb_gt H2%N.leb_gt].
      by split. }
  assert (Hk : k = 0) by (apply orb_true_iff in Htouch; rewrite !N.leb_le in Htouch; lia). subst k.
  rewrite length_app, Nat.add_sub, take_app_length.
  apply Sorted_snoc in Hs as [Hs Hsl]. apply Forall_app in Hne as [Hne [Hnl _]%Forall_cons].
  set (l' := mkHunk (old_start l) (old_end h) (new_start l) (new_end h)). split.
  - apply tiles_snoc. simpl. split_and!; [done|lia|lia|]. exists 0. lia.
  - split.
    + apply Sorted_snoc. split; [done|]. intros y Hy. apply (Hsl y Hy).
    + apply Forall_app. split; [done|]. constructor; [|done]. unfold is_empty_hunk in *. simpl.
      apply andb_false_iff in Hnl. rewrite !N.eqb_neq in Hnl. apply andb_false_iff. rewrite !N.eqb_neq. lia.
  - intros p q. rewrite !graph_snoc by (simpl; done || lia). simpl. split.
    + intros [[Hg Hp]|?]; [|by right]. left. split; [by left|lia].
    + intros [[[[Hg Hp]|(d & -> & _)] ?]|?]; [by left|lia|by right].
  - intros x [Hx| ->%list_elem_of_singleton]%elem_of_app; [exists x|exists l]; (split; [|done]);
      rewrite !elem_of_app; auto. left. right. by left.
  - intros x [Hx| ->%list_elem_of_singleton]%elem_of_app; [exists x|exists h]; (split; [|done]);
      rewrite !elem_of_app; auto. right. by left.
Qed.

Record normal (hs m : t) (o n : N) : Prop := {
  nm_tiles : tiles 0 0 m o n;
  nm_apart : apart m;
  nm_graph p q : graph 0 0 m p q <-> graph 0 0 hs p q;
  nm_starts x : x ∈ m -> exists y, y ∈ hs /\ old_start x = old_start y /\ new_start x = new_start y;
  nm_ends x : x ∈ m -> exists y, y ∈ hs /\ old_end x = old_end y /\ new_end x = new_end y
}.

Lemma from_hunks_step hs m o n h :
  tiles 0 0 hs o n -> normal hs m o n -> (exists k, old_start h = o + k /\ new_start h = n + k) ->
  old_start h <= old_end h -> new_start h <= new_end h ->
  tiles 0 0 (hs ++ [h]) (old_end h) (new_end h) /\ normal (hs ++ [h]) (merge_hunk m h) (old_end h) (new_end h).
Proof.
  intros Ht [Hmt Hma Hmg Hms Hme] (k & Hk1 & Hk2) Ho Hn.
  assert (Ht' : tiles 0 0 hs (old_start h) (new_start h)) by (rewrite Hk1, Hk2; by apply tiles_keep).
  assert (Hmt' : tiles 0 0 m (old_start h) (new_start h)) by (rewrite Hk1, Hk2; by apply tiles_keep).
  destruct (merge_hunk_spec m h Hmt' Ho Hn Hma) as [W1 W2 W3 W4 W5]. split; [|split].
  - apply tiles_snoc. split_and!; [done|done|done|]. exists 0. lia.
  - done.
  - done.
  - intros p q. rewrite W3, graph_snoc by done. by rewrite Hmg.
  - intros x (y & [Hy|Hy]%elem_of_app & E1 & E2)%W4.
    + destruct (Hms y Hy) as (z & Hz & ? & ?). exists z. split; [apply elem_of_app; by left|]. split; congruence.
    + exists y. split; [apply elem_of_app; by right|done].
  - intros x (y & [Hy|Hy]%elem_of_app & E1 & E2)%W5.
    + destruct (Hme y Hy) as (z & Hz & ? & ?). exists z. split; [apply elem_of_app; by left|]. split; congruence.
    + exists y. split; [apply elem_of_app; by right|done].
Qed.

Lemma from_hunks_spec hs o n : tiles 0 0 hs o n -> normal hs (from_hunks hs) o n.
Proof.
  assert (H : forall rest done_ m o1 n1, tiles 0 0 done_ o1 n1 -> normal done_ m o1 n1 -> tiles o1 n1 rest o n ->
            normal (done_ ++ rest) (foldl merge_hunk m rest) o n).
  { induction rest as [|h rest IH]; intros done_ m o1 n1 Hd Hm Ht.
    - destruct Ht as (k & -> & ->). rewrite app_nil_r. destruct Hm as [? ? ? ? ?]. split; [by apply tiles_keep|done..].
    - destruct Ht as (Hk & Ho & Hn & Ht). destruct (from_hunks_step done_ m o1 n1 h Hd Hm Hk Ho Hn) as [Hd' Hm'].
      cbn [foldl]. rewrite cons_middle, app_assoc. by eapply IH. }
  intros Ht. apply (H hs [] [] 0 0); [exists 0; lia| |done].
  split; [exists 0; lia|split; constructor|done|intros x Hx; by apply elem_of_nil in Hx|intros x Hx; by apply elem_of_nil in Hx].
Qed.

(** ** The map between two texts *)

Lemma turns_tiles old new o n hs o' n' :
  turns old new o n hs o' n' -> tiles (N.of_nat o) (N.of_nat n) hs (N.of_nat o') (N.of_nat n').
Proof.
  revert o n. induction hs as [|h hs IH]; simpl; intros o n.
  - intros (k & -> & -> & _). exists (N.of_nat k). lia.
  - intros ((k & ? & ? & _) & ? & ? & _ & _ & Ht%IH). rewrite !N2Nat.id in Ht.
    split_and!; [exists (N.of_nat k); lia|done|done|done].
Qed.

Lemma turns_same old new o n hs o' n' p q :
  turns old new o n hs o' n' -> graph (N.of_nat o) (N.of_nat n) hs p q -> p < N.of_nat o' ->
  old !! N.to_nat p = new !! N.to_nat q.
Proof.
  assert (Hsame : forall o n k d, same old new o n k -> d < N.of_nat k ->
            old !! N.to_nat (N.of_nat o + d) = new !! N.to_nat (N.of_nat n + d)).
  { intros a b k d [_ _ Hb] Hd. rewrite !N2Nat.inj_add, !Nat2N.id. apply Hb. lia. }
  revert o n. induction hs as [|h hs IH]; simpl; intros o n.
  - intros (k & -> & -> & Hk) (d & -> & ->) Hd. eapply Hsame; [exact Hk|lia].
  - intros ((k & ? & ? & Hk) & ? & ? & _ & _ & Ht) [(d & -> & -> & Hd)|Hg] Hp; [eapply Hsame; [exact Hk|lia]|].
    eapply IH; [exact Ht| |done]. by rewrite !N2Nat.id.
Qed.

Lemma turns_bounds old new o n hs o' n' h :
  turns old new o n hs o' n' -> h ∈ hs ->
  bounds old new (N.to_nat (old_start h)) (N.to_nat (new_start h))
  /\ bounds old new (N.to_nat (old_end h)) (N.to_nat (new_end h)).
Proof.
  revert o n. induction hs as [|x hs IH]; simpl; intros o n; [by intros _ ?%elem_of_nil|].
  intros (_ & _ & _ & ? & ? & Ht) [->|Hh]%elem_of_cons; [done|by eapply IH].
Qed.

(** The old text with the hunks replaced by what the new text has for them. *)
Fixpoint patch (old new : bytes) (at_ : nat) (m : t) : bytes :=
  match m with
  | [] => drop at_ old
  | h :: m =>
      take (N.to_nat (old_start h) - at_) (drop at_ old)
      ++ take (N.to_nat (new_end h) - N.to_nat (new_start h)) (drop (N.to_nat (new_start h)) new)
      ++ patch old new (N.to_nat (old_end h)) m
  end.

Lemma patch_spec old new o n m :
  tiles (N.of_nat o) (N.of_nat n) m (N.of_nat (length old)) (N.of_nat (length new)) ->
  (forall p q, graph (N.of_nat o) (N.of_nat n) m p q -> p < N.of_nat (length old) -> old !! N.to_nat p = new !! N.to_nat q) ->
  patch old new o m = drop n new.
Proof.
  revert o n. induction m as [|h m IH]; intros o n Ht Hsame.
  - destruct Ht as (k & ? & ?). simpl. apply list_eq. intros i. rewrite !lookup_drop.
    destruct (decide (o + i < length old)%nat) as [Hi|Hi]; [|rewrite !lookup_ge_None_2 by lia; done].
    specialize (Hsame (N.of_nat (o + i)) (N.of_nat (n + i))). rewrite !Nat2N.id in Hsame. apply Hsame; [|lia].
    exists (N.of_nat i). lia.
  - destruct Ht as ((k & Hk1 & Hk2) & Ho & Hn & Ht). cbn [patch]. pose proof (hunk_tiles_le _ _ _ _ _ Ht) as [? ?].
    rewrite (IH (N.to_nat (old_end h)) (N.to_nat (new_end h))).
    + replace (drop (N.to_nat (new_end h)) new)
        with (drop (N.to_nat (new_end h) - N.to_nat (new_start h)) (drop (N.to_nat (new_start h)) new))
        by (rewrite drop_drop; f_equal; lia).
      rewrite take_drop.
      replace (drop (N.to_nat (new_start h)) new) with (drop (N.to_nat k) (drop n new)) by (rewrite drop_drop; f_equal; lia).
      replace (take (N.to_nat (old_start h) - o) (drop o old)) with (take (N.to_nat k) (drop n new)); [apply take_drop|].
      apply list_eq. intros i. replace (N.to_nat (old_start h) - o)%nat with (N.to_nat k) by lia.
      destruct (decide (i < N.to_nat k)%nat) as [Hi|Hi]; [|rewrite !lookup_take_ge by lia; done].
      rewrite !lookup_take_lt, !lookup_drop by lia. symmetry.
      specialize (Hsame (N.of_nat (o + i)) (N.of_nat (n + i))). rewrite !Nat2N.id in Hsame. apply Hsame; [|lia].
      left. exists (N.of_nat i). lia.
    + by rewrite !N2Nat.id.
    + intros p q Hg. rewrite !N2Nat.id in Hg. apply Hsame. by right.
Qed.

Lemma new_maps (old new : rstring) :
  N.of_nat (length (as_bytes old)) < OPEN -> N.of_nat (length (as_bytes new)) < OPEN ->
  exists hs m, Diff.hunks (as_bytes old) (as_bytes new) = Done hs /\ PositionMap.new (as_bytes old) (as_bytes new) = Done m
    /\ turns (as_bytes old) (as_bytes new) 0 0 hs (length (as_bytes old)) (length (as_bytes new))
    /\ normal hs m (N.of_nat (length (as_bytes old))) (N.of_nat (length (as_bytes new))).
Proof.
  unfold OPEN, u32_max. intros Ho Hn.
  destruct (hunks_spec (as_bytes old) (as_bytes new)) as (hs & Hhs & Ht); [lia|lia|apply as_bytes_good|apply as_bytes_good|].
  exists hs, (from_hunks hs). split_and!; [done|unfold PositionMap.new; by rewrite Hhs|done|].
  apply from_hunks_spec. by apply (turns_tiles _ _ 0 0) in Ht.
Qed.
