(* ===== verification/EditThenProofs.v ===== *)
(** * One edit after another *)

From S2P Require Import Prelude Text EditMap EditDiffProofs EditMapProofs.
From stdpp Require Import list gmap sorting.
Import PositionMap.
Local Open Scope N_scope.

Lemma saturating_exact a b : a + b <= OPEN -> saturating_add a b = a + b.
Proof. unfold saturating_add, OPEN. lia. Qed.

Lemma saturating_min a b : saturating_add a b = N.min (a + b) OPEN.
Proof. done. Qed.

Lemma u32_add_exact a b : a + b <= OPEN -> u32_add a b = a + b.
Proof. intros H. unfold u32_add. apply N.mod_small. unfold OPEN, u32_max in H. lia. Qed.

Lemma saturating_open a : saturating_add a OPEN = OPEN.
Proof. unfold saturating_add, OPEN. lia. Qed.

(** ** Kept stretches *)

(** An offset of a kept stretch, and its image. *)
Definition in_kept (ks : list stretch) (p q : N) : Prop :=
  exists a b l d, (a, b, l) ∈ ks /\ p = a + d /\ q = b + d /\ d < l.

(** Stretches in order, from [x] and [y] on, the last of which runs on to the
    ends of both texts. *)
Fixpoint strands (x y : N) (ks : list stretch) (Lo Ln : N) : Prop :=
  match ks with
  | [] => False
  | (a, b, l) :: ks =>
      x <= a /\ y <= b /\ 0 < l
      /\ match ks with
         | [] => exists k, Lo = a + k /\ Ln = b + k /\ k < l
         | _ => strands (a + l) (b + l) ks Lo Ln
         end
  end.

Lemma in_kept_nil p q : ~ in_kept [] p q.
Proof. intros (a & b & l & d & H & _). by apply elem_of_nil in H. Qed.

Lemma in_kept_cons a b l ks p q :
  in_kept ((a, b, l) :: ks) p q <-> (exists d, p = a + d /\ q = b + d /\ d < l) \/ in_kept ks p q.
Proof.
  unfold in_kept. setoid_rewrite elem_of_cons. split.
  - intros (a' & b' & l' & d & [[= -> -> ->]|H] & H2); [left; by exists d|right; by exists a', b', l', d].
  - intros [(d & H)|(a' & b' & l' & d & H & H2)]; [exists a, b, l, d|exists a', b', l', d]; auto.
Qed.

Lemma in_kept_app ks ks' p q : in_kept (ks ++ ks') p q <-> in_kept ks p q \/ in_kept ks' p q.
Proof.
  induction ks as [|[[a b] l] ks IH]; simpl.
  - split; [by right|]. intros [H|H]; [by apply in_kept_nil in H|done].
  - rewrite !in_kept_cons, IH. tauto.
Qed.

Lemma strands_bound x y ks Lo Ln : strands x y ks Lo Ln -> x <= Lo /\ y <= Ln.
Proof.
  revert x y. induction ks as [|[[a b] l] ks IH]; intros x y; [done|]. simpl. intros (? & ? & ? & H).
  destruct ks as [|k ks]; [destruct H as (? & ? & ? & ?); lia|]. specialize (IH _ _ H). lia.
Qed.

Lemma in_kept_above x y ks Lo Ln p q : strands x y ks Lo Ln -> in_kept ks p q -> x <= p /\ y <= q.
Proof.
  revert x y. induction ks as [|[[a b] l] ks IH]; intros x y; [done|]. simpl. intros (? & ? & ? & H).
  rewrite in_kept_cons. intros [(d & -> & -> & _)|Hk]; [lia|].
  destruct ks as [|k ks]; [by apply in_kept_nil in Hk|]. specialize (IH _ _ H Hk). lia.
Qed.

(** *** [kept] *)

Fixpoint stretches (o n : N) (m : t) : list stretch :=
  match m with
  | [] => [(o, n, OPEN)]
  | h :: m => (if o <? old_start h then [(o, n, old_start h - o)] else []) ++ stretches (old_end h) (new_end h) m
  end.

Lemma kept_stretches m : kept m = stretches 0 0 m.
Proof.
  unfold kept.
  assert (H : forall m acc o n, (let '(kept, (old, new)) := foldl kept_step (acc, (o, n)) m in kept ++ [(old, new, OPEN)])
            = acc ++ stretches o n m).
  { clear m. induction m as [|h m IH]; intros acc o n; [done|]. cbn [foldl kept_step stretches].
    rewrite IH. destruct (o <? old_start h); [by rewrite <- app_assoc|done]. }
  apply (H m [] 0 0).
Qed.

(** The last stretch is open. *)
Definition open (ks : list stretch) : Prop := exists ks' a b, ks = ks' ++ [(a, b, OPEN)].

Lemma open_cons s ks : ks <> [] -> open (s :: ks) -> open ks.
Proof.
  intros Hne (ks' & a & b & Heq). destruct ks' as [|k ks']; simpl in Heq; injection Heq as -> ->; [done|].
  by exists ks', a, b.
Qed.

Lemma open_single a b l : open [(a, b, l)] -> l = OPEN.
Proof.
  intros (ks' & a' & b' & Heq). destruct ks' as [|k ks']; simpl in Heq; [by injection Heq|].
  injection Heq as _ Heq. by destruct ks'.
Qed.

Lemma stretches_open o n m : open (stretches o n m).
Proof.
  revert o n. induction m as [|h m IH]; intros o n; [by exists [], o, n|]. simpl.
  destruct (IH (old_end h) (new_end h)) as (ks & a & b & ->). eexists (_ ++ ks), a, b. by rewrite app_assoc.
Qed.

Lemma stretches_nonempty o n m : stretches o n m <> [].
Proof. destruct (stretches_open o n m) as (ks & a & b & ->). by destruct ks. Qed.

Lemma stretches_strands o n m Lo Ln x y :
  tiles o n m Lo Ln -> Lo < OPEN -> x <= o -> y <= n -> strands x y (stretches o n m) Lo Ln.
Proof.
  revert o n x y. induction m as [|h m IH]; intros o n x y.
  - intros (k & ? & ?) ? ? ?. simpl. split_and!; [done|done|unfold OPEN, u32_max; lia|]. exists k. split_and!; [done|done|lia].
  - intros ((k & Hk1 & Hk2) & Ho & Hn & Ht) HL Hx Hy. cbn [stretches]. destruct (N.ltb_spec o (old_start h)) as [Hlt|Hge].
    + cbn [app]. pose proof (stretches_nonempty (old_end h) (new_end h) m) as Hne.
      simpl. split_and!; [done|done|lia|]. specialize (IH (old_end h) (new_end h) (o + (old_start h - o)) (n + (old_start h - o)) Ht HL).
      destruct (stretches _ _ m); [done|]. apply IH; lia.
    + cbn [app]. apply IH; [done|done|lia|lia].
Qed.

Lemma stretches_graph o n m Lo Ln p q :
  tiles o n m Lo Ln -> Lo < OPEN -> p <= Lo -> graph o n m p q <-> in_kept (stretches o n m) p q.
Proof.
  revert o n. induction m as [|h m IH]; intros o n.
  - intros (k & ? & ?) ? ?. simpl. rewrite in_kept_cons. split.
    + intros (d & -> & ->). left. exists d. split_and!; [done|done|lia].
    + intros [(d & -> & -> & _)|Hk]; [by exists d|by apply in_kept_nil in Hk].
  - intros ((k & Hk1 & Hk2) & Ho & Hn & Ht) HL Hp. cbn [stretches graph]. rewrite in_kept_app, (IH _ _ Ht HL Hp).
    apply or_iff_compat_r. destruct (N.ltb_spec o (old_start h)).
    + rewrite in_kept_cons. split.
      * intros (d & -> & -> & ?). left. exists d. split_and!; [done|done|lia].
      * intros [(d & -> & -> & ?)|Hk]; [exists d; split_and!; [done|done|lia]|by apply in_kept_nil in Hk].
    + split; [intros (d & ? & ? & ?); lia|intros Hk; by apply in_kept_nil in Hk].
Qed.

(** *** [from_kept] *)

Fixpoint gaps (o n : N) (ks : list stretch) : list Hunk :=
  match ks with
  | [] => []
  | (a, b, l) :: ks => mkHunk o a n b :: gaps (saturating_add a l) (saturating_add b l) ks
  end.

Lemma from_kept_gaps ks : from_kept ks = from_hunks (gaps 0 0 ks).
Proof.
  unfold from_kept. f_equal.
  assert (H : forall ks acc o n, (foldl gap_step (acc, (o, n)) ks).1 = acc ++ gaps o n ks).
  { clear ks. induction ks as [|[[a b] l] ks IH]; intros acc o n; simpl; [by rewrite app_nil_r|].
    by rewrite IH, <- app_assoc. }
  apply (H ks []).
Qed.

Lemma gaps_spec x y ks Lo Ln :
  strands x y ks Lo Ln -> Lo < OPEN -> Ln < OPEN ->
  tiles x y (gaps x y ks) Lo Ln /\ forall p q, x <= p -> p <= Lo -> graph x y (gaps x y ks) p q <-> in_kept ks p q.
Proof.
  intros Hs Ho Hn. revert x y Hs. induction ks as [|[[a b] l] ks IH]; intros x y; [done|].
  simpl. intros (Hx & Hy & Hl & Hs). destruct ks as [|s ks].
  - destruct Hs as (k & Hk1 & Hk2 & Hkl). simpl. split; [split_and!; [exists 0; lia|done|done|by exists k]|].
    intros p q Hxp Hp. rewrite in_kept_cons. split.
    + intros [(d & ? & ? & ?)|(d & -> & ->)]; [lia|]. left. exists d. split_and!; [done|done|lia].
    + intros [(d & -> & -> & ?)|H]; [|by apply in_kept_nil in H]. right. by exists d.
  - pose proof (strands_bound _ _ _ _ _ Hs) as [? ?].
    rewrite !saturating_exact by lia. destruct (IH _ _ Hs) as [Ht Hg].
    assert (Hd : exists a' b' l' ks', s = (a', b', l') /\ gaps (a + l) (b + l) (s :: ks) = mkHunk (a + l) a' (b + l) b' :: ks').
    { destruct s as [[a' b'] l']. simpl. eexists _, _, _, _. done. }
    destruct Hd as (a' & b' & l' & ks' & -> & Heq). rewrite Heq in Ht, Hg |- *. cbn [tiles graph old_start new_start old_end new_end] in *.
    destruct Ht as (_ & Ht1 & Ht2 & Ht3). split.
    + split_and!; [exists 0; lia|done|done|by exists l|done|done|done].
    + intros p q Hxp Hp. rewrite in_kept_cons. split.
      * intros [(d & ? & ? & ?)|[(d & -> & -> & ?)|Hgr]]; [lia|left; exists d; split_and!; [done|done|lia]|].
        right. apply Hg; [|done|by right]. apply (graph_le _ _ _ _ _ _ _ Ht3) in Hgr. lia.
      * intros [(d & -> & -> & ?)|Hk]; [right; left; exists d; split_and!; [done|done|lia]|].
        right. pose proof (in_kept_above _ _ _ _ _ _ _ Hs Hk) as [? ?].
        apply Hg in Hk; [|done|done]. destruct Hk as [(d & ? & ? & ?)|]; [lia|by right].
Qed.

(** ** The overlaps of two lists of stretches *)

Section Overlaps.
Variables (L0 L1 L2 : N).
Hypothesis (H0 : L0 < OPEN) (H1 : L1 < OPEN) (H2 : L2 < OPEN).

(** The first stretch of a list: either it ends before the texts do, or it is
    the last one. *)
Lemma strands_head x y a b l ks Lo Ln :
  strands x y ((a, b, l) :: ks) Lo Ln -> open ((a, b, l) :: ks) ->
  x <= a /\ y <= b /\ a <= Lo /\ b <= Ln /\ 0 < l
  /\ (ks = [] /\ l = OPEN /\ (exists k, Lo = a + k /\ Ln = b + k)
      \/ ks <> [] /\ a + l <= Lo /\ b + l <= Ln /\ strands (a + l) (b + l) ks Lo Ln /\ open ks).
Proof.
  intros (Hx & Hy & Hl & Hs) Ho. destruct ks as [|s ks].
  - destruct Hs as (k & -> & -> & Hk). apply open_single in Ho. split_and!; try lia; try done. left. eauto.
  - pose proof (strands_bound _ _ _ _ _ Hs) as [? ?]. split_and!; [done|done|lia|lia|done|]. right.
    split_and!; [done|done|done|done|]. by eapply open_cons.
Qed.

(** What is known of the next overlap: it starts at [q] or after it in the text
    between, and then at [x] and [y] or after them. *)
Definition next_overlap (x q y : N) (first second : list stretch) : Prop :=
  match first, second with
  | (a, b, l) :: _, (b', c, l') :: _ =>
      x + b <= a + N.max q b /\ y + b' <= c + N.max q b' /\ q <= N.max b b' /\ q <= b + l /\ q <= b' + l'
  | _, _ => True
  end.

Lemma overlaps_nil_r fuel first : overlaps fuel first [] = [].
Proof. destruct fuel; [done|]. by destruct first as [|[[a b] l] first]. Qed.

Lemma overlaps_nil_l fuel second : overlaps fuel [] second = [].
Proof. by destruct fuel. Qed.

Lemma if_same_nil {A} (b : bool) : (if b then [] else []) = ([] : list A).
Proof. by destruct b. Qed.

(** What one round adds, less the wrap-around. *)
Definition overlap (a b l b' c l' : N) : list stretch :=
  if N.max b b' <? N.min (saturating_add b l) (saturating_add b' l')
  then [(a + (N.max b b' - b), c + (N.max b b' - b'), N.min (saturating_add b l) (saturating_add b' l') - N.max b b')]
  else [].

Lemma overlaps_step fuel a b l first b' c l' second x y x' y' :
  strands x y ((a, b, l) :: first) L0 L1 -> open ((a, b, l) :: first) ->
  strands x' y' ((b', c, l') :: second) L1 L2 -> open ((b', c, l') :: second) ->
  overlaps (S fuel) ((a, b, l) :: first) ((b', c, l') :: second)
  = overlap a b l b' c l'
    ++ (if saturating_add b l <=? saturating_add b' l' then overlaps fuel first ((b', c, l') :: second)
        else overlaps fuel ((a, b, l) :: first) second).
Proof.
  intros Hf Hfo Hs Hso. cbn [overlaps]. f_equal. unfold overlap.
  destruct (N.ltb_spec (N.max b b') (N.min (saturating_add b l) (saturating_add b' l'))) as [Hlt|]; [|done].
  destruct (strands_head _ _ _ _ _ _ _ _ Hf Hfo) as (_ & _ & ? & ? & _ & Hcf).
  destruct (strands_head _ _ _ _ _ _ _ _ Hs Hso) as (_ & _ & ? & ? & _ & Hcs).
  rewrite !saturating_min in Hlt. rewrite !u32_add_exact; [done| |].
  - destruct Hcs as [(_ & _ & k & ? & ?)|(_ & ? & ? & _)]; lia.
  - destruct Hcf as [(_ & _ & k & ? & ?)|(_ & ? & ? & _)]; lia.
Qed.

Lemma overlap_in a b l b' c l' p r :
  b < OPEN -> b' < OPEN ->
  in_kept (overlap a b l b' c l') p r
  <-> exists q, q < OPEN /\ (exists d, p = a + d /\ q = b + d /\ d < l) /\ (exists d, q = b' + d /\ r = c + d /\ d < l').
Proof.
  intros Hb Hb'. unfold overlap. rewrite !saturating_min. revert Hb Hb'. generalize OPEN as top. intros top Hb Hb'.
  destruct (N.ltb_spec (N.max b b') (N.min (N.min (b + l) top) (N.min (b' + l') top))).
  - rewrite in_kept_cons. split.
    + intros [(d & -> & -> & ?)|Hk]; [|by apply in_kept_nil in Hk]. exists (N.max b b' + d). split; [lia|].
      split; [exists (N.max b b' - b + d)|exists (N.max b b' - b' + d)]; lia.
    + intros (q & ? & (d & -> & -> & ?) & (d' & ? & -> & ?)). left. exists (b + d - N.max b b'). lia.
  - split; [intros Hk; by apply in_kept_nil in Hk|]. intros (q & ? & (d & -> & -> & ?) & (d' & ? & -> & ?)). lia.
Qed.
Lemma strands_piece x y a b l rest Lo Ln :
  x <= a -> y <= b -> 0 < l -> rest <> [] -> strands (a + l) (b + l) rest Lo Ln ->
  strands x y ((a, b, l) :: rest) Lo Ln.
Proof. intros. simpl. split_and!; [done|done|done|]. by destruct rest. Qed.

Lemma strands_nonempty x y ks Lo Ln : strands x y ks Lo Ln -> ks <> [].
Proof. by destruct ks. Qed.

(** The relation that two lists of stretches compose to. *)
Definition composed (first second : list stretch) (p r : N) : Prop :=
  exists q, q < OPEN /\ in_kept first p q /\ in_kept second q r.

Definition overlaps_good (fuel : nat) : Prop := forall first second x q y xf yf xs ys,
  (length first + length second <= fuel)%nat ->
  strands xf yf first L0 L1 -> open first -> strands xs ys second L1 L2 -> open second ->
  next_overlap x q y first second ->
  strands x y (overlaps fuel first second) L0 L2
  /\ forall p r, in_kept (overlaps fuel first second) p r <-> composed first second p r.

(** A piece in front of good overlaps. *)
Lemma overlap_before a b l b' c l' x q y rest x' y' :
  next_overlap x q y [(a, b, l)] [(b', c, l')] ->
  strands x' y' rest L0 L2 ->
  x' = (if N.max b b' <? N.min (saturating_add b l) (saturating_add b' l')
        then a + (N.min (saturating_add b l) (saturating_add b' l') - b) else x) ->
  y' = (if N.max b b' <? N.min (saturating_add b l) (saturating_add b' l')
        then c + (N.min (saturating_add b l) (saturating_add b' l') - b') else y) ->
  strands x y (overlap a b l b' c l' ++ rest) L0 L2.
Proof.
  intros (? & ? & ? & ? & ?) Hs -> ->. unfold overlap. destruct (N.ltb_spec (N.max b b') (N.min (saturating_add b l) (saturating_add b' l'))).
  - apply strands_piece; [lia|lia|lia|by eapply strands_nonempty|].
    replace (a + (N.max b b' - b) + _) with (a + (N.min (saturating_add b l) (saturating_add b' l') - b)) by lia.
    by replace (c + (N.max b b' - b') + _) with (c + (N.min (saturating_add b l) (saturating_add b' l') - b')) by lia.
  - done.
Qed.

(** The last stretches of both lists. *)
Lemma overlaps_last fuel a b b' c x q y xf yf xs ys :
  strands xf yf [(a, b, OPEN)] L0 L1 -> strands xs ys [(b', c, OPEN)] L1 L2 ->
  next_overlap x q y [(a, b, OPEN)] [(b', c, OPEN)] ->
  strands x y (overlaps (S fuel) [(a, b, OPEN)] [(b', c, OPEN)]) L0 L2
  /\ forall p r, in_kept (overlaps (S fuel) [(a, b, OPEN)] [(b', c, OPEN)]) p r
      <-> composed [(a, b, OPEN)] [(b', c, OPEN)] p r.
Proof.
  intros Hf Hs (? & ? & ? & ? & ?).
  assert (Hof : open [(a, b, OPEN)]) by (by exists [], a, b). assert (Hos : open [(b', c, OPEN)]) by (by exists [], b', c).
  rewrite (overlaps_step fuel a b OPEN [] b' c OPEN [] xf yf xs ys), overlaps_nil_l, overlaps_nil_r by done.
  rewrite (if_same_nil (saturating_add b OPEN <=? saturating_add b' OPEN)), app_nil_r.
  destruct Hf as (_ & _ & _ & k & ? & ? & ?), Hs as (_ & _ & _ & k' & ? & ? & ?).
  split.
  - unfold overlap. rewrite !saturating_open, N.min_id. rewrite (proj2 (N.ltb_lt _ _)) by lia.
    simpl. split_and!; [lia|lia|lia|]. exists (L1 - N.max b b'). lia.
  - intros p r. rewrite overlap_in by lia. unfold composed. setoid_rewrite in_kept_cons.
    split; intros (m & Hm & Hl & Hr); exists m; (split; [done|]).
    + split; by left.
    + destruct Hl as [|Hl%in_kept_nil], Hr as [|Hr%in_kept_nil]; done.
Qed.

Lemma overlaps_first fuel a b l first b' c l' second x q y xf yf xs ys :
  overlaps_good fuel -> (length first + S (length second) <= fuel)%nat ->
  strands xf yf ((a, b, l) :: first) L0 L1 -> open ((a, b, l) :: first) ->
  strands xs ys ((b', c, l') :: second) L1 L2 -> open ((b', c, l') :: second) ->
  next_overlap x q y ((a, b, l) :: first) ((b', c, l') :: second) ->
  first <> [] -> saturating_add b l <= saturating_add b' l' ->
  strands x y (overlap a b l b' c l' ++ overlaps fuel first ((b', c, l') :: second)) L0 L2
  /\ forall p r, in_kept (overlap a b l b' c l' ++ overlaps fuel first ((b', c, l') :: second)) p r
      <-> composed ((a, b, l) :: first) ((b', c, l') :: second) p r.
Proof.
  intros IH Hlen Hf Hfo Hs Hso Hnext Hne Hle.
  destruct (strands_head _ _ _ _ _ _ _ _ Hf Hfo) as (_ & _ & Ha & Hb & Hl & [(-> & _)|(_ & Hal & Hbl & Hf' & Hfo')]); [done|].
  destruct (strands_head _ _ _ _ _ _ _ _ Hs Hso) as (_ & _ & Hb' & Hc & Hl' & Hcs).
  rewrite (saturating_exact b l) in Hle by lia. rewrite saturating_min in Hle.
  set (piece := N.max b b' <? N.min (saturating_add b l) (saturating_add b' l')).
  assert (Hpiece : piece = (N.max b b' <? b + l)).
  { unfold piece. f_equal. rewrite (saturating_exact b l), saturating_min by lia. lia. }
  destruct (IH first ((b', c, l') :: second)
      (if piece then a + l else x) (if piece then b + l else q) (if piece then c + (b + l - b') else y) (a + l) (b + l) xs ys)
    as [HS HG]; [done|done|done|done|done| |].
  { destruct first as [|[[a2 b2] l2] first]; [done|]. destruct Hf' as (? & ? & ? & _). destruct Hnext as (? & ? & ? & ? & ?).
    unfold next_overlap. rewrite Hpiece. destruct (N.ltb_spec (N.max b b') (b + l)); lia. }
  split.
  - eapply overlap_before; [exact Hnext|exact HS| |]; fold piece; rewrite Hpiece, (saturating_exact b l), saturating_min by lia;
      destruct (N.ltb_spec (N.max b b') (b + l)); try done; f_equal; lia.
  - intros p r. rewrite in_kept_app, overlap_in, HG by lia. unfold composed. setoid_rewrite in_kept_cons. split.
    + intros [(m & ? & ? & ?)|(m & ? & ? & ?)]; exists m; auto.
    + intros (m & Hm & [(d & -> & -> & Hd)|Hin] & Hr); [|right; by exists m].
      destruct Hr as [Hr|Hr]; [left; exists (b + d); split; [done|]; split; [by exists d|done]|].
      exfalso. destruct Hcs as [(-> & _)|(_ & _ & _ & Hs' & _)]; [by apply in_kept_nil in Hr|].
      pose proof (in_kept_above _ _ _ _ _ _ _ Hs' Hr). lia.
Qed.

Lemma overlaps_second fuel a b l first b' c l' second x q y xf yf xs ys :
  overlaps_good fuel -> (S (length first) + length second <= fuel)%nat ->
  strands xf yf ((a, b, l) :: first) L0 L1 -> open ((a, b, l) :: first) ->
  strands xs ys ((b', c, l') :: second) L1 L2 -> open ((b', c, l') :: second) ->
  next_overlap x q y ((a, b, l) :: first) ((b', c, l') :: second) ->
  second <> [] -> saturating_add b' l' < saturating_add b l ->
  strands x y (overlap a b l b' c l' ++ overlaps fuel ((a, b, l) :: first) second) L0 L2
  /\ forall p r, in_kept (overlap a b l b' c l' ++ overlaps fuel ((a, b, l) :: first) second) p r
      <-> composed ((a, b, l) :: first) ((b', c, l') :: second) p r.
Proof.
  intros IH Hlen Hf Hfo Hs Hso Hnext Hne Hle.
  destruct (strands_head _ _ _ _ _ _ _ _ Hs Hso) as (_ & _ & Hb' & Hc & Hl' & [(-> & _)|(_ & Hal & Hbl & Hs' & Hso')]); [done|].
  destruct (strands_head _ _ _ _ _ _ _ _ Hf Hfo) as (_ & _ & Ha & Hb & Hl & Hcf).
  rewrite (saturating_exact b' l') in Hle by lia. rewrite saturating_min in Hle.
  set (piece := N.max b b' <? N.min (saturating_add b l) (saturating_add b' l')).
  assert (Hpiece : piece = (N.max b b' <? b' + l')).
  { unfold piece. f_equal. rewrite (saturating_exact b' l'), saturating_min by lia. lia. }
  destruct (IH ((a, b, l) :: first) second
      (if piece then a + (b' + l' - b) else x) (if piece then b' + l' else q) (if piece then c + l' else y) xf yf (b' + l') (c + l'))
    as [HS HG]; [done|done|done|done|done| |].
  { destruct second as [|[[b2 c2] l2] second]; [done|]. destruct Hs' as (? & ? & ? & _). destruct Hnext as (? & ? & ? & ? & ?).
    unfold next_overlap. rewrite Hpiece. destruct (N.ltb_spec (N.max b b') (b' + l')); lia. }
  split.
  - eapply overlap_before; [exact Hnext|exact HS| |]; fold piece; rewrite Hpiece, (saturating_exact b' l'), saturating_min by lia;
      destruct (N.ltb_spec (N.max b b') (b' + l')); try done; f_equal; lia.
  - intros p r. rewrite in_kept_app, overlap_in, HG by lia. unfold composed. setoid_rewrite (in_kept_cons b' c l' second). split.
    + intros [(m & ? & ? & ?)|(m & ? & ? & ?)]; exists m; (split; [done|]).
      * split; [apply in_kept_cons|]; by left.
      * split; [done|by right].
    + intros (m & Hm & Hin & [(d & -> & -> & Hd)|Hr]); [|right; by exists m].
      apply in_kept_cons in Hin as [Hin|Hin]; [left; exists (b' + d); split; [done|]; split; [done|by exists d]|].
      exfalso. destruct Hcf as [(-> & _)|(_ & _ & _ & Hf' & _)]; [by apply in_kept_nil in Hin|].
      pose proof (in_kept_above _ _ _ _ _ _ _ Hf' Hin). lia.
Qed.

Lemma overlaps_spec fuel : overlaps_good fuel.
Proof.
  induction fuel as [|fuel IH]; intros first second x q y xf yf xs ys Hlen Hf Hfo Hs Hso Hnext.
  { destruct first; [done|]. simpl in Hlen. lia. }
  destruct first as [|[[a b] l] first]; [done|]. destruct second as [|[[b' c] l'] second]; [done|].
  destruct (strands_head _ _ _ _ _ _ _ _ Hf Hfo) as (_ & _ & Ha & Hb & Hl & Hcf).
  destruct (strands_head _ _ _ _ _ _ _ _ Hs Hso) as (_ & _ & Hb' & Hc & Hl' & Hcs).
  destruct Hcf as [(-> & -> & _)|(Hnef & _ & Hbl & _)], Hcs as [(-> & -> & _)|(Hnes & Hbl' & _)];
    [by eapply overlaps_last|..];
    rewrite (overlaps_step fuel _ _ _ _ _ _ _ _ xf yf xs ys) by done; simpl in Hlen.
  - rewrite (proj2 (N.leb_gt _ _)); [eapply overlaps_second; try done; [simpl; lia|]|];
      rewrite saturating_open, saturating_exact by lia; lia.
  - rewrite (proj2 (N.leb_le _ _)); [eapply overlaps_first; try done; [simpl; lia|]|];
      rewrite saturating_open, saturating_exact by lia; lia.
  - destruct (N.leb_spec (saturating_add b l) (saturating_add b' l')).
    + eapply overlaps_first; try done. lia.
    + eapply overlaps_second; try done. lia.
Qed.
End Overlaps.

(** ** Composition *)

Lemma kept_graph m Lo Ln p q : maps m Lo Ln -> p <= Lo -> graph 0 0 m p q <-> in_kept (kept m) p q.
Proof. intros [Ht Ho Hn] Hp. rewrite kept_stretches. by eapply stretches_graph. Qed.

Lemma kept_strands m Lo Ln : maps m Lo Ln -> strands 0 0 (kept m) Lo Ln /\ open (kept m).
Proof.
  intros [Ht Ho Hn]. rewrite kept_stretches. split; [by apply stretches_strands|apply stretches_open].
Qed.

Lemma then_spec first second L0 L1 L2 :
  maps first L0 L1 -> maps second L1 L2 ->
  maps (then_ first second) L0 L2
  /\ forall p r, p <= L0 -> graph 0 0 (then_ first second) p r <-> exists q, graph 0 0 first p q /\ graph 0 0 second q r.
Proof.
  intros Hf Hs. unfold then_.
  destruct (is_identity first) eqn:Hif.
  { destruct first; [|done]. assert (L0 = L1) as -> by (destruct (mp_tiles _ _ _ Hf) as (k & -> & ->); done).
    split; [done|]. intros p r _. split; [intros Hg; exists p; split; [exists p; lia|done]|].
    intros (q & (d & -> & ->) & Hg). done. }
  destruct (is_identity second) eqn:His.
  { destruct second; [|done]. assert (L1 = L2) as <- by (destruct (mp_tiles _ _ _ Hs) as (k & -> & ->); done).
    split; [done|]. intros p r _. split; [intros Hg; exists r; split; [done|exists r; lia]|].
    intros (q & Hg & (d & -> & ->)). done. }
  destruct (kept_strands _ _ _ Hf) as [Hfs Hfo], (kept_strands _ _ _ Hs) as [Hss Hso].
  destruct (overlaps_spec L0 L1 L2 (mp_old _ _ _ Hf) (mp_old _ _ _ Hs) (mp_new _ _ _ Hs)
    (length (kept first) + length (kept second)) (kept first) (kept second) 0 0 0 0 0 0 0) as [HS HG]; try done.
  { unfold next_overlap. destruct (kept first) as [|[[a b] l] ?]; [done|]. destruct (kept second) as [|[[b' c] l'] ?]; [done|].
    lia. }
  set (ks := overlaps _ _ _) in *. rewrite from_kept_gaps.
  destruct (gaps_spec 0 0 ks L0 L2 HS (mp_old _ _ _ Hf) (mp_new _ _ _ Hs)) as [Ht Hg].
  destruct (from_hunks_spec _ _ _ Ht) as [Hnt _ Hng _ _].
  split; [split; [done|apply (mp_old _ _ _ Hf)|apply (mp_new _ _ _ Hs)]|].
  intros p r Hp. rewrite Hng, Hg, HG by lia. unfold composed. split.
  - intros (q & Hq & Hin & Hin'). apply (kept_graph first L0 L1) in Hin; [|done|done]. exists q. split; [done|].
    apply (kept_graph second L1 L2); [done| |done].
    by apply (graph_bound _ _ _ _ _ p q (mp_tiles _ _ _ Hf) Hin).
  - intros (q & Hin & Hin'). destruct (graph_bound _ _ _ _ _ p q (mp_tiles _ _ _ Hf) Hin Hp) as [Hq _]. exists q.
    split; [pose proof (mp_new _ _ _ Hf); lia|]. split; [by apply (kept_graph first L0 L1)|by apply (kept_graph second L1 L2)].
Qed.
