(* ===== verification/EditMapSpec.v ===== *)
(** * What the map of an edit promises *)

From S2P Require Import Prelude Text EditMap EditDiffProofs EditLineProofs EditMatchProofs EditMapProofs EditThenProofs.
From stdpp Require Import list gmap sorting.
Import PositionMap.
Local Open Scope N_scope.

(** C32: for every two texts of less than 4 GiB the search for the hunks
    returns; putting what the new text has for them into the old text gives
    the new text; the hunks tile both texts, no hunk splits a character, no two of them touch, and an
    offset that the map keeps has the same byte at its image. *)
Theorem new_patches (old new : rstring) :
  N.of_nat (length (as_bytes old)) < OPEN -> N.of_nat (length (as_bytes new)) < OPEN ->
  exists m, PositionMap.new (as_bytes old) (as_bytes new) = Done m
    /\ patch (as_bytes old) (as_bytes new) 0 m = as_bytes new
    /\ maps m (N.of_nat (length (as_bytes old))) (N.of_nat (length (as_bytes new)))
    /\ apart m
    /\ (forall h, h ∈ m ->
         is_char_boundary (as_bytes old) (N.to_nat (old_start h)) = true
         /\ is_char_boundary (as_bytes old) (N.to_nat (old_end h)) = true
         /\ is_char_boundary (as_bytes new) (N.to_nat (new_start h)) = true
         /\ is_char_boundary (as_bytes new) (N.to_nat (new_end h)) = true)
    /\ forall p q, p < N.of_nat (length (as_bytes old)) -> PositionMap.map m p = Some q ->
         as_bytes old !! N.to_nat p = as_bytes new !! N.to_nat q.
Proof.
  intros Ho Hn. destruct (new_maps old new Ho Hn) as (hs & m & _ & Hm & Hturns & [Ht Ha Hg Hs He]).
  assert (Hsame : forall p q, graph 0 0 m p q -> p < N.of_nat (length (as_bytes old)) ->
            as_bytes old !! N.to_nat p = as_bytes new !! N.to_nat q).
  { intros p q Hpq%Hg. by apply (turns_same _ _ 0 0 hs _ _ p q Hturns). }
  exists m. split; [done|]. split; [by apply (patch_spec _ _ 0 0)|]. split; [by split|]. split; [done|]. split.
  - intros h Hh. destruct (Hs h Hh) as (x & Hx & -> & ->), (He h Hh) as (y & Hy & -> & ->).
    destruct (turns_bounds _ _ _ _ _ _ _ x Hturns Hx) as [(_ & _ & ? & ?) _].
    destruct (turns_bounds _ _ _ _ _ _ _ y Hturns Hy) as [_ (_ & _ & ? & ?)]. done.
  - intros p q Hp Hpq. apply Hsame; [|done]. eapply map_graph; [by split|lia|done].
Qed.

Lemma new_patches_witness : exists m,
  PositionMap.new (as_bytes (str "a = 1")) (as_bytes (str "ab = 1")) = Done m
  /\ patch (as_bytes (str "a = 1")) (as_bytes (str "ab = 1")) 0 m = as_bytes (str "ab = 1").
Proof.
  destruct (new_patches (str "a = 1") (str "ab = 1")) as (m & Hm & Hp & _); [by vm_compute|by vm_compute|].
  exists m. by split.
Defined.

(** C33: an edit after another: the composed map takes an offset to where the
    second map takes its image under the first, and loses exactly the others. *)
Theorem then_composes (first second : t) (L0 L1 L2 : N) :
  maps first L0 L1 -> maps second L1 L2 ->
  maps (then_ first second) L0 L2
  /\ forall p, p <= L0 -> PositionMap.map (then_ first second) p = (PositionMap.map first p ≫= PositionMap.map second).
Proof.
  intros Hf Hs. destruct (then_spec first second L0 L1 L2 Hf Hs) as [Hm Hg]. split; [done|]. intros p Hp.
  apply option_eq. intros r. rewrite (map_graph _ _ _ _ _ Hm Hp), Hg, bind_Some by done.
  split; intros (q & Hq & Hr); exists q.
  - destruct (graph_bound _ _ _ _ _ p q (mp_tiles _ _ _ Hf) Hq Hp) as [HqL _].
    split; [by apply (map_graph first L0 L1)|by apply (map_graph second L1 L2)].
  - apply (map_graph first L0 L1) in Hq; [|done|done].
    destruct (graph_bound _ _ _ _ _ p q (mp_tiles _ _ _ Hf) Hq Hp) as [HqL _].
    split; [done|by apply (map_graph second L1 L2) in Hr].
Qed.

Lemma then_composes_witness :
  PositionMap.map (then_ [mkHunk 0 1 0 3; mkHunk 4 4 6 7] [mkHunk 6 7 6 6]) 5
  = (PositionMap.map [mkHunk 0 1 0 3; mkHunk 4 4 6 7] 5 ≫= PositionMap.map [mkHunk 6 7 6 6]).
Proof.
  apply (then_composes [mkHunk 0 1 0 3; mkHunk 4 4 6 7] [mkHunk 6 7 6 6] 9 12 11); [| |done];
    (split; [|done|done]); simpl.
  - split_and!; [by exists 0|done|done|by exists 3|done|done|by exists 5].
  - split_and!; [by exists 6|done|done|by exists 5].
Defined.

(** C34: the inverse map takes exactly the images back to their offsets. *)
Theorem inverse_inverts (m : t) (Lo Ln : N) :
  maps m Lo Ln ->
  maps (inverse m) Ln Lo
  /\ forall p q, p <= Lo -> q <= Ln -> PositionMap.map m p = Some q <-> PositionMap.map (inverse m) q = Some p.
Proof.
  intros Hm. assert (Hi : maps (inverse m) Ln Lo) by (destruct Hm; split; [by apply tiles_inverse|done|done]).
  split; [done|]. intros p q Hp Hq. rewrite (map_graph m Lo Ln), (map_graph (inverse m) Ln Lo) by done.
  eapply graph_inverse, Hm.
Qed.

Lemma inverse_inverts_witness : PositionMap.map (inverse [mkHunk 0 1 0 3; mkHunk 4 4 6 7]) 8 = Some 5.
Proof.
  apply (inverse_inverts [mkHunk 0 1 0 3; mkHunk 4 4 6 7] 9 12); [|done|done|by vm_compute].
  split; [|done|done]. simpl. split_and!; [by exists 0|done|done|by exists 3|done|done|by exists 5].
Defined.

(** A range that is moved holds the images of what it held. *)
Theorem map_range_holds (m : t) (Lo Ln : N) (r r' : TextRange) (p q : N) :
  maps m Lo Ln -> text_end r <= Lo ->
  map_range m r = Some r' -> PositionMap.map m p = Some q ->
  text_start r <= p -> p < text_end r -> text_start r' <= q /\ q < text_end r'.
Proof.
  intros [Ht Ho Hn] He Hr Hp Hs Hlt. unfold OPEN, u32_max in *. unfold map_range in Hr.
  destruct (N.eqb_spec (text_start r) (text_end r)); [lia|].
  apply bind_Some in Hr as (s' & Hs' & Hr). apply bind_Some in Hr as (e' & He' & Hr).
  destruct (N.leb_spec s' e'); [|done]. injection Hr as <-. simpl.
  apply (map_graph m Lo Ln) in Hp; [|by split|lia].
  rewrite start_image_last in Hs'. rewrite end_image_last in He'. split.
  - eapply (start_before None 0 0 m Lo Ln); [|exact Ht|lia| |exact Hs'|exact Hp|lia|done]; [|lia].
    intros s1 [= <-] x _ Hx _. lia.
  - eapply (end_after None 0 0 m Lo Ln); [|exact Ht|lia|lia|done|exact He'|exact Hp|done].
    intros x _ _. simpl. f_equal. lia.
Qed.

Lemma map_range_holds_witness :
  let m := [mkHunk 0 1 0 3; mkHunk 4 4 6 7] in
  map_range m (mkTextRange 1 6) = Some (mkTextRange 3 9) /\ 3 <= 8 < 9.
Proof.
  intros m. split; [done|].
  apply (map_range_holds m 9 12 (mkTextRange 1 6) (mkTextRange 3 9) 5 8); [|done..].
  split; [|done|done]. simpl. split_and!; [by exists 0|done|done|by exists 3|done|done|by exists 5].
Defined.
