(* ===== verification/EditRemap.v ===== *)
(** * Identities after an edit

    [FileRemap] of
    [src/crates/glua_code_analysis/src/db_index/edit/position_map.rs]: what
    other files recorded about the edited one is rewritten by the map of the
    edit, and confirmed against what the file holds after it was indexed again.

    What the file holds ([FileFacts]) is collected from the whole database: it
    is an argument here.  A hash set is the list of its elements. *)

From S2P Require Import Prelude Kinds Text FileOrder Dependency EditMap.
From stdpp Require Import list gmap.

(** ** Identities *)

Record LuaSyntaxId : Type := mkSyntaxId { id_kind : LuaKind; id_range : TextRange }.
Record InFiled (A : Type) : Type := mkInFiled { in_file_id : FileId; in_value : A }.
Arguments mkInFiled {A} _ _.
Arguments in_file_id {A} _.
Arguments in_value {A} _.
Record LuaDeclId : Type := mkDeclId { decl_file_id : FileId; decl_position : N }.
Record LuaSignatureId : Type := mkSignatureId { signature_file_id : FileId; signature_position : N }.
Record LuaMemberId : Type := mkMemberId { member_file_id : FileId; member_syntax_id : LuaSyntaxId; member_slot : N }.

(** A type declaration is known by its name. *)
Definition LuaTypeDeclId : Type := rstring.

Inductive LuaDeclTypeKind : Type := Class_ | Enum | Alias | Attribute_.

Inductive LuaTypeOwner : Type :=
  | OwnerDecl (id : LuaDeclId)
  | OwnerMember (id : LuaMemberId)
  | OwnerSyntaxId (id : InFiled LuaSyntaxId).

Inductive LuaDefinitionId : Type :=
  | Declaration (decl_id : LuaDeclId)
  | Assignment (file_id : FileId) (assignment : LuaSyntaxId) (target_idx : N).

Inductive LuaInferenceNodeId : Type :=
  | NodeTypeOwner (owner : LuaTypeOwner)
  | NodeDefinition (definition : LuaDefinitionId)
  | SignatureParam (signature_id : LuaSignatureId) (param_idx : N).

Inductive LuaSemanticDeclId : Type :=
  | SemanticTypeDecl (id : LuaTypeDeclId)
  | SemanticMember (id : LuaMemberId)
  | SemanticLuaDecl (id : LuaDeclId)
  | SemanticSignature (id : LuaSignatureId).

Inductive LuaOperatorOwner : Type :=
  | OperatorTable (range : InFiled TextRange)
  | OperatorType (id : LuaTypeDeclId).

(** [GmodStateMask] is a bit set. *)
Inductive LuaInferredGuardOwner : Type :=
  | GlobalPath (signature_id : LuaSignatureId) (state_mask : N) (path : list rstring).

#[global] Instance lua_kind_eq_dec : EqDecision LuaKind.
Proof. solve_decision. Defined.
#[global] Instance syntax_id_eq_dec : EqDecision LuaSyntaxId.
Proof. solve_decision. Defined.
#[global] Instance member_id_eq_dec : EqDecision LuaMemberId.
Proof. solve_decision. Defined.
#[global] Instance decl_type_kind_eq_dec : EqDecision LuaDeclTypeKind.
Proof. solve_decision. Defined.

(** ** The answers *)

Inductive Remap (A : Type) : Type :=
  | Unrelated
  | Moved (a : A)
  | Lost.
Arguments Unrelated {A}.
Arguments Moved {A} _.
Arguments Lost {A}.

Definition is_lost {A} (r : Remap A) : bool := match r with Lost => true | _ => false end.
Definition moved {A} (r : Remap A) : option A := match r with Moved a => Some a | _ => None end.

Definition map_into {A B} (r : Remap A) (build : A -> B) : Remap B :=
  match r with Moved a => Moved (build a) | Unrelated => Unrelated | Lost => Lost end.

(** The same node kind at a different range: the kind goes through whichever
    accessor [is_token] selects. *)
Definition with_range (id : LuaSyntaxId) (range : TextRange) : LuaSyntaxId :=
  let kind := if is_token (id_kind id) then Token (to_token (id_kind id)) else Syntax (to_syntax (id_kind id)) in
  mkSyntaxId kind range.

(** ** What the edited file holds *)

Record FileFacts : Type := mkFacts {
  signature_positions : list N;
  decl_positions : list N;
  member_ids : list LuaMemberId;
  syntax_ids : list LuaSyntaxId;
  owner_ranges : list TextRange;
  type_decl_spans : list (LuaTypeDeclId * TextRange * LuaDeclTypeKind)
}.

(** The only declaration of a class whose span covers the range. *)
Fixpoint unique_covering (range : TextRange) (covering : option TextRange)
    (spans : list (LuaTypeDeclId * TextRange * LuaDeclTypeKind)) : option TextRange :=
  match spans with
  | [] => covering
  | (_, span, kind) :: spans =>
      if negb (bool_decide (kind = Class_)) then unique_covering range covering spans
      else if ((text_start span <=? text_start range) && (text_end range <=? text_end span))%N
      then match covering with
           | Some _ => None
           | None => unique_covering range (Some span) spans
           end
      else unique_covering range covering spans
  end.

Definition unique_covering_decl (facts : FileFacts) (range : TextRange) : option TextRange :=
  unique_covering range None (type_decl_spans facts).

Record FileRemap : Type := mkRemap { file_id : FileId; remap_map : PositionMap.t; facts : option FileFacts }.

Module FileRemap.
Implicit Types self : FileRemap.

Definition identity (file : FileId) : FileRemap := mkRemap file PositionMap.identity None.
Definition unvalidated (file : FileId) (map : PositionMap.t) : FileRemap := mkRemap file map None.

(** [collected] is [FileFacts::collect(db, file_id)]. *)
Definition validated (collected : FileFacts) (file : FileId) (map : PositionMap.t) : FileRemap :=
  mkRemap file map (if PositionMap.is_identity map then None else Some collected).

Definition owns self (file : FileId) : bool := bool_decide (file = file_id self).

Definition pos self (file : FileId) (position : N) : Remap N :=
  if negb (owns self file) then Unrelated else
  match PositionMap.map (remap_map self) position with Some mapped => Moved mapped | None => Lost end.

Definition range self (file : FileId) (r : TextRange) : Remap TextRange :=
  if negb (owns self file) then Unrelated else
  match PositionMap.map_range (remap_map self) r with Some mapped => Moved mapped | None => Lost end.

Definition pos_is_before_the_hunk self (position : N) : bool :=
  (position <? PositionMap.first_change (remap_map self))%N.

Definition range_is_before_the_hunk self (r : TextRange) : bool :=
  (text_end r <? PositionMap.first_change (remap_map self))%N.

Definition resolve {A} self (mapped : Remap A) (before_the_hunk original_occupied : bool)
    (exists_ : FileFacts -> A -> bool) : Remap A :=
  match facts self with
  | None => mapped
  | Some facts =>
      match mapped with
      | Unrelated => mapped
      | _ =>
          if before_the_hunk then mapped else
          match mapped with
          | Moved value =>
              if exists_ facts value then mapped else if original_occupied then Unrelated else Lost
          | Lost => if original_occupied then Unrelated else Lost
          | Unrelated => Unrelated
          end
      end
  end.

(** [self.facts.as_ref().is_some_and(..)] *)
Definition occupied self (p : FileFacts -> bool) : bool := from_option p false (facts self).

Definition signature_id self (id : LuaSignatureId) : Remap LuaSignatureId :=
  let mapped := map_into (pos self (signature_file_id id) (signature_position id)) (mkSignatureId (signature_file_id id)) in
  resolve self mapped (pos_is_before_the_hunk self (signature_position id))
    (occupied self (fun facts => bool_decide (signature_position id ∈ signature_positions facts)))
    (fun facts id => bool_decide (signature_position id ∈ signature_positions facts)).

Definition decl_id self (id : LuaDeclId) : Remap LuaDeclId :=
  let mapped := map_into (pos self (decl_file_id id) (decl_position id)) (mkDeclId (decl_file_id id)) in
  resolve self mapped (pos_is_before_the_hunk self (decl_position id))
    (occupied self (fun facts => bool_decide (decl_position id ∈ decl_positions facts)))
    (fun facts id => bool_decide (decl_position id ∈ decl_positions facts)).

(** A class that derivations made up spans its whole file: it goes to the only
    declaration that covers it. *)
Definition covering_home self (id : LuaSyntaxId) (mapped : Remap LuaSyntaxId) (file : FileId) : option TextRange :=
  if negb (is_token (id_kind id)) && bool_decide (to_syntax (id_kind id) = DocTagClass) && owns self file then
    match mapped with
    | Moved value =>
        if occupied self (fun facts => bool_decide (value ∈ syntax_ids facts)) then None
        else facts ← facts self; unique_covering_decl facts (id_range value)
    | _ => None
    end
  else None.

Definition syntax_id self (file : FileId) (id : LuaSyntaxId) : Remap LuaSyntaxId :=
  let mapped := map_into (range self file (id_range id)) (with_range id) in
  match covering_home self id mapped file with
  | Some cover => Moved (with_range id cover)
  | None =>
      resolve self mapped (range_is_before_the_hunk self (id_range id))
        (occupied self (fun facts => bool_decide (id ∈ syntax_ids facts)))
        (fun facts value => bool_decide (value ∈ syntax_ids facts))
  end.

Definition member_id self (id : LuaMemberId) : Remap LuaMemberId :=
  let mapped := map_into (range self (member_file_id id) (id_range (member_syntax_id id)))
    (fun range => mkMemberId (member_file_id id) (with_range (member_syntax_id id) range) (member_slot id)) in
  resolve self mapped (range_is_before_the_hunk self (id_range (member_syntax_id id)))
    (occupied self (fun facts => bool_decide (id ∈ member_ids facts)))
    (fun facts id => bool_decide (id ∈ member_ids facts)).

Definition table_range self (r : InFiled TextRange) : Remap (InFiled TextRange) :=
  let mapped := map_into (range self (in_file_id r) (in_value r)) (mkInFiled (in_file_id r)) in
  resolve self mapped (range_is_before_the_hunk self (in_value r))
    (occupied self (fun facts => bool_decide (in_value r ∈ owner_ranges facts)))
    (fun facts r => bool_decide (in_value r ∈ owner_ranges facts)).

Definition type_owner self (owner : LuaTypeOwner) : Remap LuaTypeOwner :=
  match owner with
  | OwnerDecl id => map_into (decl_id self id) OwnerDecl
  | OwnerMember id => map_into (member_id self id) OwnerMember
  | OwnerSyntaxId id =>
      map_into (syntax_id self (in_file_id id) (in_value id)) (fun value => OwnerSyntaxId (mkInFiled (in_file_id id) value))
  end.

Definition definition_id self (id : LuaDefinitionId) : Remap LuaDefinitionId :=
  match id with
  | Declaration decl => map_into (decl_id self decl) Declaration
  | Assignment file assignment target_idx =>
      map_into (syntax_id self file assignment) (fun assignment => Assignment file assignment target_idx)
  end.

Definition inference_node self (node : LuaInferenceNodeId) : Remap LuaInferenceNodeId :=
  match node with
  | NodeTypeOwner owner => map_into (type_owner self owner) NodeTypeOwner
  | NodeDefinition definition => map_into (definition_id self definition) NodeDefinition
  | SignatureParam signature param_idx =>
      map_into (signature_id self signature) (fun signature => SignatureParam signature param_idx)
  end.

Definition semantic_decl_id self (id : LuaSemanticDeclId) : Remap LuaSemanticDeclId :=
  match id with
  | SemanticTypeDecl _ => Unrelated
  | SemanticMember member => map_into (member_id self member) SemanticMember
  | SemanticLuaDecl decl => map_into (decl_id self decl) SemanticLuaDecl
  | SemanticSignature signature => map_into (signature_id self signature) SemanticSignature
  end.

Definition operator_owner self (owner : LuaOperatorOwner) : Remap LuaOperatorOwner :=
  match owner with
  | OperatorTable range => map_into (table_range self range) OperatorTable
  | OperatorType _ => Unrelated
  end.

Definition inferred_guard_owner self (owner : LuaInferredGuardOwner) : Remap LuaInferredGuardOwner :=
  match owner with
  | GlobalPath signature state_mask path =>
      map_into (signature_id self signature) (fun signature => GlobalPath signature state_mask path)
  end.
End FileRemap.

(** ** What a confirmed answer says *)

Section Confirmed.
Context (self : FileRemap) (fs : FileFacts).
Hypothesis Hfacts : facts self = Some fs.

(** The file holds the owner after it was indexed again. *)
Definition held (owner : LuaTypeOwner) : Prop :=
  match owner with
  | OwnerDecl id => decl_position id ∈ decl_positions fs
  | OwnerMember id => id ∈ member_ids fs
  | OwnerSyntaxId id => in_value id ∈ syntax_ids fs
  end.

Definition owner_file (owner : LuaTypeOwner) : FileId :=
  match owner with
  | OwnerDecl id => decl_file_id id
  | OwnerMember id => member_file_id id
  | OwnerSyntaxId id => in_file_id id
  end.

(** The owner lies before everything that the edit changed. *)
Definition before_the_change (owner : LuaTypeOwner) : Prop :=
  (match owner with
   | OwnerDecl id => decl_position id
   | OwnerMember id => text_end (id_range (member_syntax_id id))
   | OwnerSyntaxId id => text_end (id_range (in_value id))
   end < PositionMap.first_change (remap_map self))%N.

(** The class that derivations made up for the file, at the range of its only
    declaration. *)
Definition covering_class (owner : LuaTypeOwner) : Prop :=
  exists id name, owner = OwnerSyntaxId id /\ to_syntax (id_kind (in_value id)) = DocTagClass
    /\ (name, id_range (in_value id), Class_) ∈ type_decl_spans fs.

Lemma resolve_moved {A} (mapped : Remap A) before occupied exists_ v :
  FileRemap.resolve self mapped before occupied exists_ = Moved v ->
  mapped = Moved v /\ (before = true \/ exists_ fs v = true).
Proof.
  unfold FileRemap.resolve. rewrite Hfacts. destruct mapped as [|a|], before, occupied; simpl; try done;
    try (intros [= ->]; by auto); destruct (exists_ fs a) eqn:He; try done; intros [= ->]; by auto.
Qed.

Lemma resolve_unrelated {A} (mapped : Remap A) before occupied exists_ :
  FileRemap.resolve self mapped before occupied exists_ = Unrelated -> mapped = Unrelated \/ occupied = true.
Proof.
  unfold FileRemap.resolve. rewrite Hfacts. destruct mapped as [|a|], before, occupied; simpl; try (by auto);
    destruct (exists_ fs a); by auto.
Qed.

Lemma before_unmoved (m : PositionMap.t) p : (p < PositionMap.first_change m)%N -> PositionMap.map m p = Some p.
Proof.
  destruct m as [|h m]; [done|]. simpl. intros Hp. unfold PositionMap.map. simpl.
  destruct (N.leb_spec (old_start h) p); [lia|done].
Qed.

Lemma before_range_unmoved (m : PositionMap.t) r :
  (text_start r <= text_end r)%N -> (text_end r < PositionMap.first_change m)%N -> PositionMap.map_range m r = Some r.
Proof.
  destruct r as [s e], m as [|h m]; simpl; intros Hle Hp; unfold PositionMap.map_range, PositionMap.start_image, PositionMap.end_image; simpl.
  - destruct (N.eqb_spec s e) as [->|]; [done|]. destruct (N.leb_spec s e); [done|lia].
  - destruct (N.ltb_spec (old_start h) e); [lia|]. destruct (N.leb_spec (old_start h) s); [lia|]. simpl.
    destruct (N.eqb_spec s e) as [->|]; [done|]. destruct (N.leb_spec s e); [done|lia].
Qed.

Lemma unique_covering_in r covering spans c :
  unique_covering r covering spans = Some c -> covering = Some c \/ exists name, (name, c, Class_) ∈ spans.
Proof.
  revert covering. induction spans as [|[[name span] kind] spans IH]; intros covering H; simpl in H; [by left|].
  case_bool_decide as Hk; simpl in H; [|destruct (IH _ H) as [?|[n ?]]; [by left|right; exists n; by right]].
  destruct (_ && _)%bool; [destruct covering; [done|]|].
  - subst kind. right. destruct (IH _ H) as [[= ->]|[n ?]]; [exists name; by left|exists n; by right].
  - destruct (IH _ H) as [?|[n ?]]; [by left|right; exists n; by right].
Qed.

Lemma with_range_same (id : LuaSyntaxId) : with_range id (id_range id) = id.
Proof. by destruct id as [[] r]. Qed.

Lemma decl_id_confirmed id id' :
  FileRemap.decl_id self id = Moved id' ->
  decl_file_id id' = decl_file_id id
  /\ (decl_position id' ∈ decl_positions fs
      \/ (id' = id /\ (decl_position id < PositionMap.first_change (remap_map self))%N)).
Proof.
  intros [Hm Hc]%resolve_moved. unfold FileRemap.pos in Hm. destruct (FileRemap.owns self _); [|done]. simpl in Hm.
  destruct (PositionMap.map (remap_map self) (decl_position id)) as [p|] eqn:Hp; [|done]. injection Hm as <-.
  split; [done|]. destruct Hc as [Hb|Hx%bool_decide_eq_true]; [|by left]. right. apply N.ltb_lt in Hb.
  rewrite before_unmoved in Hp by done. injection Hp as <-. split; [by destruct id|done].
Qed.

Lemma range_confirmed file r r' :
  FileRemap.range self file r = Moved r' ->
  (text_start r <= text_end r)%N -> FileRemap.range_is_before_the_hunk self r = true -> r' = r.
Proof.
  intros Hm Hle Hb%N.ltb_lt. unfold FileRemap.range in Hm. destruct (FileRemap.owns self file); [|done]. simpl in Hm.
  rewrite before_range_unmoved in Hm by done. by injection Hm.
Qed.

Lemma member_id_confirmed id id' :
  (text_start (id_range (member_syntax_id id)) <= text_end (id_range (member_syntax_id id)))%N ->
  FileRemap.member_id self id = Moved id' ->
  member_file_id id' = member_file_id id
  /\ (id' ∈ member_ids fs
      \/ (id' = id /\ (text_end (id_range (member_syntax_id id)) < PositionMap.first_change (remap_map self))%N)).
Proof.
  intros Hle [Hm Hc]%resolve_moved. destruct (FileRemap.range _ _ _) as [|r|] eqn:Hr; try done. injection Hm as <-.
  split; [done|]. destruct Hc as [Hb|Hx%bool_decide_eq_true]; [|by left]. right.
  rewrite (range_confirmed _ _ _ Hr Hle Hb), with_range_same. split; [by destruct id|by apply N.ltb_lt].
Qed.

Lemma syntax_id_confirmed file id id' :
  (text_start (id_range id) <= text_end (id_range id))%N ->
  FileRemap.syntax_id self file id = Moved id' ->
  id' ∈ syntax_ids fs
  \/ (id' = id /\ (text_end (id_range id) < PositionMap.first_change (remap_map self))%N)
  \/ (to_syntax (id_kind id') = DocTagClass /\ exists name, (name, id_range id', Class_) ∈ type_decl_spans fs).
Proof.
  intros Hle. unfold FileRemap.syntax_id. destruct (FileRemap.covering_home _ _ _ _) as [c|] eqn:Hcov.
  - intros [= <-]. right; right. unfold FileRemap.covering_home in Hcov.
    destruct (_ && _)%bool eqn:Hk in Hcov; [|done]. apply andb_true_iff in Hk as [[Ht Hk%bool_decide_eq_true]%andb_true_iff _].
    destruct (map_into _ _); try done. destruct (FileRemap.occupied _ _); [done|].
    rewrite Hfacts in Hcov. simpl in Hcov. destruct (unique_covering_in _ _ _ _ Hcov) as [?|Hn]; [done|].
    split; [|done]. simpl. by destruct (id_kind id).
  - intros [Hm Hc]%resolve_moved. destruct (FileRemap.range _ _ _) as [|r|] eqn:Hr; try done. injection Hm as <-.
    destruct Hc as [Hb|Hx%bool_decide_eq_true]; [|by left]. right; left.
    rewrite (range_confirmed _ _ _ Hr Hle Hb), with_range_same. split; [done|by apply N.ltb_lt].
Qed.
End Confirmed.

(** The range an owner is keyed by is one of the old text. *)
Definition owner_ordered (owner : LuaTypeOwner) : Prop :=
  match owner with
  | OwnerDecl _ => True
  | OwnerMember id => (text_start (id_range (member_syntax_id id)) <= text_end (id_range (member_syntax_id id)))%N
  | OwnerSyntaxId id => (text_start (id_range (in_value id)) <= text_end (id_range (in_value id)))%N
  end.

(** C35: a remap that is confirmed against the new index never sends the key of
    a type to nothing: it stays in its file, and the file holds it where it is
    sent, or it lies before the edit and is not changed, or it is the class
    made up for the file and goes to the place of its declaration. *)
Theorem moved_owner_is_held (self : FileRemap) (fs : FileFacts) (owner owner' : LuaTypeOwner) :
  facts self = Some fs -> owner_ordered owner -> FileRemap.type_owner self owner = Moved owner' ->
  owner_file owner' = owner_file owner
  /\ (held fs owner' \/ (owner' = owner /\ before_the_change self owner) \/ covering_class fs owner').
Proof.
  intros Hfacts Hord Hm. destruct owner as [id|id|[file id]]; simpl in Hm, Hord.
  - destruct (FileRemap.decl_id self id) as [|id'|] eqn:Hid; try done. injection Hm as <-.
    destruct (decl_id_confirmed _ _ Hfacts _ _ Hid) as [Hf [?|[-> ?]]]; [by auto|].
    split; [done|]. right; left. by split.
  - destruct (FileRemap.member_id self id) as [|id'|] eqn:Hid; try done. injection Hm as <-.
    destruct (member_id_confirmed _ _ Hfacts _ _ Hord Hid) as [Hf [?|[-> ?]]]; [by auto|].
    split; [done|]. right; left. by split.
  - destruct (FileRemap.syntax_id self file id) as [|id'|] eqn:Hid; try done. injection Hm as <-. split; [done|].
    destruct (syntax_id_confirmed _ _ Hfacts _ _ _ Hord Hid) as [?|[[-> ?]|[Hk [name Hn]]]]; [by left| |].
    + right; left. by split.
    + right; right. by exists (mkInFiled file id'), name.
Qed.

Lemma moved_owner_is_held_witness :
  let fs := mkFacts [] [7%N] [] [] [] [] in
  let self := mkRemap 1%N [mkHunk 2 2 2 4] (Some fs) in
  FileRemap.type_owner self (OwnerDecl (mkDeclId 1%N 5)) = Moved (OwnerDecl (mkDeclId 1%N 7)) /\ 7%N ∈ decl_positions fs.
Proof.
  intros fs self. split; [by vm_compute|].
  destruct (moved_owner_is_held self fs (OwnerDecl (mkDeclId 1%N 5)) (OwnerDecl (mkDeclId 1%N 7))) as [_ [H|[[H _]|H]]];
    [done|done|by vm_compute|done|done|by destruct H as (? & ? & ? & _)].
Defined.
