(* ===== verification/CopyOnWrite.v ===== *)
(** * Copy-on-write storage of the index

    [src/crates/glua_code_analysis/src/db_index/cow_shards.rs].  A map is split
    into shards behind [Arc]s; a fork writes apart from the map it was taken
    from, and an install merges the changes of a fork back.

    An [Arc] is its allocation, a number, and the value it points to.  The code
    compares allocations and reads values; it writes through an [Arc] only after
    [make_mut], which copies the value unless nothing else holds it.  The
    allocation of a written [Arc] is therefore never that of another [Arc] in
    use, and the model takes a new number from the supply [N], the state of the
    monad, for every write.  A mutable borrow is the function that is applied to
    what it borrows.  A hash map is a [gmap]: the order of its iteration is
    unspecified. *)

From S2P Require Import Prelude FileOrder.
From stdpp Require Import list gmap sorting.
Local Open Scope prog_scope.

(** ** [Arc] *)

Record Arc (A : Type) : Type := mkArc { ptr : N; deref : A }.
Arguments mkArc {A} _ _.
Arguments ptr {A} _.
Arguments deref {A} _.

Definition Arc_new {A} (a : A) : M N (Arc A) := fun next => Done (mkArc next a, N.succ next).

Definition ptr_eq {A} (a b : Arc A) : bool := (ptr a =? ptr b)%N.

(** [Arc::make_mut], then a write [f] that returns a value. *)
Definition make_mut {A B} (a : Arc A) (f : A -> B * A) : M N (B * Arc A) :=
  a' <- Arc_new (f (deref a)).2 ;; ret ((f (deref a)).1, a').

(** ** Keys *)

Definition PAGES : nat := 4096.
Definition SLOT_CHUNK : nat := 256.

Inductive ShardOwner : Type :=
  | File (file_id : FileId)
  | Workspace.

#[global] Instance shard_owner_eq_dec : EqDecision ShardOwner.
Proof. solve_decision. Defined.

(** [hash_one] is the hash function of the crate [rustc_hash]. *)
Class ShardKey (K : Type) := {
  PAGED : bool;
  shard_owner : K -> ShardOwner;
  hash_one : K -> N
}.
Arguments PAGED K {_}.

#[global] Instance file_id_key : ShardKey FileId := {|
  PAGED := false;
  shard_owner := File;
  hash_one := id
|}.

Definition file_slot (K : Type) `{ShardKey K} (file_id : FileId) : nat :=
  (if PAGED K then PAGES else 0) + N.to_nat file_id.

Definition slot_of {K} `{ShardKey K} (key : K) : nat :=
  match shard_owner key with
  | File file_id => file_slot K file_id
  | Workspace => N.to_nat (N.shiftr (hash_one key) 40 mod N.of_nat PAGES)
  end.

(** [at as u32]. *)
Definition as_u32 (at_ : nat) : N := (N.of_nat at_ mod 2 ^ 32)%N.

Definition next_multiple_of (n m : nat) : nat := (n + m - 1) / m * m.

(** ** The map *)

Abbreviation Shard K V := (gmap K V).

Record CowShards (K V : Type) `{Countable K} : Type := mkShards {
  slots : Arc (list (option (Arc (Shard K V))));
  dirty : gmap N (Arc (Shard K V));
  forked : bool
}.
Arguments mkShards {K V _ _} _ _ _.
Arguments slots {K V _ _} _.
Arguments dirty {K V _ _} _.
Arguments forked {K V _ _} _.

Inductive Conflict : Type := conflict.
Abbreviation Merged := (Result unit Conflict).

(** [fn(&mut Option<V>, Option<&V>, Option<&V>) -> Merged]: the first argument
    is returned as it is left. *)
Definition Merge (V : Type) : Type := option V -> option V -> option V -> option V * Merged.

Module CowShards.
Section CowShards.
Context {K V : Type} `{Countable K} `{!ShardKey K}.
(** [Arc::strong_count] says that an allocation of a slot table is held by
    another map too: it depends on all the maps of the program. *)
Variable held_elsewhere : N -> bool.
Implicit Types self : CowShards K V.

Definition default : M N (CowShards K V) :=
  table <- Arc_new [] ;; ret (mkShards table ∅ false).

Definition shard self (at_ : nat) : option (Shard K V) :=
  match (if bool_decide (dirty self = ∅) then None else dirty self !! as_u32 at_) with
  | Some shard => Some (deref shard)
  | None => deref <$> mjoin (deref (slots self) !! at_)
  end.

Definition end_ self : nat :=
  foldr Nat.max (length (deref (slots self)))
    (map (fun slot => N.to_nat slot.1 + 1) (map_to_list (dirty self))).

Definition shards self : list (Shard K V) := omap (shard self) (seq 0 (end_ self)).

Definition iter self : list (K * V) := concat (map map_to_list (shards self)).
Definition keys self : list K := map fst (iter self).
Definition values self : list V := map snd (iter self).
Definition is_empty self : bool := forallb (fun s => bool_decide (s = ∅)) (shards self).
Definition len self : nat := sum_list (map size (shards self)).

Definition file_entries self (file_id : FileId) : list (K * V) :=
  match shard self (file_slot K file_id) with Some s => map_to_list s | None => [] end.

Definition clear self : M N (CowShards K V) :=
  table <- Arc_new [] ;; ret (mkShards table ∅ (forked self)).

Definition fork self : CowShards K V := mkShards (slots self) (dirty self) true.

Definition held_shard self (at_ : nat) : option (Arc (Shard K V)) :=
  match dirty self !! as_u32 at_ with
  | Some shard => Some shard
  | None => mjoin (deref (slots self) !! at_)
  end.

(** The slot table of [slots_mut]: grown to hold [at_]. *)
Definition grown self (at_ : nat) : list (option (Arc (Shard K V))) :=
  let table := deref (slots self) in
  if (length table <=? at_)%nat
  then table ++ replicate (next_multiple_of (at_ + 1) SLOT_CHUNK - length table) None
  else table.

(** [mem::replace(&mut self.slots_mut(at)[at], shard)]. *)
Definition replace_slot self (at_ : nat) (shard : option (Arc (Shard K V)))
    : M N (option (Arc (Shard K V)) * CowShards K V) :=
  old <- unwrap (grown self at_ !! at_) ;;
  table <- Arc_new (<[at_ := shard]> (grown self at_)) ;;
  ret (old, mkShards table (dirty self) (forked self)).

(** [self.dirty.entry(at).or_insert_with(..)] and a write. *)
Definition dirty_mut {A} self (at_ : nat) (f : Shard K V -> A * Shard K V)
    : M N (A * CowShards K V) :=
  entry <- match dirty self !! as_u32 at_ with
           | Some shard => ret shard
           | None => match mjoin (deref (slots self) !! at_) with
                     | Some shard => ret shard
                     | None => Arc_new ∅
                     end
           end ;;
  let* (a, entry) := make_mut entry f in
  ret (a, mkShards (slots self) (<[as_u32 at_ := entry]> (dirty self)) (forked self)).

Definition shard_mut {A} self (at_ : nat) (f : Shard K V -> A * Shard K V)
    : M N (A * CowShards K V) :=
  if negb (forked self) && negb (bool_decide (is_Some (dirty self !! as_u32 at_))) then
    slot <- unwrap (grown self at_ !! at_) ;;
    shard <- match slot with Some shard => ret shard | None => Arc_new ∅ end ;;
    let* (a, shard) := make_mut shard f in
    let* (_, self) := replace_slot self at_ (Some shard) in
    ret (a, self)
  else dirty_mut self at_ f.

(** *** Access by key *)

Definition get self (key : K) : option V := s ← shard self (slot_of key); s !! key.

Definition contains_key self (key : K) : bool :=
  match shard self (slot_of key) with
  | Some s => bool_decide (is_Some (s !! key))
  | None => false
  end.

Definition holding_shard_mut {A} self (key : K) (f : Shard K V -> option A * Shard K V)
    : M N (option A * CowShards K V) :=
  let at_ := slot_of key in
  match shard self at_ with
  | None => ret (None, self)
  | Some s =>
      if forked self && negb (bool_decide (is_Some (s !! key)))
      then ret (None, self)
      else shard_mut self at_ f
  end.

(** [get_mut] and a write through the reference. *)
Definition get_mut self (key : K) (write : V -> V) : M N (option V * CowShards K V) :=
  holding_shard_mut self key (fun s => (s !! key, alter write key s)).

Definition insert self (key : K) (value : V) : M N (option V * CowShards K V) :=
  shard_mut self (slot_of key) (fun s => (s !! key, <[key := value]> s)).

Definition remove self (key : K) : M N (option V * CowShards K V) :=
  holding_shard_mut self key (fun s => (s !! key, delete key s)).

(** [entry] and what is done with it. *)
Definition entry self (key : K) (use : option V -> option V) : M N (option V * CowShards K V) :=
  shard_mut self (slot_of key) (fun s => (s !! key, partial_alter use key s)).

Definition extend self (entries : list (K * V)) : M N (CowShards K V) :=
  for_each (fun self e => let* (_, self) := insert self e.1 e.2 in ret self) entries self.

Definition from_iter (entries : list (K * V)) : M N (CowShards K V) :=
  self <- default ;; extend self entries.

(** *** Folding the shards kept apart into the table *)

Definition fold_shard self (at_ : nat) (shard : Arc (Shard K V)) : M N (CowShards K V) :=
  let* (_, self) := replace_slot self at_ (if bool_decide (deref shard = ∅) then None else Some shard) in
  ret self.

Definition fold_dirty self : M N (CowShards K V) :=
  if forked self || bool_decide (dirty self = ∅) then ret self else
  for_each (fun self e => fold_shard self (N.to_nat e.1) e.2) (map_to_list (dirty self))
    (mkShards (slots self) ∅ (forked self)).

Definition populated self : list nat :=
  filter (fun at_ => from_option (fun s => bool_decide (s <> ∅)) false (shard self at_))
    (seq 0 (end_ self)).

(** [writable_shards] and a write to each of the shards; those that are left
    out have no entry. *)
Definition writable_shards self (f : Shard K V -> Shard K V) : M N (CowShards K V) :=
  self <- fold_dirty self ;;
  let at_ := populated self in
  self <- for_each (fun self at_ => let* (_, self) := shard_mut self at_ (fun s => (tt, s)) in ret self)
            at_ self ;;
  for_each (fun self at_ => let* (_, self) := shard_mut self at_ (fun s => (tt, f s)) in ret self)
    at_ self.

Definition iter_mut self (write : K -> V -> V) : M N (CowShards K V) :=
  writable_shards self (map_imap (fun k v => Some (write k v))).

(** [keep] returns whether the entry stays, and the value as it leaves it. *)
Definition retain self (keep : K -> V -> bool * V) : M N (CowShards K V) :=
  writable_shards self
    (map_imap (fun k v => let '(kept, v') := keep k v in if kept then Some v' else None)).

(** *** Taking shards out of a map that is used up *)

Definition take_slot self (at_ : nat) : M N (option (Arc (Shard K V)) * CowShards K V) :=
  let held := mjoin (deref (slots self) !! at_) in
  if held_elsewhere (ptr (slots self)) then ret (held, self) else
  table <- Arc_new (<[at_ := None]> (deref (slots self))) ;;
  ret (held, mkShards table (dirty self) (forked self)).

Definition take_held_shard self (at_ : nat) : M N (option (Arc (Shard K V)) * CowShards K V) :=
  match dirty self !! as_u32 at_ with
  | Some shard => ret (Some shard, mkShards (slots self) (delete (as_u32 at_) (dirty self)) (forked self))
  | None => take_slot self at_
  end.

Definition into_iter self : M N (list (K * V)) :=
  let* (entries, _) := for_each (fun acc at_ =>
      let* (held, self) := take_held_shard acc.2 at_ in
      ret (acc.1 ++ match held with Some shard => map_to_list (deref shard) | None => [] end, self))
    (seq 0 (end_ self)) ([], self) in
  ret entries.
(** *** Installing a fork *)

Definition same_shard (a b : option (Arc (Shard K V))) : bool :=
  match a, b with
  | Some a, Some b => ptr_eq a b
  | None, None => true
  | _, _ => false
  end.

(** The slots that a fork of [frozen] may have changed. *)
Definition forked_slots (frozen fork : CowShards K V) : list nat :=
  if ptr_eq (slots fork) (slots frozen)
  then map (fun e => N.to_nat e.1) (map_to_list (dirty fork))
  else seq 0 (Nat.max (end_ frozen) (end_ fork)).

Definition writes_apart self : bool := forked self || held_elsewhere (ptr (slots self)).

Definition or_default (shard : option (Arc (Shard K V))) : M N (Arc (Shard K V)) :=
  match shard with Some shard => ret shard | None => Arc_new ∅ end.

(** Without the shard it returns, which only has to be dropped. *)
Definition place_shard self (at_ : nat) (shard : option (Arc (Shard K V))) : M N (CowShards K V) :=
  if writes_apart self then
    shard <- or_default shard ;;
    ret (mkShards (slots self) (<[as_u32 at_ := shard]> (dirty self)) (forked self))
  else
    let self := mkShards (slots self) (delete (as_u32 at_) (dirty self)) (forked self) in
    let* (_, self) := replace_slot self at_ shard in
    ret self.

Definition install_shard_mut {A} self (at_ : nat) (f : Shard K V -> A * Shard K V)
    : M N (A * CowShards K V) :=
  if writes_apart self then dirty_mut self at_ f else shard_mut self at_ f.

Definition shard_of (shard : option (Arc (Shard K V))) : Shard K V :=
  match shard with Some shard => deref shard | None => ∅ end.

Context `{!EqDecision V}.

(** The keys that [forked] changed. *)
Definition changed_keys_of (was forked : Shard K V) : list K :=
  map fst (filter (fun e => was !! e.1 <> Some e.2) (map_to_list forked))
  ++ filter (fun key => forked !! key = None) (map fst (map_to_list was)).

Section Install.
Variable merge : option (Merge V).

(** The body of the loop over the changed keys: [forked] and [target] are the
    shards as they were before it. *)
Definition install_key (was forked : Shard K V) (target : bool * Shard K V) (key : K)
    : bool * Shard K V :=
  let '(conflicted, target) := target in
  let before := was !! key in
  let value := forked !! key in
  let now := target !! key in
  let identical := bool_decide (now = value) in
  let put conflicted value := (conflicted, partial_alter (fun _ => value) key target) in
  if bool_decide (now = before) then put conflicted value
  else match merge with
       | Some merge =>
           match merge now before value with
           | (merged, Ok _) => put conflicted merged
           | (_, Err _) => put (conflicted || negb identical) value
           end
       | None => if identical then (conflicted, target) else put true value
       end.

Definition install_keys (was forked target : Shard K V) : bool * Shard K V :=
  foldl (install_key was forked) (false, target) (changed_keys_of was forked).

(** One round of the loop over the slots in [install_with]. *)
Definition install_slot (frozen : CowShards K V) (acc : bool * CowShards K V * CowShards K V) (at_ : nat)
    : M N (bool * CowShards K V * CowShards K V) :=
  let '(conflicted, self, fork) := acc in
  let was := held_shard frozen at_ in
  if same_shard was (held_shard fork at_) then ret acc else
  let* (forked, fork) := take_held_shard fork at_ in
  if same_shard was (held_shard self at_) then
    self <- place_shard self at_ forked ;;
    ret (conflicted, self, fork)
  else
    let* (slot_conflicted, self) :=
      install_shard_mut self at_ (install_keys (shard_of was) (shard_of forked)) in
    ret (conflicted || slot_conflicted, self, fork).

Definition install_with self (frozen fork : CowShards K V) : M N (bool * CowShards K V) :=
  let* (conflicted, self, _) :=
    for_each (install_slot frozen) (forked_slots frozen fork) (false, self, fork) in
  ret (conflicted, self).

(** The installs of several forks at one slot. *)
Definition install_forked (was : option (Arc (Shard K V)))
    (acc : option (Arc (Shard K V)) * list nat) (forked : nat * option (Arc (Shard K V)))
    : M N (option (Arc (Shard K V)) * list nat) :=
  let '(held, conflicted) := acc in
  let '(place, forked) := forked in
  if same_shard was held then
    shard <- or_default forked ;;
    ret (Some shard, conflicted)
  else
    target <- or_default held ;;
    let* (fork_conflicted, target) :=
      make_mut target (install_keys (shard_of was) (shard_of forked)) in
    ret (Some target, if fork_conflicted : bool then conflicted ++ [place] else conflicted).

Definition install_shard (was held : option (Arc (Shard K V)))
    (forked : list (nat * option (Arc (Shard K V)))) : M N (Arc (Shard K V) * list nat) :=
  let* (held, conflicted) := for_each (install_forked was) forked (held, []) in
  shard <- or_default held ;;
  ret (shard, conflicted).

Abbreviation ByShard := (gmap nat (list (nat * option (Arc (Shard K V))))).

(** The shards that a fork changed, taken out of it. *)
Definition collect_slot (frozen : CowShards K V) (place : nat) (acc : ByShard * CowShards K V) (at_ : nat)
    : M N (ByShard * CowShards K V) :=
  let '(by_shard, fork) := acc in
  if same_shard (held_shard frozen at_) (held_shard fork at_) then ret acc else
  let* (shard, fork) := take_held_shard fork at_ in
  ret (partial_alter (fun forks => Some (from_option id [] forks ++ [(place, shard)])) at_ by_shard,
       fork).

Definition collect_fork (frozen : CowShards K V) (by_shard : ByShard) (fork : nat * CowShards K V)
    : M N ByShard :=
  let* (by_shard, _) :=
    for_each (collect_slot frozen fork.1) (forked_slots frozen fork.2) (by_shard, fork.2) in
  ret by_shard.

(** The shards that the map holds at the slots, taken out of it. *)
Definition take_held (acc : list (nat * option (Arc (Shard K V)) * list (nat * option (Arc (Shard K V)))) * CowShards K V)
    (forked : nat * list (nat * option (Arc (Shard K V))))
    : M N (list (nat * option (Arc (Shard K V)) * list (nat * option (Arc (Shard K V)))) * CowShards K V) :=
  let* (held, self) := take_held_shard acc.2 forked.1 in
  ret (acc.1 ++ [(forked.1, held, forked.2)], self).

(** The task of one shard and what is done with its result. *)
Definition install_at (frozen : CowShards K V) (acc : list nat * CowShards K V)
    (job : nat * option (Arc (Shard K V)) * list (nat * option (Arc (Shard K V))))
    : M N (list nat * CowShards K V) :=
  let '(conflicted, self) := acc in
  let '(at_, held, forks) := job in
  let* (shard, conflicts) := install_shard (held_shard frozen at_) held forks in
  ret (conflicted ++ conflicts,
       mkShards (slots self) (<[as_u32 at_ := shard]> (dirty self)) (forked self)).

(** [Vec::dedup]. *)
Fixpoint dedup (l : list nat) : list nat :=
  match l with
  | x :: l' =>
      match dedup l' with
      | y :: l'' => if (x =? y)%nat then y :: l'' else x :: y :: l''
      | [] => [x]
      end
  | [] => []
  end.

(** The installs one after another. *)
Definition install_in_order self (frozen : CowShards K V) (forks : list (nat * CowShards K V))
    : M N (list nat * CowShards K V) :=
  for_each (fun acc fork =>
      let* (conflicted, self) := install_with acc.2 frozen fork.2 in
      ret (if conflicted : bool then acc.1 ++ [fork.1] else acc.1, self))
    forks ([], self).

(** The tasks of the worker threads have no shard in common: they run one
    after another here, in the order of their slots. *)
Definition install_apart self (frozen : CowShards K V) (forks : list (nat * CowShards K V))
    : M N (list nat * CowShards K V) :=
  by_shard <- for_each (collect_fork frozen) forks ∅ ;;
  let* (shards, self) := for_each take_held (map_to_list by_shard) ([], self) in
  let* (conflicted, self) := for_each (install_at frozen) shards ([], self) in
  ret (dedup (merge_sort (≤) conflicted), self).

Definition install_all self (frozen : CowShards K V) (forks : list (nat * CowShards K V))
    : M N (list nat * CowShards K V) :=
  if ((length forks <? 2) || negb (writes_apart self))%nat
  then install_in_order self frozen forks
  else install_apart self frozen forks.
End Install.

Definition install self (frozen fork : CowShards K V) : M N (bool * CowShards K V) :=
  install_with None self frozen fork.

Definition changed_keys (frozen fork : CowShards K V) : list K :=
  concat (map (fun at_ => changed_keys_of (shard_of (held_shard frozen at_)) (shard_of (held_shard fork at_)))
            (forked_slots frozen fork)).

Definition both_changed_keys self (frozen fork : CowShards K V) : list K :=
  filter (fun key => get self key <> get frozen key /\ get self key <> get fork key)
    (changed_keys frozen fork).

(** Whether a fork wrote anything. *)
Definition wrote self (frozen : CowShards K V) : bool :=
  negb (ptr_eq (slots self) (slots frozen))
  || existsb (fun e => match dirty frozen !! e.1 with
                       | Some held => negb (ptr_eq held e.2)
                       | None => true
                       end) (map_to_list (dirty self)).

(** [PartialEq]. *)
Definition eqb self (other : CowShards K V) : bool :=
  (len self =? len other)%nat
  && forallb (fun e => bool_decide (get other e.1 = Some e.2)) (iter self).
End CowShards.
End CowShards.

(** ** A set of keys *)

Definition CowShardSet (K : Type) `{Countable K} : Type := CowShards K unit.

Module CowShardSet.
Section CowShardSet.
Context {K : Type} `{Countable K} `{!ShardKey K}.
Implicit Types self : CowShardSet K.

Definition iter self : list K := CowShards.keys self.
Definition clear self : M N (CowShardSet K) := CowShards.clear self.
Definition contains self (key : K) : bool := CowShards.contains_key self key.

Definition insert self (key : K) : M N (bool * CowShardSet K) :=
  let* (old, self) := CowShards.insert self key tt in
  ret (bool_decide (old = None), self).

Definition remove self (key : K) : M N (bool * CowShardSet K) :=
  let* (old, self) := CowShards.remove self key in
  ret (bool_decide (is_Some old), self).

Definition extend self (keys : list K) : M N (CowShardSet K) :=
  for_each (fun self key => let* (_, self) := insert self key in ret self) keys self.
End CowShardSet.
End CowShardSet.

(** ** A whole value behind one [Arc] *)

Definition CowCell (T : Type) : Type := Arc T.

Module CowCell.
Section CowCell.
Context {T : Type}.

Definition from (value : T) : M N (CowCell T) := Arc_new value.
Definition deref_mut {A} (self : CowCell T) (f : T -> A * T) : M N (A * CowCell T) := make_mut self f.
End CowCell.
End CowCell.

(** ** Storage that a task forks *)

(** The methods with default bodies are members too. *)
Class TaskFork (T : Type) := {
  task_fork : T -> T;
  wrote : T -> T -> bool;
  install_task : (N -> bool) -> T -> T -> T -> M N (bool * T);
  install_tasks : (N -> bool) -> T -> T -> list (nat * T) -> M N (list nat * T);
  flatten : T -> M N T
}.

(** The default body of [install_tasks]. *)
Definition tasks_in_order {T} (install : T -> T -> M N (bool * T)) (self : T)
    (forks : list (nat * T)) : M N (list nat * T) :=
  for_each (fun acc fork =>
      let* (conflicted, self) := install acc.2 fork.2 in
      ret (if conflicted : bool then acc.1 ++ [fork.1] else acc.1, self))
    forks ([], self).

#[global] Instance shards_task_fork {K V} `{Countable K} `{!ShardKey K} `{!EqDecision V} :
  TaskFork (CowShards K V) := {|
  task_fork := CowShards.fork;
  wrote := CowShards.wrote;
  install_task held self frozen fork := CowShards.install held self frozen fork;
  install_tasks held self frozen forks := CowShards.install_all held None self frozen forks;
  flatten := CowShards.fold_dirty
|}.

#[global] Instance shard_set_task_fork {K} `{Countable K} `{!ShardKey K} :
  TaskFork (CowShardSet K) := shards_task_fork (V := unit).

(** Installs a value that a task replaces whole. *)
Definition install_whole {T} (same : T -> T -> bool) (current frozen fork : T) : bool * T :=
  if same fork frozen then (false, current) else
  (negb (same current frozen) && negb (same current fork), fork).

#[global] Instance cell_task_fork {T} : TaskFork (CowCell T) := {|
  task_fork self := self;
  wrote self frozen := negb (ptr_eq self frozen);
  install_task _ self frozen fork := ret (install_whole ptr_eq self frozen fork);
  install_tasks _ self frozen forks :=
    tasks_in_order (fun self fork => ret (install_whole ptr_eq self frozen fork)) self forks;
  flatten := ret
|}.

(** [u32], [u64], [usize], [bool] and the like. *)
Definition scalar_task_fork {T} `{!EqDecision T} : TaskFork T := {|
  task_fork self := self;
  wrote self frozen := bool_decide (self <> frozen);
  install_task _ self frozen fork :=
    ret (install_whole (fun a b => bool_decide (a = b)) self frozen fork);
  install_tasks _ self frozen forks :=
    tasks_in_order (fun self fork =>
      ret (install_whole (fun a b => bool_decide (a = b)) self frozen fork)) self forks;
  flatten := ret
|}.

(** ** Merges *)

(** [install_merging] of a cell. *)
Definition cell_install_merging {T} `{!EqDecision T} `{!Inhabited T}
    (self frozen fork : CowCell T) (merge : Merge T) : M N (bool * CowCell T) :=
  if ptr_eq fork frozen || bool_decide (deref fork = deref frozen) then ret (false, self) else
  if ptr_eq self frozen || bool_decide (deref self = deref frozen) then ret (false, fork) else
  let identical := bool_decide (deref self = deref fork) in
  match merge (Some (deref self)) (Some (deref frozen)) (Some (deref fork)) with
  | (merged, Ok _) => cell <- Arc_new (from_option id inhabitant merged) ;; ret (false, cell)
  | (_, Err _) => ret (negb identical, fork)
  end.

(** [install_merging] of a number. *)
Definition scalar_install_merging (self frozen fork : N) (merge : Merge N) : bool * N :=
  if (fork =? frozen)%N then (false, self) else
  if (self =? frozen)%N then (false, fork) else
  let identical := (self =? fork)%N in
  match merge (Some self) (Some frozen) (Some fork) with
  | (merged, Ok _) => (false, from_option id 0%N merged)
  | (_, Err _) => (negb identical, fork)
  end.

Class Summand (T : Type) := {
  zero : T;
  add : T -> T -> T;
  sub : T -> T -> T
}.

(** An unsigned integer of [w] bits. *)
Definition unsigned_summand (w : N) : Summand N := {|
  zero := 0%N;
  add a b := ((a + b) mod 2 ^ w)%N;
  sub a b := ((a + 2 ^ w - b) mod 2 ^ w)%N
|}.

Definition merge_sum {T} `{!Summand T} `{!EqDecision T} : Merge T := fun current frozen fork =>
  let value := from_option id zero in
  let sum := add (value current) (sub (value fork) (value frozen)) in
  (if bool_decide (sum <> zero) then Some sum else None, Ok tt).

Definition prune {T} (is_empty : T -> bool) (merged : option T) : option T :=
  if from_option is_empty false merged then None else merged.

Definition had {T} `{Countable T} (set : option (gset T)) (element : T) : bool :=
  from_option (fun set => bool_decide (element ∈ set)) false set.

Definition elements_of {T} `{Countable T} (set : option (gset T)) : list T :=
  from_option elements [] set.

Definition merge_set {T} `{Countable T} : Merge (gset T) := fun current frozen fork =>
  let merged := from_option id ∅ current in
  let merged := foldl (fun s e => if had frozen e then s else {[e]} ∪ s) merged (elements_of fork) in
  let merged := foldl (fun s e => if had fork e then s else s ∖ {[e]}) merged (elements_of frozen) in
  (prune (fun s => bool_decide (s = ∅)) (Some merged), Ok tt).

(** The elements of [fork] that are neither in [frozen] nor seen before. *)
Fixpoint added {T} `{Countable T} (frozen present : gset T) (fork : list T) : list T :=
  match fork with
  | [] => []
  | e :: fork' =>
      if bool_decide (e ∈ frozen) || bool_decide (e ∈ present) then added frozen present fork'
      else e :: added frozen ({[e]} ∪ present) fork'
  end.

Definition merge_list {T} `{Countable T} : Merge (list T) := fun current frozen fork =>
  let frozen : gset T := list_to_set (from_option id [] frozen) in
  let fork := from_option id [] fork in
  let kept : gset T := list_to_set fork in
  let merged := filter (fun e => e ∉ frozen \/ e ∈ kept) (from_option id [] current) in
  (prune (fun l => bool_decide (l = [])) (Some (merged ++ added frozen (list_to_set merged) fork)), Ok tt).

(** [le] compares the keys. *)
Definition merge_sorted_by {T} `{Countable T} (le : T -> T -> bool) : Merge (list T) :=
  fun current frozen fork =>
  let '(current, result) := merge_list current frozen fork in
  (sort_by le <$> current, result).

Definition refuse {V} : Merge V := fun current _ _ => (current, Err conflict).
Definition rebuilt {V} : Merge V := fun current _ _ => (current, Ok tt).

Section MergeMap.
Context {K V : Type} `{Countable K} `{!EqDecision V}.
Variable inner : Merge V.

Definition entry_in (map : option (gmap K V)) (key : K) : option V := m ← map; m !! key.
Definition keys_in (map : option (gmap K V)) : list K := from_option (fun m => elements (dom m)) [] map.

Definition changed_in (frozen fork : option (gmap K V)) : list K :=
  filter (fun key => entry_in fork key <> entry_in frozen key) (keys_in fork)
  ++ filter (fun key => entry_in fork key = None) (keys_in frozen).

(** The merge of the changed keys, up to a conflict. *)
Fixpoint merge_keys (frozen fork : option (gmap K V)) (changed : list K) (merged : gmap K V)
    : gmap K V * Merged :=
  match changed with
  | [] => (merged, Ok tt)
  | key :: changed =>
      let before := entry_in frozen key in
      let value := entry_in fork key in
      let now := merged !! key in
      let put value := partial_alter (fun _ => value) key merged in
      if bool_decide (now = before) then merge_keys frozen fork changed (put value)
      else
        let identical := bool_decide (now = value) in
        match inner now before value with
        | (slot, Ok _) => merge_keys frozen fork changed (put slot)
        | (_, Err e) =>
            if identical then merge_keys frozen fork changed (put value)
            else (delete key merged, Err e)
        end
  end.

Definition merge_map : Merge (gmap K V) := fun current frozen fork =>
  match merge_keys frozen fork (changed_in frozen fork) (from_option id ∅ current) with
  | (merged, Ok _) => (prune (fun m => bool_decide (m = ∅)) (Some merged), Ok tt)
  | (merged, Err e) => (Some merged, Err e)
  end.
End MergeMap.
