(* ===== verification/CopyOnWriteProofs.v ===== *)
(** * The copy-on-write storage is a map, and installs are three-way merges *)

From S2P Require Import Prelude FileOrder CopyOnWrite.
From stdpp Require Import list gmap sorting.
Local Open Scope prog_scope.

(** ** Slots *)

Definition small (at_ : nat) : Prop := (N.of_nat at_ < 4294967296)%N.

Lemma as_u32_fits at_ : small at_ -> as_u32 at_ = N.of_nat at_.
Proof. unfold small, as_u32. intros Hat. apply N.mod_small. exact Hat. Qed.

Lemma as_u32_inj a b : small a -> small b -> as_u32 a = as_u32 b -> a = b.
Proof. intros Ha Hb. rewrite !as_u32_fits by done. lia. Qed.

Lemma as_u32_lt a : (as_u32 a < 4294967296)%N.
Proof. apply N.mod_lt. done. Qed.

Lemma next_multiple_of_bounds n : n <= next_multiple_of n SLOT_CHUNK < n + SLOT_CHUNK.
Proof.
  unfold next_multiple_of, SLOT_CHUNK.
  pose proof (Nat.div_mod_eq (n + 256 - 1) 256).
  pose proof (Nat.mod_upper_bound (n + 256 - 1) 256). lia.
Qed.

(** 2^32 is a multiple of the chunk. *)
Lemma next_multiple_of_small n :
  (N.of_nat n <= 4294967296)%N -> (N.of_nat (next_multiple_of n SLOT_CHUNK) <= 4294967296)%N.
Proof.
  intros Hn. unfold next_multiple_of, SLOT_CHUNK.
  assert (Hq : (n + 256 - 1) / 256 <= N.to_nat 16777216)
    by (apply Nat.lt_succ_r, Nat.Div0.div_lt_upper_bound; lia).
  revert Hq. generalize ((n + 256 - 1) / 256). intros q Hq. lia.
Qed.

(** The slots of all keys have numbers of 32 bits; without hash pages every key
    is owned by a file. *)
Class SmallSlots (K : Type) `{ShardKey K} : Prop := {
  small_slots (k : K) : small (slot_of k);
  unpaged_owner (k : K) : PAGED K = false -> shard_owner k <> Workspace
}.

Section View.
Context {K V : Type} `{Countable K} `{!ShardKey K} `{!SmallSlots K}.
Import CowShards.
Implicit Types self frozen fork : CowShards K V.
Implicit Types m : gmap K V.

(** ** What a map holds, slot by slot *)

Definition slice (m : gmap K V) (at_ : nat) : gmap K V := filter (fun e => slot_of e.1 = at_) m.

Lemma slice_lookup m at_ k : slice m at_ !! k = if decide (slot_of k = at_) then m !! k else None.
Proof.
  unfold slice. case_decide as Hk.
  - destruct (m !! k) as [v|] eqn:Hm.
    + by apply map_lookup_filter_Some.
    + apply map_lookup_filter_None. by left.
  - apply map_lookup_filter_None. right. by intros v _ ?.
Qed.

(** The tables and the numbers of the slots stay below 2^32. *)
Definition shaped self : Prop :=
  (N.of_nat (length (deref (slots self))) <= 4294967296)%N
  /\ (forall slot a, dirty self !! slot = Some a -> (slot < 4294967296)%N).

Definition repr self (σ : nat -> gmap K V) : Prop :=
  forall at_, small at_ -> shard_of (held_shard self at_) = σ at_.

Lemma shard_held self at_ : shard self at_ = deref <$> held_shard self at_.
Proof.
  unfold shard, held_shard. case_bool_decide as Hd.
  - by rewrite Hd, lookup_empty.
  - by destruct (dirty self !! as_u32 at_).
Qed.

Lemma shard_held_of self at_ s : shard self at_ = Some s -> shard_of (held_shard self at_) = s.
Proof. rewrite shard_held. destruct (held_shard self at_); simpl; congruence. Qed.

Lemma repr_get self m k : repr self (slice m) -> get self k = m !! k.
Proof.
  intros Hr. unfold get. rewrite shard_held.
  specialize (Hr _ (small_slots k)).
  assert (Hs : shard_of (held_shard self (slot_of k)) !! k = m !! k).
  { rewrite Hr, slice_lookup, decide_True by done. done. }
  destruct (held_shard self (slot_of k)); simpl in *; [done|]. by rewrite <- Hs, lookup_empty.
Qed.

(** ** Changes of one slot *)

(** [self'] has [x] at [at_] and is [self] elsewhere; a table that is not that
    of [self] is new, and as long as it is the same the slot is kept apart. *)
Record updated (n : N) self (at_ : nat) (x : option (Arc (gmap K V))) (n' : N) self' : Prop := {
  upd_next : (n <= n')%N;
  upd_shaped : shaped self';
  upd_forked : forked self' = forked self;
  upd_at : held_shard self' at_ = x;
  upd_other a : small a -> a <> at_ -> held_shard self' a = held_shard self a;
  upd_table :
    (slots self' = slots self /\ dom (dirty self') = {[as_u32 at_]} ∪ dom (dirty self))
    \/ (n <= ptr (slots self') < n')%N
}.

Lemma held_set_dirty self at_ a b (f : bool) :
  small at_ -> small b ->
  held_shard (mkShards (slots self) (<[as_u32 at_ := a]> (dirty self)) f) b
  = if decide (at_ = b) then Some a else held_shard self b.
Proof.
  intros Ha Hb. unfold held_shard. simpl. case_decide as Heq.
  - subst b. by rewrite lookup_insert_eq.
  - rewrite lookup_insert_ne; [done|]. intros Hab. apply Heq. by apply as_u32_inj.
Qed.

Lemma shaped_set_dirty self at_ a (f : bool) :
  shaped self -> shaped (mkShards (slots self) (<[as_u32 at_ := a]> (dirty self)) f).
Proof.
  intros [Hl Hd]. split; [done|]. simpl. intros slot b. rewrite lookup_insert_Some.
  intros [[<- _]|[_ Hb]]; [apply as_u32_lt|by eapply Hd].
Qed.

Lemma updated_dirty n n' self at_ a :
  small at_ -> shaped self -> (n <= n')%N ->
  updated n self at_ (Some a) n' (mkShards (slots self) (<[as_u32 at_ := a]> (dirty self)) (forked self)).
Proof.
  intros Hat Hs Hn. split; simpl; [done|by apply shaped_set_dirty|done| | |].
  - rewrite held_set_dirty, decide_True by done. done.
  - intros b Hb Hne. rewrite held_set_dirty, decide_False by done. done.
  - left. split; [done|]. apply dom_insert_L.
Qed.

(** *** The slot table *)

Lemma grown_lookup self at_ b :
  mjoin (grown self at_ !! b) = mjoin (deref (slots self) !! b).
Proof.
  unfold grown. case_if; [|done].
  destruct (decide (b < length (deref (slots self)))).
  - by rewrite lookup_app_l.
  - rewrite lookup_app_r by lia. rewrite (lookup_ge_None_2 (deref (slots self))) by lia.
    destruct (replicate _ None !! _) as [o|] eqn:Hr; [|done].
    apply lookup_replicate in Hr as [-> _]. done.
Qed.

Lemma grown_has self at_ : at_ < length (grown self at_).
Proof.
  unfold grown. case_if.
  - rewrite length_app, length_replicate.
    pose proof (next_multiple_of_bounds (at_ + 1)). lia.
  - apply Nat.leb_gt in Heqb. done.
Qed.

Lemma grown_small self at_ :
  small at_ -> shaped self -> (N.of_nat (length (grown self at_)) <= 4294967296)%N.
Proof.
  intros Hat [Hl _]. unfold grown. case_if; [|done].
  rewrite length_app, length_replicate.
  pose proof (next_multiple_of_small (at_ + 1)). unfold small in Hat.
  apply Nat.leb_le in Heqb. lia.
Qed.

Lemma held_no_dirty self b : dirty self !! as_u32 b = None ->
  held_shard self b = mjoin (deref (slots self) !! b).
Proof. intros Hd. unfold held_shard. by rewrite Hd. Qed.

Lemma replace_slot_spec self at_ x n :
  small at_ -> shaped self -> dirty self !! as_u32 at_ = None ->
  wp (replace_slot self at_ x)
    (fun r n' => r.1 = held_shard self at_ /\ dirty r.2 = dirty self
                 /\ (n <= ptr (slots r.2) < n')%N
                 /\ updated n self at_ x n' r.2) n.
Proof.
  intros Hat Hs Hd. unfold replace_slot.
  destruct (lookup_lt_is_Some_2 (grown self at_) at_ (grown_has _ _)) as [old Hold].
  apply wp_bind, (wp_unwrap _ old); [done|].
  unfold wp, bind, Arc_new, ret. simpl.
  assert (Hold' : old = held_shard self at_).
  { rewrite held_no_dirty by done. rewrite <- (grown_lookup self at_ at_), Hold. done. }
  split_and!; [done|done|lia|lia|].
  split; simpl; [lia| |done| | |right; lia].
  - split; simpl; [|apply Hs]. rewrite length_insert. by apply grown_small.
  - unfold held_shard. simpl. rewrite Hd, list_lookup_insert_eq by apply grown_has. done.
  - intros b Hb Hne. unfold held_shard. simpl.
    rewrite list_lookup_insert_ne by done. by rewrite grown_lookup.
Qed.

(** ** Writes *)

(** The write [f] to the shard at [at_]. *)
Definition written {A} (f : gmap K V -> A * gmap K V) n self at_ (r : A * CowShards K V) n' : Prop :=
  r.1 = (f (shard_of (held_shard self at_))).1
  /\ exists p, (n <= p < n')%N
       /\ updated n self at_ (Some (mkArc p (f (shard_of (held_shard self at_))).2)) n' r.2.

Lemma updated_later n n0 self at_ x n' self' :
  updated n0 self at_ x n' self' -> (n <= n0)%N -> updated n self at_ x n' self'.
Proof.
  intros [] Hn. split; try done; [lia|]. destruct upd_table0 as [|]; [by left|right; lia].
Qed.

Lemma or_default_spec (x : option (Arc (gmap K V))) n :
  wp (or_default x) (fun a n' => (n <= n')%N /\ deref a = shard_of x
                                 /\ (x = Some a \/ (n <= ptr a < n')%N)) n.
Proof.
  destruct x as [a|]; unfold wp; simpl; [split_and!; [lia|done|by left]|].
  split_and!; [lia|done|right; lia].
Qed.

Lemma dirty_mut_spec {A} self at_ (f : gmap K V -> A * gmap K V) n :
  small at_ -> shaped self -> wp (dirty_mut self at_ f) (written f n self at_) n.
Proof.
  intros Hat Hs. unfold dirty_mut.
  apply (wp_seq (fun a n0 => (n <= n0)%N /\ deref a = shard_of (held_shard self at_))).
  { replace (match dirty self !! as_u32 at_ with Some shard => ret shard | None => _ end)
      with (or_default (held_shard self at_))
      by (unfold held_shard, or_default; by destruct (dirty self !! as_u32 at_)).
    eapply wp_mono; [apply or_default_spec|]. intros a n' (? & ? & _). done. }
  intros a n0 [Hn Ha]. unfold wp, make_mut, Arc_new, bind, ret. simpl.
  rewrite Ha. split; [done|]. exists n0. split; [lia|]. simpl.
  by apply updated_later with n0, Hn; apply updated_dirty; [..|lia].
Qed.

Lemma shard_mut_spec {A} self at_ (f : gmap K V -> A * gmap K V) n :
  small at_ -> shaped self -> wp (shard_mut self at_ f) (written f n self at_) n.
Proof.
  intros Hat Hs. unfold shard_mut.
  destruct (negb (forked self) && _) eqn:Hc; [|by apply dirty_mut_spec].
  apply andb_true_iff in Hc as [_ Hd]. apply negb_true_iff, bool_decide_eq_false in Hd.
  apply eq_None_not_Some in Hd.
  destruct (lookup_lt_is_Some_2 (grown self at_) at_ (grown_has _ _)) as [old Hold].
  apply wp_bind, (wp_unwrap _ old); [done|].
  assert (Hold' : old = held_shard self at_).
  { rewrite held_no_dirty by done. rewrite <- (grown_lookup self at_ at_), Hold. done. }
  subst old.
  apply (wp_seq (fun a n0 => (n <= n0)%N /\ deref a = shard_of (held_shard self at_))).
  { eapply wp_mono; [apply or_default_spec|]. intros a n' (? & ? & _). done. }
  intros a n0 [Hn Ha]. apply wp_bind. unfold make_mut, Arc_new. unfold wp at 1, bind at 1, ret at 1.
  rewrite Ha. apply wp_bind. eapply wp_mono; [by apply replace_slot_spec|].
  intros [old self'] n1 (_ & _ & _ & Hu). apply wp_ret.
  split; [done|]. exists n0. split; [destruct Hu; lia|]. simpl.
  by apply updated_later with (N.succ n0); [|lia].
Qed.

(** ** A map and its forks *)

Definition below (n : N) self : Prop :=
  (forall at_ a, small at_ -> held_shard self at_ = Some a -> (ptr a < n)%N)
  /\ (ptr (slots self) < n)%N.

Definition coherent frozen self : Prop :=
  forall at_, small at_ -> same_shard (held_shard frozen at_) (held_shard self at_) = true ->
    shard_of (held_shard frozen at_) = shard_of (held_shard self at_).

(** With the table of [frozen] every slot that is not kept apart is its slot. *)
Definition derived frozen self : Prop :=
  ptr_eq (slots self) (slots frozen) = true ->
  forall at_, small at_ -> as_u32 at_ ∉ dom (dirty self) -> held_shard self at_ = held_shard frozen at_.

(** [self] holds [σ], and what it shares with [frozen] is unchanged. *)
Record branch frozen (n : N) self (σ : nat -> gmap K V) : Prop := {
  br_shaped : shaped self;
  br_frozen : below n frozen;
  br_below : below n self;
  br_coherent : coherent frozen self;
  br_derived : derived frozen self;
  br_repr : repr self σ
}.

Lemma branch_ext frozen n self σ σ' :
  branch frozen n self σ -> (forall a, small a -> σ a = σ' a) -> branch frozen n self σ'.
Proof. intros [] Hσ. split; try done. intros a Ha. rewrite br_repr0, Hσ; done. Qed.

Lemma below_later n n' self : below n self -> (n <= n')%N -> below n' self.
Proof. intros [Hh Ht] Hn. split; [|lia]. intros a x Ha Hx. specialize (Hh a x Ha Hx). lia. Qed.

Lemma branch_later frozen n n' self σ :
  branch frozen n self σ -> (n <= n')%N -> branch frozen n' self σ.
Proof. intros [] Hn. split; try done; by eapply below_later. Qed.

(** What may be put into a slot: what was there, nothing, or a new shard. *)
Definition fresh n n' (old x : option (Arc (gmap K V))) : Prop :=
  x = old \/ x = None \/ exists a, x = Some a /\ (n <= ptr a < n')%N.

Lemma coherent_at n frozen (old x : option (Arc (gmap K V))) n' at_ :
  below n frozen -> small at_ -> fresh n n' old x ->
  (same_shard (held_shard frozen at_) old = true -> shard_of (held_shard frozen at_) = shard_of old) ->
  same_shard (held_shard frozen at_) x = true ->
  shard_of (held_shard frozen at_) = shard_of x.
Proof.
  intros [Hf _] Hat [->|[->|(a & -> & Ha)]] Hold; [done| |].
  - by destruct (held_shard frozen at_).
  - destruct (held_shard frozen at_) as [b|] eqn:Hb; [|done].
    specialize (Hf _ _ Hat Hb). intros Hs. apply N.eqb_eq in Hs. lia.
Qed.

Lemma branch_updated frozen n self σ at_ x n' self' :
  branch frozen n self σ -> small at_ -> updated n self at_ x n' self' ->
  (forall a, x = Some a -> (ptr a < n')%N) ->
  (same_shard (held_shard frozen at_) x = true ->
   shard_of (held_shard frozen at_) = shard_of x) ->
  branch frozen n' self' (fun a => if decide (a = at_) then shard_of x else σ a).
Proof.
  intros [Hs Hf [Hb Hbt] Hc Hd Hr] Hat [Hn Hs' _ Hx Ho Ht] Hxb Hxc.
  split; [done|by eapply below_later| | | |].
  - split.
    + intros a b Ha. destruct (decide (a = at_)) as [->|Hne].
      * rewrite Hx. apply Hxb.
      * rewrite Ho by done. intros Hab. specialize (Hb _ _ Ha Hab). lia.
    + destruct Ht as [[-> _]|]; lia.
  - intros a Ha. destruct (decide (a = at_)) as [->|Hne].
    + by rewrite Hx.
    + rewrite Ho by done. by apply Hc.
  - intros Hp a Ha Ha'. destruct Ht as [[Ht Hdom]|Ht].
    + rewrite Ht in Hp. rewrite Hdom in Ha'.
      assert (a <> at_) by (intros ->; set_solver).
      rewrite Ho by done. apply Hd; [done|done|set_solver].
    + apply N.eqb_eq in Hp. destruct Hf as [_ Hf]. lia.
  - intros a Ha. case_decide as Heq; [by subst a; rewrite Hx|]. rewrite Ho by done. by apply Hr.
Qed.

Lemma branch_shard_mut {A} frozen self σ at_ (f : gmap K V -> A * gmap K V) n :
  branch frozen n self σ -> small at_ ->
  wp (shard_mut self at_ f)
    (fun r n' => r.1 = (f (σ at_)).1
       /\ branch frozen n' r.2 (fun a => if decide (a = at_) then (f (σ at_)).2 else σ a)) n.
Proof.
  intros Hb Hat. eapply wp_mono; [by apply shard_mut_spec, Hb|].
  intros [a self'] n' [Ha (p & Hp & Hu)]. simpl in *.
  rewrite (br_repr _ _ _ _ Hb) in Ha, Hu by done. split; [done|].
  eapply (branch_updated _ _ _ _ _ _ _ _ Hb) in Hu; [done|done|by intros ? [= <-]; simpl; lia|].
  apply (coherent_at n _ (held_shard self at_) _ n'); [apply Hb|done| |by apply Hb].
  right. right. eexists. split; [done|]. done.
Qed.

(** *** Access by key *)

Lemma slice_partial_alter m (g : option V -> option V) k a :
  slice (partial_alter g k m) a
  = if decide (a = slot_of k) then partial_alter g k (slice m (slot_of k)) else slice m a.
Proof.
  apply map_eq. intros k'. rewrite slice_lookup. destruct (decide (k' = k)) as [->|Hne].
  - rewrite lookup_partial_alter_eq. repeat case_decide; subst; try congruence.
    + rewrite lookup_partial_alter_eq, slice_lookup, decide_True; done.
    + rewrite slice_lookup, decide_False; done.
  - rewrite lookup_partial_alter_ne by done. case_decide as Ha.
    + destruct (decide (a = slot_of k)); [rewrite lookup_partial_alter_ne by done; subst a|];
        rewrite slice_lookup, decide_True; done.
    + destruct (decide (a = slot_of k)); [rewrite lookup_partial_alter_ne by done; subst a|];
        rewrite slice_lookup, decide_False; done.
Qed.

(** [entry], [insert], [remove] and [get_mut] change one key of the map. *)
Lemma branch_alter frozen self m n (g : option V -> option V) k :
  branch frozen n self (slice m) ->
  wp (shard_mut self (slot_of k) (fun s => (s !! k, partial_alter g k s)))
    (fun r n' => r.1 = m !! k /\ branch frozen n' r.2 (slice (partial_alter g k m))) n.
Proof.
  intros Hb. eapply wp_mono; [by apply branch_shard_mut; [|apply small_slots]|].
  intros [a self'] n' [Ha Hb']. simpl in *.
  rewrite slice_lookup, decide_True in Ha by done. split; [done|].
  eapply branch_ext; [done|]. intros b _. by rewrite slice_partial_alter.
Qed.

Lemma branch_holding frozen self m n (g : option V -> option V) k :
  g None = None -> branch frozen n self (slice m) ->
  wp (holding_shard_mut self k (fun s => (s !! k, partial_alter g k s)))
    (fun r n' => r.1 = m !! k /\ branch frozen n' r.2 (slice (partial_alter g k m))) n.
Proof.
  intros Hg Hb.
  assert (Habsent : m !! k = None -> forall r, r = (None, self) ->
            wp (ret r) (fun r n' => r.1 = m !! k
              /\ branch frozen n' r.2 (slice (partial_alter g k m))) n).
  { intros Hk r ->. apply wp_ret. split; [done|].
    replace (partial_alter g k m) with m; [done|].
    apply map_eq. intros i. destruct (decide (i = k)) as [->|].
    - by rewrite lookup_partial_alter_eq, Hk.
    - by rewrite lookup_partial_alter_ne. }
  pose proof (repr_get self m k (br_repr _ _ _ _ Hb)) as Hget. unfold get in Hget.
  unfold holding_shard_mut. destruct (shard self (slot_of k)) as [s|]; simpl in Hget.
  - destruct (forked self && _) eqn:Hc; [|by apply branch_alter].
    apply andb_true_iff in Hc as [_ Hc]. apply negb_true_iff, bool_decide_eq_false in Hc.
    apply Habsent; [|done]. rewrite <- Hget. by apply eq_None_not_Some.
  - by apply Habsent.
Qed.

(** *** Maps built anew *)

Lemma branch_empty frozen n (table : Arc (list (option (Arc (gmap K V))))) (f : bool) n' :
  below n frozen -> (n <= ptr table < n')%N -> deref table = [] ->
  branch frozen n' (mkShards table ∅ f) (slice ∅).
Proof.
  intros Hf Hp Ht.
  assert (Hh : forall a, held_shard (mkShards table ∅ f) a = None)
    by (intros a; unfold held_shard; simpl; by rewrite lookup_empty, Ht).
  split.
  - split; simpl; [rewrite Ht; simpl; lia|]. intros slot b. by rewrite lookup_empty.
  - eapply below_later; [done|lia].
  - split; [|simpl; lia]. intros a b _. by rewrite Hh.
  - intros a _. rewrite Hh. by destruct (held_shard frozen a).
  - intros Hs. apply N.eqb_eq in Hs. simpl in Hs. destruct Hf as [_ Hf]. lia.
  - intros a _. rewrite Hh. simpl. symmetry. apply map_eq. intros k.
    rewrite slice_lookup, !lookup_empty. by case_decide.
Qed.

Lemma branch_clear frozen n self :
  below n frozen -> wp (clear self) (fun self' n' => branch frozen n' self' (slice ∅)) n.
Proof.
  intros Hf. unfold clear, wp, bind, Arc_new, ret.
  eapply (branch_empty _ n); [done|simpl; lia|done].
Qed.

Lemma branch_default frozen n :
  below n frozen -> wp default (fun self' n' => branch frozen n' self' (slice ∅)) n.
Proof.
  intros Hf. unfold default, wp, bind, Arc_new, ret.
  eapply (branch_empty _ n); [done|simpl; lia|done].
Qed.

Lemma branch_fork frozen n self σ :
  branch frozen n self σ -> branch frozen n (CowShards.fork self) σ.
Proof. by intros []. Qed.

(** A map in use branches off itself. *)
Lemma branch_refl frozen n self σ : branch frozen n self σ -> branch self n self σ.
Proof. intros [Hs Hf Hb Hc Hd Hr]. split; try done. Qed.

(** *** Folding *)

Definition folded (x : option (Arc (gmap K V))) : option (Arc (gmap K V)) :=
  match x with
  | Some a => if bool_decide (deref a = ∅) then None else Some a
  | None => None
  end.

Lemma folded_shard x : shard_of (folded x) = shard_of x.
Proof. destruct x as [a|]; [|done]. simpl. by case_bool_decide as Ha. Qed.

(** The state of [fold_dirty] after the shards [l]. *)
Record folding self n (l : list (N * Arc (gmap K V))) self' n' : Prop := {
  fo_next : (n <= n')%N;
  fo_shaped : shaped self';
  fo_dirty : dirty self' = ∅;
  fo_done a x : small a -> (as_u32 a, x) ∈ l -> held_shard self' a = folded (Some x);
  fo_rest a : small a -> (forall x, (as_u32 a, x) ∉ l) ->
    held_shard self' a = mjoin (deref (slots self) !! a);
  fo_table : l = [] \/ (n <= ptr (slots self') < n')%N
}.

Lemma fold_shard_step self n l slot x self' n' :
  (slot < 4294967296)%N -> (forall y, (slot, y) ∉ l) ->
  folding self n l self' n' ->
  wp (fold_shard self' (N.to_nat slot) x) (folding self n (l ++ [(slot, x)])) n'.
Proof.
  intros Hslot Hnew [Hn Hs Hd Hdone Hrest _].
  assert (Hsmall : small (N.to_nat slot)) by (unfold small; lia).
  assert (Hu : as_u32 (N.to_nat slot) = slot) by (rewrite as_u32_fits by done; lia).
  unfold fold_shard. apply wp_bind.
  eapply wp_mono; [apply replace_slot_spec; [done|done|by rewrite Hd]|].
  intros [old self2] n2 (_ & Hd2 & Hp & [Hn2 Hs2 _ Hat Hother _]). simpl in *. apply wp_ret.
  split; [lia|done|by rewrite Hd2| | |right; lia].
  - intros a y Ha. rewrite elem_of_app, list_elem_of_singleton. intros [Hl|[= Hay <-]].
    + rewrite Hother; [by apply Hdone|done|]. intros ->. rewrite Hu in Hl. by eapply Hnew.
    + assert (a = N.to_nat slot) as -> by (rewrite as_u32_fits in Hay by done; lia). exact Hat.
  - intros a Ha Hl. rewrite Hother.
    + apply Hrest; [done|]. intros y Hy. apply (Hl y), elem_of_app. by left.
    + done.
    + intros ->. apply (Hl x). rewrite Hu, elem_of_app, list_elem_of_singleton. by right.
Qed.

Lemma fold_dirty_spec self n :
  shaped self ->
  wp (fold_dirty self)
    (fun self' n' => self' = self /\ n' = n
       \/ dirty self' = ∅ /\ (n <= ptr (slots self') < n')%N /\ shaped self'
          /\ forall a, small a -> held_shard self' a = held_shard self a
                            \/ held_shard self' a = folded (held_shard self a)) n.
Proof.
  intros Hs. unfold fold_dirty. case_if; [apply wp_ret; by left|].
  apply orb_false_iff in Heqb as [_ Hne]. apply bool_decide_eq_false in Hne.
  apply (wp_for_each (folding self n)).
  - intros l [slot x] rest self' n' Hl Hfo. simpl.
    assert (Hx : dirty self !! slot = Some x).
    { apply elem_of_map_to_list. rewrite Hl. set_solver. }
    apply fold_shard_step; [by eapply Hs| |done].
    intros y Hy. pose proof (NoDup_fst_map_to_list (dirty self)) as Hnd.
    rewrite Hl, fmap_app in Hnd. apply NoDup_app in Hnd as (_ & Hnd & _).
    apply (Hnd slot); [by apply (list_elem_of_fmap_2 fst _ (slot, y))|set_solver].
  - intros self' n' [Hn Hs' Hd Hdone Hrest Ht]. right. split_and!; [done| | |done|].
    1,2: destruct Ht as [Ht|]; [|lia]; apply map_to_list_empty_iff in Ht; done.
    intros a Ha. destruct (dirty self !! as_u32 a) as [x|] eqn:Hx.
    + right. rewrite (Hdone a x Ha) by by apply elem_of_map_to_list.
      unfold held_shard at 1. by rewrite Hx.
    + left. rewrite (Hrest a Ha).
      * by rewrite held_no_dirty.
      * intros y Hy. apply elem_of_map_to_list in Hy. congruence.
  - split; [lia| |done| |done|by left].
    + split; [apply Hs|]. simpl. intros slot b. by rewrite lookup_empty.
    + set_solver.
Qed.

Lemma branch_flatten frozen self σ n :
  branch frozen n self σ -> wp (fold_dirty self) (fun self' n' => branch frozen n' self' σ) n.
Proof.
  intros Hb. eapply wp_mono; [by apply fold_dirty_spec, Hb|].
  intros self' n' [[-> ->]|(Hd' & Hp & Hs' & Hh)]; [done|].
  destruct Hb as [Hs Hf [Hb Hbt] Hc Hd Hr].
  assert (Hfresh : forall a, small a -> fresh n n' (held_shard self a) (held_shard self' a)).
  { intros a Ha. destruct (Hh a Ha) as [->| ->]; [by left|].
    destruct (held_shard self a) as [x|]; simpl; [|by left].
    case_bool_decide; [by right; left|by left]. }
  assert (Hsh : forall a, small a -> shard_of (held_shard self' a) = shard_of (held_shard self a)).
  { intros a Ha. destruct (Hh a Ha) as [->| ->]; [done|apply folded_shard]. }
  split; [done|eapply below_later; [done|lia]| | | |].
  - split; [|lia]. intros a x Ha Hx. destruct (Hfresh a Ha) as [Ho|[Ho|(y & Hy & ?)]].
    + rewrite Ho in Hx. specialize (Hb a x Ha Hx). lia.
    + congruence.
    + rewrite Hy in Hx. injection Hx as <-. lia.
  - intros a Ha. eapply coherent_at; eauto.
  - intros He. apply N.eqb_eq in He. destruct Hf as [_ Hf]. lia.
  - intros a Ha. rewrite Hsh by done. by apply Hr.
Qed.

(** *** Iteration *)

Lemma held_end self a : small a -> shaped self -> is_Some (held_shard self a) -> a < end_ self.
Proof.
  intros Ha Hs Hh. unfold end_.
  assert (Hmax : forall l x, x ∈ l -> forall b, x <= foldr Nat.max b l /\ b <= foldr Nat.max b l)
    by (induction l as [|y l IH]; intros x Hx b; [set_solver|];
        apply elem_of_cons in Hx as [->|Hx]; simpl;
        [|destruct (IH x Hx b); lia]; split; [lia|]; clear; induction l; simpl; lia).
  unfold held_shard in Hh. destruct (dirty self !! as_u32 a) as [x|] eqn:Hx.
  - enough (a + 1 <= foldr Nat.max (length (deref (slots self)))
                       (map (fun slot => N.to_nat slot.1 + 1) (map_to_list (dirty self)))) by lia.
    apply Hmax. apply list_elem_of_fmap. exists (as_u32 a, x). simpl.
    split; [rewrite as_u32_fits by done; lia|]. by apply elem_of_map_to_list.
  - enough (length (deref (slots self)) <= foldr Nat.max (length (deref (slots self)))
                       (map (fun slot => N.to_nat slot.1 + 1) (map_to_list (dirty self)))).
    { destruct Hh as [x Hh]. destruct (deref (slots self) !! a) eqn:Hl; [|done].
      apply lookup_lt_Some in Hl. lia. }
    clear. generalize (map (fun slot : N * Arc (gmap K V) => N.to_nat slot.1 + 1) (map_to_list (dirty self))).
    intros l. induction l; simpl; lia.
Qed.

Lemma end_small self a : shaped self -> a < end_ self -> small a.
Proof.
  intros [Hl Hd]. unfold end_, small.
  assert (Hm : forall l b, (N.of_nat b <= 4294967296)%N ->
      Forall (fun x => N.of_nat x <= 4294967296)%N l -> (N.of_nat (foldr Nat.max b l) <= 4294967296)%N).
  { intros l b Hb. induction 1; simpl; lia. }
  intros Ha. enough (N.of_nat (foldr Nat.max (length (deref (slots self)))
      (map (fun slot => N.to_nat slot.1 + 1)%nat (map_to_list (dirty self)))) <= 4294967296)%N by lia.
  apply Hm; [done|]. apply Forall_map, Forall_forall. intros [slot x] Hx.
  apply elem_of_map_to_list in Hx. specialize (Hd _ _ Hx). simpl. lia.
Qed.

Lemma shards_iter self m l :
  repr self (slice m) -> (forall a, a ∈ l -> small a) -> NoDup l ->
  NoDup (concat (map map_to_list (omap (shard self) l)))
  /\ forall k v, (k, v) ∈ concat (map map_to_list (omap (shard self) l))
       <-> m !! k = Some v /\ slot_of k ∈ l.
Proof.
  intros Hr Hl. induction l as [|a l IH]; intros Hnd; simpl.
  { split; [constructor|]. intros k v. split; [by intros Hk%elem_of_nil|].
    by intros [_ Hk%elem_of_nil]. }
  apply NoDup_cons in Hnd as [Ha Hnd].
  destruct IH as [Hnd' Hin]; [set_solver|done|].
  assert (Hslice : forall k v, slice m a !! k = Some v <-> m !! k = Some v /\ slot_of k = a).
  { intros k v. rewrite slice_lookup. case_decide; naive_solver. }
  assert (Hra := Hr a ltac:(apply Hl; set_solver)).
  rewrite shard_held. destruct (held_shard self a) as [s|]; simpl in *.
  - split.
    + apply NoDup_app. split_and!; [apply NoDup_map_to_list| |done].
      intros [k v] Hk Hk'. apply elem_of_map_to_list in Hk. rewrite Hra in Hk.
      apply Hslice in Hk as [_ <-]. apply Hin in Hk' as [_ ?]. done.
    + intros k v. rewrite elem_of_app, elem_of_map_to_list, Hra, Hslice, Hin, elem_of_cons. naive_solver.
  - split; [done|]. intros k v. rewrite Hin, elem_of_cons.
    split; [naive_solver|]. intros [Hk [Heq|]]; [|done].
    assert (Hs : slice m a !! k = Some v) by (by apply Hslice).
    rewrite <- Hra, lookup_empty in Hs. done.
Qed.

(** The slot of a key of the map is visited. *)
Lemma slot_visited self m k v :
  shaped self -> repr self (slice m) -> m !! k = Some v -> slot_of k ∈ seq 0 (end_ self).
Proof.
  intros Hs Hr Hk. apply elem_of_seq. split; [lia|]. apply held_end; [apply small_slots|done|].
  destruct (held_shard self (slot_of k)) as [s|] eqn:Hh; [done|].
  specialize (Hr _ (small_slots k)). rewrite Hh in Hr. simpl in Hr.
  assert (Hn : slice m (slot_of k) !! k = None) by (by rewrite <- Hr, lookup_empty).
  rewrite slice_lookup, decide_True in Hn by done. congruence.
Qed.

Lemma iter_map_to_list self m :
  shaped self -> repr self (slice m) -> iter self ≡ₚ map_to_list m.
Proof.
  intros Hs Hr.
  destruct (shards_iter self m (seq 0 (end_ self)) Hr) as [Hnd Hin].
  - intros a Ha%elem_of_seq. apply (end_small self); [done|lia].
  - apply NoDup_seq.
  - apply NoDup_Permutation; [done|apply NoDup_map_to_list|]. intros [k v].
    unfold iter, shards. rewrite Hin, elem_of_map_to_list. split; [naive_solver|].
    intros Hk. split; [done|]. by eapply slot_visited.
Qed.

Lemma len_size self m : shaped self -> repr self (slice m) -> len self = size m.
Proof.
  intros Hs Hr. rewrite <- length_map_to_list, <- (iter_map_to_list self m) by done.
  unfold len, iter. induction (shards self) as [|s l IH]; simpl; [done|].
  by rewrite length_app, IH, length_map_to_list.
Qed.

Lemma is_empty_spec self m :
  shaped self -> repr self (slice m) -> is_empty self = bool_decide (m = ∅).
Proof.
  intros Hs Hr. apply eq_bool_prop_intro. rewrite bool_decide_spec.
  assert (Hm : m = ∅ <-> iter self = []).
  { pose proof (iter_map_to_list self m Hs Hr) as Hp.
    split; intros Hn; rewrite Hn in Hp.
    - rewrite map_to_list_empty in Hp. by apply Permutation_nil_r in Hp.
    - apply Permutation_nil_l in Hp. by apply map_to_list_empty_iff. }
  rewrite Hm. unfold is_empty, iter. clear.
  induction (shards self) as [|s l IH]; simpl; [done|].
  rewrite andb_True, IH, bool_decide_spec, app_nil, map_to_list_empty_iff. done.
Qed.

Lemma eqb_spec self other m1 m2 :
  shaped self -> repr self (slice m1) -> shaped other -> repr other (slice m2) ->
  forall `{!EqDecision V}, eqb self other = bool_decide (m1 = m2).
Proof.
  intros Hs1 Hr1 Hs2 Hr2 HeqV. apply eq_bool_prop_intro. rewrite bool_decide_spec. unfold eqb.
  rewrite andb_True, (len_size self m1), (len_size other m2) by done.
  assert (Hall : forallb (fun e => bool_decide (get other e.1 = Some e.2)) (iter self)
                 <-> m1 ⊆ m2).
  { rewrite forallb_True, Forall_forall, map_subseteq_spec. split.
    - intros Hf k v Hk. rewrite <- (repr_get other m2 k Hr2).
      apply (bool_decide_unpack (get other k = Some v)), (Hf (k, v)).
      rewrite iter_map_to_list by done. by apply elem_of_map_to_list.
    - intros Hsub [k v] Hk. rewrite iter_map_to_list in Hk by done.
      apply elem_of_map_to_list in Hk. apply bool_decide_pack. simpl.
      rewrite (repr_get other m2 k Hr2). by apply Hsub. }
  rewrite Hall. split; [|by intros ->; split; [by apply Is_true_true, Nat.eqb_eq|]].
  intros [Hlen Hsub]. apply Is_true_true, Nat.eqb_eq in Hlen.
  apply map_subseteq_size_eq; [done|lia].
Qed.

(** *** Writes to all entries *)

Lemma branch_each frozen (f : gmap K V -> gmap K V) l self σ n :
  NoDup l -> (forall a, a ∈ l -> small a) -> branch frozen n self σ ->
  wp (for_each (fun self at_ => let* (_, self) := shard_mut self at_ (fun s => (tt, f s)) in ret self)
        l self)
    (fun self' n' => branch frozen n' self' (fun a => if decide (a ∈ l) then f (σ a) else σ a)) n.
Proof.
  intros Hnd Hsm Hb.
  apply (wp_for_each (fun l0 self' n' =>
           branch frozen n' self' (fun a => if decide (a ∈ l0) then f (σ a) else σ a))); [|done|].
  - intros l0 a rest self' n' Hl Hb'. apply wp_bind.
    eapply wp_mono; [apply branch_shard_mut; [done|apply Hsm; rewrite Hl; set_solver]|].
    intros [[] self2] n2 [_ Hb2]. apply wp_ret. eapply branch_ext; [done|]. intros b _. simpl.
    rewrite Hl in Hnd. apply NoDup_app in Hnd as (_ & Hnd & _).
    assert (a ∉ l0) by (intros Ha; apply (Hnd a Ha); set_solver).
    destruct (decide (b = a)) as [->|].
    + rewrite (decide_False (P := a ∈ l0)), decide_True by set_solver. done.
    + repeat case_decide; try done; set_solver.
  - eapply branch_ext; [done|]. intros a _. rewrite decide_False; [done|]. apply not_elem_of_nil.
Qed.

Lemma populated_spec self a :
  shaped self -> small a -> a ∉ populated self -> shard_of (held_shard self a) = ∅.
Proof.
  intros Hs Ha Hp. destruct (held_shard self a) as [s|] eqn:Hh; [|done].
  destruct (decide (deref s = ∅)) as [|Hne]; [done|]. exfalso. apply Hp.
  unfold populated. apply list_elem_of_filter. split.
  - rewrite shard_held, Hh. simpl. by apply bool_decide_pack.
  - apply elem_of_seq. split; [lia|]. apply held_end; [done|done|]. by rewrite Hh.
Qed.

Lemma branch_writable frozen (f : gmap K V -> gmap K V) self m m' n :
  f ∅ = ∅ -> (forall a, slice m' a = f (slice m a)) -> branch frozen n self (slice m) ->
  wp (writable_shards self f) (fun self' n' => branch frozen n' self' (slice m')) n.
Proof.
  intros Hf Hm Hb. unfold writable_shards.
  eapply wp_seq; [by apply branch_flatten|]. intros self1 n1 Hb1. simpl.
  assert (Hsm : forall a, a ∈ populated self1 -> small a).
  { intros a Ha. apply list_elem_of_filter in Ha as [_ Ha%elem_of_seq].
    apply (end_small self1); [apply Hb1|lia]. }
  assert (Hnd : NoDup (populated self1)) by apply NoDup_filter, NoDup_seq.
  eapply wp_seq; [exact (branch_each frozen (fun s => s) _ _ _ _ Hnd Hsm Hb1)|]. intros self2 n2 Hb2.
  eapply wp_mono; [exact (branch_each frozen f _ _ _ _ Hnd Hsm Hb2)|]. intros self3 n3 Hb3.
  eapply branch_ext; [exact Hb3|]. intros a Ha. simpl. rewrite Hm.
  destruct (decide (a ∈ populated self1)) as [Hin|Hin]; [done|].
  rewrite <- (br_repr _ _ _ _ Hb1), populated_spec, Hf; [done|apply Hb1|done|done|done].
Qed.

Lemma slice_map_imap (g : K -> V -> option V) m a :
  slice (map_imap g m) a = map_imap g (slice m a).
Proof.
  apply map_eq. intros k. rewrite slice_lookup, !map_lookup_imap, slice_lookup.
  by case_decide.
Qed.

Lemma branch_map_imap frozen (g : K -> V -> option V) self m n :
  branch frozen n self (slice m) ->
  wp (writable_shards self (map_imap g)) (fun self' n' => branch frozen n' self' (slice (map_imap g m))) n.
Proof.
  intros Hb. apply (branch_writable _ _ _ m); [apply map_imap_empty| |done].
  intros a. apply slice_map_imap.
Qed.

Lemma branch_extend frozen self m es n :
  branch frozen n self (slice m) ->
  wp (extend self es)
    (fun self' n' => branch frozen n' self' (slice (foldl (fun m e => <[e.1 := e.2]> m) m es))) n.
Proof.
  intros Hb. unfold extend.
  apply (wp_for_each (fun es0 self' n' =>
           branch frozen n' self' (slice (foldl (fun m e => <[e.1 := e.2]> m) m es0)))); [|done|done].
  intros es0 [k v] rest self' n' _ Hb'. apply wp_bind.
  eapply wp_mono; [exact (branch_alter _ _ _ _ (fun _ => Some v) k Hb')|].
  intros [old self2] n2 [_ Hb2]. apply wp_ret. by rewrite foldl_app.
Qed.

(** ** Installs *)

Section Merge.
Context `{!EqDecision V}.
Variable merge : option (CopyOnWrite.Merge V).

(** What an install makes of one key: [before] is the value that the fork
    found, [now] the value in the map, [value] the one that the fork left. *)
Definition three_way (before now value : option V) : bool * option V :=
  if bool_decide (value = before) then (false, now)
  else if bool_decide (now = before) then (false, value)
  else match merge with
       | Some merge =>
           match merge now before value with
           | (merged, Ok _) => (false, merged)
           | (_, Err _) => (bool_decide (now <> value), value)
           end
       | None => (bool_decide (now <> value), value)
       end.

Lemma three_way_unchanged before now : three_way before now before = (false, now).
Proof. unfold three_way. by rewrite bool_decide_eq_true_2. Qed.

Lemma three_way_ours before value : three_way before before value = (false, value).
Proof.
  unfold three_way. case_bool_decide as Hv; [by rewrite Hv|]. by rewrite bool_decide_eq_true_2.
Qed.

Lemma changed_keys_of_in (was forked : gmap K V) k :
  k ∈ changed_keys_of was forked <-> forked !! k <> was !! k.
Proof.
  unfold changed_keys_of. rewrite elem_of_app, list_elem_of_filter, !list_elem_of_fmap. split.
  - intros [([k' v] & -> & Hv)|(Hf & [k' v] & -> & Hv)].
    + apply list_elem_of_filter in Hv as [Hne Hv%elem_of_map_to_list]. simpl in *. congruence.
    + apply elem_of_map_to_list in Hv. simpl in *. congruence.
  - intros Hne. destruct (forked !! k) as [v|] eqn:Hf.
    + left. exists (k, v). split; [done|]. apply list_elem_of_filter. simpl.
      split; [congruence|]. by apply elem_of_map_to_list.
    + right. split; [done|]. destruct (was !! k) as [v|] eqn:Hw; [|done].
      exists (k, v). split; [done|]. by apply elem_of_map_to_list.
Qed.

Lemma NoDup_keys_filter (P : K * V -> Prop) `{!forall x, Decision (P x)} (m : gmap K V) :
  NoDup (map fst (filter P (map_to_list m))).
Proof.
  eapply sublist_NoDup; [apply (NoDup_fst_map_to_list m)|]. apply fmap_sublist, sublist_filter.
Qed.

Lemma changed_keys_of_NoDup (was forked : gmap K V) : NoDup (changed_keys_of was forked).
Proof.
  unfold changed_keys_of. apply NoDup_app. split_and!.
  - apply NoDup_keys_filter.
  - intros k Hk Hk'. apply list_elem_of_filter in Hk' as [Hn _].
    apply list_elem_of_fmap in Hk as ([k' v] & -> & Hv).
    apply list_elem_of_filter in Hv as [_ Hv%elem_of_map_to_list]. simpl in *. congruence.
  - apply NoDup_filter, NoDup_fst_map_to_list.
Qed.

Lemma install_key_spec (was forked target : gmap K V) c k :
  forked !! k <> was !! k ->
  install_key merge was forked (c, target) k
  = (c || (three_way (was !! k) (target !! k) (forked !! k)).1,
     partial_alter (fun _ => (three_way (was !! k) (target !! k) (forked !! k)).2) k target).
Proof.
  intros Hne. unfold install_key, three_way. rewrite (bool_decide_eq_false_2 (forked !! k = _)) by done.
  case_bool_decide as Hnow; [by rewrite orb_false_r|].
  destruct merge as [mg|].
  - destruct (mg _ _ _) as [merged [[]|[]]]; simpl; [by rewrite orb_false_r|].
    by rewrite bool_decide_not.
  - rewrite bool_decide_not. case_bool_decide as Hid; simpl; [|by rewrite orb_true_r].
    rewrite orb_false_r. f_equal. rewrite <- Hid. symmetry. apply partial_alter_self.
Qed.

Lemma install_keys_fold (was forked : gmap K V) keys c target :
  NoDup keys -> (forall k, k ∈ keys -> forked !! k <> was !! k) ->
  let tw k := three_way (was !! k) (target !! k) (forked !! k) in
  let r := foldl (install_key merge was forked) (c, target) keys in
  (forall k, r.2 !! k = if decide (k ∈ keys) then (tw k).2 else target !! k)
  /\ (r.1 = true <-> c = true \/ exists k, k ∈ keys /\ (tw k).1 = true).
Proof.
  revert c target. induction keys as [|k0 keys IH]; intros c target Hnd Hne; cbv zeta; cbn [foldl].
  - split; [intros k; by rewrite decide_False by apply not_elem_of_nil|].
    split; [by left|]. intros [|(k & Hk & _)]; [done|]. by apply elem_of_nil in Hk.
  - apply NoDup_cons in Hnd as [Hk0 Hnd]. rewrite install_key_spec by (apply Hne; set_solver).
    destruct (IH (c || (three_way (was !! k0) (target !! k0) (forked !! k0)).1)
               (partial_alter (fun _ => (three_way (was !! k0) (target !! k0) (forked !! k0)).2) k0 target))
      as [H2 H1]; [done|set_solver|]. split.
    + intros k. rewrite H2. destruct (decide (k = k0)) as [->|Hk].
      * rewrite decide_False, lookup_partial_alter_eq, decide_True by set_solver. done.
      * rewrite lookup_partial_alter_ne by done.
        destruct (decide (k ∈ keys)); [rewrite decide_True|rewrite decide_False]; set_solver.
    + rewrite H1, orb_true_iff. setoid_rewrite elem_of_cons. split.
      * intros [[?|?]|(k & Hk & Ht)]; [by left|by right; exists k0; auto|].
        right. exists k. rewrite lookup_partial_alter_ne in Ht by (intros ->; done). auto.
      * intros [?|(k & [->|Hk] & Ht)]; [by left; left|by left; right|].
        right. exists k. rewrite lookup_partial_alter_ne by (intros ->; done). auto.
Qed.

Lemma install_keys_lookup (was forked target : gmap K V) k :
  (install_keys merge was forked target).2 !! k
  = (three_way (was !! k) (target !! k) (forked !! k)).2.
Proof.
  destruct (install_keys_fold was forked (changed_keys_of was forked) false target) as [H2 _];
    [apply changed_keys_of_NoDup|intros k'; by apply changed_keys_of_in|].
  unfold install_keys. rewrite H2. case_decide as Hk; [done|].
  rewrite changed_keys_of_in in Hk. apply dec_stable in Hk. by rewrite Hk, three_way_unchanged.
Qed.

Lemma install_keys_conflict (was forked target : gmap K V) :
  (install_keys merge was forked target).1 = true
  <-> exists k, (three_way (was !! k) (target !! k) (forked !! k)).1 = true.
Proof.
  destruct (install_keys_fold was forked (changed_keys_of was forked) false target) as [_ H1];
    [apply changed_keys_of_NoDup|intros k'; by apply changed_keys_of_in|].
  unfold install_keys. rewrite H1. split; [naive_solver|].
  intros [k Hk]. right. exists k. split; [|done]. apply changed_keys_of_in.
  intros Heq. by rewrite Heq, three_way_unchanged in Hk.
Qed.

(** *** One fork *)

Variable held : N -> bool.

(** The three-way merge of whole maps. *)
Definition merged (m0 ms mf : gmap K V) : gmap K V := (install_keys merge m0 mf ms).2.

Definition conflicting (m0 ms mf : gmap K V) : bool := (install_keys merge m0 mf ms).1.

Lemma merged_slice m0 ms mf a :
  (install_keys merge (slice m0 a) (slice mf a) (slice ms a)).2 = slice (merged m0 ms mf) a.
Proof.
  apply map_eq. intros k. unfold merged. rewrite slice_lookup, !install_keys_lookup, !slice_lookup.
  case_decide; [done|]. by rewrite three_way_unchanged.
Qed.

Lemma merged_unchanged m0 ms mf a : slice m0 a = slice mf a -> slice (merged m0 ms mf) a = slice ms a.
Proof.
  intros Heq. rewrite <- merged_slice, Heq. apply map_eq. intros k.
  by rewrite install_keys_lookup, three_way_unchanged.
Qed.

Lemma merged_ours m0 ms mf a : slice m0 a = slice ms a -> slice (merged m0 ms mf) a = slice mf a.
Proof.
  intros Heq. rewrite <- merged_slice, Heq. apply map_eq. intros k.
  by rewrite install_keys_lookup, three_way_ours.
Qed.

(** Whether a key of the slot conflicts. *)
Definition conflict_at (m0 ms mf : gmap K V) (a : nat) : Prop :=
  exists k, slot_of k = a /\ (three_way (m0 !! k) (ms !! k) (mf !! k)).1 = true.

Lemma conflict_at_slice m0 ms mf a :
  (install_keys merge (slice m0 a) (slice mf a) (slice ms a)).1 = true <-> conflict_at m0 ms mf a.
Proof.
  rewrite install_keys_conflict. unfold conflict_at. split; intros [k Hk]; exists k.
  - rewrite !slice_lookup in Hk. case_decide; [done|]. by rewrite three_way_unchanged in Hk.
  - destruct Hk as [<- Hk]. by rewrite !slice_lookup, !decide_True by done.
Qed.

Lemma no_conflict_unchanged m0 ms mf a : slice m0 a = slice mf a -> ~ conflict_at m0 ms mf a.
Proof.
  intros Heq (k & <- & Hk). assert (Hs : slice m0 (slot_of k) !! k = slice mf (slot_of k) !! k) by congruence.
  rewrite !slice_lookup, !decide_True in Hs by done. by rewrite Hs, three_way_unchanged in Hk.
Qed.

Lemma no_conflict_ours m0 ms mf a : slice m0 a = slice ms a -> ~ conflict_at m0 ms mf a.
Proof.
  intros Heq (k & <- & Hk). assert (Hs : slice m0 (slot_of k) !! k = slice ms (slot_of k) !! k) by congruence.
  rewrite !slice_lookup, !decide_True in Hs by done. by rewrite Hs, three_way_ours in Hk.
Qed.

Lemma take_held_shard_spec fork at_ n :
  small at_ -> shaped fork ->
  wp (take_held_shard held fork at_)
    (fun r n' => (n <= n')%N /\ r.1 = held_shard fork at_ /\ shaped r.2
       /\ forall a, small a -> a <> at_ -> held_shard r.2 a = held_shard fork a) n.
Proof.
  intros Hat [Hl Hd]. unfold take_held_shard. destruct (dirty fork !! as_u32 at_) as [x|] eqn:Hx.
  - apply wp_ret. unfold held_shard. simpl. rewrite Hx. split_and!; [lia|done| |].
    + split; [done|]. simpl. intros slot a Ha. apply lookup_delete_Some in Ha as [_ Ha]. by eapply Hd.
    + intros a Ha Hne. rewrite lookup_delete_ne; [done|]. intros Heq. by apply Hne, as_u32_inj.
  - unfold take_slot. case_if.
    + apply wp_ret. rewrite held_no_dirty by done. split_and!; [lia|done|done|done].
    + unfold wp, bind, Arc_new, ret. simpl. unfold held_shard. simpl. rewrite Hx.
      split_and!; [lia|done| |].
      * split; simpl; [|done]. by rewrite length_insert.
      * intros a Ha Hne. by rewrite list_lookup_insert_ne.
Qed.

Lemma branch_place frozen n self σ at_ x :
  branch frozen n self σ -> small at_ ->
  (forall a, x = Some a -> (ptr a < n)%N) ->
  same_shard (held_shard frozen at_) x = false ->
  wp (place_shard held self at_ x)
    (fun self' n' => (n <= n')%N
       /\ branch frozen n' self' (fun a => if decide (a = at_) then shard_of x else σ a)) n.
Proof.
  intros Hb Hat Hx Hsame. unfold place_shard. case_if.
  - apply wp_bind. eapply wp_mono; [apply or_default_spec|]. intros a n1 (Hn & Ha & Hp).
    apply wp_ret. split; [done|]. rewrite <- Ha.
    apply (branch_updated _ n _ _ _ (Some a) _ _ Hb Hat).
    + by apply updated_dirty; [|apply Hb|].
    + intros b [= <-]. destruct Hp as [->|]; [|lia]. specialize (Hx _ eq_refl). lia.
    + intros Hs. destruct Hp as [->|Hp]; [congruence|].
      destruct (held_shard frozen at_) as [b|] eqn:Hf; [|done].
      destruct (br_frozen _ _ _ _ Hb) as [Hbf _]. specialize (Hbf _ _ Hat Hf).
      apply N.eqb_eq in Hs. lia.
  - apply wp_bind. eapply wp_mono.
    { apply replace_slot_spec; [done| |by simpl; rewrite lookup_delete_eq].
      split; [apply Hb|]. simpl. intros slot a Ha. apply lookup_delete_Some in Ha as [_ Ha].
      by eapply Hb. }
    intros [old self'] n1 (_ & _ & Hp & [Hn Hs' Hf' Hx' Ho _]). simpl in *. apply wp_ret. split; [done|].
    apply (branch_updated _ n self _ at_ x _ _ Hb Hat).
    + split; try done; [|by right]. intros a Ha Hne. rewrite Ho by done. unfold held_shard. simpl.
      rewrite lookup_delete_ne; [done|]. intros Heq. by apply Hne, as_u32_inj.
    + intros a ->. specialize (Hx _ eq_refl). lia.
    + congruence.
Qed.

Lemma branch_install_mut {A} frozen self σ at_ (f : gmap K V -> A * gmap K V) n :
  branch frozen n self σ -> small at_ ->
  wp (install_shard_mut held self at_ f)
    (fun r n' => r.1 = (f (σ at_)).1 /\ (n <= n')%N
       /\ branch frozen n' r.2 (fun a => if decide (a = at_) then (f (σ at_)).2 else σ a)) n.
Proof.
  intros Hb Hat.
  assert (Hw : wp (install_shard_mut held self at_ f) (written f n self at_) n).
  { unfold install_shard_mut. case_if; [apply dirty_mut_spec|apply shard_mut_spec]; done || apply Hb. }
  eapply wp_mono; [exact Hw|]. intros [a self'] n' [Ha (p & Hp & Hu)]. simpl in *.
  rewrite (br_repr _ _ _ _ Hb) in Ha, Hu by done. split_and!; [done|by destruct Hu|].
  eapply (branch_updated _ _ _ _ _ _ _ _ Hb) in Hu; [done|done|by intros ? [= <-]; simpl; lia|].
  apply (coherent_at n _ (held_shard self at_) _ n'); [apply Hb|done| |by apply Hb].
  right. right. eexists. split; [done|]. done.
Qed.

Section One.
Variables (frozen : CowShards K V) (m0 ms mf : gmap K V) (fork0 : CowShards K V).

(** The state of an install after the slots [l]. *)
Definition installing (l : list nat) (acc : bool * CowShards K V * CowShards K V) (n : N) : Prop :=
  let '(conflicted, self, fork) := acc in
  branch frozen n self (fun a => if decide (a ∈ l) then slice (merged m0 ms mf) a else slice ms a)
  /\ shaped fork
  /\ (forall a, small a -> a ∉ l -> held_shard fork a = held_shard fork0 a)
  /\ (conflicted = true <-> exists a, a ∈ l /\ conflict_at m0 ms mf a).

Lemma install_slot_spec l at_ acc n n0 :
  branch frozen n0 fork0 (slice mf) -> (n0 <= n)%N -> repr frozen (slice m0) ->
  small at_ -> at_ ∉ l -> installing l acc n ->
  wp (install_slot held merge frozen acc at_)
    (fun acc n' => (n <= n')%N /\ installing (l ++ [at_]) acc n') n.
Proof.
  intros Hfork Hn0 Hr0 Hat Hnew. destruct acc as [[conflicted self] fork]. simpl.
  intros (Hb & Hsf & Hf & Hconf).
  pose proof (Hr0 at_ Hat) as H0. pose proof (br_repr _ _ _ _ Hfork at_ Hat) as H1.
  pose proof (br_repr _ _ _ _ Hb at_ Hat) as H2. simpl in H2. rewrite decide_False in H2 by done.
  pose proof (Hf at_ Hat Hnew) as Hf0.
  assert (Hext : forall n' self' s, branch frozen n' self'
             (fun a => if decide (a = at_) then s
                       else if decide (a ∈ l) then slice (merged m0 ms mf) a else slice ms a) ->
           s = slice (merged m0 ms mf) at_ ->
           branch frozen n' self'
             (fun a => if decide (a ∈ l ++ [at_]) then slice (merged m0 ms mf) a else slice ms a)).
  { intros n' self' s Hb' ->. eapply branch_ext; [exact Hb'|]. intros a _. simpl.
    destruct (decide (a = at_)) as [->|Hne]; [rewrite decide_True by set_solver; done|].
    destruct (decide (a ∈ l)); [rewrite decide_True|rewrite decide_False]; set_solver. }
  assert (Hnone : ~ conflict_at m0 ms mf at_ ->
            conflicted = true <-> exists a, a ∈ l ++ [at_] /\ conflict_at m0 ms mf a).
  { intros Hn. rewrite Hconf. setoid_rewrite elem_of_app. setoid_rewrite list_elem_of_singleton. naive_solver. }
  rewrite Hf0. case_if.
  - assert (Heq : slice m0 at_ = slice mf at_).
    { rewrite <- H0, <- H1. by apply (br_coherent _ _ _ _ Hfork). }
    apply wp_ret. split; [lia|]. simpl. split_and!; [|done|intros a ??; apply Hf; set_solver|].
    + eapply branch_ext; [exact Hb|]. intros a _. simpl.
      destruct (decide (a = at_)) as [->|].
      * rewrite decide_False, decide_True by set_solver. by rewrite merged_unchanged.
      * destruct (decide (a ∈ l)); [rewrite decide_True|rewrite decide_False]; set_solver.
    + by apply Hnone, no_conflict_unchanged.
  - apply wp_bind. eapply wp_mono; [by apply take_held_shard_spec|].
    intros [forked fork'] n1 (Hn1 & Hx & Hsf' & Hf'). simpl in *. rewrite Hf0 in Hx. subst forked.
    assert (Hrest : forall a, small a -> a ∉ l ++ [at_] -> held_shard fork' a = held_shard fork0 a).
    { intros a Ha Hl. rewrite Hf' by set_solver. apply Hf; set_solver. }
    assert (Hb1 := branch_later _ _ n1 _ _ Hb Hn1). case_if.
    + assert (Heq : slice m0 at_ = slice ms at_).
      { rewrite <- H0, <- H2. by apply (br_coherent _ _ _ _ Hb). }
      apply wp_bind. eapply wp_mono; [apply (branch_place _ _ _ _ _ _ Hb1 Hat)|].
      * intros a Ha. destruct (br_below _ _ _ _ Hfork) as [Hbf _]. specialize (Hbf _ _ Hat Ha). lia.
      * done.
      * intros self' n2 [Hn2 Hb2]. apply wp_ret. split; [lia|]. simpl. split_and!; [|done|done|].
        -- eapply Hext; [exact Hb2|]. by rewrite H1, merged_ours.
        -- by apply Hnone, no_conflict_ours.
    + apply wp_bind. eapply wp_mono; [apply (branch_install_mut _ _ _ _ _ _ Hb1 Hat)|].
      intros [slot_conflicted self'] n2 (Hc & Hn2 & Hb2). simpl in *.
      rewrite decide_False in Hc, Hb2 by done. rewrite H0, H1 in Hc, Hb2. apply wp_ret.
      split; [lia|]. simpl. split_and!; [|done|done|].
      * eapply Hext; [exact Hb2|]. apply merged_slice.
      * rewrite orb_true_iff, Hconf, Hc, conflict_at_slice.
        setoid_rewrite elem_of_app. setoid_rewrite list_elem_of_singleton. naive_solver.
Qed.
End One.

Lemma forked_slots_NoDup frozen fork : shaped fork -> NoDup (forked_slots frozen fork).
Proof.
  intros Hs. unfold forked_slots. case_if; [|apply NoDup_seq].
  replace (map _ (map_to_list (dirty fork))) with (map N.to_nat (map fst (map_to_list (dirty fork))))
    by (rewrite map_map; done).
  apply NoDup_fmap; [intros a b; lia|]. apply NoDup_fst_map_to_list.
Qed.

Lemma forked_slots_small frozen fork a :
  shaped frozen -> shaped fork -> a ∈ forked_slots frozen fork -> small a.
Proof.
  intros Hs0 Hs. unfold forked_slots. case_if.
  - intros ([slot x] & -> & Hx)%list_elem_of_fmap. apply elem_of_map_to_list in Hx.
    destruct Hs as [_ Hd]. specialize (Hd _ _ Hx). unfold small. simpl. lia.
  - intros Ha%elem_of_seq.
    destruct (Nat.max_spec (end_ frozen) (end_ fork)) as [[_ Hm]|[_ Hm]]; rewrite Hm in Ha.
    + apply (end_small fork); [done|lia].
    + apply (end_small frozen); [done|lia].
Qed.

Lemma forked_slots_held frozen n fork mf a :
  shaped frozen -> branch frozen n fork (slice mf) ->
  small a -> a ∉ forked_slots frozen fork -> held_shard fork a = held_shard frozen a.
Proof.
  intros Hs0 Hb Ha Hl. unfold forked_slots in Hl. destruct (ptr_eq _ _) eqn:Hp.
  - apply (br_derived _ _ _ _ Hb Hp a Ha).
    intros [x Hx]%elem_of_dom. apply Hl, list_elem_of_fmap. exists (as_u32 a, x).
    split; [simpl; rewrite as_u32_fits by done; lia|by apply elem_of_map_to_list].
  - assert (Hend : forall self, shaped self -> end_ self <= a -> held_shard self a = None).
    { intros self Hs He. destruct (held_shard self a) eqn:Hh; [|done].
      assert (a < end_ self) by (apply held_end; by rewrite ?Hh). lia. }
    rewrite elem_of_seq in Hl.
    rewrite (Hend frozen), (Hend fork); [done|apply Hb|lia|done|lia].
Qed.

Lemma forked_slots_rest frozen n fork m0 mf a :
  shaped frozen -> repr frozen (slice m0) -> branch frozen n fork (slice mf) ->
  small a -> a ∉ forked_slots frozen fork -> slice m0 a = slice mf a.
Proof.
  intros Hs0 Hr0 Hb Ha Hl. rewrite <- (Hr0 a Ha), <- (br_repr _ _ _ _ Hb a Ha).
  by rewrite (forked_slots_held frozen n fork mf).
Qed.

Lemma conflicting_slots m0 ms mf (l : list nat) :
  (forall a, small a -> a ∉ l -> slice m0 a = slice mf a) ->
  conflicting m0 ms mf = true <-> exists a, a ∈ l /\ conflict_at m0 ms mf a.
Proof.
  intros Hl. unfold conflicting. rewrite install_keys_conflict. split.
  - intros [k Hk]. exists (slot_of k). assert (Hc : conflict_at m0 ms mf (slot_of k)) by (by exists k).
    split; [|done]. destruct (decide (slot_of k ∈ l)); [done|].
    by apply no_conflict_unchanged in Hc; [|apply Hl; [apply small_slots|]].
  - intros (a & _ & k & _ & Hk). by exists k.
Qed.

Lemma install_with_branch frozen self fork m0 ms mf n :
  shaped frozen -> repr frozen (slice m0) ->
  branch frozen n self (slice ms) -> branch frozen n fork (slice mf) ->
  wp (install_with held merge self frozen fork)
    (fun r n' => (n <= n')%N /\ r.1 = conflicting m0 ms mf
                 /\ branch frozen n' r.2 (slice (merged m0 ms mf))) n.
Proof.
  intros Hs0 Hr0 Hb Hf. unfold install_with. apply wp_bind.
  assert (Hrest := forked_slots_rest frozen n fork m0 mf).
  assert (Hnd := forked_slots_NoDup frozen fork (br_shaped _ _ _ _ Hf)).
  apply (wp_for_each (fun l acc n' => (n <= n')%N /\ installing frozen m0 ms mf fork l acc n')).
  - intros l a rest acc n1 Hl [Hn1 Hi].
    eapply wp_mono; [eapply (install_slot_spec frozen m0 ms mf fork); try done|].
    + apply (forked_slots_small frozen fork); [done|apply Hf|]. rewrite Hl. set_solver.
    + rewrite Hl in Hnd. apply NoDup_app in Hnd as (_ & Hnd & _).
      intros Ha. apply (Hnd a Ha). set_solver.
    + intros acc' n2 [Hn2 Hi2]. split; [lia|done].
  - intros [[conflicted self'] fork'] n1 [Hn1 (Hb1 & _ & _ & Hc)]. apply wp_ret. split_and!; [done| |].
    + apply eq_bool_prop_intro. rewrite !Is_true_true. simpl. rewrite Hc. symmetry.
      apply conflicting_slots. intros a Ha Hl. by apply Hrest.
    + eapply branch_ext; [exact Hb1|]. intros a Ha. simpl.
      destruct (decide (a ∈ forked_slots frozen fork)) as [|Hl]; [done|].
      symmetry. apply merged_unchanged. by apply Hrest.
  - split; [lia|]. simpl. split_and!; [|apply Hf|done|].
    + eapply branch_ext; [exact Hb|done].
    + split; [done|]. intros (a & Ha & _). by apply elem_of_nil in Ha.
Qed.

(** *** Several forks *)

(** The installs of maps one after another. *)
Fixpoint merged_all (m0 ms : gmap K V) (forks : list (nat * gmap K V)) : gmap K V :=
  match forks with
  | [] => ms
  | (_, mf) :: forks => merged_all m0 (merged m0 ms mf) forks
  end.

(** The places of the maps that [test] finds to conflict with what the maps
    before them left. *)
Fixpoint conflicts (test : gmap K V -> gmap K V -> bool) (m0 ms : gmap K V)
    (forks : list (nat * gmap K V)) : list nat :=
  match forks with
  | [] => []
  | (place, mf) :: forks =>
      (if test ms mf then [place] else []) ++ conflicts test m0 (merged m0 ms mf) forks
  end.

Definition slot_test (m0 : gmap K V) (a : nat) (ms mf : gmap K V) : bool :=
  (install_keys merge (slice m0 a) (slice mf a) (slice ms a)).1.

(** The forks stand for the maps. *)
Definition forks_of frozen (n : N) (fs : list (nat * CowShards K V)) (ms : list (nat * gmap K V)) : Prop :=
  Forall2 (fun f e => f.1 = e.1 /\ branch frozen n f.2 (slice e.2)) fs ms.

Lemma forks_of_later frozen n n' fs ms : forks_of frozen n fs ms -> (n <= n')%N -> forks_of frozen n' fs ms.
Proof.
  intros Hf Hn. eapply Forall2_impl; [exact Hf|]. intros f m [? ?]. split; [done|]. by eapply branch_later.
Qed.

Lemma install_in_order_branch frozen m0 fs mfs self ms n :
  shaped frozen -> repr frozen (slice m0) ->
  branch frozen n self (slice ms) -> forks_of frozen n fs mfs ->
  wp (install_in_order held merge self frozen fs)
    (fun r n' => r.1 = conflicts (conflicting m0) m0 ms mfs
                 /\ branch frozen n' r.2 (slice (merged_all m0 ms mfs))) n.
Proof.
  intros Hs0 Hr0 Hb Hf. unfold install_in_order.
  match goal with |- wp (for_each ?b _ _) _ _ => set (body := b) end.
  change (conflicts (conflicting m0) m0 ms mfs) with ([] ++ conflicts (conflicting m0) m0 ms mfs).
  generalize (@nil nat) as c. revert self ms n Hb Hf. induction fs as [|[p f] fs IH] in mfs |- *;
    intros self ms n Hb Hf c; apply Forall2_cons_inv_l in Hf || apply Forall2_nil_inv_l in Hf.
  - subst mfs. apply wp_ret. simpl. by rewrite app_nil_r.
  - destruct Hf as ([p' mf] & mfs' & [Hp Hbf] & Hf & ->). simpl in Hp, Hbf. subst p'.
    cbn [for_each]. unfold body at 1. apply wp_bind, wp_bind.
    eapply wp_mono; [by apply install_with_branch|]. intros [b self'] n1 (Hn1 & Hc & Hb1). simpl in *.
    apply wp_ret. subst b. eapply wp_mono; [apply IH; [done|by eapply forks_of_later]|].
    intros r n2 [Hr Hb2]. split; [|done]. rewrite Hr. simpl. case_if; [by rewrite <- app_assoc|done].
Qed.

(** A shard that may be put into the slot [a]. *)
Definition sound frozen (n : N) (a : nat) (x : option (Arc (gmap K V))) : Prop :=
  (forall y, x = Some y -> (ptr y < n)%N)
  /\ (same_shard (held_shard frozen a) x = true -> shard_of (held_shard frozen a) = shard_of x).

Lemma sound_branch frozen n self σ a : branch frozen n self σ -> small a -> sound frozen n a (held_shard self a).
Proof.
  intros Hb Ha. split; [|by apply Hb]. intros y Hy. by eapply (br_below _ _ _ _ Hb).
Qed.

Lemma sound_later frozen n n' a x : sound frozen n a x -> (n <= n')%N -> sound frozen n' a x.
Proof. intros [Hx Hc] Hn. split; [|done]. intros y Hy. specialize (Hx y Hy). lia. Qed.

Lemma sound_new frozen n n' a x :
  below n frozen -> small a -> (n <= ptr x < n')%N -> sound frozen n' a (Some x).
Proof.
  intros Hf Ha Hp. split; [intros y [= <-]; lia|].
  apply (coherent_at n _ None _ n'); [done|done|right; right; by exists x|].
  by destruct (held_shard frozen a).
Qed.

Lemma sound_or_default frozen n a x :
  below n frozen -> small a -> sound frozen n a x ->
  wp (or_default x) (fun s n' => (n <= n')%N /\ sound frozen n' a (Some s) /\ deref s = shard_of x) n.
Proof.
  intros Hf Ha Hx. eapply wp_mono; [apply or_default_spec|]. intros s n' (Hn & Hs & [->|Hp]).
  - split_and!; [done|by eapply sound_later|done].
  - split_and!; [done|by eapply sound_new|done].
Qed.

(** The shards that the forks hold at [a], less those that are as they were. *)
Definition forked_at frozen (a : nat) (fs : list (nat * CowShards K V)) : list (nat * option (Arc (gmap K V))) :=
  omap (fun f => if same_shard (held_shard frozen a) (held_shard f.2 a) then None
                 else Some (f.1, held_shard f.2 a)) fs.

Lemma install_forked_all frozen m0 a fs mfs x ms c n :
  below n frozen -> repr frozen (slice m0) -> small a ->
  forks_of frozen n fs mfs -> sound frozen n a x -> shard_of x = slice ms a ->
  wp (for_each (install_forked merge (held_shard frozen a)) (forked_at frozen a fs) (x, c))
    (fun r n' => (n <= n')%N /\ sound frozen n' a r.1 /\ shard_of r.1 = slice (merged_all m0 ms mfs) a
                 /\ r.2 = c ++ conflicts (slot_test m0 a) m0 ms mfs) n.
Proof.
  intros Hfr Hr0 Ha. revert x ms c n mfs Hfr.
  induction fs as [|[p f] fs IH]; intros x ms c n mfs Hfr Hf Hx Hxs;
    apply Forall2_cons_inv_l in Hf || apply Forall2_nil_inv_l in Hf.
  { subst mfs. apply wp_ret. simpl. rewrite app_nil_r. split_and!; [lia|done|done|done]. }
  destruct Hf as ([p' mf] & mfs' & [Hp Hbf] & Hf & ->). simpl in Hp, Hbf. subst p'.
  pose proof (Hr0 a Ha) as H0. pose proof (br_repr _ _ _ _ Hbf a Ha) as H1.
  pose proof (sound_branch _ _ _ _ _ Hbf Ha) as Hsf.
  assert (Hstep : forall (y : Arc (gmap K V)) c' n1, (n <= n1)%N -> sound frozen n1 a (Some y) ->
            deref y = slice (merged m0 ms mf) a ->
            c' = c ++ (if slot_test m0 a ms mf then [p] else []) ->
            wp (for_each (install_forked merge (held_shard frozen a)) (forked_at frozen a fs) (Some y, c'))
              (fun r n' => (n <= n')%N /\ sound frozen n' a r.1
                 /\ shard_of r.1 = slice (merged_all m0 ms ((p, mf) :: mfs')) a
                 /\ r.2 = c ++ conflicts (slot_test m0 a) m0 ms ((p, mf) :: mfs')) n1).
  { intros y c' n1 Hn1 Hy Hys ->. eapply wp_mono.
    - apply (IH _ (merged m0 ms mf) _ _ mfs'); [by eapply below_later|by eapply forks_of_later|done|done].
    - intros r n2 (Hn2 & ? & ? & ->). split_and!; [lia|done|done|]. simpl. by rewrite <- app_assoc. }
  unfold forked_at. simpl. destruct (same_shard (held_shard frozen a) (held_shard f a)) eqn:Hs.
  - assert (Heq : slice m0 a = slice mf a) by (rewrite <- H0, <- H1; by apply Hsf).
    assert (Ht : slot_test m0 a ms mf = false).
    { apply not_true_is_false. unfold slot_test. rewrite conflict_at_slice. by apply no_conflict_unchanged. }
    rewrite Ht. simpl. apply IH; [done|done|done|]. by rewrite merged_unchanged.
  - simpl. apply wp_bind. destruct (same_shard (held_shard frozen a) x) eqn:Hsx.
    + assert (Heq : slice m0 a = slice ms a) by (rewrite <- H0, <- Hxs; by apply Hx).
      assert (Ht : slot_test m0 a ms mf = false).
      { apply not_true_is_false. unfold slot_test. rewrite conflict_at_slice. by apply no_conflict_ours. }
      apply wp_bind. eapply wp_mono; [by apply sound_or_default|]. intros y n1 (Hn1 & Hy & Hys).
      apply wp_ret. apply Hstep; [done|done|by rewrite Hys, H1, merged_ours|by rewrite Ht, app_nil_r].
    + apply wp_bind. eapply wp_mono; [by apply sound_or_default|]. intros y n1 (Hn1 & Hy & Hys).
      apply wp_bind. unfold make_mut, bind, Arc_new, ret, wp at 1. rewrite Hys, H0, H1, Hxs.
      apply Hstep; [lia|eapply sound_new; [by eapply below_later|done|simpl; lia]| |].
      * apply merged_slice.
      * unfold slot_test. case_if; [done|by rewrite app_nil_r].
Qed.

(** *** Collecting the shards of the forks *)

Abbreviation by_shard_of := (gmap nat (list (nat * option (Arc (gmap K V))))).

Definition collected (bs : by_shard_of) (a : nat) : list (nat * option (Arc (gmap K V))) :=
  from_option id [] (bs !! a).

Definition small_keys (bs : by_shard_of) : Prop := forall a, is_Some (bs !! a) -> small a.

Lemma same_shard_refl (x : option (Arc (gmap K V))) : same_shard x x = true.
Proof. destruct x; [|done]. simpl. apply N.eqb_refl. Qed.

Lemma collect_slot_spec frozen p f bs0 l a bs fork n :
  small a -> a ∉ l -> shaped fork -> small_keys bs ->
  (forall b, small b -> b ∉ l -> held_shard fork b = held_shard f b) ->
  (forall b, small b -> collected bs b
     = collected bs0 b ++ if decide (b ∈ l) then forked_at frozen b [(p, f)] else []) ->
  wp (collect_slot held frozen p (bs, fork) a)
    (fun r n' => (n <= n')%N /\ shaped r.2 /\ small_keys r.1
       /\ (forall b, small b -> b ∉ l ++ [a] -> held_shard r.2 b = held_shard f b)
       /\ (forall b, small b -> collected r.1 b
            = collected bs0 b ++ if decide (b ∈ l ++ [a]) then forked_at frozen b [(p, f)] else [])) n.
Proof.
  intros Ha Hnew Hs Hk Hh Hc. unfold collect_slot. rewrite (Hh a) by done.
  destruct (same_shard _ _) eqn:Hsame.
  - apply wp_ret. split_and!; [lia|done|done|intros b ??; apply Hh; set_solver|].
    intros b Hb. simpl. rewrite Hc by done. destruct (decide (b = a)) as [->|].
    + rewrite decide_False, decide_True by set_solver. unfold forked_at. simpl. by rewrite Hsame.
    + f_equal. destruct (decide (b ∈ l)); [rewrite decide_True|rewrite decide_False]; set_solver.
  - apply wp_bind. eapply wp_mono; [by apply take_held_shard_spec|].
    intros [x fork'] n1 (Hn1 & Hx & Hs' & Hh'). simpl in *. rewrite (Hh a) in Hx by done. subst x.
    apply wp_ret. split_and!; [done|done| | |].
    + intros b. simpl. destruct (decide (b = a)) as [->|]; [done|]. rewrite lookup_partial_alter_ne by done. apply Hk.
    + intros b Hb Hl. rewrite Hh' by set_solver. apply Hh; set_solver.
    + intros b Hb. unfold collected at 1. simpl. destruct (decide (b = a)) as [->|].
      * rewrite lookup_partial_alter_eq, decide_True by set_solver. simpl.
        change (from_option id [] (bs !! a)) with (collected bs a).
        rewrite Hc, decide_False, app_nil_r by done. f_equal. unfold forked_at. simpl. by rewrite Hsame.
      * rewrite lookup_partial_alter_ne by done. change (from_option id [] (bs !! b)) with (collected bs b).
        rewrite Hc by done. f_equal.
        destruct (decide (b ∈ l)); [rewrite decide_True|rewrite decide_False]; set_solver.
Qed.

Lemma collect_fork_spec frozen p f mf bs n :
  shaped frozen -> branch frozen n f (slice mf) -> small_keys bs ->
  wp (collect_fork held frozen bs (p, f))
    (fun bs' n' => (n <= n')%N /\ small_keys bs'
       /\ forall b, small b -> collected bs' b = collected bs b ++ forked_at frozen b [(p, f)]) n.
Proof.
  intros Hs0 Hf Hk. unfold collect_fork. apply wp_bind. simpl.
  assert (Hnd := forked_slots_NoDup frozen f (br_shaped _ _ _ _ Hf)).
  apply (wp_for_each (fun l r n' => (n <= n')%N /\ shaped r.2 /\ small_keys r.1
       /\ (forall b, small b -> b ∉ l -> held_shard r.2 b = held_shard f b)
       /\ (forall b, small b -> collected r.1 b
            = collected bs b ++ if decide (b ∈ l) then forked_at frozen b [(p, f)] else []))).
  - intros l a rest [bs1 f1] n1 Hl (Hn1 & Hs1 & Hk1 & Hh1 & Hc1). simpl in *.
    eapply wp_mono; [apply (collect_slot_spec frozen p f bs l); try done|].
    + apply (forked_slots_small frozen f); [done|apply Hf|]. rewrite Hl. set_solver.
    + rewrite Hl in Hnd. apply NoDup_app in Hnd as (_ & Hnd & _).
      intros Ha. apply (Hnd a Ha). set_solver.
    + intros r n2 (Hn2 & ?). split; [lia|done].
  - intros [bs1 f1] n1 (Hn1 & _ & Hk1 & _ & Hc1). apply wp_ret. simpl in *. split_and!; [done|done|].
    intros b Hb. rewrite Hc1 by done. f_equal. case_decide as Hl; [done|].
    unfold forked_at. simpl. by rewrite (forked_slots_held frozen n f mf), same_shard_refl.
  - split_and!; [lia|apply Hf|done|done|]. intros b _. simpl. by rewrite app_nil_r.
Qed.

Lemma collect_spec frozen fs mfs n :
  shaped frozen -> forks_of frozen n fs mfs ->
  wp (for_each (collect_fork held frozen) fs ∅)
    (fun bs n' => (n <= n')%N /\ small_keys bs
       /\ forall b, small b -> collected bs b = forked_at frozen b fs) n.
Proof.
  intros Hs0 Hf.
  apply (wp_for_each (fun l bs n' => (n <= n')%N /\ small_keys bs
       /\ forall b, small b -> collected bs b = forked_at frozen b l)); [|done|].
  - intros l [p f] rest bs n1 Hl (Hn1 & Hk & Hc).
    assert (exists mf, branch frozen n f (slice mf)) as [mf Hbf].
    { unfold forks_of in Hf. rewrite Hl in Hf. apply Forall2_app_inv_l in Hf as (? & mfs' & _ & Hf & _).
      apply Forall2_cons_inv_l in Hf as ([p' mf] & ? & [_ Hbf] & _). by exists mf. }
    eapply wp_mono; [apply (collect_fork_spec frozen p f mf); [done|by eapply branch_later|done]|].
    intros bs' n2 (Hn2 & Hk' & Hc'). split_and!; [lia|done|]. intros b Hb.
    rewrite Hc', Hc by done. unfold forked_at. by rewrite omap_app.
  - split_and!; [lia| |done]. intros a. rewrite lookup_empty. by intros [].
Qed.

(** *** The tasks of the shards *)

(** A slot that is kept apart stays apart, unless the table is new. *)
Definition table_kept self self' (n n' : N) (l : list nat) : Prop :=
  (slots self' = slots self
   /\ forall a, small a -> a ∉ l -> as_u32 a ∈ dom (dirty self) -> as_u32 a ∈ dom (dirty self'))
  \/ (n <= ptr (slots self') < n')%N.

Lemma take_held_shard_table self at_ n :
  small at_ ->
  wp (take_held_shard held self at_) (fun r n' => table_kept self r.2 n n' [at_]) n.
Proof.
  intros Hat. unfold take_held_shard. destruct (dirty self !! as_u32 at_) as [x|] eqn:Hx.
  - apply wp_ret. left. split; [done|]. simpl. intros a Ha Hne Hd.
    rewrite dom_delete_L. apply elem_of_difference. split; [done|].
    rewrite elem_of_singleton. intros Heq%as_u32_inj; [set_solver|done|done].
  - unfold take_slot. case_if; [apply wp_ret; by left|].
    unfold wp, bind, Arc_new, ret. right. simpl. lia.
Qed.

(** The tasks: a slot, what the map holds there, and the forks that changed it. *)
Abbreviation job := (nat * option (Arc (gmap K V)) * list (nat * option (Arc (gmap K V))))%type.

Lemma take_held_all self (todo : list (nat * list (nat * option (Arc (gmap K V))))) n :
  shaped self -> NoDup (map fst todo) -> (forall a, a ∈ map fst todo -> small a) ->
  wp (for_each (take_held held) todo ([], self))
    (fun r n' => (n <= n')%N /\ shaped r.2 /\ table_kept self r.2 n n' (map fst todo)
       /\ (forall a, small a -> a ∉ map fst todo -> held_shard r.2 a = held_shard self a)
       /\ r.1 = map (fun e => (e.1, held_shard self e.1, e.2) : job) todo) n.
Proof.
  intros Hs Hnd Hsm.
  apply (wp_for_each (fun l r n' => (n <= n')%N /\ shaped r.2 /\ table_kept self r.2 n n' (map fst l)
       /\ (forall a, small a -> a ∉ map fst l -> held_shard r.2 a = held_shard self a)
       /\ r.1 = map (fun e => (e.1, held_shard self e.1, e.2) : job) l)); [|done|].
  - intros l [a fs] rest [jobs self1] n1 Hl (Hn1 & Hs1 & Ht1 & Hh1 & Hj). simpl in *. subst jobs.
    assert (Ha : small a) by (apply Hsm; rewrite Hl, map_app; set_solver).
    assert (Hnew : a ∉ map fst l).
    { rewrite Hl, map_app in Hnd. apply NoDup_app in Hnd as (_ & Hnd & _).
      intros Hin. apply (Hnd a Hin). simpl. set_solver. }
    unfold take_held. simpl. apply wp_bind.
    pose proof (take_held_shard_table self1 a n1 Ha) as Htab.
    pose proof (take_held_shard_spec self1 a n1 Ha Hs1) as Hspec.
    unfold wp in *. destruct (take_held_shard held self1 a n1) as [[[x self2] n2]| |]; [|done|done].
    destruct Hspec as (Hn2 & Hx & Hs2 & Hh2). simpl in *. subst x. rewrite map_app. simpl.
    split_and!; [lia|done| | |].
    + destruct Ht1 as [[Ht1 Hd1]|Ht1], Htab as [[Ht2 Hd2]|Ht2].
      * left. split; [congruence|]. intros b Hb Hnb Hd. apply Hd2; [done|set_solver|].
        apply Hd1; [done|set_solver|done].
      * right. lia.
      * right. rewrite Ht2. lia.
      * right. lia.
    + intros b Hb Hnb. rewrite Hh2 by set_solver. apply Hh1; set_solver.
    + rewrite map_app. simpl. by rewrite (Hh1 a).
  - split_and!; [lia|done|by left|done|done].
Qed.

Section Apart.
Variables (frozen self : CowShards K V) (m0 ms : gmap K V).
Variables (fs : list (nat * CowShards K V)) (mfs : list (nat * gmap K V)) (n0 : N).
Hypothesis frozen_repr : repr frozen (slice m0).
Hypothesis self_branch : branch frozen n0 self (slice ms).
Hypothesis forks_branch : forks_of frozen n0 fs mfs.

Definition slot_job (a : nat) : job := (a, held_shard self a, forked_at frozen a fs).

Lemma install_shard_branch a n :
  small a -> (n0 <= n)%N ->
  wp (install_shard merge (held_shard frozen a) (held_shard self a) (forked_at frozen a fs))
    (fun r n' => (n <= n')%N /\ sound frozen n' a (Some r.1)
       /\ deref r.1 = slice (merged_all m0 ms mfs) a
       /\ r.2 = conflicts (slot_test m0 a) m0 ms mfs) n.
Proof.
  intros Ha Hn. unfold install_shard. apply wp_bind.
  assert (Hb := branch_later _ _ _ _ _ self_branch Hn).
  eapply wp_mono; [apply (install_forked_all frozen m0 a fs mfs)|].
  - apply Hb.
  - done.
  - done.
  - by eapply forks_of_later.
  - by eapply sound_branch.
  - by apply Hb.
  - intros [x c] n1 (Hn1 & Hx & Hxs & Hc). simpl in *. apply wp_bind.
    eapply wp_mono; [apply (sound_or_default frozen); [|done|done]|].
    + eapply below_later; [apply Hb|done].
    + intros s n2 (Hn2 & Hs & Hds). apply wp_ret. simpl. split_and!; [lia|done|congruence|done].
Qed.

(** The state after the tasks of the slots [d], out of [all]. *)
Definition apart (all d : list nat) (r : list nat * CowShards K V) (n : N) : Prop :=
  (n0 <= n)%N /\ shaped r.2
  /\ (forall a, small a -> a ∉ all -> held_shard r.2 a = held_shard self a)
  /\ (forall a, small a -> a ∈ d -> sound frozen n a (held_shard r.2 a)
        /\ shard_of (held_shard r.2 a) = slice (merged_all m0 ms mfs) a
        /\ as_u32 a ∈ dom (dirty r.2))
  /\ table_kept self r.2 n0 n all
  /\ r.1 = concat (map (fun a => conflicts (slot_test m0 a) m0 ms mfs) d).

Lemma install_at_spec all d a r n :
  small a -> a ∈ all -> apart all d r n ->
  wp (install_at merge frozen r (slot_job a)) (apart all (d ++ [a])) n.
Proof.
  intros Ha Hall (Hn & Hs & Hh & Hd & Ht & Hc). destruct r as [c self1]. unfold install_at, slot_job.
  simpl in *. apply wp_bind. eapply wp_mono; [by apply install_shard_branch|].
  intros [x cs] n1 (Hn1 & Hx & Hxs & Hcs). simpl in *. apply wp_ret.
  split_and!; simpl; [lia|by apply shaped_set_dirty| | | |].
  - intros b Hb Hnb. rewrite held_set_dirty, decide_False by set_solver. by apply Hh.
  - intros b Hb Hin. rewrite held_set_dirty, dom_insert_L by done.
    destruct (decide (a = b)) as [<-|Hne]; [split_and!; [done|done|set_solver]|].
    destruct (Hd b Hb) as (? & ? & ?); [set_solver|].
    split_and!; [by eapply sound_later|done|set_solver].
  - destruct Ht as [[Ht Htd]|Ht]; [left|right; simpl; lia]. split; [done|].
    intros b Hb Hnb Hdb. simpl. rewrite dom_insert_L. apply elem_of_union_r. by apply Htd.
  - subst c cs. rewrite map_app, concat_app. simpl. by rewrite app_nil_r.
Qed.

Lemma apart_branch all r n :
  (forall a, small a -> a ∉ all -> slice (merged_all m0 ms mfs) a = slice ms a) ->
  apart all all r n -> branch frozen n r.2 (slice (merged_all m0 ms mfs)).
Proof.
  intros Hall (Hn & Hs & Hh & Hd & Ht & _). destruct self_branch as [Hs0 Hf [Hb Hbt] Hc Hder Hr].
  split; [done|by eapply below_later| | | |].
  - split.
    + intros a x Ha Hx. destruct (decide (a ∈ all)) as [Hin|Hin].
      * by apply (Hd a Ha Hin).
      * rewrite Hh in Hx by done. specialize (Hb a x Ha Hx). lia.
    + destruct Ht as [[-> _]|]; lia.
  - intros a Ha. destruct (decide (a ∈ all)) as [Hin|Hin]; [by apply (Hd a Ha Hin)|].
    rewrite Hh by done. by apply Hc.
  - intros Hp a Ha Hna. destruct (decide (a ∈ all)) as [Hin|Hin].
    { by destruct (Hd a Ha Hin) as (_ & _ & ?). }
    rewrite Hh by done. destruct Ht as [[Ht Htd]|Ht].
    + apply Hder; [by rewrite <- Ht|done|]. intros Hin'. by apply Hna, Htd.
    + apply N.eqb_eq in Hp. destruct Hf as [_ Hf]. lia.
  - intros a Ha. destruct (decide (a ∈ all)) as [Hin|Hin]; [by apply (Hd a Ha Hin)|].
    rewrite Hh, Hall by done. by apply Hr.
Qed.

(** A slot that no fork changed. *)
Lemma forked_at_nil a ms' :
  small a -> forked_at frozen a fs = [] ->
  slice (merged_all m0 ms' mfs) a = slice ms' a /\ conflicts (slot_test m0 a) m0 ms' mfs = [].
Proof.
  intros Ha. clear self_branch. revert mfs ms' forks_branch. induction fs as [|[p f] fs' IH]; intros mfs' ms' Hf Hnil;
    apply Forall2_cons_inv_l in Hf || apply Forall2_nil_inv_l in Hf; [by subst mfs'|].
  destruct Hf as ([p' mf] & mfs2 & [Hp Hbf] & Hf & ->). simpl in *.
  unfold forked_at in Hnil. simpl in Hnil.
  destruct (same_shard (held_shard frozen a) (held_shard f a)) eqn:Hs; [|done].
  assert (Heq : slice m0 a = slice mf a).
  { rewrite <- (frozen_repr a Ha), <- (br_repr _ _ _ _ Hbf a Ha). by apply (br_coherent _ _ _ _ Hbf). }
  destruct (IH mfs2 (merged m0 ms' mf) Hf Hnil) as [-> ->]. rewrite merged_unchanged by done.
  split; [done|]. rewrite app_nil_r. case_if; [|done]. unfold slot_test in Heqb.
  rewrite conflict_at_slice in Heqb. by apply no_conflict_unchanged in Heqb.
Qed.
End Apart.

(** *** The places that conflicted *)

Lemma conflicts_in p m0 ms mfs :
  p ∈ conflicts (conflicting m0) m0 ms mfs
  <-> exists a, small a /\ p ∈ conflicts (slot_test m0 a) m0 ms mfs.
Proof.
  revert ms. induction mfs as [|[q mf] mfs IH]; intros ms; simpl.
  { split; [by intros Hp%elem_of_nil|]. by intros (a & _ & Hp%elem_of_nil). }
  rewrite elem_of_app, IH. setoid_rewrite elem_of_app.
  assert (Hc : conflicting m0 ms mf = true <-> exists a, small a /\ slot_test m0 a ms mf = true).
  { unfold slot_test. setoid_rewrite conflict_at_slice. unfold conflicting.
    rewrite install_keys_conflict. split; [intros [k Hk]|intros (a & _ & k & _ & Hk)]; [|by exists k].
    exists (slot_of k). split; [apply small_slots|by exists k]. }
  split.
  - intros [Hp|(a & Ha & Hp)]; [|exists a; auto].
    destruct (conflicting m0 ms mf); [|by apply elem_of_nil in Hp].
    destruct (proj1 Hc eq_refl) as (a & Ha & Ht).
    exists a. rewrite Ht. auto.
  - intros (a & Ha & [Hp|Hp]); [left|right; eauto].
    destruct (slot_test m0 a ms mf) eqn:Ht; [|by apply elem_of_nil in Hp].
    by rewrite (proj2 Hc) by eauto.
Qed.

Lemma conflicts_sublist test m0 ms mfs : conflicts test m0 ms mfs `sublist_of` map fst mfs.
Proof.
  revert ms. induction mfs as [|[q mf] mfs IH]; intros ms; simpl; [constructor|].
  case_if; simpl; [apply sublist_skip, IH|apply sublist_cons, IH].
Qed.
End Merge.
End View.

(** ** [dedup] of a sorted list *)

Lemma dedup_spec (l : list nat) :
  StronglySorted le l -> StronglySorted lt (CowShards.dedup l) /\ forall x, x ∈ CowShards.dedup l <-> x ∈ l.
Proof.
  induction 1 as [|x l Hs [IHs IHin] Hx]; simpl; [by split; [constructor|]|].
  assert (Hle : forall y, y ∈ CowShards.dedup l -> x <= y)
    by (intros y Hy%IHin; by eapply Forall_forall in Hx).
  revert IHs IHin Hle. destruct (CowShards.dedup l) as [|y l']; intros IHs IHin Hle; simpl.
  - split; [by repeat constructor|]. intros z. rewrite !elem_of_cons. specialize (IHin z). tauto.
  - pose proof (Hle y ltac:(set_solver)) as Hxy. destruct (x =? y)%nat eqn:Heq.
    + apply Nat.eqb_eq in Heq. subst y. split; [done|]. intros z. rewrite (elem_of_cons l z). specialize (IHin z). rewrite elem_of_cons in IHin |- *. tauto.
    + apply Nat.eqb_neq in Heq. split; [|intros z; rewrite !(elem_of_cons _ z x); specialize (IHin z); tauto].
      apply StronglySorted_inv in IHs as [IHs Hy]. constructor; [by constructor|].
      constructor; [lia|]. eapply Forall_impl; [exact Hy|]. simpl. lia.
Qed.

Lemma strictly_sorted_ext (l1 l2 : list nat) :
  StronglySorted lt l1 -> StronglySorted lt l2 -> (forall x, x ∈ l1 <-> x ∈ l2) -> l1 = l2.
Proof.
  assert (Hle : forall l, StronglySorted lt l -> StronglySorted le l /\ NoDup l).
  { induction 1 as [|x l Hs [IH1 IH2] Hx]; [split; constructor|]. split; constructor; try done.
    - eapply Forall_impl; [exact Hx|]. simpl. lia.
    - intros Hin. eapply Forall_forall in Hx; [|done]. lia. }
  intros H1 H2 Hin. destruct (Hle l1 H1), (Hle l2 H2).
  apply (StronglySorted_unique le); [done|done|]. by apply NoDup_Permutation.
Qed.

(** ** Installs of several forks *)

Section Installs.
Context {K V : Type} `{Countable K} `{!ShardKey K} `{!SmallSlots K} `{!EqDecision V}.
Import CowShards.
Variables (merge : option (CopyOnWrite.Merge V)) (held : N -> bool).

Lemma install_apart_branch (frozen self : CowShards K V) m0 ms fs mfs n :
  shaped frozen -> repr frozen (slice m0) -> branch frozen n self (slice ms) ->
  forks_of frozen n fs mfs -> StronglySorted lt (map fst mfs) ->
  wp (install_apart held merge self frozen fs)
    (fun r n' => r.1 = conflicts merge (conflicting merge m0) m0 ms mfs
                 /\ branch frozen n' r.2 (slice (merged_all merge m0 ms mfs))) n.
Proof.
  intros Hs0 Hr0 Hb Hf Hsort. unfold install_apart.
  eapply wp_seq; [by apply (collect_spec held frozen fs mfs)|]. intros bs n1 (Hn1 & Hk & Hc). simpl.
  set (keys := map fst (map_to_list bs)).
  assert (Hkeys : forall a, a ∈ keys <-> is_Some (bs !! a)).
  { intros a. unfold keys. rewrite list_elem_of_fmap. split.
    - intros ([b x] & -> & Hx). apply elem_of_map_to_list in Hx. by exists x.
    - intros [x Hx]. exists (a, x). split; [done|]. by apply elem_of_map_to_list. }
  assert (Hsm : forall a, a ∈ keys -> small a) by (intros a Ha; by apply Hk, Hkeys).
  assert (Hrest : forall a, small a -> a ∉ keys -> forked_at frozen a fs = []).
  { intros a Ha Hna. rewrite <- Hc by done. unfold collected. destruct (bs !! a) eqn:Hbs; [|done].
    exfalso. apply Hna, Hkeys. by rewrite Hbs. }
  assert (Hb1 := branch_later _ _ _ _ _ Hb Hn1). assert (Hf1 := forks_of_later _ _ _ _ _ Hf Hn1).
  eapply wp_seq.
  { apply (take_held_all held self (map_to_list bs)); [apply Hb|apply NoDup_fst_map_to_list|exact Hsm]. }
  intros [jobs self1] n2 (Hn2 & Hs1 & Ht1 & Hh1 & Hj). simpl in *. fold keys in Ht1, Hh1.
  assert (Hjobs : jobs = map (slot_job frozen self fs) keys).
  { subst jobs. unfold keys. rewrite map_map. apply list_fmap_ext. intros i [a x] Hx. simpl.
    apply list_elem_of_lookup_2, elem_of_map_to_list in Hx. unfold slot_job. f_equal.
    rewrite <- Hc; [unfold collected; by rewrite Hx|]. apply Hk. by exists x. }
  subst jobs. rewrite Hjobs. clear Hjobs. simpl.
  assert (Hapart : forall d rest r n', keys = d ++ rest ->
      apart merge frozen self m0 ms mfs n1 keys d r n' ->
      wp (for_each (install_at merge frozen) (map (slot_job frozen self fs) rest) r)
        (apart merge frozen self m0 ms mfs n1 keys keys) n').
  { intros d rest. revert d. induction rest as [|a rest IH]; intros d r n' Hd Hr; simpl.
    - rewrite app_nil_r in Hd. subst d. by apply wp_ret.
    - assert (a ∈ keys) by (rewrite Hd; set_solver). apply wp_bind.
      eapply wp_mono; [eapply install_at_spec; try done; by apply Hsm|].
      intros r' n'' Hr'. apply (IH (d ++ [a])); [by rewrite <- app_assoc|done]. }
  eapply wp_seq; [apply (Hapart [] keys); [done|]|].
  { split_and!; simpl; [lia|done|done|intros a _ Ha; by apply elem_of_nil in Ha|done|done]. }
  intros [c self2] n3 Hap. apply wp_ret. simpl. split.
  - destruct Hap as (_ & _ & _ & _ & _ & Hcs). simpl in Hcs. subst c.
    destruct (dedup_spec (merge_sort le (concat (map (fun a => conflicts merge (slot_test merge m0 a) m0 ms mfs) keys))))
      as [Hsd Hin]; [apply (Sorted_StronglySorted le), Sorted_merge_sort; apply _|].
    apply strictly_sorted_ext; [done|by eapply StronglySorted_sublist; [apply conflicts_sublist|]|].
    intros p. rewrite Hin, merge_sort_Permutation, conflicts_in, list_elem_of_In, in_concat.
    setoid_rewrite <- list_elem_of_In. setoid_rewrite list_elem_of_fmap. split.
    + intros (l & (a & -> & Ha) & Hp). exists a. split; [by apply Hsm|done].
    + intros (a & Ha & Hp). eexists. split; [|done]. exists a. split; [done|].
      destruct (decide (a ∈ keys)) as [|Hna]; [done|]. exfalso.
      destruct (forked_at_nil merge frozen m0 fs mfs n1 Hr0 Hf1 a ms Ha (Hrest a Ha Hna)) as [_ Hnil].
      rewrite Hnil in Hp. by apply elem_of_nil in Hp.
  - apply (apart_branch merge frozen self m0 ms mfs n1 Hb1 keys (c, self2)); [|done].
    intros a Ha Hna. by apply (forked_at_nil merge frozen m0 fs mfs n1 Hr0 Hf1 a ms Ha), Hrest.
Qed.

(** Both ways of installing several forks do what the installs one after
    another do. *)
Lemma install_all_branch (frozen self : CowShards K V) m0 ms fs mfs n :
  shaped frozen -> repr frozen (slice m0) -> branch frozen n self (slice ms) ->
  forks_of frozen n fs mfs -> StronglySorted lt (map fst mfs) ->
  wp (install_all held merge self frozen fs)
    (fun r n' => r.1 = conflicts merge (conflicting merge m0) m0 ms mfs
                 /\ branch frozen n' r.2 (slice (merged_all merge m0 ms mfs))) n.
Proof.
  intros. unfold install_all. case_if; [by apply install_in_order_branch|by apply install_apart_branch].
Qed.
End Installs.
