(* ===== verification/CopyOnWriteSpec.v ===== *)
(** * What the copy-on-write storage promises

    A map of shards behaves as a finite map under any sequence of operations,
    forks included; an install is the three-way merge of the maps, and the
    installs of several forks in parallel are the installs one after another. *)

From S2P Require Import Prelude FileOrder CopyOnWrite CopyOnWriteProofs.
From stdpp Require Import list gmap sorting.
Local Open Scope prog_scope.

(** ** The supply of allocations *)

(** A computation never gives an allocation back. *)
Definition grows {A} (m : M N A) : Prop := forall n, match m n with Done (_, n') => (n <= n')%N | _ => True end.

Lemma grows_ret {A} (a : A) : grows (ret a).
Proof. intros n. simpl. lia. Qed.

Lemma grows_bind {A B} (m : M N A) (k : A -> M N B) : grows m -> (forall a, grows (k a)) -> grows (bind m k).
Proof.
  intros Hm Hk n. unfold bind. specialize (Hm n). destruct (m n) as [[a n1]| |]; [|done|done].
  specialize (Hk a n1). destruct (k a n1) as [[b n2]| |]; [lia|done|done].
Qed.

Lemma grows_new {A} (a : A) : grows (Arc_new a).
Proof. intros n. simpl. lia. Qed.

Lemma grows_unwrap {A} (o : option A) : grows (unwrap o).
Proof. destruct o; [apply grows_ret|by intros n]. Qed.

Lemma grows_for_each {A S} (body : S -> A -> M N S) l s : (forall s a, grows (body s a)) -> grows (for_each body l s).
Proof.
  intros Hb. revert s. induction l as [|a l IH]; intros s; [apply grows_ret|].
  by apply grows_bind.
Qed.

Create HintDb grows.
#[export] Hint Resolve grows_ret grows_bind grows_new grows_unwrap grows_for_each : grows.

Ltac grow := intros; repeat match goal with
  | |- grows (bind _ _) => apply grows_bind
  | |- grows (for_each _ _ _) => apply grows_for_each
  | |- grows (match ?x with _ => _ end) => destruct x
  | |- forall _, _ => intros ?
  | |- _ => solve [auto with grows]
  end.

Lemma wp_grows {A} (m : M N A) (Q : A -> N -> Prop) n :
  grows m -> wp m Q n -> wp m (fun a n' => (n <= n')%N /\ Q a n') n.
Proof. intros Hg. specialize (Hg n). unfold wp. by destruct (m n) as [[a n']| |]. Qed.

(** ** Sequences of operations *)

Section Specification.
Context {K V : Type} `{Countable K} `{!ShardKey K}.
Import CowShards.

Inductive Op : Type :=
  | Insert (key : K) (value : V)
  | Remove (key : K)
  | GetMut (key : K) (write : V -> V)
  | Entry (key : K) (use : option V -> option V)
  | Retain (keep : K -> V -> bool * V)
  | IterMut (write : K -> V -> V)
  | Extend (entries : list (K * V))
  | Clear
  | Fork
  | Flatten.

(** An operation of the storage, with the value it returns. *)
Definition run_op (self : CowShards K V) (op : Op) : M N (option V * CowShards K V) :=
  let done_ m := self <- m ;; ret (None, self) in
  match op with
  | Insert key value => insert self key value
  | Remove key => remove self key
  | GetMut key write => get_mut self key write
  | Entry key use => entry self key use
  | Retain keep => done_ (retain self keep)
  | IterMut write => done_ (iter_mut self write)
  | Extend entries => done_ (extend self entries)
  | Clear => done_ (clear self)
  | Fork => ret (None, fork self)
  | Flatten => done_ (fold_dirty self)
  end.

(** The operation on the map that is meant. *)
Definition spec_op (m : gmap K V) (op : Op) : option V * gmap K V :=
  match op with
  | Insert key value => (m !! key, <[key := value]> m)
  | Remove key => (m !! key, delete key m)
  | GetMut key write => (m !! key, alter write key m)
  | Entry key use => (m !! key, partial_alter use key m)
  | Retain keep =>
      (None, map_imap (fun k v => let '(kept, v') := keep k v in if kept then Some v' else None) m)
  | IterMut write => (None, map_imap (fun k v => Some (write k v)) m)
  | Extend entries => (None, foldl (fun m e => <[e.1 := e.2]> m) m entries)
  | Clear => (None, ∅)
  | Fork | Flatten => (None, m)
  end.

Definition run_ops (ops : list Op) (self : CowShards K V) : M N (list (option V) * CowShards K V) :=
  for_each (fun acc op =>
      let* (r, self) := run_op acc.2 op in ret (acc.1 ++ [r], self)) ops ([], self).

Definition spec_ops (ops : list Op) (m : gmap K V) : list (option V) * gmap K V :=
  foldl (fun acc op => (acc.1 ++ [(spec_op acc.2 op).1], (spec_op acc.2 op).2)) ([], m) ops.

(** What the readers of a map see of it. *)
Record reads (self : CowShards K V) (m : gmap K V) : Prop := {
  reads_get k : get self k = m !! k;
  reads_contains k : contains_key self k = bool_decide (is_Some (m !! k));
  reads_len : len self = size m;
  reads_is_empty : is_empty self = bool_decide (m = ∅);
  reads_iter : iter self ≡ₚ map_to_list m;
  reads_file f : small (file_slot K f) ->
    file_entries self f ≡ₚ map_to_list (filter (fun e => shard_owner e.1 = File f) m)
}.
End Specification.
Arguments Op K V : clear implicits.

(** ** The refinement *)

Section Refinement.
Context {K V : Type} `{Countable K} `{!ShardKey K} `{!SmallSlots K}.
Import CowShards.
Implicit Types self frozen : CowShards K V.

Lemma slot_of_file (k : K) f : slot_of k = file_slot K f <-> shard_owner k = File f.
Proof.
  unfold slot_of. destruct (shard_owner k) as [g|] eqn:Ho.
  - unfold file_slot. split; [intros Heq; f_equal; apply N2Nat.inj; lia|by intros [= ->]].
  - split; [|done]. unfold file_slot. destruct (PAGED K) eqn:Hp; [|by apply unpaged_owner in Ho].
    intros Heq. pose proof (N.mod_lt (N.shiftr (hash_one k) 40) (N.of_nat PAGES)). unfold PAGES in *. lia.
Qed.

Lemma branch_reads frozen n self m : branch frozen n self (slice m) -> reads self m.
Proof.
  intros [Hs _ _ _ _ Hr]. split.
  - intros k. by apply repr_get.
  - intros k. rewrite <- (repr_get self m k Hr). unfold contains_key, get.
    destruct (shard self (slot_of k)); [done|]. symmetry. apply bool_decide_eq_false. by intros [].
  - by apply len_size.
  - by apply is_empty_spec.
  - by apply iter_map_to_list.
  - intros f Hf. unfold file_entries. specialize (Hr _ Hf). rewrite shard_held.
    assert (Hsl : slice m (file_slot K f) = filter (fun e => shard_owner e.1 = File f) m).
    { unfold slice. apply map_filter_ext. intros k v _. simpl. apply slot_of_file. }
    rewrite <- Hsl, <- Hr. destruct (held_shard self (file_slot K f)); simpl; [done|].
    by rewrite map_to_list_empty.
Qed.

Lemma run_op_branch frozen self m op n :
  branch frozen n self (slice m) ->
  wp (run_op self op)
    (fun r n' => r.1 = (spec_op m op).1 /\ branch frozen n' r.2 (slice (spec_op m op).2)) n.
Proof.
  intros Hb.
  assert (Hdone : forall (c : M N (CowShards K V)) m',
            wp c (fun self' n' => branch frozen n' self' (slice m')) n ->
            wp (self <- c ;; ret (@None V, self))
              (fun r n' => r.1 = None /\ branch frozen n' r.2 (slice m')) n).
  { intros c m' Hc. apply wp_bind. eapply wp_mono; [exact Hc|]. intros self' n' Hb'. by apply wp_ret. }
  destruct op; simpl; try apply Hdone.
  - exact (branch_alter _ _ _ _ (fun _ => Some value) key Hb).
  - exact (branch_holding _ _ _ _ (fun _ => None) key eq_refl Hb).
  - exact (branch_holding _ _ _ _ (fmap write) key eq_refl Hb).
  - exact (branch_alter _ _ _ _ use key Hb).
  - by apply branch_map_imap.
  - by apply branch_map_imap.
  - by apply branch_extend.
  - apply (branch_clear frozen), Hb.
  - apply wp_ret. split; [done|]. by apply branch_fork.
  - by apply branch_flatten.
Qed.

Lemma run_ops_branch frozen self m ops n :
  branch frozen n self (slice m) ->
  wp (run_ops ops self)
    (fun r n' => r.1 = (spec_ops ops m).1 /\ branch frozen n' r.2 (slice (spec_ops ops m).2)) n.
Proof.
  intros Hb. unfold run_ops.
  apply (wp_for_each (fun l r n' => r.1 = (spec_ops l m).1
                                    /\ branch frozen n' r.2 (slice (spec_ops l m).2))); [|done|done].
  intros l op rest [rs self'] n' _ [Hrs Hb']. simpl in *. apply wp_bind.
  eapply wp_mono; [by apply run_op_branch|]. intros [r self2] n2 [Hr Hb2]. apply wp_ret.
  unfold spec_ops in *. rewrite foldl_app. simpl in *. by rewrite Hrs, Hr.
Qed.

Lemma branch_new n : wp default (fun self n' => branch self n' self (slice (∅ : gmap K V))) n.
Proof.
  unfold default, wp, bind, Arc_new, ret.
  assert (Hh : forall a, held_shard (mkShards (mkArc n []) ∅ false : CowShards K V) a = None)
    by (intros a; unfold held_shard; simpl; by rewrite lookup_empty).
  split; try done.
  - split; simpl; [intros a b _; by rewrite Hh|lia].
  - split; simpl; [intros a b _; by rewrite Hh|lia].
Qed.

(** A map that operations have built, and what it stands for. *)
Lemma built_branch (ops : list (Op K V)) n :
  wp (self <- default ;; run_ops ops self)
    (fun r n' => r.1 = (spec_ops ops ∅).1 /\ branch r.2 n' r.2 (slice (spec_ops ops ∅).2)) n.
Proof.
  eapply wp_seq; [apply branch_new|]. intros self n1 Hb.
  eapply wp_mono; [exact (run_ops_branch self self ∅ ops n1 Hb)|]. intros [rs self'] n2 [Hr Hb']. split; [done|].
  by eapply branch_refl.
Qed.

(** C23: the copy-on-write storage is a map: whatever sequence of insertions,
    removals, writes, retains, clears, forks and foldings is run on a new one,
    no index is out of range, every operation returns what it returns on the
    plain map, and all the readers (lookup, length, iteration, the entries of
    one file) see that map. *)
Theorem shards_refine_map (ops : list (Op K V)) n :
  wp (self <- default ;; run_ops ops self)
    (fun r _ => r.1 = (spec_ops ops ∅).1 /\ reads r.2 (spec_ops ops ∅).2) n.
Proof.
  eapply wp_mono; [apply built_branch|]. intros [rs self] n' [Hr Hb]. split; [done|].
  by eapply branch_reads.
Qed.

Lemma grows_dirty_mut {A} self a (f : gmap K V -> A * gmap K V) : grows (dirty_mut self a f).
Proof. unfold dirty_mut, make_mut. grow. Qed.

Lemma grows_replace_slot self a (x : option (Arc (gmap K V))) : grows (replace_slot self a x).
Proof. unfold replace_slot. grow. Qed.
#[local] Hint Resolve grows_dirty_mut grows_replace_slot : grows.

Lemma grows_shard_mut {A} self a (f : gmap K V -> A * gmap K V) : grows (shard_mut self a f).
Proof. unfold shard_mut, make_mut. grow. Qed.
#[local] Hint Resolve grows_shard_mut : grows.

Lemma grows_writable self f : grows (writable_shards (K := K) (V := V) self f).
Proof. unfold writable_shards, fold_dirty, fold_shard. grow. Qed.
#[local] Hint Resolve grows_writable : grows.

Lemma grows_run_ops (ops : list (Op K V)) self : grows (run_ops ops self).
Proof.
  unfold run_ops. apply grows_for_each. intros acc op. apply grows_bind; [|grow].
  destruct op; simpl;
    unfold get_mut, remove, insert, entry, holding_shard_mut, retain, iter_mut, extend, insert, clear,
      fold_dirty, fold_shard; grow.
Qed.
End Refinement.

(** *** Keys of a program with two files, for the examples *)

Inductive SampleKey : Type :=
  | InFile (second : bool)
  | Shared.

#[global] Instance sample_key_eq_dec : EqDecision SampleKey.
Proof. solve_decision. Defined.

#[global] Instance sample_key_countable : Countable SampleKey.
Proof.
  refine (inj_countable' (fun k => match k with InFile b => Some b | Shared => None end)
            (fun o => match o with Some b => InFile b | None => Shared end) _).
  by intros [].
Defined.

#[global] Instance sample_key_shard_key : ShardKey SampleKey := {|
  PAGED := true;
  shard_owner k := match k with InFile b => File (if b then 2 else 1)%N | Shared => Workspace end;
  hash_one _ := 2199023255552%N
|}.

#[global] Instance sample_key_small : SmallSlots SampleKey.
Proof. by split; [intros [[]|]|]. Qed.

Definition sample_ops : list (Op SampleKey N) :=
  [Insert (InFile false) 1%N; Fork; Insert Shared 7%N; Remove (InFile false); Remove (InFile true)].

Lemma shards_refine_map_witness :
  wp (self <- CowShards.default ;; run_ops sample_ops self)
    (fun r _ => r.1 = [None; None; None; Some 1%N; None] /\ reads r.2 {[ Shared := 7%N ]}) 0%N.
Proof. exact (shards_refine_map sample_ops 0%N). Defined.

(** ** Installs *)

Section Install.
Context {K V : Type} `{Countable K} `{!ShardKey K} `{!SmallSlots K} `{!EqDecision V}.
Import CowShards.
Variable merge : option (CopyOnWrite.Merge V).

(** A superstep: [ops] build the index; the tasks work on forks of it, the
    index itself goes on with [own], and the forks are installed. *)
Definition task (base : CowShards K V) (acc : list (nat * CowShards K V)) (t : nat * list (Op K V))
    : M N (list (nat * CowShards K V)) :=
  let* (_, fork) := run_ops t.2 (fork base) in ret (acc ++ [(t.1, fork)]).

Definition superstep (held : N -> bool) (ops own : list (Op K V)) (tasks : list (nat * list (Op K V)))
    (install : CowShards K V -> CowShards K V -> list (nat * CowShards K V) ->
               M N (list nat * CowShards K V)) : M N (list nat * CowShards K V) :=
  base <- default ;;
  let* (_, base) := run_ops ops base in
  let* (_, self) := run_ops own base in
  forks <- for_each (task base) tasks [] ;;
  install self base forks.

(** The maps that the tasks leave. *)
Definition task_maps (m0 : gmap K V) (tasks : list (nat * list (Op K V))) : list (nat * gmap K V) :=
  map (fun t => (t.1, (spec_ops t.2 m0).2)) tasks.

Lemma superstep_branch held ops own tasks install n (Q : list nat * CowShards K V -> N -> Prop) :
  let m0 := (spec_ops ops ∅).2 in
  (forall frozen self forks n1, shaped frozen -> repr frozen (slice m0) ->
     branch frozen n1 self (slice (spec_ops own m0).2) ->
     forks_of frozen n1 forks (task_maps m0 tasks) ->
     wp (install self frozen forks) Q n1) ->
  wp (superstep held ops own tasks install) Q n.
Proof.
  intros m0 Hi. unfold superstep. eapply wp_seq; [apply branch_new|]. intros base0 n0 Hb0.
  eapply wp_seq; [exact (run_ops_branch base0 base0 ∅ ops n0 Hb0)|]. intros [rs base] n1 [_ Hb].
  simpl in Hb. fold m0 in Hb. apply branch_refl in Hb.
  eapply wp_seq.
  { eapply wp_grows; [apply grows_run_ops|exact (run_ops_branch base base m0 own n1 Hb)]. }
  intros [rs' self] n2 [Hn2 [_ Hself]].
  apply (wp_seq (fun forks n' => (n2 <= n')%N /\ forks_of base n' forks (task_maps m0 tasks))).
  - apply (wp_for_each (fun l forks n' => (n2 <= n')%N /\ forks_of base n' forks (task_maps m0 l))); [|done|].
    + intros l [p tops] rest forks n' _ [Hn' Hf]. unfold task. apply wp_bind. simpl.
      eapply wp_mono; [apply wp_grows; [apply grows_run_ops|]|].
      * apply (run_ops_branch base _ m0). apply branch_fork. eapply branch_later; [done|lia].
      * intros [rs2 fork1] n3 [Hn3 [_ Hb3]]. apply wp_ret. split; [lia|].
        unfold task_maps. rewrite map_app. apply Forall2_app.
        -- by apply (forks_of_later base n').
        -- apply Forall2_cons. split; [by split|]. constructor.
    + split; [lia|constructor].
  - intros forks n3 [Hn3 Hf]. apply (Hi base); [apply Hb|apply Hb|by eapply branch_later|done].
Qed.

(** C24: installing a fork is the three-way merge: whatever built the index, and
    whatever the task and the index did since the fork was taken, the install
    does not panic, each key becomes what [three_way] says of the value that
    the fork found, the value of the index and the value that the fork left,
    and the install reports a conflict exactly when a key has one. *)
Theorem install_is_three_way held (ops own tops : list (Op K V)) n :
  let m0 := (spec_ops ops ∅).2 in
  let ms := (spec_ops own m0).2 in
  let mf := (spec_ops tops m0).2 in
  wp (superstep held ops own [(0, tops)]
        (fun self base forks => install_in_order held merge self base forks))
    (fun r _ => exists m,
       reads r.2 m
       /\ (forall k, m !! k = (three_way merge (m0 !! k) (ms !! k) (mf !! k)).2)
       /\ (r.1 = [0] <-> exists k, (three_way merge (m0 !! k) (ms !! k) (mf !! k)).1 = true)) n.
Proof.
  intros m0 ms mf. apply superstep_branch. intros frozen self forks n1 Hs Hr Hb Hf.
  eapply wp_mono; [exact (install_in_order_branch merge held frozen m0 forks _ self ms n1 Hs Hr Hb Hf)|].
  intros [c self'] n2 [Hc Hb']. simpl in *. exists (merged merge m0 ms mf). split_and!.
  - by eapply branch_reads.
  - intros k. apply install_keys_lookup.
  - rewrite <- install_keys_conflict. subst c. unfold conflicting.
    change (spec_ops tops _).2 with mf. change (spec_ops ops ∅).2 with m0.
    destruct (install_keys merge m0 mf ms).1; simpl; split; done.
Qed.

(** C25: installing the forks of a superstep on worker threads, shard by shard,
    leaves the same index and reports the same places as installing them one
    after another, whichever of the two the map chooses. *)
Theorem install_all_in_order held held' (ops own : list (Op K V)) tasks n :
  StronglySorted lt (map fst tasks) ->
  wp (superstep held ops own tasks (fun self base forks => install_all held merge self base forks))
    (fun r _ =>
       wp (superstep held' ops own tasks (fun self base forks => install_in_order held' merge self base forks))
         (fun r' _ => r.1 = r'.1 /\ exists m, reads r.2 m /\ reads r'.2 m) n) n.
Proof.
  intros Hsort.
  assert (Hmaps : map fst (task_maps (spec_ops ops ∅).2 tasks) = map fst tasks)
    by (unfold task_maps; by rewrite map_map).
  apply superstep_branch. intros frozen self forks n1 Hs Hr Hb Hf.
  eapply wp_mono; [eapply install_all_branch; try done; by rewrite Hmaps|].
  intros r n2 [Hc Hb1]. apply superstep_branch. intros frozen2 self2 forks2 n3 Hs2 Hr2 Hb2 Hf2.
  eapply wp_mono; [by eapply install_in_order_branch|].
  intros r' n4 [Hc' Hb4]. split; [congruence|]. eexists. split; by eapply branch_reads.
Qed.
End Install.

Lemma install_is_three_way_witness :
  wp (superstep (fun _ => true) [Insert (InFile false) 1%N; Insert Shared 5%N]
        [Insert Shared 6%N] [(0, [Remove (InFile false); Insert Shared 7%N])]
        (fun self base forks => CowShards.install_in_order (fun _ => true) None self base forks))
    (fun r _ => exists m, reads r.2 m
       /\ (forall k, m !! k = (three_way None
             ((<[Shared := 5%N]> {[ InFile false := 1%N ]} : gmap SampleKey N) !! k)
             ((<[Shared := 6%N]> (<[Shared := 5%N]> {[ InFile false := 1%N ]}) : gmap SampleKey N) !! k)
             ((<[Shared := 7%N]> (delete (InFile false) (<[Shared := 5%N]> {[ InFile false := 1%N ]}))
                : gmap SampleKey N) !! k)).2)
       /\ (r.1 = [0] <-> exists k, (three_way None
             ((<[Shared := 5%N]> {[ InFile false := 1%N ]} : gmap SampleKey N) !! k)
             ((<[Shared := 6%N]> (<[Shared := 5%N]> {[ InFile false := 1%N ]}) : gmap SampleKey N) !! k)
             ((<[Shared := 7%N]> (delete (InFile false) (<[Shared := 5%N]> {[ InFile false := 1%N ]}))
                : gmap SampleKey N) !! k)).1 = true)) 0%N.
Proof.
  exact (install_is_three_way None (fun _ => true) [Insert (InFile false) 1%N; Insert Shared 5%N]
           [Insert Shared 6%N] [Remove (InFile false); Insert Shared 7%N] 0%N).
Defined.

Definition sample_tasks : list (nat * list (Op SampleKey N)) :=
  [(3, [Insert Shared 6%N]); (5, [Insert Shared 7%N; Insert (InFile true) 2%N])].

Lemma install_all_in_order_witness :
  StronglySorted lt (map fst sample_tasks) /\
  wp (superstep (fun _ => true) [Insert (InFile false) 1%N] [] sample_tasks
        (fun self base forks => CowShards.install_all (fun _ => true) None self base forks))
    (fun r _ =>
       wp (superstep (fun _ => false) [Insert (InFile false) 1%N] [] sample_tasks
             (fun self base forks => CowShards.install_in_order (fun _ => false) None self base forks))
         (fun r' _ => r.1 = r'.1 /\ exists m, reads r.2 m /\ reads r'.2 m) 0%N) 0%N.
Proof.
  assert (Hs : StronglySorted lt (map fst sample_tasks)) by (repeat constructor).
  split; [exact Hs|].
  exact (install_all_in_order None (fun _ => true) (fun _ => false) [Insert (InFile false) 1%N] []
           sample_tasks 0%N Hs).
Defined.

(** The second task of the example conflicts with the first one. *)
Example sample_conflict :
  match superstep (fun _ => true) [Insert (InFile false) 1%N] [] sample_tasks
          (fun self base forks => CowShards.install_all (fun _ => true) None self base forks) 0%N with
  | Done (r, _) => (r.1, CowShards.iter r.2)
  | _ => ([], [])
  end = ([5], [(Shared, 7%N); (InFile false, 1%N); (InFile true, 2%N)]).
Proof. vm_compute. reflexivity. Qed.

(** ** A fork that wrote nothing *)

Section Wrote.
Context {K V : Type} `{Countable K} `{!ShardKey K} `{!SmallSlots K}.
Import CowShards.

Lemma wrote_false (frozen fork : CowShards K V) n m0 mf :
  repr frozen (slice m0) -> branch frozen n fork (slice mf) -> wrote fork frozen = false -> m0 = mf.
Proof.
  intros Hr Hb Hw. unfold wrote in Hw. apply orb_false_iff in Hw as [Hp Hd].
  apply negb_false_iff in Hp.
  assert (Heq : forall a, small a -> shard_of (held_shard frozen a) = shard_of (held_shard fork a)).
  { intros a Ha. destruct (dirty fork !! as_u32 a) as [x|] eqn:Hx.
    - apply (br_coherent _ _ _ _ Hb); [done|].
      assert (He : (as_u32 a, x) ∈ map_to_list (dirty fork)) by (by apply elem_of_map_to_list).
      apply list_elem_of_In in He. unfold held_shard. rewrite Hx.
      destruct (dirty frozen !! as_u32 a) as [y|] eqn:Hy.
      + simpl. destruct (ptr_eq y x) eqn:Hyx; [done|]. exfalso.
        assert (Hex : existsb (fun e => match dirty frozen !! e.1 with
            Some held => negb (ptr_eq held e.2) | None => true end) (map_to_list (dirty fork)) = true).
        { apply existsb_exists. exists (as_u32 a, x). split; [done|]. simpl. by rewrite Hy, Hyx. }
        congruence.
      + exfalso. assert (Hex : existsb (fun e => match dirty frozen !! e.1 with
            Some held => negb (ptr_eq held e.2) | None => true end) (map_to_list (dirty fork)) = true).
        { apply existsb_exists. exists (as_u32 a, x). split; [done|]. simpl. by rewrite Hy. }
        congruence.
    - rewrite (br_derived _ _ _ _ Hb Hp a Ha); [done|]. by apply not_elem_of_dom. }
  apply map_eq. intros k. pose proof (Heq _ (small_slots k)) as Hk.
  rewrite (Hr _ (small_slots k)), (br_repr _ _ _ _ Hb _ (small_slots k)) in Hk.
  assert (Hl : slice m0 (slot_of k) !! k = slice mf (slot_of k) !! k) by congruence.
  by rewrite !slice_lookup, !decide_True in Hl.
Qed.

(** A fork that says that it wrote nothing holds what the map held when it
    was taken: nothing is lost when its install is left out. *)
Theorem wrote_nothing (ops tops : list (Op K V)) n :
  wp (base <- default ;;
      let* (_, base) := run_ops ops base in
      let* (_, fork) := run_ops tops (fork base) in
      ret (base, fork))
    (fun r _ => wrote r.2 r.1 = false ->
       (spec_ops tops (spec_ops ops ∅).2).2 = (spec_ops ops ∅).2) n.
Proof.
  eapply wp_seq; [apply branch_new|]. intros base0 n0 Hb0.
  eapply wp_seq; [exact (run_ops_branch base0 base0 ∅ ops n0 Hb0)|]. intros [rs base] n1 [_ Hb].
  simpl in Hb. apply branch_refl in Hb.
  eapply wp_seq; [exact (run_ops_branch base _ _ tops n1 (branch_fork _ _ _ _ Hb))|].
  intros [rs' fork] n2 [_ Hf]. apply wp_ret. simpl. intros Hw. symmetry.
  by eapply wrote_false; [apply Hb|exact Hf|].
Qed.
End Wrote.

Lemma wrote_nothing_witness :
  wp (base <- CowShards.default ;;
      let* (_, base) := run_ops [Insert Shared 1%N] base in
      let* (_, fork) := run_ops [Remove (InFile true); GetMut (InFile false) N.succ] (CowShards.fork base) in
      ret (base, fork))
    (fun r _ => CowShards.wrote r.2 r.1 = false ->
       (spec_ops [Remove (InFile true); GetMut (InFile false) N.succ]
          (spec_ops [Insert Shared 1%N] (∅ : gmap SampleKey N)).2).2
       = (spec_ops [Insert Shared 1%N] ∅).2) 0%N.
Proof.
  exact (wrote_nothing [Insert Shared 1%N] [Remove (InFile true); GetMut (InFile false) N.succ] 0%N).
Defined.

(** ** Merges *)

Lemma merge_sum_value w (c z f : option N) :
  from_option id 0%N (merge_sum (Summand0 := unsigned_summand w) c z f).1
  = ((from_option id 0 c + (from_option id 0 f + 2 ^ w - from_option id 0 z)) mod 2 ^ w)%N.
Proof.
  unfold merge_sum. simpl.
  rewrite N.Div0.add_mod_idemp_r. case_bool_decide as Hs; simpl; [done|].
  by rewrite Hs.
Qed.

(** Two tasks' changes of a sum add up in either order, also when they wrap
    around. *)
Theorem merge_sum_commutes w (c z f1 f2 : option N) :
  let merge c f := (merge_sum (Summand0 := unsigned_summand w) c z f).1 in
  merge (merge c f1) f2 = merge (merge c f2) f1.
Proof.
  intros merge.
  assert (Hv : forall c f, merge c f
    = let s := from_option id 0%N (merge c f) in if bool_decide (s <> 0%N) then Some s else None).
  { intros c' f. unfold merge, merge_sum. simpl. case_bool_decide as Hs; simpl; [|done].
    by rewrite bool_decide_eq_true_2. }
  rewrite (Hv (merge c f1)), (Hv (merge c f2)). cbv zeta. unfold merge.
  rewrite !merge_sum_value.
  rewrite !N.Div0.add_mod_idemp_l. by rewrite <- !N.add_assoc, (N.add_comm (_ - _) (_ - _)).
Qed.

Section MergeSet.
Context {T : Type} `{Countable T}.

Lemma fold_put (z : option (gset T)) (l : list T) (s : gset T) x :
  x ∈ foldl (fun s e => if had z e then s else {[e]} ∪ s) s l <-> x ∈ s \/ x ∈ l /\ had z x = false.
Proof.
  revert s. induction l as [|e l IH]; intros s; simpl; [rewrite elem_of_nil; tauto|].
  rewrite IH, elem_of_cons. destruct (had z e) eqn:He; [naive_solver congruence|].
  rewrite elem_of_union, elem_of_singleton. naive_solver.
Qed.

Lemma fold_drop (f : option (gset T)) (l : list T) (s : gset T) x :
  x ∈ foldl (fun s e => if had f e then s else s ∖ {[e]}) s l
  <-> x ∈ s /\ (x ∈ l -> had f x = true).
Proof.
  revert s. induction l as [|e l IH]; intros s; simpl; [set_solver|].
  rewrite IH, elem_of_cons. destruct (had f e) eqn:He; [naive_solver|].
  rewrite elem_of_difference, elem_of_singleton. split; [|naive_solver congruence].
  intros [[Hs Hne] Hl]. split; [done|]. intros [->|]; auto.
Qed.

Lemma had_prune (s : gset T) x : had (prune (fun s => bool_decide (s = ∅)) (Some s)) x = bool_decide (x ∈ s).
Proof.
  unfold prune. simpl. case_bool_decide as Hs; simpl; [|done]. subst s.
  symmetry. apply bool_decide_eq_false. apply not_elem_of_empty.
Qed.

Lemma elements_of_had (s : option (gset T)) x : x ∈ elements_of s <-> had s x = true.
Proof.
  destruct s as [s|]; simpl; [by rewrite elem_of_elements, bool_decide_eq_true|].
  split; [by intros Hx%elem_of_nil|done].
Qed.

Lemma merge_set_in (c z f : option (gset T)) x :
  had (merge_set c z f).1 x = (had f x || negb (had z x)) && had c x || had f x && negb (had z x).
Proof.
  unfold merge_set. simpl fst. rewrite had_prune. apply eq_bool_prop_intro.
  rewrite bool_decide_spec, fold_drop, fold_put, !elements_of_had.
  assert (Hc : x ∈ from_option id ∅ c <-> had c x = true).
  { destruct c as [c|]; simpl; [by rewrite bool_decide_eq_true|]. split; [set_solver|done]. }
  rewrite Hc. destruct (had c x), (had z x), (had f x); simpl; naive_solver.
Qed.

(** Two tasks' changes of a set compose in either order: an element stays or
    goes as the task that changed it says. *)
Theorem merge_set_commutes (c z f1 f2 : option (gset T)) :
  (merge_set (merge_set c z f1).1 z f2).1 = (merge_set (merge_set c z f2).1 z f1).1.
Proof.
  assert (Hext : forall a b : option (gset T), (forall x, had a x = had b x) ->
            a <> Some ∅ -> b <> Some ∅ -> a = b).
  { intros [a|] [b|] Hab Ha Hb; simpl in *; [| | |done].
    - f_equal. apply set_eq. intros x. specialize (Hab x).
      rewrite <- (bool_decide_eq_true (x ∈ a)), Hab, bool_decide_eq_true. done.
    - exfalso. apply Ha. f_equal. apply set_eq. intros x. specialize (Hab x).
      apply bool_decide_eq_false in Hab. set_solver.
    - exfalso. apply Hb. f_equal. apply set_eq. intros x. specialize (Hab x).
      symmetry in Hab. apply bool_decide_eq_false in Hab. set_solver. }
  assert (Hprune : forall a b d : option (gset T), (merge_set a b d).1 <> Some ∅).
  { intros a b d. unfold merge_set. simpl fst. unfold prune. simpl.
    case_bool_decide as Hs; [done|]. intros [= Heq]. done. }
  apply Hext; [|apply Hprune|apply Hprune]. intros x. rewrite !merge_set_in.
  by destruct (had c x), (had z x), (had f1 x), (had f2 x).
Qed.
End MergeSet.

Section MergeMap.
Context {K V : Type} `{Countable K} `{!EqDecision V}.
Variable inner : CopyOnWrite.Merge V.
Implicit Types m : gmap K V.

Abbreviation tw := (three_way (Some inner)).

Lemma keys_in_spec (map : option (gmap K V)) k : k ∈ keys_in map <-> is_Some (entry_in map k).
Proof.
  destruct map as [m|]; simpl; [by rewrite elem_of_elements, elem_of_dom|].
  split; [by intros Hk%elem_of_nil|by intros []].
Qed.

Lemma changed_in_spec (frozen fork : option (gmap K V)) k :
  k ∈ changed_in frozen fork <-> entry_in fork k <> entry_in frozen k.
Proof.
  unfold changed_in. rewrite elem_of_app, !list_elem_of_filter, !keys_in_spec.
  destruct (entry_in fork k), (entry_in frozen k); naive_solver.
Qed.

Lemma NoDup_keys_in (map : option (gmap K V)) : NoDup (keys_in map).
Proof. destruct map; [apply NoDup_elements|constructor]. Qed.

Lemma changed_in_NoDup (frozen fork : option (gmap K V)) : NoDup (changed_in frozen fork).
Proof.
  unfold changed_in. apply NoDup_app. split_and!; [apply NoDup_filter, NoDup_keys_in| |apply NoDup_filter, NoDup_keys_in].
  intros k Hk Hk'. apply list_elem_of_filter in Hk as [_ Hk%keys_in_spec].
  apply list_elem_of_filter in Hk' as [Hn _]. rewrite Hn in Hk. by destruct Hk.
Qed.

(** The conflicts of [three_way], for keys that the fork changed. *)
Lemma merge_keys_spec (frozen fork : option (gmap K V)) keys m :
  NoDup keys -> (forall k, k ∈ keys -> entry_in fork k <> entry_in frozen k) ->
  match merge_keys inner frozen fork keys m with
  | (m', Ok _) =>
      forall k, (k ∈ keys -> (tw (entry_in frozen k) (m !! k) (entry_in fork k)).1 = false
                            /\ m' !! k = (tw (entry_in frozen k) (m !! k) (entry_in fork k)).2)
                /\ (k ∉ keys -> m' !! k = m !! k)
  | (_, Err _) => exists k, k ∈ keys /\ (tw (entry_in frozen k) (m !! k) (entry_in fork k)).1 = true
  end.
Proof.
  revert m. induction keys as [|k0 keys IH]; intros m Hnd Hne; simpl.
  { intros k. split; [by intros Hk%elem_of_nil|done]. }
  apply NoDup_cons in Hnd as [Hk0 Hnd].
  assert (Hne0 : entry_in fork k0 <> entry_in frozen k0) by (apply Hne; set_solver).
  assert (Hstep : forall v,
      tw (entry_in frozen k0) (m !! k0) (entry_in fork k0) = (false, v) ->
      match merge_keys inner frozen fork keys (partial_alter (fun _ => v) k0 m) with
      | (m', Ok _) =>
          forall k, (k ∈ k0 :: keys -> (tw (entry_in frozen k) (m !! k) (entry_in fork k)).1 = false
                       /\ m' !! k = (tw (entry_in frozen k) (m !! k) (entry_in fork k)).2)
                    /\ (k ∉ k0 :: keys -> m' !! k = m !! k)
      | (_, Err _) => exists k, k ∈ k0 :: keys /\ (tw (entry_in frozen k) (m !! k) (entry_in fork k)).1 = true
      end).
  { intros v Hv. specialize (IH (partial_alter (fun _ => v) k0 m) Hnd ltac:(set_solver)).
    destruct (merge_keys _ _ _ _ _) as [m' [[]|[]]].
    - intros k. destruct (IH k) as [Hin Hout]. destruct (decide (k = k0)) as [->|Hk].
      + split; [|set_solver]. intros _. rewrite Hv. simpl. split; [done|].
        rewrite Hout by done. apply lookup_partial_alter_eq.
      + rewrite lookup_partial_alter_ne in Hin, Hout by done. set_solver.
    - destruct IH as (k & Hk & Ht). exists k. rewrite lookup_partial_alter_ne in Ht by (by intros ->).
      set_solver. }
  unfold three_way in Hstep at 1. rewrite (bool_decide_eq_false_2 (entry_in fork k0 = _)) in Hstep by done.
  case_bool_decide as Hnow; [by apply Hstep|].
  destruct (inner _ _ _) as [slot [[]|[]]] eqn:Hi; [by apply Hstep|].
  destruct (decide (m !! k0 = entry_in fork k0)) as [Hid|Hid].
  - rewrite (bool_decide_eq_true_2 (m !! k0 = _)) by done. apply Hstep. f_equal.
    apply bool_decide_eq_false. by intros [].
  - rewrite (bool_decide_eq_false_2 (m !! k0 = entry_in fork k0)) by done. exists k0. split; [set_solver|]. unfold three_way.
    rewrite !bool_decide_eq_false_2 by done. rewrite Hi. simpl. by apply bool_decide_eq_true.
Qed.

(** Merging two maps key by key is the three-way merge of their entries
    with the inner merge: it succeeds exactly when no key conflicts. *)
Theorem merge_map_is_three_way (current frozen fork : option (gmap K V)) :
  match merge_map inner current frozen fork with
  | (merged, Ok _) =>
      forall k, (tw (entry_in frozen k) (entry_in current k) (entry_in fork k)).1 = false
                /\ entry_in merged k = (tw (entry_in frozen k) (entry_in current k) (entry_in fork k)).2
  | (_, Err _) => exists k, (tw (entry_in frozen k) (entry_in current k) (entry_in fork k)).1 = true
  end.
Proof.
  unfold merge_map.
  pose proof (merge_keys_spec frozen fork (changed_in frozen fork) (from_option id ∅ current)
                (changed_in_NoDup frozen fork) (fun k => proj1 (changed_in_spec frozen fork k))) as Hm.
  assert (Hc : forall k, (from_option id ∅ current : gmap K V) !! k = entry_in current k)
    by (intros k; destruct current; [done|apply lookup_empty]).
  destruct (merge_keys _ _ _ _ _) as [m [[]|[]]];
    [|destruct Hm as (k & _ & Hk); rewrite Hc in Hk; by exists k].
  intros k. destruct (Hm k) as [Hin Hout]. rewrite Hc in Hin, Hout.
  assert (Hp : entry_in (prune (fun m => bool_decide (m = ∅)) (Some m)) k = m !! k).
  { unfold prune. simpl. case_bool_decide as He; [by subst m|done]. }
  rewrite Hp. destruct (decide (k ∈ changed_in frozen fork)) as [Hk|Hk]; [by apply Hin|].
  rewrite Hout by done. rewrite changed_in_spec in Hk. apply dec_stable in Hk.
  by rewrite Hk, three_way_unchanged.
Qed.
End MergeMap.
