(* ===== verification/Readers.v ===== *)
(** * The readers of a fact

    [Readers], [ReaderOp] and the routines on sorted lists of
    [src/crates/glua_code_analysis/src/db_index/derivation/graph.rs]: which
    derivations read a key, grouped by the fingerprint each of them saw.

    A derivation and a key are the indexes of their slots.  A vector with spare
    capacity is its list. *)

From S2P Require Import Prelude.
From stdpp Require Import list gmap sorting.
Local Open Scope prog_scope.

(** A fact key's slot in a key table. *)
Notation KeyIdx := nat.
(** A derivation's slot. *)
Notation DerivIdx := nat.
(** The hash of a value: a [u64]. *)
Notation Fingerprint := N.

(** ** Sorted lists *)

(** [slice::binary_search] on a sorted slice: whether the value is there, and
    its place or the place to insert it. *)
Definition binary_search (l : list nat) (x : nat) : bool * nat :=
  let at_ := partition_point (fun y => (y <? x)%nat) l in
  (bool_decide (l !! at_ = Some x), at_).

Definition insert_at (at_ : nat) (x : nat) (l : list nat) : list nat := take at_ l ++ x :: drop at_ l.

Definition take_from (derivs : list DerivIdx) (deriv : DerivIdx) : list DerivIdx :=
  let '(found, index) := binary_search derivs deriv in
  if found then delete index derivs else derivs.

(** [if let Err(at) = derivs.binary_search(&deriv) { derivs.insert(at, deriv) }] *)
Definition file_reader (derivs : list DerivIdx) (deriv : DerivIdx) : list DerivIdx :=
  let '(found, at_) := binary_search derivs deriv in
  if found then derivs else insert_at at_ deriv derivs.

(** [derivs.copy_within(from..to, at)]: the list keeps its length. *)
Definition copy_within (derivs : list nat) (from to at_ : nat) : list nat :=
  take at_ derivs ++ take (to - from) (drop from derivs) ++ drop (at_ + (to - from)) derivs.

Definition remove_sorted (derivs gone : list DerivIdx) : list DerivIdx :=
  let '(derivs, read, write) :=
    foldl (fun '(derivs, read, write) deriv =>
        let '(found, at_) := binary_search (drop read derivs) deriv in
        if found then
          let at_ := read + at_ in
          (copy_within derivs read at_ write, S at_, write + (at_ - read))
        else (derivs, read, write))
      (derivs, 0, 0) gone in
  let len := length derivs in
  take (write + len - read) (copy_within derivs read len write).

Definition insert_sorted (derivs new : list DerivIdx) : list DerivIdx :=
  let read_end := length derivs in
  let derivs := derivs ++ replicate (length new) 0 in
  let '(derivs, _, _) :=
    foldl (fun '(derivs, read_end, write_end) deriv =>
        let at_ := partition_point (fun existing => (existing <? deriv)%nat) (take read_end derivs) in
        let run := read_end - at_ in
        let derivs := copy_within derivs at_ read_end (write_end - run) in
        let write_end := write_end - S run in
        (<[write_end := deriv]> derivs, at_, write_end))
      (derivs, read_end, length derivs) (reverse new) in
  derivs.

(** [Vec::dedup] *)
Fixpoint dedup (l : list nat) : list nat :=
  match l with
  | x :: ((y :: _) as l') => if (x =? y)%nat then dedup l' else x :: dedup l'
  | _ => l
  end.

(** The merge of two sorted lists without repeats. *)
Fixpoint merge_slots (fuel : nat) (kept renamed : list KeyIdx) : list KeyIdx :=
  match fuel, kept, renamed with
  | S fuel, k :: kept', r :: renamed' =>
      if (k <? r)%nat then k :: merge_slots fuel kept' renamed
      else if (r <? k)%nat then r :: merge_slots fuel kept renamed'
      else k :: merge_slots fuel kept' renamed'
  | _, kept, renamed => kept ++ renamed
  end.

Definition renamed_slots (reads : list KeyIdx) (moves : list (KeyIdx * KeyIdx)) : list KeyIdx :=
  let '(kept, renamed, _) :=
    foldl (fun '(kept, renamed, moves) read =>
        let moves := drop (partition_point (fun m : KeyIdx * KeyIdx => (m.1 <? read)%nat) moves) moves in
        match moves with
        | (source, target) :: _ =>
            if (source =? read)%nat then (kept, renamed ++ [target], moves) else (kept ++ [read], renamed, moves)
        | [] => (kept ++ [read], renamed, moves)
        end)
      ([], [], moves) reads in
  let renamed := dedup (sort_by Nat.leb renamed) in
  merge_slots (length kept + length renamed) kept renamed.

(** ** [Readers] *)

Notation group := (Fingerprint * list DerivIdx)%type.

Inductive Readers : Type :=
  | None_
  | One (seen : Fingerprint) (reader : DerivIdx)
  | Group (seen : Fingerprint) (derivs : list DerivIdx)
  | Groups (groups : list group).

Module Readers.
Implicit Types self : Readers.

Definition collapse self : Readers :=
  match self with
  | Groups groups =>
      let groups := filter (fun g : group => length g.2 <> 0) groups in
      if (1 <? length groups)%nat then Groups groups else
      match last groups with
      | None => None_
      | Some (seen, derivs) => match derivs with [reader] => One seen reader | _ => Group seen derivs end
      end
  | _ => self
  end.

Definition groups self : list group :=
  match self with
  | None_ => []
  | One seen reader => [(seen, [reader])]
  | Group seen derivs => [(seen, derivs)]
  | Groups groups => groups
  end.

Definition iter self : list (Fingerprint * DerivIdx) :=
  flat_map (fun g : group => (fun deriv => (g.1, deriv)) <$> g.2) (groups self).

Definition is_empty self : bool := match self with None_ => true | _ => false end.

Definition has_group (seen : Fingerprint) (groups : list group) : bool :=
  existsb (fun g : group => N.eqb g.1 seen) groups.

Definition insert self (deriv : DerivIdx) (seen : Fingerprint) : Readers :=
  match self with
  | None_ => One seen deriv
  | One group reader =>
      if (reader =? deriv)%nat then One seen reader
      else if N.eqb group seen
      then Group seen (if (reader <? deriv)%nat then [reader; deriv] else [deriv; reader])
      else Groups [(group, [reader]); (seen, [deriv])]
  | Group group derivs =>
      if N.eqb group seen then Group group (file_reader derivs deriv)
      else collapse (Groups [(group, take_from derivs deriv); (seen, [deriv])])
  | Groups groups =>
      let groups' := (fun g : Fingerprint * list DerivIdx =>
        (g.1, if N.eqb g.1 seen then file_reader g.2 deriv else take_from g.2 deriv)) <$> groups in
      collapse (Groups (if has_group seen groups then groups' else groups' ++ [(seen, [deriv])]))
  end.

Definition remove self (deriv : DerivIdx) : Readers :=
  match self with
  | None_ => None_
  | One _ reader => if (reader =? deriv)%nat then None_ else self
  | Group seen derivs =>
      let derivs := take_from derivs deriv in
      match derivs with [reader] => One seen reader | _ => Group seen derivs end
  | Groups groups => collapse (Groups ((fun g : group => (g.1, take_from g.2 deriv)) <$> groups))
  end.

(** The group the derivation reads in, if it is a reader. *)
Definition group_of self (deriv : DerivIdx) : option Fingerprint :=
  fst <$> List.find (fun g : group => (binary_search g.2 deriv).1) (groups self).

(** A derivation that is no reader: a panic, unless one group is kept in the
    slot. *)
Definition seen_by self (deriv : DerivIdx) : outcome Fingerprint :=
  match self with
  | One seen _ => Done seen
  | Group seen _ => Done seen
  | _ => expect (group_of self deriv)
  end.

(** [Vec::swap_remove] *)
Definition swap_remove {A} (l : list A) (at_ : nat) : list A :=
  match last l with
  | Some x => take (length l - 1) (<[at_ := x]> l)
  | None => l
  end.

Definition relabel self (from to : Fingerprint) : Readers :=
  match self with
  | None_ => None_
  | One seen reader => if N.eqb seen from then One to reader else self
  | Group seen derivs => if N.eqb seen from then Group to derivs else self
  | Groups groups =>
      if N.eqb from to then self else
      match list_find (fun g : group => g.1 = from) groups with
      | None => self
      | Some (at_, (_, derivs)) =>
          let groups := swap_remove groups at_ in
          collapse (Groups
            match list_find (fun g : group => g.1 = to) groups with
            | Some (i, (seen, into)) => <[i := (seen, sort_by Nat.leb (into ++ derivs))]> groups
            | None => groups ++ [(to, derivs)]
            end)
      end
  end.
End Readers.

(** ** [ReaderOp] *)

Inductive ReaderOp : Type :=
  | Seen (deriv : DerivIdx) (seen : Fingerprint)
  | Insert_ (deriv : DerivIdx) (seen : Fingerprint)
  | Remove (deriv : DerivIdx).

Module ReaderOp.
Definition apply (self : ReaderOp) (readers : Readers) : outcome Readers :=
  match self with
  | Seen deriv seen =>
      s ← Readers.seen_by readers deriv;
      Done (if N.eqb s seen then readers else Readers.insert readers deriv seen)
  | Insert_ deriv seen => Done (Readers.insert readers deriv seen)
  | Remove deriv => Done (Readers.remove readers deriv)
  end.
End ReaderOp.

(** ** [Readers::apply_all] *)

Module ApplyAll.
(** The derivation and the group it goes to. *)
Definition target (op : ReaderOp) : DerivIdx * option Fingerprint :=
  match op with
  | Seen deriv seen | Insert_ deriv seen => (deriv, Some seen)
  | Remove deriv => (deriv, None)
  end.

(** The sizes of the groups in order. *)
Notation sizes := (list (Fingerprint * nat)).

Definition leave (order : sizes) (from : Fingerprint) : outcome sizes :=
  '(at_, (seen, len)) ← expect (list_find (fun g : Fingerprint * nat => g.1 = from) order);
  (* [order[at].1 -= 1] below zero *)
  match len with
  | 0 => Panic
  | S len => Done (if (len =? 0)%nat then delete at_ order else <[at_ := (seen, len)]> order)
  end.

Definition join (order : sizes) (to : Fingerprint) : sizes :=
  match list_find (fun g : Fingerprint * nat => g.1 = to) order with
  | Some (at_, (seen, len)) => <[at_ := (seen, S len)]> order
  | None => order ++ [(to, 1)]
  end.

Notation touches := (gmap DerivIdx (option Fingerprint * option Fingerprint)).

Definition touch (self : Readers) (acc : sizes * touches) (op : ReaderOp) : outcome (sizes * touches) :=
  let '(order, touched) := acc in
  let '(deriv, to) := target op in
  let '(before, now) := default (Readers.group_of self deriv, Readers.group_of self deriv) (touched !! deriv) in
  if bool_decide (now = to) then Done (order, <[deriv := (before, now)]> touched) else
  order ← match now with Some from => leave order from | None => Done order end;
  Done (match to with Some to => join order to | None => order end, <[deriv := (before, to)]> touched).

Fixpoint touch_all (self : Readers) (acc : sizes * touches) (ops : list ReaderOp) : outcome (sizes * touches) :=
  match ops with
  | [] => Done acc
  | op :: ops => acc ← touch self acc op; touch_all self acc ops
  end.

Definition moved_le (a b : Fingerprint * DerivIdx) : bool :=
  (N.ltb a.1 b.1 || (N.eqb a.1 b.1 && (a.2 <=? b.2)%nat))%bool.

(** The derivations of one group among the sorted [moved]. *)
Definition of_group (moved : list (Fingerprint * DerivIdx)) (seen : Fingerprint) : list DerivIdx :=
  let start := partition_point (fun m : Fingerprint * DerivIdx => N.ltb m.1 seen) moved in
  let end_ := partition_point (fun m : Fingerprint * DerivIdx => N.leb m.1 seen) moved in
  snd <$> take (end_ - start) (drop start moved).

Definition leaving (touched : touches) : list (Fingerprint * DerivIdx) :=
  omap (fun '(deriv, (before, after)) =>
    if bool_decide (before = after) then None else (fun seen => (seen, deriv)) <$> (before : option Fingerprint))
    (map_to_list touched).
Definition joining (touched : touches) : list (Fingerprint * DerivIdx) :=
  omap (fun '(deriv, (before, after)) =>
    if bool_decide (before = after) then None else (fun seen => (seen, deriv)) <$> (after : option Fingerprint))
    (map_to_list touched).

(** One group of the new order: what is left of the old one with the readers
    that join it. *)
Definition regroup (leaving joining : list (Fingerprint * DerivIdx)) (acc : list group * list group)
    (g : Fingerprint * nat) : list group * list group :=
  let '(groups, regrouped) := acc in
  let '(seen, _) := g in
  let '(groups, derivs) :=
    match list_find (fun g : group => g.1 = seen) groups with
    | Some (at_, (_, derivs)) => (Readers.swap_remove groups at_, derivs)
    | None => (groups, [])
    end in
  (groups, regrouped ++ [(seen, insert_sorted (remove_sorted derivs (of_group leaving seen)) (of_group joining seen))]).

Definition apply_all (self : Readers) (ops : list ReaderOp) : outcome Readers :=
  match ops with
  | [op] => ReaderOp.apply op self
  | _ =>
      let order := (fun g : group => (g.1, length g.2)) <$> Readers.groups self in
      '(order, touched) ← touch_all self (order, ∅) ops;
      let leaving := leaving touched in
      let joining := joining touched in
      if bool_decide (leaving = []) && bool_decide (joining = []) then Done self else
      let leaving := sort_by moved_le leaving in
      let joining := sort_by moved_le joining in
      let '(_, regrouped) := foldl (regroup leaving joining) (Readers.groups self, []) order in
      Done (Readers.collapse (Groups regrouped))
  end.
End ApplyAll.
