(* ===== verification/ReadersProofs.v ===== *)
(** * What the readers of a fact are

    The routines on sorted lists, and the groups of readers: every operation
    is the one on a finite map from derivations to fingerprints, and applying
    many changes at once is applying one after another. *)

From S2P Require Import Prelude Readers.
From stdpp Require Import list gmap sorting.
Import ApplyAll.

(** ** Rising lists *)

Notation rising := (StronglySorted lt).

Lemma StronglySorted_mono {A} (R S : A -> A -> Prop) l :
  (forall x y, R x y -> S x y) -> StronglySorted R l -> StronglySorted S l.
Proof. intros HRS. induction 1; constructor; [done|]. eapply Forall_impl; [done|]. auto. Qed.

Lemma rising_nodup l : rising l -> NoDup l.
Proof.
  induction 1 as [|x l Hl IH Hx]; constructor; [|done]. intros Hin.
  eapply Forall_forall in Hx; [|done]. lia.
Qed.

Lemma rising_ext l1 l2 : rising l1 -> rising l2 -> (forall x, x ∈ l1 <-> x ∈ l2) -> l1 = l2.
Proof.
  intros H1 H2 Hx. assert (HP : l1 ≡ₚ l2) by (apply NoDup_Permutation; auto using rising_nodup).
  eapply (StronglySorted_unique le); [| |done]; by eapply StronglySorted_mono; [|eassumption]; simpl; lia.
Qed.

Lemma rising_app l1 l2 :
  rising (l1 ++ l2) <-> rising l1 /\ rising l2 /\ forall x y, x ∈ l1 -> y ∈ l2 -> x < y.
Proof.
  induction l1 as [|a l1 IH]; simpl.
  - split; [intros; split_and!; [constructor|done|set_solver]|by intros (_ & ? & _)].
  - split.
    + intros [H Ha]%StronglySorted_inv. apply IH in H as (H1 & H2 & H12). apply Forall_app in Ha as [Ha1 Ha2].
      split_and!; [by constructor|done|]. intros x y [->|Hx]%elem_of_cons Hy; [|by apply H12].
      by eapply Forall_forall in Ha2.
    + intros ([H1 Ha]%StronglySorted_inv & H2 & H12). constructor.
      * apply IH. split_and!; [done|done|]. intros x y Hx Hy. apply H12; [by right|done].
      * apply Forall_app. split; [done|]. apply Forall_forall. intros y Hy. apply H12; [by left|done].
Qed.

Lemma rising_filter (P : nat -> Prop) `{!forall x, Decision (P x)} l : rising l -> rising (filter P l).
Proof. apply StronglySorted_sublist. apply sublist_filter. Qed.

Lemma rising_take n l : rising l -> rising (take n l).
Proof. apply StronglySorted_sublist, sublist_take. Qed.

Lemma rising_drop n l : rising l -> rising (drop n l).
Proof. apply StronglySorted_sublist, sublist_drop. Qed.

(** ** [binary_search] *)

(** Where a value would be in a rising list: what is less before it, the
    others after it. *)
Lemma place_split (l : list nat) x :
  rising l -> let at_ := partition_point (fun y => (y <? x)%nat) l in
  (forall y, y ∈ take at_ l <-> y ∈ l /\ y < x) /\ (forall y, y ∈ drop at_ l <-> y ∈ l /\ x <= y).
Proof.
  induction 1 as [|a l Hl [IH1 IH2] Ha]; simpl; [set_solver|].
  rewrite Forall_forall in Ha. destruct (Nat.ltb_spec a x) as [Hlt|Hge]; simpl.
  - split; intros y.
    + rewrite elem_of_cons, IH1, elem_of_cons. naive_solver.
    + rewrite IH2, elem_of_cons. split; [naive_solver|]. intros [[->|?] ?]; [lia|done].
  - split; intros y; [set_solver by lia|]. rewrite elem_of_cons. split; [|naive_solver].
    intros [->|Hy]; [by auto|]. specialize (Ha y Hy). split; [by right|lia].
Qed.

Lemma binary_search_found (l : list nat) x : rising l -> (binary_search l x).1 = bool_decide (x ∈ l).
Proof.
  intros Hl. unfold binary_search. simpl. apply bool_decide_ext.
  destruct (place_split l x Hl) as [H1 H2]. split; [by intros ?%list_elem_of_lookup_2|].
  intros Hx. assert (Hd : x ∈ drop (partition_point (fun y => (y <? x)%nat) l) l) by (apply H2; split; [done|lia]).
  pose proof (rising_drop (partition_point (fun y => (y <? x)%nat) l) l Hl) as Hr.
  destruct (drop _ l) as [|z r] eqn:Hdrop in Hd; [set_solver|].
  rewrite <- (Nat.add_0_r (partition_point _ l)), <- lookup_drop, Hdrop. simpl. f_equal.
  rewrite Hdrop in H2, Hr. apply StronglySorted_inv in Hr as [_ Hr]. rewrite Forall_forall in Hr.
  destruct (proj1 (H2 z)) as [_ Hz]; [by left|]. apply elem_of_cons in Hd as [->|Hd]; [done|].
  specialize (Hr x Hd). lia.
Qed.

Lemma binary_search_at (l : list nat) x : x ∈ l -> rising l -> l !! (binary_search l x).2 = Some x.
Proof.
  intros Hx Hl. pose proof (binary_search_found l x Hl) as Hb. rewrite (bool_decide_true _ Hx) in Hb.
  unfold binary_search in Hb. by apply bool_decide_eq_true in Hb.
Qed.

Lemma insert_at_rising l x :
  rising l -> x ∉ l -> let at_ := partition_point (fun y => (y <? x)%nat) l in
  rising (insert_at at_ x l) /\ forall y, y ∈ insert_at at_ x l <-> y = x \/ y ∈ l.
Proof.
  intros Hl Hx at_. destruct (place_split l x Hl) as [H1 H2]. fold at_ in H1, H2. unfold insert_at. split.
  - apply rising_app. split_and!; [by apply rising_take| |].
    + constructor; [by apply rising_drop|]. apply Forall_forall. intros y Hy%H2. destruct Hy as [Hy ?].
      assert (y <> x) by (by intros ->). lia.
    + intros y z Hy%H1 Hz. apply elem_of_cons in Hz as [->|Hz%H2]; lia.
  - intros y. rewrite elem_of_app, elem_of_cons, H1, H2. split; [naive_solver|].
    intros [->|Hy]; [by auto|]. destruct (decide (y < x)); [by auto|]. right; right. split; [done|lia].
Qed.

Lemma take_from_spec l x : rising l -> take_from l x = filter (fun y => y <> x) l.
Proof.
  intros Hl. pose proof (binary_search_found l x Hl) as Hf. pose proof (binary_search_at l x) as Hat.
  unfold take_from. destruct (binary_search l x) as [found at_]. simpl in *. subst found. case_bool_decide as Hx.
  - specialize (Hat Hx Hl). rewrite delete_take_drop. rewrite <- (take_drop_middle l at_ x Hat) at 3.
    rewrite <- (take_drop_middle l at_ x Hat) in Hl. apply rising_app in Hl as (_ & [_ Hd]%StronglySorted_inv & H12).
    rewrite Forall_forall in Hd. rewrite filter_app, filter_cons_False by naive_solver.
    f_equal; symmetry; apply filter_all; intros y Hy.
    + assert (y < x) by (apply H12; [done|by left]). lia.
    + specialize (Hd y Hy). lia.
  - symmetry. apply filter_all. by intros y Hy ->.
Qed.

Lemma take_from_rising l x : rising l -> rising (take_from l x).
Proof. intros Hl. rewrite take_from_spec by done. by apply rising_filter. Qed.

Lemma elem_of_take_from l x y : rising l -> y ∈ take_from l x <-> y ∈ l /\ y <> x.
Proof. intros Hl. rewrite take_from_spec, list_elem_of_filter by done. naive_solver. Qed.

Lemma file_reader_spec l x :
  rising l -> rising (file_reader l x) /\ forall y, y ∈ file_reader l x <-> y = x \/ y ∈ l.
Proof.
  intros Hl. pose proof (binary_search_found l x Hl) as Hf. unfold file_reader.
  destruct (binary_search l x) as [found at_] eqn:Hb. simpl in Hf. subst found. case_bool_decide as Hx.
  - split; [done|]. intros y. naive_solver.
  - unfold binary_search in Hb. injection Hb as _ <-. by apply insert_at_rising.
Qed.

Lemma take_from_absent l x : rising l -> x ∉ l -> take_from l x = l.
Proof.
  intros Hl Hx. rewrite take_from_spec by done. apply filter_all. by intros y Hy ->.
Qed.

Lemma file_reader_present l x : rising l -> x ∈ l -> file_reader l x = l.
Proof.
  intros Hl Hx. destruct (file_reader_spec l x Hl) as [Hr He]. apply rising_ext; [done|done|].
  intros y. rewrite He. naive_solver.
Qed.

(** ** [remove_sorted] and [insert_sorted] *)

Lemma copy_within_app a w r b from to at_ :
  at_ = length a -> from = length a + length w -> to = from + length r ->
  copy_within (a ++ w ++ r ++ b) from to at_ = a ++ r ++ drop (length r) (w ++ r ++ b).
Proof.
  intros -> -> ->. unfold copy_within. rewrite take_app_length. f_equal.
  replace (length a + length w + length r - (length a + length w)) with (length r) by lia.
  rewrite <- length_app, app_assoc, drop_app_length, take_app_length. f_equal.
  by rewrite <- app_assoc, <- drop_drop, drop_app_length.
Qed.

Lemma remove_sorted_loop gone : forall kept junk rest,
  rising gone -> rising rest ->
  let '(derivs, read, write) :=
    foldl (fun '(derivs, read, write) deriv =>
        let '(found, at_) := binary_search (drop read derivs) deriv in
        if found then
          let at_ := read + at_ in
          (copy_within derivs read at_ write, S at_, write + (at_ - read))
        else (derivs, read, write))
      (kept ++ junk ++ rest, length kept + length junk, length kept) gone in
  take (write + length derivs - read) (copy_within derivs read (length derivs) write)
  = kept ++ filter (fun y => y ∉ gone) rest.
Proof.
  induction gone as [|d gone IH]; intros kept junk rest Hg Hr.
  - cbn [foldl]. rewrite <- (app_nil_r (kept ++ junk ++ rest)) at 2. rewrite <- !app_assoc.
    rewrite (copy_within_app kept junk rest []) by (rewrite ?length_app; lia).
    rewrite filter_all by set_solver. rewrite (app_assoc kept rest).
    replace (_ - _) with (length (kept ++ rest)) by (rewrite !length_app; lia). by rewrite take_app_length.
  - apply StronglySorted_inv in Hg as [Hg Hd]. rewrite Forall_forall in Hd.
    pose proof (binary_search_found rest d Hr) as Hf. pose proof (fun H => binary_search_at rest d H Hr) as Hat.
    cbn [foldl].
    assert (Hdrop : drop (length kept + length junk) (kept ++ junk ++ rest) = rest).
    { by rewrite app_assoc, <- length_app, drop_app_length. }
    rewrite Hdrop. destruct (binary_search rest d) as [found at_]. simpl in Hf, Hat. subst found. case_bool_decide as Hin.
    + specialize (Hat Hin). assert (Hlen : length (take at_ rest) = at_) by (apply lookup_lt_Some in Hat; rewrite length_take; lia).
      pose proof (take_drop_middle rest at_ d Hat) as Hrest. set (r1 := take at_ rest) in *. set (r2 := drop (S at_) rest) in *.
      rewrite <- Hrest in Hr |- *. apply rising_app in Hr as (Hr1 & [Hr2 Hd2]%StronglySorted_inv & H12).
      rewrite (copy_within_app kept junk r1 (d :: r2)) by lia.
      assert (Hj : exists junk', drop (length r1) (junk ++ r1 ++ d :: r2) = junk' ++ r2 /\ length junk' = S (length junk)).
      { exists (drop (length r1) ((junk ++ r1) ++ [d])). split.
        - rewrite <- drop_app_le by (rewrite !length_app; simpl; lia). by rewrite <- !app_assoc.
        - rewrite length_drop, !length_app. simpl. lia. }
      destruct Hj as (junk' & -> & Hj). rewrite (app_assoc kept r1).
      replace (S (length kept + length junk + at_)) with (length (kept ++ r1) + length junk')
        by (rewrite length_app; lia).
      replace (length kept + (length kept + length junk + at_ - (length kept + length junk))) with (length (kept ++ r1))
        by (rewrite length_app; lia).
      specialize (IH (kept ++ r1) junk' r2 Hg Hr2). destruct (foldl _ _ gone) as [[derivs read] write].
      rewrite IH, filter_app, filter_cons_False by (intros H; apply H; by left). rewrite <- app_assoc. f_equal. f_equal.
      * symmetry. apply filter_all. intros y Hy [->|Hy']%elem_of_cons.
        -- specialize (H12 d d Hy). rewrite elem_of_cons in H12. naive_solver lia.
        -- specialize (Hd y Hy'). specialize (H12 y d Hy). rewrite elem_of_cons in H12. naive_solver lia.
      * apply rising_ext; [by apply rising_filter..|]. intros y. rewrite !list_elem_of_filter, elem_of_cons.
        rewrite Forall_forall in Hd2.
        split; intros [Hy Hin']; (split; [|done]); specialize (Hd2 y Hin'); [intros [->|?]; [lia|done]|tauto].
    + specialize (IH kept junk rest Hg Hr). destruct (foldl _ _ gone) as [[derivs read] write]. rewrite IH. f_equal.
      apply rising_ext; [by apply rising_filter..|]. intros y. rewrite !list_elem_of_filter, elem_of_cons.
      split; intros [Hy Hin']; (split; [|done]); [intros [->|?]; done|tauto].
Qed.

Lemma remove_sorted_spec derivs gone :
  rising derivs -> rising gone -> remove_sorted derivs gone = filter (fun y => y ∉ gone) derivs.
Proof.
  intros Hr Hg. pose proof (remove_sorted_loop gone [] [] derivs Hg Hr) as H. simpl in H.
  unfold remove_sorted. by destruct (foldl _ _ gone) as [[l read] write].
Qed.

Lemma shift_run (r1 r2 free done_ : list nat) d n :
  length free = S n -> exists free', length free' = n
  /\ <[length r1 + length free - 1 := d]>
       (copy_within ((r1 ++ r2) ++ free ++ done_) (length r1) (length r1 + length r2) (length r1 + length free))
     = r1 ++ free' ++ (d :: r2) ++ done_.
Proof.
  intros Hf. unfold copy_within. replace (length r1 + length r2 - length r1) with (length r2) by lia.
  rewrite <- (app_assoc r1 r2), drop_app_length, take_app_length, take_app_add.
  assert (Hd : drop (length r1 + length free + length r2) (r1 ++ r2 ++ free ++ done_) = done_).
  { rewrite !app_assoc. rewrite drop_app_ge; rewrite !length_app; [|lia].
    by replace (_ - _) with 0 by lia. }
  rewrite Hd. rewrite (app_assoc r2), (take_app_le (r2 ++ free)) by (rewrite length_app; lia).
  destruct (exists_last (l := take (length free) (r2 ++ free))) as (free' & z & Hblk).
  { intros H%(f_equal length). rewrite length_take, length_app, Hf in H. cbn [length] in H. lia. }
  assert (Hn : length free' = n).
  { apply (f_equal length) in Hblk. rewrite length_take, !length_app, Hf in Hblk. cbn [length] in Hblk. lia. }
  exists free'. split; [done|]. rewrite Hblk, <- !app_assoc. simpl.
  replace (length r1 + length free - 1) with (length r1 + (length free' + 0)) by lia.
  by rewrite insert_app_r, insert_app_r.
Qed.

(** The new values are put in from the last to the first; the places between
    what was moved and what was not are free. *)
Lemma insert_sorted_loop new : forall rest free done_,
  length free = length new -> rising rest -> StronglySorted gt new -> rising done_ ->
  (forall x, x ∈ new -> x ∉ rest) -> (forall x y, x ∈ rest \/ x ∈ new -> y ∈ done_ -> x < y) ->
  let '(derivs, _, _) :=
    foldl (fun '(derivs, read_end, write_end) deriv =>
        let at_ := partition_point (fun existing => (existing <? deriv)%nat) (take read_end derivs) in
        let run := read_end - at_ in
        let derivs := copy_within derivs at_ read_end (write_end - run) in
        let write_end := write_end - S run in
        (<[write_end := deriv]> derivs, at_, write_end))
      (rest ++ free ++ done_, length rest, length rest + length free) new in
  rising derivs /\ forall y, y ∈ derivs <-> y ∈ rest \/ y ∈ new \/ y ∈ done_.
Proof.
  induction new as [|d new IH]; intros rest free done_ Hlen Hr Hn Hdone Hnew Hlt.
  - destruct free; [|done]. cbn [foldl]. simpl. split; [|set_solver].
    apply rising_app. split_and!; [done|done|]. auto.
  - apply StronglySorted_inv in Hn as [Hn Hd]. rewrite Forall_forall in Hd. cbn [foldl]. cbv zeta.
    rewrite take_app_length. destruct (place_split rest d Hr) as [H1 H2].
    set (at_ := partition_point _ rest) in *. set (r1 := take at_ rest) in *. set (r2 := drop at_ rest) in *.
    assert (Hat : length r1 = at_) by (pose proof (partition_point_le (fun y => (y <? d)%nat) rest); unfold r1; rewrite length_take; lia).
    assert (Hrest : rest = r1 ++ r2) by (symmetry; apply take_drop).
    assert (Hrun : length rest - at_ = length r2) by (rewrite Hrest, length_app; lia).
    assert (Hcopy : exists free', length free' = length new
      /\ <[length rest + length free - S (length rest - at_) := d]>
           (copy_within (rest ++ free ++ done_) at_ (length rest) (length rest + length free - (length rest - at_)))
         = r1 ++ free' ++ (d :: r2) ++ done_).
    { rewrite Hrun. destruct (shift_run r1 r2 free done_ d (length new)) as (free' & Hf' & He); [done|].
      exists free'. split; [done|]. rewrite <- He, <- Hrest, Hat.
      assert (length rest = at_ + length r2) as -> by (rewrite Hrest at 1; rewrite length_app; lia).
      f_equal; [lia|f_equal; lia]. }
    destruct Hcopy as (free' & Hf' & ->).
    assert (length rest + length free - S (length rest - at_) = at_ + length free') as ->.
    { rewrite Hrun, Hf', Hlen, <- Hat. rewrite Hrest at 1. rewrite length_app. cbn [length]. lia. }
    specialize (IH r1 free' ((d :: r2) ++ done_)). rewrite Hat in IH.
    destruct (foldl _ _ new) as [[derivs a] b]. destruct IH as [IHr IHe]; [done|by apply rising_take|done| | | |].
    + apply rising_app. split_and!; [constructor; [by apply rising_drop|]|done|].
      * apply Forall_forall. intros y Hy%H2. destruct Hy as [Hy ?]. assert (y <> d) by (intros ->; by eapply Hnew; [left|]). lia.
      * intros x y Hx Hy. apply Hlt; [|done]. apply elem_of_cons in Hx as [->|Hx%H2]; [right; by left|left; apply Hx].
    + intros x Hx Hx'%H1. apply (Hnew x); [by right|apply Hx'].
    + intros x y Hx Hy. apply elem_of_app in Hy as [Hy|Hy].
      * assert (x < d) by (destruct Hx as [Hx%H1|Hx%Hd]; [apply Hx|done]).
        apply elem_of_cons in Hy as [->|Hy%H2]; lia.
      * apply Hlt; [|done]. destruct Hx as [Hx%H1|Hx]; [left; apply Hx|right; by right].
    + split; [done|]. intros y. rewrite IHe, Hrest, !elem_of_app, !elem_of_cons. tauto.
Qed.

Lemma insert_sorted_spec derivs new :
  rising derivs -> rising new -> (forall x, x ∈ new -> x ∉ derivs) ->
  rising (insert_sorted derivs new) /\ forall y, y ∈ insert_sorted derivs new <-> y ∈ derivs \/ y ∈ new.
Proof.
  intros Hr Hn Hnew.
  assert (Hrev : StronglySorted gt (reverse new)).
  { clear Hnew. induction Hn as [|x new Hn IH Hx]; [constructor|]. rewrite reverse_cons. apply StronglySorted_app. split_and!; [|done|by repeat constructor].
    intros a b Ha Hb%list_elem_of_singleton. rewrite elem_of_reverse in Ha. subst. rewrite Forall_forall in Hx. by apply Hx. }
  pose proof (insert_sorted_loop (reverse new) derivs (replicate (length new) 0) []) as H.
  unfold insert_sorted. rewrite app_nil_r in H. rewrite length_app, length_replicate in *.
  destruct (foldl _ _ (reverse new)) as [[l a] b]. destruct H as [H1 H2]; [by rewrite length_reverse|done|done|constructor| | |].
  - intros x Hx. rewrite elem_of_reverse in Hx. by apply Hnew.
  - intros x y _ Hy. by apply not_elem_of_nil in Hy.
  - split; [done|]. intros y. rewrite H2, elem_of_reverse, elem_of_nil. tauto.
Qed.


(** ** Groups *)

Definition group_ok (g : group) : Prop := rising g.2 /\ g.2 <> [].

Record groups_ok (gs : list group) : Prop := {
  gk_each : forall g, g ∈ gs -> group_ok g;
  gk_seen : NoDup gs.*1;
  gk_apart : forall g h d, g ∈ gs -> h ∈ gs -> d ∈ g.2 -> d ∈ h.2 -> g = h
}.

(** The derivation is in the group of a fingerprint. *)
Definition read_in (gs : list group) (d : DerivIdx) (s : Fingerprint) : Prop :=
  exists derivs, (s, derivs) ∈ gs /\ d ∈ derivs.

Definition normal (self : Readers) : Prop :=
  match self with
  | Group _ derivs => 2 <= length derivs
  | Groups groups => 2 <= length groups
  | _ => True
  end.

Definition readers_ok (self : Readers) : Prop := groups_ok (Readers.groups self) /\ normal self.

Definition drop_empty (gs : list group) : list group := filter (fun g : group => length g.2 <> 0) gs.

Definition remove_in (gs : list group) (d : DerivIdx) : list group :=
  drop_empty ((fun g : group => (g.1, take_from g.2 d)) <$> gs).

Definition move_in (gs : list group) (d : DerivIdx) (s : Fingerprint) : list group :=
  (fun g : group => (g.1, if N.eqb g.1 s then file_reader g.2 d else take_from g.2 d)) <$> gs.

Definition insert_in (gs : list group) (d : DerivIdx) (s : Fingerprint) : list group :=
  drop_empty (if Readers.has_group s gs then move_in gs d s else move_in gs d s ++ [(s, [d])]).

Lemma has_group_spec s gs : Readers.has_group s gs = true <-> s ∈ gs.*1.
Proof.
  unfold Readers.has_group. rewrite existsb_exists, list_elem_of_fmap. split.
  - intros (g & Hg & Hs%N.eqb_eq). exists g. split; [done|by apply list_elem_of_In].
  - intros (g & -> & Hg). exists g. split; [by apply list_elem_of_In|apply N.eqb_refl].
Qed.

Lemma elem_of_drop_empty g gs : g ∈ drop_empty gs <-> g ∈ gs /\ g.2 <> [].
Proof.
  unfold drop_empty. rewrite list_elem_of_filter. rewrite length_zero_iff_nil. tauto.
Qed.

Lemma sublist_fmap {A B} (f : A -> B) l1 l2 : l1 `sublist_of` l2 -> f <$> l1 `sublist_of` f <$> l2.
Proof. induction 1; simpl; by constructor. Qed.

Lemma drop_empty_seen gs : NoDup gs.*1 -> NoDup (drop_empty gs).*1.
Proof. intros H. eapply sublist_NoDup; [exact H|]. apply sublist_fmap, sublist_filter. Qed.

Lemma drop_empty_id gs : (forall g, g ∈ gs -> g.2 <> []) -> drop_empty gs = gs.
Proof. intros H. apply filter_all. intros g Hg. rewrite length_zero_iff_nil. by apply H. Qed.

Lemma drop_empty_ok gs :
  (forall g, g ∈ gs -> rising g.2) -> NoDup gs.*1 ->
  (forall g h d, g ∈ gs -> h ∈ gs -> d ∈ g.2 -> d ∈ h.2 -> g = h) ->
  groups_ok (drop_empty gs) /\ forall d s, read_in (drop_empty gs) d s <-> read_in gs d s.
Proof.
  intros Hr Hs Ha. split; [split|].
  - intros g [Hg Hne]%elem_of_drop_empty. split; auto.
  - by apply drop_empty_seen.
  - intros g h d [Hg _]%elem_of_drop_empty [Hh _]%elem_of_drop_empty. by apply Ha.
  - intros d s. split; intros (ds & Hds & Hd); exists ds; (split; [|done]).
    + by apply elem_of_drop_empty in Hds as [? _].
    + apply elem_of_drop_empty. split; [done|]. simpl. by intros ->; apply not_elem_of_nil in Hd.
Qed.

(** Two groups of one fingerprint are one group. *)
Lemma same_group (gs : list group) s ds1 ds2 : NoDup gs.*1 -> (s, ds1) ∈ gs -> (s, ds2) ∈ gs -> ds1 = ds2.
Proof.
  induction gs as [|[t ds] gs IH]; intros Hn H1 H2; [by apply not_elem_of_nil in H1|].
  simpl in Hn. apply NoDup_cons in Hn as [Ht Hn].
  apply elem_of_cons in H1 as [H1|H1], H2 as [H2|H2].
  - congruence.
  - injection H1 as -> ->. destruct Ht. apply list_elem_of_fmap. by exists (t, ds2).
  - injection H2 as -> ->. destruct Ht. apply list_elem_of_fmap. by exists (t, ds1).
  - by apply IH.
Qed.

Lemma read_in_fun gs d s1 s2 : groups_ok gs -> read_in gs d s1 -> read_in gs d s2 -> s1 = s2.
Proof.
  intros Hgs (ds1 & H1 & Hd1) (ds2 & H2 & Hd2).
  assert ((s1, ds1) = (s2, ds2)) by (by eapply (gk_apart gs)). congruence.
Qed.

Lemma remove_in_ok gs d :
  groups_ok gs ->
  groups_ok (remove_in gs d) /\ forall d' s, read_in (remove_in gs d) d' s <-> read_in gs d' s /\ d' <> d.
Proof.
  intros [Hk Hs Ha]. unfold remove_in.
  assert (Hf : forall g : group, g ∈ (fun g : group => (g.1, take_from g.2 d)) <$> gs ->
            exists ds, (g.1, ds) ∈ gs /\ rising ds /\ g.2 = take_from ds d).
  { intros g ([s ds] & -> & Hg)%list_elem_of_fmap. exists ds. split; [done|]. split; [by apply (Hk _ Hg)|done]. }
  destruct (drop_empty_ok ((fun g : group => (g.1, take_from g.2 d)) <$> gs)) as [Hok Hin].
  - intros g (ds & _ & Hr & ->)%Hf. by apply take_from_rising.
  - rewrite <- list_fmap_compose. exact Hs.
  - intros [s1 l1] [s2 l2] x Hg Hh Hx Hy. apply Hf in Hg as (ds1 & Hg & Hr1 & E1), Hh as (ds2 & Hh & Hr2 & E2).
    simpl in *. subst l1 l2. apply elem_of_take_from in Hx as [Hx _], Hy as [Hy _]; [|done..].
    assert ((s1, ds1) = (s2, ds2)) by (by eapply Ha). congruence.
  - split; [done|]. intros d' s. rewrite Hin. split.
    + intros (l & Hl & Hd'). destruct (Hf _ Hl) as (ds & Hds & Hr & E). simpl in *. subst l.
      apply elem_of_take_from in Hd' as [Hd' Hne]; [|done]. split; [by exists ds|done].
    + intros ((ds & Hds & Hd') & Hne). exists (take_from ds d). split.
      * apply list_elem_of_fmap. by exists (s, ds).
      * apply elem_of_take_from; [apply (Hk _ Hds)|done].
Qed.

(** The groups before the empty ones go: none of them loses its order, and
    only the derivation moves. *)
Lemma insert_in_lists gs d s :
  groups_ok gs ->
  let gs' := if Readers.has_group s gs then move_in gs d s else move_in gs d s ++ [(s, [d])] in
  NoDup gs'.*1
  /\ (forall g, g ∈ gs' -> rising g.2 /\ forall x, x ∈ g.2 <-> (x = d /\ g.1 = s) \/ (x <> d /\ exists ds, (g.1, ds) ∈ gs /\ x ∈ ds))
  /\ (forall t ds, (t, ds) ∈ gs -> t ∈ gs'.*1) /\ s ∈ gs'.*1.
Proof.
  intros [Hk Hs Ha] gs'.
  assert (Hfst : (move_in gs d s).*1 = gs.*1) by (unfold move_in; by rewrite <- list_fmap_compose).
  assert (Hmove : forall g : group, g ∈ move_in gs d s ->
            rising g.2 /\ forall x, x ∈ g.2 <-> (x = d /\ g.1 = s) \/ (x <> d /\ exists ds, (g.1, ds) ∈ gs /\ x ∈ ds)).
  { intros g ([t ds] & -> & Hg)%list_elem_of_fmap. simpl. destruct (Hk _ Hg) as [Hr _]. simpl in Hr.
    assert (Hds : forall x, (exists ds', (t, ds') ∈ gs /\ x ∈ ds') <-> x ∈ ds).
    { intros x. split; [|by exists ds]. intros (ds' & Hds' & Hx). by rewrite (same_group gs t ds ds'). }
    destruct (N.eqb_spec t s) as [->|Hne].
    - destruct (file_reader_spec ds d Hr) as [Hr' He]. split; [done|]. intros x. rewrite He, Hds.
      destruct (decide (x = d)) as [->|]; naive_solver.
    - split; [by apply take_from_rising|]. intros x. rewrite elem_of_take_from, Hds by done. naive_solver. }
  subst gs'. destruct (Readers.has_group s gs) eqn:Hgroup.
  - apply has_group_spec in Hgroup. rewrite Hfst. split_and!; [done|done| |done].
    intros t ds Ht. apply list_elem_of_fmap. by exists (t, ds).
  - assert (Hnot : s ∉ gs.*1) by (intros H%has_group_spec; congruence).
    rewrite fmap_app, Hfst. split_and!.
    + apply NoDup_app. split_and!; [done| |by apply NoDup_singleton].
      intros x Hx Hx'%list_elem_of_singleton. simpl in Hx'. by subst x.
    + intros g [Hg| ->%list_elem_of_singleton]%elem_of_app; [by apply Hmove|]. simpl. split; [by repeat constructor|].
      intros x. rewrite list_elem_of_singleton. split; [by auto|]. intros [[? _]|(_ & ds & Hds & _)]; [done|].
      destruct Hnot. apply list_elem_of_fmap. by exists (s, ds).
    + intros t ds Ht. apply elem_of_app. left. apply list_elem_of_fmap. by exists (t, ds).
    + apply elem_of_app. right. simpl. by left.
Qed.

Lemma insert_in_ok gs d s :
  groups_ok gs ->
  groups_ok (insert_in gs d s)
  /\ forall d' s', read_in (insert_in gs d s) d' s' <-> (d' = d /\ s' = s) \/ (d' <> d /\ read_in gs d' s').
Proof.
  intros Hgs. destruct (insert_in_lists gs d s Hgs) as (Hn & Hx & Hin & Hs). unfold insert_in.
  set (gs' := if Readers.has_group s gs then _ else _) in *.
  destruct (drop_empty_ok gs') as [Hok Hread]; [intros g Hg; by apply Hx|done| |].
  - intros [t1 l1] [t2 l2] x Hg Hh Hx1 Hx2. destruct (Hx _ Hg) as [_ E1], (Hx _ Hh) as [_ E2]. simpl in *.
    assert (Ht : t1 = t2).
    { apply E1 in Hx1. apply E2 in Hx2. destruct Hx1 as [[-> ->]|(Hne & ds1 & H1 & Hd1)], Hx2 as [[? ->]|(? & ds2 & H2 & Hd2)]; try done.
      by eapply (read_in_fun gs x); [done|by exists ds1|by exists ds2]. }
    subst t2. f_equal. by eapply same_group.
  - split; [done|]. intros d' s'. rewrite Hread. split.
    + intros (ds & Hds & Hd'). destruct (Hx _ Hds) as [_ E]. simpl in E. apply E in Hd' as [?|(? & ds' & ? & ?)]; [by left|].
      right. split; [done|by exists ds'].
    + intros H. assert (Ht : s' ∈ gs'.*1) by (destruct H as [[_ ->]|(_ & ds & Hds & _)]; eauto).
      apply list_elem_of_fmap in Ht as ([t ds] & -> & Hds). exists ds. split; [done|].
      apply (Hx _ Hds). simpl. destruct H as [?|(? & ds' & ? & ?)]; [by left|right]. split; [done|by exists ds'].
Qed.

(** ** The operations on groups *)

Lemma groups_collapse gs : Readers.groups (Readers.collapse (Groups gs)) = drop_empty gs.
Proof.
  unfold Readers.collapse. fold (drop_empty gs). destruct (Nat.ltb_spec 1 (length (drop_empty gs))) as [Hl|Hl]; [done|].
  destruct (drop_empty gs) as [|[s ds] [|]]; [done| |simpl in Hl; lia]. simpl. by destruct ds as [|x [|]].
Qed.

Lemma collapse_ok gs : groups_ok (drop_empty gs) -> readers_ok (Readers.collapse (Groups gs)).
Proof.
  intros Hok. split; [by rewrite groups_collapse|]. unfold Readers.collapse. fold (drop_empty gs).
  destruct (Nat.ltb_spec 1 (length (drop_empty gs))) as [Hl|Hl]; [simpl; lia|].
  destruct (drop_empty gs) as [|[s ds] [|]] eqn:Hd; [done| |simpl in Hl; lia]. simpl.
  destruct (gk_each _ Hok (s, ds)) as [_ Hne]; [by left|]. destruct ds as [|x [|]]; simpl in *; [done|done|lia].
Qed.

Lemma drop_empty_groups_ok gs : groups_ok gs -> drop_empty gs = gs.
Proof. intros Hok. apply drop_empty_id. intros g Hg. by apply (gk_each _ Hok). Qed.

(** The normal form is determined by the groups. *)
Lemma collapse_groups self : readers_ok self -> Readers.collapse (Groups (Readers.groups self)) = self.
Proof.
  intros [Hok Hn]. unfold Readers.collapse. fold (drop_empty (Readers.groups self)). rewrite (drop_empty_groups_ok _ Hok).
  destruct self as [|s d|s ds|gs]; simpl in *; [done|done| |].
  - destruct ds as [|x [|y ds]]; simpl in Hn; [lia|lia|done].
  - destruct (Nat.ltb_spec 1 (length gs)); [done|lia].
Qed.

Lemma collapse_drop gs : Readers.collapse (Groups (drop_empty gs)) = Readers.collapse (Groups gs).
Proof.
  unfold Readers.collapse. fold (drop_empty gs) (drop_empty (drop_empty gs)).
  rewrite (drop_empty_id (drop_empty gs)); [done|]. intros g Hg. by apply elem_of_drop_empty in Hg as [_ ?].
Qed.

Lemma rising_single x : rising [x].
Proof. repeat constructor. Qed.

Lemma take_from_single r d : take_from [r] d = if decide (r = d) then [] else [r].
Proof.
  rewrite take_from_spec by apply rising_single. rewrite filter_cons, filter_nil.
  by destruct (decide (r = d)), (decide (r <> d)).
Qed.

Lemma file_reader_single r d :
  r <> d -> file_reader [r] d = if (r <? d)%nat then [r; d] else [d; r].
Proof.
  intros Hne. destruct (file_reader_spec [r] d (rising_single r)) as [Hr He].
  apply rising_ext; [done| |].
  - destruct (Nat.ltb_spec r d); repeat constructor; lia.
  - intros x. rewrite He. destruct (r <? d)%nat; set_solver.
Qed.

Lemma file_reader_length l d : rising l -> length l <= length (file_reader l d).
Proof.
  intros Hl. destruct (file_reader_spec l d Hl) as [Hr He]. apply submseteq_length, NoDup_submseteq; [by apply rising_nodup|].
  intros x Hx. apply He. by right.
Qed.

Lemma collapse_single s ds : 2 <= length ds -> Readers.collapse (Groups [(s, ds)]) = Group s ds.
Proof. destruct ds as [|x [|y ds]]; simpl; [lia|lia|done]. Qed.

Lemma insert_collapse self d s :
  readers_ok self -> Readers.insert self d s = Readers.collapse (Groups (insert_in (Readers.groups self) d s)).
Proof.
  intros [Hok Hn]. unfold insert_in. rewrite collapse_drop. destruct self as [|g r|g ds|gs]; simpl.
  - done.
  - destruct (Nat.eqb_spec r d) as [->|Hne], (N.eqb_spec g s) as [->|Hg]; simpl; rewrite ?N.eqb_refl, ?(proj2 (N.eqb_neq _ _) Hg); simpl.
    + by rewrite file_reader_present by (apply rising_single || by left).
    + rewrite take_from_single. by rewrite decide_True.
    + rewrite file_reader_single by done. by destruct (r <? d)%nat.
    + rewrite take_from_single. by rewrite decide_False.
  - destruct (gk_each _ Hok (g, ds)) as [Hr _]; [by left|]. simpl in Hr, Hn.
    destruct (N.eqb_spec g s) as [->|Hg]; simpl; rewrite ?N.eqb_refl, ?(proj2 (N.eqb_neq _ _) Hg); simpl; [|done].
    symmetry. apply collapse_single. pose proof (file_reader_length ds d Hr). lia.
  - done.
Qed.

Lemma remove_collapse self d :
  readers_ok self -> Readers.remove self d = Readers.collapse (Groups (remove_in (Readers.groups self) d)).
Proof.
  intros [Hok Hn]. unfold remove_in. rewrite collapse_drop. destruct self as [|g r|g ds|gs]; simpl.
  - done.
  - rewrite take_from_single. destruct (Nat.eqb_spec r d) as [->|Hne]; [by rewrite decide_True|by rewrite decide_False].
  - destruct (gk_each _ Hok (g, ds)) as [Hr _]; [by left|]. simpl in Hr, Hn.
    destruct (take_from ds d) as [|x [|y l]] eqn:Ht; [|done|done].
    (* two readers are not one derivation *)
    exfalso. assert (Hall : forall x, x ∈ ds -> x = d).
    { intros x Hx. destruct (decide (x = d)); [done|]. exfalso. apply (not_elem_of_nil x). rewrite <- Ht. by apply elem_of_take_from. }
    pose proof (rising_nodup _ Hr) as Hnd. destruct ds as [|x [|y ds]]; simpl in Hn; [lia|lia|].
    apply NoDup_cons in Hnd as [Hx _]. apply Hx. rewrite (Hall x), (Hall y) by set_solver. by left.
  - done.
Qed.

Lemma insert_ok self d s :
  readers_ok self ->
  readers_ok (Readers.insert self d s) /\ Readers.groups (Readers.insert self d s) = insert_in (Readers.groups self) d s.
Proof.
  intros Hok. pose proof (insert_in_ok (Readers.groups self) d s (proj1 Hok)) as [H _].
  rewrite insert_collapse, groups_collapse, (drop_empty_groups_ok _ H) by done.
  split; [|done]. apply collapse_ok. by rewrite (drop_empty_groups_ok _ H).
Qed.

Lemma remove_ok self d :
  readers_ok self ->
  readers_ok (Readers.remove self d) /\ Readers.groups (Readers.remove self d) = remove_in (Readers.groups self) d.
Proof.
  intros Hok. pose proof (remove_in_ok (Readers.groups self) d (proj1 Hok)) as [H _].
  rewrite remove_collapse, groups_collapse, (drop_empty_groups_ok _ H) by done.
  split; [|done]. apply collapse_ok. by rewrite (drop_empty_groups_ok _ H).
Qed.

(** ** What a reader saw *)

Definition reads (self : Readers) (d : DerivIdx) (s : Fingerprint) : Prop := read_in (Readers.groups self) d s.

Lemma group_of_reads self d s : readers_ok self -> Readers.group_of self d = Some s <-> reads self d s.
Proof.
  intros [Hok _]. unfold Readers.group_of, reads. assert (Hk := gk_each _ Hok).
  split.
  - intros (g & Hg & ->)%fmap_Some. apply find_some in Hg as [Hin Hb]. apply list_elem_of_In in Hin.
    rewrite binary_search_found in Hb by by apply Hk. exists g.2. split; [by destruct g|by apply bool_decide_eq_true in Hb].
  - intros (ds & Hds & Hd). destruct (List.find _ _) as [g|] eqn:Hf.
    + apply find_some in Hf as [Hin Hb]. apply list_elem_of_In in Hin.
      rewrite binary_search_found in Hb by by apply Hk. apply bool_decide_eq_true in Hb.
      by rewrite (gk_apart _ Hok g (s, ds) d).
    + eapply find_none in Hf; [|by apply list_elem_of_In]. rewrite binary_search_found in Hf by apply (Hk _ Hds).
      by apply bool_decide_eq_false in Hf.
Qed.

Lemma group_of_none self d : readers_ok self -> Readers.group_of self d = None <-> forall s, ~ reads self d s.
Proof.
  intros Hok. split.
  - intros Hn s Hs%group_of_reads; [|done]. congruence.
  - intros Hn. destruct (Readers.group_of self d) as [s|] eqn:Hg; [|done]. apply group_of_reads in Hg; [|done]. by destruct (Hn s).
Qed.

Lemma seen_by_reads self d s : readers_ok self -> reads self d s -> Readers.seen_by self d = Done s.
Proof.
  intros Hok Hs. pose proof (proj2 (group_of_reads self d s Hok) Hs) as Hg. destruct Hs as (ds & Hds & Hd).
  unfold Readers.seen_by. rewrite Hg. destruct self as [|t r|t l|gs]; try done; simpl in Hds;
    apply list_elem_of_singleton in Hds; by injection Hds as -> ->.
Qed.

Lemma reads_insert self d s d' s' :
  readers_ok self ->
  reads (Readers.insert self d s) d' s' <-> (d' = d /\ s' = s) \/ (d' <> d /\ reads self d' s').
Proof. intros Hok. unfold reads. rewrite (proj2 (insert_ok self d s Hok)). apply insert_in_ok, Hok. Qed.

Lemma reads_remove self d d' s :
  readers_ok self -> reads (Readers.remove self d) d' s <-> reads self d' s /\ d' <> d.
Proof. intros Hok. unfold reads. rewrite (proj2 (remove_ok self d Hok)). apply remove_in_ok, Hok. Qed.

Lemma is_empty_reads self : readers_ok self -> Readers.is_empty self = true <-> forall d s, ~ reads self d s.
Proof.
  intros [Hok Hn]. split.
  - destruct self; try done. intros _ d s (ds & Hds & _). by apply not_elem_of_nil in Hds.
  - intros H. destruct (Readers.groups self) as [|[s ds] gs] eqn:Hg.
    + destruct self as [| | |gs]; try done. simpl in *. subst gs. simpl in Hn. lia.
    + destruct (gk_each _ Hok (s, ds)) as [_ Hne]; [by left|]. destruct ds as [|d ds]; [done|].
      destruct (H d s). exists (d :: ds). unfold reads. rewrite Hg. split; by left.
Qed.

(** ** [relabel] *)

Lemma groups_ok_perm gs gs' : gs ≡ₚ gs' -> groups_ok gs -> groups_ok gs'.
Proof.
  intros HP [Hk Hs Ha]. split.
  - intros g Hg. apply Hk. by rewrite HP.
  - by rewrite <- HP.
  - intros g h d Hg Hh. apply Ha; by rewrite HP.
Qed.

Lemma read_in_perm gs gs' d s : gs ≡ₚ gs' -> read_in gs d s <-> read_in gs' d s.
Proof. intros HP. unfold read_in. by setoid_rewrite HP. Qed.

Lemma group_reads gs s ds x : groups_ok gs -> (s, ds) ∈ gs -> x ∈ ds <-> read_in gs x s.
Proof.
  intros Hok Hds. split; [by exists ds|]. intros (ds' & Hds' & Hx). by rewrite (same_group gs s ds ds' (gk_seen _ Hok)).
Qed.

(** The groups are determined by who saw what, up to their order. *)
Lemma groups_determined gs gs' :
  groups_ok gs -> groups_ok gs' -> (forall d s, read_in gs d s <-> read_in gs' d s) -> gs ≡ₚ gs'.
Proof.
  intros Hok Hok' Heq.
  assert (Hsub : forall gs1 gs2, groups_ok gs1 -> groups_ok gs2 -> (forall d s, read_in gs1 d s <-> read_in gs2 d s) ->
            forall g, g ∈ gs1 -> g ∈ gs2).
  { intros gs1 gs2 H1 H2 H12 [s ds] Hg. destruct (gk_each _ H1 _ Hg) as [Hr Hne]. simpl in *.
    destruct ds as [|d ds0] eqn:Hds; [done|]. rewrite <- Hds in *.
    assert (Hd : read_in gs1 d s) by (exists ds; split; [done|rewrite Hds; by left]).
    apply H12 in Hd as (ds' & Hds' & _). replace ds with ds'; [done|].
    apply rising_ext; [apply (gk_each _ H2 _ Hds')|done|]. intros x.
    by rewrite (group_reads gs2 s ds'), (group_reads gs1 s ds), H12. }
  apply NoDup_Permutation; [by eapply NoDup_fmap_1, gk_seen..|]. intros g. split; by apply Hsub.
Qed.

Lemma swap_remove_perm {A} (l : list A) i x : l !! i = Some x -> l ≡ₚ x :: Readers.swap_remove l i.
Proof.
  intros Hi. unfold Readers.swap_remove. destruct (last l) as [z|] eqn:Hz; [|by apply last_None in Hz; subst].
  apply last_Some in Hz as [l' ->]. rewrite length_app. cbn [length].
  replace (length l' + 1 - 1) with (length l') by lia.
  destruct (decide (i = length l')) as [->|Hne].
  - rewrite lookup_app_r, Nat.sub_diag in Hi by lia. injection Hi as ->.
    rewrite take_insert_ge, take_app_length by lia. by rewrite Permutation_app_comm.
  - assert (i < length l') by (apply lookup_lt_Some in Hi; rewrite length_app in Hi; simpl in Hi; lia).
    rewrite lookup_app_l in Hi by done. rewrite take_insert_lt, take_app_length by done.
    rewrite insert_take_drop by done. rewrite <- (take_drop_middle l' i x Hi) at 1.
    rewrite (Permutation_app_comm _ [z]). simpl. rewrite <- (Permutation_middle _ _ x), <- (Permutation_middle _ _ z).
    apply perm_swap.
Qed.

(** A reader that saw [from] saw [to]. *)
Definition relabelled (gs : list group) (from to : Fingerprint) (d : DerivIdx) (s : Fingerprint) : Prop :=
  (s = to /\ (read_in gs d from \/ read_in gs d to)) \/ (s <> to /\ s <> from /\ read_in gs d s).

Lemma read_in_cons g gs d s : read_in (g :: gs) d s <-> (g.1 = s /\ d ∈ g.2) \/ read_in gs d s.
Proof.
  unfold read_in. destruct g as [t ds]. simpl. split.
  - intros (l & [[= <- <-]|Hl]%elem_of_cons & Hd); [by left|right; by exists l].
  - intros [[-> Hd]|(l & Hl & Hd)]; [exists ds|exists l]; (split; [|done]); [by left|by right].
Qed.

Lemma groups_ok_tail g gs : groups_ok (g :: gs) -> groups_ok gs.
Proof.
  intros [Hk Hs Ha]. split; [intros h Hh; apply Hk; by right|by apply NoDup_cons in Hs as [_ ?]|].
  intros g1 g2 d H1 H2. apply Ha; by right.
Qed.

Lemma groups_ok_cons g gs :
  group_ok g -> groups_ok gs -> g.1 ∉ gs.*1 -> (forall d s, d ∈ g.2 -> ~ read_in gs d s) -> groups_ok (g :: gs).
Proof.
  intros Hg [Hk Hs Ha] Hn Hd. split; [|by constructor|].
  - intros h [->|Hh]%elem_of_cons; [done|by apply Hk].
  - intros g1 g2 d [->|H1]%elem_of_cons [->|H2]%elem_of_cons Hd1 Hd2; [done| | |by eapply Ha].
    + destruct (Hd d g2.1 Hd1). exists g2.2. by destruct g2.
    + destruct (Hd d g1.1 Hd2). exists g1.2. by destruct g1.
Qed.

Lemma sorted_readers l1 l2 : rising l1 -> rising l2 -> (forall x, x ∈ l1 -> x ∉ l2) -> rising (sort_by Nat.leb (l1 ++ l2)).
Proof.
  intros H1 H2 H12. assert (HP := sort_by_perm Nat.leb (l1 ++ l2)).
  assert (Hn : NoDup (sort_by Nat.leb (l1 ++ l2))).
  { rewrite HP. apply NoDup_app. split_and!; [by apply rising_nodup|done|by apply rising_nodup]. }
  assert (Hs : StronglySorted (fun a b => Nat.leb a b = true) (sort_by Nat.leb (l1 ++ l2))).
  { apply sort_by_strongly_sorted; [intros a b Hab; apply Nat.leb_gt in Hab; apply Nat.leb_le; lia|].
    intros a b c Hab%Nat.leb_le Hbc%Nat.leb_le. apply Nat.leb_le. lia. }
  clear HP. induction Hs as [|x l Hl IH Hx]; [constructor|]. apply NoDup_cons in Hn as [Hxn Hn].
  constructor; [by apply IH|]. rewrite Forall_forall in *. intros y Hy. specialize (Hx y Hy). apply Nat.leb_le in Hx.
  assert (y <> x) by (by intros ->). lia.
Qed.

Lemma relabelled_same gs from to d s :
  (forall d, ~ read_in gs d from) \/ from = to -> read_in gs d s <-> relabelled gs from to d s.
Proof.
  intros [Hno| ->]; unfold relabelled; [specialize (Hno d)|].
  - destruct (N.eq_dec s to) as [Hs|Hs]; [subst; naive_solver|]. split; [|naive_solver].
    intros H. right. split_and!; [done|by intros ->|done].
  - destruct (N.eq_dec s to) as [->|Hs]; naive_solver.
Qed.

Lemma read_in_single t ds d s : read_in [(t, ds)] d s <-> s = t /\ d ∈ ds.
Proof. rewrite read_in_cons. unfold read_in. simpl. set_solver. Qed.

Lemma groups_ok_single t ds : rising ds -> ds <> [] -> groups_ok [(t, ds)].
Proof.
  intros Hr Hne. apply groups_ok_cons; [done| |apply not_elem_of_nil|].
  - split; [by intros g Hg%not_elem_of_nil|constructor|by intros g h d Hg%not_elem_of_nil].
  - intros d s _ (ds' & H & _). by apply not_elem_of_nil in H.
Qed.

(** A group takes in the readers of another. *)
Lemma relabel_groups gs from to ds gs' :
  groups_ok gs -> from <> to -> gs ≡ₚ (from, ds) :: gs' ->
  groups_ok match list_find (fun g : group => g.1 = to) gs' with
            | Some (i, (seen, into)) => <[i := (seen, sort_by Nat.leb (into ++ ds))]> gs'
            | None => gs' ++ [(to, ds)]
            end
  /\ forall d s, read_in match list_find (fun g : group => g.1 = to) gs' with
            | Some (i, (seen, into)) => <[i := (seen, sort_by Nat.leb (into ++ ds))]> gs'
            | None => gs' ++ [(to, ds)]
            end d s <-> relabelled gs from to d s.
Proof.
  intros Hok Hft HP. assert (Hok' : groups_ok ((from, ds) :: gs')) by (by eapply groups_ok_perm).
  assert (Hrest := groups_ok_tail _ _ Hok'). destruct (gk_each _ Hok' (from, ds)) as [Hr Hne]; [by left|]. simpl in Hr, Hne.
  assert (Hfrom : forall d, ~ read_in gs' d from).
  { intros d (l & Hl & _). pose proof (gk_seen _ Hok') as Hs. apply NoDup_cons in Hs as [Hs _]. apply Hs.
    apply list_elem_of_fmap. by exists (from, l). }
  assert (Hds : forall d s, d ∈ ds -> ~ read_in gs' d s).
  { intros d s Hd Hs. destruct (decide (s = from)) as [->|Hsf]; [by eapply Hfrom|]. apply Hsf, eq_sym.
    eapply (read_in_fun ((from, ds) :: gs') d); [done| |]; apply read_in_cons; [by left|by right]. }
  assert (Hrel : forall d s, relabelled gs from to d s <-> (s = to /\ d ∈ ds) \/ read_in gs' d s).
  { intros d s. unfold relabelled. rewrite !(read_in_perm gs _ _ _ HP), !read_in_cons. simpl.
    specialize (Hfrom d). destruct (decide (s = to)) as [->|]; [naive_solver|].
    split; [naive_solver|]. intros [[? _]|Hs]; [done|]. right. split_and!; [done| |by right]. intros ->. by apply Hfrom. }
  destruct (list_find _ gs') as [[i [seen into]]|] eqn:Hfind.
  - apply list_find_Some in Hfind as (Hi & Hto & _). simpl in Hto. subst seen.
    destruct (gk_each _ Hrest (to, into)) as [Hri _]; [by eapply list_elem_of_lookup_2|]. simpl in Hri.
    pose proof (sorted_readers into ds Hri Hr) as Hsort.
    assert (Hsort' : rising (sort_by Nat.leb (into ++ ds))).
    { apply Hsort. intros x Hx Hx'. apply (Hds x to Hx'). exists into. split; [by eapply list_elem_of_lookup_2|done]. }
    assert (Hmem : forall x, x ∈ sort_by Nat.leb (into ++ ds) <-> x ∈ into \/ x ∈ ds) by (intros x; by rewrite sort_by_perm, elem_of_app).
    pose proof (take_drop_middle gs' i _ Hi) as Hgs'.
    assert (Hins : <[i := (to, sort_by Nat.leb (into ++ ds))]> gs' ≡ₚ (to, sort_by Nat.leb (into ++ ds)) :: take i gs' ++ drop (S i) gs').
    { rewrite insert_take_drop by (by eapply lookup_lt_Some). by rewrite <- Permutation_middle. }
    assert (HP' : gs' ≡ₚ (to, into) :: take i gs' ++ drop (S i) gs') by (rewrite <- Hgs' at 1; by rewrite <- Permutation_middle).
    set (tl := take i gs' ++ drop (S i) gs') in *.
    assert (Hok2 : groups_ok ((to, into) :: tl)) by (by eapply groups_ok_perm).
    split.
    + eapply groups_ok_perm; [by symmetry|]. apply groups_ok_cons.
      * split; [done|]. simpl. intros Hnil. destruct ds as [|d ds]; [done|]. apply (not_elem_of_nil d). rewrite <- Hnil. apply Hmem. right. by left.
      * by eapply groups_ok_tail.
      * pose proof (gk_seen _ Hok2) as Hs. by apply NoDup_cons in Hs as [? _].
      * simpl. intros d s [Hd|Hd]%Hmem Hs.
        -- assert (s = to) as ->.
           { eapply (read_in_fun ((to, into) :: tl) d); [done| |]; apply read_in_cons; [by right|by left]. }
           pose proof (gk_seen _ Hok2) as Hs'. apply NoDup_cons in Hs' as [Hs' _]. apply Hs'.
           destruct Hs as (l & Hl & _). apply list_elem_of_fmap. by exists (to, l).
        -- apply (Hds d s Hd). rewrite (read_in_perm gs' _ _ _ HP'), read_in_cons. by right.
    + intros d s. rewrite (read_in_perm _ _ _ _ Hins), Hrel, (read_in_perm gs' _ _ _ HP'), !read_in_cons. simpl.
      rewrite Hmem. naive_solver.
  - assert (Hto : forall d, ~ read_in gs' d to).
    { intros d (l & Hl & _). apply list_find_None in Hfind. rewrite Forall_forall in Hfind. by apply (Hfind _ Hl). }
    assert (Hcomm : gs' ++ [(to, ds)] ≡ₚ (to, ds) :: gs') by (by rewrite Permutation_app_comm).
    split.
    + eapply groups_ok_perm; [by symmetry|]. apply groups_ok_cons; [by split|done| |done].
      intros ([t l] & Ht & Hl)%list_elem_of_fmap. simpl in Ht. subst t.
      apply list_find_None in Hfind. rewrite Forall_forall in Hfind. by apply (Hfind _ Hl).
    + intros d s. rewrite (read_in_perm _ _ _ _ Hcomm), Hrel, read_in_cons. simpl. naive_solver.
Qed.

Lemma relabel_ok self from to :
  readers_ok self ->
  readers_ok (Readers.relabel self from to)
  /\ forall d s, reads (Readers.relabel self from to) d s <-> relabelled (Readers.groups self) from to d s.
Proof.
  intros [Hg Hn]. unfold reads. destruct self as [|t r|t ds|gs]; cbn [Readers.relabel].
  - split; [by split|]. intros d s. apply relabelled_same. left. intros x (ds & H & _). by apply not_elem_of_nil in H.
  - destruct (N.eqb_spec t from) as [->|Hne].
    + split; [split; [by apply groups_ok_single; [apply rising_single|]|done]|].
      intros d s. simpl. unfold relabelled. rewrite !read_in_single. destruct (N.eq_dec s to); naive_solver.
    + split; [by split|]. intros d s. apply relabelled_same. left. intros x. simpl. rewrite read_in_single. naive_solver.
  - destruct (gk_each _ Hg (t, ds)) as [Hr Hne]; [by left|]. simpl in Hr, Hne.
    destruct (N.eqb_spec t from) as [->|Hn'].
    + split; [split; [by apply groups_ok_single|done]|].
      intros d s. simpl. unfold relabelled. rewrite !read_in_single. destruct (N.eq_dec s to); naive_solver.
    + split; [by split|]. intros d s. apply relabelled_same. left. intros x. simpl. rewrite read_in_single. naive_solver.
  - simpl in Hg, Hn. destruct (N.eqb_spec from to) as [->|Hft].
    { split; [by split|]. intros d s. apply relabelled_same. by right. }
    destruct (list_find _ gs) as [[i [seen ds]]|] eqn:Hfind.
    + apply list_find_Some in Hfind as (Hi & Hs & _). simpl in Hs. subst seen.
      destruct (relabel_groups gs from to ds (Readers.swap_remove gs i) Hg Hft) as [Hok Hread]; [by apply swap_remove_perm|].
      rewrite groups_collapse, (drop_empty_groups_ok _ Hok). split; [|done].
      apply collapse_ok. by rewrite (drop_empty_groups_ok _ Hok).
    + split; [by split|]. intros d s. apply relabelled_same. left. intros x (l & Hl & _). simpl in Hl.
      apply list_find_None in Hfind. rewrite Forall_forall in Hfind. by apply (Hfind _ Hl).
Qed.
