(* ===== verification/ReadersSpec.v ===== *)
(** * Many changes of the readers at once

    [Readers::apply_all] moves the readers between groups in one pass; it is
    the same as applying its changes one after another. *)

From S2P Require Import Prelude Readers ReadersProofs.
From stdpp Require Import list gmap sorting.
Import ApplyAll.

(** ** One change *)

Definition step (gs : list group) (op : ReaderOp) : list group :=
  match target op with
  | (d, Some s) => insert_in gs d s
  | (d, None) => remove_in gs d
  end.

(** [Seen] is only said of a reader. *)
Definition fits (self : Readers) (op : ReaderOp) : Prop :=
  match op with Seen d _ => exists s, reads self d s | _ => True end.

Lemma step_ok gs op : groups_ok gs -> groups_ok (step gs op).
Proof.
  intros Hgs. unfold step. destruct (target op) as [d [s|]]; [by apply insert_in_ok|by apply remove_in_ok].
Qed.

(** Where the groups are split at one of them. *)
Lemma split_group gs s ds :
  groups_ok gs -> (s, ds) ∈ gs ->
  exists g1 g2, gs = g1 ++ (s, ds) :: g2 /\ s ∉ g1.*1 /\ s ∉ g2.*1
    /\ forall d g, d ∈ ds -> g ∈ g1 \/ g ∈ g2 -> d ∉ g.2.
Proof.
  intros Hok (g1 & g2 & Hgs)%list_elem_of_split. exists g1, g2. split; [done|].
  pose proof (gk_seen _ Hok) as Hs. rewrite Hgs, fmap_app in Hs. simpl in Hs. apply NoDup_app in Hs as (_ & H1 & H2).
  apply NoDup_cons in H2 as [H2 _]. split_and!; [|done|].
  - intros Hin. apply (H1 s Hin). by left.
  - intros d g Hd Hg Hd'. assert (g = (s, ds)) as ->.
    { eapply (gk_apart _ Hok _ _ d); rewrite ?Hgs; [destruct Hg; set_solver|set_solver|done|done]. }
    destruct Hg as [Hg|Hg].
    + apply (H1 s); [|by left]. apply list_elem_of_fmap. by exists (s, ds).
    + apply H2. apply list_elem_of_fmap. by exists (s, ds).
Qed.

Lemma remove_in_app g1 g2 d : remove_in (g1 ++ g2) d = remove_in g1 d ++ remove_in g2 d.
Proof. unfold remove_in, drop_empty. by rewrite fmap_app, filter_app. Qed.

Lemma remove_in_absent gs d : (forall g, g ∈ gs -> group_ok g /\ d ∉ g.2) -> remove_in gs d = gs.
Proof.
  intros Hd. unfold remove_in. assert ((fun g : group => (g.1, take_from g.2 d)) <$> gs = gs) as ->.
  { rewrite <- (list_fmap_id gs) at 2. apply list_fmap_ext. intros i g Hg%list_elem_of_lookup_2.
    destruct (Hd g Hg) as [[Hr _] Hn]. rewrite take_from_absent by done. by destruct g. }
  apply drop_empty_id. intros g Hg. by apply Hd.
Qed.

Lemma insert_same gs d s : groups_ok gs -> read_in gs d s -> insert_in gs d s = gs.
Proof.
  intros Hok (ds & Hds & Hd). unfold insert_in.
  assert (Readers.has_group s gs = true) as -> by (apply has_group_spec, list_elem_of_fmap; by exists (s, ds)).
  assert (move_in gs d s = gs) as ->; [|by apply drop_empty_groups_ok].
  unfold move_in. rewrite <- (list_fmap_id gs) at 2. apply list_fmap_ext. intros i [t l] Hg%list_elem_of_lookup_2.
  destruct (gk_each _ Hok _ Hg) as [Hr _]. simpl in *. f_equal. destruct (N.eqb_spec t s) as [->|Hne].
  - rewrite (same_group gs s l ds (gk_seen _ Hok)) in * by done. by apply file_reader_present.
  - apply take_from_absent; [done|]. intros Hd'. assert ((t, l) = (s, ds)) by (by eapply (gk_apart _ Hok)). congruence.
Qed.

Lemma apply_step self op :
  readers_ok self -> fits self op ->
  exists r, ReaderOp.apply op self = Done r /\ readers_ok r /\ Readers.groups r = step (Readers.groups self) op.
Proof.
  intros Hok Hfit. destruct op as [d s|d s|d]; simpl in *.
  - destruct Hfit as [t Ht]. rewrite (seen_by_reads self d t Hok Ht). simpl. destruct (N.eqb_spec t s) as [->|Hne].
    + exists self. split_and!; [done|done|]. unfold step. simpl. by rewrite insert_same by (apply Hok || done).
    + eexists. split; [done|]. by apply insert_ok.
  - eexists. split; [done|]. by apply insert_ok.
  - eexists. split; [done|]. by apply remove_ok.
Qed.

Fixpoint apply_each (self : Readers) (ops : list ReaderOp) : outcome Readers :=
  match ops with
  | [] => Done self
  | op :: ops => r ← ReaderOp.apply op self; apply_each r ops
  end.

(** Every change is one its readers allow when its turn comes. *)
Fixpoint all_fit (self : Readers) (ops : list ReaderOp) : Prop :=
  match ops with
  | [] => True
  | op :: ops => fits self op /\ forall r, ReaderOp.apply op self = Done r -> all_fit r ops
  end.

Lemma apply_each_groups ops : forall self,
  readers_ok self -> all_fit self ops ->
  exists r, apply_each self ops = Done r /\ readers_ok r /\ Readers.groups r = foldl step (Readers.groups self) ops.
Proof.
  induction ops as [|op ops IH]; intros self Hok Hfit; simpl in *; [by exists self|].
  destruct Hfit as [Hf Hrest]. destruct (apply_step self op Hok Hf) as (r & Hr & Hr1 & Hr2). rewrite Hr. simpl.
  destruct (IH r Hr1 (Hrest r Hr)) as (r' & H1 & H2 & H3). exists r'. by rewrite H3, Hr2.
Qed.

(** ** The sizes of the groups *)

Definition sizes (gs : list group) : list (Fingerprint * nat) := (fun g : group => (g.1, length g.2)) <$> gs.

Lemma sizes_find gs1 gs2 s ds :
  s ∉ gs1.*1 ->
  list_find (fun g : Fingerprint * nat => g.1 = s) (sizes (gs1 ++ (s, ds) :: gs2)) = Some (length gs1, (s, length ds)).
Proof.
  intros Hs. apply list_find_Some. unfold sizes. rewrite fmap_app. split_and!; [|done|].
  - rewrite lookup_app_r by (by rewrite length_fmap). by rewrite length_fmap, Nat.sub_diag.
  - intros j [t n] Hj Hlt. rewrite lookup_app_l in Hj by (by rewrite length_fmap).
    apply list_lookup_fmap_Some in Hj as (g & Hgt & Hg). injection Hgt as -> ->. simpl. intros <-. apply Hs, list_elem_of_fmap.
    exists g. split; [done|by eapply list_elem_of_lookup_2].
Qed.

Lemma take_from_length ds d : rising ds -> d ∈ ds -> length ds = S (length (take_from ds d)).
Proof.
  intros Hr Hd. pose proof (binary_search_found ds d Hr) as Hf. pose proof (binary_search_at ds d Hd Hr) as Hat.
  unfold take_from. destruct (binary_search ds d) as [b i]. simpl in *. subst b. rewrite bool_decide_true by done.
  apply lookup_lt_Some in Hat as Hi. rewrite delete_take_drop, length_app, length_take, length_drop. lia.
Qed.

Lemma file_reader_new_length ds d : rising ds -> d ∉ ds -> length (file_reader ds d) = S (length ds).
Proof.
  intros Hr Hd. pose proof (binary_search_found ds d Hr) as Hf. unfold file_reader.
  destruct (binary_search ds d) as [b i] eqn:Hb. simpl in *. subst b. rewrite bool_decide_false by done.
  unfold binary_search in Hb. injection Hb as _ <-. unfold insert_at. rewrite length_app. cbn [length]. rewrite length_take, length_drop.
  pose proof (partition_point_le (fun y => (y <? d)%nat) ds). lia.
Qed.

Lemma remove_in_single s ds d :
  remove_in [(s, ds)] d = match length (take_from ds d) with 0 => [] | S _ => [(s, take_from ds d)] end.
Proof.
  unfold remove_in, drop_empty. simpl. rewrite filter_cons, filter_nil. simpl.
  by destruct (take_from ds d).
Qed.

Lemma list_insert_middle {A} (l1 l2 : list A) x y : <[length l1 := y]> (l1 ++ x :: l2) = l1 ++ y :: l2.
Proof. by induction l1 as [|z l1 IH]; simpl; [|rewrite IH]. Qed.

Lemma leave_sizes gs d s :
  groups_ok gs -> read_in gs d s -> leave (sizes gs) s = Done (sizes (remove_in gs d)).
Proof.
  intros Hok (ds & Hds & Hd). destruct (split_group gs s ds Hok Hds) as (g1 & g2 & -> & Hs1 & Hs2 & Hap).
  unfold leave. rewrite sizes_find by done. cbn [mbind outcome_bind expect].
  assert (Hr : rising ds) by (apply (gk_each _ Hok (s, ds)); set_solver).
  pose proof (take_from_length ds d Hr Hd) as Hlen. rewrite Hlen. f_equal.
  change ((s, ds) :: g2) with ([(s, ds)] ++ g2). rewrite !remove_in_app.
  rewrite (remove_in_absent g1), (remove_in_absent g2).
  2,3: intros g Hg; split; [apply (gk_each _ Hok); set_solver|apply (Hap d); [done|by auto]].
  rewrite remove_in_single. unfold sizes. rewrite !fmap_app.
  assert (Hl : length g1 = length ((fun g : group => (g.1, length g.2)) <$> g1)) by (by rewrite length_fmap).
  destruct (length (take_from ds d)) as [|n] eqn:Ht; simpl; rewrite Hl.
  - by rewrite delete_middle.
  - rewrite list_insert_middle. by rewrite Ht.
Qed.

Lemma join_sizes gs d s :
  groups_ok gs -> (forall t, ~ read_in gs d t) -> join (sizes gs) s = sizes (insert_in gs d s).
Proof.
  intros Hok Hno. assert (Habs : forall g, g ∈ gs -> d ∉ g.2) by (intros g Hg Hd; apply (Hno g.1); exists g.2; by destruct g).
  assert (Hother : forall g : group, g ∈ gs -> g.1 <> s -> (g.1, if N.eqb g.1 s then file_reader g.2 d else take_from g.2 d) = g).
  { intros [t l] Hg Hne. simpl in *. destruct (N.eqb_spec t s); [done|]. f_equal. apply take_from_absent; [apply (gk_each _ Hok _ Hg)|by apply (Habs (t, l))]. }
  unfold join, insert_in. destruct (Readers.has_group s gs) eqn:Hg.
  - apply has_group_spec, list_elem_of_fmap in Hg as ([t ds] & -> & Hds). simpl in *.
    destruct (split_group gs t ds Hok Hds) as (g1 & g2 & Hgs & Hs1 & Hs2 & _).
    rewrite Hgs, sizes_find by done. destruct (gk_each _ Hok _ Hds) as [Hr Hne]. simpl in Hr, Hne.
    assert (Hm : move_in gs d t = g1 ++ (t, file_reader ds d) :: g2).
    { rewrite Hgs. unfold move_in. rewrite fmap_app. simpl. rewrite N.eqb_refl. f_equal; [|f_equal].
      - rewrite <- (list_fmap_id g1) at 2. apply list_fmap_ext. intros i g Hi%list_elem_of_lookup_2.
        apply Hother; [rewrite Hgs; set_solver|]. intros <-. apply Hs1, list_elem_of_fmap. by exists g.
      - rewrite <- (list_fmap_id g2) at 2. apply list_fmap_ext. intros i g Hi%list_elem_of_lookup_2.
        apply Hother; [rewrite Hgs; set_solver|]. intros <-. apply Hs2, list_elem_of_fmap. by exists g. }
    rewrite <- Hgs, Hm. pose proof (file_reader_new_length ds d Hr (Habs _ Hds)) as Hlen.
    rewrite drop_empty_id.
    + unfold sizes. rewrite Hgs, !fmap_app. simpl. rewrite Hlen.
      rewrite <- (length_fmap (fun g : group => (g.1, length g.2)) g1) at 1. by rewrite list_insert_middle.
    + intros g [Hg|[->|Hg]%elem_of_cons]%elem_of_app.
      * apply (gk_each _ Hok). rewrite Hgs. set_solver.
      * simpl. intros H. rewrite H in Hlen. done.
      * apply (gk_each _ Hok). rewrite Hgs. set_solver.
  - assert (Hns : s ∉ gs.*1) by (intros H%has_group_spec; congruence).
    assert (Hm : move_in gs d s = gs).
    { unfold move_in. rewrite <- (list_fmap_id gs) at 2. apply list_fmap_ext. intros i g Hi%list_elem_of_lookup_2.
      apply Hother; [done|]. intros <-. apply Hns, list_elem_of_fmap. by exists g. }
    rewrite Hm. destruct (list_find _ (sizes gs)) as [[i [t n]]|] eqn:Hf.
    { apply list_find_Some in Hf as (Hi & Ht & _). simpl in Ht. subst t. destruct Hns.
      apply list_elem_of_lookup_2, list_elem_of_fmap in Hi as (g & [= -> _] & Hin). apply list_elem_of_fmap. by exists g. }
    rewrite drop_empty_id; [unfold sizes; by rewrite fmap_app|].
    intros g [Hg'| ->%list_elem_of_singleton]%elem_of_app; [by apply (gk_each _ Hok)|done].
Qed.

(** Moving a reader is taking it out and filing it anew. *)
Lemma insert_after_remove gs d s :
  groups_ok gs -> ~ read_in gs d s -> insert_in gs d s = insert_in (remove_in gs d) d s.
Proof.
  intros Hok Hno. unfold insert_in.
  assert (Hh : Readers.has_group s (remove_in gs d) = Readers.has_group s gs).
  { apply eq_true_iff_eq. rewrite !has_group_spec, !list_elem_of_fmap. split.
    - intros ([t l] & -> & Hg). apply elem_of_drop_empty in Hg as [(g & [= -> _] & Hg)%list_elem_of_fmap _]. by exists g.
    - intros ([t l] & -> & Hg). exists (t, l). split; [done|]. simpl in *. apply elem_of_drop_empty.
      destruct (gk_each _ Hok _ Hg) as [Hr Hne]. split; [|done]. apply list_elem_of_fmap. exists (t, l). split; [|done]. simpl.
      rewrite take_from_absent; [done|done|]. intros Hd. apply Hno. by exists l. }
  assert (Hm : drop_empty (move_in (remove_in gs d) d s) = drop_empty (move_in gs d s)).
  { assert (Hall : forall g : group, g ∈ gs -> rising g.2 /\ g.2 <> [] /\ (g.1 = s -> d ∉ g.2)).
    { intros [t l] Hg. destruct (gk_each _ Hok _ Hg) as [Hr Hne]. split_and!; [done|done|]. simpl. intros -> Hd. apply Hno. by exists l. }
    clear Hok Hno Hh. unfold remove_in, move_in, drop_empty. induction gs as [|[t l] gs IH]; [done|]. rewrite !fmap_cons. cbn [fst snd].
    destruct (Hall (t, l)) as (Hr & Hne & Hd); [by left|]. cbn [fst snd] in *.
    specialize (IH (fun g Hg => Hall g (list_elem_of_further _ _ _ Hg))).
    rewrite (filter_cons _ (t, take_from l d)). cbn [snd]. destruct (decide (length (take_from l d) <> 0)) as [Hl|Hl].
    - rewrite fmap_cons, !filter_cons, IH. cbn [fst snd]. destruct (N.eqb_spec t s) as [->|Hts].
      + by rewrite (take_from_absent l) by auto.
      + assert (take_from (take_from l d) d = take_from l d) as ->; [|done].
        apply take_from_absent; [by apply take_from_rising|]. rewrite elem_of_take_from by done. naive_solver.
    - rewrite IH, filter_cons. cbn [fst snd]. destruct (N.eqb_spec t s) as [->|Hts]; [|by rewrite decide_False].
      rewrite take_from_absent in Hl by auto. destruct l; [done|]. simpl in Hl. lia. }
  rewrite Hh. destruct (Readers.has_group s gs); [by symmetry|].
  unfold drop_empty in *. rewrite !filter_app. by f_equal.
Qed.

(** ** The pass over the changes *)

Definition gof (gs : list group) (d : DerivIdx) : option Fingerprint := Readers.group_of (Groups gs) d.

Lemma gof_spec gs d s : groups_ok gs -> gof gs d = Some s <-> read_in gs d s.
Proof.
  intros Hok. unfold gof, Readers.group_of. cbn [Readers.groups]. split.
  - intros (g & Hg & ->)%fmap_Some. apply find_some in Hg as [Hin Hb]. apply list_elem_of_In in Hin.
    rewrite binary_search_found in Hb by by apply (gk_each _ Hok). exists g.2. split; [by destruct g|by apply bool_decide_eq_true in Hb].
  - intros (ds & Hds & Hd). destruct (List.find _ _) as [g|] eqn:Hf.
    + apply find_some in Hf as [Hin Hb]. apply list_elem_of_In in Hin.
      rewrite binary_search_found in Hb by by apply (gk_each _ Hok). apply bool_decide_eq_true in Hb.
      by rewrite (gk_apart _ Hok g (s, ds) d).
    + eapply find_none in Hf; [|by apply list_elem_of_In]. rewrite binary_search_found in Hf by apply (gk_each _ Hok _ Hds).
      by apply bool_decide_eq_false in Hf.
Qed.

Lemma gof_eq gs gs' d : groups_ok gs -> groups_ok gs' -> (forall s, read_in gs d s <-> read_in gs' d s) -> gof gs d = gof gs' d.
Proof.
  intros H1 H2 H. apply option_eq. intros s. by rewrite !gof_spec.
Qed.

(** The pass has come to the groups [gs], from the groups [gs0]. *)
Definition tracks (gs0 gs : list group) (acc : list (Fingerprint * nat) * gmap DerivIdx (option Fingerprint * option Fingerprint)) : Prop :=
  acc.1 = sizes gs /\ forall d, match acc.2 !! d with
                                 | Some (before, now) => before = gof gs0 d /\ now = gof gs d
                                 | None => gof gs d = gof gs0 d
                                 end.

Lemma gof_step gs op d :
  groups_ok gs -> gof (step gs op) d = if decide (d = (target op).1) then (target op).2 else gof gs d.
Proof.
  intros Hok. pose proof (step_ok gs op Hok) as Hok'. apply option_eq. intros s. rewrite gof_spec by done.
  unfold step in *. destruct (target op) as [d0 [t|]]; cbn [fst snd].
  - rewrite (proj2 (insert_in_ok gs d0 t Hok)). destruct (decide (d = d0)) as [->|]; rewrite ?gof_spec by done; naive_solver.
  - rewrite (proj2 (remove_in_ok gs d0 Hok)). destruct (decide (d = d0)) as [->|]; rewrite ?gof_spec by done; naive_solver.
Qed.

Lemma touch_ok self gs acc op :
  groups_ok gs -> tracks (Readers.groups self) gs acc ->
  exists acc', touch self acc op = Done acc' /\ tracks (Readers.groups self) (step gs op) acc'.
Proof.
  destruct acc as [order touched]. intros Hok [Ho Ht]. simpl in Ho. subst order.
  unfold touch. destruct (target op) as [d to] eqn:Htarget.
  assert (Hnow : default (Readers.group_of self d, Readers.group_of self d) (touched !! d) = (gof (Readers.groups self) d, gof gs d)).
  { specialize (Ht d). simpl in Ht. destruct (touched !! d) as [[b n]|]; simpl; [by destruct Ht as [-> ->]|by rewrite Ht]. }
  rewrite Hnow.
  assert (Hmap : forall d', match <[d := (gof (Readers.groups self) d, to)]> touched !! d' with
             | Some (before, now) => before = gof (Readers.groups self) d' /\ now = gof (step gs op) d'
             | None => gof (step gs op) d' = gof (Readers.groups self) d'
             end).
  { intros d'. rewrite gof_step, Htarget by done. cbn [fst snd]. destruct (decide (d' = d)) as [->|Hne].
    - by rewrite lookup_insert_eq.
    - rewrite lookup_insert_ne by done. apply (Ht d'). }
  case_bool_decide as Hsame.
  { eexists. split; [done|]. split; [|by rewrite <- Hsame in Hmap]. simpl. f_equal. symmetry.
    unfold step. rewrite Htarget. destruct to as [s|].
    - apply insert_same; [done|]. by apply gof_spec.
    - apply remove_in_absent. intros g Hg. split; [by apply (gk_each _ Hok)|]. intros Hd.
      assert (gof gs d = Some g.1) by (apply gof_spec; [done|]; exists g.2; by destruct g). congruence. }
  destruct (gof gs d) as [from|] eqn:Hfrom.
  - assert (Hr : read_in gs d from) by (by apply gof_spec). rewrite (leave_sizes gs d from Hok Hr). simpl.
    eexists. split; [done|]. split; [|done]. simpl. unfold step. rewrite Htarget. destruct to as [s|]; [|done].
    rewrite (insert_after_remove gs d s Hok).
    + apply join_sizes; [by apply remove_in_ok|]. intros t. rewrite (proj2 (remove_in_ok gs d Hok)). naive_solver.
    + intros Hs%gof_spec; [|done]. congruence.
  - simpl. eexists. split; [done|]. split; [|done]. simpl. unfold step. rewrite Htarget. destruct to as [s|]; [|done].
    apply join_sizes; [done|]. intros t Ht'%gof_spec; [|done]. congruence.
Qed.

Lemma touch_all_ok self ops : forall gs acc,
  groups_ok gs -> tracks (Readers.groups self) gs acc ->
  exists acc', touch_all self acc ops = Done acc' /\ tracks (Readers.groups self) (foldl step gs ops) acc'.
Proof.
  induction ops as [|op ops IH]; intros gs acc Hok Ht; simpl; [by exists acc|].
  destruct (touch_ok self gs acc op Hok Ht) as (acc' & -> & Ht'). simpl. apply IH; [by apply step_ok|done].
Qed.

(** ** Who leaves and who joins *)

Lemma elem_of_leaving gs0 gs order touched s d :
  tracks gs0 gs (order, touched) -> (s, d) ∈ leaving touched <-> gof gs0 d = Some s /\ gof gs d <> Some s.
Proof.
  intros [_ Ht]. simpl in Ht. specialize (Ht d). unfold leaving. rewrite list_elem_of_omap. split.
  - intros ([d' [b a]] & Hin & Heq). apply elem_of_map_to_list in Hin. case_bool_decide; [done|].
    apply fmap_Some in Heq as (t & -> & [= -> ->]). rewrite Hin in Ht. destruct Ht as [<- <-]. by split.
  - intros [Hb Ha]. destruct (touched !! d) as [[b a]|] eqn:Htd; [|congruence]. destruct Ht as [-> ->].
    exists (d, (gof gs0 d, gof gs d)). split; [by apply elem_of_map_to_list|]. rewrite bool_decide_false by congruence. by rewrite Hb.
Qed.

Lemma elem_of_joining gs0 gs order touched s d :
  tracks gs0 gs (order, touched) -> (s, d) ∈ joining touched <-> gof gs d = Some s /\ gof gs0 d <> Some s.
Proof.
  intros [_ Ht]. simpl in Ht. specialize (Ht d). unfold joining. rewrite list_elem_of_omap. split.
  - intros ([d' [b a]] & Hin & Heq). apply elem_of_map_to_list in Hin. case_bool_decide; [done|].
    apply fmap_Some in Heq as (t & -> & [= -> ->]). rewrite Hin in Ht. destruct Ht as [<- <-]. by split.
  - intros [Ha Hb]. destruct (touched !! d) as [[b a]|] eqn:Htd; [|congruence]. destruct Ht as [-> ->].
    exists (d, (gof gs0 d, gof gs d)). split; [by apply elem_of_map_to_list|]. rewrite bool_decide_false by congruence. by rewrite Ha.
Qed.

Lemma moved_le_sorted l : StronglySorted (fun a b => moved_le a b = true) (sort_by moved_le l).
Proof.
  unfold moved_le. apply sort_by_strongly_sorted.
  - intros [a1 a2] [b1 b2]. simpl. destruct (N.ltb_spec a1 b1), (N.eqb_spec a1 b1), (Nat.leb_spec a2 b2); simpl; try done;
      intros _; destruct (N.ltb_spec b1 a1), (N.eqb_spec b1 a1), (Nat.leb_spec b2 a2); simpl; try done; lia.
  - intros [a1 a2] [b1 b2] [c1 c2]. simpl.
    destruct (N.ltb_spec a1 b1), (N.eqb_spec a1 b1), (Nat.leb_spec a2 b2); simpl; try done;
      destruct (N.ltb_spec b1 c1), (N.eqb_spec b1 c1), (Nat.leb_spec b2 c2); simpl; try done; intros _ _;
      destruct (N.ltb_spec a1 c1), (N.eqb_spec a1 c1), (Nat.leb_spec a2 c2); simpl; try done; lia.
Qed.

Lemma moved_le_fst a b : moved_le a b = true -> (a.1 <= b.1)%N.
Proof. unfold moved_le. destruct (N.ltb_spec a.1 b.1), (N.eqb_spec a.1 b.1); simpl; try done; lia. Qed.

Lemma of_group_filter l s :
  StronglySorted (fun a b => moved_le a b = true) l ->
  of_group l s = snd <$> filter (fun m : Fingerprint * DerivIdx => m.1 = s) l.
Proof.
  unfold of_group. induction 1 as [|[t d] l Hl IH Hx]; [done|]. cbn [partition_point fst].
  assert (Hle : forall m, m ∈ l -> (t <= m.1)%N).
  { intros m Hm. rewrite Forall_forall in Hx. by apply (moved_le_fst (t, d)), Hx. }
  destruct (N.ltb_spec t s) as [Hlt|Hge].
  - rewrite (proj2 (N.leb_le t s)) by lia. cbn [drop]. rewrite filter_cons_False by (simpl; lia). exact IH.
  - cbn [drop]. assert (Hstart : partition_point (fun m : Fingerprint * DerivIdx => (m.1 <? s)%N) l = 0).
    { destruct l as [|m l]; [done|]. simpl. destruct (N.ltb_spec m.1 s); [|done]. specialize (Hle m (list_elem_of_here _ _)). lia. }
    rewrite Hstart in IH. destruct (N.leb_spec t s) as [Hts|Hts].
    + rewrite filter_cons_True by (simpl; lia). cbn. f_equal. rewrite <- IH. by rewrite Nat.sub_0_r.
    + rewrite filter_cons_False by (simpl; lia). cbn. assert (Hnil : filter (fun m : Fingerprint * DerivIdx => m.1 = s) l = []); [|by rewrite Hnil].
      clear -Hle Hts. induction l as [|m l IHl]; [done|]. rewrite filter_cons_False.
      * apply IHl. intros m' Hm'. apply Hle. by right.
      * specialize (Hle m (list_elem_of_here _ _)). lia.
Qed.

Lemma of_group_ok l s :
  NoDup l -> let derivs := of_group (sort_by moved_le l) s in
  rising derivs /\ forall d, d ∈ derivs <-> (s, d) ∈ l.
Proof.
  intros Hn derivs. unfold derivs. rewrite of_group_filter by apply moved_le_sorted.
  assert (HP := sort_by_perm moved_le l). assert (Hs := moved_le_sorted l).
  assert (Hn' : NoDup (sort_by moved_le l)) by (by rewrite HP). split.
  - clear HP Hn derivs. induction Hs as [|[t d] l' Hl IH Hx]; [constructor|]. apply NoDup_cons in Hn' as [Hd Hn'].
    destruct (decide (t = s)) as [->|Hts]; [|rewrite filter_cons_False by done; by apply IH].
    rewrite filter_cons_True by done. rewrite fmap_cons. constructor; [by apply IH|].
    apply Forall_forall. intros x ([u y] & -> & Hy)%list_elem_of_fmap. apply list_elem_of_filter in Hy as [Hu Hy]. simpl in *. subst u.
    rewrite Forall_forall in Hx. specialize (Hx _ Hy). unfold moved_le in Hx. simpl in Hx.
    rewrite N.ltb_irrefl, N.eqb_refl in Hx. simpl in Hx. apply Nat.leb_le in Hx. assert (y <> d) by (by intros ->). lia.
  - intros d. rewrite list_elem_of_fmap. split.
    + intros ([t x] & -> & Hx). apply list_elem_of_filter in Hx as [Ht Hx]. simpl in *. subst t. by rewrite HP in Hx.
    + intros Hd. exists (s, d). split; [done|]. apply list_elem_of_filter. split; [done|by rewrite HP].
Qed.

Lemma NoDup_omap_key {A B C} (f : A * B -> option C) (l : list (A * B)) (g : C -> A) :
  (forall x c, f x = Some c -> g c = x.1) -> NoDup l.*1 -> NoDup (omap f l).
Proof.
  intros Hf. induction l as [|x l IH]; intros Hn; [constructor|]. simpl in *. apply NoDup_cons in Hn as [Hx Hn].
  destruct (f x) as [c|] eqn:Hc; [|by apply IH]. constructor; [|by apply IH].
  intros (y & Hy & Hfy)%list_elem_of_omap. apply Hx. rewrite <- (Hf x c Hc), (Hf y c Hfy). apply list_elem_of_fmap. by exists y.
Qed.

Lemma leaving_nodup touched : NoDup (leaving touched).
Proof.
  unfold leaving. eapply (NoDup_omap_key _ _ snd); [|apply NoDup_fst_map_to_list].
  intros [d [b a]] [s x]. case_bool_decide; [done|]. by intros (t & -> & [= -> ->])%fmap_Some.
Qed.

Lemma joining_nodup touched : NoDup (joining touched).
Proof.
  unfold joining. eapply (NoDup_omap_key _ _ snd); [|apply NoDup_fst_map_to_list].
  intros [d [b a]] [s x]. case_bool_decide; [done|]. by intros (t & -> & [= -> ->])%fmap_Some.
Qed.

(** ** The groups put together again *)

Section Regroup.
Context (gs0 gs : list group) (L J : list (Fingerprint * DerivIdx)).
Hypothesis Hok0 : groups_ok gs0.
Hypothesis Hok : groups_ok gs.
Hypothesis HLn : NoDup L.
Hypothesis HJn : NoDup J.
Hypothesis HL : forall s d, (s, d) ∈ L <-> gof gs0 d = Some s /\ gof gs d <> Some s.
Hypothesis HJ : forall s d, (s, d) ∈ J <-> gof gs d = Some s /\ gof gs0 d <> Some s.

Lemma regroup_one s derivs ds :
  (s, ds) ∈ gs -> (forall d, d ∈ derivs <-> gof gs0 d = Some s) -> rising derivs ->
  insert_sorted (remove_sorted derivs (of_group (sort_by moved_le L) s)) (of_group (sort_by moved_le J) s) = ds.
Proof.
  intros Hds Hd Hr. destruct (of_group_ok L s HLn) as [HLr HLe], (of_group_ok J s HJn) as [HJr HJe].
  rewrite remove_sorted_spec by done.
  destruct (insert_sorted_spec (filter (fun y => y ∉ of_group (sort_by moved_le L) s) derivs) (of_group (sort_by moved_le J) s)) as [Hir Hie].
  - by apply rising_filter.
  - done.
  - intros x Hx Hx'. apply HJe, HJ in Hx. apply list_elem_of_filter in Hx' as [_ Hx']. apply Hd in Hx'. naive_solver.
  - apply rising_ext; [done|apply (gk_each _ Hok _ Hds)|]. intros x. rewrite Hie, list_elem_of_filter, HLe, HJe, HL, HJ, Hd.
    rewrite (group_reads gs s ds x Hok Hds), <- gof_spec by done.
    destruct (decide (gof gs x = Some s)), (decide (gof gs0 x = Some s)); naive_solver.
Qed.

Lemma regroup_all suffix : forall rem acc,
  NoDup suffix.*1 -> (forall g, g ∈ suffix -> g ∈ gs) ->
  (forall s ds, s ∈ suffix.*1 -> (s, ds) ∈ rem <-> (s, ds) ∈ gs0) ->
  (foldl (regroup (sort_by moved_le L) (sort_by moved_le J)) (rem, acc) (sizes suffix)).2 = acc ++ suffix.
Proof.
  induction suffix as [|[s ds] suffix IH]; intros rem acc Hn Hin Hrem; [by rewrite app_nil_r|].
  simpl in Hn. apply NoDup_cons in Hn as [Hs Hn]. cbn [sizes fmap list_fmap foldl regroup]. cbn [fst snd].
  change (list_fmap group _ ?f suffix) with (f <$> suffix). fold (sizes suffix).
  assert (Hds : (s, ds) ∈ gs) by (apply Hin; by left).
  destruct (list_find _ rem) as [[i [t l]]|] eqn:Hf.
  - apply list_find_Some in Hf as (Hi & Ht & _). simpl in Ht. subst t.
    assert (Hl : (s, l) ∈ gs0) by (apply Hrem; [by left|by eapply list_elem_of_lookup_2]).
    rewrite (regroup_one s l ds Hds).
    + rewrite IH; [by rewrite <- app_assoc|done|intros g Hg; apply Hin; by right|].
      intros u k Hu. rewrite <- Hrem by (by right).
      pose proof (swap_remove_perm rem i _ Hi) as HP. set (R := Readers.swap_remove rem i) in *. clearbody R. rewrite HP, elem_of_cons.
      split; [by right|]. intros [[= -> ->]|?]; [done|done].
    + intros d. rewrite (group_reads gs0 s l d Hok0 Hl). by rewrite gof_spec.
    + apply (gk_each _ Hok0 _ Hl).
  - rewrite (regroup_one s [] ds Hds).
    + rewrite IH; [by rewrite <- app_assoc|done|intros g Hg; apply Hin; by right|].
      intros u k Hu. apply Hrem. by right.
    + intros d. rewrite gof_spec by done. split; [by intros ?%not_elem_of_nil|]. intros (l & Hl & _). exfalso.
      apply list_find_None in Hf. rewrite Forall_forall in Hf. apply (Hf (s, l)); [|done]. apply Hrem; [by left|done].
    + constructor.
Qed.
End Regroup.

(** C36: moving many readers in one pass is moving them one after another: the
    groups are the same and in the same order, unless every reader ends where
    it began, where [apply_all] leaves them as they are and only the order of
    the groups may differ. *)
Theorem apply_all_is_each (self : Readers) (ops : list ReaderOp) :
  readers_ok self -> all_fit self ops ->
  exists each all, apply_each self ops = Done each /\ apply_all self ops = Done all
    /\ readers_ok each /\ readers_ok all
    /\ (all = each \/ (all = self /\ Readers.groups self ≡ₚ Readers.groups each)).
Proof.
  intros Hok Hfit. destruct (apply_each_groups ops self Hok Hfit) as (each & Heach & Hoke & Hg). exists each.
  assert (Hone : (exists op, ops = [op]) \/ ~ exists op, ops = [op]).
  { destruct ops as [|op [|op' ops]]; [right|left|right]; [by intros [? ?]|by exists op|by intros [? ?]]. }
  destruct Hone as [[op ->]|Hmany].
  { simpl in Heach. destruct (ReaderOp.apply op self) as [r| |] eqn:Hr; try done. simpl in Heach. injection Heach as ->.
    exists each. split_and!; [by simpl; rewrite Hr|by simpl; rewrite Hr|done|done|by left]. }
  set (gs0 := Readers.groups self) in *. set (gs := foldl step gs0 ops) in *.
  destruct (touch_all_ok self ops gs0 (sizes gs0, ∅)) as ([order touched] & Htouch & Htr).
  { apply Hok. }
  { split; [done|]. intros d. simpl. by rewrite lookup_empty. }
  fold gs gs0 in Htr. assert (Hgs : groups_ok gs) by (rewrite <- Hg; apply Hoke).
  assert (Hall : apply_all self ops = (let leaving := leaving touched in let joining := joining touched in
      if bool_decide (leaving = []) && bool_decide (joining = []) then Done self else
      let '(_, regrouped) := foldl (regroup (sort_by moved_le leaving) (sort_by moved_le joining)) (gs0, []) order in
      Done (Readers.collapse (Groups regrouped)))).
  { unfold apply_all. fold gs0. fold (sizes gs0). destruct ops as [|op [|op' ops']]; [|by destruct Hmany; exists op|];
      by rewrite Htouch. }
  rewrite Hall. cbv zeta. destruct (bool_decide (leaving touched = []) && bool_decide (joining touched = [])) eqn:Hnone.
  - exists self. split_and!; [done|done|done|done|]. right. split; [done|]. rewrite Hg.
    apply andb_true_iff in Hnone as [Hl%bool_decide_eq_true Hj%bool_decide_eq_true].
    apply groups_determined; [apply Hok|done|]. intros d s. rewrite <- !gof_spec by (done || apply Hok).
    split; intros H; destruct (decide (gof gs d = gof gs0 d)) as [He|He]; try congruence; exfalso.
    + apply (not_elem_of_nil (s, d)). rewrite <- Hl. eapply elem_of_leaving; [done|]. split; [done|congruence].
    + apply (not_elem_of_nil (s, d)). rewrite <- Hj. eapply elem_of_joining; [done|]. split; [done|congruence].
  - destruct Htr as [Ho Htd]. simpl in Ho. subst order.
    pose proof (regroup_all gs0 gs (leaving touched) (joining touched) (proj1 Hok) Hgs (leaving_nodup _) (joining_nodup _)
      (fun s d => elem_of_leaving gs0 gs (sizes gs) touched s d (conj eq_refl Htd))
      (fun s d => elem_of_joining gs0 gs (sizes gs) touched s d (conj eq_refl Htd))
      gs gs0 [] (gk_seen _ Hgs) (fun g H => H)) as Hre.
    destruct (foldl _ (gs0, []) (sizes gs)) as [rem regrouped]. cbn [snd app] in Hre. rewrite Hre by done.
    assert (He : Readers.collapse (Groups gs) = each) by (rewrite <- Hg; by apply collapse_groups).
    exists each. rewrite He. split_and!; [done|done|done|done|by left].
Qed.

Lemma apply_all_is_each_witness :
  let self := Groups [(7%N, [1; 4]); (9%N, [2])] in
  let ops := [Seen 1 9%N; Insert_ 5 7%N; Remove 2] in
  apply_all self ops = Done (Groups [(7%N, [4; 5]); (9%N, [1])]).
Proof.
  intros self ops.
  assert (Hok : readers_ok self).
  { split; [split|simpl; lia].
    - intros g [->| ->%list_elem_of_singleton]%elem_of_cons; (split; [|done]); repeat constructor; simpl; lia.
    - apply NoDup_cons. split; [by intros H%list_elem_of_singleton|apply NoDup_singleton].
    - intros g h d [->| ->%list_elem_of_singleton]%elem_of_cons [->| ->%list_elem_of_singleton]%elem_of_cons; simpl;
        rewrite !elem_of_cons, ?elem_of_nil; intros H1 H2; (done || naive_solver). }
  destruct (apply_all_is_each self ops Hok) as (each & all & He & Ha & _ & _ & Heq).
  - split; [exists 7%N; apply group_of_reads; [done|by vm_compute]|]. intros r _. by repeat split.
  - vm_compute in He. injection He as <-. rewrite Ha. destruct Heq as [->|[-> HP]]; [done|].
    exfalso. assert (Hin : (9%N, [1]) ∈ Readers.groups self) by (rewrite HP; simpl; right; by left).
    by apply elem_of_cons in Hin as [[=]|[=]%list_elem_of_singleton].
Defined.

(** Readers that go away and come back leave their group where it was; one
    after another they would have closed it and opened it anew at the end. *)
Example back_and_forth :
  let self := Groups [(7%N, [1]); (9%N, [2])] in
  let ops := [Seen 1 9%N; Seen 1 7%N] in
  apply_all self ops = Done self /\ apply_each self ops = Done (Groups [(9%N, [2]); (7%N, [1])]).
Proof. by vm_compute. Qed.
