(* ===== verification/Derivation.v ===== *)
(** * Derivations

    [src/crates/glua_code_analysis/src/db_index/derivation/mod.rs]: the stages
    of an engine run, the kinds of derivations with the order they are
    evaluated in, their identities, and the fingerprints of facts.

    The hash of a value ([rustc_hash]) is a parameter. *)

From S2P Require Import Prelude Kinds Text FileOrder EditMap EditRemap.
From stdpp Require Import list.

(** ** Stages *)

Inductive AnalysisStage : Type := Open_ | SkipUntyped | Closed.

#[global] Instance stage_eq_dec : EqDecision AnalysisStage.
Proof. solve_decision. Defined.

(** The derived order. *)
Definition stage_index (stage : AnalysisStage) : nat :=
  match stage with Open_ => 0 | SkipUntyped => 1 | Closed => 2 end.

Module AnalysisStage.
Definition next (self : AnalysisStage) : option AnalysisStage :=
  match self with
  | Open_ => Some SkipUntyped
  | SkipUntyped => Some Closed
  | Closed => None
  end.
End AnalysisStage.

Inductive StageRule : Type := SkipUntypedWriters | FloorUnsettled | DynamicFieldsFiled.

#[global] Instance stage_rule_eq_dec : EqDecision StageRule.
Proof. solve_decision. Defined.

(** ** Kinds *)

Inductive DerivationKind : Type :=
  | Source
  | GmodHelperScan
  | GmodCallRoles
  | NetHelperNames
  | GmodLoadCallSites
  | GmodPre
  | GmodLoad
  | ValidGuardScan
  | ValidGuards
  | Guard
  | LocalStat_
  | AssignStat_
  | ForRangeStat_
  | FuncStat_
  | LocalFuncStat_
  | TableField
  | Closure
  | Call
  | Setmetatable
  | ChunkReturn
  | GmodClassCallSites
  | GmodPost
  | VguiRelations
  | VguiChains
  | AccessorFunc
  | DynamicFieldWrite
  | SetmetatableFactory
  | CallTarget
  | ReceiverAuthority
  | CallbackParams
  | CallSiteParam
  | CallSiteParams
  | LocalFallbacks
  | NetCall
  | NetHelper
  | NetFlows
  | Diagnostics.

#[global] Instance derivation_kind_eq_dec : EqDecision DerivationKind.
Proof. solve_decision. Defined.

(** [kind as u8]: the place of the declaration. *)
Definition kind_index (kind : DerivationKind) : nat :=
  match kind with
  | Source => 0 | GmodHelperScan => 1 | GmodCallRoles => 2 | NetHelperNames => 3 | GmodLoadCallSites => 4
  | GmodPre => 5 | GmodLoad => 6 | ValidGuardScan => 7 | ValidGuards => 8 | Guard => 9
  | LocalStat_ => 10 | AssignStat_ => 11 | ForRangeStat_ => 12 | FuncStat_ => 13 | LocalFuncStat_ => 14
  | TableField => 15 | Closure => 16 | Call => 17 | Setmetatable => 18 | ChunkReturn => 19
  | GmodClassCallSites => 20 | GmodPost => 21 | VguiRelations => 22 | VguiChains => 23 | AccessorFunc => 24
  | DynamicFieldWrite => 25 | SetmetatableFactory => 26 | CallTarget => 27 | ReceiverAuthority => 28
  | CallbackParams => 29 | CallSiteParam => 30 | CallSiteParams => 31 | LocalFallbacks => 32
  | NetCall => 33 | NetHelper => 34 | NetFlows => 35 | Diagnostics => 36
  end.

Module DerivationKind.
Definition rank (self : DerivationKind) : nat :=
  match self with
  | LocalStat_ | AssignStat_ | ForRangeStat_ | FuncStat_ | LocalFuncStat_ | TableField | Closure | Call
  | Setmetatable => kind_index LocalStat_
  | LocalFallbacks => kind_index AccessorFunc
  | kind => kind_index kind
  end.

(** [StageRule::holds_from] of the rule that a read of what has not landed is
    answered with a floor. *)
Definition floor_unsettled_from : AnalysisStage := Closed.

Definition first_stage (self : DerivationKind) : AnalysisStage :=
  match self with
  | LocalFallbacks => floor_unsettled_from
  | DynamicFieldWrite | CallTarget | ReceiverAuthority | CallbackParams | CallSiteParam | CallSiteParams
  | NetCall | NetHelper | NetFlows => Closed
  | _ => Open_
  end.

Definition is_statement (self : DerivationKind) : bool := (rank self =? rank LocalStat_)%nat.

Definition is_query (self : DerivationKind) : bool :=
  match self with ReceiverAuthority | CallbackParams => true | _ => false end.

Definition closes_loops (self : DerivationKind) : bool :=
  is_statement self || (bool_decide (first_stage self = Closed) && negb (is_query self)).
End DerivationKind.

Module StageRule.
Definition ALL : list StageRule := [SkipUntypedWriters; FloorUnsettled; DynamicFieldsFiled].

Definition holds_from (self : StageRule) : AnalysisStage :=
  match self with
  | SkipUntypedWriters => SkipUntyped
  | FloorUnsettled => DerivationKind.floor_unsettled_from
  | DynamicFieldsFiled => DerivationKind.first_stage DynamicFieldWrite
  end.

Definition holds_at (self : StageRule) (stage : AnalysisStage) : bool :=
  (stage_index (holds_from self) <=? stage_index stage)%nat.
End StageRule.

(** ** Identities *)

Record DerivationId : Type := mkDerivationId {
  deriv_kind : DerivationKind;
  deriv_file : FileId;
  deriv_syntax : LuaSyntaxKind;
  deriv_start : N;
  deriv_end : N
}.

#[global] Instance derivation_id_eq_dec : EqDecision DerivationId.
Proof. solve_decision. Defined.

Module DerivationId.
Definition VIRTUAL : FileId := 4294967295%N.

(** [syntax.get_kind()] is [LuaSyntaxKind::None] for a token. *)
Definition new (kind : DerivationKind) (file_id : FileId) (syntax : LuaSyntaxId) : DerivationId :=
  mkDerivationId kind file_id (to_syntax (id_kind syntax)) (text_start (id_range syntax)) (text_end (id_range syntax)).

Definition workspace (kind : DerivationKind) : DerivationId := mkDerivationId kind VIRTUAL SkNone 0 0.
Definition floor : DerivationId := mkDerivationId Source 0%N SkNone 0 0.
Definition diagnostics (file_id : FileId) : DerivationId := mkDerivationId Diagnostics file_id SkNone 0 0.

(** [TextRange::new] asserts that the range does not end before it starts. *)
Definition get_syntax_id (self : DerivationId) : outcome LuaSyntaxId :=
  if (deriv_start self <=? deriv_end self)%N
  then Done (mkSyntaxId (Syntax (deriv_syntax self)) (mkTextRange (deriv_start self) (deriv_end self)))
  else Panic.

Definition order_key (self : DerivationId) : list N :=
  [N.of_nat (DerivationKind.rank (deriv_kind self)); deriv_file self; deriv_start self; deriv_end self;
   N.of_nat (kind_index (deriv_kind self)); Kinds.syntax_id (deriv_syntax self)].

(** The order of tuples: the first difference decides. *)
Fixpoint lex_cmp (a b : list N) : comparison :=
  match a, b with
  | x :: a, y :: b => match N.compare x y with Eq => lex_cmp a b | c => c end
  | [], [] => Eq
  | [], _ => Lt
  | _, [] => Gt
  end.

Definition cmp (self other : DerivationId) : comparison := lex_cmp (order_key self) (order_key other).

Definition le (self other : DerivationId) : bool := match cmp self other with Gt => false | _ => true end.
End DerivationId.

(** ** Fingerprints *)

Definition ABSENT : N := 0.
(** [Fingerprint::MAX] *)
Definition UNSEEN : N := 2 ^ 64 - 1.

Definition wrapping_mul (a b : N) : N := ((a * b) mod 2 ^ 64)%N.

Definition mix (hash : N) : N :=
  let hash := N.lxor hash (N.shiftr hash 33) in
  let hash := wrapping_mul hash 0xff51afd7ed558ccd in
  let hash := N.lxor hash (N.shiftr hash 33) in
  let hash := wrapping_mul hash 0xc4ceb9fe1a85ec53 in
  N.lxor hash (N.shiftr hash 33).

(** [hash] is what the hasher makes of the value. *)
Definition fingerprint_of (hash : N) : N := N.max (mix hash) 1.
Definition fingerprint_opt (hash : option N) : N := from_option fingerprint_of ABSENT hash.

Module SetFingerprint.
Definition insert (self : N) (member : N) : N := ((self + fingerprint_of member) mod 2 ^ 64)%N.
Definition remove (self : N) (member : N) : N := ((self + (2 ^ 64 - fingerprint_of member)) mod 2 ^ 64)%N.
End SetFingerprint.

(** ** The order of derivations *)

Lemma kind_index_inj k1 k2 : kind_index k1 = kind_index k2 -> k1 = k2.
Proof. by destruct k1, k2. Qed.

Lemma order_key_inj d1 d2 : DerivationId.order_key d1 = DerivationId.order_key d2 -> d1 = d2.
Proof.
  destruct d1 as [k1 f1 x1 s1 e1], d2 as [k2 f2 x2 s2 e2]. unfold DerivationId.order_key.
  cbn [deriv_kind deriv_file deriv_syntax deriv_start deriv_end].
  intros [= _ -> -> -> Hk%Nat2N.inj Hx].
  f_equal; [by apply kind_index_inj|apply (inj Some); by rewrite <- !syntax_of_id_of, Hx].
Qed.

Lemma lex_cmp_eq a : forall b, DerivationId.lex_cmp a b = Eq <-> a = b.
Proof.
  induction a as [|x a IH]; intros [|y b]; simpl; [done..|]. destruct (N.compare_spec x y) as [->|Hlt|Hlt].
  - rewrite IH. split; [by intros ->|by intros [= ->]].
  - split; [done|]. intros [= -> _]. lia.
  - split; [done|]. intros [= -> _]. lia.
Qed.

Lemma lex_cmp_flip a : forall b, DerivationId.lex_cmp b a = CompOpp (DerivationId.lex_cmp a b).
Proof.
  induction a as [|x a IH]; intros [|y b]; simpl; [done..|].
  rewrite (N.compare_antisym x y). destruct (N.compare x y); simpl; [apply IH|done|done].
Qed.

Lemma lex_cmp_trans a : forall b c,
  DerivationId.lex_cmp a b <> Gt -> DerivationId.lex_cmp b c <> Gt -> DerivationId.lex_cmp a c <> Gt.
Proof.
  induction a as [|x a IH]; intros [|y b] [|z c]; simpl; try done.
  destruct (N.compare_spec x y) as [->|H1|H1]; intros Hab Hbc; [|destruct (N.compare_spec y z) as [->|H2|H2]|done].
  - destruct (N.compare y z); [by eapply IH|done|done].
  - by rewrite (proj2 (N.compare_lt_iff _ _)).
  - by rewrite (proj2 (N.compare_lt_iff _ _)) by lia.
  - done.
Qed.

Lemma derivation_le_total d1 d2 : DerivationId.le d1 d2 = false -> DerivationId.le d2 d1 = true.
Proof.
  unfold DerivationId.le, DerivationId.cmp. rewrite (lex_cmp_flip (DerivationId.order_key d1) (DerivationId.order_key d2)).
  by destruct (DerivationId.lex_cmp _ _).
Qed.

Lemma derivation_le_trans d1 d2 d3 :
  DerivationId.le d1 d2 = true -> DerivationId.le d2 d3 = true -> DerivationId.le d1 d3 = true.
Proof.
  assert (Hle : forall a b, DerivationId.le a b = true <-> DerivationId.cmp a b <> Gt).
  { intros a b. unfold DerivationId.le. by destruct (DerivationId.cmp a b). }
  rewrite !Hle. apply lex_cmp_trans.
Qed.

Lemma derivation_le_antisym d1 d2 : DerivationId.le d1 d2 = true -> DerivationId.le d2 d1 = true -> d1 = d2.
Proof.
  unfold DerivationId.le, DerivationId.cmp. rewrite (lex_cmp_flip (DerivationId.order_key d1) (DerivationId.order_key d2)).
  destruct (DerivationId.lex_cmp _ _) eqn:Hc; try done. intros _ _. apply order_key_inj. by apply lex_cmp_eq.
Qed.

(** ** Fingerprints are nearly hashes *)

Lemma shift_xor_involutive h :
  (h < 2 ^ 64)%N -> N.lxor (N.lxor h (N.shiftr h 33)) (N.shiftr (N.lxor h (N.shiftr h 33)) 33) = h.
Proof.
  intros Hh. rewrite N.shiftr_lxor, N.shiftr_shiftr.
  assert (N.shiftr h (33 + 33) = 0%N) as ->.
  { rewrite N.shiftr_div_pow2. apply N.div_small. eapply N.lt_le_trans; [exact Hh|]. by vm_compute. }
  by rewrite N.lxor_0_r, N.lxor_assoc, N.lxor_nilpotent, N.lxor_0_r.
Qed.

Lemma shift_xor_bound h : (h < 2 ^ 64)%N -> (N.lxor h (N.shiftr h 33) < 2 ^ 64)%N.
Proof.
  intros Hh. destruct (N.eq_dec (N.lxor h (N.shiftr h 33)) 0%N) as [->|Hn]; [done|].
  apply N.log2_lt_pow2; [lia|]. eapply N.le_lt_trans; [apply N.log2_lxor|].
  assert (Hs : (N.shiftr h 33 <= h)%N) by (rewrite N.shiftr_div_pow2; apply N.Div0.div_le_upper_bound; lia).
  apply N.log2_le_mono in Hs. destruct (N.eq_dec h 0%N) as [->|]; [done|].
  assert (N.log2 h < 64)%N by (apply N.log2_lt_pow2; [lia|done]). lia.
Qed.

Lemma wrapping_mul_inverse h a b :
  (h < 2 ^ 64)%N -> ((a * b) mod 2 ^ 64 = 1)%N -> wrapping_mul (wrapping_mul h a) b = h.
Proof.
  intros Hh Hab. unfold wrapping_mul. rewrite N.Div0.mul_mod_idemp_l, <- N.mul_assoc, <- N.Div0.mul_mod_idemp_r, Hab, N.mul_1_r.
  by apply N.mod_small.
Qed.

Lemma wrapping_mul_bound a b : (wrapping_mul a b < 2 ^ 64)%N.
Proof. by apply N.mod_lt. Qed.

(** The way back, by the inverses of the two factors. *)
Definition unmix (hash : N) : N :=
  let hash := N.lxor hash (N.shiftr hash 33) in
  let hash := wrapping_mul hash 0x9cb4b2f8129337db in
  let hash := N.lxor hash (N.shiftr hash 33) in
  let hash := wrapping_mul hash 0x4f74430c22a54005 in
  N.lxor hash (N.shiftr hash 33).

Lemma mix_bound h : (mix h < 2 ^ 64)%N.
Proof. apply shift_xor_bound, wrapping_mul_bound. Qed.

Lemma unmix_bound h : (unmix h < 2 ^ 64)%N.
Proof. apply shift_xor_bound, wrapping_mul_bound. Qed.

Lemma unmix_mix h : (h < 2 ^ 64)%N -> unmix (mix h) = h.
Proof.
  intros Hh. unfold mix, unmix. cbv zeta.
  rewrite shift_xor_involutive by apply wrapping_mul_bound.
  rewrite wrapping_mul_inverse by (done || apply shift_xor_bound, wrapping_mul_bound).
  rewrite shift_xor_involutive by apply wrapping_mul_bound.
  rewrite wrapping_mul_inverse by (done || by apply shift_xor_bound).
  by apply shift_xor_involutive.
Qed.

Lemma mix_unmix h : (h < 2 ^ 64)%N -> mix (unmix h) = h.
Proof.
  intros Hh. unfold mix, unmix. cbv zeta.
  rewrite shift_xor_involutive by apply wrapping_mul_bound.
  rewrite wrapping_mul_inverse by (done || apply shift_xor_bound, wrapping_mul_bound).
  rewrite shift_xor_involutive by apply wrapping_mul_bound.
  rewrite wrapping_mul_inverse by (done || by apply shift_xor_bound).
  by apply shift_xor_involutive.
Qed.

(** C40: the fingerprint of a present value is never [ABSENT], and two hashes
    that differ have different fingerprints but for the one pair that is mixed
    to the two lowest values; yet exactly one hash has the fingerprint
    [UNSEEN]. *)
Theorem fingerprint_apart (h1 h2 : N) :
  (h1 < 2 ^ 64)%N -> (h2 < 2 ^ 64)%N ->
  fingerprint_of h1 <> ABSENT
  /\ (fingerprint_of h1 = fingerprint_of h2 -> h1 = h2 \/ (mix h1 <= 1 /\ mix h2 <= 1)%N)
  /\ (fingerprint_of h1 = UNSEEN <-> h1 = unmix UNSEEN).
Proof.
  intros H1 H2. unfold fingerprint_of, ABSENT. split_and!; [lia| |split].
  - intros He. destruct (N.le_gt_cases (mix h1) 1), (N.le_gt_cases (mix h2) 1); [by right|lia|lia|].
    left. rewrite <- (unmix_mix h1 H1), <- (unmix_mix h2 H2). f_equal. lia.
  - intros He. rewrite <- (unmix_mix h1 H1). f_equal. rewrite <- He.
    assert (mix h1 <> 0%N); [|lia]. intros H0. rewrite H0 in He. done.
  - intros ->. by rewrite mix_unmix.
Qed.

Lemma fingerprint_apart_witness : (unmix UNSEEN < 2 ^ 64)%N /\ fingerprint_of (unmix UNSEEN) = UNSEEN.
Proof. split; [by vm_compute|]. by apply (fingerprint_apart (unmix UNSEEN) 0). Defined.
