(* ===== verification/KeyTable.v ===== *)
(** * The table of fact keys

    [KeyTable] of
    [src/crates/glua_code_analysis/src/db_index/derivation/graph.rs]: fact keys
    interned to slots, with their readers, their producers, the stamps they
    were logged and written at, and the keys read out of a base key.

    What the table asks of a key is the class [FactKeys].  A [HashedKey] is its
    key: the hash is a function of it.  [Paged] is a vector that grows by
    pages: its list.  A slot out of range and an [expect] that fails are a
    panic.  The stamp counter of the process is passed in. *)

From S2P Require Import Prelude FileOrder Derivation Readers.
From stdpp Require Import list gmap.
Local Open Scope prog_scope.

(** ** What the table asks of a key *)

Class FactKeys (K : Type) : Type := {
  fact_key_dec :: EqDecision K;
  base : K -> option K;
  owning_file : K -> option FileId;
  (** the files whose positions the key names: [positional_files] *)
  positional_files : K -> list FileId;
  is_primary : K -> bool;
  is_file_source : K -> bool;
  is_query_output : K -> bool;
  is_stage_rule : K -> bool;
  (** the low half of the hash ([rustc_hash]) *)
  hash_half : K -> N;
  (** no key is read out of a key that is read out of another *)
  base_flat k b : base k = Some b -> base b = None
}.

(** ** Slots *)

Record KeySlot (K : Type) : Type := mkSlot {
  slot_key : option K;
  readers : Readers;
  marks : N;
  current : Fingerprint;
  current_generation : N;
  stamp : N;
  written : N
}.
Arguments mkSlot {K} _ _ _ _ _ _ _.
Arguments slot_key {K} _.
Arguments readers {K} _.
Arguments marks {K} _.
Arguments current {K} _.
Arguments current_generation {K} _.
Arguments stamp {K} _.
Arguments written {K} _.

Definition NO_GENERATION : N := 2 ^ 32 - 1.
Definition NO_PRODUCER : N := 2 ^ 29 - 1.
Definition MORE_PRODUCERS : N := 2 ^ 29.
Definition WINDOWED : N := 2 ^ 30.
Definition HELD : N := 2 ^ 31.

(** [!mark] of a [u32]. *)
Definition not_u32 (mark : N) : N := N.lxor mark (2 ^ 32 - 1).

(** The first producer of the marks: [NO_PRODUCER] is none. *)
Definition producer_of (marks : N) : N := N.land marks NO_PRODUCER.
Definition set_producer_in (marks deriv : N) : N := N.lor (N.land marks (not_u32 NO_PRODUCER)) deriv.
Definition marked_in (marks mark : N) : bool := negb (N.eqb (N.land marks mark) 0).
Definition set_mark_in (marks mark : N) (on : bool) : N :=
  if on then N.lor marks mark else N.land marks (not_u32 mark).

Module KeySlot.
Section Slot.
Context {K : Type}.
Implicit Types self : KeySlot K.

Definition default_ : KeySlot K := mkSlot None None_ NO_PRODUCER 0%N NO_GENERATION 0%N 0%N.

Definition with_key self (key : option K) : KeySlot K :=
  mkSlot key (readers self) (marks self) (current self) (current_generation self) (stamp self) (written self).
Definition with_readers self (readers : Readers) : KeySlot K :=
  mkSlot (slot_key self) readers (marks self) (current self) (current_generation self) (stamp self) (written self).
Definition with_marks self (marks : N) : KeySlot K :=
  mkSlot (slot_key self) (readers self) marks (current self) (current_generation self) (stamp self) (written self).
Definition with_current self (current current_generation : N) : KeySlot K :=
  mkSlot (slot_key self) (readers self) (marks self) current current_generation (stamp self) (written self).
Definition with_stamp self (stamp : N) : KeySlot K :=
  mkSlot (slot_key self) (readers self) (marks self) (current self) (current_generation self) stamp (written self).
Definition with_written self (written : N) : KeySlot K :=
  mkSlot (slot_key self) (readers self) (marks self) (current self) (current_generation self) (stamp self) written.

Definition producer self : N := producer_of (marks self).
Definition set_producer self (deriv : N) : KeySlot K := with_marks self (set_producer_in (marks self) deriv).
Definition marked self (mark : N) : bool := marked_in (marks self) mark.
Definition set_mark self (mark : N) (on : bool) : KeySlot K := with_marks self (set_mark_in (marks self) mark on).
Definition is_query `{FactKeys K} self : bool := from_option is_query_output false (slot_key self).
End Slot.
End KeySlot.

(** ** The table *)

(** A live slot in the index, with the low half of its key's hash. *)
Record FiledKey : Type := mkFiled { filed_slot : KeyIdx; filed_hash : N }.

Inductive Freshness : Type := Unwritten | Recomputing | Written.

Module Freshness.
Definition and (self other : Freshness) : Freshness :=
  match self, other with
  | Written, _ | _, Written => Written
  | Recomputing, _ | _, Recomputing => Recomputing
  | _, _ => Unwritten
  end.
End Freshness.

Record DerivedKeys : Type := mkDerived { derived_slots_of : list KeyIdx; checked_at : Fingerprint }.
(** [Fingerprint::MAX] *)
Definition UNCHECKED : Fingerprint := 2 ^ 64 - 1.
Definition no_derived : DerivedKeys := mkDerived [] UNCHECKED.

(** [retirement] is whether the quarantine of releases is active still. *)
Record KeyTable (K : Type) : Type := mkTable {
  key_slots : list FiledKey;
  keys : list (KeySlot K);
  free_keys : list KeyIdx;
  retirement : option bool;
  retirement_started : N;
  retired : list KeyIdx;
  derived : gmap KeyIdx DerivedKeys;
  more_producers : gmap KeyIdx (list DerivIdx);
  table_written : N;
  windows : gmap KeyIdx N;
  held : gmap KeyIdx N;
  positional : option (gmap FileId (gset KeyIdx))
}.
Arguments mkTable {K} _ _ _ _ _ _ _ _ _ _ _ _.
Arguments key_slots {K} _.
Arguments keys {K} _.
Arguments free_keys {K} _.
Arguments retirement {K} _.
Arguments retirement_started {K} _.
Arguments retired {K} _.
Arguments derived {K} _.
Arguments more_producers {K} _.
Arguments table_written {K} _.
Arguments windows {K} _.
Arguments held {K} _.
Arguments positional {K} _.

Module KeyTable.
Section Table.
Context {K : Type} `{HK : FactKeys K}.
Implicit Types self : KeyTable K.

Definition default_ : KeyTable K := mkTable [] [] [] None 0%N [] ∅ ∅ 0%N ∅ ∅ None.

Definition with_key_slots self (v : list FiledKey) : KeyTable K :=
  mkTable v (keys self) (free_keys self) (retirement self) (retirement_started self) (retired self) (derived self)
    (more_producers self) (table_written self) (windows self) (held self) (positional self).
Definition with_keys self (v : list (KeySlot K)) : KeyTable K :=
  mkTable (key_slots self) v (free_keys self) (retirement self) (retirement_started self) (retired self) (derived self)
    (more_producers self) (table_written self) (windows self) (held self) (positional self).
Definition with_free_keys self (v : list KeyIdx) : KeyTable K :=
  mkTable (key_slots self) (keys self) v (retirement self) (retirement_started self) (retired self) (derived self)
    (more_producers self) (table_written self) (windows self) (held self) (positional self).
Definition with_retirement self (r : option bool) (started : N) (v : list KeyIdx) : KeyTable K :=
  mkTable (key_slots self) (keys self) (free_keys self) r started v (derived self)
    (more_producers self) (table_written self) (windows self) (held self) (positional self).
Definition with_derived self (v : gmap KeyIdx DerivedKeys) : KeyTable K :=
  mkTable (key_slots self) (keys self) (free_keys self) (retirement self) (retirement_started self) (retired self) v
    (more_producers self) (table_written self) (windows self) (held self) (positional self).
Definition with_more_producers self (v : gmap KeyIdx (list DerivIdx)) : KeyTable K :=
  mkTable (key_slots self) (keys self) (free_keys self) (retirement self) (retirement_started self) (retired self) (derived self)
    v (table_written self) (windows self) (held self) (positional self).
Definition with_table_written self (v : N) : KeyTable K :=
  mkTable (key_slots self) (keys self) (free_keys self) (retirement self) (retirement_started self) (retired self) (derived self)
    (more_producers self) v (windows self) (held self) (positional self).
Definition with_windows self (v : gmap KeyIdx N) : KeyTable K :=
  mkTable (key_slots self) (keys self) (free_keys self) (retirement self) (retirement_started self) (retired self) (derived self)
    (more_producers self) (table_written self) v (held self) (positional self).
Definition with_held self (v : gmap KeyIdx N) : KeyTable K :=
  mkTable (key_slots self) (keys self) (free_keys self) (retirement self) (retirement_started self) (retired self) (derived self)
    (more_producers self) (table_written self) (windows self) v (positional self).
Definition with_positional self (v : option (gmap FileId (gset KeyIdx))) : KeyTable K :=
  mkTable (key_slots self) (keys self) (free_keys self) (retirement self) (retirement_started self) (retired self) (derived self)
    (more_producers self) (table_written self) (windows self) (held self) v.

(** [self.keys[slot]], and a change of it. *)
Definition entry self (slot : KeyIdx) : outcome (KeySlot K) := expect (keys self !! slot).
Definition update self (slot : KeyIdx) (f : KeySlot K -> KeySlot K) : outcome (KeyTable K) :=
  e ← entry self slot; Done (with_keys self (<[slot := f e]> (keys self))).

(** A [for] loop over slots. *)
Fixpoint for_slots {A} (body : KeyTable K -> A -> outcome (KeyTable K)) (l : list A) self : outcome (KeyTable K) :=
  match l with
  | [] => Done self
  | a :: l => t ← body self a; for_slots body l t
  end.

(** *** Slots that are free, and their quarantine *)

Definition collect_retired self : KeyTable K :=
  match retirement self with
  | Some false => with_free_keys (with_retirement self None 0%N []) (free_keys self ++ retired self)
  | _ => self
  end.

(** Every release until the quarantine ends keeps its slot apart. *)
Definition quarantine_releases self (now : N) : outcome (KeyTable K) :=
  let self := collect_retired self in
  match retirement self with
  | Some _ => Panic
  | None => Done (with_retirement self (Some true) now (retired self))
  end.

(** The guard of the quarantine goes out of scope. *)
Definition drop_quarantine self : KeyTable K :=
  match retirement self with
  | Some _ => with_retirement self (Some false) (retirement_started self) (retired self)
  | None => self
  end.

Definition finish_quarantine self : outcome (KeyTable K) :=
  match retirement self with
  | None => Panic
  | Some _ => Done (collect_retired (drop_quarantine self))
  end.

Definition quarantines self (at_ : N) : bool :=
  (retirement_started self <? at_)%N && bool_decide (retirement self = Some true).

Definition quarantine_started self : option N :=
  match retirement self with Some true => Some (retirement_started self) | _ => None end.

Definition retire self (slot : KeyIdx) : KeyTable K :=
  let self := collect_retired self in
  match retirement self with
  | Some _ => with_retirement self (retirement self) (retirement_started self) (retired self ++ [slot])
  | None => with_free_keys self (free_keys self ++ [slot])
  end.

(** *** Finding and interning *)

Definition live_key self (slot : KeyIdx) : option K := e ← keys self !! slot; slot_key e.

Definition matching_slot self (slot : KeyIdx) (matches : K -> bool) : option KeyIdx :=
  key ← live_key self slot;
  if (matches key : bool) then Some slot else None.

(** A filed slot is one of the table: [keys[filed.slot]]. *)
Definition files self (key : K) (filed : FiledKey) : bool :=
  N.eqb (filed_hash filed) (hash_half key) && bool_decide (live_key self (filed_slot filed) = Some key).

Definition find self (key : K) : option KeyIdx := filed_slot <$> List.find (files self key) (key_slots self).

(** One entry of the index goes: the one of the slot. *)
Definition unfile_slot (slots : list FiledKey) (slot : KeyIdx) : list FiledKey :=
  match list_find (fun filed => filed_slot filed = slot) slots with
  | Some (at_, _) => delete at_ slots
  | None => slots
  end.

Definition unfile self (key : K) (slot : KeyIdx) : KeyTable K :=
  let self := with_key_slots self (unfile_slot (key_slots self) slot) in
  match positional self with
  | Some positional =>
      with_positional self (Some (foldl (fun p file_id => alter (fun slots => slots ∖ {[slot]}) file_id p)
        positional (positional_files key)))
  | None => self
  end.

(** The live slots by the file whose positions their key names. *)
Definition build_positional (keys : list (KeySlot K)) : gmap FileId (gset KeyIdx) :=
  foldl (fun p pair => <[pair.1 := default ∅ (p !! pair.1) ∪ {[pair.2]}]> p) ∅
    (concat (imap (fun slot entry =>
       from_option (fun key => (fun file_id => (file_id, slot)) <$> positional_files key) [] (slot_key entry)) keys)).

Definition positional_slots self (files : gset FileId) : list KeyIdx * KeyTable K :=
  let positional := default (build_positional (keys self)) (positional self) in
  (dedup (sort_by Nat.leb (flat_map (fun file_id => elements (default ∅ (positional !! file_id))) (elements files))),
   with_positional self (Some positional)).

(** A slot for a new key: a free one, or one more. *)
Definition new_slot self : outcome (KeyIdx * KeyTable K) :=
  match last (free_keys self) with
  | Some slot => Done (slot, with_free_keys self (take (length (free_keys self) - 1) (free_keys self)))
  | None =>
      let slot := length (keys self) in
      if (N.of_nat slot <? 2 ^ 32)%N
      then Done (slot, with_keys self (keys self ++ [KeySlot.default_]))
      else Panic
  end.

(** The key goes into the slot, written now and not read by anything yet. *)
Definition fill_slot self (slot : KeyIdx) (key : K) (now : N) : outcome (KeyTable K) :=
  let self := match positional self with
    | Some positional =>
        with_positional self (Some (foldl (fun p file_id => <[file_id := default ∅ (p !! file_id) ∪ {[slot]}]> p)
          positional (positional_files key)))
    | None => self
    end in
  self ← update self slot (fun e =>
    mkSlot (Some key) (readers e) (marks e) (current e) NO_GENERATION 0%N now);
  Done (with_key_slots self (key_slots self ++ [mkFiled slot (hash_half key)])).

(** The slot is one read out of its base. *)
Definition add_derived self (base_slot slot : KeyIdx) : KeyTable K :=
  let d := default no_derived (derived self !! base_slot) in
  with_derived self (<[base_slot := mkDerived (derived_slots_of d ++ [slot]) (checked_at d)]> (derived self)).

(** Interns the key: the slot and, for a slot it created, the slot of the
    key's base. *)
Fixpoint intern_created_by (fuel : nat) self (key : K) (now : N) : outcome (KeyIdx * option (option KeyIdx) * KeyTable K) :=
  match fuel with
  | 0 => OutOfFuel
  | S fuel =>
      let self := collect_retired self in
      match find self key with
      | Some slot => Done (slot, None, self)
      | None =>
          '(slot, self) ← new_slot self;
          self ← fill_slot self slot key now;
          match base key with
          | None => Done (slot, Some None, self)
          | Some base =>
              '(base_slot, _, self) ← intern_created_by fuel self base now;
              Done (slot, Some (Some base_slot), add_derived self base_slot slot)
          end
      end
  end.

(** A key and its base: two rounds. *)
Definition intern_created self (key : K) (now : N) : outcome (KeyIdx * option (option KeyIdx) * KeyTable K) :=
  intern_created_by 2 self key now.

Definition intern self (key : K) (now : N) : outcome (KeyIdx * KeyTable K) :=
  '(slot, _, self) ← intern_created self key now; Done (slot, self).

Definition key self (slot : KeyIdx) : outcome K := e ← entry self slot; expect (slot_key e).

Definition is_query self (slot : KeyIdx) : outcome bool := e ← entry self slot; Done (KeySlot.is_query e).

Definition intern_read self (key : K) (now : N) : outcome (KeyIdx * KeyTable K) := intern self key now.

(** *** What was written *)

Definition derived_slots self (slot : KeyIdx) : list KeyIdx :=
  from_option derived_slots_of [] (derived self !! slot).

Definition set_last_written self (now : N) : KeyTable K := with_table_written self (N.max (table_written self) now).

Definition write_slots self (slots : list KeyIdx) (now : N) : outcome (KeyTable K) :=
  for_slots (fun self slot => update self slot (fun e => KeySlot.with_written e now)) slots self.

Definition mark_written self (key : K) (now : N) : outcome (KeyTable K) :=
  match find self key with
  | Some slot => write_slots (set_last_written self now) (slot :: derived_slots self slot) now
  | None => Done self
  end.

Definition mark_written_logged self (key : K) (since now : N) : outcome (bool * KeyTable K) :=
  match find self key with
  | Some slot =>
      e ← entry self slot;
      self ← write_slots (set_last_written self now) (slot :: derived_slots self slot) now;
      Done ((since <=? stamp e)%N, self)
  | None => Done (false, self)
  end.

Definition mark_slots_written self (slots : list KeyIdx) (now : N) : outcome (KeyTable K) :=
  match slots with
  | [] => Done self
  | _ => write_slots (set_last_written self now) (sort_by Nat.leb slots) now
  end.

(** The slot is written now and marked; the stamp it was written at before the
    mark is kept. *)
Definition open_slot (mark : N) (stamps : KeyTable K -> gmap KeyIdx N) (with_stamps : KeyTable K -> gmap KeyIdx N -> KeyTable K)
    (now : N) self (slot : KeyIdx) : outcome (KeyTable K) :=
  e ← entry self slot;
  let self := match stamps self !! slot with
              | Some _ => self
              | None => with_stamps self (<[slot := written e]> (stamps self))
              end in
  update self slot (fun e => KeySlot.set_mark (KeySlot.with_written e now) mark true).

Definition open_window self (key : K) (now : N) : outcome (KeyTable K) :=
  match find self key with
  | Some slot =>
      for_slots (open_slot WINDOWED windows with_windows now) (slot :: derived_slots self slot) (set_last_written self now)
  | None => Done self
  end.

Definition hold_window self (key : K) (now : N) : outcome (KeyTable K) :=
  match find self key with
  | Some slot =>
      for_slots (open_slot HELD held with_held now) (slot :: derived_slots self slot) (set_last_written self now)
  | None => Done self
  end.

(** A marked slot is closed: a key that came back unchanged, and each key read
    out of it, is written as it was before. *)
Definition close_slot (mark : N) (stamps : gmap KeyIdx N) (unchanged : K -> bool) self (slot_before : KeyIdx * N)
    : outcome (KeyTable K) :=
  let '(slot, before) := slot_before in
  self ← update self slot (fun e => KeySlot.set_mark e mark false);
  match live_key self slot with
  | None => Done self
  | Some key =>
      if bool_decide (is_Some (base key)) || negb (unchanged key) then Done self else
      self ← update self slot (fun e => KeySlot.with_written e before);
      for_slots (fun self derived =>
          match stamps !! derived with
          | Some before => update self derived (fun e => KeySlot.with_written e before)
          | None => Done self
          end) (derived_slots self slot) self
  end.

Definition close_windows self (unchanged : K -> bool) : outcome (KeyTable K) :=
  let windows := windows self in
  for_slots (close_slot WINDOWED windows unchanged) (map_to_list windows) (with_windows self ∅).

Definition release_held self (unchanged : K -> bool) : outcome (KeyTable K) :=
  let held := held self in
  for_slots (close_slot HELD held unchanged) (map_to_list held) (with_held self ∅).

Definition windowed self (slot : KeyIdx) : outcome bool := e ← entry self slot; Done (KeySlot.marked e WINDOWED).
Definition is_held self (slot : KeyIdx) : outcome bool := e ← entry self slot; Done (KeySlot.marked e HELD).
Definition taints self (slot : KeyIdx) : outcome bool := e ← entry self slot; Done (KeySlot.marked e (N.lor WINDOWED HELD)).
Definition written_after self (at_ : N) : bool := (at_ <? table_written self)%N.
Definition last_written self : N := table_written self.

(** A slot out of the table's range counts as written. *)
Fixpoint written_since_from self (since : N) (freshness : Freshness) (slots : list KeyIdx) : Freshness :=
  match slots with
  | [] => freshness
  | slot :: slots =>
      match keys self !! slot with
      | None => Written
      | Some entry =>
          if (written entry <=? since)%N then written_since_from self since freshness slots else
          match match held self !! slot with Some before => Some before | None => windows self !! slot end with
          | Some before =>
              if (before <=? since)%N then written_since_from self since Recomputing slots else Written
          | None => Written
          end
      end
  end.

Definition written_since self (slots : list KeyIdx) (since : N) : Freshness := written_since_from self since Unwritten slots.

Definition log_stamp self (slot : KeyIdx) : outcome N := e ← entry self slot; Done (stamp e).

Definition restore_log_stamp self (slot : KeyIdx) (at_ : N) : outcome (KeyTable K) :=
  update self slot (fun e => KeySlot.with_stamp e at_).

Definition log self (slot : KeyIdx) (frame evaluation : N) : outcome (option bool * bool * KeyTable K) :=
  e ← entry self slot;
  let is_query := KeySlot.is_query e in
  if (frame <=? stamp e)%N then Done (None, is_query, self) else
  self ← update self slot (fun e => KeySlot.with_stamp e frame);
  Done (Some (stamp e <? evaluation)%N, is_query, self).

(** Interns a key a worker read that its snapshot lacked: an open window of
    one of its bases is open over it too. *)
Fixpoint cover_by_bases (fuel : nat) self (slot base_slot : KeyIdx) : outcome (KeyTable K) :=
  match fuel with
  | 0 => OutOfFuel
  | S fuel =>
      windowed ← windowed self base_slot;
      is_held ← is_held self base_slot;
      e ← entry self slot;
      self ← (if (windowed : bool) then
        let self := match windows self !! slot with
                    | Some _ => self
                    | None => with_windows self (<[slot := written e]> (windows self))
                    end in
        update self slot (fun e => KeySlot.set_mark e WINDOWED true)
      else Done self);
      self ← (if (is_held : bool) then
        let self := match held self !! slot with
                    | Some _ => self
                    | None => with_held self (<[slot := written e]> (held self))
                    end in
        update self slot (fun e => KeySlot.set_mark e HELD true)
      else Done self);
      k ← key self base_slot;
      match base k with
      | None => Done self
      | Some b => base_slot ← expect (find self b); cover_by_bases fuel self slot base_slot
      end
  end.

Definition intern_worker_read self (key_ : K) : outcome (KeyIdx * KeyTable K) :=
  '(slot, created, self) ← intern_created self key_ (retirement_started self);
  if bool_decide (windows self = ∅) && bool_decide (held self = ∅) then Done (slot, self) else
  base_slot ← match created with
    | Some base_slot => Done base_slot
    | None => k ← key self slot; Done (b ← base k; find self b)
    end;
  match base_slot with
  | None => Done (slot, self)
  | Some base_slot => self ← cover_by_bases 2 self slot base_slot; Done (slot, self)
  end.

(** *** Who produces a key *)

Definition add_producer self (slot : KeyIdx) (deriv : DerivIdx) : outcome (KeyTable K) :=
  e ← entry self slot;
  if N.eqb (KeySlot.producer e) NO_PRODUCER
  then update self slot (fun e => KeySlot.set_producer e (N.of_nat deriv))
  else
    self ← update self slot (fun e => KeySlot.set_mark e MORE_PRODUCERS true);
    Done (with_more_producers self
      (<[slot := default [] (more_producers self !! slot) ++ [deriv]]> (more_producers self))).

Definition remove_producer self (slot : KeyIdx) (deriv : DerivIdx) : outcome (KeyTable K) :=
  e ← entry self slot;
  if negb (KeySlot.marked e MORE_PRODUCERS) then
    if N.eqb (KeySlot.producer e) (N.of_nat deriv)
    then update self slot (fun e => KeySlot.set_producer e NO_PRODUCER)
    else Done self
  else
    more ← expect (more_producers self !! slot);
    '(self, more) ← (if N.eqb (KeySlot.producer e) (N.of_nat deriv) then
        next ← expect (last more);
        self ← update self slot (fun e => KeySlot.set_producer e (N.of_nat next));
        Done (self, take (length more - 1) more)
      else
        Done (self, match list_find (fun producer => producer = deriv) more with
                    | Some (at_, _) => Readers.swap_remove more at_
                    | None => more
                    end));
    match more with
    | [] =>
        self ← update self slot (fun e => KeySlot.set_mark e MORE_PRODUCERS false);
        Done (with_more_producers self (delete slot (more_producers self)))
    | _ => Done (with_more_producers self (<[slot := more]> (more_producers self)))
    end.

Definition producers self (slot : KeyIdx) : outcome (list DerivIdx) :=
  e ← entry self slot;
  Done ((if N.eqb (KeySlot.producer e) NO_PRODUCER then [] else [N.to_nat (KeySlot.producer e)])
        ++ (if KeySlot.marked e MORE_PRODUCERS then default [] (more_producers self !! slot) else [])).

(** *** What nothing refers to *)

Definition unreferenced_after self (slot : KeyIdx) (freed_from : gmap KeyIdx nat) : outcome bool :=
  e ← entry self slot;
  Done (Readers.is_empty (readers e) && N.eqb (KeySlot.producer e) NO_PRODUCER
        && match derived self !! slot with
           | None => true
           | Some d => bool_decide (freed_from !! slot = Some (length (derived_slots_of d)))
           end).

Definition unreferenced self (slot : KeyIdx) : outcome bool := unreferenced_after self slot ∅.

Definition drop_freed_derived self (bases : list KeyIdx) : KeyTable K :=
  foldl (fun self base =>
      match derived self !! base with
      | None => self
      | Some d =>
          let slots := filter (fun slot => is_Some (live_key self slot)) (derived_slots_of d) in
          match slots with
          | [] => with_derived self (delete base (derived self))
          | _ => with_derived self (<[base := mkDerived slots (checked_at d)]> (derived self))
          end
      end) self bases.

(** *** Changes of readers *)

(** The changes of one slot after another, in the order of the slots: each
    slot's in the order they were made. *)
Fixpoint chunk_by_slot (ops : list (KeyIdx * ReaderOp)) : list (KeyIdx * list ReaderOp) :=
  match ops with
  | [] => []
  | (slot, op) :: ops =>
      match chunk_by_slot ops with
      | (slot', same) :: chunks =>
          if (slot =? slot')%nat then (slot, op :: same) :: chunks else (slot, [op]) :: (slot', same) :: chunks
      | [] => [(slot, [op])]
      end
  end.

Definition slot_le (a b : KeyIdx * ReaderOp) : bool := (a.1 <=? b.1)%nat.

Definition apply_reader_ops self (ops : list (list (KeyIdx * ReaderOp))) : outcome (KeyTable K) :=
  for_slots (fun self chunk =>
      e ← entry self (chunk : KeyIdx * list ReaderOp).1;
      readers ← ApplyAll.apply_all (readers e) chunk.2;
      update self chunk.1 (fun e => KeySlot.with_readers e readers))
    (chunk_by_slot (sort_by slot_le (concat ops))) self.
End Table.
End KeyTable.
