(* ===== verification/FactKey.v ===== *)
(** * The keys of facts

    [FactKey] of
    [src/crates/glua_code_analysis/src/db_index/derivation/mod.rs]: every fact
    that a derivation can read, and how the keys are classified. The types of
    the semantic model ([LuaType]) and the references to variables that are
    narrowed ([VarRefId]) are parameters: a key only carries them. *)

From S2P Require Import Prelude Kinds Text FileOrder Dependency EditMap EditRemap Derivation Readers KeyTable.
From stdpp Require Import list gmap.

(** ** What keys are made of *)

Definition GlobalId : Type := rstring.

Inductive LuaMemberOwner : Type :=
  | LocalUnresolve
  | OwnerType (id : LuaTypeDeclId)
  | Element (site : InFiled TextRange)
  | OwnerGlobalPath (path : GlobalId).

Inductive DynamicFieldOwner : Type :=
  | FieldsOfType (id : LuaTypeDeclId)
  | FieldsOfTable (site : InFiled TextRange)
  | FieldsOfGlobalPath (path : GlobalId).

Inductive GmodSystemRegistrationKind : Type := NetMessage | Concommand | Convar.

Inductive CallRoleKey : Type :=
  | RolePath (path : rstring)
  | RoleReceiverMethod (name : rstring)
  | RoleGlobal (id : GlobalId)
  | RoleMethod (name : rstring)
  | RoleSignature (id : LuaSignatureId).

#[global] Instance in_filed_eq_dec {A} `{EqDecision A} : EqDecision (InFiled A).
Proof. solve_decision. Defined.
#[global] Instance range_eq_dec : EqDecision TextRange.
Proof. solve_decision. Defined.
#[global] Instance fact_decl_id_eq_dec : EqDecision LuaDeclId.
Proof. solve_decision. Defined.
#[global] Instance fact_signature_id_eq_dec : EqDecision LuaSignatureId.
Proof. solve_decision. Defined.
#[global] Instance type_owner_eq_dec : EqDecision LuaTypeOwner.
Proof. solve_decision. Defined.
#[global] Instance definition_id_eq_dec : EqDecision LuaDefinitionId.
Proof. solve_decision. Defined.
#[global] Instance semantic_decl_eq_dec : EqDecision LuaSemanticDeclId.
Proof. solve_decision. Defined.
#[global] Instance operator_owner_eq_dec : EqDecision LuaOperatorOwner.
Proof. solve_decision. Defined.
#[global] Instance member_owner_eq_dec : EqDecision LuaMemberOwner.
Proof. solve_decision. Defined.
#[global] Instance dynamic_owner_eq_dec : EqDecision DynamicFieldOwner.
Proof. solve_decision. Defined.
#[global] Instance registration_kind_eq_dec : EqDecision GmodSystemRegistrationKind.
Proof. solve_decision. Defined.
#[global] Instance call_role_eq_dec : EqDecision CallRoleKey.
Proof. solve_decision. Defined.

Module FactKey.
Section Keys.
Context {LuaType VarRefId : Type}.

Inductive LuaMemberKey : Type :=
  | KeyNone
  | KeyInteger (i : Z)
  | KeyName (name : rstring)
  | KeyExprType (type : LuaType).


Inductive t : Type :=
  | TypeCache (owner : LuaTypeOwner)
  | TypeFallbacks (file_id : FileId)
  | DefinitionFact (id : LuaDefinitionId)
  | TypeDecl (decl_id : LuaTypeDeclId)
  | TypeDeclLocations (decl_id : LuaTypeDeclId)
  | TypeDeclFiles (decl_id : LuaTypeDeclId)
  | TypeSupers (decl_id : LuaTypeDeclId)
  | TypeSuperTypes (decl_id : LuaTypeDeclId)
  | TypeSuperEdges (decl_id : LuaTypeDeclId)
  | TypeSuperRealms (decl_id : LuaTypeDeclId) (file_id : FileId)
  | TypeGenericParams (decl_id : LuaTypeDeclId)
  | SourceTypeDecl (decl_id : LuaTypeDeclId)
  | TypeContrib (id : DerivationId)
  | TableClass (site : InFiled TextRange)
  | PathClassContrib (id : DerivationId)
  | DeclContrib (id : DerivationId)
  | ReferenceContrib (id : DerivationId)
  | DynamicFieldSite (site : InFiled TextRange)
  | SubTypes (decl_id : LuaTypeDeclId)
  | BoundDecls (decl_id : LuaTypeDeclId) (file_id : FileId)
  | DeclClaim (decl_id : LuaDeclId)
  | TypeDeclScan
  | TypeFile (file_id : FileId)
  | Decl (decl_id : LuaDeclId)
  | DeclTree (file_id : FileId)
  | Member (member_id : LuaMemberId)
  | MemberObject (member_id : LuaMemberId)
  | MemberHome (member_id : LuaMemberId)
  | MemberTransfer (member_id : LuaMemberId)
  | MemberMarks (member_id : LuaMemberId)
  | MemberSlot (owner : LuaMemberOwner) (key : LuaMemberKey)
  | MemberOwnerMap (owner : LuaMemberOwner)
  | MemberOwnerExprKeys (owner : LuaMemberOwner)
  | MemberOwnerFields (owner : LuaMemberOwner)
  | MemberOwnerPresence (owner : LuaMemberOwner)
  | MemberKey (key : LuaMemberKey)
  | MemberFile (file_id : FileId)
  | GlobalPath (path : GlobalId)
  | DefinitionSite (site : InFiled TextRange)
  | Signature (signature_id : LuaSignatureId)
  | ValidGuard (signature_id : LuaSignatureId)
  | InferredGuard (signature_id : LuaSignatureId)
  | ValidGuardFile (file_id : FileId)
  | ValidGuardFiles
  | ValidGuardName (name : rstring)
  | SignatureFile (file_id : FileId)
  | ReceiverOutParam (name : rstring)
  | Contrib (signature_id : LuaSignatureId) (idx : nat)
  | CallSiteFile (file_id : FileId)
  | CallSiteParam (site : InFiled TextRange)
  | CallSiteCallbacks (file_id : FileId)
  | Module_ (file_id : FileId)
  | ModuleMeta (file_id : FileId)
  | ModuleName (name : rstring)
  | ModulePath (name : rstring)
  | ModuleNamespace (name : rstring)
  | ModuleFiles
  | SpecialCall (file_id : FileId) (offset : N)
  | SpecialCallFile (file_id : FileId)
  | SpecialCallFor (file_id : FileId) (var_ref : VarRefId)
  | CallTarget (site : InFiled TextRange)
  | FlowTree (file_id : FileId)
  | DynamicField (owner : DynamicFieldOwner) (field : option rstring)
  | DynamicFieldWildcards (owner : DynamicFieldOwner)
  | DynamicFieldFinite (owner : DynamicFieldOwner)
  | DynamicFieldName (name : rstring)
  | UnattributedField (name : rstring)
  | OperatorOwner (owner : LuaOperatorOwner)
  | OperatorFile (file_id : FileId)
  | OperatorContrib (id : DerivationId)
  | Metatable (site : InFiled TextRange)
  | MetatableFactory (file_id : FileId)
  | GmodMeta (name : rstring)
  | GmodClassFile (file_id : FileId)
  | GmodVguiRegistrations (file_id : FileId)
  | VguiParentCallFiles
  | VguiRelations (file_id : FileId)
  | VguiChain (decl_id : LuaTypeDeclId)
  | GmodInferFile (file_id : FileId)
  | GmodRealm (file_id : FileId)
  | GmodRealmAt (file_id : FileId) (offset : N)
  | SignatureDecl (signature_id : LuaSignatureId)
  | SignatureReturnsNever (signature_id : LuaSignatureId)
  | SpecialCallSignature (signature_id : LuaSignatureId)
  | GmodMemberRealmAt (file_id : FileId) (offset : N)
  | GmodRealmInputs (file_id : FileId)
  | GmodInferScan
  | GmodSystem (kind : GmodSystemRegistrationKind) (name : rstring)
  | GmodLoadFile (file_id : FileId)
  | LoadScan (file_id : FileId)
  | LoadScanFiles
  | NetworkFile (file_id : FileId)
  | NetworkScan
  | NetSends (name : rstring)
  | NetReceives (name : rstring)
  | NetDefinitionUses (site : InFiled TextRange)
  | HelperRegistry
  | CallRole (key : CallRoleKey)
  | RoleMentions (file_id : FileId)
  | HelperScan (file_id : FileId)
  | HelperScanFiles
  | NetHelperName (name : rstring)
  | NetOperationNames
  | NetCall (site : InFiled TextRange)
  | NetHelper (site : InFiled TextRange)
  | NetFlows (site : InFiled TextRange)
  | FunctionSummaries (file_id : FileId)
  | Property (decl : LuaSemanticDeclId)
  | DeclDefault (decl_id : LuaDeclId)
  | Global (name : rstring)
  | GlobalScan
  | References (file_id : FileId)
  | DeclReferences (decl_id : LuaDeclId)
  | ReferencesByName (name : rstring)
  | IndexReferenceFiles (name : rstring)
  | DerivedReferences (file_id : FileId)
  | NumericPopulation (name : rstring)
  | AccessorFunc (name : rstring)
  | AccessorCalls (file_id : FileId)
  | Dependency (file_id : FileId)
  | LoadSites (file_id : FileId)
  | DiagnosticFile (file_id : FileId)
  | FileText (file_id : FileId)
  | FilePath (file_id : FileId)
  | PathFile (name : rstring)
  | Syntax (site : InFiled TextRange)
  | FunctionScope (at_ : InFiled N)
  | FileSet
  | StageRule_ (rule : StageRule)
  | ReceiverAuthority (signature_id : LuaSignatureId)
  | CallbackParams (signature_id : LuaSignatureId).

(** ** How keys are classified *)

(** The output of a query derivation. *)
Definition is_query_output (self : t) : bool :=
  match self with
  | ReceiverAuthority _ | CallbackParams _ => true
  | _ => false
  end.

(** One value that writes overwrite, not a view of other keys. *)
Definition is_primary (self : t) : bool :=
  match self with
  | TypeCache _ | TypeFallbacks _ | DefinitionFact _ | DeclClaim _ | Decl _ | Member _ | MemberTransfer _
  | Signature _ | ValidGuard _ | InferredGuard _ | Module_ _ | SpecialCall _ _ | CallTarget _ | FlowTree _
  | Metatable _ | VguiChain _ | VguiRelations _ | GmodInferFile _ | GmodRealm _ | GmodLoadFile _ | LoadScan _
  | NetCall _ | NetHelper _ | NetFlows _ | HelperRegistry | CallRole _ | HelperScan _ | RoleMentions _
  | DeclDefault _ | AccessorCalls _ | LoadSites _ | ValidGuardFile _ | MetatableFactory _ | DiagnosticFile _
  | TypeFile _ | TypeContrib _ | PathClassContrib _ | DeclContrib _ | ReferenceContrib _ | OperatorContrib _
  | DynamicFieldSite _ | GmodClassFile _ | CallSiteParam _ | CallSiteCallbacks _ => true
  | _ => false
  end.

(** Written by the source layer of the owning file only. *)
Definition is_file_source (self : t) : bool :=
  match self with
  | DeclTree _ | References _ | FlowTree _ | TypeFile _ | ModuleMeta _ | DiagnosticFile _ | FunctionSummaries _ => true
  | _ => false
  end.

(** Whether the edit remap rewrites the positions that the value names. *)
Definition follows_edits (self : t) : bool :=
  match self with
  | DeclClaim _ | MemberFile _ | MemberOwnerPresence _ | MemberKey _ | Module_ _ | ModuleMeta _ | ModuleName _
  | ModulePath _ | DynamicFieldSite _ | TypeCache _ | TypeFallbacks _ | DefinitionFact _ | Signature _
  | SignatureDecl _ | SignatureReturnsNever _ | SpecialCallSignature _ | DynamicField _ _
  | DynamicFieldWildcards _ | DynamicFieldFinite _ | Metatable _ | SpecialCall _ _ | Member _ | MemberObject _
  | MemberHome _ | MemberTransfer _ | MemberMarks _ | MemberSlot _ _ | MemberOwnerMap _ | MemberOwnerExprKeys _
  | MemberOwnerFields _ | Contrib _ _ | CallSiteFile _ | CallSiteParam _ | CallSiteCallbacks _ | NetCall _
  | NetHelper _ | NetFlows _ | NetworkFile _ | NetworkScan | NetSends _ | NetReceives _ | NetDefinitionUses _
  | GmodRealm _ | GmodLoadFile _ | CallTarget _ | ReceiverAuthority _ | CallbackParams _ => true
  | _ => false
  end.

(** The key that holds the writer's own share of one that folds all of them. *)
Definition writer_share (self : t) (writer : DerivationId) : option t :=
  match self with
  | TypeDecl _ | TypeDeclLocations _ | TypeSupers _ => Some (TypeContrib writer)
  | GmodInferScan | GmodSystem _ _ => Some (GmodInferFile (deriv_file writer))
  | _ => None
  end.

(** Whether removing the owning file keeps what other files stored. *)
Definition keeps_foreign_contributions (self : t) : bool :=
  match self with
  | MemberSlot _ _ | MemberFile _ | MemberOwnerMap _ | MemberOwnerExprKeys _ | MemberOwnerFields _
  | MemberOwnerPresence _ | DynamicField _ _ | DynamicFieldWildcards _ | DynamicFieldFinite _ | Contrib _ _
  | CallRole _ | GmodRealm _ | GmodLoadFile _ => true
  | _ => false
  end.

(** Moved by a stage barrier only. *)
Definition is_stage_rule (self : t) : bool :=
  match self with
  | StageRule_ _ => true
  | _ => false
  end.

(** The file whose slot the key names; [None] for the workspace. *)
Definition owning_file (self : t) : option FileId :=
  match self with
  | TypeCache owner =>
      Some match owner with
           | OwnerDecl id => decl_file_id id
           | OwnerMember id => member_file_id id
           | OwnerSyntaxId id => in_file_id id
           end
  | DefinitionFact id =>
      Some match id with Declaration decl_id => decl_file_id decl_id | Assignment file_id _ _ => file_id end
  | BoundDecls _ file_id => Some file_id
  | DeclClaim decl_id | Decl decl_id | DeclDefault decl_id => Some (decl_file_id decl_id)
  | Member member_id | MemberObject member_id | MemberHome member_id | MemberTransfer member_id
  | MemberMarks member_id => Some (member_file_id member_id)
  | NetCall site | NetHelper site | NetFlows site => Some (in_file_id site)
  | GmodRealmAt file_id _ | GmodMemberRealmAt file_id _ | GmodRealmInputs file_id => Some file_id
  | MemberSlot owner _ | MemberOwnerMap owner | MemberOwnerExprKeys owner | MemberOwnerFields owner
  | MemberOwnerPresence owner =>
      match owner with Element site => Some (in_file_id site) | _ => None end
  | DefinitionSite site | CallTarget site | CallSiteParam site | Metatable site | TableClass site
  | DynamicFieldSite site | Syntax site => Some (in_file_id site)
  | Signature signature_id | SignatureDecl signature_id | SignatureReturnsNever signature_id
  | SpecialCallSignature signature_id | ValidGuard signature_id | InferredGuard signature_id
  | Contrib signature_id _ | ReceiverAuthority signature_id | CallbackParams signature_id
  | CallRole (RoleSignature signature_id) => Some (signature_file_id signature_id)
  | SpecialCall file_id _ | SpecialCallFile file_id | SpecialCallFor file_id _ | ValidGuardFile file_id
  | TypeFile file_id | DeclTree file_id | MemberFile file_id | SignatureFile file_id | Module_ file_id
  | ModuleMeta file_id | FlowTree file_id | OperatorFile file_id | MetatableFactory file_id
  | GmodClassFile file_id | GmodVguiRegistrations file_id | VguiRelations file_id | GmodInferFile file_id
  | GmodRealm file_id | GmodLoadFile file_id | LoadScan file_id | NetworkFile file_id | HelperScan file_id
  | RoleMentions file_id | FunctionSummaries file_id | References file_id | DeclReferences (mkDeclId file_id _)
  | FunctionScope (mkInFiled file_id _) | AccessorCalls file_id | Dependency file_id | LoadSites file_id
  | DiagnosticFile file_id | CallSiteFile file_id | CallSiteCallbacks file_id | TypeFallbacks file_id
  | DerivedReferences file_id | FileText file_id | FilePath file_id => Some file_id
  | DynamicField (FieldsOfTable site) _ | DynamicFieldWildcards (FieldsOfTable site)
  | DynamicFieldFinite (FieldsOfTable site) => Some (in_file_id site)
  | OperatorOwner (OperatorTable site) => Some (in_file_id site)
  | TypeDecl _ | TypeDeclLocations _ | TypeDeclFiles _ | TypeSupers _ | TypeSuperTypes _ | TypeSuperEdges _
  | TypeSuperRealms _ _ | TypeGenericParams _ | SourceTypeDecl _ | SubTypes _ | TypeDeclScan | MemberKey _
  | GlobalPath _ | ReceiverOutParam _ | ModuleName _ | ModulePath _ | ModuleNamespace _ | ModuleFiles
  | DynamicField _ _ | DynamicFieldWildcards _ | DynamicFieldFinite _ | DynamicFieldName _
  | UnattributedField _ | OperatorOwner _ | GmodMeta _ | VguiParentCallFiles | VguiChain _ | GmodInferScan
  | GmodSystem _ _ | NetworkScan | NetSends _ | NetReceives _ | NetDefinitionUses _ | HelperRegistry
  | CallRole (RolePath _ | RoleReceiverMethod _ | RoleGlobal _ | RoleMethod _) | HelperScanFiles
  | LoadScanFiles | FileSet | PathFile _ | StageRule_ _ | ValidGuardFiles | ValidGuardName _ | NetHelperName _
  | NetOperationNames | Property _ | Global _ | GlobalScan | ReferencesByName _ | IndexReferenceFiles _
  | NumericPopulation _ | AccessorFunc _ | TypeContrib _ | PathClassContrib _ | DeclContrib _
  | ReferenceContrib _ | OperatorContrib _ => None
  end.

(** The file whose positions the key names. *)
Definition positional_file (self : t) : option FileId :=
  match self with
  | Property (SemanticMember id) => Some (member_file_id id)
  | Property (SemanticLuaDecl id) => Some (decl_file_id id)
  | Property (SemanticSignature id) => Some (signature_file_id id)
  | NetDefinitionUses site => Some (in_file_id site)
  | _ => owning_file self
  end.

Definition expr_key_type (self : t) : option LuaType :=
  match self with
  | MemberSlot _ (KeyExprType type) | MemberKey (KeyExprType type) => Some type
  | _ => None
  end.

(** Whether keys are read out of this one. *)
Definition is_base (self : t) : bool :=
  match self with
  | GmodRealm _ | GmodInferFile _ | Member _ | Signature _ | ReferencesByName _ | References _
  | SpecialCallFile _ | GmodClassFile _ | TypeDeclLocations _ | TypeSupers _ => true
  | _ => false
  end.

(** The key that this one is read out of. *)
Definition base (self : t) : option t :=
  match self with
  | GmodRealmAt file_id _ => Some (GmodRealm file_id)
  | GmodMemberRealmAt file_id _ | GmodRealmInputs file_id => Some (GmodInferFile file_id)
  | SignatureDecl signature_id | SignatureReturnsNever signature_id | SpecialCallSignature signature_id =>
      Some (Signature signature_id)
  | MemberObject member_id | MemberMarks member_id => Some (Member member_id)
  | IndexReferenceFiles name => Some (ReferencesByName name)
  | DeclReferences decl_id => Some (References (decl_file_id decl_id))
  | SpecialCallFor file_id _ => Some (SpecialCallFile file_id)
  | GmodVguiRegistrations file_id => Some (GmodClassFile file_id)
  | TypeDeclFiles decl_id => Some (TypeDeclLocations decl_id)
  | TypeSuperTypes decl_id | TypeSuperEdges decl_id => Some (TypeSupers decl_id)
  | TypeSuperRealms _ file_id => Some (GmodRealm file_id)
  | _ => None
  end.

(** ** Equality of keys is decidable

    Through a number for the constructor and what it carries. *)

Inductive Carried : Type :=
  | Carried0 (a0 : LuaTypeOwner)
  | Carried1 (a0 : FileId)
  | Carried2 (a0 : LuaDefinitionId)
  | Carried3 (a0 : LuaTypeDeclId)
  | Carried4 (a0 : LuaTypeDeclId) (a1 : FileId)
  | Carried5 (a0 : DerivationId)
  | Carried6 (a0 : InFiled TextRange)
  | Carried7 (a0 : LuaDeclId)
  | Carried8
  | Carried9 (a0 : LuaMemberId)
  | Carried10 (a0 : LuaMemberOwner) (a1 : LuaMemberKey)
  | Carried11 (a0 : LuaMemberOwner)
  | Carried12 (a0 : LuaMemberKey)
  | Carried13 (a0 : GlobalId)
  | Carried14 (a0 : LuaSignatureId)
  | Carried15 (a0 : rstring)
  | Carried16 (a0 : LuaSignatureId) (a1 : nat)
  | Carried17 (a0 : FileId) (a1 : N)
  | Carried18 (a0 : FileId) (a1 : VarRefId)
  | Carried19 (a0 : DynamicFieldOwner) (a1 : option rstring)
  | Carried20 (a0 : DynamicFieldOwner)
  | Carried21 (a0 : LuaOperatorOwner)
  | Carried22 (a0 : GmodSystemRegistrationKind) (a1 : rstring)
  | Carried23 (a0 : CallRoleKey)
  | Carried24 (a0 : LuaSemanticDeclId)
  | Carried25 (a0 : InFiled N)
  | Carried26 (a0 : StageRule).

Definition encode (self : t) : N * Carried :=
  match self with
  | TypeCache a0 => (0%N, Carried0 a0)
  | TypeFallbacks a0 => (1%N, Carried1 a0)
  | DefinitionFact a0 => (2%N, Carried2 a0)
  | TypeDecl a0 => (3%N, Carried3 a0)
  | TypeDeclLocations a0 => (4%N, Carried3 a0)
  | TypeDeclFiles a0 => (5%N, Carried3 a0)
  | TypeSupers a0 => (6%N, Carried3 a0)
  | TypeSuperTypes a0 => (7%N, Carried3 a0)
  | TypeSuperEdges a0 => (8%N, Carried3 a0)
  | TypeSuperRealms a0 a1 => (9%N, Carried4 a0 a1)
  | TypeGenericParams a0 => (10%N, Carried3 a0)
  | SourceTypeDecl a0 => (11%N, Carried3 a0)
  | TypeContrib a0 => (12%N, Carried5 a0)
  | TableClass a0 => (13%N, Carried6 a0)
  | PathClassContrib a0 => (14%N, Carried5 a0)
  | DeclContrib a0 => (15%N, Carried5 a0)
  | ReferenceContrib a0 => (16%N, Carried5 a0)
  | DynamicFieldSite a0 => (17%N, Carried6 a0)
  | SubTypes a0 => (18%N, Carried3 a0)
  | BoundDecls a0 a1 => (19%N, Carried4 a0 a1)
  | DeclClaim a0 => (20%N, Carried7 a0)
  | TypeDeclScan => (21%N, Carried8)
  | TypeFile a0 => (22%N, Carried1 a0)
  | Decl a0 => (23%N, Carried7 a0)
  | DeclTree a0 => (24%N, Carried1 a0)
  | Member a0 => (25%N, Carried9 a0)
  | MemberObject a0 => (26%N, Carried9 a0)
  | MemberHome a0 => (27%N, Carried9 a0)
  | MemberTransfer a0 => (28%N, Carried9 a0)
  | MemberMarks a0 => (29%N, Carried9 a0)
  | MemberSlot a0 a1 => (30%N, Carried10 a0 a1)
  | MemberOwnerMap a0 => (31%N, Carried11 a0)
  | MemberOwnerExprKeys a0 => (32%N, Carried11 a0)
  | MemberOwnerFields a0 => (33%N, Carried11 a0)
  | MemberOwnerPresence a0 => (34%N, Carried11 a0)
  | MemberKey a0 => (35%N, Carried12 a0)
  | MemberFile a0 => (36%N, Carried1 a0)
  | GlobalPath a0 => (37%N, Carried13 a0)
  | DefinitionSite a0 => (38%N, Carried6 a0)
  | Signature a0 => (39%N, Carried14 a0)
  | ValidGuard a0 => (40%N, Carried14 a0)
  | InferredGuard a0 => (41%N, Carried14 a0)
  | ValidGuardFile a0 => (42%N, Carried1 a0)
  | ValidGuardFiles => (43%N, Carried8)
  | ValidGuardName a0 => (44%N, Carried15 a0)
  | SignatureFile a0 => (45%N, Carried1 a0)
  | ReceiverOutParam a0 => (46%N, Carried15 a0)
  | Contrib a0 a1 => (47%N, Carried16 a0 a1)
  | CallSiteFile a0 => (48%N, Carried1 a0)
  | CallSiteParam a0 => (49%N, Carried6 a0)
  | CallSiteCallbacks a0 => (50%N, Carried1 a0)
  | Module_ a0 => (51%N, Carried1 a0)
  | ModuleMeta a0 => (52%N, Carried1 a0)
  | ModuleName a0 => (53%N, Carried15 a0)
  | ModulePath a0 => (54%N, Carried15 a0)
  | ModuleNamespace a0 => (55%N, Carried15 a0)
  | ModuleFiles => (56%N, Carried8)
  | SpecialCall a0 a1 => (57%N, Carried17 a0 a1)
  | SpecialCallFile a0 => (58%N, Carried1 a0)
  | SpecialCallFor a0 a1 => (59%N, Carried18 a0 a1)
  | CallTarget a0 => (60%N, Carried6 a0)
  | FlowTree a0 => (61%N, Carried1 a0)
  | DynamicField a0 a1 => (62%N, Carried19 a0 a1)
  | DynamicFieldWildcards a0 => (63%N, Carried20 a0)
  | DynamicFieldFinite a0 => (64%N, Carried20 a0)
  | DynamicFieldName a0 => (65%N, Carried15 a0)
  | UnattributedField a0 => (66%N, Carried15 a0)
  | OperatorOwner a0 => (67%N, Carried21 a0)
  | OperatorFile a0 => (68%N, Carried1 a0)
  | OperatorContrib a0 => (69%N, Carried5 a0)
  | Metatable a0 => (70%N, Carried6 a0)
  | MetatableFactory a0 => (71%N, Carried1 a0)
  | GmodMeta a0 => (72%N, Carried15 a0)
  | GmodClassFile a0 => (73%N, Carried1 a0)
  | GmodVguiRegistrations a0 => (74%N, Carried1 a0)
  | VguiParentCallFiles => (75%N, Carried8)
  | VguiRelations a0 => (76%N, Carried1 a0)
  | VguiChain a0 => (77%N, Carried3 a0)
  | GmodInferFile a0 => (78%N, Carried1 a0)
  | GmodRealm a0 => (79%N, Carried1 a0)
  | GmodRealmAt a0 a1 => (80%N, Carried17 a0 a1)
  | SignatureDecl a0 => (81%N, Carried14 a0)
  | SignatureReturnsNever a0 => (82%N, Carried14 a0)
  | SpecialCallSignature a0 => (83%N, Carried14 a0)
  | GmodMemberRealmAt a0 a1 => (84%N, Carried17 a0 a1)
  | GmodRealmInputs a0 => (85%N, Carried1 a0)
  | GmodInferScan => (86%N, Carried8)
  | GmodSystem a0 a1 => (87%N, Carried22 a0 a1)
  | GmodLoadFile a0 => (88%N, Carried1 a0)
  | LoadScan a0 => (89%N, Carried1 a0)
  | LoadScanFiles => (90%N, Carried8)
  | NetworkFile a0 => (91%N, Carried1 a0)
  | NetworkScan => (92%N, Carried8)
  | NetSends a0 => (93%N, Carried15 a0)
  | NetReceives a0 => (94%N, Carried15 a0)
  | NetDefinitionUses a0 => (95%N, Carried6 a0)
  | HelperRegistry => (96%N, Carried8)
  | CallRole a0 => (97%N, Carried23 a0)
  | RoleMentions a0 => (98%N, Carried1 a0)
  | HelperScan a0 => (99%N, Carried1 a0)
  | HelperScanFiles => (100%N, Carried8)
  | NetHelperName a0 => (101%N, Carried15 a0)
  | NetOperationNames => (102%N, Carried8)
  | NetCall a0 => (103%N, Carried6 a0)
  | NetHelper a0 => (104%N, Carried6 a0)
  | NetFlows a0 => (105%N, Carried6 a0)
  | FunctionSummaries a0 => (106%N, Carried1 a0)
  | Property a0 => (107%N, Carried24 a0)
  | DeclDefault a0 => (108%N, Carried7 a0)
  | Global a0 => (109%N, Carried15 a0)
  | GlobalScan => (110%N, Carried8)
  | References a0 => (111%N, Carried1 a0)
  | DeclReferences a0 => (112%N, Carried7 a0)
  | ReferencesByName a0 => (113%N, Carried15 a0)
  | IndexReferenceFiles a0 => (114%N, Carried15 a0)
  | DerivedReferences a0 => (115%N, Carried1 a0)
  | NumericPopulation a0 => (116%N, Carried15 a0)
  | AccessorFunc a0 => (117%N, Carried15 a0)
  | AccessorCalls a0 => (118%N, Carried1 a0)
  | Dependency a0 => (119%N, Carried1 a0)
  | LoadSites a0 => (120%N, Carried1 a0)
  | DiagnosticFile a0 => (121%N, Carried1 a0)
  | FileText a0 => (122%N, Carried1 a0)
  | FilePath a0 => (123%N, Carried1 a0)
  | PathFile a0 => (124%N, Carried15 a0)
  | Syntax a0 => (125%N, Carried6 a0)
  | FunctionScope a0 => (126%N, Carried25 a0)
  | FileSet => (127%N, Carried8)
  | StageRule_ a0 => (128%N, Carried26 a0)
  | ReceiverAuthority a0 => (129%N, Carried14 a0)
  | CallbackParams a0 => (130%N, Carried14 a0)
  end.

Definition decode (code : N) (carried : Carried) : option t :=
  match code, carried with
  | 0%N, Carried0 a0 => Some (TypeCache a0)
  | 1%N, Carried1 a0 => Some (TypeFallbacks a0)
  | 2%N, Carried2 a0 => Some (DefinitionFact a0)
  | 3%N, Carried3 a0 => Some (TypeDecl a0)
  | 4%N, Carried3 a0 => Some (TypeDeclLocations a0)
  | 5%N, Carried3 a0 => Some (TypeDeclFiles a0)
  | 6%N, Carried3 a0 => Some (TypeSupers a0)
  | 7%N, Carried3 a0 => Some (TypeSuperTypes a0)
  | 8%N, Carried3 a0 => Some (TypeSuperEdges a0)
  | 9%N, Carried4 a0 a1 => Some (TypeSuperRealms a0 a1)
  | 10%N, Carried3 a0 => Some (TypeGenericParams a0)
  | 11%N, Carried3 a0 => Some (SourceTypeDecl a0)
  | 12%N, Carried5 a0 => Some (TypeContrib a0)
  | 13%N, Carried6 a0 => Some (TableClass a0)
  | 14%N, Carried5 a0 => Some (PathClassContrib a0)
  | 15%N, Carried5 a0 => Some (DeclContrib a0)
  | 16%N, Carried5 a0 => Some (ReferenceContrib a0)
  | 17%N, Carried6 a0 => Some (DynamicFieldSite a0)
  | 18%N, Carried3 a0 => Some (SubTypes a0)
  | 19%N, Carried4 a0 a1 => Some (BoundDecls a0 a1)
  | 20%N, Carried7 a0 => Some (DeclClaim a0)
  | 21%N, Carried8 => Some TypeDeclScan
  | 22%N, Carried1 a0 => Some (TypeFile a0)
  | 23%N, Carried7 a0 => Some (Decl a0)
  | 24%N, Carried1 a0 => Some (DeclTree a0)
  | 25%N, Carried9 a0 => Some (Member a0)
  | 26%N, Carried9 a0 => Some (MemberObject a0)
  | 27%N, Carried9 a0 => Some (MemberHome a0)
  | 28%N, Carried9 a0 => Some (MemberTransfer a0)
  | 29%N, Carried9 a0 => Some (MemberMarks a0)
  | 30%N, Carried10 a0 a1 => Some (MemberSlot a0 a1)
  | 31%N, Carried11 a0 => Some (MemberOwnerMap a0)
  | 32%N, Carried11 a0 => Some (MemberOwnerExprKeys a0)
  | 33%N, Carried11 a0 => Some (MemberOwnerFields a0)
  | 34%N, Carried11 a0 => Some (MemberOwnerPresence a0)
  | 35%N, Carried12 a0 => Some (MemberKey a0)
  | 36%N, Carried1 a0 => Some (MemberFile a0)
  | 37%N, Carried13 a0 => Some (GlobalPath a0)
  | 38%N, Carried6 a0 => Some (DefinitionSite a0)
  | 39%N, Carried14 a0 => Some (Signature a0)
  | 40%N, Carried14 a0 => Some (ValidGuard a0)
  | 41%N, Carried14 a0 => Some (InferredGuard a0)
  | 42%N, Carried1 a0 => Some (ValidGuardFile a0)
  | 43%N, Carried8 => Some ValidGuardFiles
  | 44%N, Carried15 a0 => Some (ValidGuardName a0)
  | 45%N, Carried1 a0 => Some (SignatureFile a0)
  | 46%N, Carried15 a0 => Some (ReceiverOutParam a0)
  | 47%N, Carried16 a0 a1 => Some (Contrib a0 a1)
  | 48%N, Carried1 a0 => Some (CallSiteFile a0)
  | 49%N, Carried6 a0 => Some (CallSiteParam a0)
  | 50%N, Carried1 a0 => Some (CallSiteCallbacks a0)
  | 51%N, Carried1 a0 => Some (Module_ a0)
  | 52%N, Carried1 a0 => Some (ModuleMeta a0)
  | 53%N, Carried15 a0 => Some (ModuleName a0)
  | 54%N, Carried15 a0 => Some (ModulePath a0)
  | 55%N, Carried15 a0 => Some (ModuleNamespace a0)
  | 56%N, Carried8 => Some ModuleFiles
  | 57%N, Carried17 a0 a1 => Some (SpecialCall a0 a1)
  | 58%N, Carried1 a0 => Some (SpecialCallFile a0)
  | 59%N, Carried18 a0 a1 => Some (SpecialCallFor a0 a1)
  | 60%N, Carried6 a0 => Some (CallTarget a0)
  | 61%N, Carried1 a0 => Some (FlowTree a0)
  | 62%N, Carried19 a0 a1 => Some (DynamicField a0 a1)
  | 63%N, Carried20 a0 => Some (DynamicFieldWildcards a0)
  | 64%N, Carried20 a0 => Some (DynamicFieldFinite a0)
  | 65%N, Carried15 a0 => Some (DynamicFieldName a0)
  | 66%N, Carried15 a0 => Some (UnattributedField a0)
  | 67%N, Carried21 a0 => Some (OperatorOwner a0)
  | 68%N, Carried1 a0 => Some (OperatorFile a0)
  | 69%N, Carried5 a0 => Some (OperatorContrib a0)
  | 70%N, Carried6 a0 => Some (Metatable a0)
  | 71%N, Carried1 a0 => Some (MetatableFactory a0)
  | 72%N, Carried15 a0 => Some (GmodMeta a0)
  | 73%N, Carried1 a0 => Some (GmodClassFile a0)
  | 74%N, Carried1 a0 => Some (GmodVguiRegistrations a0)
  | 75%N, Carried8 => Some VguiParentCallFiles
  | 76%N, Carried1 a0 => Some (VguiRelations a0)
  | 77%N, Carried3 a0 => Some (VguiChain a0)
  | 78%N, Carried1 a0 => Some (GmodInferFile a0)
  | 79%N, Carried1 a0 => Some (GmodRealm a0)
  | 80%N, Carried17 a0 a1 => Some (GmodRealmAt a0 a1)
  | 81%N, Carried14 a0 => Some (SignatureDecl a0)
  | 82%N, Carried14 a0 => Some (SignatureReturnsNever a0)
  | 83%N, Carried14 a0 => Some (SpecialCallSignature a0)
  | 84%N, Carried17 a0 a1 => Some (GmodMemberRealmAt a0 a1)
  | 85%N, Carried1 a0 => Some (GmodRealmInputs a0)
  | 86%N, Carried8 => Some GmodInferScan
  | 87%N, Carried22 a0 a1 => Some (GmodSystem a0 a1)
  | 88%N, Carried1 a0 => Some (GmodLoadFile a0)
  | 89%N, Carried1 a0 => Some (LoadScan a0)
  | 90%N, Carried8 => Some LoadScanFiles
  | 91%N, Carried1 a0 => Some (NetworkFile a0)
  | 92%N, Carried8 => Some NetworkScan
  | 93%N, Carried15 a0 => Some (NetSends a0)
  | 94%N, Carried15 a0 => Some (NetReceives a0)
  | 95%N, Carried6 a0 => Some (NetDefinitionUses a0)
  | 96%N, Carried8 => Some HelperRegistry
  | 97%N, Carried23 a0 => Some (CallRole a0)
  | 98%N, Carried1 a0 => Some (RoleMentions a0)
  | 99%N, Carried1 a0 => Some (HelperScan a0)
  | 100%N, Carried8 => Some HelperScanFiles
  | 101%N, Carried15 a0 => Some (NetHelperName a0)
  | 102%N, Carried8 => Some NetOperationNames
  | 103%N, Carried6 a0 => Some (NetCall a0)
  | 104%N, Carried6 a0 => Some (NetHelper a0)
  | 105%N, Carried6 a0 => Some (NetFlows a0)
  | 106%N, Carried1 a0 => Some (FunctionSummaries a0)
  | 107%N, Carried24 a0 => Some (Property a0)
  | 108%N, Carried7 a0 => Some (DeclDefault a0)
  | 109%N, Carried15 a0 => Some (Global a0)
  | 110%N, Carried8 => Some GlobalScan
  | 111%N, Carried1 a0 => Some (References a0)
  | 112%N, Carried7 a0 => Some (DeclReferences a0)
  | 113%N, Carried15 a0 => Some (ReferencesByName a0)
  | 114%N, Carried15 a0 => Some (IndexReferenceFiles a0)
  | 115%N, Carried1 a0 => Some (DerivedReferences a0)
  | 116%N, Carried15 a0 => Some (NumericPopulation a0)
  | 117%N, Carried15 a0 => Some (AccessorFunc a0)
  | 118%N, Carried1 a0 => Some (AccessorCalls a0)
  | 119%N, Carried1 a0 => Some (Dependency a0)
  | 120%N, Carried1 a0 => Some (LoadSites a0)
  | 121%N, Carried1 a0 => Some (DiagnosticFile a0)
  | 122%N, Carried1 a0 => Some (FileText a0)
  | 123%N, Carried1 a0 => Some (FilePath a0)
  | 124%N, Carried15 a0 => Some (PathFile a0)
  | 125%N, Carried6 a0 => Some (Syntax a0)
  | 126%N, Carried25 a0 => Some (FunctionScope a0)
  | 127%N, Carried8 => Some FileSet
  | 128%N, Carried26 a0 => Some (StageRule_ a0)
  | 129%N, Carried14 a0 => Some (ReceiverAuthority a0)
  | 130%N, Carried14 a0 => Some (CallbackParams a0)
  | _, _ => None
  end.

Lemma decode_encode k : decode (encode k).1 (encode k).2 = Some k.
Proof. by destruct k. Qed.

Context `{EqDecision LuaType, EqDecision VarRefId}.

#[export] Instance member_key_dec : EqDecision LuaMemberKey.
Proof. solve_decision. Defined.

#[export] Instance carried_dec : EqDecision Carried.
Proof. solve_decision. Defined.

#[export] Instance fact_key_eq_dec : EqDecision t.
Proof.
  intros k1 k2. destruct (decide (encode k1 = encode k2)) as [He|Hn].
  - left. apply (inj Some). by rewrite <- (decode_encode k1), <- (decode_encode k2), He.
  - right. by intros ->.
Defined.

(** ** The keys of the reader graph *)

(** The types of keys that are expressions name files themselves. *)
Definition positional_files (type_referenced_files : LuaType -> list FileId) (key : t) : list FileId :=
  option_list (positional_file key) ++ from_option type_referenced_files [] (expr_key_type key).

Lemma base_of_base k b : base k = Some b -> base b = None.
Proof. by destruct k; intros [= <-]. Qed.

(** [hash] is the low half of what the hasher makes of a key. *)
Definition fact_keys (type_referenced_files : LuaType -> list FileId) (hash : t -> N) : FactKeys t := {|
  fact_key_dec := fact_key_eq_dec;
  KeyTable.base := base;
  KeyTable.owning_file := owning_file;
  KeyTable.positional_files := positional_files type_referenced_files;
  KeyTable.is_primary := is_primary;
  KeyTable.is_file_source := is_file_source;
  KeyTable.is_query_output := is_query_output;
  KeyTable.is_stage_rule := is_stage_rule;
  hash_half := hash;
  base_flat := base_of_base
|}.

(** The keys that others are read out of are exactly those that [is_base]
    names, and are not read out of a key themselves; a key that is read out of
    another is a view: never primary, written by the source layer, a query's
    output or a stage rule; it is owned by the file that owns its base, but for
    the realms of a type's super edges, which no file owns. *)
Theorem derived_keys_are_views `{Inhabited VarRefId} :
  (forall b, is_base b = true <-> exists k, base k = Some b)
  /\ (forall k b, base k = Some b ->
       base b = None /\ is_primary k = false /\ is_file_source k = false /\ is_query_output k = false /\ is_stage_rule k = false
       /\ (owning_file k = owning_file b \/ exists id file_id, k = TypeSuperRealms id file_id /\ owning_file k = None)).
Proof.
  split.
  - intros b. split; [|intros [k Hk]; destruct k; try discriminate Hk; by injection Hk as <-]. intros Hb. destruct b; try discriminate Hb.
    + by exists (TypeDeclFiles decl_id).
    + by exists (TypeSuperTypes decl_id).
    + by exists (MemberObject member_id).
    + by exists (SignatureDecl signature_id).
    + by exists (SpecialCallFor file_id inhabitant).
    + by exists (GmodVguiRegistrations file_id).
    + by exists (GmodRealmInputs file_id).
    + by exists (GmodRealmAt file_id 0%N).
    + by exists (DeclReferences (mkDeclId file_id 0%N)).
    + by exists (IndexReferenceFiles name).
  - intros k b Hk. destruct k; try discriminate Hk; injection Hk as <-; split_and!; try done; try (by left).
    + right. by eexists _, _.
    + left. by destruct decl_id.
Qed.

(** A key that only the source layer writes belongs to a file, whose
    removal takes it away; a key that belongs to a file has its positions in
    it; and a writer's share of a fact that folds all writers is a primary fact
    that is not read out of another. *)
Theorem owned_keys k :
  (is_file_source k = true -> is_Some (owning_file k))
  /\ (forall f, owning_file k = Some f -> positional_file k = Some f)
  /\ (forall writer share, writer_share k writer = Some share -> is_primary share = true /\ base share = None
        /\ (forall f, owning_file share = Some f -> f = deriv_file writer)).
Proof.
  split_and!.
  - destruct k; intros Hk; try discriminate Hk; eexists; reflexivity.
  - intros f. by destruct k; try done; destruct decl.
  - intros writer share. destruct k; intros Hk; try discriminate Hk; injection Hk as <-; split_and!; try done; by intros f [= <-].
Qed.
End Keys.
Arguments t : clear implicits.
Arguments LuaMemberKey : clear implicits.
End FactKey.
