(* ===== verification/ReaderGraph.v ===== *)
(** * The reader graph

    [ReaderGraph] of
    [src/crates/glua_code_analysis/src/db_index/derivation/graph.rs]: for every
    derivation the facts its last evaluation read and produced, and for every
    fact its readers and producers.

    The stamps that a method takes from the counter of the process are counted
    in the graph ([clock]).  The cached fingerprint of a slot is an atomic that
    a shared reference writes: the methods that do return the graph.  What runs
    on worker threads is done in the order the results are collected in. *)

From S2P Require Import Prelude FileOrder Derivation Readers KeyTable.
From stdpp Require Import list gmap.
Local Open Scope prog_scope.

(** ** Records *)

(** The reads, then the outputs. *)
Record Record_ : Type := mkRecord { record_keys : list KeyIdx; record_read_count : nat }.

Module Record_.
Definition new (reads outputs : list KeyIdx) : outcome Record_ :=
  if (N.of_nat (length reads) <? 2 ^ 32)%N then Done (mkRecord (reads ++ outputs) (length reads)) else Panic.
Definition default_ : Record_ := mkRecord [] 0.
Definition reads (self : Record_) : list KeyIdx := take (record_read_count self) (record_keys self).
Definition outputs (self : Record_) : list KeyIdx := drop (record_read_count self) (record_keys self).
Definition with_reads (self : Record_) (reads : list KeyIdx) : outcome Record_ := new reads (outputs self).
Definition with_outputs (self : Record_) (outputs : list KeyIdx) : outcome Record_ := new (reads self) outputs.
End Record_.

Record DerivSlot : Type := mkDerivSlot { slot_id : DerivationId; slot_record : option Record_ }.

(** The walk of two sorted lists of slots: what only the old one has and what
    only the new one has. *)
Fixpoint merge_sorted (fuel : nat) (old new : list KeyIdx) : list KeyIdx * list KeyIdx :=
  match fuel, old, new with
  | S fuel, l :: old', r :: new' =>
      if (l =? r)%nat then merge_sorted fuel old' new'
      else if (l <? r)%nat then let '(o, n) := merge_sorted fuel old' new in (l :: o, n)
      else let '(o, n) := merge_sorted fuel old new' in (o, r :: n)
  | _, _, _ => (old, new)
  end.

(** [super::records_read] *)
Definition records_read `{FactKeys K} (id : DerivationId) (key : K) (is_output : K -> bool) : bool :=
  let own := bool_decide (owning_file key = Some (deriv_file id)) in
  negb (is_primary key && is_output key)
  && negb (own && (is_file_source key || bool_decide (deriv_kind id = Source))).

Definition slot_pair_le {T} (a b : KeyIdx * T) : bool := (a.1 <=? b.1)%nat.

(** The reads that a record keeps, sorted by slot, and the slots of those it
    drops. *)
Fixpoint kept_reads_of {K T} `{FactKeys K} (id : DerivationId) (key : KeyIdx -> outcome K) (is_output : K -> bool)
    (slots : list (KeyIdx * T)) : outcome (list (KeyIdx * T) * list KeyIdx) :=
  match slots with
  | [] => Done ([], [])
  | (slot, seen) :: slots =>
      k ← key slot;
      '(reads, dropped) ← kept_reads_of id key is_output slots;
      Done (if records_read id k is_output then ((slot, seen) :: reads, dropped) else (reads, slot :: dropped))
  end.

Definition kept_reads {K T} `{FactKeys K} (id : DerivationId) (slots : list (KeyIdx * T)) (key : KeyIdx -> outcome K)
    (is_output : K -> bool) : outcome (list (KeyIdx * T) * list KeyIdx) :=
  '(reads, dropped) ← kept_reads_of id key is_output slots;
  Done (sort_by slot_pair_le reads, dropped).

(** ** Records to file *)

Record KeptRecord (K : Type) : Type := mkKept {
  kept_id : DerivationId;
  kept_record_reads : list (KeyIdx * Fingerprint);
  kept_dropped_reads : list KeyIdx;
  kept_outputs : list KeyIdx;
  kept_new_outputs : list K
}.
Arguments mkKept {K} _ _ _ _ _.
Arguments kept_id {K} _.
Arguments kept_record_reads {K} _.
Arguments kept_dropped_reads {K} _.
Arguments kept_outputs {K} _.
Arguments kept_new_outputs {K} _.

Record PreparedRecord : Type := mkPrepared {
  prepared_id : DerivationId;
  prepared_deriv : DerivIdx;
  prepared_reads : list (KeyIdx * Fingerprint);
  prepared_dropped_reads : list KeyIdx;
  prepared_outputs : list KeyIdx
}.

Record DiffedRecord : Type := mkDiffed {
  diffed_id : DerivationId;
  diffed_deriv : DerivIdx;
  diffed_ops : list (KeyIdx * ReaderOp);
  diffed_unread : list KeyIdx;
  diffed_dropped_reads : list KeyIdx;
  diffed_added : list KeyIdx;
  diffed_dropped : list KeyIdx;
  diffed_record : option Record_
}.

Module PreparedRecord.
Section Diff.
Context {K : Type} `{HK : FactKeys K}.

(** The walk of the old and the new reads: the changes and the reads that are
    no longer made. *)
Fixpoint diff_reads (fuel : nat) (deriv : DerivIdx) (readers_ : option (KeyTable K)) (old : list KeyIdx)
    (new : list (KeyIdx * Fingerprint)) : outcome (list (KeyIdx * ReaderOp) * list KeyIdx) :=
  match fuel with
  | 0 => OutOfFuel
  | S fuel =>
      match old, new with
      | [], [] => Done ([], [])
      | old_key :: old', (new_key, new_seen) :: new' =>
          if (old_key =? new_key)%nat then
            changed ← match readers_ with
              | None => Done true
              | Some table =>
                  e ← KeyTable.entry table new_key;
                  seen ← Readers.seen_by (readers e) deriv;
                  Done (negb (N.eqb seen new_seen))
              end;
            '(ops, unread) ← diff_reads fuel deriv readers_ old' new';
            Done (if (changed : bool) then (new_key, Seen deriv new_seen) :: ops else ops, unread)
          else if (old_key <? new_key)%nat then
            '(ops, unread) ← diff_reads fuel deriv readers_ old' new;
            Done ((old_key, Remove deriv) :: ops, old_key :: unread)
          else
            '(ops, unread) ← diff_reads fuel deriv readers_ old new';
            Done ((new_key, Insert_ deriv new_seen) :: ops, unread)
      | old_key :: old', [] =>
          '(ops, unread) ← diff_reads fuel deriv readers_ old' [];
          Done ((old_key, Remove deriv) :: ops, old_key :: unread)
      | [], (new_key, new_seen) :: new' =>
          '(ops, unread) ← diff_reads fuel deriv readers_ [] new';
          Done ((new_key, Insert_ deriv new_seen) :: ops, unread)
      end
  end.

Definition diff (self : PreparedRecord) (old : option Record_) (readers_ : option (KeyTable K)) : outcome DiffedRecord :=
  let filed := bool_decide (is_Some old) in
  let old := default Record_.default_ old in
  let reads := prepared_reads self in
  '(ops, unread) ← diff_reads (S (length (Record_.reads old) + length reads)) (prepared_deriv self) readers_
                     (Record_.reads old) reads;
  let '(dropped, added) :=
    merge_sorted (length (Record_.outputs old) + length (prepared_outputs self)) (Record_.outputs old) (prepared_outputs self) in
  let unchanged := filed && bool_decide (ops = []) && bool_decide (unread = [])
                     && bool_decide (added = []) && bool_decide (dropped = []) in
  record ← (if unchanged then Done None else r ← Record_.new reads.*1 (prepared_outputs self); Done (Some r));
  Done (mkDiffed (prepared_id self) (prepared_deriv self) ops unread (prepared_dropped_reads self) added dropped record).
End Diff.
End PreparedRecord.

(** ** The graph *)

Record ReaderGraph (K : Type) : Type := mkGraph {
  table : KeyTable K;
  deriv_slots : list DerivIdx;
  derivations : list DerivSlot;
  free_derivations : list DerivIdx;
  by_file : gmap FileId (gset DerivIdx);
  foreign_producers_of : gmap FileId (gmap DerivIdx nat);
  generation : N;
  held_releases : list KeyIdx;
  clock : N
}.
Arguments mkGraph {K} _ _ _ _ _ _ _ _ _.
Arguments table {K} _.
Arguments deriv_slots {K} _.
Arguments derivations {K} _.
Arguments free_derivations {K} _.
Arguments by_file {K} _.
Arguments foreign_producers_of {K} _.
Arguments generation {K} _.
Arguments held_releases {K} _.
Arguments clock {K} _.

Module ReaderGraph.
Section Graph.
Context {K : Type} `{HK : FactKeys K}.
Implicit Types self : ReaderGraph K.

Definition default_ : ReaderGraph K := mkGraph KeyTable.default_ [] [] [] ∅ ∅ 0%N [] 0%N.

Definition with_table self (v : KeyTable K) : ReaderGraph K :=
  mkGraph v (deriv_slots self) (derivations self) (free_derivations self) (by_file self) (foreign_producers_of self)
    (generation self) (held_releases self) (clock self).
Definition with_derivations self (slots : list DerivIdx) (v : list DerivSlot) (free : list DerivIdx) : ReaderGraph K :=
  mkGraph (table self) slots v free (by_file self) (foreign_producers_of self)
    (generation self) (held_releases self) (clock self).
Definition with_by_file self (v : gmap FileId (gset DerivIdx)) : ReaderGraph K :=
  mkGraph (table self) (deriv_slots self) (derivations self) (free_derivations self) v (foreign_producers_of self)
    (generation self) (held_releases self) (clock self).
Definition with_foreign_producers self (v : gmap FileId (gmap DerivIdx nat)) : ReaderGraph K :=
  mkGraph (table self) (deriv_slots self) (derivations self) (free_derivations self) (by_file self) v
    (generation self) (held_releases self) (clock self).
Definition with_generation self (v : N) : ReaderGraph K :=
  mkGraph (table self) (deriv_slots self) (derivations self) (free_derivations self) (by_file self) (foreign_producers_of self)
    v (held_releases self) (clock self).
Definition with_held_releases self (v : list KeyIdx) : ReaderGraph K :=
  mkGraph (table self) (deriv_slots self) (derivations self) (free_derivations self) (by_file self) (foreign_producers_of self)
    (generation self) v (clock self).

(** [super::new_stamp()] *)
Definition new_stamp self : N * ReaderGraph K :=
  (clock self + 1,
   mkGraph (table self) (deriv_slots self) (derivations self) (free_derivations self) (by_file self) (foreign_producers_of self)
    (generation self) (held_releases self) (clock self + 1))%N.

(** A change of the table. *)
Definition on_table self (t : outcome (KeyTable K)) : outcome (ReaderGraph K) := t ← t; Done (with_table self t).

Definition derivation self (deriv : DerivIdx) : outcome DerivSlot := expect (derivations self !! deriv).
Definition set_record self (deriv : DerivIdx) (record : option Record_) : outcome (ReaderGraph K) :=
  d ← derivation self deriv;
  Done (with_derivations self (deriv_slots self) (<[deriv := mkDerivSlot (slot_id d) record]> (derivations self))
          (free_derivations self)).

Fixpoint for_graph {A} (body : ReaderGraph K -> A -> outcome (ReaderGraph K)) (l : list A) self : outcome (ReaderGraph K) :=
  match l with
  | [] => Done self
  | a :: l => g ← body self a; for_graph body l g
  end.

(** A loop that collects what each round gives. *)
Fixpoint map_graph_ {A B} (body : ReaderGraph K -> A -> outcome (B * ReaderGraph K)) (l : list A) self
    : outcome (list B * ReaderGraph K) :=
  match l with
  | [] => Done ([], self)
  | a :: l => '(b, g) ← body self a; '(bs, g) ← map_graph_ body l g; Done (b :: bs, g)
  end.

Definition quarantine_releases self : outcome (ReaderGraph K) :=
  let '(now, self) := new_stamp self in
  on_table self (KeyTable.quarantine_releases (table self) now).

(** The table goes and an empty one stays. *)
Definition lend_keys self : KeyTable K * ReaderGraph K := (table self, with_table self KeyTable.default_).
Definition restore_keys self (table : KeyTable K) : ReaderGraph K := with_table self table.

Definition mark_written self (keys : list K) : outcome (ReaderGraph K) :=
  let '(now, self) := new_stamp self in
  let slots := flat_map (fun key => match KeyTable.find (table self) key with
                                    | Some slot => slot :: KeyTable.derived_slots (table self) slot
                                    | None => []
                                    end) keys in
  on_table self (KeyTable.mark_slots_written (table self) slots now).

Definition hold_windows self (keys : list K) : outcome (ReaderGraph K) :=
  let '(now, self) := new_stamp self in
  on_table self (KeyTable.for_slots (fun t key => KeyTable.hold_window t key now) keys (table self)).

Definition release_held self (unchanged : K -> bool) : outcome (ReaderGraph K) :=
  on_table self (KeyTable.release_held (table self) unchanged).

(** *** Cached fingerprints *)

Definition key self (slot : KeyIdx) : outcome K := KeyTable.key (table self) slot.

Definition slot_fingerprint self (slot : KeyIdx) (fingerprint : K -> Fingerprint) : outcome (Fingerprint * ReaderGraph K) :=
  e ← KeyTable.entry (table self) slot;
  if N.eqb (current_generation e) (generation self) then Done (current e, self) else
  k ← key self slot;
  let now := fingerprint k in
  self ← on_table self (KeyTable.update (table self) slot (fun e => KeySlot.with_current e now (generation self)));
  Done (now, self).

Definition current_fingerprint self (key : K) (fingerprint : K -> Fingerprint) : outcome (Fingerprint * ReaderGraph K) :=
  match KeyTable.find (table self) key with
  | Some slot => slot_fingerprint self slot fingerprint
  | None => Done (fingerprint key, self)
  end.

Definition forget_fingerprint self (key : K) : outcome (ReaderGraph K) :=
  match KeyTable.find (table self) key with
  | Some slot =>
      on_table self (KeyTable.for_slots
        (fun t slot => KeyTable.update t slot (fun e => KeySlot.with_current e (current e) NO_GENERATION))
        (slot :: KeyTable.derived_slots (table self) slot) (table self))
  | None => Done self
  end.

Definition forget_fingerprints self : ReaderGraph K := with_generation self ((generation self + 1) mod NO_GENERATION)%N.

Definition cached_fingerprints self : list (K * Fingerprint) :=
  omap (fun e => if N.eqb (current_generation e) (generation self)
                 then (fun key => (key, current e)) <$> slot_key e else None) (keys (table self)).

(** *** Keys read out of a key *)

Fixpoint keys_of self (slots : list KeyIdx) : outcome (list K) :=
  match slots with
  | [] => Done []
  | slot :: slots => k ← key self slot; ks ← keys_of self slots; Done (k :: ks)
  end.

Definition derived_of self (key : K) : option (KeyIdx * DerivedKeys) :=
  slot ← KeyTable.find (table self) key;
  d ← derived (table self) !! slot;
  Some (slot, d).

Definition derived_keys self (key : K) : outcome (list K) :=
  keys_of self (from_option (fun d : KeyIdx * DerivedKeys => derived_slots_of d.2) [] (derived_of self key)).

Definition has_derived_keys self (key : K) : bool := bool_decide (is_Some (derived_of self key)).

Definition set_checked self (slot : KeyIdx) (d : DerivedKeys) (now : Fingerprint) : ReaderGraph K :=
  with_table self (KeyTable.with_derived (table self) (<[slot := mkDerived (derived_slots_of d) now]> (derived (table self)))).

Definition derived_keys_to_check self (key : K) (now : Fingerprint) : outcome (list K * ReaderGraph K) :=
  match derived_of self key with
  | None => Done ([], self)
  | Some (slot, d) =>
      if N.eqb (checked_at d) now then Done ([], self) else
      ks ← keys_of self (derived_slots_of d);
      Done (ks, set_checked self slot d now)
  end.

Definition uncheck_derived self (keys : list K) : ReaderGraph K :=
  foldl (fun self key => match derived_of self key with
                         | Some (slot, d) => set_checked self slot d UNCHECKED
                         | None => self
                         end) self keys.

Definition recorded_derivations self : list DerivationId :=
  sort_by DerivationId.le (slot_id <$> filter (fun d => is_Some (slot_record d)) (derivations self)).

(** *** Slots of derivations *)

Definition deriv_slot self (id : DerivationId) : option DerivIdx :=
  List.find (fun deriv => bool_decide (slot_id <$> derivations self !! deriv = Some id)) (deriv_slots self).

Definition new_derivation self (id : DerivationId) : outcome (DerivIdx * ReaderGraph K) :=
  let entry := mkDerivSlot id None in
  '(slot, derivations, free) ← match last (free_derivations self) with
    | Some slot =>
        (* [self.derivations[slot] = entry] *)
        _ ← derivation self slot;
        Done (slot, <[slot := entry]> (derivations self), take (length (free_derivations self) - 1) (free_derivations self))
    | None =>
        let slot := length (derivations self) in
        if (N.of_nat slot <? NO_PRODUCER)%N
        then Done (slot, derivations self ++ [entry], free_derivations self) else Panic
    end;
  Done (slot, with_derivations self (deriv_slots self ++ [slot]) derivations free).

Definition intern_derivation self (id : DerivationId) : outcome (DerivIdx * ReaderGraph K) :=
  match deriv_slot self id with
  | Some slot => Done (slot, self)
  | None => new_derivation self id
  end.

(** The record of a derivation that has one. *)
Definition record self (id : DerivationId) : option (DerivIdx * Record_) :=
  deriv ← deriv_slot self id;
  d ← derivations self !! deriv;
  r ← slot_record d;
  Some (deriv, r).

Definition seen self (slot : KeyIdx) (deriv : DerivIdx) : outcome Fingerprint :=
  e ← KeyTable.entry (table self) slot; Readers.seen_by (readers e) deriv.

(** *** Producers *)

Definition produce self (key_ : KeyIdx) (deriv : DerivIdx) (file_id : FileId) : outcome (ReaderGraph K) :=
  producers ← KeyTable.producers (table self) key_;
  if bool_decide (deriv ∈ producers) then Done self else
  self ← on_table self (KeyTable.add_producer (table self) key_ deriv);
  k ← key self key_;
  match owning_file k with
  | Some owner =>
      if bool_decide (owner = file_id) then Done self else
      let derivs := default ∅ (foreign_producers_of self !! owner) in
      Done (with_foreign_producers self
        (<[owner := <[deriv := S (default 0 (derivs !! deriv))]> derivs]> (foreign_producers_of self)))
  | None => Done self
  end.

Definition unproduce self (key_ : KeyIdx) (deriv : DerivIdx) (file_id : FileId) : outcome (ReaderGraph K) :=
  self ← on_table self (KeyTable.remove_producer (table self) key_ deriv);
  k ← key self key_;
  match owning_file k with
  | Some owner =>
      if bool_decide (owner = file_id) then Done self else
      match foreign_producers_of self !! owner with
      | Some derivs =>
          match derivs !! deriv with
          | Some (S (S count)) =>
              Done (with_foreign_producers self (<[owner := <[deriv := S count]> derivs]> (foreign_producers_of self)))
          | Some 1 =>
              let derivs := delete deriv derivs in
              Done (with_foreign_producers self
                (if bool_decide (derivs = ∅) then delete owner (foreign_producers_of self)
                 else <[owner := derivs]> (foreign_producers_of self)))
          | Some 0 => Panic
          | None => Done self
          end
      | None => Done self
      end
  | None => Done self
  end.

(** *** Releasing slots *)

(** The fuel: a key and its base. *)
Fixpoint release_one (fuel : nat) self (slot : KeyIdx) (still_read : gmap KeyIdx nat) (freed_from : gmap KeyIdx nat)
    : outcome (gmap KeyIdx nat * ReaderGraph K) :=
  match fuel with
  | 0 => OutOfFuel
  | S fuel =>
      if (0 <? default 0 (still_read !! slot))%nat then Done (freed_from, self) else
      unreferenced ← KeyTable.unreferenced_after (table self) slot freed_from;
      if negb unreferenced then Done (freed_from, self) else
      e ← KeyTable.entry (table self) slot;
      match slot_key e with
      | None => Done (freed_from, self)
      | Some key =>
          self ← on_table self (KeyTable.update (table self) slot (fun e =>
            KeySlot.set_mark (KeySlot.set_mark (KeySlot.with_written (KeySlot.with_key e None) (2 ^ 64 - 1)) HELD false)
              WINDOWED false));
          let t := table self in
          let self := with_table self (KeyTable.with_windows (KeyTable.with_held t (delete slot (held t))) (delete slot (windows t))) in
          let '(now, self) := new_stamp self in
          let self := with_table self (KeyTable.with_table_written (table self) now) in
          let self := with_table self (KeyTable.retire (KeyTable.unfile (table self) key slot) slot) in
          match (b ← base key; KeyTable.find (table self) b) with
          | None => Done (freed_from, self)
          | Some base =>
              match derived (table self) !! base with
              | None => Done (freed_from, self)
              | Some d =>
                  let freed := S (default 0 (freed_from !! base)) in
                  let freed_from := <[base := freed]> freed_from in
                  if (freed =? length (derived_slots_of d))%nat
                  then release_one fuel self base still_read freed_from
                  else Done (freed_from, self)
              end
          end
      end
  end.

Fixpoint release_each self (slots : list KeyIdx) (still_read freed_from : gmap KeyIdx nat)
    : outcome (gmap KeyIdx nat * ReaderGraph K) :=
  match slots with
  | [] => Done (freed_from, self)
  | slot :: slots =>
      '(freed_from, self) ← release_one 2 self slot still_read freed_from;
      release_each self slots still_read freed_from
  end.

Definition release_slots self (slots : list KeyIdx) (still_read : gmap KeyIdx nat) : outcome (ReaderGraph K) :=
  '(freed_from, self) ← release_each self slots still_read ∅;
  Done (with_table self (KeyTable.drop_freed_derived (table self) (map_to_list freed_from).*1)).

Definition PARALLEL_RELEASE : N := N.shiftl 1 12.

Fixpoint releasable self (slots : list KeyIdx) : outcome (list KeyIdx) :=
  match slots with
  | [] => Done []
  | slot :: slots =>
      unreferenced ← match KeyTable.live_key (table self) slot with
        | Some _ => KeyTable.unreferenced (table self) slot
        | None => Done false
        end;
      rest ← releasable self slots;
      Done (if (unreferenced : bool) then slot :: rest else rest)
  end.

(** A large batch is cut to the slots that can be freed first. *)
Definition release_keys self (slots : list KeyIdx) : outcome (ReaderGraph K) :=
  slots ← (if (N.of_nat (length slots) <? PARALLEL_RELEASE)%N then Done slots else releasable self slots);
  release_slots self slots ∅.

(** *** Filing a record *)

Definition intern_key self (key : K) (now : N) : outcome (KeyIdx * ReaderGraph K) :=
  '(slot, t) ← KeyTable.intern (table self) key now; Done (slot, with_table self t).

Definition prepare_kept self (record : KeptRecord K) (deriv : DerivIdx) (now : N) : outcome (PreparedRecord * ReaderGraph K) :=
  '(outputs, self) ← match kept_new_outputs record with
    | [] => Done (kept_outputs record, self)
    | new_outputs =>
        '(slots, self) ← map_graph_ (fun self key => intern_key self key now) new_outputs self;
        Done (dedup (sort_by Nat.leb (kept_outputs record ++ slots)), self)
    end;
  Done (mkPrepared (kept_id record) deriv (kept_record_reads record) (kept_dropped_reads record) outputs, self).

Definition drop_output (deriv : DerivIdx) (file_id : FileId) self (key_ : KeyIdx) : outcome (K * ReaderGraph K) :=
  fact ← key self key_;
  self ← unproduce self key_ deriv file_id;
  Done (fact, self).

Definition finish_kept self (diffed : DiffedRecord) (released : list KeyIdx)
    : outcome (list K * list (KeyIdx * ReaderOp) * list KeyIdx * ReaderGraph K) :=
  let deriv := diffed_deriv diffed in
  let file_id := deriv_file (diffed_id diffed) in
  self ← for_graph (fun self key => produce self key deriv file_id) (diffed_added diffed) self;
  '(dropped, self) ← map_graph_ (drop_output deriv file_id) (diffed_dropped diffed) self;
  let released := released ++ diffed_dropped diffed ++ diffed_unread diffed ++ diffed_dropped_reads diffed in
  self ← match diffed_record diffed with
    | None => Done self
    | Some record =>
        d ← derivation self deriv;
        self ← set_record self deriv (Some record);
        Done match slot_record d with
             | None => with_by_file self (<[file_id := default ∅ (by_file self !! file_id) ∪ {[deriv]}]> (by_file self))
             | Some _ => self
             end
    end;
  Done (dropped, diffed_ops diffed, released, self).

Definition apply_op self (slot_op : KeyIdx * ReaderOp) : outcome (ReaderGraph K) :=
  e ← KeyTable.entry (table self) slot_op.1;
  readers ← ReaderOp.apply slot_op.2 (readers e);
  on_table self (KeyTable.update (table self) slot_op.1 (fun e => KeySlot.with_readers e readers)).

Definition replace_kept self (record : KeptRecord K) (released : list KeyIdx) (now : N)
    : outcome (list K * list KeyIdx * ReaderGraph K) :=
  '(deriv, self) ← intern_derivation self (kept_id record);
  '(prepared, self) ← prepare_kept self record deriv now;
  d ← derivation self deriv;
  diffed ← PreparedRecord.diff prepared (slot_record d) (Some (table self));
  '(dropped, ops, released, self) ← finish_kept self diffed released;
  self ← for_graph apply_op ops self;
  Done (dropped, released, self).

Definition replace_slots self (id : DerivationId) (slots : list (KeyIdx * option Fingerprint)) (outputs : list K)
    (fingerprint : K -> Fingerprint) (released : list KeyIdx) (now : N) : outcome (list K * list KeyIdx * ReaderGraph K) :=
  '(reads, dropped_reads) ← kept_reads id slots (key self) (fun key => bool_decide (key ∈ outputs));
  '(reads, self) ← map_graph_ (fun self slot_seen =>
      '(seen, self) ← match (slot_seen : KeyIdx * option Fingerprint).2 with
        | Some seen => Done (seen, self)
        | None => slot_fingerprint self slot_seen.1 fingerprint
        end;
      Done ((slot_seen.1, seen), self)) reads self;
  replace_kept self (mkKept id reads dropped_reads [] outputs) released now.

Definition replace self (id : DerivationId) (reads : list (K * option Fingerprint)) (outputs : list K)
    (fingerprint : K -> Fingerprint) : outcome (list K * ReaderGraph K) :=
  let '(now, self) := new_stamp self in
  '(slots, self) ← map_graph_ (fun self key_seen =>
      '(slot, self) ← intern_key self (key_seen : K * option Fingerprint).1 now;
      Done ((slot, key_seen.2), self)) reads self;
  '(dropped, released, self) ← replace_slots self id slots outputs fingerprint [] now;
  self ← release_keys self released;
  Done (dropped, self).

(** *** Filing many records *)

(** [KeyTable::keep_viewed] *)
Definition keep_viewed_record self (id : DerivationId) (slots : list (KeyIdx * Fingerprint)) : outcome (KeptRecord K) :=
  '(reads, dropped_reads) ← kept_reads id slots (key self) (fun _ => false);
  Done (mkKept id reads dropped_reads [] []).

(** [stamp] gives the stamp of each record. *)
Definition stamp_of self (stamp : option N) : N * ReaderGraph K :=
  match stamp with Some now => (now, self) | None => new_stamp self end.

Fixpoint prepare_all self (records : list (KeptRecord K * option DerivIdx)) (stamp : option N)
    : outcome (list PreparedRecord * ReaderGraph K) :=
  match records with
  | [] => Done ([], self)
  | (record, known) :: records =>
      let '(now, self) := stamp_of self stamp in
      '(deriv, self) ← match known with Some deriv => Done (deriv, self) | None => new_derivation self (kept_id record) end;
      '(prepared, self) ← prepare_kept self record deriv now;
      '(rest, self) ← prepare_all self records stamp;
      Done (prepared :: rest, self)
  end.

Fixpoint diff_all self (prepared : list PreparedRecord) : outcome (list DiffedRecord) :=
  match prepared with
  | [] => Done []
  | p :: prepared =>
      d ← derivation self (prepared_deriv p);
      diffed ← PreparedRecord.diff p (slot_record d) (Some (table self));
      rest ← diff_all self prepared;
      Done (diffed :: rest)
  end.

Fixpoint finish_all self (diffed : list DiffedRecord) (released : list KeyIdx)
    : outcome (list (list (KeyIdx * ReaderOp)) * list KeyIdx * ReaderGraph K) :=
  match diffed with
  | [] => Done ([], released, self)
  | d :: diffed =>
      '(_, ops, released, self) ← finish_kept self d released;
      '(rest, released, self) ← finish_all self diffed released;
      Done (ops :: rest, released, self)
  end.

(** One record after another: a later one of the same derivation is diffed
    without the readers, which the earlier one has yet to move. *)
Fixpoint file_in_turn self (records : list (KeptRecord K)) (released : list KeyIdx) (stamp : option N)
    : outcome (list (list (KeyIdx * ReaderOp)) * list KeyIdx * ReaderGraph K) :=
  match records with
  | [] => Done ([], released, self)
  | record :: records =>
      let '(now, self) := stamp_of self stamp in
      '(deriv, self) ← intern_derivation self (kept_id record);
      '(prepared, self) ← prepare_kept self record deriv now;
      d ← derivation self deriv;
      diffed ← PreparedRecord.diff prepared (slot_record d) (None : option (KeyTable K));
      '(_, ops, released, self) ← finish_kept self diffed released;
      '(rest, released, self) ← file_in_turn self records released stamp;
      Done (ops :: rest, released, self)
  end.

Definition replace_all_kept self (records : list (KeptRecord K)) (released : list KeyIdx) (stamp : option N)
    : outcome (list KeyIdx * ReaderGraph K) :=
  '(ops, released, self) ← (if bool_decide (NoDup (kept_id <$> records)) then
      let known := (fun record => deriv_slot self (kept_id record)) <$> records in
      '(prepared, self) ← prepare_all self (zip records known) stamp;
      diffed ← diff_all self prepared;
      finish_all self diffed released
    else file_in_turn self records released stamp);
  self ← on_table self (KeyTable.apply_reader_ops (table self) ops);
  Done (released, self).

(** What an evaluation that viewed the graph read: slots and, of keys it had no
    slot for, keys; each with the fingerprint it saw. *)
Record ViewedReads : Type := mkViewed {
  viewed_slots : list KeyIdx;
  viewed_seen : list Fingerprint;
  viewed_keys : list (K * Fingerprint)
}.

Definition keep_viewed self (records : list (DerivationId * ViewedReads)) (released : list KeyIdx)
    : outcome (list KeyIdx * ReaderGraph K) :=
  let '(now, self) := new_stamp self in
  '(records, self) ← map_graph_ (fun self id_reads =>
      let '(id, reads) := (id_reads : DerivationId * ViewedReads) in
      '(slots, self) ← map_graph_ (fun self key_seen =>
          '(slot, self) ← intern_key self (key_seen : K * Fingerprint).1 now;
          Done ((slot, key_seen.2), self)) (viewed_keys reads) self;
      Done ((id, zip (viewed_slots reads) (viewed_seen reads) ++ slots), self)) records self;
  '(kept, self) ← map_graph_ (fun self id_slots =>
      record ← keep_viewed_record self (id_slots : DerivationId * list (KeyIdx * Fingerprint)).1 id_slots.2;
      Done (record, self)) records self;
  replace_all_kept self kept released (Some now).

Definition file_viewed_into self (records : list (DerivationId * ViewedReads)) (released : list KeyIdx)
    : outcome (list KeyIdx * ReaderGraph K) :=
  let released := released ++ held_releases self in
  keep_viewed (with_held_releases self []) records released.

Definition file_viewed self (records : list (DerivationId * ViewedReads)) : outcome (ReaderGraph K) :=
  '(released, self) ← file_viewed_into self records [];
  release_keys self released.

Definition file_viewed_part self (records : list (DerivationId * ViewedReads)) : outcome (ReaderGraph K) :=
  '(released, self) ← keep_viewed (with_held_releases self []) records (held_releases self);
  Done (with_held_releases self released).

(** *** Forgetting files *)

Definition take_derivs self (file_id : FileId) : list DerivIdx * ReaderGraph K :=
  (elements (default ∅ (by_file self !! file_id)), with_by_file self (delete file_id (by_file self))).

Fixpoint take_all_derivs self (file_ids : list FileId) : list DerivIdx * ReaderGraph K :=
  match file_ids with
  | [] => ([], self)
  | file_id :: file_ids =>
      let '(derivs, self) := take_derivs self file_id in
      let '(rest, self) := take_all_derivs self file_ids in
      (derivs ++ rest, self)
  end.

Fixpoint reads_leaving self (derivs : list DerivIdx) : outcome (list (KeyIdx * DerivIdx)) :=
  match derivs with
  | [] => Done []
  | deriv :: derivs =>
      d ← derivation self deriv;
      rest ← reads_leaving self derivs;
      Done (((fun key => (key, deriv)) <$> from_option Record_.reads [] (slot_record d)) ++ rest)
  end.

Definition pair_le (a b : nat * nat) : bool := ((a.1 <? b.1) || ((a.1 =? b.1) && (a.2 <=? b.2)))%nat.

(** How many of the leaving derivations read each key. *)
Definition count_reads (leaving : list (KeyIdx * DerivIdx)) : gmap KeyIdx nat :=
  foldl (fun counts pair => <[pair.1 := S (default 0 (counts !! pair.1))]> counts) ∅ leaving.

(** [deriv] loses its record and its edges; its reads' readers have left. *)
Fixpoint release_reads self (reads : list KeyIdx) (still_read : gmap KeyIdx nat) : outcome (gmap KeyIdx nat * ReaderGraph K) :=
  match reads with
  | [] => Done (still_read, self)
  | key :: reads =>
      still_read ← match still_read !! key with
        | Some 0 => Panic
        | Some (S readers) => Done (<[key := readers]> still_read)
        | None => Done still_read
        end;
      self ← release_slots self [key] still_read;
      release_reads self reads still_read
  end.

Definition detach self (deriv : DerivIdx) (still_read : gmap KeyIdx nat)
    : outcome (list K * gmap KeyIdx nat * ReaderGraph K) :=
  d ← derivation self deriv;
  let id := slot_id d in
  let record := default Record_.default_ (slot_record d) in
  self ← set_record self deriv None;
  '(still_read, self) ← release_reads self (Record_.reads record) still_read;
  '(outputs, self) ← map_graph_ (fun self key_ =>
      fact ← key self key_;
      self ← unproduce self key_ deriv (deriv_file id);
      self ← release_slots self [key_] still_read;
      Done (fact, self)) (Record_.outputs record) self;
  let self := match by_file self !! deriv_file id with
    | Some derivs =>
        let derivs := derivs ∖ {[deriv]} in
        with_by_file self (if bool_decide (derivs = ∅) then delete (deriv_file id) (by_file self)
                           else <[deriv_file id := derivs]> (by_file self))
    | None => self
    end in
  let slots := match list_find (fun slot => slot = deriv) (deriv_slots self) with
    | Some (at_, _) => delete at_ (deriv_slots self)
    | None => deriv_slots self
    end in
  Done (outputs, still_read, with_derivations self slots (derivations self) (free_derivations self ++ [deriv])).

Fixpoint detach_all self (derivs : list DerivIdx) (still_read : gmap KeyIdx nat)
    : outcome (list (DerivationId * list K) * ReaderGraph K) :=
  match derivs with
  | [] => Done ([], self)
  | deriv :: derivs =>
      d ← derivation self deriv;
      '(outputs, still_read, self) ← detach self deriv still_read;
      '(rest, self) ← detach_all self derivs still_read;
      Done ((slot_id d, outputs) :: rest, self)
  end.

Definition remove_files self (file_ids : list FileId) : outcome (list (DerivationId * list K) * ReaderGraph K) :=
  let '(derivs, self) := take_all_derivs self file_ids in
  leaving ← reads_leaving self derivs;
  let leaving := sort_by pair_le leaving in
  let still_read := count_reads leaving in
  self ← on_table self (KeyTable.apply_reader_ops (table self) [(fun pair => (pair.1, Remove pair.2)) <$> leaving]);
  '(removed, self) ← detach_all self derivs still_read;
  Done (sort_by (fun a b : DerivationId * list K => DerivationId.le a.1 b.1) removed, self).

(** *** Asking the graph *)

Definition ids_of self (derivs : list DerivIdx) : outcome (list DerivationId) :=
  foldr (fun deriv ids => d ← derivation self deriv; ids ← ids; Done (slot_id d :: ids)) (Done []) derivs.

Definition foreign_producers self (file_id : FileId) : outcome (list DerivationId) :=
  ids ← ids_of self (map_to_list (default ∅ (foreign_producers_of self !! file_id))).*1;
  Done (sort_by DerivationId.le ids).

Fixpoint seen_ids self (readers : list (Fingerprint * DerivIdx)) : outcome (list (DerivationId * Fingerprint)) :=
  match readers with
  | [] => Done []
  | (seen, deriv) :: readers =>
      d ← derivation self deriv;
      rest ← seen_ids self readers;
      Done ((slot_id d, seen) :: rest)
  end.

(** The groups of readers whose value does not hold any more. *)
Definition stale_groups (readers : Readers) (holds : Fingerprint -> bool) : list (Fingerprint * DerivIdx) :=
  flat_map (fun g : Fingerprint * list DerivIdx => if holds g.1 then [] else (fun deriv => (g.1, deriv)) <$> g.2)
    (Readers.groups readers).

Definition stale_readers_seen self (key : K) (holds : Fingerprint -> bool) : outcome (list (DerivationId * Fingerprint)) :=
  match KeyTable.find (table self) key with
  | Some slot => e ← KeyTable.entry (table self) slot; seen_ids self (stale_groups (readers e) holds)
  | None => Done []
  end.

Definition stale_readers self (key : K) (holds : Fingerprint -> bool) : outcome (list DerivationId) :=
  seen ← stale_readers_seen self key holds; Done seen.*1.

(** Fingerprints are taken ahead, on worker threads; queries are left out. *)
Fixpoint query_free self (slots : list KeyIdx) : outcome (list KeyIdx) :=
  match slots with
  | [] => Done []
  | slot :: slots =>
      is_query ← KeyTable.is_query (table self) slot;
      rest ← query_free self slots;
      Done (if (is_query : bool) then rest else slot :: rest)
  end.

Definition warm_slots self (slots : list KeyIdx) (fingerprint : K -> Fingerprint) : outcome (ReaderGraph K) :=
  slots ← query_free self slots;
  for_graph (fun self slot => '(_, self) ← slot_fingerprint self slot fingerprint; Done self)
    (dedup (sort_by Nat.leb slots)) self.

Definition warm_reads self (ids : list DerivationId) (fingerprint : K -> Fingerprint) : outcome (ReaderGraph K) :=
  warm_slots self (flat_map (fun id => from_option (fun r : DerivIdx * Record_ => Record_.reads r.2) [] (record self id)) ids)
    fingerprint.

(** Whether a read does not hold any more; later reads are not looked at. *)
Fixpoint any_stale self (deriv : DerivIdx) (reads : list KeyIdx) (fingerprint : K -> Fingerprint)
    (holds_moved : K -> Fingerprint -> bool) : outcome (bool * ReaderGraph K) :=
  match reads with
  | [] => Done (false, self)
  | slot :: reads =>
      seen ← seen self slot deriv;
      '(now, self) ← slot_fingerprint self slot fingerprint;
      k ← key self slot;
      if negb (N.eqb seen now) && negb (holds_moved k seen) then Done (true, self)
      else any_stale self deriv reads fingerprint holds_moved
  end.

Definition is_stale self (id : DerivationId) (fingerprint : K -> Fingerprint) (holds_moved : K -> Fingerprint -> bool)
    : outcome (bool * ReaderGraph K) :=
  match record self id with
  | None => Done (true, self)
  | Some (deriv, record) => any_stale self deriv (Record_.reads record) fingerprint holds_moved
  end.

Fixpoint seen_of self (deriv : DerivIdx) (slots : list KeyIdx) : outcome (list (KeyIdx * Fingerprint)) :=
  match slots with
  | [] => Done []
  | slot :: slots =>
      seen ← seen self slot deriv;
      rest ← seen_of self deriv slots;
      Done ((slot, seen) :: rest)
  end.

Definition recorded_slots self (id : DerivationId) : outcome (list (KeyIdx * Fingerprint)) :=
  match record self id with
  | Some (deriv, record) => seen_of self deriv (Record_.reads record)
  | None => Done []
  end.

Definition reads_of self (id : DerivationId) : outcome (list K) :=
  match record self id with Some (_, record) => keys_of self (Record_.reads record) | None => Done [] end.

Definition outputs_of self (id : DerivationId) : outcome (list K) :=
  match record self id with Some (_, record) => keys_of self (Record_.outputs record) | None => Done [] end.

Definition contains self (id : DerivationId) : bool := bool_decide (is_Some (record self id)).

Definition producers self (key : K) : outcome (list DerivationId) :=
  match KeyTable.find (table self) key with
  | Some slot => producers ← KeyTable.producers (table self) slot; ids_of self producers
  | None => Done []
  end.

Definition derivations_of_file self (file_id : FileId) : outcome (list DerivationId) :=
  ids_of self (elements (default ∅ (by_file self !! file_id))).

Fixpoint moved_of self (deriv : DerivIdx) (pairs : list (KeyIdx * Fingerprint)) : outcome (list (KeyIdx * Fingerprint)) :=
  match pairs with
  | [] => Done []
  | (slot, fingerprint) :: pairs =>
      e ← KeyTable.entry (table self) slot;
      seen ← Readers.seen_by (readers e) deriv;
      rest ← moved_of self deriv pairs;
      Done (if negb (N.eqb seen fingerprint) && negb (from_option is_stage_rule false (slot_key e))
            then (slot, fingerprint) :: rest else rest)
  end.

Definition moved_fingerprints self (id : DerivationId) (fingerprints : list Fingerprint) : outcome (list (KeyIdx * Fingerprint)) :=
  match record self id with
  | Some (deriv, record) => moved_of self deriv (zip (Record_.reads record) fingerprints)
  | None => Done []
  end.

Definition set_fingerprints self (id : DerivationId) (moved : list (KeyIdx * Fingerprint)) : outcome (ReaderGraph K) :=
  match deriv_slot self id with
  | None => Done self
  | Some deriv =>
      for_graph (fun self slot_seen =>
        on_table self (KeyTable.update (table self) (slot_seen : KeyIdx * Fingerprint).1
          (fun e => KeySlot.with_readers e (Readers.insert (readers e) deriv slot_seen.2)))) moved self
  end.

Definition read_other_than self (key : K) (current : Fingerprint) : outcome bool :=
  match KeyTable.find (table self) key with
  | None => Done false
  | Some slot =>
      e ← KeyTable.entry (table self) slot;
      Done (if Readers.is_empty (readers e) then false
            else existsb (fun g : Fingerprint * list DerivIdx => negb (N.eqb g.1 current)) (Readers.groups (readers e)))
  end.

Definition rebase_readers self (key : K) (from to : Fingerprint) : outcome (ReaderGraph K) :=
  match KeyTable.find (table self) key with
  | Some slot =>
      on_table self (KeyTable.update (table self) slot (fun e => KeySlot.with_readers e (Readers.relabel (readers e) from to)))
  | None => Done self
  end.

(** [None] is the fingerprint as it stands, [Some UNSEEN] one that never holds. *)
Fixpoint seen_by_member self (slots : list KeyIdx) (ended : N) (reset_before : K -> bool)
    : outcome (list (KeyIdx * option Fingerprint)) :=
  match slots with
  | [] => Done []
  | slot :: slots =>
      e ← KeyTable.entry (table self) slot;
      moved ← (if (ended <? written e)%N then k ← key self slot; Done (negb (reset_before k)) else Done false);
      rest ← seen_by_member self slots ended reset_before;
      Done ((slot, if (moved : bool) then Some UNSEEN else None) :: rest)
  end.

(** The other files whose derivations read a fact that each file owns. *)
Definition dependents_of_slot self (dependents : gmap FileId (gset FileId)) (e : KeySlot K) : outcome (gmap FileId (gset FileId)) :=
  match key ← slot_key e; owning_file key with
  | None => Done dependents
  | Some owner =>
      readers ← seen_ids self (Readers.iter (readers e));
      Done (foldl (fun dependents reader =>
        if negb (bool_decide (deriv_kind reader = Diagnostics)) && negb (bool_decide (deriv_file reader = owner))
           && negb (bool_decide (deriv_file reader = DerivationId.VIRTUAL))
        then <[owner := default ∅ (dependents !! owner) ∪ {[deriv_file reader]}]> dependents
        else dependents) dependents readers.*1)
  end.

Definition dependent_files self : outcome (gmap FileId (gset FileId)) :=
  foldl (fun dependents e => dependents ← dependents; dependents_of_slot self dependents e) (Done ∅) (keys (table self)).
End Graph.
End ReaderGraph.
