(* ===== verification/KeyTableProofs.v ===== *)
(** * The table of fact keys is sound

    The marks of a slot, the index of the keys, and what interning and the
    changes of producers and readers keep. *)

From S2P Require Import Prelude FileOrder Derivation Readers ReadersProofs KeyTable.
From stdpp Require Import list gmap.

(** ** Marks *)

Lemma no_producer_ones : NO_PRODUCER = N.ones 29.
Proof. done. Qed.

Lemma not_u32_spec mark n : N.testbit (not_u32 mark) n = xorb (N.testbit mark n) (n <? 32)%N.
Proof.
  unfold not_u32. rewrite N.lxor_spec. f_equal. change (2 ^ 32 - 1)%N with (N.ones 32).
  destruct (N.ltb_spec n 32); [by apply N.ones_spec_low|by apply N.ones_spec_high].
Qed.

Lemma producer_of_spec m n : N.testbit (producer_of m) n = (N.testbit m n && (n <? 29)%N)%bool.
Proof.
  unfold producer_of. rewrite N.land_spec, no_producer_ones. f_equal.
  destruct (N.ltb_spec n 29); [by apply N.ones_spec_low|by apply N.ones_spec_high].
Qed.

Lemma marked_in_spec m k : marked_in m (2 ^ k) = N.testbit m k.
Proof.
  unfold marked_in. destruct (N.testbit m k) eqn:Hb.
  - apply negb_true_iff, N.eqb_neq. intros H0. assert (H : N.testbit (N.land m (2 ^ k)) k = false) by (by rewrite H0, N.bits_0).
    rewrite N.land_spec, Hb, N.pow2_bits_true in H. done.
  - apply negb_false_iff, N.eqb_eq, N.bits_inj_0. intros n. rewrite N.land_spec.
    destruct (N.eq_dec n k) as [->|Hne]; [by rewrite Hb|]. rewrite N.pow2_bits_false by done. by rewrite andb_false_r.
Qed.

Lemma high_bit d n : (d <= NO_PRODUCER)%N -> (29 <= n)%N -> N.testbit d n = false.
Proof.
  intros Hd Hn. destruct (N.eq_dec d 0%N) as [->|]; [apply N.bits_0|]. apply N.bits_above_log2.
  assert (N.log2 d <= N.log2 NO_PRODUCER)%N by (by apply N.log2_le_mono). change (N.log2 NO_PRODUCER) with 28%N in *. lia.
Qed.

Lemma producer_set_producer m d : (d <= NO_PRODUCER)%N -> producer_of (set_producer_in m d) = d.
Proof.
  intros Hd. apply N.bits_inj. intros n. rewrite producer_of_spec. unfold set_producer_in.
  rewrite N.lor_spec, N.land_spec, not_u32_spec. rewrite no_producer_ones.
  destruct (N.ltb_spec n 29) as [Hn|Hn].
  - rewrite N.ones_spec_low by lia. destruct (N.ltb_spec n 32); [|lia]. simpl. by rewrite andb_false_r, andb_true_r.
  - by rewrite andb_false_r, (high_bit d n).
Qed.

Lemma marked_set_producer m d k :
  (d <= NO_PRODUCER)%N -> (29 <= k < 32)%N -> marked_in (set_producer_in m d) (2 ^ k) = marked_in m (2 ^ k).
Proof.
  intros Hd Hk. rewrite !marked_in_spec. unfold set_producer_in.
  rewrite N.lor_spec, N.land_spec, not_u32_spec, no_producer_ones, (high_bit d k) by (done || lia).
  rewrite N.ones_spec_high by lia. destruct (N.ltb_spec k 32); [|lia]. simpl. by rewrite andb_true_r, orb_false_r.
Qed.

Lemma producer_set_mark m k on : (29 <= k < 32)%N -> producer_of (set_mark_in m (2 ^ k) on) = producer_of m.
Proof.
  intros Hk. apply N.bits_inj. intros n. rewrite !producer_of_spec. unfold set_mark_in.
  destruct (N.ltb_spec n 29) as [Hn|Hn]; [|by rewrite !andb_false_r]. rewrite !andb_true_r. destruct on.
  - rewrite N.lor_spec, N.pow2_bits_false by lia. by rewrite orb_false_r.
  - rewrite N.land_spec, not_u32_spec, N.pow2_bits_false by lia. destruct (N.ltb_spec n 32); [|lia]. by rewrite andb_true_r.
Qed.

Lemma marked_set_mark m k on : (k < 32)%N -> marked_in (set_mark_in m (2 ^ k) on) (2 ^ k) = on.
Proof.
  intros Hk. rewrite marked_in_spec. unfold set_mark_in. destruct on.
  - by rewrite N.lor_spec, N.pow2_bits_true, orb_true_r.
  - rewrite N.land_spec, not_u32_spec, N.pow2_bits_true. destruct (N.ltb_spec k 32); [|lia]. by rewrite andb_false_r.
Qed.

Lemma marked_set_other m j k on : (j < 32)%N -> (k < 32)%N -> j <> k -> marked_in (set_mark_in m (2 ^ k) on) (2 ^ j) = marked_in m (2 ^ j).
Proof.
  intros Hj Hk Hne. rewrite !marked_in_spec. unfold set_mark_in. destruct on.
  - by rewrite N.lor_spec, N.pow2_bits_false, orb_false_r by done.
  - rewrite N.land_spec, not_u32_spec, N.pow2_bits_false by done. destruct (N.ltb_spec j 32); [|lia]. by rewrite andb_true_r.
Qed.

Lemma filter_none {A} (P : A -> Prop) `{!forall x, Decision (P x)} (l : list A) : (forall x, x ∈ l -> ~ P x) -> filter P l = [].
Proof.
  intros Hn. destruct (filter P l) as [|x l'] eqn:Hf; [done|]. assert (Hx : x ∈ filter P l) by (rewrite Hf; by left).
  apply list_elem_of_filter in Hx as [? Hin]. by destruct (Hn x Hin).
Qed.

Lemma done_bind {A B} (a : A) (f : A -> outcome B) : (Done a ≫= f) = f a.
Proof. done. Qed.

(** ** The index *)

Section Table.
Context {K : Type} `{HK : FactKeys K}.
Implicit Types t : KeyTable K.

(** The part of the table that says which slot has which key. *)
Record index_ok t : Prop := {
  ix_filed : NoDup (filed_slot <$> key_slots t);
  ix_live : forall f, f ∈ key_slots t -> exists k, KeyTable.live_key t (filed_slot f) = Some k /\ filed_hash f = hash_half k;
  ix_found : forall s k, KeyTable.live_key t s = Some k -> s ∈ filed_slot <$> key_slots t;
  ix_one : forall s1 s2 k, KeyTable.live_key t s1 = Some k -> KeyTable.live_key t s2 = Some k -> s1 = s2;
  ix_free : NoDup (free_keys t ++ retired t);
  ix_dead : forall s, s ∈ free_keys t ++ retired t -> s < length (keys t) /\ KeyTable.live_key t s = None
}.

(** The lists of the keys read out of each base: all live keys but those of
    [except] are in the list of their base; [freed] counts the slots of each
    list that were freed already. *)
Record derived_inv t (except : gset KeyIdx) (freed : gmap KeyIdx nat) : Prop := {
  dv_lists : forall b d, derived t !! b = Some d -> derived_slots_of d <> [] /\ NoDup (derived_slots_of d)
    /\ (forall s k, s ∈ derived_slots_of d -> KeyTable.live_key t s = Some k ->
          exists kb, base k = Some kb /\ KeyTable.live_key t b = Some kb)
    /\ length (filter (fun s => KeyTable.live_key t s = None) (derived_slots_of d)) = default 0 (freed !! b)
    /\ forall s, s ∈ derived_slots_of d -> s < length (keys t) /\ s ∉ except;
  dv_bases : forall s k kb, KeyTable.live_key t s = Some k -> base k = Some kb -> s ∉ except ->
    exists b d, KeyTable.live_key t b = Some kb /\ derived t !! b = Some d /\ s ∈ derived_slots_of d;
  dv_freed : forall b n, freed !! b = Some n -> is_Some (derived t !! b)
}.

Definition derived_ok t : Prop := derived_inv t ∅ ∅.

(** A slot that is free has no readers and no producers. *)
Record slots_ok t : Prop := {
  sl_readers : forall s e, keys t !! s = Some e -> readers_ok (readers e);
  sl_dead : forall s e, keys t !! s = Some e -> slot_key e = None -> readers e = None_ /\ producer_of (marks e) = NO_PRODUCER;
  sl_more : forall s e, keys t !! s = Some e -> marked_in (marks e) MORE_PRODUCERS = bool_decide (is_Some (more_producers t !! s));
  sl_lists : forall s l, more_producers t !! s = Some l -> exists e, keys t !! s = Some e /\ l <> []
    /\ producer_of (marks e) <> NO_PRODUCER /\ NoDup (N.to_nat (producer_of (marks e)) :: l)
    /\ forall d, d ∈ l -> (N.of_nat d < NO_PRODUCER)%N
}.

Record table_ok t : Prop := {
  tb_index : index_ok t;
  tb_derived : derived_ok t;
  tb_slots : slots_ok t
}.

Lemma live_entry t s k : KeyTable.live_key t s = Some k -> exists e, keys t !! s = Some e /\ slot_key e = Some k.
Proof. unfold KeyTable.live_key. intros (e & He & Hk)%bind_Some. by exists e. Qed.

Lemma find_live t k s : index_ok t -> KeyTable.find t k = Some s <-> KeyTable.live_key t s = Some k.
Proof.
  intros Hix. unfold KeyTable.find. split.
  - intros (f & Hf & ->)%fmap_Some. apply find_some in Hf as [_ Hf]. unfold KeyTable.files in Hf.
    apply andb_true_iff in Hf as [_ Hf]. by apply bool_decide_eq_true in Hf.
  - intros Hk. destruct (List.find (KeyTable.files t k) (key_slots t)) as [f|] eqn:Hf; simpl.
    + apply find_some in Hf as [_ Hf]. unfold KeyTable.files in Hf. apply andb_true_iff in Hf as [_ Hf].
      apply bool_decide_eq_true in Hf. f_equal. by eapply (ix_one t Hix).
    + exfalso. pose proof (ix_found t Hix _ _ Hk) as (f & -> & Hin)%list_elem_of_fmap.
      eapply find_none in Hf; [|by apply list_elem_of_In]. destruct (ix_live t Hix f Hin) as (k' & Hk' & Hh).
      rewrite Hk in Hk'. injection Hk' as <-. unfold KeyTable.files in Hf. rewrite Hh, N.eqb_refl, bool_decide_true in Hf; done.
Qed.

Lemma find_none_live t k : index_ok t -> KeyTable.find t k = None -> forall s, KeyTable.live_key t s <> Some k.
Proof. intros Hix Hf s Hs%find_live; [congruence|done]. Qed.

Lemma live_key_update t s f :
  (forall e, slot_key (f e) = slot_key e) ->
  forall t', KeyTable.update t s f = Done t' -> forall s', KeyTable.live_key t' s' = KeyTable.live_key t s'.
Proof.
  intros Hf t' Ht' s'. unfold KeyTable.update, KeyTable.entry in Ht'. destruct (keys t !! s) as [e|] eqn:He; [|done].
  simpl in Ht'. injection Ht' as <-. unfold KeyTable.live_key. simpl. destruct (decide (s' = s)) as [->|Hne].
  - rewrite list_lookup_insert_eq by (by eapply lookup_lt_Some). rewrite He. simpl. apply Hf.
  - by rewrite list_lookup_insert_ne.
Qed.

Lemma update_done t s e f :
  keys t !! s = Some e -> KeyTable.update t s f = Done (KeyTable.with_keys t (<[s := f e]> (keys t))).
Proof. intros He. unfold KeyTable.update, KeyTable.entry. by rewrite He. Qed.

(** *** Interning *)

(** What does not depend on the keys of the table. *)
Definition readers_at t (s : KeyIdx) : Readers := from_option readers None_ (keys t !! s).
Definition marks_at t (s : KeyIdx) : N := from_option marks NO_PRODUCER (keys t !! s).

(** New keys have come, without a cached fingerprint, and nothing else. *)
Record grows t t' : Prop := {
  gr_len : length (keys t) <= length (keys t');
  gr_new : forall s e, keys t' !! s = Some e -> slot_key e <> None -> keys t !! s = Some e \/ current_generation e = NO_GENERATION;
  gr_live : forall s e, keys t !! s = Some e -> slot_key e <> None -> keys t' !! s = Some e;
  gr_readers : forall s, readers_at t' s = readers_at t s;
  gr_marks : forall s, marks_at t' s = marks_at t s;
  gr_more : more_producers t' = more_producers t
}.

Lemma grows_refl t : grows t t.
Proof. split; [done|by left|done..]. Qed.

Lemma grows_trans t1 t2 t3 : grows t1 t2 -> grows t2 t3 -> grows t1 t3.
Proof.
  intros [N1 W1 L1 R1 M1 P1] [N2 W2 L2 R2 M2 P2]. split.
  - lia.
  - intros s e He Hk. destruct (W2 s e He Hk) as [He'|]; [|by right]. by apply W1.
  - intros s e He Hk. by apply L2, Hk; apply L1.
  - intros s. by rewrite R2.
  - intros s. by rewrite M2.
  - by rewrite P2.
Qed.

Lemma grows_live t t' s k : grows t t' -> KeyTable.live_key t s = Some k -> KeyTable.live_key t' s = Some k.
Proof.
  intros Hg (e & He & Hk)%live_entry. unfold KeyTable.live_key. rewrite (gr_live _ _ Hg s e He) by congruence. done.
Qed.

Lemma collect_retired_same t :
  key_slots (KeyTable.collect_retired t) = key_slots t /\ keys (KeyTable.collect_retired t) = keys t
  /\ free_keys (KeyTable.collect_retired t) ++ retired (KeyTable.collect_retired t) ≡ₚ free_keys t ++ retired t
  /\ derived (KeyTable.collect_retired t) = derived t
  /\ more_producers (KeyTable.collect_retired t) = more_producers t.
Proof.
  unfold KeyTable.collect_retired. destruct (retirement t) as [[|]|]; split_and!; try done. simpl. by rewrite app_nil_r.
Qed.

(** Only the keys, the index and the free slots matter. *)
Lemma index_ok_same t t' :
  key_slots t' = key_slots t -> keys t' = keys t -> free_keys t' ++ retired t' ≡ₚ free_keys t ++ retired t ->
  index_ok t -> index_ok t'.
Proof.
  intros Hks Hk Hf [H1 H2 H3 H4 H5 H6].
  assert (Hl : forall s, KeyTable.live_key t' s = KeyTable.live_key t s) by (intros s; unfold KeyTable.live_key; by rewrite Hk).
  split.
  - by rewrite Hks.
  - intros f Hin. rewrite Hks in Hin. setoid_rewrite Hl. by apply H2.
  - intros s k. rewrite Hl, Hks. apply H3.
  - intros s1 s2 k. rewrite !Hl. apply H4.
  - by rewrite Hf.
  - intros s. rewrite Hf, Hl, Hk. apply H6.
Qed.

Lemma derived_inv_same t t' except freed :
  keys t' = keys t -> derived t' = derived t -> derived_inv t except freed -> derived_inv t' except freed.
Proof.
  intros Hk Hd [H1 H2 H3].
  assert (Hl : forall s, KeyTable.live_key t' s = KeyTable.live_key t s) by (intros s; unfold KeyTable.live_key; by rewrite Hk).
  split.
  - intros b d. rewrite Hd. intros Hb. destruct (H1 b d Hb) as (? & ? & Hx & Hc & ?). split_and!; [done|done| | |by rewrite Hk].
    + intros s k Hs. rewrite !Hl. by apply Hx.
    + rewrite <- Hc. f_equal. apply list_filter_iff. intros s. by rewrite Hl.
  - intros s k kb. rewrite Hl, Hd. setoid_rewrite Hl. apply H2.
  - intros b n. rewrite Hd. apply H3.
Qed.

Lemma slots_ok_same t t' : keys t' = keys t -> more_producers t' = more_producers t -> slots_ok t -> slots_ok t'.
Proof. intros Hk Hm [H1 H2 H3 H4]. split; rewrite Hk, ?Hm; done. Qed.

(** A slot that was taken and has no key yet. *)
Record taken t (s : KeyIdx) : Prop := {
  tk_slot : exists e, keys t !! s = Some e /\ slot_key e = None;
  tk_not_free : s ∉ free_keys t ++ retired t
}.

Lemma new_slot_ok t :
  index_ok t -> slots_ok t -> (N.of_nat (length (keys t)) < 2 ^ 32)%N ->
  exists s t', KeyTable.new_slot t = Done (s, t') /\ index_ok t' /\ slots_ok t' /\ taken t' s
    /\ (forall s', KeyTable.live_key t' s' = KeyTable.live_key t s') /\ grows t t'
    /\ derived t' = derived t /\ length (keys t) <= length (keys t') <= S (length (keys t)).
Proof.
  intros [H1 H2 H3 H4 H5 H6] Hsl Hlen. unfold KeyTable.new_slot. destruct (last (free_keys t)) as [s|] eqn:Hlast.
  - apply last_Some in Hlast as [l Hfree]. exists s. eexists. split; [done|].
    assert (Htake : take (length (free_keys t) - 1) (free_keys t) = l).
    { rewrite Hfree, length_app. simpl. by rewrite Nat.add_sub, take_app_length. }
    rewrite Htake. assert (Hp : free_keys t ++ retired t ≡ₚ s :: l ++ retired t).
    { rewrite Hfree, <- app_assoc. symmetry. apply Permutation_middle. }
    destruct (H6 s) as [Hs Hd]; [rewrite Hp; by left|]. apply lookup_lt_is_Some_2 in Hs as [e He].
    split_and!; simpl; [|by apply (slots_ok_same t)|split; simpl| | |done|lia|lia].
    + split; simpl; [done|done|done|done| |].
      * rewrite Hp in H5. by apply NoDup_cons in H5 as [_ ?].
      * intros s' Hs'. apply H6. rewrite Hp. by right.
    + exists e. split; [done|]. unfold KeyTable.live_key in Hd. rewrite He in Hd. done.
    + rewrite Hp in H5. by apply NoDup_cons in H5 as [? _].
    + done.
    + split; simpl; [done|by left|done..].
  - apply N.ltb_lt in Hlen as Hltb. rewrite Hltb. exists (length (keys t)). eexists. split; [done|].
    assert (Hold : forall s' e, keys t !! s' = Some e -> (keys t ++ [KeySlot.default_ : KeySlot K]) !! s' = Some e).
    { intros s' e He. by apply lookup_app_l_Some. }
    assert (Hlive : forall s', (e ← (keys t ++ [KeySlot.default_ : KeySlot K]) !! s'; slot_key e) = KeyTable.live_key t s').
    { intros s'. unfold KeyTable.live_key. destruct (lt_eq_lt_dec s' (length (keys t))) as [[Hlt| ->]|Hgt].
      - by rewrite lookup_app_l by done.
      - rewrite list_lookup_middle by done. simpl. by rewrite (lookup_ge_None_2 (keys t)) by lia.
      - rewrite !lookup_ge_None_2; [done|lia|rewrite length_app; simpl; lia]. }
    assert (Hcase : forall s' e, (keys t ++ [KeySlot.default_]) !! s' = Some e -> keys t !! s' = Some e \/ (s' = length (keys t) /\ e = KeySlot.default_)).
    { intros s' e He. apply lookup_app_Some in He as [He|[Hge He]]; [by left|right].
      apply list_lookup_singleton_Some in He as [Hz ->]. split; [lia|done]. }
    split_and!; simpl; [| | | | |done|rewrite length_app; simpl; lia|rewrite length_app; simpl; lia].
    + split; simpl.
      * done.
      * intros f Hf. unfold KeyTable.live_key at 1. simpl. rewrite Hlive. by apply H2.
      * intros s' k. unfold KeyTable.live_key at 1. simpl. rewrite Hlive. apply H3.
      * intros s1 s2 k. unfold KeyTable.live_key. simpl. rewrite !Hlive. apply H4.
      * done.
      * intros s' Hs'. unfold KeyTable.live_key. simpl. rewrite Hlive, length_app. destruct (H6 s' Hs'). split; [simpl; lia|done].
    + destruct Hsl as [R1 R2 R3 R4]. split; simpl.
      * intros s' e [He|[_ ->]]%Hcase; [by eapply R1|]. split; [|done]. split; simpl; [by intros g Hg%not_elem_of_nil|constructor|by intros g h d Hg%not_elem_of_nil].
      * intros s' e [He|[_ ->]]%Hcase; [by eapply R2|done].
      * intros s' e [He|[-> ->]]%Hcase; [by eapply R3|]. simpl. rewrite bool_decide_false; [done|].
        intros [l Hl]. apply R4 in Hl as (e & He & _). apply lookup_lt_Some in He. lia.
      * intros s' l Hl. destruct (R4 s' l Hl) as (e & He & Hrest). exists e. split; [by apply Hold|done].
    + split; simpl.
      * exists KeySlot.default_. split; [by apply list_lookup_middle|done].
      * intros Hin. apply H6 in Hin as [Hin _]. lia.
    + intros s'. unfold KeyTable.live_key at 1. simpl. apply Hlive.
    + split; simpl; [rewrite length_app; lia|intros s' e [He|[_ ->]]%Hcase ?; [by left|done]|intros s' e He _; by apply Hold| | |done].
      * intros s'. unfold readers_at. simpl. destruct (keys t !! s') as [e|] eqn:He; [by rewrite (Hold s' e He)|].
        destruct ((keys t ++ [KeySlot.default_]) !! s') as [e|] eqn:He'; [|done]. apply Hcase in He' as [?|[_ ->]]; [congruence|done].
      * intros s'. unfold marks_at. simpl. destruct (keys t !! s') as [e|] eqn:He; [by rewrite (Hold s' e He)|].
        destruct ((keys t ++ [KeySlot.default_]) !! s') as [e|] eqn:He'; [|done]. apply Hcase in He' as [?|[_ ->]]; [congruence|done].
Qed.

(** The slot is filled. *)
Lemma fill_slot_eq t s k now :
  taken t s ->
  exists e t', keys t !! s = Some e /\ slot_key e = None /\ KeyTable.fill_slot t s k now = Done t'
    /\ keys t' = <[s := mkSlot (Some k) (readers e) (marks e) (current e) NO_GENERATION 0%N now]> (keys t)
    /\ key_slots t' = key_slots t ++ [mkFiled s (hash_half k)]
    /\ free_keys t' = free_keys t /\ retired t' = retired t /\ derived t' = derived t /\ more_producers t' = more_producers t.
Proof.
  intros [(e & He & Hk) _]. exists e. unfold KeyTable.fill_slot.
  destruct (positional t) as [p|]; (rewrite (update_done _ s e) by done); eexists; split_and!; done.
Qed.

Lemma live_key_insert t t' s (e' : KeySlot K) s' :
  keys t' = <[s := e']> (keys t) -> s < length (keys t) ->
  KeyTable.live_key t' s' = if decide (s' = s) then slot_key e' else KeyTable.live_key t s'.
Proof.
  intros Hk Hs. unfold KeyTable.live_key. rewrite Hk. destruct (decide (s' = s)) as [->|Hne].
  - by rewrite list_lookup_insert_eq.
  - by rewrite list_lookup_insert_ne.
Qed.

Lemma fill_index t s k now t' :
  index_ok t -> taken t s -> (forall s', KeyTable.live_key t s' <> Some k) ->
  KeyTable.fill_slot t s k now = Done t' -> index_ok t'.
Proof.
  intros [H1 H2 H3 H4 H5 H6] Htk Hnew Ht'.
  destruct (fill_slot_eq t s k now Htk) as (e & t'' & He & Hdead & Heq & Hk & Hks & Hf & Hr & _ & _).
  rewrite Heq in Ht'. injection Ht' as ->. assert (Hs := lookup_lt_Some _ _ _ He).
  assert (Hl : forall s', KeyTable.live_key t' s' = if decide (s' = s) then Some k else KeyTable.live_key t s').
  { intros s'. by rewrite (live_key_insert t t' s _ s' Hk Hs). }
  assert (Hnone : KeyTable.live_key t s = None) by (unfold KeyTable.live_key; by rewrite He).
  assert (Hnf : s ∉ filed_slot <$> key_slots t).
  { intros (f & -> & Hin)%list_elem_of_fmap. destruct (H2 f Hin) as (k' & Hk' & _). congruence. }
  split.
  - rewrite Hks, fmap_app. apply NoDup_app. split_and!; [done| |apply NoDup_singleton].
    intros x Hx ->%list_elem_of_singleton. done.
  - intros f. rewrite Hks, elem_of_app, list_elem_of_singleton. intros [Hin| ->].
    + destruct (H2 f Hin) as (k' & Hk' & Hh). exists k'. rewrite Hl. destruct (decide _) as [Heqs|]; [congruence|done].
    + exists k. rewrite Hl. by rewrite decide_True.
  - intros s' k'. rewrite Hl, Hks, fmap_app, elem_of_app. destruct (decide _) as [->|].
    + right. by left.
    + intros Hk'. left. by eapply H3.
  - intros s1 s2 k'. rewrite !Hl. destruct (decide (s1 = s)) as [->|], (decide (s2 = s)) as [->|]; [done| | |apply H4].
    + intros [= <-] H. by destruct (Hnew s2).
    + intros H [= <-]. by destruct (Hnew s1).
  - by rewrite Hf, Hr.
  - intros s'. rewrite Hf, Hr, Hl, Hk, length_insert. intros Hin. destruct (H6 s' Hin) as [? ?]. split; [done|].
    rewrite decide_False; [done|]. intros ->. by apply (tk_not_free t s Htk).
Qed.

(** No dead slot is in a list. *)
Lemma listed_live t E b d s : derived_inv t E ∅ -> derived t !! b = Some d -> s ∈ derived_slots_of d -> is_Some (KeyTable.live_key t s).
Proof.
  intros Hd Hb Hs. destruct (dv_lists t E ∅ Hd b d Hb) as (_ & _ & _ & Hc & _).
  rewrite lookup_empty in Hc. simpl in Hc. apply length_zero_iff_nil in Hc. destruct (KeyTable.live_key t s) eqn:Hl; [done|].
  assert (Hin : s ∈ filter (fun s => KeyTable.live_key t s = None) (derived_slots_of d)) by (apply list_elem_of_filter; done).
  rewrite Hc in Hin. by apply not_elem_of_nil in Hin.
Qed.

Lemma fill_derived t s k now t' E :
  taken t s -> KeyTable.fill_slot t s k now = Done t' -> derived_inv t E ∅ -> derived_inv t' ({[s]} ∪ E) ∅.
Proof.
  intros Htk Ht' Hd. destruct (fill_slot_eq t s k now Htk) as (e & t'' & He & Hdead & Heq & Hk & _ & _ & _ & Hdv & _).
  rewrite Heq in Ht'. injection Ht' as ->. assert (Hs := lookup_lt_Some _ _ _ He).
  assert (Hl : forall s', KeyTable.live_key t' s' = if decide (s' = s) then Some k else KeyTable.live_key t s').
  { intros s'. by rewrite (live_key_insert t t' s _ s' Hk Hs). }
  assert (Hnone : KeyTable.live_key t s = None) by (unfold KeyTable.live_key; by rewrite He).
  assert (Hkeep : forall s' k', KeyTable.live_key t s' = Some k' -> KeyTable.live_key t' s' = Some k').
  { intros s' k' Hk'. rewrite Hl, decide_False; [done|]. intros ->. congruence. }
  assert (Hnl : forall b d, derived t !! b = Some d -> s ∉ derived_slots_of d).
  { intros b d Hb Hin. destruct (listed_live t E b d s Hd Hb Hin). congruence. }
  split.
  - intros b d. rewrite Hdv. intros Hb. destruct (dv_lists t E ∅ Hd b d Hb) as (Hne & Hnd & Hx & Hc & Hlen).
    split_and!; [done|done| | |].
    + intros s' k' Hin. rewrite Hl. destruct (decide _) as [->|]; [by destruct (Hnl b d Hb)|]. intros Hk'.
      destruct (Hx s' k' Hin Hk') as (kb & ? & ?). exists kb. split; [done|]. by apply Hkeep.
    + rewrite <- Hc. f_equal. apply filter_iff_in. intros s' Hin. rewrite Hl. destruct (decide _) as [->|]; [by destruct (Hnl b d Hb)|done].
    + intros s' Hin. rewrite Hk, length_insert. destruct (Hlen s' Hin). split; [done|]. rewrite elem_of_union, elem_of_singleton.
      intros [->|]; [by destruct (Hnl b d Hb)|done].
  - intros s' k' kb. rewrite Hl. rewrite not_elem_of_union, not_elem_of_singleton. intros Hk' Hb [Hne Hne2].
    rewrite decide_False in Hk' by done. destruct (dv_bases t E ∅ Hd s' k' kb Hk' Hb Hne2) as (b & d & H1 & H2 & H3).
    exists b, d. rewrite Hdv. split_and!; [|done|done]. by apply Hkeep.
  - intros b n Hb. by rewrite lookup_empty in Hb.
Qed.

Lemma fill_slots_ok t s k now t' : taken t s -> KeyTable.fill_slot t s k now = Done t' -> slots_ok t -> slots_ok t'.
Proof.
  intros Htk Ht' [R1 R2 R3 R4]. destruct (fill_slot_eq t s k now Htk) as (e & t'' & He & Hdead & Heq & Hk & _ & _ & _ & _ & Hm).
  rewrite Heq in Ht'. injection Ht' as ->. assert (Hs := lookup_lt_Some _ _ _ He).
  assert (Hc : forall s' e', keys t' !! s' = Some e' -> exists e0, keys t !! s' = Some e0 /\ readers e' = readers e0 /\ marks e' = marks e0
            /\ (slot_key e' = None -> slot_key e0 = None)).
  { intros s' e'. rewrite Hk. destruct (decide (s' = s)) as [->|Hne].
    - rewrite list_lookup_insert_eq by done. intros [= <-]. by exists e.
    - rewrite list_lookup_insert_ne by done. intros He'. by exists e'. }
  split.
  - intros s' e' (e0 & H0 & -> & _)%Hc. by eapply R1.
  - intros s' e' (e0 & H0 & -> & -> & Hd)%Hc Hn. by eapply R2, Hd.
  - intros s' e' (e0 & H0 & _ & -> & _)%Hc. rewrite Hm. by apply R3.
  - intros s' l. rewrite Hm. intros (e0 & H0 & Hrest)%R4. rewrite Hk. destruct (decide (s' = s)) as [->|Hne].
    + rewrite list_lookup_insert_eq by done. rewrite He in H0. injection H0 as <-. eexists. split; [done|]. done.
    + rewrite list_lookup_insert_ne by done. by exists e0.
Qed.

Lemma fill_grows t s k now t' : taken t s -> KeyTable.fill_slot t s k now = Done t' -> grows t t'.
Proof.
  intros Htk Ht'. destruct (fill_slot_eq t s k now Htk) as (e & t'' & He & Hdead & Heq & Hk & _ & _ & _ & _ & Hm).
  rewrite Heq in Ht'. injection Ht' as ->. assert (Hs := lookup_lt_Some _ _ _ He). split; [by rewrite Hk, length_insert| | | | |done].
  - intros s' e'. rewrite Hk. destruct (decide (s' = s)) as [->|Hne].
    + rewrite list_lookup_insert_eq by done. intros [= <-]. by right.
    + rewrite list_lookup_insert_ne by done. by left.
  - intros s' e' He' Hk'. rewrite Hk, list_lookup_insert_ne; [done|]. intros ->. congruence.
  - intros s'. unfold readers_at. rewrite Hk. destruct (decide (s' = s)) as [->|Hne].
    + by rewrite list_lookup_insert_eq, He.
    + by rewrite list_lookup_insert_ne.
  - intros s'. unfold marks_at. rewrite Hk. destruct (decide (s' = s)) as [->|Hne].
    + by rewrite list_lookup_insert_eq, He.
    + by rewrite list_lookup_insert_ne.
Qed.

(** The base's list takes the new slot. *)
Lemma add_derived_ok t E s sb k kb :
  index_ok t -> derived_inv t ({[s]} ∪ E) ∅ -> s ∉ E -> KeyTable.live_key t s = Some k -> base k = Some kb -> KeyTable.live_key t sb = Some kb ->
  derived_inv (KeyTable.add_derived t sb s) E ∅.
Proof.
  intros Hix Hd HsE Hs Hb Hsb. set (d0 := default no_derived (derived t !! sb)).
  assert (Hold : derived_slots_of d0 = from_option derived_slots_of [] (derived t !! sb)) by (unfold d0; by destruct (derived t !! sb)).
  assert (Hnot : forall b d, derived t !! b = Some d -> s ∉ derived_slots_of d).
  { intros b d Hbd Hin. destruct (dv_lists _ _ _ Hd b d Hbd) as (_ & _ & _ & _ & Hlt). destruct (Hlt s Hin) as [_ Hn]. set_solver. }
  assert (Hfrom : forall x, x ∈ derived_slots_of d0 -> derived t !! sb = Some d0).
  { intros x. rewrite Hold. unfold d0. destruct (derived t !! sb); [done|]. intros Hx. by apply not_elem_of_nil in Hx. }
  assert (Hlive : forall b d x, derived t !! b = Some d -> x ∈ derived_slots_of d -> is_Some (KeyTable.live_key t x)).
  { intros b d x. by apply (listed_live t ({[s]} ∪ E)). }
  split.
  - intros b d. unfold KeyTable.add_derived. simpl. fold d0. rewrite lookup_insert. destruct (decide (sb = b)) as [<-|Hne].
    + intros [= <-]. simpl. split_and!.
      * by destruct (derived_slots_of d0).
      * apply NoDup_app. split_and!; [|intros x Hx ->%list_elem_of_singleton; by apply (Hnot sb d0 (Hfrom s Hx))|apply NoDup_singleton].
        rewrite Hold. destruct (derived t !! sb) as [d|] eqn:Hl; [|constructor]. by apply (dv_lists _ _ _ Hd sb d).
      * intros x k' [Hx| ->%list_elem_of_singleton]%elem_of_app Hk'.
        -- destruct (dv_lists _ _ _ Hd sb d0 (Hfrom x Hx)) as (_ & _ & Hlist & _). by apply (Hlist x).
        -- change (KeyTable.live_key t s = Some k') in Hk'. rewrite Hs in Hk'. injection Hk' as <-. by exists kb.
      * rewrite lookup_empty. simpl. apply length_zero_iff_nil, filter_none. intros x [Hx| ->%list_elem_of_singleton]%elem_of_app Hn.
        -- destruct (Hlive sb d0 x (Hfrom x Hx) Hx) as [? Hx']. change (KeyTable.live_key t x = None) in Hn. congruence.
        -- change (KeyTable.live_key t s = None) in Hn. congruence.
      * intros x [Hx| ->%list_elem_of_singleton]%elem_of_app.
        -- destruct (dv_lists _ _ _ Hd sb d0 (Hfrom x Hx)) as (_ & _ & _ & _ & Hlt). destruct (Hlt x Hx). set_solver.
        -- split; [|done]. apply live_entry in Hs as (e & He & _). by eapply lookup_lt_Some.
    + intros Hbd. destruct (dv_lists _ _ _ Hd b d Hbd) as (H1 & H2 & H3 & H4 & H5). split_and!; [done|done|done|done|].
      intros x Hx. destruct (H5 x Hx). set_solver.
  - intros s' k' kb' Hk' Hb' HE. change (KeyTable.live_key t s' = Some k') in Hk'. unfold KeyTable.add_derived. simpl. fold d0.
    destruct (decide (s' = s)) as [->|Hne].
    + rewrite Hs in Hk'. injection Hk' as <-. rewrite Hb in Hb'. injection Hb' as <-. exists sb. eexists.
      rewrite lookup_insert, decide_True by done. split_and!; [done|done|]. simpl. apply elem_of_app. right. by left.
    + destruct (dv_bases _ _ _ Hd s' k' kb' Hk' Hb') as (b & d & H1 & H2 & H3); [set_solver|]. exists b.
      destruct (decide (b = sb)) as [->|].
      * eexists. rewrite lookup_insert, decide_True by done. split_and!; [done|done|]. simpl. apply elem_of_app. left. unfold d0. by rewrite H2.
      * exists d. rewrite lookup_insert, decide_False by done. done.
  - intros b n Hb'. by rewrite lookup_empty in Hb'.
Qed.

Lemma add_derived_rest t sb s :
  index_ok t -> index_ok (KeyTable.add_derived t sb s).
Proof. by apply index_ok_same. Qed.

(** What interning a key gives; the slots of [E] wait for their bases. *)
Record interned (t t' : KeyTable K) (k : K) (s : KeyIdx) (E : gset KeyIdx) : Prop := {
  in_index : index_ok t';
  in_derived : derived_inv t' E ∅;
  in_slots : slots_ok t';
  in_live : KeyTable.live_key t' s = Some k;
  in_grows : grows t t';
  in_only : forall s' k', KeyTable.live_key t' s' = Some k' -> KeyTable.live_key t s' = Some k' \/ s' = s \/ base k = Some k';
  in_lists : forall b, is_Some (derived t !! b) -> is_Some (derived t' !! b)
}.

Lemma taken_live t s : taken t s -> KeyTable.live_key t s = None.
Proof. intros [(e & He & Hk) _]. unfold KeyTable.live_key. by rewrite He. Qed.

(** The state after a slot was made for a new key. *)
Lemma make_slot_ok t E k now :
  index_ok t -> derived_inv t E ∅ -> slots_ok t -> (forall s, KeyTable.live_key t s <> Some k) ->
  (N.of_nat (length (keys t)) < 2 ^ 32)%N ->
  exists s t1 t2, KeyTable.new_slot t = Done (s, t1) /\ KeyTable.fill_slot t1 s k now = Done t2
    /\ interned t t2 k s ({[s]} ∪ E) /\ KeyTable.live_key t s = None /\ length (keys t2) <= S (length (keys t))
    /\ derived t2 = derived t.
Proof.
  intros Hix Hd Hsl Hnew Hlen. destruct (new_slot_ok t Hix Hsl Hlen) as (s & t1 & Hns & Hix1 & Hsl1 & Htk & Hl1 & Hg1 & Hd1 & Hlen1).
  destruct (fill_slot_eq t1 s k now Htk) as (e & t2 & He & Hdead & Heq & Hk & Hks & Hf & Hr & Hdv & Hm).
  exists s, t1, t2. assert (Hs := lookup_lt_Some _ _ _ He).
  assert (Hl : forall s', KeyTable.live_key t2 s' = if decide (s' = s) then Some k else KeyTable.live_key t s').
  { intros s'. rewrite (live_key_insert t1 t2 s _ s' Hk Hs), Hl1. done. }
  split_and!; [done|done| |rewrite <- Hl1; by apply taken_live|rewrite Hk, length_insert; lia|by rewrite Hdv].
  split.
  - eapply fill_index; [exact Hix1|exact Htk| |exact Heq]. intros s'. by rewrite Hl1.
  - eapply fill_derived; [exact Htk|exact Heq|]. destruct Hd as [D1 D2 D3]. split.
    + intros b d. rewrite Hd1. intros Hbd. destruct (D1 b d Hbd) as (? & ? & Hx & Hc & Hlt). split_and!; [done|done| | |].
      * intros s' k' Hin. rewrite !Hl1. by apply Hx.
      * rewrite <- Hc. f_equal. apply filter_iff_in. intros x _. by rewrite Hl1.
      * intros x Hx'. destruct (Hlt x Hx'). split; [lia|done].
    + intros s' k' kb. rewrite Hl1, Hd1. setoid_rewrite Hl1. apply D2.
    + intros b n. by rewrite lookup_empty.
  - by eapply fill_slots_ok.
  - by rewrite Hl, decide_True.
  - eapply grows_trans; [exact Hg1|]. by eapply fill_grows.
  - intros s' k'. rewrite Hl. destruct (decide _); [by right; left|by left].
  - intros b. by rewrite Hdv, Hd1.
Qed.

Lemma collect_retired_ok t E :
  index_ok t -> derived_inv t E ∅ -> slots_ok t ->
  index_ok (KeyTable.collect_retired t) /\ derived_inv (KeyTable.collect_retired t) E ∅ /\ slots_ok (KeyTable.collect_retired t)
  /\ keys (KeyTable.collect_retired t) = keys t /\ grows t (KeyTable.collect_retired t)
  /\ derived (KeyTable.collect_retired t) = derived t.
Proof.
  intros Hix Hd Hsl. destruct (collect_retired_same t) as (H1 & H2 & H3 & H4 & H5). split_and!.
  - by apply (index_ok_same t).
  - by apply (derived_inv_same t).
  - by apply (slots_ok_same t).
  - done.
  - split; rewrite ?H2; [done|by left|done| | |done]; intros s; unfold readers_at, marks_at; by rewrite H2.
  - done.
Qed.

Lemma live_same_keys t t' : keys t' = keys t -> forall s, KeyTable.live_key t' s = KeyTable.live_key t s.
Proof. intros H s. unfold KeyTable.live_key. by rewrite H. Qed.

(** A slot without a base waits for none. *)
Lemma derived_flat t s k E : KeyTable.live_key t s = Some k -> base k = None -> derived_inv t ({[s]} ∪ E) ∅ -> derived_inv t E ∅.
Proof.
  intros Hs Hb [D1 D2 D3]. split; [|intros s' k' kb Hk' Hb' HE|done].
  - intros b d Hbd. destruct (D1 b d Hbd) as (? & ? & ? & ? & Hlt). split_and!; [done..|]. intros x Hx. destruct (Hlt x Hx). set_solver.
  - apply (D2 s' k' kb Hk' Hb'). intros [->%elem_of_singleton|]%elem_of_union; [|done]. congruence.
Qed.

(** A key that is not read out of another. *)
Lemma intern_flat fuel t E k now :
  base k = None -> index_ok t -> derived_inv t E ∅ -> slots_ok t -> (N.of_nat (length (keys t)) < 2 ^ 32)%N ->
  exists s c t', KeyTable.intern_created_by (S fuel) t k now = Done (s, c, t') /\ interned t t' k s E
    /\ length (keys t') <= S (length (keys t)).
Proof.
  intros Hb Hix Hd Hsl Hlen. simpl. destruct (collect_retired_ok t E Hix Hd Hsl) as (Hix0 & Hd0 & Hsl0 & Hk0 & Hg0 & Hdv0).
  set (t0 := KeyTable.collect_retired t) in *. assert (Hl0 := live_same_keys t t0 Hk0).
  destruct (KeyTable.find t0 k) as [s|] eqn:Hf.
  - exists s, None, t0. split_and!; [done| |rewrite Hk0; lia]. apply find_live in Hf; [|done]. split; try done.
    + intros s' k'. rewrite Hl0. by left.
    + intros b. by rewrite Hdv0.
  - pose proof (find_none_live t0 k Hix0 Hf) as Hnew. rewrite <- Hk0 in Hlen.
    destruct (make_slot_ok t0 E k now Hix0 Hd0 Hsl0 Hnew Hlen) as (s & t1 & t2 & -> & Hfill & Hin & Hdead & Hlen2 & _).
    exists s, (Some None), t2. rewrite done_bind, Hfill, done_bind, Hb.
    split_and!; [done| |by rewrite Hk0 in Hlen2]. destruct Hin as [I1 I2 I3 I4 I5 I6 I7]. split; try done.
    + by eapply derived_flat.
    + by eapply grows_trans.
    + intros s' k' Hk'. rewrite <- Hl0. by apply I6.
    + intros b. rewrite <- Hdv0. apply I7.
Qed.

(** Interning returns, keeps the table sound and adds no key but the key and
    its base. *)
Lemma intern_created_ok t k now :
  table_ok t -> (N.of_nat (length (keys t)) + 2 <= 2 ^ 32)%N ->
  exists s c t', KeyTable.intern_created t k now = Done (s, c, t') /\ interned t t' k s ∅ /\ length (keys t') <= 2 + length (keys t).
Proof.
  intros [Hix Hd Hsl] Hlen. unfold KeyTable.intern_created.
  remember 1 as n eqn:Hn. cbn [KeyTable.intern_created_by]. subst n.
  destruct (collect_retired_ok t ∅ Hix Hd Hsl) as (Hix0 & Hd0 & Hsl0 & Hk0 & Hg0 & Hdv0).
  set (t0 := KeyTable.collect_retired t) in *. assert (Hl0 := live_same_keys t t0 Hk0).
  destruct (KeyTable.find t0 k) as [s|] eqn:Hf.
  - exists s, None, t0. split_and!; [done| |rewrite Hk0; lia]. apply find_live in Hf; [|done]. split; try done.
    + intros s' k'. rewrite Hl0. by left.
    + intros b. by rewrite Hdv0.
  - pose proof (find_none_live t0 k Hix0 Hf) as Hnew.
    destruct (make_slot_ok t0 ∅ k now Hix0 Hd0 Hsl0 Hnew) as (s & t1 & t2 & -> & Hfill & Hin & Hdead & Hlen2 & _); [rewrite Hk0; lia|].
    rewrite done_bind, Hfill, done_bind. destruct Hin as [I1 I2 I3 I4 I5 I6 I7].
    destruct (base k) as [kb|] eqn:Hb.
    + destruct (intern_flat 0 t2 ({[s]} ∪ ∅) kb now) as (sb & c & t3 & Hi & [J1 J2 J3 J4 J5 J6 J7] & Hlen3);
        [by eapply base_flat|done|done|done|rewrite Hk0 in Hlen2; lia|].
      rewrite Hi, done_bind. eexists _, _, _. split; [done|].
      assert (Hs3 : KeyTable.live_key t3 s = Some k) by by eapply grows_live.
      split; [|simpl; rewrite Hk0 in Hlen2; lia]. split.
      * by apply add_derived_rest.
      * eapply add_derived_ok; [done|done|set_solver|done|done|done].
      * by apply (slots_ok_same t3).
      * done.
      * eapply grows_trans; [exact Hg0|]. eapply grows_trans; [exact I5|]. destruct J5. by split.
      * intros s' k' Hk'. destruct (J6 s' k' Hk') as [Hk2|[->|Hb2]].
        -- destruct (I6 s' k' Hk2) as [H|[H|H]]; [left; by rewrite <- Hl0|by right; left|right; right; congruence].
        -- right; right. change (KeyTable.live_key t3 sb = Some k') in Hk'. congruence.
        -- rewrite (base_flat _ _ Hb) in Hb2. done.
      * intros b Hbd. simpl. apply lookup_insert_is_Some'. right. apply J7, I7. by rewrite Hdv0.
    + eexists _, _, _. split; [done|]. split; [|simpl; rewrite Hk0 in Hlen2; lia]. split; try done.
      * by eapply derived_flat.
      * by eapply grows_trans.
      * intros s' k' Hk'. rewrite <- Hl0. destruct (I6 s' k' Hk') as [H|[H|H]]; [by left|by right; left|congruence].
      * intros b. rewrite <- Hdv0. apply I7.
Qed.
End Table.
