(* ===== verification/KeyUseProofs.v ===== *)
(** * Readers and producers of a key

    What the changes of the readers and of the producers of a slot do to the
    table: the producers as a list without repeats, kept in the slot's marks
    and the table of further producers. *)

From S2P Require Import Prelude FileOrder Derivation Readers ReadersProofs KeyTable KeyTableProofs.
From stdpp Require Import list gmap.

Section Table.
Context {K : Type} `{HK : FactKeys K}.
Implicit Types t : KeyTable K.

(** ** Changes of readers and producers *)

(** What such a change leaves alone. *)
Record tframe t t' : Prop := {
  tf_filed : key_slots t' = key_slots t;
  tf_free : free_keys t' = free_keys t;
  tf_retired : retired t' = retired t;
  tf_derived : derived t' = derived t;
  tf_len : length (keys t') = length (keys t);
  tf_entry : forall s e', keys t' !! s = Some e' -> exists e, keys t !! s = Some e /\ slot_key e' = slot_key e
}.

(** The cached fingerprints are the same. *)
Definition cframe t t' : Prop :=
  forall s e', keys t' !! s = Some e' -> exists e, keys t !! s = Some e /\ slot_key e' = slot_key e
    /\ current e' = current e /\ current_generation e' = current_generation e.

Lemma cframe_refl t : cframe t t.
Proof. intros s e He. by exists e. Qed.

Lemma cframe_trans t1 t2 t3 : cframe t1 t2 -> cframe t2 t3 -> cframe t1 t3.
Proof.
  intros A B s e3 H3. destruct (B s e3 H3) as (e2 & Hi2 & ? & ? & ?). destruct (A s e2 Hi2) as (e1 & Hi1 & ? & ? & ?).
  exists e1. split_and!; [done|congruence..].
Qed.

Lemma tframe_refl t : tframe t t.
Proof. split; try done. intros s e He. by exists e. Qed.

Lemma tframe_trans t1 t2 t3 : tframe t1 t2 -> tframe t2 t3 -> tframe t1 t3.
Proof.
  intros [A1 A2 A3 A4 A5 A6] [B1 B2 B3 B4 B5 B6]. split; try congruence.
  intros s e3 H3. destruct (B6 s e3 H3) as (e2 & Hi2 & ?). destruct (A6 s e2 Hi2) as (e1 & Hi1 & ?).
  exists e1. split; [done|congruence].
Qed.

Lemma tframe_live t t' s : tframe t t' -> KeyTable.live_key t' s = KeyTable.live_key t s.
Proof.
  intros Hf. unfold KeyTable.live_key. destruct (keys t' !! s) as [e'|] eqn:He'; simpl.
  - destruct (tf_entry _ _ Hf s e' He') as (e & -> & ->). done.
  - apply lookup_ge_None in He'. rewrite (tf_len _ _ Hf) in He'. by rewrite (lookup_ge_None_2 _ _ He').
Qed.

Lemma tframe_index t t' : tframe t t' -> index_ok t -> index_ok t'.
Proof.
  intros Hf [H1 H2 H3 H4 H5 H6].
  assert (Hl : forall s, KeyTable.live_key t' s = KeyTable.live_key t s) by (intros s; by apply tframe_live).
  split; rewrite ?(tf_filed _ _ Hf), ?(tf_free _ _ Hf), ?(tf_retired _ _ Hf), ?(tf_len _ _ Hf).
  - done.
  - intros f. rewrite Hl. apply H2.
  - intros s k. rewrite Hl. apply H3.
  - intros s1 s2 k. rewrite !Hl. apply H4.
  - done.
  - intros s. rewrite Hl. apply H6.
Qed.

Lemma tframe_derived t t' E freed : tframe t t' -> derived_inv t E freed -> derived_inv t' E freed.
Proof.
  intros Hf [H1 H2 H3]. assert (Hl : forall s, KeyTable.live_key t' s = KeyTable.live_key t s) by (intros s; by apply tframe_live).
  split; rewrite (tf_derived _ _ Hf).
  - intros b d Hb. destruct (H1 b d Hb) as (? & ? & Hx & Hc & Hlt). split_and!; [done|done| | |by rewrite (tf_len _ _ Hf)].
    + intros s k Hs. rewrite !Hl. by apply Hx.
    + rewrite <- Hc. f_equal. apply filter_iff_in. intros s _. by rewrite Hl.
  - intros s k kb. rewrite Hl. setoid_rewrite Hl. apply H2.
  - done.
Qed.

Lemma insert_frame t t' s e e' :
  key_slots t' = key_slots t -> free_keys t' = free_keys t -> retired t' = retired t -> derived t' = derived t ->
  keys t' = <[s := e']> (keys t) -> keys t !! s = Some e ->
  slot_key e' = slot_key e ->
  tframe t t'.
Proof.
  intros ? ? ? ? Hk He Hsk. split; try done; [by rewrite Hk, length_insert|].
  intros s' e0. rewrite Hk. destruct (decide (s' = s)) as [->|Hne].
  - rewrite list_lookup_insert_eq by (by eapply lookup_lt_Some). intros [= <-]. by exists e.
  - rewrite list_lookup_insert_ne by done. intros He0. by exists e0.
Qed.

Lemma insert_cframe t t' s e e' :
  keys t' = <[s := e']> (keys t) -> keys t !! s = Some e ->
  slot_key e' = slot_key e -> current e' = current e -> current_generation e' = current_generation e ->
  cframe t t'.
Proof.
  intros Hk He Hsk Hc Hg s' e0. rewrite Hk. destruct (decide (s' = s)) as [->|Hne].
  - rewrite list_lookup_insert_eq by (by eapply lookup_lt_Some). intros [= <-]. by exists e.
  - rewrite list_lookup_insert_ne by done. intros He0. by exists e0.
Qed.

(** *** Producers *)

Definition prods_of (marks : N) (more : option (list DerivIdx)) : list DerivIdx :=
  (if N.eqb (producer_of marks) NO_PRODUCER then [] else [N.to_nat (producer_of marks)])
  ++ (if marked_in marks MORE_PRODUCERS then default [] more else []).

(** The producers of the slot. *)
Definition prods t (s : KeyIdx) : list DerivIdx := prods_of (marks_at t s) (more_producers t !! s).

Lemma producers_prods t s : s < length (keys t) -> KeyTable.producers t s = Done (prods t s).
Proof.
  intros Hs. apply lookup_lt_is_Some_2 in Hs as [e He]. unfold KeyTable.producers, KeyTable.entry, prods, marks_at. by rewrite He.
Qed.

Lemma prods_nodup t s : slots_ok t -> NoDup (prods t s).
Proof.
  intros [_ _ R3 R4]. unfold prods, marks_at. destruct (keys t !! s) as [e|] eqn:He; simpl; [|apply NoDup_nil_2].
  unfold prods_of. rewrite (R3 s e He). destruct (more_producers t !! s) as [l|] eqn:Hm.
  - destruct (R4 s l Hm) as (e' & He' & _ & Hne & Hnd & _). rewrite He in He'. injection He' as <-.
    rewrite (proj2 (N.eqb_neq _ _) Hne), bool_decide_true by done. done.
  - rewrite bool_decide_false by (by intros [? ?]). rewrite app_nil_r. destruct (N.eqb _ _); repeat constructor. by intros ?%not_elem_of_nil.
Qed.

Lemma no_producer_prods t s e : slots_ok t -> keys t !! s = Some e -> producer_of (marks e) = NO_PRODUCER <-> prods t s = [].
Proof.
  intros [_ _ R3 R4] He. unfold prods, marks_at. rewrite He. simpl. unfold prods_of. split.
  - intros Hn. rewrite Hn, N.eqb_refl, (R3 s e He). destruct (more_producers t !! s) as [l|] eqn:Hm.
    + destruct (R4 s l Hm) as (e' & He' & _ & Hne & _). rewrite He in He'. by injection He' as <-.
    + by rewrite bool_decide_false by (by intros [? ?]).
  - destruct (N.eqb_spec (producer_of (marks e)) NO_PRODUCER) as [|Hne]; [done|]. by intros [? _]%app_nil.
Qed.

(** A change of the marks of one slot and of its further producers. *)
Lemma set_marks_ok t t' s e m more :
  slots_ok t -> keys t !! s = Some e -> slot_key e <> None ->
  key_slots t' = key_slots t -> free_keys t' = free_keys t -> retired t' = retired t -> derived t' = derived t ->
  keys t' = <[s := KeySlot.with_marks e m]> (keys t) ->
  (forall s', more_producers t' !! s' = if decide (s' = s) then more else more_producers t !! s') ->
  marked_in m MORE_PRODUCERS = bool_decide (is_Some more) ->
  (forall l, more = Some l -> l <> [] /\ producer_of m <> NO_PRODUCER /\ NoDup (N.to_nat (producer_of m) :: l)
    /\ forall d, d ∈ l -> (N.of_nat d < NO_PRODUCER)%N) ->
  slots_ok t' /\ tframe t t' /\ cframe t t' /\ (forall s', readers_at t' s' = readers_at t s')
  /\ forall s', prods t' s' = if decide (s' = s) then prods_of m more else prods t s'.
Proof.
  intros [R1 R2 R3 R4] He Hlive Hf1 Hf2 Hf3 Hf4 Hk Hmore Hmark Hl. assert (Hs := lookup_lt_Some _ _ _ He).
  assert (Hc : forall s', keys t' !! s' = if decide (s' = s) then Some (KeySlot.with_marks e m) else keys t !! s').
  { intros s'. rewrite Hk. destruct (decide (s' = s)) as [->|]; [by apply list_lookup_insert_eq|by apply list_lookup_insert_ne]. }
  split_and!; [split| | | |].
  - intros s' e'. rewrite Hc. destruct (decide _) as [->|]; [intros [= <-]; simpl; by eapply R1|by apply R1].
  - intros s' e'. rewrite Hc. destruct (decide _) as [->|]; [by intros [= <-]|by apply R2].
  - intros s' e'. rewrite Hc, Hmore. destruct (decide _) as [->|]; [by intros [= <-]|by apply R3].
  - intros s' l. rewrite Hmore. setoid_rewrite Hc. destruct (decide _) as [->|].
    + intros Hm. destruct (Hl l Hm) as (? & ? & ? & ?). by exists (KeySlot.with_marks e m).
    + apply R4.
  - by eapply insert_frame.
  - by eapply insert_cframe.
  - intros s'. unfold readers_at. rewrite Hc. destruct (decide _) as [->|]; [by rewrite He|done].
  - intros s'. unfold prods, marks_at. rewrite Hc, Hmore. by destruct (decide _).
Qed.

(** What a change of the producers of a slot does. *)
Record produced t t' (s : KeyIdx) (P : DerivIdx -> Prop) : Prop := {
  pd_slots : slots_ok t';
  pd_frame : tframe t t';
  pd_cache : cframe t t';
  pd_readers : forall s', readers_at t' s' = readers_at t s';
  pd_here : forall d, d ∈ prods t' s <-> P d;
  pd_else : forall s', s' <> s -> prods t' s' = prods t s'
}.

Lemma produced_marks t t' s e m more (P : DerivIdx -> Prop) :
  slots_ok t -> keys t !! s = Some e -> slot_key e <> None ->
  key_slots t' = key_slots t -> free_keys t' = free_keys t -> retired t' = retired t -> derived t' = derived t ->
  keys t' = <[s := KeySlot.with_marks e m]> (keys t) ->
  (forall s', more_producers t' !! s' = if decide (s' = s) then more else more_producers t !! s') ->
  marked_in m MORE_PRODUCERS = bool_decide (is_Some more) ->
  (forall l, more = Some l -> l <> [] /\ producer_of m <> NO_PRODUCER /\ NoDup (N.to_nat (producer_of m) :: l)
    /\ forall d, d ∈ l -> (N.of_nat d < NO_PRODUCER)%N) ->
  (forall d, d ∈ prods_of m more <-> P d) ->
  produced t t' s P.
Proof.
  intros Hsl He Hlive F1 F2 F3 F4 Hk Hmore Hmark Hl HP.
  destruct (set_marks_ok t t' s e m more Hsl He Hlive F1 F2 F3 F4 Hk Hmore Hmark Hl) as (H1 & H2 & H3 & H4 & H5). split; [done|done|done|done| |].
  - intros d. rewrite H5, decide_True by done. apply HP.
  - intros s' Hne. by rewrite H5, decide_False.
Qed.

(** The marks of a slot and the producers past the first. *)
Lemma slot_producers t s e :
  slots_ok t -> keys t !! s = Some e ->
  (more_producers t !! s = None /\ marked_in (marks e) MORE_PRODUCERS = false)
  \/ exists l, more_producers t !! s = Some l /\ marked_in (marks e) MORE_PRODUCERS = true /\ l <> []
       /\ producer_of (marks e) <> NO_PRODUCER /\ NoDup (N.to_nat (producer_of (marks e)) :: l)
       /\ forall d, d ∈ l -> (N.of_nat d < NO_PRODUCER)%N.
Proof.
  intros [_ _ R3 R4] He. rewrite (R3 s e He). destruct (more_producers t !! s) as [l|] eqn:Hm.
  - right. destruct (R4 s l Hm) as (e' & He' & ? & ? & ? & ?). rewrite He in He'. injection He' as <-. exists l.
    by rewrite bool_decide_true.
  - left. by rewrite bool_decide_false by (by intros [? ?]).
Qed.

Lemma more_mark m on : marked_in (set_mark_in m MORE_PRODUCERS on) MORE_PRODUCERS = on.
Proof. by apply (marked_set_mark m 29). Qed.

Lemma producer_more_mark m on : producer_of (set_mark_in m MORE_PRODUCERS on) = producer_of m.
Proof. by apply (producer_set_mark m 29). Qed.

Lemma more_set_producer m d : (d <= NO_PRODUCER)%N -> marked_in (set_producer_in m d) MORE_PRODUCERS = marked_in m MORE_PRODUCERS.
Proof. intros Hd. by apply (marked_set_producer m d 29). Qed.

Lemma lookup_more `{Countable A} {V} (m : gmap A V) s l s' : <[s := l]> m !! s' = if decide (s' = s) then Some l else m !! s'.
Proof. rewrite lookup_insert. by destruct (decide (s = s')), (decide (s' = s)); subst. Qed.

Lemma add_producer_ok t s d :
  slots_ok t -> is_Some (KeyTable.live_key t s) -> (N.of_nat d < NO_PRODUCER)%N -> d ∉ prods t s ->
  exists t', KeyTable.add_producer t s d = Done t' /\ produced t t' s (fun x => x ∈ prods t s \/ x = d).
Proof.
  intros Hsl [k Hlive] Hd Hnew. apply live_entry in Hlive as (e & He & Hk). unfold KeyTable.add_producer, KeyTable.entry.
  rewrite He. simpl. unfold KeySlot.producer. assert (Hprods : prods t s = prods_of (marks e) (more_producers t !! s)).
  { unfold prods, marks_at. by rewrite He. }
  rewrite Hprods in *. unfold prods_of in Hnew.
  destruct (slot_producers t s e Hsl He) as [[Hm Hmark]|(l & Hm & Hmark & Hl & Hp & Hnd & Hsmall)]; rewrite Hm, Hmark in *; simpl in *.
  - destruct (N.eqb_spec (producer_of (marks e)) NO_PRODUCER) as [Hn|Hn].
    + rewrite (update_done _ s e) by done. eexists. split; [done|].
      apply (produced_marks t _ s e (set_producer_in (marks e) (N.of_nat d)) None); try done; [by rewrite Hk| | |].
      * intros s'. simpl. by destruct (decide _) as [->|].
      * rewrite more_set_producer by lia. by rewrite bool_decide_false by (by intros [? ?]).
      * intros x. unfold prods_of. rewrite more_set_producer, Hmark, producer_set_producer, Hn by lia.
        rewrite (proj2 (N.eqb_neq _ _)), Nat2N.id, N.eqb_refl by lia. simpl. set_solver.
    + rewrite (update_done _ s e) by done. eexists. split; [done|]. simpl.
      apply (produced_marks t _ s e (set_mark_in (marks e) MORE_PRODUCERS true) (Some [d])); try done; [by rewrite Hk| | | |].
      * intros s'. simpl. rewrite Hm. simpl. apply lookup_more.
      * by rewrite more_mark.
      * intros ? [= <-]. rewrite producer_more_mark. split_and!; [done|done| |by intros x ->%list_elem_of_singleton].
        apply NoDup_cons. split; [set_solver|apply NoDup_singleton].
      * intros x. unfold prods_of. rewrite more_mark, producer_more_mark, (proj2 (N.eqb_neq _ _)) by done. rewrite Hmark. simpl. set_solver.
  - rewrite (proj2 (N.eqb_neq _ _)) in * by done. rewrite (update_done _ s e) by done. eexists. split; [done|]. simpl.
    apply (produced_marks t _ s e (set_mark_in (marks e) MORE_PRODUCERS true) (Some (l ++ [d]))); try done; [by rewrite Hk| | | |].
    + intros s'. simpl. rewrite Hm. simpl. apply lookup_more.
    + by rewrite more_mark.
    + intros ? [= <-]. rewrite producer_more_mark. split_and!; [by destruct l|done| |set_solver]. rewrite app_comm_cons. apply NoDup_app.
      split_and!; [done| |apply NoDup_singleton]. intros x Hx ->%list_elem_of_singleton. set_solver.
    + intros x. unfold prods_of. rewrite more_mark, producer_more_mark, !(proj2 (N.eqb_neq _ _)), Hmark by done. simpl. set_solver.
Qed.

Lemma remove_first (l : list nat) d :
  NoDup l -> forall x, x ∈ match list_find (fun y => y = d) l with Some (at_, _) => Readers.swap_remove l at_ | None => l end <-> x ∈ l /\ x <> d.
Proof.
  intros Hnd x. destruct (list_find _ l) as [[i y]|] eqn:Hf.
  - apply list_find_Some in Hf as (Hi & -> & _). pose proof (swap_remove_perm l i d Hi) as Hp. rewrite Hp in Hnd.
    apply NoDup_cons in Hnd as [Hd _]. rewrite Hp at 2. rewrite elem_of_cons. split; [|by intros [[->|] ?]].
    intros Hx. split; [by right|]. by intros ->.
  - apply list_find_None in Hf. split; [|by intros [? _]]. intros Hx. split; [done|]. intros ->. eapply Forall_forall in Hf; [|exact Hx]. done.
Qed.

Lemma remove_first_nodup (l : list nat) d :
  NoDup l -> NoDup match list_find (fun y => y = d) l with Some (at_, _) => Readers.swap_remove l at_ | None => l end.
Proof.
  intros Hnd. destruct (list_find _ l) as [[i y]|] eqn:Hf; [|done]. apply list_find_Some in Hf as (Hi & -> & _).
  rewrite (swap_remove_perm l i d Hi) in Hnd. by apply NoDup_cons in Hnd as [_ ?].
Qed.

(** The producers past the first after some of them left. *)
Lemma keep_more_ok t s e m l (P : DerivIdx -> Prop) :
  slots_ok t -> keys t !! s = Some e -> slot_key e <> None ->
  marked_in m MORE_PRODUCERS = true -> producer_of m <> NO_PRODUCER -> NoDup (N.to_nat (producer_of m) :: l) ->
  (forall d, d ∈ l -> (N.of_nat d < NO_PRODUCER)%N) ->
  (forall d, d = N.to_nat (producer_of m) \/ d ∈ l <-> P d) ->
  exists t', match l with
    | [] =>
        self ← KeyTable.update (KeyTable.with_keys t (<[s := KeySlot.with_marks e m]> (keys t))) s
          (fun e => KeySlot.set_mark e MORE_PRODUCERS false);
        Done (KeyTable.with_more_producers self (delete s (more_producers self)))
    | _ => Done (KeyTable.with_more_producers (KeyTable.with_keys t (<[s := KeySlot.with_marks e m]> (keys t)))
             (<[s := l]> (more_producers (KeyTable.with_keys t (<[s := KeySlot.with_marks e m]> (keys t))))))
    end = Done t' /\ produced t t' s P.
Proof.
  intros Hsl He Hk Hmark Hp Hnd Hsmall HP. assert (Hs := lookup_lt_Some _ _ _ He). destruct l as [|y l].
  - rewrite (update_done _ s (KeySlot.with_marks e m)) by (by apply list_lookup_insert_eq). eexists. split; [done|]. simpl.
    apply (produced_marks t _ s e (set_mark_in m MORE_PRODUCERS false) None); try done.
    + simpl. by rewrite list_insert_insert_eq.
    + intros s'. simpl. rewrite lookup_delete. by destruct (decide (s = s')), (decide (s' = s)); subst.
    + rewrite more_mark. by rewrite bool_decide_false by (by intros [? ?]).
    + intros d. rewrite <- HP. unfold prods_of. rewrite more_mark, producer_more_mark, (proj2 (N.eqb_neq _ _)) by done. set_solver.
  - eexists. split; [done|]. apply (produced_marks t _ s e m (Some (y :: l))); try done.
    + intros s'. simpl. apply lookup_more.
    + by intros ? [= <-].
    + intros d. rewrite <- HP. unfold prods_of. rewrite Hmark, (proj2 (N.eqb_neq _ _)) by done. set_solver.
Qed.

Lemma remove_producer_ok t s d :
  slots_ok t -> is_Some (KeyTable.live_key t s) -> (N.of_nat d < NO_PRODUCER)%N ->
  exists t', KeyTable.remove_producer t s d = Done t' /\ produced t t' s (fun x => x ∈ prods t s /\ x <> d).
Proof.
  intros Hsl [k Hlive] Hd. apply live_entry in Hlive as (e & He & Hk). assert (Hnk : slot_key e <> None) by by rewrite Hk.
  unfold KeyTable.remove_producer, KeyTable.entry. rewrite He. simpl. unfold KeySlot.producer, KeySlot.marked.
  assert (Hprods : prods t s = prods_of (marks e) (more_producers t !! s)) by (unfold prods, marks_at; by rewrite He).
  rewrite Hprods. unfold prods_of.
  destruct (slot_producers t s e Hsl He) as [[Hm Hmark]|(l & Hm & Hmark & Hl & Hp & Hnd & Hsmall)]; rewrite Hm, Hmark; simpl.
  - destruct (N.eqb_spec (producer_of (marks e)) (N.of_nat d)) as [Hn|Hn].
    + rewrite (update_done _ s e) by done. eexists. split; [done|].
      apply (produced_marks t _ s e (set_producer_in (marks e) NO_PRODUCER) None); try done.
      * intros s'. simpl. by destruct (decide _) as [->|].
      * rewrite more_set_producer, Hmark by lia. by rewrite bool_decide_false by (by intros [? ?]).
      * intros x. unfold prods_of. rewrite more_set_producer, Hmark, producer_set_producer, N.eqb_refl, Hn by lia.
        rewrite (proj2 (N.eqb_neq _ _)), Nat2N.id by lia. set_solver.
    + eexists. split; [done|]. split; [done|apply tframe_refl|apply cframe_refl|done| |done]. intros x. unfold prods, marks_at. rewrite He, Hm. simpl.
      unfold prods_of. rewrite Hmark. destruct (N.eqb_spec (producer_of (marks e)) NO_PRODUCER); [set_solver|]. simpl.
      rewrite list_elem_of_singleton. split; [|by intros [? _]]. intros ->. split; [done|]. intros Heq. apply Hn. by rewrite <- Heq, N2Nat.id.
  - rewrite (proj2 (N.eqb_neq _ NO_PRODUCER)) by done.
    destruct (N.eqb_spec (producer_of (marks e)) (N.of_nat d)) as [Hn|Hn].
    + destruct (last l) as [next|] eqn:Hlast; [|by apply last_None in Hlast]. simpl.
      apply last_Some in Hlast as [l' ->]. rewrite Hn, Nat2N.id in Hnd.
      assert (Htake : take (length (l' ++ [next]) - 1) (l' ++ [next]) = l') by (rewrite length_app; simpl; by rewrite Nat.add_sub, take_app_length).
      assert (Hnext : (N.of_nat next < NO_PRODUCER)%N) by (apply Hsmall; set_solver).
      rewrite (update_done _ s e), done_bind by done. rewrite Htake.
      apply (keep_more_ok t s e (set_producer_in (marks e) (N.of_nat next)) l'); try done.
      * by rewrite more_set_producer, Hmark by lia.
      * rewrite producer_set_producer by lia. lia.
      * rewrite producer_set_producer, Nat2N.id by lia. apply NoDup_cons in Hnd as [_ Hnd].
        rewrite <- Permutation_cons_append in Hnd. done.
      * intros x Hx. apply Hsmall. set_solver.
      * intros x. rewrite producer_set_producer, Nat2N.id, Hn, Nat2N.id by lia.
        apply NoDup_cons in Hnd as [Hnd _]. set_solver.
    + assert (Hpn : N.to_nat (producer_of (marks e)) <> d) by (intros <-; by rewrite N2Nat.id in Hn). simpl.
      assert (Heta : KeyTable.with_keys t (<[s := KeySlot.with_marks e (marks e)]> (keys t)) = t).
      { destruct t; unfold KeyTable.with_keys; simpl in *. f_equal. apply list_insert_id. rewrite He. by destruct e. }
      pose proof (fun l' => keep_more_ok t s e (marks e) l') as Hkeep. rewrite Heta in Hkeep. apply NoDup_cons in Hnd as [Hfirst Hnd].
      assert (Hrem := remove_first l d Hnd). apply Hkeep; try done.
      * apply NoDup_cons. split; [|by apply remove_first_nodup]. intros [Hx _]%Hrem. done.
      * intros x [Hx _]%Hrem. by apply Hsmall.
      * intros x. rewrite Hrem. set_solver.
Qed.

Lemma tframe_table t t' : tframe t t' -> slots_ok t' -> table_ok t -> table_ok t'.
Proof. intros Hf Hs [H1 H2 _]. split; [by eapply tframe_index|by eapply tframe_derived|done]. Qed.

(** *** Readers and cached fingerprints *)

Lemma lookup_keys (l : list (KeySlot K)) s e s' :
  s < length l -> <[s := e]> l !! s' = if decide (s' = s) then Some e else l !! s'.
Proof. intros Hs. destruct (decide (s' = s)) as [->|]; [by apply list_lookup_insert_eq|by apply list_lookup_insert_ne]. Qed.

Lemma set_readers_ok t s e r :
  slots_ok t -> keys t !! s = Some e -> slot_key e <> None -> readers_ok r ->
  let t' := KeyTable.with_keys t (<[s := KeySlot.with_readers e r]> (keys t)) in
  slots_ok t' /\ tframe t t' /\ cframe t t'
  /\ (forall s', readers_at t' s' = if decide (s' = s) then r else readers_at t s') /\ (forall s', prods t' s' = prods t s').
Proof.
  intros [R1 R2 R3 R4] He Hk Hr t'. assert (Hs := lookup_lt_Some _ _ _ He).
  assert (Hc : forall s', keys t' !! s' = if decide (s' = s) then Some (KeySlot.with_readers e r) else keys t !! s')
    by (intros s'; by apply lookup_keys).
  split_and!; [split| | | |].
  - intros s' e'. rewrite Hc. destruct (decide _) as [->|]; [by intros [= <-]|by apply R1].
  - intros s' e'. rewrite Hc. destruct (decide _) as [->|]; [by intros [= <-]|by apply R2].
  - intros s' e'. rewrite Hc. destruct (decide _) as [->|]; [intros [= <-]; by apply (R3 s e He)|by apply R3].
  - intros s' l Hl. rewrite Hc. destruct (R4 s' l Hl) as (e' & He' & Hrest). destruct (decide _) as [->|]; [|by exists e'].
    rewrite He in He'. injection He' as <-. by exists (KeySlot.with_readers e r).
  - by apply (insert_frame t t' s e (KeySlot.with_readers e r)).
  - by apply (insert_cframe t t' s e (KeySlot.with_readers e r)).
  - intros s'. unfold readers_at. rewrite Hc. by destruct (decide _).
  - intros s'. unfold prods, marks_at. rewrite Hc. destruct (decide _) as [->|]; [by rewrite He|done].
Qed.

Lemma set_current_ok t s e c g :
  slots_ok t -> keys t !! s = Some e ->
  let t' := KeyTable.with_keys t (<[s := KeySlot.with_current e c g]> (keys t)) in
  slots_ok t' /\ tframe t t' /\ (forall s', readers_at t' s' = readers_at t s') /\ (forall s', prods t' s' = prods t s').
Proof.
  intros [R1 R2 R3 R4] He t'. assert (Hs := lookup_lt_Some _ _ _ He).
  assert (Hc : forall s', keys t' !! s' = if decide (s' = s) then Some (KeySlot.with_current e c g) else keys t !! s')
    by (intros s'; by apply lookup_keys).
  split_and!; [split| | |].
  - intros s' e'. rewrite Hc. destruct (decide _) as [->|]; [intros [= <-]; by apply (R1 s e He)|by apply R1].
  - intros s' e'. rewrite Hc. destruct (decide _) as [->|]; [intros [= <-]; by apply (R2 s e He)|by apply R2].
  - intros s' e'. rewrite Hc. destruct (decide _) as [->|]; [intros [= <-]; by apply (R3 s e He)|by apply R3].
  - intros s' l Hl. rewrite Hc. destruct (R4 s' l Hl) as (e' & He' & Hrest). destruct (decide _) as [->|]; [|by exists e'].
    rewrite He in He'. injection He' as <-. by exists (KeySlot.with_current e c g).
  - by apply (insert_frame t t' s e (KeySlot.with_current e c g)).
  - intros s'. unfold readers_at. rewrite Hc. destruct (decide _) as [->|]; [by rewrite He|done].
  - intros s'. unfold prods, marks_at. rewrite Hc. destruct (decide _) as [->|]; [by rewrite He|done].
Qed.
End Table.
