(* ===== verification/KeyReleaseProofs.v ===== *)
(** * Releasing slots

    [release_one] and [release_slots] of the reader graph: which keys are
    freed, that the table stays sound while the lists of derived keys still
    hold freed slots, and that a large batch may be cut to the slots that can
    be freed. *)

From S2P Require Import Prelude FileOrder Derivation Readers ReadersProofs KeyTable KeyTableProofs KeyUseProofs ReaderGraph.
From stdpp Require Import list gmap.
Local Open Scope prog_scope.

Section Release.
Context {K : Type} `{HK : FactKeys K}.
Implicit Types t : KeyTable K.
Implicit Types g : ReaderGraph K.

(** The table in the middle of a release. *)
Record release_inv t (freed : gmap KeyIdx nat) : Prop := {
  ri_index : index_ok t;
  ri_derived : derived_inv t ∅ freed;
  ri_slots : slots_ok t
}.

(** Nothing refers to the live slot any more. *)
Definition loose t (freed : gmap KeyIdx nat) (s : KeyIdx) : Prop :=
  is_Some (KeyTable.live_key t s) /\ readers_at t s = None_ /\ prods t s = []
  /\ forall d, derived t !! s = Some d -> freed !! s = Some (length (derived_slots_of d)).

Lemma unreferenced_spec t freed s e :
  slots_ok t -> keys t !! s = Some e ->
  exists b, KeyTable.unreferenced_after t s freed = Done b
    /\ (b = true <-> readers_at t s = None_ /\ prods t s = [] /\ forall d, derived t !! s = Some d -> freed !! s = Some (length (derived_slots_of d))).
Proof.
  intros Hsl He. unfold KeyTable.unreferenced_after, KeyTable.entry. rewrite He. simpl. eexists. split; [done|].
  rewrite !andb_true_iff. unfold readers_at. rewrite He. simpl. rewrite <- (no_producer_prods t s e Hsl He).
  unfold KeySlot.producer. rewrite N.eqb_eq. split.
  - intros [[H1 H2] H3]. split_and!; [by destruct (readers e)|done|]. intros d Hd. rewrite Hd in H3. by apply bool_decide_eq_true in H3.
  - intros (H1 & H2 & H3). rewrite H1. split_and!; [done|done|]. destruct (derived t !! s) as [d|]; [|done]. apply bool_decide_eq_true. by apply H3.
Qed.

(** *** One slot is freed *)

Definition free_graph g (s : KeyIdx) (e : KeySlot K) (k : K) : ReaderGraph K :=
  let e' := KeySlot.set_mark (KeySlot.set_mark (KeySlot.with_written (KeySlot.with_key e None) (2 ^ 64 - 1)) HELD false) WINDOWED false in
  let t := KeyTable.with_keys (table g) (<[s := e']> (keys (table g))) in
  let t := KeyTable.with_windows (KeyTable.with_held t (delete s (held t))) (delete s (windows t)) in
  let '(now, g) := ReaderGraph.new_stamp (ReaderGraph.with_table g t) in
  let t := KeyTable.with_table_written (table g) now in
  ReaderGraph.with_table g (KeyTable.retire (KeyTable.unfile t k s) s).

Lemma release_one_free fuel g s still freed e k :
  (0 <? default 0 (still !! s))%nat = false -> KeyTable.unreferenced_after (table g) s freed = Done true ->
  keys (table g) !! s = Some e -> slot_key e = Some k ->
  ReaderGraph.release_one (S fuel) g s still freed =
    match (b ← base k; KeyTable.find (table (free_graph g s e k)) b) with
    | None => Done (freed, free_graph g s e k)
    | Some b =>
        match derived (table (free_graph g s e k)) !! b with
        | None => Done (freed, free_graph g s e k)
        | Some d =>
            let n := S (default 0 (freed !! b)) in
            if (n =? length (derived_slots_of d))%nat
            then ReaderGraph.release_one fuel (free_graph g s e k) b still (<[b := n]> freed)
            else Done (<[b := n]> freed, free_graph g s e k)
        end
    end.
Proof.
  intros Hstill Hun He Hk. cbn [ReaderGraph.release_one]. rewrite Hstill, Hun, done_bind. simpl negb.
  unfold KeyTable.entry. rewrite He. cbv iota. unfold expect. rewrite done_bind, Hk.
  rewrite (update_done _ s e) by done. done.
Qed.

(** The graph but for its table and its clock. *)
Record gsame g g' : Prop := {
  gs_slots : deriv_slots g' = deriv_slots g;
  gs_derivations : derivations g' = derivations g;
  gs_free : free_derivations g' = free_derivations g;
  gs_by_file : by_file g' = by_file g;
  gs_foreign : foreign_producers_of g' = foreign_producers_of g;
  gs_generation : generation g' = generation g;
  gs_held : held_releases g' = held_releases g
}.

Lemma gsame_refl g : gsame g g.
Proof. done. Qed.

Lemma gsame_trans g1 g2 g3 : gsame g1 g2 -> gsame g2 g3 -> gsame g1 g3.
Proof. intros [] []. split; congruence. Qed.

Lemma free_graph_same g s e k : gsame g (free_graph g s e k).
Proof. done. Qed.

Lemma unfile_slot_perm (l : list FiledKey) s :
  s ∈ filed_slot <$> l -> exists f, filed_slot f = s /\ l ≡ₚ f :: KeyTable.unfile_slot l s.
Proof.
  intros (f & Hf & Hin)%list_elem_of_fmap. unfold KeyTable.unfile_slot.
  destruct (list_find _ l) as [[i f']|] eqn:Hfind.
  - apply list_find_Some in Hfind as (Hi & Hs & _). exists f'. split; [done|].
    by apply delete_Permutation.
  - apply list_find_None in Hfind. eapply Forall_forall in Hfind; [|exact Hin]. by destruct Hfind.
Qed.

(** What the freed slot leaves. *)
Record frees t t' (s : KeyIdx) : Prop := {
  fr_keys : exists e e', keys t !! s = Some e /\ keys t' = <[s := e']> (keys t) /\ slot_key e' = None
    /\ readers e' = readers e /\ producer_of (marks e') = producer_of (marks e)
    /\ marked_in (marks e') MORE_PRODUCERS = marked_in (marks e) MORE_PRODUCERS;
  fr_filed : key_slots t' = KeyTable.unfile_slot (key_slots t) s;
  fr_free : free_keys t' ++ retired t' ≡ₚ s :: free_keys t ++ retired t;
  fr_derived : derived t' = derived t;
  fr_more : more_producers t' = more_producers t
}.

Lemma retire_perm t s : free_keys (KeyTable.retire t s) ++ retired (KeyTable.retire t s) ≡ₚ s :: free_keys t ++ retired t.
Proof.
  unfold KeyTable.retire. destruct (collect_retired_same t) as (_ & _ & Hp & _).
  destruct (retirement (KeyTable.collect_retired t)); simpl; rewrite <- Hp.
  - rewrite app_assoc. by rewrite <- Permutation_cons_append.
  - rewrite <- app_assoc. simpl. by rewrite <- Permutation_middle.
Qed.

Lemma retire_rest t s :
  key_slots (KeyTable.retire t s) = key_slots t /\ keys (KeyTable.retire t s) = keys t
  /\ derived (KeyTable.retire t s) = derived t /\ more_producers (KeyTable.retire t s) = more_producers t.
Proof.
  unfold KeyTable.retire. destruct (collect_retired_same t) as (? & ? & _ & ? & ?).
  by destruct (retirement (KeyTable.collect_retired t)).
Qed.

Lemma unfile_rest t k s :
  key_slots (KeyTable.unfile t k s) = KeyTable.unfile_slot (key_slots t) s /\ keys (KeyTable.unfile t k s) = keys t
  /\ free_keys (KeyTable.unfile t k s) = free_keys t /\ retired (KeyTable.unfile t k s) = retired t
  /\ derived (KeyTable.unfile t k s) = derived t /\ more_producers (KeyTable.unfile t k s) = more_producers t.
Proof. unfold KeyTable.unfile. cbv zeta. by destruct (positional (KeyTable.with_key_slots t (KeyTable.unfile_slot (key_slots t) s))). Qed.

Lemma free_graph_frees g s e k : keys (table g) !! s = Some e -> frees (table g) (table (free_graph g s e k)) s.
Proof.
  intros He. unfold free_graph, ReaderGraph.new_stamp. cbv zeta beta iota.
  match goal with |- frees _ (table (ReaderGraph.with_table _ (KeyTable.retire (KeyTable.unfile ?t1 _ _) _))) _ => set (t' := t1) end.
  simpl table. destruct (unfile_rest t' k s) as (U1 & U2 & U3 & U4 & U5 & U6).
  destruct (retire_rest (KeyTable.unfile t' k s) s) as (R1 & R2 & R3 & R4). split.
  - eexists _, _. split; [exact He|]. split; [by rewrite R2, U2|].
    cbn [marks readers slot_key KeySlot.set_mark KeySlot.with_marks KeySlot.with_written KeySlot.with_key]. split_and!; [done|done| |].
    + unfold WINDOWED, HELD. rewrite (producer_set_mark _ 30) by done. by rewrite (producer_set_mark _ 31).
    + unfold WINDOWED, HELD, MORE_PRODUCERS. rewrite (marked_set_other _ 29 30) by done. by rewrite (marked_set_other _ 29 31).
  - by rewrite R1, U1.
  - rewrite retire_perm, U3, U4. done.
  - by rewrite R3, U5.
  - by rewrite R4, U6.
Qed.

(** *** What stays sound *)

Section Freed.
Context (t t' : KeyTable K) (s : KeyIdx) (k : K) (freed : gmap KeyIdx nat).
Context (Hri : release_inv t freed) (Hk : KeyTable.live_key t s = Some k) (Hloose : loose t freed s) (Hf : frees t t' s).

Lemma freed_live s' : KeyTable.live_key t' s' = if decide (s' = s) then None else KeyTable.live_key t s'.
Proof.
  destruct (fr_keys _ _ _ Hf) as (e & e' & He & Hkeys & Hnone & _).
  rewrite (live_key_insert t t' s e' s' Hkeys) by (by eapply lookup_lt_Some). by rewrite Hnone.
Qed.

Lemma freed_entry s' e' :
  keys t' !! s' = Some e' -> exists e, keys t !! s' = Some e /\ readers e' = readers e
    /\ producer_of (marks e') = producer_of (marks e) /\ marked_in (marks e') MORE_PRODUCERS = marked_in (marks e) MORE_PRODUCERS.
Proof.
  destruct (fr_keys _ _ _ Hf) as (e & e1 & He & Hkeys & Hnone & ? & ? & ?). rewrite Hkeys, lookup_keys by (by eapply lookup_lt_Some).
  destruct (decide (s' = s)) as [->|]; [intros [= <-]; by exists e|intros He'; by exists e'].
Qed.

Lemma freed_length : length (keys t') = length (keys t).
Proof. destruct (fr_keys _ _ _ Hf) as (e & e1 & He & -> & _). by rewrite length_insert. Qed.

Lemma freed_readers s' : readers_at t' s' = readers_at t s'.
Proof.
  unfold readers_at. destruct (keys t' !! s') as [e'|] eqn:He'.
  - destruct (freed_entry s' e' He') as (e & -> & ? & _). done.
  - apply lookup_ge_None in He'. rewrite freed_length in He'. by rewrite (lookup_ge_None_2 _ _ He').
Qed.

Lemma freed_prods s' : prods t' s' = prods t s'.
Proof.
  unfold prods, marks_at. rewrite (fr_more _ _ _ Hf). destruct (keys t' !! s') as [e'|] eqn:He'.
  - destruct (freed_entry s' e' He') as (e & -> & _ & Hp & Hm). simpl. unfold prods_of. by rewrite Hp, Hm.
  - apply lookup_ge_None in He'. rewrite freed_length in He'. by rewrite (lookup_ge_None_2 _ _ He').
Qed.

Lemma freed_index : index_ok t'.
Proof.
  destruct (ri_index _ _ Hri) as [H1 H2 H3 H4 H5 H6].
  destruct (unfile_slot_perm (key_slots t) s (H3 s k Hk)) as (f & Hfs & Hp). rewrite <- (fr_filed _ _ _ Hf) in Hp.
  assert (Hns : s ∉ filed_slot <$> key_slots t').
  { rewrite Hp in H1. simpl in H1. rewrite Hfs in H1. by apply NoDup_cons in H1 as [? _]. }
  split.
  - rewrite Hp in H1. simpl in H1. by apply NoDup_cons in H1 as [_ ?].
  - intros f' Hin. rewrite freed_live, decide_False.
    + apply H2. rewrite Hp. by right.
    + intros Heq. apply Hns. rewrite <- Heq. by apply list_elem_of_fmap_2.
  - intros s' k'. rewrite freed_live. destruct (decide (s' = s)); [done|]. intros Hk'%H3. rewrite Hp in Hk'. simpl in Hk'.
    rewrite Hfs in Hk'. apply elem_of_cons in Hk' as [|]; done.
  - intros s1 s2 k'. rewrite !freed_live. repeat destruct (decide _); try done. apply H4.
  - rewrite (fr_free _ _ _ Hf). apply NoDup_cons. split; [|done]. intros [_ Hn]%H6. congruence.
  - intros s'. rewrite (fr_free _ _ _ Hf), elem_of_cons, freed_length, freed_live. intros [->|Hin].
    + rewrite decide_True by done. split; [|done]. apply live_entry in Hk as (e & He & _). by eapply lookup_lt_Some.
    + destruct (H6 s' Hin). by destruct (decide (s' = s)).
Qed.

Lemma freed_slots : slots_ok t'.
Proof.
  destruct (ri_slots _ _ Hri) as [R1 R2 R3 R4] eqn:HR. clear HR. destruct Hloose as (_ & Hr & Hp & _). split.
  - intros s' e' He'. destruct (freed_entry s' e' He') as (e & He & -> & _). by eapply R1.
  - intros s' e' He' Hnone. destruct (freed_entry s' e' He') as (e & He & -> & -> & _). destruct (decide (s' = s)) as [->|Hne].
    + split; [by unfold readers_at in Hr; rewrite He in Hr|]. apply (no_producer_prods t s e); [by apply (ri_slots _ _ Hri)|done|done].
    + eapply R2; [done|]. assert (Hl := freed_live s'). rewrite decide_False in Hl by done.
      unfold KeyTable.live_key in Hl. rewrite He', He in Hl. simpl in Hl. by rewrite <- Hl.
  - intros s' e' He'. destruct (freed_entry s' e' He') as (e & He & _ & _ & ->). rewrite (fr_more _ _ _ Hf). by apply R3.
  - intros s' l. rewrite (fr_more _ _ _ Hf). intros Hl. destruct (R4 s' l Hl) as (e & He & Hrest).
    assert (He' : is_Some (keys t' !! s')) by (apply lookup_lt_is_Some_2; rewrite freed_length; by eapply lookup_lt_Some).
    destruct He' as [e' He']. exists e'. split; [done|]. destruct (freed_entry s' e' He') as (e0 & He0 & _ & -> & _).
    rewrite He in He0. by injection He0 as <-.
Qed.

Lemma loose_listed d x : derived t !! s = Some d -> x ∈ derived_slots_of d -> KeyTable.live_key t x = None.
Proof.
  intros Hd Hx. destruct Hloose as (_ & _ & _ & Hl). specialize (Hl d Hd).
  destruct (dv_lists _ _ _ (ri_derived _ _ Hri) s d Hd) as (_ & _ & _ & Hc & _). rewrite Hl in Hc. simpl in Hc.
  destruct (KeyTable.live_key t x) eqn:Hlx; [|done]. exfalso.
  assert (Hlt : length (filter (fun s => KeyTable.live_key t s = None) (derived_slots_of d)) < length (derived_slots_of d)); [|lia].
  eapply length_filter_lt; [exact Hx|]. congruence.
Qed.

(** The list that the freed slot is in. *)
Lemma freed_list b d x : derived t !! b = Some d -> x ∈ derived_slots_of d -> x = s -> exists kb, base k = Some kb /\ KeyTable.live_key t b = Some kb.
Proof.
  intros Hd Hx ->. destruct (dv_lists _ _ _ (ri_derived _ _ Hri) b d Hd) as (_ & _ & Hl & _). by apply (Hl s k).
Qed.

Lemma count_freed (l : list KeyIdx) :
  NoDup l ->
  length (filter (fun x => KeyTable.live_key t' x = None) l)
  = length (filter (fun x => KeyTable.live_key t x = None) l) + (if decide (s ∈ l) then 1 else 0).
Proof.
  induction l as [|x l IH]; intros Hnd; [done|]. apply NoDup_cons in Hnd as [Hx Hnd]. specialize (IH Hnd).
  rewrite !filter_cons, freed_live. destruct (decide (x = s)) as [->|Hne].
  - rewrite (decide_False (P := KeyTable.live_key t s = None)) by congruence. rewrite decide_True by done.
    rewrite (decide_True (P := s ∈ s :: l)) by by left. rewrite decide_False in IH by done. simpl. lia.
  - destruct (decide (KeyTable.live_key t x = None)), (decide (s ∈ l)), (decide (s ∈ x :: l)) as [Hin|Hin]; simpl; try lia; set_solver.
Qed.

Definition freed_after : gmap KeyIdx nat :=
  match (kb ← base k; KeyTable.find t' kb) with
  | Some b => match derived t !! b with Some _ => <[b := S (default 0 (freed !! b))]> freed | None => freed end
  | None => freed
  end.

Lemma freed_derived : derived_inv t' ∅ freed_after.
Proof.
  assert (Hix := freed_index). destruct (ri_derived _ _ Hri) as [D1 D2 D3].
  assert (Hb : forall b kb, base k = Some kb -> KeyTable.live_key t b = Some kb -> KeyTable.find t' kb = Some b).
  { intros b kb Hbase Hb. apply find_live; [done|]. rewrite freed_live, decide_False; [done|]. intros ->.
    rewrite Hk in Hb. injection Hb as ->. rewrite (base_flat _ _ Hbase) in Hbase. done. }
  assert (Hcount : forall b d, derived t !! b = Some d -> default 0 (freed_after !! b) = default 0 (freed !! b) + if decide (s ∈ derived_slots_of d) then 1 else 0).
  { intros b d Hd. unfold freed_after. destruct (decide (s ∈ derived_slots_of d)) as [Hin|Hin].
    - destruct (freed_list b d s Hd Hin eq_refl) as (kb & Hbase & Hlb). rewrite Hbase. simpl. rewrite (Hb b kb Hbase Hlb), Hd.
      rewrite lookup_insert, decide_True by done. simpl. lia.
    - destruct (base k) as [kb|] eqn:Hbase; simpl; [|lia]. destruct (KeyTable.find t' kb) as [b'|] eqn:Hfind; [|lia].
      destruct (derived t !! b') as [d'|] eqn:Hd'; [|lia]. rewrite lookup_insert. destruct (decide (b' = b)) as [->|]; [|lia].
      exfalso. apply Hin. apply find_live in Hfind; [|done]. rewrite freed_live in Hfind. destruct (decide (b = s)); [done|].
      destruct (D2 s k kb Hk Hbase) as (b2 & d2 & Hb2 & Hd2 & Hs2); [set_solver|].
      assert (b2 = b) as -> by by eapply (ix_one _ (ri_index _ _ Hri)). congruence. }
  assert (Hkeep : forall b d x, derived t !! b = Some d -> x ∈ derived_slots_of d -> is_Some (KeyTable.live_key t x) -> b <> s).
  { intros b d x Hd Hx [kx Hlx] ->. by rewrite (loose_listed d x Hd Hx) in Hlx. }
  split.
  - intros b d. rewrite (fr_derived _ _ _ Hf). intros Hd. destruct (D1 b d Hd) as (Hne & Hnd & Hl & Hc & Hlt). split_and!; [done|done| | |].
    + intros x kx Hx. rewrite !freed_live. destruct (decide (x = s)); [done|]. intros Hlx. destruct (Hl x kx Hx Hlx) as (kb & ? & ?).
      exists kb. split; [done|]. rewrite decide_False; [done|]. by eapply Hkeep.
    + by rewrite count_freed, Hc, (Hcount b d Hd).
    + intros x Hx. rewrite freed_length. by apply Hlt.
  - intros x kx kb. rewrite freed_live. destruct (decide (x = s)); [done|]. intros Hlx Hbx HE.
    destruct (D2 x kx kb Hlx Hbx HE) as (b & d & Hlb & Hd & Hx). exists b, d. rewrite (fr_derived _ _ _ Hf), freed_live, decide_False; [done|].
    by eapply Hkeep.
  - intros b n. rewrite (fr_derived _ _ _ Hf). unfold freed_after. destruct (kb ← base k; KeyTable.find t' kb) as [b'|]; [|apply D3].
    destruct (derived t !! b') as [d'|] eqn:Hd'; [|apply D3]. rewrite lookup_insert. destruct (decide (b' = b)) as [->|]; [done|apply D3].
Qed.

Lemma freed_inv : release_inv t' freed_after.
Proof. split; [apply freed_index|apply freed_derived|apply freed_slots]. Qed.
End Freed.

(** *** What a release does *)

(** The slots of [except] may have become loose. *)
Record releases g g' (freed freed' still : gmap KeyIdx nat) (except slots : list KeyIdx) : Prop := {
  rl_same : gsame g g';
  rl_inv : release_inv (table g') freed';
  rl_len : length (keys (table g')) = length (keys (table g));
  rl_kept : forall x, is_Some (KeyTable.live_key (table g') x) -> keys (table g') !! x = keys (table g) !! x;
  rl_readers : forall x, readers_at (table g') x = readers_at (table g) x;
  rl_prods : forall x, prods (table g') x = prods (table g) x;
  rl_gone : forall x, is_Some (KeyTable.live_key (table g) x) -> KeyTable.live_key (table g') x = None ->
    readers_at (table g) x = None_ /\ prods (table g) x = [] /\ default 0 (still !! x) = 0;
  rl_loose : forall x, default 0 (still !! x) = 0 -> x ∉ except -> loose (table g') freed' x -> loose (table g) freed x /\ x ∉ slots
}.

Lemma rl_live g g' freed freed' still except slots x k :
  releases g g' freed freed' still except slots -> KeyTable.live_key (table g') x = Some k -> KeyTable.live_key (table g) x = Some k.
Proof.
  intros Hr Hx. unfold KeyTable.live_key. rewrite <- (rl_kept _ _ _ _ _ _ _ Hr x); [exact Hx|by exists k].
Qed.

Lemma releases_none g freed still slots :
  release_inv (table g) freed -> (forall x, x ∈ slots -> default 0 (still !! x) = 0 -> ~ loose (table g) freed x) ->
  releases g g freed freed still [] slots.
Proof.
  intros Hri Hn. split; try done.
  - intros x [k Hx] Hx'. congruence.
  - intros x Hs _ Hl. split; [done|]. intros Hin. by apply (Hn x Hin Hs).
Qed.

Lemma releases_app g1 g2 g3 f1 f2 f3 still except l1 l2 :
  releases g1 g2 f1 f2 still except l1 -> releases g2 g3 f2 f3 still [] l2 -> (forall x, x ∈ except -> x ∈ l2) ->
  releases g1 g3 f1 f3 still [] (l1 ++ l2).
Proof.
  intros H1 H2 Hex. destruct H1 as [A1 A2 A3 A4 A5 A6 A7 A8] eqn:E1, H2 as [B1 B2 B3 B4 B5 B6 B7 B8] eqn:E2. clear E1 E2. split.
  - by eapply gsame_trans.
  - done.
  - congruence.
  - intros x Hx. rewrite (B4 x Hx). apply A4. destruct Hx as [k Hx]. exists k. by eapply rl_live.
  - intros x. by rewrite B5.
  - intros x. by rewrite B6.
  - intros x Hx Hx'. destruct (KeyTable.live_key (table g2) x) as [k|] eqn:Hm.
    + destruct (B7 x) as (? & ? & ?); [by exists k|done|]. by rewrite <- A5, <- A6.
    + by apply A7.
  - intros x Hs Hx Hl. destruct (B8 x Hs Hx Hl) as [Hl2 Hnl]. destruct (A8 x Hs) as [? ?]; [naive_solver|done|]. split; [done|].
    rewrite elem_of_app. tauto.
Qed.

Lemma releases_less g g' f f' still l1 l2 : releases g g' f f' still [] (l1 ++ l2) -> releases g g' f f' still [] l1.
Proof. intros []. split; try done. intros x Hs Hx Hl. destruct (rl_loose0 x Hs Hx Hl). split; [done|]. set_solver. Qed.

(** One slot was freed, and perhaps nothing else. *)
Lemma releases_free g g' s e k freed still except :
  gsame g g' -> frees (table g) (table g') s ->
  release_inv (table g) freed -> keys (table g) !! s = Some e -> slot_key e = Some k -> loose (table g) freed s ->
  default 0 (still !! s) = 0 ->
  (forall b kb d, base k = Some kb -> KeyTable.find (table g') kb = Some b -> derived (table g) !! b = Some d ->
     default 0 (still !! b) = 0 -> b ∉ except -> ~ loose (table g') (freed_after (table g) (table g') k freed) b) ->
  releases g g' freed (freed_after (table g) (table g') k freed) still except [s].
Proof.
  intros Hsame Hf Hri He Hsk Hl Hs Hbase.
  assert (Hk : KeyTable.live_key (table g) s = Some k) by (unfold KeyTable.live_key; by rewrite He).
  assert (Hlive := freed_live (table g) (table g') s Hf).
  split.
  - done.
  - by eapply freed_inv.
  - by eapply freed_length.
  - intros x [kx Hx]. destruct (fr_keys _ _ _ Hf) as (e0 & e' & He0 & -> & _). rewrite list_lookup_insert_ne; [done|].
    intros <-. rewrite Hlive, decide_True in Hx; done.
  - intros x. by eapply freed_readers.
  - intros x. by eapply freed_prods.
  - intros x [kx Hx] Hn. rewrite Hlive in Hn. destruct (decide (x = s)) as [->|]; [|congruence]. destruct Hl as (_ & ? & ? & _). done.
  - intros x Hsx Hex Hlx. assert (Hne : x <> s).
    { intros ->. destruct Hlx as [[kx Hx] _]. rewrite Hlive, decide_True in Hx; done. }
    split; [|rewrite list_elem_of_singleton; done]. unfold freed_after in *.
    destruct Hlx as ((kx & Hx) & Hrx & Hpx & Hdx). rewrite Hlive, decide_False in Hx by done.
    rewrite (freed_readers _ _ _ Hf) in Hrx. rewrite (freed_prods _ _ _ Hf) in Hpx. rewrite (fr_derived _ _ _ Hf) in Hdx.
    split_and!; [by exists kx|done|done|]. intros d Hd. specialize (Hdx d Hd).
    destruct (base k) as [kb|] eqn:Hb; simpl in *; [|done].
    destruct (KeyTable.find (table g') kb) as [b|] eqn:Hfind; [|done]. destruct (derived (table g) !! b) as [db|] eqn:Hdb; [|done].
    rewrite lookup_insert in Hdx. destruct (decide (b = x)) as [->|]; [|done].
    exfalso. apply (Hbase x kb db eq_refl Hfind Hdb Hsx Hex). split_and!.
    + exists kx. by rewrite Hlive, decide_False.
    + by rewrite (freed_readers _ _ _ Hf).
    + by rewrite (freed_prods _ _ _ Hf).
    + rewrite (fr_derived _ _ _ Hf). intros d' Hd'. rewrite Hd in Hd'. injection Hd' as <-. by rewrite lookup_insert, decide_True.
Qed.

(** A slot that is not freed. *)
Lemma release_one_stay fuel g s still freed :
  release_inv (table g) freed -> s < length (keys (table g)) -> (default 0 (still !! s) = 0 -> ~ loose (table g) freed s) ->
  ReaderGraph.release_one (S fuel) g s still freed = Done (freed, g).
Proof.
  intros Hri Hs Hn. apply lookup_lt_is_Some_2 in Hs as [e He]. cbn [ReaderGraph.release_one].
  destruct (Nat.ltb_spec 0 (default 0 (still !! s))) as [|Hz]; [done|].
  destruct (unreferenced_spec (table g) freed s e (ri_slots _ _ Hri) He) as (b & -> & Hb). rewrite done_bind. destruct b; [|done]. simpl.
  unfold KeyTable.entry. rewrite He. simpl. destruct (slot_key e) as [k|] eqn:Hk; [|done]. destruct Hn; [lia|].
  destruct (proj1 Hb eq_refl) as (? & ? & ?). split_and!; try done. unfold KeyTable.live_key. rewrite He. simpl. by rewrite Hk.
Qed.

Lemma loose_dec t freed s : slots_ok t -> loose t freed s \/ ~ loose t freed s.
Proof.
  intros Hsl. destruct (keys t !! s) as [e|] eqn:He.
  - destruct (unreferenced_spec t freed s e Hsl He) as (b & _ & Hb). unfold loose. destruct (KeyTable.live_key t s); [|right; by intros [[? ?] _]].
    destruct b; [left|right]; [split; [by eexists|by apply Hb]|]. intros [_ Hx]. by apply Hb in Hx.
  - right. intros [[k Hk] _]. unfold KeyTable.live_key in Hk. by rewrite He in Hk.
Qed.

Lemma loose_unreferenced t freed s :
  slots_ok t -> loose t freed s -> exists e k, keys t !! s = Some e /\ slot_key e = Some k /\ KeyTable.unreferenced_after t s freed = Done true.
Proof.
  intros Hsl ((k & Hk) & Hrest). apply live_entry in Hk as (e & He & Hk). exists e, k. split_and!; [done|done|].
  destruct (unreferenced_spec t freed s e Hsl He) as (b & -> & Hb). f_equal. by apply Hb.
Qed.

Lemma release_flat fuel g s still freed :
  release_inv (table g) freed -> s < length (keys (table g)) ->
  (forall k, KeyTable.live_key (table g) s = Some k -> base k = None) ->
  exists freed' g', ReaderGraph.release_one (S fuel) g s still freed = Done (freed', g') /\ releases g g' freed freed' still [] [s].
Proof.
  intros Hri Hs Hbase.
  assert (Hcase : (default 0 (still !! s) = 0 /\ loose (table g) freed s) \/ (default 0 (still !! s) = 0 -> ~ loose (table g) freed s)).
  { destruct (decide (default 0 (still !! s) = 0)), (loose_dec (table g) freed s (ri_slots _ _ Hri)); tauto. }
  destruct Hcase as [[Hz Hl]|Hn].
  - destruct (loose_unreferenced _ _ _ (ri_slots _ _ Hri) Hl) as (e & k & He & Hk & Hun).
    assert (Hb : base k = None) by (apply Hbase; unfold KeyTable.live_key; by rewrite He).
    rewrite (release_one_free fuel g s still freed e k) by (done || by rewrite Hz). rewrite Hb. eexists _, _. split; [done|].
    pose proof (releases_free g (free_graph g s e k) s e k freed still [] (free_graph_same _ _ _ _) (free_graph_frees _ _ _ _ He) Hri He Hk Hl Hz) as Hfr.
    unfold freed_after in Hfr at 2. rewrite Hb in Hfr. apply Hfr. intros b kb d Hb'. congruence.
  - exists freed, g. split; [by apply release_one_stay|]. apply releases_none; [done|]. by intros x ->%list_elem_of_singleton.
Qed.

Lemma release_one_ok g s still freed :
  release_inv (table g) freed -> s < length (keys (table g)) ->
  exists freed' g', ReaderGraph.release_one 2 g s still freed = Done (freed', g') /\ releases g g' freed freed' still [] [s].
Proof.
  intros Hri Hs.
  assert (Hcase : (default 0 (still !! s) = 0 /\ loose (table g) freed s) \/ (default 0 (still !! s) = 0 -> ~ loose (table g) freed s)).
  { destruct (decide (default 0 (still !! s) = 0)), (loose_dec (table g) freed s (ri_slots _ _ Hri)); tauto. }
  destruct Hcase as [[Hz Hl]|Hn].
  2: { exists freed, g. split; [by apply release_one_stay|]. apply releases_none; [done|]. by intros x ->%list_elem_of_singleton. }
  destruct (loose_unreferenced _ _ _ (ri_slots _ _ Hri) Hl) as (e & k & He & Hk & Hun).
  assert (Hlk : KeyTable.live_key (table g) s = Some k) by (unfold KeyTable.live_key; by rewrite He).
  destruct (base k) as [kb|] eqn:Hb.
  2: { apply release_flat; [done|done|]. intros k' Hk'. congruence. }
  rewrite (release_one_free 1 g s still freed e k) by (done || by rewrite Hz).
  pose proof (releases_free g (free_graph g s e k) s e k freed still) as Hfr.
  pose proof (free_graph_same g s e k) as Hsame. pose proof (free_graph_frees g s e k He) as Hf.
  revert Hfr Hsame Hf. generalize (free_graph g s e k) as g1. intros g1 Hfr Hsame Hf.
  destruct (dv_bases _ _ _ (ri_derived _ _ Hri) s k kb Hlk Hb) as (b & d & Hlb & Hd & Hin); [set_solver|].
  assert (Hri1 := freed_inv (table g) (table g1) s k freed Hri Hlk Hl Hf).
  assert (Hbs : b <> s). { intros ->. rewrite Hlk in Hlb. injection Hlb as ->. rewrite (base_flat _ _ Hb) in Hb. done. }
  assert (Hlb1 : KeyTable.live_key (table g1) b = Some kb) by (rewrite (freed_live (table g) (table g1) s Hf), decide_False; done).
  assert (Hfind : KeyTable.find (table g1) kb = Some b) by (by apply find_live; [apply (ri_index _ _ Hri1)|]).
  assert (Hafter : freed_after (table g) (table g1) k freed = <[b := S (default 0 (freed !! b))]> freed).
  { unfold freed_after. rewrite Hb. simpl. by rewrite Hfind, Hd. }
  rewrite Hafter in Hfr, Hri1. rewrite Hb. cbn [mbind option_bind]. rewrite Hfind, (fr_derived _ _ _ Hf), Hd. cbv zeta.
  destruct (Nat.eqb_spec (S (default 0 (freed !! b))) (length (derived_slots_of d))) as [Hn|Hn].
  - destruct (release_flat 0 g1 b still (<[b := S (default 0 (freed !! b))]> freed)) as (f2 & g2 & Hr2 & Hrel2); [done| | |].
    + apply live_entry in Hlb1 as (eb & Heb & _). by eapply lookup_lt_Some.
    + intros k' Hk'. rewrite Hlb1 in Hk'. injection Hk' as <-. by eapply base_flat.
    + exists f2, g2. split; [done|]. apply (releases_less _ _ _ _ _ [s] [b]). eapply (releases_app _ _ _ _ _ _ _ [b]); [|exact Hrel2|done].
      apply (Hfr [b]); try done. intros b' kb' d' Hb' Hfind' _ _ Hex. assert (kb' = kb) as -> by congruence.
      rewrite Hfind in Hfind'. injection Hfind' as <-. destruct Hex. by left.
  - eexists _, _. split; [done|]. apply (Hfr []); try done. intros b' kb' d' Hb' Hfind' _ _ _ (_ & _ & _ & Hlo).
    assert (kb' = kb) as -> by congruence. rewrite Hfind in Hfind'. injection Hfind' as <-.
    specialize (Hlo d). rewrite (fr_derived _ _ _ Hf) in Hlo. specialize (Hlo Hd). rewrite lookup_insert, decide_True in Hlo by done. injection Hlo as Hlo. lia.
Qed.

Lemma release_each_ok slots : forall g still freed,
  release_inv (table g) freed -> (forall s, s ∈ slots -> s < length (keys (table g))) ->
  exists freed' g', ReaderGraph.release_each g slots still freed = Done (freed', g') /\ releases g g' freed freed' still [] slots.
Proof.
  induction slots as [|s slots IH]; intros g still freed Hri Hs.
  - exists freed, g. split; [done|]. apply releases_none; [done|]. by intros x ?%not_elem_of_nil.
  - cbn [ReaderGraph.release_each]. destruct (release_one_ok g s still freed Hri) as (f1 & g1 & H1 & Hrel1); [apply Hs; by left|].
    rewrite H1, done_bind. destruct (IH g1 still f1) as (f2 & g2 & H2 & Hrel2); [apply (rl_inv _ _ _ _ _ _ _ Hrel1)| |].
    + intros x Hx. rewrite (rl_len _ _ _ _ _ _ _ Hrel1). apply Hs. by right.
    + exists f2, g2. split; [done|]. eapply (releases_app _ _ _ _ _ _ _ [] [s]); [done|done|by intros x ?%not_elem_of_nil].
Qed.

(** *** The lists of derived keys drop the freed slots *)

Definition prune t (d : DerivedKeys) : option DerivedKeys :=
  match filter (fun slot => is_Some (KeyTable.live_key t slot)) (derived_slots_of d) with
  | [] => None
  | l => Some (mkDerived l (checked_at d))
  end.

Definition prune_at t (b : KeyIdx) : KeyTable K :=
  match derived t !! b with
  | None => t
  | Some d =>
      let slots := filter (fun slot => is_Some (KeyTable.live_key t slot)) (derived_slots_of d) in
      match slots with
      | [] => KeyTable.with_derived t (delete b (derived t))
      | _ => KeyTable.with_derived t (<[b := mkDerived slots (checked_at d)]> (derived t))
      end
  end.

Lemma drop_freed_fold t bases : KeyTable.drop_freed_derived t bases = foldl prune_at t bases.
Proof. done. Qed.

Record tsame t t' : Prop := {
  ts_filed : key_slots t' = key_slots t;
  ts_keys : keys t' = keys t;
  ts_free : free_keys t' = free_keys t;
  ts_retired : retired t' = retired t;
  ts_more : more_producers t' = more_producers t
}.

Lemma prune_at_spec t b :
  tsame t (prune_at t b) /\ forall b', derived (prune_at t b) !! b' = if decide (b' = b) then derived t !! b ≫= prune t else derived t !! b'.
Proof.
  unfold prune_at. destruct (derived t !! b) as [d|] eqn:Hd.
  - unfold prune. simpl. destruct (filter _ (derived_slots_of d)) as [|x l] eqn:Hl; simpl; (split; [done|]); intros b'; simpl.
    + rewrite lookup_delete. by destruct (decide (b = b')), (decide (b' = b)); subst.
    + apply lookup_more.
  - split; [done|]. intros b'. by destruct (decide _) as [->|].
Qed.

Lemma tsame_trans t1 t2 t3 : tsame t1 t2 -> tsame t2 t3 -> tsame t1 t3.
Proof. intros [] []. split; congruence. Qed.

Lemma prune_same t t' d : keys t' = keys t -> prune t' d = prune t d.
Proof. intros Hk. unfold prune. by rewrite (filter_iff_in _ (fun slot => is_Some (KeyTable.live_key t slot))) by (intros x _; by rewrite (live_same_keys t t' Hk)). Qed.

Lemma prune_twice t d : prune t d ≫= prune t = prune t d.
Proof.
  destruct (prune t d) as [d'|] eqn:Hp; [|done]. simpl. unfold prune in Hp.
  destruct (filter _ (derived_slots_of d)) as [|x l] eqn:Hl; [done|]. injection Hp as <-. unfold prune. cbn [derived_slots_of].
  rewrite filter_all; [done|]. intros y Hy. rewrite <- Hl in Hy. by apply list_elem_of_filter in Hy as [? _].
Qed.

Lemma drop_freed_spec bases : forall t,
  tsame t (KeyTable.drop_freed_derived t bases)
  /\ forall b, derived (KeyTable.drop_freed_derived t bases) !! b = if decide (b ∈ bases) then derived t !! b ≫= prune t else derived t !! b.
Proof.
  induction bases as [|b0 bases IH]; intros t; [done|]. rewrite drop_freed_fold. cbn [foldl]. rewrite <- drop_freed_fold.
  destruct (prune_at_spec t b0) as [Hs Hd]. destruct (IH (prune_at t b0)) as [Hs' Hd']. split; [by eapply tsame_trans|].
  intros b. rewrite Hd', !Hd. destruct (decide (b = b0)) as [->|Hne].
  - rewrite (decide_True (P := b0 ∈ b0 :: bases)) by by left. destruct (decide (b0 ∈ bases)); [|done].
    destruct (derived t !! b0) as [d|]; [|done]. simpl. rewrite <- (prune_twice t d) at 2. destruct (prune t d); [|done]. simpl.
    apply prune_same, Hs.
  - destruct (decide (b ∈ bases)), (decide (b ∈ b0 :: bases)) as [Hin|Hin]; try set_solver.
    destruct (derived t !! b); [|done]. simpl. apply prune_same, Hs.
Qed.

Lemma filter_complement {A} (P Q : A -> Prop) `{!forall x, Decision (P x)} `{!forall x, Decision (Q x)} (l : list A) :
  (forall x, P x <-> ~ Q x) -> length (filter P l) + length (filter Q l) = length l.
Proof.
  intros HPQ. induction l as [|x l IH]; [done|]. rewrite !filter_cons. specialize (HPQ x).
  destruct (decide (P x)), (decide (Q x)); simpl; try lia; tauto.
Qed.

(** What is left of a list: all of it where nothing was freed, nothing where
    everything was. *)
Lemma prune_count t d :
  length (filter (fun s => is_Some (KeyTable.live_key t s)) (derived_slots_of d))
  + length (filter (fun s => KeyTable.live_key t s = None) (derived_slots_of d)) = length (derived_slots_of d).
Proof. apply filter_complement. intros x. rewrite eq_None_not_Some. split; [by intros ? ?|]. intros Hn. by apply dec_stable. Qed.

Lemma prune_spec t d :
  match prune t d with
  | None => forall s, s ∈ derived_slots_of d -> KeyTable.live_key t s = None
  | Some d' => derived_slots_of d' <> [] /\ forall s, s ∈ derived_slots_of d' <-> s ∈ derived_slots_of d /\ is_Some (KeyTable.live_key t s)
  end.
Proof.
  unfold prune. destruct (filter _ (derived_slots_of d)) as [|x l] eqn:Hl.
  - intros s Hs. destruct (KeyTable.live_key t s) eqn:Hk; [|done].
    assert (Hin : s ∈ filter (fun s => is_Some (KeyTable.live_key t s)) (derived_slots_of d)) by (apply list_elem_of_filter; split; [by eexists|done]).
    rewrite Hl in Hin. by apply not_elem_of_nil in Hin.
  - split; [done|]. intros s. simpl. rewrite <- Hl, list_elem_of_filter. tauto.
Qed.

Lemma drop_freed_ok t freed bases :
  release_inv t freed -> (forall b n, freed !! b = Some n -> b ∈ bases) ->
  table_ok (KeyTable.drop_freed_derived t bases).
Proof.
  intros [Hix Hdv Hsl] Hb. destruct (drop_freed_spec bases t) as [[T1 T2 T3 T4 T5] Hd]. set (t' := KeyTable.drop_freed_derived t bases) in *.
  assert (Hl := live_same_keys t t' T2).
  assert (Hfull : forall b d, derived t !! b = Some d -> b ∉ bases -> forall x, x ∈ derived_slots_of d -> is_Some (KeyTable.live_key t x)).
  { intros b d Hbd Hn x Hx. destruct (dv_lists _ _ _ Hdv b d Hbd) as (_ & _ & _ & Hc & _).
    destruct (freed !! b) as [n|] eqn:Hf; [by destruct Hn; apply (Hb b n)|]. simpl in Hc. apply length_zero_iff_nil in Hc.
    destruct (KeyTable.live_key t x) eqn:Hlx; [done|].
    assert (Hin : x ∈ filter (fun s => KeyTable.live_key t s = None) (derived_slots_of d)) by (apply list_elem_of_filter; done).
    rewrite Hc in Hin. by apply not_elem_of_nil in Hin. }
  assert (Hcase : forall b d', derived t' !! b = Some d' -> exists d, derived t !! b = Some d /\ derived_slots_of d' <> [] /\ NoDup (derived_slots_of d')
            /\ forall x, x ∈ derived_slots_of d' <-> x ∈ derived_slots_of d /\ is_Some (KeyTable.live_key t x)).
  { intros b d'. rewrite Hd. destruct (decide (b ∈ bases)) as [Hin|Hn].
    - intros (d & Hbd & Hp)%bind_Some. exists d. pose proof (prune_spec t d) as Hps. rewrite Hp in Hps. destruct Hps. split_and!; try done.
      unfold prune in Hp. destruct (filter _ (derived_slots_of d)) eqn:Hfl; [done|]. injection Hp as <-. simpl. rewrite <- Hfl.
      apply NoDup_filter. by apply (dv_lists _ _ _ Hdv b d Hbd).
    - intros Hbd. exists d'. destruct (dv_lists _ _ _ Hdv b d' Hbd) as (? & ? & _). split_and!; try done. intros x. split; [|by intros [? _]].
      intros Hx. split; [done|]. by eapply Hfull. }
  split.
  - by apply (index_ok_same t); rewrite ?T3, ?T4.
  - split.
    + intros b d' Hbd'. destruct (Hcase b d' Hbd') as (d & Hbd & Hne & Hnd & Hx). destruct (dv_lists _ _ _ Hdv b d Hbd) as (_ & _ & Hlist & _ & Hlt).
      split_and!; [done|done| | |].
      * intros s k Hs. rewrite !Hl. apply Hlist. by apply Hx.
      * rewrite lookup_empty. simpl. apply length_zero_iff_nil, filter_none. intros x Hin. rewrite Hl. apply Hx in Hin as [_ [k Hk]]. congruence.
      * intros s Hs. rewrite T2. apply Hlt. by apply Hx.
    + intros s k kb. rewrite Hl. intros Hk Hbase HE. destruct (dv_bases _ _ _ Hdv s k kb Hk Hbase HE) as (b & d & H1 & H2 & H3).
      assert (Hd' : exists d', derived t' !! b = Some d' /\ s ∈ derived_slots_of d').
      { rewrite Hd. destruct (decide (b ∈ bases)); [|by exists d]. rewrite H2. simpl. pose proof (prune_spec t d) as Hps.
        destruct (prune t d) as [d'|]; [|by rewrite (Hps s H3) in Hk]. exists d'. split; [done|]. apply Hps. split; [done|by eexists]. }
      destruct Hd' as (d' & ? & ?). exists b, d'. by rewrite Hl.
    + intros b n Hbn. by rewrite lookup_empty in Hbn.
  - by apply (slots_ok_same t).
Qed.

(** *** [release_slots] and [release_keys] *)

(** Nothing refers to the slot, and no key is read out of its key. *)
Notation unused t s := (loose t ∅ s).

Lemma interned_unused t t' k s x : interned t t' k s ∅ -> table_ok t -> unused t' x -> unused t x \/ x = s.
Proof.
  intros [I1 I2 I3 I4 I5 I6 I7] Hok ((kx & Hx) & Hr & Hp & Hd).
  assert (Hnone : derived t' !! x = None) by (destruct (derived t' !! x) as [d|] eqn:Hdx; [by specialize (Hd d eq_refl)|done]).
  destruct (I6 x kx Hx) as [Hold|[|Hb]]; [left|by right|].
  - split_and!; [by exists kx|by rewrite <- (gr_readers _ _ I5)| |].
    + unfold prods in *. by rewrite <- (gr_marks _ _ I5), <- (gr_more _ _ I5).
    + intros d Hdx. destruct (I7 x) as [? ?]; [by exists d|congruence].
  - exfalso. destruct (dv_bases _ _ _ I2 s k kx I4 Hb) as (b & d & Hb1 & Hb2 & _); [set_solver|].
    assert (b = x) as -> by by eapply (ix_one _ I1). congruence.
Qed.

Record released g g' (still : gmap KeyIdx nat) (slots : list KeyIdx) : Prop := {
  rd_same : gsame g g';
  rd_table : table_ok (table g');
  rd_len : length (keys (table g')) = length (keys (table g));
  rd_kept : forall x, is_Some (KeyTable.live_key (table g') x) -> keys (table g') !! x = keys (table g) !! x;
  rd_readers : forall x, readers_at (table g') x = readers_at (table g) x;
  rd_prods : forall x, prods (table g') x = prods (table g) x;
  rd_gone : forall x, is_Some (KeyTable.live_key (table g) x) -> KeyTable.live_key (table g') x = None ->
    readers_at (table g) x = None_ /\ prods (table g) x = [] /\ default 0 (still !! x) = 0;
  rd_unused : forall x, default 0 (still !! x) = 0 -> unused (table g') x -> unused (table g) x /\ x ∉ slots
}.

Lemma table_release t : table_ok t <-> release_inv t ∅.
Proof. split; intros []; by split. Qed.

Lemma release_slots_ok g slots still :
  table_ok (table g) -> (forall s, s ∈ slots -> s < length (keys (table g))) ->
  exists g', ReaderGraph.release_slots g slots still = Done g' /\ released g g' still slots.
Proof.
  intros Hok Hs. apply table_release in Hok. unfold ReaderGraph.release_slots.
  destruct (release_each_ok slots g still ∅ Hok Hs) as (freed & g1 & Hr & [R1 R2 R3 R4 R5 R6 R7 R8]). rewrite Hr, done_bind.
  eexists. split; [done|]. set (bases := (map_to_list freed).*1).
  destruct (drop_freed_spec bases (table g1)) as [[T1 T2 T3 T4 T5] Hd].
  assert (Hl := live_same_keys (table g1) (KeyTable.drop_freed_derived (table g1) bases) T2).
  assert (Hra : forall x, readers_at (KeyTable.drop_freed_derived (table g1) bases) x = readers_at (table g1) x)
    by (intros x; unfold readers_at; by rewrite T2).
  assert (Hpr : forall x, prods (KeyTable.drop_freed_derived (table g1) bases) x = prods (table g1) x)
    by (intros x; unfold prods, marks_at; by rewrite T2, T5).
  assert (Hbases : forall b n, freed !! b = Some n -> b ∈ bases).
  { intros b n Hb. apply list_elem_of_fmap. exists (b, n). split; [done|]. by apply elem_of_map_to_list. }
  split; simpl.
  - destruct R1. by split.
  - by eapply drop_freed_ok.
  - by rewrite T2.
  - intros x. rewrite Hl, T2. apply R4.
  - intros x. by rewrite Hra.
  - intros x. by rewrite Hpr.
  - intros x. rewrite Hl. apply R7.
  - intros x Hsx (Hlx & Hrx & Hpx & Hdx). rewrite Hl in Hlx. rewrite Hra in Hrx. rewrite Hpr in Hpx.
    assert (Hnone : derived (KeyTable.drop_freed_derived (table g1) bases) !! x = None).
    { destruct (derived _ !! x) as [d|] eqn:Hx; [|done]. by specialize (Hdx d eq_refl). }
    destruct (R8 x Hsx) as [H1 H2]; [by intros ?%not_elem_of_nil| |by split].
    split_and!; [done|done|done|]. intros d Hdd. rewrite Hd in Hnone. destruct (decide (x ∈ bases)) as [Hin|]; [|congruence].
    rewrite Hdd in Hnone. simpl in Hnone. pose proof (prune_spec (table g1) d) as Hps. rewrite Hnone in Hps.
    destruct (dv_lists _ _ _ (ri_derived _ _ R2) x d Hdd) as (_ & _ & _ & Hc & _). rewrite filter_all in Hc by done.
    destruct (freed !! x) as [n|] eqn:Hf; [simpl in Hc; by subst|]. simpl in Hc. apply length_zero_iff_nil in Hc.
    by destruct (dv_lists _ _ _ (ri_derived _ _ R2) x d Hdd) as (? & _).
Qed.

(** A slot that cannot be freed now is passed over wherever it comes. *)
Lemma release_each_cut (P : KeyIdx -> bool) slots : forall g freed,
  release_inv (table g) freed -> (forall s, s ∈ slots -> s < length (keys (table g))) ->
  (forall s, s ∈ slots -> P s = false -> ~ loose (table g) freed s) ->
  ReaderGraph.release_each g (filter (fun s => P s = true) slots) ∅ freed = ReaderGraph.release_each g slots ∅ freed.
Proof.
  induction slots as [|s slots IH]; intros g freed Hri Hs Hn; [done|]. rewrite filter_cons.
  destruct (decide (P s = true)) as [HP|HP].
  - cbn [ReaderGraph.release_each]. destruct (release_one_ok g s ∅ freed Hri) as (f1 & g1 & -> & Hrel); [apply Hs; by left|].
    rewrite !done_bind. apply IH; [apply (rl_inv _ _ _ _ _ _ _ Hrel)| |].
    + intros x Hx. rewrite (rl_len _ _ _ _ _ _ _ Hrel). apply Hs. by right.
    + intros x Hx HPx Hl. apply (Hn x); [by right|done|]. apply (rl_loose _ _ _ _ _ _ _ Hrel); [done|by intros ?%not_elem_of_nil|done].
  - cbn [ReaderGraph.release_each]. apply not_true_iff_false in HP.
    rewrite release_one_stay; [|done|apply Hs; by left|intros _; apply Hn; [by left|done]]. rewrite done_bind.
    apply IH; [done|intros x Hx; apply Hs; by right|intros x Hx; apply Hn; by right].
Qed.

Definition can_go t (s : KeyIdx) : bool :=
  match KeyTable.live_key t s with
  | None => false
  | Some _ => match KeyTable.unreferenced t s with Done b => b | _ => false end
  end.

Lemma releasable_filter g slots :
  (forall s, s ∈ slots -> s < length (keys (table g))) ->
  ReaderGraph.releasable g slots = Done (filter (fun s => can_go (table g) s = true) slots).
Proof.
  induction slots as [|s slots IH]; intros Hs; [done|]. cbn [ReaderGraph.releasable]. rewrite IH by (intros x Hx; apply Hs; by right).
  assert (Hlt : s < length (keys (table g))) by (apply Hs; by left). apply lookup_lt_is_Some_2 in Hlt as [e He].
  assert (match KeyTable.live_key (table g) s with Some _ => KeyTable.unreferenced (table g) s | None => Done false end
          = Done (can_go (table g) s)) as ->.
  { unfold can_go. destruct (KeyTable.live_key (table g) s); [|done].
    unfold KeyTable.unreferenced, KeyTable.unreferenced_after, KeyTable.entry. by rewrite He. }
  rewrite !done_bind, filter_cons. by destruct (can_go (table g) s).
Qed.

(** A large batch is cut to the slots that can be freed. *)
Lemma release_keys_all g slots :
  table_ok (table g) -> (forall s, s ∈ slots -> s < length (keys (table g))) ->
  ReaderGraph.release_keys g slots = ReaderGraph.release_slots g slots ∅.
Proof.
  intros Hok Hs. unfold ReaderGraph.release_keys. destruct (_ <? _)%N; [done|].
  rewrite releasable_filter, done_bind by done. unfold ReaderGraph.release_slots.
  rewrite release_each_cut; [done|by apply table_release|done|]. intros s Hin Hgo Hl.
  destruct (loose_unreferenced _ _ _ (tb_slots _ Hok) Hl) as (e & k & He & Hk & Hun).
  unfold can_go, KeyTable.live_key, KeyTable.unreferenced in Hgo. rewrite He in Hgo. simpl in Hgo. by rewrite Hk, Hun in Hgo.
Qed.
End Release.
