(* ===== verification/ReaderGraphProofs.v ===== *)
(** * The reader graph agrees with its records

    The invariant of the reader graph - every record's reads and outputs are
    the readers and producers of their slots and nothing else is - and what
    the parts of recording an evaluation do to it. *)

From S2P Require Import Prelude FileOrder Derivation Readers ReadersProofs KeyTable KeyTableProofs KeyUseProofs ReaderGraph KeyReleaseProofs.
From stdpp Require Import list gmap sorting.
Local Open Scope prog_scope.

(** ** Sorted slots *)

Lemma sorted_firsts {T} (l : list (KeyIdx * T)) : NoDup l.*1 -> rising (sort_by slot_pair_le l).*1.
Proof.
  intros Hnd. assert (Hp := sort_by_perm slot_pair_le l).
  assert (Hs : StronglySorted (fun a b => slot_pair_le a b = true) (sort_by slot_pair_le l)).
  { unfold slot_pair_le. apply sort_by_strongly_sorted; [intros a b Hab%Nat.leb_gt; apply Nat.leb_le; lia|].
    intros a b c Hab%Nat.leb_le Hbc%Nat.leb_le. apply Nat.leb_le. lia. }
  assert (Hn : NoDup (sort_by slot_pair_le l).*1) by by rewrite Hp. clear Hp.
  induction Hs as [|x l' Hl IH Hx]; [constructor|]. rewrite fmap_cons in Hn |- *. apply NoDup_cons in Hn as [Hxn Hn].
  constructor; [by apply IH|]. apply Forall_forall. intros y (p & -> & Hin)%list_elem_of_fmap.
  rewrite Forall_forall in Hx. specialize (Hx p Hin). unfold slot_pair_le in Hx. apply Nat.leb_le in Hx.
  assert (x.1 <> p.1); [|lia]. intros Heq. apply Hxn. rewrite Heq. by apply list_elem_of_fmap_2.
Qed.

Lemma dedup_elem (l : list nat) x : x ∈ dedup l <-> x ∈ l.
Proof.
  induction l as [|y l IH]; [done|]. destruct l as [|z l]; [done|]. cbn [dedup]. destruct (Nat.eqb_spec y z) as [->|Hne].
  - rewrite IH, !elem_of_cons. tauto.
  - rewrite !elem_of_cons, IH, elem_of_cons. done.
Qed.

Lemma dedup_rising (l : list nat) : StronglySorted le l -> rising (dedup l).
Proof.
  induction l as [|y l IH]; intros Hs; [constructor|]. apply StronglySorted_inv in Hs as [Hs Hy]. specialize (IH Hs).
  destruct l as [|z l]; [repeat constructor|]. cbn [dedup]. destruct (Nat.eqb_spec y z) as [->|Hne]; [done|].
  constructor; [done|]. apply Forall_forall. intros x Hx. apply (dedup_elem (z :: l)) in Hx.
  apply Forall_cons in Hy as [Hyz _]. apply elem_of_cons in Hx as [->|Hx]; [lia|].
  apply StronglySorted_inv in Hs as [_ Hz]. rewrite Forall_forall in Hz. specialize (Hz x Hx). lia.
Qed.

Lemma sort_leb_sorted (l : list nat) : StronglySorted le (sort_by Nat.leb l).
Proof.
  eapply StronglySorted_mono; [|apply (sort_by_strongly_sorted Nat.leb)].
  - intros x y. apply Nat.leb_le.
  - intros a b Hab%Nat.leb_gt. apply Nat.leb_le. lia.
  - intros a b c Hab%Nat.leb_le Hbc%Nat.leb_le. apply Nat.leb_le. lia.
Qed.

Lemma sorted_set_rising (l : list nat) : rising (dedup (sort_by Nat.leb l)) /\ forall x, x ∈ dedup (sort_by Nat.leb l) <-> x ∈ l.
Proof.
  split; [apply dedup_rising, sort_leb_sorted|]. intros x. by rewrite dedup_elem, (sort_by_perm Nat.leb).
Qed.

(** What only one of two rising lists has. *)
Lemma merge_sorted_spec fuel : forall old new,
  rising old -> rising new -> length old + length new <= fuel ->
  merge_sorted fuel old new = (filter (fun x => x ∉ new) old, filter (fun x => x ∉ old) new).
Proof.
  assert (Hnil : forall l : list nat, filter (fun x => x ∉ []) l = l) by (intros l; apply filter_all; intros x _; apply not_elem_of_nil).
  induction fuel as [|fuel IH]; intros old new Ho Hn Hlen.
  - destruct old, new; simpl in *; try lia. done.
  - destruct old as [|l old]; [by rewrite Hnil|]. destruct new as [|r new]; [by rewrite Hnil|]. cbn [merge_sorted].
    apply StronglySorted_inv in Ho as Ho'. destruct Ho' as [Ho1 Ho2]. apply StronglySorted_inv in Hn as Hn'. destruct Hn' as [Hn1 Hn2].
    rewrite Forall_forall in Ho2, Hn2. simpl in Hlen. destruct (Nat.eqb_spec l r) as [->|Hne].
    + rewrite IH by (done || lia). rewrite !filter_cons, !decide_False by (intros Hx; apply Hx; by left).
      f_equal; apply filter_iff_in; intros x Hx; rewrite elem_of_cons.
      * specialize (Ho2 x Hx). split; [|tauto]. intros Hx' [->|]; [lia|done].
      * specialize (Hn2 x Hx). split; [|tauto]. intros Hx' [->|]; [lia|done].
    + destruct (Nat.ltb_spec l r) as [Hlt|Hge].
      * rewrite IH by (done || simpl; lia). rewrite (filter_cons _ l).
        rewrite decide_True by (intros [->|Hx%Hn2]%elem_of_cons; lia). f_equal.
        apply filter_iff_in. intros x Hx. rewrite elem_of_cons. split; [|tauto]. intros Hx' [->|]; [|done].
        apply elem_of_cons in Hx as [->|Hx%Hn2]; lia.
      * rewrite IH by (done || simpl; lia). rewrite (filter_cons _ r new).
        rewrite decide_True by (intros [->|Hx%Ho2]%elem_of_cons; lia). f_equal.
        apply filter_iff_in. intros x Hx. rewrite elem_of_cons. split; [|tauto]. intros Hx' [->|]; [|done].
        apply elem_of_cons in Hx as [->|Hx%Ho2]; lia.
Qed.

Section Graph.
Context {K : Type} `{HK : FactKeys K}.
Implicit Types t : KeyTable K.
Implicit Types g : ReaderGraph K.

(** ** The invariant *)

Definition rec_at g (d : DerivIdx) : option Record_ := ds ← derivations g !! d; slot_record ds.
Definition id_at g (d : DerivIdx) : option DerivationId := slot_id <$> derivations g !! d.
Definition file_at g (d : DerivIdx) : option FileId := deriv_file <$> id_at g d.

Definition rec_reads g (d : DerivIdx) (s : KeyIdx) : Prop := exists r, rec_at g d = Some r /\ s ∈ Record_.reads r.
Definition rec_outputs g (d : DerivIdx) (s : KeyIdx) : Prop := exists r, rec_at g d = Some r /\ s ∈ Record_.outputs r.

(** The slots of derivations. *)
Record derivs_ok g : Prop := {
  dr_filed : NoDup (deriv_slots g);
  dr_slot : forall d, d ∈ deriv_slots g -> d < length (derivations g);
  dr_one : forall d1 d2, d1 ∈ deriv_slots g -> d2 ∈ deriv_slots g -> id_at g d1 = id_at g d2 -> d1 = d2;
  dr_free : NoDup (free_derivations g);
  dr_dead : forall d, d ∈ free_derivations g -> d < length (derivations g) /\ d ∉ deriv_slots g;
  dr_record : forall d r, rec_at g d = Some r -> d ∈ deriv_slots g;
  dr_small : (N.of_nat (length (derivations g)) <= NO_PRODUCER)%N
}.

Definition owner_at t (s : KeyIdx) : option FileId := k ← KeyTable.live_key t s; owning_file k.

(** How many of the slots hold keys of a file. *)
Definition owned t (l : list KeyIdx) (owner : FileId) : nat := length (filter (fun s => owner_at t s = Some owner) l).

(** The counts of keys that other files' derivations produce. *)
Record foreign_is (F : gmap FileId (gmap DerivIdx nat)) (count : DerivIdx -> FileId -> nat) : Prop := {
  fo_count : forall d owner, default 0 (default ∅ (F !! owner) !! d) = count d owner;
  fo_some : forall owner m, F !! owner = Some m -> m <> ∅;
  fo_positive : forall owner m d, F !! owner = Some m -> m !! d <> Some 0
}.

Definition foreign_count g (d : DerivIdx) (owner : FileId) : nat :=
  if decide (file_at g d = Some owner) then 0 else owned (table g) (from_option Record_.outputs [] (rec_at g d)) owner.

Record graph_ok g : Prop := {
  gi_table : table_ok (table g);
  gi_generation : (generation g < NO_GENERATION)%N;
  gi_derivs : derivs_ok g;
  gi_rising : forall d r, rec_at g d = Some r -> rising (Record_.reads r) /\ rising (Record_.outputs r);
  gi_reads : forall s d, (exists fp, reads (readers_at (table g) s) d fp) <-> rec_reads g d s;
  gi_outputs : forall s d, d ∈ prods (table g) s <-> rec_outputs g d s;
  gi_by_file : forall f d, d ∈ default ∅ (by_file g !! f) <-> is_Some (rec_at g d) /\ file_at g d = Some f;
  gi_foreign : foreign_is (foreign_producers_of g) (foreign_count g)
}.

(** ** Derivations *)

Lemma deriv_slot_spec g id d :
  derivs_ok g -> ReaderGraph.deriv_slot g id = Some d <-> d ∈ deriv_slots g /\ id_at g d = Some id.
Proof.
  intros Hok. unfold ReaderGraph.deriv_slot. split.
  - intros [Hin Hb]%find_some. apply list_elem_of_In in Hin. by apply bool_decide_eq_true in Hb.
  - intros [Hin Hid]. destruct (List.find _ _) as [d'|] eqn:Hf.
    + apply find_some in Hf as [Hin' Hb]. apply list_elem_of_In in Hin'. apply bool_decide_eq_true in Hb. f_equal.
      apply (dr_one g Hok); [done|done|]. by rewrite Hid.
    + eapply find_none in Hf; [|by apply list_elem_of_In]. by apply bool_decide_eq_false in Hf.
Qed.

Lemma record_spec g id d r :
  derivs_ok g -> ReaderGraph.record g id = Some (d, r) <-> id_at g d = Some id /\ rec_at g d = Some r.
Proof.
  intros Hok. unfold ReaderGraph.record. split.
  - intros (d' & Hd & (ds & Hds & (r' & Hr & [= -> ->])%bind_Some)%bind_Some)%bind_Some.
    apply deriv_slot_spec in Hd as [_ Hid]; [|done]. split; [done|]. unfold rec_at. by rewrite Hds.
  - intros [Hid Hr]. rewrite (proj2 (deriv_slot_spec g id d Hok)) by (split; [by eapply dr_record|done]). simpl.
    unfold rec_at in Hr. destruct (derivations g !! d) as [ds|]; [|done]. simpl in *. by rewrite Hr.
Qed.

(** A derivation has its slot and nothing else changed. *)
Record slotted g g' (id : DerivationId) (d : DerivIdx) : Prop := {
  sd_table : table g' = table g;
  sd_clock : clock g' = clock g;
  sd_rest : by_file g' = by_file g /\ foreign_producers_of g' = foreign_producers_of g /\ generation g' = generation g
    /\ held_releases g' = held_releases g;
  sd_derivs : derivs_ok g';
  sd_slot : d ∈ deriv_slots g';
  sd_id : id_at g' d = Some id;
  sd_records : forall d', rec_at g' d' = rec_at g d';
  sd_ids : forall d', d' <> d -> id_at g' d' = id_at g d';
  sd_old : is_Some (rec_at g d) -> id_at g d = Some id;
  sd_len : length (derivations g') <= S (length (derivations g))
}.

Lemma rec_at_none g d : derivs_ok g -> d ∉ deriv_slots g -> rec_at g d = None.
Proof. intros Hok Hd. destruct (rec_at g d) as [r|] eqn:Hr; [|done]. destruct Hd. by eapply dr_record. Qed.

(** A slot for a derivation that has none. *)
Lemma new_slotted g id d l free :
  derivs_ok g -> (forall d', d' ∈ deriv_slots g -> id_at g d' <> Some id) -> d ∉ deriv_slots g ->
  (forall d', l !! d' = if decide (d' = d) then Some (mkDerivSlot id None) else derivations g !! d') ->
  length (derivations g) <= length l <= S (length (derivations g)) -> d < length l -> (N.of_nat (length l) <= NO_PRODUCER)%N ->
  NoDup free -> (forall d', d' ∈ free -> d' ∈ free_derivations g /\ d' <> d) ->
  slotted g (ReaderGraph.with_derivations g (deriv_slots g ++ [d]) l free) id d.
Proof.
  intros Hok Hnew Hd Hl Hlen Hlt Hsmall Hnf Hfree. set (g' := ReaderGraph.with_derivations g (deriv_slots g ++ [d]) l free).
  assert (Hid : forall d', id_at g' d' = if decide (d' = d) then Some id else id_at g d').
  { intros d'. unfold id_at. simpl. rewrite Hl. by destruct (decide _). }
  assert (Hrec : forall d', rec_at g' d' = rec_at g d').
  { intros d'. unfold rec_at. simpl. rewrite Hl. destruct (decide (d' = d)) as [->|]; [|done]. symmetry. by apply rec_at_none. }
  split; try done.
  - split; simpl.
    + apply NoDup_app. split_and!; [apply Hok| |apply NoDup_singleton]. by intros x Hx ->%list_elem_of_singleton.
    + intros d' [Hin| ->%list_elem_of_singleton]%elem_of_app; [|done]. pose proof (dr_slot g Hok d' Hin). lia.
    + intros d1 d2. rewrite !elem_of_app, !list_elem_of_singleton, !Hid. intros [H1| ->] [H2| ->]; rewrite ?(decide_True (P := d = d)) by done.
      * rewrite !decide_False by (by intros ->). by apply (dr_one g Hok).
      * rewrite decide_False by (by intros ->). intros Hx. by destruct (Hnew d1 H1).
      * rewrite (decide_False (P := d2 = d)) by (by intros ->). intros Hx. by destruct (Hnew d2 H2).
      * done.
    + done.
    + intros d' Hd'. destruct (Hfree d' Hd') as [Hin Hne]. destruct (dr_dead g Hok d' Hin). split; [lia|]. set_solver.
    + intros d' r. rewrite Hrec. intros Hr. apply elem_of_app. left. by eapply dr_record.
    + done.
  - simpl. set_solver.
  - by rewrite Hid, decide_True.
  - intros d' Hne. by rewrite Hid, decide_False.
  - intros [r Hr]. destruct Hd. by eapply dr_record.
  - simpl. lia.
Qed.

Lemma new_derivation_ok g id :
  derivs_ok g -> (forall d', d' ∈ deriv_slots g -> id_at g d' <> Some id) -> (N.of_nat (length (derivations g)) < NO_PRODUCER)%N ->
  exists d g', ReaderGraph.new_derivation g id = Done (d, g') /\ slotted g g' id d.
Proof.
  intros Hok Hnew Hsmall. unfold ReaderGraph.new_derivation. destruct (last (free_derivations g)) as [d|] eqn:Hlast.
  - apply last_Some in Hlast as [l Hl]. rewrite Hl.
    assert (Htake : take (length (l ++ [d]) - 1) (l ++ [d]) = l) by (rewrite length_app; simpl; by rewrite Nat.add_sub, take_app_length).
    assert (Hin : d ∈ free_derivations g) by (rewrite Hl; set_solver). destruct (dr_dead g Hok d Hin) as [Hlt Hd].
    assert (Hlt' := Hlt). apply lookup_lt_is_Some_2 in Hlt' as [ds Hds]. unfold ReaderGraph.derivation. rewrite Hds. simpl. rewrite Htake.
    eexists _, _. split; [done|]. assert (Hnd := dr_free g Hok). rewrite Hl in Hnd. apply NoDup_app in Hnd as (Hnd & Hdis & _).
    apply new_slotted; try done.
    + intros d'. destruct (decide (d' = d)) as [->|]; [by apply list_lookup_insert_eq|by apply list_lookup_insert_ne].
    + rewrite length_insert. lia.
    + by rewrite length_insert.
    + rewrite length_insert. lia.
    + intros d' Hd'. rewrite Hl. split; [set_solver|]. intros ->. apply (Hdis d Hd'). by left.
  - rewrite (proj2 (N.ltb_lt _ _) Hsmall). eexists _, _. split; [done|].
    assert (Hd : length (derivations g) ∉ deriv_slots g) by (intros Hin%dr_slot; [lia|done]).
    apply new_slotted; try done.
    + intros d'. destruct (decide (d' = length (derivations g))) as [->|Hne].
      * by rewrite list_lookup_middle.
      * destruct (decide (d' < length (derivations g))) as [Hlt|Hge]; [by rewrite lookup_app_l|].
        rewrite !lookup_ge_None_2; [done|lia|rewrite length_app; simpl; lia].
    + rewrite length_app. simpl. lia.
    + rewrite length_app. simpl. lia.
    + rewrite length_app. simpl. lia.
    + apply Hok.
    + intros d' Hd'. split; [done|]. intros ->. apply (dr_dead g Hok) in Hd' as [? _]. lia.
Qed.

Lemma intern_derivation_ok g id :
  derivs_ok g -> (N.of_nat (length (derivations g)) < NO_PRODUCER)%N ->
  exists d g', ReaderGraph.intern_derivation g id = Done (d, g') /\ slotted g g' id d.
Proof.
  intros Hok Hsmall. unfold ReaderGraph.intern_derivation. destruct (ReaderGraph.deriv_slot g id) as [d|] eqn:Hd.
  - apply deriv_slot_spec in Hd as [Hin Hid]; [|done]. exists d, g. split; [done|]. by split; try lia.
  - apply new_derivation_ok; [done| |done]. intros d' Hin Hid.
    rewrite (proj2 (deriv_slot_spec g id d' Hok)) in Hd; done.
Qed.

(** ** Steps that change neither records nor edges *)

Lemma owned_ext t t' l owner : (forall s, s ∈ l -> owner_at t' s = owner_at t s) -> owned t' l owner = owned t l owner.
Proof. intros Hl. unfold owned. f_equal. apply filter_iff_in. intros s Hs. by rewrite Hl. Qed.

Lemma foreign_is_ext F c c' : (forall d owner, c d owner = c' d owner) -> foreign_is F c -> foreign_is F c'.
Proof. intros Hc [H1 H2 H3]. split; [|done|done]. intros d owner. by rewrite H1. Qed.

Record keeps g g' : Prop := {
  kp_rec : forall d, rec_at g' d = rec_at g d;
  kp_id : forall d, is_Some (rec_at g d) -> id_at g' d = id_at g d;
  kp_reads : forall s d fp, reads (readers_at (table g') s) d fp <-> reads (readers_at (table g) s) d fp;
  kp_prods : forall s, prods (table g') s = prods (table g) s;
  kp_owner : forall s, prods (table g) s <> [] -> owner_at (table g') s = owner_at (table g) s;
  kp_by_file : by_file g' = by_file g;
  kp_foreign : foreign_producers_of g' = foreign_producers_of g;
  kp_generation : generation g' = generation g
}.

Lemma keeps_ok g g' : keeps g g' -> table_ok (table g') -> derivs_ok g' -> graph_ok g -> graph_ok g'.
Proof.
  intros [P1 P2 P3 P4 P5 P6 P7 P8] Ht Hd [G1 G2 G3 G4 G5 G6 G7 G8].
  assert (Hrr : forall d s, rec_reads g' d s <-> rec_reads g d s) by (intros d s; unfold rec_reads; by setoid_rewrite P1).
  assert (Hro : forall d s, rec_outputs g' d s <-> rec_outputs g d s) by (intros d s; unfold rec_outputs; by setoid_rewrite P1).
  split; [done|by rewrite P8|done| | | | |].
  - intros d r. rewrite P1. apply G4.
  - intros s d. setoid_rewrite P3. rewrite Hrr. apply G5.
  - intros s d. rewrite P4, Hro. apply G6.
  - intros f d. rewrite P6, P1, G7. split; intros [Hs Hf]; (split; [done|]).
    + unfold file_at in *. by rewrite P2.
    + unfold file_at in *. by rewrite <- P2.
  - rewrite P7. eapply foreign_is_ext; [|exact G8]. intros d owner. unfold foreign_count. rewrite P1.
    destruct (rec_at g d) as [r|] eqn:Hr; simpl.
    + assert (file_at g' d = file_at g d) as -> by (unfold file_at; by rewrite P2 by by eexists).
      destruct (decide _); [done|]. symmetry. apply owned_ext. intros s Hs. apply P5. intros Hp.
      assert (Hin : d ∈ prods (table g) s) by (apply G6; by exists r). rewrite Hp in Hin. by apply not_elem_of_nil in Hin.
    + by destruct (decide _), (decide _).
Qed.

Lemma keeps_trans g1 g2 g3 : keeps g1 g2 -> keeps g2 g3 -> keeps g1 g3.
Proof.
  intros [A1 A2 A3 A4 A5 A6 A7 A8] [B1 B2 B3 B4 B5 B6 B7 B8]. split; [| | | | |congruence..].
  - intros d. by rewrite B1.
  - intros d Hr. rewrite B2 by by rewrite A1. by apply A2.
  - intros s d fp. by rewrite B3.
  - intros s. by rewrite B4.
  - intros s Hs. rewrite B5 by by rewrite A4. by apply A5.
Qed.

(** The derivations are the same. *)
Lemma same_rec g g' : derivations g' = derivations g -> (forall d, rec_at g' d = rec_at g d) /\ (forall d, id_at g' d = id_at g d).
Proof. intros H. split; intros d; unfold rec_at, id_at; by rewrite H. Qed.

Lemma gsame_derivs g g' : gsame g g' -> derivs_ok g -> derivs_ok g'.
Proof.
  intros [S1 S2 S3 S4 S5 S6 S7] [D1 D2 D3 D4 D5 D6 D7]. destruct (same_rec g g' S2) as [Hr Hi].
  split; rewrite ?S1, ?S2, ?S3; try done.
  - intros d1 d2. rewrite !Hi. apply D3.
  - intros d r. rewrite Hr. apply D6.
Qed.

Lemma live_used t s : table_ok t -> readers_at t s <> None_ \/ prods t s <> [] -> is_Some (KeyTable.live_key t s).
Proof.
  intros Hok Hu. unfold KeyTable.live_key. destruct (keys t !! s) as [e|] eqn:He; simpl.
  - destruct (slot_key e) eqn:Hk; [done|]. destruct (sl_dead t (tb_slots t Hok) s e He Hk) as [Hr Hp].
    apply (no_producer_prods t s e (tb_slots t Hok) He) in Hp. unfold readers_at in Hu. rewrite He in Hu. simpl in Hu. tauto.
  - unfold readers_at, prods, marks_at in Hu. rewrite He in Hu. simpl in Hu. destruct Hu as [Hu|Hu]; destruct Hu; done.
Qed.

Lemma grows_prods t t' s : grows t t' -> prods t' s = prods t s.
Proof. intros [_ _ _ _ Hm Hp]. unfold prods. by rewrite Hm, Hp. Qed.

Lemma keeps_grows g g' :
  gsame g g' -> grows (table g) (table g') -> table_ok (table g) -> keeps g g'.
Proof.
  intros [S1 S2 S3 S4 S5 S6 S7] Hg Hok. destruct (same_rec g g' S2) as [Hr Hi]. split; try done.
  - intros s d fp. by rewrite (gr_readers _ _ Hg).
  - intros s. by apply grows_prods.
  - intros s Hs. destruct (live_used (table g) s Hok) as [k Hk]; [by right|]. unfold owner_at. by rewrite (grows_live _ _ s k Hg Hk), Hk.
Qed.

Lemma keeps_released g g' still slots : released g g' still slots -> table_ok (table g) -> keeps g g'.
Proof.
  intros Hrel Hok. destruct (rd_same _ _ _ _ Hrel) as [S1 S2 S3 S4 S5 S6 S7]. destruct (same_rec g g' S2) as [Hr Hi]. split; try done.
  - intros s d fp. by rewrite (rd_readers _ _ _ _ Hrel).
  - apply (rd_prods _ _ _ _ Hrel).
  - intros s Hs. destruct (live_used (table g) s Hok) as [k Hk]; [by right|]. unfold owner_at, KeyTable.live_key.
    rewrite (rd_kept _ _ _ _ Hrel); [done|]. destruct (KeyTable.live_key (table g') s) eqn:Hn; [done|].
    destruct (rd_gone _ _ _ _ Hrel s) as (_ & Hp & _); [by exists k|done|done].
Qed.

Lemma keeps_slotted g g' id d : slotted g g' id d -> keeps g g'.
Proof.
  intros [T C (B1 & B2 & B3 & B4) Hok Hs Hid Hr Hi Hold]. split; try done.
  - intros d' Hd'. destruct (decide (d' = d)) as [->|]; [|by apply Hi]. by rewrite Hid, Hold.
  - intros s d' fp. by rewrite T.
  - intros s. by rewrite T.
  - intros s _. by rewrite T.
Qed.

Lemma keeps_tframe g g' :
  gsame g g' -> tframe (table g) (table g') -> (forall s, readers_at (table g') s = readers_at (table g) s) ->
  (forall s, prods (table g') s = prods (table g) s) -> keeps g g'.
Proof.
  intros [S1 S2 S3 S4 S5 S6 S7] Hf Hr Hp. destruct (same_rec g g' S2) as [Hrec Hi]. split; try done.
  - intros s d fp. by rewrite Hr.
  - intros s _. unfold owner_at. by rewrite (tframe_live _ _ s Hf).
Qed.

(** ** Interning many keys *)

Record interned_all g g' (ks : list K) (slots : list KeyIdx) : Prop := {
  ia_same : gsame g g';
  ia_table : table_ok (table g');
  ia_grows : grows (table g) (table g');
  ia_live : Forall2 (fun k s => KeyTable.live_key (table g') s = Some k) ks slots;
  ia_unused : forall x, loose (table g') ∅ x -> loose (table g) ∅ x \/ x ∈ slots;
  ia_len : length (keys (table g')) <= 2 * length ks + length (keys (table g))
}.

Lemma interned_table t t' k s : interned t t' k s ∅ -> table_ok t'.
Proof. intros []. by split. Qed.

Lemma intern_key_ok g k now :
  table_ok (table g) -> (N.of_nat (length (keys (table g))) + 2 <= 2 ^ 32)%N ->
  exists s g', ReaderGraph.intern_key g k now = Done (s, g') /\ interned_all g g' [k] [s].
Proof.
  intros Hok Hlen. unfold ReaderGraph.intern_key, KeyTable.intern.
  destruct (intern_created_ok (table g) k now Hok Hlen) as (s & c & t' & -> & Hin & Hlen'). rewrite !done_bind.
  eexists _, _. split; [done|]. split; simpl.
  - done.
  - by eapply interned_table.
  - apply Hin.
  - constructor; [apply Hin|constructor].
  - intros x Hx. destruct (interned_unused _ _ _ _ _ Hin Hok Hx) as [| ->]; [by left|right; by left].
  - lia.
Qed.

Lemma interned_cons g1 g2 g3 k s ks ss :
  interned_all g1 g2 [k] [s] -> interned_all g2 g3 ks ss -> interned_all g1 g3 (k :: ks) (s :: ss).
Proof.
  intros [A1 A2 A3 A4 A5 A6] [B1 B2 B3 B4 B5 B6]. split.
  - by eapply gsame_trans.
  - done.
  - by eapply grows_trans.
  - constructor; [|done]. apply Forall2_cons in A4 as [A4 _]. by eapply grows_live.
  - intros x Hx. destruct (B5 x Hx) as [Hx2|]; [|right; by right]. destruct (A5 x Hx2) as [|Hs%list_elem_of_singleton]; [by left|right; subst; by left].
  - simpl in *. lia.
Qed.

Lemma intern_all_ok {A B} (key_of : A -> K) (make : KeyIdx -> A -> B) (slot_of : B -> KeyIdx) now
    (body : ReaderGraph K -> A -> outcome (B * ReaderGraph K)) (l : list A) :
  (forall g a, body g a = '(s, g) ← ReaderGraph.intern_key g (key_of a) now; Done (make s a, g)) ->
  (forall s a, slot_of (make s a) = s) ->
  forall g, table_ok (table g) -> (N.of_nat (length (keys (table g)) + 2 * length l) <= 2 ^ 32)%N ->
  exists bs g', ReaderGraph.map_graph_ body l g = Done (bs, g') /\ interned_all g g' (key_of <$> l) (slot_of <$> bs)
    /\ Forall2 (fun a b => exists s, b = make s a) l bs.
Proof.
  intros Hbody Hslot. induction l as [|a l IH]; intros g Hok Hlen.
  - exists [], g. split_and!; [done| |constructor]. split; [done|done|apply grows_refl|constructor|by left|lia].
  - cbn [ReaderGraph.map_graph_]. rewrite Hbody. simpl length in Hlen.
    destruct (intern_key_ok g (key_of a) now Hok) as (s & g1 & -> & H1); [lia|]. rewrite !done_bind.
    destruct (IH g1) as (bs & g2 & -> & H2 & H3); [apply H1|pose proof (ia_len _ _ _ _ H1); simpl in *; lia|].
    rewrite done_bind. exists (make s a :: bs), g2. split; [done|]. split.
    + rewrite !fmap_cons, Hslot. by eapply interned_cons.
    + constructor; [by exists s|done].
Qed.

Lemma interned_ok g g' ks slots : interned_all g g' ks slots -> graph_ok g -> graph_ok g'.
Proof.
  intros Hin Hok. eapply keeps_ok; [|apply Hin|by eapply gsame_derivs; [apply Hin|apply Hok]|exact Hok].
  apply keeps_grows; [apply Hin|apply Hin|apply Hok].
Qed.

(** Distinct keys have distinct slots, and the other way round. *)
Lemma slots_distinct t ks slots :
  index_ok t -> Forall2 (fun k s => KeyTable.live_key t s = Some k) ks slots -> NoDup ks -> NoDup slots.
Proof.
  intros Hix. induction 1 as [|k s ks slots Hk Hks IH]; [constructor|]. intros [Hn Hnd]%NoDup_cons. constructor; [|by apply IH].
  intros Hin. apply Hn. apply list_elem_of_lookup in Hin as [i Hi]. destruct (Forall2_lookup_r _ _ _ _ _ Hks Hi) as (k' & Hk' & Hl).
  assert (k' = k) as -> by congruence. by eapply list_elem_of_lookup_2.
Qed.

(** ** Cached fingerprints *)

(** Every cached fingerprint is the key's. *)
Definition cache_ok g (fingerprint : K -> Fingerprint) : Prop :=
  forall s e k, keys (table g) !! s = Some e -> slot_key e = Some k -> current_generation e = generation g -> current e = fingerprint k.

(** Nothing but cached fingerprints has changed. *)
Record quiet g g' : Prop := {
  qt_same : gsame g g';
  qt_frame : tframe (table g) (table g');
  qt_slots : slots_ok (table g');
  qt_readers : forall s, readers_at (table g') s = readers_at (table g) s;
  qt_prods : forall s, prods (table g') s = prods (table g) s
}.

Lemma quiet_refl g : slots_ok (table g) -> quiet g g.
Proof. intros Hs. split; try done. apply tframe_refl. Qed.

Lemma quiet_trans g1 g2 g3 : quiet g1 g2 -> quiet g2 g3 -> quiet g1 g3.
Proof.
  intros [A1 A2 A3 A4 A5] [B1 B2 B3 B4 B5]. split.
  - by eapply gsame_trans.
  - by eapply tframe_trans.
  - done.
  - intros s. by rewrite B4.
  - intros s. by rewrite B5.
Qed.

Lemma quiet_ok g g' : quiet g g' -> graph_ok g -> graph_ok g'.
Proof.
  intros [A1 A2 A3 A4 A5] Hok. eapply keeps_ok; [by apply keeps_tframe| |by eapply gsame_derivs; [|apply Hok]|exact Hok].
  eapply tframe_table; [done|done|apply Hok].
Qed.

Lemma quiet_unused g g' x : quiet g g' -> loose (table g') ∅ x -> loose (table g) ∅ x.
Proof.
  intros [A1 A2 A3 A4 A5] (H1 & H2 & H3 & H4). unfold loose. rewrite <- A4, <- A5, <- (tframe_live _ _ x A2), <- (tf_derived _ _ A2). done.
Qed.

Lemma grows_cache g g' fingerprint :
  gsame g g' -> grows (table g) (table g') -> (generation g < NO_GENERATION)%N -> cache_ok g fingerprint -> cache_ok g' fingerprint.
Proof.
  intros Hs Hg Hgen Hc s e k He Hk Hcur. rewrite (gs_generation _ _ Hs) in Hcur.
  destruct (gr_new _ _ Hg s e He) as [He'|Hno]; [by rewrite Hk|by eapply Hc|lia].
Qed.

Lemma slot_fingerprint_ok g s k fingerprint :
  slots_ok (table g) -> cache_ok g fingerprint -> KeyTable.live_key (table g) s = Some k ->
  exists g', ReaderGraph.slot_fingerprint g s fingerprint = Done (fingerprint k, g') /\ quiet g g' /\ cache_ok g' fingerprint.
Proof.
  intros Hsl Hc Hk. apply live_entry in Hk as (e & He & Hk). unfold ReaderGraph.slot_fingerprint, KeyTable.entry. rewrite He. simpl.
  destruct (N.eqb_spec (current_generation e) (generation g)) as [Hg|Hg].
  - exists g. rewrite (Hc s e k He Hk Hg). split_and!; [done|by apply quiet_refl|done].
  - unfold ReaderGraph.key, KeyTable.key, KeyTable.entry. rewrite He. simpl. rewrite Hk. simpl.
    rewrite (update_done _ s e) by done. simpl. eexists. split; [done|].
    destruct (set_current_ok (table g) s e (fingerprint k) (generation g) Hsl He) as (H1 & H2 & H3 & H4). split; [by split|].
    intros s' e' k'. simpl. rewrite lookup_keys by (by eapply lookup_lt_Some). destruct (decide (s' = s)) as [->|]; [|by apply Hc].
    intros [= <-] Hk' _. simpl in *. congruence.
Qed.

Definition seen_or (fingerprint : K -> Fingerprint) t (p : KeyIdx * option Fingerprint) : KeyIdx * Fingerprint :=
  (p.1, default (from_option fingerprint 0%N (KeyTable.live_key t p.1)) p.2).

Lemma resolve_ok fingerprint (reads : list (KeyIdx * option Fingerprint)) : forall g,
  slots_ok (table g) -> cache_ok g fingerprint -> (forall p, p ∈ reads -> is_Some (KeyTable.live_key (table g) p.1)) ->
  exists g', ReaderGraph.map_graph_ (fun self (slot_seen : KeyIdx * option Fingerprint) =>
      '(seen, self) ← match slot_seen.2 with
        | Some seen => Done (seen, self)
        | None => ReaderGraph.slot_fingerprint self slot_seen.1 fingerprint
        end;
      Done ((slot_seen.1, seen), self)) reads g = Done (seen_or fingerprint (table g) <$> reads, g')
    /\ quiet g g' /\ cache_ok g' fingerprint.
Proof.
  induction reads as [|[s o] reads IH]; intros g Hsl Hc Hlive.
  - exists g. split_and!; [done|by apply quiet_refl|done].
  - cbn [ReaderGraph.map_graph_]. destruct (Hlive (s, o)) as [k Hk]; [by left|]. simpl in Hk.
    assert (Hhead : exists g1, match o with Some seen => Done (seen, g) | None => ReaderGraph.slot_fingerprint g s fingerprint end
                      = Done (default (fingerprint k) o, g1) /\ quiet g g1 /\ cache_ok g1 fingerprint).
    { destruct o as [seen|]; [exists g; split_and!; [done|by apply quiet_refl|done]|]. by apply slot_fingerprint_ok. }
    destruct Hhead as (g1 & Hhead & Hq & Hc1). simpl. rewrite Hhead, !done_bind.
    destruct (IH g1) as (g2 & -> & Hq2 & Hc2); [apply Hq|done| |].
    + intros p Hp. rewrite (tframe_live _ _ _ (qt_frame _ _ Hq)). apply Hlive. by right.
    + rewrite done_bind. exists g2. split_and!; [|by eapply quiet_trans|done].
      do 2 f_equal. f_equal.
      * unfold seen_or. simpl. rewrite Hk. by destruct o.
      * apply list_fmap_ext. intros _ p _. unfold seen_or. by rewrite (tframe_live _ _ _ (qt_frame _ _ Hq)).
Qed.

(** ** The reads that a record keeps *)

Definition keeps_read t (id : DerivationId) (is_output : K -> bool) (s : KeyIdx) : bool :=
  match KeyTable.live_key t s with Some k => records_read id k is_output | None => false end.

Lemma kept_reads_of_ok {T} g id is_output (slots : list (KeyIdx * T)) :
  (forall p, p ∈ slots -> is_Some (KeyTable.live_key (table g) p.1)) ->
  kept_reads_of id (ReaderGraph.key g) is_output slots
  = Done (filter (fun p => keeps_read (table g) id is_output p.1 = true) slots,
          fst <$> filter (fun p => keeps_read (table g) id is_output p.1 = false) slots).
Proof.
  induction slots as [|[s x] slots IH]; intros Hlive; [done|]. cbn [kept_reads_of]. destruct (Hlive (s, x)) as [k Hk]; [by left|]. simpl in Hk.
  assert (ReaderGraph.key g s = Done k) as ->.
  { apply live_entry in Hk as (e & He & Hk). unfold ReaderGraph.key, KeyTable.key, KeyTable.entry. rewrite He. simpl. by rewrite Hk. }
  rewrite done_bind, IH, done_bind by (intros p Hp; apply Hlive; by right). rewrite !filter_cons. simpl.
  assert (Hks : keeps_read (table g) id is_output s = records_read id k is_output) by (unfold keeps_read; by rewrite Hk).
  rewrite Hks. by destruct (records_read id k is_output).
Qed.

Lemma kept_reads_ok {T} g id is_output (slots : list (KeyIdx * T)) :
  NoDup slots.*1 -> (forall p, p ∈ slots -> is_Some (KeyTable.live_key (table g) p.1)) ->
  exists reads dropped, kept_reads id slots (ReaderGraph.key g) is_output = Done (reads, dropped)
    /\ rising reads.*1 /\ (forall p, p ∈ reads <-> p ∈ slots /\ keeps_read (table g) id is_output p.1 = true)
    /\ (forall s, s ∈ dropped <-> s ∈ slots.*1 /\ keeps_read (table g) id is_output s = false).
Proof.
  intros Hnd Hlive. unfold kept_reads. rewrite kept_reads_of_ok, done_bind by done. eexists _, _. split; [done|].
  split_and!.
  - apply sorted_firsts. eapply sublist_NoDup; [exact Hnd|]. apply sublist_fmap, sublist_filter.
  - intros p. rewrite (sort_by_perm slot_pair_le), list_elem_of_filter. tauto.
  - intros s. rewrite !list_elem_of_fmap. setoid_rewrite list_elem_of_filter. split.
    + intros (p & -> & Hb & Hin). split; [by exists p|done].
    + intros [(p & -> & Hin) Hb]. by exists p.
Qed.
End Graph.
