(* ===== verification/RecordProofs.v ===== *)
(** * Filing a record

    What filing the record of an evaluation does: the difference to the record
    it replaces, the changes of readers and of producers that follow from it,
    and the graph afterwards. *)

From S2P Require Import Prelude FileOrder Derivation Readers ReadersProofs KeyTable KeyTableProofs KeyUseProofs ReaderGraph KeyReleaseProofs ReaderGraphProofs.
From stdpp Require Import list gmap sorting.
Local Open Scope prog_scope.

Section Record.
Context {K : Type} `{HK : FactKeys K}.
Implicit Types t : KeyTable K.
Implicit Types g : ReaderGraph K.

(** ** What a record changes of the one it replaces *)

(** The table knows what the derivation saw of the slots. *)
Definition readers_known (readers_ : option (KeyTable K)) (deriv : DerivIdx) (old : list KeyIdx) : Prop :=
  forall t, readers_ = Some t -> forall s, s ∈ old ->
    s < length (keys t) /\ readers_ok (readers_at t s) /\ exists fp, reads (readers_at t s) deriv fp.

Definition read_moved (readers_ : option (KeyTable K)) (deriv : DerivIdx) (s : KeyIdx) (fp : Fingerprint) : Prop :=
  forall t, readers_ = Some t -> ~ reads (readers_at t s) deriv fp.

Definition change_of (readers_ : option (KeyTable K)) (deriv : DerivIdx) (old : list KeyIdx) (new : list (KeyIdx * Fingerprint))
    (s : KeyIdx) (op : ReaderOp) : Prop :=
  (op = Remove deriv /\ s ∈ old /\ s ∉ new.*1)
  \/ (exists fp, op = Insert_ deriv fp /\ (s, fp) ∈ new /\ s ∉ old)
  \/ (exists fp, op = Seen deriv fp /\ (s, fp) ∈ new /\ s ∈ old /\ read_moved readers_ deriv s fp).

Lemma seen_changed readers_ deriv old s fp :
  readers_known readers_ deriv old -> s ∈ old ->
  exists b, match readers_ with
    | None => Done true
    | Some table =>
        e ← KeyTable.entry table s;
        seen ← Readers.seen_by (readers e) deriv;
        Done (negb (N.eqb seen fp))
    end = Done b /\ (b = true <-> read_moved readers_ deriv s fp).
Proof.
  intros Hk Hs. destruct readers_ as [t|]; [|exists true; split; [done|]; split; [by intros _ t Ht|done]].
  destruct (Hk t eq_refl s Hs) as (Hlt & Hok & fp' & Hfp). apply lookup_lt_is_Some_2 in Hlt as [e He].
  unfold readers_at in Hok, Hfp. rewrite He in Hok, Hfp. simpl in Hok, Hfp.
  unfold KeyTable.entry. rewrite He. simpl. rewrite (seen_by_reads _ _ _ Hok Hfp). simpl. eexists. split; [done|].
  rewrite negb_true_iff, N.eqb_neq. unfold read_moved, readers_at. split.
  - intros Hne ? [= <-]. rewrite He. simpl. intros Hr. apply Hne. apply (group_of_reads _ _ _ Hok) in Hfp, Hr. congruence.
  - intros Hn ->. by apply (Hn t eq_refl); rewrite He.
Qed.

Lemma diff_reads_ok fuel : forall deriv readers_ old new,
  rising old -> rising new.*1 -> readers_known readers_ deriv old -> length old + length new < fuel ->
  exists ops, PreparedRecord.diff_reads fuel deriv readers_ old new = Done (ops, filter (fun s => s ∉ new.*1) old)
    /\ rising ops.*1 /\ forall s op, (s, op) ∈ ops <-> change_of readers_ deriv old new s op.
Proof.
  induction fuel as [|fuel IH]; intros deriv readers_ old new Ho Hn Hk Hlen; [lia|]. cbn [PreparedRecord.diff_reads].
  destruct old as [|l old], new as [|[r seen] new].
  - exists []. split_and!; [done|constructor|]. intros s op. unfold change_of. set_solver.
  - destruct (IH deriv readers_ [] new) as (ops & -> & Hr & Hops); [done|by apply StronglySorted_inv in Hn as [? _]|by intros t Ht s ?%not_elem_of_nil|simpl in *; lia|].
    rewrite done_bind. exists ((r, Insert_ deriv seen) :: ops). split_and!; [done| |].
    + change (rising (r :: new.*1)) in Hn. change (rising (r :: ops.*1)). apply StronglySorted_inv in Hn as [_ Hn].
      constructor; [done|]. rewrite Forall_forall in Hn |- *.
      intros s ([s' op] & -> & Hin)%list_elem_of_fmap. apply Hops in Hin as [(_ & ? & _)|[(fp & _ & Hin & _)|(fp & _ & _ & ? & _)]]; try set_solver.
      apply Hn. by apply (list_elem_of_fmap_2 fst _ (s', fp)).
    + intros s op. rewrite elem_of_cons, Hops. unfold change_of. set_solver.
  - destruct (IH deriv readers_ old []) as (ops & -> & Hr & Hops);
      [by apply StronglySorted_inv in Ho as [? _]|done|intros t Ht s Hs; apply (Hk t Ht); by right|simpl in *; lia|].
    rewrite done_bind. exists ((l, Remove deriv) :: ops). split_and!.
    + by rewrite (filter_cons _ l), decide_True by apply not_elem_of_nil.
    + apply StronglySorted_inv in Ho as [_ Ho]. constructor; [done|]. rewrite Forall_forall in Ho |- *.
      intros s ([s' op] & -> & Hin)%list_elem_of_fmap. apply Ho. apply Hops in Hin as [(_ & ? & _)|[(fp & _ & ? & _)|(fp & _ & ? & _)]]; set_solver.
    + intros s op. rewrite elem_of_cons, Hops. unfold change_of. set_solver.
  - change (rising (r :: new.*1)) in Hn. apply StronglySorted_inv in Ho as Ho'. destruct Ho' as [Ho1 Ho2].
    apply StronglySorted_inv in Hn as Hn'. destruct Hn' as [Hn1 Hn2]. simpl in Hn2. rewrite Forall_forall in Ho2, Hn2. simpl in Hlen.
    assert (Hk1 : readers_known readers_ deriv old) by (intros t Ht s Hs; apply (Hk t Ht); by right).
    assert (Hnew : forall s fp, (s, fp) ∈ new -> r < s) by (intros s fp Hin; apply Hn2; by apply (list_elem_of_fmap_2 fst _ (s, fp))).
    destruct (Nat.eqb_spec l r) as [->|Hne]; [|destruct (Nat.ltb_spec l r) as [Hlt|Hge]].
    + destruct (seen_changed readers_ deriv (r :: old) r seen Hk) as (b & -> & Hb); [by left|]. rewrite done_bind.
      destruct (IH deriv readers_ old new) as (ops & -> & Hr & Hops); [done|done|done|lia|]. rewrite done_bind.
      assert (Habove : forall s op, (s, op) ∈ ops -> r < s).
      { intros s op Hin. apply Hops in Hin as [(_ & ? & _)|[(fp & _ & Hin & _)|(fp & _ & Hin & _)]]; [by apply Ho2|by eapply Hnew|by eapply Hnew]. }
      exists (if b then (r, Seen deriv seen) :: ops else ops). split_and!.
      * do 2 f_equal. rewrite (filter_cons _ r), decide_False by (intros Hx; apply Hx; by left).
        apply filter_iff_in. intros x Hx. specialize (Ho2 x Hx). rewrite fmap_cons, elem_of_cons. simpl. split; [|tauto]. intros Hx' [->|]; [lia|done].
      * destruct b; [|done]. constructor; [done|]. apply Forall_forall. intros s ([s' op] & -> & Hin)%list_elem_of_fmap. by eapply Habove.
      * intros s op. assert (Hm : (s, op) ∈ (if b then (r, Seen deriv seen) :: ops else ops)
            <-> (s = r /\ op = Seen deriv seen /\ read_moved readers_ deriv r seen) \/ (s, op) ∈ ops).
        { destruct b; [rewrite elem_of_cons|]; intuition congruence. }
        rewrite Hm, Hops. unfold change_of. rewrite fmap_cons. simpl. setoid_rewrite elem_of_cons. split.
        -- intros [(-> & -> & Hmv)|[(-> & Hin & Hnot)|[(fp & -> & Hin & Hnot)|(fp & -> & Hin & Hin2 & Hmv)]]].
           ++ right; right. exists seen. auto.
           ++ left. split_and!; [done|by right|]. specialize (Ho2 s Hin). intros [->|]; [lia|done].
           ++ right; left. exists fp. split_and!; [done|by right|]. specialize (Hnew s fp Hin). intros [->|]; [lia|done].
           ++ right; right. exists fp. auto.
        -- intros [(-> & [->|Hin] & Hnot)|[(fp & -> & [[= -> ->]|Hin] & Hnot)|(fp & -> & [[= -> ->]|Hin] & Hin2 & Hmv)]].
           ++ destruct Hnot. by left.
           ++ right; left. tauto.
           ++ destruct Hnot. by left.
           ++ right; right; left. exists fp. tauto.
           ++ by left.
           ++ right; right; right. exists fp. split_and!; [done|done| |done]. destruct Hin2 as [->|]; [|done]. specialize (Hnew r fp Hin). lia.
    + destruct (IH deriv readers_ old ((r, seen) :: new)) as (ops & -> & Hr & Hops); [done|done|done|simpl; lia|]. rewrite done_bind.
      exists ((l, Remove deriv) :: ops). split_and!.
      * do 2 f_equal. rewrite (filter_cons _ l), decide_True; [done|]. rewrite fmap_cons. simpl.
        intros [->|Hx%Hn2]%elem_of_cons; lia.
      * constructor; [done|]. apply Forall_forall. intros s ([s' op] & -> & Hin)%list_elem_of_fmap. simpl.
        apply Hops in Hin as [(_ & ? & _)|[(fp & _ & Hin & _)|(fp & _ & _ & ? & _)]]; [by apply Ho2| |by apply Ho2].
        apply elem_of_cons in Hin as [[= -> ->]|Hin]; [done|]. specialize (Hnew _ _ Hin). lia.
      * intros s op. rewrite elem_of_cons, Hops. unfold change_of. rewrite fmap_cons. simpl.
        assert (Hlr : l ∉ r :: new.*1) by (intros [->|Hx%Hn2]%elem_of_cons; lia).
        split.
        -- intros [[= -> ->]|[(-> & Hin & Hnot)|[(fp & -> & Hin & Hnot)|(fp & -> & Hin & Hin2 & Hmv)]]].
           ++ left. split_and!; [done|by left|done].
           ++ left. split_and!; [done|by right|done].
           ++ right; left. exists fp. split_and!; [done|done|]. intros [->|]%elem_of_cons; [|done]. apply Hlr.
              by apply (list_elem_of_fmap_2 fst ((r, seen) :: new) (l, fp)).
           ++ right; right. exists fp. split_and!; [done|done|by right|done].
        -- intros [(-> & [->|Hin]%elem_of_cons & Hnot)|[(fp & -> & Hin & Hnot)|(fp & -> & Hin & Hin2 & Hmv)]].
           ++ by left.
           ++ right; left. done.
           ++ right; right; left. exists fp. split_and!; [done|done|]. intros ?. apply Hnot. by right.
           ++ right; right; right. exists fp. split_and!; [done|done| |done]. apply elem_of_cons in Hin2 as [->|]; [|done].
              destruct Hlr. by apply (list_elem_of_fmap_2 fst ((r, seen) :: new) (l, fp)).
    + destruct (IH deriv readers_ (l :: old) new) as (ops & -> & Hr & Hops); [done|done|done|simpl; lia|]. rewrite done_bind.
      assert (Hrl : r ∉ l :: old) by (intros [->|Hx%Ho2]%elem_of_cons; lia).
      exists ((r, Insert_ deriv seen) :: ops). split_and!.
      * do 2 f_equal. apply filter_iff_in. intros x Hx. rewrite fmap_cons, elem_of_cons. simpl. split; [|tauto].
        intros Hx' [->|]; [done|done].
      * constructor; [done|]. apply Forall_forall. intros s ([s' op] & -> & Hin)%list_elem_of_fmap. simpl.
        apply Hops in Hin as [(_ & Hin & _)|[(fp & _ & Hin & _)|(fp & _ & Hin & _)]]; [|by eapply Hnew|by eapply Hnew].
        apply elem_of_cons in Hin as [->|Hin%Ho2]; lia.
      * intros s op. rewrite elem_of_cons, Hops. unfold change_of. rewrite fmap_cons. simpl. split.
        -- intros [[= -> ->]|[(-> & Hin & Hnot)|[(fp & -> & Hin & Hnot)|(fp & -> & Hin & Hin2 & Hmv)]]].
           ++ right; left. exists seen. split_and!; [done|by left|done].
           ++ left. split_and!; [done|done|]. intros [->|]%elem_of_cons; done.
           ++ right; left. exists fp. split_and!; [done|by right|done].
           ++ right; right. exists fp. split_and!; [done|by right|done|done].
        -- intros [(-> & Hin & Hnot)|[(fp & -> & [[= -> ->]|Hin]%elem_of_cons & Hnot)|(fp & -> & [[= -> ->]|Hin]%elem_of_cons & Hin2 & Hmv)]].
           ++ right; left. split_and!; [done|done|]. intros ?. apply Hnot. by right.
           ++ by left.
           ++ right; right; left. by exists fp.
           ++ done.
           ++ right; right; right. by exists fp.
Qed.

(** ** The changes of readers *)

Definition op_reads (op : ReaderOp) (R : DerivIdx -> Fingerprint -> Prop) (d : DerivIdx) (fp : Fingerprint) : Prop :=
  match op with
  | Seen x seen | Insert_ x seen => (d = x /\ fp = seen) \/ (d <> x /\ R d fp)
  | Remove x => R d fp /\ d <> x
  end.

(** A read that is changed is one that was made. *)
Definition op_fits (op : ReaderOp) (readers : Readers) : Prop :=
  match op with Seen d _ => exists fp, reads readers d fp | _ => True end.

Lemma apply_reads op readers :
  readers_ok readers -> op_fits op readers ->
  exists readers', ReaderOp.apply op readers = Done readers' /\ readers_ok readers'
    /\ forall d fp, reads readers' d fp <-> op_reads op (reads readers) d fp.
Proof.
  intros Hok Hfit. destruct op as [x seen|x seen|x]; simpl in *.
  - destruct Hfit as [fp Hfp]. rewrite (seen_by_reads _ _ _ Hok Hfp). simpl. eexists. split; [done|].
    destruct (N.eqb_spec fp seen) as [->|Hne]; [|split; [by apply insert_ok|intros d f; by apply reads_insert]].
    split; [done|]. intros d f. split.
    + intros Hr. destruct (decide (d = x)) as [->|]; [|by right]. left. split; [done|].
      apply (group_of_reads _ _ _ Hok) in Hr, Hfp. congruence.
    + by intros [[-> ->]|[_ Hr]].
  - eexists. split; [done|]. split; [by apply insert_ok|]. intros d f. by apply reads_insert.
  - eexists. split; [done|]. split; [by apply remove_ok|]. intros d f. by apply reads_remove.
Qed.

(** Nothing but readers has changed. *)
Record moves_readers g g' : Prop := {
  mr_same : gsame g g';
  mr_clock : clock g' = clock g;
  mr_frame : tframe (table g) (table g');
  mr_cache : cframe (table g) (table g');
  mr_slots : slots_ok (table g');
  mr_prods : forall s, prods (table g') s = prods (table g) s
}.

Lemma moves_readers_refl g : slots_ok (table g) -> moves_readers g g.
Proof. intros. split; try done; [apply tframe_refl|apply cframe_refl]. Qed.

Lemma moves_readers_trans g1 g2 g3 : moves_readers g1 g2 -> moves_readers g2 g3 -> moves_readers g1 g3.
Proof.
  intros [A1 A2 A3 A4 A5 A6] [B1 B2 B3 B4 B5 B6]. split.
  - by eapply gsame_trans.
  - congruence.
  - by eapply tframe_trans.
  - by eapply cframe_trans.
  - done.
  - intros s. by rewrite B6.
Qed.

Lemma apply_op_ok g s op :
  slots_ok (table g) -> is_Some (KeyTable.live_key (table g) s) -> op_fits op (readers_at (table g) s) ->
  exists g', ReaderGraph.apply_op g (s, op) = Done g' /\ moves_readers g g'
    /\ (forall d fp, reads (readers_at (table g') s) d fp <-> op_reads op (reads (readers_at (table g) s)) d fp)
    /\ forall s', s' <> s -> readers_at (table g') s' = readers_at (table g) s'.
Proof.
  intros Hsl [k Hlive] Hfit. apply live_entry in Hlive as (e & He & Hk). unfold ReaderGraph.apply_op, KeyTable.entry. cbn [fst snd].
  rewrite He. cbn [expect]. rewrite done_bind. assert (Hra : readers_at (table g) s = readers e) by (unfold readers_at; by rewrite He).
  rewrite Hra in *. destruct (apply_reads op (readers e)) as (readers' & -> & Hok' & Hreads); [by eapply (sl_readers _ Hsl)|done|].
  rewrite done_bind, (update_done _ s e) by done. eexists. split; [done|].
  destruct (set_readers_ok (table g) s e readers' Hsl He) as (H1 & H2 & H3 & H4 & H5); [by rewrite Hk|done|]. split_and!.
  - by split.
  - intros d fp. simpl. rewrite H4, decide_True by done. apply Hreads.
  - intros s' Hne. simpl. by rewrite H4, decide_False.
Qed.

Lemma apply_ops_ok ops : forall g,
  slots_ok (table g) -> rising ops.*1 ->
  (forall s op, (s, op) ∈ ops -> is_Some (KeyTable.live_key (table g) s) /\ op_fits op (readers_at (table g) s)) ->
  exists g', ReaderGraph.for_graph ReaderGraph.apply_op ops g = Done g' /\ moves_readers g g'
    /\ (forall s op d fp, (s, op) ∈ ops -> reads (readers_at (table g') s) d fp <-> op_reads op (reads (readers_at (table g) s)) d fp)
    /\ forall s, s ∉ ops.*1 -> readers_at (table g') s = readers_at (table g) s.
Proof.
  induction ops as [|[s op] ops IH]; intros g Hsl Hr Hfit.
  - exists g. split_and!; [done|by apply moves_readers_refl| |done]. intros s op d fp ?%not_elem_of_nil. done.
  - cbn [ReaderGraph.for_graph]. change (rising (s :: ops.*1)) in Hr. apply StronglySorted_inv in Hr as [Hr Hs]. rewrite Forall_forall in Hs.
    destruct (Hfit s op) as [Hl Hf]; [by left|].
    destruct (apply_op_ok g s op Hsl Hl Hf) as (g1 & -> & Hm1 & Hs1 & Ho1). rewrite done_bind.
    assert (Hne : forall s' op', (s', op') ∈ ops -> s' <> s).
    { intros s' op' Hin. specialize (Hs s' (list_elem_of_fmap_2 fst _ _ Hin)). lia. }
    destruct (IH g1) as (g2 & Hg2 & Hm2 & Hs2 & Ho2); [apply Hm1|done| |].
    + intros s' op' Hin. destruct (Hfit s' op') as [? ?]; [by right|]. rewrite (tframe_live _ _ s' (mr_frame _ _ Hm1)), Ho1 by by eapply Hne. done.
    + exists g2. split_and!; [done|by eapply moves_readers_trans| |].
      * intros s' op' d fp [[= -> ->]|Hin]%elem_of_cons.
        -- rewrite Ho2; [apply Hs1|]. intros Hin%Hs. lia.
        -- rewrite Hs2 by done. by rewrite Ho1 by by eapply Hne.
      * intros s' Hn. change (s' ∉ s :: ops.*1) in Hn. rewrite Ho2, Ho1; [done|set_solver|set_solver].
Qed.

(** ** The producers of other files' keys *)

Lemma foreign_add F c d owner :
  foreign_is F c ->
  foreign_is (<[owner := <[d := S (default 0 (default ∅ (F !! owner) !! d))]> (default ∅ (F !! owner))]> F)
    (fun x o => c x o + if decide (x = d /\ o = owner) then 1 else 0).
Proof.
  intros [H1 H2 H3]. split.
  - intros x o. destruct (decide (o = owner)) as [->|Hne].
    + rewrite lookup_insert, decide_True by done. simpl. destruct (decide (x = d)) as [->|Hx].
      * rewrite lookup_insert, decide_True by done. simpl. rewrite H1, decide_True by done. lia.
      * rewrite lookup_insert_ne, H1 by done. rewrite decide_False by tauto. lia.
    + rewrite lookup_insert_ne, H1 by done. rewrite decide_False by tauto. lia.
  - intros o m. rewrite lookup_insert. destruct (decide (owner = o)) as [->|]; [|apply H2]. intros [= <-]. apply insert_non_empty.
  - intros o m x. rewrite lookup_insert. destruct (decide (owner = o)) as [->|]; [|apply H3]. intros [= <-].
    rewrite lookup_insert. destruct (decide (d = x)); [done|]. destruct (F !! o) as [m|] eqn:Ho; simpl; [by eapply H3|by rewrite lookup_empty].
Qed.

Definition foreign_less (F : gmap FileId (gmap DerivIdx nat)) (d : DerivIdx) (owner : FileId) : outcome (gmap FileId (gmap DerivIdx nat)) :=
  match F !! owner with
  | Some derivs =>
      match derivs !! d with
      | Some (S (S count)) => Done (<[owner := <[d := S count]> derivs]> F)
      | Some 1 =>
          let derivs := delete d derivs in
          Done (if bool_decide (derivs = ∅) then delete owner F else <[owner := derivs]> F)
      | Some 0 => Panic
      | None => Done F
      end
  | None => Done F
  end.

Lemma foreign_less_ok F c c' d owner :
  foreign_is F c -> (forall x o, c x o = c' x o + if decide (x = d /\ o = owner) then 1 else 0) ->
  exists F', foreign_less F d owner = Done F' /\ foreign_is F' c'.
Proof.
  intros [H1 H2 H3] Hc. unfold foreign_less. assert (Hd := H1 d owner). rewrite Hc, decide_True in Hd by done.
  destruct (F !! owner) as [m|] eqn:Ho; simpl in Hd; [|rewrite lookup_empty in Hd; simpl in Hd; lia].
  assert (Hm1 : forall x, x <> d -> default 0 (m !! x) = c' x owner).
  { intros x Hx. assert (Hxo := H1 x owner). rewrite Ho, Hc, decide_False in Hxo by tauto. simpl in Hxo. lia. }
  assert (Hoth : forall x o, o <> owner -> default 0 (default ∅ (F !! o) !! x) = c' x o).
  { intros x o Hne. rewrite H1, Hc, decide_False by tauto. lia. }
  assert (Hset : forall m', m' <> ∅ -> (forall x, m' !! x <> Some 0) -> (forall x, default 0 (m' !! x) = c' x owner) -> foreign_is (<[owner := m']> F) c').
  { intros m' Hne Hpos Hm'. split.
    - intros x o. rewrite lookup_more. destruct (decide (o = owner)) as [->|]; [apply Hm'|by apply Hoth].
    - intros o m0. rewrite lookup_more. destruct (decide (o = owner)); [by intros [= <-]|apply H2].
    - intros o m0 x. rewrite lookup_more. destruct (decide (o = owner)); [by intros [= <-]|apply H3]. }
  destruct (m !! d) as [[|[|n]]|] eqn:Hm; simpl in Hd; try lia.
  - assert (Hdel : forall x, default 0 (delete d m !! x) = c' x owner).
    { intros x. rewrite lookup_delete. destruct (decide (d = x)) as [<-|Hx]; [simpl; lia|by apply Hm1]. }
    eexists. split; [done|]. cbv zeta. case_bool_decide as Hemp.
    + split.
      * intros x o. rewrite lookup_delete. destruct (decide (owner = o)) as [<-|]; [|by apply Hoth].
        rewrite <- Hdel, Hemp. done.
      * intros o m' [_ Hm']%lookup_delete_Some. by eapply H2.
      * intros o m' x [_ Hm']%lookup_delete_Some. by eapply H3.
    + apply Hset; [done| |done]. intros x [_ Hx]%lookup_delete_Some. by eapply H3.
  - eexists. split; [done|]. apply Hset; [apply insert_non_empty| |].
    + intros x. rewrite lookup_more. destruct (decide (x = d)); [done|by eapply H3].
    + intros x. rewrite lookup_more. destruct (decide (x = d)) as [->|]; [simpl; lia|by apply Hm1].
Qed.

(** ** Producing and no longer producing *)

(** Nothing but producers has changed. *)
Record moves_prods g g' : Prop := {
  mp_slots : deriv_slots g' = deriv_slots g;
  mp_derivations : derivations g' = derivations g;
  mp_free : free_derivations g' = free_derivations g;
  mp_by_file : by_file g' = by_file g;
  mp_generation : generation g' = generation g;
  mp_held : held_releases g' = held_releases g;
  mp_clock : clock g' = clock g;
  mp_frame : tframe (table g) (table g');
  mp_cache : cframe (table g) (table g');
  mp_ok : slots_ok (table g');
  mp_readers : forall s, readers_at (table g') s = readers_at (table g) s
}.

Lemma moves_prods_refl g : slots_ok (table g) -> moves_prods g g.
Proof. intros. split; try done; [apply tframe_refl|apply cframe_refl]. Qed.

Lemma moves_prods_trans g1 g2 g3 : moves_prods g1 g2 -> moves_prods g2 g3 -> moves_prods g1 g3.
Proof.
  intros [A1 A2 A3 A4 A5 A6 A7 A8 A9 A10 A11] [B1 B2 B3 B4 B5 B6 B7 B8 B9 B10 B11]. split; try congruence.
  - by eapply tframe_trans.
  - by eapply cframe_trans.
Qed.

Lemma key_live g s k : KeyTable.live_key (table g) s = Some k -> ReaderGraph.key g s = Done k.
Proof.
  intros (e & He & Hk)%live_entry. unfold ReaderGraph.key, KeyTable.key, KeyTable.entry. rewrite He. simpl. by rewrite Hk.
Qed.

(** The key in the slot belongs to another file: it counts. *)
Definition counts t (f : FileId) (s : KeyIdx) (owner : FileId) : Prop := owner_at t s = Some owner /\ owner <> f.

#[local] Instance counts_dec t f s owner : Decision (counts t f s owner).
Proof. unfold counts. apply _. Defined.

Lemma produce_ok g s d f c :
  slots_ok (table g) -> is_Some (KeyTable.live_key (table g) s) -> (N.of_nat d < NO_PRODUCER)%N -> d ∉ prods (table g) s ->
  foreign_is (foreign_producers_of g) c ->
  exists g', ReaderGraph.produce g s d f = Done g' /\ moves_prods g g'
    /\ (forall s' x, x ∈ prods (table g') s' <-> x ∈ prods (table g) s' \/ (s' = s /\ x = d))
    /\ foreign_is (foreign_producers_of g') (fun x o => c x o + if decide (x = d /\ counts (table g) f s o) then 1 else 0).
Proof.
  intros Hsl Hlive Hd Hnew Hfo. assert (Hk := Hlive). destruct Hk as [k Hk]. unfold ReaderGraph.produce.
  assert (Hlt : s < length (keys (table g))) by (apply live_entry in Hk as (e & He & _); by eapply lookup_lt_Some).
  rewrite producers_prods, done_bind, bool_decide_false by done.
  destruct (add_producer_ok (table g) s d Hsl Hlive Hd Hnew) as (t' & -> & [P1 P2 P3 P4 P5 P6]). unfold ReaderGraph.on_table. rewrite !done_bind.
  rewrite (key_live _ s k), done_bind by (simpl; by rewrite (tframe_live _ _ s P2)).
  assert (Hm : moves_prods g (ReaderGraph.with_table g t')) by by split.
  assert (Hp : forall s' x, x ∈ prods t' s' <-> x ∈ prods (table g) s' \/ (s' = s /\ x = d)).
  { intros s' x. destruct (decide (s' = s)) as [->|Hne]; [rewrite P5; naive_solver|rewrite P6 by done; naive_solver]. }
  assert (Ho : owner_at (table g) s = owning_file k) by (unfold owner_at; by rewrite Hk).
  destruct (owning_file k) as [owner|] eqn:Hown; [case_bool_decide as Hof|].
  - subst owner. eexists. split_and!; [done|done|done|]. eapply foreign_is_ext; [|exact Hfo]. intros x o. simpl.
    rewrite decide_False; [lia|]. unfold counts. rewrite Ho. intros (_ & [= ->] & ?). done.
  - eexists. split_and!; [done|destruct Hm; by split|done|]. simpl. eapply foreign_is_ext; [|by apply (foreign_add _ c d owner)].
    intros x o. simpl. f_equal. apply decide_ext. unfold counts. rewrite Ho. naive_solver.
  - eexists. split_and!; [done|done|done|]. eapply foreign_is_ext; [|exact Hfo]. intros x o. simpl.
    rewrite decide_False; [lia|]. unfold counts. rewrite Ho. by intros (_ & ? & _).
Qed.

Lemma unproduce_ok g s d f c c' :
  slots_ok (table g) -> is_Some (KeyTable.live_key (table g) s) -> (N.of_nat d < NO_PRODUCER)%N ->
  foreign_is (foreign_producers_of g) c ->
  (forall x o, c x o = c' x o + if decide (x = d /\ counts (table g) f s o) then 1 else 0) ->
  exists g', ReaderGraph.unproduce g s d f = Done g' /\ moves_prods g g'
    /\ (forall s' x, x ∈ prods (table g') s' <-> x ∈ prods (table g) s' /\ ~ (s' = s /\ x = d))
    /\ foreign_is (foreign_producers_of g') c'.
Proof.
  intros Hsl Hlive Hd Hfo Hc. assert (Hk := Hlive). destruct Hk as [k Hk]. unfold ReaderGraph.unproduce.
  destruct (remove_producer_ok (table g) s d Hsl Hlive Hd) as (t' & -> & [P1 P2 P3 P4 P5 P6]). unfold ReaderGraph.on_table. rewrite !done_bind.
  rewrite (key_live _ s k), done_bind by (simpl; by rewrite (tframe_live _ _ s P2)).
  assert (Hm : moves_prods g (ReaderGraph.with_table g t')) by by split.
  assert (Hp : forall s' x, x ∈ prods t' s' <-> x ∈ prods (table g) s' /\ ~ (s' = s /\ x = d)).
  { intros s' x. destruct (decide (s' = s)) as [->|Hne]; [rewrite P5; naive_solver|rewrite P6 by done; naive_solver]. }
  assert (Ho : owner_at (table g) s = owning_file k) by (unfold owner_at; by rewrite Hk).
  destruct (owning_file k) as [owner|] eqn:Hown; [case_bool_decide as Hof|].
  - subst owner. eexists. split_and!; [done|done|done|]. eapply foreign_is_ext; [|exact Hfo]. intros x o. rewrite Hc.
    rewrite decide_False; [lia|]. unfold counts. rewrite Ho. intros (_ & [= ->] & ?). done.
  - simpl. destruct (foreign_less_ok (foreign_producers_of g) c c' d owner) as (F' & HF & HF'); [done| |].
    { intros x o. rewrite Hc. f_equal. apply decide_ext. unfold counts. rewrite Ho. naive_solver. }
    unfold foreign_less in HF.
    destruct (foreign_producers_of g !! owner) as [m|] eqn:Hmo; [destruct (m !! d) as [[|[|n]]|] eqn:Hmd|]; simplify_eq;
      (eexists; split_and!; [done|destruct Hm; by split|done|done]).
  - eexists. split_and!; [done|done|done|]. eapply foreign_is_ext; [|exact Hfo]. intros x o. rewrite Hc.
    rewrite decide_False; [lia|]. unfold counts. rewrite Ho. by intros (_ & ? & _).
Qed.

Lemma owned_cons t s l o : owned t (s :: l) o = (if decide (owner_at t s = Some o) then 1 else 0) + owned t l o.
Proof. unfold owned. rewrite filter_cons. by destruct (decide _). Qed.

Lemma tframe_owner t t' s : tframe t t' -> owner_at t' s = owner_at t s.
Proof. intros Hf. unfold owner_at. by rewrite (tframe_live _ _ s Hf). Qed.

(** What the slots add to the counts. *)
Definition foreign_of t (d : DerivIdx) (f : FileId) (l : list KeyIdx) (x : DerivIdx) (o : FileId) : nat :=
  if decide (x = d /\ o <> f) then owned t l o else 0.

Lemma foreign_of_cons t d f s l x o :
  foreign_of t d f (s :: l) x o = (if decide (x = d /\ counts t f s o) then 1 else 0) + foreign_of t d f l x o.
Proof.
  unfold foreign_of. rewrite owned_cons. unfold counts.
  destruct (decide (x = d /\ o <> f)) as [[Hx Ho]|Hn].
  - f_equal. apply decide_ext. naive_solver.
  - rewrite decide_False; [done|]. naive_solver.
Qed.

Lemma foreign_of_frame t t' d f l x o : tframe t t' -> foreign_of t' d f l x o = foreign_of t d f l x o.
Proof. intros Hf. unfold foreign_of. rewrite (owned_ext t t'); [done|]. intros s _. by apply tframe_owner. Qed.

Lemma produce_all_ok d f added : forall g c,
  slots_ok (table g) -> NoDup added -> (N.of_nat d < NO_PRODUCER)%N ->
  (forall s, s ∈ added -> is_Some (KeyTable.live_key (table g) s) /\ d ∉ prods (table g) s) ->
  foreign_is (foreign_producers_of g) c ->
  exists g', ReaderGraph.for_graph (fun self key => ReaderGraph.produce self key d f) added g = Done g' /\ moves_prods g g'
    /\ (forall s x, x ∈ prods (table g') s <-> x ∈ prods (table g) s \/ (s ∈ added /\ x = d))
    /\ foreign_is (foreign_producers_of g') (fun x o => c x o + foreign_of (table g) d f added x o).
Proof.
  induction added as [|s added IH]; intros g c Hsl Hnd Hd Hs Hfo.
  - exists g. split_and!; [done|by apply moves_prods_refl|intros s x; set_solver|]. eapply foreign_is_ext; [|exact Hfo].
    intros x o. unfold foreign_of, owned. by destruct (decide _).
  - cbn [ReaderGraph.for_graph]. apply NoDup_cons in Hnd as [Hns Hnd]. destruct (Hs s) as [Hl Hp]; [by left|].
    destruct (produce_ok g s d f c Hsl Hl Hd Hp Hfo) as (g1 & -> & Hm1 & Hp1 & Hf1). rewrite done_bind.
    destruct (IH g1 (fun x o => c x o + if decide (x = d /\ counts (table g) f s o) then 1 else 0) (mp_ok _ _ Hm1) Hnd Hd) as (g2 & -> & Hm2 & Hp2 & Hf2); [|exact Hf1|].
    + intros s' Hin. destruct (Hs s') as [? Hn]; [by right|]. rewrite (tframe_live _ _ s' (mp_frame _ _ Hm1)). split; [done|].
      rewrite Hp1. intros [?|[-> _]]; done.
    + exists g2. split_and!; [done|by eapply moves_prods_trans| |].
      * intros s' x. rewrite Hp2, Hp1, elem_of_cons. naive_solver.
      * eapply foreign_is_ext; [|exact Hf2]. intros x o. simpl.
        rewrite foreign_of_cons, (foreign_of_frame _ _ _ _ _ _ _ (mp_frame _ _ Hm1)). lia.
Qed.

Lemma drop_all_ok d f dropped : forall g c,
  slots_ok (table g) -> (N.of_nat d < NO_PRODUCER)%N ->
  (forall s, s ∈ dropped -> is_Some (KeyTable.live_key (table g) s)) ->
  foreign_is (foreign_producers_of g) (fun x o => c x o + foreign_of (table g) d f dropped x o) ->
  exists ks g', ReaderGraph.map_graph_ (ReaderGraph.drop_output d f) dropped g = Done (ks, g') /\ moves_prods g g'
    /\ Forall2 (fun k s => KeyTable.live_key (table g) s = Some k) ks dropped
    /\ (forall s x, x ∈ prods (table g') s <-> x ∈ prods (table g) s /\ ~ (s ∈ dropped /\ x = d))
    /\ foreign_is (foreign_producers_of g') c.
Proof.
  induction dropped as [|s dropped IH]; intros g c Hsl Hd Hs Hfo.
  - exists [], g. split_and!; [done|by apply moves_prods_refl|constructor|intros s x; set_solver|]. eapply foreign_is_ext; [|exact Hfo].
    intros x o. unfold foreign_of, owned. simpl. destruct (decide _); simpl; lia.
  - cbn [ReaderGraph.map_graph_]. change (ReaderGraph.drop_output d f g s) with (fact ← ReaderGraph.key g s; self ← ReaderGraph.unproduce g s d f; Done (fact, self)).
    destruct (Hs s) as [k Hk]; [by left|]. rewrite (key_live _ s k Hk), done_bind.
    destruct (unproduce_ok g s d f (fun x o => c x o + foreign_of (table g) d f (s :: dropped) x o) (fun x o => c x o + foreign_of (table g) d f dropped x o) Hsl (ex_intro _ k Hk) Hd Hfo)
      as (g1 & -> & Hm1 & Hp1 & Hf1).
    { intros x o. rewrite foreign_of_cons. lia. }
    rewrite !done_bind.
    destruct (IH g1 c (mp_ok _ _ Hm1) Hd) as (ks & g2 & -> & Hm2 & Hl2 & Hp2 & Hf2).
    + intros s' Hin. rewrite (tframe_live _ _ s' (mp_frame _ _ Hm1)). apply Hs. by right.
    + eapply foreign_is_ext; [|exact Hf1]. intros x o. simpl. by rewrite (foreign_of_frame _ _ _ _ _ _ _ (mp_frame _ _ Hm1)).
    + rewrite done_bind. exists (k :: ks), g2. split_and!; [done|by eapply moves_prods_trans| | |done].
      * constructor; [done|]. eapply Forall2_impl; [exact Hl2|]. intros k' s' Hk'. by rewrite <- (tframe_live _ _ s' (mp_frame _ _ Hm1)).
      * intros s' x. rewrite Hp2, Hp1, elem_of_cons. naive_solver.
Qed.

(** ** The graph after a record was filed *)

Lemma owned_app t l1 l2 o : owned t (l1 ++ l2) o = owned t l1 o + owned t l2 o.
Proof. unfold owned. by rewrite filter_app, length_app. Qed.

Lemma owned_perm t l1 l2 o : l1 ≡ₚ l2 -> owned t l1 o = owned t l2 o.
Proof. intros Hp. unfold owned. by rewrite Hp. Qed.

(** What was added and what was dropped lead from the old outputs to the new. *)
Lemma diff_perm (old new : list KeyIdx) :
  NoDup old -> NoDup new -> old ++ filter (fun x => x ∉ old) new ≡ₚ new ++ filter (fun x => x ∉ new) old.
Proof.
  intros Ho Hn. apply NoDup_Permutation.
  - apply NoDup_app. split_and!; [done| |by apply NoDup_filter]. intros x Hx [? _]%list_elem_of_filter. done.
  - apply NoDup_app. split_and!; [done| |by apply NoDup_filter]. intros x Hx [? _]%list_elem_of_filter. done.
  - intros x. rewrite !elem_of_app, !list_elem_of_filter. destruct (decide (x ∈ old)), (decide (x ∈ new)); tauto.
Qed.

Lemma foreign_balance t d f old new x o :
  NoDup old -> NoDup new ->
  foreign_of t d f old x o + foreign_of t d f (filter (fun s => s ∉ old) new) x o
  = foreign_of t d f new x o + foreign_of t d f (filter (fun s => s ∉ new) old) x o.
Proof.
  intros Ho Hn. unfold foreign_of. destruct (decide _); [|done]. rewrite <- !owned_app. by apply owned_perm, diff_perm.
Qed.

(** The count of a derivation, by its record. *)
Lemma foreign_count_of g d f o : file_at g d = Some f -> foreign_count g d o = foreign_of (table g) d f (from_option Record_.outputs [] (rec_at g d)) d o.
Proof.
  intros Hf. unfold foreign_count, foreign_of. rewrite Hf. destruct (decide (Some f = Some o)) as [[= ->]|Hne].
  - rewrite decide_False; [done|]. tauto.
  - rewrite decide_True; [done|]. split; [done|]. by intros ->.
Qed.

(** The record of one derivation was replaced; the edges followed. *)
Record filed g g' (d : DerivIdx) (reads' : list (KeyIdx * Fingerprint)) (outputs' : list KeyIdx) : Prop := {
  fl_slots : deriv_slots g' = deriv_slots g;
  fl_free : free_derivations g' = free_derivations g;
  fl_len : length (derivations g') = length (derivations g);
  fl_id : forall x, id_at g' x = id_at g x;
  fl_record : exists r, rec_at g' d = Some r /\ Record_.reads r = reads'.*1 /\ Record_.outputs r = outputs';
  fl_others : forall x, x <> d -> rec_at g' x = rec_at g x;
  fl_by_file : forall f, default ∅ (by_file g' !! f) = default ∅ (by_file g !! f) ∪ (if decide (file_at g d = Some f) then {[d]} else ∅);
  fl_generation : generation g' = generation g;
  fl_frame : tframe (table g) (table g');
  fl_cache : cframe (table g) (table g');
  fl_ok : slots_ok (table g');
  fl_reads : forall s x fp, reads (readers_at (table g') s) x fp
    <-> (x <> d /\ reads (readers_at (table g) s) x fp) \/ (x = d /\ (s, fp) ∈ reads');
  fl_outputs : forall s x, x ∈ prods (table g') s <-> (x <> d /\ x ∈ prods (table g) s) \/ (x = d /\ s ∈ outputs');
  fl_foreign : foreign_is (foreign_producers_of g') (foreign_count g');
  fl_held : held_releases g' = held_releases g
}.

Lemma filed_ok g g' d reads' outputs' :
  graph_ok g -> d ∈ deriv_slots g -> rising reads'.*1 -> rising outputs' -> filed g g' d reads' outputs' -> graph_ok g'.
Proof.
  intros [G1 G2 G3 G4 G5 G6 G7 G8] Hd Hr Ho [F1 F2 F3 F4 F5 F6 F7 F8 F9 F10 F11 F12 F13 F14 F15].
  destruct F5 as (r & Hrec & Hrr & Hro). split.
  - eapply tframe_table; [exact F9|done|done].
  - by rewrite F8.
  - destruct G3 as [D1 D2 D3 D4 D5 D6 D7]. split; rewrite ?F1, ?F2, ?F3; try done.
    + intros d1 d2. rewrite !F4. apply D3.
    + intros x r'. destruct (decide (x = d)) as [->|Hne]; [done|]. rewrite F6 by done. apply D6.
  - intros x r'. destruct (decide (x = d)) as [->|Hne].
    + rewrite Hrec. intros [= <-]. by rewrite Hrr, Hro.
    + rewrite F6 by done. apply G4.
  - intros s x. setoid_rewrite F12. unfold rec_reads. destruct (decide (x = d)) as [->|Hne].
    + rewrite Hrec. split.
      * intros (fp & [[? _]|[_ Hin]]); [done|]. exists r. split; [done|]. rewrite Hrr. by apply (list_elem_of_fmap_2 fst _ (s, fp)).
      * intros (r' & [= <-] & Hin). rewrite Hrr in Hin. apply list_elem_of_fmap in Hin as ([s' fp] & -> & Hin). exists fp. by right.
    + rewrite F6 by done. fold (rec_reads g x s). rewrite <- G5. split; [intros (fp & [[_ ?]|[? _]]); [by exists fp|done]|].
      intros [fp Hfp]. exists fp. by left.
  - intros s x. rewrite F13. unfold rec_outputs. destruct (decide (x = d)) as [->|Hne].
    + rewrite Hrec. split.
      * intros [[? _]|[_ Hin]]; [done|]. exists r. by rewrite Hro.
      * intros (r' & [= <-] & Hin). right. by rewrite <- Hro.
    + rewrite F6 by done. fold (rec_outputs g x s). rewrite <- G6. naive_solver.
  - intros f x. rewrite F7, elem_of_union, G7. assert (file_at g' x = file_at g x) as -> by (unfold file_at; by rewrite F4).
    destruct (decide (x = d)) as [->|Hne].
    + destruct (decide (file_at g d = Some f)); [|set_solver]. rewrite Hrec. set_solver.
    + rewrite F6 by done. destruct (decide (file_at g d = Some f)); set_solver.
  - done.
Qed.

(** The counts once the derivation's outputs are [new]. *)
Definition foreign_count_with g (d : DerivIdx) (f : FileId) (new : list KeyIdx) (x : DerivIdx) (o : FileId) : nat :=
  if decide (x = d) then foreign_of (table g) d f new x o else foreign_count g x o.

Definition old_outputs g (d : DerivIdx) : list KeyIdx := from_option Record_.outputs [] (rec_at g d).
Definition old_reads g (d : DerivIdx) : list KeyIdx := from_option Record_.reads [] (rec_at g d).

Lemma old_rising g d : graph_ok g -> rising (old_reads g d) /\ rising (old_outputs g d).
Proof.
  intros Hok. unfold old_reads, old_outputs. destruct (rec_at g d) as [r|] eqn:Hr; simpl; [by apply (gi_rising g Hok d)|]. split; constructor.
Qed.

Lemma old_outputs_prods g d s : graph_ok g -> s ∈ old_outputs g d <-> d ∈ prods (table g) s.
Proof.
  intros Hok. rewrite (gi_outputs g Hok). unfold rec_outputs, old_outputs. destruct (rec_at g d) as [r|]; simpl.
  - split; [by exists r|by intros (? & [= <-] & ?)].
  - split; [by intros ?%not_elem_of_nil|by intros (? & ? & _)].
Qed.

Lemma old_reads_readers g d s : graph_ok g -> s ∈ old_reads g d <-> exists fp, reads (readers_at (table g) s) d fp.
Proof.
  intros Hok. rewrite (gi_reads g Hok). unfold rec_reads, old_reads. destruct (rec_at g d) as [r|]; simpl.
  - split; [by exists r|by intros (? & [= <-] & ?)].
  - split; [by intros ?%not_elem_of_nil|by intros (? & ? & _)].
Qed.

Lemma deriv_small g d : derivs_ok g -> d ∈ deriv_slots g -> (N.of_nat d < NO_PRODUCER)%N.
Proof. intros Hok Hd%dr_slot; [|done]. pose proof (dr_small g Hok). lia. Qed.

(** The new outputs are produced and the others are dropped. *)
Lemma move_outputs g d f new :
  graph_ok g -> d ∈ deriv_slots g -> file_at g d = Some f -> rising new ->
  (forall s, s ∈ new -> is_Some (KeyTable.live_key (table g) s)) ->
  exists g1 ks g2,
    ReaderGraph.for_graph (fun self key => ReaderGraph.produce self key d f) (filter (fun s => s ∉ old_outputs g d) new) g = Done g1
    /\ ReaderGraph.map_graph_ (ReaderGraph.drop_output d f) (filter (fun s => s ∉ new) (old_outputs g d)) g1 = Done (ks, g2)
    /\ moves_prods g g2
    /\ Forall2 (fun k s => KeyTable.live_key (table g) s = Some k) ks (filter (fun s => s ∉ new) (old_outputs g d))
    /\ (forall s x, x ∈ prods (table g2) s <-> (x <> d /\ x ∈ prods (table g) s) \/ (x = d /\ s ∈ new))
    /\ foreign_is (foreign_producers_of g2) (foreign_count_with g d f new).
Proof.
  intros Hok Hd Hf Hnew Hlive. destruct (old_rising g d Hok) as [_ Hold]. apply rising_nodup in Hold as Hnold, Hnew as Hnnew.
  assert (Hsmall := deriv_small g d (gi_derivs g Hok) Hd).
  destruct (produce_all_ok d f (filter (fun s => s ∉ old_outputs g d) new) g (foreign_count g)) as (g1 & H1 & Hm1 & Hp1 & Hf1); try apply Hok; try done.
  - by apply NoDup_filter.
  - intros s [Hn Hs]%list_elem_of_filter. split; [by apply Hlive|]. by rewrite <- old_outputs_prods.
  - destruct (drop_all_ok d f (filter (fun s => s ∉ new) (old_outputs g d)) g1 (foreign_count_with g d f new)) as (ks & g2 & H2 & Hm2 & Hl2 & Hp2 & Hf2).
    + apply Hm1.
    + done.
    + intros s [Hn Hs]%list_elem_of_filter. rewrite (tframe_live _ _ s (mp_frame _ _ Hm1)). apply live_used; [apply Hok|]. right.
      intros Hnil. apply old_outputs_prods in Hs; [|done]. rewrite Hnil in Hs. by apply not_elem_of_nil in Hs.
    + eapply foreign_is_ext; [|exact Hf1]. intros x o. rewrite (foreign_of_frame _ _ _ _ _ _ _ (mp_frame _ _ Hm1)).
      unfold foreign_count_with. destruct (decide (x = d)) as [->|Hne].
      * rewrite (foreign_count_of g d f o Hf). by apply foreign_balance.
      * unfold foreign_of. rewrite !decide_False by tauto. lia.
    + exists g1, ks, g2. split_and!; [done|done|by eapply moves_prods_trans| | |done].
      * eapply Forall2_impl; [exact Hl2|]. intros k s Hk. by rewrite <- (tframe_live _ _ s (mp_frame _ _ Hm1)).
      * intros s x. rewrite Hp2, Hp1, !list_elem_of_filter. rewrite <- !old_outputs_prods by done.
        destruct (decide (x = d)) as [->|]; [|tauto]. destruct (decide (s ∈ new)), (decide (s ∈ old_outputs g d)); tauto.
Qed.

(** The record goes into its slot. *)
Record placed g g' (d : DerivIdx) (r : Record_) : Prop := {
  pl_table : table g' = table g;
  pl_slots : deriv_slots g' = deriv_slots g;
  pl_free : free_derivations g' = free_derivations g;
  pl_len : length (derivations g') = length (derivations g);
  pl_id : forall x, id_at g' x = id_at g x;
  pl_record : rec_at g' d = Some r;
  pl_others : forall x, x <> d -> rec_at g' x = rec_at g x;
  pl_by_file : forall f, default ∅ (by_file g' !! f)
    = default ∅ (by_file g !! f) ∪ (if decide (file_at g d = Some f /\ rec_at g d = None) then {[d]} else ∅);
  pl_foreign : foreign_producers_of g' = foreign_producers_of g;
  pl_generation : generation g' = generation g;
  pl_held : held_releases g' = held_releases g;
  pl_clock : clock g' = clock g
}.

Lemma place_ok g d f ro r :
  file_at g d = Some f -> (ro = None /\ rec_at g d = Some r) \/ ro = Some r ->
  exists g', match ro with
    | None => Done g
    | Some record =>
        ds ← ReaderGraph.derivation g d;
        g ← ReaderGraph.set_record g d (Some record);
        Done match slot_record ds with
             | None => ReaderGraph.with_by_file g (<[f := default ∅ (by_file g !! f) ∪ {[d]}]> (by_file g))
             | Some _ => g
             end
    end = Done g' /\ placed g g' d r.
Proof.
  intros Hf Hro. assert (Hds : exists ds, derivations g !! d = Some ds /\ deriv_file (slot_id ds) = f).
  { unfold file_at, id_at in Hf. destruct (derivations g !! d) as [ds|]; [|done]. exists ds. split; [done|]. by injection Hf. }
  destruct Hds as (ds & Hds & Hdf). assert (Hlt := lookup_lt_Some _ _ _ Hds).
  assert (Hrec : rec_at g d = slot_record ds) by (unfold rec_at; by rewrite Hds).
  destruct Hro as [[-> Hr]| ->].
  - exists g. split; [done|]. split; try done. intros f'. rewrite decide_False by (rewrite Hr; naive_solver). set_solver.
  - unfold ReaderGraph.set_record, ReaderGraph.derivation. rewrite Hds. simpl.
    set (g1 := ReaderGraph.with_derivations g (deriv_slots g) (<[d := mkDerivSlot (slot_id ds) (Some r)]> (derivations g)) (free_derivations g)).
    assert (Hl : forall x, derivations g1 !! x = if decide (x = d) then Some (mkDerivSlot (slot_id ds) (Some r)) else derivations g !! x).
    { intros x. simpl. destruct (decide (x = d)) as [->|]; [by apply list_lookup_insert_eq|by apply list_lookup_insert_ne]. }
    assert (Hid : forall x, id_at g1 x = id_at g x).
    { intros x. unfold id_at. rewrite Hl. destruct (decide (x = d)) as [->|]; [by rewrite Hds|done]. }
    assert (Hr1 : rec_at g1 d = Some r) by (unfold rec_at; by rewrite Hl, decide_True).
    assert (Hr2 : forall x, x <> d -> rec_at g1 x = rec_at g x) by (intros x Hne; unfold rec_at; by rewrite Hl, decide_False).
    assert (Hlen : length (derivations g1) = length (derivations g)) by (simpl; by rewrite length_insert).
    eexists. split; [done|]. destruct (slot_record ds) as [r0|] eqn:Hr0.
    + split; try done. intros f'. rewrite decide_False by naive_solver. set_solver.
    + split; try done. intros f'. simpl. rewrite lookup_more. destruct (decide (f' = f)) as [->|Hne].
      * rewrite decide_True by done. set_solver.
      * rewrite decide_False; [set_solver|]. rewrite Hf. naive_solver.
Qed.

Lemma placed_filed g g1 g2 d reads' outputs' r f :
  graph_ok g -> d ∈ deriv_slots g -> file_at g d = Some f ->
  moves_prods g g1 -> (forall s x, x ∈ prods (table g1) s <-> (x <> d /\ x ∈ prods (table g) s) \/ (x = d /\ s ∈ outputs')) ->
  foreign_is (foreign_producers_of g1) (foreign_count_with g d f outputs') ->
  placed g1 g2 d r -> Record_.reads r = reads'.*1 -> Record_.outputs r = outputs' ->
  forall g3, moves_readers g2 g3 ->
  (forall s x fp, reads (readers_at (table g3) s) x fp
    <-> (x <> d /\ reads (readers_at (table g) s) x fp) \/ (x = d /\ (s, fp) ∈ reads')) ->
  filed g g3 d reads' outputs'.
Proof.
  intros Hok Hd Hf Hm Hp Hfo Hpl Hrr Hro g3 Hmr Hreads. destruct (same_rec g g1 (mp_derivations _ _ Hm)) as [Hrec1 Hid1].
  destruct (same_rec g2 g3 (gs_derivations _ _ (mr_same _ _ Hmr))) as [Hrec3 Hid3].
  assert (Hid : forall x, id_at g3 x = id_at g x) by (intros x; by rewrite Hid3, (pl_id _ _ _ _ Hpl), Hid1).
  assert (Hoth : forall x, x <> d -> rec_at g3 x = rec_at g x) by (intros x Hne; by rewrite Hrec3, (pl_others _ _ _ _ Hpl), Hrec1).
  assert (Hrd : rec_at g3 d = Some r) by by rewrite Hrec3, (pl_record _ _ _ _ Hpl).
  assert (Hframe : tframe (table g) (table g3)).
  { eapply tframe_trans; [apply Hm|]. rewrite <- (pl_table _ _ _ _ Hpl). apply Hmr. }
  split.
  - by rewrite (gs_slots _ _ (mr_same _ _ Hmr)), (pl_slots _ _ _ _ Hpl), (mp_slots _ _ Hm).
  - by rewrite (gs_free _ _ (mr_same _ _ Hmr)), (pl_free _ _ _ _ Hpl), (mp_free _ _ Hm).
  - by rewrite (gs_derivations _ _ (mr_same _ _ Hmr)), (pl_len _ _ _ _ Hpl), (mp_derivations _ _ Hm).
  - done.
  - by exists r.
  - done.
  - intros f'. rewrite (gs_by_file _ _ (mr_same _ _ Hmr)), (pl_by_file _ _ _ _ Hpl), (mp_by_file _ _ Hm).
    unfold file_at. rewrite Hid1, Hrec1. fold (file_at g d). destruct (decide (file_at g d = Some f')) as [Hf'|Hn].
    + destruct (rec_at g d) as [r0|] eqn:Hr0.
      * rewrite decide_False by naive_solver. assert (d ∈ default ∅ (by_file g !! f')) by (apply (gi_by_file g Hok); by rewrite Hr0). set_solver.
      * by rewrite decide_True.
    + rewrite decide_False by tauto. done.
  - by rewrite (gs_generation _ _ (mr_same _ _ Hmr)), (pl_generation _ _ _ _ Hpl), (mp_generation _ _ Hm).
  - done.
  - eapply cframe_trans; [apply Hm|]. rewrite <- (pl_table _ _ _ _ Hpl). apply Hmr.
  - apply Hmr.
  - done.
  - intros s x. by rewrite (mr_prods _ _ Hmr), (pl_table _ _ _ _ Hpl), Hp.
  - rewrite (gs_foreign _ _ (mr_same _ _ Hmr)), (pl_foreign _ _ _ _ Hpl). eapply foreign_is_ext; [|exact Hfo].
    intros x o. unfold foreign_count_with. assert (Hfile : forall y, file_at g3 y = file_at g y) by (intros y; unfold file_at; by rewrite Hid).
    destruct (decide (x = d)) as [->|Hne].
    + rewrite (foreign_count_of g3 d f) by by rewrite Hfile. rewrite Hrd. simpl. rewrite Hro. symmetry. by apply foreign_of_frame.
    + unfold foreign_count. rewrite Hfile, Hoth by done. destruct (decide _); [done|]. symmetry. apply owned_ext. intros s _. by apply tframe_owner.
  - by rewrite (gs_held _ _ (mr_same _ _ Hmr)), (pl_held _ _ _ _ Hpl), (mp_held _ _ Hm).
Qed.

(** *** The composition *)

Lemma reads_dec r d fp : readers_ok r -> reads r d fp \/ ~ reads r d fp.
Proof.
  intros Hok. destruct (decide (Readers.group_of r d = Some fp)) as [H|H]; [left|right]; by rewrite <- group_of_reads.
Qed.

Lemma pair_fun {A} (l : list (KeyIdx * A)) s a b : NoDup l.*1 -> (s, a) ∈ l -> (s, b) ∈ l -> a = b.
Proof.
  intros Hnd Ha Hb. apply list_elem_of_lookup in Ha as [i Hi], Hb as [j Hj].
  assert (i = j) as ->; [|congruence]. eapply (NoDup_lookup l.*1); [done| |]; rewrite list_lookup_fmap; [by rewrite Hi|by rewrite Hj].
Qed.

(** The readers after the changes of one record. *)
Lemma changed_reads g d old new R ops s x fp :
  rising new.*1 -> readers_ok R -> (forall fp, reads R d fp -> s ∈ old) -> (s ∈ old -> exists fp, reads R d fp) ->
  R = readers_at (table g) s ->
  (forall op, (s, op) ∈ ops <-> change_of (Some (table g)) d old new s op) ->
  forall R', (forall op, (s, op) ∈ ops -> forall x fp, reads R' x fp <-> op_reads op (reads R) x fp) ->
  (s ∉ ops.*1 -> R' = R) ->
  reads R' x fp <-> (x <> d /\ reads R x fp) \/ (x = d /\ (s, fp) ∈ new).
Proof.
  intros Hnew Hok Hold1 Hold2 HR Hops R' HR1 HR2. apply rising_nodup in Hnew.
  destruct (decide (s ∈ ops.*1)) as [Hin|Hn].
  - apply list_elem_of_fmap in Hin as ([s' op] & Hs & Hin). simpl in Hs. subst s'. rewrite (HR1 op Hin).
    apply Hops in Hin as [(-> & _ & Hn)|[(fp0 & -> & Hin & _)|(fp0 & -> & Hin & _)]]; simpl.
    + split; [tauto|]. intros [?|[-> Hin]]; [tauto|]. destruct Hn. by apply (list_elem_of_fmap_2 fst _ (s, fp)).
    + split; [|intros [?|[-> Hin2]]; [by right|left; split; [done|by eapply pair_fun]]]. intros [[-> ->]|?]; [by right|by left].
    + split; [|intros [?|[-> Hin2]]; [by right|left; split; [done|by eapply pair_fun]]]. intros [[-> ->]|?]; [by right|by left].
  - rewrite HR2 by done.
    assert (Hno : forall op, ~ change_of (Some (table g)) d old new s op).
    { intros op Hc%Hops. apply Hn. by apply (list_elem_of_fmap_2 fst _ (s, op)). }
    assert (Hd : reads R d fp <-> (s, fp) ∈ new); [|destruct (decide (x = d)) as [->|]; naive_solver].
    split.
    + intros Hr. assert (Hs := Hold1 fp Hr). destruct (decide (s ∈ new.*1)) as [Hsn|Hsn].
      * apply list_elem_of_fmap in Hsn as ([s' fp0] & Heq & Hin). simpl in Heq. subst s'.
        destruct (reads_dec R d fp0 Hok) as [Hr0|Hr0].
        -- assert (fp = fp0) as ->; [|done]. apply (group_of_reads _ _ _ Hok) in Hr, Hr0. congruence.
        -- destruct (Hno (Seen d fp0)). right; right. exists fp0. split_and!; try done. intros t [= <-]. by rewrite <- HR.
      * destruct (Hno (Remove d)). by left.
    + intros Hin. destruct (decide (s ∈ old)) as [Hs|Hs].
      * destruct (reads_dec R d fp Hok) as [|Hr]; [done|]. destruct (Hno (Seen d fp)). right; right. exists fp.
        split_and!; try done. intros t [= <-]. by rewrite <- HR.
      * destruct (Hno (Insert_ d fp)). right; left. by exists fp.
Qed.

(** The record to file. *)
Record prepared g (id : DerivationId) (d : DerivIdx) (p : PreparedRecord) : Prop := {
  pp_slot : d ∈ deriv_slots g;
  pp_id_at : id_at g d = Some id;
  pp_id : prepared_id p = id;
  pp_deriv : prepared_deriv p = d;
  pp_reads : rising (prepared_reads p).*1;
  pp_outputs : rising (prepared_outputs p);
  pp_reads_live : forall s, s ∈ (prepared_reads p).*1 -> is_Some (KeyTable.live_key (table g) s);
  pp_outputs_live : forall s, s ∈ prepared_outputs p -> is_Some (KeyTable.live_key (table g) s);
  pp_few : (N.of_nat (length (prepared_reads p)) < 2 ^ 32)%N
}.

(** What the record stops reading and producing. *)
Definition unread_of g (d : DerivIdx) (p : PreparedRecord) : list KeyIdx := filter (fun s => s ∉ (prepared_reads p).*1) (old_reads g d).
Definition unproduced_of g (d : DerivIdx) (p : PreparedRecord) : list KeyIdx := filter (fun s => s ∉ prepared_outputs p) (old_outputs g d).

Lemma record_new reads outputs :
  (N.of_nat (length reads) < 2 ^ 32)%N ->
  exists r, Record_.new reads outputs = Done r /\ Record_.reads r = reads /\ Record_.outputs r = outputs.
Proof.
  intros Hlen. unfold Record_.new. rewrite (proj2 (N.ltb_lt _ _) Hlen). eexists. split; [done|]. unfold Record_.reads, Record_.outputs. simpl.
  by rewrite take_app_length, drop_app_length.
Qed.

Lemma diff_ok g id d p :
  graph_ok g -> prepared g id d p ->
  exists ds diffed ro r, ReaderGraph.derivation g d = Done ds
    /\ PreparedRecord.diff p (slot_record ds) (Some (table g)) = Done diffed
    /\ diffed = mkDiffed id d (diffed_ops diffed) (unread_of g d p) (prepared_dropped_reads p)
         (filter (fun s => s ∉ old_outputs g d) (prepared_outputs p)) (unproduced_of g d p) ro
    /\ rising (diffed_ops diffed).*1
    /\ (forall s op, (s, op) ∈ diffed_ops diffed <-> change_of (Some (table g)) d (old_reads g d) (prepared_reads p) s op)
    /\ ((ro = None /\ rec_at g d = Some r) \/ ro = Some r)
    /\ Record_.reads r = (prepared_reads p).*1 /\ Record_.outputs r = prepared_outputs p.
Proof.
  intros Hok [P1 P2 P3 P4 P5 P6 P7 P8 P9]. destruct (old_rising g d Hok) as [Hor Hoo].
  assert (Hds : exists ds, derivations g !! d = Some ds) by (apply lookup_lt_is_Some_2, (dr_slot g (gi_derivs g Hok) d P1)).
  destruct Hds as [ds Hds]. assert (Hrec : rec_at g d = slot_record ds) by (unfold rec_at; by rewrite Hds).
  assert (Hold : Record_.reads (default Record_.default_ (slot_record ds)) = old_reads g d) by (unfold old_reads; rewrite Hrec; by destruct (slot_record ds)).
  assert (Holdo : Record_.outputs (default Record_.default_ (slot_record ds)) = old_outputs g d) by (unfold old_outputs; rewrite Hrec; by destruct (slot_record ds)).
  exists ds. unfold ReaderGraph.derivation. rewrite Hds. unfold PreparedRecord.diff. rewrite Hold, Holdo, P3, P4.
  destruct (diff_reads_ok (S (length (old_reads g d) + length (prepared_reads p))) d (Some (table g)) (old_reads g d) (prepared_reads p)) as (ops & Hdiff & Hrise & Hops);
    [done|done| |lia|].
  { intros t [= <-] s Hs. apply old_reads_readers in Hs as Hs'; [|done]. destruct Hs' as [fp Hfp].
    assert (Hl : is_Some (KeyTable.live_key (table g) s)).
    { apply live_used; [apply Hok|]. left. intros Hn. rewrite Hn in Hfp. destruct Hfp as (ds' & Hin & _). by apply not_elem_of_nil in Hin. }
    destruct Hl as [k Hl]. apply live_entry in Hl as (e & He & _). split_and!; [by eapply lookup_lt_Some| |by exists fp].
    unfold readers_at. rewrite He. by eapply (sl_readers _ (tb_slots _ (gi_table g Hok))). }
  rewrite Hdiff, done_bind, merge_sorted_spec by (done || lia). cbv beta iota.
  destruct (record_new (prepared_reads p).*1 (prepared_outputs p)) as (r & Hr & Hrr & Hro); [by rewrite length_fmap|].
  match goal with |- context [if ?b then Done None else _] => destruct b eqn:Hun end.
  - rewrite done_bind. rewrite !andb_true_iff, !bool_decide_eq_true in Hun. destruct Hun as [[[[Hsome He1] He2] He3] He4].
    destruct (slot_record ds) as [r0|] eqn:Hr0; [|by destruct Hsome]. simpl in Hold, Holdo.
    eexists _, None, r0. split_and!; [done|done|done|done|done|left; by rewrite Hrec| |].
    + rewrite Hold. apply rising_ext; [done|done|]. intros s. split.
      * intros Hs. destruct (decide (s ∈ (prepared_reads p).*1)) as [|Hn]; [done|]. assert (Hin : s ∈ filter (fun s => s ∉ (prepared_reads p).*1) (old_reads g d)) by by apply list_elem_of_filter.
        rewrite He2 in Hin. by apply not_elem_of_nil in Hin.
      * intros ([s' fp] & -> & Hin)%list_elem_of_fmap. simpl. destruct (decide (s' ∈ old_reads g d)) as [|Hn]; [done|].
        assert (Hc : (s', Insert_ d fp) ∈ ops) by (apply Hops; right; left; by exists fp). rewrite He1 in Hc. by apply not_elem_of_nil in Hc.
    + rewrite Holdo. apply rising_ext; [done|done|]. intros s. split.
      * intros Hs. destruct (decide (s ∈ prepared_outputs p)) as [|Hn]; [done|]. assert (Hin : s ∈ filter (fun s => s ∉ prepared_outputs p) (old_outputs g d)) by by apply list_elem_of_filter.
        rewrite He4 in Hin. by apply not_elem_of_nil in Hin.
      * intros Hs. destruct (decide (s ∈ old_outputs g d)) as [|Hn]; [done|]. assert (Hin : s ∈ filter (fun s => s ∉ old_outputs g d) (prepared_outputs p)) by by apply list_elem_of_filter.
        rewrite He3 in Hin. by apply not_elem_of_nil in Hin.
  - rewrite Hr, !done_bind. eexists _, (Some r), r. split_and!; [done|done|done|done|done|by right|done|done].
Qed.

(** Filing the difference: the record is in its slot, the producers follow;
    the readers are left to the changes that are returned. *)
Lemma finish_kept_ok g id d p diffed ro r released :
  graph_ok g -> prepared g id d p ->
  diffed = mkDiffed id d (diffed_ops diffed) (unread_of g d p) (prepared_dropped_reads p)
    (filter (fun s => s ∉ old_outputs g d) (prepared_outputs p)) (unproduced_of g d p) ro ->
  ((ro = None /\ rec_at g d = Some r) \/ ro = Some r) -> Record_.reads r = (prepared_reads p).*1 -> Record_.outputs r = prepared_outputs p ->
  exists ks g1 g2, ReaderGraph.finish_kept g diffed released
      = Done (ks, diffed_ops diffed, released ++ unproduced_of g d p ++ unread_of g d p ++ prepared_dropped_reads p, g2)
    /\ Forall2 (fun k s => KeyTable.live_key (table g) s = Some k) ks (unproduced_of g d p)
    /\ moves_prods g g1
    /\ (forall s x, x ∈ prods (table g1) s <-> (x <> d /\ x ∈ prods (table g) s) \/ (x = d /\ s ∈ prepared_outputs p))
    /\ foreign_is (foreign_producers_of g1) (foreign_count_with g d (deriv_file id) (prepared_outputs p))
    /\ placed g1 g2 d r.
Proof.
  intros Hok Hp Hdiff Hro Hrr Hrro. destruct (pp_id_at _ _ _ _ Hp). assert (Hf : file_at g d = Some (deriv_file id)) by (unfold file_at; by rewrite (pp_id_at _ _ _ _ Hp)).
  destruct (move_outputs g d (deriv_file id) (prepared_outputs p) Hok (pp_slot _ _ _ _ Hp) Hf (pp_outputs _ _ _ _ Hp) (pp_outputs_live _ _ _ _ Hp))
    as (g0 & ks & g1 & Hg0 & Hg1 & Hm & Hlive & Hprods & Hfo).
  destruct (same_rec g g1 (mp_derivations _ _ Hm)) as [Hrec1 Hid1].
  assert (Hf1 : file_at g1 d = Some (deriv_file id)) by (unfold file_at; rewrite Hid1; done).
  destruct (place_ok g1 d (deriv_file id) ro r Hf1) as (g2 & Hg2 & Hpl); [by rewrite Hrec1|].
  exists ks, g1, g2. split; [|done]. rewrite Hdiff. unfold ReaderGraph.finish_kept.
  cbn [diffed_id diffed_deriv diffed_ops diffed_unread diffed_dropped_reads diffed_added diffed_dropped diffed_record].
  fold (unproduced_of g d p) in Hg1. rewrite Hg0, done_bind, Hg1, done_bind. cbv zeta beta iota.
  rewrite Hg2, done_bind. done.
Qed.

(** Filing a record. *)
Lemma file_prepared g id d p released :
  graph_ok g -> prepared g id d p ->
  exists ds diffed ks g2 g3, ReaderGraph.derivation g d = Done ds
    /\ PreparedRecord.diff p (slot_record ds) (Some (table g)) = Done diffed
    /\ ReaderGraph.finish_kept g diffed released
       = Done (ks, diffed_ops diffed, released ++ unproduced_of g d p ++ unread_of g d p ++ prepared_dropped_reads p, g2)
    /\ ReaderGraph.for_graph ReaderGraph.apply_op (diffed_ops diffed) g2 = Done g3
    /\ Forall2 (fun k s => KeyTable.live_key (table g) s = Some k) ks (unproduced_of g d p)
    /\ filed g g3 d (prepared_reads p) (prepared_outputs p).
Proof.
  intros Hok Hp. destruct (diff_ok g id d p Hok Hp) as (ds & diffed & ro & r & Hds & Hdiff & Heq & Hrise & Hops & Hro & Hrr & Hrro).
  destruct (finish_kept_ok g id d p diffed ro r released Hok Hp Heq Hro Hrr Hrro) as (ks & g1 & g2 & Hfin & Hlive & Hm & Hprods & Hfo & Hpl).
  exists ds, diffed, ks, g2.
  assert (Hr2 : forall s, readers_at (table g2) s = readers_at (table g) s) by (intros s; by rewrite (pl_table _ _ _ _ Hpl), (mp_readers _ _ Hm)).
  assert (Hl2 : forall s, KeyTable.live_key (table g2) s = KeyTable.live_key (table g) s).
  { intros s. rewrite (pl_table _ _ _ _ Hpl). by apply tframe_live, Hm. }
  assert (Hrok : forall s, readers_ok (readers_at (table g) s)).
  { intros s. unfold readers_at. destruct (keys (table g) !! s) as [e|] eqn:He; simpl; [by eapply (sl_readers _ (tb_slots _ (gi_table g Hok)))|].
    split; [|done]. split; [by intros ? ?%not_elem_of_nil|constructor|by intros ? ? ? ?%not_elem_of_nil]. }
  destruct (apply_ops_ok (diffed_ops diffed) g2) as (g3 & Hg3 & Hmr & Hop & Hno).
  - rewrite (pl_table _ _ _ _ Hpl). apply Hm.
  - done.
  - intros s op Hin. rewrite Hl2, Hr2. apply Hops in Hin. unfold change_of in Hin. split.
    + destruct Hin as [(_ & Hs & _)|[(fp & _ & Hs & _)|(fp & _ & Hs & _)]].
      * apply live_used; [apply Hok|]. left. apply old_reads_readers in Hs as [fp (l & Hin & _)]; [|done]. intros Hn. rewrite Hn in Hin. by apply not_elem_of_nil in Hin.
      * apply (pp_reads_live _ _ _ _ Hp). by apply (list_elem_of_fmap_2 fst _ (s, fp)).
      * apply (pp_reads_live _ _ _ _ Hp). by apply (list_elem_of_fmap_2 fst _ (s, fp)).
    + destruct Hin as [(-> & _)|[(fp & -> & _)|(fp & -> & _ & Hs & _)]]; [done|done|]. by apply old_reads_readers in Hs.
  - exists g3. split_and!; try done.
    eapply placed_filed; [done|apply Hp| |exact Hm|exact Hprods|exact Hfo|exact Hpl|done|done|exact Hmr|].
    + unfold file_at. by rewrite (pp_id_at _ _ _ _ Hp).
    + intros s x fp. eapply (changed_reads g d (old_reads g d) (prepared_reads p) (readers_at (table g) s) (diffed_ops diffed)).
      * apply Hp.
      * apply Hrok.
      * intros fp' Hfp. apply old_reads_readers; [done|]. by exists fp'.
      * intros Hs. by apply old_reads_readers in Hs.
      * done.
      * apply Hops.
      * intros op Hin x' fp'. rewrite (Hop s op x' fp' Hin). by rewrite Hr2.
      * intros Hs. by rewrite Hno, Hr2.
Qed.
End Record.
