(* ===== verification/ReplaceProofs.v ===== *)
(** * Replacing a record

    [ReaderGraph::replace]: what the graph records of the derivation
    afterwards, that the records of all others are untouched, and that no key
    stays that nothing refers to. *)

From S2P Require Import Prelude FileOrder Derivation Readers ReadersProofs KeyTable KeyTableProofs KeyUseProofs ReaderGraph KeyReleaseProofs ReaderGraphProofs RecordProofs.
From stdpp Require Import list gmap sorting.
Local Open Scope prog_scope.

Section Replace.
Context {K : Type} `{HK : FactKeys K}.
#[local] Existing Instance fact_key_dec.
Implicit Types t : KeyTable K.
Implicit Types g : ReaderGraph K.

(** ** What the graph records *)

Definition recorded g (id : DerivationId) : Prop := exists d r, id_at g d = Some id /\ rec_at g d = Some r.

Definition read_by g (id : DerivationId) (k : K) (fp : Fingerprint) : Prop :=
  exists d r s, id_at g d = Some id /\ rec_at g d = Some r /\ s ∈ Record_.reads r /\ KeyTable.live_key (table g) s = Some k
    /\ reads (readers_at (table g) s) d fp.

Definition output_of g (id : DerivationId) (k : K) : Prop :=
  exists d r s, id_at g d = Some id /\ rec_at g d = Some r /\ s ∈ Record_.outputs r /\ KeyTable.live_key (table g) s = Some k.

(** No key is kept that nothing refers to. *)
Definition no_garbage g : Prop := forall s, ~ loose (table g) ∅ s.

(** ** Steps that leave the records alone *)

Record records_kept g g' : Prop := {
  rk_recorded : forall id, recorded g' id <-> recorded g id;
  rk_reads : forall id k fp, read_by g' id k fp <-> read_by g id k fp;
  rk_outputs : forall id k, output_of g' id k <-> output_of g id k
}.

Lemma records_kept_refl g : records_kept g g.
Proof. done. Qed.

Lemma records_kept_trans g1 g2 g3 : records_kept g1 g2 -> records_kept g2 g3 -> records_kept g1 g3.
Proof. intros [A1 A2 A3] [B1 B2 B3]. split; intros; by rewrite ?B1, ?B2, ?B3. Qed.

Lemma recorded_live g d r s :
  graph_ok g -> rec_at g d = Some r -> s ∈ Record_.reads r \/ s ∈ Record_.outputs r -> is_Some (KeyTable.live_key (table g) s).
Proof.
  intros Hok Hr Hs. apply live_used; [apply Hok|]. destruct Hs as [Hs|Hs]; [left|right].
  - assert (Hx : rec_reads g d s) by by exists r. apply (gi_reads g Hok) in Hx as [fp (l & Hin & _)]. intros Hn. rewrite Hn in Hin. by apply not_elem_of_nil in Hin.
  - assert (Hx : rec_outputs g d s) by by exists r. apply (gi_outputs g Hok) in Hx. intros Hn. rewrite Hn in Hx. by apply not_elem_of_nil in Hx.
Qed.

(** The slots that are read or produced keep their keys. *)
Lemma keeps_records g g' :
  graph_ok g -> keeps g g' ->
  (forall s k, KeyTable.live_key (table g) s = Some k -> readers_at (table g) s <> None_ \/ prods (table g) s <> [] -> KeyTable.live_key (table g') s = Some k) ->
  records_kept g g'.
Proof.
  intros Hok Hk Hlive.
  assert (Hkey : forall d r s k, rec_at g d = Some r -> s ∈ Record_.reads r \/ s ∈ Record_.outputs r ->
            KeyTable.live_key (table g') s = Some k <-> KeyTable.live_key (table g) s = Some k).
  { intros d r s k Hr Hs. destruct (recorded_live g d r s Hok Hr Hs) as [k0 Hk0].
    assert (Hk0' : KeyTable.live_key (table g') s = Some k0).
    { apply Hlive; [done|]. destruct Hs as [Hs|Hs]; [left|right].
      - assert (Hx : rec_reads g d s) by by exists r. apply (gi_reads g Hok) in Hx as [fp (l & Hin & _)]. intros Hn. rewrite Hn in Hin. by apply not_elem_of_nil in Hin.
      - assert (Hx : rec_outputs g d s) by by exists r. apply (gi_outputs g Hok) in Hx. intros Hn. rewrite Hn in Hx. by apply not_elem_of_nil in Hx. }
    rewrite Hk0, Hk0'. done. }
  assert (Hat : forall d id r, id_at g' d = Some id /\ rec_at g' d = Some r <-> id_at g d = Some id /\ rec_at g d = Some r).
  { intros d id r. rewrite (kp_rec _ _ Hk). split; intros [Hi Hr]; (split; [|done]); [rewrite <- (kp_id _ _ Hk)|rewrite (kp_id _ _ Hk)]; done || by rewrite Hr. }
  split.
  - intros id. unfold recorded. by setoid_rewrite Hat.
  - intros id k fp. split; intros (d & r & s & Hi & Hr & Hs & Hl & Hf); exists d, r, s.
    + destruct (proj1 (Hat d id r) (conj Hi Hr)) as [Hi' Hr']. split_and!; [done|done|done| |by apply (kp_reads _ _ Hk)].
      apply (Hkey d r s k Hr'); [by left|done].
    + destruct (proj2 (Hat d id r) (conj Hi Hr)) as [Hi' Hr']. split_and!; [done|done|done| |by apply (kp_reads _ _ Hk)].
      apply (Hkey d r s k Hr); [by left|done].
  - intros id k. split; intros (d & r & s & Hi & Hr & Hs & Hl); exists d, r, s.
    + destruct (proj1 (Hat d id r) (conj Hi Hr)) as [Hi' Hr']. split_and!; [done|done|done|]. apply (Hkey d r s k Hr'); [by right|done].
    + destruct (proj2 (Hat d id r) (conj Hi Hr)) as [Hi' Hr']. split_and!; [done|done|done|]. apply (Hkey d r s k Hr); [by right|done].
Qed.

Lemma interned_records g g' ks slots : graph_ok g -> interned_all g g' ks slots -> records_kept g g'.
Proof.
  intros Hok Hin. apply keeps_records; [done|apply keeps_grows; [apply Hin|apply Hin|apply Hok]|].
  intros s k Hk _. eapply grows_live; [apply Hin|done].
Qed.

Lemma quiet_records g g' : graph_ok g -> quiet g g' -> records_kept g g'.
Proof.
  intros Hok [A1 A2 A3 A4 A5]. apply keeps_records; [done|by apply keeps_tframe|]. intros s k Hk _. by rewrite (tframe_live _ _ s A2).
Qed.

Lemma slotted_records g g' id d : graph_ok g -> slotted g g' id d -> records_kept g g'.
Proof.
  intros Hok Hs. apply keeps_records; [done|by eapply keeps_slotted|]. intros s k Hk _. by rewrite (sd_table _ _ _ _ Hs).
Qed.

Lemma released_records g g' still slots : graph_ok g -> released g g' still slots -> records_kept g g'.
Proof.
  intros Hok Hr. apply keeps_records; [done|by eapply keeps_released; [|apply Hok]|]. intros s k Hk Hu.
  destruct (KeyTable.live_key (table g') s) as [k'|] eqn:Hk'.
  - unfold KeyTable.live_key in Hk'. rewrite (rd_kept _ _ _ _ Hr) in Hk' by (unfold KeyTable.live_key; by rewrite Hk'). unfold KeyTable.live_key in Hk. congruence.
  - destruct (rd_gone _ _ _ _ Hr s) as (? & ? & _); [by exists k|done|]. tauto.
Qed.

(** ** The steps keep the invariant *)

Lemma slotted_ok g g' id d : graph_ok g -> slotted g g' id d -> graph_ok g'.
Proof.
  intros Hok Hs. eapply keeps_ok; [by eapply keeps_slotted| |apply Hs|done]. rewrite (sd_table _ _ _ _ Hs). apply Hok.
Qed.

Lemma released_ok g g' still slots : graph_ok g -> released g g' still slots -> graph_ok g'.
Proof.
  intros Hok Hr. eapply keeps_ok; [eapply keeps_released; [done|apply Hok]|apply Hr| |done].
  eapply gsame_derivs; [apply Hr|apply Hok].
Qed.

Lemma cframe_cache g g' fingerprint : generation g' = generation g -> cframe (table g) (table g') -> cache_ok g fingerprint -> cache_ok g' fingerprint.
Proof.
  intros Hg Hc Hok s e k He Hk Hcur. destruct (Hc s e He) as (e0 & He0 & Hk0 & -> & Hg0). eapply Hok; [done|by rewrite <- Hk0|by rewrite <- Hg0, <- Hg].
Qed.

Lemma released_cache g g' still slots fingerprint : released g g' still slots -> cache_ok g fingerprint -> cache_ok g' fingerprint.
Proof.
  intros Hr Hok s e k He Hk Hcur. rewrite (gs_generation _ _ (rd_same _ _ _ _ Hr)) in Hcur. eapply Hok; [|done|done].
  rewrite <- (rd_kept _ _ _ _ Hr); [done|]. unfold KeyTable.live_key. rewrite He. simpl. by rewrite Hk.
Qed.

(** What the filed record leaves unused. *)
Lemma filed_unused g g' id d p x :
  graph_ok g -> prepared g id d p -> filed g g' d (prepared_reads p) (prepared_outputs p) -> loose (table g') ∅ x ->
  (loose (table g) ∅ x \/ x ∈ unread_of g d p \/ x ∈ unproduced_of g d p)
  /\ x ∉ (prepared_reads p).*1 /\ x ∉ prepared_outputs p.
Proof.
  intros Hok Hp Hf ((k & Hk) & Hr & Hpr & Hd). rewrite (tframe_live _ _ x (fl_frame _ _ _ _ _ Hf)) in Hk.
  rewrite (tf_derived _ _ (fl_frame _ _ _ _ _ Hf)) in Hd.
  assert (Hnr : forall y fp, ~ reads (readers_at (table g') x) y fp).
  { intros y fp (l & Hin & _). rewrite Hr in Hin. by apply not_elem_of_nil in Hin. }
  assert (Hnp : forall y, y ∉ prods (table g') x) by (intros y; rewrite Hpr; apply not_elem_of_nil).
  assert (H1 : x ∉ (prepared_reads p).*1).
  { intros ([s fp] & -> & Hin)%list_elem_of_fmap. simpl in *. apply (Hnr d fp), (fl_reads _ _ _ _ _ Hf). by right. }
  assert (H2 : x ∉ prepared_outputs p).
  { intros Hin. apply (Hnp d), (fl_outputs _ _ _ _ _ Hf). by right. }
  split; [|done]. unfold unread_of, unproduced_of. rewrite !list_elem_of_filter.
  destruct (decide (x ∈ old_reads g d)) as [|Hnor]; [tauto|]. destruct (decide (x ∈ old_outputs g d)) as [|Hnoo]; [tauto|]. left.
  split_and!; [by exists k| | |done].
  - assert (Hrok : readers_ok (readers_at (table g) x)).
    { apply live_entry in Hk as (e & He & _). unfold readers_at. rewrite He. by eapply (sl_readers _ (tb_slots _ (gi_table g Hok))). }
    assert (Hemp : Readers.is_empty (readers_at (table g) x) = true); [|by destruct (readers_at (table g) x)].
    apply is_empty_reads; [done|]. intros y fp Hy. destruct (decide (y = d)) as [->|Hne].
    + apply Hnor, old_reads_readers; [done|]. by exists fp.
    + apply (Hnr y fp), (fl_reads _ _ _ _ _ Hf). by left.
  - apply elem_of_nil_inv. intros y Hy. destruct (decide (y = d)) as [->|Hne].
    + by apply Hnoo, old_outputs_prods.
    + apply (Hnp y), (fl_outputs _ _ _ _ _ Hf). by left.
Qed.

Record refiled g g' (id : DerivationId) (reads' : list (KeyIdx * Fingerprint)) (outputs' : list KeyIdx) : Prop := {
  rf_recorded : forall id', recorded g' id' <-> id' = id \/ recorded g id';
  rf_reads : forall k fp, read_by g' id k fp <-> exists s, (s, fp) ∈ reads' /\ KeyTable.live_key (table g) s = Some k;
  rf_outputs : forall k, output_of g' id k <-> exists s, s ∈ outputs' /\ KeyTable.live_key (table g) s = Some k;
  rf_other_reads : forall id' k fp, id' <> id -> read_by g' id' k fp <-> read_by g id' k fp;
  rf_other_outputs : forall id' k, id' <> id -> output_of g' id' k <-> output_of g id' k
}.

Lemma filed_records g g' id d p :
  graph_ok g -> prepared g id d p -> filed g g' d (prepared_reads p) (prepared_outputs p) ->
  refiled g g' id (prepared_reads p) (prepared_outputs p).
Proof.
  intros Hok Hp Hf. destruct (fl_record _ _ _ _ _ Hf) as (r & Hr & Hrr & Hro).
  assert (Hl : forall s, KeyTable.live_key (table g') s = KeyTable.live_key (table g) s) by (intros s; apply tframe_live, Hf).
  assert (Hid := fl_id _ _ _ _ _ Hf). assert (Hoth := fl_others _ _ _ _ _ Hf). assert (Hd := pp_id_at _ _ _ _ Hp).
  assert (Hone : forall x, is_Some (rec_at g' x) -> id_at g' x = Some id -> x = d).
  { intros x [rx Hrx] Hx. destruct (decide (x = d)) as [|Hne]; [done|]. rewrite Hoth in Hrx by done. rewrite Hid in Hx.
    apply (dr_one g (gi_derivs g Hok)); [by eapply (dr_record g (gi_derivs g Hok))|apply Hp|by rewrite Hx, Hd]. }
  split.
  - intros id'. split.
    + intros (x & rx & Hx & Hrx). destruct (decide (x = d)) as [->|Hne].
      * left. rewrite Hid, Hd in Hx. congruence.
      * right. exists x, rx. by rewrite <- Hid, <- Hoth.
    + intros [->|(x & rx & Hx & Hrx)].
      * exists d, r. by rewrite Hid.
      * destruct (decide (x = d)) as [->|Hne]; [exists d, r; by rewrite Hid|]. exists x, rx. by rewrite Hid, Hoth.
  - intros k fp. split.
    + intros (x & rx & s & Hx & Hrx & Hs & Hk & Hfp). assert (x = d) as -> by (apply Hone; [by rewrite Hrx|done]).
      rewrite Hl in Hk. exists s. split; [|done]. apply (fl_reads _ _ _ _ _ Hf) in Hfp as [[? _]|[_ ?]]; done.
    + intros (s & Hin & Hk). exists d, r, s. rewrite Hid, Hl. split_and!; [done|done| |done|].
      * rewrite Hrr. by apply (list_elem_of_fmap_2 fst _ (s, fp)).
      * apply (fl_reads _ _ _ _ _ Hf). by right.
  - intros k. split.
    + intros (x & rx & s & Hx & Hrx & Hs & Hk). assert (x = d) as -> by (apply Hone; [by rewrite Hrx|done]).
      rewrite Hl in Hk. exists s. split; [|done]. rewrite Hr in Hrx. injection Hrx as <-. by rewrite <- Hro.
    + intros (s & Hin & Hk). exists d, r, s. rewrite Hid, Hl, Hro. done.
  - intros id' k fp Hne. assert (Hnd : forall x, id_at g x = Some id' -> x <> d) by (intros x Hx ->; rewrite Hd in Hx; congruence).
    split; intros (x & rx & s & Hx & Hrx & Hs & Hk & Hfp); exists x, rx, s.
    + rewrite Hid in Hx. rewrite Hoth in Hrx by by apply Hnd. rewrite Hl in Hk. split_and!; try done.
      apply (fl_reads _ _ _ _ _ Hf) in Hfp as [[_ ?]|[-> _]]; [done|]. by destruct (Hnd d Hx).
    + rewrite Hid, Hoth, Hl by by apply Hnd. split_and!; try done. apply (fl_reads _ _ _ _ _ Hf). left. split; [by apply Hnd|done].
  - intros id' k Hne. assert (Hnd : forall x, id_at g x = Some id' -> x <> d) by (intros x Hx ->; rewrite Hd in Hx; congruence).
    split; intros (x & rx & s & Hx & Hrx & Hs & Hk); exists x, rx, s.
    + rewrite Hid in Hx. rewrite Hoth in Hrx by by apply Hnd. rewrite Hl in Hk. done.
    + rewrite Hid, Hoth, Hl by by apply Hnd. done.
Qed.

(** What the record no longer produces, as keys. *)
Lemma dropped_keys g id d p ks :
  graph_ok g -> prepared g id d p -> Forall2 (fun k s => KeyTable.live_key (table g) s = Some k) ks (unproduced_of g d p) ->
  NoDup ks /\ forall k, k ∈ ks <-> output_of g id k /\ ~ exists s, s ∈ prepared_outputs p /\ KeyTable.live_key (table g) s = Some k.
Proof.
  intros Hok Hp Hks. assert (Hix := tb_index _ (gi_table g Hok)). assert (Hd := pp_id_at _ _ _ _ Hp). split.
  - assert (Hnd : NoDup (unproduced_of g d p)) by (apply NoDup_filter, rising_nodup, old_rising, Hok).
    revert Hnd. induction Hks as [|k s ks l Hk Hks IH]; [constructor|]. intros [Hs Hnd]%NoDup_cons. constructor; [|by apply IH].
    intros Hin. apply Hs. apply list_elem_of_lookup in Hin as [i Hi]. destruct (Forall2_lookup_l _ _ _ _ _ Hks Hi) as (s' & Hs' & Hk').
    assert (s' = s) as <- by by eapply (ix_one _ Hix). by eapply list_elem_of_lookup_2.
  - intros k. split.
    + intros Hin. apply list_elem_of_lookup in Hin as [i Hi]. destruct (Forall2_lookup_l _ _ _ _ _ Hks Hi) as (s & Hs & Hk).
      apply list_elem_of_lookup_2 in Hs. unfold unproduced_of, old_outputs in Hs. apply list_elem_of_filter in Hs as [Hn Hs].
      destruct (rec_at g d) as [r|] eqn:Hr; [|by apply not_elem_of_nil in Hs]. split; [by exists d, r, s|].
      intros (s' & Hs' & Hk'). apply Hn. by assert (s = s') as -> by by eapply (ix_one _ Hix).
    + intros [(x & r & s & Hx & Hr & Hs & Hk) Hn].
      assert (x = d) as -> by (apply (dr_one g (gi_derivs g Hok)); [by eapply (dr_record g (gi_derivs g Hok))|apply Hp|by rewrite Hx, Hd]).
      assert (Hin : s ∈ unproduced_of g d p).
      { apply list_elem_of_filter. split; [intros Ho; apply Hn; by exists s|]. unfold old_outputs. by rewrite Hr. }
      apply list_elem_of_lookup in Hin as [i Hi]. destruct (Forall2_lookup_r _ _ _ _ _ Hks Hi) as (k' & Hk' & Hl).
      assert (k' = k) as -> by congruence. by eapply list_elem_of_lookup_2.
Qed.

(** ** [replace_kept] *)

(** The record of one derivation is now [R] and [O]; those of the others are
    what they were. *)
Record replaced g g' (id : DerivationId) (R : K -> Fingerprint -> Prop) (O : K -> Prop) : Prop := {
  rp_recorded : forall id', recorded g' id' <-> id' = id \/ recorded g id';
  rp_reads : forall k fp, read_by g' id k fp <-> R k fp;
  rp_outputs : forall k, output_of g' id k <-> O k;
  rp_other_reads : forall id' k fp, id' <> id -> read_by g' id' k fp <-> read_by g id' k fp;
  rp_other_outputs : forall id' k, id' <> id -> output_of g' id' k <-> output_of g id' k
}.

Lemma replaced_after g1 g2 g3 id R O : records_kept g1 g2 -> replaced g2 g3 id R O -> replaced g1 g3 id R O.
Proof.
  intros [A1 A2 A3] [B1 B2 B3 B4 B5]. split; try done.
  - intros id'. by rewrite B1, A1.
  - intros id' k fp Hne. by rewrite B4, A2.
  - intros id' k Hne. by rewrite B5, A3.
Qed.

Lemma replaced_before g1 g2 g3 id R O : replaced g1 g2 id R O -> records_kept g2 g3 -> replaced g1 g3 id R O.
Proof.
  intros [B1 B2 B3 B4 B5] [A1 A2 A3]. split.
  - intros id'. by rewrite A1.
  - intros k fp. by rewrite A2.
  - intros k. by rewrite A3.
  - intros id' k fp Hne. by rewrite A2, B4.
  - intros id' k Hne. by rewrite A3, B5.
Qed.

Lemma prepare_kept_ok g (record : KeptRecord K) d now :
  table_ok (table g) -> rising (kept_outputs record) ->
  (N.of_nat (length (keys (table g)) + 2 * length (kept_new_outputs record)) <= 2 ^ 32)%N ->
  exists slots outs g', ReaderGraph.prepare_kept g record d now
      = Done (mkPrepared (kept_id record) d (kept_record_reads record) (kept_dropped_reads record) outs, g')
    /\ interned_all g g' (kept_new_outputs record) slots /\ rising outs /\ forall s, s ∈ outs <-> s ∈ kept_outputs record \/ s ∈ slots.
Proof.
  intros Hok Hr Hroom. unfold ReaderGraph.prepare_kept. destruct (kept_new_outputs record) as [|k ks].
  - exists [], (kept_outputs record), g. split_and!; [done| |done|set_solver]. split; [done|done|apply grows_refl|constructor|by left|lia].
  - destruct (intern_all_ok (fun k : K => k) (fun s (_ : K) => s) (fun s : KeyIdx => s) now
                (fun self key => ReaderGraph.intern_key self key now) (k :: ks)) with (g := g) as (slots & g' & Hm & Hin & _); try done.
    { intros g0 a. by destruct (ReaderGraph.intern_key g0 a now) as [[s g1]| |]. }
    rewrite Hm, !done_bind. rewrite !list_fmap_id in Hin. destruct (sorted_set_rising (kept_outputs record ++ slots)) as [Hrise Hmem].
    eexists slots, _, g'. split_and!; [done|done|done|]. intros s. by rewrite Hmem, elem_of_app.
Qed.

Lemma interned_length g g' ks slots : interned_all g g' ks slots -> length ks = length slots.
Proof. intros Hin. by eapply Forall2_length, (ia_live _ _ _ _ Hin). Qed.

Record kept_ok g (record : KeptRecord K) : Prop := {
  ko_reads : rising (kept_record_reads record).*1;
  ko_live : forall s, s ∈ (kept_record_reads record).*1 -> is_Some (KeyTable.live_key (table g) s);
  ko_outputs : rising (kept_outputs record);
  ko_outputs_live : forall s, s ∈ kept_outputs record -> is_Some (KeyTable.live_key (table g) s);
  ko_few : (N.of_nat (length (kept_record_reads record)) < 2 ^ 32)%N
}.

(** Room for the new keys and for one more derivation. *)
Definition room g (new_keys : nat) : Prop :=
  (N.of_nat (length (keys (table g)) + 2 * new_keys) <= 2 ^ 32)%N /\ (N.of_nat (length (derivations g)) < NO_PRODUCER)%N.

Definition reads_of_kept g (record : KeptRecord K) (k : K) (fp : Fingerprint) : Prop :=
  exists s, (s, fp) ∈ kept_record_reads record /\ KeyTable.live_key (table g) s = Some k.
Definition outputs_of_kept g (record : KeptRecord K) (k : K) : Prop :=
  (exists s, s ∈ kept_outputs record /\ KeyTable.live_key (table g) s = Some k) \/ k ∈ kept_new_outputs record.

(** The graph after a record was filed and before slots are released. *)
Record kept_filed g g' (record : KeptRecord K) (ks : list K) (released released' : list KeyIdx) : Prop := {
  kf_ok : graph_ok g';
  kf_replaced : replaced g g' (kept_id record) (reads_of_kept g record) (outputs_of_kept g record);
  kf_dropped_nodup : NoDup ks;
  kf_dropped : forall k, k ∈ ks <-> output_of g (kept_id record) k /\ ~ outputs_of_kept g record k;
  kf_unused : forall x, loose (table g') ∅ x -> (loose (table g) ∅ x /\ x ∉ (kept_record_reads record).*1) \/ x ∈ released';
  kf_released : forall x, x ∈ released' -> x ∈ released \/ x ∈ kept_dropped_reads record \/ is_Some (KeyTable.live_key (table g) x);
  kf_more : forall x, x ∈ released \/ x ∈ kept_dropped_reads record -> x ∈ released';
  kf_live : forall s k, KeyTable.live_key (table g) s = Some k -> KeyTable.live_key (table g') s = Some k;
  kf_len : length (keys (table g)) <= length (keys (table g')) <= 2 * length (kept_new_outputs record) + length (keys (table g));
  kf_cache : forall fingerprint, cache_ok g fingerprint -> cache_ok g' fingerprint;
  kf_held : held_releases g' = held_releases g;
  kf_derivs : length (derivations g') <= S (length (derivations g))
}.

Lemma live_slots t ks slots k :
  Forall2 (fun k s => KeyTable.live_key t s = Some k) ks slots -> k ∈ ks <-> exists s, s ∈ slots /\ KeyTable.live_key t s = Some k.
Proof.
  intros Hks. split.
  - intros Hin. apply list_elem_of_lookup in Hin as [i Hi]. destruct (Forall2_lookup_l _ _ _ _ _ Hks Hi) as (s & Hs & Hk).
    exists s. split; [by eapply list_elem_of_lookup_2|done].
  - intros (s & Hin & Hk). apply list_elem_of_lookup in Hin as [i Hi]. destruct (Forall2_lookup_r _ _ _ _ _ Hks Hi) as (k' & Hk' & Hl).
    assert (k' = k) as -> by congruence. by eapply list_elem_of_lookup_2.
Qed.

(** The slot of the derivation and the slots of the new outputs. *)
Lemma prepare_ok g (record : KeptRecord K) now :
  graph_ok g -> kept_ok g record -> room g (length (kept_new_outputs record)) ->
  exists d g1 p g2, ReaderGraph.intern_derivation g (kept_id record) = Done (d, g1)
    /\ ReaderGraph.prepare_kept g1 record d now = Done (p, g2)
    /\ graph_ok g2 /\ prepared g2 (kept_id record) d p /\ records_kept g g2
    /\ prepared_reads p = kept_record_reads record /\ prepared_dropped_reads p = kept_dropped_reads record
    /\ (forall k, (exists s, s ∈ prepared_outputs p /\ KeyTable.live_key (table g2) s = Some k) <-> outputs_of_kept g record k)
    /\ (forall x, loose (table g2) ∅ x -> loose (table g) ∅ x \/ x ∈ prepared_outputs p)
    /\ grows (table g) (table g2)
    /\ length (keys (table g2)) <= 2 * length (kept_new_outputs record) + length (keys (table g))
    /\ generation g2 = generation g /\ held_releases g2 = held_releases g /\ length (derivations g2) <= S (length (derivations g)).
Proof.
  intros Hok [O1 O2 O3 O4 O5] [Hroom Hroomd].
  destruct (intern_derivation_ok g (kept_id record) (gi_derivs g Hok) Hroomd) as (d & g1 & Hd & Hs1).
  assert (Ht1 := sd_table _ _ _ _ Hs1). assert (Hok1 := slotted_ok _ _ _ _ Hok Hs1).
  destruct (prepare_kept_ok g1 record d now) as (slots & outs & g2 & Hp & Hin & Hrise & Houts); [by apply (gi_table g1)|done|by rewrite Ht1|].
  assert (Hok2 := interned_ok _ _ _ _ Hin Hok1). assert (Hg := ia_grows _ _ _ _ Hin). rewrite Ht1 in Hg.
  assert (Hsame := ia_same _ _ _ _ Hin).
  assert (Hl : forall s, is_Some (KeyTable.live_key (table g) s) -> is_Some (KeyTable.live_key (table g2) s)).
  { intros s [k Hk]. exists k. by eapply grows_live. }
  assert (Hslots : forall s, s ∈ slots -> is_Some (KeyTable.live_key (table g2) s)).
  { intros s Hs. apply list_elem_of_lookup in Hs as [i Hi]. destruct (Forall2_lookup_r _ _ _ _ _ (ia_live _ _ _ _ Hin) Hi) as (k & _ & Hk). by exists k. }
  destruct (same_rec g1 g2 (gs_derivations _ _ Hsame)) as [Hrec Hid].
  eexists d, g1, _, g2. split_and!; [done|exact Hp|done| | |done|done| | |done| | | | ]; simpl.
  - split; simpl; try done.
    + rewrite (gs_slots _ _ Hsame). apply Hs1.
    + rewrite Hid. apply Hs1.
    + intros s Hs. by apply Hl, O2.
    + intros s [Hs|Hs]%Houts; [by apply Hl, O4|by apply Hslots].
  - eapply records_kept_trans; [by eapply slotted_records|by eapply interned_records].
  - intros k. unfold outputs_of_kept. rewrite (live_slots (table g2) _ slots k (ia_live _ _ _ _ Hin)). setoid_rewrite Houts. split.
    + intros (s & [Hs|Hs] & Hk); [left|right; by exists s]. destruct (O4 s Hs) as [k0 Hk0]. exists s. split; [done|].
      rewrite (grows_live _ _ s k0 Hg Hk0) in Hk. congruence.
    + intros [(s & Hs & Hk)|(s & Hs & Hk)]; exists s; (split; [tauto|]); [by eapply grows_live|done].
  - intros x Hx. destruct (ia_unused _ _ _ _ Hin x Hx) as [Hx1|Hx1]; [left; by rewrite <- Ht1|right; apply Houts; by right].
  - pose proof (ia_len _ _ _ _ Hin) as Hlen. by rewrite Ht1 in Hlen.
  - rewrite (gs_generation _ _ Hsame). apply Hs1.
  - rewrite (gs_held _ _ Hsame). apply Hs1.
  - rewrite (gs_derivations _ _ Hsame). apply Hs1.
Qed.

Lemma replace_kept_ok g (record : KeptRecord K) released now :
  graph_ok g -> kept_ok g record -> room g (length (kept_new_outputs record)) ->
  exists ks released' g', ReaderGraph.replace_kept g record released now = Done (ks, released', g')
    /\ kept_filed g g' record ks released released'.
Proof.
  intros Hok Hko Hroom. destruct (prepare_ok g record now Hok Hko Hroom)
    as (d & g1 & p & g2 & Hd & Hp & Hok2 & Hprep & Hkept & Hpr & Hpd & Hpo & Hun & Hg & Hlen & Hgen & Hheld & Hder).
  destruct (file_prepared g2 (kept_id record) d p released Hok2 Hprep) as (ds & diffed & ks & g3 & g4 & Hds & Hdiff & Hfin & Hops & Hks & Hfiled).
  exists ks. eexists _, g4. split.
  { unfold ReaderGraph.replace_kept. rewrite Hd, done_bind, Hp, done_bind, Hds, done_bind, Hdiff, done_bind, Hfin, done_bind, Hops, done_bind. done. }
  assert (Hok4 := filed_ok g2 g4 d _ _ Hok2 (pp_slot _ _ _ _ Hprep) (pp_reads _ _ _ _ Hprep) (pp_outputs _ _ _ _ Hprep) Hfiled).
  destruct (filed_records g2 g4 _ d p Hok2 Hprep Hfiled) as [R1 R2 R3 R4 R5].
  destruct (dropped_keys g2 _ d p ks Hok2 Hprep Hks) as [Hnd Hdrop].
  assert (Hl4 : forall s, KeyTable.live_key (table g4) s = KeyTable.live_key (table g2) s) by (intros s; apply tframe_live, Hfiled).
  split; try done.
  - eapply replaced_after; [exact Hkept|]. split; [done| | |done|done].
    + intros k fp. rewrite R2, Hpr. unfold reads_of_kept. split; intros (s & Hs & Hk); exists s; (split; [done|]).
      * destruct (ko_live _ _ Hko s) as [k0 Hk0]; [by apply (list_elem_of_fmap_2 fst _ (s, fp))|]. rewrite (grows_live _ _ s k0 Hg Hk0) in Hk. congruence.
      * by eapply grows_live.
    + intros k. by rewrite R3, Hpo.
  - intros k. by rewrite Hdrop, (rk_outputs _ _ Hkept), Hpo.
  - intros x Hx. destruct (filed_unused g2 g4 _ d p x Hok2 Hprep Hfiled Hx) as ([Hx2|[Hx2|Hx2]] & Hnr & Hno).
    + destruct (Hun x Hx2) as [|]; [left; by rewrite <- Hpr|done].
    + right. rewrite !elem_of_app. tauto.
    + right. rewrite !elem_of_app. tauto.
  - intros x. rewrite !elem_of_app, Hpd. intros [?|[Hx|[Hx|?]]]; [by left| | |by right; left].
    + right; right. assert (Hlx : is_Some (KeyTable.live_key (table g) x)); [|done].
      apply list_elem_of_filter in Hx as [_ Hx]. apply old_outputs_prods in Hx; [|done]. rewrite (grows_prods _ _ _ Hg) in Hx.
      apply live_used; [apply Hok|]. right. intros Hn. rewrite Hn in Hx. by apply not_elem_of_nil in Hx.
    + right; right. apply list_elem_of_filter in Hx as [_ Hx]. apply old_reads_readers in Hx as [fp Hx]; [|done]. rewrite (gr_readers _ _ Hg) in Hx.
      apply live_used; [apply Hok|]. left. intros Hn. rewrite Hn in Hx. destruct Hx as (l & Hx & _). by apply not_elem_of_nil in Hx.
  - intros x. rewrite !elem_of_app, Hpd. tauto.
  - intros s k Hk. rewrite Hl4. by eapply grows_live.
  - rewrite (tf_len _ _ (fl_frame _ _ _ _ _ Hfiled)). split; [apply Hg|lia].
  - intros fingerprint Hc. eapply (cframe_cache g2); [by rewrite (fl_generation _ _ _ _ _ Hfiled)|apply Hfiled|].
    intros s e k He Hk Hcur. rewrite Hgen in Hcur. destruct (gr_new _ _ Hg s e He) as [He0|Hno]; [by rewrite Hk|by eapply Hc|].
    pose proof (gi_generation g Hok). lia.
  - by rewrite (fl_held _ _ _ _ _ Hfiled).
  - by rewrite (fl_len _ _ _ _ _ Hfiled).
Qed.

(** ** [replace_slots] and [replace] *)

Lemma new_stamp_quiet g : slots_ok (table g) -> quiet g (ReaderGraph.new_stamp g).2.
Proof. intros Hs. split; try done. apply tframe_refl. Qed.

(** The reads of distinct slots, resolved. *)
Lemma replace_slots_ok g id slots outputs fingerprint released now :
  graph_ok g -> cache_ok g fingerprint -> NoDup slots.*1 -> (forall p, p ∈ slots -> is_Some (KeyTable.live_key (table g) p.1)) ->
  (N.of_nat (length slots) < 2 ^ 32)%N -> room g (length outputs) ->
  exists ks released' g', ReaderGraph.replace_slots g id slots outputs fingerprint released now = Done (ks, released', g')
    /\ graph_ok g' /\ cache_ok g' fingerprint
    /\ replaced g g' id
        (fun k fp => exists s o, (s, o) ∈ slots /\ KeyTable.live_key (table g) s = Some k
           /\ records_read id k (fun key => bool_decide (key ∈ outputs)) = true /\ fp = default (fingerprint k) o)
        (fun k => k ∈ outputs)
    /\ NoDup ks /\ (forall k, k ∈ ks <-> output_of g id k /\ k ∉ outputs)
    /\ (forall x, loose (table g') ∅ x -> (loose (table g) ∅ x /\ x ∉ slots.*1) \/ x ∈ released')
    /\ (forall x, x ∈ released' -> x ∈ released \/ is_Some (KeyTable.live_key (table g) x))
    /\ (forall x, x ∈ released -> x ∈ released')
    /\ (forall s k, KeyTable.live_key (table g) s = Some k -> KeyTable.live_key (table g') s = Some k)
    /\ length (keys (table g)) <= length (keys (table g'))
    /\ held_releases g' = held_releases g.
Proof.
  intros Hok Hc Hnd Hlive Hfew Hroom. set (is_output := fun key => bool_decide (key ∈ outputs)).
  destruct (kept_reads_ok g id is_output slots Hnd Hlive) as (reads & dropped & Hkept & Hrise & Hreads & Hdropped).
  assert (Hlr : forall p, p ∈ reads -> is_Some (KeyTable.live_key (table g) p.1)) by (intros p [Hp _]%Hreads; by apply Hlive).
  destruct (resolve_ok fingerprint reads g (tb_slots _ (gi_table g Hok)) Hc Hlr) as (g1 & Hres & Hq & Hc1).
  assert (Hok1 := quiet_ok _ _ Hq Hok).
  assert (Hl1 : forall s, KeyTable.live_key (table g1) s = KeyTable.live_key (table g) s) by (intros s; by apply tframe_live, Hq).
  set (record := mkKept id (seen_or fingerprint (table g) <$> reads) dropped [] outputs).
  assert (Hfst : (kept_record_reads record).*1 = reads.*1) by (simpl; rewrite <- list_fmap_compose; by apply list_fmap_ext).
  assert (Hko : kept_ok g1 record).
  { split.
    - by rewrite Hfst.
    - intros s. rewrite Hfst, Hl1. intros (p & -> & Hp)%list_elem_of_fmap. by apply Hlr.
    - constructor.
    - intros s. simpl. by intros ?%not_elem_of_nil.
    - simpl. rewrite length_fmap. assert (length reads <= length slots); [|lia].
      apply submseteq_length, NoDup_submseteq; [by eapply NoDup_fmap_1, rising_nodup|]. by intros p [? _]%Hreads. }
  assert (Hroom1 : room g1 (length (kept_new_outputs record))).
  { destruct Hroom as [Hr1 Hr2]. destruct Hq as [[_ Hder _ _ _ _ _] Hf _ _ _]. split; simpl; [by rewrite (tf_len _ _ Hf)|by rewrite Hder]. }
  destruct (replace_kept_ok g1 record released now Hok1 Hko Hroom1) as (ks & released' & g2 & Hrep & [F1 F2 F3 F4 F5 F6 F7 F8 F9 F10 F11 F12]).
  exists ks, released', g2. split.
  { unfold ReaderGraph.replace_slots. fold is_output. rewrite Hkept, done_bind. cbv beta iota. rewrite Hres, done_bind. done. }
  assert (Hqr := quiet_records _ _ Hok Hq).
  assert (Hout : forall k, outputs_of_kept g1 record k <-> k ∈ outputs).
  { intros k. unfold outputs_of_kept. simpl. split; [|by right]. intros [(s & Hs & _)|]; [by apply not_elem_of_nil in Hs|done]. }
  assert (Hrd : forall k fp, reads_of_kept g1 record k fp
      <-> exists s o, (s, o) ∈ slots /\ KeyTable.live_key (table g) s = Some k /\ records_read id k is_output = true /\ fp = default (fingerprint k) o).
  { intros k fp. unfold reads_of_kept. setoid_rewrite Hl1. simpl. split.
    - intros (s & ([s' o] & Heq & Hin)%list_elem_of_fmap & Hk). unfold seen_or in Heq. simpl in Heq. injection Heq as -> ->.
      apply Hreads in Hin as [Hin Hkr]. exists s', o. unfold keeps_read in Hkr. simpl in Hkr. rewrite Hk in Hkr. by rewrite Hk.
    - intros (s & o & Hin & Hk & Hkr & ->). exists s. split; [|done]. apply list_elem_of_fmap. exists (s, o).
      unfold seen_or. simpl. rewrite Hk. split; [done|]. apply Hreads. split; [done|]. unfold keeps_read. simpl. by rewrite Hk. }
  split_and!; try done.
  - by apply F10.
  - eapply replaced_after; [exact Hqr|]. destruct F2 as [G1 G2 G3 G4 G5].
    change (kept_id record) with id in *. split; try done.
    + intros k fp. by rewrite G2, Hrd.
    + intros k. by rewrite G3, Hout.
  - intros k. change (kept_id record) with id in F4. by rewrite F4, (rk_outputs _ _ Hqr), Hout.
  - intros x Hx. destruct (F5 x Hx) as [[Hx1 Hnr]|]; [|by right]. destruct (decide (x ∈ slots.*1)) as [Hxs|Hxs].
    + right. apply F7. right. simpl. apply Hdropped. split; [done|]. apply not_true_iff_false. intros Hkr. apply Hnr. rewrite Hfst.
      apply list_elem_of_fmap in Hxs as (p & -> & Hp). apply list_elem_of_fmap_2, Hreads. done.
    + left. split; [|done]. by eapply quiet_unused.
  - intros x Hx. destruct (F6 x Hx) as [?|[Hd|Hl]]; [by left| |right; by rewrite <- Hl1].
    right. simpl in Hd. apply Hdropped in Hd as [(p & -> & Hp)%list_elem_of_fmap _]. by apply Hlive.
  - intros x Hx. apply F7. by left.
  - intros s k Hk. apply F8. by rewrite Hl1.
  - rewrite <- (tf_len _ _ (qt_frame _ _ Hq)). apply F9.
  - rewrite F11. apply Hq.
Qed.

Lemma release_keys_ok g slots :
  graph_ok g -> (forall s, s ∈ slots -> s < length (keys (table g))) ->
  exists g', ReaderGraph.release_keys g slots = Done g' /\ released g g' ∅ slots.
Proof. intros Hok Hs. rewrite release_keys_all by (done || apply Hok). apply release_slots_ok; [apply Hok|done]. Qed.

Lemma live_length t s : is_Some (KeyTable.live_key t s) -> s < length (keys t).
Proof. intros [k (e & He & _)%live_entry]. by eapply lookup_lt_Some. Qed.

Lemma grows_cache_fst g1 g2 fingerprint ks slots :
  graph_ok g1 -> interned_all g1 g2 ks slots -> cache_ok g1 fingerprint -> cache_ok g2 fingerprint.
Proof. intros Hok Hin. apply grows_cache; [apply Hin|apply Hin|apply Hok]. Qed.

(** The keys read, as slots. *)
Lemma read_slots (slots : list (KeyIdx * option Fingerprint)) t (reads : list (K * option Fingerprint)) :
  Forall2 (fun k s => KeyTable.live_key t s = Some k) reads.*1 slots.*1 ->
  Forall2 (fun a b => exists s, b = (s, a.2)) reads slots ->
  forall k o, (exists s, (s, o) ∈ slots /\ KeyTable.live_key t s = Some k) <-> (k, o) ∈ reads.
Proof.
  intros Hl Hs k o. revert Hl. induction Hs as [|[k0 o0] b reads slots [s0 ->] Hs IH]; intros Hl.
  - split; [intros (s & Hin & _)|intros Hin]; by apply not_elem_of_nil in Hin.
  - simpl in Hl. apply Forall2_cons in Hl as [Hk Hl]. specialize (IH Hl). rewrite elem_of_cons, <- IH. split.
    + intros (s & [[= -> ->]|Hin]%elem_of_cons & Hk'); [left; congruence|right; by exists s].
    + intros [[= -> ->]|(s & Hin & Hk')]; [exists s0; split; [by left|done]|exists s; split; [by right|done]].
Qed.

Definition replaced_reads (id : DerivationId) (reads : list (K * option Fingerprint)) (outputs : list K)
    (fingerprint : K -> Fingerprint) (k : K) (fp : Fingerprint) : Prop :=
  exists o, (k, o) ∈ reads /\ records_read id k (fun key => bool_decide (key ∈ outputs)) = true /\ fp = default (fingerprint k) o.

Lemma replace_ok g id reads outputs fingerprint :
  graph_ok g -> cache_ok g fingerprint -> NoDup reads.*1 -> room g (length reads + length outputs) ->
  exists dropped g', ReaderGraph.replace g id reads outputs fingerprint = Done (dropped, g')
    /\ graph_ok g' /\ cache_ok g' fingerprint
    /\ replaced g g' id (replaced_reads id reads outputs fingerprint) (fun k => k ∈ outputs)
    /\ NoDup dropped /\ (forall k, k ∈ dropped <-> output_of g id k /\ k ∉ outputs)
    /\ (forall x, loose (table g') ∅ x -> loose (table g) ∅ x)
    /\ held_releases g' = held_releases g.
Proof.
  intros Hok Hc Hnd [Hr1 Hr2]. unfold ReaderGraph.replace.
  assert (Hq := new_stamp_quiet g (tb_slots _ (gi_table g Hok))).
  destruct (ReaderGraph.new_stamp g) as [now g0] eqn:Hst. simpl in Hq.
  assert (Ht0 : table g0 = table g /\ derivations g0 = derivations g /\ held_releases g0 = held_releases g /\ generation g0 = generation g)
    by (injection Hst as <- <-; done).
  destruct Ht0 as (Ht0 & Hd0 & Hh0 & Hge0).
  assert (Hok0 := quiet_ok _ _ Hq Hok). assert (Hqr := quiet_records _ _ Hok Hq).
  destruct (intern_all_ok fst (fun s (a : K * option Fingerprint) => (s, a.2)) (fun b : KeyIdx * option Fingerprint => b.1) now
              (fun self key_seen => '(slot, self) ← ReaderGraph.intern_key self key_seen.1 now; Done ((slot, key_seen.2), self)) reads)
    with (g := g0) as (slots & g1 & Hm & Hin & Hf2); try done.
  { apply Hok0. } { rewrite Ht0. lia. }
  assert (Hok1 := interned_ok _ _ _ _ Hin Hok0). assert (Hir := interned_records _ _ _ _ Hok0 Hin).
  assert (Hl1 := ia_live _ _ _ _ Hin).
  assert (Hnds : NoDup slots.*1) by (eapply slots_distinct; [apply (gi_table g1 Hok1)|exact Hl1|done]).
  assert (Hlive1 : forall p, p ∈ slots -> is_Some (KeyTable.live_key (table g1) p.1)).
  { intros p Hp. apply (list_elem_of_fmap_2 fst) in Hp. apply list_elem_of_lookup in Hp as [i Hi].
    destruct (Forall2_lookup_r _ _ _ _ _ Hl1 Hi) as (k & _ & Hk). by exists k. }
  assert (Hlen1 := ia_len _ _ _ _ Hin). rewrite length_fmap, Ht0 in Hlen1.
  assert (Hlens := interned_length _ _ _ _ Hin). rewrite !length_fmap in Hlens.
  destruct (replace_slots_ok g1 id slots outputs fingerprint [] now) as (ks & rel & g2 & Hrep & Hok2 & Hc2 & Hrd & Hndk & Hks & Hloose & Hrel & _ & Hgl & Hlen2 & Hheld);
    [done| |done|done| | |].
  { eapply grows_cache_fst; [exact Hok0|exact Hin|]. intros s e k. rewrite Ht0, Hge0. apply Hc. }
  { lia. }
  { destruct (ia_same _ _ _ _ Hin) as [_ Hder _ _ _ _ _]. split; [lia|]. by rewrite Hder, Hd0. }
  destruct (release_keys_ok g2 rel Hok2) as (g3 & Hrk & Hreleased).
  { intros s Hs. destruct (Hrel s Hs) as [Hs'|Hs']; [by apply not_elem_of_nil in Hs'|]. apply live_length in Hs'. lia. }
  exists ks, g3. rewrite Hm, done_bind, Hrep, done_bind, Hrk, done_bind. split; [done|].
  assert (Hrr := released_records _ _ _ _ Hok2 Hreleased).
  split_and!; try done.
  - by eapply released_ok.
  - by eapply released_cache.
  - eapply replaced_after; [exact Hqr|]. eapply replaced_after; [exact Hir|]. eapply replaced_before; [|exact Hrr].
    destruct Hrd as [G1 G2 G3 G4 G5]. split; try done. intros k fp. rewrite G2. unfold replaced_reads.
    setoid_rewrite <- (read_slots slots (table g1) reads); [|exact Hl1|exact Hf2]. naive_solver.
  - intros k. by rewrite Hks, (rk_outputs _ _ Hir), (rk_outputs _ _ Hqr).
  - intros x Hx. apply (rd_unused _ _ _ _ Hreleased) in Hx as [Hx Hnr]; [|by rewrite lookup_empty].
    destruct (Hloose x Hx) as [[Hx1 Hns]|]; [|done].
    destruct (ia_unused _ _ _ _ Hin x Hx1) as [Hx0|]; [|done]. by rewrite <- Ht0.
  - rewrite (gs_held _ _ (rd_same _ _ _ _ Hreleased)), Hheld, (gs_held _ _ (ia_same _ _ _ _ Hin)). done.
Qed.
End Replace.
