(* ===== verification/ReaderGraphSpec.v ===== *)
(** * What the reader graph promises

    The records that replacing one files, the readers that a moved fact has
    gone stale for, and the cut of a large batch of released slots; each at a
    sample of keys. *)

From S2P Require Import Prelude FileOrder Derivation Readers ReadersProofs KeyTable KeyTableProofs KeyUseProofs ReaderGraph KeyReleaseProofs ReaderGraphProofs RecordProofs ReplaceProofs.
From stdpp Require Import list gmap sorting.
Local Open Scope prog_scope.

(** ** The empty graph *)

Section Empty.
Context {K : Type} `{HK : FactKeys K}.

Lemma empty_table_ok : table_ok (KeyTable.default_ : KeyTable K).
Proof.
  split.
  - split; try (by intros ? ?%not_elem_of_nil); try constructor; intros *; unfold KeyTable.live_key; simpl; by rewrite ?lookup_nil.
  - split; intros *; unfold KeyTable.live_key; simpl; by rewrite ?lookup_empty, ?lookup_nil.
  - split; intros *; simpl; by rewrite ?lookup_empty, ?lookup_nil.
Qed.

Lemma empty_graph_ok : graph_ok (ReaderGraph.default_ : ReaderGraph K).
Proof.
  assert (Hrec : forall d, rec_at (ReaderGraph.default_ : ReaderGraph K) d = None) by done.
  split.
  - apply empty_table_ok.
  - done.
  - split; try (by intros ? ?%not_elem_of_nil); try constructor.
    + intros ? ? ?%not_elem_of_nil. done.
    + intros d r. by rewrite Hrec.
    + done.
  - intros d r. by rewrite Hrec.
  - intros s d. unfold rec_reads. rewrite Hrec. split; [|naive_solver]. intros (fp & l & Hin & _).
    change (readers_at _ s) with None_ in Hin. by apply not_elem_of_nil in Hin.
  - intros s d. unfold rec_outputs. rewrite Hrec. split; [|naive_solver]. change (prods _ s) with (@nil DerivIdx). set_solver.
  - intros f d. rewrite Hrec. simpl. rewrite lookup_empty. simpl. split; [set_solver|by intros [[] _]].
  - split; simpl; intros *; rewrite ?lookup_empty; [|done..]. simpl. rewrite lookup_empty. unfold foreign_count. rewrite Hrec. simpl.
    done.
Qed.

Lemma empty_cache_ok fingerprint : cache_ok (ReaderGraph.default_ : ReaderGraph K) fingerprint.
Proof. intros s e k He. done. Qed.

Lemma empty_no_garbage : no_garbage (ReaderGraph.default_ : ReaderGraph K).
Proof. intros s [[k Hk] _]. done. Qed.
End Empty.

(** ** Stale readers *)

Section Stale.
Context {K : Type} `{HK : FactKeys K}.
Implicit Types g : ReaderGraph K.

Lemma stale_groups_in r holds d fp :
  (fp, d) ∈ ReaderGraph.stale_groups r holds <-> reads r d fp /\ holds fp = false.
Proof.
  unfold ReaderGraph.stale_groups. rewrite list_elem_of_In, in_flat_map. split.
  - intros ([fp' ds] & Hin & Hx). apply list_elem_of_In in Hin. simpl in Hx. destruct (holds fp') eqn:Hh; [done|].
    apply list_elem_of_In, list_elem_of_fmap in Hx as (x & [= -> ->] & Hx). split; [by exists ds|done].
  - intros [(ds & Hin & Hd) Hh]. exists (fp, ds). split; [by apply list_elem_of_In|]. simpl. rewrite Hh.
    apply list_elem_of_In. by apply list_elem_of_fmap_2.
Qed.

Lemma stale_groups_nodup gs (holds : Fingerprint -> bool) :
  groups_ok gs ->
  NoDup (flat_map (fun g : Fingerprint * list DerivIdx => if holds g.1 then [] else (fun deriv => (g.1, deriv)) <$> g.2) gs).*2.
Proof.
  induction gs as [|[fp ds] gs IH]; intros [Heach Hseen Hapart]; [constructor|]. simpl. rewrite fmap_app, NoDup_app.
  assert (Hsnd : ((fun deriv => (fp, deriv)) <$> ds).*2 = ds) by (rewrite <- list_fmap_compose; apply list_fmap_id).
  assert (Hgs : groups_ok gs).
  { split.
    - intros g Hg. apply Heach. by right.
    - by apply NoDup_cons in Hseen as [_ ?].
    - intros g h d Hg Hh. apply Hapart; by right. }
  split_and!; [| |by apply IH].
  - destruct (holds fp); [constructor|]. rewrite Hsnd. apply rising_nodup. by destruct (Heach (fp, ds)) as [? _]; [left|].
  - intros d Hd. destruct (holds fp) eqn:Hh; [by apply not_elem_of_nil in Hd|]. rewrite Hsnd in Hd.
    intros ([fp' d'] & -> & Hin)%list_elem_of_fmap. simpl in *. apply list_elem_of_In, in_flat_map in Hin as ([fp'' ds''] & Hg & Hin).
    simpl in Hin. destruct (holds fp''); [done|]. apply list_elem_of_In, list_elem_of_fmap in Hin as (x & [= <- <-] & Hin).
    apply list_elem_of_In in Hg. assert (He : (fp, ds) = (fp', ds'')) by (eapply Hapart; [by left|by right|done|done]). injection He as <- <-.
    simpl in Hseen. apply NoDup_cons in Hseen as [Hn _]. apply Hn. by apply (list_elem_of_fmap_2 fst _ (fp, ds)).
Qed.

Lemma seen_ids_spec g (l : list (Fingerprint * DerivIdx)) :
  (forall p, p ∈ l -> is_Some (id_at g p.2)) ->
  exists ids, ReaderGraph.seen_ids g l = Done ids
    /\ Forall2 (fun p (i : DerivationId * Fingerprint) => id_at g p.2 = Some i.1 /\ i.2 = p.1) l ids.
Proof.
  induction l as [|[fp d] l IH]; intros Hid; [by exists []|].
  destruct (Hid (fp, d)) as [id Hd]; [by left|]. destruct IH as (ids & Hids & Hf); [intros p Hp; apply Hid; by right|].
  exists ((id, fp) :: ids). simpl. unfold ReaderGraph.derivation. unfold id_at in Hd. simpl in Hd.
  destruct (derivations g !! d) as [ds|] eqn:Hds; [|done]. simpl in Hd |- *. injection Hd as <-. rewrite Hids. simpl. split; [done|].
  constructor; [|done]. unfold id_at. simpl. by rewrite Hds.
Qed.

Lemma seen_ids_nodup g l ids :
  Forall2 (fun (p : Fingerprint * DerivIdx) (i : DerivationId * Fingerprint) => id_at g p.2 = Some i.1 /\ i.2 = p.1) l ids ->
  (forall p q, p ∈ l -> q ∈ l -> id_at g p.2 = id_at g q.2 -> p.2 = q.2) -> NoDup l.*2 -> NoDup ids.*1.
Proof.
  induction 1 as [|p i l ids [Hp _] Hf IH]; intros Hinj Hnd; [constructor|]. simpl in *. apply NoDup_cons in Hnd as [Hn Hnd].
  apply NoDup_cons. split; [|apply IH; [|done]; intros p' q' Hp' Hq'; apply Hinj; by right].
  intros (j & Hj & Hin)%list_elem_of_fmap. apply list_elem_of_lookup in Hin as [n Hin].
  destruct (Forall2_lookup_r _ _ _ _ _ Hf Hin) as (q & Hq & Hqj & _). apply list_elem_of_lookup_2 in Hq.
  apply Hn. rewrite (Hinj p q); [by apply list_elem_of_fmap_2|by left|by right|]. by rewrite Hp, Hqj, Hj.
Qed.

(** C12: the stale readers of a key are exactly the derivations whose record
    reads the key and saw in it a fingerprint that does not hold any more, each
    once and with what it saw; a key that nobody records has none. *)
Theorem stale_readers_exact g k holds :
  graph_ok g ->
  exists seen, ReaderGraph.stale_readers_seen g k holds = Done seen
    /\ ReaderGraph.stale_readers g k holds = Done seen.*1
    /\ NoDup seen.*1
    /\ forall id fp, (id, fp) ∈ seen <-> read_by g id k fp /\ holds fp = false.
Proof.
  intros Hok. unfold ReaderGraph.stale_readers, ReaderGraph.stale_readers_seen.
  assert (Hix := tb_index _ (gi_table g Hok)).
  destruct (KeyTable.find (table g) k) as [s|] eqn:Hf.
  - apply find_live in Hf; [|done]. apply live_entry in Hf as Hf'. destruct Hf' as (e & He & Hk).
    unfold KeyTable.entry. rewrite He. simpl.
    assert (Hro : readers_ok (readers e)) by by eapply (sl_readers _ (tb_slots _ (gi_table g Hok))).
    assert (Hat : readers_at (table g) s = readers e) by (unfold readers_at; by rewrite He).
    assert (Hrec : forall d, (exists fp, reads (readers e) d fp) <-> rec_reads g d s) by (intros d; by rewrite <- Hat, (gi_reads g Hok)).
    assert (Hslot : forall fp d, (fp, d) ∈ ReaderGraph.stale_groups (readers e) holds -> d ∈ deriv_slots g /\ is_Some (id_at g d)).
    { intros fp d Hin. apply stale_groups_in in Hin as [Hr _]. destruct (proj1 (Hrec d)) as (r & Hr' & _); [by exists fp|].
      split; [by eapply (dr_record g (gi_derivs g Hok))|]. unfold rec_at in Hr'. unfold id_at.
      destruct (derivations g !! d) as [ds|]; [by eexists|done]. }
    destruct (seen_ids_spec g (ReaderGraph.stale_groups (readers e) holds)) as (ids & -> & Hf2); [by intros [fp d] [_ ?]%Hslot|].
    exists ids. split_and!; [done|done| |].
    + eapply seen_ids_nodup; [exact Hf2| |apply stale_groups_nodup, Hro].
      intros [fp1 d1] [fp2 d2] [H1 _]%Hslot [H2 _]%Hslot Heq. by apply (dr_one g (gi_derivs g Hok)).
    + intros id fp. split.
      * intros [n Hn]%list_elem_of_lookup. destruct (Forall2_lookup_r _ _ _ _ _ Hf2 Hn) as ([fp' d] & Hp & Hid & Heq).
        simpl in *. subst fp'. apply list_elem_of_lookup_2 in Hp. apply stale_groups_in in Hp as [Hr Hh]. split; [|done].
        destruct (proj1 (Hrec d)) as (r & Hr' & Hs); [by exists fp|]. exists d, r, s. by rewrite Hat.
      * intros [(d & r & s' & Hid & Hr & Hs & Hk' & Hrd) Hh]. assert (s' = s) as -> by by eapply (ix_one _ Hix).
        rewrite Hat in Hrd. assert (Hin : (fp, d) ∈ ReaderGraph.stale_groups (readers e) holds) by by apply stale_groups_in.
        apply list_elem_of_lookup in Hin as [n Hn]. destruct (Forall2_lookup_l _ _ _ _ _ Hf2 Hn) as ([id' fp'] & Hi & Hid' & Heq).
        simpl in *. subst fp'. assert (id' = id) as -> by congruence. by eapply list_elem_of_lookup_2.
  - exists []. split_and!; [done|done|constructor|]. intros id fp. split; [by intros ?%not_elem_of_nil|].
    intros [(d & r & s & _ & _ & _ & Hk & _) _]. apply find_live in Hk; [|done]. congruence.
Qed.
End Stale.

(** ** Replacing and releasing *)

Section Replacing.
Context {K : Type} `{HK : FactKeys K}.
Implicit Types g : ReaderGraph K.

(** C11: [replace] returns and keeps the invariant of the graph. Afterwards the
    derivation is recorded with exactly the reads that a record keeps (not a
    primary fact it produces itself, nor a source of its own file), each at the fingerprint that was passed or, where
    none was, at the current one, and with exactly the outputs; every other
    derivation is as it was. It gives the keys that are no longer produced,
    each once, and no key stays in the table that nothing refers to. *)
Theorem replace_files_record g id (reads_ : list (K * option Fingerprint)) outputs fingerprint :
  graph_ok g -> cache_ok g fingerprint -> no_garbage g -> NoDup reads_.*1 -> room g (length reads_ + length outputs) ->
  exists dropped g', ReaderGraph.replace g id reads_ outputs fingerprint = Done (dropped, g')
    /\ graph_ok g' /\ cache_ok g' fingerprint /\ no_garbage g'
    /\ (forall k fp, read_by g' id k fp <-> exists seen, (k, seen) ∈ reads_
          /\ records_read id k (fun key => bool_decide (key ∈ outputs)) = true /\ fp = default (fingerprint k) seen)
    /\ (forall k, output_of g' id k <-> k ∈ outputs)
    /\ (forall id', recorded g' id' <-> id' = id \/ recorded g id')
    /\ (forall id' k fp, id' <> id -> read_by g' id' k fp <-> read_by g id' k fp)
    /\ (forall id' k, id' <> id -> output_of g' id' k <-> output_of g id' k)
    /\ NoDup dropped /\ (forall k, k ∈ dropped <-> output_of g id k /\ k ∉ outputs).
Proof.
  intros Hok Hc Hng Hnd Hroom.
  destruct (replace_ok g id reads_ outputs fingerprint Hok Hc Hnd Hroom) as (ks & g' & He & Hok' & Hc' & [R1 R2 R3 R4 R5] & Hks & Hin & Hl & _).
  exists ks, g'. split_and!; try done. intros s Hs. by apply (Hng s), Hl.
Qed.

(** C13: a large batch of released slots is first cut to those that can be freed;
    that changes nothing: releasing the batch in either way leaves the same
    graph. *)
Theorem release_keys_cut g slots :
  graph_ok g -> (forall s, s ∈ slots -> s < length (keys (table g))) ->
  ReaderGraph.release_keys g slots = ReaderGraph.release_slots g slots ∅
  /\ exists g', ReaderGraph.release_keys g slots = Done g' /\ graph_ok g' /\ records_kept g g'
       /\ forall s, s ∈ slots -> ~ loose (table g') ∅ s.
Proof.
  intros Hok Hs. split; [apply release_keys_all; [apply Hok|done]|].
  destruct (release_keys_ok g slots Hok Hs) as (g' & He & Hrel). exists g'. split_and!; [done|by eapply released_ok|by eapply released_records|].
  intros s Hin Hl. apply (rd_unused _ _ _ _ Hrel) in Hl as [_ Hn]; [done|by rewrite lookup_empty].
Qed.
End Replacing.

(** ** A sample *)

Module Sample.
(** Keys of a file: the one at 0 and those read out of it. *)
Definition base_ (k : N * N) : option (N * N) := if N.eqb k.2 0 then None else Some (k.1, 0%N).

#[local] Instance sample_keys : FactKeys (N * N).
Proof.
  refine {| fact_key_dec := _; base := base_; owning_file k := Some k.1; positional_files k := [k.1]; is_primary k := N.eqb k.2 0;
            is_file_source _ := false; is_query_output _ := false; is_stage_rule _ := false; hash_half k := (k.1 * 7 + k.2)%N;
            base_flat := _ |}.
  intros [f n] b. unfold base_. simpl. destruct (N.eqb n 0); [done|]. by intros [= <-].
Defined.

Definition id1 : DerivationId := DerivationId.diagnostics 1%N.
Definition id2 : DerivationId := DerivationId.diagnostics 2%N.
Definition print (k : N * N) : N := (k.1 * 10 + k.2 + 1)%N.
Definition empty : ReaderGraph (N * N) := ReaderGraph.default_.

Definition reads1 : list ((N * N) * option Fingerprint) := [((1, 2), None); ((1, 0), Some 5); ((2, 0), None)]%N.
Definition outputs1 : list (N * N) := [(2, 0); (3, 4)]%N.

Lemma replace_files_record_witness : exists dropped g',
  ReaderGraph.replace empty id1 reads1 outputs1 print = Done (dropped, g') /\ graph_ok g'
  /\ read_by g' id1 (1, 2)%N 13%N /\ read_by g' id1 (1, 0)%N 5%N /\ (forall fp, ~ read_by g' id1 (2, 0)%N fp) /\ output_of g' id1 (3, 4)%N
  /\ dropped = [].
Proof.
  destruct (replace_files_record empty id1 reads1 outputs1 print empty_graph_ok (empty_cache_ok print) empty_no_garbage)
    as (ks & g' & He & Hok & _ & _ & Hr & Ho & _ & _ & _ & _ & Hks).
  - apply (bool_decide_unpack _). by vm_compute.
  - split; by vm_compute.
  - exists ks, g'. split_and!; [done|done| | | | |].
    + apply Hr. exists None. split_and!; [by left|by vm_compute|by vm_compute].
    + apply Hr. exists (Some 5%N). split_and!; [by right; left|by vm_compute|done].
    + intros fp (o & _ & Hf & _)%Hr.
      assert (Hn : records_read id1 (2, 0)%N (fun key => bool_decide (key ∈ outputs1)) = false) by by vm_compute.
      by rewrite Hn in Hf.
    + apply Ho. by right; left.
    + apply elem_of_nil_inv. by intros k [(d & r & s & Hd & _) _]%Hks.
Defined.

(** The graph after two derivations have read the key 1.0. *)
Lemma two_readers : exists g, graph_ok g /\ read_by g id1 (1, 0)%N 5%N /\ read_by g id2 (1, 0)%N 11%N
  /\ forall id fp, read_by g id (1, 0)%N fp -> (id = id1 /\ fp = 5%N) \/ (id = id2 /\ fp = 11%N).
Proof.
  destruct (replace_ok empty id1 reads1 outputs1 print empty_graph_ok (empty_cache_ok print)) as (ks & g & He & Hok & Hc & [_ R2 _ R4 _] & _).
  { apply (bool_decide_unpack _). by vm_compute. } { split; by vm_compute. }
  destruct (replace_ok g id2 [((1, 0)%N, None)] [] print Hok Hc) as (ks' & g' & He' & Hok' & Hc' & [_ S2 _ S4 _] & _).
  { apply (bool_decide_unpack _). by vm_compute. }
  { assert (Hg : match ReaderGraph.replace empty id1 reads1 outputs1 print with Done (_, g) => bool_decide (length (keys (table g)) <= 100 /\ length (derivations g) <= 100) | _ => false end = true) by by vm_compute.
    rewrite He in Hg. apply bool_decide_eq_true in Hg as [H1 H2]. split; [|unfold NO_PRODUCER]; simpl; lia. }
  exists g'. split_and!; [done| | |].
  - apply S4; [done|]. apply R2. exists (Some 5%N). split_and!; [by right; left|by vm_compute|done].
  - apply S2. exists None. split_and!; [by left|by vm_compute|by vm_compute].
  - intros id fp Hr. destruct (decide (id = id2)) as [->|Hne].
    + right. split; [done|]. apply S2 in Hr as (o & [= ->]%list_elem_of_singleton & _ & ->). by vm_compute.
    + left. apply S4 in Hr; [|done]. destruct (decide (id = id1)) as [->|Hne1].
      * split; [done|]. apply R2 in Hr as (o & Hin & _ & ->). clear -Hin. unfold reads1 in Hin.
        apply elem_of_cons in Hin as [Hin|[Hin|Hin%list_elem_of_singleton]%elem_of_cons]; by simplify_eq.
      * apply R4 in Hr; [|done]. by destruct Hr as (d & r & s & Hd & _).
Qed.

Lemma stale_readers_exact_witness : exists g, ReaderGraph.stale_readers g (1, 0)%N (N.eqb 11) = Done [id1].
Proof.
  destruct two_readers as (g & Hok & H1 & H2 & Hall). exists g.
  destruct (stale_readers_exact g (1, 0)%N (N.eqb 11) Hok) as (l & _ & -> & Hnd & Hl). f_equal.
  apply (Permutation_singleton_r _ _), NoDup_Permutation; [done|by apply NoDup_singleton|].
  intros id. rewrite list_elem_of_singleton. split.
  - intros ([id' fp] & -> & Hin)%list_elem_of_fmap. apply Hl in Hin as [Hr Hh]. simpl in *.
    by destruct (Hall id' fp Hr) as [[-> ->]|[-> ->]].
  - intros ->. apply (list_elem_of_fmap_2 fst _ (id1, 5%N)), Hl. done.
Defined.

Lemma release_keys_cut_witness : exists g, graph_ok g /\ exists g', ReaderGraph.release_keys g [0; 1] = Done g' /\ records_kept g g'.
Proof.
  destruct (replace_ok empty id1 reads1 outputs1 print empty_graph_ok (empty_cache_ok print)) as (ks & g & He & Hok & _).
  { apply (bool_decide_unpack _). by vm_compute. } { split; by vm_compute. }
  assert (Hg : match ReaderGraph.replace empty id1 reads1 outputs1 print with Done (_, g) => bool_decide (2 <= length (keys (table g))) | _ => false end = true) by by vm_compute.
  rewrite He in Hg. apply bool_decide_eq_true in Hg.
  assert (Hs : forall s, s ∈ [0; 1] -> s < length (keys (table g))).
  { intros s [->|Hs%list_elem_of_singleton]%elem_of_cons; lia. }
  destruct (release_keys_cut g [0; 1] Hok Hs) as (_ & g' & Hg' & _ & Hrk & _). exists g. split; [exact Hok|]. exists g'. split; assumption.
Defined.
End Sample.
