(* ===== verification/DeclTree.v ===== *)
(** * Declarations and scopes of a file

    [src/crates/glua_code_analysis/src/db_index/declaration/] with the scopes
    of the walk that files them
    ([compilation/analyzer/decl/mod.rs]): the tree of scopes, the visit sets
    that make the search for a name fast, and the search itself.

    The walk over the scopes calls a closure; here the closure takes the state
    it captures and says whether the walk is over. What the index tells the
    recorded evaluation is the list [noted]. *)

From S2P Require Import Prelude Kinds Text FileOrder Dependency EditMap EditRemap Derivation Readers KeyTable FactKey.
From stdpp Require Import list gmap.
Local Open Scope prog_scope.

#[global] Instance decl_id_countable : Countable LuaDeclId.
Proof.
  refine (inj_countable' (fun id => (decl_file_id id, decl_position id)) (fun p => mkDeclId p.1 p.2) _). by intros [].
Defined.

(** ** Declarations *)

Inductive LocalAttribute : Type := Const | Close | IterConst.

Record LuaDeclInitializer : Type := mkInitializer { init_expr_id : LuaSyntaxId; ret_idx : nat }.

Inductive LuaDeclExtra : Type :=
  | Local_ (kind : LuaKind) (attrib : option LocalAttribute)
  | Param (idx : nat) (signature_id : LuaSignatureId) (owner_member_id : option LuaMemberId)
  | ImplicitSelf (kind : LuaKind)
  | Global_ (kind : LuaKind)
  | InModule (kind : LuaKind) (module_path : rstring).

Record LuaDecl : Type := mkDecl {
  decl_name : rstring;
  decl_file : FileId;
  decl_range : TextRange;
  decl_expr_id : option LuaSyntaxId;
  decl_initializer : option LuaDeclInitializer;
  decl_extra : LuaDeclExtra
}.

Module LuaDecl.
Definition new (name : rstring) (file_id : FileId) (range : TextRange) (extra : LuaDeclExtra) (expr_id : option LuaSyntaxId) : LuaDecl :=
  mkDecl name file_id range expr_id ((fun expr_id => mkInitializer expr_id 0) <$> expr_id) extra.

Definition get_position (self : LuaDecl) : N := text_start (decl_range self).
Definition get_id (self : LuaDecl) : LuaDeclId := mkDeclId (decl_file self) (get_position self).

Definition get_syntax_id (self : LuaDecl) : LuaSyntaxId :=
  match decl_extra self with
  | Local_ kind _ => mkSyntaxId kind (decl_range self)
  | Param _ _ _ => mkSyntaxId (Syntax ParamName) (decl_range self)
  | ImplicitSelf kind => mkSyntaxId kind (decl_range self)
  | Global_ kind | InModule kind _ => mkSyntaxId kind (decl_range self)
  end.

Definition set_initializer (self : LuaDecl) (initializer : option LuaDeclInitializer) : LuaDecl :=
  mkDecl (decl_name self) (decl_file self) (decl_range self) (decl_expr_id self) initializer (decl_extra self).
Definition with_extra (self : LuaDecl) (extra : LuaDeclExtra) : LuaDecl :=
  mkDecl (decl_name self) (decl_file self) (decl_range self) (decl_expr_id self) (decl_initializer self) extra.

(** [LuaTableExpr::can_cast] *)
Definition table_literal_initializer (self : LuaDecl) : option LuaSyntaxId :=
  initializer ← decl_initializer self;
  if (ret_idx initializer =? 0)%nat
     && bool_decide (id_kind (init_expr_id initializer) ∈ [Syntax TableArrayExpr; Syntax TableObjectExpr; Syntax TableEmptyExpr])
  then Some (init_expr_id initializer) else None.

Definition is_local (self : LuaDecl) : bool :=
  match decl_extra self with Local_ _ _ | Param _ _ _ | ImplicitSelf _ => true | _ => false end.
Definition is_param (self : LuaDecl) : bool := match decl_extra self with Param _ _ _ => true | _ => false end.
Definition is_global (self : LuaDecl) : bool := match decl_extra self with Global_ _ => true | _ => false end.
Definition is_module_scoped (self : LuaDecl) : bool := match decl_extra self with InModule _ _ => true | _ => false end.
Definition get_module_path (self : LuaDecl) : option rstring :=
  match decl_extra self with InModule _ module_path => Some module_path | _ => None end.
Definition is_implicit_self (self : LuaDecl) : bool := match decl_extra self with ImplicitSelf _ => true | _ => false end.
Definition is_macro_local (self : LuaDecl) : bool :=
  match decl_extra self with Local_ kind _ => bool_decide (kind = Syntax CallArgList) | _ => false end.
End LuaDecl.

(** ** Scopes *)

Inductive LuaScopeKind : Type := Normal | Repeat | LocalOrAssignStat | ForRange | FuncStat | MethodStat.

#[global] Instance scope_kind_eq_dec : EqDecision LuaScopeKind.
Proof. solve_decision. Defined.

Record LuaScopeId : Type := mkScopeId { scope_file : FileId; scope_id_ : N }.

#[global] Instance scope_id_eq_dec : EqDecision LuaScopeId.
Proof. solve_decision. Defined.
#[global] Instance scope_id_countable : Countable LuaScopeId.
Proof.
  refine (inj_countable' (fun id => (scope_file id, scope_id_ id)) (fun p => mkScopeId p.1 p.2) _). by intros [].
Defined.

Inductive ScopeOrDeclId : Type :=
  | ScopeChild (id : LuaScopeId)
  | DeclChild (id : LuaDeclId).

Record LuaScope : Type := mkScope {
  scope_parent : option LuaScopeId;
  children : list ScopeOrDeclId;
  scope_range : TextRange;
  scope_kind : LuaScopeKind;
  scope_id : LuaScopeId
}.

Module LuaScope.
Definition new (range : TextRange) (kind : LuaScopeKind) (id : LuaScopeId) : LuaScope := mkScope None [] range kind id.
Definition add_decl (self : LuaScope) (decl : LuaDeclId) : LuaScope :=
  mkScope (scope_parent self) (children self ++ [DeclChild decl]) (scope_range self) (scope_kind self) (scope_id self).
Definition add_child (self : LuaScope) (child : LuaScopeId) : LuaScope :=
  mkScope (scope_parent self) (children self ++ [ScopeChild child]) (scope_range self) (scope_kind self) (scope_id self).
Definition set_parent (self : LuaScope) (parent : option LuaScopeId) : LuaScope :=
  mkScope parent (children self) (scope_range self) (scope_kind self) (scope_id self).
Definition get_position (self : LuaScope) : N := text_start (scope_range self).
End LuaScope.

(** [TextRange::contains] *)
Definition range_contains (range : TextRange) (position : N) : bool :=
  ((text_start range <=? position) && (position <? text_end range))%N.

(** ** The visit sets *)

Inductive InterestingChild : Type :=
  | InterestingDecl (id : LuaDeclId)
  | InterestingScope (id : LuaScopeId).

(** A position and an index among the children. *)
Notation ChildKey := (N * N)%type.
Notation Visits := (list (ChildKey * InterestingChild)).

Definition key_lt (a b : ChildKey) : bool := ((a.1 <? b.1) || ((a.1 =? b.1) && (a.2 <? b.2)))%N.

(** [binary_search_by_key] followed by the insertion. *)
Definition file_child (entries : Visits) (key : ChildKey) (child : InterestingChild) : Visits :=
  let at_ := partition_point (fun entry => key_lt entry.1 key) entries in
  let found := from_option (fun entry => bool_decide (entry.1 = key)) false (entries !! at_) in
  match child with
  | InterestingScope _ => if found then entries else take at_ entries ++ (key, child) :: drop at_ entries
  | InterestingDecl _ => take at_ entries ++ (key, child) :: drop at_ entries
  end.

Definition insert_interesting_child (interesting : gmap LuaScopeId Visits) (scope_id : LuaScopeId) (key : ChildKey)
    (child : InterestingChild) : gmap LuaScopeId Visits :=
  <[scope_id := file_child (default [] (interesting !! scope_id)) key child]> interesting.

Definition insert_named_interesting_child (interesting : gmap LuaScopeId (gmap rstring Visits)) (scope_id : LuaScopeId)
    (name : rstring) (key : ChildKey) (child : InterestingChild) : gmap LuaScopeId (gmap rstring Visits) :=
  let names := default ∅ (interesting !! scope_id) in
  <[scope_id := <[name := file_child (default [] (names !! name)) key child]> names]> interesting.

(** The last scope among entries. *)
Definition last_child_scope (entries : list ScopeOrDeclId) : option LuaScopeId :=
  last (omap (fun entry => match entry with ScopeChild id => Some id | DeclChild _ => None end) entries).

(** ** The tree *)

Section Facts.
Context {LuaType VarRefId : Type}.
Notation Fact := (FactKey.t LuaType VarRefId).

Record LuaDeclarationTree : Type := mkTree {
  file_id : FileId;
  decls : gmap LuaDeclId LuaDecl;
  module_decls_by_name : gmap rstring (gmap N LuaDeclId);
  scopes : list LuaScope;
  scope_child_index : list N;
  interesting_children : gmap LuaScopeId Visits;
  interesting_children_by_name : gmap LuaScopeId (gmap rstring Visits);
  fingerprint_cell : option Fingerprint;
  noted : list Fact
}.
End Facts.
Arguments LuaDeclarationTree : clear implicits.

Module LuaDeclarationTree.
Section Tree.
Context {LuaType VarRefId : Type}.
Notation Fact := (FactKey.t LuaType VarRefId).
Notation Tree := (LuaDeclarationTree LuaType VarRefId).
Implicit Types self : Tree.

Definition new (file_id : FileId) : Tree := mkTree file_id ∅ ∅ [] [] ∅ ∅ None [].

Definition with_scopes self (v : list LuaScope) : Tree :=
  mkTree (file_id self) (decls self) (module_decls_by_name self) v (scope_child_index self) (interesting_children self)
    (interesting_children_by_name self) (fingerprint_cell self) (noted self).
Definition with_child_index self (v : list N) : Tree :=
  mkTree (file_id self) (decls self) (module_decls_by_name self) (scopes self) v (interesting_children self)
    (interesting_children_by_name self) (fingerprint_cell self) (noted self).
Definition with_interesting self (v : gmap LuaScopeId Visits) : Tree :=
  mkTree (file_id self) (decls self) (module_decls_by_name self) (scopes self) (scope_child_index self) v
    (interesting_children_by_name self) (fingerprint_cell self) (noted self).
Definition with_named self (v : gmap LuaScopeId (gmap rstring Visits)) : Tree :=
  mkTree (file_id self) (decls self) (module_decls_by_name self) (scopes self) (scope_child_index self) (interesting_children self)
    v (fingerprint_cell self) (noted self).

(** The fingerprint is taken back, and the write noted. *)
Definition touched self (facts : list Fact) : Tree :=
  mkTree (file_id self) (decls self) (module_decls_by_name self) (scopes self) (scope_child_index self) (interesting_children self)
    (interesting_children_by_name self) None (noted self ++ facts).

(** *** The content fingerprint *)

Definition decl_id_le (a b : LuaDeclId) : bool :=
  ((decl_file_id a <? decl_file_id b) || ((decl_file_id a =? decl_file_id b) && (decl_position a <=? decl_position b)))%N.

(** [hash] is what the hasher makes of the file, the sorted declarations and
    the scopes. *)
Definition content_fingerprint (hash : FileId * list (LuaDeclId * LuaDecl) * list LuaScope -> N) self : Fingerprint :=
  fingerprint_of (hash (file_id self, sort_by (fun a b => decl_id_le a.1 b.1) (map_to_list (decls self)), scopes self)).

Definition fingerprint (hash : FileId * list (LuaDeclId * LuaDecl) * list LuaScope -> N) (mapping_back : bool) self
    : Fingerprint * Tree :=
  if mapping_back then (content_fingerprint hash self, self) else
  let v := default (content_fingerprint hash self) (fingerprint_cell self) in
  (v, mkTree (file_id self) (decls self) (module_decls_by_name self) (scopes self) (scope_child_index self)
        (interesting_children self) (interesting_children_by_name self) (Some v) (noted self)).

Definition decl_ids self : list LuaDeclId := (map_to_list (decls self)).*1.

Definition get_decl self (decl_id : LuaDeclId) : option LuaDecl := decls self !! decl_id.
Definition get_scope self (id : LuaScopeId) : option LuaScope := scopes self !! N.to_nat (scope_id_ id).
Definition get_root_scope self : option LuaScope := head (scopes self).

(** *** Filing declarations and scopes *)

Definition add_decl self (decl : LuaDecl) : LuaDeclId * Tree :=
  let self := touched self [FactKey.Decl (LuaDecl.get_id decl); FactKey.DeclTree (file_id self)] in
  let decl_id := LuaDecl.get_id decl in
  let by_name := module_decls_by_name self in
  (decl_id,
   mkTree (file_id self) (<[decl_id := decl]> (decls self))
     (if LuaDecl.is_module_scoped decl
      then <[decl_name decl := <[LuaDecl.get_position decl := decl_id]> (default ∅ (by_name !! decl_name decl))]> by_name
      else by_name)
     (scopes self) (scope_child_index self) (interesting_children self) (interesting_children_by_name self)
     (fingerprint_cell self) (noted self)).

(** The caller changes the declaration that it is lent. *)
Definition get_decl_mut self (decl_id : LuaDeclId) (change : LuaDecl -> LuaDecl) : Tree :=
  let self := touched self [FactKey.Decl decl_id; FactKey.DeclTree (file_id self)] in
  mkTree (file_id self) (alter change decl_id (decls self)) (module_decls_by_name self)
    (scopes self) (scope_child_index self) (interesting_children self) (interesting_children_by_name self)
    (fingerprint_cell self) (noted self).

Definition create_scope self (range : TextRange) (kind : LuaScopeKind) : LuaScopeId * Tree :=
  let self := touched self [FactKey.DeclTree (file_id self)] in
  let id := as_u32 (length (scopes self)) in
  let scope_id := mkScopeId (file_id self) id in
  (scope_id,
   with_child_index (with_scopes self (scopes self ++ [LuaScope.new range kind scope_id]))
     (scope_child_index self ++ [2 ^ 32 - 1])%N).

(** The scopes that their parents are walked over for. *)
Definition holds_decls_for_parent (kind : LuaScopeKind) : bool :=
  match kind with LocalOrAssignStat | FuncStat | MethodStat => true | _ => false end.

Definition child_index self (id : LuaScopeId) : N := default (2 ^ 32 - 1)%N (scope_child_index self !! N.to_nat (scope_id_ id)).

Definition add_decl_to_scope self (scope_id : LuaScopeId) (decl_id : LuaDeclId) : Tree :=
  let self := touched self [FactKey.DeclTree (file_id self)] in
  let name := decl_name <$> get_decl self decl_id in
  match get_scope self scope_id with
  | None => self
  | Some scope =>
      let key := (decl_position decl_id, as_u32 (length (children scope))) in
      let self := with_scopes self (<[N.to_nat (scope_id_ scope_id) := LuaScope.add_decl scope decl_id]> (scopes self)) in
      let file self under key child :=
        let self := with_interesting self (insert_interesting_child (interesting_children self) under key child) in
        match name with
        | Some name => with_named self (insert_named_interesting_child (interesting_children_by_name self) under name key child)
        | None => self
        end in
      let self := file self scope_id key (InterestingDecl decl_id) in
      match scope_parent scope with
      | Some parent_id =>
          if holds_decls_for_parent (scope_kind scope)
          then file self parent_id (LuaScope.get_position scope, child_index self scope_id) (InterestingScope scope_id)
          else self
      | None => self
      end
  end.

Definition decl_children (scope : LuaScope) : list LuaDeclId :=
  omap (fun entry => match entry with DeclChild id => Some id | ScopeChild _ => None end) (children scope).

Definition file_child_scope_with_decls self (parent_id child_id : LuaScopeId) : Tree :=
  match get_scope self child_id with
  | None => self
  | Some child =>
      let key := (LuaScope.get_position child, child_index self child_id) in
      let names := omap (fun decl_id => decl_name <$> get_decl self decl_id) (decl_children child) in
      if bool_decide (decl_children child = []) || negb (holds_decls_for_parent (scope_kind child)) then self else
      let self := with_interesting self
        (insert_interesting_child (interesting_children self) parent_id key (InterestingScope child_id)) in
      with_named self
        (foldl (fun named name => insert_named_interesting_child named parent_id name key (InterestingScope child_id))
           (interesting_children_by_name self) names)
  end.

Definition add_child_scope self (parent_id child_id : LuaScopeId) : Tree :=
  let self := touched self [FactKey.DeclTree (file_id self)] in
  let self :=
    match get_scope self parent_id with
    | Some parent =>
        let index := as_u32 (length (children parent)) in
        let self := with_scopes self (<[N.to_nat (scope_id_ parent_id) := LuaScope.add_child parent child_id]> (scopes self)) in
        with_child_index self (<[N.to_nat (scope_id_ child_id) := index]> (scope_child_index self))
    | None => self
    end in
  let self :=
    match get_scope self child_id with
    | Some child => with_scopes self (<[N.to_nat (scope_id_ child_id) := LuaScope.set_parent child (Some parent_id)]> (scopes self))
    | None => self
    end in
  file_child_scope_with_decls self parent_id child_id.

(** *** Finding the scope of a position *)

Definition child_scopes self (scope : LuaScope) : list LuaScope :=
  omap (fun entry => match entry with ScopeChild id => get_scope self id | DeclChild _ => None end) (children scope).

Definition linear_find_child_scope self (scope : LuaScope) (position : N) : option LuaScope :=
  List.find (fun child => range_contains (scope_range child) position) (child_scopes self scope).

(** The search for the first index whose nearest scope starts past the
    position; [None] when a scope cannot be resolved. *)
Fixpoint search_child (fuel : nat) self (entries : list ScopeOrDeclId) (position : N) (lo hi : nat) : outcome (option nat) :=
  match fuel with
  | 0 => OutOfFuel
  | S fuel =>
      if (lo <? hi)%nat then
        let mid := lo + (hi - lo) / 2 in
        match last_child_scope (drop lo (take (S mid) entries)) with
        | None => search_child fuel self entries position (S mid) hi
        | Some child_id =>
            match get_scope self child_id with
            | Some child =>
                if (position <? LuaScope.get_position child)%N
                then search_child fuel self entries position lo mid
                else search_child fuel self entries position (S mid) hi
            | None => Done None
            end
        end
      else Done (Some lo)
  end.

Definition find_child_scope self (scope : LuaScope) (position : N) : outcome (option LuaScope) :=
  let entries := children scope in
  lo ← search_child (S (length entries)) self entries position 0 (length entries);
  Done match lo with
  | None => linear_find_child_scope self scope position
  | Some lo =>
      child_id ← last_child_scope (take lo entries);
      candidate ← get_scope self child_id;
      if range_contains (scope_range candidate) position then Some candidate else None
  end.

Fixpoint find_scope_from (fuel : nat) self (scope : LuaScope) (position : N) : outcome LuaScope :=
  match fuel with
  | 0 => OutOfFuel
  | S fuel =>
      child ← find_child_scope self scope position;
      match child with Some child => find_scope_from fuel self child position | None => Done scope end
  end.

Definition find_scope self (position : N) : outcome (option LuaScope) :=
  match get_root_scope self with
  | None => Done None
  | Some scope => scope ← find_scope_from (S (length (scopes self))) self scope position; Done (Some scope)
  end.

(** *** Walking up *)

Section Walk.
Context {St : Type} (f : ScopeOrDeclId -> St -> bool * St).

(** A loop that ends when the closure says so. *)
Fixpoint visit_decls (ids : list LuaDeclId) (s : St) : bool * St :=
  match ids with
  | [] => (false, s)
  | id :: ids => let '(stop, s) := f (DeclChild id) s in if (stop : bool) then (true, s) else visit_decls ids s
  end.

Definition walk_over_scope (scope : LuaScope) (s : St) : bool * St :=
  let '(stop, s) := visit_decls (if holds_decls_for_parent (scope_kind scope) then decl_children scope else []) s in
  if (stop : bool) then (true, s) else f (ScopeChild (scope_id scope)) s.

Fixpoint visit_children self (entries : Visits) (s : St) : bool * St :=
  match entries with
  | [] => (false, s)
  | (_, child) :: entries =>
      let '(stop, s) := match child with
        | InterestingDecl id => f (DeclChild id) s
        | InterestingScope id =>
            match get_scope self id with Some scope => walk_over_scope scope s | None => (false, s) end
        end in
      if (stop : bool) then (true, s) else visit_children self entries s
  end.

Definition visits_of self (name : option rstring) (id : LuaScopeId) : Visits :=
  default [] match name with
             | Some name => names ← interesting_children_by_name self !! id; names !! name
             | None => interesting_children self !! id
             end.

(** [base_walk_up], with the walk of the parent as an argument. *)
Definition base_walk_up (walk_up : LuaScope -> N -> nat -> St -> outcome St) self (scope : LuaScope) (start_pos : N)
    (level : nat) (name : option rstring) (s : St) : outcome St :=
  let interesting := visits_of self name (scope_id scope) in
  let end_ := partition_point (fun entry => (entry.1.1 <? start_pos)%N) interesting in
  let '(stop, s) := visit_children self (reverse (take end_ interesting)) s in
  if (stop : bool) then Done s else
  match scope_parent scope with
  | Some parent_id =>
      match get_scope self parent_id with
      | Some parent => walk_up parent start_pos (S level) s
      | None => Done s
      end
  | None => Done s
  end.

Fixpoint walk_up (fuel : nat) self (scope : LuaScope) (start_pos : N) (level : nat) (name : option rstring) (s : St)
    : outcome St :=
  match fuel with
  | 0 => OutOfFuel
  | S fuel =>
      let rec := fun scope start_pos level s => walk_up fuel self scope start_pos level name s in
      match scope_kind scope with
      | LocalOrAssignStat =>
          match scope_parent scope with
          | Some parent_id =>
              match get_scope self parent_id with
              | Some parent => rec parent (LuaScope.get_position scope) level s
              | None => Done s
              end
          | None => Done s
          end
      | Repeat =>
          match level, head (children scope) with
          | 0, Some (ScopeChild id) =>
              match get_scope self id with
              | Some body => rec body start_pos level s
              | None => Done s
              end
          | _, _ => base_walk_up rec self scope start_pos level name s
          end
      | ForRange =>
          if (level =? 0)%nat then
            match scope_parent scope with
            | Some parent_id =>
                match get_scope self parent_id with
                | Some parent => rec parent start_pos level s
                | None => Done s
                end
            | None => Done s
            end
          else base_walk_up rec self scope start_pos level name s
      | _ => base_walk_up rec self scope start_pos level name s
      end
  end.
End Walk.

(** Every scope on the way up, and the body of each [repeat]. *)
Definition walk_fuel self : nat := S (2 * length (scopes self)).

Definition find_local_decl self (name : rstring) (position : N) : outcome (option LuaDecl) :=
  scope ← find_scope self position;
  match scope with
  | None => Done None
  | Some scope =>
      walk_up (fun child result =>
          match child with
          | DeclChild id =>
              match get_decl self id with
              | Some decl => if bool_decide (decl_name decl = name) then (true, Some decl) else (false, result)
              | None => (false, result)
              end
          | ScopeChild _ => (false, result)
          end) (walk_fuel self) self scope position 0 (Some name) None
  end.

Definition get_env_decls self (position : N) : outcome (option (list LuaDeclId)) :=
  scope ← find_scope self position;
  match scope with
  | None => Done None
  | Some scope =>
      result ← walk_up (fun child result =>
          (false,
           match child with
           | DeclChild id =>
               match get_decl self id with
               | Some decl => if LuaDecl.is_implicit_self decl then result else result ++ [LuaDecl.get_id decl]
               | None => result
               end
           | ScopeChild _ => result
           end)) (walk_fuel self) self scope position 0 None [];
      Done (Some result)
  end.

(** The first, by position, after the module was entered. *)
Definition find_module_scoped_decl_anywhere self (name module_path : rstring) (activation_position : N) : option LuaDecl :=
  positions ← module_decls_by_name self !! name;
  let later := sort_by (fun a b : N * LuaDeclId => (a.1 <=? b.1)%N)
    (filter (fun p : N * LuaDeclId => (activation_position + 1 <= p.1)%N) (map_to_list positions)) in
  head (omap (fun p : N * LuaDeclId =>
    decl ← get_decl self p.2;
    if LuaDecl.is_module_scoped decl && bool_decide (LuaDecl.get_module_path decl = Some module_path)
    then Some decl else None) later).
End Tree.
End LuaDeclarationTree.
