(* ===== verification/DeclWalk.v ===== *)
(** * The walk that files declarations

    The scopes and declarations of [DeclAnalyzer],
    [src/crates/glua_code_analysis/src/compilation/analyzer/decl/mod.rs]: what
    entering and leaving a node of the syntax tree does to the scopes, and what
    filing a declaration does to the declaration tree and to the writes that
    are made to the index afterwards.

    What the analysis of a statement declares is an event of the walk. *)

From S2P Require Import Prelude Kinds Text FileOrder Dependency EditMap EditRemap Derivation Readers KeyTable FactKey DeclTree.
From stdpp Require Import list gmap.
Local Open Scope prog_scope.

Record LegacyModuleEnv : Type := mkModuleEnv { env_module_path : rstring; activation_position : N; seeall : bool }.

Record GmodScopedClassInfo : Type := mkScopedClass {
  class_name : rstring;
  global_name : rstring;
  is_global_singleton : bool;
  aliases : list rstring;
  super_types : list rstring;
  class_name_prefix : option rstring
}.

Inductive LuaMemberFeature : Type :=
  | FileFieldDecl | FileDefine | FileMethodDecl | MetaFieldDecl | MetaDefine | MetaMethodDecl.

Inductive LuaTypeCache (LuaType : Type) : Type :=
  | DocType (type : LuaType)
  | InferType (type : LuaType).
Arguments DocType {LuaType} _.
Arguments InferType {LuaType} _.

(** [str::split] at a character and [join] with it. *)
Fixpoint split_at (c : N) (s : rstring) : list rstring :=
  match s with
  | [] => [[]]
  | x :: s =>
      if N.eqb x c then [] :: split_at c s
      else match split_at c s with part :: parts => (x :: part) :: parts | [] => [[x]] end
  end.

Fixpoint join (c : N) (parts : list rstring) : rstring :=
  match parts with
  | [] => []
  | [part] => part
  | part :: parts => part ++ c :: join c parts
  end.

Definition dot : N := 46%N.

Section Walk.
Context {LuaType VarRefId : Type}.
Notation Tree := (LuaDeclarationTree LuaType VarRefId).
Notation Key := (FactKey.LuaMemberKey LuaType).

Record LuaMember : Type := mkMember {
  member_id : LuaMemberId;
  member_key : Key;
  member_feature : LuaMemberFeature;
  member_global_id : option GlobalId
}.

(** The writes that these operations ask for: six of the kinds of write of
    [ops.rs]; the others come from the analysis of statements and comments. *)
Inductive DeclOp : Type :=
  | FunctionScopeRange (range : TextRange)
  | AddMember (owner : LuaMemberOwner) (member : LuaMember)
  | GlobalDecl (name : rstring) (decl_id : LuaDeclId) (file_order_key : rstring)
  | OwnerMap (source same : LuaSemanticDeclId)
  | LegacyModuleEnvOp (env : LegacyModuleEnv)
  | WriteTypeCache (owner : LuaTypeOwner) (cache : LuaTypeCache LuaType).

(** What these operations use of the analyzer. *)
Record DeclAnalyzer : Type := mkAnalyzer {
  decl : Tree;
  scoped_class_info : option GmodScopedClassInfo;
  seeded_scoped_class_decl : bool;
  legacy_module_envs : list LegacyModuleEnv;
  open_scopes : list LuaScopeId;
  global_references : list (rstring * LuaSyntaxId);
  ops : list DeclOp
}.
Implicit Types self : DeclAnalyzer.

Definition new (file_id : FileId) (info : option GmodScopedClassInfo) : DeclAnalyzer :=
  mkAnalyzer (LuaDeclarationTree.new file_id) info false [] [] [] [].

Definition with_decl self (v : Tree) : DeclAnalyzer :=
  mkAnalyzer v (scoped_class_info self) (seeded_scoped_class_decl self) (legacy_module_envs self) (open_scopes self)
    (global_references self) (ops self).
Definition with_open_scopes self (v : list LuaScopeId) : DeclAnalyzer :=
  mkAnalyzer (decl self) (scoped_class_info self) (seeded_scoped_class_decl self) (legacy_module_envs self) v
    (global_references self) (ops self).
Definition with_ops self (v : list DeclOp) : DeclAnalyzer :=
  mkAnalyzer (decl self) (scoped_class_info self) (seeded_scoped_class_decl self) (legacy_module_envs self) (open_scopes self)
    (global_references self) v.
Definition with_references self (v : list (rstring * LuaSyntaxId)) : DeclAnalyzer :=
  mkAnalyzer (decl self) (scoped_class_info self) (seeded_scoped_class_decl self) (legacy_module_envs self) (open_scopes self)
    v (ops self).
Definition with_envs self (v : list LegacyModuleEnv) : DeclAnalyzer :=
  mkAnalyzer (decl self) (scoped_class_info self) (seeded_scoped_class_decl self) v (open_scopes self)
    (global_references self) (ops self).
Definition with_seeded self : DeclAnalyzer :=
  mkAnalyzer (decl self) (scoped_class_info self) true (legacy_module_envs self) (open_scopes self)
    (global_references self) (ops self).

(** ** Scopes *)

(** The innermost open scope is the last. *)
Definition create_scope self (range : TextRange) (kind : LuaScopeKind) : DeclAnalyzer :=
  let '(scope_id, tree) := LuaDeclarationTree.create_scope (decl self) range kind in
  let tree := match last (open_scopes self) with
              | Some parent_scope_id => LuaDeclarationTree.add_child_scope tree parent_scope_id scope_id
              | None => tree
              end in
  with_open_scopes (with_decl self tree) (open_scopes self ++ [scope_id]).

Definition pop_scope self : DeclAnalyzer := with_open_scopes self (take (length (open_scopes self) - 1) (open_scopes self)).

Definition add_decl_to_current_scope self (decl_id : LuaDeclId) : DeclAnalyzer :=
  match last (open_scopes self) with
  | Some scope_id => with_decl self (LuaDeclarationTree.add_decl_to_scope (decl self) scope_id decl_id)
  | None => self
  end.

(** ** Legacy modules *)

(** The environments are sorted by where they begin. *)
Definition get_legacy_module_env_at self (position : N) : option LegacyModuleEnv :=
  match partition_point (fun env => (activation_position env <? position)%N) (legacy_module_envs self) with
  | 0 => None
  | S idx => legacy_module_envs self !! idx
  end.

(** The members that lead from each package of the path to the next, at made up
    positions; [namespace] is the type of a namespace. *)
Definition project_legacy_module_chain_members (namespace : rstring -> LuaType) self (env : LegacyModuleEnv) : DeclAnalyzer :=
  let parts := filter (fun part => part <> []) (split_at dot (env_module_path env)) in
  let project idx :=
    let child_path := join dot (take (S idx) parts) in
    let position := (activation_position env + N.of_nat idx)%N in
    let member_id := mkMemberId (file_id (decl self)) (mkSyntaxId (Syntax CallExpr) (mkTextRange position position)) 0 in
    [AddMember (OwnerGlobalPath (join dot (take idx parts)))
       (mkMember member_id (FactKey.KeyName (default [] (parts !! idx))) FileFieldDecl (Some child_path));
     WriteTypeCache (OwnerMember member_id) (InferType (namespace child_path))] in
  if (length parts <? 2)%nat then self else with_ops self (ops self ++ flat_map project (seq 1 (length parts - 1))).

Definition set_legacy_module_env (namespace : rstring -> LuaType) self (env : LegacyModuleEnv) : DeclAnalyzer :=
  let self := project_legacy_module_chain_members namespace self env in
  let self := with_ops self (ops self ++ [LegacyModuleEnvOp env]) in
  with_envs self (sort_by (fun a b => (activation_position a <=? activation_position b)%N) (legacy_module_envs self ++ [env])).

Definition should_bind_decl_to_legacy_module (d : LuaDecl) (env : LegacyModuleEnv) : bool :=
  match decl_extra d with
  | Global_ kind => bool_decide (kind <> Syntax IndexExpr) && (activation_position env <? LuaDecl.get_position d)%N
  | _ => false
  end.

Definition decl_kind (d : LuaDecl) : option LuaKind :=
  match decl_extra d with
  | Local_ kind _ | ImplicitSelf kind | Global_ kind | InModule kind _ => Some kind
  | Param _ _ _ => None
  end.

Definition find_decl self (name : rstring) (position : N) : outcome (option LuaDecl) :=
  found ← LuaDeclarationTree.find_local_decl (decl self) name position;
  Done match found with
       | None => None
       | Some d =>
           match get_legacy_module_env_at self position with
           | None => Some d
           | Some env =>
               if LuaDecl.is_module_scoped d && negb (bool_decide (LuaDecl.get_module_path d = Some (env_module_path env)))
               then None else Some d
           end
       end.

(** ** Declarations *)

(** The global of a scoped class that is not a singleton is a local of the file. *)
Definition localised self (d : LuaDecl) : LuaDecl :=
  match scoped_class_info self, decl_extra d with
  | Some info, Global_ kind =>
      if bool_decide (decl_name d = global_name info) && negb (is_global_singleton info)
      then LuaDecl.with_extra d (Local_ kind None) else d
  | _, _ => d
  end.

Definition moduled self (d : LuaDecl) : LuaDecl :=
  match get_legacy_module_env_at self (LuaDecl.get_position d) with
  | Some env =>
      if should_bind_decl_to_legacy_module d env
      then match decl_kind d with Some kind => LuaDecl.with_extra d (InModule kind (env_module_path env)) | None => d end
      else d
  | None => d
  end.

(** [file_order_key] is what the vfs says of the file. *)
Definition insert_decl (file_order_key : rstring) self (d : LuaDecl) (in_scope : bool) : LuaDeclId * DeclAnalyzer :=
  let d := moduled self (localised self d) in
  let syntax_id := LuaDecl.get_syntax_id d in
  let '(id, tree) := LuaDeclarationTree.add_decl (decl self) d in
  let self := with_decl self tree in
  let self := if in_scope then add_decl_to_current_scope self id else self in
  let self :=
    if LuaDecl.is_global d then
      with_ops (with_references self (global_references self ++ [(decl_name d, syntax_id)]))
        (ops self ++ [GlobalDecl (decl_name d) id file_order_key])
    else self in
  let self :=
    match LuaDecl.get_module_path d with
    | Some module_path =>
        let member_id := mkMemberId (decl_file d) syntax_id 0 in
        with_ops self (ops self
          ++ [AddMember (OwnerGlobalPath module_path) (mkMember member_id (FactKey.KeyName (decl_name d)) FileFieldDecl None);
              OwnerMap (SemanticLuaDecl id) (SemanticMember member_id)])
    | None => self
    end in
  (id, self).

Definition add_decl (file_order_key : rstring) self (d : LuaDecl) : LuaDeclId * DeclAnalyzer := insert_decl file_order_key self d true.

Definition add_global_table_decl (file_order_key : rstring) self (d : LuaDecl) : outcome (LuaDeclId * DeclAnalyzer) :=
  found ← find_decl self (decl_name d) (LuaDecl.get_position d);
  Done (insert_decl file_order_key self d (negb (from_option LuaDecl.is_local false found))).

(** ** The declarations of a scoped class *)

Definition seed_scoped_class_decl_name (file_order_key : rstring) self (name : rstring) (singleton : bool) (range : TextRange)
    : DeclAnalyzer :=
  let extra := if singleton then Global_ (Syntax NameExpr) else Local_ (Syntax NameExpr) None in
  (add_decl file_order_key self (LuaDecl.new name (file_id (decl self)) range extra None)).2.

(** At made up positions from the start of the chunk. *)
Fixpoint seed_names (file_order_key : rstring) self (names : list rstring) (position : N) : DeclAnalyzer :=
  match names with
  | [] => self
  | name :: names =>
      seed_names file_order_key (seed_scoped_class_decl_name file_order_key self name true (mkTextRange position position)) names
        (position + 1)
  end.

Definition maybe_seed_scoped_class_decl (file_order_key : rstring) self (chunk_range : TextRange) : DeclAnalyzer :=
  if seeded_scoped_class_decl self then self else
  match scoped_class_info self with
  | Some info =>
      if negb (is_global_singleton info) then self else
      with_seeded (seed_names file_order_key self (global_name info :: aliases info) (text_start chunk_range))
  | None => self
  end.

(** ** Entering and leaving nodes *)

Inductive ScopeNode : Type :=
  | LuaChunk | LuaBlock | LuaLocalStat | LuaAssignStat | LuaForStat | LuaForRangeStat
  | LuaFuncStat (is_method : bool) | LuaLocalFuncStat | LuaRepeatStat | LuaClosureExpr.

Definition kind_of (node : ScopeNode) : LuaScopeKind :=
  match node with
  | LuaChunk | LuaBlock | LuaForStat | LuaClosureExpr => Normal
  | LuaLocalStat | LuaAssignStat => LocalOrAssignStat
  | LuaForRangeStat => ForRange
  | LuaFuncStat is_method => if is_method then MethodStat else FuncStat
  | LuaLocalFuncStat => FuncStat
  | LuaRepeatStat => Repeat
  end.

(** Entering a node that owns a scope, up to the analysis of what it declares. *)
Definition walk_node_enter (file_order_key : rstring) self (node : ScopeNode) (range : TextRange) : DeclAnalyzer :=
  let self := create_scope self range (kind_of node) in
  match node with
  | LuaChunk => maybe_seed_scoped_class_decl file_order_key self range
  | LuaFuncStat _ | LuaLocalFuncStat | LuaClosureExpr => with_ops self (ops self ++ [FunctionScopeRange range])
  | _ => self
  end.

(** All of these nodes are scope owners. *)
Definition walk_node_leave self : DeclAnalyzer := pop_scope self.

(** What the walk over the syntax tree does, in order: nodes that own a scope
    are entered and left, and the analysis of the nodes in between declares
    names and enters legacy modules. *)
Inductive WalkEvent : Type :=
  | Enter (node : ScopeNode) (range : TextRange)
  | Leave
  | AddDecl (d : LuaDecl)
  | AddGlobalTableDecl (d : LuaDecl)
  | EnterModule (env : LegacyModuleEnv).

Definition walk_event (file_order_key : rstring) (namespace : rstring -> LuaType) self (event : WalkEvent) : outcome DeclAnalyzer :=
  match event with
  | Enter node range => Done (walk_node_enter file_order_key self node range)
  | Leave => Done (walk_node_leave self)
  | AddDecl d => Done (add_decl file_order_key self d).2
  | AddGlobalTableDecl d => added ← add_global_table_decl file_order_key self d; Done added.2
  | EnterModule env => Done (set_legacy_module_env namespace self env)
  end.

Fixpoint analyze (file_order_key : rstring) (namespace : rstring -> LuaType) self (events : list WalkEvent) : outcome DeclAnalyzer :=
  match events with
  | [] => Done self
  | event :: events => self ← walk_event file_order_key namespace self event; analyze file_order_key namespace self events
  end.
End Walk.
Arguments DeclAnalyzer : clear implicits.
