(* ===== verification/DeclTreeProofs.v ===== *)
(** * The search of the declaration tree

    A tree whose visit sets hold what the children of its scopes say: its
    searches for a name are the scan of the children, whichever set they
    use. *)

From S2P Require Import Prelude Kinds Text FileOrder Dependency EditMap EditRemap Derivation Readers ReadersProofs KeyTable KeyTableProofs FactKey DeclTree.
From stdpp Require Import list gmap sorting.
Local Open Scope prog_scope.

(** ** Keys in order *)

Definition key_before (a b : ChildKey) : Prop := key_lt a b = true.

Lemma key_before_trans a b c : key_before a b -> key_before b c -> key_before a c.
Proof. unfold key_before, key_lt. rewrite !orb_true_iff, !andb_true_iff, !N.ltb_lt, !N.eqb_eq. lia. Qed.

Lemma key_before_irrefl a : ~ key_before a a.
Proof. unfold key_before, key_lt. rewrite !orb_true_iff, !andb_true_iff, !N.ltb_lt, !N.eqb_eq. lia. Qed.

Lemma key_before_total a b : key_before a b \/ a = b \/ key_before b a.
Proof.
  destruct a as [a1 a2], b as [b1 b2]. unfold key_before, key_lt. rewrite !orb_true_iff, !andb_true_iff, !N.ltb_lt, !N.eqb_eq. simpl.
  destruct (N.lt_trichotomy a1 b1) as [|[->|]]; [tauto| |tauto]. destruct (N.lt_trichotomy a2 b2) as [|[->|]]; tauto.
Qed.

Lemma key_before_first a b : key_before a b -> (a.1 <= b.1)%N.
Proof. unfold key_before, key_lt. rewrite !orb_true_iff, !andb_true_iff, !N.ltb_lt, !N.eqb_eq. lia. Qed.

(** Visits in the order of their keys. *)
Definition in_order (l : Visits) : Prop := StronglySorted (fun a b => key_before a.1 b.1) l.

Lemma in_order_nodup l : in_order l -> NoDup l.
Proof.
  induction 1 as [|x l Hl IH Hx]; [constructor|]. rewrite Forall_forall in Hx. apply NoDup_cons. split; [|done].
  intros Hin. by apply (key_before_irrefl x.1), Hx.
Qed.

Lemma in_order_ext l1 l2 : in_order l1 -> in_order l2 -> (forall e, e ∈ l1 <-> e ∈ l2) -> l1 = l2.
Proof.
  intros H1 H2 He. eapply (StronglySorted_unique_strong (fun a b => key_before a.1 b.1)); [|done|done|].
  - intros a b _ _ Ha Hb. destruct (key_before_irrefl a.1). by eapply key_before_trans.
  - apply NoDup_Permutation; [by apply in_order_nodup|by apply in_order_nodup|done].
Qed.

Lemma in_order_filter (P : ChildKey * InterestingChild -> Prop) `{!forall x, Decision (P x)} l : in_order l -> in_order (filter P l).
Proof.
  induction 1 as [|x l Hl IH Hx]; [constructor|]. rewrite filter_cons. destruct (decide (P x)); [|done]. constructor; [done|].
  rewrite Forall_forall in *. intros y [_ Hy]%list_elem_of_filter. by apply Hx.
Qed.

Lemma in_order_insert l key child n :
  in_order l -> n <= length l -> (forall e, e ∈ take n l -> key_before e.1 key) -> (forall e, e ∈ drop n l -> key_before key e.1) ->
  in_order (take n l ++ (key, child) :: drop n l).
Proof.
  intros Hl _ Hb Ha. rewrite <- (take_drop n l) in Hl. apply StronglySorted_app in Hl as (Hx & H1 & H2).
  apply StronglySorted_app. split_and!; [|done|].
  - intros x y Hxin [->|Hy]%elem_of_cons; [by apply Hb|by apply Hx].
  - constructor; [done|]. rewrite Forall_forall. done.
Qed.

(** What is before the place of the key is before the key. *)
Lemma place_parts l key :
  in_order l -> let n := partition_point (fun entry => key_lt entry.1 key) l in
  (forall e, e ∈ take n l -> key_before e.1 key) /\ (forall e, e ∈ drop n l -> ~ key_before e.1 key).
Proof.
  intros Hl. simpl. induction Hl as [|x l Hl IH Hx]; simpl; [split; intros e ?%not_elem_of_nil; done|]. rewrite Forall_forall in Hx.
  destruct (key_lt x.1 key) eqn:Hk; simpl.
  - destruct IH as [I1 I2]. split; [intros e [->|]%elem_of_cons; [done|by apply I1]|done].
  - split; [by intros e ?%not_elem_of_nil|]. intros e [->|He]%elem_of_cons Hb; [unfold key_before in Hb; congruence|].
    assert (Hxk : key_before x.1 key) by (eapply key_before_trans; [by apply Hx|done]). unfold key_before in Hxk. congruence.
Qed.

Lemma file_child_spec l key child :
  in_order l -> (forall e, e ∈ l -> e.1 = key -> e = (key, child) /\ exists id, child = InterestingScope id) ->
  in_order (file_child l key child) /\ forall e, e ∈ file_child l key child <-> e ∈ l \/ e = (key, child).
Proof.
  intros Hl Hkey. destruct (place_parts l key Hl) as [Hb Ha]. unfold file_child.
  set (n := partition_point (fun entry => key_lt entry.1 key) l) in *.
  destruct (l !! n) as [e|] eqn:He; simpl.
  - destruct (decide (e.1 = key)) as [Hek|Hek].
    + destruct (Hkey e) as [ -> [id -> ] ]; [by eapply list_elem_of_lookup_2|done|]. rewrite bool_decide_true by done. split; [done|].
      intros e'. split; [by left|]. intros [| ->]; [done|]. by eapply list_elem_of_lookup_2.
    + rewrite bool_decide_false by done.
      assert (Hins : in_order (take n l ++ (key, child) :: drop n l)).
      { apply in_order_insert; [done|apply partition_point_le|done|]. intros e' He'. assert (Hna := Ha e' He').
        destruct (key_before_total key e'.1) as [|[Heq|]]; [done| |done]. destruct (Hkey e') as [-> _]; [|done|].
        { rewrite <- (take_drop n l). apply elem_of_app. by right. }
        (* [e] comes first among what is not before the key *)
        exfalso. rewrite (drop_S l e n) in He', Ha by done. apply elem_of_cons in He' as [He'|He']; [by subst e|].
        apply list_elem_of_split in He' as (l1 & l2 & Hs). rewrite <- (take_drop n l), (drop_S l e n He), Hs in Hl.
        apply StronglySorted_app in Hl as (_ & _ & Hl). apply StronglySorted_inv in Hl as [_ Hl]. rewrite Forall_forall in Hl.
        assert (key_before e.1 key) as Hek' by (apply (Hl (key, child)); apply elem_of_app; right; by left).
        apply (Ha e); [by left|done]. }
      assert (Hmem : forall e', e' ∈ take n l ++ (key, child) :: drop n l <-> e' ∈ l \/ e' = (key, child)).
      { intros e'. rewrite <- (take_drop n l) at 3. rewrite !elem_of_app, elem_of_cons. tauto. }
      by destruct child.
  - assert (Hd : drop n l = []) by (apply drop_ge; by apply lookup_ge_None).
    assert (Hins : in_order (take n l ++ (key, child) :: drop n l)).
    { apply in_order_insert; [done|apply partition_point_le|done|]. rewrite Hd. by intros ? ?%not_elem_of_nil. }
    assert (Hmem : forall e', e' ∈ take n l ++ (key, child) :: drop n l <-> e' ∈ l \/ e' = (key, child)).
    { intros e'. rewrite <- (take_drop n l) at 3. rewrite !elem_of_app, elem_of_cons. tauto. }
    by destruct child.
Qed.

(** The visits before a position. *)
Definition before (start_pos : N) (e : ChildKey * InterestingChild) : Prop := (e.1.1 < start_pos)%N.
#[global] Instance before_dec start_pos e : Decision (before start_pos e).
Proof. unfold before. apply _. Defined.

Lemma take_before l start_pos :
  in_order l -> take (partition_point (fun entry => (entry.1.1 <? start_pos)%N) l) l = filter (before start_pos) l.
Proof.
  induction 1 as [|x l Hl IH Hx]; simpl; [done|]. rewrite filter_cons. rewrite Forall_forall in Hx.
  destruct (N.ltb_spec x.1.1 start_pos) as [Hlt|Hge].
  - rewrite decide_True by done. simpl. by rewrite IH.
  - rewrite decide_False by (unfold before; lia). simpl. symmetry. apply filter_none. intros e He. unfold before.
    specialize (Hx e He). apply key_before_first in Hx. lia.
Qed.

(** ** The scan of the children *)

Section Tree.
Context {LuaType VarRefId : Type}.
Notation Tree := (LuaDeclarationTree LuaType VarRefId).
Implicit Types self : Tree.
Import LuaDeclarationTree.

Definition named self (n : rstring) (d : LuaDeclId) : bool := bool_decide (decl_name <$> get_decl self d = Some n).

(** Whether a child matters to the search for a name. *)
Definition wants self (name : option rstring) (c : InterestingChild) : bool :=
  match name, c with
  | None, _ => true
  | Some n, InterestingDecl d => named self n d
  | Some n, InterestingScope id =>
      match get_scope self id with Some sc => existsb (named self n) (decl_children sc) | None => false end
  end.

(** What the children of a scope say that is to be visited. *)
Definition direct_visit self (p : nat * ScopeOrDeclId) : option (ChildKey * InterestingChild) :=
  match p.2 with
  | DeclChild d => Some ((decl_position d, N.of_nat p.1), InterestingDecl d)
  | ScopeChild c =>
      sc ← get_scope self c;
      if holds_decls_for_parent (scope_kind sc) && negb (bool_decide (decl_children sc = []))
      then Some ((LuaScope.get_position sc, N.of_nat p.1), InterestingScope c) else None
  end.

Definition direct_visits self (sc : LuaScope) : Visits := omap (direct_visit self) (imap pair (children sc)).

Definition key_le (a b : ChildKey * InterestingChild) : bool := negb (key_lt b.1 a.1).

(** The visits before a position, the newest first. *)
Definition scan self (sc : LuaScope) (start_pos : N) : Visits :=
  reverse (filter (before start_pos) (sort_by key_le (direct_visits self sc))).

Definition decls_over self (e : ChildKey * InterestingChild) : list LuaDeclId :=
  match e.2 with
  | InterestingDecl d => [d]
  | InterestingScope id =>
      match get_scope self id with
      | Some sc => if holds_decls_for_parent (scope_kind sc) then decl_children sc else []
      | None => []
      end
  end.

Definition parent_of self (sc : LuaScope) : option LuaScope := p ← scope_parent sc; get_scope self p.

(** The declarations that are in scope, the nearest first. *)
Fixpoint visible_from (fuel : nat) self (sc : LuaScope) (start_pos : N) (level : nat) : outcome (list LuaDeclId) :=
  match fuel with
  | 0 => OutOfFuel
  | S fuel =>
      let over level :=
        match parent_of self sc with
        | Some parent => visible_from fuel self parent start_pos level
        | None => Done []
        end in
      let here :=
        rest ← over (S level); Done (flat_map (decls_over self) (scan self sc start_pos) ++ rest) in
      match scope_kind sc with
      | LocalOrAssignStat =>
          match parent_of self sc with
          | Some parent => visible_from fuel self parent (LuaScope.get_position sc) level
          | None => Done []
          end
      | Repeat =>
          match level, head (children sc) with
          | 0, Some (ScopeChild id) =>
              match get_scope self id with Some body => visible_from fuel self body start_pos level | None => Done [] end
          | _, _ => here
          end
      | ForRange => if (level =? 0)%nat then over level else here
      | _ => here
      end
  end.

(** ** The visit sets say what the children say *)

Record visits_ok self : Prop := {
  vo_all : forall i sc, scopes self !! i = Some sc -> in_order (visits_of self None (scope_id sc))
    /\ forall e, e ∈ visits_of self None (scope_id sc) <-> e ∈ direct_visits self sc;
  vo_named : forall i sc n, scopes self !! i = Some sc -> in_order (visits_of self (Some n) (scope_id sc))
    /\ forall e, e ∈ visits_of self (Some n) (scope_id sc) <-> e ∈ direct_visits self sc /\ wants self (Some n) e.2 = true
}.

Lemma visits_ok_all self :
  visits_ok self <-> forall i sc q, scopes self !! i = Some sc -> in_order (visits_of self q (scope_id sc))
    /\ forall e, e ∈ visits_of self q (scope_id sc) <-> e ∈ direct_visits self sc /\ wants self q e.2 = true.
Proof.
  split.
  - intros [Ha Hn] i sc [n|] Hsc; [by eapply Hn|]. destruct (Ha i sc Hsc) as [Ho Hm]. split; [done|]. intros e. rewrite Hm. simpl. tauto.
  - intros Hall. split; intros i sc; [intros Hsc|intros n Hsc].
    + destruct (Hall i sc None Hsc) as [Ho Hm]. split; [done|]. intros e. rewrite Hm. simpl. tauto.
    + by eapply Hall.
Qed.

Lemma wants_filter self name i sc :
  visits_ok self -> scopes self !! i = Some sc ->
  visits_of self name (scope_id sc) = filter (fun e => wants self name e.2 = true) (visits_of self None (scope_id sc)).
Proof.
  intros Hok Hsc. destruct (vo_all self Hok i sc Hsc) as [Ho Hm]. destruct name as [n|].
  - destruct (vo_named self Hok i sc n Hsc) as [Hon Hmn]. apply in_order_ext; [done|by apply in_order_filter|].
    intros e. rewrite Hmn, list_elem_of_filter, Hm. tauto.
  - symmetry. by apply filter_all.
Qed.

Lemma elem_of_direct_visits self sc e :
  e ∈ direct_visits self sc <-> exists i ch, children sc !! i = Some ch /\ direct_visit self (i, ch) = Some e.
Proof.
  unfold direct_visits. rewrite list_elem_of_omap. split.
  - intros ([i ch] & Hin & He). exists i, ch. split; [|done]. apply elem_of_lookup_imap in Hin as (j & y & [= -> ->] & Hy). done.
  - intros (i & ch & Hc & He). exists (i, ch). split; [|done]. apply elem_of_lookup_imap. by exists i, ch.
Qed.

Lemma direct_visit_index self i ch e : direct_visit self (i, ch) = Some e -> e.1.2 = N.of_nat i.
Proof.
  unfold direct_visit. simpl. destruct ch as [c|d]; [|by intros [= <-]].
  destruct (get_scope self c) as [sc|]; simpl; [|done]. destruct (_ && _); [|done]. by intros [= <-].
Qed.

Lemma direct_visits_inj self sc e1 e2 : e1 ∈ direct_visits self sc -> e2 ∈ direct_visits self sc -> e1.1.2 = e2.1.2 -> e1 = e2.
Proof.
  intros (i & ch & Hc & He)%elem_of_direct_visits (j & ch' & Hc' & He')%elem_of_direct_visits Hk.
  assert (i = j) as <-; [|congruence]. apply direct_visit_index in He, He'. rewrite He, He' in Hk. lia.
Qed.

Lemma direct_visits_nodup self sc : NoDup (direct_visits self sc).
Proof.
  unfold direct_visits. assert (Hg : forall n (l : list ScopeOrDeclId),
    NoDup (omap (direct_visit self) (imap (fun i x => (n + i, x)) l))
    /\ forall e, e ∈ omap (direct_visit self) (imap (fun i x => (n + i, x)) l) -> (N.of_nat n <= e.1.2)%N); [|apply (Hg 0)].
  intros n l. revert n. induction l as [|x l IH]; intros n; [split; [constructor|by intros e ?%not_elem_of_nil]|].
  rewrite imap_cons. assert (He : imap ((fun i x => (n + i, x)) ∘ S) l = imap (fun i x => (S n + i, x)) l).
  { apply imap_ext. intros i y _. simpl. do 2 f_equal. lia. }
  rewrite He. destruct (IH (S n)) as [I1 I2]. simpl. replace (n + 0) with n by lia.
  destruct (direct_visit self (n, x)) as [e|] eqn:Hx; simpl.
  - apply direct_visit_index in Hx. split.
    + apply NoDup_cons. split; [|done]. intros Hin%I2. lia.
    + intros e' [->|Hin%I2]%elem_of_cons; lia.
  - split; [done|]. intros e' Hin%I2. lia.
Qed.

Lemma sorted_visits self i sc :
  visits_ok self -> scopes self !! i = Some sc -> visits_of self None (scope_id sc) = sort_by key_le (direct_visits self sc).
Proof.
  intros Hok Hsc. destruct (vo_all self Hok i sc Hsc) as [Ho Hm].
  assert (Hp : visits_of self None (scope_id sc) ≡ₚ direct_visits self sc).
  { apply NoDup_Permutation; [by apply in_order_nodup|apply direct_visits_nodup|done]. }
  assert (Hle : forall a b, key_le a b = true <-> ~ key_before b.1 a.1).
  { intros a b. unfold key_le, key_before. destruct (key_lt b.1 a.1); naive_solver. }
  apply (StronglySorted_unique_strong (fun a b => key_le a b = true)).
  - intros a b Ha Hb. rewrite sort_by_perm in Hb. rewrite !Hle. intros H1 H2.
    destruct (key_before_total a.1 b.1) as [|[He|]]; [done| |done]. apply Hm in Ha. eapply direct_visits_inj; [done|done|by rewrite He].
  - eapply StronglySorted_mono; [|exact Ho]. intros a b Hab. apply Hle. intros Hba. by apply (key_before_irrefl a.1), (key_before_trans _ b.1).
  - apply sort_by_strongly_sorted.
    + intros a b Hab. apply Hle. intros Hba. apply not_true_iff_false in Hab. apply Hab, Hle. intros Hba'.
      by apply (key_before_irrefl a.1), (key_before_trans _ b.1).
    + intros a b c. rewrite !Hle. intros H1 H2 H3. destruct (key_before_total a.1 b.1) as [|[He|]]; [|by rewrite He in *|done].
      apply H2. by eapply key_before_trans.
  - rewrite Hp. symmetry. apply sort_by_perm.
Qed.

(** ** Walking up is the scan *)

Section Visit.
Context {St : Type} (f : ScopeOrDeclId -> St -> bool * St).
Hypothesis blind : forall id s, f (ScopeChild id) s = (false, s).

Lemma visit_decls_app l1 l2 s :
  visit_decls f (l1 ++ l2) s = let '(stop, s) := visit_decls f l1 s in if (stop : bool) then (true, s) else visit_decls f l2 s.
Proof.
  revert s. induction l1 as [|d l1 IH]; intros s; simpl; [done|]. destruct (f (DeclChild d) s) as [[] s']; [done|apply IH].
Qed.

Lemma visit_decls_skip l s : (forall d s, d ∈ l -> f (DeclChild d) s = (false, s)) -> visit_decls f l s = (false, s).
Proof.
  revert s. induction l as [|d l IH]; intros s Hskip; simpl; [done|]. rewrite Hskip by (by left). apply IH. intros d' s' Hd. apply Hskip. by right.
Qed.

Lemma visit_decls_of self l s : visit_children f self l s = visit_decls f (flat_map (decls_over self) l) s.
Proof.
  revert s. induction l as [|[k c] l IH]; intros s; [done|]. cbn [visit_children flat_map]. rewrite visit_decls_app.
  unfold decls_over at 1. simpl. destruct c as [d|id].
  - simpl. destruct (f (DeclChild d) s) as [[] s']; [done|]. apply IH.
  - destruct (get_scope self id) as [sc|]; [|apply IH]. unfold walk_over_scope.
    destruct (visit_decls f (if holds_decls_for_parent (scope_kind sc) then decl_children sc else []) s) as [[] s']; [done|].
    rewrite blind. apply IH.
Qed.

(** The closure passes over the declarations of other names. *)
Definition passes self (name : option rstring) : Prop :=
  forall n d s, name = Some n -> named self n d = false -> f (DeclChild d) s = (false, s).

Lemma visit_wanted self name l s :
  passes self name ->
  visit_decls f (flat_map (decls_over self) (filter (fun e => wants self name e.2 = true) l)) s = visit_decls f (flat_map (decls_over self) l) s.
Proof.
  intros Hpass. revert s. induction l as [|[k c] l IH]; intros s; [done|]. rewrite filter_cons. destruct (decide _) as [Hw|Hw].
  - cbn [flat_map]. rewrite !visit_decls_app. destruct (visit_decls f (decls_over self (k, c)) s) as [[] s']; [done|apply IH].
  - cbn [flat_map]. rewrite visit_decls_app, (visit_decls_skip (decls_over self (k, c))); [apply IH|]. intros d s' Hd. destruct name as [n|]; [|done].
    apply (Hpass n d s'); [done|]. simpl in Hw. unfold decls_over in Hd. simpl in Hd. destruct c as [d'|id].
    + apply list_elem_of_singleton in Hd as ->. by apply not_true_iff_false.
    + destruct (get_scope self id) as [sc|]; [|by apply not_elem_of_nil in Hd].
      destruct (holds_decls_for_parent _); [|by apply not_elem_of_nil in Hd]. apply not_true_iff_false. intros Hn. apply Hw.
      apply existsb_exists. exists d. split; [by apply list_elem_of_In|done].
Qed.

Lemma filters_commute (P Q : ChildKey * InterestingChild -> Prop) `{!forall x, Decision (P x)} `{!forall x, Decision (Q x)} (l : Visits) :
  filter P (filter Q l) = filter Q (filter P l).
Proof. rewrite !list_filter_filter. apply filter_iff_in. tauto. Qed.

Lemma visit_scan self name i sc start_pos s :
  visits_ok self -> scopes self !! i = Some sc -> passes self name ->
  visit_children f self (reverse (take (partition_point (fun entry => (entry.1.1 <? start_pos)%N) (visits_of self name (scope_id sc)))
                                    (visits_of self name (scope_id sc)))) s
  = visit_decls f (flat_map (decls_over self) (scan self sc start_pos)) s.
Proof.
  intros Hok Hsc Hpass. rewrite take_before, (wants_filter self name i sc) by (done || (destruct name; eapply Hok; done)).
  rewrite filters_commute, <- filter_reverse, visit_decls_of, visit_wanted by done.
  unfold scan. by rewrite <- (sorted_visits self i sc).
Qed.
End Visit.

Lemma get_scope_at self id sc : get_scope self id = Some sc -> exists i, scopes self !! i = Some sc.
Proof. unfold get_scope. by eexists. Qed.

Lemma parent_of_at self sc parent : parent_of self sc = Some parent -> exists i, scopes self !! i = Some parent.
Proof. unfold parent_of. intros (p & _ & Hp)%bind_Some. by eapply get_scope_at. Qed.

Lemma walk_visible {St} (f : ScopeOrDeclId -> St -> bool * St) self name fuel :
  (forall id s, f (ScopeChild id) s = (false, s)) -> visits_ok self -> passes f self name ->
  forall sc start_pos level l s, (exists i, scopes self !! i = Some sc) ->
  visible_from fuel self sc start_pos level = Done l ->
  walk_up f fuel self sc start_pos level name s = Done (visit_decls f l s).2.
Proof.
  intros Hblind Hok Hpass. induction fuel as [|fuel IH]; intros sc start_pos level l s Hsc Hl; [done|].
  assert (Hover : forall level l s, match parent_of self sc with Some parent => visible_from fuel self parent start_pos level | None => Done [] end = Done l ->
    match scope_parent sc with
    | Some parent_id => match get_scope self parent_id with
                        | Some parent => walk_up f fuel self parent start_pos level name s
                        | None => Done s
                        end
    | None => Done s
    end = Done (visit_decls f l s).2).
  { intros lv l' s' Hl'. unfold parent_of in Hl'. destruct (scope_parent sc) as [p|]; simpl in Hl'; [|by injection Hl' as <-].
    destruct (get_scope self p) as [psc|] eqn:Hp; [|by injection Hl' as <-]. by apply IH; [eapply get_scope_at|]. }
  assert (Hhere : forall l s,
    (rest ← match parent_of self sc with Some parent => visible_from fuel self parent start_pos (S level) | None => Done [] end;
     Done (flat_map (decls_over self) (scan self sc start_pos) ++ rest)) = Done l ->
    base_walk_up f (fun scope start_pos level s => walk_up f fuel self scope start_pos level name s) self sc start_pos level name s
    = Done (visit_decls f l s).2).
  { intros l' s' Hl'. destruct (match parent_of self sc with Some _ => _ | None => _ end) as [rest| |] eqn:Hr; try done.
    rewrite done_bind in Hl'. injection Hl' as <-. unfold base_walk_up. destruct Hsc as [i Hsc].
    rewrite (visit_scan f Hblind self name i sc start_pos s') by done. rewrite visit_decls_app.
    destruct (visit_decls f (flat_map (decls_over self) (scan self sc start_pos)) s') as [[] s'']; [done|]. by apply Hover. }
  cbn [walk_up visible_from] in *. destruct (scope_kind sc); try by apply Hhere.
  - destruct level as [|level]; [|by apply Hhere]. destruct (head (children sc)) as [[c|d]|]; try by apply Hhere.
    destruct (get_scope self c) as [body|] eqn:Hb; [|by injection Hl as <-]. by apply IH; [eapply get_scope_at|].
  - unfold parent_of in Hl. destruct (scope_parent sc) as [p|]; simpl in Hl; [|by injection Hl as <-].
    destruct (get_scope self p) as [psc|] eqn:Hp; [|by injection Hl as <-]. by apply IH; [eapply get_scope_at|].
  - destruct (level =? 0)%nat; [by apply Hover|by apply Hhere].
Qed.

(** ** The shape of the tree *)

Record tree_shape self : Prop := {
  ts_ids : forall i sc, scopes self !! i = Some sc -> scope_id sc = mkScopeId (file_id self) (N.of_nat i);
  ts_parent : forall i sc p, scopes self !! i = Some sc -> scope_parent sc = Some p ->
    exists j psc, p = mkScopeId (file_id self) (N.of_nat j) /\ j < i /\ scopes self !! j = Some psc /\ ScopeChild (scope_id sc) ∈ children psc;
  ts_child : forall i sc c, scopes self !! i = Some sc -> ScopeChild c ∈ children sc ->
    exists j csc, c = mkScopeId (file_id self) (N.of_nat j) /\ i < j /\ scopes self !! j = Some csc /\ scope_parent csc = Some (scope_id sc);
  ts_body : forall i sc c csc, scopes self !! i = Some sc -> scope_kind sc = Repeat -> ScopeChild c ∈ children sc ->
    get_scope self c = Some csc -> scope_kind csc = Normal
}.

Lemma get_scope_index self i sc : tree_shape self -> scopes self !! i = Some sc -> get_scope self (scope_id sc) = Some sc.
Proof. intros Hok Hsc. unfold get_scope. rewrite (ts_ids self Hok i sc Hsc). simpl. by rewrite Nat2N.id. Qed.

Lemma parent_of_before self i sc parent :
  tree_shape self -> scopes self !! i = Some sc -> parent_of self sc = Some parent -> exists j, j < i /\ scopes self !! j = Some parent.
Proof.
  intros Hok Hsc (p & Hp & Hg)%bind_Some. destruct (ts_parent self Hok i sc p Hsc Hp) as (j & psc & -> & Hj & Hpsc & _). exists j. split; [done|].
  unfold get_scope in Hg. simpl in Hg. by rewrite Nat2N.id in Hg.
Qed.

Lemma visible_above self fuel :
  tree_shape self -> forall i sc start_pos level, scopes self !! i = Some sc -> i < fuel -> exists l, visible_from fuel self sc start_pos (S level) = Done l.
Proof.
  intros Hok. induction fuel as [|fuel IH]; intros i sc start_pos level Hsc Hi; [lia|].
  assert (Hover : forall pos level, exists l, match parent_of self sc with Some parent => visible_from fuel self parent pos (S level) | None => Done [] end = Done l).
  { intros pos lv. destruct (parent_of self sc) as [parent|] eqn:Hp; [|by eexists].
    destruct (parent_of_before self i sc parent Hok Hsc Hp) as (j & Hj & Hpsc). apply (IH j); [done|lia]. }
  cbn [visible_from]. destruct (Hover start_pos (S level)) as [rest Hr]. rewrite Hr, done_bind.
  destruct (scope_kind sc); try (by eexists). apply Hover.
Qed.

Lemma visible_done self fuel :
  tree_shape self -> forall i sc start_pos, scopes self !! i = Some sc -> i + 2 < fuel -> exists l, visible_from fuel self sc start_pos 0 = Done l.
Proof.
  intros Hok. induction fuel as [|fuel IH]; intros i sc start_pos Hsc Hi; [lia|].
  assert (Hover : forall pos level, exists l, match parent_of self sc with Some parent => visible_from fuel self parent pos level | None => Done [] end = Done l).
  { intros pos lv. destruct (parent_of self sc) as [parent|] eqn:Hp; [|by eexists].
    destruct (parent_of_before self i sc parent Hok Hsc Hp) as (j & Hj & Hpsc). destruct lv as [|lv].
    - apply (IH j); [done|lia].
    - apply (visible_above self fuel Hok j); [done|lia]. }
  cbn [visible_from]. destruct (Hover start_pos 1) as [rest Hr]. rewrite Hr, done_bind.
  destruct (scope_kind sc) eqn:Hkind; try (by eexists); try (apply Hover).
  destruct (head (children sc)) as [[c|d]|] eqn:Hh; try by eexists.
  destruct (get_scope self c) as [body|] eqn:Hb; [|by eexists].
  (* the body, and from there the loop again, one level up *)
  assert (Hin : ScopeChild c ∈ children sc) by (destruct (children sc); [done|]; injection Hh as ->; by left).
  destruct (ts_child self Hok i sc c Hsc Hin) as (j & csc & -> & Hj & Hcsc & Hpar).
  assert (csc = body) as -> by (unfold get_scope in Hb; simpl in Hb; rewrite Nat2N.id in Hb; congruence).
  assert (Hn := ts_body self Hok i sc _ body Hsc Hkind Hin Hb). destruct fuel as [|fuel]; [lia|]. cbn [visible_from]. rewrite Hn.
  unfold parent_of. rewrite Hpar. simpl. rewrite (get_scope_index self i sc Hok Hsc).
  destruct (visible_above self fuel Hok i sc start_pos 0 Hsc) as [l Hl]; [lia|]. rewrite Hl. by eexists.
Qed.

(** ** The scope of a position *)

(** Siblings lie apart and in order. *)
Definition apart (l : list LuaScope) : Prop :=
  StronglySorted (fun a b => text_end (scope_range a) <= LuaScope.get_position b)%N l
  /\ forall a, a ∈ l -> (LuaScope.get_position a <= text_end (scope_range a))%N.

Lemma apart_ranges (f : LuaScope -> LuaScope) (l : list LuaScope) :
  (forall y, y ∈ l -> scope_range (f y) = scope_range y) -> apart l -> apart (f <$> l).
Proof.
  unfold apart, LuaScope.get_position. intros Hf [Hs Hr]. split.
  - clear Hr. induction Hs as [|x l Hs IH Hx]; [constructor|]. rewrite fmap_cons. constructor; [apply IH; intros y Hy; apply Hf; by right|].
    rewrite Forall_forall in *. intros z (y & -> & Hy)%list_elem_of_fmap. rewrite !Hf by (by left || by right). by apply Hx.
  - intros z (y & -> & Hy)%list_elem_of_fmap. rewrite Hf by done. by apply Hr.
Qed.

Definition scopes_among self (entries : list ScopeOrDeclId) : list LuaScope :=
  omap (fun entry => match entry with ScopeChild id => get_scope self id | DeclChild _ => None end) entries.

Definition resolved self (entries : list ScopeOrDeclId) : Prop := forall c, ScopeChild c ∈ entries -> is_Some (get_scope self c).

Lemma scopes_among_app self l1 l2 : scopes_among self (l1 ++ l2) = scopes_among self l1 ++ scopes_among self l2.
Proof. apply omap_app. Qed.

Lemma scopes_among_parts self l n : scopes_among self l = scopes_among self (take n l) ++ scopes_among self (drop n l).
Proof. by rewrite <- scopes_among_app, take_drop. Qed.

(** The last scope among resolved entries. *)
Lemma last_scope self entries :
  resolved self entries ->
  match last_child_scope entries with
  | None => scopes_among self entries = []
  | Some c => exists sc, get_scope self c = Some sc /\ last (scopes_among self entries) = Some sc
  end.
Proof.
  induction entries as [|e entries IH] using rev_ind; intros Hres; [done|].
  assert (Hres' : resolved self entries) by (intros c Hc; apply Hres, elem_of_app; by left).
  unfold last_child_scope. rewrite omap_app, scopes_among_app. destruct e as [c|d]; simpl.
  - rewrite last_snoc. destruct (Hres c) as [sc Hc]; [apply elem_of_app; right; by left|]. rewrite Hc. exists sc. by rewrite last_snoc.
  - rewrite !app_nil_r. by apply IH.
Qed.

Lemma apart_starts l1 l2 a b : apart (l1 ++ l2) -> a ∈ l1 -> b ∈ l2 -> (LuaScope.get_position a <= LuaScope.get_position b)%N.
Proof.
  intros [Hs Hr] Ha Hb. apply StronglySorted_app in Hs as (Hx & _). specialize (Hx a b Ha Hb). simpl in Hx.
  assert (Hle := Hr a ltac:(apply elem_of_app; by left)). lia.
Qed.

Lemma apart_last l a b : apart l -> last l = Some b -> a ∈ l -> (LuaScope.get_position a <= LuaScope.get_position b)%N.
Proof.
  intros Hl [l' ->]%last_Some Ha. apply elem_of_app in Ha as [Ha| ->%list_elem_of_singleton]; [|done].
  eapply apart_starts; [exact Hl|done|by left].
Qed.

Lemma search_child_ok self entries position fuel :
  resolved self entries -> apart (scopes_among self entries) ->
  forall lo hi, lo <= hi <= length entries -> hi - lo < fuel ->
  (forall c, c ∈ scopes_among self (take lo entries) -> LuaScope.get_position c <= position)%N ->
  (hi = length entries \/ exists c, c ∈ scopes_among self (take (S hi) entries) /\ (position < LuaScope.get_position c)%N) ->
  exists r, search_child fuel self entries position lo hi = Done (Some r)
    /\ (forall c, c ∈ scopes_among self (take r entries) -> LuaScope.get_position c <= position)%N
    /\ (forall c, c ∈ scopes_among self (drop r entries) -> position < LuaScope.get_position c)%N.
Proof.
  intros Hres Hap. induction fuel as [|fuel IH]; intros lo hi Hlo Hfuel Hbelow Habove; [lia|]. cbn [search_child].
  destruct (Nat.ltb_spec lo hi) as [Hlt|Hge].
  - set (mid := lo + (hi - lo) / 2). assert (Hmid : lo <= mid < hi).
    { unfold mid. assert ((hi - lo) / 2 < hi - lo) by (apply Nat.div_lt; lia). lia. }
    clearbody mid. assert (Htake : take (S mid) entries = take lo entries ++ drop lo (take (S mid) entries)).
    { rewrite <- (take_drop lo (take (S mid) entries)) at 1. f_equal. rewrite take_take. f_equal. lia. }
    assert (Hsub : resolved self (drop lo (take (S mid) entries))).
    { intros c Hc. apply Hres. rewrite <- (take_drop (S mid) entries). apply elem_of_app. left. rewrite Htake. apply elem_of_app. by right. }
    assert (Hall : scopes_among self entries = scopes_among self (take (S mid) entries) ++ scopes_among self (drop (S mid) entries)) by apply scopes_among_parts.
    assert (Hap' : apart (scopes_among self (take (S mid) entries))).
    { destruct Hap as [H1 H2]. rewrite Hall in H1, H2. apply StronglySorted_app in H1 as (_ & H1 & _). split; [done|].
      intros a Ha. apply H2, elem_of_app. by left. }
    assert (Hlast := last_scope self _ Hsub). destruct (last_child_scope _) as [c|].
    + destruct Hlast as (sc & Hc & Hl). rewrite Hc. assert (Hin : sc ∈ scopes_among self (take (S mid) entries)).
      { rewrite Htake, scopes_among_app. apply elem_of_app. right. by eapply last_Some_elem_of. }
      destruct (N.ltb_spec position (LuaScope.get_position sc)) as [Hp|Hp].
      * apply IH; [lia|lia|done|]. right. by exists sc.
      * apply IH; [lia|lia| |done]. intros c' Hc'. etrans; [|exact Hp]. eapply (apart_last (scopes_among self (take (S mid) entries))); [done| |done].
        rewrite Htake, scopes_among_app, last_app, Hl. done.
    + apply IH; [lia|lia| |done]. intros c Hc. rewrite Htake, scopes_among_app, Hlast, app_nil_r in Hc. by apply Hbelow.
  - assert (lo = hi) as <- by lia. exists lo. split_and!; [done|done|]. intros c Hc.
    destruct Habove as [->|(c' & Hc' & Hp)]; [by rewrite drop_all in Hc; apply not_elem_of_nil in Hc|].
    destruct (entries !! lo) as [e|] eqn:He; [|apply lookup_ge_None in He; rewrite drop_ge in Hc by done; by apply not_elem_of_nil in Hc].
    rewrite (take_S_r _ _ e), scopes_among_app in Hc' by done. apply elem_of_app in Hc' as [Hc'|Hc']; [specialize (Hbelow c' Hc'); lia|].
    rewrite (drop_S _ e) in Hc by done. change (e :: drop (S lo) entries) with ([e] ++ drop (S lo) entries) in Hc.
    rewrite scopes_among_app in Hc. apply elem_of_app in Hc as [Hc|Hc].
    + destruct e as [c0|d]; simpl in *; [|by apply not_elem_of_nil in Hc]. destruct (get_scope self c0) as [s0|]; [|by apply not_elem_of_nil in Hc].
      apply list_elem_of_singleton in Hc as ->. by apply list_elem_of_singleton in Hc' as ->.
    + eapply N.lt_le_trans; [exact Hp|]. rewrite (scopes_among_parts self entries (S lo)) in Hap.
      eapply apart_starts; [exact Hap| |exact Hc]. rewrite (take_S_r _ _ e), scopes_among_app by done. apply elem_of_app. by right.
Qed.

Lemma find_child_scope_linear self sc position :
  resolved self (children sc) -> apart (child_scopes self sc) ->
  find_child_scope self sc position = Done (linear_find_child_scope self sc position).
Proof.
  intros Hres Hap. unfold find_child_scope.
  destruct (search_child_ok self (children sc) position (S (length (children sc))) Hres Hap 0 (length (children sc)))
    as (r & -> & Hbelow & Habove); [lia|lia|by intros c ?%not_elem_of_nil|by left|].
  rewrite done_bind. f_equal. unfold linear_find_child_scope, child_scopes. fold (scopes_among self (children sc)).
  rewrite (scopes_among_parts self (children sc) r).
  assert (Hsub : resolved self (take r (children sc))).
  { intros c Hc. apply Hres. rewrite <- (take_drop r (children sc)). apply elem_of_app. by left. }
  assert (Hafter : List.find (fun child => range_contains (scope_range child) position) (scopes_among self (drop r (children sc))) = None).
  { destruct (List.find _ _) as [c|] eqn:Hf; [|done]. apply find_some in Hf as [Hin Hc]. apply list_elem_of_In in Hin.
    specialize (Habove c Hin). unfold range_contains, LuaScope.get_position in *. apply andb_true_iff in Hc as [Hc _]. apply N.leb_le in Hc. lia. }
  assert (Hfind : forall l1 l2 : list LuaScope, List.find (fun child => range_contains (scope_range child) position) l2 = None ->
    List.find (fun child => range_contains (scope_range child) position) (l1 ++ l2) = List.find (fun child => range_contains (scope_range child) position) l1).
  { intros l1 l2 Hn. induction l1 as [|x l1 IH]; [done|]. simpl. by destruct (range_contains _ _). }
  rewrite Hfind by done. assert (Hlast := last_scope self _ Hsub). destruct (last_child_scope _) as [c|]; simpl; [|by rewrite Hlast].
  destruct Hlast as (s & Hc & Hl). rewrite Hc. simpl. apply last_Some in Hl as [l' Hl]. rewrite Hl.
  (* those before the last end before it starts *)
  assert (Hbefore : forall c, c ∈ l' -> range_contains (scope_range c) position = false).
  { intros c' Hc'. unfold child_scopes in Hap. fold (scopes_among self (children sc)) in Hap.
    rewrite (scopes_among_parts self (children sc) r), Hl in Hap. destruct Hap as [Hs _]. apply StronglySorted_app in Hs as (_ & Hs & _).
    apply StronglySorted_app in Hs as (Hx & _). specialize (Hx c' s Hc' ltac:(by left)). simpl in Hx.
    assert (Hle : (LuaScope.get_position s <= position)%N) by (apply Hbelow; rewrite Hl; apply elem_of_app; right; by left).
    unfold range_contains. apply andb_false_iff. right. apply N.ltb_ge. lia. }
  clear -Hbefore. induction l' as [|x l' IH]; simpl; [by destruct (range_contains _ _)|].
  rewrite (Hbefore x) by (by left). apply IH. intros c Hc. apply Hbefore. by right.
Qed.

(** ** The searches are the scan *)

Record tree_ok self : Prop := {
  to_visits : visits_ok self;
  to_shape : tree_shape self;
  to_apart : forall i sc, scopes self !! i = Some sc -> apart (child_scopes self sc);
  to_nested : forall i sc c, scopes self !! i = Some sc -> c ∈ child_scopes self sc ->
    (LuaScope.get_position sc <= LuaScope.get_position c)%N /\ (text_end (scope_range c) <= text_end (scope_range sc))%N
}.

(** The innermost scope of a position, by linear search. *)
Fixpoint innermost (fuel : nat) self (sc : LuaScope) (position : N) : LuaScope :=
  match fuel with
  | 0 => sc
  | S fuel => match linear_find_child_scope self sc position with Some c => innermost fuel self c position | None => sc end
  end.

Definition visible self (position : N) : outcome (list LuaDeclId) :=
  match get_root_scope self with
  | Some root => visible_from (walk_fuel self) self (innermost (length (scopes self)) self root position) position 0
  | None => Done []
  end.

Lemma shape_resolved self i sc : tree_shape self -> scopes self !! i = Some sc -> resolved self (children sc).
Proof.
  intros Hok Hsc c Hc. destruct (ts_child self Hok i sc c Hsc Hc) as (j & csc & -> & _ & Hj & _). exists csc.
  unfold get_scope. simpl. by rewrite Nat2N.id.
Qed.

Lemma elem_of_child_scopes self sc c : c ∈ child_scopes self sc <-> exists id, ScopeChild id ∈ children sc /\ get_scope self id = Some c.
Proof.
  unfold child_scopes. rewrite list_elem_of_omap. split.
  - intros ([id|d] & Hin & Hc); [by exists id|done].
  - intros (id & Hin & Hc). by exists (ScopeChild id).
Qed.

Lemma child_scope_after self i sc c :
  tree_shape self -> scopes self !! i = Some sc -> c ∈ child_scopes self sc -> exists j, i < j /\ scopes self !! j = Some c /\ parent_of self c = Some sc.
Proof.
  intros Hok Hsc (id & Hin & Hc)%elem_of_child_scopes. destruct (ts_child self Hok i sc id Hsc Hin) as (j & csc & -> & Hj & Hcsc & Hp).
  assert (csc = c) as -> by (unfold get_scope in Hc; simpl in Hc; rewrite Nat2N.id in Hc; congruence). exists j. split_and!; [done|done|].
  unfold parent_of. rewrite Hp. simpl. by eapply get_scope_index.
Qed.

Lemma linear_child self sc position c :
  linear_find_child_scope self sc position = Some c -> c ∈ child_scopes self sc /\ range_contains (scope_range c) position = true.
Proof. intros [Hin Hc]%find_some. by apply list_elem_of_In in Hin. Qed.

Lemma find_scope_from_ok self position fuel :
  tree_ok self -> forall i sc, scopes self !! i = Some sc -> length (scopes self) < i + fuel ->
  find_scope_from fuel self sc position = Done (innermost (fuel - 1) self sc position).
Proof.
  intros Hok. induction fuel as [|fuel IH]; intros i sc Hsc Hf; [apply lookup_lt_Some in Hsc; lia|]. cbn [find_scope_from].
  rewrite find_child_scope_linear; [|eapply shape_resolved; [apply Hok|done]|by eapply to_apart]. rewrite done_bind.
  simpl. rewrite Nat.sub_0_r. destruct (linear_find_child_scope self sc position) as [c|] eqn:Hc.
  - apply linear_child in Hc as Hc'. destruct Hc' as [Hc' _]. destruct (child_scope_after self i sc c (to_shape self Hok) Hsc Hc') as (j & Hj & Hcj & _).
    rewrite (IH j) by (done || lia). destruct fuel as [|fuel]; [apply lookup_lt_Some in Hcj; lia|]. simpl. by rewrite Nat.sub_0_r, Hc.
  - destruct fuel; simpl; [done|]. by rewrite Hc.
Qed.

Lemma innermost_in self position fuel : forall i sc,
  tree_ok self -> scopes self !! i = Some sc -> exists j, scopes self !! j = Some (innermost fuel self sc position).
Proof.
  induction fuel as [|fuel IH]; intros i sc Hok Hsc; [by exists i|]. simpl.
  destruct (linear_find_child_scope self sc position) as [c|] eqn:Hc; [|by exists i]. apply linear_child in Hc as [Hc _].
  destruct (child_scope_after self i sc c (to_shape self Hok) Hsc Hc) as (j & _ & Hj & _). by eapply IH.
Qed.

Lemma find_scope_ok self position :
  tree_ok self ->
  find_scope self position = Done ((fun root => innermost (length (scopes self)) self root position) <$> get_root_scope self).
Proof.
  intros Hok. unfold find_scope. destruct (get_root_scope self) as [root|] eqn:Hr; [|done].
  unfold get_root_scope in Hr. rewrite head_lookup in Hr.
  rewrite (find_scope_from_ok self position _ Hok 0 root Hr) by lia. rewrite done_bind. simpl. by rewrite Nat.sub_0_r.
Qed.

Lemma visible_total self position : tree_ok self -> exists l, visible self position = Done l.
Proof.
  intros Hok. unfold visible. destruct (get_root_scope self) as [root|] eqn:Hr; [|by eexists].
  unfold get_root_scope in Hr. rewrite head_lookup in Hr.
  destruct (innermost_in self position (length (scopes self)) 0 root Hok Hr) as [j Hj].
  apply (visible_done self _ (to_shape self Hok) j); [done|]. apply lookup_lt_Some in Hj. unfold walk_fuel. lia.
Qed.

Definition declared self (l : list LuaDeclId) : list LuaDecl := omap (get_decl self) l.

Lemma find_local_scan self name position l :
  tree_ok self -> visible self position = Done l ->
  find_local_decl self name position = Done (List.find (fun d => bool_decide (decl_name d = name)) (declared self l)).
Proof.
  intros Hok Hl. unfold find_local_decl. rewrite find_scope_ok by done. unfold visible in Hl. rewrite done_bind.
  destruct (get_root_scope self) as [root|] eqn:Hr; cbn [fmap option_fmap option_map]; [|by injection Hl as <-].
  unfold get_root_scope in Hr. rewrite head_lookup in Hr.
  erewrite walk_visible; [|done|apply Hok| |by eapply innermost_in|exact Hl].
  - f_equal. clear Hl. induction l as [|d l IH]; [done|]. simpl. destruct (get_decl self d) as [dc|]; simpl; [|done].
    by destruct (bool_decide (decl_name dc = name)).
  - intros n d s [= <-] Hn. unfold named in Hn. apply bool_decide_eq_false in Hn. destruct (get_decl self d) as [dc|]; [|done].
    rewrite bool_decide_false; [done|]. intros He. apply Hn. simpl. by f_equal.
Qed.

Lemma get_env_scan self position l :
  tree_ok self -> visible self position = Done l ->
  get_env_decls self position
  = Done (if bool_decide (scopes self = []) then None
          else Some (LuaDecl.get_id <$> filter (fun d => LuaDecl.is_implicit_self d = false) (declared self l))).
Proof.
  intros Hok Hl. unfold get_env_decls. rewrite find_scope_ok by done. unfold visible in Hl. rewrite done_bind.
  destruct (scopes self) as [|root rest] eqn:Hs; [unfold get_root_scope; by rewrite Hs|].
  assert (Hr : get_root_scope self = Some root) by (unfold get_root_scope; by rewrite Hs). rewrite Hr in *. cbn [fmap option_fmap option_map]. rewrite bool_decide_false by done. change (length (root :: rest)) with (length (root :: rest)).
  rewrite <- Hs in *.
  assert (Hr0 : scopes self !! 0 = Some root) by by rewrite Hs.
  erewrite walk_visible; [|done|apply Hok|done|by eapply innermost_in|exact Hl].
  rewrite done_bind. do 2 f_equal. clear Hl.
  assert (Hg : forall acc, (visit_decls (fun child result => (false, match child with
      | ScopeChild _ => result
      | DeclChild id => match get_decl self id with
                        | Some d => if LuaDecl.is_implicit_self d then result else result ++ [LuaDecl.get_id d]
                        | None => result end end)) l acc).2
    = acc ++ (LuaDecl.get_id <$> filter (fun d => LuaDecl.is_implicit_self d = false) (declared self l))); [|apply (Hg [])].
  induction l as [|d l IH]; intros acc; [simpl; by rewrite app_nil_r|]. simpl. destruct (get_decl self d) as [dc|]; simpl; [|apply IH].
  rewrite IH, filter_cons. destruct (LuaDecl.is_implicit_self dc); [by rewrite decide_False|]. rewrite decide_True by done.
  by rewrite fmap_cons, <- app_assoc.
Qed.

(** ** What is visible *)

(** The scope is the file's or holds the position. *)
Definition around self (position : N) (sc : LuaScope) : Prop :=
  get_root_scope self = Some sc \/ range_contains (scope_range sc) position = true.

(** The scope is the body of a [repeat] around the position: its declarations are
    seen from the condition too. *)
Definition body_around self (position : N) (sc : LuaScope) : Prop :=
  exists r, parent_of self sc = Some r /\ scope_kind r = Repeat /\ around self position r
    /\ head (children r) = Some (ScopeChild (scope_id sc)).

(** What is made in the scope can be seen from the position. *)
Definition seen_from self (position : N) (sc : LuaScope) : Prop := around self position sc \/ body_around self position sc.

(** The position is in a child of the scope: in the body of a [for], say, and not in
    its header. *)
Definition within_child self (position : N) (sc : LuaScope) : Prop :=
  exists c, c ∈ child_scopes self sc /\ range_contains (scope_range c) position = true.

(** A declaration is in scope: it was made before the position in a scope that is
    seen from it, not counting the statement that is still making it, and, for the
    variables of a [for], only from the body; or by a statement that is over and
    itself stands in a scope that is seen from the position; or by the function
    statement around the position. *)
Definition in_scope self (position : N) (d : LuaDeclId) : Prop :=
  exists i sc, scopes self !! i = Some sc /\ DeclChild d ∈ children sc /\
    ((seen_from self position sc /\ scope_kind sc <> LocalOrAssignStat /\ (scope_kind sc = ForRange -> within_child self position sc)
        /\ (decl_position d < position)%N)
     \/ (holds_decls_for_parent (scope_kind sc) = true /\ (text_end (scope_range sc) <= position)%N
         /\ exists p, parent_of self sc = Some p /\ seen_from self position p)
     \/ (around self position sc /\ (scope_kind sc = FuncStat \/ scope_kind sc = MethodStat))).

(** The statements that make declarations and hold the position start no
    earlier than where the scan begins. *)
Definition begins self (position start_pos : N) (sc : LuaScope) : Prop :=
  (start_pos <= position)%N
  /\ forall c, c ∈ child_scopes self sc -> scope_kind c = LocalOrAssignStat -> range_contains (scope_range c) position = true ->
     (start_pos <= LuaScope.get_position c)%N.

Lemma scan_sees self position start_pos i sc d :
  tree_ok self -> scopes self !! i = Some sc -> seen_from self position sc -> begins self position start_pos sc ->
  d ∈ flat_map (decls_over self) (scan self sc start_pos) ->
  (DeclChild d ∈ children sc /\ (decl_position d < position)%N) \/ in_scope self position d.
Proof.
  intros Hok Hsc Hseen [Hst Hbeg] Hd. apply list_elem_of_In, in_flat_map in Hd as (e & He & Hd). apply list_elem_of_In in He, Hd.
  unfold scan in He. rewrite elem_of_reverse, list_elem_of_filter, sort_by_perm in He. destruct He as [Hb He]. unfold before in Hb.
  apply elem_of_direct_visits in He as (k & ch & Hch & He). apply list_elem_of_lookup_2 in Hch. unfold direct_visit in He. simpl in He.
  destruct ch as [c|d'].
  - destruct (get_scope self c) as [csc|] eqn:Hc; simpl in He; [|done]. destruct (holds_decls_for_parent (scope_kind csc)) eqn:Hh; [|done].
    simpl in He. destruct (negb _); [|done]. injection He as <-. unfold decls_over in Hd. simpl in Hd, Hb. rewrite Hc, Hh in Hd. right.
    assert (Hcs : csc ∈ child_scopes self sc) by (apply elem_of_child_scopes; by exists c).
    destruct (child_scope_after self i sc csc (to_shape self Hok) Hsc Hcs) as (j & _ & Hj & Hpar). exists j, csc. split; [done|]. split.
    { unfold decl_children in Hd. apply list_elem_of_omap in Hd as ([|d'] & Hin & He); [done|]. by injection He as ->. }
    destruct (range_contains (scope_range csc) position) eqn:Hcon.
    + right; right. split; [by right|]. destruct (scope_kind csc) eqn:Hk; try done; [|by left|by right].
      specialize (Hbeg csc Hcs Hk Hcon). lia.
    + right; left. split; [done|]. split; [|by exists sc]. unfold range_contains in Hcon. apply andb_false_iff in Hcon as [Hcon|Hcon].
      * apply N.leb_gt in Hcon. unfold LuaScope.get_position in Hb. lia.
      * by apply N.ltb_ge.
  - injection He as <-. unfold decls_over in Hd. simpl in Hd, Hb. apply list_elem_of_singleton in Hd as ->. left. split; [done|lia].
Qed.

Lemma apart_holds_one l position a b :
  apart l -> a ∈ l -> b ∈ l -> range_contains (scope_range a) position = true -> range_contains (scope_range b) position = true -> a = b.
Proof.
  unfold range_contains, LuaScope.get_position. intros [Hs _] Ha Hb Hca Hcb. apply andb_true_iff in Hca as [Ha1 Ha2], Hcb as [Hb1 Hb2].
  apply N.leb_le in Ha1, Hb1. apply N.ltb_lt in Ha2, Hb2.
  assert (Hord : forall x y l1 l2, l = l1 ++ l2 -> x ∈ l1 -> y ∈ l2 -> (text_end (scope_range x) <= text_start (scope_range y))%N).
  { intros x y l1 l2 -> Hx Hy. apply StronglySorted_app in Hs as (Hx' & _). by apply Hx'. }
  apply list_elem_of_lookup in Ha as [i Hi], Hb as [j Hj].
  destruct (Nat.lt_trichotomy i j) as [Hlt|[<-|Hlt]]; [exfalso|congruence|exfalso].
  - assert (text_end (scope_range a) <= text_start (scope_range b))%N; [|lia].
    apply (Hord _ _ (take j l) (drop j l)); [by rewrite take_drop| |].
    + apply (list_elem_of_lookup_2 _ i). by rewrite lookup_take_lt.
    + apply (list_elem_of_lookup_2 _ 0). by rewrite lookup_drop, Nat.add_0_r.
  - assert (text_end (scope_range b) <= text_start (scope_range a))%N; [|lia].
    apply (Hord _ _ (take i l) (drop i l)); [by rewrite take_drop| |].
    + apply (list_elem_of_lookup_2 _ j). by rewrite lookup_take_lt.
    + apply (list_elem_of_lookup_2 _ 0). by rewrite lookup_drop, Nat.add_0_r.
Qed.

Lemma parent_holds self i sc p :
  tree_shape self -> scopes self !! i = Some sc -> parent_of self sc = Some p -> sc ∈ child_scopes self p.
Proof.
  intros Hok Hsc (id & Hp & Hg)%bind_Some. destruct (ts_parent self Hok i sc id Hsc Hp) as (j & psc & -> & Hj & Hpsc & Hin).
  assert (psc = p) as -> by (unfold get_scope in Hg; simpl in Hg; rewrite Nat2N.id in Hg; congruence).
  apply elem_of_child_scopes. exists (scope_id sc). split; [done|by eapply get_scope_index].
Qed.

(** From a scope around the position to its parent. *)
Lemma up_from self position start_pos i sc p :
  tree_ok self -> scopes self !! i = Some sc -> parent_of self sc = Some p -> around self position sc -> begins self position start_pos sc ->
  around self position p
  /\ begins self position (if decide (scope_kind sc = LocalOrAssignStat) then LuaScope.get_position sc else start_pos) p
  /\ (scope_kind p = Repeat -> scope_kind sc = Normal) /\ within_child self position p.
Proof.
  intros Hok Hsc Hp Har [Hst Hb]. assert (Hin := parent_holds self i sc p (to_shape self Hok) Hsc Hp).
  destruct (parent_of_before self i sc p (to_shape self Hok) Hsc Hp) as (j & Hj & Hpj).
  assert (Hcon : range_contains (scope_range sc) position = true).
  { destruct Har as [Hr|]; [|done]. exfalso. unfold get_root_scope in Hr. rewrite head_lookup in Hr.
    assert (Hids := ts_ids self (to_shape self Hok)). assert (H0 := Hids 0 sc Hr). rewrite (Hids i sc Hsc) in H0. injection H0. lia. }
  destruct (to_nested self Hok j p sc Hpj Hin) as [Hn1 Hn2]. unfold range_contains in Hcon. apply andb_true_iff in Hcon as [Hc1 Hc2].
  apply N.leb_le in Hc1. apply N.ltb_lt in Hc2. unfold LuaScope.get_position in *.
  assert (Hcon : range_contains (scope_range sc) position = true) by (unfold range_contains; rewrite andb_true_iff, N.leb_le, N.ltb_lt; lia).
  split_and!.
  - right. unfold range_contains. rewrite andb_true_iff, N.leb_le, N.ltb_lt. lia.
  - split; [case_decide; unfold LuaScope.get_position; lia|]. intros c Hc Hk Hcc.
    assert (c = sc) as -> by (eapply apart_holds_one; [by eapply to_apart|done|done|done|done]). rewrite decide_True by done. done.
  - intros Hk. apply elem_of_child_scopes in Hin as (id & Hin & Hg). by eapply (ts_body self (to_shape self Hok)).
  - by exists sc.
Qed.

Lemma visible_from_sees self position fuel :
  tree_ok self -> forall i sc start_pos level l, scopes self !! i = Some sc -> around self position sc -> begins self position start_pos sc ->
  (level = 0 -> scope_kind sc = Repeat -> forall c, c ∈ child_scopes self sc -> range_contains (scope_range c) position = false) ->
  (level <> 0 -> scope_kind sc = ForRange -> within_child self position sc) ->
  visible_from fuel self sc start_pos level = Done l -> forall d, d ∈ l -> in_scope self position d.
Proof.
  intros Hok. induction fuel as [fuel IH] using lt_wf_ind. intros i sc start_pos level l Hsc Har Hb Hrep Hfor Hl d Hd.
  destruct fuel as [|fuel]; [done|].
  assert (Hover : forall lv l', scope_kind sc <> LocalOrAssignStat -> (lv = 0 -> scope_kind sc <> Normal) ->
    match parent_of self sc with Some parent => visible_from fuel self parent start_pos lv | None => Done [] end = Done l' ->
    forall d, d ∈ l' -> in_scope self position d).
  { intros lv l' Hk Hlv Hl' d' Hd'. destruct (parent_of self sc) as [p|] eqn:Hp; [|injection Hl' as <-; by apply not_elem_of_nil in Hd'].
    destruct (up_from self position start_pos i sc p Hok Hsc Hp Har Hb) as (H1 & H2 & H3 & H4). rewrite decide_False in H2 by done.
    destruct (parent_of_before self i sc p (to_shape self Hok) Hsc Hp) as (j & _ & Hj).
    eapply (IH fuel ltac:(lia) j p); [done|done|done| |done|exact Hl'|done]. intros Hlv0 Hr. by destruct (Hlv Hlv0), (H3 Hr). }
  assert (Hhere : forall l', scope_kind sc <> LocalOrAssignStat -> (scope_kind sc = ForRange -> within_child self position sc) ->
    (rest ← match parent_of self sc with Some parent => visible_from fuel self parent start_pos (S level) | None => Done [] end;
     Done (flat_map (decls_over self) (scan self sc start_pos) ++ rest)) = Done l' -> forall d, d ∈ l' -> in_scope self position d).
  { intros l' Hk Hw Hl' d' Hd'. destruct (match parent_of self sc with Some _ => _ | None => _ end) as [rest| |] eqn:Hr; try done.
    rewrite done_bind in Hl'. injection Hl' as <-. apply elem_of_app in Hd' as [Hd'|Hd'].
    - destruct (scan_sees self position start_pos i sc d' Hok Hsc (or_introl Har) Hb Hd') as [[Hin Hp]|]; [|done]. exists i, sc.
      split; [done|]. split; [done|]. left. split_and!; [by left|done|done|done].
    - eapply (Hover (S level)); [done|by intros|exact Hr|done]. }
  cbn [visible_from] in Hl. destruct (scope_kind sc) eqn:Hkind; try by (eapply Hhere; [| |exact Hl|]).
  - destruct level as [|level]; [|by eapply Hhere]. destruct (head (children sc)) as [[c|d0]|] eqn:Hh; try by (eapply Hhere; [| |exact Hl|]).
    destruct (get_scope self c) as [body|] eqn:Hbody; [|injection Hl as <-; by apply not_elem_of_nil in Hd].
    specialize (Hrep eq_refl eq_refl). assert (Hin : ScopeChild c ∈ children sc) by (destruct (children sc); [done|]; injection Hh as ->; by left).
    assert (Hcs : body ∈ child_scopes self sc) by (apply elem_of_child_scopes; by exists c).
    destruct (child_scope_after self i sc body (to_shape self Hok) Hsc Hcs) as (j & Hj & Hbj & Hpar).
    assert (Hn := ts_body self (to_shape self Hok) i sc c body Hsc Hkind Hin Hbody).
    destruct fuel as [|fuel]; [done|]. cbn [visible_from] in Hl. rewrite Hn, Hpar in Hl.
    destruct (visible_from fuel self sc start_pos 1) as [rest| |] eqn:Hr; try done. rewrite done_bind in Hl. injection Hl as <-.
    assert (Hbb : begins self position start_pos body).
    { split; [apply Hb|]. intros c' Hc' _ Hcc. exfalso. destruct (to_nested self Hok j body c' Hbj Hc') as [Hn1 Hn2].
      specialize (Hrep body Hcs). unfold range_contains, LuaScope.get_position in *. apply andb_true_iff in Hcc as [Hc1 Hc2].
      apply N.leb_le in Hc1. apply N.ltb_lt in Hc2. apply andb_false_iff in Hrep as [Hx|Hx]; [apply N.leb_gt in Hx|apply N.ltb_ge in Hx]; lia. }
    apply elem_of_app in Hd as [Hd|Hd].
    + assert (Hbody_id : head (children sc) = Some (ScopeChild (scope_id body))).
      { rewrite Hh. do 2 f_equal. assert (Hid := ts_child self (to_shape self Hok) i sc c Hsc Hin).
        destruct Hid as (j' & csc & -> & _ & Hj' & _). unfold get_scope in Hbody. simpl in Hbody.
        rewrite Nat2N.id in Hbody. by rewrite (ts_ids self (to_shape self Hok) j' body). }
      assert (Hseen : seen_from self position body) by (right; by exists sc).
      destruct (scan_sees self position start_pos j body d Hok Hbj Hseen Hbb Hd) as [[Hdin Hp]|]; [|done]. exists j, body.
      split; [done|]. split; [done|]. left. rewrite Hn. by split_and!.
    + by eapply (IH fuel ltac:(lia) i sc start_pos 1); [| | | |congruence|exact Hr|].
  - destruct (parent_of self sc) as [p|] eqn:Hp; [|injection Hl as <-; by apply not_elem_of_nil in Hd].
    destruct (up_from self position start_pos i sc p Hok Hsc Hp Har Hb) as (H1 & H2 & H3 & H4). rewrite decide_True in H2 by done.
    destruct (parent_of_before self i sc p (to_shape self Hok) Hsc Hp) as (j & _ & Hj).
    eapply (IH fuel ltac:(lia) j p); [done|done|exact H2| |done|exact Hl|done]. intros _ Hr. specialize (H3 Hr). congruence.
  - destruct (Nat.eqb_spec level 0) as [_|Hlv]; [|eapply Hhere; [done|intros _; by apply Hfor|exact Hl|done]]. by eapply Hover; [| |exact Hl|].
Qed.

Lemma innermost_last self position fuel : tree_ok self -> forall i sc, scopes self !! i = Some sc -> length (scopes self) <= i + fuel ->
  linear_find_child_scope self (innermost fuel self sc position) position = None.
Proof.
  intros Hok. induction fuel as [|fuel IH]; intros i sc Hsc Hf; [apply lookup_lt_Some in Hsc; lia|]. simpl.
  destruct (linear_find_child_scope self sc position) as [c|] eqn:Hc; [|done]. apply linear_child in Hc as [Hc _].
  destruct (child_scope_after self i sc c (to_shape self Hok) Hsc Hc) as (j & Hj & Hcj & _). apply (IH j); [done|lia].
Qed.

Lemma innermost_around self position fuel root sc :
  get_root_scope self = Some root -> around self position sc -> around self position (innermost fuel self sc position).
Proof.
  intros Hr. revert sc. induction fuel as [|fuel IH]; intros sc Ha; [done|]. simpl.
  destruct (linear_find_child_scope self sc position) as [c|] eqn:Hc; [|done]. apply linear_child in Hc as [_ Hc]. apply IH. by right.
Qed.

Lemma visible_sees self position l : tree_ok self -> visible self position = Done l -> forall d, d ∈ l -> in_scope self position d.
Proof.
  intros Hok Hl d Hd. unfold visible in Hl. destruct (get_root_scope self) as [root|] eqn:Hr; [|injection Hl as <-; by apply not_elem_of_nil in Hd].
  assert (Hr0 := Hr). unfold get_root_scope in Hr0. rewrite head_lookup in Hr0.
  destruct (innermost_in self position (length (scopes self)) 0 root Hok Hr0) as [j Hj].
  assert (Hnone : forall c, c ∈ child_scopes self (innermost (length (scopes self)) self root position) -> range_contains (scope_range c) position = false).
  { intros c Hc. assert (Hn := innermost_last self position (length (scopes self)) Hok 0 root Hr0 ltac:(lia)). unfold linear_find_child_scope in Hn.
    eapply find_none in Hn; [exact Hn|]. by apply list_elem_of_In. }
  eapply visible_from_sees; [done|exact Hj| | |by intros _ _|done|exact Hl|done].
  - eapply innermost_around; [done|by left].
  - split; [done|]. intros c Hc _ Hcc. by rewrite Hnone in Hcc.
Qed.
End Tree.
