(* ===== verification/DeclWalkProofs.v ===== *)
(** * The walk builds a sound declaration tree

    Opening a scope, closing it and declaring in it, in the order of the text,
    keep the tree as [DeclTreeProofs] asks. *)

From S2P Require Import Prelude Kinds Text LineIndex LineIndexProofs FileOrder Dependency EditMap EditRemap Derivation Readers ReadersProofs KeyTable KeyTableProofs FactKey DeclTree DeclWalk DeclTreeProofs.
From stdpp Require Import list gmap sorting.
Local Open Scope prog_scope.

Section Build.
Context {LuaType VarRefId : Type}.
Notation Tree := (LuaDeclarationTree LuaType VarRefId).
Implicit Types self : Tree.
Import LuaDeclarationTree.

(** ** The visit sets after a child is filed *)

Definition file_under self (name : rstring) (under : LuaScopeId) (key : ChildKey) (child : InterestingChild) : Tree :=
  let self := with_interesting self (insert_interesting_child (interesting_children self) under key child) in
  with_named self (insert_named_interesting_child (interesting_children_by_name self) under name key child).

Lemma file_under_visits self nm under key child q id :
  visits_of (file_under self nm under key child) q id
  = if decide (id = under /\ (q = None \/ q = Some nm)) then file_child (visits_of self q id) key child else visits_of self q id.
Proof.
  unfold visits_of, file_under, insert_interesting_child, insert_named_interesting_child. destruct q as [n|]; simpl.
  - destruct (decide (id = under)) as [->|Hne]; [|by rewrite lookup_insert_ne, decide_False by naive_solver].
    rewrite lookup_insert_eq. simpl. destruct (decide (n = nm)) as [->|Hn].
    + rewrite lookup_insert_eq, decide_True by naive_solver. simpl. by destruct (interesting_children_by_name self !! under).
    + rewrite lookup_insert_ne, decide_False by naive_solver. destruct (interesting_children_by_name self !! under); [done|]. simpl. by rewrite lookup_empty.
  - destruct (decide (id = under)) as [->|Hne].
    + by rewrite lookup_insert_eq, decide_True by naive_solver.
    + by rewrite lookup_insert_ne, decide_False by naive_solver.
Qed.

(** ** The invariant of the walk *)

Definition room self : Prop :=
  (N.of_nat (length (scopes self)) < 2 ^ 32)%N /\ forall i sc, scopes self !! i = Some sc -> (N.of_nat (length (children sc)) < 2 ^ 32)%N.

Record walk_ok self (stack : list LuaScopeId) : Prop := {
  wo_tree : tree_ok self;
  wo_declared : forall i sc d, scopes self !! i = Some sc -> DeclChild d ∈ children sc -> is_Some (get_decl self d);
  wo_index : forall i sc k c, scopes self !! i = Some sc -> children sc !! k = Some (ScopeChild c) -> child_index self c = N.of_nat k;
  wo_lengths : length (scope_child_index self) = length (scopes self);
  wo_fresh : forall q i, length (scopes self) <= i -> visits_of self q (mkScopeId (file_id self) (N.of_nat i)) = [];
  wo_stack : forall id, id ∈ stack -> exists i, id = mkScopeId (file_id self) (N.of_nat i) /\ i < length (scopes self)
}.

(** ** Declaring *)

Lemma touched_visits self facts q id : visits_of (touched self facts) q id = visits_of self q id.
Proof. by destruct q. Qed.

Lemma add_decl_ok self stack d :
  walk_ok self stack -> (forall d', get_decl self (LuaDecl.get_id d) = Some d' -> decl_name d' = decl_name d) ->
  walk_ok (add_decl self d).2 stack /\ get_decl (add_decl self d).2 (add_decl self d).1 = Some d
  /\ scopes (add_decl self d).2 = scopes self /\ file_id (add_decl self d).2 = file_id self.
Proof.
  intros [Htree Hdecl Hidx Hlen Hfresh Hstack] Hname. set (self' := (add_decl self d).2).
  assert (Hsc : scopes self' = scopes self) by done. assert (Hf : file_id self' = file_id self) by done.
  assert (Hget : forall id, get_scope self' id = get_scope self id) by done.
  assert (Hv : forall q id, visits_of self' q id = visits_of self q id) by (by intros []).
  assert (Hgd : forall id, is_Some (get_decl self id) -> decl_name <$> get_decl self' id = decl_name <$> get_decl self id).
  { intros id [d' Hd']. unfold get_decl, self', add_decl. simpl. destruct (decide (id = LuaDecl.get_id d)) as [->|Hne].
    - rewrite lookup_insert_eq. unfold get_decl in Hd', Hname. rewrite Hd'. simpl. f_equal. symmetry. by apply Hname.
    - by rewrite lookup_insert_ne. }
  assert (Hnew : get_decl self' (LuaDecl.get_id d) = Some d) by (unfold get_decl, self', add_decl; simpl; by rewrite lookup_insert_eq).
  assert (Hsome : forall id, is_Some (get_decl self id) -> is_Some (get_decl self' id)).
  { intros id Hid. apply Hgd in Hid as He. destruct Hid as [d' Hd']. rewrite Hd' in He. destruct (get_decl self' id); [by eexists|done]. }
  assert (Hdv : forall sc, direct_visits self' sc = direct_visits self sc) by done.
  assert (Hwants : forall i sc n e, scopes self !! i = Some sc -> e ∈ direct_visits self sc -> wants self' (Some n) e.2 = wants self (Some n) e.2).
  { intros i sc n e Hi He. apply elem_of_direct_visits in He as (k & ch & Hch & He). apply list_elem_of_lookup_2 in Hch.
    unfold direct_visit in He. simpl in He. destruct ch as [c|d'].
    - destruct (get_scope self c) as [csc|] eqn:Hc; simpl in He; [|done]. destruct (_ && _); [|done]. injection He as <-. simpl. rewrite Hget, Hc.
      destruct (get_scope_at self c csc Hc) as [j Hj].
      assert (Hfiled : forall x, x ∈ decl_children csc -> is_Some (get_decl self x)).
      { intros x Hx. unfold decl_children in Hx. apply list_elem_of_omap in Hx as ([|y] & Hin & Hy); [done|]. injection Hy as <-. by eapply Hdecl. }
      apply Bool.eq_iff_eq_true. rewrite !existsb_exists. unfold named. split; intros (x & Hx & Hn); exists x; (split; [done|]);
        apply list_elem_of_In in Hx; [rewrite <- Hgd by by apply Hfiled|rewrite Hgd by by apply Hfiled]; done.
    - injection He as <-. simpl. unfold named. by rewrite Hgd by by eapply Hdecl. }
  split; [|done]. split.
  - destruct Htree as [[Va Vn] Hshape Hap Hne]. split; [split| | |].
    + intros i sc Hi. rewrite Hv, Hdv. by apply (Va i).
    + intros i sc n Hi. rewrite Hv, Hdv. destruct (Vn i sc n Hi) as [H1 H2]. split; [done|]. intros e. rewrite H2.
      split; intros [He Hw]; (split; [done|]); by erewrite Hwants in * by done || by erewrite <- Hwants by done.
    + by destruct Hshape.
    + done.
    + done.
  - intros i sc x Hi Hx. by eapply Hsome, Hdecl.
  - done.
  - done.
  - intros q i Hi. by rewrite Hv, <- (Hfresh q i).
  - done.
Qed.

(** A declaration is filed in a scope, and the scope under its parent. *)
Definition declared_tree self (i : nat) (sc : LuaScope) (d : LuaDeclId) (nm : rstring) : Tree :=
  let t := with_scopes (touched self [FactKey.DeclTree (file_id self)]) (<[i := LuaScope.add_decl sc d]> (scopes self)) in
  let t := file_under t nm (scope_id sc) (decl_position d, as_u32 (length (children sc))) (InterestingDecl d) in
  match scope_parent sc with
  | Some p =>
      if holds_decls_for_parent (scope_kind sc)
      then file_under t nm p (LuaScope.get_position sc, child_index self (scope_id sc)) (InterestingScope (scope_id sc)) else t
  | None => t
  end.

Lemma add_decl_to_scope_eq self i sc d dc :
  tree_shape self -> scopes self !! i = Some sc -> get_decl self d = Some dc ->
  add_decl_to_scope self (scope_id sc) d = declared_tree self i sc d (decl_name dc).
Proof.
  intros Hok Hsc Hd. assert (Hid := ts_ids self Hok i sc Hsc). unfold add_decl_to_scope, declared_tree.
  assert (Hg : get_scope (touched self [FactKey.DeclTree (file_id self)]) (scope_id sc) = Some sc) by (apply (get_scope_index self i); done).
  assert (Hg' : get_decl (touched self [FactKey.DeclTree (file_id self)]) d = Some dc) by done.
  rewrite Hg, Hg'. cbn [fmap option_fmap option_map]. cbv zeta. rewrite Hid. cbn [scope_id_]. rewrite Nat2N.id.
  destruct (scope_parent sc); [|done]. by destruct (holds_decls_for_parent _).
Qed.

Section Declared.
Context self (stack : list LuaScopeId) (i : nat) (sc : LuaScope) (d : LuaDeclId) (dc : LuaDecl).
Context (Hok : walk_ok self stack) (Hsc : scopes self !! i = Some sc) (Hd : get_decl self d = Some dc) (Hroom : room self).
Let sc' : LuaScope := LuaScope.add_decl sc d.
Let nm : rstring := decl_name dc.
Let t : Tree := declared_tree self i sc d nm.

Lemma declared_frame :
  scopes t = <[i := sc']> (scopes self) /\ file_id t = file_id self /\ scope_child_index t = scope_child_index self
  /\ forall x, get_decl t x = get_decl self x.
Proof. unfold t, declared_tree. destruct (scope_parent sc); [|done]. by destruct (holds_decls_for_parent _). Qed.

Lemma declared_get id : get_scope t id = if decide (N.to_nat (scope_id_ id) = i) then Some sc' else get_scope self id.
Proof.
  unfold get_scope. rewrite (proj1 declared_frame). destruct (decide _) as [->|Hne].
  - rewrite list_lookup_insert_eq; [done|]. by eapply lookup_lt_Some.
  - by rewrite list_lookup_insert_ne.
Qed.

(** Which scope a scope of the new tree was. *)
Definition was (x : LuaScope) : LuaScope := if decide (scope_id x = scope_id sc) then sc' else x.

Lemma declared_at j x' :
  scopes t !! j = Some x' -> exists x, scopes self !! j = Some x /\ x' = was x.
Proof.
  rewrite (proj1 declared_frame). intros Hx. assert (Hids := ts_ids self (to_shape self (wo_tree self stack Hok))). unfold was.
  destruct (decide (j = i)) as [->|Hne].
  - rewrite list_lookup_insert_eq in Hx by (by eapply lookup_lt_Some). injection Hx as <-. exists sc. by rewrite decide_True.
  - rewrite list_lookup_insert_ne in Hx by done. exists x'. split; [done|]. rewrite decide_False; [done|].
    rewrite (Hids j x' Hx), (Hids i sc Hsc). intros [= He]. by apply Hne, Nat2N.inj.
Qed.

Lemma declared_from j x : scopes self !! j = Some x -> scopes t !! j = Some (was x).
Proof.
  intros Hx. assert (Hids := ts_ids self (to_shape self (wo_tree self stack Hok))). rewrite (proj1 declared_frame). unfold was.
  destruct (decide (j = i)) as [->|Hne].
  - rewrite list_lookup_insert_eq by (by eapply lookup_lt_Some). rewrite decide_True; [done|congruence].
  - rewrite list_lookup_insert_ne by done. rewrite decide_False; [done|].
    rewrite (Hids j x Hx), (Hids i sc Hsc). intros [= He]. by apply Hne, Nat2N.inj.
Qed.

Lemma was_frame x :
  scope_id (was x) = scope_id x /\ (scope_id x = scope_id sc -> x = sc) -> scope_parent (was x) = scope_parent x
  /\ scope_range (was x) = scope_range x /\ scope_kind (was x) = scope_kind x
  /\ (forall c, ScopeChild c ∈ children (was x) <-> ScopeChild c ∈ children x)
  /\ (forall c, DeclChild c ∈ children (was x) <-> DeclChild c ∈ children x \/ (x = sc /\ c = d)).
Proof.
  intros [_ Hx]. unfold was. destruct (decide _) as [He|Hne].
  - specialize (Hx He) as ->. unfold sc'. simpl. split_and!; try done; intros c; rewrite elem_of_app, list_elem_of_singleton.
    + split; [|tauto]. intros [|[=]]; done.
    + split; [intros [|[= ->]]; tauto|intros [|[_ ->]]; tauto].
  - split_and!; try done. intros c. split; [tauto|]. intros [|[-> _]]; done.
Qed.

Lemma was_of j x : scopes self !! j = Some x ->
  scope_id (was x) = scope_id x /\ scope_parent (was x) = scope_parent x
  /\ scope_range (was x) = scope_range x /\ scope_kind (was x) = scope_kind x
  /\ (forall c, ScopeChild c ∈ children (was x) <-> ScopeChild c ∈ children x)
  /\ (forall c, DeclChild c ∈ children (was x) <-> DeclChild c ∈ children x \/ (j = i /\ c = d)).
Proof.
  intros Hx. assert (Hids := ts_ids self (to_shape self (wo_tree self stack Hok))).
  assert (Hidx : scope_id x = scope_id sc -> x = sc).
  { rewrite (Hids j x Hx), (Hids i sc Hsc). intros [= He%Nat2N.inj]. congruence. }
  assert (Hid : scope_id (was x) = scope_id x) by (unfold was; by destruct (decide _)).
  destruct (was_frame x (conj Hid Hidx)) as (H1 & H2 & H3 & H4 & H5). split_and!; try done.
  intros c. rewrite H5. split; (intros [|[Hx' ->]]; [by left|right]); [|subst j; split; [congruence|done]].
  split; [|done]. subst x. apply (Nat2N.inj j i). assert (H0 := Hids j sc Hx). rewrite (Hids i sc Hsc) in H0. by injection H0.
Qed.

Lemma declared_shape : tree_shape t.
Proof.
  destruct (wo_tree self stack Hok) as [_ Hs _ _]. destruct declared_frame as (_ & Hf & _ & _). split.
  - intros j x' (x & Hx & ->)%declared_at. destruct (was_of j x Hx) as (-> & _). rewrite Hf. by apply ts_ids.
  - intros j x' p (x & Hx & ->)%declared_at. destruct (was_of j x Hx) as (-> & -> & _). intros Hp.
    destruct (ts_parent self Hs j x p Hx Hp) as (k & psc & -> & Hk & Hpsc & Hin). exists k, (was psc). rewrite Hf.
    split_and!; [done|done|by apply declared_from|]. by apply (was_of k psc Hpsc).
  - intros j x' c (x & Hx & ->)%declared_at. destruct (was_of j x Hx) as (-> & _ & _ & _ & Hc & _). rewrite Hc. intros Hin.
    destruct (ts_child self Hs j x c Hx Hin) as (k & csc & -> & Hk & Hcsc & Hp). exists k, (was csc). rewrite Hf.
    split_and!; [done|done|by apply declared_from|]. destruct (was_of k csc Hcsc) as (_ & -> & _). done.
  - intros j x' c csc' (x & Hx & ->)%declared_at. destruct (was_of j x Hx) as (_ & _ & _ & -> & Hc & _). rewrite Hc. intros Hk Hin Hg.
    destruct (get_scope_at t c csc' Hg) as [k (csc & Hcsc & ->)%declared_at]. destruct (was_of k csc Hcsc) as (_ & _ & _ & -> & _).
    destruct (ts_child self Hs j x c Hx Hin) as (k' & csc2 & -> & _ & Hcsc2 & _).
    assert (Hg2 : get_scope t (mkScopeId (file_id self) (N.of_nat k')) = Some (was csc2)).
    { unfold get_scope. simpl. rewrite Nat2N.id. by apply declared_from. }
    assert (Hgs : get_scope self (mkScopeId (file_id self) (N.of_nat k')) = Some csc2) by (unfold get_scope; simpl; by rewrite Nat2N.id).
    assert (Hw : was csc = was csc2) by congruence.
    assert (Hkk : scope_kind csc = scope_kind csc2).
    { destruct (was_of k csc Hcsc) as (_ & _ & _ & <- & _), (was_of k' csc2 Hcsc2) as (_ & _ & _ & <- & _). by rewrite Hw. }
    rewrite Hkk. by eapply (ts_body self Hs j x).
Qed.

Lemma declared_get_was id : get_scope t id = was <$> get_scope self id.
Proof.
  unfold get_scope. destruct (scopes self !! N.to_nat (scope_id_ id)) as [y|] eqn:Hy; simpl.
  - by apply declared_from.
  - apply lookup_ge_None in Hy. apply lookup_ge_None. rewrite (proj1 declared_frame). by rewrite length_insert.
Qed.

Lemma declared_child_scopes j x : scopes self !! j = Some x -> child_scopes t (was x) = was <$> child_scopes self x.
Proof.
  intros Hx. assert (Hb : forall l, omap (fun entry => match entry with ScopeChild id => get_scope t id | DeclChild _ => None end) l
    = was <$> (omap (fun entry => match entry with ScopeChild id => get_scope self id | DeclChild _ => None end) l : list LuaScope)).
  { induction l as [|[id|d'] l IH]; simpl; [done| |exact IH]. rewrite declared_get_was. destruct (get_scope self id); simpl; [by f_equal|exact IH]. }
  unfold child_scopes. rewrite <- Hb. unfold was. destruct (decide _) as [He|]; [|done].
  assert (x = sc) as ->.
  { assert (Hids := ts_ids self (to_shape self (wo_tree self stack Hok))). rewrite (Hids j x Hx), (Hids i sc Hsc) in He.
    injection He as He%Nat2N.inj. congruence. }
  unfold sc'. simpl. by rewrite omap_app, app_nil_r.
Qed.

Lemma child_was j x y : scopes self !! j = Some x -> y ∈ child_scopes self x -> scope_range (was y) = scope_range y.
Proof.
  intros Hx Hy. destruct (child_scope_after self j x y (to_shape self (wo_tree self stack Hok)) Hx Hy) as (k & _ & Hk & _).
  by destruct (was_of k y Hk) as (_ & _ & -> & _).
Qed.

Lemma declared_apart j x' : scopes t !! j = Some x' -> apart (child_scopes t x').
Proof.
  intros (x & Hx & ->)%declared_at. rewrite (declared_child_scopes j x Hx). apply apart_ranges; [by intros y; apply (child_was j)|].
  by eapply to_apart; [apply Hok|].
Qed.

Lemma declared_nested j x' c' : scopes t !! j = Some x' -> c' ∈ child_scopes t x' ->
  (LuaScope.get_position x' <= LuaScope.get_position c')%N /\ (text_end (scope_range c') <= text_end (scope_range x'))%N.
Proof.
  intros (x & Hx & ->)%declared_at. rewrite (declared_child_scopes j x Hx). intros (c & -> & Hc)%list_elem_of_fmap.
  unfold LuaScope.get_position. rewrite (child_was j x c Hx Hc). destruct (was_of j x Hx) as (_ & _ & -> & _).
  by apply (to_nested self (wo_tree self stack Hok) j).
Qed.

(** *** The visit sets *)

Let key1 : ChildKey := (decl_position d, N.of_nat (length (children sc))).
Let key2 : ChildKey := (LuaScope.get_position sc, child_index self (scope_id sc)).
Definition hits (q : option rstring) : Prop := q = None \/ q = Some nm.
Definition below (x : LuaScope) : Prop := holds_decls_for_parent (scope_kind sc) = true /\ scope_parent sc = Some (scope_id x).

Lemma declared_visits q id :
  visits_of t q id
  = let l := if decide (id = scope_id sc /\ hits q) then file_child (visits_of self q id) key1 (InterestingDecl d) else visits_of self q id in
    if decide (holds_decls_for_parent (scope_kind sc) = true /\ scope_parent sc = Some id /\ hits q)
    then file_child l key2 (InterestingScope (scope_id sc)) else l.
Proof.
  assert (Hlen : as_u32 (length (children sc)) = N.of_nat (length (children sc))) by by eapply as_u32_small, Hroom.
  unfold t, declared_tree. rewrite Hlen. fold key1. cbv zeta.
  set (t0 := with_scopes _ _). assert (H0 : forall q id, visits_of t0 q id = visits_of self q id) by (by intros []).
  assert (H1 : forall q id, visits_of (file_under t0 nm (scope_id sc) key1 (InterestingDecl d)) q id
    = if decide (id = scope_id sc /\ hits q) then file_child (visits_of self q id) key1 (InterestingDecl d) else visits_of self q id).
  { intros q' id'. rewrite file_under_visits, H0. done. }
  destruct (scope_parent sc) as [p|] eqn:Hp; [|by rewrite H1, (decide_False (P := _ /\ None = Some id /\ _)) by naive_solver].
  destruct (holds_decls_for_parent (scope_kind sc)) eqn:Hh; [|by rewrite H1, (decide_False (P := false = true /\ _)) by naive_solver].
  rewrite file_under_visits, H1. fold key2. apply decide_ext. naive_solver.
Qed.

Lemma name_of_d n : named self n d = true <-> n = nm.
Proof. unfold named. rewrite bool_decide_eq_true, Hd. simpl. unfold nm. naive_solver. Qed.

Lemma hits_decl q : wants self q (InterestingDecl d) = true <-> hits q.
Proof. unfold hits. destruct q as [n|]; simpl; [rewrite name_of_d|]; naive_solver. Qed.

(** A child scope in the new tree. *)
Lemma child_of j x k c :
  scopes self !! j = Some x -> children x !! k = Some (ScopeChild c) ->
  exists csc, get_scope self c = Some csc /\ get_scope t c = Some (was csc) /\ scope_id csc = c
    /\ scope_parent csc = Some (scope_id x) /\ child_index self c = N.of_nat k
    /\ holds_decls_for_parent (scope_kind (was csc)) = holds_decls_for_parent (scope_kind csc)
    /\ LuaScope.get_position (was csc) = LuaScope.get_position csc
    /\ decl_children (was csc) = decl_children csc ++ (if decide (c = scope_id sc) then [d] else []).
Proof.
  intros Hx Hk. assert (Hin := list_elem_of_lookup_2 _ _ _ Hk).
  destruct (ts_child self (to_shape self (wo_tree self stack Hok)) j x c Hx Hin) as (j' & csc & -> & Hj & Hcsc & Hp).
  exists csc. assert (Hg : get_scope self (mkScopeId (file_id self) (N.of_nat j')) = Some csc) by (unfold get_scope; simpl; by rewrite Nat2N.id).
  assert (Hid := ts_ids self (to_shape self (wo_tree self stack Hok)) j' csc Hcsc).
  destruct (was_of j' csc Hcsc) as (_ & _ & Hr & Hkd & _). split_and!; try done.
  - by rewrite declared_get_was, Hg.
  - by eapply (wo_index self stack Hok j x).
  - by rewrite Hkd.
  - unfold LuaScope.get_position. by rewrite Hr.
  - unfold was. rewrite Hid. case_decide as He; [|by rewrite app_nil_r].
    assert (csc = sc) as ->.
    { assert (Hids := ts_ids self (to_shape self (wo_tree self stack Hok)) i sc Hsc). rewrite Hids in He. injection He as He%Nat2N.inj. congruence. }
    unfold sc', decl_children. simpl. by rewrite omap_app.
Qed.

Lemma wants_scope q c csc :
  get_scope self c = Some csc -> get_scope t c = Some (was csc) ->
  decl_children (was csc) = decl_children csc ++ (if decide (c = scope_id sc) then [d] else []) ->
  wants t q (InterestingScope c) = true <-> wants self q (InterestingScope c) = true \/ (c = scope_id sc /\ hits q).
Proof.
  intros H1 H2 H3. destruct q as [n|]; simpl; [|unfold hits; naive_solver]. rewrite H1, H2, H3, existsb_app, orb_true_iff.
  assert (Hn : forall l, existsb (named t n) l = existsb (named self n) l) by (intros l; induction l as [|y l IH]; [done|]; simpl; rewrite IH; f_equal; unfold named; by rewrite (proj2 (proj2 (proj2 declared_frame)))).
  rewrite !Hn. case_decide as Hc; simpl; [rewrite orb_false_r, name_of_d|]; unfold hits; naive_solver.
Qed.

Lemma declared_member j x q e :
  scopes self !! j = Some x ->
  e ∈ direct_visits t (was x) /\ wants t q e.2 = true
  <-> (e ∈ direct_visits self x /\ wants self q e.2 = true) \/ (j = i /\ hits q /\ e = (key1, InterestingDecl d))
      \/ (below x /\ hits q /\ e = (key2, InterestingScope (scope_id sc))).
Proof.
  intros Hx. rewrite !elem_of_direct_visits.
  assert (Hchild : forall k ch, children (was x) !! k = Some ch <-> children x !! k = Some ch \/ (j = i /\ k = length (children sc) /\ ch = DeclChild d)).
  { intros k ch. unfold was. case_decide as He.
    - assert (j = i /\ x = sc) as [-> ->].
      { assert (Hids := ts_ids self (to_shape self (wo_tree self stack Hok))). rewrite (Hids j x Hx), (Hids i sc Hsc) in He.
        injection He as He%Nat2N.inj. subst j. split; congruence. }
      unfold sc'. simpl. rewrite lookup_app_Some. split.
      + intros [|[Hk Hl]]; [by left|right]. apply list_lookup_singleton_Some in Hl as [Hl ->]. split_and!; [done|lia|done].
      + intros [|(_ & -> & ->)]; [by left|right]. split; [done|]. by rewrite Nat.sub_diag.
    - split; [by left|]. intros [|(-> & _)]; [done|]. assert (x = sc) as -> by congruence. done. }
  assert (Hdd : forall k d', direct_visit t (k, DeclChild d') = direct_visit self (k, DeclChild d')) by done.
  assert (Hwd : forall d', wants t q (InterestingDecl d') = wants self q (InterestingDecl d')).
  { intros d'. destruct q; [|done]. simpl. unfold named. by rewrite (proj2 (proj2 (proj2 declared_frame))). }
  split.
  - intros [(k & ch & Hk & He) Hw]. apply Hchild in Hk as [Hk|(-> & -> & ->)].
    + destruct ch as [c|d'].
      * destruct (child_of j x k c Hx Hk) as (csc & H1 & H2 & H3 & H4 & H5 & H6 & H7 & H8). unfold direct_visit in He. simpl in He.
        rewrite H2 in He. simpl in He. rewrite H6, H7 in He. destruct (holds_decls_for_parent (scope_kind csc)) eqn:Hh; [|done].
        destruct (bool_decide (decl_children (was csc) = [])) eqn:Hempty; simpl in He; [done|]. injection He as <-. simpl in Hw.
        apply bool_decide_eq_false in Hempty. rewrite H8 in Hempty. apply (wants_scope q c csc H1 H2 H8) in Hw.
        destruct (decide (c = scope_id sc)) as [Hc|Hc].
        -- assert (csc = sc) as ->.
           { assert (Hg := get_scope_index self i sc (to_shape self (wo_tree self stack Hok)) Hsc). rewrite <- Hc in Hg. congruence. }
           destruct Hw as [Hw|[_ Hhit]].
           ++ destruct (decide (decl_children sc = [])) as [Hz|Hnz].
              ** right; right. split_and!; [by split|destruct q; [|by left]|].
                 { simpl in Hw. rewrite H1, Hz in Hw. done. }
                 unfold key2. by rewrite Hc, <- H5, Hc.
              ** left. split; [|done]. exists k, (ScopeChild c). split; [done|]. unfold direct_visit. simpl. rewrite H1. simpl.
                 by rewrite Hh, bool_decide_false.
           ++ right; right. split_and!; [by split|done|]. unfold key2. by rewrite Hc, <- H5, Hc.
        -- rewrite app_nil_r in Hempty. left. split; [|naive_solver]. exists k, (ScopeChild c). split; [done|]. unfold direct_visit. simpl.
           rewrite H1. simpl. by rewrite Hh, bool_decide_false.
      * left. rewrite Hdd in He. split; [by exists k, (DeclChild d')|]. injection He as <-. simpl in *. by rewrite <- Hwd.
    + right; left. injection He as <-. simpl in Hw. rewrite Hwd, hits_decl in Hw. done.
  - intros [[(k & ch & Hk & He) Hw]|[(-> & Hhit & ->)|([Hh Hp] & Hhit & ->)]].
    + destruct ch as [c|d'].
      * destruct (child_of j x k c Hx Hk) as (csc & H1 & H2 & H3 & H4 & H5 & H6 & H7 & H8). unfold direct_visit in He. simpl in He.
        rewrite H1 in He. simpl in He. destruct (holds_decls_for_parent (scope_kind csc)) eqn:Hh; [|done].
        destruct (bool_decide (decl_children csc = [])) eqn:Hempty; simpl in He; [done|]. injection He as <-. simpl in Hw.
        apply bool_decide_eq_false in Hempty. split; [|apply (wants_scope q c csc H1 H2 H8); by left]. exists k, (ScopeChild c).
        split; [apply Hchild; by left|]. unfold direct_visit. simpl. rewrite H2. simpl. rewrite H6, H7, H8, bool_decide_false; [done|].
        intros [Hz _]%app_eq_nil. done.
      * split; [exists k, (DeclChild d'); split; [apply Hchild; by left|done]|]. injection He as <-. simpl in *. by rewrite Hwd.
    + split; [|simpl; by rewrite Hwd, hits_decl]. exists (length (children sc)), (DeclChild d). split; [apply Hchild; by right|done].
    + destruct (ts_parent self (to_shape self (wo_tree self stack Hok)) i sc (scope_id x) Hsc Hp) as (j' & psc & Hid & _ & Hpsc & Hin).
      assert (psc = x) as ->.
      { rewrite (ts_ids self (to_shape self (wo_tree self stack Hok)) j x Hx) in Hid. injection Hid as Hid%Nat2N.inj. congruence. }
      apply list_elem_of_lookup in Hin as [k Hk]. destruct (child_of j x k _ Hx Hk) as (csc & H1 & H2 & H3 & H4 & H5 & H6 & H7 & H8).
      assert (csc = sc) as ->.
      { assert (Hg := get_scope_index self i sc (to_shape self (wo_tree self stack Hok)) Hsc). congruence. }
      split; [|simpl; apply (wants_scope q _ sc H1 H2 H8); by right]. exists k, (ScopeChild (scope_id sc)). split; [apply Hchild; by left|].
      unfold direct_visit. simpl. rewrite H2. simpl. rewrite H6, H7, H8, Hh, decide_True by done.
      rewrite bool_decide_false; [|by intros [_ ?]%app_eq_nil]. simpl. unfold key2. by rewrite H5.
Qed.

Lemma same_place j x : scopes self !! j = Some x -> scope_id x = scope_id sc <-> j = i.
Proof.
  intros Hx. assert (Hids := ts_ids self (to_shape self (wo_tree self stack Hok))). rewrite (Hids j x Hx), (Hids i sc Hsc).
  split; [by intros [= ?%Nat2N.inj]|by intros ->].
Qed.

Lemma declared_visits_ok : visits_ok t.
Proof.
  apply visits_ok_all. intros j x' q (x & Hx & ->)%declared_at. destruct (was_of j x Hx) as (-> & _).
  destruct (proj1 (visits_ok_all self) (to_visits self (wo_tree self stack Hok)) j x q Hx) as [Ho Hm].
  rewrite declared_visits. cbv zeta.
  set (l1 := if decide (scope_id x = scope_id sc /\ hits q) then _ else _).
  assert (H1 : in_order l1 /\ forall e, e ∈ l1 <-> (e ∈ direct_visits self x /\ wants self q e.2 = true) \/ (j = i /\ hits q /\ e = (key1, InterestingDecl d))).
  { unfold l1. case_decide as Hc.
    - destruct Hc as [Hs Hhit]. apply (same_place j x Hx) in Hs as ->. assert (x = sc) as -> by congruence.
      destruct (file_child_spec (visits_of self q (scope_id sc)) key1 (InterestingDecl d) Ho) as [F1 F2].
      + intros e He Hk. exfalso. apply Hm in He as [He _]. apply elem_of_direct_visits in He as (k & ch & Hk' & He).
        apply direct_visit_index in He. rewrite Hk in He. unfold key1 in He. simpl in He. apply lookup_lt_Some in Hk'. lia.
      + split; [done|]. intros e. rewrite F2, Hm. naive_solver.
    - split; [done|]. intros e. rewrite Hm. split; [by left|]. intros [|(-> & Hhit & _)]; [done|]. exfalso. apply Hc. split; [|done].
      by apply (same_place i x Hx). }
  destruct H1 as [O1 M1]. clearbody l1. case_decide as Hc.
  - destruct Hc as (Hh & Hp & Hhit). destruct (file_child_spec l1 key2 (InterestingScope (scope_id sc)) O1) as [F1 F2].
    + intros e He Hk. apply M1 in He as [[He _]|(-> & _)].
      * apply elem_of_direct_visits in He as (k & ch & Hk' & He). assert (Hki := direct_visit_index self k ch e He). rewrite Hk in Hki.
        destruct (ts_parent self (to_shape self (wo_tree self stack Hok)) i sc (scope_id x) Hsc Hp) as (j' & psc & Hid & _ & Hpsc & Hin).
        assert (psc = x) as ->.
        { rewrite (ts_ids self (to_shape self (wo_tree self stack Hok)) j x Hx) in Hid. injection Hid as Hid%Nat2N.inj. congruence. }
        apply list_elem_of_lookup in Hin as [k' Hk2]. unfold key2 in Hki. simpl in Hki.
        rewrite (wo_index self stack Hok j x k' _ Hx Hk2) in Hki. apply Nat2N.inj in Hki as ->. rewrite Hk' in Hk2. injection Hk2 as ->.
        unfold direct_visit in He. simpl in He. destruct (get_scope self (scope_id sc)) as [y|]; simpl in He; [|done].
        destruct (_ && _); [|done]. injection He as <-. simpl in *. rewrite Hk. split; [done|by eexists].
      * exfalso. destruct (ts_parent self (to_shape self (wo_tree self stack Hok)) i sc (scope_id x) Hsc Hp) as (j' & psc & Hid & Hj & _).
        rewrite (ts_ids self (to_shape self (wo_tree self stack Hok)) i x Hx) in Hid. injection Hid as Hid%Nat2N.inj. lia.
    + split; [done|]. intros e. rewrite F2, M1, (declared_member j x q e Hx). unfold below. naive_solver.
  - split; [done|]. intros e. rewrite M1, (declared_member j x q e Hx). unfold below. naive_solver.
Qed.

Lemma declared_ok : walk_ok t stack.
Proof.
  destruct declared_frame as (Hs & Hf & Hi & Hg). split.
  - split; [apply declared_visits_ok|apply declared_shape|apply declared_apart|apply declared_nested].
  - intros j x' y (x & Hx & ->)%declared_at. destruct (was_of j x Hx) as (_ & _ & _ & _ & _ & Hc). rewrite Hc, Hg.
    intros [Hy|[_ ->]]; [by eapply (wo_declared self stack Hok)|by exists dc].
  - intros j x' k c (x & Hx & ->)%declared_at Hk. unfold child_index. rewrite Hi. apply (wo_index self stack Hok j x k c Hx).
    unfold was in Hk. case_decide as He; [|done]. assert (x = sc) as ->.
    { apply (same_place j x Hx) in He as ->. congruence. }
    unfold sc' in Hk. simpl in Hk. apply lookup_app_Some in Hk as [|[_ Hk]]; [done|]. by apply list_lookup_singleton_Some in Hk as [_ ?].
  - rewrite Hs, Hi, length_insert. apply (wo_lengths self stack Hok).
  - rewrite Hs, Hf, length_insert. intros q k Hk. rewrite declared_visits. cbv zeta. rewrite !decide_False; [by apply (wo_fresh self stack Hok)| |].
    + intros [Hid _]. rewrite (ts_ids self (to_shape self (wo_tree self stack Hok)) i sc Hsc) in Hid. injection Hid as Hid%Nat2N.inj.
      apply lookup_lt_Some in Hsc. lia.
    + intros (_ & Hp & _). destruct (ts_parent self (to_shape self (wo_tree self stack Hok)) i sc _ Hsc Hp) as (j' & psc & Hid & _ & Hpsc & _).
      injection Hid as Hid%Nat2N.inj. apply lookup_lt_Some in Hpsc. lia.
  - rewrite Hs, Hf, length_insert. apply (wo_stack self stack Hok).
Qed.
End Declared.

(** ** Opening a scope *)

Section Opened.
Context self (stack : list LuaScopeId) (par : option LuaScopeId) (rg : TextRange) (kind : LuaScopeKind).
Context (Hok : walk_ok self stack) (Hroom : room self).
Context (Hpar : forall p, par = Some p -> exists i psc, scopes self !! i = Some psc /\ scope_id psc = p
  /\ (LuaScope.get_position psc <= text_start rg)%N /\ (text_end rg <= text_end (scope_range psc))%N
  /\ (forall c, c ∈ child_scopes self psc -> (text_end (scope_range c) <= text_start rg)%N)
  /\ (scope_kind psc = Repeat -> kind = Normal)).
Context (Hrg : (text_start rg <= text_end rg)%N).
Let n : nat := length (scopes self).
Let id : LuaScopeId := mkScopeId (file_id self) (N.of_nat n).
Let sc_new : LuaScope := mkScope par [] rg kind id.

Definition grown (x : LuaScope) : LuaScope := if decide (par = Some (scope_id x)) then LuaScope.add_child x id else x.

(** The tree with the new scope, linked to its parent. *)
Definition opened_tree : Tree :=
  let '(scope_id, tree) := create_scope self rg kind in
  match par with Some p => add_child_scope tree p scope_id | None => tree end.
Let t : Tree := opened_tree.

Lemma opened_id : (create_scope self rg kind).1 = id.
Proof. unfold create_scope, id, n. simpl. by rewrite as_u32_small by apply Hroom. Qed.

Lemma opened_frame :
  scopes t = (grown <$> scopes self) ++ [sc_new] /\ file_id t = file_id self
  /\ (forall x, get_decl t x = get_decl self x) /\ (forall q x, visits_of t q x = visits_of self q x)
  /\ length (scope_child_index t) = S (length (scope_child_index self))
  /\ (forall c, (scope_id_ c < N.of_nat n)%N -> child_index t c = child_index self c)
  /\ (forall i psc, par = Some (scope_id psc) -> scopes self !! i = Some psc -> child_index t id = N.of_nat (length (children psc))).
Proof.
  assert (Hlen := wo_lengths self stack Hok). assert (Hids := ts_ids self (to_shape self (wo_tree self stack Hok))).
  unfold t, opened_tree. rewrite (surjective_pairing (create_scope self rg kind)), opened_id. unfold create_scope. cbn [snd].
  rewrite as_u32_small by apply Hroom. fold n. fold id. set (t1 := with_child_index _ _).
  assert (Hs1 : scopes t1 = scopes self ++ [LuaScope.new rg kind id]) by done.
  assert (Hi1 : scope_child_index t1 = scope_child_index self ++ [(2 ^ 32 - 1)%N]) by done.
  unfold grown, sc_new.
  destruct par as [p|] eqn:Hp.
  - destruct (Hpar p eq_refl) as (i & psc & Hi & <- & _).
    assert (Hlt : i < n) by by eapply lookup_lt_Some. assert (Hpid := Hids i psc Hi).
    unfold add_child_scope. cbv zeta. set (t2 := touched t1 _).
    assert (Hg : get_scope t2 (scope_id psc) = Some psc).
    { unfold get_scope. rewrite Hpid. cbn [scope_id_]. rewrite Nat2N.id. assert (Hs2 : scopes t2 = scopes t1) by done. by rewrite Hs2, Hs1, lookup_app_l. }
    rewrite Hg. rewrite as_u32_small by by eapply Hroom. rewrite Hpid. cbn [scope_id_]. rewrite Nat2N.id.
    set (t3 := with_child_index _ _).
    assert (Hs3 : scopes t3 = <[i := LuaScope.add_child psc id]> (scopes self) ++ [LuaScope.new rg kind id]).
    { assert (He : scopes t3 = <[i := LuaScope.add_child psc id]> (scopes t1)) by done. by rewrite He, Hs1, insert_app_l. }
    assert (Hi3 : scope_child_index t3 = scope_child_index self ++ [N.of_nat (length (children psc))]).
    { assert (He : scope_child_index t3 = <[N.to_nat (scope_id_ id) := N.of_nat (length (children psc))]> (scope_child_index t1)) by done.
      rewrite He, Hi1. cbn [id scope_id_]. rewrite Nat2N.id. unfold n. rewrite <- Hlen. by rewrite insert_app_r_alt, Nat.sub_diag by lia. }
    assert (Hn3 : get_scope t3 id = Some (LuaScope.new rg kind id)).
    { unfold get_scope. cbn [id scope_id_]. rewrite Nat2N.id, Hs3, lookup_app_r by (rewrite length_insert; done). by rewrite length_insert, Nat.sub_diag. }
    rewrite Hn3. change (scope_id_ id) with (N.of_nat n). rewrite Nat2N.id. set (t4 := with_scopes t3 _).
    assert (Hs4 : scopes t4 = <[i := LuaScope.add_child psc id]> (scopes self) ++ [mkScope (Some (scope_id psc)) [] rg kind id]).
    { unfold t4. cbn [with_scopes scopes]. rewrite Hs3, Hpid. unfold n.
      rewrite <- (length_insert (scopes self) i (LuaScope.add_child psc id)). by rewrite insert_app_r_alt, Nat.sub_diag by lia. }
    assert (Hn4 : get_scope t4 id = Some (mkScope (Some (scope_id psc)) [] rg kind id)).
    { unfold get_scope. cbn [id scope_id_]. rewrite Nat2N.id, Hs4, lookup_app_r by (rewrite length_insert; done). by rewrite length_insert, Nat.sub_diag. }
    unfold file_child_scope_with_decls. rewrite Hn4. cbv zeta. rewrite (bool_decide_true (decl_children _ = [])) by done. simpl orb. cbv iota.
    assert (Hgs : <[i := LuaScope.add_child psc id]> (scopes self) = (fun x => if decide (Some (scope_id psc) = Some (scope_id x)) then LuaScope.add_child x id else x) <$> scopes self).
    { apply list_eq. intros k. rewrite list_lookup_fmap. destruct (decide (k = i)) as [->|Hne].
      - rewrite list_lookup_insert_eq by done. rewrite Hi. simpl. by rewrite decide_True.
      - rewrite list_lookup_insert_ne by done. destruct (scopes self !! k) as [y|] eqn:Hy; [|done]. simpl. rewrite decide_False; [done|].
        rewrite (Hids i psc Hi), (Hids k y Hy). intros [= He%Nat2N.inj]. done. }
    split_and!; try done.
    + by rewrite Hs4, Hgs, Hpid.
    + change (scope_child_index t4) with (scope_child_index t3). rewrite Hi3, length_app. simpl. lia.
    + intros c Hc. unfold child_index. change (scope_child_index t4) with (scope_child_index t3). rewrite Hi3, lookup_app_l; [done|].
      unfold n in Hc. lia.
    + intros i' psc' [= He] Hi'. unfold child_index. change (scope_child_index t4) with (scope_child_index t3). rewrite Hi3. unfold id. simpl.
      rewrite Nat2N.id, lookup_app_r by (unfold n; lia). replace (n - length (scope_child_index self)) with 0 by (unfold n; lia). simpl.
      rewrite (Hids i' psc' Hi') in He. injection He as He%Nat2N.inj. subst i'. assert (psc' = psc) as -> by congruence. done.
  - split_and!; try done.
    + rewrite Hs1. f_equal. symmetry. apply list_fmap_id.
    + rewrite Hi1, length_app. simpl. lia.
    + intros c Hc. unfold child_index. rewrite Hi1, lookup_app_l; [done|]. unfold n in Hc. lia.
Qed.

Lemma grown_of x :
  scope_id (grown x) = scope_id x /\ scope_parent (grown x) = scope_parent x /\ scope_range (grown x) = scope_range x
  /\ scope_kind (grown x) = scope_kind x /\ decl_children (grown x) = decl_children x
  /\ children (grown x) = children x ++ (if decide (par = Some (scope_id x)) then [ScopeChild id] else []).
Proof.
  unfold grown, decl_children. case_decide; [|by rewrite app_nil_r]. simpl. split_and!; try done. rewrite omap_app. simpl. by rewrite app_nil_r.
Qed.

Lemma opened_at j x' :
  scopes t !! j = Some x' -> (exists x, scopes self !! j = Some x /\ x' = grown x) \/ (j = n /\ x' = sc_new).
Proof.
  rewrite (proj1 opened_frame). intros [Hx|[Hle Hx]]%lookup_app_Some.
  - left. apply list_lookup_fmap_Some in Hx as (x & Hx & ->). by exists x.
  - right. rewrite length_fmap in Hle, Hx. apply list_lookup_singleton_Some in Hx as [Hj <-]. split; [unfold n; lia|done].
Qed.

Lemma opened_from j x : scopes self !! j = Some x -> scopes t !! j = Some (grown x).
Proof.
  intros Hx. rewrite (proj1 opened_frame), lookup_app_l by (rewrite length_fmap; by eapply lookup_lt_Some). by rewrite list_lookup_fmap, Hx.
Qed.

Lemma opened_new : scopes t !! n = Some sc_new.
Proof. rewrite (proj1 opened_frame), lookup_app_r by by rewrite length_fmap. by rewrite length_fmap, Nat.sub_diag. Qed.

Lemma opened_old_id j x : scopes self !! j = Some x -> scope_id x <> id.
Proof.
  intros Hx. rewrite (ts_ids self (to_shape self (wo_tree self stack Hok)) j x Hx). intros [= He%Nat2N.inj]. apply lookup_lt_Some in Hx. unfold n in He. lia.
Qed.

(** The scope that a child was. *)
Lemma opened_child j x c : scopes self !! j = Some x -> ScopeChild c ∈ children x ->
  exists k csc, c = mkScopeId (file_id self) (N.of_nat k) /\ j < k /\ scopes self !! k = Some csc /\ scope_parent csc = Some (scope_id x)
    /\ get_scope self c = Some csc /\ get_scope t c = Some (grown csc).
Proof.
  intros Hx Hin. destruct (ts_child self (to_shape self (wo_tree self stack Hok)) j x c Hx Hin) as (k & csc & -> & Hk & Hcsc & Hp).
  exists k, csc. split_and!; try done; unfold get_scope; cbn [scope_id_]; rewrite Nat2N.id; [done|by apply opened_from].
Qed.

Lemma opened_get_new : get_scope t id = Some sc_new.
Proof. unfold get_scope. cbn [id scope_id_]. rewrite Nat2N.id. apply opened_new. Qed.

Lemma opened_child_scopes j x : scopes self !! j = Some x ->
  child_scopes t (grown x) = (grown <$> child_scopes self x) ++ (if decide (par = Some (scope_id x)) then [sc_new] else []).
Proof.
  intros Hx. unfold child_scopes. destruct (grown_of x) as (_ & _ & _ & _ & _ & ->). rewrite omap_app. f_equal.
  - assert (Hc : forall c, ScopeChild c ∈ children x -> get_scope t c = grown <$> get_scope self c).
    { intros c Hin. destruct (opened_child j x c Hx Hin) as (_ & csc & _ & _ & _ & _ & -> & ->). done. }
    clear Hx. revert Hc. induction (children x) as [|[c|d] l IH]; intros Hc; simpl; [done| |].
    + rewrite Hc by (by left). destruct (get_scope self c); simpl; [f_equal|]; apply IH; intros c' Hin; apply Hc; by right.
    + apply IH. intros c' Hin. apply Hc. by right.
  - case_decide; [|done]. simpl. by rewrite opened_get_new.
Qed.

Lemma opened_direct_visits j x e : scopes self !! j = Some x -> e ∈ direct_visits t (grown x) <-> e ∈ direct_visits self x.
Proof.
  intros Hx. rewrite !elem_of_direct_visits. destruct (grown_of x) as (_ & _ & _ & _ & _ & Hch).
  assert (Hsame : forall k ch, children x !! k = Some ch -> direct_visit t (k, ch) = direct_visit self (k, ch)).
  { intros k [c|d] Hk; [|done]. apply list_elem_of_lookup_2 in Hk. destruct (opened_child j x c Hx Hk) as (_ & csc & _ & _ & _ & _ & H1 & H2).
    unfold direct_visit. simpl. rewrite H1, H2. simpl. unfold LuaScope.get_position. by destruct (grown_of csc) as (_ & _ & -> & -> & -> & _). }
  split; intros (k & ch & Hk & He); exists k, ch.
  - rewrite Hch in Hk. apply lookup_app_Some in Hk as [Hk|[_ Hk]]; [by rewrite <- Hsame|]. exfalso.
    case_decide; [|done]. apply list_lookup_singleton_Some in Hk as [_ <-]. unfold direct_visit in He. simpl in He.
    rewrite opened_get_new in He. simpl in He. by rewrite andb_false_r in He.
  - rewrite Hch. split; [by apply lookup_app_l_Some|by rewrite Hsame].
Qed.

Lemma opened_wants j x q e : scopes self !! j = Some x -> e ∈ direct_visits self x -> wants t q e.2 = wants self q e.2.
Proof.
  intros Hx (k & ch & Hk & He)%elem_of_direct_visits. destruct q as [nm|]; [|done].
  assert (Hn : forall d, named t nm d = named self nm d) by (intros d; unfold named; destruct opened_frame as (_ & _ & Hd & _); by rewrite Hd).
  unfold direct_visit in He. simpl in He. destruct ch as [c|d]; [|injection He as <-; apply Hn].
  apply list_elem_of_lookup_2 in Hk. destruct (opened_child j x c Hx Hk) as (_ & csc & _ & _ & _ & _ & H1 & H2). rewrite H1 in He. simpl in He.
  destruct (_ && _); [|done]. injection He as <-. simpl. rewrite H1, H2. destruct (grown_of csc) as (_ & _ & _ & _ & -> & _).
  clear -Hn. induction (decl_children csc) as [|d l IH]; simpl; [done|]. by rewrite Hn, IH.
Qed.

Lemma opened_visits_ok : visits_ok t.
Proof.
  destruct opened_frame as (_ & Hf & _ & Hv & _). apply visits_ok_all. intros j x' q [(x & Hx & ->)|[-> ->]]%opened_at; rewrite Hv.
  - destruct (grown_of x) as (-> & _). destruct (proj1 (visits_ok_all self) (to_visits self (wo_tree self stack Hok)) j x q Hx) as [Ho Hm].
    split; [done|]. intros e. rewrite Hm, (opened_direct_visits j x e Hx). split; intros [He Hw]; (split; [done|]); by rewrite (opened_wants j x q e Hx He) in *.
  - assert (Hfr := wo_fresh self stack Hok q n (Nat.le_refl _)). fold id in Hfr. change (scope_id sc_new) with id. rewrite Hfr. split; [constructor|]. intros e. split; [by intros ?%not_elem_of_nil|].
    by intros [?%not_elem_of_nil _].
Qed.

Lemma opened_shape : tree_shape t.
Proof.
  destruct (wo_tree self stack Hok) as [_ Hs _ _]. destruct opened_frame as (_ & Hf & _). split.
  - intros j x' [(x & Hx & ->)|[-> ->]]%opened_at; [|by rewrite Hf]. destruct (grown_of x) as (-> & _). rewrite Hf. by apply ts_ids.
  - intros j x' p [(x & Hx & ->)|[-> ->]]%opened_at; rewrite Hf.
    + destruct (grown_of x) as (-> & -> & _). intros Hp. destruct (ts_parent self Hs j x p Hx Hp) as (k & psc & -> & Hk & Hpsc & Hin).
      exists k, (grown psc). split_and!; [done|done|by apply opened_from|]. destruct (grown_of psc) as (_ & _ & _ & _ & _ & ->).
      apply elem_of_app. by left.
    + intros Hp. destruct (Hpar p Hp) as (k & psc & Hk & Hid & _). exists k, (grown psc).
      split_and!; [by rewrite <- Hid; apply (ts_ids self Hs)|by eapply lookup_lt_Some|by apply opened_from|].
      destruct (grown_of psc) as (_ & _ & _ & _ & _ & ->). change (scope_parent sc_new) with par in Hp. rewrite decide_True by congruence.
      apply elem_of_app. right. by left.
  - intros j x' c [(x & Hx & ->)|[-> ->]]%opened_at; [|by intros ?%not_elem_of_nil]. rewrite Hf. destruct (grown_of x) as (-> & _ & _ & _ & _ & ->).
    intros [Hin|Hin]%elem_of_app.
    + destruct (opened_child j x c Hx Hin) as (k & csc & -> & Hk & Hcsc & Hp & _). exists k, (grown csc).
      split_and!; [done|done|by apply opened_from|]. by destruct (grown_of csc) as (_ & -> & _).
    + case_decide; [|by apply not_elem_of_nil in Hin]. apply list_elem_of_singleton in Hin as [= ->]. exists n, sc_new.
      split_and!; [done|by eapply lookup_lt_Some|apply opened_new|done].
  - intros j x' c csc' [(x & Hx & ->)|[-> ->]]%opened_at; [|by intros _ ?%not_elem_of_nil].
    destruct (grown_of x) as (_ & _ & _ & -> & _ & ->). intros Hk [Hin|Hin]%elem_of_app Hg.
    + destruct (opened_child j x c Hx Hin) as (k & csc & _ & _ & _ & _ & Hg1 & Hg2). assert (csc' = grown csc) as -> by congruence.
      destruct (grown_of csc) as (_ & _ & _ & -> & _). by eapply (ts_body self Hs j x).
    + case_decide as Hp; [|by apply not_elem_of_nil in Hin]. apply list_elem_of_singleton in Hin as [= ->]. rewrite opened_get_new in Hg. injection Hg as <-.
      destruct (Hpar _ Hp) as (k & psc & Hk' & Hid & _ & _ & _ & Hbody). apply Hbody.
      assert (psc = x) as ->; [|done]. rewrite (ts_ids self Hs k psc Hk'), (ts_ids self Hs j x Hx) in Hid. injection Hid as Hid%Nat2N.inj. congruence.
Qed.

Lemma opened_parent j x : scopes self !! j = Some x -> par = Some (scope_id x) ->
  (LuaScope.get_position x <= text_start rg)%N /\ (text_end rg <= text_end (scope_range x))%N
  /\ (forall c, c ∈ child_scopes self x -> (text_end (scope_range c) <= text_start rg)%N).
Proof.
  intros Hx Hp. destruct (Hpar _ Hp) as (k & psc & Hk & Hid & H1 & H2 & H3 & _). assert (psc = x) as ->; [|done].
  assert (Hids := ts_ids self (to_shape self (wo_tree self stack Hok))). rewrite (Hids k psc Hk), (Hids j x Hx) in Hid.
  injection Hid as Hid%Nat2N.inj. congruence.
Qed.

Lemma opened_apart j x' : scopes t !! j = Some x' -> apart (child_scopes t x').
Proof.
  intros [(x & Hx & ->)|[-> ->]]%opened_at.
  - rewrite (opened_child_scopes j x Hx). assert (Hap := to_apart self (wo_tree self stack Hok) j x Hx).
    assert (Hg : apart (grown <$> child_scopes self x)) by (apply apart_ranges; [intros y _; by destruct (grown_of y) as (_ & _ & ? & _)|done]).
    case_decide as Hp; [|by rewrite app_nil_r]. destruct (opened_parent j x Hx Hp) as (_ & _ & Hend). destruct Hg as [G1 G2]. split.
    + apply StronglySorted_app. split_and!; [|done|repeat constructor]. intros a b (y & -> & Hy)%list_elem_of_fmap ->%list_elem_of_singleton.
      destruct (grown_of y) as (_ & _ & -> & _). by apply Hend.
    + intros a [Ha|Ha]%elem_of_app; [by apply G2|]. apply list_elem_of_singleton in Ha as ->. exact Hrg.
  - split; [constructor|by intros ? ?%not_elem_of_nil].
Qed.

Lemma opened_nested j x' c : scopes t !! j = Some x' -> c ∈ child_scopes t x' ->
  (LuaScope.get_position x' <= LuaScope.get_position c)%N /\ (text_end (scope_range c) <= text_end (scope_range x'))%N.
Proof.
  intros [(x & Hx & ->)|[-> ->]]%opened_at; [|by intros ?%not_elem_of_nil]. rewrite (opened_child_scopes j x Hx). unfold LuaScope.get_position.
  destruct (grown_of x) as (_ & _ & -> & _). intros [Hc|Hc]%elem_of_app.
  - apply list_elem_of_fmap in Hc as (y & -> & Hy). destruct (grown_of y) as (_ & _ & -> & _). by eapply (to_nested self (wo_tree self stack Hok)).
  - case_decide as Hp; [|by apply not_elem_of_nil in Hc]. apply list_elem_of_singleton in Hc as ->. by destruct (opened_parent j x Hx Hp) as (? & ? & _).
Qed.

Lemma opened_ok : walk_ok t (stack ++ [id]).
Proof.
  destruct opened_frame as (Hs & Hf & Hd & Hv & Hl & Hold & Hnew). split.
  - split; [apply opened_visits_ok|apply opened_shape|apply opened_apart|apply opened_nested].
  - intros j x' d [(x & Hx & ->)|[-> ->]]%opened_at; [|by intros ?%not_elem_of_nil]. rewrite Hd.
    destruct (grown_of x) as (_ & _ & _ & _ & _ & ->). intros [Hin|Hin]%elem_of_app; [by eapply (wo_declared self stack Hok)|].
    case_decide; [by apply list_elem_of_singleton in Hin|by apply not_elem_of_nil in Hin].
  - intros j x' k c [(x & Hx & ->)|[-> ->]]%opened_at; [|done]. destruct (grown_of x) as (_ & _ & _ & _ & _ & ->).
    intros [Hk|[Hle Hk]]%lookup_app_Some.
    + assert (Hin := list_elem_of_lookup_2 _ _ _ Hk). destruct (opened_child j x c Hx Hin) as (m & csc & -> & _ & Hm & _). rewrite Hold.
      * by apply (wo_index self stack Hok j x).
      * apply lookup_lt_Some in Hm. cbn [scope_id_]. unfold n. lia.
    + case_decide as Hp; [|done]. apply list_lookup_singleton_Some in Hk as [Hk [= <-]]. rewrite (Hnew j x Hp Hx). lia.
  - rewrite Hl, Hs, length_app, length_fmap, (wo_lengths self stack Hok). simpl. lia.
  - intros q j Hj. rewrite Hv, Hf. apply (wo_fresh self stack Hok). rewrite Hs, length_app in Hj. rewrite length_fmap in Hj. lia.
  - intros i [Hi|Hi]%elem_of_app; rewrite Hf, Hs, length_app, length_fmap.
    + destruct (wo_stack self stack Hok i Hi) as (k & -> & Hk). exists k. split; [done|lia].
    + apply list_elem_of_singleton in Hi as ->. exists n. split; [done|]. unfold n. simpl. lia.
Qed.
End Opened.
End Build.
