(* ===== verification/DeclEventsProofs.v ===== *)
(** * The walk keeps the declaration tree sound

    The invariant of [DeclWalkProofs] through the operations of the analyzer:
    entering and leaving nodes, the seeds of a scoped class, and filing
    declarations. *)

From S2P Require Import Prelude Kinds Text FileOrder Dependency EditMap EditRemap Derivation Readers ReadersProofs KeyTable KeyTableProofs FactKey DeclTree DeclWalk DeclTreeProofs DeclWalkProofs.
From stdpp Require Import list gmap sorting.
Local Open Scope prog_scope.

Section Events.
Context {LuaType VarRefId : Type}.
Notation Tree := (LuaDeclarationTree LuaType VarRefId).
Notation Analyzer := (DeclAnalyzer LuaType VarRefId).
Implicit Types (self : Analyzer) (tree : Tree).

(** ** Room for more scopes and children *)

Definition roomy (n : nat) tree : Prop :=
  (N.of_nat (length (scopes tree) + n) < 2 ^ 32)%N
  /\ Forall (fun sc => N.of_nat (length (children sc) + n) < 2 ^ 32)%N (scopes tree).

Lemma roomy_room n tree : roomy n tree -> room tree.
Proof. intros [H1 H2]. rewrite Forall_lookup in H2. split; [lia|]. intros i sc Hi. specialize (H2 i sc Hi). simpl in H2. lia. Qed.

Lemma roomy_le m n tree : m <= n -> roomy n tree -> roomy m tree.
Proof. intros Hle [H1 H2]. split; [lia|]. eapply Forall_impl; [exact H2|]. simpl. intros. lia. Qed.

(** ** A node is entered *)

(** The range of the node lies in the scope that is open, past its last child. *)
Definition node_fits tree (par : option LuaScopeId) (kind : LuaScopeKind) (range : TextRange) : bool :=
  ((text_start range <=? text_end range)%N
   && match par with
      | None => true
      | Some p =>
          match LuaDeclarationTree.get_scope tree p with
          | Some psc =>
              (LuaScope.get_position psc <=? text_start range)%N && (text_end range <=? text_end (scope_range psc))%N
              && forallb (fun c => (text_end (scope_range c) <=? text_start range)%N) (LuaDeclarationTree.child_scopes tree psc)
              && (negb (bool_decide (scope_kind psc = Repeat)) || bool_decide (kind = Normal))
          | None => false
          end
      end).

Lemma enter_ok self range kind n :
  walk_ok (decl self) (open_scopes self) -> roomy (S n) (decl self) -> node_fits (decl self) (last (open_scopes self)) kind range = true ->
  let self' := create_scope self range kind in
  walk_ok (decl self') (open_scopes self') /\ roomy n (decl self') /\ decls (decl self') = decls (decl self)
  /\ seeded_scoped_class_decl self' = seeded_scoped_class_decl self /\ scoped_class_info self' = scoped_class_info self.
Proof.
  intros Hok Hroom Hfit. set (tree := decl self) in *. set (par := last (open_scopes self)) in *.
  apply andb_true_iff in Hfit as [Hrg Hpar]. apply N.leb_le in Hrg.
  assert (Hp : forall p, par = Some p -> exists i psc, scopes tree !! i = Some psc /\ scope_id psc = p
    /\ (LuaScope.get_position psc <= text_start range)%N /\ (text_end range <= text_end (scope_range psc))%N
    /\ (forall c, c ∈ LuaDeclarationTree.child_scopes tree psc -> (text_end (scope_range c) <= text_start range)%N)
    /\ (scope_kind psc = Repeat -> kind = Normal)).
  { intros p Hp. rewrite Hp in Hpar. destruct (LuaDeclarationTree.get_scope tree p) as [psc|] eqn:Hg; [|done].
    repeat apply andb_true_iff in Hpar as [Hpar ?]. apply N.leb_le in Hpar. rewrite N.leb_le in *.
    assert (Hin : p ∈ open_scopes self) by by eapply last_Some_elem_of.
    destruct (wo_stack tree _ Hok p Hin) as (i & -> & Hi). unfold LuaDeclarationTree.get_scope in Hg. simpl in Hg. rewrite Nat2N.id in Hg.
    exists i, psc. split_and!; try done.
    - by apply (ts_ids tree (to_shape tree (wo_tree tree _ Hok))).
    - intros c Hc. apply N.leb_le. rewrite forallb_forall in *. by match goal with H : forall _, _ -> _ |- _ => apply H, list_elem_of_In end.
    - intros Hk. rewrite bool_decide_true in * by done. by eapply bool_decide_eq_true. }
  assert (Ht : decl (create_scope self range kind) = opened_tree tree par range kind).
  { unfold create_scope, opened_tree. fold tree par. by destruct (LuaDeclarationTree.create_scope tree range kind). }
  assert (Hs : open_scopes (create_scope self range kind) = open_scopes self ++ [mkScopeId (file_id tree) (N.of_nat (length (scopes tree)))]).
  { assert (Hid := opened_id tree range kind (roomy_room _ _ Hroom)). unfold create_scope. fold tree par. rewrite <- Hid.
    by destruct (LuaDeclarationTree.create_scope tree range kind). }
  cbv zeta. rewrite Ht, Hs. split_and!.
  - by apply opened_ok; [|eapply roomy_room| |].
  - destruct (opened_frame tree (open_scopes self) par range kind Hok (roomy_room _ _ Hroom) Hp Hrg) as [Hsc _].
    destruct Hroom as [R1 R2]. rewrite Forall_forall in R2. unfold roomy. rewrite Hsc, length_app, length_fmap. simpl. split; [lia|].
    apply Forall_app. split; [|repeat constructor; simpl; lia]. apply Forall_fmap, Forall_forall. intros x Hx. specialize (R2 x Hx).
    unfold grown, LuaScope.add_child. cbv beta in R2 |- *. simpl. destruct (decide (par = Some (scope_id x))); cbn [children]; [rewrite length_app; simpl|]; lia.
  - unfold opened_tree, LuaDeclarationTree.create_scope. destruct par; [|done]. unfold LuaDeclarationTree.add_child_scope. simpl.
    unfold LuaDeclarationTree.file_child_scope_with_decls. repeat (case_match; try done).
  - unfold create_scope. by destruct (LuaDeclarationTree.create_scope _ _ _).
  - unfold create_scope. by destruct (LuaDeclarationTree.create_scope _ _ _).
Qed.

Lemma stack_le tree stack stack' : walk_ok tree stack -> (forall id, id ∈ stack' -> id ∈ stack) -> walk_ok tree stack'.
Proof. intros [? ? ? ? ? H] Hs. split; try done. intros id Hid. by apply H, Hs. Qed.

Lemma leave_ok self : walk_ok (decl self) (open_scopes self) -> walk_ok (decl (pop_scope self)) (open_scopes (pop_scope self)).
Proof. intros Hok. eapply stack_le; [exact Hok|]. intros id Hid. by eapply elem_of_take in Hid as (i & Hi & _); eapply list_elem_of_lookup_2. Qed.

(** ** A declaration is filed *)

(** The id of the declaration is free, or taken under the same name. *)
Definition names_agree tree (d : LuaDecl) : bool :=
  match LuaDeclarationTree.get_decl tree (LuaDecl.get_id d) with
  | Some d' => bool_decide (decl_name d' = decl_name d)
  | None => true
  end.

Lemma localised_same self d : LuaDecl.get_id (localised self d) = LuaDecl.get_id d /\ decl_name (localised self d) = decl_name d.
Proof. unfold localised. repeat (case_match; try done). Qed.

Lemma moduled_same self d : LuaDecl.get_id (moduled self d) = LuaDecl.get_id d /\ decl_name (moduled self d) = decl_name d.
Proof. unfold moduled. repeat (case_match; try done). Qed.

(** What filing leaves of the rest of the analyzer. *)
Definition same_walk self self' : Prop :=
  open_scopes self' = open_scopes self /\ seeded_scoped_class_decl self' = seeded_scoped_class_decl self
  /\ scoped_class_info self' = scoped_class_info self.

(** The declaration as the tree takes it, and the tree after it. *)
Definition filed self (d : LuaDecl) (in_scope : bool) : Tree :=
  let tree := (LuaDeclarationTree.add_decl (decl self) d).2 in
  match in_scope, last (open_scopes self) with
  | true, Some id => LuaDeclarationTree.add_decl_to_scope tree id (LuaDecl.get_id d)
  | _, _ => tree
  end.

Lemma insert_decl_eq key self d in_scope :
  let added := insert_decl key self d in_scope in
  decl added.2 = filed self (moduled self (localised self d)) in_scope /\ same_walk self added.2.
Proof.
  unfold insert_decl, filed, same_walk. set (d' := moduled _ _). cbv zeta.
  destruct (LuaDeclarationTree.add_decl (decl self) d') as [id tree] eqn:Ha. assert (id = LuaDecl.get_id d') as -> by (by injection Ha as <- _).
  unfold add_decl_to_current_scope. destruct in_scope, (LuaDecl.is_global d'), (LuaDecl.get_module_path d'); simpl;
    destruct (last (open_scopes self)); done.
Qed.

Lemma filed_tree_ok self d in_scope n :
  walk_ok (decl self) (open_scopes self) -> roomy (S n) (decl self) -> names_agree (decl self) d = true ->
  walk_ok (filed self d in_scope) (open_scopes self) /\ roomy n (filed self d in_scope)
  /\ decls (filed self d in_scope) = <[LuaDecl.get_id d := d]> (decls (decl self)).
Proof.
  intros Hok Hroom Hname. unfold filed. set (tree := (LuaDeclarationTree.add_decl (decl self) d).2).
  assert (Hn : forall d', LuaDeclarationTree.get_decl (decl self) (LuaDecl.get_id d) = Some d' -> decl_name d' = decl_name d).
  { intros d' Hd'. unfold names_agree in Hname. rewrite Hd' in Hname. by eapply bool_decide_eq_true. }
  destruct (add_decl_ok (decl self) (open_scopes self) d Hok Hn) as (Hok' & Hget & Hsc & Hf). fold tree in Hok', Hget, Hsc, Hf.
  change (LuaDeclarationTree.get_decl tree (LuaDecl.get_id d) = Some d) in Hget.
  assert (Hroom' : roomy (S n) tree) by (unfold roomy; by rewrite Hsc).
  assert (Hplain : walk_ok tree (open_scopes self) /\ roomy n tree /\ decls tree = <[LuaDecl.get_id d := d]> (decls (decl self))).
  { split_and!; [done|by eapply roomy_le; [|exact Hroom']; lia|done]. }
  destruct in_scope; [|exact Hplain]. destruct (last (open_scopes self)) as [id|] eqn:Hl; [|exact Hplain]. clear Hplain.
  destruct (wo_stack tree _ Hok' id) as (i & Hid & Hi); [by eapply last_Some_elem_of|].
  destruct (lookup_lt_is_Some_2 (scopes tree) i Hi) as [sc Hi']. assert (Hids := ts_ids tree (to_shape tree (wo_tree tree _ Hok')) i sc Hi').
  rewrite Hid, <- Hids. rewrite (add_decl_to_scope_eq tree i sc _ d (to_shape tree (wo_tree tree _ Hok')) Hi' Hget).
  destruct (declared_frame tree i sc (LuaDecl.get_id d) d) as (Hs & _ & _ & Hg). split_and!.
  - apply declared_ok; [done|done|done|by eapply roomy_room].
  - destruct Hroom' as [R1 R2]. unfold roomy. rewrite Hs, length_insert. split; [lia|]. apply Forall_insert.
    + eapply Forall_impl; [exact R2|]. cbv beta. intros. lia.
    + rewrite Forall_lookup in R2. specialize (R2 i sc Hi'). simpl. rewrite length_app. cbv beta in R2. simpl. lia.
  - apply map_eq. intros x. apply Hg.
Qed.

Lemma insert_decl_ok key self d in_scope n :
  walk_ok (decl self) (open_scopes self) -> roomy (S n) (decl self) -> names_agree (decl self) d = true ->
  let self' := (insert_decl key self d in_scope).2 in
  walk_ok (decl self') (open_scopes self') /\ roomy n (decl self') /\ same_walk self self'
  /\ exists d', decls (decl self') = <[LuaDecl.get_id d := d']> (decls (decl self)) /\ decl_name d' = decl_name d.
Proof.
  intros Hok Hroom Hname. destruct (insert_decl_eq key self d in_scope) as [Hd Hs]. set (d' := moduled self (localised self d)) in *.
  assert (Hid : LuaDecl.get_id d' = LuaDecl.get_id d) by (unfold d'; rewrite (proj1 (moduled_same _ _)); apply localised_same).
  assert (Hnm : decl_name d' = decl_name d) by (unfold d'; rewrite (proj2 (moduled_same _ _)); apply localised_same).
  destruct (filed_tree_ok self d' in_scope n Hok Hroom) as (H1 & H2 & H3); [unfold names_agree in *; by rewrite Hid, Hnm|].
  cbv zeta. rewrite Hd. destruct Hs as (Ho & Hs). rewrite Ho. split_and!; try done. exists d'. by rewrite H3, Hid.
Qed.

(** ** The seeds of a scoped class *)

Lemma seed_ok key self name range n :
  walk_ok (decl self) (open_scopes self) -> roomy (S n) (decl self) ->
  (forall id, is_Some (decls (decl self) !! id) -> (decl_position id < text_start range)%N) ->
  let self' := seed_scoped_class_decl_name key self name true range in
  walk_ok (decl self') (open_scopes self') /\ roomy n (decl self') /\ same_walk self self'
  /\ forall id, is_Some (decls (decl self') !! id) -> (decl_position id < text_start range + 1)%N.
Proof.
  intros Hok Hroom Hfree. unfold seed_scoped_class_decl_name, add_decl. set (d := LuaDecl.new _ _ _ _ _).
  assert (Hn : names_agree (decl self) d = true).
  { unfold names_agree, LuaDeclarationTree.get_decl. destruct (decls (decl self) !! LuaDecl.get_id d) eqn:Hd; [|done].
    assert (Hlt := Hfree _ (mk_is_Some _ _ Hd)). simpl in Hlt. unfold LuaDecl.get_position in Hlt. simpl in Hlt. lia. }
  destruct (insert_decl_ok key self d true n Hok Hroom Hn) as (H1 & H2 & H3 & d' & H4 & _). split_and!; try done; try apply H3. cbv zeta. rewrite H4.
  intros id Hid. destruct (decide (id = LuaDecl.get_id d)) as [->|Hne].
  - simpl. unfold LuaDecl.get_position. simpl. lia.
  - rewrite lookup_insert_ne in Hid by done. specialize (Hfree id Hid). lia.
Qed.

Lemma seeds_ok key names n : forall self position,
  walk_ok (decl self) (open_scopes self) -> roomy (length names + n) (decl self) ->
  (forall id, is_Some (decls (decl self) !! id) -> (decl_position id < position)%N) ->
  let self' := seed_names key self names position in
  walk_ok (decl self') (open_scopes self') /\ roomy n (decl self').
Proof.
  induction names as [|name names IH]; intros self position Hok Hroom Hfree; [done|]. cbn [seed_names].
  destruct (seed_ok key self name (mkTextRange position position) (length names + n) Hok Hroom Hfree) as (H1 & H2 & _ & H4). by apply IH.
Qed.

Definition seeds self : nat := match scoped_class_info self with Some info => S (length (aliases info)) | None => 0 end.

Lemma maybe_seed_ok key self range n :
  walk_ok (decl self) (open_scopes self) -> roomy (seeds self + n) (decl self) ->
  (seeded_scoped_class_decl self = true \/ decls (decl self) = ∅) ->
  let self' := maybe_seed_scoped_class_decl key self range in
  walk_ok (decl self') (open_scopes self') /\ roomy n (decl self').
Proof.
  intros Hok Hroom Hempty. unfold maybe_seed_scoped_class_decl.
  assert (Hplain : walk_ok (decl self) (open_scopes self) /\ roomy n (decl self)) by (split; [done|]; eapply roomy_le; [|exact Hroom]; lia).
  destruct (seeded_scoped_class_decl self); [done|]. destruct Hempty as [|Hempty]; [done|]. unfold seeds in Hroom.
  destruct (scoped_class_info self) as [info|]; [|done]. destruct (negb (is_global_singleton info)); [done|].
  apply (seeds_ok key (global_name info :: aliases info) n self); [done|done|]. rewrite Hempty. intros id. rewrite lookup_empty. by intros [].
Qed.
End Events.
