(* ===== verification/DeclTreeSpec.v ===== *)
(** * The declaration tree of a walk

    What the walk over the syntax tree files, and what the searches of the
    tree that it leaves find: the theorems on declarations and scopes. *)

From S2P Require Import Prelude Kinds Text FileOrder Dependency EditMap EditRemap Derivation Readers ReadersProofs KeyTable KeyTableProofs FactKey DeclTree DeclWalk DeclTreeProofs DeclWalkProofs DeclEventsProofs.
From stdpp Require Import list gmap sorting.
Local Open Scope prog_scope.

Section Walks.
Context {LuaType VarRefId : Type} (key : rstring) (namespace : rstring -> LuaType).
Notation Tree := (LuaDeclarationTree LuaType VarRefId).
Notation Analyzer := (DeclAnalyzer LuaType VarRefId).
Implicit Types (self : Analyzer) (tree : Tree).

(** ** Walks in the order of the text *)

Definition roomyb (n : nat) tree : bool :=
  (N.of_nat (length (scopes tree) + n) <? 2 ^ 32)%N
  && forallb (fun sc => N.of_nat (length (children sc) + n) <? 2 ^ 32)%N (scopes tree).

Lemma roomyb_roomy n tree : roomyb n tree = true -> roomy n tree.
Proof.
  unfold roomyb, roomy. rewrite andb_true_iff, N.ltb_lt, forallb_forall. intros [H1 H2]. split; [done|]. apply Forall_forall.
  intros sc Hsc. apply N.ltb_lt. apply (H2 sc). by apply list_elem_of_In.
Qed.

(** A node lies in the open scope past its last child, the chunk comes before
    any declaration, and no declaration takes the place of one of another
    name. *)
Definition well_placed self (event : WalkEvent) : bool :=
  match event with
  | Enter node range =>
      roomyb (S (seeds self)) (decl self) && node_fits (decl self) (last (open_scopes self)) (kind_of node) range
      && match node with LuaChunk => seeded_scoped_class_decl self || bool_decide (decls (decl self) = ∅) | _ => true end
  | Leave | EnterModule _ => true
  | AddDecl d | AddGlobalTableDecl d => roomyb 1 (decl self) && names_agree (decl self) d
  end.

Fixpoint well_formed self (events : list WalkEvent) : bool :=
  match events with
  | [] => true
  | event :: events =>
      well_placed self event
      && match walk_event key namespace self event with Done self' => well_formed self' events | _ => true end
  end.

Lemma new_ok file_id info : walk_ok (decl (new file_id info : Analyzer)) (open_scopes (new file_id info : Analyzer)).
Proof.
  split; simpl; try done.
  - intros q i _. unfold LuaDeclarationTree.visits_of. destruct q; simpl; by rewrite lookup_empty.
  - by intros id ?%not_elem_of_nil.
Qed.

Lemma find_decl_total self name position :
  walk_ok (decl self) (open_scopes self) -> exists found, find_decl self name position = Done found.
Proof.
  intros Hok. unfold find_decl. destruct (visible_total (decl self) position (wo_tree _ _ Hok)) as [l Hl].
  rewrite (find_local_scan _ name position l (wo_tree _ _ Hok) Hl), done_bind. by eexists.
Qed.

Lemma walk_event_ok self event :
  walk_ok (decl self) (open_scopes self) -> well_placed self event = true ->
  exists self', walk_event key namespace self event = Done self' /\ walk_ok (decl self') (open_scopes self').
Proof.
  intros Hok Hw. destruct event as [node range| |d|d|env]; cbn [walk_event well_placed] in *.
  - rewrite !andb_true_iff in Hw. destruct Hw as [[Hroom%roomyb_roomy Hfit] Hchunk].
    destruct (enter_ok self range (kind_of node) (seeds self) Hok Hroom Hfit) as (H1 & H2 & H3 & H4 & H5).
    eexists. split; [done|]. unfold walk_node_enter. set (self' := create_scope self range (kind_of node)) in *.
    destruct node; simpl; try exact H1.
    destruct (maybe_seed_ok key self' range 0 H1) as [Ho _]; [unfold seeds in *; by rewrite H5, Nat.add_0_r| |exact Ho].
    apply orb_true_iff in Hchunk as [Hs|He%bool_decide_eq_true]; [left; by rewrite H4|right; by rewrite H3].
  - eexists. split; [done|]. by apply leave_ok.
  - apply andb_true_iff in Hw as [Hroom%roomyb_roomy Hn]. eexists. split; [done|]. by apply (insert_decl_ok key self d true 0).
  - apply andb_true_iff in Hw as [Hroom%roomyb_roomy Hn]. unfold add_global_table_decl.
    destruct (find_decl_total self (decl_name d) (LuaDecl.get_position d) Hok) as [found ->]. rewrite done_bind, done_bind.
    eexists. split; [done|]. by apply (insert_decl_ok key self d _ 0).
  - eexists. split; [done|]. unfold set_legacy_module_env, project_legacy_module_chain_members. by destruct (_ <? _).
Qed.

Lemma analyze_ok events : forall self,
  walk_ok (decl self) (open_scopes self) -> well_formed self events = true ->
  exists self', analyze key namespace self events = Done self' /\ walk_ok (decl self') (open_scopes self').
Proof.
  induction events as [|event events IH]; intros self Hok Hw; [by exists self|]. cbn [well_formed analyze] in *.
  apply andb_true_iff in Hw as [Hp Hw]. destruct (walk_event_ok self event Hok Hp) as (self' & He & Hok'). rewrite He in *. rewrite done_bind. by apply IH.
Qed.

(** C16: a walk in the order of the text comes to its end, and leaves a tree whose
    scopes name their parents and children both ways, lie apart and inside one
    another, and whose visit sets, by scope and by name, hold exactly what the
    children of each scope say, in the order of their positions. *)
Theorem walk_files_all file_id info events :
  well_formed (new file_id info) events = true ->
  exists self, analyze key namespace (new file_id info) events = Done self
    /\ tree_ok (decl self)
    /\ (forall i sc d, scopes (decl self) !! i = Some sc -> DeclChild d ∈ children sc -> is_Some (LuaDeclarationTree.get_decl (decl self) d))
    /\ forall id, id ∈ open_scopes self -> is_Some (LuaDeclarationTree.get_scope (decl self) id).
Proof.
  intros Hw. destruct (analyze_ok events (new file_id info) (new_ok file_id info) Hw) as (self & Ha & Hok).
  exists self. split_and!; [done|apply Hok|apply Hok|]. intros id Hid. destruct (wo_stack _ _ Hok id Hid) as (i & -> & Hi).
  unfold LuaDeclarationTree.get_scope. simpl. rewrite Nat2N.id. by apply lookup_lt_is_Some_2.
Qed.

(** C14: after a walk, the search for the local of a name and the list of what is in
    scope come to an end at every position, and are what a scan of the children of
    the scopes on the way up gives, though they look only at the visit sets of the
    name; the binary search for the scope of a position is the linear one, which is
    what the program asserts in its debug builds. *)
Theorem searches_are_scans file_id info events self name position :
  well_formed (new file_id info) events = true -> analyze key namespace (new file_id info) events = Done self ->
  (exists l, visible (decl self) position = Done l
    /\ LuaDeclarationTree.find_local_decl (decl self) name position
       = Done (List.find (fun d => bool_decide (decl_name d = name)) (declared (decl self) l))
    /\ LuaDeclarationTree.get_env_decls (decl self) position
       = Done (if bool_decide (scopes (decl self) = []) then None
               else Some (LuaDecl.get_id <$> filter (fun d => LuaDecl.is_implicit_self d = false) (declared (decl self) l))))
  /\ forall i sc, scopes (decl self) !! i = Some sc ->
     LuaDeclarationTree.find_child_scope (decl self) sc position = Done (LuaDeclarationTree.linear_find_child_scope (decl self) sc position).
Proof.
  intros Hw Ha. destruct (analyze_ok events (new file_id info) (new_ok file_id info) Hw) as (self' & Ha' & Hok).
  rewrite Ha in Ha'. injection Ha' as <-. assert (Ht := wo_tree _ _ Hok). split.
  - destruct (visible_total (decl self) position Ht) as [l Hl]. exists l. split_and!; [done|by apply find_local_scan|by apply get_env_scan].
  - intros i sc Hi. apply find_child_scope_linear; [eapply shape_resolved; [apply Ht|done]|by eapply to_apart].
Qed.

End Walks.

(** ** A file

<<
local x = 1
repeat
  local y = x
until y > x
local function f(a) end
>> *)

Definition named_local (kind : LuaSyntaxKind) (name : N) (position : N) : LuaDecl :=
  LuaDecl.new [name] 1%N (mkTextRange position (position + 1)) (Local_ (Syntax kind) None) None.

Definition file_events : list WalkEvent :=
  [Enter LuaChunk (mkTextRange 0 70); Enter LuaBlock (mkTextRange 0 70);
   Enter LuaLocalStat (mkTextRange 0 11); AddDecl (named_local LocalName 120 6); Leave;
   Enter LuaRepeatStat (mkTextRange 12 44); Enter LuaBlock (mkTextRange 21 32);
   Enter LuaLocalStat (mkTextRange 21 32); AddDecl (named_local LocalName 121 27); Leave; Leave; Leave;
   Enter LuaLocalFuncStat (mkTextRange 45 68); AddDecl (named_local LocalName 102 60);
   Enter LuaClosureExpr (mkTextRange 61 68); AddDecl (named_local ParamName 97 62);
   Enter LuaBlock (mkTextRange 64 65); Leave; Leave; Leave; Leave; Leave].

Definition file_walked : DeclAnalyzer unit unit :=
  match analyze [] (fun _ => tt) (new 1%N None) file_events with Done self => self | _ => new 1%N None end.

Definition found_at (name : N) (position : N) : outcome (option N) :=
  match LuaDeclarationTree.find_local_decl (decl file_walked) [name] position with
  | Done found => Done (LuaDecl.get_position <$> found)
  | Panic => Panic
  | OutOfFuel => OutOfFuel
  end.

(** [y] in its own initializer and in the condition, past the loop, and in the
    body of [f], which sees [f], [a] and [x]. *)
Example found_in_file :
  (found_at 121 31, found_at 121 39, found_at 121 50, found_at 97 64, found_at 102 64, found_at 120 64, found_at 120 10)
  = (Done None, Done (Some 27%N), Done None, Done (Some 62%N), Done (Some 60%N), Done (Some 6%N), Done None).
Proof. vm_compute. reflexivity. Qed.

(** [y] is not in scope past the loop: its body is not around the position. *)
Example closed_body_is_out_of_scope : ~ in_scope (decl file_walked) 50 (mkDeclId 1%N 27).
Proof.
  assert (Hs : Forall (fun sc => DeclChild (mkDeclId 1%N 27) ∈ children sc -> scope_kind sc = LocalOrAssignStat /\
      exists p r, parent_of (decl file_walked) sc = Some p /\ parent_of (decl file_walked) p = Some r
        /\ Forall (fun q => range_contains (scope_range q) 50 = false /\ LuaDeclarationTree.get_root_scope (decl file_walked) <> Some q) [sc; p; r])
    (scopes (decl file_walked))).
  { vm_compute. repeat (constructor; [intros Hin; first
      [ exfalso; repeat (apply elem_of_cons in Hin as [Hin|Hin]; [discriminate Hin|]); by apply elem_of_nil in Hin
      | split; [reflexivity|]; do 2 eexists; split; [reflexivity|]; split; [reflexivity|]; repeat constructor; by intros [=] ]|]). constructor. }
  revert Hs. generalize (decl file_walked). intros t Hs (i & sc & Hi & Hin & Hcase). eapply Forall_lookup_1 in Hs; [|exact Hi]. destruct (Hs Hin) as (Hk & p & r & Hp & Hr & Hout). clear Hs.
  assert (Hnot : forall q, q ∈ [sc; p; r] -> ~ around t 50 q).
  { intros q Hq. eapply Forall_forall in Hout; [|exact Hq]. destruct Hout. intros [?|?]; congruence. }
  destruct Hcase as [(_ & Hnk & _)|[(_ & _ & p' & Hp' & [Ha|(r' & Hr' & _ & Ha & _)])|[Ha _]]].
  - exact (Hnk Hk).
  - assert (p' = p) as -> by congruence. by apply (Hnot p); [set_solver|].
  - assert (p' = p) as -> by congruence. assert (r' = r) as -> by congruence. by apply (Hnot r); [set_solver|].
  - by apply (Hnot sc); [set_solver|].
Qed.

Lemma walk_files_all_witness :
  well_formed [] (fun _ => tt) (new 1%N None : DeclAnalyzer unit unit) file_events = true
  /\ exists self : DeclAnalyzer unit unit, analyze [] (fun _ => tt) (new 1%N None) file_events = Done self /\ tree_ok (decl self).
Proof.
  split; [vm_compute; reflexivity|].
  destruct (walk_files_all [] (fun _ => tt) 1%N None file_events (VarRefId := unit) ltac:(vm_compute; reflexivity)) as (self & H1 & H2 & _).
  exists self. exact (conj H1 H2).
Defined.

Lemma searches_are_scans_witness :
  analyze [] (fun _ => tt) (new 1%N None) file_events = Done file_walked
  /\ exists l, visible (decl file_walked) 64 = Done l
     /\ LuaDeclarationTree.find_local_decl (decl file_walked) [120%N] 64
        = Done (List.find (fun d => bool_decide (decl_name d = [120%N])) (declared (decl file_walked) l)).
Proof.
  assert (Ha : analyze [] (fun _ => tt) (new 1%N None) file_events = Done file_walked) by (vm_compute; reflexivity).
  split; [exact Ha|].
  destruct (searches_are_scans [] (fun _ => tt) 1%N None file_events file_walked [120%N] 64 ltac:(vm_compute; reflexivity) Ha) as [(l & H1 & H2 & _) _].
  exists l. exact (conj H1 H2).
Defined.

