(* ===== verification/ModuleIndex.v ===== *)
(** * Modules and workspaces

    [src/crates/glua_code_analysis/src/db_index/module/] with the versions of
    [glua_parser/src/kind/lua_version.rs]: which file is which module, the tree of
    dotted module paths, the workspaces and which of them sees which, and the
    lookup of a module by its path.

    Regular expressions are the crate's, what a type or a declaration refers to is
    the type index's: both are arguments.  Paths are those of Unix. *)

From S2P Require Import Prelude Kinds Text FileOrder Dependency EditMap EditRemap Derivation Readers KeyTable FactKey DeclTree DeclWalk.
From stdpp Require Import list gmap.
Local Open Scope prog_scope.

(** ** Versions *)

Record LuaVersionNumber : Type := mkVersion { major : N; minor : N; patch : N }.

#[global] Instance version_eq_dec : EqDecision LuaVersionNumber.
Proof. solve_decision. Defined.

Definition parse_u32 (s : rstring) : option N :=
  let digits := match s with c :: rest => if c =c "+" then rest else s | [] => s end in
  let is_digit c := ((48 <=? c) && (c <=? 57))%N in
  if bool_decide (digits = []) || negb (forallb is_digit digits) then None else
  let value := foldl (fun value c => value * 10 + (c - 48))%N 0%N digits in
  if (value <? 2 ^ 32)%N then Some value else None.

Module LuaVersionNumber.
Definition new (major minor patch : N) : LuaVersionNumber := mkVersion major minor patch.
Definition LUA_JIT : LuaVersionNumber := mkVersion 2 0 0.

Definition from_str (s : rstring) : option LuaVersionNumber :=
  if s =s "JIT" then Some LUA_JIT else
  let parts := (fun part => default 0%N (parse_u32 part)) <$> split_at dot s in
  Some (mkVersion (default 0%N (parts !! 0)) (default 0%N (parts !! 1)) (default 0%N (parts !! 2))).

Definition cmp (self other : LuaVersionNumber) : comparison :=
  DerivationId.lex_cmp [major self; minor self; patch self] [major other; minor other; patch other].
End LuaVersionNumber.

Inductive LuaVersionCondition : Type :=
  | VersionEq (version : LuaVersionNumber)
  | VersionGte (version : LuaVersionNumber)
  | VersionLte (version : LuaVersionNumber).

Module LuaVersionCondition.
Definition check (self : LuaVersionCondition) (version : LuaVersionNumber) : bool :=
  match self with
  | VersionEq v => bool_decide (version = v)
  | VersionGte v => match LuaVersionNumber.cmp version v with Lt => false | _ => true end
  | VersionLte v => match LuaVersionNumber.cmp version v with Gt => false | _ => true end
  end.
End LuaVersionCondition.

(** ** Workspaces *)

Inductive WorkspaceKind : Type := Std | Main | Remote | Library_.

#[global] Instance workspace_kind_eq_dec : EqDecision WorkspaceKind.
Proof. solve_decision. Defined.

Module WorkspaceKind.
Definition MERGE_RANK_NONE : N := 4.
Definition merge_rank (self : WorkspaceKind) : N :=
  match self with Std => 0 | Library_ => 1 | Remote => 2 | Main => 3 end.
End WorkspaceKind.

(** A [WorkspaceId] is its number, as is a [ModuleNodeId]. *)
Notation WorkspaceId := N (only parsing).
Notation ModuleNodeId := N (only parsing).

Module WorkspaceId.
Definition STD : WorkspaceId := 0%N.
Definition MAIN : WorkspaceId := 1%N.
Definition REMOTE : WorkspaceId := 2%N.
End WorkspaceId.

Record Workspace : Type := mkWorkspace { root : rstring; ws_id : WorkspaceId; ws_kind : WorkspaceKind }.

Record WorkspaceResolutionKey : Type := mkResolutionKey { tier : N; library_order : N; key_workspace : N }.

(** ** Orders of tuples *)

Definition then_cmp (c1 c2 : comparison) : comparison := match c1 with Eq => c2 | _ => c1 end.
Definition is_lt (c : comparison) : bool := match c with Lt => true | _ => false end.
Definition str_cmp (s t : rstring) : comparison := DerivationId.lex_cmp s t.
Definition bool_cmp (a b : bool) : comparison := N.compare (N.b2n a) (N.b2n b).
Definition opt_cmp {A} (cmp : A -> A -> comparison) (a b : option A) : comparison :=
  match a, b with None, None => Eq | None, Some _ => Lt | Some _, None => Gt | Some a, Some b => cmp a b end.

Definition usize_max : N := 2 ^ 64 - 1.

(** ** Strings and paths *)

Definition slash : char := 47%N.

Definition replace_char (c by_ : char) (s : rstring) : rstring := map (fun x => if N.eqb x c then by_ else x) s.

(** [replace(['\\', '/'], ".")] *)
Definition dotted (s : rstring) : rstring := replace_char BACKSLASH dot (replace_char slash dot s).

Fixpoint trim_end_matches (c : char) (s : rstring) : rstring :=
  match s with
  | [] => []
  | x :: s => match trim_end_matches c s with [] => if N.eqb x c then [] else [x] | rest => x :: rest end
  end.

Definition strip_prefix (prefix s : rstring) : option rstring :=
  if bool_decide (take (length prefix) s = prefix) then Some (drop (length prefix) s) else None.

Definition strip_suffix (suffix s : rstring) : option rstring :=
  reverse <$> strip_prefix (reverse suffix) (reverse s).

(** [str::replace] of a pattern that is not empty. *)
Fixpoint replace_str (fuel : nat) (pattern by_ s : rstring) : rstring :=
  match fuel, s with
  | 0, _ | _, [] => s
  | S fuel, c :: rest =>
      match strip_prefix pattern s with
      | Some after => by_ ++ replace_str fuel pattern by_ after
      | None => c :: replace_str fuel pattern by_ rest
      end
  end.

(** The names of a path, from the root or not. *)
Definition components (path : rstring) : bool * list rstring :=
  let proper := filter (fun part => part <> [] /\ part <> [dot]) in
  (bool_decide (head path = Some slash),
   match split_at slash path with
   | first :: rest => if bool_decide (first = [dot]) then first :: proper rest else proper (first :: rest)
   | [] => []
   end).

Definition same_path (p q : rstring) : bool := bool_decide (components p = components q).

(** [Path::file_prefix]: the name up to a dot that does not begin it. *)
Definition file_prefix (path : rstring) : option rstring :=
  name ← last (components path).2;
  if bool_decide (name = [dot; dot]) || bool_decide (name = [dot]) then None else
  match name with [] => None | c :: rest => Some (c :: default [] (head (split_at dot rest))) end.

(** The first segment of a dotted path, and the last of a path as lookups split it. *)
Definition namespace_root (module_path : rstring) : rstring := default module_path (head (split_at dot module_path)).
Definition lookup_name (module_path : rstring) : rstring := default module_path (last (split_at dot (dotted module_path))).

(** ** The tree of module paths *)

Record ModuleNode : Type := mkNode {
  node_parent : option ModuleNodeId;
  node_children : gmap rstring ModuleNodeId;
  file_ids : list FileId
}.

Definition empty_node : ModuleNode := mkNode None ∅ [].
Notation Nodes := (gmap N ModuleNode).

(** The node that a path leads to. *)
Fixpoint walk_nodes (nodes : Nodes) (parent_node_id : ModuleNodeId) (parts : list rstring) : option ModuleNodeId :=
  match parts with
  | [] => Some parent_node_id
  | part :: parts =>
      parent_node ← nodes !! parent_node_id;
      child_id ← node_children parent_node !! part;
      walk_nodes nodes child_id parts
  end.

(** The node of a path, made where it is missing; [None] for a node that is not
    there.  The counter of ids is a [u32] in the code: the model is that of an
    index that makes less than [2 ^ 32] nodes. *)
Fixpoint make_nodes (nodes : Nodes) (id_counter : N) (parent_node_id : ModuleNodeId) (parts : list rstring)
    : Nodes * N * option ModuleNodeId :=
  match parts with
  | [] => (nodes, id_counter, Some parent_node_id)
  | part :: parts =>
      match nodes !! parent_node_id with
      | None => (nodes, id_counter, None)
      | Some parent_node =>
          let '(nodes, child_id) := match node_children parent_node !! part with
            | Some id => (nodes, id)
            | None =>
                (<[parent_node_id := mkNode (node_parent parent_node) (<[part := id_counter]> (node_children parent_node))
                                       (file_ids parent_node)]> nodes, id_counter)
            end in
          match nodes !! child_id with
          | None => make_nodes (<[child_id := mkNode (Some parent_node_id) ∅ []]> nodes) (id_counter + 1) child_id parts
          | Some _ => make_nodes nodes id_counter child_id parts
          end
      end
  end.

Definition is_bare (node : ModuleNode) : bool := bool_decide (file_ids node = []) && bool_decide (node_children node = ∅).

(** The nodes above a node that has nothing left lose it, and go when nothing is
    left of them. *)
Fixpoint prune (fuel : nat) (nodes : Nodes) (root_id : ModuleNodeId) (parent_id child_id : option ModuleNodeId) : outcome Nodes :=
  match fuel with
  | 0 => OutOfFuel
  | S fuel =>
      match parent_id, child_id with
      | Some id, Some child_module_id =>
          match nodes !! id with
          | None => Done nodes
          | Some node =>
              let node := mkNode (node_parent node) (filter (fun p => p.2 <> child_module_id) (node_children node)) (file_ids node) in
              let nodes := <[id := node]> nodes in
              if bool_decide (id = root_id) then Done nodes else
              if is_bare node then prune fuel (delete id nodes) root_id (node_parent node) (Some id) else Done nodes
          end
      | _, _ => Done nodes
      end
  end.

Section Index.
Context {LuaType VarRefId Regex : Type} `{!EqDecision LuaType}.
(** The files whose positions a type names. *)
Context (type_referenced_files : LuaType -> gset FileId).
(** [Regex::new], [regex::escape], the first group of [captures], [replace_all]. *)
Context (regex_new : rstring -> option Regex) (regex_escape : rstring -> rstring)
  (captured : Regex -> rstring -> option rstring) (replace_all : Regex -> rstring -> rstring -> rstring).
(** The hashes of what the fingerprint of the modules is folded from. *)
Context (entry_hash : FileId * rstring * WorkspaceId -> N).
Notation Fact := (FactKey.t LuaType VarRefId).

Record ModuleInfo : Type := mkInfo {
  info_file : FileId;
  full_module_name : rstring;
  info_name : rstring;
  module_id : ModuleNodeId;
  visible_ : bool;
  export_type : option LuaType;
  version_conds : option (list LuaVersionCondition);
  workspace_id : WorkspaceId;
  semantic_id : option LuaSemanticDeclId;
  is_meta : bool
}.

Definition is_visible (self : ModuleInfo) (version_number : LuaVersionNumber) : bool :=
  if negb (visible_ self) then false else
  match version_conds self with
  | Some conds => existsb (fun cond => LuaVersionCondition.check cond version_number) conds
  | None => true
  end.

Record LuaModuleIndex : Type := mkIndex {
  module_patterns : list Regex;
  module_root_id : ModuleNodeId;
  module_nodes : Nodes;
  file_module_map : gmap FileId ModuleInfo;
  export_refs : gmap FileId (gset FileId);
  module_files : N;
  file_module_paths : gmap FileId rstring;
  module_name_to_file_ids : gmap rstring (list FileId);
  legacy_envs : gmap FileId (list LegacyModuleEnv);
  workspaces : list Workspace;
  workspace_kind_map : gmap WorkspaceId WorkspaceKind;
  id_counter : N;
  fuzzy_search : bool;
  module_replace_vec : list (Regex * rstring);
  isolation : bool;
  noted : list Fact
}.
Implicit Types self : LuaModuleIndex.

Definition with_module_patterns self (v : list Regex) : LuaModuleIndex :=
  mkIndex v (module_root_id self) (module_nodes self) (file_module_map self) (export_refs self) (module_files self)
    (file_module_paths self) (module_name_to_file_ids self) (legacy_envs self) (workspaces self)
    (workspace_kind_map self) (id_counter self) (fuzzy_search self) (module_replace_vec self) (isolation self)
    (noted self).
Definition with_module_nodes self (v : Nodes) : LuaModuleIndex :=
  mkIndex (module_patterns self) (module_root_id self) v (file_module_map self) (export_refs self) (module_files self)
    (file_module_paths self) (module_name_to_file_ids self) (legacy_envs self) (workspaces self)
    (workspace_kind_map self) (id_counter self) (fuzzy_search self) (module_replace_vec self) (isolation self)
    (noted self).
Definition with_file_module_map self (v : gmap FileId ModuleInfo) : LuaModuleIndex :=
  mkIndex (module_patterns self) (module_root_id self) (module_nodes self) v (export_refs self) (module_files self)
    (file_module_paths self) (module_name_to_file_ids self) (legacy_envs self) (workspaces self)
    (workspace_kind_map self) (id_counter self) (fuzzy_search self) (module_replace_vec self) (isolation self)
    (noted self).
Definition with_export_refs self (v : gmap FileId (gset FileId)) : LuaModuleIndex :=
  mkIndex (module_patterns self) (module_root_id self) (module_nodes self) (file_module_map self) v
    (module_files self) (file_module_paths self) (module_name_to_file_ids self) (legacy_envs self) (workspaces self)
    (workspace_kind_map self) (id_counter self) (fuzzy_search self) (module_replace_vec self) (isolation self)
    (noted self).
Definition with_module_files self (v : N) : LuaModuleIndex :=
  mkIndex (module_patterns self) (module_root_id self) (module_nodes self) (file_module_map self) (export_refs self) v
    (file_module_paths self) (module_name_to_file_ids self) (legacy_envs self) (workspaces self)
    (workspace_kind_map self) (id_counter self) (fuzzy_search self) (module_replace_vec self) (isolation self)
    (noted self).
Definition with_file_module_paths self (v : gmap FileId rstring) : LuaModuleIndex :=
  mkIndex (module_patterns self) (module_root_id self) (module_nodes self) (file_module_map self) (export_refs self)
    (module_files self) v (module_name_to_file_ids self) (legacy_envs self) (workspaces self)
    (workspace_kind_map self) (id_counter self) (fuzzy_search self) (module_replace_vec self) (isolation self)
    (noted self).
Definition with_module_name_to_file_ids self (v : gmap rstring (list FileId)) : LuaModuleIndex :=
  mkIndex (module_patterns self) (module_root_id self) (module_nodes self) (file_module_map self) (export_refs self)
    (module_files self) (file_module_paths self) v (legacy_envs self) (workspaces self) (workspace_kind_map self)
    (id_counter self) (fuzzy_search self) (module_replace_vec self) (isolation self) (noted self).
Definition with_legacy_envs self (v : gmap FileId (list LegacyModuleEnv)) : LuaModuleIndex :=
  mkIndex (module_patterns self) (module_root_id self) (module_nodes self) (file_module_map self) (export_refs self)
    (module_files self) (file_module_paths self) (module_name_to_file_ids self) v (workspaces self)
    (workspace_kind_map self) (id_counter self) (fuzzy_search self) (module_replace_vec self) (isolation self)
    (noted self).
Definition with_workspaces self (v : list Workspace) : LuaModuleIndex :=
  mkIndex (module_patterns self) (module_root_id self) (module_nodes self) (file_module_map self) (export_refs self)
    (module_files self) (file_module_paths self) (module_name_to_file_ids self) (legacy_envs self) v
    (workspace_kind_map self) (id_counter self) (fuzzy_search self) (module_replace_vec self) (isolation self)
    (noted self).
Definition with_workspace_kind_map self (v : gmap WorkspaceId WorkspaceKind) : LuaModuleIndex :=
  mkIndex (module_patterns self) (module_root_id self) (module_nodes self) (file_module_map self) (export_refs self)
    (module_files self) (file_module_paths self) (module_name_to_file_ids self) (legacy_envs self) (workspaces self) v
    (id_counter self) (fuzzy_search self) (module_replace_vec self) (isolation self) (noted self).
Definition with_id_counter self (v : N) : LuaModuleIndex :=
  mkIndex (module_patterns self) (module_root_id self) (module_nodes self) (file_module_map self) (export_refs self)
    (module_files self) (file_module_paths self) (module_name_to_file_ids self) (legacy_envs self) (workspaces self)
    (workspace_kind_map self) v (fuzzy_search self) (module_replace_vec self) (isolation self) (noted self).
Definition with_module_replace_vec self (v : list (Regex * rstring)) : LuaModuleIndex :=
  mkIndex (module_patterns self) (module_root_id self) (module_nodes self) (file_module_map self) (export_refs self)
    (module_files self) (file_module_paths self) (module_name_to_file_ids self) (legacy_envs self) (workspaces self)
    (workspace_kind_map self) (id_counter self) (fuzzy_search self) v (isolation self) (noted self).
Definition with_flags self (isolation_ fuzzy : bool) : LuaModuleIndex :=
  mkIndex (module_patterns self) (module_root_id self) (module_nodes self) (file_module_map self) (export_refs self)
    (module_files self) (file_module_paths self) (module_name_to_file_ids self) (legacy_envs self) (workspaces self)
    (workspace_kind_map self) (id_counter self) fuzzy (module_replace_vec self) isolation_ (noted self).
Definition note self (facts : list Fact) : LuaModuleIndex :=
  mkIndex (module_patterns self) (module_root_id self) (module_nodes self) (file_module_map self) (export_refs self)
    (module_files self) (file_module_paths self) (module_name_to_file_ids self) (legacy_envs self) (workspaces self)
    (workspace_kind_map self) (id_counter self) (fuzzy_search self) (module_replace_vec self) (isolation self)
    (noted self ++ facts).

Definition with_info self (file_id : FileId) (info : ModuleInfo) : LuaModuleIndex :=
  with_file_module_map self (<[file_id := info]> (file_module_map self)).

Definition new : LuaModuleIndex :=
  mkIndex [] 0%N {[0%N := empty_node]} ∅ ∅ ABSENT ∅ ∅ ∅ [] ∅ 1%N false [] true [].

(** ** Configuration *)

(** What [update_config] reads of the configuration; [module_map] in the order in
    which its table is iterated. *)
Record Config : Type := mkConfig {
  extensions : list rstring;
  require_pattern : list rstring;
  module_map : list (rstring * rstring);
  enable_isolation : bool;
  strict_require_path : bool
}.

Fixpoint dedup (l : list rstring) : list rstring :=
  match l with
  | x :: (y :: _) as rest => if bool_decide (x = y) then dedup rest else x :: dedup rest
  | _ => l
  end.

Definition pattern_regex (item : rstring) : rstring :=
  let escaped := regex_escape (replace_char BACKSLASH slash item) in
  str "^" ++ replace_str (length escaped) [BACKSLASH; 63%N] (str "(.*)") escaped ++ str "$".

(** The patterns up to the first that does not compile. *)
Fixpoint compile_patterns (patterns : list rstring) : list Regex :=
  match patterns with
  | [] => []
  | item :: patterns => match regex_new (pattern_regex item) with Some re => re :: compile_patterns patterns | None => [] end
  end.

Definition set_module_extract_patterns self (patterns : list rstring) : LuaModuleIndex :=
  let patterns := dedup (sort_by (fun a b => blen b <=? blen a)%nat patterns) in
  with_module_patterns self (compile_patterns patterns).

Definition set_module_replace_patterns self (patterns : list (rstring * rstring)) : LuaModuleIndex :=
  with_module_replace_vec self (omap (fun p => re ← regex_new p.1; Some (re, p.2)) patterns).

Definition update_config self (config : Config) : LuaModuleIndex :=
  let stripped extension :=
    default extension (match strip_prefix (str ".") extension with Some s => Some s | None => strip_prefix (str "*.") extension end) in
  let extension_names := map stripped (extensions config) in
  let extension_names := if bool_decide (str "lua" ∈ extension_names) then extension_names else extension_names ++ [str "lua"] in
  let patterns := map (fun extension => str "?." ++ extension) extension_names in
  let patterns := patterns ++
    (if bool_decide (require_pattern config = []) then map (fun extension => str "?/init." ++ extension) extension_names
     else require_pattern config) in
  let self := set_module_extract_patterns self patterns in
  let self := set_module_replace_patterns self (module_map config) in
  with_flags self (enable_isolation config) (negb (strict_require_path config)).

(** ** Workspaces *)

Definition get_workspace_kind self (workspace_id : WorkspaceId) : WorkspaceKind :=
  match workspace_kind_map self !! workspace_id with
  | Some kind => kind
  | None =>
      if bool_decide (workspace_id = WorkspaceId.STD) then Std
      else if bool_decide (workspace_id = WorkspaceId.MAIN) then Main
      else if bool_decide (workspace_id = WorkspaceId.REMOTE) then Remote
      else Library_
  end.

Definition is_main_workspace_id self (id : WorkspaceId) : bool := bool_decide (get_workspace_kind self id = Main).
Definition is_std_workspace_id self (id : WorkspaceId) : bool := bool_decide (get_workspace_kind self id = Std).
Definition is_library_workspace_id self (id : WorkspaceId) : bool := bool_decide (get_workspace_kind self id = Library_).
Definition is_remote_workspace_id self (id : WorkspaceId) : bool := bool_decide (get_workspace_kind self id = Remote).

Definition get_main_workspace_ids self : list WorkspaceId :=
  ws_id <$> filter (fun w => get_workspace_kind self (ws_id w) = Main) (workspaces self).

Definition workspace_resolution_priority self (current_workspace_id candidate_workspace_id : WorkspaceId) : option N :=
  if bool_decide (current_workspace_id = candidate_workspace_id) then Some 0%N else
  match get_workspace_kind self current_workspace_id, get_workspace_kind self candidate_workspace_id with
  | Std, Std => Some 0%N
  | Std, _ => None
  | Main, Main => if isolation self then None else Some 0%N
  | Main, Library_ => Some 1%N
  | Main, Std => Some 2%N
  | Main, Remote => None
  | Library_, Library_ => Some 1%N
  | Library_, Std => Some 2%N
  | Library_, (Main | Remote) => None
  | Remote, Library_ => Some 1%N
  | Remote, Std => Some 2%N
  | Remote, Remote => Some 3%N
  | Remote, Main => None
  end.

Definition workspace_registration_order self (workspace_id : WorkspaceId) : option N :=
  (fun p => N.of_nat p.1) <$> list_find (fun w => ws_id w = workspace_id) (workspaces self).

Definition workspace_resolution_key self (current_workspace_id candidate_workspace_id : WorkspaceId) : option WorkspaceResolutionKey :=
  tier ← workspace_resolution_priority self current_workspace_id candidate_workspace_id;
  let is_library := bool_decide (get_workspace_kind self candidate_workspace_id = Library_) in
  Some (mkResolutionKey tier
    (if is_library then default usize_max (workspace_registration_order self candidate_workspace_id) else 0%N)
    (if is_library then candidate_workspace_id else 0%N)).

Definition add_workspace_root_with_kind self (root_ : rstring) (workspace_id : WorkspaceId) (kind : WorkspaceKind) : LuaModuleIndex :=
  match List.find (fun w => same_path (root w) root_) (workspaces self) with
  | Some existing => with_workspace_kind_map self (<[ws_id existing := ws_kind existing]> (workspace_kind_map self))
  | None =>
      let self := with_workspaces self (workspaces self ++ [mkWorkspace root_ workspace_id kind]) in
      with_workspace_kind_map self (<[workspace_id := kind]> (workspace_kind_map self))
  end.

Definition add_workspace_root self (root_ : rstring) (workspace_id : WorkspaceId) : LuaModuleIndex :=
  add_workspace_root_with_kind self root_ workspace_id (get_workspace_kind self workspace_id).

(** The loop that counts up while the candidate is taken. *)
Fixpoint next_free (fuel : nat) (taken : WorkspaceId -> bool) (candidate : N) : outcome N :=
  match fuel with
  | 0 => OutOfFuel
  | S fuel => if taken candidate then next_free fuel taken (candidate + 1) else Done candidate
  end.

Definition next_main_workspace_id self : outcome N :=
  let used := ws_id <$> workspaces self in
  next_free (S (S (length used))) (fun c => bool_decide (c = WorkspaceId.REMOTE) || bool_decide (c ∈ used)) WorkspaceId.MAIN.

Definition next_library_workspace_id self : outcome N :=
  let used := ws_id <$> workspaces self in
  next_free (S (length used)) (fun c => bool_decide (c ∈ used)) (WorkspaceId.REMOTE + 1).

Definition user_root (kind : WorkspaceKind) : bool := match kind with Main | Library_ => true | _ => false end.

Definition remove_main_and_library_workspaces self : LuaModuleIndex :=
  let self := with_workspaces self (filter (fun w => user_root (ws_kind w) = false) (workspaces self)) in
  with_workspace_kind_map self (filter (fun p => user_root p.2 = false) (workspace_kind_map self)).

Definition get_workspace_root self (workspace_id : WorkspaceId) : option rstring :=
  root <$> List.find (fun w => bool_decide (ws_id w = workspace_id)) (workspaces self).
Definition get_workspace_id_for_root self (root_ : rstring) : option WorkspaceId :=
  ws_id <$> List.find (fun w => same_path (root w) root_) (workspaces self).
Definition get_main_workspace_roots self : list rstring :=
  root <$> filter (fun w => ws_kind w = Main) (workspaces self).

(** ** The module path of a file *)

Definition match_pattern self (path : rstring) : option rstring :=
  head (omap (fun pattern => captured pattern path) (module_patterns self)).

Definition replace_module_path self (module_path : rstring) : rstring :=
  foldl (fun module_path p => replace_all p.1 module_path p.2) module_path (module_replace_vec self).

(** The path under the root of a workspace. *)
Definition relative_path (normalized_path : rstring) (workspace : Workspace) : option rstring :=
  let workspace_root := trim_end_matches slash (replace_char BACKSLASH slash (root workspace)) in
  if bool_decide (normalized_path = workspace_root) then Some []
  else strip_prefix (workspace_root ++ [slash]) normalized_path.

(** The shortest module path that the roots give, and its workspace. *)
Fixpoint extract_from self (normalized_path : rstring) (roots : list Workspace) (matched : option (rstring * WorkspaceId))
    : option (rstring * WorkspaceId) :=
  match roots with
  | [] => matched
  | workspace :: roots =>
      match relative_path normalized_path workspace with
      | None => extract_from self normalized_path roots matched
      | Some relative =>
          let go_on :=
            match match_pattern self relative with
            | None => extract_from self normalized_path roots matched
            | Some module_path =>
                match matched with
                | None => extract_from self normalized_path roots (Some (module_path, ws_id workspace))
                | Some (found, found_id) =>
                    if (blen module_path <? blen found)%nat then
                      let id := if bool_decide (ws_kind workspace = Main) then found_id else ws_id workspace in
                      extract_from self normalized_path roots (Some (module_path, id))
                    else extract_from self normalized_path roots matched
                end
            end in
          match relative, file_prefix (root workspace) with
          | [], Some module_path => Some (module_path, ws_id workspace)
          | _, _ => go_on
          end
      end
  end.

Definition extract_module_path self (path : rstring) : option (rstring * WorkspaceId) :=
  extract_from self (trim_end_matches slash (replace_char BACKSLASH slash path)) (workspaces self) None.

Definition module_path_at self (path : rstring) : option (rstring * WorkspaceId) :=
  p ← extract_module_path self path;
  let module_path := dotted p.1 in
  Some (match module_replace_vec self with [] => module_path | _ => replace_module_path self module_path end, p.2).

(** ** Notes of writes *)

Definition note_module_fact_write self (file_id : FileId) : LuaModuleIndex :=
  note self [FactKey.Module_ file_id; FactKey.ModuleMeta file_id].

Definition lookup_keys self (file_id : FileId) : list Fact :=
  [FactKey.Module_ file_id; FactKey.ModuleMeta file_id]
  ++ match file_module_map self !! file_id with
     | Some info => [FactKey.ModuleName (info_name info); FactKey.ModulePath (full_module_name info)]
     | None => []
     end
  ++ ((fun env => FactKey.ModuleNamespace (namespace_root (env_module_path env))) <$> default [] (legacy_envs self !! file_id)).

Definition note_lookup_keys self (file_id : FileId) : LuaModuleIndex := note self (lookup_keys self file_id).

(** ** Exports *)

Definition semantic_file (id : LuaSemanticDeclId) : option FileId :=
  match id with
  | SemanticTypeDecl _ => None
  | SemanticMember member => Some (member_file_id member)
  | SemanticLuaDecl decl_id => Some (decl_file_id decl_id)
  | SemanticSignature signature => Some (signature_file_id signature)
  end.

Definition export_files (info : ModuleInfo) : gset FileId :=
  (from_option type_referenced_files ∅ (export_type info)
   ∪ match semantic_id info ≫= semantic_file with Some file_id => {[file_id]} | None => ∅ end)
  ∖ {[info_file info]}.

Definition relink_export self (file_id : FileId) (linked : gset FileId) : LuaModuleIndex :=
  let named := from_option export_files ∅ (file_module_map self !! file_id) in
  let unlink refs named_file :=
    match refs !! named_file with
    | Some files =>
        if bool_decide (files ∖ {[file_id]} = ∅) then delete named_file refs else <[named_file := files ∖ {[file_id]}]> refs
    | None => refs
    end in
  let refs := foldl unlink (export_refs self) (elements (linked ∖ named)) in
  let refs := foldl (fun refs named_file => <[named_file := {[file_id]} ∪ default ∅ (refs !! named_file)]> refs) refs
    (elements (named ∖ linked)) in
  with_export_refs self refs.

Definition set_info_export (info : ModuleInfo) (export : option LuaType) (semantic : option LuaSemanticDeclId) : ModuleInfo :=
  mkInfo (info_file info) (full_module_name info) (info_name info) (module_id info) (visible_ info) export (version_conds info)
    (workspace_id info) semantic (is_meta info).

Definition reset_export self (file_id : FileId) : LuaModuleIndex :=
  match file_module_map self !! file_id with
  | Some info =>
      let linked := export_files info in
      let self := with_info self file_id (set_info_export info None None) in
      relink_export (note_module_fact_write self file_id) file_id linked
  | None => self
  end.

Definition set_export self (file_id : FileId) (export : LuaType) (semantic : option LuaSemanticDeclId) : option bool * LuaModuleIndex :=
  let self := note_lookup_keys self file_id in
  match file_module_map self !! file_id with
  | None => (None, self)
  | Some info =>
      if bool_decide (export_type info = Some export) && bool_decide (semantic_id info = semantic) then (Some false, self) else
      let linked := export_files info in
      let self := with_info self file_id (set_info_export info (Some export) semantic) in
      (Some true, relink_export self file_id linked)
  end.

(** *** After an edit of another file *)

(** [remap_identities_in_type]: the type, when it moved, and whether a position was lost. *)
Context (remap_identities_in_type : LuaType -> FileRemap -> option LuaType * bool).

Definition remap_export self (remap : FileRemap) (lost : list FileId) (file_id : FileId) : list FileId * LuaModuleIndex :=
  match file_module_map self !! file_id with
  | None => (lost, self)
  | Some info =>
      let export := (fun typ => remap_identities_in_type typ remap) <$> export_type info in
      let semantic := FileRemap.semantic_decl_id remap <$> semantic_id info in
      if from_option snd false export || match semantic with Some Lost => true | _ => false end
      then (lost ++ [file_id], self) else
      let '(export', moved) := match export with
        | Some (Some typ, _) => (Some typ, true) | _ => (export_type info, false) end in
      let '(semantic', moved) := match semantic with
        | Some (Moved id) => if bool_decide (semantic_id info = Some id) then (semantic_id info, moved) else (Some id, true)
        | _ => (semantic_id info, moved) end in
      let self := with_info self file_id (set_info_export info export' semantic') in
      (lost, if (moved : bool) then note_module_fact_write self file_id else self)
  end.

(** The modules whose export is lost. *)
Definition remap_file_exports self (remap : FileRemap) : list FileId * LuaModuleIndex :=
  let files := sort_by N.leb (elements (default ∅ (export_refs self !! EditRemap.file_id remap))) in
  foldl (fun p file_id => remap_export p.2 remap p.1 file_id) ([], self) files.

(** ** Registering and removing modules *)

Definition module_files_entry (info : ModuleInfo) : N := entry_hash (info_file info, full_module_name info, workspace_id info).

(** The lists of names without the file; an empty list goes. *)
Definition names_without (names : gmap rstring (list FileId)) (name : rstring) (file_id : FileId) : gmap rstring (list FileId) :=
  match names !! name with
  | Some files =>
      let files := filter (fun id => id <> file_id) files in
      if bool_decide (files = []) then delete name names else <[name := files]> names
  | None => names
  end.

(** The module goes, and its file from the node; the node and its parent when
    nothing is left of it. *)
Definition take_module self (file_id : FileId) (info : ModuleInfo) : LuaModuleIndex * option ModuleNodeId * option ModuleNodeId :=
  let self := with_file_module_map self (delete file_id (file_module_map self)) in
  let self := relink_export self file_id (export_files info) in
  let self := with_module_files self (SetFingerprint.remove (module_files self) (module_files_entry info)) in
  match module_nodes self !! module_id info with
  | Some node =>
      let node := mkNode (node_parent node) (node_children node) (filter (fun id => id <> file_id) (file_ids node)) in
      let self := with_module_nodes self (<[module_id info := node]> (module_nodes self)) in
      if is_bare node then (self, node_parent node, Some (module_id info)) else (self, None, None)
  | None => (self, None, None)
  end.

Definition remove self (file_id : FileId) : outcome LuaModuleIndex :=
  let self := match file_module_map self !! file_id with
    | Some _ => note (note_module_fact_write self file_id) [FactKey.ModuleFiles]
    | None => self end in
  let self := note_lookup_keys self file_id in
  let '(self, parent_id, child_id) :=
    match file_module_map self !! file_id with
    | Some info =>
        take_module (with_module_name_to_file_ids self (names_without (module_name_to_file_ids self) (info_name info) file_id)) file_id info
    | None => (self, None, None)
    end in
  let self := with_legacy_envs self (delete file_id (legacy_envs self)) in
  let self := with_file_module_paths self (delete file_id (file_module_paths self)) in
  nodes ← prune (S (size (module_nodes self))) (module_nodes self) (module_root_id self) parent_id child_id;
  Done (with_module_nodes self nodes).

(** What is done first where the file has a module already. *)
Definition remove_registered self (file_id : FileId) : outcome LuaModuleIndex :=
  match file_module_map self !! file_id with Some _ => remove self file_id | None => Done self end.

Definition add_module_by_module_path self (file_id : FileId) (module_path : rstring) (workspace : WorkspaceId)
    : outcome (option unit * LuaModuleIndex) :=
  self ← remove_registered self file_id;
  let module_parts := split_at dot module_path in
  let '(nodes, counter, node_id) := make_nodes (module_nodes self) (id_counter self) (module_root_id self) module_parts in
  let self := with_id_counter (with_module_nodes self nodes) counter in
  Done match node_id with
  | None => (None, self)
  | Some node_id =>
      match module_nodes self !! node_id with
      | None => (None, self)
      | Some node =>
          let node := mkNode (node_parent node) (node_children node) (file_ids node ++ [file_id]) in
          let self := with_module_nodes self (<[node_id := node]> (module_nodes self)) in
          match last module_parts with
          | None => (None, self)
          | Some module_name =>
              let info := mkInfo file_id (DeclWalk.join dot module_parts) module_name node_id true None None workspace None false in
              let self := with_module_files self (SetFingerprint.insert (module_files self) (module_files_entry info)) in
              let self := note (with_info self file_id info) [FactKey.ModuleFiles] in
              let self := with_module_name_to_file_ids self
                (<[module_name := default [] (module_name_to_file_ids self !! module_name) ++ [file_id]]> (module_name_to_file_ids self)) in
              (Some tt, note_lookup_keys self file_id)
          end
      end
  end.

Definition add_module_by_path self (file_id : FileId) (path : rstring) : outcome (option WorkspaceId * LuaModuleIndex) :=
  self ← remove_registered self file_id;
  let normalized_path := replace_char BACKSLASH slash path in
  match module_path_at self normalized_path with
  | None => Done (None, self)
  | Some (module_path, workspace) =>
      added ← add_module_by_module_path self file_id module_path workspace;
      let self := added.2 in
      let self := with_file_module_paths self (<[file_id := normalized_path]> (file_module_paths self)) in
      Done (Some workspace, note_module_fact_write self file_id)
  end.

Definition belongs_alike_at self (file_id : FileId) (path : rstring) : bool :=
  bool_decide (snd <$> extract_module_path self (replace_char BACKSLASH slash path) = workspace_id <$> file_module_map self !! file_id).

Definition repath_module self (file_id : FileId) (path : rstring) : outcome LuaModuleIndex :=
  match file_module_paths self !! file_id, file_module_map self !! file_id with
  | Some _, Some declared =>
      let envs := legacy_envs self !! file_id in
      added ← add_module_by_path self file_id path;
      let self := added.2 in
      let self := match file_module_map self !! file_id with
        | Some info => with_info self file_id
            (mkInfo (info_file info) (full_module_name info) (info_name info) (module_id info) (visible_ declared)
               (export_type declared) (version_conds declared) (workspace_id info) (semantic_id declared) (is_meta declared))
        | None => self end in
      let self := relink_export self file_id ∅ in
      let self := match envs with Some envs => with_legacy_envs self (<[file_id := envs]> (legacy_envs self)) | None => self end in
      Done (note_lookup_keys self file_id)
  | _, _ => Done self
  end.

Definition clear self : LuaModuleIndex :=
  let files := (map_to_list (file_module_map self)).*1 ++ (map_to_list (legacy_envs self)).*1 in
  let self := note self (flat_map (lookup_keys self) files ++ [FactKey.ModuleFiles]) in
  let self := with_module_nodes (with_file_module_map (with_export_refs self ∅) ∅) {[module_root_id self := empty_node]} in
  with_legacy_envs (with_module_name_to_file_ids (with_file_module_paths (with_module_files self ABSENT) ∅) ∅) ∅.

(** ** What a file declares of its module *)

Definition set_module_visibility self (file_id : FileId) (visible : bool) : LuaModuleIndex :=
  match file_module_map self !! file_id with
  | Some info =>
      note_lookup_keys (with_info self file_id
        (mkInfo (info_file info) (full_module_name info) (info_name info) (module_id info) visible (export_type info)
           (version_conds info) (workspace_id info) (semantic_id info) (is_meta info))) file_id
  | None => self
  end.

Definition set_module_version_conds self (file_id : FileId) (conds : list LuaVersionCondition) : LuaModuleIndex :=
  match file_module_map self !! file_id with
  | Some info =>
      note_lookup_keys (with_info self file_id
        (mkInfo (info_file info) (full_module_name info) (info_name info) (module_id info) (visible_ info) (export_type info)
           (Some conds) (workspace_id info) (semantic_id info) (is_meta info))) file_id
  | None => self
  end.

Definition set_meta self (file_id : FileId) : LuaModuleIndex :=
  match file_module_map self !! file_id with
  | Some info =>
      note_module_fact_write (with_info self file_id
        (mkInfo (info_file info) (full_module_name info) (info_name info) (module_id info) (visible_ info) (export_type info)
           (version_conds info) (workspace_id info) (semantic_id info) true)) file_id
  | None => self
  end.

Definition set_legacy_module_env self (file_id : FileId) (env : LegacyModuleEnv) : LuaModuleIndex :=
  let envs := sort_by (fun a b => (activation_position a <=? activation_position b)%N) (default [] (legacy_envs self !! file_id) ++ [env]) in
  note_lookup_keys (with_legacy_envs self (<[file_id := envs]> (legacy_envs self))) file_id.

(** ** Reading a module *)

Definition get_module self (file_id : FileId) : option ModuleInfo := file_module_map self !! file_id.
Definition registered_path self (file_id : FileId) : option rstring := file_module_paths self !! file_id.
Definition get_workspace_id self (file_id : FileId) : option WorkspaceId := workspace_id <$> file_module_map self !! file_id.
Definition is_meta_file self (file_id : FileId) : bool := from_option is_meta false (file_module_map self !! file_id).
Definition is_main self (file_id : FileId) : bool :=
  from_option (fun info => is_main_workspace_id self (workspace_id info)) false (file_module_map self !! file_id).
Definition is_std self (file_id : FileId) : bool :=
  from_option (fun info => is_std_workspace_id self (workspace_id info)) false (file_module_map self !! file_id).
Definition is_library self (file_id : FileId) : bool :=
  from_option (fun info => is_library_workspace_id self (workspace_id info)) false (file_module_map self !! file_id).

Definition sorted_files (infos : list ModuleInfo) : list FileId := sort_by N.leb (info_file <$> infos).
Definition infos self : list ModuleInfo := (map_to_list (file_module_map self)).*2.

Definition get_module_infos self : list ModuleInfo := sort_by (fun a b => (info_file a <=? info_file b)%N) (infos self).
Definition get_std_file_ids self : list FileId :=
  sorted_files (filter (fun info => is_std_workspace_id self (workspace_id info) = true) (infos self)).
Definition get_main_workspace_file_ids self : list FileId :=
  sorted_files (filter (fun info => is_main_workspace_id self (workspace_id info) = true) (infos self)).
Definition get_lib_file_ids self : list FileId :=
  sorted_files (filter (fun info => is_library_workspace_id self (workspace_id info) = true) (infos self)).

Definition get_legacy_module_env self (file_id : FileId) : option LegacyModuleEnv := legacy_envs self !! file_id ≫= last.

Definition get_legacy_module_env_at self (file_id : FileId) (position : N) : option LegacyModuleEnv :=
  envs ← legacy_envs self !! file_id;
  List.find (fun env => (activation_position env <? position)%N) (reverse envs).

(** The namespace of the environment is the name or lies in it. *)
Definition env_names (name : rstring) (env : LegacyModuleEnv) : bool :=
  bool_decide (env_module_path env = name)
  || match strip_prefix name (env_module_path env) with Some rest => bool_decide (head rest = Some dot) | None => false end.

Definition has_legacy_module_namespace self (name : rstring) : bool :=
  existsb (env_names name) (concat (map_to_list (legacy_envs self)).*2).

Definition has_legacy_module_namespace_for_file self (file_id : FileId) (name : rstring) : bool :=
  match get_workspace_id self file_id with
  | None => has_legacy_module_namespace self name
  | Some current =>
      existsb (fun p =>
        match get_workspace_id self p.1 with
        | None => false
        | Some candidate => bool_decide (is_Some (workspace_resolution_priority self current candidate)) && existsb (env_names name) p.2
        end) (map_to_list (legacy_envs self))
  end.

(** ** Which module a path names *)

Definition workspace_order_priority self (workspace_id : WorkspaceId) : N * WorkspaceId :=
  (default usize_max (workspace_registration_order self workspace_id), workspace_id).

Definition workspace_kind_priority self (workspace_id : WorkspaceId) : N :=
  match get_workspace_kind self workspace_id with Main => 0 | Library_ => 1 | Std => 2 | Remote => 3 end.

Definition module_path_key self (file_id : FileId) : option rstring := file_module_paths self !! file_id.

Record LuaDeclSourceKey : Type := mkSourceKey {
  key_workspace_kind : N;
  key_workspace_order : N;
  key_workspace_id : N;
  key_file_order : rstring;
  key_file_id : N;
  key_range : N * N
}.

Definition decl_source_key self (file_id : FileId) (file_order_key : rstring) (range : TextRange) : LuaDeclSourceKey :=
  let workspace_id := default WorkspaceId.MAIN (get_workspace_id self file_id) in
  mkSourceKey (workspace_kind_priority self workspace_id) (workspace_order_priority self workspace_id).1 workspace_id
    file_order_key file_id (text_start range, text_end range).

(** The order of the last three parts of the keys of candidates, and of the place
    of a workspace. *)
Definition order_cmp self (a b : ModuleInfo) : comparison :=
  let place info := workspace_order_priority self (workspace_id info) in
  then_cmp (N.compare (place a).1 (place b).1) (N.compare (place a).2 (place b).2).

Definition path_cmp self (a b : ModuleInfo) : comparison :=
  let key info := module_path_key self (info_file info) in
  then_cmp (bool_cmp (bool_decide (key a = None)) (bool_decide (key b = None)))
    (then_cmp (opt_cmp str_cmp (key a) (key b))
       (then_cmp (str_cmp (full_module_name a) (full_module_name b)) (N.compare (info_file a) (info_file b)))).

Definition cmp_for_workspace self (current : WorkspaceId) (a b : ModuleInfo) : comparison :=
  let other info := negb (bool_decide (workspace_id info = current)) in
  then_cmp (bool_cmp (other a) (other b)) (then_cmp (order_cmp self a b) (path_cmp self a b)).

Definition cmp_global self (a b : ModuleInfo) : comparison :=
  let kind info := workspace_kind_priority self (workspace_id info) in
  then_cmp (N.compare (kind a) (kind b)) (then_cmp (order_cmp self a b) (path_cmp self a b)).

Definition is_candidate_better_for_workspace self (candidate current_best : ModuleInfo) (current : WorkspaceId) : bool :=
  is_lt (cmp_for_workspace self current candidate current_best).

Definition is_candidate_better_global self (candidate current_best : ModuleInfo) : bool :=
  is_lt (cmp_global self candidate current_best).

Definition is_candidate_better_for_fuzzy_global self (candidate : ModuleInfo) (candidate_leading_segment_count : nat)
    (current_best : ModuleInfo) (current_best_leading_segment_count : nat) : bool :=
  is_lt (then_cmp (Nat.compare candidate_leading_segment_count current_best_leading_segment_count)
           (str_cmp (full_module_name candidate) (full_module_name current_best)))
  || (candidate_leading_segment_count =? current_best_leading_segment_count)%nat
     && bool_decide (full_module_name candidate = full_module_name current_best)
     && is_candidate_better_global self candidate current_best.

(** The loop that keeps the best candidate with what it is compared by. *)
Fixpoint best_of {A} (better : A -> A -> bool) (best : option A) (candidates : list A) : option A :=
  match candidates with
  | [] => best
  | c :: candidates =>
      best_of better (match best with Some b => if better c b then Some c else Some b | None => Some c end) candidates
  end.

Definition better_in_workspace self (workspace : WorkspaceId) (c b : ModuleInfo * N) : bool :=
  negb ((b.2 <? c.2)%N || (c.2 =? b.2)%N && negb (is_candidate_better_for_workspace self c.1 b.1 workspace)).

(** A candidate that the workspace sees, with its priority. *)
Definition in_sight self (workspace : WorkspaceId) (info : ModuleInfo) : option (ModuleInfo * N) :=
  priority ← workspace_resolution_priority self workspace (workspace_id info); Some (info, priority).

Definition known self (files : list FileId) : list ModuleInfo := omap (fun file_id => file_module_map self !! file_id) files.

Definition select_module_for_workspace self (files : list FileId) (workspace : WorkspaceId) : option ModuleInfo :=
  fst <$> best_of (better_in_workspace self workspace) None (omap (in_sight self workspace) (known self files)).

Definition select_module_globally self (files : list FileId) : option ModuleInfo :=
  best_of (is_candidate_better_global self) None (known self files).

Definition exact_find_module self (module_parts : list rstring) : option ModuleInfo :=
  id ← walk_nodes (module_nodes self) (module_root_id self) module_parts;
  node ← module_nodes self !! id;
  select_module_globally self (file_ids node).

Definition exact_find_module_in_workspace self (module_parts : list rstring) (workspace : WorkspaceId) : option ModuleInfo :=
  id ← walk_nodes (module_nodes self) (module_root_id self) module_parts;
  node ← module_nodes self !! id;
  select_module_for_workspace self (file_ids node) workspace.

Definition leading_segments (module_path : rstring) (info : ModuleInfo) : option (ModuleInfo * nat) :=
  if bool_decide (full_module_name info = module_path) then Some (info, 0) else
  prefix ← strip_suffix (dot :: module_path) (full_module_name info);
  Some (info, length (filter (fun segment => segment <> []) (split_at dot prefix))).

Definition fuzzy_find_module self (module_path last_name : rstring) : option ModuleInfo :=
  files ← module_name_to_file_ids self !! last_name;
  fst <$> best_of (fun c b => is_candidate_better_for_fuzzy_global self c.1 c.2 b.1 b.2) None
            (omap (leading_segments module_path) (known self files)).

Definition ends_in (module_path : rstring) (info : ModuleInfo) : bool :=
  bool_decide (full_module_name info = module_path)
  || bool_decide (is_Some (strip_suffix (dot :: module_path) (full_module_name info))).

Definition fuzzy_find_module_in_workspace self (module_path last_name : rstring) (workspace : WorkspaceId) : option ModuleInfo :=
  files ← module_name_to_file_ids self !! last_name;
  fst <$> best_of (better_in_workspace self workspace) None
            (omap (in_sight self workspace) (filter (fun info => ends_in module_path info = true) (known self files))).

Definition lookup_module self (module_path : rstring) (workspace : option WorkspaceId) : option ModuleInfo :=
  let module_path := dotted module_path in
  let module_parts := split_at dot module_path in
  let exact := match workspace with
    | Some workspace => exact_find_module_in_workspace self module_parts workspace
    | None => exact_find_module self module_parts end in
  match exact with
  | Some info => Some info
  | None =>
      if fuzzy_search self then
        name ← last module_parts;
        match workspace with
        | Some workspace => fuzzy_find_module_in_workspace self module_path name workspace
        | None => fuzzy_find_module self module_path name
        end
      else None
  end.

Definition find_module self (module_path : rstring) : option ModuleInfo := lookup_module self module_path None.
Definition find_module_in_workspace self (module_path : rstring) (workspace : WorkspaceId) : option ModuleInfo :=
  lookup_module self module_path (Some workspace).
Definition find_module_for_file self (module_path : rstring) (file_id : FileId) : option ModuleInfo :=
  lookup_module self module_path (get_workspace_id self file_id).
Definition find_module_file_for_file self (module_path : rstring) (file_id : FileId) : option FileId :=
  info_file <$> lookup_module self module_path (get_workspace_id self file_id).
Definition find_module_by_path self (path : rstring) : option ModuleInfo :=
  p ← extract_module_path self path; find_module self p.1.
Definition find_module_by_path_for_file self (path : rstring) (file_id : FileId) : option ModuleInfo :=
  p ← extract_module_path self path; find_module_for_file self p.1 file_id.
Definition find_module_file_by_path_for_file self (path : rstring) (file_id : FileId) : option FileId :=
  p ← extract_module_path self path; find_module_file_for_file self p.1 file_id.

Definition find_module_node self (module_path : rstring) : option ModuleNode :=
  if bool_decide (module_path = []) then module_nodes self !! module_root_id self else
  id ← walk_nodes (module_nodes self) (module_root_id self) (split_at dot (dotted module_path));
  module_nodes self !! id.

Definition get_module_node self (module_id : ModuleNodeId) : option ModuleNode := module_nodes self !! module_id.

(** ** Fingerprints *)

(** What the hasher makes of a module, of its workspace, of the modules of a name
    and of the environments of a namespace. *)
Context (hash_module : option (rstring * rstring * bool * option LuaType * option (list LuaVersionCondition) * WorkspaceId
                                 * option LuaSemanticDeclId * bool)
                        * option rstring * option (list LegacyModuleEnv) -> N)
  (hash_meta : option (WorkspaceId * bool) * option (list LegacyModuleEnv) -> N)
  (hash_named : list (FileId * rstring * bool * WorkspaceId * option (list LuaVersionCondition)) -> N)
  (hash_envs : list (FileId * rstring) -> N).

Definition named_modules self (name : rstring) (keep : ModuleInfo -> bool) :
    list (FileId * rstring * bool * WorkspaceId * option (list LuaVersionCondition)) :=
  let modules := filter (fun info => keep info = true) (known self (default [] (module_name_to_file_ids self !! name))) in
  (fun info => (info_file info, full_module_name info, visible_ info, workspace_id info, version_conds info))
  <$> sort_by (fun a b => (info_file a <=? info_file b)%N) modules.

Definition named_modules_fingerprint self (name : rstring) (keep : ModuleInfo -> bool) : N :=
  match named_modules self name keep with [] => ABSENT | modules => fingerprint_of (hash_named modules) end.

Definition namespace_envs self (root : rstring) : list (FileId * rstring) :=
  sort_by (fun a b => match then_cmp (N.compare a.1 b.1) (str_cmp a.2 b.2) with Gt => false | _ => true end)
    (flat_map (fun p => omap (fun env => if bool_decide (namespace_root (env_module_path env) = root)
                                         then Some (p.1, env_module_path env) else None) p.2) (map_to_list (legacy_envs self))).

Definition fact_fingerprint self (key : Fact) : N :=
  match key with
  | FactKey.Module_ file_id =>
      match file_module_map self !! file_id, legacy_envs self !! file_id with
      | None, None => ABSENT
      | info, envs => fingerprint_of (hash_module
          ((fun info => (full_module_name info, info_name info, visible_ info, export_type info, version_conds info,
                         workspace_id info, semantic_id info, is_meta info)) <$> info,
           file_module_paths self !! file_id, envs))
      end
  | FactKey.ModuleMeta file_id =>
      match file_module_map self !! file_id, legacy_envs self !! file_id with
      | None, None => ABSENT
      | info, envs => fingerprint_of (hash_meta ((fun info => (workspace_id info, is_meta info)) <$> info, envs))
      end
  | FactKey.ModuleName name => named_modules_fingerprint self name (fun _ => true)
  | FactKey.ModulePath path =>
      named_modules_fingerprint self (lookup_name path) (fun info => bool_decide (full_module_name info = path))
  | FactKey.ModuleFiles => module_files self
  | FactKey.ModuleNamespace root =>
      match namespace_envs self root with [] => ABSENT | envs => fingerprint_of (hash_envs envs) end
  | _ => ABSENT
  end.
End Index.
Arguments LuaModuleIndex : clear implicits.
Arguments ModuleInfo : clear implicits.
