(* ===== verification/ModuleIndexProofs.v ===== *)
(** * The tree of module paths and the choice among modules

    The orders by which modules are chosen, the tree of module paths as a map
    from paths, and the invariant that every operation of the module index
    keeps. *)

From S2P Require Import Prelude Kinds Text FileOrder Dependency EditMap EditRemap Derivation Readers KeyTable KeyTableProofs FactKey DeclTree DeclWalk ModuleIndex.
From stdpp Require Import list gmap sorting.
Local Open Scope prog_scope.

(** ** Orders *)

(** A comparison is a total preorder. *)
Record ordered {A} (cmp : A -> A -> comparison) : Prop := {
  cmp_flip : forall a b, cmp b a = CompOpp (cmp a b);
  cmp_trans : forall a b c, cmp a b <> Gt -> cmp b c <> Gt -> cmp a c <> Gt
}.

Lemma ordered_on {A B} (f : B -> A) (cmp : A -> A -> comparison) : ordered cmp -> ordered (fun a b => cmp (f a) (f b)).
Proof. intros [H1 H2]. split; [intros; apply H1|intros a b c; apply H2]. Qed.

Lemma ordered_N : ordered N.compare.
Proof. split; [apply N.compare_antisym|]. intros a b c. rewrite !N.compare_le_iff. lia. Qed.

Lemma ordered_nat : ordered Nat.compare.
Proof. split; [apply Nat.compare_antisym|]. intros a b c. rewrite !Nat.compare_le_iff. lia. Qed.

Lemma ordered_str : ordered str_cmp.
Proof. split; [apply lex_cmp_flip|apply lex_cmp_trans]. Qed.

Lemma ordered_bool : ordered bool_cmp.
Proof. apply (ordered_on N.b2n), ordered_N. Qed.

Lemma ordered_opt {A} (cmp : A -> A -> comparison) : ordered cmp -> ordered (opt_cmp cmp).
Proof.
  intros [H1 H2]. split.
  - intros [a|] [b|]; simpl; done || apply H1.
  - intros [a|] [b|] [c|]; simpl; done || apply H2.
Qed.

Lemma cmp_eq_left {A} (cmp : A -> A -> comparison) a b c : ordered cmp -> cmp a b = Eq -> cmp a c = cmp b c.
Proof.
  intros [H1 H2] He. assert (He' : cmp b a = Eq) by (by rewrite H1, He).
  assert (F := H1 a c). assert (F' := H1 b c).
  destruct (cmp a c) eqn:Hac, (cmp b c) eqn:Hbc; simpl in *; try done; exfalso;
    first [apply (H2 c a b); congruence|apply (H2 b a c); congruence|apply (H2 c b a); congruence|apply (H2 a b c); congruence].
Qed.

Lemma ordered_then {A} (c1 c2 : A -> A -> comparison) :
  ordered c1 -> ordered c2 -> ordered (fun a b => then_cmp (c1 a b) (c2 a b)).
Proof.
  intros O1 O2. split.
  - intros a b. rewrite (cmp_flip c1 O1 a b), (cmp_flip c2 O2 a b). by destruct (c1 a b).
  - intros a b c. destruct (c1 a b) eqn:Hab; simpl; [|intros _|done].
    + rewrite (cmp_eq_left c1 a b c O1 Hab). destruct (c1 b c); simpl; [|done|done]. apply (cmp_trans c2 O2).
    + destruct (c1 b c) eqn:Hbc; simpl; [intros _|intros _|done].
      * assert (Hac : c1 a c = Lt); [|by rewrite Hac]. rewrite (cmp_flip c1 O1 c a), <- (cmp_eq_left c1 b c a O1 Hbc), (cmp_flip c1 O1 a b), Hab. done.
      * assert (Hac : c1 a c <> Gt) by (apply (cmp_trans c1 O1 a b c); congruence).
        destruct (c1 a c) eqn:Hac'; [|done|done]. exfalso. apply (cmp_trans c1 O1 b c a); rewrite ?Hbc; try done.
        -- rewrite (cmp_flip c1 O1 a c), Hac'. done.
        -- by rewrite (cmp_flip c1 O1 a b), Hab.
Qed.

Lemma then_eq c1 c2 : then_cmp c1 c2 = Eq -> c1 = Eq /\ c2 = Eq.
Proof. by destruct c1. Qed.

(** ** The best of several *)

Section Best.
Context {A : Type} (cmp : A -> A -> comparison).
Hypothesis Hcmp : ordered cmp.

Lemma better_trans a b c : is_lt (cmp a b) = true -> cmp b c <> Gt -> is_lt (cmp a c) = true.
Proof.
  intros Hab Hbc. assert (Hl : cmp a b = Lt) by (by destruct (cmp a b)).
  assert (Hn := cmp_trans cmp Hcmp a b c ltac:(by rewrite Hl) Hbc). destruct (cmp a c) eqn:Hac; [|done|done]. exfalso.
  apply (cmp_trans cmp Hcmp b c a); [done|by rewrite (cmp_flip cmp Hcmp a c), Hac|by rewrite (cmp_flip cmp Hcmp a b), Hl].
Qed.

(** The best is a candidate and none is better; of two that are alike, the first. *)
Lemma best_of_spec (l : list A) : forall best,
  match best_of (fun c b => is_lt (cmp c b)) best l with
  | Some m => (best = Some m \/ m ∈ l) /\ (forall c, c ∈ l -> cmp m c <> Gt) /\ (forall b, best = Some b -> cmp m b <> Gt)
  | None => best = None /\ l = []
  end.
Proof.
  induction l as [|c l IH]; intros best; simpl.
  - destruct best as [b|]; [|done]. split_and!; [by left|by intros c ?%not_elem_of_nil|]. intros b' [= <-].
    assert (Hf := cmp_flip cmp Hcmp b b). destruct (cmp b b); done.
  - set (best' := match best with Some b => if is_lt (cmp c b) then Some c else Some b | None => Some c end).
    specialize (IH best'). destruct (best_of _ best' l) as [m|].
    + destruct IH as (H1 & H2 & H3). unfold best' in *. assert (Hrefl : cmp m m <> Gt).
      { assert (Hf := cmp_flip cmp Hcmp m m). destruct (cmp m m); done. }
      destruct best as [b|].
      * destruct (is_lt (cmp c b)) eqn:Hlt.
        -- split_and!.
           ++ right. destruct H1 as [[= ->]|H1]; [by left|by right].
           ++ intros c' [->|Hc']%elem_of_cons; [by apply H3|by apply H2].
           ++ intros b' [= <-]. apply (cmp_trans cmp Hcmp m c b); [by apply H3|]. by destruct (cmp c b).
        -- split_and!.
           ++ destruct H1 as [H1|H1]; [by left|right; by right].
           ++ intros c' [->|Hc']%elem_of_cons; [|by apply H2]. apply (cmp_trans cmp Hcmp m b c); [by apply H3|].
              rewrite (cmp_flip cmp Hcmp c b). by destruct (cmp c b).
           ++ intros b' [= <-]. by apply H3.
      * split_and!.
        -- right. destruct H1 as [[= ->]|H1]; [by left|by right].
        -- intros c' [->|Hc']%elem_of_cons; [by apply H3|by apply H2].
        -- done.
    + destruct IH as [H _]. unfold best' in H. destruct best as [b|]; [by destruct (is_lt (cmp c b))|done].
Qed.

Lemma best_of_min (l : list A) :
  match best_of (fun c b => is_lt (cmp c b)) None l with
  | Some m => m ∈ l /\ forall c, c ∈ l -> cmp m c <> Gt
  | None => l = []
  end.
Proof. assert (H := best_of_spec l None). destruct (best_of _ _ _); [|by destruct H]. destruct H as ([H|H] & H' & _); [done|done]. Qed.
End Best.

(** The best of pairs whose second part is a function of the first. *)
Lemma best_of_fst {A X} (g : A -> X) (f : A * X -> A * X -> bool) (l : list (A * X)) :
  (forall p, p ∈ l -> p.2 = g p.1) -> forall best, (forall b, best = Some b -> b.2 = g b.1) ->
  fst <$> best_of f best l = best_of (fun a b => f (a, g a) (b, g b)) (fst <$> best) (fst <$> l).
Proof.
  induction l as [|[a x] l IH]; intros Hl best Hb; [done|]. cbn [best_of fmap list_fmap fst].
  assert (Hx : x = g a) by (apply (Hl (a, x)); by left). subst x.
  rewrite IH; [| |].
  - f_equal. destruct best as [[b y]|]; [|done]. cbn [fmap option_fmap option_map fst]. assert (Hy : y = g b) by by apply (Hb (b, y)). subst y. by destruct (f (a, g a) (b, g b)).
  - intros p Hp. apply Hl. by right.
  - intros p Hp. destruct best as [b|]; [|by injection Hp as <-]. destruct (f (a, g a) b); injection Hp as <-; [done|by apply Hb].
Qed.

Lemma best_of_ext {A} (f g : A -> A -> bool) l : (forall a b, f a b = g a b) -> forall best, best_of f best l = best_of g best l.
Proof.
  intros He. induction l as [|c l IH]; intros best; simpl; [done|]. rewrite IH. f_equal. destruct best; [|done]. by rewrite He.
Qed.

(** ** The tree of module paths *)

(** Every child but [gone] is there and knows its parent; no two paths share a node. *)
Record tree_but (gone : N -> Prop) (nodes : Nodes) (counter root : N) : Prop := {
  tn_root : exists node, nodes !! root = Some node /\ node_parent node = None;
  tn_child : forall id node part c, nodes !! id = Some node -> node_children node !! part = Some c -> ~ gone c ->
    exists cn, nodes !! c = Some cn /\ node_parent cn = Some id;
  tn_inj : forall id node p q c, nodes !! id = Some node -> node_children node !! p = Some c -> node_children node !! q = Some c -> p = q;
  tn_fresh : forall id node, nodes !! id = Some node -> (id < counter)%N
}.
Notation tree_nodes := (tree_but (fun _ => False)).

Lemma walk_app nodes p q : forall id, walk_nodes nodes id (p ++ q) = (x ← walk_nodes nodes id p; walk_nodes nodes x q).
Proof.
  induction p as [|part p IH]; intros id; simpl; [done|]. destruct (nodes !! id); simpl; [|done]. destruct (_ !! part); simpl; [apply IH|done].
Qed.

Lemma walk_snoc nodes p part id x :
  walk_nodes nodes id (p ++ [part]) = Some x <->
  exists y node, walk_nodes nodes id p = Some y /\ nodes !! y = Some node /\ node_children node !! part = Some x.
Proof.
  rewrite walk_app. split.
  - intros (y & Hy & Hx)%bind_Some. simpl in Hx. apply bind_Some in Hx as (node & Hn & Hx). apply bind_Some in Hx as (c & Hc & [= ->]). by exists y, node.
  - intros (y & node & Hy & Hn & Hc). rewrite Hy. simpl. rewrite Hn. simpl. by rewrite Hc.
Qed.

Lemma walk_there nodes counter root p x : tree_nodes nodes counter root -> walk_nodes nodes root p = Some x -> is_Some (nodes !! x).
Proof.
  intros Hok. destruct p as [|part p _] using rev_ind; [intros [= <-]; destruct (tn_root _ _ _ _ Hok) as (n & Hn & _); by exists n|].
  intros (y & node & _ & Hn & Hc)%walk_snoc. destruct (tn_child _ _ _ _ Hok y node part x Hn Hc) as (cn & Hcn & _); [tauto|by exists cn].
Qed.

(** The way to a node is one. *)
Lemma walk_inj nodes counter root p : tree_nodes nodes counter root ->
  forall q x, walk_nodes nodes root p = Some x -> walk_nodes nodes root q = Some x -> p = q.
Proof.
  intros Hok. destruct (tn_root _ _ _ _ Hok) as (rn & Hr & Hrp).
  assert (Hnone : forall p part, walk_nodes nodes root (p ++ [part]) = Some root -> False).
  { intros p' part (y & node & _ & Hn & Hc)%walk_snoc. destruct (tn_child _ _ _ _ Hok y node part root Hn Hc) as (cn & Hcn & Hp); [tauto|]. congruence. }
  induction p as [|part p IH] using rev_ind; intros q x Hp Hq.
  - destruct q as [|part' q _] using rev_ind; [done|]. injection Hp as <-. by apply Hnone in Hq.
  - destruct q as [|part' q _] using rev_ind; [injection Hq as <-; by apply Hnone in Hp|].
    apply walk_snoc in Hp as (y & node & Hy & Hn & Hc), Hq as (y' & node' & Hy' & Hn' & Hc').
    destruct (tn_child _ _ _ _ Hok y node part x Hn Hc) as (cn & Hcn & Hpar); [tauto|].
    destruct (tn_child _ _ _ _ Hok y' node' part' x Hn' Hc') as (cn' & Hcn' & Hpar'); [tauto|].
    assert (y' = y) as -> by congruence. assert (node' = node) as -> by congruence.
    rewrite (IH q y Hy Hy'). f_equal. by rewrite (tn_inj _ _ _ _ Hok y node part part' x).
Qed.

(** *** Making the nodes of a path *)

(** Every node stays, with its parent and files, and keeps its children. *)
Definition grows (nodes nodes' : Nodes) : Prop :=
  forall id node, nodes !! id = Some node -> exists node', nodes' !! id = Some node' /\ node_parent node' = node_parent node
    /\ file_ids node' = file_ids node /\ node_children node ⊆ node_children node'.

(** What is new holds no file. *)
Definition new_are_empty (nodes nodes' : Nodes) : Prop :=
  forall id node', nodes' !! id = Some node' -> nodes !! id = None -> file_ids node' = [].

Lemma grows_walk nodes nodes' p : grows nodes nodes' -> forall id x, walk_nodes nodes id p = Some x -> walk_nodes nodes' id p = Some x.
Proof.
  intros Hg. induction p as [|part p IH]; intros id x; simpl; [done|]. intros (node & Hn & (c & Hc & Hw)%bind_Some)%bind_Some.
  destruct (Hg id node Hn) as (node' & Hn' & _ & _ & Hsub). rewrite Hn'. simpl. rewrite (lookup_weaken _ _ _ _ Hc Hsub). simpl. by apply IH.
Qed.

Lemma nodes_grow_refl nodes : grows nodes nodes.
Proof. intros id node Hn. by exists node. Qed.

Lemma nodes_grow_trans n1 n2 n3 : grows n1 n2 -> grows n2 n3 -> grows n1 n3.
Proof.
  intros H12 H23 id node Hn. destruct (H12 id node Hn) as (node' & Hn' & P1 & F1 & C1). destruct (H23 id node' Hn') as (n'' & Hn'' & P2 & F2 & C2).
  exists n''. split_and!; [done|congruence|congruence|by etrans].
Qed.

Lemma new_child_ok nodes counter root parent pnode part :
  tree_nodes nodes counter root -> nodes !! parent = Some pnode -> node_children pnode !! part = None ->
  let nodes' := <[counter := mkNode (Some parent) ∅ []]>
                  (<[parent := mkNode (node_parent pnode) (<[part := counter]> (node_children pnode)) (file_ids pnode)]> nodes) in
  tree_nodes nodes' (counter + 1) root /\ grows nodes nodes' /\ new_are_empty nodes nodes'.
Proof.
  intros Hok Hp Hpart nodes'. assert (Hlt := tn_fresh _ _ _ _ Hok parent pnode Hp). assert (Hne : parent <> counter) by lia.
  assert (Hc0 : nodes !! counter = None).
  { destruct (nodes !! counter) as [n|] eqn:Hn; [|done]. apply (tn_fresh _ _ _ _ Hok) in Hn. lia. }
  assert (Hl : forall id, nodes' !! id = if decide (id = counter) then Some (mkNode (Some parent) ∅ [])
    else if decide (id = parent) then Some (mkNode (node_parent pnode) (<[part := counter]> (node_children pnode)) (file_ids pnode)) else nodes !! id).
  { intros id. unfold nodes'. destruct (decide (id = counter)) as [->|H1]; [by rewrite lookup_insert_eq|]. rewrite lookup_insert_ne by done.
    destruct (decide (id = parent)) as [->|H2]; [by rewrite lookup_insert_eq|by rewrite lookup_insert_ne]. }
  assert (Hold : forall c, (exists id node q, nodes !! id = Some node /\ node_children node !! q = Some c) -> c <> counter).
  { intros c (id & node & q & Hn & Hc) ->. destruct (tn_child _ _ _ _ Hok id node q counter Hn Hc) as (cn & Hcn & _); [tauto|]. congruence. }
  assert (Hg : grows nodes nodes').
  { intros id node Hn. rewrite Hl. assert (id <> counter) by congruence. rewrite decide_False by done. case_decide as Hd; [|by exists node].
    subst id. assert (node = pnode) as -> by congruence. eexists. split_and!; [done|done|done|]. simpl. by apply insert_subseteq. }
  split_and!; [|done|].
  - split.
    + destruct (tn_root _ _ _ _ Hok) as (rn & Hr & Hrp). destruct (Hg root rn Hr) as (rn' & Hr' & Hp' & _). exists rn'. split; [done|congruence].
    + intros id node q c. rewrite !Hl. intros Hn Hc _.
      assert (Hfrom : forall node0, nodes !! id = Some node0 -> node_children node0 !! q = Some c ->
        exists cn, nodes' !! c = Some cn /\ node_parent cn = Some id).
      { intros node0 Hn0 Hc0'. destruct (tn_child _ _ _ _ Hok id node0 q c Hn0 Hc0') as (cn & Hcn & Hcp); [tauto|].
        destruct (Hg c cn Hcn) as (cn' & Hcn' & Hp' & _). exists cn'. split; [done|congruence]. }
      case_decide as D1; [injection Hn as <-; simpl in Hc; by rewrite lookup_empty in Hc|].
      case_decide as D2; [|rewrite <- Hl; by apply (Hfrom node)]. subst id. injection Hn as <-. simpl in Hc.
      destruct (decide (q = part)) as [->|Hq].
      * rewrite lookup_insert_eq in Hc. injection Hc as <-. rewrite decide_True by done. by eexists.
      * rewrite lookup_insert_ne in Hc by done. rewrite <- Hl. by apply (Hfrom pnode).
    + intros id node p q c. rewrite Hl. intros Hn H1 H2.
      case_decide as D1; [injection Hn as <-; simpl in H1; by rewrite lookup_empty in H1|].
      case_decide as D2; [|by eapply (tn_inj _ _ _ _ Hok id node)]. subst id. injection Hn as <-. simpl in *.
      destruct (decide (p = part)) as [->|Hpp], (decide (q = part)) as [->|Hqp]; [done| | |].
      * rewrite lookup_insert_eq in H1. injection H1 as <-. rewrite lookup_insert_ne in H2 by done. exfalso. apply (Hold counter); [|done]. by exists parent, pnode, q.
      * rewrite lookup_insert_eq in H2. injection H2 as <-. rewrite lookup_insert_ne in H1 by done. exfalso. apply (Hold counter); [|done]. by exists parent, pnode, p.
      * rewrite lookup_insert_ne in H1, H2 by done. by eapply (tn_inj _ _ _ _ Hok parent pnode).
    + intros id node. rewrite Hl. case_decide; [lia|]. case_decide; [lia|]. intros Hn%(tn_fresh _ _ _ _ Hok). lia.
  - intros id node'. rewrite Hl. case_decide; [by intros [= <-]|]. case_decide; [subst; congruence|congruence].
Qed.

Lemma make_nodes_ok root parts : forall nodes counter parent nodes' counter' result,
  tree_nodes nodes counter root -> is_Some (nodes !! parent) ->
  make_nodes nodes counter parent parts = (nodes', counter', result) ->
  tree_nodes nodes' counter' root /\ grows nodes nodes' /\ new_are_empty nodes nodes'
  /\ exists id, result = Some id /\ walk_nodes nodes' parent parts = Some id /\ is_Some (nodes' !! id).
Proof.
  induction parts as [|part parts IH]; intros nodes counter parent nodes' counter' result Hok [pnode Hp]; simpl.
  - intros [= <- <- <-]. split_and!; [done|apply nodes_grow_refl|congruence|]. exists parent. split_and!; [done|done|by exists pnode].
  - rewrite Hp. destruct (node_children pnode !! part) as [c|] eqn:Hc.
    + destruct (tn_child _ _ _ _ Hok parent pnode part c Hp Hc) as (cn & Hcn & _); [tauto|]. rewrite Hcn. intros Hm.
      destruct (IH nodes counter c nodes' counter' result Hok ltac:(by exists cn) Hm) as (H1 & H2 & H3 & id & -> & Hw & Hid).
      split_and!; [done|done|done|]. exists id. split_and!; [done| |done].
      destruct (H2 parent pnode Hp) as (pn' & Hp' & _ & _ & Hsub). rewrite Hp'. simpl. by rewrite (lookup_weaken _ _ _ _ Hc Hsub).
    + destruct (new_child_ok nodes counter root parent pnode part Hok Hp Hc) as (H1 & H2 & H3).
      assert (Hlt := tn_fresh _ _ _ _ Hok parent pnode Hp).
      assert (Hc0 : <[parent := mkNode (node_parent pnode) (<[part := counter]> (node_children pnode)) (file_ids pnode)]> nodes !! counter = None).
      { rewrite lookup_insert_ne by lia. destruct (nodes !! counter) as [n|] eqn:Hn; [|done]. apply (tn_fresh _ _ _ _ Hok) in Hn. lia. }
      rewrite Hc0. intros Hm. set (nodes1 := <[counter := _]> _) in *.
      assert (Hc1 : nodes1 !! counter = Some (mkNode (Some parent) ∅ [])) by (unfold nodes1; by rewrite lookup_insert_eq).
      destruct (IH nodes1 (counter + 1)%N counter nodes' counter' result H1 ltac:(by eexists) Hm) as (J1 & J2 & J3 & id & -> & Hw & Hid).
      split_and!; [done|by eapply nodes_grow_trans| |].
      * intros id' node' Hn' Hnone. destruct (nodes1 !! id') as [n1|] eqn:Hn1; [|by eapply J3].
        destruct (J2 id' n1 Hn1) as (n2 & Hn2 & _ & Hf & _). assert (node' = n2) as -> by congruence. rewrite Hf. by eapply H3.
      * exists id. split_and!; [done| |done]. assert (Hp1 : nodes1 !! parent = Some (mkNode (node_parent pnode) (<[part := counter]> (node_children pnode)) (file_ids pnode))).
        { unfold nodes1. rewrite lookup_insert_ne by lia. by rewrite lookup_insert_eq. }
        destruct (J2 parent _ Hp1) as (pn' & Hp' & _ & _ & Hsub). rewrite Hp'. simpl.
        rewrite (lookup_weaken (<[part := counter]> (node_children pnode)) _ part counter); [done|by rewrite lookup_insert_eq|exact Hsub].
Qed.

(** *** Pruning *)

(** Nodes with files stay, where they were. *)
Definition shrinks (root : N) (nodes nodes' : Nodes) : Prop :=
  (forall id node', nodes' !! id = Some node' -> exists node, nodes !! id = Some node /\ file_ids node' = file_ids node)
  /\ forall p x node, walk_nodes nodes root p = Some x -> nodes !! x = Some node -> file_ids node <> [] ->
       walk_nodes nodes' root p = Some x /\ is_Some (nodes' !! x).

Lemma shrinks_refl root nodes : shrinks root nodes nodes.
Proof. split; [intros id node Hn; by exists node|]. intros p x node Hw Hn _. split; [done|by exists node]. Qed.

Lemma shrinks_trans root n1 n2 n3 : shrinks root n1 n2 -> shrinks root n2 n3 -> shrinks root n1 n3.
Proof.
  intros [A1 B1] [A2 B2]. split.
  - intros id n'' Hn''. destruct (A2 id n'' Hn'') as (n' & Hn' & F2). destruct (A1 id n' Hn') as (n & Hn & F1). exists n. split; [done|congruence].
  - intros p x n Hw Hn Hf. destruct (B1 p x n Hw Hn Hf) as [Hw' [n' Hn']]. destruct (A1 x n' Hn') as (n0 & Hn0 & F).
    apply (B2 p x n'); [done|done|]. assert (n0 = n) as -> by congruence. congruence.
Qed.

(** A node that a way cannot pass through. *)
Definition dead_end (nodes : Nodes) (c : N) : Prop := forall cn, nodes !! c = Some cn -> node_children cn = ∅ /\ file_ids cn = [].

Lemma walk_around nodes nodes' (c : N) :
  (forall id node part x, id <> c -> nodes !! id = Some node -> node_children node !! part = Some x -> x <> c ->
     exists node', nodes' !! id = Some node' /\ node_children node' !! part = Some x) ->
  (forall cn, nodes !! c = Some cn -> node_children cn = ∅) ->
  forall p id x, walk_nodes nodes id p = Some x -> x <> c -> walk_nodes nodes' id p = Some x.
Proof.
  intros Hstep Hdead. induction p as [|part p IH]; intros id x; simpl; [done|]. intros (node & Hn & (y & Hy & Hw)%bind_Some)%bind_Some Hx.
  assert (Hid : id <> c) by (intros ->; rewrite (Hdead node Hn), lookup_empty in Hy; done).
  assert (Hyc : y <> c).
  { intros ->. destruct p as [|q p]; [injection Hw as <-; done|]. simpl in Hw. apply bind_Some in Hw as (cn & Hcn & (z & Hz & _)%bind_Some).
    rewrite (Hdead cn Hcn), lookup_empty in Hz. done. }
  destruct (Hstep id node part y Hid Hn Hy Hyc) as (node' & Hn' & Hy'). rewrite Hn'. simpl. rewrite Hy'. simpl. by apply IH.
Qed.

Definition without (node : ModuleNode) (c : N) : ModuleNode :=
  mkNode (node_parent node) (filter (fun p => p.2 <> c) (node_children node)) (file_ids node).

Lemma without_child node c part x : node_children (without node c) !! part = Some x <-> node_children node !! part = Some x /\ x <> c.
Proof. simpl. by rewrite map_lookup_filter_Some. Qed.

(** One step: the pointer to the child goes. *)
Lemma unlink_ok nodes counter root parent pn child :
  tree_but (eq child) nodes counter root -> nodes !! parent = Some pn -> dead_end nodes child ->
  (forall id node q, nodes !! id = Some node -> node_children node !! q = Some child -> id = parent) ->
  tree_nodes (<[parent := without pn child]> nodes) counter root /\ shrinks root nodes (<[parent := without pn child]> nodes)
  /\ forall p id x, walk_nodes nodes id p = Some x -> x <> child -> walk_nodes (<[parent := without pn child]> nodes) id p = Some x.
Proof.
  intros Hok Hp Hdead Hone. set (nodes' := <[parent := _]> nodes).
  assert (Hl : forall id, nodes' !! id = if decide (id = parent) then Some (without pn child) else nodes !! id).
  { intros id. unfold nodes'. case_decide as Hd; [subst id; by rewrite lookup_insert_eq|by rewrite lookup_insert_ne]. }
  assert (Hback : forall id node', nodes' !! id = Some node' -> exists node, nodes !! id = Some node /\ node_parent node' = node_parent node
    /\ file_ids node' = file_ids node /\ (forall q c, node_children node' !! q = Some c -> node_children node !! q = Some c /\ c <> child)).
  { intros id node'. rewrite Hl. case_decide as Hd.
    - subst id. intros [= <-]. exists pn. split_and!; [done|done|done|]. intros q c. by rewrite without_child.
    - intros Hn. exists node'. split_and!; [done|done|done|]. intros q c Hc. split; [done|]. intros ->. by apply Hd, (Hone id node' q). }
  assert (Hto : forall id node, nodes !! id = Some node -> exists node', nodes' !! id = Some node' /\ node_parent node' = node_parent node).
  { intros id node Hn. rewrite Hl. case_decide as Hd; [|by exists node]. subst id. assert (node = pn) as -> by congruence. by eexists. }
  assert (Hwalk : forall p id x, walk_nodes nodes id p = Some x -> x <> child -> walk_nodes nodes' id p = Some x).
  { apply walk_around; [|intros cn Hcn; by apply Hdead]. intros id node part x _ Hn Hx Hne. rewrite Hl. case_decide as Hd; [|by exists node].
    subst id. assert (node = pn) as -> by congruence. eexists. split; [done|]. by apply without_child. }
  split_and!; [|split|done].
  - split.
    + destruct (tn_root _ _ _ _ Hok) as (rn & Hr & Hrp). destruct (Hto root rn Hr) as (rn' & Hr' & He). exists rn'. split; [done|congruence].
    + intros id node' part c Hn' Hc _. destruct (Hback id node' Hn') as (node & Hn & _ & _ & Hch). destruct (Hch part c Hc) as [Hc' Hne].
      destruct (tn_child _ _ _ _ Hok id node part c Hn Hc') as (cn & Hcn & Hcp); [congruence|].
      destruct (Hto c cn Hcn) as (cn' & Hcn' & He). exists cn'. split; [done|congruence].
    + intros id node' p q c Hn' H1 H2. destruct (Hback id node' Hn') as (node & Hn & _ & _ & Hch).
      apply (tn_inj _ _ _ _ Hok id node p q c Hn); by apply Hch.
    + intros id node' Hn'. destruct (Hback id node' Hn') as (node & Hn & _). by eapply (tn_fresh _ _ _ _ Hok).
  - intros id node' Hn'. destruct (Hback id node' Hn') as (node & Hn & _ & Hf & _). by exists node.
  - intros p x node Hw Hn Hf. split; [apply Hwalk; [done|]|destruct (Hto x node Hn) as (n' & Hn' & _); by exists n'].
    intros ->. destruct (Hdead node Hn) as [_ Hnone]. done.
Qed.

Lemma prune_ok root counter fuel : forall nodes parent pn child part ps,
  tree_but (eq child) nodes counter root -> child <> parent -> nodes !! parent = Some pn -> node_children pn !! part = Some child ->
  dead_end nodes child -> (forall id node q, nodes !! id = Some node -> node_children node !! q = Some child -> id = parent) ->
  walk_nodes nodes root ps = Some parent -> size nodes < fuel ->
  exists nodes', prune fuel nodes root (Some parent) (Some child) = Done nodes' /\ tree_nodes nodes' counter root /\ shrinks root nodes nodes'.
Proof.
  induction fuel as [|fuel IH]; intros nodes parent pn child part ps Hok Hne Hp Hc Hdead Hone Hw Hsize; [lia|]. cbn [prune]. rewrite Hp. cbv zeta.
  fold (without pn child). destruct (unlink_ok nodes counter root parent pn child Hok Hp Hdead Hone) as (Hok1 & Hsh1 & Hw1).
  set (nodes1 := <[parent := without pn child]> nodes) in *. assert (Hp1 : nodes1 !! parent = Some (without pn child)) by (unfold nodes1; by rewrite lookup_insert_eq).
  destruct (decide (parent = root)) as [->|Hroot]; [rewrite bool_decide_true by done; by exists nodes1|]. rewrite bool_decide_false by done.
  destruct (is_bare (without pn child)) eqn:Hbare; [|by exists nodes1].
  unfold is_bare in Hbare. apply andb_true_iff in Hbare as [Hf%bool_decide_eq_true Hch%bool_decide_eq_true].
  assert (Hwp := Hw1 ps root parent Hw ltac:(congruence)). destruct ps as [|q ps _] using rev_ind; [by injection Hwp|].
  apply walk_snoc in Hwp as Hs. destruct Hs as (y & yn & Hwy & Hy & Hyc).
  destruct (tn_child _ _ _ _ Hok1 y yn q parent Hy Hyc) as (pn' & Hp1' & Hpar); [tauto|].
  assert (pn' = without pn child) as -> by congruence.
  assert (Hyp : parent <> y). { intros <-. assert (Hq := walk_inj _ _ _ _ Hok1 _ _ Hwp Hwy). apply (f_equal length) in Hq. rewrite length_app in Hq. simpl in Hq. lia. }
  assert (Hd : forall id, delete parent nodes1 !! id = if decide (id = parent) then None else nodes1 !! id).
  { intros id. case_decide as Hd; [subst id; by rewrite lookup_delete_eq|by rewrite lookup_delete_ne]. }
  assert (Hw2 : forall p id x, walk_nodes nodes1 id p = Some x -> x <> parent -> walk_nodes (delete parent nodes1) id p = Some x).
  { apply walk_around; [|intros cn Hcn; assert (cn = without pn child) as -> by congruence; done].
    intros id node part' x Hid Hn Hx _. exists node. by rewrite Hd, decide_False. }
  assert (Hsh2 : shrinks root nodes1 (delete parent nodes1)).
  { split.
    - intros id node'. rewrite Hd. case_decide; [done|]. intros Hn. by exists node'.
    - intros p x node Hx Hn Hfs. assert (x <> parent) by (intros ->; assert (node = without pn child) as -> by congruence; done).
      split; [by apply Hw2|]. rewrite Hd, decide_False by done. by exists node. }
  change (node_parent pn) with (node_parent (without pn child)). rewrite Hpar.
  destruct (IH (delete parent nodes1) y yn parent q ps) as (nodes' & Hr & Hok' & Hsh'); try done.
  - split.
    + destruct (tn_root _ _ _ _ Hok1) as (rn & Hrn & Hrp). exists rn. by rewrite Hd, decide_False by congruence.
    + intros id node part' c. rewrite Hd. case_decide; [done|]. intros Hn Hc' Hg.
      destruct (tn_child _ _ _ _ Hok1 id node part' c Hn Hc') as (cn & Hcn & Hcp); [tauto|]. exists cn. by rewrite Hd, decide_False by congruence.
    + intros id node p q' c. rewrite Hd. case_decide; [done|]. apply (tn_inj _ _ _ _ Hok1).
    + intros id node. rewrite Hd. case_decide; [done|]. apply (tn_fresh _ _ _ _ Hok1).
  - by rewrite Hd, decide_False by congruence.
  - intros cn. by rewrite Hd, decide_True.
  - intros id node q'. rewrite Hd. case_decide; [done|]. intros Hn Hc'.
    destruct (tn_child _ _ _ _ Hok1 id node q' parent Hn Hc') as (cn & Hcn & Hcp); [tauto|]. congruence.
  - by apply Hw2.
  - assert (Hs1 : size nodes1 = size nodes) by (unfold nodes1; rewrite map_size_insert, Hp; done).
    assert (Hz : size nodes <> 0) by (intros Hz%map_size_empty_inv; by rewrite Hz, lookup_empty in Hp).
    rewrite map_size_delete, Hp1. lia.
  - exists nodes'. split_and!; [exact Hr|done|]. eapply shrinks_trans; [exact Hsh1|]. by eapply shrinks_trans.
Qed.

(** *** Files at the nodes *)

(** The nodes are linked as before. *)
Definition same_links (nodes nodes' : Nodes) : Prop :=
  forall id, (fun n => (node_parent n, node_children n)) <$> nodes !! id = (fun n => (node_parent n, node_children n)) <$> nodes' !! id.

Lemma same_links_at nodes nodes' id node' : same_links nodes nodes' -> nodes' !! id = Some node' ->
  exists node, nodes !! id = Some node /\ node_parent node' = node_parent node /\ node_children node' = node_children node.
Proof. intros Hs Hn. specialize (Hs id). rewrite Hn in Hs. destruct (nodes !! id) as [node|]; [|done]. injection Hs as H1 H2. by exists node. Qed.

Lemma same_links_sym nodes nodes' : same_links nodes nodes' -> same_links nodes' nodes.
Proof. intros Hs id. symmetry. apply Hs. Qed.

Lemma same_links_walk nodes nodes' p : same_links nodes nodes' -> forall id, walk_nodes nodes' id p = walk_nodes nodes id p.
Proof.
  intros Hs. induction p as [|part p IH]; intros id; simpl; [done|]. specialize (Hs id).
  destruct (nodes !! id) as [n|], (nodes' !! id) as [n'|]; simpl in *; try done. injection Hs as _ ->.
  destruct (node_children n' !! part); simpl; [apply IH|done].
Qed.

Lemma same_links_tree gone nodes nodes' counter root : same_links nodes nodes' -> tree_but gone nodes counter root -> tree_but gone nodes' counter root.
Proof.
  intros Hs Hok. assert (Hb := fun id n => same_links_at nodes nodes' id n Hs). assert (Hf := fun id n => same_links_at nodes' nodes id n (same_links_sym _ _ Hs)). split.
  - destruct (tn_root _ _ _ _ Hok) as (rn & Hr & Hp). destruct (Hf root rn Hr) as (n & Hn & He & _). exists n. split; [done|congruence].
  - intros id node part c Hn Hc Hg. destruct (Hb id node Hn) as (n & Hn' & _ & Hch). rewrite Hch in Hc.
    destruct (tn_child _ _ _ _ Hok id n part c Hn' Hc Hg) as (cn & Hcn & Hp). destruct (Hf c cn Hcn) as (cn' & Hcn' & He & _). exists cn'. split; [done|congruence].
  - intros id node p q c Hn. destruct (Hb id node Hn) as (n & Hn' & _ & ->). by apply (tn_inj _ _ _ _ Hok id n).
  - intros id node Hn. destruct (Hb id node Hn) as (n & Hn' & _). by apply (tn_fresh _ _ _ _ Hok id n).
Qed.

Lemma refile_links (nodes : Nodes) id node files :
  nodes !! id = Some node -> same_links nodes (<[id := mkNode (node_parent node) (node_children node) files]> nodes).
Proof.
  intros Hn id'. destruct (decide (id' = id)) as [->|Hne]; [by rewrite lookup_insert_eq, Hn|by rewrite lookup_insert_ne].
Qed.

(** ** Splitting and joining *)

Lemma split_at_cons c s : exists part parts, split_at c s = part :: parts.
Proof. induction s as [|x s (part & parts & IH)]; simpl; [by do 2 eexists|]. destruct (N.eqb x c); [by do 2 eexists|]. rewrite IH. by do 2 eexists. Qed.

Lemma join_split c s : DeclWalk.join c (split_at c s) = s.
Proof.
  induction s as [|x s IH]; simpl; [done|]. destruct (N.eqb_spec x c) as [->|Hne].
  - destruct (split_at_cons c s) as (part & parts & Hs). rewrite Hs in *. by rewrite <- IH.
  - destruct (split_at_cons c s) as (part & parts & Hs). rewrite Hs in *. rewrite <- IH. by destruct parts.
Qed.

Lemma split_snoc c s : exists parts part, split_at c s = parts ++ [part].
Proof.
  destruct (split_at_cons c s) as (part & parts & ->). destruct (exists_last (l := part :: parts)) as (l & x & Hl); [done|]. by exists l, x.
Qed.

Lemma split_at_app c a b : split_at c (a ++ c :: b) = split_at c a ++ split_at c b.
Proof.
  induction a as [|x a IH]; simpl; [by rewrite N.eqb_refl|]. destruct (N.eqb x c); [by rewrite IH|]. rewrite IH.
  destruct (split_at_cons c a) as (part & parts & ->). done.
Qed.

Lemma strip_prefix_app prefix s rest : ModuleIndex.strip_prefix prefix s = Some rest -> s = prefix ++ rest.
Proof. unfold ModuleIndex.strip_prefix. case_bool_decide as He; [|done]. intros [= <-]. by rewrite <- (take_drop (length prefix) s) at 1; rewrite He. Qed.

Lemma strip_suffix_app suffix s rest : ModuleIndex.strip_suffix suffix s = Some rest -> s = rest ++ suffix.
Proof.
  unfold ModuleIndex.strip_suffix. intros (r & Hr%strip_prefix_app & ->)%fmap_Some. apply (f_equal reverse) in Hr. rewrite reverse_involutive, reverse_app, reverse_involutive in Hr. done.
Qed.

(** ** The invariant *)

Section Index.
Context {LuaType VarRefId Regex : Type} `{!EqDecision LuaType}.
Context (type_referenced_files : LuaType -> gset FileId) (entry_hash : FileId * rstring * N -> N).
Notation Index := (LuaModuleIndex LuaType VarRefId Regex).
Implicit Types self : Index.
Notation remove := (ModuleIndex.remove type_referenced_files entry_hash).
Notation add_module_by_module_path := (ModuleIndex.add_module_by_module_path type_referenced_files entry_hash).

(** Every module is at the node of its path and in the list of its name, and
    nothing else is. *)
Record index_ok self : Prop := {
  io_tree : tree_nodes (module_nodes self) (id_counter self) (module_root_id self);
  io_info : forall f info, file_module_map self !! f = Some info ->
    info_file info = f /\ last (split_at dot (full_module_name info)) = Some (info_name info)
    /\ walk_nodes (module_nodes self) (module_root_id self) (split_at dot (full_module_name info)) = Some (module_id info);
  io_files : forall id node, module_nodes self !! id = Some node ->
    NoDup (file_ids node) /\ forall f, f ∈ file_ids node <-> module_id <$> file_module_map self !! f = Some id;
  io_names : forall n, NoDup (default [] (module_name_to_file_ids self !! n)) /\ module_name_to_file_ids self !! n <> Some []
    /\ forall f, f ∈ default [] (module_name_to_file_ids self !! n) <-> info_name <$> file_module_map self !! f = Some n;
  io_paths : forall f, is_Some (file_module_paths self !! f) -> is_Some (file_module_map self !! f)
}.

(** What registering and removing leave alone. *)
Definition same_settings self self' : Prop :=
  module_patterns self' = module_patterns self /\ module_root_id self' = module_root_id self /\ workspaces self' = workspaces self
  /\ workspace_kind_map self' = workspace_kind_map self /\ fuzzy_search self' = fuzzy_search self
  /\ module_replace_vec self' = module_replace_vec self /\ isolation self' = isolation self.

Lemma bare_index_ok self :
  module_nodes self = {[module_root_id self := empty_node]} -> (module_root_id self < id_counter self)%N ->
  file_module_map self = ∅ -> module_name_to_file_ids self = ∅ -> file_module_paths self = ∅ -> index_ok self.
Proof.
  intros Hn Hc Hm Hs Hp. split; rewrite ?Hn, ?Hm, ?Hs, ?Hp.
  - split.
    + exists empty_node. by rewrite lookup_singleton_eq.
    + intros id node part c [_ <-]%lookup_singleton_Some Hx. simpl in Hx. by rewrite lookup_empty in Hx.
    + intros id node p q c [_ <-]%lookup_singleton_Some Hx. simpl in Hx. by rewrite lookup_empty in Hx.
    + intros id node [<- _]%lookup_singleton_Some. done.
  - intros f info. by rewrite lookup_empty.
  - intros id node [<- <-]%lookup_singleton_Some. split; [constructor|]. intros f. rewrite lookup_empty. simpl. split; [by intros ?%not_elem_of_nil|done].
  - intros n. rewrite !lookup_empty. simpl. split_and!; [constructor|done|]. intros f. rewrite lookup_empty. split; [by intros ?%not_elem_of_nil|done].
  - intros f. rewrite lookup_empty. by intros [].
Qed.

Lemma new_index_ok : index_ok (ModuleIndex.new : Index).
Proof. by apply bare_index_ok. Qed.

(** *** Removing *)

Lemma names_without_at names n f n' :
  default [] (names_without names n f !! n')
  = (if decide (n' = n) then filter (fun id => id <> f) (default [] (names !! n)) else default [] (names !! n')) /\
  (names !! n' <> Some [] -> names_without names n f !! n' <> Some []).
Proof.
  unfold names_without. destruct (names !! n) as [files|] eqn:Hn; simpl.
  - destruct (bool_decide_reflect (filter (fun id => id <> f) files = [])) as [He|He]; case_decide as Hd.
    + subst n'. by rewrite lookup_delete_eq, He.
    + by rewrite lookup_delete_ne.
    + subst n'. rewrite lookup_insert_eq. split; [done|]. intros _ [= Hx]. done.
    + by rewrite lookup_insert_ne.
  - case_decide as Hd; [subst n'; by rewrite Hn|done].
Qed.

(** The rest of the index is as the nodes say. *)
Lemma index_ok_nodes self nodes' counter' :
  index_ok self -> tree_nodes nodes' counter' (module_root_id self) ->
  (forall f info, file_module_map self !! f = Some info ->
     walk_nodes nodes' (module_root_id self) (split_at dot (full_module_name info)) = Some (module_id info)) ->
  (forall id node, nodes' !! id = Some node -> NoDup (file_ids node) /\ forall f, f ∈ file_ids node <-> module_id <$> file_module_map self !! f = Some id) ->
  index_ok (with_id_counter (with_module_nodes self nodes') counter').
Proof.
  intros [H1 H2 H3 H4 H5] Ht Hw Hf. split; try done. intros f info Hi. destruct (H2 f info Hi) as (Ha & Hb & _). split_and!; [done|done|by apply (Hw f)].
Qed.

(** The node of a module, when the file is taken from it. *)
Lemma take_nodes self f info : index_ok self -> file_module_map self !! f = Some info ->
  exists node, module_nodes self !! module_id info = Some node
    /\ let node' := mkNode (node_parent node) (node_children node) (filter (fun id => id <> f) (file_ids node)) in
       let nodes1 := <[module_id info := node']> (module_nodes self) in
       exists nodes', prune (S (size nodes1)) nodes1 (module_root_id self)
                        (if is_bare node' then node_parent node else None) (if is_bare node' then Some (module_id info) else None) = Done nodes'
         /\ tree_nodes nodes' (id_counter self) (module_root_id self) /\ shrinks (module_root_id self) nodes1 nodes'.
Proof.
  intros Hok Hf. destruct (io_info self Hok f info Hf) as (_ & _ & Hwalk).
  destruct (walk_there _ _ _ _ _ (io_tree self Hok) Hwalk) as [node Hnode]. exists node. split; [done|]. intros node' nodes1.
  assert (Hs : same_links (module_nodes self) nodes1) by by apply refile_links.
  assert (Ht1 : tree_nodes nodes1 (id_counter self) (module_root_id self)) by (eapply same_links_tree; [exact Hs|apply Hok]).
  destruct (is_bare node') eqn:Hbare; [|exists nodes1; split_and!; [done|done|apply shrinks_refl]].
  unfold is_bare in Hbare. apply andb_true_iff in Hbare as [Hfs%bool_decide_eq_true Hch%bool_decide_eq_true].
  rewrite <- (same_links_walk _ nodes1 _ Hs) in Hwalk. destruct (split_snoc dot (full_module_name info)) as (ps & part & Hps). rewrite Hps in Hwalk.
  assert (Hw := Hwalk). apply walk_snoc in Hw as (y & yn & Hwy & Hy & Hyc).
  destruct (tn_child _ _ _ _ Ht1 y yn part _ Hy Hyc) as (cn & Hcn & Hcp); [tauto|].
  assert (cn = node') as -> by (unfold nodes1 in Hcn; rewrite lookup_insert_eq in Hcn; congruence). change (node_parent node) with (node_parent node'). rewrite Hcp.
  apply (prune_ok _ (id_counter self) _ nodes1 y yn (module_id info) part ps); try done; [| | | |lia].
  - destruct Ht1 as [? Hc ? ?]. split; try done. intros id n q c Hn Hq _. by eapply Hc; [| |tauto].
  - intros <-. assert (Hq := walk_inj _ _ _ _ Ht1 _ _ Hwalk Hwy). apply (f_equal length) in Hq. rewrite length_app in Hq. simpl in Hq. lia.
  - intros cn Hcn'. by assert (cn = node') as -> by congruence.
  - intros id n q Hn Hq. destruct (tn_child _ _ _ _ Ht1 id n q _ Hn Hq) as (cn & Hcn' & Hp'); [tauto|]. congruence.
Qed.

Lemma removed_index_ok self self' f info node nodes' : index_ok self -> file_module_map self !! f = Some info ->
  module_nodes self !! module_id info = Some node ->
  tree_nodes nodes' (id_counter self) (module_root_id self) ->
  shrinks (module_root_id self)
    (<[module_id info := mkNode (node_parent node) (node_children node) (filter (fun id => id <> f) (file_ids node))]> (module_nodes self)) nodes' ->
  module_nodes self' = nodes' -> id_counter self' = id_counter self -> module_root_id self' = module_root_id self ->
  file_module_map self' = delete f (file_module_map self) -> file_module_paths self' = delete f (file_module_paths self) ->
  module_name_to_file_ids self' = names_without (module_name_to_file_ids self) (info_name info) f -> index_ok self'.
Proof.
  intros Hok Hf Hnode Ht [Sb Sw] Hn Hc Hr Hm Hp Hnames. set (node1 := mkNode _ _ _) in *. set (nodes1 := <[module_id info := node1]> _) in *.
  assert (Hlinks : same_links (module_nodes self) nodes1) by by apply refile_links.
  assert (Hfiles1 : forall id n, nodes1 !! id = Some n -> NoDup (file_ids n) /\ forall f', f' ∈ file_ids n <-> module_id <$> delete f (file_module_map self) !! f' = Some id).
  { intros id n. unfold nodes1. destruct (decide (id = module_id info)) as [->|Hne].
    - rewrite lookup_insert_eq. intros [= <-]. destruct (io_files self Hok _ _ Hnode) as [Hnd Hin]. simpl. split; [by apply NoDup_filter|].
      intros f'. rewrite list_elem_of_filter, Hin. destruct (decide (f' = f)) as [->|Hne'].
      + rewrite lookup_delete_eq. simpl. naive_solver.
      + rewrite lookup_delete_ne by done. tauto.
    - rewrite lookup_insert_ne by done. intros Hn1. destruct (io_files self Hok _ _ Hn1) as [Hnd Hin]. split; [done|].
      intros f'. rewrite Hin. destruct (decide (f' = f)) as [->|Hne'].
      + rewrite lookup_delete_eq, Hf. simpl. split; [intros [= He]; congruence|done].
      + by rewrite lookup_delete_ne. }
  split; rewrite ?Hn, ?Hc, ?Hr, ?Hm, ?Hp, ?Hnames.
  - done.
  - intros f' info' [Hne Hf']%lookup_delete_Some. destruct (io_info self Hok f' info' Hf') as (H1 & H2 & H3). split_and!; [done|done|].
    rewrite <- (same_links_walk _ nodes1 _ Hlinks) in H3.
    destruct (walk_there nodes1 (id_counter self) _ _ _ ltac:(by eapply same_links_tree; [exact Hlinks|apply Hok]) H3) as [n Hn1].
    destruct (Hfiles1 _ n Hn1) as [_ Hin]. apply (Sw _ _ n H3 Hn1). intros He.
    assert (f' ∈ file_ids n) as Hin'; [|rewrite He in Hin'; by apply not_elem_of_nil in Hin']. apply Hin. by rewrite lookup_delete_ne, Hf'.
  - intros id n' Hn'. destruct (Sb id n' Hn') as (n & Hn1 & ->). by apply Hfiles1.
  - intros n. destruct (names_without_at (module_name_to_file_ids self) (info_name info) f n) as [-> Hne]. destruct (io_names self Hok n) as (Hnd & Hno & Hin).
    destruct (io_info self Hok f info Hf) as (_ & _ & _). split_and!; [|by apply Hne|].
    + case_decide; [|done]. subst n. by apply NoDup_filter.
    + intros f'. case_decide as Hd.
      * subst n. rewrite list_elem_of_filter, Hin. destruct (decide (f' = f)) as [->|Hne']; [rewrite lookup_delete_eq; simpl; naive_solver|].
        rewrite lookup_delete_ne by done. tauto.
      * rewrite Hin. destruct (decide (f' = f)) as [->|Hne']; [|by rewrite lookup_delete_ne].
        rewrite lookup_delete_eq, Hf. simpl. split; [intros [= He]; congruence|done].
  - intros f' [p [Hne Hf']%lookup_delete_Some]. rewrite lookup_delete_ne by done. apply (io_paths self Hok). by exists p.
Qed.

Lemma remove_module_ok self f : index_ok self ->
  exists self', remove self f = Done self' /\ index_ok self' /\ same_settings self self'
    /\ file_module_map self' = delete f (file_module_map self) /\ file_module_paths self' = delete f (file_module_paths self).
Proof.
  intros Hok. unfold ModuleIndex.remove. destruct (file_module_map self !! f) as [info|] eqn:Hf.
  - cbn -[prune size insert delete relink_export names_without is_bare]. rewrite Hf. unfold take_module. cbv zeta.
    set (base := relink_export _ _ _ _). assert (Hb : module_nodes base = module_nodes self) by done.
    change (module_nodes (with_module_files _ _)) with (module_nodes base). rewrite Hb.
    destruct (take_nodes self f info Hok Hf) as (node & Hnode & nodes' & Hp & Ht & Hs). rewrite Hnode. cbv zeta in Hp.
    destruct (is_bare _) eqn:Hbare; eexists; (split; [cbn -[prune size insert delete relink_export names_without is_bare]; rewrite ?Hb;
      change (module_root_id base) with (module_root_id self); rewrite Hp, done_bind; reflexivity|]); (split; [|done]);
      eapply (removed_index_ok self _ f info node nodes'); done.
  - cbn -[prune size insert delete relink_export names_without is_bare]. rewrite Hf. eexists. split; [reflexivity|]. split; [|split; [done|]].
    + destruct Hok as [H1 H2 H3 H4 H5]. split; try done. intros f' [p Hp]. cbn -[delete] in Hp. apply lookup_delete_Some in Hp as [_ Hp]. apply H5. by exists p.
    + cbn -[delete]. by rewrite delete_id.
Qed.

(** *** Registering *)

Lemma settings_trans self1 self2 self3 : same_settings self1 self2 -> same_settings self2 self3 -> same_settings self1 self3.
Proof. unfold same_settings. intuition congruence. Qed.

Lemma remove_registered_ok self f : index_ok self ->
  exists self', remove_registered type_referenced_files entry_hash self f = Done self' /\ index_ok self' /\ same_settings self self'
    /\ file_module_map self' = delete f (file_module_map self) /\ file_module_paths self' = delete f (file_module_paths self).
Proof.
  intros Hok. unfold remove_registered. destruct (file_module_map self !! f) as [info|] eqn:Hf; [by apply remove_module_ok|].
  exists self. split_and!; try done; [by rewrite delete_id|]. rewrite delete_id; [done|].
  destruct (file_module_paths self !! f) eqn:Hp; [|done]. destruct (io_paths self Hok f) as [? He]; [by eexists|congruence].
Qed.

(** The module that a file becomes. *)
Definition fresh_info (f : FileId) (module_path : rstring) (node_id workspace : N) : ModuleInfo LuaType :=
  mkInfo f module_path (default [] (last (split_at dot module_path))) node_id true None None workspace None false.

Lemma added_index_ok self self' f module_path workspace nodes' counter' node_id node : index_ok self -> file_module_map self !! f = None ->
  tree_nodes nodes' counter' (module_root_id self) -> grows (module_nodes self) nodes' -> new_are_empty (module_nodes self) nodes' ->
  walk_nodes nodes' (module_root_id self) (split_at dot module_path) = Some node_id -> nodes' !! node_id = Some node ->
  let info := fresh_info f module_path node_id workspace in
  module_nodes self' = <[node_id := mkNode (node_parent node) (node_children node) (file_ids node ++ [f])]> nodes' ->
  id_counter self' = counter' -> module_root_id self' = module_root_id self ->
  file_module_map self' = <[f := info]> (file_module_map self) -> file_module_paths self' = file_module_paths self ->
  module_name_to_file_ids self'
    = <[info_name info := default [] (module_name_to_file_ids self !! info_name info) ++ [f]]> (module_name_to_file_ids self) -> index_ok self'.
Proof.
  intros Hok Hf Ht Hg He Hw Hnode info Hn Hc Hr Hm Hp Hnames.
  set (nodes2 := <[node_id := _]> nodes') in *. assert (Hlinks : same_links nodes' nodes2) by by apply refile_links.
  assert (Hfiles' : forall id n, nodes' !! id = Some n -> NoDup (file_ids n) /\ forall f', f' ∈ file_ids n <-> module_id <$> file_module_map self !! f' = Some id).
  { intros id n Hid. destruct (module_nodes self !! id) as [n0|] eqn:H0.
    - destruct (Hg id n0 H0) as (n' & Hn' & _ & Hfs & _). assert (n' = n) as -> by congruence. rewrite Hfs. by apply (io_files self Hok).
    - rewrite (He id n Hid H0). split; [constructor|]. intros f'. split; [by intros ?%not_elem_of_nil|].
      intros (info' & Hi & Hf')%fmap_Some. destruct (io_info self Hok f' info' Hi) as (_ & _ & Hw').
      destruct (walk_there _ _ _ _ _ (io_tree self Hok) Hw') as [n0 Hn0]. congruence. }
  assert (Hnf : forall id n, nodes' !! id = Some n -> f ∉ file_ids n).
  { intros id n Hid Hin. apply (Hfiles' id n Hid) in Hin. by rewrite Hf in Hin. }
  split; rewrite ?Hn, ?Hc, ?Hr, ?Hm, ?Hp, ?Hnames.
  - by eapply same_links_tree.
  - intros f' info' [[<- <-]|[Hne Hf']]%lookup_insert_Some.
    + simpl. split_and!; [done| |by rewrite (same_links_walk nodes' nodes2 _ Hlinks)]. destruct (split_snoc dot module_path) as (ps & x & ->). by rewrite last_snoc.
    + destruct (io_info self Hok f' info' Hf') as (H1 & H2 & H3). split_and!; [done|done|].
      rewrite (same_links_walk nodes' nodes2 _ Hlinks). by apply (grows_walk _ _ _ Hg).
  - intros id n. unfold nodes2. destruct (decide (id = node_id)) as [->|Hne].
    + rewrite lookup_insert_eq. intros [= <-]. simpl. destruct (Hfiles' _ _ Hnode) as [Hnd Hin]. split.
      * apply NoDup_app. split_and!; [done| |apply NoDup_singleton]. intros x Hx ->%list_elem_of_singleton. by apply (Hnf _ _ Hnode).
      * intros f'. rewrite elem_of_app, list_elem_of_singleton, Hin. destruct (decide (f' = f)) as [->|Hne'].
        -- rewrite lookup_insert_eq. simpl. tauto.
        -- rewrite lookup_insert_ne by done. tauto.
    + rewrite lookup_insert_ne by done. intros Hid. destruct (Hfiles' _ _ Hid) as [Hnd Hin]. split; [done|]. intros f'. rewrite Hin.
      destruct (decide (f' = f)) as [->|Hne']; [|by rewrite lookup_insert_ne]. rewrite lookup_insert_eq, Hf. simpl. split; [done|]. intros [= Hx]. done.
  - intros n. destruct (io_names self Hok n) as (Hnd & Hno & Hin). destruct (decide (n = info_name info)) as [->|Hne].
    + rewrite lookup_insert_eq. cbn [default from_option]. split_and!.
      * apply NoDup_app. split_and!; [done| |apply NoDup_singleton]. intros x Hx ->%list_elem_of_singleton. apply Hin in Hx. by rewrite Hf in Hx.
      * intros [= Hx]. by apply app_eq_nil in Hx as [_ ?].
      * intros f'. unfold id. rewrite elem_of_app, list_elem_of_singleton, Hin. destruct (decide (f' = f)) as [->|Hne'].
        -- rewrite lookup_insert_eq. simpl. tauto.
        -- rewrite lookup_insert_ne by done. tauto.
    + rewrite lookup_insert_ne by done. split_and!; [done|done|]. intros f'. rewrite Hin.
      destruct (decide (f' = f)) as [->|Hne']; [|by rewrite lookup_insert_ne]. rewrite lookup_insert_eq, Hf. simpl. split; [done|]. intros [= Hx]. by destruct Hne.
  - intros f' Hf'. destruct (decide (f' = f)) as [->|Hne]; [rewrite lookup_insert_eq; by eexists|]. rewrite lookup_insert_ne by done. by apply (io_paths self Hok).
Qed.

Lemma add_module_ok self f module_path workspace : index_ok self ->
  exists self' node_id, add_module_by_module_path self f module_path workspace = Done (Some tt, self') /\ index_ok self' /\ same_settings self self'
    /\ file_module_map self' = <[f := fresh_info f module_path node_id workspace]> (file_module_map self)
    /\ file_module_paths self' = delete f (file_module_paths self).
Proof.
  intros Hok. unfold ModuleIndex.add_module_by_module_path. destruct (remove_registered_ok self f Hok) as (self1 & -> & Hok1 & Hset & Hm & Hp).
  rewrite done_bind. destruct (make_nodes (module_nodes self1) (id_counter self1) (module_root_id self1) (split_at dot module_path)) as [[nodes' counter'] result] eqn:Hmk.
  assert (Hroot : is_Some (module_nodes self1 !! module_root_id self1)) by (destruct (tn_root _ _ _ _ (io_tree self1 Hok1)) as (n & Hn & _); by exists n).
  destruct (make_nodes_ok _ _ _ _ _ _ _ _ (io_tree self1 Hok1) Hroot Hmk) as (Ht & Hg & He & node_id & -> & Hw & node & Hnode).
  cbv zeta. change (module_nodes (with_id_counter _ _)) with nodes'. rewrite Hnode.
  destruct (split_snoc dot module_path) as (ps & x & Hsplit). assert (Hl : last (split_at dot module_path) = Some x) by (by rewrite Hsplit, last_snoc).
  rewrite Hl. rewrite join_split. do 2 eexists. split; [reflexivity|].
  assert (Hinfo : fresh_info f module_path node_id workspace = mkInfo f module_path x node_id true None None workspace None false) by (unfold fresh_info; by rewrite Hl).
  split; [|split; [exact Hset|split; [|done]]].
  - eapply (added_index_ok self1 _ f module_path workspace nodes' counter' node_id node); try done.
    + by rewrite Hm, lookup_delete_eq.
    + cbv zeta. by rewrite Hinfo.
    + cbv zeta. by rewrite Hinfo.
  - rewrite Hinfo. cbn -[insert delete]. rewrite Hm. apply insert_delete_eq.
Qed.

(** *** What leaves the modules where they are *)

Definition info_core (info : ModuleInfo LuaType) : FileId * rstring * rstring * N :=
  (info_file info, full_module_name info, info_name info, module_id info).

Definition same_core self self' : Prop :=
  module_nodes self' = module_nodes self /\ id_counter self' = id_counter self /\ module_root_id self' = module_root_id self
  /\ module_name_to_file_ids self' = module_name_to_file_ids self /\ file_module_paths self' = file_module_paths self
  /\ forall f, info_core <$> file_module_map self' !! f = info_core <$> file_module_map self !! f.

Lemma same_core_refl self : same_core self self.
Proof. by split_and!. Qed.

Lemma same_core_trans self1 self2 self3 : same_core self1 self2 -> same_core self2 self3 -> same_core self1 self3.
Proof. intros (A1 & A2 & A3 & A4 & A5 & A6) (B1 & B2 & B3 & B4 & B5 & B6). split_and!; try congruence. Qed.

Lemma with_info_core self f info info' : file_module_map self !! f = Some info -> info_core info' = info_core info -> same_core self (with_info self f info').
Proof.
  intros Hf Hc. split_and!; try done. intros f'. simpl. destruct (decide (f' = f)) as [->|Hne]; [rewrite lookup_insert_eq, Hf; simpl; by rewrite Hc|by rewrite lookup_insert_ne].
Qed.

Lemma same_core_ok self self' : same_core self self' -> index_ok self -> index_ok self'.
Proof.
  intros (E1 & E2 & E3 & E4 & E5 & E6) [H1 H2 H3 H4 H5].
  assert (Hinfo : forall f info', file_module_map self' !! f = Some info' -> exists info, file_module_map self !! f = Some info /\ info_core info' = info_core info).
  { intros f info' Hf. specialize (E6 f). rewrite Hf in E6. destruct (file_module_map self !! f) as [info|]; [|done]. injection E6 as ? ? ? ?. exists info. split; [done|].
    unfold info_core. congruence. }
  assert (Hid : forall f, module_id <$> file_module_map self' !! f = module_id <$> file_module_map self !! f).
  { intros f. specialize (E6 f). destruct (file_module_map self' !! f), (file_module_map self !! f); simpl in *; try done. injection E6 as ? ? ? ?. by f_equal. }
  assert (Hnm : forall f, info_name <$> file_module_map self' !! f = info_name <$> file_module_map self !! f).
  { intros f. specialize (E6 f). destruct (file_module_map self' !! f), (file_module_map self !! f); simpl in *; try done. injection E6 as ? ? ? ?. by f_equal. }
  split; rewrite ?E1, ?E2, ?E3, ?E4, ?E5; try done.
  - intros f info' Hf. destruct (Hinfo f info' Hf) as (info & Hi & [= -> -> -> ->]). by apply H2.
  - intros id node Hn. destruct (H3 id node Hn) as [Hnd Hin]. split; [done|]. intros f. by rewrite Hid.
  - intros n. destruct (H4 n) as (Hnd & Hno & Hin). split_and!; [done|done|]. intros f. by rewrite Hnm.
  - intros f Hf. destruct (H5 f Hf) as [info Hi]. specialize (E6 f). rewrite Hi in E6. destruct (file_module_map self' !! f); [by eexists|done].
Qed.

(** *** The modules of a path *)

Definition is_module self (info : ModuleInfo LuaType) : Prop := exists f, file_module_map self !! f = Some info.

Lemma elem_of_known self files info : info ∈ known self files <-> exists f, f ∈ files /\ file_module_map self !! f = Some info.
Proof. unfold known. rewrite list_elem_of_omap. naive_solver. Qed.

Lemma split_at_inj c s t : split_at c s = split_at c t -> s = t.
Proof. intros He. by rewrite <- (join_split c s), <- (join_split c t), He. Qed.

Lemma path_files self path : index_ok self ->
  match walk_nodes (module_nodes self) (module_root_id self) (split_at dot path) with
  | Some id => exists node, module_nodes self !! id = Some node
      /\ forall info, info ∈ known self (file_ids node) <-> is_module self info /\ full_module_name info = path
  | None => forall info, is_module self info -> full_module_name info <> path
  end.
Proof.
  intros Hok. destruct (walk_nodes _ _ _) as [id|] eqn:Hw.
  - destruct (walk_there _ _ _ _ _ (io_tree self Hok) Hw) as [node Hn]. exists node. split; [done|]. intros info. rewrite elem_of_known.
    destruct (io_files self Hok id node Hn) as [_ Hin]. split.
    + intros (f & Hf & Hi). split; [by exists f|]. apply Hin in Hf. rewrite Hi in Hf. injection Hf as Hf.
      destruct (io_info self Hok f info Hi) as (_ & _ & Hw'). rewrite Hf in Hw'. eapply split_at_inj, walk_inj; [apply Hok|exact Hw'|exact Hw].
    + intros ([f Hi] & Hp). exists f. split; [|done]. apply Hin. rewrite Hi. simpl. f_equal.
      destruct (io_info self Hok f info Hi) as (_ & _ & Hw'). rewrite Hp in Hw'. congruence.
  - intros info [f Hi] Hp. destruct (io_info self Hok f info Hi) as (_ & _ & Hw'). by rewrite Hp, Hw in Hw'.
Qed.

(** ** The choice among modules *)

Lemma order_ordered self : ordered (order_cmp self).
Proof. unfold order_cmp. apply ordered_then; apply (ordered_on _ N.compare), ordered_N. Qed.

Lemma path_ordered self : ordered (path_cmp self).
Proof.
  unfold path_cmp. apply ordered_then; [apply (ordered_on _ bool_cmp), ordered_bool|].
  apply ordered_then; [apply (ordered_on _ (opt_cmp str_cmp)), ordered_opt, ordered_str|].
  apply ordered_then; [apply (ordered_on full_module_name str_cmp), ordered_str|apply (ordered_on info_file N.compare), ordered_N].
Qed.

Lemma global_ordered self : ordered (cmp_global self).
Proof.
  unfold cmp_global. apply ordered_then; [apply (ordered_on _ N.compare), ordered_N|]. apply ordered_then; [apply order_ordered|apply path_ordered].
Qed.

Lemma workspace_ordered self current : ordered (cmp_for_workspace self current).
Proof.
  unfold cmp_for_workspace. apply ordered_then; [apply (ordered_on _ bool_cmp), ordered_bool|]. apply ordered_then; [apply order_ordered|apply path_ordered].
Qed.

Lemma path_cmp_file self a b : path_cmp self a b = Eq -> info_file a = info_file b.
Proof. unfold path_cmp. intros (_ & (_ & (_ & He)%then_eq)%then_eq)%then_eq. by apply N.compare_eq. Qed.

Lemma module_of_file self a b : index_ok self -> is_module self a -> is_module self b -> info_file a = info_file b -> a = b.
Proof.
  intros Hok [f Hf] [g Hg] He. destruct (io_info self Hok f a Hf) as (<- & _), (io_info self Hok g b Hg) as (<- & _). congruence.
Qed.

(** [r] is the module of [P] that comes first. *)
Definition first_module self (cmp : ModuleInfo LuaType -> ModuleInfo LuaType -> comparison) (P : ModuleInfo LuaType -> Prop)
    (r : option (ModuleInfo LuaType)) : Prop :=
  match r with
  | Some m => is_module self m /\ P m /\ forall m', is_module self m' -> P m' -> m' = m \/ cmp m m' = Lt
  | None => forall m, is_module self m -> ~ P m
  end.

Lemma first_module_unique self cmp P r r' : ordered cmp -> first_module self cmp P r -> first_module self cmp P r' -> r = r'.
Proof.
  intros Ho H1 H2. destruct r as [m|], r' as [m'|]; simpl in *; [|naive_solver|naive_solver|done].
  destruct H1 as (M1 & P1 & F1), H2 as (M2 & P2 & F2). destruct (F1 m' M2 P2) as [|L1]; [by f_equal|].
  destruct (F2 m M1 P1) as [|L2]; [by f_equal|]. rewrite (cmp_flip cmp Ho m m'), L1 in L2. done.
Qed.

Lemma best_is_first self cmp (P : ModuleInfo LuaType -> Prop) l : index_ok self -> ordered cmp ->
  (forall a b, cmp a b = Eq -> info_file a = info_file b) -> (forall m, m ∈ l <-> is_module self m /\ P m) ->
  first_module self cmp P (best_of (fun c b => is_lt (cmp c b)) None l).
Proof.
  intros Hok Ho He Hl. assert (Hb := best_of_min cmp Ho l). destruct (best_of _ None l) as [m|]; simpl.
  - destruct Hb as [Hin Hb]. apply Hl in Hin as [Hm HP]. split_and!; [done|done|]. intros m' Hm' HP'. specialize (Hb m' ltac:(by apply Hl)).
    destruct (cmp m m') eqn:Hc; [left|by right|done]. by eapply module_of_file; [..|symmetry; apply He].
  - intros m Hm HP. assert (m ∈ l) as Hin by by apply Hl. rewrite Hb in Hin. by apply not_elem_of_nil in Hin.
Qed.

(** *** Modules that a path ends *)

Lemma ends_in_name self path info : index_ok self -> is_module self info -> ends_in path info = true -> last (split_at dot path) = Some (info_name info).
Proof.
  intros Hok [f Hf] He. destruct (io_info self Hok f info Hf) as (_ & <- & _). unfold ends_in in He. apply orb_true_iff in He as [He|He].
  - apply bool_decide_eq_true in He. by rewrite He.
  - apply bool_decide_eq_true in He as [prefix Hp%strip_suffix_app]. rewrite Hp, split_at_app, last_app.
    destruct (split_snoc dot path) as (ps & x & ->). by rewrite last_snoc.
Qed.

Definition named_files self (path : rstring) : list FileId :=
  default [] (module_name_to_file_ids self !! (default [] (last (split_at dot path)) : rstring)).

Lemma named_ends self path info : index_ok self ->
  info ∈ filter (fun info => ends_in path info = true) (known self (named_files self path)) <-> is_module self info /\ ends_in path info = true.
Proof.
  intros Hok. rewrite list_elem_of_filter, elem_of_known. split.
  - intros (He & f & _ & Hi). split; [by exists f|done].
  - intros ([f Hi] & He). split; [done|]. exists f. split; [|done]. apply (io_names self Hok).
    rewrite Hi, (ends_in_name self path info Hok ltac:(by exists f) He). done.
Qed.

Definition leading (path : rstring) (info : ModuleInfo LuaType) : nat := from_option snd 0 (leading_segments path info).
Definition priority self (workspace : N) (info : ModuleInfo LuaType) : N :=
  default 0%N (workspace_resolution_priority self workspace (workspace_id info)).
Definition seen self (workspace : option N) (info : ModuleInfo LuaType) : Prop :=
  match workspace with None => True | Some w => is_Some (workspace_resolution_priority self w (workspace_id info)) end.

#[global] Instance seen_dec self workspace info : Decision (seen self workspace info).
Proof. destruct workspace; simpl; apply _. Defined.

(** What comes first: for a workspace what is nearest to it. *)
Definition cmp_exact self (workspace : option N) (a b : ModuleInfo LuaType) : comparison :=
  match workspace with
  | None => cmp_global self a b
  | Some w => then_cmp (N.compare (priority self w a) (priority self w b)) (cmp_for_workspace self w a b)
  end.

Definition cmp_near self (path : rstring) (workspace : option N) (a b : ModuleInfo LuaType) : comparison :=
  match workspace with
  | None => then_cmp (Nat.compare (leading path a) (leading path b))
              (then_cmp (str_cmp (full_module_name a) (full_module_name b)) (cmp_global self a b))
  | Some w => cmp_exact self workspace a b
  end.

Lemma exact_ordered self workspace : ordered (cmp_exact self workspace).
Proof.
  destruct workspace as [w|]; [|apply global_ordered]. apply ordered_then; [apply (ordered_on (priority self w) N.compare), ordered_N|apply workspace_ordered].
Qed.

Lemma near_ordered self path workspace : ordered (cmp_near self path workspace).
Proof.
  destruct workspace as [w|]; [apply exact_ordered|]. apply ordered_then; [apply (ordered_on (leading path) Nat.compare), ordered_nat|].
  apply ordered_then; [apply (ordered_on full_module_name str_cmp), ordered_str|apply global_ordered].
Qed.

Lemma exact_eq self workspace a b : cmp_exact self workspace a b = Eq -> info_file a = info_file b.
Proof.
  destruct workspace as [w|]; unfold cmp_exact, cmp_for_workspace, cmp_global.
  - by intros (_ & (_ & (_ & He%path_cmp_file)%then_eq)%then_eq)%then_eq.
  - by intros (_ & (_ & He%path_cmp_file)%then_eq)%then_eq.
Qed.

Lemma near_eq self path workspace a b : cmp_near self path workspace a b = Eq -> info_file a = info_file b.
Proof.
  destruct workspace as [w|]; [apply exact_eq|]. unfold cmp_near, cmp_global. by intros (_ & (_ & (_ & (_ & He%path_cmp_file)%then_eq)%then_eq)%then_eq)%then_eq.
Qed.

Lemma in_workspace_lt self w (c b : ModuleInfo LuaType * N) :
  better_in_workspace self w c b = is_lt (then_cmp (N.compare c.2 b.2) (cmp_for_workspace self w c.1 b.1)).
Proof.
  unfold better_in_workspace, is_candidate_better_for_workspace. destruct (N.compare_spec c.2 b.2) as [He|He|He].
  - rewrite He, N.ltb_irrefl, N.eqb_refl. simpl. by rewrite negb_involutive.
  - rewrite (proj2 (N.ltb_ge _ _)), (proj2 (N.eqb_neq _ _)) by lia. done.
  - rewrite (proj2 (N.ltb_lt _ _)) by lia. done.
Qed.

Lemma in_sight_best self w (l : list (ModuleInfo LuaType)) :
  fst <$> best_of (better_in_workspace self w) None (omap (in_sight self w) l)
  = best_of (fun c b => is_lt (cmp_exact self (Some w) c b)) None (filter (seen self (Some w)) l).
Proof.
  rewrite (best_of_fst (priority self w)).
  - cbn [fmap option_fmap option_map]. assert (Hl : fst <$> omap (in_sight self w) l = filter (seen self (Some w)) l).
    { induction l as [|a l IH]; [done|]. rewrite filter_cons. simpl. unfold in_sight at 1.
      destruct (workspace_resolution_priority self w (workspace_id a)) as [pr|] eqn:Hp; simpl.
      - exact (f_equal (cons a) IH).
      - exact IH. }
    rewrite Hl. apply best_of_ext. intros a b. apply in_workspace_lt.
  - intros [a pr] (a' & _ & Ha)%list_elem_of_omap. unfold in_sight in Ha. apply bind_Some in Ha as (pr' & Hp & [= -> ->]). simpl. unfold priority. by rewrite Hp.
  - done.
Qed.

Lemma near_best self path (l : list (ModuleInfo LuaType)) :
  fst <$> best_of (fun c b => is_candidate_better_for_fuzzy_global self c.1 c.2 b.1 b.2) None (omap (leading_segments path) l)
  = best_of (fun c b => is_lt (cmp_near self path None c b)) None (filter (fun info => ends_in path info = true) l).
Proof.
  assert (Hlead : forall a, match leading_segments path a with Some p => ends_in path a = true /\ p = (a, leading path a) | None => ends_in path a = false end).
  { intros a. unfold leading, ends_in, leading_segments. case_bool_decide as He; [done|]. simpl.
    destruct (ModuleIndex.strip_suffix (dot :: path) (full_module_name a)) as [pre|]; done. }
  rewrite (best_of_fst (leading path)).
  - cbn [fmap option_fmap option_map]. assert (Hl : fst <$> omap (leading_segments path) l = filter (fun info => ends_in path info = true) l).
    { induction l as [|a l IH]; [done|]. rewrite filter_cons. specialize (Hlead a). cbn [omap list_omap]. destruct (leading_segments path a) as [p|].
      - destruct Hlead as [He ->]. rewrite decide_True by done. exact (f_equal (cons a) IH).
      - rewrite decide_False by (rewrite Hlead; done). exact IH. }
    rewrite Hl. apply best_of_ext. intros a b. unfold is_candidate_better_for_fuzzy_global, is_candidate_better_global. simpl.
    destruct (Nat.compare_spec (leading path a) (leading path b)) as [He|He|He]; simpl.
    + rewrite He, Nat.eqb_refl. simpl. assert (Hs := lex_cmp_eq (full_module_name a) (full_module_name b)). unfold str_cmp.
      destruct (DerivationId.lex_cmp _ _) eqn:Hc; simpl.
      * by rewrite bool_decide_true by by apply Hs.
      * done.
      * rewrite bool_decide_false; [done|]. intros He'. by apply Hs in He'.
    + done.
    + rewrite (proj2 (Nat.eqb_neq _ _)) by lia. done.
  - intros p (a & _ & Ha)%list_elem_of_omap. specialize (Hlead a). rewrite Ha in Hlead. by destruct Hlead as [_ ->].
  - done.
Qed.
End Index.
