(* ===== verification/ModuleIndexSpec.v ===== *)
(** * The module index: theorems

    Every sequence of operations keeps the tree of module paths and the lists of
    names in step with the modules; a lookup finds the module that comes first
    among those of the path, whatever was registered before and in which order;
    ids for new workspaces are free. *)

From S2P Require Import Prelude Kinds Text FileOrder Dependency EditMap EditRemap Derivation Readers KeyTable KeyTableProofs FactKey DeclTree DeclWalk ModuleIndex ModuleIndexProofs.
From stdpp Require Import list gmap sorting.
Local Open Scope prog_scope.

Section Spec.
Context {LuaType VarRefId Regex : Type} `{!EqDecision LuaType}.
Context (type_referenced_files : LuaType -> gset FileId) (regex_new : rstring -> option Regex) (regex_escape : rstring -> rstring)
  (captured : Regex -> rstring -> option rstring) (replace_all : Regex -> rstring -> rstring -> rstring)
  (entry_hash : FileId * rstring * N -> N) (remap_identities_in_type : LuaType -> FileRemap -> option LuaType * bool).
Notation Index := (LuaModuleIndex LuaType VarRefId Regex).
Implicit Types self : Index.
Notation index_ok := (ModuleIndexProofs.index_ok).

(** ** Operations *)

Inductive Op : Type :=
  | AddByPath (f : FileId) (path : rstring)
  | AddByModulePath (f : FileId) (module_path : rstring) (workspace : N)
  | Remove (f : FileId)
  | Repath (f : FileId) (path : rstring)
  | Clear
  | SetExport (f : FileId) (export : LuaType) (semantic : option LuaSemanticDeclId)
  | ResetExport (f : FileId)
  | RemapExports (remap : FileRemap)
  | SetVisibility (f : FileId) (visible : bool)
  | SetVersionConds (f : FileId) (conds : list LuaVersionCondition)
  | SetMeta (f : FileId)
  | SetLegacyEnv (f : FileId) (env : LegacyModuleEnv)
  | AddRoot (root : rstring) (workspace : N) (kind : WorkspaceKind)
  | RemoveRoots
  | UpdateConfig (config : Config).

Definition apply self (op : Op) : outcome Index :=
  match op with
  | AddByPath f path =>
      added ← add_module_by_path type_referenced_files captured replace_all entry_hash self f path; Done added.2
  | AddByModulePath f module_path workspace =>
      added ← add_module_by_module_path type_referenced_files entry_hash self f module_path workspace; Done added.2
  | Remove f => ModuleIndex.remove type_referenced_files entry_hash self f
  | Repath f path => repath_module type_referenced_files captured replace_all entry_hash self f path
  | Clear => Done (clear self)
  | SetExport f export semantic => Done (set_export type_referenced_files self f export semantic).2
  | ResetExport f => Done (reset_export type_referenced_files self f)
  | RemapExports remap => Done (remap_file_exports remap_identities_in_type self remap).2
  | SetVisibility f visible => Done (set_module_visibility self f visible)
  | SetVersionConds f conds => Done (set_module_version_conds self f conds)
  | SetMeta f => Done (set_meta self f)
  | SetLegacyEnv f env => Done (set_legacy_module_env self f env)
  | AddRoot root workspace kind => Done (add_workspace_root_with_kind self root workspace kind)
  | RemoveRoots => Done (remove_main_and_library_workspaces self)
  | UpdateConfig config => Done (update_config regex_new regex_escape self config)
  end.

Fixpoint run self (ops : list Op) : outcome Index :=
  match ops with [] => Done self | op :: ops => self ← apply self op; run self ops end.

Lemma add_by_path_ok self f path : index_ok self ->
  exists result self', add_module_by_path type_referenced_files captured replace_all entry_hash self f path = Done (result, self') /\ index_ok self'.
Proof.
  intros Hok. unfold add_module_by_path. destruct (remove_registered_ok type_referenced_files entry_hash self f Hok) as (self1 & -> & Hok1 & _).
  rewrite done_bind. destruct (module_path_at captured replace_all self1 _) as [[module_path workspace]|]; [|by do 2 eexists].
  destruct (add_module_ok type_referenced_files entry_hash self1 f module_path workspace Hok1) as (self2 & node_id & -> & Hok2 & _ & Hm & Hp).
  rewrite done_bind. do 2 eexists. split; [reflexivity|]. destruct Hok2 as [H1 H2 H3 H4 H5]. split; try done.
  intros f' Hf'. cbn -[insert delete] in Hf' |- *. destruct (decide (f' = f)) as [->|Hne]; [rewrite Hm, lookup_insert_eq; by eexists|].
  rewrite lookup_insert_ne in Hf' by done. by apply H5.
Qed.

Lemma remap_export_core self remap lost f : same_core self (remap_export remap_identities_in_type self remap lost f).2.
Proof.
  unfold remap_export. destruct (file_module_map self !! f) as [info|] eqn:Hf; [|apply same_core_refl]. cbv zeta.
  case_match; [apply same_core_refl|]. repeat case_match; simplify_eq/=; first [by apply (with_info_core self f info)|by apply (with_info_core self f info)].
Qed.

Lemma remap_core self remap : same_core self (remap_file_exports remap_identities_in_type self remap).2.
Proof.
  unfold remap_file_exports. generalize (@nil FileId). set (files := sort_by _ _). clearbody files. revert self.
  induction files as [|f files IH]; intros self lost; simpl; [apply same_core_refl|].
  assert (H1 := remap_export_core self remap lost f). destruct (remap_export _ self remap lost f) as [lost' self']. simpl in *.
  eapply same_core_trans; [exact H1|apply IH].
Qed.

Lemma apply_ok self op : index_ok self -> exists self', apply self op = Done self' /\ index_ok self'.
Proof.
  intros Hok. assert (Hcore : forall self', same_core self self' -> exists self'', Done self' = Done self'' /\ index_ok self'').
  { intros self' Hc. exists self'. split; [done|]. by eapply same_core_ok. }
  destruct op; cbn [apply].
  - destruct (add_by_path_ok self f path Hok) as (res & self' & -> & Hok'). rewrite done_bind. by eexists.
  - destruct (add_module_ok type_referenced_files entry_hash self f module_path workspace Hok) as (self' & node_id & -> & Hok' & _). rewrite done_bind. by eexists.
  - destruct (remove_module_ok type_referenced_files entry_hash self f Hok) as (self' & -> & Hok' & _). by eexists.
  - unfold repath_module. destruct (file_module_paths self !! f), (file_module_map self !! f) as [declared|]; try by eexists.
    destruct (add_by_path_ok self f path Hok) as (res & self' & -> & Hok'). rewrite done_bind. eexists. split; [reflexivity|].
    eapply same_core_ok; [|exact Hok']. cbn [snd]. cbv zeta. destruct (file_module_map self' !! f) as [info|] eqn:Hf, (legacy_envs self !! f);
      first [by apply (with_info_core self' f info)|by split_and!].
  - eexists. split; [reflexivity|]. apply bare_index_ok; try done. destruct (tn_root _ _ _ _ (io_tree self Hok)) as (rn & Hr & _).
    by apply (tn_fresh _ _ _ _ (io_tree self Hok) _ rn).
  - unfold set_export. change (file_module_map (note_lookup_keys self f)) with (file_module_map self).
    destruct (file_module_map self !! f) as [info|] eqn:Hf; [|by apply Hcore; split_and!]. case_match; [by apply Hcore; split_and!|].
    apply Hcore. by apply (with_info_core self f info).
  - unfold reset_export. destruct (file_module_map self !! f) as [info|] eqn:Hf; apply Hcore; [by apply (with_info_core self f info)|apply same_core_refl].
  - apply Hcore, remap_core.
  - unfold set_module_visibility. destruct (file_module_map self !! f) as [info|] eqn:Hf; apply Hcore; [by apply (with_info_core self f info)|apply same_core_refl].
  - unfold set_module_version_conds. destruct (file_module_map self !! f) as [info|] eqn:Hf; apply Hcore; [by apply (with_info_core self f info)|apply same_core_refl].
  - unfold set_meta. destruct (file_module_map self !! f) as [info|] eqn:Hf; apply Hcore; [by apply (with_info_core self f info)|apply same_core_refl].
  - apply Hcore. by split_and!.
  - apply Hcore. unfold add_workspace_root_with_kind. by case_match; split_and!.
  - apply Hcore. by split_and!.
  - apply Hcore. by split_and!.
Qed.

Lemma run_ok ops : forall self, index_ok self -> exists self', run self ops = Done self' /\ index_ok self'.
Proof.
  induction ops as [|op ops IH]; intros self Hok; [by exists self|]. cbn [run].
  destruct (apply_ok self op Hok) as (self' & -> & Hok'). rewrite done_bind. by apply IH.
Qed.

(** ** Theorems *)

(** C18: every sequence of operations on the module index comes to its end, and
    leaves every module at the node that its dotted path leads to, once, and in the
    list of its name, and no other file at any node or in any list; different
    paths lead to different nodes. *)
Theorem modules_are_filed ops :
  exists self, run new ops = Done self
    /\ (forall f info, file_module_map self !! f = Some info ->
          info_file info = f /\ exists node,
            walk_nodes (module_nodes self) (module_root_id self) (split_at dot (full_module_name info)) = Some (module_id info)
            /\ module_nodes self !! module_id info = Some node /\ f ∈ file_ids node)
    /\ (forall id node, module_nodes self !! id = Some node -> NoDup (file_ids node)
          /\ forall f, f ∈ file_ids node -> module_id <$> file_module_map self !! f = Some id)
    /\ (forall n f, f ∈ default [] (module_name_to_file_ids self !! n) <-> info_name <$> file_module_map self !! f = Some n)
    /\ forall p q id, walk_nodes (module_nodes self) (module_root_id self) p = Some id ->
         walk_nodes (module_nodes self) (module_root_id self) q = Some id -> p = q.
Proof.
  destruct (run_ok ops new new_index_ok) as (self & Hr & Hok). exists self. split; [done|]. split_and!.
  - intros f info Hf. destruct (io_info self Hok f info Hf) as (Hfile & _ & Hw). split; [done|].
    destruct (walk_there _ _ _ _ _ (io_tree self Hok) Hw) as [node Hn]. exists node. split_and!; [done|done|]. apply (io_files self Hok _ node Hn). by rewrite Hf.
  - intros id node Hn. destruct (io_files self Hok id node Hn) as [Hnd Hin]. split; [done|]. intros f. by apply Hin.
  - intros n. apply (io_names self Hok).
  - intros p q id. apply (walk_inj _ _ _ _ (io_tree self Hok)).
Qed.

(** C17: a lookup finds, among the modules registered under the path that the
    workspace sees, the one that comes first in the order of priority, place of
    workspace, path and file; when there is none and the lookup may be fuzzy, the
    first among those whose path ends in it, with the fewest segments before.  What
    was registered and removed before, and in which order, makes no difference. *)
Theorem lookup_finds_first ops self module_path workspace :
  run new ops = Done self ->
  let path := dotted module_path in
  exists exact near,
    first_module self (cmp_exact self workspace) (fun m => full_module_name m = path /\ seen self workspace m) exact
    /\ first_module self (cmp_near self path workspace) (fun m => ends_in path m = true /\ seen self workspace m) near
    /\ lookup_module self module_path workspace
       = match exact with Some m => Some m | None => if fuzzy_search self then near else None end.
Proof.
  intros Hr path. destruct (run_ok ops new new_index_ok) as (self' & Hr' & Hok). rewrite Hr in Hr'. injection Hr' as <-.
  set (r := match workspace with Some w => exact_find_module_in_workspace self (split_at dot path) w | None => exact_find_module self (split_at dot path) end).
  set (files := filter (fun info => ends_in path info = true) (known self (named_files self path))).
  set (near := best_of (fun c b => is_lt (cmp_near self path workspace c b)) None (filter (seen self workspace) files)).
  exists r, near. split_and!.
  - assert (Hp := path_files self path Hok). unfold r, exact_find_module_in_workspace, exact_find_module.
    destruct (walk_nodes _ _ _) as [id|]; simpl.
    + destruct Hp as (node & Hn & Hin). rewrite Hn. simpl. destruct workspace as [w|]; simpl.
      * unfold select_module_for_workspace. rewrite in_sight_best. apply best_is_first; [done|apply exact_ordered|apply exact_eq|].
        intros m. rewrite list_elem_of_filter, Hin. simpl. tauto.
      * unfold select_module_globally. apply (best_is_first self (cmp_global self)); [done|apply global_ordered|apply (exact_eq self None)|].
        intros m. rewrite Hin. tauto.
    + destruct workspace; simpl; intros m Hm [Hpath _]; by apply (Hp m).
  - apply best_is_first; [done|apply near_ordered|apply near_eq|]. intros m. rewrite list_elem_of_filter. unfold files. rewrite (named_ends self path m Hok). tauto.
  - unfold lookup_module. fold path. cbv zeta. fold r. destruct r as [m|]; [done|]. destruct (fuzzy_search self); [|done].
    destruct (split_snoc dot path) as (ps & x & Hs). assert (Hl : last (split_at dot path) = Some x) by (by rewrite Hs, last_snoc). rewrite Hl. simpl.
    unfold near, files, named_files. rewrite Hl. cbn [default from_option]. unfold id.
    destruct workspace as [w|].
    + unfold fuzzy_find_module_in_workspace. destruct (module_name_to_file_ids self !! x) as [fs|]; [|reflexivity]. simpl. by rewrite in_sight_best.
    + unfold fuzzy_find_module. destruct (module_name_to_file_ids self !! x) as [fs|]; [|reflexivity]. simpl. rewrite near_best.
      f_equal. symmetry. apply filter_all. by intros.
Qed.
End Spec.

(** ** Ids for workspaces *)

Lemma next_free_ok (taken : N -> bool) (used : list N) fuel : forall candidate,
  (forall c, taken c = true -> (candidate <= c)%N -> c ∈ used) -> length used < fuel ->
  exists c, next_free fuel taken candidate = Done c /\ taken c = false /\ (candidate <= c)%N
    /\ forall c', (candidate <= c' < c)%N -> taken c' = true.
Proof.
  revert used. induction fuel as [|fuel IH]; intros used candidate Hu Hl; [lia|]. cbn [next_free]. destruct (taken candidate) eqn:Ht.
  - assert (Hin : candidate ∈ used) by (apply Hu; [done|lia]). apply list_elem_of_split in Hin as (l1 & l2 & ->).
    destruct (IH (l1 ++ l2) (candidate + 1)%N) as (c & H1 & H2 & H3 & H4).
    + intros c Hc Hle. assert (Hin : c ∈ l1 ++ candidate :: l2) by (apply Hu; [done|lia]). rewrite elem_of_app, elem_of_cons in Hin.
      rewrite elem_of_app. destruct Hin as [|[->|]]; [by left|lia|by right].
    + rewrite length_app in *. simpl in Hl. lia.
    + exists c. split_and!; [done|done|lia|]. intros c' Hc'. destruct (decide (c' = candidate)) as [->|Hne]; [done|]. apply H4. lia.
  - exists candidate. split_and!; [done|done|lia|]. lia.
Qed.

(** An id for a new workspace is found, is that of no workspace there is and of
    neither the standard nor the remote one, and is the least such from the main
    one on, or from the first library on. *)
Theorem next_workspace_ids_free {LuaType VarRefId Regex : Type} (self : LuaModuleIndex LuaType VarRefId Regex) :
  (exists c, next_main_workspace_id self = Done c /\ c ∉ ws_id <$> workspaces self /\ c <> WorkspaceId.REMOTE /\ (WorkspaceId.MAIN <= c)%N
     /\ forall c', (WorkspaceId.MAIN <= c' < c)%N -> c' = WorkspaceId.REMOTE \/ c' ∈ ws_id <$> workspaces self)
  /\ exists c, next_library_workspace_id self = Done c /\ c ∉ ws_id <$> workspaces self /\ (WorkspaceId.REMOTE < c)%N
     /\ forall c', (WorkspaceId.REMOTE < c' < c)%N -> c' ∈ ws_id <$> workspaces self.
Proof.
  set (used := ws_id <$> workspaces self). split.
  - destruct (next_free_ok (fun c => bool_decide (c = WorkspaceId.REMOTE) || bool_decide (c ∈ used)) (WorkspaceId.REMOTE :: used)
      (S (S (length used))) WorkspaceId.MAIN) as (c & H1 & H2 & H3 & H4).
    + intros c Hc _. apply orb_true_iff in Hc as [Hc|Hc]; apply bool_decide_eq_true in Hc; [subst; by left|by right].
    + simpl. lia.
    + exists c. apply orb_false_iff in H2 as [H2 H2']. apply bool_decide_eq_false in H2, H2'. split_and!; [done|done|done|done|].
      intros c' Hc'. specialize (H4 c' Hc'). apply orb_true_iff in H4 as [H4|H4]; apply bool_decide_eq_true in H4; [by left|by right].
  - destruct (next_free_ok (fun c => bool_decide (c ∈ used)) used (S (length used)) (WorkspaceId.REMOTE + 1)) as (c & H1 & H2 & H3 & H4).
    + intros c Hc _. by apply bool_decide_eq_true in Hc.
    + lia.
    + exists c. apply bool_decide_eq_false in H2. split_and!; [done|done|lia|]. intros c' Hc'. specialize (H4 c' ltac:(lia)). by apply bool_decide_eq_true in H4.
Qed.

(** ** A workspace with a library in it *)

Module Sample.
(** A pattern is taken for what it matches up to its end [.lua]. *)
Definition captured (_ : rstring) (path : rstring) : option rstring := ModuleIndex.strip_suffix (str ".lua") path.
Notation Index := (LuaModuleIndex unit unit rstring).
Notation run := (ModuleIndexSpec.run (LuaType := unit) (VarRefId := unit) (Regex := rstring) (fun _ => ∅) (fun s => Some s) (fun s => s) captured
  (fun _ s _ => s) (fun _ => 5%N) (fun t _ => (None, false))).

Definition config : Config := mkConfig [str ".lua"] [] [] true false.

Definition ops : list (Op (LuaType := unit)) :=
  [UpdateConfig config; AddRoot (str "/w") 1%N Main; AddRoot (str "/w/lib") 3%N Library_;
   AddByPath 1%N (str "/w/game/util.lua"); AddByPath 2%N (str "/w/lib/x/util.lua"); AddByPath 3%N (str "/w/x/util.lua");
   AddByPath 4%N (str "/w/lib/gone.lua"); Remove 4%N].

Definition index : Index := match run new ops with Done self => self | _ => new end.

(** The library's file is of the library; its module of the path is behind the main
    workspace's own, and before nothing where only its own is asked for. *)
Example lookups :
  ((fun info => (info_file info, workspace_id info)) <$> get_module index 2%N,
   info_file <$> find_module index (str "x/util"), info_file <$> find_module_in_workspace index (str "x.util") 3%N,
   info_file <$> find_module index (str "util"), info_file <$> find_module index (str "gone"),
   next_main_workspace_id index, next_library_workspace_id index)
  = (Some (2%N, 3%N), Some 3%N, Some 2%N, Some 1%N, None, Done 4%N, Done 4%N).
Proof. vm_compute. reflexivity. Qed.

(** The node of the module that is gone is still there: only the nodes above it go. *)
Example leaf_stays :
  (size (module_nodes index), match run index [AddByPath 4%N (str "/w/lib/gone.lua"); Remove 4%N] with Done self => size (module_nodes self) | _ => 0 end)
  = (6, 7).
Proof. vm_compute. reflexivity. Qed.

Lemma lookup_finds_first_witness :
  run new ops = Done index
  /\ exists exact : option (ModuleInfo unit),
       first_module index (cmp_exact index (Some 1%N)) (fun m => full_module_name m = str "x.util" /\ seen index (Some 1%N) m) exact
       /\ exists near, lookup_module index (str "x/util") (Some 1%N)
            = match exact with Some m => Some m | None => if fuzzy_search index then near else None end.
Proof.
  assert (Hr : run new ops = Done index) by (vm_compute; reflexivity). split; [exact Hr|].
  destruct (lookup_finds_first (fun _ => ∅) (fun s => Some s) (fun s => s) captured (fun _ s _ => s) (fun _ => 5%N) (fun t _ => (None, false))
    ops index (str "x/util") (Some 1%N) Hr) as (exact & near & H1 & _ & H3).
  exists exact. assert (Hp : dotted (str "x/util") = str "x.util") by (vm_compute; reflexivity). rewrite Hp in H1. exact (conj H1 (ex_intro _ near H3)).
Defined.
End Sample.
