(* ===== verification/GlobalIndex.v ===== *)
(** * Globals

    [src/crates/glua_code_analysis/src/db_index/global/mod.rs]: the declarations of
    every global in the order of their files' paths, the fingerprint of them all,
    what a workspace sees of them, and the merge of what tasks changed apart.

    A [CowShards] is the finite map that it stores (CopyOnWriteSpec.v), an install
    of one the install of a single shard.  What the hasher makes of a declaration
    or of a list is an argument. *)

From S2P Require Import Prelude Kinds Text FileOrder Dependency EditMap EditRemap Derivation Readers KeyTable FactKey CopyOnWrite DeclTree DeclWalk ModuleIndex.
From stdpp Require Import list gmap.
Local Open Scope prog_scope.

(** [wrapping_add], [wrapping_sub] of a [u64]. *)
Definition wrapping_add (a b : N) : N := ((a + b) mod 2 ^ 64)%N.
Definition wrapping_sub (a b : N) : N := ((a + 2 ^ 64 - b) mod 2 ^ 64)%N.

(** ** The canonical order *)

Definition SortKey : Type := rstring * N * N.

Definition decl_sort_key (file_order : gmap FileId rstring) (decl_id : LuaDeclId) : SortKey :=
  (default [] (file_order !! decl_file_id decl_id), decl_position decl_id, decl_file_id decl_id).

Definition key_cmp (a b : SortKey) : comparison :=
  then_cmp (str_cmp a.1.1 b.1.1) (then_cmp (N.compare a.1.2 b.1.2) (N.compare a.2 b.2)).

Definition decl_cmp (file_order : gmap FileId rstring) (a b : LuaDeclId) : comparison :=
  key_cmp (decl_sort_key file_order a) (decl_sort_key file_order b).

Definition decl_le (file_order : gmap FileId rstring) (a b : LuaDeclId) : bool :=
  match decl_cmp file_order a b with Gt => false | _ => true end.

(** [binary_search_by] and the insertion where nothing was found; [None] when it
    was. *)
Definition insert_decl_sorted (file_order : gmap FileId rstring) (decl_id : LuaDeclId) (decl_ids : list LuaDeclId)
    : option (list LuaDeclId) :=
  let at_ := partition_point (fun existing => is_lt (decl_cmp file_order existing decl_id)) decl_ids in
  match decl_ids !! at_ with
  | Some existing =>
      match decl_cmp file_order existing decl_id with
      | Eq => None
      | _ => Some (take at_ decl_ids ++ decl_id :: drop at_ decl_ids)
      end
  | None => Some (decl_ids ++ [decl_id])
  end.

(** A [BTreeMap] that maps to what was pushed under a key. *)
Fixpoint push_tier (tiers : list (N * list LuaDeclId)) (priority : N) (decl_id : LuaDeclId) : list (N * list LuaDeclId) :=
  match tiers with
  | [] => [(priority, [decl_id])]
  | (p, decl_ids) :: rest =>
      match N.compare priority p with
      | Lt => (priority, [decl_id]) :: tiers
      | Eq => (p, decl_ids ++ [decl_id]) :: rest
      | Gt => (p, decl_ids) :: push_tier rest priority decl_id
      end
  end.

(** ** The index *)

Section Facts.
Context {LuaType VarRefId : Type}.
Notation Fact := (FactKey.t LuaType VarRefId).

Record LuaGlobalIndex : Type := mkGlobals {
  global_decl : gmap GlobalId (list LuaDeclId);
  file_order : gmap FileId rstring;
  scan_fingerprint : Fingerprint;
  noted : list Fact
}.
End Facts.
Arguments LuaGlobalIndex : clear implicits.

Module LuaGlobalIndex.
Section Index.
Context {LuaType VarRefId : Type}.
Notation Fact := (FactKey.t LuaType VarRefId).
Notation Index := (LuaGlobalIndex LuaType VarRefId).
(** The hash of a name, a declaration and its file's order key; of a list. *)
Context (scan_hash : rstring * LuaDeclId * rstring -> N) (list_hash : list LuaDeclId -> N).
Implicit Types self : Index.

Definition scan_element (file_order : gmap FileId rstring) (name : GlobalId) (decl_id : LuaDeclId) : Fingerprint :=
  fingerprint_of (scan_hash (name, decl_id, (decl_sort_key file_order decl_id).1.1)).

Definition global_write (name : rstring) : list Fact := [FactKey.Global name; FactKey.GlobalScan].

Definition new : Index := mkGlobals ∅ ∅ ABSENT [].

Definition note self (facts : list Fact) : Index :=
  mkGlobals (global_decl self) (file_order self) (scan_fingerprint self) (noted self ++ facts).

Definition add_global_decl self (name : GlobalId) (decl_id : LuaDeclId) (file_order_key : rstring) : Index :=
  let file_order := match file_order self !! decl_file_id decl_id with
    | Some _ => file_order self
    | None => <[decl_file_id decl_id := file_order_key]> (file_order self)
    end in
  let decl_ids := default [] (global_decl self !! name) in
  match insert_decl_sorted file_order decl_id decl_ids with
  | Some decl_ids =>
      note (mkGlobals (<[name := decl_ids]> (global_decl self)) file_order
              (wrapping_add (scan_fingerprint self) (scan_element file_order name decl_id)) (noted self))
        (global_write name)
  | None => mkGlobals (<[name := decl_ids]> (global_decl self)) file_order (scan_fingerprint self) (noted self)
  end.

Definition sort_decls (file_order : gmap FileId rstring) (decl_ids : list LuaDeclId) : list LuaDeclId :=
  sort_by (decl_le file_order) decl_ids.

(** What the declarations of [files] add to the fingerprint of the scan. *)
Definition scan_share self (files : gset FileId) (names : list GlobalId) : Fingerprint :=
  foldl (fun share id =>
    foldl (fun share decl_id =>
        if bool_decide (decl_file_id decl_id ∈ files)
        then wrapping_add share (scan_element (file_order self) id decl_id) else share)
      share (default [] (global_decl self !! id))) 0%N names.

Definition reorder_globals self (globals : list GlobalId) : Index :=
  mkGlobals (foldl (fun decls id => alter (sort_decls (file_order self)) id decls) (global_decl self) globals)
    (file_order self) (scan_fingerprint self) (noted self).

Definition rekey_files self (order_keys : list (FileId * rstring)) : Index :=
  let rekeyed := filter (fun e => from_option (fun held => bool_decide (held <> e.2)) false (file_order self !! e.1) = true) order_keys in
  if bool_decide (rekeyed = []) then self else
  let files : gset FileId := list_to_set rekeyed.*1 in
  let names := (filter (fun e => Exists (fun decl_id => decl_file_id decl_id ∈ files) e.2) (map_to_list (global_decl self))).*1 in
  let before := scan_share self files names in
  let file_order := foldl (fun order e => <[e.1 := e.2]> order) (file_order self) rekeyed in
  let self := mkGlobals (global_decl self) file_order (scan_fingerprint self) (noted self) in
  let self := note (reorder_globals self names) (concat (global_write <$> names)) in
  let after := scan_share self files names in
  mkGlobals (global_decl self) file_order (wrapping_add (wrapping_sub (scan_fingerprint self) before) after) (noted self).

Definition remove_global_decl self (name : GlobalId) (decl_id : LuaDeclId) : Index :=
  match global_decl self !! name with
  | None => self
  | Some decl_ids =>
      match list_find (eq decl_id) decl_ids with
      | None => self
      | Some (at_, _) =>
          let decl_ids := delete at_ decl_ids in
          let decls := if bool_decide (decl_ids = []) then delete name (global_decl self) else <[name := decl_ids]> (global_decl self) in
          note (mkGlobals decls (file_order self)
                  (wrapping_sub (scan_fingerprint self) (scan_element (file_order self) name decl_id)) (noted self))
            (global_write name)
      end
  end.

(** What [retain_decls] does with one global: what is left of it, the fingerprint
    and what is noted. *)
Definition retain_global (order : gmap FileId rstring) (removed : FileId -> bool) (scan : Fingerprint) (id : GlobalId)
    (decl_ids : list LuaDeclId) : list LuaDeclId * Fingerprint * list Fact :=
  let kept := filter (fun decl_id => removed (decl_file_id decl_id) = false) decl_ids in
  let scan := foldl (fun scan decl_id =>
      if removed (decl_file_id decl_id) then wrapping_sub scan (scan_element order id decl_id) else scan) scan decl_ids in
  (kept, scan, if (length kept =? length decl_ids)%nat then [] else global_write id).

Definition retain_step (order : gmap FileId rstring) (removed : FileId -> bool)
    (acc : gmap GlobalId (list LuaDeclId) * Fingerprint * list Fact) (entry : GlobalId * list LuaDeclId)
    : gmap GlobalId (list LuaDeclId) * Fingerprint * list Fact :=
  let '(decls, scan, notes) := acc in
  let '(kept, scan, written) := retain_global order removed scan entry.1 entry.2 in
  (if bool_decide (kept = []) then delete entry.1 decls else <[entry.1 := kept]> decls, scan, notes ++ written).

Definition retain_decls self (removed : FileId -> bool) : Index :=
  let '(decls, scan, notes) :=
    foldl (retain_step (file_order self) removed) (global_decl self, scan_fingerprint self, []) (map_to_list (global_decl self)) in
  note (mkGlobals decls (filter (fun e => removed e.1 = false) (file_order self)) scan (noted self)) notes.

Definition remove self (file_id : FileId) : Index := retain_decls self (fun f => bool_decide (f = file_id)).

Definition remove_files self (file_ids : list FileId) : Index :=
  let removed : gset FileId := list_to_set file_ids in
  retain_decls self (fun f => bool_decide (f ∈ removed)).

Definition clear self : Index :=
  let self := note self (concat (global_write <$> (map_to_list (global_decl self)).*1)) in
  mkGlobals ∅ ∅ ABSENT (noted self).

(** ** Lookups *)

Definition get_global_decl_ids_matching self (matches : rstring -> bool) : list LuaDeclId :=
  sort_decls (file_order self) (concat (snd <$> filter (fun e => matches e.1 = true) (map_to_list (global_decl self)))).

Definition get_all_global_decl_ids self : list LuaDeclId := get_global_decl_ids_matching self (fun _ => true).

Definition get_global_decl_ids self (name : GlobalId) : option (list LuaDeclId) := global_decl self !! name.

Definition is_exist_global_decl self (name : GlobalId) : bool := bool_decide (is_Some (global_decl self !! name)).

Section Workspaces.
Context {Regex : Type} (module_index : LuaModuleIndex LuaType VarRefId Regex).

Definition decl_priority (current_workspace_id : N) (decl_id : LuaDeclId) : option N :=
  let candidate := default WorkspaceId.MAIN (get_workspace_id module_index (decl_file_id decl_id)) in
  workspace_resolution_priority module_index current_workspace_id candidate.

Definition get_global_decl_id_priority_tiers self (name : GlobalId) (current_workspace_id : N)
    : option (list (N * list LuaDeclId)) :=
  match get_global_decl_ids self name with
  | None => None
  | Some decl_ids =>
      let tiers := foldl (fun tiers decl_id =>
          match decl_priority current_workspace_id decl_id with
          | Some priority => push_tier tiers priority decl_id
          | None => tiers
          end) [] decl_ids in
      if bool_decide (tiers = []) then None else Some tiers
  end.

Definition get_global_decl_ids_in_workspace self (name : GlobalId) (current_workspace_id : N) : option (list LuaDeclId) :=
  match get_global_decl_id_priority_tiers self name current_workspace_id with
  | None => None
  | Some tiers => snd <$> head tiers
  end.

Definition is_exist_global_decl_in_workspace self (name : GlobalId) (current_workspace_id : N) : bool :=
  match get_global_decl_ids_in_workspace self name current_workspace_id with
  | Some decl_ids => negb (bool_decide (decl_ids = []))
  | None => false
  end.
End Workspaces.

(** ** Facts *)

(** The fold of the scan while an evaluation maps its facts back. *)
Definition scan_of_all self : Fingerprint :=
  foldl wrapping_add 0%N
    (concat ((fun e : GlobalId * list LuaDeclId => scan_element (file_order self) e.1 <$> e.2) <$> map_to_list (global_decl self))).

(** A key of another index is a fault that only a debug build reports. *)
Definition fact_fingerprint self (mapping_back : bool) (key : Fact) : Fingerprint :=
  match key with
  | FactKey.Global name => fingerprint_opt (list_hash <$> global_decl self !! name)
  | FactKey.GlobalScan => if mapping_back then scan_of_all self else scan_fingerprint self
  | _ => ABSENT
  end.

(** ** Forks *)

(** A fork shares what it was forked from; only its own writes are its own. *)
Definition task_fork self : Index := self.

Definition globals_to_reorder self (frozen fork : Index) : list GlobalId :=
  filter (fun id => global_decl self !! id <> global_decl frozen !! id /\ global_decl self !! id <> global_decl fork !! id)
    (CowShards.changed_keys_of (global_decl frozen) (global_decl fork)).

(** The fields of an index, as a conflict reports them. *)
Inductive Field : Type := GlobalDecl | FileOrder_ | ScanFingerprint.

#[local] Instance fingerprint_summand : Summand N := unsigned_summand 64.

Definition install_task_reporting self (frozen fork : Index) : Index * list Field :=
  let plan := globals_to_reorder self frozen fork in
  let '(c1, decls) := CowShards.install_keys (Some merge_list) (global_decl frozen) (global_decl fork) (global_decl self) in
  let '(c2, order) := CowShards.install_keys None (file_order frozen) (file_order fork) (file_order self) in
  let '(c3, scan) := scalar_install_merging (scan_fingerprint self) (scan_fingerprint frozen) (scan_fingerprint fork) merge_sum in
  (reorder_globals (mkGlobals decls order scan (noted self)) plan,
   (if c1 : bool then [GlobalDecl] else []) ++ (if c2 : bool then [FileOrder_] else []) ++ (if c3 : bool then [ScanFingerprint] else [])).

Definition install_tasks_reporting self (frozen : Index) (forks : list Index) : Index * list (list Field) :=
  foldl (fun acc fork =>
      let '(self, reported) := install_task_reporting acc.1 frozen fork in (self, acc.2 ++ [reported]))
    (self, []) forks.
End Index.
End LuaGlobalIndex.
