(* ===== verification/GlobalIndexProofs.v ===== *)
(** * Globals: proofs

    The canonical order is a total order of the declarations; every operation keeps
    the lists strictly in it and the fingerprint of the scan the sum over them;
    merging what disjoint tasks did is doing it in turn. *)

From S2P Require Import Prelude Kinds Text FileOrder Dependency EditMap EditRemap Derivation Readers KeyTable FactKey CopyOnWrite CopyOnWriteProofs DeclTree DeclWalk ModuleIndex ModuleIndexProofs GlobalIndex.
From stdpp Require Import list gmap sorting.
Local Open Scope prog_scope.

(** ** The order *)

Lemma decl_cmp_ordered order : ordered (decl_cmp order).
Proof.
  apply (ordered_on (decl_sort_key order) key_cmp). unfold key_cmp.
  apply ordered_then; [apply (ordered_on (fun k : SortKey => k.1.1) str_cmp), ordered_str|].
  apply ordered_then; [apply (ordered_on (fun k : SortKey => k.1.2) N.compare), ordered_N|apply (ordered_on (fun k : SortKey => k.2) N.compare), ordered_N].
Qed.

Lemma decl_cmp_eq order a b : decl_cmp order a b = Eq <-> a = b.
Proof.
  split.
  - unfold decl_cmp, key_cmp. intros [_ [Hp%N.compare_eq Hf%N.compare_eq]%then_eq]%then_eq. destruct a, b. simpl in *. congruence.
  - intros ->. destruct (decl_cmp order b b) eqn:Hc; [done| |];
      assert (F := cmp_flip _ (decl_cmp_ordered order) b b); rewrite Hc in F; done.
Qed.

Notation before order := (fun a b => decl_cmp order a b = Lt).
Notation canonical order := (StronglySorted (before order)).

Lemma decl_cmp_flip order a b : decl_cmp order a b = Gt <-> decl_cmp order b a = Lt.
Proof. rewrite (cmp_flip _ (decl_cmp_ordered order) b a). by destruct (decl_cmp order b a). Qed.

Lemma before_trans order a b c : decl_cmp order a b = Lt -> decl_cmp order b c = Lt -> decl_cmp order a c = Lt.
Proof.
  intros Hab Hbc. assert (Hl := better_trans (decl_cmp order) (decl_cmp_ordered order) a b c).
  rewrite Hab, Hbc in Hl. destruct (decl_cmp order a c); [|done|]; by (discriminate Hl).
Qed.

Lemma canonical_NoDup order l : canonical order l -> NoDup l.
Proof.
  induction 1 as [|x l Hs IH Hx]; [constructor|]. constructor; [|done]. intros Hin.
  eapply Forall_forall in Hx; [|exact Hin]. simpl in Hx. by rewrite (proj2 (decl_cmp_eq order x x)) in Hx.
Qed.

Lemma canonical_unique order l1 l2 : canonical order l1 -> canonical order l2 -> (forall d, d ∈ l1 <-> d ∈ l2) -> l1 = l2.
Proof.
  intros H1 H2 Hin. assert (Hp : l1 ≡ₚ l2) by (apply NoDup_Permutation; [by eapply canonical_NoDup|by eapply canonical_NoDup|done]).
  revert l2 H2 Hin Hp. induction H1 as [|x l1 Hs IH Hx]; intros l2 H2 Hin Hp; [by apply Permutation_nil_l in Hp|].
  destruct H2 as [|y l2 Hs2 Hy]; [by apply Permutation_nil_r in Hp|].
  assert (x = y) as ->.
  { destruct (decide (x = y)) as [|Hne]; [done|]. exfalso.
    assert (Hxy : x ∈ l2) by (assert (Hi := proj1 (Hin x)); set_solver). assert (Hyx : y ∈ l1) by (assert (Hi := proj2 (Hin y)); set_solver).
    eapply Forall_forall in Hx; [|exact Hyx]. eapply Forall_forall in Hy; [|exact Hxy]. simpl in *.
    assert (F := before_trans order x y x Hx Hy). by rewrite (proj2 (decl_cmp_eq order x x)) in F. }
  apply Permutation_cons_inv in Hp. f_equal. apply IH; [done| |done]. intros d. by rewrite Hp.
Qed.

(** Orders that agree on the files of the declarations. *)
Lemma sort_key_agree order order' d : order !! decl_file_id d = order' !! decl_file_id d -> decl_sort_key order d = decl_sort_key order' d.
Proof. apply (f_equal (fun key : option rstring => (default [] key, decl_position d, decl_file_id d))). Qed.

Lemma canonical_agree order order' l :
  (forall d, d ∈ l -> order !! decl_file_id d = order' !! decl_file_id d) -> canonical order l -> canonical order' l.
Proof.
  intros Hag. induction 1 as [|x l Hs IH Hx]; [constructor|]. constructor; [apply IH; set_solver|].
  apply Forall_forall. intros y Hy. eapply Forall_forall in Hx; [|exact Hy]. simpl in *. unfold decl_cmp in *.
  rewrite <- !(sort_key_agree order order') by (apply Hag; set_solver). done.
Qed.

(** ** Insertion and sorting *)

Lemma insert_decl_cons order d x l :
  insert_decl_sorted order d (x :: l)
  = match decl_cmp order x d with Lt => (cons x) <$> insert_decl_sorted order d l | Eq => None | Gt => Some (d :: x :: l) end.
Proof.
  unfold insert_decl_sorted. simpl. destruct (decl_cmp order x d) eqn:Hc; simpl; rewrite ?Hc; try done.
  set (at_ := partition_point _ l). destruct (l !! at_) as [y|]; [|done]. by destruct (decl_cmp order y d).
Qed.

Lemma insert_decl_spec order d l : canonical order l ->
  match insert_decl_sorted order d l with
  | None => d ∈ l
  | Some l' => d ∉ l /\ canonical order l' /\ l' ≡ₚ d :: l
  end.
Proof.
  induction 1 as [|x l Hs IH Hx]; [cbn; split_and!; [set_solver|repeat constructor|done]|].
  rewrite insert_decl_cons. destruct (decl_cmp order x d) eqn:Hc.
  - apply decl_cmp_eq in Hc as ->. set_solver.
  - destruct (insert_decl_sorted order d l) as [l'|]; simpl; [|set_solver]. destruct IH as (Hd & Hs' & Hp). split_and!.
    + intros [->|]%elem_of_cons; [|done]. by rewrite (proj2 (decl_cmp_eq order x x)) in Hc.
    + constructor; [done|]. rewrite Hp. by constructor.
    + rewrite Hp. apply perm_swap.
  - apply decl_cmp_flip in Hc. assert (Hd : Forall (before order d) (x :: l)).
    { constructor; [done|]. eapply Forall_impl; [exact Hx|]. simpl. intros y. by apply before_trans. }
    split_and!; [|by constructor; [constructor|]|done]. intros Hin. eapply Forall_forall in Hd; [|exact Hin].
    simpl in Hd. by rewrite (proj2 (decl_cmp_eq order d d)) in Hd.
Qed.

Lemma decl_le_spec order a b : decl_le order a b = true <-> decl_cmp order a b <> Gt.
Proof. unfold decl_le. by destruct (decl_cmp order a b). Qed.

Lemma canonical_of_le order l : NoDup l -> StronglySorted (fun a b => decl_le order a b = true) l -> canonical order l.
Proof.
  intros Hnd Hs. revert Hnd. induction Hs as [|x l Hs IH Hx]; intros Hnd; [constructor|].
  apply NoDup_cons in Hnd as [Hnx Hnd]. constructor; [by apply IH|]. apply Forall_forall. intros y Hy.
  eapply Forall_forall in Hx; [|exact Hy]. simpl in *. unfold decl_le in Hx.
  destruct (decl_cmp order x y) eqn:Hc; [|done|done]. apply decl_cmp_eq in Hc. by subst.
Qed.

Lemma sort_decls_spec order l : NoDup l -> canonical order (LuaGlobalIndex.sort_decls order l) /\ LuaGlobalIndex.sort_decls order l ≡ₚ l.
Proof.
  intros Hnd. assert (Hp : LuaGlobalIndex.sort_decls order l ≡ₚ l) by apply sort_by_perm. split; [|done].
  apply canonical_of_le; [by rewrite Hp|]. apply sort_by_strongly_sorted.
  - intros a b Hab. apply decl_le_spec. rewrite (cmp_flip _ (decl_cmp_ordered order) a b).
    unfold decl_le in Hab. by destruct (decl_cmp order a b).
  - intros a b c. rewrite !decl_le_spec. apply (cmp_trans _ (decl_cmp_ordered order)).
Qed.

(** ** Wrapping sums *)

Lemma scan_mod_bound a : (a mod 2 ^ 64 < 2 ^ 64)%N.
Proof. by apply N.mod_lt. Qed.

Lemma wrapping_add_mod a b : wrapping_add (a mod 2 ^ 64) b = ((a + b) mod 2 ^ 64)%N.
Proof. unfold wrapping_add. by rewrite N.Div0.add_mod_idemp_l. Qed.

Lemma wrapping_sub_mod a b : (b <= 2 ^ 64)%N -> wrapping_sub ((a + b) mod 2 ^ 64) b = (a mod 2 ^ 64)%N.
Proof.
  intros Hb. unfold wrapping_sub. rewrite <- N.add_sub_assoc, N.Div0.add_mod_idemp_l by done.
  replace (a + b + (2 ^ 64 - b))%N with (a + 1 * 2 ^ 64)%N by lia. apply N.Div0.mod_add.
Qed.

Lemma mod_cancel a b c : ((a + c) mod 2 ^ 64 = (b + c) mod 2 ^ 64)%N -> (a mod 2 ^ 64 = b mod 2 ^ 64)%N.
Proof.
  intros H. rewrite <- (wrapping_sub_mod a (c mod 2 ^ 64)), <- (wrapping_sub_mod b (c mod 2 ^ 64)) by (apply N.lt_le_incl, scan_mod_bound).
  f_equal. rewrite (N.Div0.add_mod_idemp_r a), (N.Div0.add_mod_idemp_r b). exact H.
Qed.

Lemma wrapping_sub_add a b : (b <= 2 ^ 64)%N -> ((wrapping_sub a b + b) mod 2 ^ 64 = a mod 2 ^ 64)%N.
Proof.
  intros Hb. unfold wrapping_sub. rewrite N.Div0.add_mod_idemp_l.
  replace (a + 2 ^ 64 - b + b)%N with (a + 1 * 2 ^ 64)%N by lia. apply N.Div0.mod_add.
Qed.

Lemma fingerprint_bound h : (fingerprint_of h <= 2 ^ 64)%N.
Proof. unfold fingerprint_of. assert (H := mix_bound h). lia. Qed.

Notation Entry := (GlobalId * LuaDeclId)%type.

(** A global and its declarations, one by one. *)
Definition flat (e : GlobalId * list LuaDeclId) : list Entry := pair e.1 <$> e.2.

Lemma elem_of_flat e p : p ∈ flat e <-> p.1 = e.1 /\ p.2 ∈ e.2.
Proof.
  unfold flat. rewrite list_elem_of_fmap. split.
  - by intros (d & -> & Hd).
  - intros [Hn Hd]. exists p.2. split; [|done]. destruct p. simpl in *. by subst.
Qed.

Lemma flat_NoDup (es : list (GlobalId * list LuaDeclId)) :
  NoDup es.*1 -> (forall e, e ∈ es -> NoDup e.2) -> NoDup (concat (flat <$> es)).
Proof.
  induction es as [|e es IH]; intros Hnd Hes; [constructor|]. cbn in Hnd |- *. apply NoDup_cons in Hnd as [Hn Hnd].
  apply NoDup_app. split_and!.
  - apply NoDup_fmap; [by intros ?? [=]|]. apply Hes. set_solver.
  - intros p Hp Hp'. apply elem_of_flat in Hp as [Hp _]. apply list_elem_of_In, in_concat in Hp' as (l & Hl & Hp').
    apply list_elem_of_In, list_elem_of_fmap in Hl as (e' & -> & He'). apply list_elem_of_In, elem_of_flat in Hp' as [Hp' _].
    apply Hn. rewrite <- Hp, Hp'. by apply (list_elem_of_fmap_2 fst).
  - apply IH; [done|]. set_solver.
Qed.

Lemma elem_of_concat_flat es p : p ∈ concat (flat <$> es) <-> exists l, (p.1, l) ∈ es /\ p.2 ∈ l.
Proof.
  induction es as [|e es IH]; cbn; [set_solver|]. rewrite elem_of_app, elem_of_flat, IH. split.
  - intros [[Hn Hd]|(l & Hl & Hd)]; [exists e.2; split; [|done]|exists l; set_solver].
    destruct e. simpl in *. subst. set_solver.
  - intros (l & [He|Hl]%elem_of_cons & Hd); [left; by rewrite <- He|right; by exists l].
Qed.

(** ** What a map of globals declares *)

Notation Decls := (gmap GlobalId (list LuaDeclId)).
Notation Order := (gmap FileId rstring).

Definition entries (decls : Decls) : list Entry := concat (flat <$> map_to_list decls).

Definition declared (decls : Decls) (p : Entry) : Prop := exists l, decls !! p.1 = Some l /\ p.2 ∈ l.

(** No list is empty, every list is in order. *)
Definition lists_ok (order : Order) (decls : Decls) : Prop :=
  forall name l, decls !! name = Some l -> l <> [] /\ canonical order l.

Definition known (order : Order) (decls : Decls) : Prop :=
  forall p, declared decls p -> is_Some (order !! decl_file_id p.2).

(** The orders have the same key for the file of every declaration. *)
Definition agree_on (order order' : Order) (decls : Decls) : Prop :=
  forall p, declared decls p -> order !! decl_file_id p.2 = order' !! decl_file_id p.2.

Lemma elem_of_entries decls p : p ∈ entries decls <-> declared decls p.
Proof.
  unfold entries, declared. rewrite elem_of_concat_flat.
  split; intros (l & Hl & Hd); exists l; (split; [by apply elem_of_map_to_list in Hl || by apply elem_of_map_to_list|done]).
Qed.

Lemma entries_NoDup order decls : lists_ok order decls -> NoDup (entries decls).
Proof.
  intros Hs. apply flat_NoDup; [apply NoDup_fst_map_to_list|].
  intros [name l] Hin%elem_of_map_to_list. by eapply canonical_NoDup, Hs.
Qed.

Lemma entries_perm order decls ps :
  lists_ok order decls -> NoDup ps -> (forall p, declared decls p <-> p ∈ ps) -> entries decls ≡ₚ ps.
Proof. intros Hs Hps Hin. apply NoDup_Permutation; [by eapply entries_NoDup|done|]. intros p. by rewrite elem_of_entries. Qed.

#[global] Instance declared_dec decls p : Decision (declared decls p).
Proof.
  unfold declared. destruct (decls !! p.1) as [l|] eqn:Hl.
  - destruct (decide (p.2 ∈ l)); [left; by exists l|right; intros (l' & [= ->] & ?); done].
  - right. by intros (l' & ? & _).
Defined.

Lemma declared_in decls name l d : decls !! name = Some l -> declared decls (name, d) <-> d ∈ l.
Proof.
  intros Hl. split; [|by exists l]. intros (l' & Hl' & Hd). assert (Some l' = Some l) as [= ->] by exact (eq_trans (eq_sym Hl') Hl). done.
Qed.

Lemma declared_default decls name d : declared decls (name, d) <-> d ∈ default [] (decls !! name).
Proof.
  destruct (decls !! name) as [l|] eqn:Hl; [by apply declared_in|]. cbn. split; [|by intros ?%elem_of_nil].
  intros (l' & Hl' & _). discriminate (eq_trans (eq_sym Hl') Hl).
Qed.

Lemma declared_insert decls name l p :
  declared (<[name := l]> decls) p <-> (p.1 = name /\ p.2 ∈ l) \/ (p.1 <> name /\ declared decls p).
Proof.
  destruct p as [n d]. rewrite !declared_default. cbn. destruct (decide (n = name)) as [->|Hne].
  - rewrite lookup_insert_eq. cbn. tauto.
  - rewrite lookup_insert_ne by done. tauto.
Qed.

Lemma declared_delete decls name p : declared (delete name decls) p <-> p.1 <> name /\ declared decls p.
Proof.
  destruct p as [n d]. rewrite !declared_default. cbn. destruct (decide (n = name)) as [->|Hne].
  - rewrite lookup_delete_eq. cbn. set_solver.
  - rewrite lookup_delete_ne by done. tauto.
Qed.

Lemma lists_ok_insert order decls name l :
  lists_ok order decls -> l <> [] -> canonical order l -> lists_ok order (<[name := l]> decls).
Proof.
  intros Hs Hne Hl n l' Hn. destruct (decide (n = name)) as [->|Hd].
  - rewrite lookup_insert_eq in Hn. by injection Hn as <-.
  - rewrite lookup_insert_ne in Hn by done. by eapply Hs.
Qed.

Lemma lists_ok_delete order decls name : lists_ok order decls -> lists_ok order (delete name decls).
Proof. intros Hs n l [_ Hn]%lookup_delete_Some. by eapply Hs. Qed.

Lemma lists_ok_agree order order' decls : agree_on order order' decls -> lists_ok order decls -> lists_ok order' decls.
Proof.
  intros Hag Hs n l Hl. destruct (Hs n l Hl) as [Hne Hc]. split; [done|]. apply (canonical_agree order); [|done].
  intros d Hd. apply (Hag (n, d)). by exists l.
Qed.

Lemma canonical_default order decls name : lists_ok order decls -> canonical order (default [] (decls !! name)).
Proof. intros Hs. destruct (decls !! name) as [l|] eqn:Hl; [by eapply Hs|constructor]. Qed.

(** What is declared of a global, and the order of the files, say its list. *)
Lemma list_ext order order' decls decls' name : lists_ok order decls -> lists_ok order' decls' ->
  (forall d, declared decls (name, d) <-> declared decls' (name, d)) ->
  (forall d, declared decls (name, d) -> order !! decl_file_id d = order' !! decl_file_id d) ->
  decls !! name = decls' !! name.
Proof.
  intros S1 S2 Hd Ho.
  assert (Hl : default [] (decls !! name) = default [] (decls' !! name)).
  { apply (canonical_unique order'); [|by apply canonical_default|].
    - apply (canonical_agree order); [|by apply canonical_default]. intros d Hin. by apply Ho, declared_default.
    - intros d. by rewrite <- !declared_default. }
  destruct (decls !! name) as [l1|] eqn:H1, (decls' !! name) as [l2|] eqn:H2; cbn in Hl; [by f_equal| | |done].
  - by destruct (S1 _ _ H1).
  - by destruct (S2 _ _ H2).
Qed.

Lemma decls_ext order order' decls decls' : lists_ok order decls -> lists_ok order' decls' ->
  (forall p, declared decls p <-> declared decls' p) -> agree_on order order' decls -> decls = decls'.
Proof.
  intros S1 S2 Hd Ho. apply map_eq. intros name. apply (list_ext order order'); [done..| |]; intros d; [apply Hd|]. apply (Ho (name, d)).
Qed.

(** ** The invariant *)

Section Invariant.
Context {LuaType VarRefId : Type} (scan_hash : Entry * rstring -> N).
Notation Index := (LuaGlobalIndex LuaType VarRefId).
Implicit Types self : Index.
Notation scan_element := (LuaGlobalIndex.scan_element scan_hash).

(** The elements of the scan, added without a wrap. *)
Definition scan_sum (order : Order) (ps : list Entry) : N :=
  foldr (fun p sum => (scan_element order p.1 p.2 + sum)%N) 0%N ps.

Record global_ok self : Prop := {
  go_lists : lists_ok (file_order self) (global_decl self);
  go_known : known (file_order self) (global_decl self);
  go_scan : scan_fingerprint self = (scan_sum (file_order self) (entries (global_decl self)) mod 2 ^ 64)%N
}.

Lemma scan_sum_perm order ps qs : ps ≡ₚ qs -> scan_sum order ps = scan_sum order qs.
Proof. induction 1; simpl; lia. Qed.

Lemma scan_sum_app order ps qs : scan_sum order (ps ++ qs) = (scan_sum order ps + scan_sum order qs)%N.
Proof. induction ps as [|p ps IH]; simpl; [done|]. rewrite IH. lia. Qed.

Lemma scan_element_agree order order' name d :
  order !! decl_file_id d = order' !! decl_file_id d -> scan_element order name d = scan_element order' name d.
Proof. intros H. unfold LuaGlobalIndex.scan_element. by rewrite (sort_key_agree order order' d H). Qed.

Lemma scan_sum_agree order order' ps :
  (forall p, p ∈ ps -> order !! decl_file_id p.2 = order' !! decl_file_id p.2) -> scan_sum order ps = scan_sum order' ps.
Proof.
  induction ps as [|p ps IH]; intros Hag; [done|]. simpl. rewrite IH by set_solver.
  by rewrite (scan_element_agree order order') by set_solver.
Qed.

Lemma scan_entries_agree order order' decls : agree_on order order' decls -> scan_sum order (entries decls) = scan_sum order' (entries decls).
Proof. intros Hag. apply scan_sum_agree. intros p Hp%elem_of_entries. by apply Hag. Qed.

(** The sum of the entries of some files and of the others. *)
Lemma scan_sum_files order (files : gset FileId) ps :
  scan_sum order ps = (scan_sum order (filter (fun p : Entry => decl_file_id p.2 ∉ files) ps) + scan_sum order (filter (fun p : Entry => decl_file_id p.2 ∈ files) ps))%N.
Proof.
  induction ps as [|p ps IH]; [done|]. rewrite !filter_cons. simpl. rewrite IH.
  destruct (decide (decl_file_id p.2 ∈ files)); [rewrite decide_False by tauto|rewrite decide_True by done]; simpl; lia.
Qed.

Lemma scan_element_bound order name d : (scan_element order name d <= 2 ^ 64)%N.
Proof. apply fingerprint_bound. Qed.

Lemma global_ext self1 self2 : global_ok self1 -> global_ok self2 ->
  (forall p, declared (global_decl self1) p <-> declared (global_decl self2) p) ->
  agree_on (file_order self1) (file_order self2) (global_decl self1) ->
  global_decl self1 = global_decl self2 /\ scan_fingerprint self1 = scan_fingerprint self2.
Proof.
  intros [S1 K1 F1] [S2 K2 F2] Hd Ho. assert (He : global_decl self1 = global_decl self2) by (by eapply decls_ext).
  split; [done|]. rewrite F1, F2. f_equal. rewrite <- He. by apply scan_entries_agree.
Qed.

(** ** Declaring and withdrawing *)

Lemma new_globals_ok : global_ok LuaGlobalIndex.new.
Proof. split; [intros ?? [=]|intros p (l & [=] & _)|done]. Qed.

Definition order_with (order : Order) (d : LuaDeclId) (key : rstring) : Order :=
  match order !! decl_file_id d with Some _ => order | None => <[decl_file_id d := key]> order end.

Lemma order_with_agree order d key f : is_Some (order !! f) -> order !! f = order_with order d key !! f.
Proof.
  intros [k Hk]. unfold order_with. destruct (order !! decl_file_id d) eqn:Hd; [done|].
  rewrite lookup_insert_ne; [done|]. intros He. by rewrite He, Hk in Hd.
Qed.

Lemma order_with_known order d key : is_Some (order_with order d key !! decl_file_id d).
Proof. unfold order_with. destruct (order !! decl_file_id d) eqn:Hd; [by eexists|]. rewrite lookup_insert_eq. by eexists. Qed.

Lemma add_global_decl_ok self name d key : global_ok self ->
  let self' := LuaGlobalIndex.add_global_decl scan_hash self name d key in
  global_ok self' /\ (forall p, declared (global_decl self') p <-> p = (name, d) \/ declared (global_decl self) p)
  /\ file_order self' = order_with (file_order self) d key.
Proof.
  intros [Hs Hk Hf]. cbv zeta. unfold LuaGlobalIndex.add_global_decl. fold (order_with (file_order self) d key).
  set (order := order_with (file_order self) d key).
  assert (Hag : agree_on (file_order self) order (global_decl self)) by (intros p Hp; by apply order_with_agree, Hk).
  assert (Hs' := lists_ok_agree _ _ _ Hag Hs). assert (Hi := insert_decl_spec order d _ (canonical_default order _ name Hs')).
  assert (Hk' : known order (global_decl self)) by (intros p Hp; rewrite <- Hag by done; by apply Hk).
  destruct (insert_decl_sorted order d _) as [l'|].
  - destruct Hi as (Hd & Hl' & Hp).
    assert (Hdecl : forall p, declared (<[name := l']> (global_decl self)) p <-> p = (name, d) \/ declared (global_decl self) p).
    { intros [n x]. rewrite declared_insert. cbn. rewrite Hp, elem_of_cons.
      destruct (decide (n = name)) as [->|Hne]; [rewrite declared_default|]; naive_solver. }
    assert (Hs2 : lists_ok order (<[name := l']> (global_decl self))).
    { apply lists_ok_insert; [done| |done]. intros ->. by apply Permutation_nil_cons in Hp. }
    split_and!; [split|done|done]; cbn [global_decl file_order scan_fingerprint LuaGlobalIndex.note].
    + done.
    + intros p [->|Hp']%Hdecl; [apply order_with_known|by apply Hk'].
    + rewrite Hf, (scan_entries_agree _ order) by done. rewrite wrapping_add_mod.
      rewrite (scan_sum_perm order (entries (<[name := l']> _)) ((name, d) :: entries (global_decl self))); [simpl; f_equal; lia|].
      apply (entries_perm order); [done| |intros p; rewrite Hdecl, elem_of_cons, elem_of_entries; done].
      constructor; [|by eapply entries_NoDup]. rewrite elem_of_entries, declared_default. done.
  - assert (Hd := proj2 (declared_default _ name d) Hi).
    destruct (global_decl self !! name) as [l|] eqn:Hl; [|by destruct Hd as (l & Hl' & _); discriminate (eq_trans (eq_sym Hl') Hl)].
    cbn.
    rewrite (insert_id (global_decl self)) by done. split_and!; [split; cbn|cbn|done]; [done|done| |].
    + by rewrite Hf, (scan_entries_agree _ order).
    + intros p. split; [by right|]. by intros [->|].
Qed.

Lemma remove_global_decl_ok self name d : global_ok self ->
  let self' := LuaGlobalIndex.remove_global_decl scan_hash self name d in
  global_ok self' /\ (forall p, declared (global_decl self') p <-> p <> (name, d) /\ declared (global_decl self) p)
  /\ file_order self' = file_order self.
Proof.
  intros [Hs Hk Hf]. cbv zeta. unfold LuaGlobalIndex.remove_global_decl.
  destruct (global_decl self !! name) as [l|] eqn:Hl.
  2: { split_and!; [done| |done]. intros p. split; [|tauto]. intros Hp. split; [|done]. intros ->.
       destruct Hp as (l & Hl' & _). discriminate (eq_trans (eq_sym Hl') Hl). }
  destruct (Hs name l Hl) as [Hne Hc]. assert (Hnd := canonical_NoDup _ _ Hc).
  destruct (list_find (eq d) l) as [[i x]|] eqn:Hfi.
  2: { split_and!; [done| |done]. intros p. split; [|tauto]. intros Hp. split; [|done]. intros ->.
       apply (declared_in _ _ _ _ Hl) in Hp. apply list_find_None in Hfi. eapply Forall_forall in Hfi; done. }
  apply list_find_Some in Hfi as (Hi & <- & _). assert (Hp := delete_Permutation l i d Hi).
  assert (Hdl : forall x, x ∈ delete i l <-> x <> d /\ x ∈ l).
  { intros x. rewrite Hp in Hnd. apply NoDup_cons in Hnd as [Hd _]. assert (Hx : x ∈ l <-> x ∈ d :: delete i l) by (by rewrite <- Hp). set_solver. }
  set (decls := if bool_decide (delete i l = []) then delete name (global_decl self) else <[name := delete i l]> (global_decl self)).
  assert (Hdecl : forall p, declared decls p <-> p <> (name, d) /\ declared (global_decl self) p).
  { intros [n x]. unfold decls. case_bool_decide as He; rewrite ?declared_delete, ?declared_insert; cbn [fst snd].
    - destruct (decide (n = name)) as [->|Hn]; [|naive_solver]. rewrite (declared_in _ _ l) by done.
      assert (Hx := Hdl x). rewrite He, elem_of_nil in Hx. naive_solver.
    - rewrite Hdl. destruct (decide (n = name)) as [->|Hn]; [|naive_solver]. rewrite (declared_in _ _ l) by done. naive_solver. }
  assert (Hs2 : lists_ok (file_order self) decls).
  { unfold decls. case_bool_decide as He; [by apply lists_ok_delete|]. apply lists_ok_insert; [done..|].
    eapply StronglySorted_sublist; [apply sublist_delete|done]. }
  split_and!; [split|done|done]; cbn [global_decl file_order scan_fingerprint LuaGlobalIndex.note].
  - done.
  - intros p [_ Hp']%Hdecl. by apply Hk.
  - rewrite Hf, (scan_sum_perm _ (entries (global_decl self)) (entries decls ++ [(name, d)])).
    + rewrite scan_sum_app. simpl. rewrite N.add_0_r. apply wrapping_sub_mod, scan_element_bound.
    + eapply entries_perm; [done| |].
      * rewrite <- Permutation_cons_append. constructor; [|by eapply entries_NoDup]. rewrite elem_of_entries, Hdecl. naive_solver.
      * intros p. rewrite elem_of_app, elem_of_entries, Hdecl, list_elem_of_singleton. split; [|intros [[_ ?]| ->]; [done|]].
        -- intros Hp'. destruct (decide (p = (name, d))); tauto.
        -- apply (declared_in _ _ l); [done|]. rewrite Hp. set_solver.
Qed.

(** ** Files that go *)

Section Retain.
Variable removed : FileId -> bool.

Definition kept (l : list LuaDeclId) : list LuaDeclId := filter (fun d => removed (decl_file_id d) = false) l.
Definition gone (ps : list Entry) : list Entry := filter (fun p => removed (decl_file_id p.2) = true) ps.

Lemma gone_cons id d l :
  gone (flat (id, d :: l)) = if removed (decl_file_id d) then (id, d) :: gone (flat (id, l)) else gone (flat (id, l)).
Proof. unfold gone, flat. cbn. destruct (removed (decl_file_id d)); [by rewrite decide_True|by rewrite decide_False]. Qed.

Lemma retain_scan order id l scan : (scan < 2 ^ 64)%N ->
  let scan' := foldl (fun scan d => if removed (decl_file_id d) then wrapping_sub scan (scan_element order id d) else scan) scan l in
  (scan' < 2 ^ 64)%N /\ ((scan' + scan_sum order (gone (flat (id, l)))) mod 2 ^ 64 = scan mod 2 ^ 64)%N.
Proof.
  revert scan. induction l as [|d l IH]; intros scan Hb; [split; [done|]; simpl; by rewrite N.add_0_r|].
  rewrite gone_cons. cbn [foldl]. destruct (removed (decl_file_id d)); [|by apply IH].
  destruct (IH (wrapping_sub scan (scan_element order id d))) as [H1 H2]; [apply scan_mod_bound|]. split; [done|].
  change (scan_sum order ((id, d) :: gone (flat (id, l)))) with (scan_element order id d + scan_sum order (gone (flat (id, l))))%N.
  rewrite (N.add_comm (scan_element order id d)), N.add_assoc, <- N.Div0.add_mod_idemp_l, H2, N.Div0.add_mod_idemp_l.
  apply wrapping_sub_add, scan_element_bound.
Qed.

Lemma retain_fold order (es : list (GlobalId * list LuaDeclId)) decls scan (notes : list (FactKey.t LuaType VarRefId)) :
  NoDup es.*1 -> (scan < 2 ^ 64)%N ->
  let '(decls', scan', _) := foldl (LuaGlobalIndex.retain_step scan_hash order removed) (decls, scan, notes) es in
  (forall p, declared decls' p <-> (p.1 ∉ es.*1 /\ declared decls p) \/ (p ∈ concat (flat <$> es) /\ removed (decl_file_id p.2) = false))
  /\ (forall order', lists_ok order' decls -> (forall e, e ∈ es -> canonical order' (kept e.2)) -> lists_ok order' decls')
  /\ (scan' < 2 ^ 64)%N /\ ((scan' + scan_sum order (gone (concat (flat <$> es)))) mod 2 ^ 64 = scan mod 2 ^ 64)%N.
Proof.
  revert decls scan notes. induction es as [|[n l] es IH]; intros decls scan notes Hnd Hb.
  - cbn [foldl]. split_and!; [set_solver|done|done|]. simpl. by rewrite N.add_0_r.
  - cbn in Hnd. apply NoDup_cons in Hnd as [Hn Hnd]. cbn [foldl]. unfold LuaGlobalIndex.retain_step at 2, LuaGlobalIndex.retain_global. cbn [fst snd].
    fold (kept l). destruct (retain_scan order n l scan Hb) as [Hb1 Hm]. set (scan1 := foldl _ scan l) in *. clearbody scan1.
    set (notes1 := notes ++ _). clearbody notes1. set (decls1 := if bool_decide (kept l = []) then delete n decls else <[n := kept l]> decls).
    specialize (IH decls1 scan1 notes1 Hnd Hb1). destruct (foldl _ _ es) as [[decls2 scan2] notes2]. destruct IH as (I1 & I2 & I3 & I4).
    assert (Hd1 : forall p, declared decls1 p <-> (p.1 = n /\ p.2 ∈ kept l) \/ (p.1 <> n /\ declared decls p)).
    { intros p. unfold decls1. case_bool_decide as He; [rewrite declared_delete, He|apply declared_insert]. set_solver. }
    change (concat (flat <$> (n, l) :: es)) with (flat (n, l) ++ concat (flat <$> es)). change ((n, l) :: es).*1 with (n :: es.*1).
    split_and!; [| |done|].
    + intros p. rewrite I1, Hd1, elem_of_cons, elem_of_app, elem_of_flat. cbn [fst snd]. unfold kept. rewrite list_elem_of_filter.
      assert (Hc : p ∈ concat (flat <$> es) -> p.1 ∈ es.*1).
      { intros (l' & Hl' & _)%elem_of_concat_flat. by apply (list_elem_of_fmap_2 fst) in Hl'. }
      destruct (decide (p.1 = n)) as [He|Hne]; [rewrite He in *|]; naive_solver.
    + intros order' Hs Hes. apply I2; [|set_solver]. unfold decls1. case_bool_decide as He; [by apply lists_ok_delete|].
      apply lists_ok_insert; [done..|]. apply (Hes (n, l)). set_solver.
    + unfold gone. rewrite filter_app. fold (gone (flat (n, l))).
      fold (gone (concat (flat <$> es))). rewrite scan_sum_app, (N.add_comm (scan_sum _ (gone (flat _)))), N.add_assoc.
      by rewrite <- N.Div0.add_mod_idemp_l, I4, N.Div0.add_mod_idemp_l.
Qed.
End Retain.

(** What is noted of the globals that lose something. *)
Lemma retain_notes order removed (es : list (GlobalId * list LuaDeclId)) decls scan (notes : list (FactKey.t LuaType VarRefId)) :
  let '(_, scan', notes') := foldl (LuaGlobalIndex.retain_step scan_hash order removed) (decls, scan, notes) es in
  exists written, notes' = notes ++ written
    /\ (forall n l, (n, l) ∈ es -> kept removed l <> l -> FactKey.Global n ∈ written /\ FactKey.GlobalScan ∈ written)
    /\ ((forall n l, (n, l) ∈ es -> kept removed l = l) -> scan' = scan).
Proof.
  revert decls scan notes. induction es as [|[n l] es IH]; intros decls scan notes.
  { cbn [foldl]. exists []. split_and!; [by rewrite app_nil_r|by intros ? ? ?%elem_of_nil|done]. }
  cbn [foldl]. unfold LuaGlobalIndex.retain_step at 2, LuaGlobalIndex.retain_global. cbn [fst snd]. fold (kept removed l).
  set (scan1 := foldl _ scan l). set (decls1 := if bool_decide _ then _ else _). set (note1 := if (length _ =? length l)%nat then [] else _).
  specialize (IH decls1 scan1 (notes ++ note1)). destruct (foldl _ _ es) as [[decls2 scan2] notes2].
  destruct IH as (written & -> & I1 & I2). exists (note1 ++ written). split_and!; [by rewrite app_assoc| |].
  - intros m l' [[= -> ->]|Hin]%elem_of_cons Hne.
    + unfold note1. destruct (Nat.eqb_spec (length (kept removed l)) (length l)) as [He|_]; [|set_solver]. destruct Hne.
      apply filter_all. intros d Hd. destruct (removed (decl_file_id d)) eqn:Hr; [|done].
      assert (Hlt := length_filter_lt (fun d => removed (decl_file_id d) = false) l d Hd). cbn beta in Hlt. rewrite Hr in Hlt.
      unfold kept in He. specialize (Hlt ltac:(done)). lia.
    + destruct (I1 m l' Hin Hne). rewrite !elem_of_app. split; by right.
  - intros Hall. rewrite I2 by (intros m l' Hin; apply (Hall m l'); set_solver). unfold scan1.
    assert (Hl : forall d, d ∈ l -> removed (decl_file_id d) = false).
    { intros d Hd. rewrite <- (Hall n l) in Hd by set_solver. by apply list_elem_of_filter in Hd as [? _]. }
    clear -Hl. revert scan. induction l as [|d l IH]; intros scan; [done|]. cbn. rewrite (Hl d) by set_solver. apply IH. set_solver.
Qed.

Lemma retain_decls_ok self removed : global_ok self ->
  let self' := LuaGlobalIndex.retain_decls scan_hash self removed in
  global_ok self' /\ (forall p, declared (global_decl self') p <-> declared (global_decl self) p /\ removed (decl_file_id p.2) = false)
  /\ file_order self' = filter (fun e => removed e.1 = false) (file_order self).
Proof.
  intros [Hs Hk Hf]. cbv zeta. unfold LuaGlobalIndex.retain_decls.
  assert (Hb : (scan_fingerprint self < 2 ^ 64)%N) by (rewrite Hf; apply scan_mod_bound).
  assert (H := retain_fold removed (file_order self) (map_to_list (global_decl self)) (global_decl self) (scan_fingerprint self) []
    (NoDup_fst_map_to_list _) Hb).
  destruct (foldl _ _ _) as [[decls scan] notes]. destruct H as (H1 & H2 & H3 & H4). fold (entries (global_decl self)) in *.
  assert (Hdecl : forall p, declared decls p <-> declared (global_decl self) p /\ removed (decl_file_id p.2) = false).
  { intros p. rewrite H1, elem_of_entries. split; [|tauto]. intros [[Hn (l & Hl & _)]|]; [|done]. destruct Hn.
    apply elem_of_map_to_list in Hl. by apply (list_elem_of_fmap_2 fst) in Hl. }
  assert (Hs2 : lists_ok (file_order self) decls).
  { apply H2; [done|]. intros [n l] Hin%elem_of_map_to_list. eapply StronglySorted_sublist; [apply sublist_filter|]. by eapply Hs. }
  assert (Hag : agree_on (file_order self) (filter (fun e => removed e.1 = false) (file_order self)) decls).
  { intros p Hp. destruct (proj1 (Hdecl p) Hp) as [Hp' Hr]. destruct (Hk p Hp') as [k Hkey]. rewrite Hkey. symmetry.
    by apply map_lookup_filter_Some. }
  split_and!; [split|done|done]; cbn [global_decl file_order scan_fingerprint LuaGlobalIndex.note].
  - by eapply lists_ok_agree.
  - intros p Hp. rewrite <- Hag by done. apply Hk. by apply Hdecl.
  - rewrite <- (scan_entries_agree (file_order self)) by done.
    rewrite <- (N.mod_small scan (2 ^ 64)) by done. apply (mod_cancel _ _ (scan_sum (file_order self) (gone removed (entries (global_decl self))))).
    rewrite H4, Hf, N.Div0.mod_mod. f_equal. rewrite <- scan_sum_app. apply scan_sum_perm. eapply entries_perm; [done| |].
    + apply NoDup_app. split_and!; [by eapply entries_NoDup| |by eapply NoDup_filter, entries_NoDup].
      intros p [_ Hr]%elem_of_entries%Hdecl. unfold gone. intros [Hr2 _]%list_elem_of_filter. rewrite Hr in Hr2. done.
    + intros p. rewrite elem_of_app, elem_of_entries, Hdecl. unfold gone. rewrite list_elem_of_filter, elem_of_entries.
      destruct (removed (decl_file_id p.2)); naive_solver.
Qed.

Lemma clear_ok self : global_ok (LuaGlobalIndex.clear self).
Proof. split; [intros ?? [=]|intros p (l & [=] & _)|done]. Qed.

(** ** Lists put back in order *)

Definition reordered (order : Order) (decls : Decls) (names : list GlobalId) : Decls :=
  foldl (fun decls id => alter (LuaGlobalIndex.sort_decls order) id decls) decls names.

Lemma reordered_lookup order names decls n : NoDup names ->
  reordered order decls names !! n = (if decide (n ∈ names) then LuaGlobalIndex.sort_decls order else id) <$> decls !! n.
Proof.
  unfold reordered. revert decls. induction names as [|m names IH]; intros decls Hnd; [cbn; by rewrite option_fmap_id|].
  apply NoDup_cons in Hnd as [Hm Hnd]. cbn [foldl]. rewrite IH by done. destruct (decide (n = m)) as [->|Hne].
  - rewrite lookup_alter_eq, decide_False, (decide_True (P := m ∈ m :: names)) by set_solver. by rewrite option_fmap_id.
  - rewrite lookup_alter_ne by done. destruct (decide (n ∈ names)); [rewrite decide_True by set_solver|rewrite decide_False by set_solver]; done.
Qed.

Lemma reordered_spec order' names decls : NoDup names ->
  (forall n l, decls !! n = Some l -> l <> [] /\ NoDup l) ->
  (forall n l, decls !! n = Some l -> n ∉ names -> canonical order' l) ->
  lists_ok order' (reordered order' decls names) /\ (forall p, declared (reordered order' decls names) p <-> declared decls p).
Proof.
  intros Hnd Hs Hrest. split.
  - intros n l. rewrite reordered_lookup by done. destruct (decls !! n) as [l0|] eqn:Hl; [|done]. intros [= <-].
    destruct (Hs n l0 Hl) as [Hne Hc]. destruct (decide (n ∈ names)); [|split; [done|by eapply Hrest]].
    destruct (sort_decls_spec order' l0) as [H1 H2]; [done|]. split; [|done].
    intros He. rewrite He in H2. by apply Permutation_nil_l in H2.
  - intros [n d]. rewrite !declared_default, reordered_lookup by done. destruct (decls !! n) as [l0|] eqn:Hl; [|done]. cbn.
    destruct (decide (n ∈ names)); [|done]. destruct (sort_decls_spec order' l0) as [_ H2]; [by eapply Hs|]. by rewrite H2.
Qed.

(** ** Files that get another order key *)

Notation in_files files := (filter (fun p : Entry => decl_file_id p.2 ∈ files)).

(** The globals of [names] with what they declare. *)
Definition listed (decls : Decls) (names : list GlobalId) : list Entry := concat (flat <$> ((fun n => (n, default [] (decls !! n))) <$> names)).

Lemma listed_NoDup order decls names : lists_ok order decls -> NoDup names -> NoDup (listed decls names).
Proof.
  intros Hs Hnd. apply flat_NoDup.
  - rewrite <- list_fmap_compose. by rewrite (list_fmap_ext _ id), list_fmap_id by done.
  - intros e (n & -> & _)%list_elem_of_fmap. cbn. by eapply canonical_NoDup, canonical_default.
Qed.

Lemma elem_of_listed decls names p : p ∈ listed decls names <-> p.1 ∈ names /\ declared decls p.
Proof.
  unfold listed. rewrite elem_of_concat_flat. destruct p as [n d]. rewrite declared_default. cbn. split.
  - intros (l & (m & [= -> ->] & Hm)%list_elem_of_fmap & Hd). done.
  - intros [Hn Hd]. eexists. split; [|exact Hd]. by apply (list_elem_of_fmap_2 (fun n => (n, default [] (decls !! n)))).
Qed.

Lemma scan_share_inner order (files : gset FileId) id l (s : N) :
  foldl (fun share d => if bool_decide (decl_file_id d ∈ files) then wrapping_add share (scan_element order id d) else share) (s mod 2 ^ 64)%N l
  = ((s + scan_sum order (in_files files (flat (id, l)))) mod 2 ^ 64)%N.
Proof.
  revert s. induction l as [|d l IH]; intros s; [simpl; by rewrite N.add_0_r|]. cbn [foldl].
  change (flat (id, d :: l)) with ((id, d) :: flat (id, l)). rewrite filter_cons. cbn [snd]. case_bool_decide as Hd.
  - rewrite decide_True, wrapping_add_mod, IH by done. f_equal.
    change (scan_sum order ((id, d) :: ?g)) with (scan_element order id d + scan_sum order g)%N. simpl. lia.
  - by rewrite decide_False, IH.
Qed.

Lemma scan_share_spec self files names :
  LuaGlobalIndex.scan_share scan_hash self files names
  = (scan_sum (file_order self) (in_files files (listed (global_decl self) names)) mod 2 ^ 64)%N.
Proof.
  unfold LuaGlobalIndex.scan_share, listed. change 0%N with (0 mod 2 ^ 64)%N at 1. rewrite <- (N.add_0_l (scan_sum _ _)).
  generalize 0%N. induction names as [|n names IH]; intros s; [simpl; by rewrite N.add_0_r|]. cbn [foldl].
  rewrite scan_share_inner, IH. f_equal. rewrite !fmap_cons. cbn [concat]. rewrite filter_app, scan_sum_app. symmetry. apply N.add_assoc.
Qed.

Lemma rekeyed_order (rekeyed : list (FileId * rstring)) (order : Order) (f : FileId) :
  let order' := foldl (fun (order : Order) e => <[e.1 := e.2]> order) order rekeyed in
  (f ∉ rekeyed.*1 -> order' !! f = order !! f) /\ (is_Some (order !! f) -> is_Some (order' !! f)).
Proof.
  cbv zeta.
  revert order. induction rekeyed as [|[g k] rekeyed IH]; intros order; [done|]. cbn. split.
  - intros Hf. rewrite (proj1 (IH _)) by set_solver. apply lookup_insert_ne. set_solver.
  - intros Hs. apply IH. destruct (decide (f = g)) as [->|Hne]; [rewrite lookup_insert_eq; by eexists|by rewrite lookup_insert_ne].
Qed.

(** The share of [files], when every global that declares in them is named. *)
Lemma share_of_all order decls names (files : gset FileId) : lists_ok order decls -> NoDup names ->
  (forall p, declared decls p -> decl_file_id p.2 ∈ files -> p.1 ∈ names) ->
  forall order', scan_sum order' (in_files files (listed decls names)) = scan_sum order' (in_files files (entries decls)).
Proof.
  intros Hs Hnd Hall order'. apply scan_sum_perm, NoDup_Permutation.
  - by eapply NoDup_filter, listed_NoDup.
  - by eapply NoDup_filter, entries_NoDup.
  - intros p. rewrite !list_elem_of_filter, elem_of_listed, elem_of_entries. naive_solver.
Qed.

Lemma rekey_files_ok self keys : global_ok self ->
  let self' := LuaGlobalIndex.rekey_files scan_hash self keys in
  global_ok self' /\ (forall p, declared (global_decl self') p <-> declared (global_decl self) p).
Proof.
  intros [Hs Hk Hf]. cbv zeta. unfold LuaGlobalIndex.rekey_files.
  set (rekeyed := filter _ keys). case_bool_decide as Hne; [by split|].
  set (files := list_to_set rekeyed.*1 : gset FileId). set (named := filter _ (map_to_list _)). set (names := named.*1).
  set (order := foldl _ (file_order self) rekeyed).
  assert (Hrest : forall f, f ∉ files -> file_order self !! f = order !! f).
  { intros f Hnf. symmetry. apply rekeyed_order. unfold files in Hnf. set_solver. }
  assert (Hnames : forall n, n ∈ names <-> exists l, global_decl self !! n = Some l /\ Exists (fun d => decl_file_id d ∈ files) l).
  { intros n. unfold names, named. rewrite list_elem_of_fmap. split.
    - intros ([m l] & -> & [He Hm%elem_of_map_to_list]%list_elem_of_filter). by exists l.
    - intros (l & Hl & He). exists (n, l). split; [done|]. apply list_elem_of_filter. split; [done|]. by apply elem_of_map_to_list. }
  assert (Hnd : NoDup names) by (eapply sublist_NoDup; [apply (NoDup_fst_map_to_list (global_decl self))|apply fmap_sublist, sublist_filter]).
  clearbody names. cbn [global_decl file_order scan_fingerprint LuaGlobalIndex.reorder_globals LuaGlobalIndex.note].
  destruct (reordered_spec order names (global_decl self) Hnd) as [Hs' Hd'].
  { intros n l Hl. destruct (Hs n l Hl) as [Hl1 Hl2]. split; [done|by eapply canonical_NoDup]. }
  { intros n l Hl Hn. apply (canonical_agree (file_order self)); [|by eapply Hs]. intros d Hd. apply Hrest. intros Hin.
    apply Hn, Hnames. exists l. split; [done|]. apply Exists_exists. by exists d. }
  change (foldl _ (global_decl self) names) with (reordered order (global_decl self) names).
  set (decls := reordered order (global_decl self) names) in *.
  assert (Hall : forall p, declared (global_decl self) p -> decl_file_id p.2 ∈ files -> p.1 ∈ names).
  { intros p (l & Hl & Hp) Hin. apply Hnames. exists l. split; [done|]. apply Exists_exists. by exists p.2. }
  split; [|done]. split; cbn [global_decl file_order scan_fingerprint].
  - done.
  - intros p Hp%Hd'. by apply rekeyed_order, Hk.
  - rewrite !scan_share_spec. cbn [global_decl file_order]. fold decls.
    rewrite (share_of_all (file_order self)), (share_of_all order) by (done || intros p Hp%Hd'; by apply Hall).
    rewrite Hf, (scan_sum_files (file_order self) files (entries (global_decl self))), (scan_sum_files order files (entries decls)).
    assert (He : entries decls ≡ₚ entries (global_decl self)).
    { eapply entries_perm; [done|by eapply entries_NoDup|]. intros p. by rewrite elem_of_entries, Hd'. }
    assert (Hout : scan_sum order (filter (fun p : Entry => decl_file_id p.2 ∉ files) (entries decls))
                   = scan_sum (file_order self) (filter (fun p : Entry => decl_file_id p.2 ∉ files) (entries (global_decl self)))).
    { rewrite (scan_sum_perm order _ _ (filter_Permutation _ _ _ He)). apply scan_sum_agree.
      intros p [Hp _]%list_elem_of_filter. symmetry. by apply Hrest. }
    rewrite Hout.
    set (a := scan_sum _ (filter _ (entries (global_decl self)))). set (b := scan_sum _ _). set (c := scan_sum _ _).
    rewrite <- (N.Div0.add_mod_idemp_r a b), wrapping_sub_mod by (apply N.lt_le_incl, scan_mod_bound).
    rewrite wrapping_add_mod. by rewrite N.Div0.add_mod_idemp_r.
Qed.
End Invariant.
