(* ===== verification/GlobalTaskProofs.v ===== *)
(** * Globals: what tasks declare apart

    Tasks work on forks of one index.  Their installs merge the lists, the keys of
    the files and the fingerprint three ways; when no two tasks touch the same
    declaration of a global and the keys of the files are those of one file
    system, that is what the tasks would have done one after another. *)

From S2P Require Import Prelude Kinds Text FileOrder Dependency EditMap EditRemap Derivation Readers KeyTable FactKey CopyOnWrite CopyOnWriteProofs DeclTree DeclWalk ModuleIndex ModuleIndexProofs GlobalIndex GlobalIndexProofs.
From stdpp Require Import list gmap sorting.
Local Open Scope prog_scope.

(** ** Merged lists *)

Section Lists.
Context {T : Type} `{Countable T}.

Lemma added_spec (frozen present : gset T) l :
  NoDup (added frozen present l) /\ forall e, e ∈ added frozen present l <-> e ∈ l /\ e ∉ frozen /\ e ∉ present.
Proof.
  revert present. induction l as [|x l IH]; intros present; simpl; [split; [constructor|set_solver]|].
  destruct (bool_decide (x ∈ frozen) || bool_decide (x ∈ present)) eqn:Hx.
  - apply orb_true_iff in Hx. rewrite !bool_decide_eq_true in Hx. destruct (IH present) as [H1 H2]. split; [done|]. set_solver.
  - apply orb_false_iff in Hx as [Hf%bool_decide_eq_false Hp%bool_decide_eq_false]. destruct (IH ({[x]} ∪ present)) as [H1 H2].
    split; [constructor; [rewrite H2; set_solver|done]|]. intros e. rewrite elem_of_cons, H2. destruct (decide (e = x)); set_solver.
Qed.

Notation list_of o := (default (@nil T) o).

Lemma merge_list_spec (now before value : option (list T)) : NoDup (list_of now) ->
  exists merged, merge_list now before value = (merged, Ok tt) /\ NoDup (list_of merged) /\ merged <> Some []
    /\ forall e, e ∈ list_of merged <-> (e ∈ list_of now /\ (e ∉ list_of before \/ e ∈ list_of value)) \/ (e ∈ list_of value /\ e ∉ list_of before).
Proof.
  intros Hnd. unfold merge_list, CopyOnWrite.prune. cbn [from_option].
  set (kept := filter _ _). eexists. split; [reflexivity|].
  destruct (added_spec (list_to_set (default [] before)) (list_to_set kept) (default [] value)) as [H1 H2].
  set (more := added _ _ _) in *.
  assert (Hkept : forall e, e ∈ kept <-> e ∈ default [] now /\ (e ∉ default [] before \/ e ∈ default [] value)).
  { intros e. unfold kept. rewrite list_elem_of_filter, !elem_of_list_to_set. tauto. }
  assert (Hn : NoDup (kept ++ more)).
  { apply NoDup_app. split_and!; [by apply NoDup_filter| |done]. intros e He. rewrite H2, !elem_of_list_to_set. tauto. }
  assert (Hin : forall e, e ∈ kept ++ more <-> (e ∈ default [] now /\ (e ∉ default [] before \/ e ∈ default [] value)) \/ (e ∈ default [] value /\ e ∉ default [] before)).
  { intros e. rewrite elem_of_app, Hkept, H2, !elem_of_list_to_set, Hkept.
    destruct (decide (e ∈ default [] now)), (decide (e ∈ default [] before)), (decide (e ∈ default [] value)); tauto. }
  case_bool_decide as He; cbn; [|by split_and!; [|congruence|]].
  rewrite He in Hin. split_and!; [constructor|done|exact Hin].
Qed.

Lemma merge_list_same (now before : option (list T)) : NoDup (list_of now) -> now <> Some [] ->
  (now = None -> list_of before = []) -> (merge_list now before now).1 = now.
Proof.
  intros Hnd Hne Hnone. unfold merge_list, CopyOnWrite.prune, id. cbn [from_option fst].
  destruct now as [l|]; [|cbn; done]. cbn [from_option]. change (default [] (Some l)) with l in *.
  rewrite filter_all. 2: { intros e He. right. by apply elem_of_list_to_set. }
  destruct (added_spec (list_to_set (default [] before)) (list_to_set l) l) as [_ H2]. destruct (added _ _ l) as [|x more].
  - rewrite app_nil_r. rewrite bool_decide_eq_false_2; [done|congruence].
  - destruct (proj1 (H2 x)) as (Hx & _ & Hx'); [set_solver|]. destruct Hx'. by apply elem_of_list_to_set.
Qed.

(** The merge of three lists, whichever way it goes. *)
Lemma three_way_lists `{!EqDecision T} (before now value : option (list T)) :
  NoDup (list_of now) -> NoDup (list_of value) -> now <> Some [] -> value <> Some [] ->
  exists merged, three_way (Some merge_list) before now value = (false, merged) /\ NoDup (list_of merged) /\ merged <> Some []
    /\ (forall e, e ∈ list_of merged <-> (e ∈ list_of now /\ (e ∉ list_of before \/ e ∈ list_of value)) \/ (e ∈ list_of value /\ e ∉ list_of before))
    /\ (value = before \/ now = value -> merged = now) /\ (now = before -> merged = value).
Proof.
  intros Hn Hv Hne Hve. unfold three_way. case_bool_decide as Hvb; [subst before|].
  { exists now. split_and!; [done..| | |]; [|done|done]. intros e. destruct (decide (e ∈ default [] value)); tauto. }
  case_bool_decide as Hnb; [subst before|].
  { exists value. split_and!; [done..| |naive_solver|done]. intros e. destruct (decide (e ∈ default [] now)); tauto. }
  destruct (merge_list_spec now before value Hn) as (merged & Hm & H1 & H2 & H3). rewrite Hm. exists merged. split_and!; [done..| |naive_solver].
  intros [?|<-]; [done|]. destruct now as [l|].
  - assert (Hs := merge_list_same (Some l) before Hn Hne). rewrite Hm in Hs. by apply Hs.
  - destruct merged as [[|x m]|]; [done| |done]. destruct (proj1 (H3 x)) as [[Hx _]|[Hx _]]; set_solver.
Qed.
End Lists.

(** ** One shard of any keys *)

Section Shard.
Context {K V : Type} `{Countable K} `{!EqDecision V}.

#[local] Instance one_shard_key : ShardKey K := {| PAGED := true; shard_owner _ := CopyOnWrite.Workspace; hash_one _ := 0%N |}.
#[local] Instance one_shard_small : SmallSlots K.
Proof. by split. Qed.

Lemma installed_lookup (merge : option (CopyOnWrite.Merge V)) (was forked target : gmap K V) k :
  (CowShards.install_keys merge was forked target).2 !! k = (three_way merge (was !! k) (target !! k) (forked !! k)).2.
Proof. apply install_keys_lookup. Qed.

Lemma installed_quietly (merge : option (CopyOnWrite.Merge V)) (was forked target : gmap K V) :
  (forall k, (three_way merge (was !! k) (target !! k) (forked !! k)).1 = false) -> (CowShards.install_keys merge was forked target).1 = false.
Proof.
  intros Hk. destruct (CowShards.install_keys merge was forked target).1 eqn:Hc; [|done]. apply install_keys_conflict in Hc as [k Hc].
  by rewrite Hk in Hc.
Qed.
End Shard.

(** ** Merged sums *)

Lemma merged_scan (now before value : N) : (now < 2 ^ 64)%N -> (before < 2 ^ 64)%N -> (value < 2 ^ 64)%N ->
  exists scan, scalar_install_merging now before value (merge_sum (Summand0 := unsigned_summand 64)) = (false, scan)
    /\ (scan < 2 ^ 64)%N /\ ((scan + before) mod 2 ^ 64 = (now + value) mod 2 ^ 64)%N.
Proof.
  intros Hn Hb Hv. unfold scalar_install_merging. destruct (N.eqb_spec value before) as [->|Hvb]; [by exists now|].
  destruct (N.eqb_spec now before) as [->|Hnb]; [exists value; split_and!; [done..|]; by rewrite N.add_comm|].
  unfold merge_sum. cbn [fst from_option unsigned_summand add sub zero id].
  exists ((now + (value + 2 ^ 64 - before) mod 2 ^ 64) mod 2 ^ 64)%N. split_and!.
  - case_bool_decide as Hs; [done|]. cbn. by rewrite Hs.
  - apply scan_mod_bound.
  - rewrite N.Div0.add_mod_idemp_r, N.Div0.add_mod_idemp_l.
    replace (now + (value + 2 ^ 64 - before) + before)%N with (now + value + 1 * 2 ^ 64)%N by lia. apply N.Div0.mod_add.
Qed.

(** ** Tasks *)

Inductive TaskOp : Type :=
  | TaskAdd (name : GlobalId) (d : LuaDeclId) (key : rstring)
  | TaskRemove (name : GlobalId) (d : LuaDeclId).

(** The declaration of a global that an operation is about. *)
Definition touched (op : TaskOp) : Entry := match op with TaskAdd name d _ | TaskRemove name d => (name, d) end.

(** What the last operation on a declaration leaves it as. *)
Definition says (ops : list TaskOp) (p : Entry) : option bool :=
  foldl (fun said op => if decide (touched op = p) then Some (match op with TaskAdd _ _ _ => true | TaskRemove _ _ => false end) else said) None ops.

(** Whether a file gets a key. *)
Definition adds_file (ops : list TaskOp) (f : FileId) : bool :=
  existsb (fun op => match op with TaskAdd _ d _ => bool_decide (decl_file_id d = f) | TaskRemove _ _ => false end) ops.

Lemma says_app ops1 ops2 p : says (ops1 ++ ops2) p = match says ops2 p with Some b => Some b | None => says ops1 p end.
Proof.
  unfold says at 1 3. rewrite foldl_app. fold (says ops1 p). induction ops2 as [|op ops2 IH] using rev_ind; [done|].
  unfold says in *. rewrite !foldl_app. cbn. case_decide; [done|]. exact IH.
Qed.

Lemma says_untouched ops p : (forall op, op ∈ ops -> touched op <> p) -> says ops p = None.
Proof.
  induction ops as [|op ops IH] using rev_ind; intros H; [done|]. rewrite says_app. unfold says at 1. cbn.
  rewrite decide_False by (apply H; set_solver). apply IH. set_solver.
Qed.

Section Tasks.
Context {LuaType VarRefId : Type} (scan_hash : Entry * rstring -> N).
Notation Index := (LuaGlobalIndex LuaType VarRefId).
Implicit Types self : Index.
Notation global_ok := (global_ok scan_hash).

Definition apply_task self (op : TaskOp) : Index :=
  match op with
  | TaskAdd name d key => LuaGlobalIndex.add_global_decl scan_hash self name d key
  | TaskRemove name d => LuaGlobalIndex.remove_global_decl scan_hash self name d
  end.

Definition run_task self (ops : list TaskOp) : Index := foldl apply_task self ops.

(** The keys that the file system gives its files. *)
Variable key_of : FileId -> rstring.

Definition keyed (order : Order) : Prop := forall f k, order !! f = Some k -> k = key_of f.
Definition op_keyed (op : TaskOp) : Prop := match op with TaskAdd _ d key => key = key_of (decl_file_id d) | TaskRemove _ _ => True end.

(** The state that the operations [ops] make of [base]. *)
Record after_ops (base : Index) (ops : list TaskOp) self : Prop := {
  ao_ok : global_ok self;
  ao_declared : forall p, declared (global_decl self) p <-> match says ops p with Some b => b = true | None => declared (global_decl base) p end;
  ao_order : forall f, file_order self !! f = match file_order base !! f with Some k => Some k | None => if adds_file ops f then Some (key_of f) else None end
}.

Lemma adds_file_app ops1 ops2 f : adds_file (ops1 ++ ops2) f = adds_file ops1 f || adds_file ops2 f.
Proof. apply existsb_app. Qed.

Lemma run_task_after base ops : global_ok base -> Forall op_keyed ops -> after_ops base ops (run_task base ops).
Proof.
  intros Hok. induction ops as [|op ops IH] using rev_ind; intros Hk.
  { split; [done|done|]. intros f. cbn. by destruct (file_order base !! f). }
  apply Forall_app in Hk as [Hk [Hop _]%Forall_cons]. destruct (IH Hk) as [I1 I2 I3]. unfold run_task. rewrite foldl_app. cbn [foldl].
  fold (run_task base ops). set (self := run_task base ops) in *. clearbody self.
  assert (Hsays : forall p, says (ops ++ [op]) p = if decide (touched op = p) then Some (match op with TaskAdd _ _ _ => true | TaskRemove _ _ => false end) else says ops p).
  { intros p. rewrite says_app. unfold says at 1. cbn. by case_decide. }
  destruct op as [name d key|name d]; cbn [apply_task touched op_keyed] in *.
  - destruct (add_global_decl_ok scan_hash self name d key I1) as (A1 & A2 & A3). split; [done| |].
    + intros p. rewrite A2, Hsays, I2. case_decide as Hd; [naive_solver|]. split; [intros [->|]; done|by right].
    + intros f. rewrite A3, adds_file_app. unfold order_with. cbn. rewrite orb_false_r.
      destruct (file_order self !! decl_file_id d) as [k|] eqn:Hf.
      * rewrite I3 in Hf |- *. case_bool_decide as He; [subst f|by rewrite orb_false_r]. rewrite orb_true_r.
        destruct (file_order base !! decl_file_id d); [done|]. by destruct (adds_file ops _).
      * case_bool_decide as He; [subst f|].
        -- rewrite lookup_insert_eq, orb_true_r. rewrite I3 in Hf. destruct (file_order base !! decl_file_id d); [done|]. by subst key.
        -- rewrite lookup_insert_ne by done. by rewrite I3, orb_false_r.
  - destruct (remove_global_decl_ok scan_hash self name d I1) as (A1 & A2 & A3). split; [done| |].
    + intros p. rewrite A2, Hsays, I2. case_decide as Hd; [naive_solver|]. split; [by intros [_ ?]|]. intros ?. split; [by intros ->|done].
    + intros f. rewrite A3, adds_file_app, I3. cbn. by rewrite orb_false_r.
Qed.

(** ** One install *)

Section Install.
Variables (frozen fork self : Index) (T : Entry -> Prop).
Context `{!forall p, Decision (T p)}.
Hypotheses (Hfrozen : global_ok frozen) (Hfork : global_ok fork) (Hself : global_ok self).
(** The task touched only [T], the others did not. *)
Hypothesis Hothers : forall p, T p -> (declared (global_decl self) p <-> declared (global_decl frozen) p).
Hypothesis Htask : forall p, ~ T p -> (declared (global_decl fork) p <-> declared (global_decl frozen) p).
Hypotheses (Kfork : keyed (file_order fork)) (Kself : keyed (file_order self)).
Hypotheses (Gfork : forall f, is_Some (file_order frozen !! f) -> file_order fork !! f = file_order frozen !! f)
  (Gself : forall f, is_Some (file_order frozen !! f) -> file_order self !! f = file_order frozen !! f).

Definition merged_order : Order := (CowShards.install_keys None (file_order frozen) (file_order fork) (file_order self)).2.

Lemma order_three_way f :
  three_way None (file_order frozen !! f) (file_order self !! f) (file_order fork !! f)
  = (false, match file_order self !! f with Some k => Some k | None => file_order fork !! f end).
Proof.
  destruct (file_order frozen !! f) as [k|] eqn:Hz.
  - rewrite Gfork, Gself, Hz by (rewrite Hz; by eexists). apply three_way_unchanged.
  - destruct (file_order fork !! f) as [k|] eqn:Hf; [|rewrite three_way_unchanged; by destruct (file_order self !! f)].
    destruct (file_order self !! f) as [k'|] eqn:Hs; [|apply three_way_ours].
    rewrite (Kfork f k Hf), (Kself f k' Hs). unfold three_way. rewrite !bool_decide_eq_false_2 by done. by rewrite bool_decide_eq_false_2 by naive_solver.
Qed.

Lemma merged_order_lookup f : merged_order !! f = match file_order self !! f with Some k => Some k | None => file_order fork !! f end.
Proof. unfold merged_order. by rewrite installed_lookup, order_three_way. Qed.

Lemma merged_self f : is_Some (file_order self !! f) -> file_order self !! f = merged_order !! f.
Proof. intros [k Hk]. by rewrite merged_order_lookup, Hk. Qed.

Lemma merged_fork f : is_Some (file_order fork !! f) -> file_order fork !! f = merged_order !! f.
Proof.
  intros [k Hk]. rewrite merged_order_lookup, Hk. destruct (file_order self !! f) as [k'|] eqn:Hs; [|done].
  by rewrite (Kfork f k Hk), (Kself f k' Hs).
Qed.

Lemma merged_frozen f : is_Some (file_order frozen !! f) -> file_order frozen !! f = merged_order !! f.
Proof. intros Hs. rewrite <- Gself by done. apply merged_self. by rewrite Gself. Qed.

Definition merged_decls : Decls := (CowShards.install_keys (Some merge_list) (global_decl frozen) (global_decl fork) (global_decl self)).2.

Lemma list_facts (index : Index) n : global_ok index -> NoDup (default [] (global_decl index !! n)) /\ global_decl index !! n <> Some [].
Proof.
  intros [Hs _ _]. split; [by eapply canonical_NoDup, canonical_default|]. intros Hn. by destruct (Hs n [] Hn).
Qed.

Lemma merged_lists n :
  let merged := merged_decls !! n in
  (three_way (Some merge_list) (global_decl frozen !! n) (global_decl self !! n) (global_decl fork !! n)).1 = false
  /\ NoDup (default [] merged) /\ merged <> Some []
  /\ (forall d, d ∈ default [] merged <-> if decide (T (n, d)) then declared (global_decl fork) (n, d) else declared (global_decl self) (n, d))
  /\ (global_decl fork !! n = global_decl frozen !! n \/ global_decl self !! n = global_decl fork !! n -> merged = global_decl self !! n)
  /\ (global_decl self !! n = global_decl frozen !! n -> merged = global_decl fork !! n).
Proof.
  destruct (list_facts self n Hself) as [N1 E1]. destruct (list_facts fork n Hfork) as [N2 E2].
  destruct (three_way_lists (global_decl frozen !! n) _ _ N1 N2 E1 E2) as (merged & Hm & H1 & H2 & H3 & H4 & H5).
  cbv zeta. unfold merged_decls. rewrite installed_lookup, Hm. cbn [snd]. split_and!; [done..| |done|done].
  intros d. rewrite H3, <- !declared_default. case_decide as HT.
  - rewrite (Hothers (n, d) HT). destruct (decide (declared (global_decl frozen) (n, d))); tauto.
  - rewrite (Htask (n, d) HT). destruct (decide (declared (global_decl frozen) (n, d))); tauto.
Qed.

Lemma merged_declared p : declared merged_decls p <-> if decide (T p) then declared (global_decl fork) p else declared (global_decl self) p.
Proof. destruct p as [n d]. rewrite declared_default. apply merged_lists. Qed.

Lemma agree_self : agree_on (file_order self) merged_order (global_decl self).
Proof. intros p Hp. by apply merged_self, Hself. Qed.
Lemma agree_fork : agree_on (file_order fork) merged_order (global_decl fork).
Proof. intros p Hp. by apply merged_fork, Hfork. Qed.
Lemma agree_frozen : agree_on (file_order frozen) merged_order (global_decl frozen).
Proof. intros p Hp. by apply merged_frozen, Hfrozen. Qed.

(** What the index holds after the install and what was frozen is what the index
    held before and what the fork holds. *)
Lemma merged_entries (es : list Entry) : NoDup es -> (forall p, p ∈ es <-> declared merged_decls p) ->
  es ++ entries (global_decl frozen) ≡ₚ entries (global_decl self) ++ entries (global_decl fork).
Proof.
  intros Hnd Hin.
  assert (Hsplit : forall l : list Entry, l ≡ₚ filter T l ++ filter (fun p => ~ T p) l).
  { induction l as [|p l IH]; [done|]. rewrite !filter_cons. destruct (decide (T p)) as [HT|HT].
    - rewrite decide_False by tauto. cbn. by rewrite <- IH.
    - rewrite decide_True by done. rewrite <- Permutation_middle. by rewrite <- IH. }
  assert (Nof : forall index : Index, global_ok index -> NoDup (entries (global_decl index))) by (intros index [Hs _ _]; by eapply entries_NoDup).
  rewrite (Hsplit es), (Hsplit (entries (global_decl frozen))), (Hsplit (entries (global_decl self))), (Hsplit (entries (global_decl fork))).
  assert (E1 : filter T es ≡ₚ filter T (entries (global_decl fork))).
  { apply NoDup_Permutation; [by apply NoDup_filter|by apply NoDup_filter, Nof|]. intros p. rewrite !list_elem_of_filter, Hin, merged_declared, elem_of_entries.
    destruct (decide (T p)); tauto. }
  assert (E2 : filter T (entries (global_decl frozen)) ≡ₚ filter T (entries (global_decl self))).
  { apply NoDup_Permutation; [by apply NoDup_filter, Nof..|]. intros p. rewrite !list_elem_of_filter, !elem_of_entries. specialize (Hothers p). tauto. }
  assert (E3 : filter (fun p => ~ T p) es ≡ₚ filter (fun p => ~ T p) (entries (global_decl self))).
  { apply NoDup_Permutation; [by apply NoDup_filter|by apply NoDup_filter, Nof|]. intros p. rewrite !list_elem_of_filter, Hin, merged_declared, elem_of_entries.
    destruct (decide (T p)); tauto. }
  assert (E4 : filter (fun p => ~ T p) (entries (global_decl frozen)) ≡ₚ filter (fun p => ~ T p) (entries (global_decl fork))).
  { apply NoDup_Permutation; [by apply NoDup_filter, Nof..|]. intros p. rewrite !list_elem_of_filter, !elem_of_entries. specialize (Htask p). tauto. }
  rewrite E1, E2, E3, E4. solve_Permutation.
Qed.

Lemma install_task_ok :
  exists self', LuaGlobalIndex.install_task_reporting self frozen fork = (self', []) /\ global_ok self'
    /\ (forall p, declared (global_decl self') p <-> if decide (T p) then declared (global_decl fork) p else declared (global_decl self) p)
    /\ (forall f, file_order self' !! f = match file_order self !! f with Some k => Some k | None => file_order fork !! f end).
Proof.
  unfold LuaGlobalIndex.install_task_reporting. set (plan := LuaGlobalIndex.globals_to_reorder self frozen fork).
  assert (C1 : (CowShards.install_keys (Some merge_list) (global_decl frozen) (global_decl fork) (global_decl self)).1 = false)
    by (apply installed_quietly; intros n; apply (merged_lists n)).
  assert (C2 : (CowShards.install_keys None (file_order frozen) (file_order fork) (file_order self)).1 = false)
    by (apply installed_quietly; intros f; by rewrite order_three_way).
  assert (D1 : (CowShards.install_keys (Some merge_list) (global_decl frozen) (global_decl fork) (global_decl self)).2 = merged_decls) by done.
  assert (D2 : (CowShards.install_keys None (file_order frozen) (file_order fork) (file_order self)).2 = merged_order) by done.
  assert (Hb : forall index : Index, global_ok index -> (scan_fingerprint index < 2 ^ 64)%N) by (intros index [_ _ ->]; apply scan_mod_bound).
  destruct (merged_scan (scan_fingerprint self) (scan_fingerprint frozen) (scan_fingerprint fork)) as (scan & Hscan & Hsb & Hsm); [by apply Hb..|].
  destruct (CowShards.install_keys (Some merge_list) _ _ _) as [c1 decls]. destruct (CowShards.install_keys None _ _ _) as [c2 order].
  cbn [fst snd] in *. subst c1 c2 decls order.
  change LuaGlobalIndex.fingerprint_summand with (unsigned_summand 64). rewrite Hscan.
  destruct (reordered_spec merged_order plan merged_decls) as [Hlists Hdecl].
  - apply NoDup_filter, changed_keys_of_NoDup.
  - intros n l Hn. destruct (merged_lists n) as (_ & H1 & H2 & _). rewrite Hn in H1, H2. split; [congruence|done].
  - intros n l Hn Hplan. destruct (merged_lists n) as (_ & _ & _ & _ & H3 & H4).
    assert (Hcase : (global_decl fork !! n = global_decl frozen !! n \/ global_decl self !! n = global_decl fork !! n) \/ global_decl self !! n = global_decl frozen !! n).
    { destruct (decide (global_decl fork !! n = global_decl frozen !! n)); [by left; left|].
      destruct (decide (global_decl self !! n = global_decl fork !! n)); [by left; right|].
      destruct (decide (global_decl self !! n = global_decl frozen !! n)); [by right|]. destruct Hplan.
      unfold plan, LuaGlobalIndex.globals_to_reorder. apply list_elem_of_filter. split; [done|]. by apply changed_keys_of_in. }
    destruct Hcase as [Hc|Hc].
    + rewrite (H3 Hc) in Hn. apply (lists_ok_agree _ _ _ agree_self (go_lists _ _ Hself) n l Hn).
    + rewrite (H4 Hc) in Hn. apply (lists_ok_agree _ _ _ agree_fork (go_lists _ _ Hfork) n l Hn).
  - eexists. split; [reflexivity|].
    assert (Hd : forall p, declared (reordered merged_order merged_decls plan) p <-> if decide (T p) then declared (global_decl fork) p else declared (global_decl self) p)
      by (intros p; by rewrite Hdecl, merged_declared).
    split_and!; [split|exact Hd|apply merged_order_lookup]; cbn [global_decl file_order scan_fingerprint LuaGlobalIndex.reorder_globals];
      fold (reordered merged_order merged_decls plan).
    + done.
    + intros p Hp%Hd. case_decide as HT; [rewrite <- agree_fork by done|rewrite <- agree_self by done]; [by apply Hfork|by apply Hself].
    + rewrite <- (N.mod_small scan (2 ^ 64)) by done.
      apply (mod_cancel _ _ (scan_sum scan_hash (file_order frozen) (entries (global_decl frozen)))).
      rewrite <- N.Div0.add_mod_idemp_r, <- (go_scan _ _ Hfrozen), Hsm, (go_scan _ _ Hself), (go_scan _ _ Hfork).
      rewrite <- N.Div0.add_mod. f_equal.
      rewrite (scan_entries_agree _ _ _ _ agree_self), (scan_entries_agree _ _ _ _ agree_fork), (scan_entries_agree _ _ _ _ agree_frozen).
      rewrite <- !scan_sum_app. apply scan_sum_perm. symmetry. apply merged_entries; [by eapply entries_NoDup|].
      intros p. by rewrite elem_of_entries.
Qed.
End Install.

(** ** A superstep *)

Definition untouched_by (ops ops' : list TaskOp) : Prop := forall op op', op ∈ ops -> op' ∈ ops' -> touched op <> touched op'.

Lemma is_touched_dec (ops : list TaskOp) p : Decision (exists op, op ∈ ops /\ touched op = p).
Proof.
  destruct (decide (Exists (fun op => touched op = p) ops)) as [H|H]; [left|right].
  - by apply Exists_exists in H.
  - intros He. by apply H, Exists_exists.
Qed.

Lemma install_tasks_after base self (done : list TaskOp) (tasks : list (list TaskOp)) (reported : list (list LuaGlobalIndex.Field)) :
  global_ok base -> keyed (file_order base) -> Forall (Forall op_keyed) tasks ->
  after_ops base done self -> Forall (untouched_by done) tasks -> ForallOrdPairs untouched_by tasks ->
  exists self', foldl (fun acc fork => let '(self, conflicts) := LuaGlobalIndex.install_task_reporting acc.1 base fork in (self, acc.2 ++ [conflicts]))
      (self, reported) (run_task base <$> tasks) = (self', reported ++ ((fun _ => []) <$> tasks))
    /\ after_ops base (done ++ concat tasks) self'.
Proof.
  intros Hok Hkey Hops. revert done self reported. induction tasks as [|ops tasks IH]; intros done self reported Hao Hd Hp.
  { exists self. cbn. rewrite !app_nil_r. done. }
  apply Forall_cons in Hops as [Ho Hops], Hd as [Hd1 Hd]. inversion Hp as [|? ? Hp1 Hp2]; subst.
  assert (Ht := run_task_after base ops Hok Ho). cbn [foldl fmap list_fmap].
  set (T := fun p => exists op, op ∈ ops /\ touched op = p).
  assert (Hnot : forall p, ~ T p -> says ops p = None) by (intros p Hp'; apply says_untouched; intros op Hop He; apply Hp'; by exists op).
  assert (Hdone : forall p, T p -> says done p = None).
  { intros p (op & Hop & <-). apply says_untouched. intros op' Hop'. by apply Hd1. }
  assert (Keyed : forall self' ops', after_ops base ops' self' -> keyed (file_order self')).
  { intros self' ops' [_ _ H3] f k. rewrite H3. destruct (file_order base !! f) as [k'|] eqn:Hf; [intros [= <-]; by apply Hkey|].
    destruct (adds_file ops' f); [by intros [= <-]|done]. }
  assert (Grows : forall self' ops', after_ops base ops' self' -> forall f, is_Some (file_order base !! f) -> file_order self' !! f = file_order base !! f).
  { intros self' ops' [_ _ H3] f [k Hk]. by rewrite H3, Hk. }
  destruct (@install_task_ok base (run_task base ops) self T (is_touched_dec ops) Hok (ao_ok _ _ _ Ht) (ao_ok _ _ _ Hao)) as (self1 & Hi & A1 & A2 & A3).
  - intros p HT. by rewrite (ao_declared _ _ _ Hao), Hdone.
  - intros p HT. by rewrite (ao_declared _ _ _ Ht), Hnot.
  - by eapply Keyed.
  - by eapply Keyed.
  - by eapply Grows.
  - by eapply Grows.
  - cbn [fst snd]. rewrite Hi. destruct (IH Hops (done ++ ops) self1 (reported ++ [[]])) as (self' & H1 & H2).
    + split; [done| |].
      * intros p. rewrite A2, says_app. case_decide as HT.
        -- rewrite (ao_declared _ _ _ Ht). destruct (says ops p); [done|]. by rewrite (Hdone p HT).
        -- rewrite (Hnot p HT). apply Hao.
      * intros f. rewrite A3, adds_file_app, (ao_order _ _ _ Hao), (ao_order _ _ _ Ht). destruct (file_order base !! f); [done|].
        by destruct (adds_file done f).
    + apply Forall_forall. intros ops' Hin op op' Hop Hop'. apply elem_of_app in Hop as [Hop|Hop].
      * eapply Forall_forall in Hd; [|exact Hin]. by apply Hd.
      * eapply Forall_forall in Hp1; [|exact Hin]. by apply Hp1.
    + done.
    + exists self'. rewrite H1, <- !app_assoc. rewrite <- app_assoc in H2. done.
Qed.
End Tasks.
