(* ===== verification/GlobalIndexSpec.v ===== *)
(** * Globals: theorems

    Whatever was declared, withdrawn, moved and removed, the declarations of every
    global are in the order of their files' paths and the fingerprint of the scan
    says what is declared; installing the forks of tasks is running the tasks one
    after another; a workspace sees of a global the declarations of the nearest
    tier; every change of a fact is noted. *)

From S2P Require Import Prelude Kinds Text FileOrder Dependency EditMap EditRemap Derivation Readers KeyTable FactKey CopyOnWrite CopyOnWriteProofs DeclTree DeclWalk ModuleIndex ModuleIndexProofs GlobalIndex GlobalIndexProofs GlobalTaskProofs.
From stdpp Require Import list gmap sorting.
Local Open Scope prog_scope.

(** ** Tiers *)

Lemma push_tier_in tiers p d q l : StronglySorted N.lt tiers.*1 ->
  (q, l) ∈ push_tier tiers p d
  <-> (q <> p /\ (q, l) ∈ tiers) \/ (q = p /\ ((exists l0, (p, l0) ∈ tiers /\ l = l0 ++ [d]) \/ (p ∉ tiers.*1 /\ l = [d]))).
Proof.
  induction tiers as [|[r m] tiers IH]; cbn; intros Hs; [set_solver|]. apply StronglySorted_inv in Hs as [Hs Hr].
  assert (Hlt : forall x m', (x, m') ∈ tiers -> (r < x)%N).
  { intros x m' Hin. apply (list_elem_of_fmap_2 fst) in Hin. eapply Forall_forall in Hr; done. }
  assert (Hin1 : forall x m', (x, m') ∈ tiers -> x ∈ tiers.*1) by (intros x m' Hin; by apply (list_elem_of_fmap_2 fst) in Hin).
  destruct (N.compare_spec p r) as [->|Hpr|Hpr]; cbn iota beta.
  - rewrite !elem_of_cons. split.
    + intros [[= -> ->]|Hin]; [right; split; [done|left; exists m; split; [by left|done]]|].
      left. split; [|by right]. intros ->. apply Hlt in Hin. lia.
    + intros [[Hq [[= -> ->]|Hin]]|[-> [(l0 & [[= ->]|Hin]%elem_of_cons & ->)|[Hn ->]]]]; [done|by right|by left| |].
      * apply Hlt in Hin. lia.
      * destruct Hn. by left.
  - rewrite !elem_of_cons. split.
    + intros [[= -> ->]|Hin]; [|left; split; [|done]].
      * right. split; [done|]. right. split; [|done]. intros [->|Hin]; [lia|].
        apply list_elem_of_fmap in Hin as ([x m'] & -> & Hin). apply Hlt in Hin. cbn in *. lia.
      * intros ->. destruct Hin as [[= -> ->]|Hin]; [lia|]. apply Hlt in Hin. lia.
    + intros [[_ Hin]|[-> [(l0 & [[= -> ->]|Hin]%elem_of_cons & ->)|[_ ->]]]]; [by right|lia| |by left]. apply Hlt in Hin. lia.
  - rewrite !elem_of_cons, IH by done. split.
    + intros [[= -> ->]|[[Hq Hin]|[-> [(l0 & Hin & ->)|[Hn ->]]]]].
      * left. split; [lia|by left].
      * left. split; [done|by right].
      * right. split; [done|]. left. exists l0. split; [by right|done].
      * right. split; [done|]. right. split; [|done]. intros [->|?]; [lia|done].
    + intros [[Hq [[= -> ->]|Hin]]|[-> [(l0 & [[= -> ->]|Hin]%elem_of_cons & ->)|[Hn ->]]]]; [by left|right; by left|lia| |].
      * right. right. split; [done|]. left. by exists l0.
      * right. right. split; [done|]. right. split; [|done]. intros Hin. apply Hn. by right.
Qed.

Lemma push_tier_sorted tiers p d : StronglySorted N.lt tiers.*1 -> StronglySorted N.lt (push_tier tiers p d).*1.
Proof.
  induction tiers as [|[r m] tiers IH]; cbn; intros Hs; [repeat constructor|]. assert (Hs' := Hs). apply StronglySorted_inv in Hs as [Hs Hr].
  destruct (N.compare_spec p r) as [->|Hpr|Hpr]; cbn; [done| |].
  - constructor; [done|]. constructor; [done|]. eapply Forall_impl; [exact Hr|]. cbn. lia.
  - constructor; [by apply IH|]. apply Forall_forall. intros x ([x' l] & -> & Hin)%list_elem_of_fmap.
    apply push_tier_in in Hin as [[_ Hin]|[-> _]]; [|done|done]. apply (list_elem_of_fmap_2 fst) in Hin. eapply Forall_forall in Hr; done.
Qed.

Section Tiers.
Variable priority : LuaDeclId -> option N.

Definition tiers_of (ds : list LuaDeclId) : list (N * list LuaDeclId) :=
  foldl (fun tiers d => match priority d with Some p => push_tier tiers p d | None => tiers end) [] ds.

Lemma tiers_of_spec ds :
  StronglySorted N.lt (tiers_of ds).*1 /\ forall p l, (p, l) ∈ tiers_of ds <-> l = filter (fun d => priority d = Some p) ds /\ l <> [].
Proof.
  induction ds as [|d ds [I1 I2]] using rev_ind; [split; [constructor|]; intros p l; cbn; split; [by intros ?%elem_of_nil|by intros [-> ?]]|].
  unfold tiers_of. rewrite foldl_app. cbn. fold (tiers_of ds). destruct (priority d) as [p|] eqn:Hp.
  - split; [by apply push_tier_sorted|]. intros q l. rewrite push_tier_in, filter_app, I2, filter_cons, filter_nil by done.
    assert (Hn : p ∉ (tiers_of ds).*1 <-> filter (fun d => priority d = Some p) ds = []).
    { split.
      - intros Hn. destruct (filter _ ds) eqn:Hf; [done|]. destruct Hn. apply (list_elem_of_fmap_2 fst _ (p, l0 :: l1)). by apply I2.
      - intros Hf ([p' l'] & -> & Hin)%list_elem_of_fmap. apply I2 in Hin as [-> Hne]. done. }
    destruct (decide (q = p)) as [->|Hq].
    + rewrite decide_True by done. split.
      * intros [[? _]|[_ [(l0 & [-> Hl0]%I2 & ->)|[Hf ->]]]]; [done| |]; [split; [done|]|].
        -- by intros []%app_eq_nil.
        -- apply Hn in Hf. by rewrite Hf.
      * intros [-> _]. right. split; [done|]. destruct (decide (filter (fun d => priority d = Some p) ds = [])) as [Hf|Hf].
        -- right. rewrite Hf. by apply Hn in Hf.
        -- left. eexists. split; [|done]. by apply I2.
    + rewrite decide_False by congruence. rewrite app_nil_r. naive_solver.
  - split; [done|]. intros q l. rewrite I2, filter_app, filter_cons, filter_nil, decide_False by congruence. by rewrite app_nil_r.
Qed.

Lemma first_tier ds :
  match tiers_of ds with
  | [] => forall d, d ∈ ds -> priority d = None
  | (p, l) :: _ => l = filter (fun d => priority d = Some p) ds /\ l <> [] /\ forall d q, d ∈ ds -> priority d = Some q -> (p <= q)%N
  end.
Proof.
  destruct (tiers_of_spec ds) as [Hs Hin].
  assert (Hp : forall d q, d ∈ ds -> priority d = Some q -> (q, filter (fun d => priority d = Some q) ds) ∈ tiers_of ds).
  { intros d q Hd Hq. apply Hin. split; [done|]. intros Hf. assert (Hd' : d ∈ filter (fun d => priority d = Some q) ds) by (by apply list_elem_of_filter).
    rewrite Hf in Hd'. by apply elem_of_nil in Hd'. }
  destruct (tiers_of ds) as [|[p l] tiers].
  - intros d Hd. destruct (priority d) as [q|] eqn:Hq; [|done]. specialize (Hp d q Hd Hq). by apply elem_of_nil in Hp.
  - destruct (proj1 (Hin p l)) as [Hl Hne]; [set_solver|]. split_and!; [done..|]. intros d q Hd Hq.
    specialize (Hp d q Hd Hq). apply elem_of_cons in Hp as [[= -> _]|Hp]; [done|].
    cbn in Hs. apply StronglySorted_inv in Hs as [_ Hs]. apply (list_elem_of_fmap_2 fst) in Hp. eapply Forall_forall in Hs; [|exact Hp]. cbn in Hs. lia.
Qed.
End Tiers.

Section Spec.
Context {LuaType VarRefId : Type} (scan_hash : Entry * rstring -> N) (list_hash : list LuaDeclId -> N).
Notation Index := (LuaGlobalIndex LuaType VarRefId).
Implicit Types self : Index.
Notation global_ok := (global_ok scan_hash).

(** ** Operations *)

Inductive Op : Type :=
  | OnDecl (op : TaskOp)
  | Rekey (keys : list (FileId * rstring))
  | RemoveFile (f : FileId)
  | RemoveFiles (fs : list FileId)
  | ClearAll.

Definition apply self (op : Op) : Index :=
  match op with
  | OnDecl op => apply_task scan_hash self op
  | Rekey keys => LuaGlobalIndex.rekey_files scan_hash self keys
  | RemoveFile f => LuaGlobalIndex.remove scan_hash self f
  | RemoveFiles fs => LuaGlobalIndex.remove_files scan_hash self fs
  | ClearAll => LuaGlobalIndex.clear self
  end.

Definition run (ops : list Op) : Index := foldl apply LuaGlobalIndex.new ops.

Lemma global_apply_ok self op : global_ok self -> global_ok (apply self op).
Proof.
  intros Hok. destruct op as [[name d key|name d]|keys|f|fs|]; cbn.
  - by apply add_global_decl_ok.
  - by apply remove_global_decl_ok.
  - by apply rekey_files_ok.
  - by apply retain_decls_ok.
  - by apply retain_decls_ok.
  - apply clear_ok.
Qed.

Lemma global_run_ok ops : global_ok (run ops).
Proof.
  induction ops as [|op ops IH] using rev_ind; [apply new_globals_ok|]. unfold run in *. rewrite foldl_app. by apply global_apply_ok.
Qed.

Lemma scan_of_all_ok self : global_ok self -> LuaGlobalIndex.scan_of_all scan_hash self = scan_fingerprint self.
Proof.
  intros [_ _ ->]. unfold LuaGlobalIndex.scan_of_all, entries. change 0%N with (0 mod 2 ^ 64)%N at 1.
  rewrite <- (N.add_0_l (scan_sum _ _ _)). generalize 0%N.
  induction (map_to_list (global_decl self)) as [|[n l] es IH]; intros s; [cbn; by rewrite N.add_0_r|].
  rewrite !fmap_cons. cbn [concat fst snd]. rewrite foldl_app, scan_sum_app, N.add_assoc, <- IH. f_equal.
  clear. revert s. induction l as [|d l IH]; intros s; [cbn; by rewrite N.add_0_r|].
  change (flat (n, d :: l)) with ((n, d) :: flat (n, l)). rewrite fmap_cons. cbn [foldl]. rewrite wrapping_add_mod, IH. f_equal.
  cbn [scan_sum foldr fst snd]. symmetry. apply N.add_assoc.
Qed.

(** ** What is noted *)

(** A step notes every list that it changes, and the scan. *)
Definition notes_changes self self' : Prop :=
  exists written, noted self' = noted self ++ written
    /\ (forall name, global_decl self' !! name <> global_decl self !! name -> FactKey.Global name ∈ written)
    /\ (scan_fingerprint self' <> scan_fingerprint self -> FactKey.GlobalScan ∈ written).

Lemma notes_nothing self self' : noted self' = noted self -> global_decl self' = global_decl self ->
  scan_fingerprint self' = scan_fingerprint self -> notes_changes self self'.
Proof. intros H1 H2 H3. exists []. split_and!; [by rewrite app_nil_r|intros name; by rewrite H2|by rewrite H3]. Qed.

Lemma notes_one self self' name : noted self' = noted self ++ LuaGlobalIndex.global_write name ->
  (forall n, n <> name -> global_decl self' !! n = global_decl self !! n) -> notes_changes self self'.
Proof.
  intros H1 H2. exists (LuaGlobalIndex.global_write name). split_and!; [done| |intros _; unfold LuaGlobalIndex.global_write; set_solver]. intros n Hn.
  destruct (decide (n = name)) as [->|Hne]; [unfold LuaGlobalIndex.global_write; set_solver|]. by destruct Hn; apply H2.
Qed.

Lemma on_decl_notes self op : notes_changes self (apply_task scan_hash self op).
Proof.
  destruct op as [name d key|name d]; cbn [apply_task].
  - unfold LuaGlobalIndex.add_global_decl. fold (order_with (file_order self) d key). set (order := order_with _ d key).
    destruct (insert_decl_sorted order d _) as [l|] eqn:Hi; [|apply notes_nothing; [done| |done]].
    + apply (notes_one _ _ name); [done|]. intros n Hn. by apply lookup_insert_ne.
    + cbn. destruct (global_decl self !! name) as [l|] eqn:Hl; [by apply insert_id; rewrite Hl|]. discriminate Hi.
  - unfold LuaGlobalIndex.remove_global_decl. destruct (global_decl self !! name) as [l|]; [|by apply notes_nothing].
    destruct (list_find (eq d) l) as [[i x]|]; [|by apply notes_nothing]. apply (notes_one _ _ name); [done|]. intros n Hn. cbn.
    case_bool_decide; [by apply lookup_delete_ne|by apply lookup_insert_ne].
Qed.

Lemma elem_of_writes (names : list GlobalId) name : name ∈ names ->
  FactKey.Global name ∈ concat (LuaGlobalIndex.global_write (LuaType := LuaType) (VarRefId := VarRefId) <$> names)
  /\ FactKey.GlobalScan ∈ concat (LuaGlobalIndex.global_write (LuaType := LuaType) (VarRefId := VarRefId) <$> names).
Proof. induction names as [|n names IH]; [by intros ?%elem_of_nil|]. intros [->|Hn]%elem_of_cons; cbn; set_solver. Qed.

Lemma retain_notes_changes self removed : global_ok self -> notes_changes self (LuaGlobalIndex.retain_decls scan_hash self removed).
Proof.
  intros Hok. destruct (retain_decls_ok scan_hash self removed Hok) as (Hok' & Hd & Ho). revert Hok' Hd Ho. cbv zeta. unfold LuaGlobalIndex.retain_decls.
  assert (H := retain_notes (LuaType := LuaType) (VarRefId := VarRefId) scan_hash (file_order self) removed (map_to_list (global_decl self)) (global_decl self) (scan_fingerprint self) []).
  destruct (foldl _ _ _) as [[decls scan] notes]. destruct H as (written & -> & H1 & H2). cbn [app]. intros Hok' Hd Ho. cbn in Hd, Ho.
  exists written. split_and!; [done| |]; cbn.
  - intros name Hne. destruct (decide (Exists (fun e => e.1 = name /\ kept removed e.2 <> e.2) (map_to_list (global_decl self)))) as [He|He].
    { apply Exists_exists in He as ([n l] & Hin & <- & Hl). by apply (H1 n l). }
    exfalso. apply Hne.
    assert (Hkept : forall d, declared (global_decl self) (name, d) -> removed (decl_file_id d) = false).
    { intros d (l & Hl & Hd'). cbn in Hl, Hd'. apply elem_of_map_to_list in Hl. destruct (decide (kept removed l = l)) as [Hk|Hk].
      - rewrite <- Hk in Hd'. by apply list_elem_of_filter in Hd' as [? _].
      - destruct He. apply Exists_exists. by exists (name, l). }
    apply (list_ext (filter (fun e => removed e.1 = false) (file_order self)) (file_order self)); [apply Hok'|apply Hok| |].
    + intros d. rewrite Hd. cbn. specialize (Hkept d). tauto.
    + intros d [Hd' Hr]%Hd. cbn in Hr. destruct (go_known _ _ Hok (name, d) Hd') as [k Hk]. cbn in Hk. rewrite Hk. by apply map_lookup_filter_Some.
  - intros Hne. destruct (decide (Exists (fun e => kept removed e.2 <> e.2) (map_to_list (global_decl self)))) as [He|He].
    { apply Exists_exists in He as ([n l] & Hin & Hl). by apply (H1 n l). }
    destruct Hne. apply H2. intros n l Hin. destruct (decide (kept removed l = l)) as [|Hk]; [done|].
    destruct He. apply Exists_exists. by exists (n, l).
Qed.

Lemma rekey_notes self keys : global_ok self -> notes_changes self (LuaGlobalIndex.rekey_files scan_hash self keys).
Proof.
  intros Hok. unfold LuaGlobalIndex.rekey_files. case_bool_decide; [by apply notes_nothing|].
  set (named := filter _ (map_to_list _)). set (order := foldl _ (file_order self) _). set (files := list_to_set _).
  assert (Hnd : NoDup named.*1) by (eapply sublist_NoDup; [apply (NoDup_fst_map_to_list (global_decl self))|apply fmap_sublist, sublist_filter]).
  exists (concat (LuaGlobalIndex.global_write <$> named.*1)). split_and!; [done| |].
  - intros name Hne. apply elem_of_writes. destruct (decide (name ∈ named.*1)) as [|Hn]; [done|]. destruct Hne. cbn.
    change (foldl _ (global_decl self) named.*1) with (reordered order (global_decl self) named.*1).
    by rewrite reordered_lookup, decide_False, option_fmap_id by done.
  - destruct named as [|[n l] named]; [|intros _; apply (elem_of_writes _ n); set_solver].
    intros Hne. destruct Hne. cbn -[N.pow]. assert (Hb : (scan_fingerprint self < 2 ^ 64)%N) by (rewrite (go_scan _ _ Hok); apply scan_mod_bound).
    unfold wrapping_add, wrapping_sub. rewrite N.sub_0_r, N.add_0_r.
    replace (scan_fingerprint self + 2 ^ 64)%N with (scan_fingerprint self + 1 * 2 ^ 64)%N by lia.
    rewrite N.Div0.mod_mod, N.Div0.mod_add. by apply N.mod_small.
Qed.

Lemma clear_notes self : global_ok self -> notes_changes self (LuaGlobalIndex.clear self).
Proof.
  intros Hok. exists (concat (LuaGlobalIndex.global_write <$> (map_to_list (global_decl self)).*1)). split_and!; [done| |].
  - intros name Hne. apply elem_of_writes. cbn in Hne. rewrite lookup_empty in Hne.
    destruct (global_decl self !! name) as [l|] eqn:Hl; [|done]. apply (list_elem_of_fmap_2 fst _ (name, l)). by apply elem_of_map_to_list.
  - intros Hne. destruct (map_to_list (global_decl self)) as [|[n l] es] eqn:He; [|apply (elem_of_writes _ n); set_solver].
    destruct Hne. rewrite (go_scan _ _ Hok).
    assert (entries (global_decl self) = []) as -> by exact (f_equal (fun l => concat (flat <$> l)) He). done.
Qed.

(** ** Theorems *)

(** C20: whatever was declared, withdrawn, moved, removed and cleared, no global has
    an empty list, the declarations of every global are strictly in the order of
    path, position and file, the fingerprint of the scan is the one that folding
    all declarations gives, and two histories that leave the same declarations, in
    files of the same keys, leave the same lists and the same fingerprint. *)
Theorem globals_in_order ops1 ops2 :
  let self1 := run ops1 in
  let self2 := run ops2 in
  (forall name ds, global_decl self1 !! name = Some ds -> ds <> [] /\ StronglySorted (fun a b => decl_cmp (file_order self1) a b = Lt) ds)
  /\ LuaGlobalIndex.fact_fingerprint scan_hash list_hash self1 true FactKey.GlobalScan
     = LuaGlobalIndex.fact_fingerprint scan_hash list_hash self1 false FactKey.GlobalScan
  /\ ((forall name d, d ∈ default [] (global_decl self1 !! name) <-> d ∈ default [] (global_decl self2 !! name)) ->
      (forall name d, d ∈ default [] (global_decl self1 !! name) -> file_order self1 !! decl_file_id d = file_order self2 !! decl_file_id d) ->
      global_decl self1 = global_decl self2 /\ scan_fingerprint self1 = scan_fingerprint self2).
Proof.
  intros self1 self2. assert (O1 := global_run_ok ops1). assert (O2 := global_run_ok ops2). fold self1 in O1. fold self2 in O2. split_and!.
  - apply O1.
  - cbn. by apply scan_of_all_ok.
  - intros Hd Ho. apply (global_ext scan_hash); [done..| |].
    + intros [n d]. rewrite !declared_default. apply Hd.
    + intros [n d] Hp. apply declared_default in Hp. by apply (Ho n).
Qed.

(** C19: when the keys of the files are those of one file system and no two tasks
    touch the same declaration of a global, the forks of the tasks are installed
    without a conflict and leave the lists, the keys of the files and the
    fingerprint that running the tasks one after another leaves. *)
Theorem superstep_is_sequential ops key_of (tasks : list (list TaskOp)) :
  keyed key_of (file_order (run ops)) -> Forall (Forall (op_keyed key_of)) tasks -> ForallOrdPairs untouched_by tasks ->
  let base := run ops in
  let '(self, reported) := LuaGlobalIndex.install_tasks_reporting base base (run_task scan_hash (LuaGlobalIndex.task_fork base) <$> tasks) in
  let in_turn := run_task scan_hash base (concat tasks) in
  Forall (fun conflicts => conflicts = []) reported
  /\ global_decl self = global_decl in_turn /\ file_order self = file_order in_turn /\ scan_fingerprint self = scan_fingerprint in_turn.
Proof.
  intros Hkey Hops Hpairs base. assert (Hok : global_ok base) by apply global_run_ok.
  unfold LuaGlobalIndex.install_tasks_reporting, LuaGlobalIndex.task_fork.
  destruct (install_tasks_after scan_hash key_of base base [] tasks [] Hok Hkey Hops) as (self & -> & Hself); [| |done|].
  - split; [done|done|]. intros f. cbn. by destruct (file_order base !! f).
  - apply Forall_forall. intros ops' _ op op' Hop. by apply elem_of_nil in Hop.
  - assert (Hrun := run_task_after scan_hash key_of base (concat tasks) Hok (proj2 (Forall_concat _ _) Hops)). cbn [app] in Hself.
    destruct Hself as [S1 S2 S3], Hrun as [R1 R2 R3].
    assert (Ho : file_order self = file_order (run_task scan_hash base (concat tasks))) by (apply map_eq; intros f; by rewrite S3, R3).
    destruct (global_ext scan_hash self (run_task scan_hash base (concat tasks)) S1 R1) as [Hd Hs].
    + intros p. by rewrite S2, R2.
    + intros p _. by rewrite Ho.
    + split_and!; [|done..]. apply Forall_forall. by intros c (x & -> & _)%list_elem_of_fmap.
Qed.

(** C22: of a global, a workspace is given the declarations of the least priority
    that it sees, all of them, in their order, and nothing exactly when it sees
    none. *)
Theorem workspace_sees_nearest {Regex : Type} (modules : LuaModuleIndex LuaType VarRefId Regex) self name workspace :
  let priority := LuaGlobalIndex.decl_priority modules workspace in
  let ds := default [] (global_decl self !! name) in
  match LuaGlobalIndex.get_global_decl_ids_in_workspace modules self name workspace with
  | Some seen => exists nearest, seen = filter (fun d => priority d = Some nearest) ds /\ seen <> []
      /\ (forall d p, d ∈ ds -> priority d = Some p -> (nearest <= p)%N)
      /\ LuaGlobalIndex.is_exist_global_decl_in_workspace modules self name workspace = true
  | None => (forall d, d ∈ ds -> priority d = None)
      /\ LuaGlobalIndex.is_exist_global_decl_in_workspace modules self name workspace = false
  end.
Proof.
  intros priority ds. unfold LuaGlobalIndex.is_exist_global_decl_in_workspace, LuaGlobalIndex.get_global_decl_ids_in_workspace,
    LuaGlobalIndex.get_global_decl_id_priority_tiers, LuaGlobalIndex.get_global_decl_ids.
  subst ds. destruct (global_decl self !! name) as [ds|]; [|split; [by intros d ?%elem_of_nil|done]].
  change (foldl _ [] ds) with (tiers_of priority ds). assert (H := first_tier priority ds).
  destruct (tiers_of priority ds) as [|[p l] tiers]; [by rewrite bool_decide_eq_true_2|].
  rewrite bool_decide_eq_false_2 by done. cbn. destruct H as (-> & Hne & Hp). exists p. split_and!; [done..|].
  by rewrite bool_decide_eq_false_2.
Qed.

(** C21: after any history, a step that changes what a key of the index stands for,
    the list of a global or the scan of all of them, has told the recorded
    evaluation that it wrote the key; what was noted before stays. *)
Theorem global_changes_noted ops op :
  exists written, noted (apply (run ops) op) = noted (run ops) ++ written
    /\ forall mapping_back key,
         key ∈ written \/ LuaGlobalIndex.fact_fingerprint scan_hash list_hash (apply (run ops) op) mapping_back key
                          = LuaGlobalIndex.fact_fingerprint scan_hash list_hash (run ops) mapping_back key.
Proof.
  assert (Hok := global_run_ok ops). set (self := run ops) in *. clearbody self. assert (Hok' := global_apply_ok self op Hok).
  assert (H : notes_changes self (apply self op)).
  { destruct op as [op|keys|f|fs|]; cbn [apply]; [apply on_decl_notes|by apply rekey_notes|by apply retain_notes_changes..|by apply clear_notes]. }
  destruct H as (written & Hw & H1 & H2). exists written. split; [done|]. intros mapping_back key.
  destruct key; try by right. all: cbn [LuaGlobalIndex.fact_fingerprint].
  - destruct (decide (global_decl (apply self op) !! name = global_decl self !! name)) as [->|Hne]; [by right|]. left. by apply H1.
  - rewrite !scan_of_all_ok by done. destruct (decide (scan_fingerprint (apply self op) = scan_fingerprint self)) as [He|Hne]; [|left; by apply H2].
    right. by rewrite He.
Qed.
End Spec.

(** ** On concrete globals *)

Module Sample.
Definition Index : Type := LuaGlobalIndex unit unit.

(** A hash for the samples. *)
Definition hash (p : Entry * rstring) : N :=
  foldl (fun h c => (h * 31 + c) mod 2 ^ 64)%N (decl_file_id p.1.2 + 7 * decl_position p.1.2)%N (p.1.1 ++ p.2).

Definition PANEL : rstring := [80; 65; 78; 69; 76]%N.
Definition Foo : rstring := [70; 111; 111]%N.
Definition decl (f : FileId) : LuaDeclId := mkDeclId f 0.
(** Files 1, 2, 3 and 4 are b.lua, a.lua, c.lua and d.lua. *)
Definition key_of (f : FileId) : rstring :=
  match f with 1 => [98] | 2 => [97] | 3 => [99] | _ => [100] end%N.

Definition base_ops : list Op := [OnDecl (TaskAdd PANEL (decl 3%N) (key_of 3%N)); OnDecl (TaskAdd PANEL (decl 4%N) (key_of 4%N)); OnDecl (TaskAdd Foo (decl 3%N) (key_of 3%N))].

Definition tasks : list (list TaskOp) :=
  [[TaskAdd PANEL (decl 1%N) (key_of 1%N); TaskRemove Foo (decl 3%N)];
   [TaskAdd PANEL (decl 2%N) (key_of 2%N); TaskRemove PANEL (decl 4%N)]].

Definition base : Index := run hash base_ops.

Example both_land_in_order :
  let '(self, reported) := LuaGlobalIndex.install_tasks_reporting base base (run_task hash base <$> tasks) in
  global_decl self !! PANEL = Some [decl 2%N; decl 1%N; decl 3%N] /\ global_decl self !! Foo = None /\ reported = [[]; []].
Proof. by vm_compute. Qed.

(** The condition on the tasks: when two declare the same, the list has it once and
    the fingerprint twice; the index of declarations reports the conflict. *)
Example same_declaration_counted_twice :
  let twice := [[TaskAdd PANEL (decl 1%N) (key_of 1%N)]; [TaskAdd PANEL (decl 1%N) (key_of 1%N)]] in
  let self := (LuaGlobalIndex.install_tasks_reporting base base (run_task hash base <$> twice)).1 in
  scan_fingerprint self <> LuaGlobalIndex.scan_of_all hash self.
Proof. vm_compute. discriminate. Qed.

Example renamed_file_moves :
  let self := run (LuaType := unit) (VarRefId := unit) hash (base_ops ++ [Rekey [(4%N, [97; 97]%N)]]) in
  global_decl self !! PANEL = Some [decl 4%N; decl 3%N].
Proof. by vm_compute. Qed.

Example removed_and_back :
  let add := OnDecl (TaskAdd PANEL (decl 3%N) (key_of 3%N)) in
  let self := run (LuaType := unit) (VarRefId := unit) hash (base_ops ++ [RemoveFile 3%N; add; OnDecl (TaskAdd Foo (decl 3%N) (key_of 3%N))]) in
  global_decl self = global_decl base /\ scan_fingerprint self = scan_fingerprint base.
Proof. by vm_compute. Qed.

Lemma superstep_is_sequential_witness :
  keyed key_of (file_order base) /\ Forall (Forall (op_keyed key_of)) tasks /\ ForallOrdPairs untouched_by tasks /\
  let '(self, reported) := LuaGlobalIndex.install_tasks_reporting base base (run_task hash (LuaGlobalIndex.task_fork base) <$> tasks) in
  let in_turn := run_task hash base (concat tasks) in
  Forall (fun conflicts => conflicts = []) reported
  /\ global_decl self = global_decl in_turn /\ file_order self = file_order in_turn /\ scan_fingerprint self = scan_fingerprint in_turn.
Proof.
  assert (H1 : keyed key_of (file_order base)).
  { assert (H : Forall (fun e => e.2 = key_of e.1) (map_to_list (file_order base))) by (vm_compute; repeat constructor).
    intros f k Hf. apply elem_of_map_to_list in Hf. eapply Forall_forall in H; [|exact Hf]. exact H. }
  assert (H2 : Forall (Forall (op_keyed key_of)) tasks) by (repeat constructor).
  assert (H3 : ForallOrdPairs untouched_by tasks).
  { repeat constructor. intros op op' Hop Hop'.
    repeat match goal with H : _ ∈ _ :: _ |- _ => apply elem_of_cons in H as [->|H] | H : _ ∈ [] |- _ => by apply elem_of_nil in H end; done. }
  split; [exact H1|]. split; [exact H2|]. split; [exact H3|].
  exact (superstep_is_sequential hash base_ops key_of tasks H1 H2 H3).
Defined.
End Sample.
